(* ===== verification/_CoqProject ===== *)
-Q . S2P
Prelude.v
CMem.v
CInt.v
StrLocal.v
StrMem.v
StrStr.v
Demo.v
StringProps.v
Malloc.v
MallocList.v
MallocHeap.v
MallocSys.v
MallocProps.v
Alloc.v
Search.v
SearchProps.v
Tree.v
TreeSpec.v
TreeWalk.v
TreeProps.v
Time.v
TimeSpec.v
TimeProps.v
Utf8.v
Convert.v
Strto.v
TextProps.v
Printf.v
PrintfSpec.v
PrintfConv.v
PrintfRun.v
Stdio.v
StdioSpec.v
StdioStream.v
StdioProps.v
Sprintf.v
Scanf.v
ScanfSpec.v
ScanfRun.v
ScanfFormat.v
Sscanf.v
ScanPrint.v
PrintfProps.v
ScanfProps.v
Float.v
Libm.v
LibmRound.v
LibmFmod.v
LibmSqrt.v
LibmScale.v
LibmNext.v
LibmProps.v
Xdr.v
XdrSpec.v
XdrMem.v
XdrDecode.v
XdrString.v
XdrRound.v
XdrProps.v
Argz.v
ArgzSpec.v
ArgzArray.v
ArgzProps.v
Exit.v
ExitSpec.v
ExitProps.v
Ctype.v
Fnmatch.v
FnmatchSpec.v
FnmatchProps.v
Uchar.v
UcharSpec.v
UcharAccept.v
UcharProps.v
