(* ===== verification/Prelude.v ===== *)
(** * picolibc: a verification development

    picolibc is a C library for small systems.  This development models parts of
    it that carry its own logic and proves what makes them correct.  Paths are
    relative to src/.

    ** The program and its parts

    - the string library (libc/string): functions on blocks of bytes and on
      NUL-terminated strings.  Most have two builds, a loop over bytes and a loop
      over aligned words; both are modelled;
    - the allocator (libc/stdlib/malloc.c and its neighbours): a free list
      threaded through memory obtained from sbrk (libos/fallback/sbrk.c);
    - search and sort (libc/search): qsort, bsearch, and binary search trees
      whose nodes come from the allocator;
    - calendar time (libc/time): gmtime_r, mktime, timegm, localtime_r and the
      daylight saving rules;
    - encodings, conversions and generators (libc/stdlib, libc/stdio/strtoi.h):
      the UTF-8 codec, itoa, strtol and its siblings, l64a/a64l, rand48;
    - buffered streams (libc/stdio/bufio.c and the calls above it), over a device
      that reads, writes and seeks;
    - formatted output and input (libc/stdio/vfprintf.c, vfscanf.c and the files
      they include), over streams on memory and on buffered files;
    - the functions of the math library on doubles that need no approximation
      (libm/math, libm/common): rounding to integers, remainder, square root,
      exponents and neighbours;
    - external data representation (libc/xdr): filters that translate objects to
      and from a stream, and the streams on memory and for sizes;
    - argument and environment vectors (libc/argz): blocks of strings that grow and
      shrink with realloc;
    - exit handlers (libc/stdlib/exitprocs.c, quick-exit.c, exit.c, misc/fini.c): the
      tables of functions that exit and quick_exit call;
    - character classes (libc/ctype) and the matching of file names that uses them
      (libc/posix/fnmatch.c);
    - characters of 8, 16 and 32 bits (libc/uchar), converted unit by unit to and from
      the multibyte encoding.

    They interact as in the code: realloc and calloc call the memory functions of
    the string library, through the record of operations [MemFns] of [Malloc]; the
    search trees call malloc and free, through the class [AllocOk] of [Alloc],
    which the allocator's invariant discharges; the streams call a device, through
    the class [Device] of [Stdio] with the laws [DeviceOk] of [StdioSpec]; printf
    and scanf call a stream, through the classes [PutStream] of [Printf] and
    [GetStream] of [Scanf] (with the laws [GetStreamOk] of [ScanfSpec]), which
    strings in memory and buffered files implement in [Sprintf] and [Sscanf]; the
    XDR filters call a stream, through the class [XdrOps] of [Xdr] with the laws
    [EncStream] of [XdrSpec], and the allocator, through [AllocOk]; so do
    the argument vectors, which also call the string library; atoi calls strtol,
    and mktime and localtime_r share the zone's rules.

    ** How C is modelled

    A C function is a Rocq function into the monad [C S] of [CMem]: state in,
    result and state out, [None] for a fault.  An access to an unmapped address, a
    misaligned word access, an array index out of range and a signed overflow
    (positions in files, of the 64-bit type __off_t, included) are faults; the one
    shift of [fmod_result] that C leaves undefined is taken in two's complement.  Integers are [Z], and every unsigned operation that can wrap is
    written with [uwrap] at its width; the class [Arch] gives the width of long
    and of pointers (32 or 64) and the byte order.  Memory is a finite map from
    addresses to bytes, so that aliasing, overlap and reads beyond an object are
    visible.

    A loop that is not structural takes fuel, and running out of fuel is [None]
    too: every theorem of the form "the call is [Some _]" therefore also says that
    the function returns.  The fuel a theorem asks for is explicit and linear in
    the size of the input (the length of a string or block, the number of chunks
    of a heap, the height of a tree, the number of calls), except for qsort, whose
    bound is given in [Search]; more fuel never changes a result ([mono] of
    [CMem]).

    ** Files

    - [Prelude]: machine integers, tactics, lemmas on lists and bit fields;
      [CMem]: the monad, memory, blocks of bytes; [CInt]: integers of any size in
      memory; [Demo]: concrete memories.
    - [StrLocal] (string/local.h), [StrMem] (mem*.c), [StrStr] (str*.c),
      [StringProps]: the fast and the small build of each function both compute
      the same specification, write only what they may, and read no byte outside
      the words that hold their input.
    - [Malloc]: malloc, free, realloc, calloc, memalign, the aligned sbrk and the
      free-list walks.  [MallocList]: the free list as a list of chunks and what
      each walk does to it.  [MallocHeap]: the invariant of the heap (chunks,
      sizes, marks, the address order of the free list, disjointness) and the
      specification of every call.  [MallocSys]: sequences of legal calls as a step
      relation, and the heaps they reach.  [MallocProps]: in every reachable heap
      the client's blocks are aligned, mapped and disjoint, every legal call
      returns; the exact outcome of malloc (first fit, then the aligned block of
      sbrk, and the refusals), overflow and double free.
    - [Alloc]: what a client may assume of malloc, calloc, realloc and free, and the
      proof that the model of the allocator provides it.
    - [Search] (qsort.c, bsearch.c), [SearchProps]: qsort permutes for any
      comparison and sorts for an ordering; bsearch is right and logarithmic.
    - [Tree] (tsearch.c, tfind.c, tdelete.c, twalk.c, tdestroy.c), [TreeSpec],
      [TreeWalk], [TreeProps]: trees of nodes in memory represent functional search
      trees; insertion, deletion, walk and destruction refine those of the
      functional tree, and every node is allocated and freed exactly once.
    - [Time] (gmtime_r.c, mktime.c, tzcalc_limits.c, lcltime_r.c, part of tzset.c),
      [TimeSpec] (the proleptic Gregorian calendar), [TimeProps]: the conversions
      compute the calendar for every second and every normalisable date, and
      invert each other; daylight saving time is between the instants that the
      zone's rules fix in the calendar ([dst_flag]).
    - [Utf8] (mbtowc_r.c, wctomb_r.c), [Convert] (utoa.c, itoa.c, l64a.c, a64l.c,
      rand48), [Strto] (stdio/strtoi.h and its instances, atoi.c, atol.c,
      atoll.c), [TextProps]: codec and number conversions against reference
      definitions, with their round trips and error cases.
    - [Stdio] (bufio.c, fgetc.c, ungetc.c, fputc.c, fflush.c, fseek.c, ftell.c,
      fread.c, fwrite.c, fgets.c, fputs.c and the helpers of local-stdio.h),
      [StdioSpec] (the invariant of the buffer and each operation's effect on the
      abstract file), [StdioStream] (the abstract stream and the simulation),
      [StdioProps]: a buffered stream behaves as the file it stands for, with its
      position, the pushed-back character and the two indicators, while positions
      fit in __off_t and those of ftell in long; the errors of the fast block write
      and of a refused seek.
    - [Printf] (vfprintf.c, vfprintf_int.c, vfprintf_str.c, vfprintf_char.c,
      ultoa_invert.c, in the integer variants), [PrintfSpec] (formats as sequences
      of pieces and the text each stands for), [PrintfConv] and [PrintfRun] (each
      part of the conversion loop puts its part of the text), [Sprintf]
      (filestrput.c, vsnprintf.c, vsprintf.c, fprintf.c), [PrintfProps]: the output
      is exactly the reference's, the bounds of buffers hold, and what happens when
      the stream refuses a character or the format ends in a percent sign.
    - [Scanf] (vfscanf.c in the integer variants, scanf_private.h), [ScanfSpec]
      (the contract of streams; fields, formats and the reference), [ScanfRun] and
      [ScanfFormat] (each conversion, then the loop over the format), [Sscanf]
      (filestrget.c, vsscanf.c, fscanf.c), [ScanPrint] (what printf wrote is read
      back), [ScanfProps]: input taken, values stored and result are exactly the
      reference's, for matches, mismatches and the end of the input, for the field
      widths that are documented.

    - [Float]: the IEEE 754 formats as bit patterns, the numbers they stand for as
      integers, rounding in the four modes, and the few operations the library
      uses; the choice of NaNs is a parameter.  [Libm] (s_fmod.c, s_sqrt.c,
      s_floor.c, s_ceil.c, s_trunc.c, s_round.c, s_modf.c, s_scalbn.c, s_frexp.c,
      s_ilogb.c, s_nextafter.c, the classification and the error functions) on the
      two words of a double, with errno as state; [LibmRound], [LibmFmod],
      [LibmSqrt], [LibmScale], [LibmNext]: the loops on words as arithmetic on
      integers; [LibmProps]: exact remainders, correctly rounded roots and
      products, and the special cases.
    - [Xdr] (xdr.c, xdr_float.c, xdr_array.c, xdr_reference.c, xdr_mem.c,
      xdr_sizeof.c): every filter with its three operations, the memory stream with
      its aligned and unaligned tables, the counter.  [XdrSpec] (the encodings and
      what each filter puts, for any stream), [XdrMem] (the two streams as
      instances), [XdrDecode] and [XdrString] (what each filter makes of arbitrary
      bytes), [XdrRound] (the table of the scalar filters without xdr_long, and
      vectors),
      [XdrProps]: what is encoded is decoded as it was, decoding arbitrary bytes
      harms nothing, sizes of vectors are exact; xdr_long, which is not always read
      back, has a theorem of its own.  The encoding and decoding contracts of
      xdr_bytes, xdr_array, xdr_union, xdr_reference and xdr_pointer are not proved.
    - [Argz] (argz_*.c, envz_*.c, buf_findstr.c, string/strdup.c), [ArgzSpec] (the
      list a vector stands for; adding, inserting, deleting, counting, walking),
      [ArgzArray] (argz_create and argz_extract), [ArgzProps]: the calls that edit a
      vector are the operations on the list, with what remains when memory runs
      out; arrays make the round trip; where entries are missed or confused.  The
      vectors made from text with separators, argz_replace and the envz functions
      are definitions without a contract.
    - [Exit] (exitprocs.c, quick-exit.c, exit.c, atexit.c, onexit.c, cxa-atexit.c,
      at-quick-exit.c, cxa-at-quick-exit.c, misc/fini.c): the tables and the calls;
      the handlers are programs that change the rest of the state and register
      handlers.  [ExitSpec] (bounded stacks, the machine on them and the simulation;
      ranks of handlers), [ExitProps]: handlers are called in reverse order, each
      once, new ones before old ones, and exit ends when ranks go down, in the build
      with an array of destructors and in the one without.
    - [Ctype] (include/ctype.h, is*.c, the table of ctype_.h), [Fnmatch] (fnmatch.c),
      [FnmatchSpec] (the language of a pattern as an inductive relation; bracket
      expressions as lists of elements), [FnmatchProps]: the table is the ranges,
      fnmatch decides the language, and two inputs where it does not.
    - [Uchar] (uchar/*.c, stdlib/wcrtomb.c, mbrtowc.c, over [Utf8]), [UcharSpec] (the
      units of a code point; a client that converts lists of units, against the class
      [UnitCodec]), [UcharAccept] (the units that are refused; the instances for the
      three widths), [UcharProps]: texts make the round trip in every width, and no
      other lists of units are taken.

    ** What is not modelled

    Locks and concurrent access (a function runs to its end); opening and closing
    of streams and setvbuf; in printf and scanf floating point (the integer variants
    print a fixed text for it), positional arguments, %n of printf and wide
    characters; the wide-character functions; locale tables and the Japanese encodings; regular
    expressions, globbing and the other POSIX functions; the hash tables and ndbm;
    the approximated functions of the math library, its float and long double
    versions and the exception flags;
    record and stdio streams of XDR; signed characters in fnmatch and the optional
    function _fini at exit; the allocator's optional small buckets; machine-specific assembly and the
    operating-system interfaces.  The comparison function of qsort, bsearch and
    tsearch, the action of twalk and tdestroy, the device of a stream, sbrk and the
    text of TZ are parameters, with their contracts as hypotheses. *)

From stdpp Require Import base list gmap sorting.
From Stdlib Require Import ZArith Lia.

Local Open Scope Z_scope.

(** ** Machine integers

    A [w]-bit C integer is a [Z]; unsigned arithmetic wraps with [uwrap w],
    a conversion to a signed type with [swrap w]. *)

Definition uwrap (w x : Z) : Z := x mod 2 ^ w.

Definition swrap (w x : Z) : Z := (x + 2 ^ (w - 1)) mod 2 ^ w - 2 ^ (w - 1).

Definition is_byte (b : Z) : Prop := 0 <= b < 256.

#[global] Instance is_byte_dec b : Decision (is_byte b).
Proof. unfold is_byte. apply _. Defined.

(** ** Tactics *)

(** Turn every boolean [Z] test of the context and of the goal into the
    proposition it decides. *)
Ltac bool_to_prop :=
  repeat match goal with
  | H : _ && _ = true |- _ => apply andb_true_iff in H; destruct H
  | H : _ || _ = false |- _ => apply orb_false_iff in H; destruct H
  | H : negb _ = true |- _ => apply negb_true_iff in H
  | H : negb _ = false |- _ => apply negb_false_iff in H
  | H : (_ <? _) = true |- _ => apply Z.ltb_lt in H
  | H : (_ <? _) = false |- _ => apply Z.ltb_ge in H
  | H : (_ <=? _) = true |- _ => apply Z.leb_le in H
  | H : (_ <=? _) = false |- _ => apply Z.leb_gt in H
  | H : (_ =? _) = true |- _ => apply Z.eqb_eq in H
  | H : (_ =? _) = false |- _ => apply Z.eqb_neq in H
  end.

(** Case on the outermost boolean [Z] test of the goal. *)
Ltac case_bool :=
  match goal with
  | |- context [if ?a =? ?b then _ else _] => destruct (Z.eqb_spec a b)
  | |- context [if ?a <? ?b then _ else _] => destruct (Z.ltb_spec a b)
  | |- context [if ?a <=? ?b then _ else _] => destruct (Z.leb_spec a b)
  end.

(** Equality of lists up to the association of [++]. *)
Ltac app_eq := do 4 (rewrite <- ?app_assoc; cbn [app]); reflexivity.

(** Equality of tuples of integers. *)
Ltac tuple_eq := repeat match goal with |- (_, _) = (_, _) => apply f_equal2 end; lia || done.

Create HintDb clib.
Create Rewrite HintDb clib.

(** ** Generic lemmas *)

Lemma uwrap_small w x : 0 <= x < 2 ^ w -> uwrap w x = x.
Proof. intros. unfold uwrap. by apply Z.mod_small. Qed.

Lemma uwrap_range w x : 0 <= w -> 0 <= uwrap w x < 2 ^ w.
Proof. intros. unfold uwrap. apply Z.mod_pos_bound. by apply Z.pow_pos_nonneg. Qed.

Lemma uwrap_byte x : is_byte (uwrap 8 x).
Proof. apply (uwrap_range 8); lia. Qed.

Lemma uwrap_byte_id b : is_byte b -> uwrap 8 b = b.
Proof. intros. by apply uwrap_small. Qed.

Lemma swrap_small w x : 0 < w -> - 2 ^ (w - 1) <= x < 2 ^ (w - 1) -> swrap w x = x.
Proof.
  intros Hw Hx. unfold swrap.
  assert (2 ^ w = 2 * 2 ^ (w - 1)) as E.
  { replace w with (Z.succ (w - 1)) at 1 by lia. rewrite Z.pow_succ_r; lia. }
  rewrite Z.mod_small; lia.
Qed.

Lemma uwrap_uwrap w v x : 0 <= w <= v -> uwrap w (uwrap v x) = uwrap w x.
Proof.
  intros Hw. unfold uwrap. apply Z.mod_mod_divide. exists (2 ^ (v - w)). rewrite <- Z.pow_add_r by lia. f_equal. lia.
Qed.

Lemma swrap_uwrap w x : 0 < w -> swrap w x = (if uwrap w x <? 2 ^ (w - 1) then uwrap w x else uwrap w x - 2 ^ w).
Proof.
  intros Hw. assert (2 ^ w = 2 * 2 ^ (w - 1)) as E by (rewrite <- Z.pow_succ_r by lia; f_equal; lia).
  assert (0 < 2 ^ (w - 1)) by (apply Z.pow_pos_nonneg; lia).
  unfold swrap, uwrap. rewrite <- Z.add_mod_idemp_l by lia.
  pose proof (Z.mod_pos_bound x (2 ^ w) ltac:(lia)) as Hm. set (m := x mod 2 ^ w) in *. clearbody m.
  destruct (Z.ltb_spec m (2 ^ (w - 1))).
  - rewrite Z.mod_small by lia. lia.
  - rewrite <- (Z.mod_add _ (-1)) by lia. rewrite Z.mod_small by lia. lia.
Qed.

Lemma swrap_swrap w v x : 0 < w <= v -> swrap w (swrap v x) = swrap w x.
Proof.
  intros Hw. assert (uwrap w (swrap v x) = uwrap w x) as E; [|by rewrite !(swrap_uwrap w), E by lia].
  rewrite (swrap_uwrap v) by lia. rewrite <- (uwrap_uwrap w v x) by lia. destruct (_ <? _); [done|].
  generalize (uwrap v x). intros u. unfold uwrap.
  replace (2 ^ v) with (2 ^ (v - w) * 2 ^ w) by (rewrite <- Z.pow_add_r by lia; f_equal; lia).
  rewrite <- (Z.mod_add (u - _) (2 ^ (v - w))) by (apply Z.pow_nonzero; lia). f_equal. lia.
Qed.

Lemma swrap_range w x : 0 < w -> - 2 ^ (w - 1) <= swrap w x < 2 ^ (w - 1).
Proof.
  intros Hw. assert (2 ^ w = 2 * 2 ^ (w - 1)) as E by (rewrite <- Z.pow_succ_r by lia; f_equal; lia).
  unfold swrap. pose proof (Z.mod_pos_bound (x + 2 ^ (w - 1)) (2 ^ w) ltac:(lia)). lia.
Qed.

#[export] Hint Resolve uwrap_byte : clib.
#[export] Hint Rewrite uwrap_byte_id using assumption : clib.

(** ** Lists *)

Lemma list_split {A} (n : nat) (l : list A) :
  (n <= length l)%nat ->
  exists l1 l2, l = l1 ++ l2 /\ length l1 = n /\ length l2 = (length l - n)%nat.
Proof.
  intros. exists (take n l), (drop n l).
  rewrite take_drop, length_take, length_drop. split_and!; lia || done.
Qed.

Lemma length_app_Z {A} (l1 l2 : list A) :
  Z.of_nat (length (l1 ++ l2)) = Z.of_nat (length l1) + Z.of_nat (length l2).
Proof. rewrite length_app. lia. Qed.

(** ** Bit fields *)

Lemma lor_low k a b : 0 <= k -> 0 <= b < 2 ^ k -> a mod 2 ^ k = 0 -> Z.lor a b = a + b.
Proof.
  intros Hk Hb Ha. rewrite <- (Z.add_lor_land a b). enough (Z.land a b = 0) as -> by lia.
  apply Z.bits_inj'. intros n Hn. rewrite Z.land_spec, Z.bits_0.
  destruct (Z.lt_ge_cases n k) as [Hlt|Hge].
  - rewrite <- (Z.mod_pow2_bits_low a k n), Ha, Z.bits_0 by lia. done.
  - rewrite <- (Z.mod_small b (2 ^ k)) by done. rewrite Z.mod_pow2_bits_high by lia. apply andb_false_r.
Qed.

Lemma field_spec j k w mask :
  0 <= j -> 0 <= k -> mask = Z.shiftl (Z.ones k) j -> Z.shiftr (Z.land w mask) j = (w / 2 ^ j) mod 2 ^ k.
Proof.
  intros Hj Hk ->. rewrite Z.shiftr_land, Z.shiftr_shiftl_l, Z.sub_diag, Z.shiftl_0_r by lia.
  by rewrite Z.land_ones, Z.shiftr_div_pow2 by lia.
Qed.

Lemma low_spec k w mask : 0 <= k -> mask = Z.ones k -> Z.land w mask = w mod 2 ^ k.
Proof. intros Hk ->. by apply Z.land_ones. Qed.

(** ** Flag words *)

Definition has (flags x : Z) : bool := negb (Z.land flags x =? 0).
Definition without (flags x : Z) : Z := Z.land flags (Z.lnot x).

Lemma has_lor a b x : has (Z.lor a b) x = has a x || has b x.
Proof.
  unfold has. rewrite Z.land_lor_distr_l.
  destruct (Z.eqb_spec (Z.land a x) 0) as [E1|E1], (Z.eqb_spec (Z.land b x) 0) as [E2|E2]; simpl;
    rewrite negb_true_iff || rewrite negb_false_iff; rewrite ?Z.eqb_eq, ?Z.eqb_neq, Z.lor_eq_0_iff; tauto.
Qed.

Lemma has_mask a x y : has a (Z.lor x y) = has a x || has a y.
Proof.
  unfold has. rewrite Z.land_lor_distr_r.
  destruct (Z.eqb_spec (Z.land a x) 0) as [E1|E1], (Z.eqb_spec (Z.land a y) 0) as [E2|E2]; simpl;
    rewrite negb_true_iff || rewrite negb_false_iff; rewrite ?Z.eqb_eq, ?Z.eqb_neq, Z.lor_eq_0_iff; tauto.
Qed.

Lemma has_without a b x : has (without a b) x = has a (Z.land (Z.lnot b) x).
Proof. unfold has, without. by rewrite Z.land_assoc. Qed.

Lemma has_zero a : has a 0 = false.
Proof. unfold has. by rewrite Z.land_0_r. Qed.

Lemma has_0 x : has 0 x = false.
Proof. unfold has. by rewrite Z.land_0_l. Qed.

(** Bits of a word built from constants. *)
Ltac flag_bits :=
  repeat first
    [ rewrite has_lor | rewrite has_mask | rewrite has_0
    | rewrite has_without;
      match goal with |- context [Z.land (Z.lnot ?b) ?x] =>
        let v := eval vm_compute in (Z.land (Z.lnot b) x) in
        lazymatch v with 0 => change (Z.land (Z.lnot b) x) with 0 | _ => change (Z.land (Z.lnot b) x) with x end end;
      rewrite ?has_zero
    | match goal with |- context [has ?a ?b] =>
        let v := eval vm_compute in (has a b) in
        lazymatch v with true => change (has a b) with true | false => change (has a b) with false end end ].
