(* ===== verification/CMem.v ===== *)
(** * Byte memory and the monad of C computations

    The memory of the modelled programs is a finite map from addresses to
    bytes; an address outside its domain is not mapped and an access there is
    a fault.  A C function is a Rocq function into the state-and-fault monad
    [C S]: it takes the state and returns the result with the new state, or
    [None] when it faults (or when the fuel of one of its loops runs out, so
    that a theorem "the result is [Some _]" excludes both).  The file has the
    loads and stores (bytes and [unsigned long] words of either byte order),
    the [loop] combinator with its rule, and the lemmas on blocks of bytes
    that the string, allocator and stdio files share. *)

From S2P Require Import Prelude.
From stdpp Require Import base list gmap.
From Stdlib Require Import ZArith Lia.

Local Open Scope Z_scope.

(** ** The target

    The sources are compiled for 32-bit and for 64-bit [unsigned long] and
    for both byte orders; a model is parameterised by these two facts. *)
Class Arch := { long64 : bool; big_endian : bool }.

Definition LP64 : Arch := {| long64 := true; big_endian := false |}.
Definition ILP32 : Arch := {| long64 := false; big_endian := false |}.
Definition LP64_BE : Arch := {| long64 := true; big_endian := true |}.

(** [sizeof(unsigned long)] in bytes. *)
Definition long_size `{Arch} : nat := if long64 then 8%nat else 4%nat.

(** The number of bits of [unsigned long], which on these targets is also
    the width of [size_t] and of [uintptr_t]. *)
Definition long_bits `{Arch} : Z := 8 * Z.of_nat long_size.

Lemma long_bits_pos `{Arch} : 0 < long_bits.
Proof. unfold long_bits, long_size. destruct long64; done. Qed.

(** ** The monad *)

Definition C (S A : Type) : Type := S -> option (A * S).

Definition ret {S A} (a : A) : C S A := fun s => Some (a, s).
Definition fault {S A} : C S A := fun _ => None.
Definition bind {S A B} (c : C S A) (k : A -> C S B) : C S B :=
  fun s => match c s with Some (a, s') => k a s' | None => None end.

Declare Scope c_scope.
Delimit Scope c_scope with C.
Notation "'do' x <- c ; k" := (bind c (fun x => k))
  (at level 10, x name, c at level 100, k at level 200,
   format "'[v' 'do'  x  <-  c ; '//' k ']'") : c_scope.
Notation "'do' ' p <- c ; k" := (bind c (fun x => match x with p => k end))
  (at level 10, p pattern, c at level 100, k at level 200,
   format "'[v' 'do'  ' p  <-  c ; '//' k ']'") : c_scope.
Notation "'run' c ; k" := (bind c (fun _ => k))
  (at level 10, c at level 100, k at level 200,
   format "'[v' 'run'  c ; '//' k ']'") : c_scope.
Open Scope c_scope.

(** A C loop: [body] is one iteration from the loop variables [st]; [inl]
    goes round again and [inr] leaves the loop with its value. *)
Fixpoint loop {S T R} (body : T -> C S (T + R)) (fuel : nat) (st : T) : C S R :=
  match fuel with
  | O => fault
  | Datatypes.S f =>
      do x <- body st;
      match x with
      | inl st' => loop body f st'
      | inr r => ret r
      end
  end.

Definition upd {S} (f : S -> S) : C S unit := fun s => Some (tt, f s).
Definition get_st {S} : C S S := fun s => Some (s, s).

(** An array read; out of range is a fault. *)
Definition at_index {S} (l : list Z) (i : Z) : C S Z :=
  if i <? 0 then fault else match l !! Z.to_nat i with Some x => ret x | None => fault end.

(** An [int] computation: a result outside the type is a fault. *)
Definition INT_MAX : Z := 2 ^ 31 - 1.
Definition INT_MIN : Z := - 2 ^ 31.
Definition fits_int (x : Z) : bool := (INT_MIN <=? x) && (x <=? INT_MAX).
Definition int_ {S} (x : Z) : C S Z := if fits_int x then ret x else fault.

Lemma int_at {S} x (s : S) : INT_MIN <= x <= INT_MAX -> int_ x s = Some (x, s).
Proof. intros. unfold int_, fits_int. by rewrite !(proj2 (Z.leb_le _ _)) by lia. Qed.

(** ** Total correctness

    [wp c Q s]: started in [s], [c] returns (no fault, no fuel shortage) and
    its result and final state satisfy [Q]. *)
Definition wp {S A} (c : C S A) (Q : A -> S -> Prop) (s : S) : Prop :=
  exists a s', c s = Some (a, s') /\ Q a s'.

Lemma wp_ret {S A} (a : A) (Q : A -> S -> Prop) s : Q a s -> wp (ret a) Q s.
Proof. intros. by exists a, s. Qed.

Lemma wp_bind {S A B} (c : C S A) (k : A -> C S B) Q s :
  wp c (fun a s' => wp (k a) Q s') s -> wp (bind c k) Q s.
Proof.
  intros (a & s' & Hc & b & s'' & Hk & HQ). exists b, s''. split; [|done].
  unfold bind. by rewrite Hc.
Qed.

Lemma wp_mono {S A} (c : C S A) (Q Q' : A -> S -> Prop) s :
  wp c Q s -> (forall a s', Q a s' -> Q' a s') -> wp c Q' s.
Proof. intros (a & s' & Hc & HQ) H. exists a, s'. eauto. Qed.

Lemma wp_eq {S A} (c : C S A) (Q : A -> S -> Prop) s a s' :
  c s = Some (a, s') -> Q a s' -> wp c Q s.
Proof. intros. by exists a, s'. Qed.

(** The rule of loops: an invariant indexed by a bound on the number of
    remaining iterations, and fuel above the bound. *)
Lemma wp_loop {S T R} (body : T -> C S (T + R)) (I : nat -> T -> S -> Prop)
    (Q : R -> S -> Prop) :
  (forall n st s, I n st s ->
     wp (body st) (fun x s' => match x with
                               | inl st' => exists n', (n' < n)%nat /\ I n' st' s'
                               | inr r => Q r s'
                               end) s) ->
  forall fuel n st s, I n st s -> (n < fuel)%nat -> wp (loop body fuel st) Q s.
Proof.
  intros Hbody fuel. induction fuel as [|f IH]; intros n st s HI Hn; [lia|].
  simpl. apply wp_bind. eapply wp_mono; [by apply Hbody|].
  intros [st'|r] s' HQ.
  - destruct HQ as (n' & Hn' & HI'). eapply IH; [done|lia].
  - by apply wp_ret.
Qed.

(** One unfolding of a loop, used by the equational proofs. *)
Lemma loop_S {S T R} (body : T -> C S (T + R)) f st s :
  loop body (Datatypes.S f) st s =
  match body st s with
  | Some (inl st', s') => loop body f st' s'
  | Some (inr r, s') => Some (r, s')
  | None => None
  end.
Proof. simpl. unfold bind. destruct (body st s) as [[[]]|]; done. Qed.

#[global] Arguments loop : simpl never.

(** ** Loads and stores *)

Definition NULL : Z := 0.

Abbreviation mem := (gmap Z Z).

Definition load8 (p : Z) : C mem Z :=
  fun m => match m !! p with Some b => Some (b, m) | None => None end.

Definition store8 (p v : Z) : C mem unit :=
  fun m => match m !! p with
           | Some _ => Some (tt, <[p := uwrap 8 v]> m)
           | None => None
           end.

Fixpoint load_bytes (p : Z) (n : nat) : C mem (list Z) :=
  match n with
  | O => ret []
  | S n => do b <- load8 p; do l <- load_bytes (p + 1) n; ret (b :: l)
  end.

Fixpoint store_bytes (p : Z) (l : list Z) : C mem unit :=
  match l with
  | [] => ret tt
  | b :: l => run store8 p b; store_bytes (p + 1) l
  end.

(** Base-256 digits, least significant first. *)
Fixpoint le_combine (l : list Z) : Z :=
  match l with [] => 0 | b :: l => b + 256 * le_combine l end.

Fixpoint le_split (n : nat) (v : Z) : list Z :=
  match n with O => [] | S n => uwrap 8 v :: le_split n (v / 256) end.

Section words.
Context `{Arch}.

Definition word_of_bytes (l : list Z) : Z :=
  le_combine (if big_endian then rev l else l).
Definition bytes_of_word (v : Z) : list Z :=
  if big_endian then rev (le_split long_size v) else le_split long_size v.

Definition long_aligned (p : Z) : bool := p mod Z.of_nat long_size =? 0.

(** A load or store through an [unsigned long *]; a pointer that is not
    aligned on a word is a fault. *)
Definition load_long (p : Z) : C mem Z :=
  if long_aligned p then do l <- load_bytes p long_size; ret (word_of_bytes l)
  else fault.
Definition store_long (p v : Z) : C mem unit :=
  if long_aligned p then store_bytes p (bytes_of_word v) else fault.
End words.

(** ** Blocks of bytes *)

(** The bytes [l] are at [p]. *)
Definition bytes_at (m : mem) (p : Z) (l : list Z) : Prop :=
  forall i : nat, (i < length l)%nat -> m !! (p + Z.of_nat i) = l !! i.

(** The [n] bytes at [p] are mapped. *)
Definition mapped (m : mem) (p n : Z) : Prop :=
  forall a, p <= a < p + n -> is_Some (m !! a).

(** Every mapped cell holds a byte. *)
Definition mem_ok (m : mem) : Prop := forall a b, m !! a = Some b -> is_byte b.

(** The memory with the bytes [l] written at [p]. *)
Fixpoint put_bytes (m : mem) (p : Z) (l : list Z) : mem :=
  match l with [] => m | b :: l => put_bytes (<[p := b]> m) (p + 1) l end.

(** A NUL-terminated string of non-zero bytes at [p]. *)
Definition nonzero_byte (b : Z) : Prop := 0 < b < 256.
Definition cstr (m : mem) (p : Z) (s : list Z) : Prop :=
  Forall nonzero_byte s /\ bytes_at m p (s ++ [0]).

Lemma bytes_at_nil m p : bytes_at m p [].
Proof. intros i Hi. simpl in Hi. lia. Qed.

Lemma bytes_at_cons m p b l :
  bytes_at m p (b :: l) <-> m !! p = Some b /\ bytes_at m (p + 1) l.
Proof.
  split.
  - intros H. split.
    + specialize (H 0%nat). simpl in H. rewrite Z.add_0_r in H. apply H. lia.
    + intros i Hi. specialize (H (S i)). simpl in H.
      rewrite <- H by lia. f_equal. lia.
  - intros [Hb Hl] [|i] Hi; simpl in *.
    + by rewrite Z.add_0_r.
    + rewrite <- Hl by lia. f_equal. lia.
Qed.

Lemma bytes_at_app m p l1 l2 :
  bytes_at m p (l1 ++ l2) <->
  bytes_at m p l1 /\ bytes_at m (p + Z.of_nat (length l1)) l2.
Proof.
  revert p. induction l1 as [|b l1 IH]; intros p; simpl.
  - rewrite Z.add_0_r. split; [split; [apply bytes_at_nil|done]|by intros []].
  - rewrite !bytes_at_cons, IH.
    replace (p + 1 + Z.of_nat (length l1)) with (p + Z.of_nat (S (length l1))) by lia.
    tauto.
Qed.

Lemma bytes_at_mapped m p l : bytes_at m p l -> mapped m p (Z.of_nat (length l)).
Proof.
  intros Hl a Ha. specialize (Hl (Z.to_nat (a - p))).
  replace (p + Z.of_nat (Z.to_nat (a - p))) with a in Hl by lia.
  rewrite Hl by lia. apply lookup_lt_is_Some. lia.
Qed.

(** The contents of a mapped block, as a list. *)
Lemma mapped_bytes m p (n : nat) :
  mapped m p (Z.of_nat n) -> exists l, length l = n /\ bytes_at m p l.
Proof.
  revert p. induction n as [|n IH]; intros p Hm.
  - exists []. split; [done|apply bytes_at_nil].
  - destruct (IH (p + 1)) as (l & Hlen & Hl).
    { intros a Ha. apply Hm. lia. }
    destruct (Hm p) as [b Hb]; [lia|].
    exists (b :: l). split; [simpl; lia|]. by apply bytes_at_cons.
Qed.

Lemma bytes_at_bytes m p l : mem_ok m -> bytes_at m p l -> Forall is_byte l.
Proof.
  intros Hm Hl. apply Forall_lookup. intros i x Hi.
  pose proof (lookup_lt_Some _ _ _ Hi). apply (Hm (p + Z.of_nat i)).
  by rewrite Hl.
Qed.

Lemma mapped_weaken m p n q k :
  mapped m p n -> p <= q -> q + k <= p + n -> mapped m q k.
Proof. intros Hm ? ? a ?. apply Hm. lia. Qed.

Lemma lookup_put_bytes m p l a :
  put_bytes m p l !! a =
  if decide (p <= a < p + Z.of_nat (length l)) then l !! Z.to_nat (a - p) else m !! a.
Proof.
  revert m p. induction l as [|b l IH]; intros m p; simpl.
  - destruct (decide _); [lia|done].
  - rewrite IH. destruct (decide (p + 1 <= a < _)); destruct (decide (p <= a < _)); try lia.
    + replace (Z.to_nat (a - p)) with (S (Z.to_nat (a - (p + 1)))) by lia. done.
    + assert (a = p) as -> by lia. rewrite lookup_insert_eq, Z.sub_diag. done.
    + rewrite lookup_insert_ne; [done|lia].
Qed.

Lemma put_bytes_app m p l1 l2 :
  put_bytes m p (l1 ++ l2) = put_bytes (put_bytes m p l1) (p + Z.of_nat (length l1)) l2.
Proof.
  revert m p. induction l1 as [|b l1 IH]; intros m p; simpl.
  - by rewrite Z.add_0_r.
  - rewrite IH. f_equal. lia.
Qed.

Lemma put_bytes_is_Some m p l a : is_Some (m !! a) -> is_Some (put_bytes m p l !! a).
Proof.
  intros. rewrite lookup_put_bytes. destruct (decide _); [|done].
  apply lookup_lt_is_Some. lia.
Qed.

Lemma put_bytes_mapped m p l q n : mapped m q n -> mapped (put_bytes m p l) q n.
Proof. intros Hm a Ha. by apply put_bytes_is_Some, Hm. Qed.

Lemma put_bytes_at m p l : bytes_at (put_bytes m p l) p l.
Proof.
  intros i Hi. rewrite lookup_put_bytes, decide_True by lia. f_equal. lia.
Qed.

Lemma put_bytes_ok m p l : mem_ok m -> Forall is_byte l -> mem_ok (put_bytes m p l).
Proof.
  intros Hm Hl a b. rewrite lookup_put_bytes. destruct (decide _); [|apply Hm].
  intros Hb. by eapply (Forall_lookup_1 _ _ _ _ Hl).
Qed.

(** Blocks that do not meet. *)
Definition disjoint_blk (p n q k : Z) : Prop := p + n <= q \/ q + k <= p.

Lemma bytes_at_put_disjoint m p l q l' :
  disjoint_blk p (Z.of_nat (length l)) q (Z.of_nat (length l')) ->
  bytes_at m q l' -> bytes_at (put_bytes m p l) q l'.
Proof.
  intros Hd Hl i Hi. rewrite lookup_put_bytes, decide_False; [by apply Hl|].
  unfold disjoint_blk in Hd. lia.
Qed.

Lemma put_bytes_same m p l : bytes_at m p l -> put_bytes m p l = m.
Proof.
  intros Hl. apply map_eq. intros a. rewrite lookup_put_bytes.
  destruct (decide _); [|done]. rewrite <- Hl by lia. f_equal. lia.
Qed.

Lemma put_bytes_comm m p l q l' :
  disjoint_blk p (Z.of_nat (length l)) q (Z.of_nat (length l')) ->
  put_bytes (put_bytes m p l) q l' = put_bytes (put_bytes m q l') p l.
Proof.
  intros Hd. apply map_eq. intros a. rewrite !lookup_put_bytes. unfold disjoint_blk in Hd.
  repeat (destruct (decide _)); done || lia.
Qed.

(** Rewriting a block that was just written keeps the last contents. *)
Lemma put_bytes_overwrite m p l1 l2 :
  length l1 = length l2 -> put_bytes (put_bytes m p l1) p l2 = put_bytes m p l2.
Proof.
  intros Hlen. apply map_eq. intros a. rewrite !lookup_put_bytes, Hlen.
  by destruct (decide _).
Qed.

(** ** The loads and stores on blocks *)

Lemma load8_at m p b : m !! p = Some b -> load8 p m = Some (b, m).
Proof. intros Hb. unfold load8. by rewrite Hb. Qed.

Lemma store8_at m p v : is_Some (m !! p) -> store8 p v m = Some (tt, <[p := uwrap 8 v]> m).
Proof. intros [b Hb]. unfold store8. by rewrite Hb. Qed.

Lemma load_bytes_at m p l :
  bytes_at m p l -> load_bytes p (length l) m = Some (l, m).
Proof.
  revert p. induction l as [|b l IH]; intros p Hl; simpl; [done|].
  apply bytes_at_cons in Hl as [Hb Hl]. unfold bind at 1. rewrite (load8_at _ _ b) by done.
  unfold bind. by rewrite IH.
Qed.

Lemma store_bytes_at m p l :
  mapped m p (Z.of_nat (length l)) -> Forall is_byte l ->
  store_bytes p l m = Some (tt, put_bytes m p l).
Proof.
  revert m p. induction l as [|b l IH]; intros m p Hm Hl; simpl; [done|].
  inversion_clear Hl. unfold bind. rewrite store8_at by (apply Hm; simpl; lia).
  rewrite uwrap_byte_id by done. apply IH; [|done].
  intros a Ha. apply (put_bytes_is_Some _ p [b]). apply Hm. simpl. lia.
Qed.

Lemma le_combine_range l :
  Forall is_byte l -> 0 <= le_combine l < 256 ^ Z.of_nat (length l).
Proof.
  induction 1 as [|b l Hb Hl IH]; cbn [le_combine length]; [simpl; lia|].
  rewrite Nat2Z.inj_succ, Z.pow_succ_r by lia. unfold is_byte in Hb. lia.
Qed.

Lemma length_le_split n v : length (le_split n v) = n.
Proof. revert v. induction n; intros; simpl; auto. Qed.

Lemma le_split_bytes n v : Forall is_byte (le_split n v).
Proof. revert v. induction n; intros; simpl; constructor; auto with clib. Qed.

Lemma le_split_combine l : Forall is_byte l -> le_split (length l) (le_combine l) = l.
Proof.
  induction 1 as [|b l Hb Hl IH]; simpl; [done|]. unfold is_byte in Hb.
  f_equal.
  - unfold uwrap. change (2 ^ 8) with 256. rewrite Z.mul_comm, Z_mod_plus_full.
    by apply Z.mod_small.
  - rewrite Z.mul_comm, Z.div_add, Z.div_small by lia. done.
Qed.

Lemma le_combine_split n v : le_combine (le_split n v) = v mod 256 ^ Z.of_nat n.
Proof.
  revert v. induction n as [|n IH]; intros v; [simpl; by rewrite Z.mod_1_r|].
  change (le_combine (le_split (S n) v)) with (uwrap 8 v + 256 * le_combine (le_split n (v / 256))).
  rewrite IH. unfold uwrap.
  rewrite Nat2Z.inj_succ, Z.pow_succ_r by lia.
  change (2 ^ 8) with 256. rewrite Z.rem_mul_r by (try lia; apply Z.pow_pos_nonneg; lia). done.
Qed.

Section word_lemmas.
Context `{Arch}.

Lemma long_size_pos : (0 < long_size)%nat.
Proof. unfold long_size. destruct long64; lia. Qed.

Lemma bytes_of_word_length v : length (bytes_of_word v) = long_size.
Proof. unfold bytes_of_word. destruct big_endian; rewrite ?length_rev; apply length_le_split. Qed.

Lemma bytes_of_word_bytes v : Forall is_byte (bytes_of_word v).
Proof.
  unfold bytes_of_word. destruct big_endian; [apply Forall_rev|]; apply le_split_bytes.
Qed.

(** Storing the word that was loaded writes the same bytes back. *)
Lemma bytes_of_word_of_bytes l :
  length l = long_size -> Forall is_byte l -> bytes_of_word (word_of_bytes l) = l.
Proof.
  intros Hlen Hl. unfold bytes_of_word, word_of_bytes. rewrite <- Hlen.
  destruct big_endian.
  - rewrite <- (length_rev l), le_split_combine by by apply Forall_rev.
    apply rev_involutive.
  - by apply le_split_combine.
Qed.

Lemma load_long_at m p l :
  long_aligned p = true -> length l = long_size -> bytes_at m p l ->
  load_long p m = Some (word_of_bytes l, m).
Proof.
  intros Ha Hlen Hl. unfold load_long. rewrite Ha, <- Hlen. unfold bind.
  by rewrite load_bytes_at.
Qed.

Lemma store_long_at m p v :
  long_aligned p = true -> mapped m p (Z.of_nat long_size) ->
  store_long p v m = Some (tt, put_bytes m p (bytes_of_word v)).
Proof.
  intros Ha Hm. unfold store_long. rewrite Ha.
  apply store_bytes_at; [by rewrite bytes_of_word_length|apply bytes_of_word_bytes].
Qed.

Lemma long_aligned_add p k :
  long_aligned p = true -> long_aligned (p + Z.of_nat long_size * k) = true.
Proof.
  unfold long_aligned. rewrite !Z.eqb_eq. intros Hp.
  rewrite Z.mul_comm, Z_mod_plus_full. done.
Qed.

Lemma long_aligned_next p :
  long_aligned p = true -> long_aligned (p + Z.of_nat long_size) = true.
Proof. intros. rewrite <- (Z.mul_1_r (Z.of_nat _)). by apply long_aligned_add. Qed.
End word_lemmas.

(** ** Equational steps *)

Lemma bind_eq {S A B} (c : C S A) (k : A -> C S B) s a s' :
  c s = Some (a, s') -> bind c k s = k a s'.
Proof. intros Hc. unfold bind. by rewrite Hc. Qed.

Lemma bind_ret {S A B} (a : A) (k : A -> C S B) s : bind (ret a) k s = k a s.
Proof. done. Qed.

Lemma bind_triple_assoc {S A B D E F} (c : C S (A * B * D))
    (f : A -> B -> D -> C S E) (g : E -> C S F) s :
  bind c (fun '(a, b, d) => bind (f a b d) g) s =
  bind (bind c (fun '(a, b, d) => f a b d)) g s.
Proof. unfold bind. destruct (c s) as [[[[? ?] ?] ?]|]; done. Qed.

Lemma loop_go {S T R} (body : T -> C S (T + R)) f st s st' s' :
  body st s = Some (inl st', s') -> loop body (Datatypes.S f) st s = loop body f st' s'.
Proof. intros Hb. rewrite loop_S. by rewrite Hb. Qed.

Lemma loop_stop {S T R} (body : T -> C S (T + R)) f st s r s' :
  body st s = Some (inr r, s') -> loop body (Datatypes.S f) st s = Some (r, s').
Proof. intros Hb. rewrite loop_S. by rewrite Hb. Qed.

(** Reading bytes through the monad: the next step of [bind] is a load of the
    byte found at that address. *)
Ltac cload H := rewrite (bind_eq _ _ _ _ _ (load8_at _ _ _ H)).
Ltac cstore := rewrite (bind_eq _ _ _ _ _ (store8_at _ _ _ ltac:(first [done | eauto]))).

(** The next computation of a run known to succeed, in the hypothesis [E] and in
    the goal at once. *)
Ltac csplit E :=
  match type of E with
  | match ?c with Some _ => _ | None => _ end = _ =>
      destruct c as [[? ?]|]; [|done];
      repeat match type of E with
             | context [match ?p with (_, _) => _ end] => is_var p; destruct p
             end
  end.

(** Decide the boolean test of a loop body from the arithmetic context. *)
Ltac ctest :=
  cbn [length];
  repeat first
    [ match goal with
      | |- context [?a =? ?b] =>
          first [ replace (a =? b) with true by (symmetry; apply Z.eqb_eq; lia)
                | replace (a =? b) with false by (symmetry; apply Z.eqb_neq; lia) ]
      end
    | match goal with
      | |- context [?a <? ?b] =>
          first [ replace (a <? b) with true by (symmetry; apply Z.ltb_lt; lia)
                | replace (a <? b) with false by (symmetry; apply Z.ltb_ge; lia) ]
      end
    | match goal with
      | |- context [?a <=? ?b] =>
          first [ replace (a <=? b) with true by (symmetry; apply Z.leb_le; lia)
                | replace (a <=? b) with false by (symmetry; apply Z.leb_gt; lia) ]
      end ];
  cbv beta iota.

(** A copy upwards is safe when the destination starts at or below the source
    or after its end. *)
Definition up_safe (dst src n : Z) : Prop := dst <= src \/ src + n <= dst.

Lemma bytes_at_put_up m dst src l1 l2 :
  up_safe dst src (Z.of_nat (length (l1 ++ l2))) -> bytes_at m src (l1 ++ l2) ->
  bytes_at (put_bytes m dst l1) (src + Z.of_nat (length l1)) l2.
Proof.
  intros Hs Hl. apply bytes_at_app in Hl as [_ Hl].
  rewrite length_app in Hs. apply bytes_at_put_disjoint; [|done].
  unfold up_safe, disjoint_blk in *. lia.
Qed.

(** Writing the end of a block first. *)
Lemma put_bytes_app_rev m p l1 l2 :
  put_bytes (put_bytes m (p + Z.of_nat (length l1)) l2) p l1 = put_bytes m p (l1 ++ l2).
Proof.
  rewrite put_bytes_app. apply map_eq. intros a. rewrite !lookup_put_bytes.
  repeat (destruct (decide _)); done || lia.
Qed.

(** A copy downwards is safe in the mirrored case. *)
Definition down_safe (dst src n : Z) : Prop := src <= dst \/ dst + n <= src.

Lemma bytes_at_inj m p l1 l2 :
  bytes_at m p l1 -> bytes_at m p l2 -> length l1 = length l2 -> l1 = l2.
Proof.
  intros H1 H2 Hlen. apply list_eq. intros i. destruct (decide (i < length l1)%nat).
  - rewrite <- H1, <- H2 by lia. done.
  - rewrite !lookup_ge_None_2 by lia. done.
Qed.

(** ** Fuel

    A computation is indifferent to its fuel once that is enough: more fuel
    gives the same result. *)
Definition mono {S A} (c : nat -> C S A) : Prop :=
  forall f f' s r, c f s = Some r -> (f <= f')%nat -> c f' s = Some r.

Section mono.
Context {S : Type}.

Lemma mono_const {A} (c : C S A) : mono (fun _ => c).
Proof. by intros f f' s r. Qed.

Lemma mono_bind {A B} (c : nat -> C S A) (k : nat -> A -> C S B) :
  mono c -> (forall a, mono (fun f => k f a)) -> mono (fun f => bind (c f) (k f)).
Proof.
  intros Hc Hk f f' s r Hr Hf. unfold bind in *.
  destruct (c f s) as [[a s']|] eqn:E; [|done]. rewrite (Hc f f' s _ E Hf). by apply (Hk a f).
Qed.

Lemma mono_loop {T R} (body : nat -> T -> C S (T + R)) st :
  (forall st, mono (fun f => body f st)) -> mono (fun f => loop (body f) f st).
Proof.
  intros Hb f f' s r Hr Hf. assert (exists k, f' = f + k)%nat as [k ->] by (exists (f' - f)%nat; lia).
  assert (forall g n st s, (g <= f)%nat -> loop (body f) g st s = Some r ->
            loop (body (f + k)%nat) (g + n) st s = Some r) as Hg; [|by apply (Hg f k)].
  clear Hr st s. induction g as [|g IH]; intros n st s Hgf Hr; [done|].
  rewrite loop_S in Hr. simpl. rewrite loop_S. destruct (body f st s) as [[x s']|] eqn:E; [|done].
  rewrite (Hb st f (f + k)%nat s _ E Hf). destruct x as [st'|y]; [|done]. apply IH; [lia|done].
Qed.

Lemma mono_det {A} (c : nat -> C S A) f f' s r r' :
  mono c -> c f s = Some r -> c f' s = Some r' -> r = r'.
Proof.
  intros Hm H1 H2. destruct (Nat.le_ge_cases f f') as [Hf|Hf].
  - rewrite (Hm f f' s r H1 Hf) in H2. by injection H2.
  - rewrite (Hm f' f s r' H2 Hf) in H1. by injection H1.
Qed.
End mono.

Create HintDb fuel.
#[export] Hint Resolve mono_const : fuel.

(** Structural proof of [mono]: through the binds, loops and tests. *)
Ltac mono_solve :=
  repeat first
    [ apply mono_const
    | solve [eauto with fuel nocore]
    | apply mono_bind; [|intros ?]
    | apply mono_loop; intros ?
    | match goal with |- context [match ?x with _ => _ end] => destruct x end ].
