(* ===== verification/CInt.v ===== *)
(** * Integers in memory

    Objects of the integer types other than long: their bytes, and loads and stores
    through a pointer, which must be aligned. *)

From stdpp Require Import base list gmap.
From Stdlib Require Import ZArith Lia.
From S2P Require Import Prelude CMem.

Local Open Scope Z_scope.

(** The low bits of a signed number. *)
Lemma uwrap_swrap w v x : 0 < w <= v -> uwrap w (swrap v x) = uwrap w x.
Proof.
  intros Hw. rewrite (swrap_uwrap v) by lia. assert (uwrap w (uwrap v x) = uwrap w x) as E.
  { unfold uwrap. apply Z.mod_mod_divide. exists (2 ^ (v - w)). rewrite <- Z.pow_add_r by lia. f_equal. lia. }
  destruct (_ <? _); [done|]. rewrite <- E. unfold uwrap. replace (2 ^ v) with (2 ^ (v - w) * 2 ^ w) by (rewrite <- Z.pow_add_r by lia; f_equal; lia).
  rewrite <- (Z.mod_add (_ - _) (2 ^ (v - w))) by (apply Z.pow_nonzero; lia). f_equal. lia.
Qed.

Section ints.
Context `{Arch}.

(** The [n] bytes of an integer. *)
Definition bytes_of_int (n : nat) (v : Z) : list Z :=
  if big_endian then rev (le_split n v) else le_split n v.

Definition load_n (n : nat) (p : Z) : C mem Z :=
  if p mod Z.of_nat n =? 0 then do l <- load_bytes p n; ret (word_of_bytes l) else fault.
Definition store_n (n : nat) (p v : Z) : C mem unit :=
  if p mod Z.of_nat n =? 0 then store_bytes p (bytes_of_int n v) else fault.

Lemma le_split_uwrap n : forall k v, 8 * Z.of_nat n <= k -> le_split n (uwrap k v) = le_split n v.
Proof.
  induction n as [|n IH]; intros k v Hk; [done|]. cbn [le_split]. f_equal.
  - unfold uwrap. apply Z.mod_mod_divide. exists (2 ^ (k - 8)). rewrite <- Z.pow_add_r by lia. f_equal. lia.
  - rewrite <- (IH (k - 8) (v / 256)) by lia. f_equal. unfold uwrap. change 256 with (2 ^ 8).
    replace (2 ^ k) with (2 ^ 8 * 2 ^ (k - 8)) by (rewrite <- Z.pow_add_r by lia; f_equal; lia).
    rewrite Z.rem_mul_r, Z.add_comm, Z.mul_comm, Z.div_add_l by lia. rewrite (Z.div_small (v mod 2 ^ 8)) by (apply Z.mod_pos_bound; lia). lia.
Qed.

Lemma bytes_of_int_uwrap n k v : 8 * Z.of_nat n <= k -> bytes_of_int n (uwrap k v) = bytes_of_int n v.
Proof. intros. unfold bytes_of_int. by rewrite le_split_uwrap. Qed.

Lemma bytes_of_int_swrap n k v : 8 * Z.of_nat n <= k -> 0 < k -> bytes_of_int n (swrap k v) = bytes_of_int n v.
Proof. intros Hn Hk. rewrite <- (bytes_of_int_uwrap n k), uwrap_swrap by lia. by apply bytes_of_int_uwrap. Qed.

Lemma bytes_of_int_length n v : length (bytes_of_int n v) = n.
Proof. unfold bytes_of_int. destruct big_endian; rewrite ?length_rev; apply length_le_split. Qed.

Lemma bytes_of_int_bytes n v : Forall is_byte (bytes_of_int n v).
Proof. unfold bytes_of_int. destruct big_endian; [apply Forall_rev|]; apply le_split_bytes. Qed.

Lemma word_of_bytes_of_int n v : word_of_bytes (bytes_of_int n v) = uwrap (8 * Z.of_nat n) v.
Proof.
  unfold word_of_bytes, bytes_of_int. assert (le_combine (le_split n v) = uwrap (8 * Z.of_nat n) v) as E.
  { rewrite le_combine_split. unfold uwrap. rewrite Z.pow_mul_r by lia. done. }
  destruct big_endian; [by rewrite rev_involutive|done].
Qed.

Lemma load_n_at m p n v : p mod Z.of_nat n = 0 -> bytes_at m p (bytes_of_int n v) -> load_n n p m = Some (uwrap (8 * Z.of_nat n) v, m).
Proof.
  intros Ha Hb. unfold load_n. rewrite Ha. cbn [Z.eqb]. unfold bind. pose proof (load_bytes_at m p _ Hb) as E. rewrite bytes_of_int_length in E.
  rewrite E. unfold ret. by rewrite word_of_bytes_of_int.
Qed.

Lemma store_n_at m p n v : p mod Z.of_nat n = 0 -> mapped m p (Z.of_nat n) -> store_n n p v m = Some (tt, put_bytes m p (bytes_of_int n v)).
Proof.
  intros Ha Hm. unfold store_n. rewrite Ha. cbn [Z.eqb]. apply store_bytes_at; [by rewrite bytes_of_int_length|apply bytes_of_int_bytes].
Qed.
End ints.
