(* ===== verification/StrLocal.v ===== *)
(** * The word tricks of libc/string/local.h

    The fast string routines read and write one [unsigned long] at a time and
    recognise a NUL byte, or a given byte, inside a word by arithmetic on the
    whole word.  The macros are modelled at both word sizes and the detection
    is proved exact: [DETECT_NULL] is non-zero if and only if one of the bytes
    of the word is zero. *)

From S2P Require Import Prelude CMem.
From stdpp Require Import base list gmap.
From Stdlib Require Import ZArith Lia.

Local Open Scope Z_scope.

Section macros.
Context `{Arch}.

Definition UNALIGNED_X (x : Z) : Z := Z.land x (Z.of_nat long_size - 1).
Definition UNALIGNED_X_Y (x y : Z) : Z :=
  Z.lor (Z.land x (Z.of_nat long_size - 1)) (Z.land y (Z.of_nat long_size - 1)).
Definition LITTLE_BLOCK_SIZE : Z := Z.of_nat long_size.
Definition BIG_BLOCK_SIZE : Z := Z.shiftl (Z.of_nat long_size) 2.
Definition TOO_SMALL_LITTLE_BLOCK (len : Z) : bool := len <? LITTLE_BLOCK_SIZE.
Definition TOO_SMALL_BIG_BLOCK (len : Z) : bool := len <? BIG_BLOCK_SIZE.

Definition DETECT_NULL (x : Z) : Z :=
  if long64
  then Z.land (Z.land (uwrap 64 (x - 0x0101010101010101)) (uwrap 64 (Z.lnot x)))
              0x8080808080808080
  else Z.land (Z.land (uwrap 32 (x - 0x01010101)) (uwrap 32 (Z.lnot x))) 0x80808080.

Definition DETECT_CHAR (x mask : Z) : Z := DETECT_NULL (Z.lxor x mask).
End macros.

(** The shift-and-or loop that fills a word with the byte [d]:
    [for (i = j; i < sizeof(mask) * 8; i <<= 1) mask = (mask << i) | mask]. *)
Section fill.
Context `{Arch}.

Definition fill_step (i mask : Z) : Z := Z.lor (uwrap long_bits (Z.shiftl mask i)) mask.

Definition fill_from_32 (mask : Z) : Z :=
  if 32 <? long_bits then fill_step 32 mask else mask.

(** memset.c, memchr.c, memrchr.c, memccpy.c, rawmemchr.c: the two explicit
    steps and the loop from 32. *)
Definition fill_word (d : Z) : Z :=
  let mask := Z.lor (Z.shiftl d 8) d in
  let mask := Z.lor (uwrap long_bits (Z.shiftl mask 16)) mask in
  fill_from_32 mask.

(** strchr.c: the loop from 8. *)
Definition fill_loop (c : Z) : Z :=
  fill_from_32 (fill_step 16 (fill_step 8 c)).
End fill.

(** ** Digits and bit operations *)

Lemma testbit_digit b x i :
  is_byte b -> 0 <= i ->
  Z.testbit (b + 256 * x) i = if i <? 8 then Z.testbit b i else Z.testbit x (i - 8).
Proof.
  intros Hb Hi. unfold is_byte in Hb. rewrite (Z.mul_comm 256). case_bool.
  - rewrite <- (Z.mod_pow2_bits_low _ 8) by lia. change (2 ^ 8) with 256.
    rewrite Z_mod_plus_full, Z.mod_small by lia. done.
  - replace i with (i - 8 + 8) at 1 by lia. rewrite <- Z.div_pow2_bits by lia.
    change (2 ^ 8) with 256. rewrite Z.div_add, Z.div_small by lia. done.
Qed.

Lemma byte_bits_high b i : is_byte b -> 8 <= i -> Z.testbit b i = false.
Proof.
  intros Hb Hi. rewrite <- (Z.mod_small b (2 ^ 8)) by done.
  apply Z.mod_pow2_bits_high. lia.
Qed.

Lemma bits_byte b : (forall i, 8 <= i -> Z.testbit b i = false) -> is_byte b.
Proof.
  intros Hb. assert (b mod 2 ^ 8 = b) as <-.
  { apply Z.bits_inj'. intros i Hi. destruct (Z.ltb_spec i 8).
    - by apply Z.mod_pow2_bits_low.
    - rewrite Hb by lia. apply Z.mod_pow2_bits_high. lia. }
  apply (Z.mod_pos_bound b (2 ^ 8)). lia.
Qed.

(** A bitwise operation works digit by digit. *)
Section digit_ops.
Variables (f : Z -> Z -> Z) (g : bool -> bool -> bool).
Hypothesis f_spec : forall x y i, Z.testbit (f x y) i = g (Z.testbit x i) (Z.testbit y i).
Hypothesis g_false : g false false = false.

Lemma op_byte b c : is_byte b -> is_byte c -> is_byte (f b c).
Proof.
  intros. apply bits_byte. intros. by rewrite f_spec, !byte_bits_high.
Qed.

Lemma op_digit b x c y :
  is_byte b -> is_byte c ->
  f (b + 256 * x) (c + 256 * y) = f b c + 256 * f x y.
Proof.
  intros. apply Z.bits_inj'. intros i Hi.
  rewrite f_spec, !testbit_digit, !f_spec by (try apply op_byte; done).
  by case_bool.
Qed.
End digit_ops.

Lemma land_digit b x c y : is_byte b -> is_byte c ->
  Z.land (b + 256 * x) (c + 256 * y) = Z.land b c + 256 * Z.land x y.
Proof. apply (op_digit Z.land andb Z.land_spec eq_refl). Qed.

Lemma lor_digit b x c y : is_byte b -> is_byte c ->
  Z.lor (b + 256 * x) (c + 256 * y) = Z.lor b c + 256 * Z.lor x y.
Proof. apply (op_digit Z.lor orb Z.lor_spec eq_refl). Qed.

Lemma lxor_digit b x c y : is_byte b -> is_byte c ->
  Z.lxor (b + 256 * x) (c + 256 * y) = Z.lxor b c + 256 * Z.lxor x y.
Proof. apply (op_digit Z.lxor xorb Z.lxor_spec eq_refl). Qed.

Lemma lxor_byte b c : is_byte b -> is_byte c -> is_byte (Z.lxor b c).
Proof. apply (op_byte Z.lxor xorb Z.lxor_spec eq_refl). Qed.

Lemma lnot_digit b x : is_byte b -> Z.lnot (b + 256 * x) = (255 - b) + 256 * Z.lnot x.
Proof. intros. unfold Z.lnot. lia. Qed.

Lemma land_uwrap w x y : 0 <= w -> 0 <= y < 2 ^ w -> Z.land (uwrap w x) y = Z.land x y.
Proof.
  intros Hw Hy. apply Z.bits_inj'. intros i Hi. rewrite !Z.land_spec. unfold uwrap.
  destruct (Z.ltb_spec i w).
  - by rewrite Z.mod_pow2_bits_low.
  - rewrite <- (Z.mod_small y (2 ^ w)), !Z.mod_pow2_bits_high, !andb_false_r by lia. done.
Qed.

Lemma land_uwrap2 w x y h :
  0 <= w -> 0 <= h < 2 ^ w ->
  Z.land (Z.land (uwrap w x) (uwrap w y)) h = Z.land (Z.land x y) h.
Proof.
  intros Hw Hh. assert (uwrap w h = h) as Eh by by apply uwrap_small.
  apply Z.bits_inj'. intros i Hi. rewrite !Z.land_spec, <- Eh. unfold uwrap.
  destruct (Z.ltb_spec i w).
  - by rewrite !(Z.mod_pow2_bits_low _ w i).
  - by rewrite !(Z.mod_pow2_bits_high _ w i), !andb_false_r by lia.
Qed.

(** A statement on bytes that a computation decides. *)
Lemma all_bytes (P : Z -> bool) :
  forallb (fun n => P (Z.of_nat n)) (seq 0 256) = true -> forall b, is_byte b -> P b = true.
Proof.
  intros Hall b Hb. rewrite forallb_forall in Hall. unfold is_byte in Hb.
  rewrite <- (Z2Nat.id b) by lia. apply Hall, in_seq. lia.
Qed.

(** ** [DETECT_NULL] *)

(** The detector on an arbitrary number of bytes. *)
Definition detect (ones highs x : Z) : Z := Z.land (Z.land (x - ones) (Z.lnot x)) highs.

Lemma detect_byte b : is_byte b -> b <> 0 -> Z.land (Z.land (b - 1) (255 - b)) 128 = 0.
Proof.
  intros Hb Hb0.
  pose proof (all_bytes (fun b => (b =? 0) || (Z.land (Z.land (b - 1) (255 - b)) 128 =? 0))
                eq_refl b Hb) as Hall.
  apply orb_true_iff in Hall as [?|?]; bool_to_prop; done.
Qed.

Lemma detect_nonneg o h x : 0 <= h -> 0 <= detect o h x.
Proof. intros. unfold detect. apply Z.land_nonneg. by right. Qed.

Lemma detect_cons b o h x :
  is_byte b ->
  detect (1 + 256 * o) (128 + 256 * h) (b + 256 * x) =
  if b =? 0 then 128 + 256 * detect (o + 1) h x else 256 * detect o h x.
Proof.
  intros Hb. unfold detect. rewrite lnot_digit by done.
  assert (is_byte 128) by (unfold is_byte; lia).
  assert (is_byte (255 - b)) by (unfold is_byte in *; lia).
  case_bool; [subst b|].
  - replace (0 + 256 * x - (1 + 256 * o)) with (255 + 256 * (x - (o + 1))) by lia.
    assert (is_byte 255) by (unfold is_byte; lia).
    rewrite land_digit, land_digit by done. done.
  - replace (b + 256 * x - (1 + 256 * o)) with (b - 1 + 256 * (x - o)) by lia.
    assert (is_byte (b - 1)) by (unfold is_byte in *; lia).
    rewrite land_digit by done.
    assert (is_byte (Z.land (b - 1) (255 - b)))
      by (apply (op_byte Z.land andb Z.land_spec eq_refl); done).
    rewrite land_digit, detect_byte by done. lia.
Qed.

Lemma detect_zero_iff l :
  Forall is_byte l ->
  detect (le_combine (replicate (length l) 1)) (le_combine (replicate (length l) 128))
         (le_combine l) = 0 <-> 0 ∉ l.
Proof.
  induction 1 as [|b l Hb Hl IH]; [split; [set_solver|done]|].
  cbn [length replicate le_combine]. rewrite detect_cons, not_elem_of_cons by done.
  pose proof (detect_nonneg (le_combine (replicate (length l) 1) + 1)
     (le_combine (replicate (length l) 128)) (le_combine l)) as Hpos.
  assert (0 <= le_combine (replicate (length l) 128)).
  { apply le_combine_range, Forall_replicate. unfold is_byte. lia. }
  case_bool.
  - subst b. split; [|by intros [? ?]]. specialize (Hpos ltac:(done)). lia.
  - rewrite <- IH. split; [intros; split; [congruence|]|intros [? ?]]; lia.
Qed.

Section detect_word.
Context `{Arch}.

Lemma DETECT_NULL_detect x :
  DETECT_NULL x = detect (le_combine (replicate long_size 1))
                         (le_combine (replicate long_size 128)) x.
Proof.
  unfold DETECT_NULL, detect, long_size. destruct long64; by apply land_uwrap2.
Qed.

(** The word read from [l] tests zero exactly when [l] has no NUL byte. *)
Lemma DETECT_NULL_spec l :
  length l = long_size -> Forall is_byte l ->
  DETECT_NULL (word_of_bytes l) = 0 <-> 0 ∉ l.
Proof.
  intros Hlen Hl. rewrite DETECT_NULL_detect, <- Hlen. unfold word_of_bytes.
  destruct big_endian; [|by apply detect_zero_iff].
  rewrite <- (length_rev l), detect_zero_iff by by apply Forall_rev.
  by rewrite list_elem_of_In, <- in_rev, <- list_elem_of_In.
Qed.

Lemma fill_word_spec d : is_byte d -> fill_word d = le_combine (replicate long_size d).
Proof.
  intros Hd. apply Z.eqb_eq. revert d Hd. apply all_bytes.
  unfold fill_word, fill_from_32, fill_step, long_bits, long_size.
  destruct long64; vm_compute; reflexivity.
Qed.

Lemma fill_loop_spec d : is_byte d -> fill_loop d = le_combine (replicate long_size d).
Proof.
  intros Hd. apply Z.eqb_eq. revert d Hd. apply all_bytes.
  unfold fill_loop, fill_from_32, fill_step, long_bits, long_size.
  destruct long64; vm_compute; reflexivity.
Qed.

Lemma rev_replicate (n : nat) (d : Z) : rev (replicate n d) = replicate n d.
Proof.
  induction n as [|n IH]; [done|]. simpl. rewrite IH.
  change [d] with (replicate 1 d). rewrite <- replicate_add.
  by rewrite Nat.add_comm.
Qed.

Lemma bytes_of_fill d :
  is_byte d -> bytes_of_word (le_combine (replicate long_size d)) = replicate long_size d.
Proof.
  intros Hd. rewrite <- (bytes_of_word_of_bytes (replicate long_size d)) at 2.
  - unfold word_of_bytes. by rewrite rev_replicate; destruct big_endian.
  - apply length_replicate.
  - by apply Forall_replicate.
Qed.

Lemma lxor_fill l c :
  Forall is_byte l -> is_byte c ->
  Z.lxor (le_combine l) (le_combine (replicate (length l) c)) =
  le_combine (map (fun b => Z.lxor b c) l).
Proof.
  intros Hl Hc. induction Hl as [|b l Hb Hl IH]; [done|].
  cbn [length replicate le_combine map]. by rewrite lxor_digit, IH.
Qed.

(** The word read from [l] tests zero exactly when the byte [c] is not in [l]. *)
Lemma DETECT_CHAR_spec l c :
  length l = long_size -> Forall is_byte l -> is_byte c ->
  DETECT_CHAR (word_of_bytes l) (le_combine (replicate long_size c)) = 0 <-> c ∉ l.
Proof.
  intros Hlen Hl Hc. unfold DETECT_CHAR.
  set (l' := map (fun b => Z.lxor b c) l).
  assert (Z.lxor (word_of_bytes l) (le_combine (replicate long_size c)) = word_of_bytes l') as ->.
  { unfold word_of_bytes, l'. rewrite <- Hlen. destruct big_endian.
    - by rewrite <- (length_rev l), lxor_fill, map_rev by (try apply Forall_rev; done).
    - by apply lxor_fill. }
  assert (Forall is_byte l').
  { unfold l'. apply Forall_map. eapply Forall_impl; [done|]. intros. by apply lxor_byte. }
  rewrite DETECT_NULL_spec by (unfold l'; rewrite ?length_map; done).
  unfold l'. rewrite !list_elem_of_In, in_map_iff. split.
  - intros Hn Hin. apply Hn. exists c. by rewrite Z.lxor_nilpotent.
  - intros Hn (b & Heq & Hin). apply Z.lxor_eq in Heq. by subst b.
Qed.

(** ** Alignment *)

Lemma UNALIGNED_X_mod x : UNALIGNED_X x = x mod Z.of_nat long_size.
Proof.
  unfold UNALIGNED_X, long_size. destruct long64.
  - change (Z.of_nat 8 - 1) with (Z.ones 3). by rewrite Z.land_ones.
  - change (Z.of_nat 4 - 1) with (Z.ones 2). by rewrite Z.land_ones.
Qed.

Lemma UNALIGNED_X_zero x : (UNALIGNED_X x =? 0) = long_aligned x.
Proof. by rewrite UNALIGNED_X_mod. Qed.

Lemma UNALIGNED_X_Y_zero x y :
  (UNALIGNED_X_Y x y =? 0) = long_aligned x && long_aligned y.
Proof.
  unfold UNALIGNED_X_Y. fold (UNALIGNED_X x) (UNALIGNED_X y).
  rewrite <- !UNALIGNED_X_zero.
  apply eq_true_iff_eq. rewrite andb_true_iff, !Z.eqb_eq. apply Z.lor_eq_0_iff.
Qed.

Lemma BIG_BLOCK_SIZE_eq : BIG_BLOCK_SIZE = 4 * Z.of_nat long_size.
Proof. unfold BIG_BLOCK_SIZE. rewrite Z.shiftl_mul_pow2 by lia. lia. Qed.
End detect_word.

(** ** Digits of a concatenation, and the merge of two words *)

Lemma le_combine_app a b :
  le_combine (a ++ b) = le_combine a + 256 ^ Z.of_nat (length a) * le_combine b.
Proof.
  induction a as [|x a IH]; [cbn [app le_combine length]; lia|].
  cbn [app le_combine length]. rewrite IH, Nat2Z.inj_succ, Z.pow_succ_r by lia. lia.
Qed.

Lemma pow256 n : 0 <= n -> 256 ^ n = 2 ^ (8 * n).
Proof. intros. by rewrite (Z.pow_mul_r 2 8) by lia. Qed.

Lemma lor_shift_add a b n : 0 <= n -> 0 <= a < 2 ^ n -> Z.lor a (2 ^ n * b) = a + 2 ^ n * b.
Proof.
  intros Hn Ha. rewrite <- Z.add_lor_land.
  enough (Z.land a (2 ^ n * b) = 0) as -> by lia.
  apply Z.bits_inj'. intros i Hi. rewrite Z.land_spec, Z.testbit_0_l.
  destruct (Z.ltb_spec i n).
  - rewrite (Z.mul_comm _ b), Z.mul_pow2_bits_low by lia. apply andb_false_r.
  - rewrite <- (Z.mod_small a (2 ^ n)), Z.mod_pow2_bits_high by lia. done.
Qed.

Lemma merge_digits X Y k :
  Forall is_byte X -> Forall is_byte Y -> length X = length Y -> (k <= length X)%nat ->
  let n := Z.of_nat (length X) in
  Z.lor (Z.shiftr (le_combine X) (8 * Z.of_nat k))
        (uwrap (8 * n) (Z.shiftl (le_combine Y) (8 * (n - Z.of_nat k)))) =
  le_combine (drop k X ++ take k Y).
Proof.
  intros HX HY Hlen Hk n.
  destruct (list_split k X) as (X1 & X2 & -> & HX1 & HX2); [lia|].
  destruct (list_split k Y) as (Y1 & Y2 & -> & HY1 & HY2); [lia|].
  apply Forall_app in HX as [BX1 BX2], HY as [BY1 BY2].
  rewrite drop_app_length', take_app_length' by done.
  assert (n = Z.of_nat k + Z.of_nat (length X2)) as En by (unfold n; rewrite length_app_Z; lia).
  clearbody n. rewrite !le_combine_app.
  pose proof (le_combine_range _ BX1) as R1. pose proof (le_combine_range _ BX2) as R2.
  pose proof (le_combine_range _ BY1) as R3. rewrite HX1 in *. rewrite HY1 in *.
  assert (0 < 256 ^ Z.of_nat k) by (apply Z.pow_pos_nonneg; lia).
  set (j := Z.of_nat (length X2)) in *.
  rewrite Z.shiftr_div_pow2, Z.shiftl_mul_pow2 by lia.
  rewrite <- !pow256 by lia. unfold uwrap. rewrite <- pow256 by lia.
  replace (n - Z.of_nat k) with j by lia. rewrite En, Z.pow_add_r by lia.
  rewrite (Z.mul_comm _ (256 ^ j)), (Z.mul_comm (256 ^ Z.of_nat k) (256 ^ j)).
  rewrite Z.mul_mod_distr_l by (apply Z.pow_nonzero; lia).
  rewrite (Z.mul_comm (256 ^ Z.of_nat k)), Z.div_add, Z.div_small by lia.
  rewrite (Z.mul_comm _ (le_combine Y2)), Z_mod_plus_full, Z.mod_small by lia.
  rewrite pow256 in * by lia. rewrite lor_shift_add by lia. lia.
Qed.

(** ** The word that holds the end of a string

    The fast scanners read whole aligned words, so they also read the bytes
    that follow the last byte they need inside its word. *)
Section word_end.
Context `{Arch}.

(** The bytes after [e] in the aligned word of [e] are mapped. *)
Definition word_tail_mapped (m : mem) (e : Z) : Prop :=
  forall a, e < a -> a / Z.of_nat long_size = e / Z.of_nat long_size -> is_Some (m !! a).

Lemma word_at_end m p l d :
  long_aligned p = true -> bytes_at m p (l ++ [d]) -> (length l < long_size)%nat ->
  word_tail_mapped m (p + Z.of_nat (length l)) ->
  exists rest, length (l ++ d :: rest) = long_size /\ bytes_at m p (l ++ d :: rest).
Proof.
  intros Ha Hl Hlen Hm. set (e := p + Z.of_nat (length l)).
  set (k := (long_size - length l - 1)%nat).
  destruct (mapped_bytes m (e + 1) k) as (rest & Hr & Hrest).
  { intros a Hrange. apply Hm; [subst e; lia|]. unfold long_aligned in Ha.
    apply Z.eqb_eq in Ha. apply Z.div_exact in Ha; [|lia].
    set (W := Z.of_nat long_size) in *. set (q := p / W) in *.
    assert (a / W = q /\ (p + Z.of_nat (length l)) / W = q) as [-> ->]; [|done].
    split; symmetry.
    - apply (Z.div_unique a W q (a - p)); subst e k; lia.
    - apply (Z.div_unique _ W q (Z.of_nat (length l))); lia. }
  exists rest. split.
  - rewrite length_app. simpl. subst k. lia.
  - apply bytes_at_app in Hl as [Hl Hd]. apply bytes_at_app. split; [done|].
    apply bytes_at_cons in Hd as [Hd _]. apply bytes_at_cons. split; done.
Qed.

Lemma word_of_bytes_inj l1 l2 :
  length l1 = long_size -> length l2 = long_size -> Forall is_byte l1 -> Forall is_byte l2 ->
  word_of_bytes l1 = word_of_bytes l2 -> l1 = l2.
Proof.
  intros H1 H2 B1 B2 E. rewrite <- (bytes_of_word_of_bytes l1), E by done.
  by apply bytes_of_word_of_bytes.
Qed.
End word_end.
