(* ===== verification/StrMem.v ===== *)
(** * Memory block functions (libc/string/mem*.c)

    Each function is modelled in the form compiled for speed (word at a time,
    with the alignment prologues of the source); where the file also has a
    form compiled for size it is modelled as [<name>_small] and the two are
    proved to compute the same.  [fuel] bounds the iterations of each loop of
    a function; the theorems ask for more fuel than the number of bytes the
    caller passes, which no loop exceeds. *)

From S2P Require Import Prelude CMem StrLocal.
From stdpp Require Import base list gmap.
From Stdlib Require Import ZArith Lia.

Local Open Scope Z_scope.

Section memfns.
Context `{Arch}.
Variable fuel : nat.

(** ** Loops shared by several files *)

(** [while (len--) *dst++ = *src++;] with the pointers it leaves behind. *)
Definition copy_up (dst src len : Z) : C mem (Z * Z) :=
  loop (fun '(dst, src, len) =>
    if len =? 0 then ret (inr (dst, src))
    else
      do c <- load8 src;
      run store8 dst c;
      ret (inl (dst + 1, src + 1, len - 1))) fuel (dst, src, len).

(** [while (len--) *--dst = *--src;] *)
Definition copy_down (dst src len : Z) : C mem unit :=
  loop (fun '(dst, src, len) =>
    if len =? 0 then ret (inr tt)
    else
      do c <- load8 (src - 1);
      run store8 (dst - 1) c;
      ret (inl (dst - 1, src - 1, len - 1))) fuel (dst, src, len).

(** [*aligned_dst = *aligned_src] through word pointers. *)
Definition copy_word (dst src : Z) : C mem unit :=
  do v <- load_long src; store_long dst v.

(** Four of them, as the unrolled loops do. *)
Definition copy_4words (dst src : Z) : C mem unit :=
  let w := LITTLE_BLOCK_SIZE in
  run copy_word dst src;
  run copy_word (dst + w) (src + w);
  run copy_word (dst + 2 * w) (src + 2 * w);
  copy_word (dst + 3 * w) (src + 3 * w).

(** [while (!TOO_SMALL_BIG_BLOCK(len)) { four word copies; len -= BIG_BLOCK_SIZE; }] *)
Definition copy_up_big (dst src len : Z) : C mem (Z * Z * Z) :=
  let w := LITTLE_BLOCK_SIZE in
  loop (fun '(dst, src, len) =>
    if TOO_SMALL_BIG_BLOCK len then ret (inr (dst, src, len))
    else
      run copy_4words dst src;
      ret (inl (dst + 4 * w, src + 4 * w, len - BIG_BLOCK_SIZE))) fuel (dst, src, len).

(** [while (!TOO_SMALL_LITTLE_BLOCK(len)) { one word copy; len -= LITTLE_BLOCK_SIZE; }] *)
Definition copy_up_little (dst src len : Z) : C mem (Z * Z * Z) :=
  let w := LITTLE_BLOCK_SIZE in
  loop (fun '(dst, src, len) =>
    if TOO_SMALL_LITTLE_BLOCK len then ret (inr (dst, src, len))
    else
      run copy_word dst src;
      ret (inl (dst + w, src + w, len - w))) fuel (dst, src, len).

(** [while (!TOO_SMALL_LITTLE_BLOCK(len)) { *--aligned_dst = *--aligned_src; ... }] *)
Definition copy_down_little (dst src len : Z) : C mem (Z * Z * Z) :=
  let w := LITTLE_BLOCK_SIZE in
  loop (fun '(dst, src, len) =>
    if TOO_SMALL_LITTLE_BLOCK len then ret (inr (dst, src, len))
    else
      run copy_word (dst - w) (src - w);
      ret (inl (dst - w, src - w, len - w))) fuel (dst, src, len).

(** ** memcpy.c *)

Definition memcpy_small (dst0 src0 len0 : Z) : C mem Z :=
  run copy_up dst0 src0 len0;
  ret dst0.

(** The merging loop of memcpy: [left] is the source word that holds the
    next source byte at offset [byte_shift]. *)
Definition memcpy_merge (byte_shift remain dst asrc left len0 : Z) : C mem (Z * Z * Z) :=
  let w := LITTLE_BLOCK_SIZE in
  let left_shift := Z.shiftl byte_shift 3 in
  let right_shift := Z.shiftl remain 3 in
  loop (fun '(dst, asrc, left, len0) =>
    if w + remain <=? len0 then
      do right <- load_long asrc;
      run store_long dst
        (if big_endian
         then Z.lor (uwrap long_bits (Z.shiftl left left_shift)) (Z.shiftr right right_shift)
         else Z.lor (Z.shiftr left left_shift) (uwrap long_bits (Z.shiftl right right_shift)));
      ret (inl (dst + w, asrc + w, right, len0 - w))
    else ret (inr (dst, asrc - remain, len0))) fuel (dst, asrc, left, len0).

Definition memcpy (dst0 src0 len0 : Z) : C mem Z :=
  let w := LITTLE_BLOCK_SIZE in
  do '(dst, src, len0) <-
    (if TOO_SMALL_BIG_BLOCK len0 then ret (dst0, src0, len0)
     else
       let start := w * 2 - UNALIGNED_X dst0 in
       do '(dst, src) <- copy_up dst0 src0 start;
       let len0 := len0 - start in
       let byte_shift := UNALIGNED_X src in
       if byte_shift =? 0 then
         do '(dst, src, len0) <- copy_up_big dst src len0;
         copy_up_little dst src len0
       else
         let remain := w - byte_shift in
         let aligned_src := src - byte_shift in
         do left <- load_long aligned_src;
         memcpy_merge byte_shift remain dst (aligned_src + w) left len0);
  run copy_up dst src len0;
  ret dst0.

(** ** memmove.c *)

Definition memmove_small (dst_void src_void length : Z) : C mem Z :=
  if (src_void <? dst_void) && (dst_void <? src_void + length) then
    run copy_down (dst_void + length) (src_void + length) length;
    ret dst_void
  else
    run copy_up dst_void src_void length;
    ret dst_void.

Definition memmove (dst_void src_void length : Z) : C mem Z :=
  if (src_void <? dst_void) && (dst_void <? src_void + length) then
    let src := src_void + length in
    let dst := dst_void + length in
    do '(dst, src, length) <-
      (if negb (TOO_SMALL_LITTLE_BLOCK length) && (UNALIGNED_X_Y src dst =? 0)
       then copy_down_little dst src length
       else ret (dst, src, length));
    run copy_down dst src length;
    ret dst_void
  else
    do '(dst, src, length) <-
      (if negb (TOO_SMALL_LITTLE_BLOCK length) && (UNALIGNED_X_Y src_void dst_void =? 0)
       then
         do '(dst, src, length) <- copy_up_big dst_void src_void length;
         copy_up_little dst src length
       else ret (dst_void, src_void, length));
    run copy_up dst src length;
    ret dst_void.

(** ** mempcpy.c *)

Definition mempcpy_small (dst0 src0 len0 : Z) : C mem Z :=
  do '(dst, _) <- copy_up dst0 src0 len0;
  ret dst.

Definition mempcpy (dst0 src0 len0 : Z) : C mem Z :=
  do '(dst, src, len0) <-
    (if negb (TOO_SMALL_LITTLE_BLOCK len0) && (UNALIGNED_X_Y src0 dst0 =? 0)
     then
       do '(dst, src, len0) <- copy_up_big dst0 src0 len0;
       copy_up_little dst src len0
     else ret (dst0, src0, len0));
  do '(dst, _) <- copy_up dst src len0;
  ret dst.

(** ** memset.c *)

(** [while (n--) *s++ = (char)c;] *)
Definition set_up (s c n : Z) : C mem Z :=
  loop (fun '(s, n) =>
    if n =? 0 then ret (inr s)
    else run store8 s c; ret (inl (s + 1, n - 1))) fuel (s, n).

Definition memset_small (mp c n : Z) : C mem Z :=
  run set_up mp c n;
  ret mp.

(** The alignment prologue: [Some (s, n)] when [s] is aligned, [None] when
    the count ran out first (the early [return m]). *)
Definition memset_align (s c n : Z) : C mem (option (Z * Z)) :=
  loop (fun '(s, n) =>
    if UNALIGNED_X s =? 0 then ret (inr (Some (s, n)))
    else if n =? 0 then ret (inr None)
    else run store8 s c; ret (inl (s + 1, n - 1))) fuel (s, n).

(** The unrolled [*aligned_addr++ = buffer] of the big-block loop. *)
Definition store_4longs (s buffer : Z) : C mem unit :=
  let w := LITTLE_BLOCK_SIZE in
  run store_long s buffer;
  run store_long (s + w) buffer;
  run store_long (s + 2 * w) buffer;
  store_long (s + 3 * w) buffer.

Definition memset_big (s buffer n : Z) : C mem (Z * Z) :=
  let w := LITTLE_BLOCK_SIZE in
  loop (fun '(s, n) =>
    if TOO_SMALL_BIG_BLOCK n then ret (inr (s, n))
    else
      run store_4longs s buffer;
      ret (inl (s + 4 * w, n - BIG_BLOCK_SIZE))) fuel (s, n).

Definition memset_little (s buffer n : Z) : C mem (Z * Z) :=
  let w := LITTLE_BLOCK_SIZE in
  loop (fun '(s, n) =>
    if TOO_SMALL_LITTLE_BLOCK n then ret (inr (s, n))
    else
      run store_long s buffer;
      ret (inl (s + w, n - w))) fuel (s, n).

Definition memset (mp c n : Z) : C mem Z :=
  let d := Z.land c 0xff in
  do r <- memset_align mp c n;
  match r with
  | None => ret mp
  | Some (s, n) =>
      do '(s, n) <-
        (if TOO_SMALL_LITTLE_BLOCK n then ret (s, n)
         else
           let buffer := fill_word d in
           do '(s, n) <- memset_big s buffer n;
           memset_little s buffer n);
      run set_up s c n;
      ret mp
  end.

(** ** memcmp.c *)

(** [while (n--) { if ( *s1 != *s2 ) return *s1 - *s2; s1++; s2++; } return 0;] *)
Definition cmp_up (s1 s2 n : Z) : C mem Z :=
  loop (fun '(s1, s2, n) =>
    if n =? 0 then ret (inr 0)
    else
      do a <- load8 s1;
      do b <- load8 s2;
      if a =? b then ret (inl (s1 + 1, s2 + 1, n - 1)) else ret (inr (a - b)))
    fuel (s1, s2, n).

Definition memcmp_small (m1 m2 n : Z) : C mem Z := cmp_up m1 m2 n.

Definition memcmp_words (a1 a2 n : Z) : C mem (Z * Z * Z) :=
  let w := LITTLE_BLOCK_SIZE in
  loop (fun '(a1, a2, n) =>
    if TOO_SMALL_LITTLE_BLOCK n then ret (inr (a1, a2, n))
    else
      do x <- load_long a1;
      do y <- load_long a2;
      if x =? y then ret (inl (a1 + w, a2 + w, n - w)) else ret (inr (a1, a2, n)))
    fuel (a1, a2, n).

Definition memcmp (m1 m2 n : Z) : C mem Z :=
  do '(s1, s2, n) <-
    (if negb (TOO_SMALL_LITTLE_BLOCK n) && (UNALIGNED_X_Y m1 m2 =? 0)
     then memcmp_words m1 m2 n
     else ret (m1, m2, n));
  cmp_up s1 s2 n.

(** ** memchr.c *)

(** [while (length--) { if ( *src == d ) return src; src++; } return NULL;] *)
Definition chr_up (src d length : Z) : C mem Z :=
  loop (fun '(src, length) =>
    if length =? 0 then ret (inr NULL)
    else
      do a <- load8 src;
      if a =? d then ret (inr src) else ret (inl (src + 1, length - 1)))
    fuel (src, length).

Definition memchr_small (src_void c length : Z) : C mem Z :=
  chr_up src_void (uwrap 8 c) length.

(** The alignment prologue: [inl r] is an early return of [r]. *)
Definition memchr_align (src d length : Z) : C mem (Z + Z * Z) :=
  loop (fun '(src, length) =>
    if UNALIGNED_X src =? 0 then ret (inr (inr (src, length)))
    else if length =? 0 then ret (inr (inl NULL))
    else
      do a <- load8 src;
      if a =? d then ret (inr (inl src)) else ret (inl (src + 1, length - 1)))
    fuel (src, length).

Definition memchr_words (asrc mask length : Z) : C mem (Z * Z) :=
  let w := LITTLE_BLOCK_SIZE in
  loop (fun '(asrc, length) =>
    if TOO_SMALL_LITTLE_BLOCK length then ret (inr (asrc, length))
    else
      do x <- load_long asrc;
      if DETECT_CHAR x mask =? 0 then ret (inl (asrc + w, length - w))
      else ret (inr (asrc, length)))
    fuel (asrc, length).

Definition memchr (src_void c length : Z) : C mem Z :=
  let d := uwrap 8 c in
  do r <- memchr_align src_void d length;
  match r with
  | inl early => ret early
  | inr (src, length) =>
      do '(src, length) <-
        (if TOO_SMALL_LITTLE_BLOCK length then ret (src, length)
         else memchr_words src (fill_word d) length);
      chr_up src d length
  end.

(** ** memrchr.c *)

Definition chr_down (src d length : Z) : C mem Z :=
  loop (fun '(src, length) =>
    if length =? 0 then ret (inr NULL)
    else
      do a <- load8 src;
      if a =? d then ret (inr src) else ret (inl (src - 1, length - 1)))
    fuel (src, length).

Definition memrchr_small (src_void c length : Z) : C mem Z :=
  chr_down (src_void + length - 1) (uwrap 8 c) length.

Definition memrchr_align (src d length : Z) : C mem (Z + Z * Z) :=
  loop (fun '(src, length) =>
    if UNALIGNED_X (src + 1) =? 0 then ret (inr (inr (src, length)))
    else if length =? 0 then ret (inr (inl NULL))
    else
      do a <- load8 src;
      if a =? d then ret (inr (inl src)) else ret (inl (src - 1, length - 1)))
    fuel (src, length).

Definition memrchr_words (asrc mask length : Z) : C mem (Z * Z) :=
  let w := LITTLE_BLOCK_SIZE in
  loop (fun '(asrc, length) =>
    if TOO_SMALL_LITTLE_BLOCK length then ret (inr (asrc, length))
    else
      do x <- load_long asrc;
      if DETECT_CHAR x mask =? 0 then ret (inl (asrc - w, length - w))
      else ret (inr (asrc, length)))
    fuel (asrc, length).

Definition memrchr (src_void c length : Z) : C mem Z :=
  let w := LITTLE_BLOCK_SIZE in
  let d := uwrap 8 c in
  do r <- memrchr_align (src_void + length - 1) d length;
  match r with
  | inl early => ret early
  | inr (src, length) =>
      do '(src, length) <-
        (if TOO_SMALL_LITTLE_BLOCK length then ret (src, length)
         else
           do '(asrc, length) <- memrchr_words (src - w + 1) (fill_word d) length;
           ret (asrc + w - 1, length));
      chr_down src d length
  end.

(** ** rawmemchr.c *)

Definition rawchr_up (src d : Z) : C mem Z :=
  loop (fun src =>
    do a <- load8 src;
    if a =? d then ret (inr src) else ret (inl (src + 1))) fuel src.

Definition rawmemchr_small (src_void c : Z) : C mem Z := rawchr_up src_void (uwrap 8 c).

Definition rawmemchr_align (src d : Z) : C mem (Z + Z) :=
  loop (fun src =>
    if UNALIGNED_X src =? 0 then ret (inr (inr src))
    else
      do a <- load8 src;
      if a =? d then ret (inr (inl src)) else ret (inl (src + 1))) fuel src.

Definition rawmemchr_words (asrc mask : Z) : C mem Z :=
  let w := LITTLE_BLOCK_SIZE in
  loop (fun asrc =>
    do x <- load_long asrc;
    if DETECT_CHAR x mask =? 0 then ret (inl (asrc + w)) else ret (inr asrc)) fuel asrc.

Definition rawmemchr (src_void c : Z) : C mem Z :=
  let d := uwrap 8 c in
  do r <- rawmemchr_align src_void d;
  match r with
  | inl early => ret early
  | inr src =>
      do asrc <- rawmemchr_words src (fill_word d);
      rawchr_up asrc d
  end.

(** ** memccpy.c *)

Definition ccpy_up (dst src endchar len0 : Z) : C mem Z :=
  loop (fun '(dst, src, len0) =>
    if len0 =? 0 then ret (inr NULL)
    else
      do c <- load8 src;
      run store8 dst c;
      if c =? endchar then ret (inr (dst + 1)) else ret (inl (dst + 1, src + 1, len0 - 1)))
    fuel (dst, src, len0).

Definition memccpy_small (dst0 src0 endchar0 len0 : Z) : C mem Z :=
  ccpy_up dst0 src0 (Z.land endchar0 0xff) len0.

Definition memccpy_words (adst asrc mask len0 : Z) : C mem (Z * Z * Z) :=
  let w := LITTLE_BLOCK_SIZE in
  loop (fun '(adst, asrc, len0) =>
    if TOO_SMALL_LITTLE_BLOCK len0 then ret (inr (adst, asrc, len0))
    else
      do buffer <- load_long asrc;
      if DETECT_NULL (Z.lxor buffer mask) =? 0 then
        run copy_word adst asrc;
        ret (inl (adst + w, asrc + w, len0 - w))
      else ret (inr (adst, asrc, len0)))
    fuel (adst, asrc, len0).

Definition memccpy (dst0 src0 endchar0 len0 : Z) : C mem Z :=
  let endchar := Z.land endchar0 0xff in
  do '(dst, src, len0) <-
    (if negb (TOO_SMALL_LITTLE_BLOCK len0) && (UNALIGNED_X_Y src0 dst0 =? 0)
     then memccpy_words dst0 src0 (fill_word endchar) len0
     else ret (dst0, src0, len0));
  ccpy_up dst src endchar len0.

(** ** memmem.c, the form compiled for size *)

(** The inner loop compares backwards from [i]; the result is the final [i],
    0 when every byte but the first matched. *)
Definition memmem_tail (hs ne i : Z) : C mem Z :=
  loop (fun i =>
    if i =? 0 then ret (inr i)
    else
      do a <- load8 (hs + i);
      do b <- load8 (ne + i);
      if a =? b then ret (inl (i - 1)) else ret (inr i)) fuel i.

Definition memmem_small (haystack hs_len needle ne_len : Z) : C mem Z :=
  if ne_len =? 0 then ret haystack
  else
    do c <- load8 needle;
    let hend := haystack + hs_len - ne_len in
    loop (fun hs =>
      if hs <=? hend then
        do a <- load8 hs;
        if a =? c then
          do i <- memmem_tail hs needle (swrap 32 (ne_len - 1));
          if i =? 0 then ret (inr hs) else ret (inl (hs + 1))
        else ret (inl (hs + 1))
      else ret (inr NULL)) fuel haystack.
End memfns.

(** ** Copies *)

Lemma copy_up_spec l fuel dst src m :
  (length l < fuel)%nat -> bytes_at m src l -> Forall is_byte l ->
  mapped m dst (Z.of_nat (length l)) -> up_safe dst src (Z.of_nat (length l)) ->
  copy_up fuel dst src (Z.of_nat (length l)) m =
  Some ((dst + Z.of_nat (length l), src + Z.of_nat (length l)), put_bytes m dst l).
Proof.
  unfold copy_up. revert fuel dst src m.
  induction l as [|b l IH]; intros [|f] dst src m Hf Hl Hb Hm Hs; simpl in Hf; try lia.
  - erewrite loop_stop; [|simpl; reflexivity]. simpl. by rewrite !Z.add_0_r.
  - inversion_clear Hb. pose proof Hl as Hl0. apply bytes_at_cons in Hl as [Hb Hl].
    erewrite loop_go.
    2: { ctest. cload Hb. rewrite bind_eq with (a := tt) (s' := put_bytes m dst [b]).
         - reflexivity.
         - rewrite store8_at by (apply Hm; simpl; lia). by rewrite uwrap_byte_id. }
    replace (Z.of_nat (S (length l)) - 1) with (Z.of_nat (length l)) by lia.
    rewrite IH; try done; try lia.
    + simpl. f_equal. f_equal. f_equal; lia.
    + apply (bytes_at_put_up m dst src [b] l); done.
    + apply put_bytes_mapped. eapply mapped_weaken; [done|simpl; lia..].
    + unfold up_safe in *. simpl in Hs. lia.
Qed.

Lemma copy_down_spec l fuel dst src m :
  (length l < fuel)%nat -> bytes_at m src l -> Forall is_byte l ->
  mapped m dst (Z.of_nat (length l)) -> down_safe dst src (Z.of_nat (length l)) ->
  copy_down fuel (dst + Z.of_nat (length l)) (src + Z.of_nat (length l)) (Z.of_nat (length l)) m =
  Some (tt, put_bytes m dst l).
Proof.
  unfold copy_down. revert fuel m.
  induction l as [|b l IH] using rev_ind; intros [|f] m Hf Hl Hb Hm Hs;
    rewrite ?length_app in Hf; simpl in Hf; try lia; [done|].
  apply Forall_app in Hb as [Hbl Hb]. inversion_clear Hb.
  pose proof Hl as Hl0. apply bytes_at_app in Hl as [Hl Hb].
  apply bytes_at_cons in Hb as [Hb _]. rewrite length_app_Z in *.
  change (Z.of_nat (length [b])) with 1 in *.
  erewrite loop_go.
  2: { ctest.
       replace (src + (Z.of_nat (length l) + 1) - 1) with (src + Z.of_nat (length l)) by lia.
       replace (dst + (Z.of_nat (length l) + 1) - 1) with (dst + Z.of_nat (length l)) by lia.
       cload Hb. rewrite bind_eq with (a := tt)
         (s' := put_bytes m (dst + Z.of_nat (length l)) [b]).
       - reflexivity.
       - rewrite store8_at by (apply Hm; lia). by rewrite uwrap_byte_id. }
  replace (Z.of_nat (length l) + 1 - 1) with (Z.of_nat (length l)) by lia.
  rewrite IH; try done; try lia.
  - by rewrite put_bytes_app_rev.
  - apply bytes_at_put_disjoint; [|done]. unfold down_safe, disjoint_blk in *. simpl. lia.
  - apply put_bytes_mapped. eapply mapped_weaken; [done|lia..].
  - unfold down_safe in *. lia.
Qed.

Section word_copies.
Context `{Arch}.

Lemma copy_word_spec l dst src m :
  long_aligned dst = true -> long_aligned src = true -> length l = long_size ->
  Forall is_byte l -> bytes_at m src l -> mapped m dst (Z.of_nat (length l)) ->
  copy_word dst src m = Some (tt, put_bytes m dst l).
Proof.
  intros Hd Hs Hlen Hb Hl Hm. unfold copy_word.
  rewrite (bind_eq _ _ _ _ _ (load_long_at _ _ _ Hs Hlen Hl)).
  rewrite store_long_at by (rewrite <- ?Hlen; done). by rewrite bytes_of_word_of_bytes.
Qed.

(** [step dst src] copies [n] bytes between word-aligned addresses. *)
Definition copies (step : Z -> Z -> C mem unit) (n : nat) : Prop :=
  forall l dst src m,
    long_aligned dst = true -> long_aligned src = true -> length l = n ->
    Forall is_byte l -> bytes_at m src l -> mapped m dst (Z.of_nat n) ->
    up_safe dst src (Z.of_nat n) -> step dst src m = Some (tt, put_bytes m dst l).

Lemma copies_word : copies copy_word long_size.
Proof. intros l dst src m ? ? Hl ? ? ? _. apply copy_word_spec; try done. by rewrite Hl. Qed.

Lemma copies_seq s1 s2 n1 n2 :
  (n1 mod long_size = 0)%nat -> copies s1 n1 -> copies s2 n2 ->
  copies (fun d s => run s1 d s; s2 (d + Z.of_nat n1) (s + Z.of_nat n1)) (n1 + n2).
Proof.
  intros Hn1 H1 H2 l dst src m Hd Hs Hlen Hb Hl Hm Hsafe.
  assert (forall p, long_aligned p = true -> long_aligned (p + Z.of_nat n1) = true) as Hal.
  { intros p Hp. pose proof long_size_pos. apply Nat.Div0.div_exact in Hn1.
    rewrite Hn1, Nat2Z.inj_mul. by apply long_aligned_add. }
  destruct (list_split n1 l) as (l1 & l2 & -> & Hl1 & Hl2); [lia|].
  rewrite Hlen in Hl2. apply Forall_app in Hb as [B1 B2].
  pose proof (proj1 (bytes_at_app _ _ _ _) Hl) as [Hl1' _].
  rewrite (bind_eq _ _ _ tt (put_bytes m dst l1)).
  - rewrite (H2 l2); try done; eauto; try lia.
    + rewrite put_bytes_app, Hl1. done.
    + rewrite <- Hl1. apply bytes_at_put_up; [|done].
      rewrite <- Hlen in Hsafe. done.
    + apply put_bytes_mapped. eapply mapped_weaken; [done|lia..].
    + unfold up_safe in *. lia.
  - apply H1; try done.
    + eapply mapped_weaken; [done|lia..].
    + unfold up_safe in *. lia.
Qed.

Lemma copies_4words : copies copy_4words (4 * long_size).
Proof.
  pose proof copies_word as Hw. pose proof long_size_pos as Hpos.
  pose proof (Nat.Div0.mod_same long_size) as Hmod.
  pose proof (copies_seq _ _ _ _ Hmod Hw Hw) as H2.
  pose proof (copies_seq _ _ _ _ Hmod Hw H2) as H3.
  pose proof (copies_seq _ _ _ _ Hmod Hw H3) as H4.
  intros l dst src m. intros. unfold copy_4words, LITTLE_BLOCK_SIZE.
  replace (4 * long_size)%nat with (long_size + (long_size + (long_size + long_size)))%nat in * by lia.
  rewrite <- (H4 l dst src m) by done.
  replace (dst + 2 * Z.of_nat long_size) with (dst + Z.of_nat long_size + Z.of_nat long_size) by lia.
  replace (src + 2 * Z.of_nat long_size) with (src + Z.of_nat long_size + Z.of_nat long_size) by lia.
  replace (dst + 3 * Z.of_nat long_size)
    with (dst + Z.of_nat long_size + Z.of_nat long_size + Z.of_nat long_size) by lia.
  replace (src + 3 * Z.of_nat long_size)
    with (src + Z.of_nat long_size + Z.of_nat long_size + Z.of_nat long_size) by lia.
  done.
Qed.

(** The loops that copy blocks of [n] bytes while at least [n] are left. *)
Lemma copy_blocks_spec step (n : nat) (kp kl : Z) (small : Z -> bool) q :
  (0 < n)%nat -> (n mod long_size = 0)%nat -> copies step n ->
  kp = Z.of_nat n -> kl = Z.of_nat n -> (forall x, small x = (x <? Z.of_nat n)) ->
  forall l1 l2 fuel dst src m,
  (length l1 = q * n)%nat -> (length l2 < n)%nat -> (q < fuel)%nat ->
  long_aligned dst = true -> long_aligned src = true -> Forall is_byte l1 ->
  bytes_at m src (l1 ++ l2) -> mapped m dst (Z.of_nat (length l1)) ->
  up_safe dst src (Z.of_nat (length (l1 ++ l2))) ->
  loop (fun '(dst, src, len) =>
    if small len then ret (inr (dst, src, len))
    else run step dst src; ret (inl (dst + kp, src + kp, len - kl)))
    fuel (dst, src, Z.of_nat (length (l1 ++ l2))) m =
  Some ((dst + Z.of_nat (length l1), src + Z.of_nat (length l1), Z.of_nat (length l2)),
        put_bytes m dst l1).
Proof.
  intros Hn Hmod Hstep -> -> Hsmall. induction q as [|q IH];
    intros l1 l2 [|f] dst src m H1 H2 Hf Hd Hs Hb Hl Hm Hsafe; try lia.
  - destruct l1; [|simpl in H1; lia]. erewrite loop_stop; [simpl; by rewrite !Z.add_0_r|].
    simpl. rewrite Hsmall. ctest. done.
  - destruct (list_split n l1) as (a & b & -> & Hl1 & Hl2); [lia|].
    apply Forall_app in Hb as [B1 B2].
    rewrite <- app_assoc in *.
    erewrite loop_go.
    2: { rewrite Hsmall. rewrite length_app_Z, Hl1. ctest.
         rewrite (bind_eq _ _ _ tt (put_bytes m dst a)); [reflexivity|].
         apply bytes_at_app in Hl as [? _]. rewrite !length_app_Z in *.
         apply Hstep; try done.
         - eapply mapped_weaken; [done|lia..].
         - unfold up_safe in *. lia. }
    replace (Z.of_nat n + Z.of_nat (length (b ++ l2)) - Z.of_nat n)
      with (Z.of_nat (length (b ++ l2))) by lia.
    assert (forall p, long_aligned p = true -> long_aligned (p + Z.of_nat n) = true) as Hal.
    { intros p Hp. apply Nat.Div0.div_exact in Hmod. rewrite Hmod, Nat2Z.inj_mul.
      by apply long_aligned_add. }
    rewrite IH; try done; eauto; try lia.
    + rewrite put_bytes_app, !length_app_Z, Hl1. by rewrite !Z.add_assoc.
    + rewrite <- Hl1. by apply bytes_at_put_up.
    + apply put_bytes_mapped. rewrite length_app_Z in Hm. eapply mapped_weaken; [done|lia..].
    + rewrite !length_app_Z in *. unfold up_safe in *. lia.
Qed.
End word_copies.

Section word_loops.
Context `{Arch}.

Lemma nat_blocks (n k : nat) :
  (0 < k)%nat -> exists q r, (n = q * k + r)%nat /\ (r < k)%nat.
Proof.
  intros. exists (n / k)%nat, (n mod k)%nat.
  pose proof (Nat.mod_upper_bound n k). pose proof (Nat.div_mod n k). lia.
Qed.

(** Both unrolled loops copy a prefix and leave fewer bytes than a word. *)
Lemma copy_up_words l fuel dst src m :
  (length l < fuel)%nat -> long_aligned dst = true -> long_aligned src = true ->
  Forall is_byte l -> bytes_at m src l -> mapped m dst (Z.of_nat (length l)) ->
  up_safe dst src (Z.of_nat (length l)) ->
  exists l1 l2, l = l1 ++ l2 /\
    bind (copy_up_big fuel dst src (Z.of_nat (length l)))
      (fun '(dst, src, len) => copy_up_little fuel dst src len) m =
    Some ((dst + Z.of_nat (length l1), src + Z.of_nat (length l1), Z.of_nat (length l2)),
          put_bytes m dst l1).
Proof.
  intros Hf Hd Hs Hb Hl Hm Hsafe. pose proof long_size_pos as Hpos.
  destruct (nat_blocks (length l) (4 * long_size)) as (q & r & Hq & Hr); [lia|].
  destruct (list_split (q * (4 * long_size)) l) as (a & b & -> & Ha & Hlb); [lia|].
  apply Forall_app in Hb as [Ba Bb]. rewrite length_app in *.
  destruct (nat_blocks (length b) long_size) as (q' & r' & Hq' & Hr'); [lia|].
  destruct (list_split (q' * long_size) b) as (c & d & -> & Hc & Hld); [lia|].
  rewrite length_app in *. apply Forall_app in Bb as [Bc Bd].
  exists (a ++ c), d. split; [by rewrite app_assoc|].
  rewrite <- length_app, <- length_app in *.
  rewrite (bind_eq _ _ _ (dst + Z.of_nat (length a), src + Z.of_nat (length a),
                          Z.of_nat (length (c ++ d))) (put_bytes m dst a)).
  - assert (forall p, long_aligned p = true ->
               long_aligned (p + Z.of_nat (length a)) = true) as Hal.
    { intros p Hp. rewrite Ha. replace (Z.of_nat (q * (4 * long_size)))
        with (Z.of_nat long_size * (4 * Z.of_nat q)) by lia. by apply long_aligned_add. }
    unfold copy_up_little, LITTLE_BLOCK_SIZE.
    rewrite (copy_blocks_spec copy_word long_size _ _ _ q'); try done; eauto.
    + rewrite put_bytes_app, !length_app_Z, !Z.add_assoc. done.
    + by apply Nat.Div0.mod_same.
    + apply copies_word.
    + lia.
    + rewrite !length_app in Hf. nia.
    + by apply bytes_at_put_up.
    + apply put_bytes_mapped. rewrite !length_app_Z in Hm. eapply mapped_weaken; [done|lia..].
    + rewrite !length_app_Z in *. unfold up_safe in *. lia.
  - unfold copy_up_big, LITTLE_BLOCK_SIZE.
    rewrite (copy_blocks_spec copy_4words (4 * long_size) _ _ _ q); try done.
    + lia.
    + apply Nat.Div0.mod_mul.
    + apply copies_4words.
    + lia.
    + rewrite BIG_BLOCK_SIZE_eq. lia.
    + intros x. unfold TOO_SMALL_BIG_BLOCK. rewrite BIG_BLOCK_SIZE_eq. f_equal. lia.
    + rewrite length_app. lia.
    + rewrite !length_app in Hf. nia.
    + rewrite length_app_Z in Hm. eapply mapped_weaken; [done|lia..].
Qed.

Lemma copy_down_words l fuel dst src m :
  (length l < fuel)%nat ->
  long_aligned (dst + Z.of_nat (length l)) = true ->
  long_aligned (src + Z.of_nat (length l)) = true ->
  Forall is_byte l -> bytes_at m src l -> mapped m dst (Z.of_nat (length l)) ->
  down_safe dst src (Z.of_nat (length l)) ->
  exists l1 l2, l = l1 ++ l2 /\
    copy_down_little fuel (dst + Z.of_nat (length l)) (src + Z.of_nat (length l))
      (Z.of_nat (length l)) m =
    Some ((dst + Z.of_nat (length l1), src + Z.of_nat (length l1), Z.of_nat (length l1)),
          put_bytes m (dst + Z.of_nat (length l1)) l2).
Proof.
  intros Hf. pose proof long_size_pos as Hpos.
  destruct (nat_blocks (length l) long_size) as (q & r & Hq & Hr); [lia|].
  assert (q < fuel)%nat as Hqf by nia. clear Hf.
  revert l fuel m Hq Hqf. unfold copy_down_little, TOO_SMALL_LITTLE_BLOCK, LITTLE_BLOCK_SIZE.
  induction q as [|q IH]; intros l [|f] m Hq Hqf Hd Hs Hb Hl Hm Hsafe; try lia.
  - exists l, []. split; [by rewrite app_nil_r|]. erewrite loop_stop; [done|].
    ctest. done.
  - destruct (list_split (length l - long_size) l) as (a & b & -> & Ha & Hlb); [lia|].
    assert (length b = long_size) as Hlb' by lia. clear Hlb. rewrite length_app in Hq, Ha.
    apply Forall_app in Hb as [Ba Bb]. rewrite length_app_Z, Hlb' in *.
    apply bytes_at_app in Hl as [Hla Hlb].
    assert (forall p, long_aligned (p + (Z.of_nat (length a) + Z.of_nat long_size)) = true ->
              long_aligned (p + Z.of_nat (length a)) = true) as Hal.
    { intros p Hp. replace (p + Z.of_nat (length a))
        with (p + (Z.of_nat (length a) + Z.of_nat long_size) + Z.of_nat long_size * -1) by lia.
      by apply long_aligned_add. }
    destruct (IH a f (put_bytes m (dst + Z.of_nat (length a)) b)) as (l1 & l2 & -> & E);
      try done; eauto; try lia.
    { apply bytes_at_put_disjoint; [|done]. unfold down_safe, disjoint_blk in *. lia. }
    { apply put_bytes_mapped. eapply mapped_weaken; [done|lia..]. }
    { unfold down_safe in *. lia. }
    exists l1, (l2 ++ b). split; [by rewrite app_assoc|].
    erewrite loop_go.
    2: { ctest.
         rewrite (bind_eq _ _ _ tt (put_bytes m (dst + Z.of_nat (length (l1 ++ l2))) b)).
         - reflexivity.
         - replace (dst + (Z.of_nat (length (l1 ++ l2)) + Z.of_nat long_size) - Z.of_nat long_size)
             with (dst + Z.of_nat (length (l1 ++ l2))) by lia.
           replace (src + (Z.of_nat (length (l1 ++ l2)) + Z.of_nat long_size) - Z.of_nat long_size)
             with (src + Z.of_nat (length (l1 ++ l2))) by lia.
           apply copy_word_spec; eauto. rewrite Hlb'. eapply mapped_weaken; [done|lia..]. }
    set (n := Z.of_nat (length (l1 ++ l2))) in *.
    replace (dst + (n + Z.of_nat long_size) - Z.of_nat long_size) with (dst + n) by lia.
    replace (src + (n + Z.of_nat long_size) - Z.of_nat long_size) with (src + n) by lia.
    replace (n + Z.of_nat long_size - Z.of_nat long_size) with n by lia.
    rewrite E, <- put_bytes_app_rev. unfold n. by rewrite length_app_Z, Z.add_assoc.
Qed.
End word_loops.

(** ** memmove, mempcpy *)

Section moves.
Context `{Arch}.
Variables (l : list Z) (fuel : nat) (dst src : Z) (m : mem).
Local Abbreviation n := (Z.of_nat (length l)).
Hypothesis Hfuel : (length l < fuel)%nat.
Hypothesis Hok : mem_ok m.
Hypothesis Hsrc : bytes_at m src l.
Hypothesis Hdst : mapped m dst n.

(** The upward copy of memmove, mempcpy and the residual loop after it. *)
Lemma copy_up_aligned (c : bool) :
  up_safe dst src n -> (c = true -> long_aligned src && long_aligned dst = true) ->
  bind (if c then
          bind (copy_up_big fuel dst src n)
            (fun '(dst, src, len) => copy_up_little fuel dst src len)
        else ret (dst, src, n))
    (fun '(dst, src, len) => copy_up fuel dst src len) m =
  Some ((dst + n, src + n), put_bytes m dst l).
Proof.
  pose proof (bytes_at_bytes _ _ _ Hok Hsrc) as Hb. intros Hsafe Hc. destruct c.
  - specialize (Hc eq_refl). bool_to_prop.
    destruct (copy_up_words l fuel dst src m) as (l1 & l2 & E & Hw); try done.
    rewrite (bind_eq _ _ _ _ _ Hw). rewrite E in *. rewrite length_app_Z in *.
    rewrite length_app in Hfuel. apply Forall_app in Hb as [B1 B2].
    rewrite copy_up_spec; try done; try lia.
    + by rewrite put_bytes_app, !Z.add_assoc.
    + apply bytes_at_put_up; [by rewrite length_app_Z|done].
    + apply put_bytes_mapped. eapply mapped_weaken; [done|lia..].
    + unfold up_safe in *. lia.
  - rewrite bind_ret. by apply copy_up_spec.
Qed.

Lemma not_overlap_up_safe :
  (src <? dst) && (dst <? src + n) = false -> up_safe dst src n.
Proof.
  intros E. apply andb_false_iff in E as [E|E]; bool_to_prop; unfold up_safe; lia.
Qed.

Lemma memmove_small_spec :
  memmove_small fuel dst src n m = Some (dst, put_bytes m dst l).
Proof.
  pose proof (bytes_at_bytes _ _ _ Hok Hsrc) as Hb.
  unfold memmove_small. destruct ((src <? dst) && (dst <? src + n)) eqn:E.
  - bool_to_prop. erewrite bind_eq; [reflexivity|].
    apply copy_down_spec; try done. unfold down_safe. lia.
  - erewrite bind_eq; [reflexivity|]. apply copy_up_spec; try done.
    by apply not_overlap_up_safe.
Qed.

Lemma memmove_spec :
  memmove fuel dst src n m = Some (dst, put_bytes m dst l).
Proof.
  pose proof (bytes_at_bytes _ _ _ Hok Hsrc) as Hb.
  unfold memmove. destruct ((src <? dst) && (dst <? src + n)) eqn:E.
  - bool_to_prop. assert (down_safe dst src n) as Hsafe by (unfold down_safe; lia).
    destruct (negb (TOO_SMALL_LITTLE_BLOCK n) && (UNALIGNED_X_Y (src + n) (dst + n) =? 0)) eqn:Ew.
    + rewrite UNALIGNED_X_Y_zero in Ew. bool_to_prop.
      destruct (copy_down_words l fuel dst src m) as (l1 & l2 & El & Hw); try done.
      rewrite (bind_eq _ _ _ _ _ Hw). rewrite El in *. rewrite length_app_Z in *.
      rewrite length_app in Hfuel. apply Forall_app in Hb as [B1 B2].
      erewrite bind_eq; [reflexivity|].
      rewrite copy_down_spec; try done; try lia.
      * by rewrite put_bytes_app_rev.
      * apply bytes_at_app in Hsrc as [? _]. apply bytes_at_put_disjoint; [|done].
        unfold down_safe, disjoint_blk in *. lia.
      * apply put_bytes_mapped. eapply mapped_weaken; [done|lia..].
      * unfold down_safe in *. lia.
    + rewrite bind_ret. erewrite bind_eq; [reflexivity|]. by apply copy_down_spec.
  - pose proof (not_overlap_up_safe E) as Hsafe.
    rewrite bind_triple_assoc.
    erewrite bind_eq; [|apply copy_up_aligned; [done|]]; [done|].
    rewrite UNALIGNED_X_Y_zero. by intros [_ ?]%andb_true_iff.
Qed.

Lemma mempcpy_small_spec :
  up_safe dst src n -> mempcpy_small fuel dst src n m = Some (dst + n, put_bytes m dst l).
Proof.
  intros Hsafe. unfold mempcpy_small. pose proof (bytes_at_bytes _ _ _ Hok Hsrc) as Hb.
  erewrite bind_eq; [|by apply copy_up_spec]. done.
Qed.

Lemma mempcpy_spec :
  up_safe dst src n -> mempcpy fuel dst src n m = Some (dst + n, put_bytes m dst l).
Proof.
  intros Hsafe. unfold mempcpy. rewrite bind_triple_assoc.
  erewrite bind_eq; [|apply copy_up_aligned; [done|]]; [done|].
  rewrite UNALIGNED_X_Y_zero. by intros [_ ?]%andb_true_iff.
Qed.
End moves.

(** ** memcpy *)

Section memcpy_proof.
Context `{Arch}.

(** The word stored by an iteration of the merging loop: the tail of the
    left source word and the head of the right one. *)
Lemma merge_words X Y (k : nat) :
  length X = long_size -> length Y = long_size -> Forall is_byte X -> Forall is_byte Y ->
  (k <= long_size)%nat ->
  (if big_endian
   then Z.lor (uwrap long_bits (Z.shiftl (word_of_bytes X) (Z.shiftl (Z.of_nat k) 3)))
              (Z.shiftr (word_of_bytes Y) (Z.shiftl (Z.of_nat (long_size - k)) 3))
   else Z.lor (Z.shiftr (word_of_bytes X) (Z.shiftl (Z.of_nat k) 3))
              (uwrap long_bits (Z.shiftl (word_of_bytes Y) (Z.shiftl (Z.of_nat (long_size - k)) 3)))) =
  word_of_bytes (drop k X ++ take k Y).
Proof.
  intros HX HY BX BY Hk. unfold word_of_bytes, long_bits.
  assert (forall j, Z.shiftl (Z.of_nat j) 3 = 8 * Z.of_nat j) as E3.
  { intros. rewrite Z.shiftl_mul_pow2 by lia. lia. }
  rewrite !E3. clear E3.
  destruct big_endian.
  - rewrite Z.lor_comm, rev_app_distr.
    pose proof (merge_digits (rev Y) (rev X) (long_size - k)) as M. cbv zeta in M.
    rewrite !length_rev, HX, HY in M.
    replace (Z.of_nat long_size - Z.of_nat (long_size - k)) with (Z.of_nat k) in M by lia.
    rewrite M by (try apply Forall_rev; done || lia). f_equal. f_equal.
    + rewrite skipn_rev, HY. do 2 f_equal. lia.
    + rewrite firstn_rev, HX. do 2 f_equal. lia.
  - pose proof (merge_digits X Y k BX BY) as M. rewrite HX, HY in M. cbv zeta in M.
    replace (Z.of_nat (long_size - k)) with (Z.of_nat long_size - Z.of_nat k) by lia.
    rewrite M by lia. done.
Qed.

(** The merging loop copies a prefix of the remaining source bytes [l]. *)
Lemma memcpy_merge_spec (k : nat) q l fuel dst asrc L m :
  (0 < k < long_size)%nat -> (length l <= q * long_size)%nat -> (q < fuel)%nat ->
  mem_ok m -> long_aligned dst = true -> long_aligned asrc = true ->
  length L = long_size -> bytes_at m (asrc - Z.of_nat long_size) L ->
  bytes_at m (asrc - Z.of_nat (long_size - k)) l ->
  mapped m dst (Z.of_nat (length l)) ->
  disjoint_blk dst (Z.of_nat (length l)) (asrc - Z.of_nat long_size)
    (Z.of_nat (k + length l)) ->
  exists l1 l2, l = l1 ++ l2 /\
    memcpy_merge fuel (Z.of_nat k) (Z.of_nat (long_size - k)) dst asrc (word_of_bytes L)
      (Z.of_nat (length l)) m =
    Some ((dst + Z.of_nat (length l1),
           asrc - Z.of_nat (long_size - k) + Z.of_nat (length l1), Z.of_nat (length l2)),
          put_bytes m dst l1).
Proof.
  intros Hk. unfold memcpy_merge, LITTLE_BLOCK_SIZE.
  revert l fuel dst asrc L m.
  induction q as [|q IH]; intros l [|f] dst asrc L m Hq Hf Hok Hd Hs HL HLm Hl Hm Hdis; try lia.
  - exists [], l. destruct l; [|simpl in Hq; lia]. split; [done|].
    erewrite loop_stop; [|ctest; reflexivity]. simpl. by rewrite !Z.add_0_r.
  - destruct (decide (long_size + (long_size - k) <= length l)%nat) as [Hbig|Hsmall].
    2: { exists [], l. split; [done|]. erewrite loop_stop; [|ctest; reflexivity].
         simpl. by rewrite !Z.add_0_r. }
    destruct (list_split (long_size - k) l) as (t & u & -> & Ht & Hu); [lia|].
    rewrite length_app in *.
    destruct (list_split long_size u) as (R & v & -> & HR & Hv); [lia|].
    rewrite length_app in *.
    pose proof (bytes_at_bytes _ _ _ Hok Hl) as Hb. pose proof (bytes_at_bytes _ _ _ Hok HLm) as HbL.
    rewrite !Forall_app in Hb. destruct Hb as (Bt & BR & Bv).
    assert (t = drop k L) as ->.
    { apply (bytes_at_inj m (asrc - Z.of_nat (long_size - k))).
      - by apply bytes_at_app in Hl as [? _].
      - rewrite <- (take_drop k L) in HLm. apply bytes_at_app in HLm as [_ HLm].
        rewrite length_take in HLm. eapply eq_ind with (P := fun p => bytes_at m p _); [done|lia].
      - rewrite length_drop. lia. }
    assert (bytes_at m asrc R) as HRm.
    { apply bytes_at_app in Hl as [_ Hl]. apply bytes_at_app in Hl as [Hl _].
      rewrite Ht in Hl. eapply eq_ind with (P := fun p => bytes_at m p _); [done|lia]. }
    remember (drop k L ++ take k R) as w1 eqn:Ew1.
    assert (length w1 = long_size) as Hw1.
    { subst w1. rewrite length_app, length_drop, length_take. lia. }
    assert (drop k L ++ R ++ v = w1 ++ (drop k R ++ v)) as Esplit.
    { subst w1. rewrite <- app_assoc, (app_assoc (take k R)), take_drop. done. }
    assert (Forall is_byte w1) as Bw1.
    { subst w1. apply Forall_app. split; [done|by apply Forall_take]. }
    rewrite Esplit in *.
    assert (length (drop k R ++ v) = (length (drop k L) + (length R + length v) - long_size)%nat) as Hl'.
    { rewrite length_app, !length_drop. lia. }
    rewrite Ht, HR in Hl'.
    destruct (IH (drop k R ++ v) f (dst + Z.of_nat long_size) (asrc + Z.of_nat long_size) R
                (put_bytes m dst w1)) as (l1 & l2 & E & Hloop).
    { lia. } { lia. } { by apply put_bytes_ok. } { by apply long_aligned_next. }
    { by apply long_aligned_next. } { done. }
    { replace (asrc + Z.of_nat long_size - Z.of_nat long_size) with asrc by lia.
      apply bytes_at_put_disjoint; [|done]. unfold disjoint_blk in *. lia. }
    { apply bytes_at_put_disjoint; [unfold disjoint_blk in *; lia|].
      apply bytes_at_app in Hl as [_ Hl]. rewrite Hw1 in Hl.
      eapply eq_ind with (P := fun p => bytes_at m p _); [done|lia]. }
    { apply put_bytes_mapped. eapply mapped_weaken; [done|lia..]. }
    { unfold disjoint_blk in *. lia. }
    exists (w1 ++ l1), l2. split; [by rewrite <- app_assoc, <- E|].
    erewrite loop_go.
    2: { ctest. rewrite (bind_eq _ _ _ _ _ (load_long_at _ _ _ Hs HR HRm)).
         rewrite (bind_eq _ _ _ tt (put_bytes m dst w1)); [reflexivity|].
         rewrite store_long_at; [|done|eapply mapped_weaken; [done|lia..]].
         rewrite merge_words by (done || lia). rewrite <- Ew1.
         by rewrite bytes_of_word_of_bytes. }
    rewrite Ht, HR in Hm. rewrite length_app_Z, put_bytes_app, Hw1, !Z.add_assoc.
    replace (asrc - Z.of_nat (long_size - k) + Z.of_nat long_size)
      with (asrc + Z.of_nat long_size - Z.of_nat (long_size - k)) by lia.
    rewrite <- Hloop. do 2 f_equal. rewrite Hl'. lia.
Qed.

Lemma memcpy_small_spec l fuel dst src m :
  (length l < fuel)%nat -> mem_ok m -> bytes_at m src l ->
  mapped m dst (Z.of_nat (length l)) -> up_safe dst src (Z.of_nat (length l)) ->
  memcpy_small fuel dst src (Z.of_nat (length l)) m = Some (dst, put_bytes m dst l).
Proof.
  intros ? Hok Hl ? ?. pose proof (bytes_at_bytes _ _ _ Hok Hl).
  unfold memcpy_small. erewrite bind_eq; [|by apply copy_up_spec]. done.
Qed.

(** After the prologue of memcpy [dst] is aligned and at least a word of the
    source has been copied. *)
Lemma memcpy_start dst :
  let start := Z.of_nat long_size * 2 - UNALIGNED_X dst in
  Z.of_nat long_size < start <= 2 * Z.of_nat long_size /\ long_aligned (dst + start) = true.
Proof.
  pose proof long_size_pos. cbv zeta. rewrite UNALIGNED_X_mod.
  pose proof (Z.mod_pos_bound dst (Z.of_nat long_size)). split; [lia|].
  unfold long_aligned. apply Z.eqb_eq.
  rewrite (Z.div_mod dst (Z.of_nat long_size)) at 1 by lia.
  replace (_ + _ + _) with ((dst / Z.of_nat long_size + 2) * Z.of_nat long_size) by lia.
  apply Z.mod_mul. lia.
Qed.

Lemma memcpy_spec l fuel dst src m :
  (length l < fuel)%nat -> mem_ok m -> bytes_at m src l ->
  mapped m dst (Z.of_nat (length l)) ->
  disjoint_blk dst (Z.of_nat (length l)) src (Z.of_nat (length l)) ->
  memcpy fuel dst src (Z.of_nat (length l)) m = Some (dst, put_bytes m dst l).
Proof.
  intros Hf Hok Hl Hm Hdis. pose proof long_size_pos as Hpos. unfold memcpy.
  rewrite bind_triple_assoc.
  assert (up_safe dst src (Z.of_nat (length l))) as Hsafe by (unfold up_safe, disjoint_blk in *; lia).
  pose proof (bytes_at_bytes _ _ _ Hok Hl) as Hb.
  unfold TOO_SMALL_BIG_BLOCK. rewrite BIG_BLOCK_SIZE_eq.
  destruct (Z.ltb_spec (Z.of_nat (length l)) (4 * Z.of_nat long_size)) as [Hsm|Hbig].
  { erewrite bind_eq; [reflexivity|]. rewrite bind_ret. by apply copy_up_spec. }
  pose proof (memcpy_start dst) as [Hst Hal]. unfold LITTLE_BLOCK_SIZE.
  set (start := Z.of_nat long_size * 2 - UNALIGNED_X dst) in *.
  destruct (list_split (Z.to_nat start) l) as (l0 & l' & -> & Hl0 & Hl'); [lia|].
  rewrite length_app_Z in *. apply Forall_app in Hb as [B0 B'].
  assert (Z.of_nat (length l0) = start) as Hls by lia.
  pose proof (proj1 (bytes_at_app _ _ _ _) Hl) as [Hl0m _].
  set (m1 := put_bytes m dst l0).
  assert (bytes_at m1 src (l0 ++ l')) as Hsrc1.
  { apply bytes_at_put_disjoint; [|done]. rewrite length_app_Z. unfold disjoint_blk in *. lia. }
  pose proof (proj1 (bytes_at_app _ _ _ _) Hsrc1) as [_ Hrest]. rewrite Hls in Hrest.
  assert (mapped m1 (dst + start) (Z.of_nat (length l'))) as Hm1.
  { apply put_bytes_mapped. eapply mapped_weaken; [done|lia..]. }
  assert (mem_ok m1) as Hok1 by by apply put_bytes_ok.
  enough (exists l1 l2, l' = l1 ++ l2 /\
    (let byte_shift := UNALIGNED_X (src + start) in
     if byte_shift =? 0 then
       bind (copy_up_big fuel (dst + start) (src + start) (Z.of_nat (length l')))
         (fun '(dst, src, len) => copy_up_little fuel dst src len)
     else
       bind (load_long (src + start - byte_shift))
         (fun left => memcpy_merge fuel byte_shift (Z.of_nat long_size - byte_shift) (dst + start)
            (src + start - byte_shift + Z.of_nat long_size) left (Z.of_nat (length l')))) m1 =
    Some ((dst + start + Z.of_nat (length l1), src + start + Z.of_nat (length l1),
           Z.of_nat (length l2)), put_bytes m1 (dst + start) l1)) as (l1 & l2 & -> & Hphase).
  { erewrite bind_eq; [reflexivity|].
    erewrite bind_eq.
    2: { erewrite bind_eq.
         2: { rewrite <- Hls. apply copy_up_spec; try done; [lia|..].
              - eapply mapped_weaken; [done|lia..].
              - unfold up_safe in *. lia. }
         fold m1. rewrite Hls.
         replace (start + Z.of_nat (length (l1 ++ l2)) - start)
           with (Z.of_nat (length (l1 ++ l2))) by lia.
         exact Hphase. }
    apply Forall_app in B' as [B1 B2]. rewrite length_app_Z in *.
    rewrite copy_up_spec; try done.
    - unfold m1. rewrite <- Hls, !put_bytes_app. done.
    - rewrite length_app in Hl'. lia.
    - apply bytes_at_put_up; [|done]. rewrite length_app_Z. unfold up_safe, disjoint_blk in *. lia.
    - apply put_bytes_mapped. eapply mapped_weaken; [done|lia..].
    - unfold up_safe, disjoint_blk in *. lia. }
  cbv zeta. destruct (Z.eqb_spec (UNALIGNED_X (src + start)) 0) as [E0|E0].
  - apply Z.eqb_eq in E0. rewrite UNALIGNED_X_zero in E0.
    apply copy_up_words; try done; [lia|]. unfold up_safe, disjoint_blk in *. lia.
  - set (k := Z.to_nat (UNALIGNED_X (src + start))).
    assert (UNALIGNED_X (src + start) = Z.of_nat k /\ (0 < k < long_size)%nat) as [Ek Hk].
    { subst k. rewrite UNALIGNED_X_mod in *.
      pose proof (Z.mod_pos_bound (src + start) (Z.of_nat long_size)). lia. }
    rewrite Ek. replace (Z.of_nat long_size - Z.of_nat k) with (Z.of_nat (long_size - k)) by lia.
    destruct (list_split (length l0 - k) (l0 ++ l')) as (x & y & Exy & Hx & Hy);
      [rewrite length_app; lia|].
    rewrite Exy in Hsrc1. apply bytes_at_app in Hsrc1 as [_ Hy1]. rewrite length_app in Hy.
    destruct (list_split long_size y) as (L & z & -> & HL & Hz); [lia|].
    apply bytes_at_app in Hy1 as [HLm _].
    replace (src + Z.of_nat (length x)) with (src + start - Z.of_nat k) in HLm by lia.
    assert (long_aligned (src + start - Z.of_nat k) = true) as Has.
    { unfold long_aligned. apply Z.eqb_eq. rewrite <- Ek, UNALIGNED_X_mod.
      rewrite Zminus_mod_idemp_r, Z.sub_diag. done. }
    rewrite (bind_eq _ _ _ _ _ (load_long_at _ _ _ Has HL HLm)).
    destruct (memcpy_merge_spec k (length l') l' fuel (dst + start)
                (src + start - Z.of_nat k + Z.of_nat long_size) L m1) as (l1 & l2 & E & Hloop);
      try done; try lia.
    + nia.
    + by apply long_aligned_next.
    + eapply eq_ind with (P := fun p => bytes_at m1 p _); [done|lia].
    + eapply eq_ind with (P := fun p => bytes_at m1 p _); [done|lia].
    + unfold disjoint_blk in *. lia.
    + exists l1, l2. split; [done|]. rewrite Hloop. do 3 f_equal. f_equal. lia.
Qed.
End memcpy_proof.

(** ** memset *)

Lemma set_up_spec k fuel s c m :
  (k < fuel)%nat -> mapped m s (Z.of_nat k) ->
  set_up fuel s c (Z.of_nat k) m =
  Some (s + Z.of_nat k, put_bytes m s (replicate k (uwrap 8 c))).
Proof.
  unfold set_up. revert fuel s m. induction k as [|k IH]; intros [|f] s m Hf Hm; try lia.
  - erewrite loop_stop; [|ctest; reflexivity]. simpl. by rewrite Z.add_0_r.
  - erewrite loop_go.
    2: { ctest. rewrite (bind_eq _ _ _ _ _ (store8_at m s c ltac:(apply Hm; lia))). reflexivity. }
    replace (Z.of_nat (S k) - 1) with (Z.of_nat k) by lia.
    rewrite IH; [|lia|].
    + by replace (s + Z.of_nat (S k)) with (s + 1 + Z.of_nat k) by lia.
    + apply (put_bytes_mapped m s [_]). eapply mapped_weaken; [done|lia..].
Qed.

Lemma put_replicate_add m s p (a b : nat) d :
  p = s + Z.of_nat a ->
  put_bytes (put_bytes m s (replicate a d)) p (replicate b d) =
  put_bytes m s (replicate (a + b) d).
Proof. intros ->. rewrite replicate_add, put_bytes_app, length_replicate. done. Qed.

Section memset_proof.
Context `{Arch}.

(** [step s] fills [n] bytes at a word-aligned address with [d]. *)
Definition fills (step : Z -> C mem unit) (d : Z) (n : nat) : Prop :=
  forall s m, long_aligned s = true -> mapped m s (Z.of_nat n) ->
    step s m = Some (tt, put_bytes m s (replicate n d)).

Lemma fills_long d : is_byte d -> fills (fun s => store_long s (fill_word d)) d long_size.
Proof.
  intros Hd s m Ha Hm. rewrite store_long_at by done.
  by rewrite fill_word_spec, bytes_of_fill.
Qed.

Lemma fills_seq s1 s2 d n1 n2 :
  (n1 mod long_size = 0)%nat -> fills s1 d n1 -> fills s2 d n2 ->
  fills (fun s => run s1 s; s2 (s + Z.of_nat n1)) d (n1 + n2).
Proof.
  intros Hn H1 H2 s m Ha Hm.
  rewrite (bind_eq _ _ _ _ _ (H1 s m Ha ltac:(eapply mapped_weaken; [done|lia..]))).
  rewrite H2; [by rewrite put_replicate_add by lia|..].
  - apply Nat.Div0.div_exact in Hn. rewrite Hn, Nat2Z.inj_mul. by apply long_aligned_add.
  - apply put_bytes_mapped. eapply mapped_weaken; [done|lia..].
Qed.

Lemma fills_4longs d :
  is_byte d -> fills (fun s => store_4longs s (fill_word d)) d (4 * long_size).
Proof.
  intros Hd. pose proof (fills_long d Hd) as Hw.
  pose proof (Nat.Div0.mod_same long_size) as Hmod.
  pose proof (fills_seq _ _ _ _ _ Hmod Hw Hw) as H2.
  pose proof (fills_seq _ _ _ _ _ Hmod Hw H2) as H3.
  pose proof (fills_seq _ _ _ _ _ Hmod Hw H3) as H4.
  intros s m Ha Hm. unfold store_4longs, LITTLE_BLOCK_SIZE.
  replace (4 * long_size)%nat with (long_size + (long_size + (long_size + long_size)))%nat in * by lia.
  rewrite <- (H4 s m) by done.
  replace (s + 2 * Z.of_nat long_size) with (s + Z.of_nat long_size + Z.of_nat long_size) by lia.
  replace (s + 3 * Z.of_nat long_size)
    with (s + Z.of_nat long_size + Z.of_nat long_size + Z.of_nat long_size) by lia.
  done.
Qed.

Lemma fill_blocks_spec step d (n : nat) (kp kl : Z) (small : Z -> bool) r q :
  (0 < n)%nat -> (n mod long_size = 0)%nat -> fills step d n ->
  kp = Z.of_nat n -> kl = Z.of_nat n -> (forall x, small x = (x <? Z.of_nat n)) ->
  (r < n)%nat ->
  forall fuel s m, (q < fuel)%nat -> long_aligned s = true ->
  mapped m s (Z.of_nat (q * n)) ->
  loop (fun '(s, len) =>
    if small len then ret (inr (s, len))
    else run step s; ret (inl (s + kp, len - kl))) fuel (s, Z.of_nat (q * n + r)) m =
  Some ((s + Z.of_nat (q * n), Z.of_nat r), put_bytes m s (replicate (q * n) d)).
Proof.
  intros Hn Hmod Hstep -> -> Hsmall Hr. induction q as [|q IH]; intros [|f] s m Hf Ha Hm; try lia.
  - erewrite loop_stop; [|rewrite Hsmall; ctest; reflexivity]. simpl. by rewrite Z.add_0_r.
  - erewrite loop_go.
    2: { rewrite Hsmall. ctest. erewrite bind_eq; [reflexivity|].
         apply Hstep; [done|]. eapply mapped_weaken; [done|lia..]. }
    replace (Z.of_nat (S q * n + r) - Z.of_nat n) with (Z.of_nat (q * n + r)) by lia.
    rewrite IH; [|lia|..].
    + rewrite put_replicate_add by lia. change (S q * n)%nat with (n + q * n)%nat.
      by rewrite Nat2Z.inj_add, Z.add_assoc.
    + apply Nat.Div0.div_exact in Hmod. rewrite Hmod, Nat2Z.inj_mul. by apply long_aligned_add.
    + apply put_bytes_mapped. eapply mapped_weaken; [done|lia..].
Qed.

Lemma memset_align_spec k fuel s c m :
  (k < fuel)%nat -> mapped m s (Z.of_nat k) ->
  exists a b, k = (a + b)%nat /\
    ((long_aligned (s + Z.of_nat a) = true /\
      memset_align fuel s c (Z.of_nat k) m =
      Some (Some (s + Z.of_nat a, Z.of_nat b), put_bytes m s (replicate a (uwrap 8 c)))) \/
     (b = 0%nat /\
      memset_align fuel s c (Z.of_nat k) m =
      Some (None, put_bytes m s (replicate a (uwrap 8 c))))).
Proof.
  unfold memset_align. revert fuel s m. induction k as [|k IH]; intros [|f] s m Hf Hm; try lia.
  - exists 0%nat, 0%nat. split; [done|]. rewrite Z.add_0_r.
    destruct (long_aligned s) eqn:Ea; [left|right]; (split; [done|]);
      (erewrite loop_stop; [reflexivity|]); rewrite UNALIGNED_X_zero, Ea; done.
  - destruct (long_aligned s) eqn:Ea.
    { exists 0%nat, (S k). split; [done|]. left. rewrite Z.add_0_r. split; [done|].
      erewrite loop_stop; [reflexivity|]. by rewrite UNALIGNED_X_zero, Ea. }
    destruct (IH f (s + 1) (<[s := uwrap 8 c]> m)) as (a & b & Hab & Hcase); [lia|..].
    { apply (put_bytes_mapped m s [_]). eapply mapped_weaken; [done|lia..]. }
    exists (S a), b. split; [lia|].
    erewrite loop_go.
    2: { rewrite UNALIGNED_X_zero, Ea. ctest.
         rewrite (bind_eq _ _ _ _ _ (store8_at m s c ltac:(apply Hm; lia))). reflexivity. }
    replace (Z.of_nat (S k) - 1) with (Z.of_nat k) by lia.
    replace (s + Z.of_nat (S a)) with (s + 1 + Z.of_nat a) by lia. exact Hcase.
Qed.

Lemma land_255 c : Z.land c 0xff = uwrap 8 c.
Proof. change 0xff with (Z.ones 8). by apply Z.land_ones. Qed.

Lemma memset_small_spec n fuel s c m :
  (n < fuel)%nat -> mapped m s (Z.of_nat n) ->
  memset_small fuel s c (Z.of_nat n) m = Some (s, put_bytes m s (replicate n (uwrap 8 c))).
Proof. intros. unfold memset_small. erewrite bind_eq; [|by apply set_up_spec]. done. Qed.

Lemma memset_spec n fuel s c m :
  (n < fuel)%nat -> mapped m s (Z.of_nat n) ->
  memset fuel s c (Z.of_nat n) m = Some (s, put_bytes m s (replicate n (uwrap 8 c))).
Proof.
  intros Hf Hm. unfold memset. rewrite land_255.
  pose proof (uwrap_byte c) as Hd. set (d := uwrap 8 c) in *. pose proof long_size_pos as Hpos.
  destruct (memset_align_spec n fuel s c m) as (a & b & -> & [[Ha E]|[-> E]]); [done..| |];
    rewrite (bind_eq _ _ _ _ _ E); fold d; cbv iota; [|by rewrite Nat.add_0_r].
  unfold TOO_SMALL_LITTLE_BLOCK at 1, LITTLE_BLOCK_SIZE at 1.
  destruct (Z.ltb_spec (Z.of_nat b) (Z.of_nat long_size)) as [Hsm|Hbig].
  { rewrite bind_ret. erewrite bind_eq; [|apply set_up_spec; [lia|]]; fold d.
    - by rewrite put_replicate_add by lia.
    - apply put_bytes_mapped. eapply mapped_weaken; [done|lia..]. }
  destruct (nat_blocks b (4 * long_size)) as (q & r & -> & Hr); [lia|].
  destruct (nat_blocks r long_size) as (q' & r' & -> & Hr'); [lia|].
  assert (long_aligned (s + Z.of_nat a + Z.of_nat (q * (4 * long_size))) = true) as Ha2.
  { replace (Z.of_nat (q * (4 * long_size))) with (Z.of_nat long_size * (4 * Z.of_nat q)) by lia.
    by apply long_aligned_add. }
  erewrite bind_eq.
  2: { erewrite bind_eq.
       2: { unfold memset_big, LITTLE_BLOCK_SIZE.
            apply (fill_blocks_spec _ d (4 * long_size)); try done; try lia.
            - apply Nat.Div0.mod_mul.
            - by apply fills_4longs.
            - rewrite BIG_BLOCK_SIZE_eq. lia.
            - intros x. unfold TOO_SMALL_BIG_BLOCK. rewrite BIG_BLOCK_SIZE_eq. f_equal. lia.
            - nia.
            - apply put_bytes_mapped. eapply mapped_weaken; [done|lia..]. }
       unfold memset_little, LITTLE_BLOCK_SIZE. rewrite put_replicate_add by lia.
       apply (fill_blocks_spec _ d long_size); try done; try lia.
       - apply Nat.Div0.mod_same.
       - by apply fills_long.
       - nia.
       - apply put_bytes_mapped. eapply mapped_weaken; [done|lia..]. }
  rewrite put_replicate_add by lia.
  erewrite bind_eq; [|apply set_up_spec; [lia|]]; fold d.
  - rewrite put_replicate_add by lia. by rewrite <- !Nat.add_assoc.
  - apply put_bytes_mapped. eapply mapped_weaken; [done|lia..].
Qed.
End memset_proof.

(** ** Searching and comparing *)

(** The reference: index of the first [d] in [l]. *)
Fixpoint first_index (d : Z) (l : list Z) : option nat :=
  match l with
  | [] => None
  | b :: l => if b =? d then Some 0%nat else S <$> first_index d l
  end.

(** The pointer a search returns: the element's address or [NULL]. *)
Definition ptr_at (p : Z) (i : option nat) : Z :=
  match i with Some i => p + Z.of_nat i | None => NULL end.

(** The reference: difference of the first bytes that differ. *)
Fixpoint cmp_bytes (l1 l2 : list Z) : Z :=
  match l1, l2 with
  | a :: l1, b :: l2 => if a =? b then cmp_bytes l1 l2 else a - b
  | _, _ => 0
  end.

Lemma first_index_None d l : first_index d l = None <-> d ∉ l.
Proof.
  induction l as [|b l IH]; simpl; [set_solver|]. rewrite not_elem_of_cons. case_bool.
  - split; [done|by intros [? ?]].
  - rewrite fmap_None, IH. naive_solver.
Qed.

Lemma first_index_Some d l i :
  first_index d l = Some i <-> exists l1 l2, l = l1 ++ d :: l2 /\ (d ∉ l1) /\ length l1 = i.
Proof.
  revert i. induction l as [|b l IH]; intros i; simpl.
  - split; [done|]. intros (l1 & l2 & E & _). by destruct l1.
  - case_bool.
    + subst b. split.
      * intros [= <-]. exists [], l. split_and!; [done|set_solver|done].
      * intros ([|x l1] & l2 & E & Hn & Hi); [simpl in Hi; by subst i|].
        injection E as -> _. set_solver.
    + rewrite fmap_Some. split.
      * intros (j & Hj & ->). apply IH in Hj as (l1 & l2 & -> & Hn & <-).
        exists (b :: l1), l2. split_and!; [done| |done]. apply not_elem_of_cons. by split.
      * intros ([|x l1] & l2 & E & Hn & Hi); injection E as -> E; [done|].
        exists (length l1). split; [|done]. apply IH. exists l1, l2.
        split_and!; [done|set_solver|done].
Qed.

Lemma first_index_app d l1 l2 :
  d ∉ l1 -> first_index d (l1 ++ l2) = (fun i => (length l1 + i)%nat) <$> first_index d l2.
Proof.
  induction l1 as [|b l1 IH]; intros Hn; simpl.
  - by destruct (first_index d l2).
  - apply not_elem_of_cons in Hn as [? ?]. case_bool; [done|].
    rewrite IH by done. by destruct (first_index d l2).
Qed.

Lemma ptr_at_app d p l1 l2 :
  d ∉ l1 -> ptr_at p (first_index d (l1 ++ l2)) =
            ptr_at (p + Z.of_nat (length l1)) (first_index d l2).
Proof.
  intros. rewrite first_index_app by done.
  destruct (first_index d l2); simpl; [lia|done].
Qed.

Lemma cmp_bytes_app a l1 l2 : cmp_bytes (a ++ l1) (a ++ l2) = cmp_bytes l1 l2.
Proof. induction a as [|x a IH]; simpl; [done|]. by rewrite Z.eqb_refl. Qed.

Lemma cmp_bytes_zero l1 l2 : length l1 = length l2 -> cmp_bytes l1 l2 = 0 <-> l1 = l2.
Proof.
  revert l2. induction l1 as [|a l1 IH]; intros [|b l2] Hlen; try done. simpl in *.
  case_bool; [subst b; rewrite IH by lia; naive_solver|].
  split; [lia|congruence].
Qed.

Lemma chr_up_spec l fuel p d m :
  (length l < fuel)%nat -> bytes_at m p l ->
  chr_up fuel p d (Z.of_nat (length l)) m = Some (ptr_at p (first_index d l), m).
Proof.
  unfold chr_up. revert fuel p. induction l as [|b l IH]; intros [|f] p Hf Hl; simpl in Hf; try lia.
  - erewrite loop_stop; [|ctest; reflexivity]. done.
  - apply bytes_at_cons in Hl as [Hb Hl]. cbn [first_index]. destruct (Z.eqb_spec b d) as [->|Hne].
    + erewrite loop_stop; [|ctest; cload Hb; rewrite Z.eqb_refl; reflexivity].
      simpl. by rewrite Z.add_0_r.
    + erewrite loop_go; [|ctest; cload Hb; ctest; reflexivity].
      replace (Z.of_nat (S (length l)) - 1) with (Z.of_nat (length l)) by lia.
      rewrite IH by (done || lia). destruct (first_index d l); simpl; [|done].
      do 2 f_equal. lia.
Qed.

Section search_words.
Context `{Arch}.

Lemma memchr_align_spec l fuel p d m :
  (length l < fuel)%nat -> bytes_at m p l ->
  exists l1 l2, l = l1 ++ l2 /\ (d ∉ l1) /\
    ((long_aligned (p + Z.of_nat (length l1)) = true /\
      memchr_align fuel p d (Z.of_nat (length l)) m =
      Some (inr (p + Z.of_nat (length l1), Z.of_nat (length l2)), m)) \/
     memchr_align fuel p d (Z.of_nat (length l)) m =
     Some (inl (ptr_at p (first_index d l)), m)).
Proof.
  unfold memchr_align. revert fuel p.
  induction l as [|b l IH]; intros [|f] p Hf Hl; simpl in Hf; try lia.
  - exists [], []. split_and!; [done|set_solver|]. simpl. rewrite Z.add_0_r.
    destruct (long_aligned p) eqn:Ea; [left|right]; try split; try done;
      (erewrite loop_stop; [reflexivity|]); by rewrite UNALIGNED_X_zero, Ea.
  - apply bytes_at_cons in Hl as [Hb Hl]. destruct (long_aligned p) eqn:Ea.
    { exists [], (b :: l). split_and!; [done|set_solver|]. left. simpl. rewrite Z.add_0_r.
      split; [done|]. erewrite loop_stop; [reflexivity|]. by rewrite UNALIGNED_X_zero, Ea. }
    destruct (Z.eqb_spec b d) as [->|Hne].
    { exists [], (d :: l). split_and!; [done|set_solver|]. right. cbn [first_index].
      erewrite loop_stop; [|rewrite UNALIGNED_X_zero, Ea; ctest; cload Hb;
        rewrite Z.eqb_refl; reflexivity]. rewrite Z.eqb_refl. simpl. by rewrite Z.add_0_r. }
    destruct (IH f (p + 1)) as (l1 & l2 & -> & Hn & Hcase); [lia|done|].
    exists (b :: l1), l2. split_and!; [done|set_solver|].
    erewrite loop_go; [|rewrite UNALIGNED_X_zero, Ea; ctest; cload Hb; ctest; reflexivity].
    replace (Z.of_nat (S (length (l1 ++ l2))) - 1) with (Z.of_nat (length (l1 ++ l2))) by lia.
    replace (p + Z.of_nat (length (b :: l1))) with (p + 1 + Z.of_nat (length l1)) by (simpl; lia).
    assert (ptr_at p (first_index d (b :: l1 ++ l2)) =
            ptr_at (p + 1) (first_index d (l1 ++ l2))) as ->; [|exact Hcase].
    apply (ptr_at_app d p [b]). set_solver.
Qed.

Lemma memchr_words_spec q l fuel p d m :
  mem_ok m -> is_byte d -> (length l <= q * long_size)%nat -> (q < fuel)%nat ->
  long_aligned p = true -> bytes_at m p l ->
  exists l1 l2, l = l1 ++ l2 /\ (d ∉ l1) /\
    memchr_words fuel p (fill_word d) (Z.of_nat (length l)) m =
    Some ((p + Z.of_nat (length l1), Z.of_nat (length l2)), m).
Proof.
  intros Hok Hd. unfold memchr_words, TOO_SMALL_LITTLE_BLOCK, LITTLE_BLOCK_SIZE.
  pose proof long_size_pos as Hpos.
  revert l fuel p. induction q as [|q IH]; intros l [|f] p Hq Hf Ha Hl; try lia.
  { destruct l; [|simpl in Hq; lia]. exists [], []. split; [done|]. split; [set_solver|].
    erewrite loop_stop; [|ctest; reflexivity]. simpl. by rewrite Z.add_0_r. }
  destruct (decide (length l < long_size)%nat) as [Hsm|Hbig].
  { exists [], l. split; [done|]. split; [set_solver|].
    erewrite loop_stop; [|ctest; reflexivity]. simpl. by rewrite Z.add_0_r. }
  destruct (list_split long_size l) as (w & l' & -> & Hw & Hl'); [lia|].
  pose proof (bytes_at_bytes _ _ _ Hok Hl) as Hb. apply Forall_app in Hb as [Bw Bl].
  pose proof (proj1 (bytes_at_app _ _ _ _) Hl) as [Hwm Hlm].
  pose proof (DETECT_CHAR_spec w d Hw Bw Hd) as Hdet.
  destruct (Z.eqb_spec (DETECT_CHAR (word_of_bytes w) (fill_word d)) 0) as [E|E].
  - rewrite fill_word_spec in E by done. apply Hdet in E. rewrite length_app in *.
    destruct (IH l' f (p + Z.of_nat long_size)) as (l1 & l2 & -> & Hn & Hloop);
      [lia|lia|by apply long_aligned_next|by rewrite <- Hw|].
    exists (w ++ l1), l2. split_and!; [by rewrite app_assoc|set_solver|].
    erewrite loop_go.
    2: { ctest. rewrite (bind_eq _ _ _ _ _ (load_long_at _ _ _ Ha Hw Hwm)).
         rewrite (fill_word_spec d), (proj2 Hdet E) by done. reflexivity. }
    replace (Z.of_nat (length w + length (l1 ++ l2)) - Z.of_nat long_size)
      with (Z.of_nat (length (l1 ++ l2))) by lia.
    rewrite Hloop, length_app_Z, Hw, Z.add_assoc. done.
  - exists [], (w ++ l'). split_and!; [done|set_solver|].
    erewrite loop_stop; [simpl; by rewrite Z.add_0_r|].
    ctest. rewrite (bind_eq _ _ _ _ _ (load_long_at _ _ _ Ha Hw Hwm)). by ctest.
Qed.

Lemma memchr_small_spec l fuel p c m :
  (length l < fuel)%nat -> bytes_at m p l ->
  memchr_small fuel p c (Z.of_nat (length l)) m =
  Some (ptr_at p (first_index (uwrap 8 c) l), m).
Proof. intros. by apply chr_up_spec. Qed.

Lemma memchr_spec l fuel p c m :
  (length l < fuel)%nat -> mem_ok m -> bytes_at m p l ->
  memchr fuel p c (Z.of_nat (length l)) m =
  Some (ptr_at p (first_index (uwrap 8 c) l), m).
Proof.
  intros Hf Hok Hl. unfold memchr. pose proof (uwrap_byte c) as Hd.
  set (d := uwrap 8 c) in *. pose proof long_size_pos.
  destruct (memchr_align_spec l fuel p d m Hf Hl) as (l1 & l2 & -> & Hn & [[Ha E]|E]);
    rewrite (bind_eq _ _ _ _ _ E); [|done].
  apply bytes_at_app in Hl as [_ Hl2]. rewrite length_app in Hf.
  rewrite ptr_at_app by done. set (p2 := p + Z.of_nat (length l1)) in *.
  destruct (TOO_SMALL_LITTLE_BLOCK (Z.of_nat (length l2))).
  - rewrite bind_ret. apply chr_up_spec; [lia|done].
  - destruct (memchr_words_spec (length l2) l2 fuel p2 d m)
      as (l3 & l4 & -> & Hn3 & Ew); try done; [nia|lia|].
    rewrite (bind_eq _ _ _ _ _ Ew), ptr_at_app by done.
    apply bytes_at_app in Hl2 as [_ Hl4]. rewrite length_app in Hf.
    apply chr_up_spec; [lia|done].
Qed.
End search_words.

Lemma cmp_up_spec l1 l2 fuel p1 p2 m :
  length l1 = length l2 -> (length l1 < fuel)%nat -> bytes_at m p1 l1 -> bytes_at m p2 l2 ->
  cmp_up fuel p1 p2 (Z.of_nat (length l1)) m = Some (cmp_bytes l1 l2, m).
Proof.
  unfold cmp_up. revert l2 fuel p1 p2.
  induction l1 as [|a l1 IH]; intros [|b l2] [|f] p1 p2 Hlen Hf H1 H2; simpl in Hlen, Hf; try lia.
  - erewrite loop_stop; [|ctest; reflexivity]. done.
  - apply bytes_at_cons in H1 as [Ha H1], H2 as [Hb H2]. cbn [cmp_bytes].
    destruct (Z.eqb_spec a b) as [->|Hne].
    + erewrite loop_go; [|ctest; cload Ha; cload Hb; rewrite Z.eqb_refl; reflexivity].
      replace (Z.of_nat (S (length l1)) - 1) with (Z.of_nat (length l1)) by lia.
      apply IH; done || lia.
    + erewrite loop_stop; [|ctest; cload Ha; cload Hb; ctest; reflexivity]. done.
Qed.

Section compare_words.
Context `{Arch}.

Lemma memcmp_small_spec l1 l2 fuel p1 p2 m :
  length l1 = length l2 -> (length l1 < fuel)%nat -> bytes_at m p1 l1 -> bytes_at m p2 l2 ->
  memcmp_small fuel p1 p2 (Z.of_nat (length l1)) m = Some (cmp_bytes l1 l2, m).
Proof. apply cmp_up_spec. Qed.

Lemma memcmp_words_spec q l1 l2 fuel p1 p2 m :
  mem_ok m -> length l1 = length l2 -> (length l1 <= q * long_size)%nat -> (q < fuel)%nat ->
  long_aligned p1 = true -> long_aligned p2 = true -> bytes_at m p1 l1 -> bytes_at m p2 l2 ->
  exists a l1' l2', l1 = a ++ l1' /\ l2 = a ++ l2' /\
    memcmp_words fuel p1 p2 (Z.of_nat (length l1)) m =
    Some ((p1 + Z.of_nat (length a), p2 + Z.of_nat (length a), Z.of_nat (length l1')), m).
Proof.
  intros Hok. unfold memcmp_words, TOO_SMALL_LITTLE_BLOCK, LITTLE_BLOCK_SIZE.
  pose proof long_size_pos as Hpos. revert l1 l2 fuel p1 p2.
  induction q as [|q IH]; intros l1 l2 [|f] p1 p2 Hlen Hq Hf A1 A2 H1 H2; try lia.
  { exists [], l1, l2. split; [done|]. split; [done|].
    erewrite loop_stop; [|ctest; reflexivity]. simpl. by rewrite !Z.add_0_r. }
  destruct (decide (length l1 < long_size)%nat) as [Hsm|Hbig].
  { exists [], l1, l2. split; [done|]. split; [done|].
    erewrite loop_stop; [|ctest; reflexivity]. simpl. by rewrite !Z.add_0_r. }
  destruct (list_split long_size l1) as (w1 & l1' & -> & Hw1 & Hl1'); [lia|].
  destruct (list_split long_size l2) as (w2 & l2' & -> & Hw2 & Hl2'); [lia|].
  pose proof (bytes_at_bytes _ _ _ Hok H1) as B1. pose proof (bytes_at_bytes _ _ _ Hok H2) as B2.
  apply Forall_app in B1 as [B1 _], B2 as [B2 _].
  apply bytes_at_app in H1 as [H1 H1'], H2 as [H2 H2']. rewrite Hw1 in H1'. rewrite Hw2 in H2'.
  pose proof (load_long_at _ _ _ A1 Hw1 H1) as L1. pose proof (load_long_at _ _ _ A2 Hw2 H2) as L2.
  destruct (Z.eqb_spec (word_of_bytes w1) (word_of_bytes w2)) as [E|E].
  - apply word_of_bytes_inj in E as <-; [|done..]. rewrite !length_app in *.
    destruct (IH l1' l2' f (p1 + Z.of_nat long_size) (p2 + Z.of_nat long_size))
      as (a & t1 & t2 & -> & -> & Hloop); try lia; try done; try by apply long_aligned_next.
    exists (w1 ++ a), t1, t2. rewrite !app_assoc. split; [done|]. split; [done|].
    erewrite loop_go.
    2: { ctest. rewrite (bind_eq _ _ _ _ _ L1), (bind_eq _ _ _ _ _ L2), Z.eqb_refl. reflexivity. }
    replace (Z.of_nat (length w1 + length (a ++ t1)) - Z.of_nat long_size)
      with (Z.of_nat (length (a ++ t1))) by lia.
    rewrite Hloop, length_app_Z, Hw1, !Z.add_assoc. done.
  - exists [], (w1 ++ l1'), (w2 ++ l2'). split; [done|]. split; [done|].
    erewrite loop_stop; [simpl; by rewrite !Z.add_0_r|].
    ctest. rewrite (bind_eq _ _ _ _ _ L1), (bind_eq _ _ _ _ _ L2). by ctest.
Qed.

Lemma memcmp_spec l1 l2 fuel p1 p2 m :
  length l1 = length l2 -> (length l1 < fuel)%nat -> mem_ok m ->
  bytes_at m p1 l1 -> bytes_at m p2 l2 ->
  memcmp fuel p1 p2 (Z.of_nat (length l1)) m = Some (cmp_bytes l1 l2, m).
Proof.
  intros Hlen Hf Hok H1 H2. unfold memcmp. rewrite UNALIGNED_X_Y_zero.
  destruct (negb _ && _) eqn:E; [|rewrite bind_ret; by apply cmp_up_spec].
  bool_to_prop. pose proof long_size_pos.
  destruct (memcmp_words_spec (length l1) l1 l2 fuel p1 p2 m)
    as (a & t1 & t2 & -> & -> & Hloop); try done; [nia|].
  rewrite (bind_eq _ _ _ _ _ Hloop), cmp_bytes_app. rewrite !length_app in *.
  apply bytes_at_app in H1 as [_ H1], H2 as [_ H2]. apply cmp_up_spec; done || lia.
Qed.

(** ** memrchr *)

Lemma chr_down_spec l fuel p d m :
  (length l < fuel)%nat -> bytes_at m p l ->
  chr_down fuel (p + Z.of_nat (length l) - 1) d (Z.of_nat (length l)) m =
  Some (match first_index d (rev l) with
        | Some i => p + Z.of_nat (length l) - 1 - Z.of_nat i
        | None => NULL
        end, m).
Proof.
  unfold chr_down. revert fuel. induction l as [|b l IH] using rev_ind; intros [|f] Hf Hl;
    rewrite ?length_app in Hf; simpl in Hf; try lia.
  - erewrite loop_stop; [|ctest; reflexivity]. done.
  - apply bytes_at_app in Hl as [Hl Hb]. apply bytes_at_cons in Hb as [Hb _].
    rewrite length_app_Z, rev_app_distr. change (Z.of_nat (length [b])) with 1.
    cbn [rev app first_index].
    replace (p + (Z.of_nat (length l) + 1) - 1) with (p + Z.of_nat (length l)) by lia.
    destruct (Z.eqb_spec b d) as [->|Hne].
    + erewrite loop_stop; [|ctest; cload Hb; rewrite Z.eqb_refl; reflexivity].
      simpl. by rewrite Z.sub_0_r.
    + erewrite loop_go; [|ctest; cload Hb; ctest; reflexivity].
      replace (Z.of_nat (length l) + 1 - 1) with (Z.of_nat (length l)) by lia.
      rewrite IH by (done || lia). destruct (first_index d (rev l)); simpl; [|done].
      do 2 f_equal. lia.
Qed.

(** The pointer to the last [d] of the block [l] at [p]. *)
Definition last_ptr (p d : Z) (l : list Z) : Z :=
  match first_index d (rev l) with
  | Some i => p + Z.of_nat (length l) - 1 - Z.of_nat i
  | None => NULL
  end.

Lemma last_ptr_app p d l1 l2 : d ∉ l2 -> last_ptr p d (l1 ++ l2) = last_ptr p d l1.
Proof.
  intros Hn. unfold last_ptr. rewrite rev_app_distr, first_index_app, length_rev, length_app_Z.
  - destruct (first_index d (rev l1)); simpl; [lia|done].
  - by rewrite list_elem_of_In, <- in_rev, <- list_elem_of_In.
Qed.

Lemma memrchr_align_spec l fuel p d m :
  (length l < fuel)%nat -> bytes_at m p l ->
  exists l1 l2, l = l1 ++ l2 /\ (d ∉ l2) /\
    ((long_aligned (p + Z.of_nat (length l1)) = true /\
      memrchr_align fuel (p + Z.of_nat (length l) - 1) d (Z.of_nat (length l)) m =
      Some (inr (p + Z.of_nat (length l1) - 1, Z.of_nat (length l1)), m)) \/
     memrchr_align fuel (p + Z.of_nat (length l) - 1) d (Z.of_nat (length l)) m =
     Some (inl (last_ptr p d l), m)).
Proof.
  unfold memrchr_align. revert fuel.
  induction l as [|b l IH] using rev_ind; intros [|f] Hf Hl;
    rewrite ?length_app in Hf; simpl in Hf; try lia.
  - exists [], []. split; [done|]. split; [set_solver|]. simpl. rewrite Z.add_0_r.
    destruct (long_aligned p) eqn:Ea; [left; split; [done|]|right];
      (erewrite loop_stop; [reflexivity|]);
      replace (p - 1 + 1) with p by lia; by rewrite UNALIGNED_X_zero, Ea.
  - apply bytes_at_app in Hl as [Hl Hb]. apply bytes_at_cons in Hb as [Hb _].
    rewrite length_app_Z. change (Z.of_nat (length [b])) with 1.
    replace (p + (Z.of_nat (length l) + 1) - 1) with (p + Z.of_nat (length l)) by lia.
    destruct (long_aligned (p + Z.of_nat (length l) + 1)) eqn:Ea.
    { exists (l ++ [b]), []. split; [by rewrite app_nil_r|]. split; [set_solver|]. left.
      rewrite length_app_Z. change (Z.of_nat (length [b])) with 1. rewrite !Z.add_assoc.
      split; [done|]. erewrite loop_stop; [|rewrite UNALIGNED_X_zero, Ea; reflexivity].
      do 4 f_equal. f_equal. lia. }
    destruct (Z.eqb_spec b d) as [->|Hne].
    { exists (l ++ [d]), []. split; [by rewrite app_nil_r|]. split; [set_solver|]. right.
      erewrite loop_stop; [|rewrite UNALIGNED_X_zero, Ea; ctest; cload Hb;
        rewrite Z.eqb_refl; reflexivity].
      unfold last_ptr. rewrite rev_app_distr, length_app_Z. cbn [rev app first_index].
      rewrite Z.eqb_refl. simpl. do 3 f_equal. lia. }
    destruct (IH f) as (l1 & l2 & -> & Hn & Hcase); [lia|done|].
    exists l1, (l2 ++ [b]). split; [by rewrite app_assoc|]. split; [set_solver|].
    erewrite loop_go; [|rewrite UNALIGNED_X_zero, Ea; ctest; cload Hb; ctest; reflexivity].
    replace (Z.of_nat (length (l1 ++ l2)) + 1 - 1) with (Z.of_nat (length (l1 ++ l2))) by lia.
    rewrite (last_ptr_app p d (l1 ++ l2) [b]) by set_solver. exact Hcase.
Qed.

Lemma memrchr_words_spec q l fuel p d m :
  mem_ok m -> is_byte d -> (length l <= q * long_size)%nat -> (q < fuel)%nat ->
  long_aligned (p + Z.of_nat (length l)) = true -> bytes_at m p l ->
  exists l1 l2, l = l1 ++ l2 /\ (d ∉ l2) /\
    memrchr_words fuel (p + Z.of_nat (length l) - Z.of_nat long_size) (fill_word d)
      (Z.of_nat (length l)) m =
    Some ((p + Z.of_nat (length l1) - Z.of_nat long_size, Z.of_nat (length l1)), m).
Proof.
  intros Hok Hd. unfold memrchr_words, TOO_SMALL_LITTLE_BLOCK, LITTLE_BLOCK_SIZE.
  pose proof long_size_pos as Hpos.
  revert l fuel. induction q as [|q IH]; intros l [|f] Hq Hf Ha Hl; try lia.
  { exists l, []. split; [by rewrite app_nil_r|]. split; [set_solver|].
    erewrite loop_stop; [|ctest; reflexivity]. done. }
  destruct (decide (length l < long_size)%nat) as [Hsm|Hbig].
  { exists l, []. split; [by rewrite app_nil_r|]. split; [set_solver|].
    erewrite loop_stop; [|ctest; reflexivity]. done. }
  destruct (list_split (length l - long_size) l) as (l' & w & -> & Hl' & Hw0); [lia|].
  rewrite length_app in *. assert (length w = long_size) as Hw by lia. clear Hw0.
  pose proof (bytes_at_bytes _ _ _ Hok Hl) as Hb. apply Forall_app in Hb as [Bl Bw].
  apply bytes_at_app in Hl as [Hlm Hwm].
  pose proof (DETECT_CHAR_spec w d Hw Bw Hd) as Hdet.
  rewrite <- fill_word_spec in Hdet by done. rewrite Nat2Z.inj_add, Hw in *.
  replace (p + (Z.of_nat (length l') + Z.of_nat long_size) - Z.of_nat long_size)
    with (p + Z.of_nat (length l')) by lia.
  assert (long_aligned (p + Z.of_nat (length l')) = true) as Ha'.
  { replace (p + Z.of_nat (length l'))
      with (p + (Z.of_nat (length l') + Z.of_nat long_size) + Z.of_nat long_size * -1) by lia.
    by apply long_aligned_add. }
  destruct (Z.eqb_spec (DETECT_CHAR (word_of_bytes w) (fill_word d)) 0) as [E|E].
  - apply Hdet in E as Hnw.
    destruct (IH l' f) as (l1 & l2 & -> & Hn & Hloop); [lia|lia|done|done|].
    exists l1, (l2 ++ w). split; [by rewrite app_assoc|]. split; [set_solver|].
    erewrite loop_go.
    2: { ctest. rewrite (bind_eq _ _ _ _ _ (load_long_at _ _ _ Ha' Hw Hwm)), E. reflexivity. }
    replace (Z.of_nat (length (l1 ++ l2)) + Z.of_nat long_size - Z.of_nat long_size)
      with (Z.of_nat (length (l1 ++ l2))) by lia.
    exact Hloop.
  - exists (l' ++ w), []. split; [by rewrite app_nil_r|]. split; [set_solver|].
    erewrite loop_stop.
    2: { ctest. rewrite (bind_eq _ _ _ _ _ (load_long_at _ _ _ Ha' Hw Hwm)). ctest. reflexivity. }
    rewrite length_app_Z, Hw. do 3 f_equal. lia.
Qed.

Lemma memrchr_small_spec l fuel p c m :
  (length l < fuel)%nat -> bytes_at m p l ->
  memrchr_small fuel p c (Z.of_nat (length l)) m = Some (last_ptr p (uwrap 8 c) l, m).
Proof. intros. by apply chr_down_spec. Qed.

Lemma memrchr_spec l fuel p c m :
  (length l < fuel)%nat -> mem_ok m -> bytes_at m p l ->
  memrchr fuel p c (Z.of_nat (length l)) m = Some (last_ptr p (uwrap 8 c) l, m).
Proof.
  intros Hf Hok Hl. unfold memrchr. pose proof (uwrap_byte c) as Hd.
  set (d := uwrap 8 c) in *. pose proof long_size_pos.
  destruct (memrchr_align_spec l fuel p d m Hf Hl) as (l1 & l2 & -> & Hn & [[Ha E]|E]);
    rewrite (bind_eq _ _ _ _ _ E); [|done].
  apply bytes_at_app in Hl as [Hl _]. rewrite length_app in Hf. rewrite last_ptr_app by done.
  destruct (TOO_SMALL_LITTLE_BLOCK (Z.of_nat (length l1))).
  - rewrite bind_ret. apply chr_down_spec; [lia|done].
  - destruct (memrchr_words_spec (length l1) l1 fuel p d m)
      as (l3 & l4 & -> & Hn3 & Ew); try done; [nia|lia|].
    unfold LITTLE_BLOCK_SIZE. erewrite bind_eq.
    2: { replace (p + Z.of_nat (length (l3 ++ l4)) - 1 - Z.of_nat long_size + 1)
           with (p + Z.of_nat (length (l3 ++ l4)) - Z.of_nat long_size) by lia.
         rewrite (bind_eq _ _ _ _ _ Ew). reflexivity. }
    cbv iota beta. rewrite last_ptr_app by done.
    replace (p + Z.of_nat (length l3) - Z.of_nat long_size + Z.of_nat long_size - 1)
      with (p + Z.of_nat (length l3) - 1) by lia.
    apply bytes_at_app in Hl as [Hl _]. rewrite length_app in Hf.
    apply chr_down_spec; [lia|done].
Qed.
End compare_words.

(** ** memccpy *)

(** The bytes memccpy copies: up to and including the first [d]. *)
Definition upto (d : Z) (l : list Z) : list Z :=
  match first_index d l with Some i => take (S i) l | None => l end.

(** The pointer it returns: after the copied [d], or [NULL]. *)
Definition after_ptr (dst d : Z) (l : list Z) : Z :=
  match first_index d l with Some i => dst + Z.of_nat i + 1 | None => NULL end.

Lemma upto_app d l1 l2 : d ∉ l1 -> upto d (l1 ++ l2) = l1 ++ upto d l2.
Proof.
  intros. unfold upto. rewrite first_index_app by done.
  destruct (first_index d l2) as [i|]; simpl; [|done].
  rewrite take_app_ge by lia. do 2 f_equal. lia.
Qed.

Lemma after_ptr_app dst d l1 l2 :
  d ∉ l1 -> after_ptr dst d (l1 ++ l2) = after_ptr (dst + Z.of_nat (length l1)) d l2.
Proof.
  intros. unfold after_ptr. rewrite first_index_app by done.
  destruct (first_index d l2); simpl; [lia|done].
Qed.

Lemma upto_cons d b l : upto d (b :: l) = if b =? d then [b] else b :: upto d l.
Proof.
  unfold upto. cbn [first_index]. case_bool; [done|]. by destruct (first_index d l).
Qed.

Lemma ccpy_up_spec l fuel dst src d m :
  (length l < fuel)%nat -> Forall is_byte l -> bytes_at m src l ->
  mapped m dst (Z.of_nat (length l)) -> up_safe dst src (Z.of_nat (length l)) ->
  ccpy_up fuel dst src d (Z.of_nat (length l)) m =
  Some (after_ptr dst d l, put_bytes m dst (upto d l)).
Proof.
  unfold ccpy_up. revert fuel dst src m.
  induction l as [|b l IH]; intros [|f] dst src m Hf Hb Hl Hm Hs; simpl in Hf; try lia.
  - erewrite loop_stop; [|ctest; reflexivity]. done.
  - inversion_clear Hb as [|? ? Hbb Hbl]. pose proof Hl as Hl0. apply bytes_at_cons in Hl as [Hb Hl].
    assert (store8 dst b m = Some (tt, put_bytes m dst [b])) as Est.
    { rewrite store8_at by (apply Hm; simpl; lia). by rewrite uwrap_byte_id. }
    rewrite upto_cons. unfold after_ptr. cbn [first_index].
    destruct (Z.eqb_spec b d) as [->|Hne].
    + erewrite loop_stop; [|ctest; cload Hb; rewrite (bind_eq _ _ _ _ _ Est), Z.eqb_refl; reflexivity].
      do 2 f_equal. lia.
    + erewrite loop_go; [|ctest; cload Hb; rewrite (bind_eq _ _ _ _ _ Est); ctest; reflexivity].
      replace (Z.of_nat (S (length l)) - 1) with (Z.of_nat (length l)) by lia.
      rewrite IH; try done; try lia.
      * unfold after_ptr. destruct (first_index d l); simpl; [|done]. do 2 f_equal. lia.
      * apply (bytes_at_put_up m dst src [b] l); done.
      * apply put_bytes_mapped. eapply mapped_weaken; [done|simpl; lia..].
      * unfold up_safe in *. simpl in Hs. lia.
Qed.

Section memccpy_proof.
Context `{Arch}.

Lemma memccpy_words_spec q l fuel dst src d m :
  is_byte d -> mem_ok m -> (length l <= q * long_size)%nat -> (q < fuel)%nat ->
  long_aligned dst = true -> long_aligned src = true -> bytes_at m src l ->
  mapped m dst (Z.of_nat (length l)) -> up_safe dst src (Z.of_nat (length l)) ->
  exists l1 l2, l = l1 ++ l2 /\ (d ∉ l1) /\
    memccpy_words fuel dst src (fill_word d) (Z.of_nat (length l)) m =
    Some ((dst + Z.of_nat (length l1), src + Z.of_nat (length l1), Z.of_nat (length l2)),
          put_bytes m dst l1).
Proof.
  intros Hd. unfold memccpy_words, TOO_SMALL_LITTLE_BLOCK, LITTLE_BLOCK_SIZE.
  pose proof long_size_pos as Hpos.
  revert l fuel dst src m.
  induction q as [|q IH]; intros l [|f] dst src m Hok Hq Hf Ad As Hl Hm Hs; try lia.
  { exists [], l. split; [done|]. split; [set_solver|].
    erewrite loop_stop; [|ctest; reflexivity]. simpl. by rewrite !Z.add_0_r. }
  destruct (decide (length l < long_size)%nat) as [Hsm|Hbig].
  { exists [], l. split; [done|]. split; [set_solver|].
    erewrite loop_stop; [|ctest; reflexivity]. simpl. by rewrite !Z.add_0_r. }
  destruct (list_split long_size l) as (w & l' & -> & Hw & Hl'); [lia|].
  pose proof (bytes_at_bytes _ _ _ Hok Hl) as Hb. apply Forall_app in Hb as [Bw Bl].
  pose proof (proj1 (bytes_at_app _ _ _ _) Hl) as [Hwm Hlm].
  pose proof (DETECT_CHAR_spec w d Hw Bw Hd) as Hdet. unfold DETECT_CHAR in Hdet.
  rewrite <- fill_word_spec in Hdet by done. rewrite length_app in *.
  destruct (Z.eqb_spec (DETECT_NULL (Z.lxor (word_of_bytes w) (fill_word d))) 0) as [E|E].
  - apply Hdet in E as Hn.
    destruct (IH l' f (dst + Z.of_nat long_size) (src + Z.of_nat long_size) (put_bytes m dst w))
      as (l1 & l2 & -> & Hn1 & Hloop); try lia.
    { by apply put_bytes_ok. } { by apply long_aligned_next. } { by apply long_aligned_next. }
    { rewrite <- Hw. apply bytes_at_put_up; [by rewrite length_app|done]. }
    { apply put_bytes_mapped. eapply mapped_weaken; [done|lia..]. }
    { unfold up_safe in *. lia. }
    exists (w ++ l1), l2. split; [by rewrite app_assoc|]. split; [set_solver|].
    erewrite loop_go.
    2: { ctest. rewrite (bind_eq _ _ _ _ _ (load_long_at _ _ _ As Hw Hwm)), E.
         cbv iota beta. rewrite Z.eqb_refl. erewrite bind_eq; [reflexivity|].
         apply copy_word_spec; try done. rewrite Hw. eapply mapped_weaken; [done|lia..]. }
    replace (Z.of_nat (length w + length (l1 ++ l2)) - Z.of_nat long_size)
      with (Z.of_nat (length (l1 ++ l2))) by lia.
    rewrite Hloop, put_bytes_app, length_app_Z, Hw, !Z.add_assoc. done.
  - exists [], (w ++ l'). split; [done|]. split; [set_solver|].
    erewrite loop_stop.
    2: { ctest. rewrite (bind_eq _ _ _ _ _ (load_long_at _ _ _ As Hw Hwm)).
         rewrite (proj2 (Z.eqb_neq _ _) E). reflexivity. }
    simpl. by rewrite !Z.add_0_r, length_app.
Qed.

Lemma memccpy_small_spec l fuel dst src c m :
  (length l < fuel)%nat -> mem_ok m -> bytes_at m src l ->
  mapped m dst (Z.of_nat (length l)) -> up_safe dst src (Z.of_nat (length l)) ->
  memccpy_small fuel dst src c (Z.of_nat (length l)) m =
  Some (after_ptr dst (uwrap 8 c) l, put_bytes m dst (upto (uwrap 8 c) l)).
Proof.
  intros ? Hok Hl ? ?. unfold memccpy_small. rewrite land_255.
  apply ccpy_up_spec; try done. by eapply bytes_at_bytes.
Qed.

Lemma memccpy_spec l fuel dst src c m :
  (length l < fuel)%nat -> mem_ok m -> bytes_at m src l ->
  mapped m dst (Z.of_nat (length l)) -> up_safe dst src (Z.of_nat (length l)) ->
  memccpy fuel dst src c (Z.of_nat (length l)) m =
  Some (after_ptr dst (uwrap 8 c) l, put_bytes m dst (upto (uwrap 8 c) l)).
Proof.
  intros Hf Hok Hl Hm Hs. unfold memccpy. rewrite land_255, UNALIGNED_X_Y_zero.
  pose proof (uwrap_byte c) as Hd. set (d := uwrap 8 c) in *. pose proof long_size_pos.
  pose proof (bytes_at_bytes _ _ _ Hok Hl) as Hb.
  destruct (negb _ && _) eqn:E; [|rewrite bind_ret; by apply ccpy_up_spec].
  bool_to_prop.
  destruct (memccpy_words_spec (length l) l fuel dst src d m)
    as (l1 & l2 & -> & Hn & Hloop); try done; [nia|].
  rewrite (bind_eq _ _ _ _ _ Hloop), after_ptr_app, upto_app, put_bytes_app by done.
  rewrite length_app in *. apply Forall_app in Hb as [B1 B2].
  apply ccpy_up_spec; try done; try lia.
  - apply bytes_at_put_up; [by rewrite length_app|done].
  - apply put_bytes_mapped. eapply mapped_weaken; [done|lia..].
  - unfold up_safe in *. lia.
Qed.
End memccpy_proof.

(** ** rawmemchr *)

Section rawmemchr_proof.
Context `{Arch}.

Lemma rawchr_up_spec l fuel p d m :
  (length l < fuel)%nat -> d ∉ l -> bytes_at m p (l ++ [d]) ->
  rawchr_up fuel p d m = Some (p + Z.of_nat (length l), m).
Proof.
  unfold rawchr_up. revert fuel p.
  induction l as [|b l IH]; intros [|f] p Hf Hn Hl; simpl in Hf; try lia;
    apply bytes_at_cons in Hl as [Hb Hl].
  - erewrite loop_stop; [|cload Hb; rewrite Z.eqb_refl; reflexivity]. simpl. by rewrite Z.add_0_r.
  - apply not_elem_of_cons in Hn as [Hne Hn].
    erewrite loop_go; [|cload Hb; ctest; reflexivity].
    rewrite IH by (done || lia). do 2 f_equal. simpl. lia.
Qed.

(** The alignment prologue, shared in shape by every scanner that needs no
    count: stops at an aligned address or at the byte searched for. *)
Lemma rawmemchr_align_spec l fuel p d m :
  (length l < fuel)%nat -> d ∉ l -> bytes_at m p (l ++ [d]) ->
  exists l1 l2, l = l1 ++ l2 /\
    ((long_aligned (p + Z.of_nat (length l1)) = true /\
      rawmemchr_align fuel p d m = Some (inr (p + Z.of_nat (length l1)), m)) \/
     rawmemchr_align fuel p d m = Some (inl (p + Z.of_nat (length l)), m)).
Proof.
  unfold rawmemchr_align. revert fuel p.
  induction l as [|b l IH]; intros [|f] p Hf Hn Hl; simpl in Hf; try lia;
    apply bytes_at_cons in Hl as [Hb Hl]; (destruct (long_aligned p) eqn:Ea;
      [eexists [], _; split; [reflexivity|]; left; simpl; rewrite Z.add_0_r; split; [done|];
       (erewrite loop_stop; [reflexivity|]); by rewrite UNALIGNED_X_zero, Ea|]).
  - exists [], []. split; [done|]. right.
    erewrite loop_stop; [|rewrite UNALIGNED_X_zero, Ea; cload Hb; rewrite Z.eqb_refl; reflexivity].
    simpl. by rewrite Z.add_0_r.
  - apply not_elem_of_cons in Hn as [Hne Hn].
    destruct (IH f (p + 1)) as (l1 & l2 & -> & Hcase); [lia|done..|].
    exists (b :: l1), l2. split; [done|].
    erewrite loop_go; [|rewrite UNALIGNED_X_zero, Ea; cload Hb; ctest; reflexivity].
    replace (p + Z.of_nat (length (b :: l1))) with (p + 1 + Z.of_nat (length l1)) by (simpl; lia).
    replace (p + Z.of_nat (length (b :: l1 ++ l2)))
      with (p + 1 + Z.of_nat (length (l1 ++ l2))) by (simpl; lia). exact Hcase.
Qed.

Lemma rawmemchr_words_spec q l fuel p d m :
  mem_ok m -> is_byte d -> (length l < q * long_size)%nat -> (q <= fuel)%nat ->
  d ∉ l -> long_aligned p = true -> bytes_at m p (l ++ [d]) ->
  word_tail_mapped m (p + Z.of_nat (length l)) ->
  exists l1 l2, l = l1 ++ l2 /\
    rawmemchr_words fuel p (fill_word d) m = Some (p + Z.of_nat (length l1), m).
Proof.
  intros Hok Hd. unfold rawmemchr_words, LITTLE_BLOCK_SIZE. revert l fuel p.
  induction q as [|q IH]; intros l [|f] p Hq Hf Hn Ha Hl Ht; try lia.
  destruct (decide (length l < long_size)%nat) as [Hsm|Hbig].
  - destruct (word_at_end m p l d) as (rest & Hlen & Hw); [done..|].
    pose proof (DETECT_CHAR_spec _ d Hlen (bytes_at_bytes _ _ _ Hok Hw) Hd) as Hdet.
    rewrite <- fill_word_spec in Hdet by done.
    assert (DETECT_CHAR (word_of_bytes (l ++ d :: rest)) (fill_word d) <> 0) as E.
    { intros E. apply Hdet in E. set_solver. }
    exists [], l. split; [done|]. erewrite loop_stop.
    2: { rewrite (bind_eq _ _ _ _ _ (load_long_at _ _ _ Ha Hlen Hw)).
         rewrite (proj2 (Z.eqb_neq _ _) E). reflexivity. }
    simpl. by rewrite Z.add_0_r.
  - destruct (list_split long_size l) as (w & l' & -> & Hw & Hl'); [lia|].
    rewrite <- app_assoc in Hl. apply bytes_at_app in Hl as [Hwm Hlm].
    pose proof (DETECT_CHAR_spec _ d Hw (bytes_at_bytes _ _ _ Hok Hwm) Hd) as Hdet.
    rewrite <- fill_word_spec in Hdet by done. rewrite length_app in *. rewrite Hw in Hlm.
    destruct (IH l' f (p + Z.of_nat long_size)) as (l1 & l2 & -> & Hloop); try lia.
    { set_solver. } { by apply long_aligned_next. } { done. }
    { eapply eq_ind with (P := word_tail_mapped m); [done|]. lia. }
    exists (w ++ l1), l2. split; [by rewrite app_assoc|].
    erewrite loop_go.
    2: { rewrite (bind_eq _ _ _ _ _ (load_long_at _ _ _ Ha Hw Hwm)).
         rewrite (proj2 Hdet) by set_solver. reflexivity. }
    rewrite Hloop, length_app_Z, Hw, Z.add_assoc. done.
Qed.

Lemma rawmemchr_spec l fuel p c m :
  (length l < fuel)%nat -> mem_ok m -> uwrap 8 c ∉ l -> bytes_at m p (l ++ [uwrap 8 c]) ->
  word_tail_mapped m (p + Z.of_nat (length l)) ->
  rawmemchr fuel p c m = Some (p + Z.of_nat (length l), m).
Proof.
  intros Hf Hok Hn Hl Ht. unfold rawmemchr. pose proof (uwrap_byte c) as Hd.
  set (d := uwrap 8 c) in *. pose proof long_size_pos.
  destruct (rawmemchr_align_spec l fuel p d m) as (l1 & l2 & -> & [[Ha E]|E]); try done;
    rewrite (bind_eq _ _ _ _ _ E); [|done].
  rewrite <- app_assoc in Hl. apply bytes_at_app in Hl as [_ Hl].
  rewrite length_app in *. rewrite Nat2Z.inj_add, Z.add_assoc in *.
  destruct (rawmemchr_words_spec (S (length l2)) l2 fuel (p + Z.of_nat (length l1)) d m)
    as (l3 & l4 & -> & Ew); try done; [nia|lia|set_solver|].
  rewrite (bind_eq _ _ _ _ _ Ew). rewrite length_app in *.
  rewrite (rawchr_up_spec l4); [do 2 f_equal; lia|lia|set_solver|].
  rewrite <- app_assoc in Hl. by apply bytes_at_app in Hl as [_ Hl].
Qed.
End rawmemchr_proof.

(** ** memmem (compiled for size) *)

(** The reference: first position of [n] as a block of [h]. *)
Fixpoint first_sub (n h : list Z) : option nat :=
  if decide (take (length n) h = n) then Some 0%nat
  else match h with [] => None | _ :: h => S <$> first_sub n h end.

Lemma first_sub_short n h : (length h < length n)%nat -> first_sub n h = None.
Proof.
  induction h as [|b h IH]; intros Hlen; cbn [first_sub]; destruct (decide _) as [E|_].
  - rewrite take_nil in E. subst n. simpl in Hlen. lia.
  - done.
  - apply (f_equal length) in E. rewrite length_take in E. simpl in *. lia.
  - rewrite IH; [done|]. simpl in Hlen. lia.
Qed.

Lemma bytes_at_nth m p l (j : nat) b :
  bytes_at m p l -> l !! j = Some b -> m !! (p + Z.of_nat j) = Some b.
Proof. intros Hl Hj. rewrite Hl; [done|]. by eapply lookup_lt_Some. Qed.

Lemma memmem_tail_spec (i : nat) h n fuel hs ne m :
  (i < fuel)%nat -> length h = length n -> (i < length n)%nat ->
  bytes_at m hs h -> bytes_at m ne n ->
  exists r, memmem_tail fuel hs ne (Z.of_nat i) m = Some (r, m) /\
    (r = 0 <-> forall j, (1 <= j <= i)%nat -> h !! j = n !! j).
Proof.
  unfold memmem_tail. revert fuel. induction i as [|i IH]; intros [|f] Hf Hlen Hi Hh Hn; try lia.
  - exists 0. erewrite loop_stop; [|ctest; reflexivity]. split; [done|]. split; [lia|done].
  - destruct (lookup_lt_is_Some_2 h (S i)) as [a Ha]; [lia|].
    destruct (lookup_lt_is_Some_2 n (S i)) as [b Hb]; [lia|].
    pose proof (bytes_at_nth _ _ _ _ _ Hh Ha) as Ma. pose proof (bytes_at_nth _ _ _ _ _ Hn Hb) as Mb.
    destruct (Z.eqb_spec a b) as [->|Hne].
    + destruct (IH f) as (r & Hr & Hiff); try done; try lia.
      exists r. split.
      * erewrite loop_go; [|ctest; cload Ma; cload Mb; rewrite Z.eqb_refl; reflexivity].
        by replace (Z.of_nat (S i) - 1) with (Z.of_nat i) by lia.
      * rewrite Hiff. split; intros H j Hj; [|apply H; lia].
        destruct (decide (j = S i)) as [->|]; [by rewrite Ha|apply H; lia].
    + exists (Z.of_nat (S i)). split.
      * erewrite loop_stop; [|ctest; cload Ma; cload Mb; ctest; reflexivity]. done.
      * split; [lia|]. intros H. specialize (H (S i)). rewrite Ha, Hb in H.
        exfalso. apply Hne. by injection (H ltac:(lia)).
Qed.

Lemma list_eq_heads (h n : list Z) a :
  length h = length n -> h !! 0%nat = Some a -> n !! 0%nat = Some a ->
  (forall j, (1 <= j <= length n - 1)%nat -> h !! j = n !! j) -> h = n.
Proof.
  intros Hlen Ha Hb Hj. apply list_eq. intros [|j]; [congruence|].
  destruct (decide (S j < length n)%nat).
  - apply Hj. lia.
  - rewrite !lookup_ge_None_2 by lia. done.
Qed.

Lemma memmem_small_spec h n fuel hs ne m :
  (length h < fuel)%nat -> (length n <= fuel)%nat -> Z.of_nat (length n) <= 2 ^ 31 ->
  bytes_at m hs h -> bytes_at m ne n ->
  memmem_small fuel hs (Z.of_nat (length h)) ne (Z.of_nat (length n)) m =
  Some (ptr_at hs (first_sub n h), m).
Proof.
  intros Hf Hfn Hmax Hh Hn. unfold memmem_small. destruct n as [|c n'].
  { simpl. destruct h; simpl; unfold ptr_at; by rewrite Z.add_0_r. }
  set (n := c :: n') in *. assert (0 < length n)%nat as Hpos by (subst n; simpl; lia). ctest.
  pose proof (proj1 (bytes_at_cons _ _ _ _) Hn) as [Hc _]. cload Hc.
  rewrite (swrap_small 32) by lia.
  assert (n !! 0%nat = Some c) as Hn0 by done. clearbody n. clear n'.
  assert (forall g h hs, (length h < g)%nat -> bytes_at m hs h ->
    forall hend, hend = hs + Z.of_nat (length h) - Z.of_nat (length n) ->
    loop (fun hs =>
        if hs <=? hend then
          do a <- load8 hs;
          if a =? c then
            do i <- memmem_tail fuel hs ne (Z.of_nat (length n) - 1);
            if i =? 0 then ret (inr hs) else ret (inl (hs + 1))
          else ret (inl (hs + 1))
        else ret (inr NULL)) g hs m = Some (ptr_at hs (first_sub n h), m)) as Hloop;
    [|by apply Hloop].
  clear h hs Hf Hh. intros g. induction g as [|g IH]; intros h hs Hg Hh hend ->; [lia|].
  destruct (decide (length h < length n)%nat) as [Hshort|Hlong].
  { rewrite first_sub_short by done. erewrite loop_stop; [|ctest; reflexivity]. done. }
  destruct h as [|b h]; [simpl in Hlong; lia|].
  pose proof (proj1 (bytes_at_cons _ _ _ _) Hh) as [Hb Hh']. simpl length in Hg.
  assert (hs + Z.of_nat (length (b :: h)) - Z.of_nat (length n) =
          hs + 1 + Z.of_nat (length h) - Z.of_nat (length n)) as Eend by (simpl; lia).
  rewrite Eend. specialize (IH h (hs + 1) ltac:(lia) Hh' _ eq_refl).
  assert (ptr_at hs (S <$> first_sub n h) = ptr_at (hs + 1) (first_sub n h)) as Eptr.
  { destruct (first_sub n h); simpl; [lia|done]. }
  set (w := take (length n) (b :: h)).
  assert (length w = length n) as Hw by (subst w; rewrite length_take; lia).
  assert (bytes_at m hs w) as Hwm.
  { rewrite <- (take_drop (length n) (b :: h)) in Hh. by apply bytes_at_app in Hh as [? _]. }
  assert (w !! 0%nat = Some b) as Hw0 by (subst w; rewrite lookup_take_lt by lia; done).
  cbn [first_sub]. fold w. destruct (Z.eqb_spec b c) as [->|Hne].
  - destruct (memmem_tail_spec (length n - 1) w n fuel hs ne m) as (r & Hr & Hiff); try done; try lia.
    replace (Z.of_nat (length n - 1)) with (Z.of_nat (length n) - 1) in Hr by lia.
    destruct (decide (w = n)) as [Ewn|Ewn].
    + assert (r = 0) as -> by (apply Hiff; intros; by rewrite Ewn).
      erewrite loop_stop; [simpl; by rewrite Z.add_0_r|].
      simpl length in Hlong. ctest. cload Hb. rewrite Z.eqb_refl, (bind_eq _ _ _ _ _ Hr). done.
    + assert (r <> 0) as Hr0.
      { intros ->. apply Ewn. apply (list_eq_heads _ _ c); try done. by apply Hiff. }
      rewrite Eptr, <- IH. apply loop_go.
      simpl length in Hlong. ctest. cload Hb. rewrite Z.eqb_refl, (bind_eq _ _ _ _ _ Hr).
      by rewrite (proj2 (Z.eqb_neq _ _) Hr0).
  - destruct (decide (w = n)) as [Ewn|_]; [exfalso; congruence|].
    rewrite Eptr, <- IH. apply loop_go. simpl length in Hlong. ctest. cload Hb. by ctest.
Qed.
