(* ===== verification/StrStr.v ===== *)
(** * String functions (libc/string/str*.c)

    NUL-terminated strings in byte memory.  As in [StrMem], a function is
    modelled in the form compiled for speed, and in the form compiled for size
    ([_small]) where the source has a separate one.  A read past the end of a
    string is a fault, except inside the aligned word that holds its end, which
    the word-at-a-time scanners read whole ([word_tail_mapped]). *)

From S2P Require Import Prelude CMem StrLocal StrMem.
From stdpp Require Import base list gmap.
From Stdlib Require Import ZArith Lia.

Local Open Scope Z_scope.

Section strfns.
Context `{Arch}.
Variable fuel : nat.

(** ** Scans for the terminator *)

(** [while ( *s ) s++;] *)
Definition nul_up (s : Z) : C mem Z :=
  loop (fun s =>
    do c <- load8 s;
    if c =? 0 then ret (inr s) else ret (inl (s + 1))) fuel s.

(** [while (!DETECT_NULL( *a )) a++;] *)
Definition nul_words (a : Z) : C mem Z :=
  loop (fun a =>
    do x <- load_long a;
    if DETECT_NULL x =? 0 then ret (inl (a + LITTLE_BLOCK_SIZE)) else ret (inr a)) fuel a.

(** [while (UNALIGNED_X(s)) { if (! *s) return ...; s++; }]: [inl s] is the
    early return at the terminator [s], [inr s] an aligned [s]. *)
Definition nul_align (s : Z) : C mem (Z + Z) :=
  loop (fun s =>
    if UNALIGNED_X s =? 0 then ret (inr (inr s))
    else
      do c <- load8 s;
      if c =? 0 then ret (inr (inl s)) else ret (inl (s + 1))) fuel s.

(** ** strlen.c, strnlen.c *)

Definition strlen_small (str : Z) : C mem Z :=
  do e <- nul_up str;
  ret (e - str).

Definition strlen (str : Z) : C mem Z :=
  let start := str in
  do r <- nul_align str;
  match r with
  | inl e => ret (e - start)
  | inr str =>
      do aligned_addr <- nul_words str;
      do e <- nul_up aligned_addr;
      ret (e - start)
  end.

(** [while (n-- > 0 && *str) str++;] *)
Definition nul_up_n (str n : Z) : C mem Z :=
  loop (fun '(str, n) =>
    if n =? 0 then ret (inr str)
    else
      do c <- load8 str;
      if c =? 0 then ret (inr str) else ret (inl (str + 1, n - 1))) fuel (str, n).

Definition strnlen (str n : Z) : C mem Z :=
  do e <- nul_up_n str n;
  ret (e - str).

(** ** strcpy.c, stpcpy.c *)

(** [while (( *dst++ = *src++ ));], with the final [dst]. *)
Definition copy_nul (dst src : Z) : C mem Z :=
  loop (fun '(dst, src) =>
    do c <- load8 src;
    run store8 dst c;
    if c =? 0 then ret (inr (dst + 1)) else ret (inl (dst + 1, src + 1))) fuel (dst, src).

(** [while (!DETECT_NULL( *aligned_src )) *aligned_dst++ = *aligned_src++;] *)
Definition copy_nul_words (dst src : Z) : C mem (Z * Z) :=
  let w := LITTLE_BLOCK_SIZE in
  loop (fun '(dst, src) =>
    do x <- load_long src;
    if DETECT_NULL x =? 0 then
      run copy_word dst src;
      ret (inl (dst + w, src + w))
    else ret (inr (dst, src))) fuel (dst, src).

Definition strcpy_small (dst0 src0 : Z) : C mem Z :=
  run copy_nul dst0 src0;
  ret dst0.

Definition strcpy (dst0 src0 : Z) : C mem Z :=
  do '(dst, src) <-
    (if UNALIGNED_X_Y src0 dst0 =? 0 then copy_nul_words dst0 src0 else ret (dst0, src0));
  run copy_nul dst src;
  ret dst0.

Definition stpcpy_small (dst src : Z) : C mem Z :=
  do dst <- copy_nul dst src;
  ret (dst - 1).

Definition stpcpy (dst src : Z) : C mem Z :=
  do '(dst, src) <-
    (if UNALIGNED_X_Y src dst =? 0 then copy_nul_words dst src else ret (dst, src));
  do dst <- copy_nul dst src;
  ret (dst - 1).

(** ** strncpy.c, stpncpy.c *)

(** [while (count > 0) { --count; if (( *dst++ = *src++ ) == 0) break; }]: the
    final [dst] and [count], and the address of a copied NUL if any. *)
Definition copy_nul_n (dst src count : Z) : C mem (Z * Z * Z) :=
  loop (fun '(dst, src, count) =>
    if 0 <? count then
      let count := count - 1 in
      do c <- load8 src;
      run store8 dst c;
      if c =? 0 then ret (inr (dst + 1, count, dst)) else ret (inl (dst + 1, src + 1, count))
    else ret (inr (dst, count, NULL))) fuel (dst, src, count).

Definition copy_nul_words_n (dst src count : Z) : C mem (Z * Z * Z) :=
  let w := LITTLE_BLOCK_SIZE in
  loop (fun '(dst, src, count) =>
    if TOO_SMALL_LITTLE_BLOCK count then ret (inr (dst, src, count))
    else
      do x <- load_long src;
      if DETECT_NULL x =? 0 then
        run copy_word dst src;
        ret (inl (dst + w, src + w, count - w))
      else ret (inr (dst, src, count))) fuel (dst, src, count).

Definition strncpy_small (dst0 src0 count : Z) : C mem Z :=
  do '(dscan, count, _) <- copy_nul_n dst0 src0 count;
  run set_up fuel dscan 0 count;
  ret dst0.

Definition strncpy (dst0 src0 count : Z) : C mem Z :=
  do '(dst, src, count) <-
    (if (UNALIGNED_X_Y src0 dst0 =? 0) && negb (TOO_SMALL_LITTLE_BLOCK count)
     then copy_nul_words_n dst0 src0 count
     else ret (dst0, src0, count));
  do '(dst, count, _) <- copy_nul_n dst src count;
  run set_up fuel dst 0 count;
  ret dst0.

Definition stpncpy (dst src count : Z) : C mem Z :=
  do '(dst, src, count) <-
    (if (UNALIGNED_X_Y src dst =? 0) && negb (TOO_SMALL_LITTLE_BLOCK count)
     then copy_nul_words_n dst src count
     else ret (dst, src, count));
  do '(dst, count, r) <- copy_nul_n dst src count;
  do dst <- set_up fuel dst 0 count;
  ret (if r =? NULL then dst else r).

(** ** strcat.c, strncat.c *)

(** [while (UNALIGNED_X(s1) && *s1) s1++;] *)
Definition skip_unaligned (s1 : Z) : C mem Z :=
  loop (fun s1 =>
    if UNALIGNED_X s1 =? 0 then ret (inr s1)
    else
      do c <- load8 s1;
      if c =? 0 then ret (inr s1) else ret (inl (s1 + 1))) fuel s1.

(** The scan for the end of [s1] that strcat and strncat share. *)
Definition cat_end (s1 : Z) : C mem Z :=
  do s1 <- skip_unaligned s1;
  do c <- load8 s1;
  if c =? 0 then ret s1
  else
    do aligned_s1 <- nul_words s1;
    nul_up aligned_s1.

Definition strcat_small (s1 s2 : Z) : C mem Z :=
  do e <- nul_up s1;
  run copy_nul e s2;
  ret s1.

Definition strcat (s1 s2 : Z) : C mem Z :=
  do e <- cat_end s1;
  run strcpy e s2;
  ret s1.

(** [while (n-- != 0 && ( *s1++ = *s2++ )) { if (n == 0) *s1 = 0; }] *)
Definition cat_n (s1 s2 n : Z) : C mem unit :=
  loop (fun '(s1, s2, n) =>
    if n =? 0 then ret (inr tt)
    else
      let n := n - 1 in
      do c <- load8 s2;
      run store8 s1 c;
      if c =? 0 then ret (inr tt)
      else
        run (if n =? 0 then store8 (s1 + 1) 0 else ret tt);
        ret (inl (s1 + 1, s2 + 1, n))) fuel (s1, s2, n).

Definition strncat_small (s1 s2 n : Z) : C mem Z :=
  do e <- nul_up s1;
  run cat_n e s2 n;
  ret s1.

Definition strncat (s1 s2 n : Z) : C mem Z :=
  do e <- cat_end s1;
  run cat_n e s2 n;
  ret s1.

(** ** strcmp.c, strncmp.c *)

(** [while ( *s1 != 0 && *s1 == *s2 ) { s1++; s2++; }
    return *(unsigned char * )s1 - *(unsigned char * )s2;] *)
Definition cmp_nul (s1 s2 : Z) : C mem Z :=
  loop (fun '(s1, s2) =>
    do a <- load8 s1;
    do b <- load8 s2;
    if negb (a =? 0) && (a =? b) then ret (inl (s1 + 1, s2 + 1)) else ret (inr (a - b)))
    fuel (s1, s2).

Definition strcmp_small (s1 s2 : Z) : C mem Z := cmp_nul s1 s2.

(** [inl 0] is the return inside the loop. *)
Definition strcmp_words (a1 a2 : Z) : C mem (Z + Z * Z) :=
  let w := LITTLE_BLOCK_SIZE in
  loop (fun '(a1, a2) =>
    do x <- load_long a1;
    do y <- load_long a2;
    if x =? y then
      if DETECT_NULL x =? 0 then ret (inl (a1 + w, a2 + w)) else ret (inr (inl 0))
    else ret (inr (inr (a1, a2)))) fuel (a1, a2).

Definition strcmp (s1 s2 : Z) : C mem Z :=
  do r <-
    (if UNALIGNED_X_Y s1 s2 =? 0 then strcmp_words s1 s2 else ret (inr (s1, s2)));
  match r with
  | inl v => ret v
  | inr (s1, s2) => cmp_nul s1 s2
  end.

Definition strncmp_small (s1 s2 n : Z) : C mem Z :=
  if n =? 0 then ret 0
  else
    do '(s1, s2) <- loop (fun '(s1, s2, n) =>
      if n =? 0 then ret (inr (s1, s2))
      else
        let n := n - 1 in
        do a <- load8 s1;
        do b <- load8 s2;
        if a =? b then
          if (n =? 0) || (a =? 0) then ret (inr (s1, s2))
          else ret (inl (s1 + 1, s2 + 1, n))
        else ret (inr (s1, s2))) fuel (s1, s2, n);
    do a <- load8 s1;
    do b <- load8 s2;
    ret (a - b).

Definition strncmp_words (a1 a2 n : Z) : C mem (Z + Z * Z * Z) :=
  let w := LITTLE_BLOCK_SIZE in
  loop (fun '(a1, a2, n) =>
    if w <=? n then
      do x <- load_long a1;
      do y <- load_long a2;
      if x =? y then
        let n := n - w in
        if (n =? 0) || negb (DETECT_NULL x =? 0) then ret (inr (inl 0))
        else ret (inl (a1 + w, a2 + w, n))
      else ret (inr (inr (a1, a2, n)))
    else ret (inr (inr (a1, a2, n)))) fuel (a1, a2, n).

(** The byte loop of the fast form, which returns 0 from inside. *)
Definition cmp_nul_n (s1 s2 n : Z) : C mem Z :=
  loop (fun '(s1, s2, n) =>
    if 0 <? n then
      let n := n - 1 in
      do a <- load8 s1;
      do b <- load8 s2;
      if a =? b then
        if (n =? 0) || (a =? 0) then ret (inr 0) else ret (inl (s1 + 1, s2 + 1, n))
      else ret (inr (a - b))
    else
      do a <- load8 s1;
      do b <- load8 s2;
      ret (inr (a - b))) fuel (s1, s2, n).

Definition strncmp (s1 s2 n : Z) : C mem Z :=
  if n =? 0 then ret 0
  else
    do r <-
      (if UNALIGNED_X_Y s1 s2 =? 0 then strncmp_words s1 s2 n else ret (inr (s1, s2, n)));
    match r with
    | inl v => ret v
    | inr (s1, s2, n) => cmp_nul_n s1 s2 n
    end.

(** ** strchr.c, strrchr.c, strchrnul.c *)

(** [while ( *s && *s != c ) s++; if ( *s == c ) return s; return NULL;] *)
Definition chr_nul (s c : Z) : C mem Z :=
  loop (fun s =>
    do a <- load8 s;
    if negb (a =? 0) && negb (a =? c) then ret (inl (s + 1))
    else if a =? c then ret (inr s) else ret (inr NULL)) fuel s.

Definition strchr_small (s1 i : Z) : C mem Z := chr_nul s1 (uwrap 8 i).

Definition strchr_align (s c : Z) : C mem (Z + Z) :=
  loop (fun s =>
    if UNALIGNED_X s =? 0 then ret (inr (inr s))
    else
      do a <- load8 s;
      if a =? 0 then ret (inr (inl NULL))
      else if a =? c then ret (inr (inl s))
      else ret (inl (s + 1))) fuel s.

Definition strchr_words (a mask : Z) : C mem Z :=
  loop (fun a =>
    do x <- load_long a;
    if (DETECT_NULL x =? 0) && (DETECT_CHAR x mask =? 0)
    then ret (inl (a + LITTLE_BLOCK_SIZE)) else ret (inr a)) fuel a.

Definition strchr (s1 i : Z) : C mem Z :=
  let c := uwrap 8 i in
  if c =? 0 then
    do r <- nul_align s1;
    match r with
    | inl s => ret s
    | inr s => do a <- nul_words s; nul_up a
    end
  else
    do r <- strchr_align s1 c;
    match r with
    | inl v => ret v
    | inr s =>
        do a <- strchr_words s (fill_loop c);
        chr_nul a c
    end.

Definition strrchr (s i : Z) : C mem Z :=
  let c := uwrap 8 i in
  if negb (c =? 0) then
    loop (fun '(s, last) =>
      do s <- strchr s c;
      if s =? NULL then ret (inr last) else ret (inl (s + 1, s))) fuel (s, NULL)
  else strchr s c.

Definition strchrnul (s1 i : Z) : C mem Z :=
  do s <- strchr s1 i;
  if negb (s =? NULL) then ret s
  else
    do n <- strlen s1;
    ret (s1 + n).

(** ** strspn.c, strcspn.c, strpbrk.c *)

(** [for (c = s2; *c; c++) if ( *s1 == *c ) goto found;]: is [a] in the set? *)
Definition in_set (s2 a : Z) : C mem bool :=
  loop (fun c =>
    do b <- load8 c;
    if b =? 0 then ret (inr false)
    else if a =? b then ret (inr true)
    else ret (inl (c + 1))) fuel s2.

Definition strspn (s1 s2 : Z) : C mem Z :=
  let s := s1 in
  loop (fun s1 =>
    do a <- load8 s1;
    if a =? 0 then ret (inr (s1 - s))
    else
      do found <- in_set s2 a;
      if found then ret (inl (s1 + 1)) else ret (inr (s1 - s))) fuel s1.

Definition strcspn (s1 s2 : Z) : C mem Z :=
  let s := s1 in
  loop (fun s1 =>
    do a <- load8 s1;
    if a =? 0 then ret (inr (s1 - s))
    else
      do found <- in_set s2 a;
      if found then ret (inr (s1 - s)) else ret (inl (s1 + 1))) fuel s1.

Definition strpbrk (s1 s2 : Z) : C mem Z :=
  loop (fun s1 =>
    do a <- load8 s1;
    if a =? 0 then ret (inr NULL)
    else
      do found <- in_set s2 a;
      if found then ret (inr s1) else ret (inl (s1 + 1))) fuel s1.

(** ** strlcpy.c, strlcat.c *)

(** [while (--nleft != 0) { if (( *dst++ = *src++ ) == 0) break; }] *)
Definition lcpy_copy (dst src nleft : Z) : C mem (Z * Z * Z) :=
  loop (fun '(dst, src, nleft) =>
    let nleft := nleft - 1 in
    if nleft =? 0 then ret (inr (dst, src, nleft))
    else
      do c <- load8 src;
      run store8 dst c;
      if c =? 0 then ret (inr (dst + 1, src + 1, nleft))
      else ret (inl (dst + 1, src + 1, nleft))) fuel (dst, src, nleft).

(** [while ( *src++ ) ;] *)
Definition skip_past_nul (src : Z) : C mem Z :=
  loop (fun src =>
    do c <- load8 src;
    if c =? 0 then ret (inr (src + 1)) else ret (inl (src + 1))) fuel src.

Definition strlcpy (dst src dsize : Z) : C mem Z :=
  let osrc := src in
  do '(dst, src, nleft) <-
    (if negb (dsize =? 0) then lcpy_copy dst src dsize else ret (dst, src, dsize));
  do src <-
    (if nleft =? 0 then
       run (if negb (dsize =? 0) then store8 dst 0 else ret tt);
       skip_past_nul src
     else ret src);
  ret (src - osrc - 1).

(** [while ( *src != 0 ) { if (n != 0) { *dst++ = *src; n--; } src++; }] *)
Definition lcat_copy (dst src n : Z) : C mem (Z * Z) :=
  loop (fun '(dst, src, n) =>
    do c <- load8 src;
    if c =? 0 then ret (inr (dst, src))
    else if n =? 0 then ret (inl (dst, src + 1, n))
    else run store8 dst c; ret (inl (dst + 1, src + 1, n - 1))) fuel (dst, src, n).

Definition strlcat (dst src dsize : Z) : C mem Z :=
  let odst := dst in
  let osrc := src in
  do dst <- nul_up_n dst dsize;
  let dlen := dst - odst in
  let n := dsize - dlen in
  if n =? 0 then
    do slen <- strlen src;
    ret (dlen + slen)
  else
    do '(dst, src) <- lcat_copy dst src (n - 1);
    run store8 dst 0;
    ret (dlen + (src - osrc)).

(** ** strtok_r.c, strsep.c

    [ *lasts ] is passed in as [lasts] and the new value is returned beside
    the token. *)

(** The span of leading delimiters from label [cont]; [s] is the pointer
    after the character [c] just read. *)
Definition strtok_head_step (delim : Z) (skip : bool) (s : Z) : C mem (Z + Z * Z * bool) :=
  do c <- load8 s;
  let s := s + 1 in
  do found <- in_set delim c;
  if found then
    if skip then ret (inl s) else ret (inr (s, c, true))
  else ret (inr (s, c, false)).

Definition strtok_head (s delim : Z) (skip : bool) : C mem (Z * Z * bool) :=
  loop (strtok_head_step delim skip) fuel s.

(** [do { if ((sc = *spanp++ ) == c) ...; } while (sc != 0);]: is [c] a
    delimiter or the terminator of [delim]? *)
Definition in_set_nul (delim c : Z) : C mem bool :=
  loop (fun spanp =>
    do sc <- load8 spanp;
    if sc =? c then ret (inr true)
    else if sc =? 0 then ret (inr false)
    else ret (inl (spanp + 1))) fuel delim.

Definition strtok_scan_step (tok delim s : Z) : C mem (Z + Z * Z) :=
  do c <- load8 s;
  let s := s + 1 in
  do found <- in_set_nul delim c;
  if found then
    if c =? 0 then ret (inr (tok, NULL))
    else run store8 (s - 1) 0; ret (inr (tok, s))
  else ret (inl s).

Definition strtok_scan (tok s delim : Z) : C mem (Z * Z) :=
  loop (strtok_scan_step tok delim) fuel s.

Definition __strtok_r (s delim lasts : Z) (skip_leading_delim : bool) : C mem (Z * Z) :=
  if (s =? NULL) && (lasts =? NULL) then ret (NULL, lasts)
  else
    let s := if s =? NULL then lasts else s in
    do '(s, c, stopped) <- strtok_head s delim skip_leading_delim;
    if stopped : bool then
      run store8 (s - 1) 0;
      ret (s - 1, s)
    else if c =? 0 then ret (NULL, NULL)
    else strtok_scan (s - 1) s delim.

Definition strtok_r (s delim lasts : Z) : C mem (Z * Z) := __strtok_r s delim lasts true.

Definition strsep (source delim : Z) : C mem (Z * Z) := __strtok_r source delim source false.
End strfns.

(** ** Strings in memory *)

Lemma cstr_nil m p : cstr m p [] <-> m !! p = Some 0.
Proof.
  unfold cstr. simpl. rewrite bytes_at_cons. split; [tauto|].
  intros. split; [done|]. split; [done|apply bytes_at_nil].
Qed.

Lemma cstr_cons m p b s :
  cstr m p (b :: s) <-> nonzero_byte b /\ m !! p = Some b /\ cstr m (p + 1) s.
Proof. unfold cstr. simpl. rewrite bytes_at_cons, Forall_cons. tauto. Qed.

Lemma cstr_app m p s1 s2 :
  cstr m p (s1 ++ s2) <->
  Forall nonzero_byte s1 /\ bytes_at m p s1 /\ cstr m (p + Z.of_nat (length s1)) s2.
Proof. unfold cstr. rewrite <- app_assoc, bytes_at_app, Forall_app. tauto. Qed.

Lemma cstr_nul m p s : cstr m p s -> m !! (p + Z.of_nat (length s)) = Some 0.
Proof. intros Hs. apply cstr_nil. rewrite <- (app_nil_r s) in Hs. by apply cstr_app in Hs as (_ & _ & ?). Qed.

Lemma nonzero_is_byte s : Forall nonzero_byte s -> Forall is_byte s.
Proof. intros. eapply Forall_impl; [done|]. unfold nonzero_byte, is_byte. simpl. lia. Qed.

Lemma nonzero_not_nul s : Forall nonzero_byte s -> 0 ∉ s.
Proof.
  intros Hs Hin. rewrite Forall_forall in Hs. apply Hs in Hin. unfold nonzero_byte in Hin. lia.
Qed.

#[export] Hint Resolve nonzero_is_byte nonzero_not_nul cstr_nul : clib.

(** *** The scans for the terminator *)

Lemma nul_up_spec s fuel p m :
  (length s < fuel)%nat -> cstr m p s ->
  nul_up fuel p m = Some (p + Z.of_nat (length s), m).
Proof.
  unfold nul_up. revert fuel p. induction s as [|b s IH]; intros [|f] p Hf Hs; simpl in Hf; try lia.
  - apply cstr_nil in Hs. erewrite loop_stop; [|cload Hs; reflexivity]. simpl. by rewrite Z.add_0_r.
  - apply cstr_cons in Hs as (Hz & Hb & Hs). unfold nonzero_byte in Hz.
    erewrite loop_go; [|cload Hb; ctest; reflexivity].
    rewrite IH by (done || lia). do 2 f_equal. simpl. lia.
Qed.

Lemma skip_past_nul_spec s fuel p m :
  (length s < fuel)%nat -> cstr m p s ->
  skip_past_nul fuel p m = Some (p + Z.of_nat (length s) + 1, m).
Proof.
  unfold skip_past_nul. revert fuel p.
  induction s as [|b s IH]; intros [|f] p Hf Hs; simpl in Hf; try lia.
  - apply cstr_nil in Hs. erewrite loop_stop; [|cload Hs; reflexivity]. simpl. do 2 f_equal. lia.
  - apply cstr_cons in Hs as (Hz & Hb & Hs). unfold nonzero_byte in Hz.
    erewrite loop_go; [|cload Hb; ctest; reflexivity].
    rewrite IH by (done || lia). do 2 f_equal. simpl. lia.
Qed.

Section nul_words_proof.
Context `{Arch}.

Lemma nul_align_spec s fuel p m :
  (length s < fuel)%nat -> cstr m p s ->
  exists s1 s2, s = s1 ++ s2 /\
    ((long_aligned (p + Z.of_nat (length s1)) = true /\
      nul_align fuel p m = Some (inr (p + Z.of_nat (length s1)), m)) \/
     nul_align fuel p m = Some (inl (p + Z.of_nat (length s)), m)).
Proof.
  intros Hf [Hz Hs]. destruct (rawmemchr_align_spec s fuel p 0 m Hf) as (s1 & s2 & -> & Hcase);
    [by apply nonzero_not_nul|done|].
  exists s1, s2. split; [done|]. exact Hcase.
Qed.

(** Reading the words of a string: each is either free of NUL or the one
    with the terminator. *)
Lemma cstr_word m p s :
  mem_ok m -> long_aligned p = true -> cstr m p s -> word_tail_mapped m (p + Z.of_nat (length s)) ->
  exists w, length w = long_size /\ bytes_at m p w /\ Forall is_byte w /\
    ((exists s', s = w ++ s' /\ (0 ∉ w) /\ cstr m (p + Z.of_nat long_size) s' /\
        word_tail_mapped m (p + Z.of_nat long_size + Z.of_nat (length s')) /\
        DETECT_NULL (word_of_bytes w) = 0) \/
     (exists rest, w = s ++ 0 :: rest /\ DETECT_NULL (word_of_bytes w) <> 0)).
Proof.
  intros Hok Ha Hs Ht. destruct (decide (length s < long_size)%nat) as [Hsm|Hbig].
  - destruct (word_at_end m p s 0) as (rest & Hlen & Hw); [done|by destruct Hs|done..|].
    pose proof (bytes_at_bytes _ _ _ Hok Hw) as Hb.
    exists (s ++ 0 :: rest). split_and!; try done. right. exists rest. split; [done|].
    intros E. apply DETECT_NULL_spec in E; try done. set_solver.
  - destruct (list_split long_size s) as (w & s' & -> & Hw & Hl'); [lia|].
    apply cstr_app in Hs as (Hz & Hwm & Hs). rewrite Hw in Hs.
    exists w. split_and!; try done; [by apply nonzero_is_byte|]. left. exists s'.
    split_and!; try done.
    + by apply nonzero_not_nul.
    + rewrite length_app, Hw, Nat2Z.inj_add, Z.add_assoc in Ht. done.
    + apply DETECT_NULL_spec; try done; auto with clib.
Qed.

Lemma nul_words_spec q s fuel p m :
  mem_ok m -> (length s < q * long_size)%nat -> (q <= fuel)%nat ->
  long_aligned p = true -> cstr m p s -> word_tail_mapped m (p + Z.of_nat (length s)) ->
  exists s1 s2, s = s1 ++ s2 /\
    nul_words fuel p m = Some (p + Z.of_nat (length s1), m).
Proof.
  intros Hok. unfold nul_words, LITTLE_BLOCK_SIZE. revert s fuel p.
  induction q as [|q IH]; intros s [|f] p Hq Hf Ha Hs Ht; try lia.
  destruct (cstr_word m p s Hok Ha Hs Ht)
    as (w & Hw & Hwm & Hwb & [(s' & -> & _ & Hs' & Ht' & E)|(rest & _ & E)]).
  - rewrite length_app in Hq.
    destruct (IH s' f (p + Z.of_nat long_size)) as (s1 & s2 & -> & Hloop); try done; try lia.
    { by apply long_aligned_next. }
    exists (w ++ s1), s2. split; [by rewrite app_assoc|].
    erewrite loop_go.
    2: { rewrite (bind_eq _ _ _ _ _ (load_long_at _ _ _ Ha Hw Hwm)), E. reflexivity. }
    rewrite Hloop, length_app_Z, Hw, Z.add_assoc. done.
  - exists [], s. split; [done|]. erewrite loop_stop.
    2: { rewrite (bind_eq _ _ _ _ _ (load_long_at _ _ _ Ha Hw Hwm)).
         rewrite (proj2 (Z.eqb_neq _ _) E). reflexivity. }
    simpl. by rewrite Z.add_0_r.
Qed.

(** The word scan followed by the byte scan ends at the terminator. *)
Lemma nul_words_up s fuel p m :
  mem_ok m -> (length s < fuel)%nat ->
  long_aligned p = true -> cstr m p s -> word_tail_mapped m (p + Z.of_nat (length s)) ->
  bind (nul_words fuel p) (nul_up fuel) m = Some (p + Z.of_nat (length s), m).
Proof.
  intros Hok Hf Ha Hs Ht. pose proof long_size_pos.
  destruct (nul_words_spec (S (length s)) s fuel p m) as (s1 & s2 & -> & E); try done; [nia|].
  rewrite (bind_eq _ _ _ _ _ E). rewrite length_app in *. apply cstr_app in Hs as (_ & _ & Hs).
  rewrite (nul_up_spec s2) by (done || lia). do 2 f_equal. lia.
Qed.

Lemma strlen_small_spec s fuel p m :
  (length s < fuel)%nat -> cstr m p s ->
  strlen_small fuel p m = Some (Z.of_nat (length s), m).
Proof.
  intros. unfold strlen_small. erewrite bind_eq by (by apply nul_up_spec).
  unfold ret. do 2 f_equal. lia.
Qed.

Lemma strlen_spec s fuel p m :
  (length s < fuel)%nat -> mem_ok m -> cstr m p s -> word_tail_mapped m (p + Z.of_nat (length s)) ->
  strlen fuel p m = Some (Z.of_nat (length s), m).
Proof.
  intros Hf Hok Hs Ht. unfold strlen.
  destruct (nul_align_spec s fuel p m) as (s1 & s2 & -> & [[Ha E]|E]); try done;
    rewrite (bind_eq _ _ _ _ _ E); [|unfold ret; do 2 f_equal; lia].
  apply cstr_app in Hs as (_ & _ & Hs). rewrite length_app in *.
  rewrite Nat2Z.inj_add, Z.add_assoc in Ht.
  pose proof (nul_words_up s2 fuel _ m Hok ltac:(lia) Ha Hs Ht) as Eu.
  unfold bind in Eu |- *. destruct (nul_words _ _ _) as [[a m']|]; [|done].
  rewrite Eu. unfold ret. do 2 f_equal. lia.
Qed.
End nul_words_proof.

(** *** Copies *)

Lemma word_tail_put `{Arch} m dst l e : word_tail_mapped m e -> word_tail_mapped (put_bytes m dst l) e.
Proof. intros Ht a ? ?. apply put_bytes_is_Some. by apply Ht. Qed.

Lemma store8_put m p b : is_byte b -> is_Some (m !! p) -> store8 p b m = Some (tt, put_bytes m p [b]).
Proof. intros. rewrite store8_at by done. by rewrite uwrap_byte_id. Qed.

(** The rest of a string after its first bytes have been copied elsewhere. *)
Lemma cstr_put_up m dst src s1 s2 :
  up_safe dst src (Z.of_nat (length (s1 ++ s2)) + 1) -> cstr m src (s1 ++ s2) ->
  cstr (put_bytes m dst s1) (src + Z.of_nat (length s1)) s2.
Proof.
  intros Hs [Hz Hl]. apply Forall_app in Hz as [_ Hz]. split; [done|].
  rewrite <- app_assoc in Hl. apply bytes_at_put_up; [|done].
  unfold up_safe in *. rewrite !length_app in *. simpl. lia.
Qed.

Lemma copy_nul_spec s fuel dst src m :
  (length s < fuel)%nat -> cstr m src s -> mapped m dst (Z.of_nat (length s) + 1) ->
  up_safe dst src (Z.of_nat (length s) + 1) ->
  copy_nul fuel dst src m = Some (dst + Z.of_nat (length s) + 1, put_bytes m dst (s ++ [0])).
Proof.
  unfold copy_nul. revert fuel dst src m.
  induction s as [|b s IH]; intros [|f] dst src m Hf Hs Hm Hu; simpl in Hf; try lia.
  - apply cstr_nil in Hs. erewrite loop_stop.
    2: { cload Hs. rewrite (bind_eq _ _ _ _ _ (store8_put m dst 0 ltac:(done) ltac:(apply Hm; simpl; lia))).
         reflexivity. }
    simpl. do 2 f_equal. lia.
  - pose proof (cstr_put_up m dst src [b] s Hu Hs) as Hs'.
    apply cstr_cons in Hs as (Hz & Hb & Hs). unfold nonzero_byte in Hz.
    erewrite loop_go.
    2: { cload Hb. rewrite (bind_eq _ _ _ _ _ (store8_put m dst b ltac:(unfold is_byte; lia) ltac:(apply Hm; simpl; lia))).
         ctest. reflexivity. }
    rewrite IH; try done; try lia.
    + simpl. do 2 f_equal. lia.
    + apply put_bytes_mapped. eapply mapped_weaken; [done|simpl; lia..].
    + unfold up_safe in *. simpl in Hu. lia.
Qed.

Section copy_proofs.
Context `{Arch}.

Lemma copy_nul_words_spec q s fuel dst src m :
  mem_ok m -> (length s < q * long_size)%nat -> (q <= fuel)%nat ->
  long_aligned dst = true -> long_aligned src = true -> cstr m src s ->
  word_tail_mapped m (src + Z.of_nat (length s)) ->
  mapped m dst (Z.of_nat (length s) + 1) -> up_safe dst src (Z.of_nat (length s) + 1) ->
  exists s1 s2, s = s1 ++ s2 /\
    copy_nul_words fuel dst src m =
    Some ((dst + Z.of_nat (length s1), src + Z.of_nat (length s1)), put_bytes m dst s1).
Proof.
  unfold copy_nul_words, LITTLE_BLOCK_SIZE. revert s fuel dst src m.
  induction q as [|q IH]; intros s [|f] dst src m Hok Hq Hf Ad As Hs Ht Hm Hu; try lia.
  destruct (cstr_word m src s Hok As Hs Ht)
    as (w & Hw & Hwm & Hwb & [(s' & -> & _ & Hs' & Ht' & E)|(rest & _ & E)]).
  - pose proof (cstr_put_up m dst src w s' Hu Hs) as Hsp. rewrite Hw in Hsp.
    rewrite length_app in *.
    destruct (IH s' f (dst + Z.of_nat long_size) (src + Z.of_nat long_size) (put_bytes m dst w))
      as (s1 & s2 & -> & Hloop); try done; try lia.
    { by apply put_bytes_ok. } { by apply long_aligned_next. } { by apply long_aligned_next. }
    { by apply word_tail_put. }
    { apply put_bytes_mapped. eapply mapped_weaken; [done|lia..]. }
    { unfold up_safe in *. lia. }
    exists (w ++ s1), s2. split; [by rewrite app_assoc|].
    erewrite loop_go.
    2: { rewrite (bind_eq _ _ _ _ _ (load_long_at _ _ _ As Hw Hwm)), E.
         cbv iota beta. rewrite Z.eqb_refl. erewrite bind_eq; [reflexivity|].
         apply copy_word_spec; try done. rewrite Hw. eapply mapped_weaken; [done|lia..]. }
    rewrite Hloop, put_bytes_app, length_app_Z, Hw, !Z.add_assoc. done.
  - exists [], s. split; [done|]. erewrite loop_stop.
    2: { rewrite (bind_eq _ _ _ _ _ (load_long_at _ _ _ As Hw Hwm)).
         rewrite (proj2 (Z.eqb_neq _ _) E). reflexivity. }
    simpl. by rewrite !Z.add_0_r.
Qed.

(** The word phase, when the code enters it, and the byte phase. *)
Lemma copy_string s fuel dst src m :
  (length s < fuel)%nat -> mem_ok m -> cstr m src s ->
  word_tail_mapped m (src + Z.of_nat (length s)) ->
  mapped m dst (Z.of_nat (length s) + 1) -> up_safe dst src (Z.of_nat (length s) + 1) ->
  bind (if UNALIGNED_X_Y src dst =? 0 then copy_nul_words fuel dst src else ret (dst, src))
    (fun '(d, c) => copy_nul fuel d c) m =
  Some (dst + Z.of_nat (length s) + 1, put_bytes m dst (s ++ [0])).
Proof.
  intros Hf Hok Hs Ht Hm Hu. rewrite UNALIGNED_X_Y_zero. pose proof long_size_pos.
  destruct (long_aligned src && long_aligned dst) eqn:E;
    [|rewrite bind_ret; by apply copy_nul_spec].
  bool_to_prop.
  destruct (copy_nul_words_spec (S (length s)) s fuel dst src m)
    as (s1 & s2 & -> & Hloop); try done; [nia|].
  rewrite (bind_eq _ _ _ _ _ Hloop), <- app_assoc, put_bytes_app.
  pose proof (cstr_put_up m dst src s1 s2 Hu Hs). rewrite length_app in *.
  rewrite (copy_nul_spec s2); try done; try lia.
  - do 2 f_equal. lia.
  - apply put_bytes_mapped. eapply mapped_weaken; [done|lia..].
  - unfold up_safe in *. lia.
Qed.

Lemma bind_pair_assoc {S A B D E} (c : C S (A * B)) (f : A -> B -> C S D) (g : D -> C S E) s :
  bind c (fun '(a, b) => bind (f a b) g) s = bind (bind c (fun '(a, b) => f a b)) g s.
Proof. unfold bind. destruct (c s) as [[[? ?] ?]|]; done. Qed.

Lemma strcpy_spec s fuel dst src m :
  (length s < fuel)%nat -> mem_ok m -> cstr m src s ->
  word_tail_mapped m (src + Z.of_nat (length s)) ->
  mapped m dst (Z.of_nat (length s) + 1) -> up_safe dst src (Z.of_nat (length s) + 1) ->
  strcpy fuel dst src m = Some (dst, put_bytes m dst (s ++ [0])).
Proof.
  intros. unfold strcpy. rewrite bind_pair_assoc. by erewrite bind_eq by by apply copy_string.
Qed.

Lemma stpcpy_spec s fuel dst src m :
  (length s < fuel)%nat -> mem_ok m -> cstr m src s ->
  word_tail_mapped m (src + Z.of_nat (length s)) ->
  mapped m dst (Z.of_nat (length s) + 1) -> up_safe dst src (Z.of_nat (length s) + 1) ->
  stpcpy fuel dst src m = Some (dst + Z.of_nat (length s), put_bytes m dst (s ++ [0])).
Proof.
  intros. unfold stpcpy. rewrite bind_pair_assoc. erewrite bind_eq by by apply copy_string.
  unfold ret. do 2 f_equal. lia.
Qed.

Lemma strcpy_small_spec s fuel dst src m :
  (length s < fuel)%nat -> cstr m src s -> mapped m dst (Z.of_nat (length s) + 1) ->
  up_safe dst src (Z.of_nat (length s) + 1) ->
  strcpy_small fuel dst src m = Some (dst, put_bytes m dst (s ++ [0])).
Proof. intros. unfold strcpy_small. by erewrite bind_eq by by apply copy_nul_spec. Qed.

Lemma stpcpy_small_spec s fuel dst src m :
  (length s < fuel)%nat -> cstr m src s -> mapped m dst (Z.of_nat (length s) + 1) ->
  up_safe dst src (Z.of_nat (length s) + 1) ->
  stpcpy_small fuel dst src m = Some (dst + Z.of_nat (length s), put_bytes m dst (s ++ [0])).
Proof.
  intros. unfold stpcpy_small. erewrite bind_eq by by apply copy_nul_spec.
  unfold ret. do 2 f_equal. lia.
Qed.

(** *** Concatenation *)

Lemma skip_unaligned_spec s fuel p m :
  (length s < fuel)%nat -> cstr m p s ->
  exists s1 s2, s = s1 ++ s2 /\ (s2 = [] \/ long_aligned (p + Z.of_nat (length s1)) = true) /\
    skip_unaligned fuel p m = Some (p + Z.of_nat (length s1), m).
Proof.
  unfold skip_unaligned. revert fuel p.
  induction s as [|b s IH]; intros [|f] p Hf Hs; simpl in Hf; try lia;
    (destruct (long_aligned p) eqn:Ea;
      [eexists [], _; simpl; rewrite Z.add_0_r; split_and!; [reflexivity|by right|];
       erewrite loop_stop; [reflexivity|]; by rewrite UNALIGNED_X_zero, Ea|]).
  - apply cstr_nil in Hs. exists [], []. simpl. rewrite Z.add_0_r. split_and!; [done|by left|].
    erewrite loop_stop; [|rewrite UNALIGNED_X_zero, Ea; cload Hs; reflexivity]. done.
  - apply cstr_cons in Hs as (Hz & Hb & Hs). unfold nonzero_byte in Hz.
    destruct (IH f (p + 1)) as (s1 & s2 & -> & Hal & E); [lia|done|].
    replace (p + 1 + Z.of_nat (length s1)) with (p + Z.of_nat (length (b :: s1))) in *
      by (simpl; lia).
    exists (b :: s1), s2. split_and!; [done|done|].
    erewrite loop_go; [|rewrite UNALIGNED_X_zero, Ea; cload Hb; ctest; reflexivity]. exact E.
Qed.

Lemma cat_end_spec s fuel p m :
  (length s < fuel)%nat -> mem_ok m -> cstr m p s -> word_tail_mapped m (p + Z.of_nat (length s)) ->
  cat_end fuel p m = Some (p + Z.of_nat (length s), m).
Proof.
  intros Hf Hok Hs Ht. unfold cat_end.
  destruct (skip_unaligned_spec s fuel p m Hf Hs) as (s1 & s2 & -> & Hal & E).
  rewrite (bind_eq _ _ _ _ _ E). apply cstr_app in Hs as (_ & _ & Hs).
  rewrite length_app, Nat2Z.inj_add, Z.add_assoc in *.
  destruct s2 as [|b s2].
  - apply cstr_nil in Hs. cload Hs. simpl. by rewrite Z.add_0_r.
  - destruct Hal as [?|Ha]; [done|].
    pose proof Hs as Hs0. apply cstr_cons in Hs0 as (Hz & Hb & _). unfold nonzero_byte in Hz.
    cload Hb. rewrite (proj2 (Z.eqb_neq b 0)) by lia.
    apply nul_words_up; try done. lia.
Qed.

Lemma strcat_spec s1 s2 fuel p1 p2 m :
  let e := p1 + Z.of_nat (length s1) in
  (length s1 < fuel)%nat -> (length s2 < fuel)%nat -> mem_ok m -> cstr m p1 s1 -> cstr m p2 s2 ->
  word_tail_mapped m e -> word_tail_mapped m (p2 + Z.of_nat (length s2)) ->
  mapped m e (Z.of_nat (length s2) + 1) -> up_safe e p2 (Z.of_nat (length s2) + 1) ->
  strcat fuel p1 p2 m = Some (p1, put_bytes m e (s2 ++ [0])).
Proof.
  intros e. intros. unfold strcat. erewrite bind_eq by by apply (cat_end_spec s1).
  by erewrite bind_eq by by apply (strcpy_spec s2).
Qed.

Lemma strcat_small_spec s1 s2 fuel p1 p2 m :
  let e := p1 + Z.of_nat (length s1) in
  (length s1 < fuel)%nat -> (length s2 < fuel)%nat -> cstr m p1 s1 -> cstr m p2 s2 ->
  mapped m e (Z.of_nat (length s2) + 1) -> up_safe e p2 (Z.of_nat (length s2) + 1) ->
  strcat_small fuel p1 p2 m = Some (p1, put_bytes m e (s2 ++ [0])).
Proof.
  intros e. intros. unfold strcat_small. erewrite bind_eq by by apply (nul_up_spec s1).
  by erewrite bind_eq by by apply (copy_nul_spec s2).
Qed.

(** What was appended is one string with what was there. *)
Lemma cstr_append m p s1 s2 :
  Forall nonzero_byte s2 -> cstr m p s1 ->
  cstr (put_bytes m (p + Z.of_nat (length s1)) (s2 ++ [0])) p (s1 ++ s2).
Proof.
  intros Hz [Hz1 Hl]. split; [by apply Forall_app|]. rewrite <- app_assoc.
  apply bytes_at_app in Hl as [Hl _]. apply bytes_at_app. split; [|apply put_bytes_at].
  apply bytes_at_put_disjoint; [|done]. right. lia.
Qed.
End copy_proofs.

(** *** Bounded sources

    [strn_src m p n s]: the string read from [p] by a function that looks at no
    more than [n] bytes is [s]; the terminator is there only when [s] is
    shorter than [n]. *)
Definition strn_src (m : mem) (p : Z) (n : nat) (s : list Z) : Prop :=
  Forall nonzero_byte s /\ (length s <= n)%nat /\ bytes_at m p (take n (s ++ [0])).

Lemma cstr_strn_src m p n s : cstr m p s -> strn_src m p n (take n s).
Proof.
  intros [Hz Hl]. split_and!.
  - by apply Forall_take.
  - rewrite length_take. lia.
  - destruct (decide (length s < n)%nat).
    + rewrite (take_ge s) by lia. rewrite take_ge; [done|]. rewrite length_app. simpl. lia.
    + rewrite (take_app_le (take n s)) by (rewrite length_take; lia).
      rewrite take_take, Nat.min_id. rewrite <- (take_drop n (s ++ [0])) in Hl.
      apply bytes_at_app in Hl as [Hl _]. by rewrite take_app_le in Hl by lia.
Qed.

Lemma strn_src_0 m p s : strn_src m p 0 s -> s = [].
Proof. intros (_ & Hn & _). destruct s; [done|simpl in Hn; lia]. Qed.

Lemma strn_src_nil m p n : strn_src m p (S n) [] -> m !! p = Some 0.
Proof. intros (_ & _ & Hl). by apply bytes_at_cons in Hl as [Hl _]. Qed.

Lemma strn_src_cons m p n b s :
  strn_src m p (S n) (b :: s) -> nonzero_byte b /\ m !! p = Some b /\ strn_src m (p + 1) n s.
Proof.
  intros (Hz & Hn & Hl). inversion_clear Hz. simpl in Hl, Hn. apply bytes_at_cons in Hl as [Hb Hl].
  split_and!; try done. split_and!; [done|lia|done].
Qed.

(** The bytes of the source in front of its end. *)
Lemma strn_src_bytes m p n s : strn_src m p n s -> bytes_at m p s.
Proof.
  intros (_ & Hn & Hl). rewrite take_app_ge in Hl by done. by apply bytes_at_app in Hl as [Hl _].
Qed.

Lemma strn_src_end m p n s :
  strn_src m p n s -> length s = n \/ cstr m p s.
Proof.
  intros (Hz & Hn & Hl). destruct (decide (length s = n)); [by left|right]. split; [done|].
  rewrite take_ge in Hl; [done|]. rewrite length_app. simpl. lia.
Qed.

Lemma strn_src_put m dst p n s1 s2 :
  up_safe dst p (Z.of_nat (length (s1 ++ s2)) + 1) -> strn_src m p (length s1 + n) (s1 ++ s2) ->
  strn_src (put_bytes m dst s1) (p + Z.of_nat (length s1)) n s2.
Proof.
  intros Hu (Hz & Hn & Hl). apply Forall_app in Hz as [_ Hz].
  rewrite length_app in *. split_and!; [done|lia|].
  rewrite <- app_assoc, take_app_add in Hl. apply bytes_at_put_up; [|done].
  unfold up_safe in *. rewrite length_app, length_take, length_app. simpl. lia.
Qed.

Lemma nul_up_n_spec n s fuel p m :
  (n < fuel)%nat -> strn_src m p n s ->
  nul_up_n fuel p (Z.of_nat n) m = Some (p + Z.of_nat (length s), m).
Proof.
  unfold nul_up_n. revert s fuel p. induction n as [|n IH]; intros s [|f] p Hf Hs; try lia.
  - apply strn_src_0 in Hs as ->. erewrite loop_stop; [|ctest; reflexivity]. simpl. by rewrite Z.add_0_r.
  - destruct s as [|b s].
    + apply strn_src_nil in Hs. erewrite loop_stop; [|ctest; cload Hs; reflexivity].
      simpl. by rewrite Z.add_0_r.
    + apply strn_src_cons in Hs as (Hz & Hb & Hs). unfold nonzero_byte in Hz.
      erewrite loop_go; [|ctest; cload Hb; ctest; reflexivity].
      replace (Z.of_nat (S n) - 1) with (Z.of_nat n) by lia.
      rewrite (IH s) by (done || lia). simpl. do 2 f_equal. lia.
Qed.

Lemma strnlen_spec n s fuel p m :
  (n < fuel)%nat -> strn_src m p n s ->
  strnlen fuel p (Z.of_nat n) m = Some (Z.of_nat (length s), m).
Proof.
  intros. unfold strnlen. erewrite bind_eq by by apply (nul_up_n_spec n s).
  unfold ret. do 2 f_equal. lia.
Qed.

(** [strncpy] and [stpncpy]: the bytes copied and the padding. *)
Definition padded (n : nat) (s : list Z) : list Z := s ++ replicate (n - length s) 0.

Lemma length_padded n s : (length s <= n)%nat -> length (padded n s) = n.
Proof. intros. unfold padded. rewrite length_app, length_replicate. lia. Qed.

(** The address that [stpncpy] keeps: of the copied NUL, if one was copied. *)
Definition nul_ptr (dst : Z) (n : nat) (s : list Z) : Z :=
  if decide (length s = n) then NULL else dst + Z.of_nat (length s).

Lemma copy_nul_n_spec n s fuel dst src m :
  (n < fuel)%nat -> strn_src m src n s -> mapped m dst (Z.of_nat n) ->
  up_safe dst src (Z.of_nat (length s) + 1) ->
  exists k, (k <= n)%nat /\
    copy_nul_n fuel dst src (Z.of_nat n) m =
    Some ((dst + Z.of_nat (n - k), Z.of_nat k, nul_ptr dst n s),
          put_bytes m dst (take (n - k) (padded n s))) /\
    drop (n - k) (padded n s) = replicate k 0.
Proof.
  unfold copy_nul_n. revert s fuel dst src m.
  induction n as [|n IH]; intros s [|f] dst src m Hf Hs Hm Hu; try lia.
  - apply strn_src_0 in Hs as ->. exists 0%nat. split; [lia|].
    erewrite loop_stop; [|ctest; reflexivity]. simpl. by rewrite Z.add_0_r.
  - destruct s as [|b s].
    + apply strn_src_nil in Hs. exists n. split; [lia|]. erewrite loop_stop.
      2: { ctest. cload Hs.
           rewrite (bind_eq _ _ _ _ _ (store8_put m dst 0 ltac:(done) ltac:(apply Hm; simpl; lia))).
           reflexivity. }
      replace (S n - n)%nat with 1%nat by lia. unfold padded, nul_ptr. simpl.
      rewrite ?drop_0, ?take_0. split; [do 3 f_equal; f_equal; lia|done].
    + pose proof (strn_src_put m dst src n [b] s Hu Hs) as Hs'.
      apply strn_src_cons in Hs as (Hz & Hb & _). unfold nonzero_byte in Hz.
      destruct (IH s f (dst + 1) (src + 1) (put_bytes m dst [b])) as (k & Hk & E & Hd);
        [lia|done|..].
      { apply put_bytes_mapped. eapply mapped_weaken; [done|simpl; lia..]. }
      { unfold up_safe in *. simpl in Hu. lia. }
      exists k. split; [lia|]. erewrite loop_go.
      2: { ctest. cload Hb.
           rewrite (bind_eq _ _ _ _ _ (store8_put m dst b ltac:(unfold is_byte; lia) ltac:(apply Hm; simpl; lia))).
           ctest. reflexivity. }
      replace (Z.of_nat (S n) - 1) with (Z.of_nat n) by lia. rewrite E.
      replace (S n - k)%nat with (S (n - k)) by lia. unfold padded, nul_ptr in *.
      cbn [app length take drop Nat.sub put_bytes]. split; [|done].
      replace (dst + Z.of_nat (S (n - k))) with (dst + 1 + Z.of_nat (n - k)) by lia.
      replace (dst + Z.of_nat (S (length s))) with (dst + 1 + Z.of_nat (length s)) by lia.
      by repeat destruct (decide _); try lia.
Qed.

(** The byte phase and the padding, as both functions end. *)
Lemma copy_pad_spec n s fuel dst src m :
  (n < fuel)%nat -> strn_src m src n s -> mapped m dst (Z.of_nat n) ->
  up_safe dst src (Z.of_nat (length s) + 1) ->
  bind (copy_nul_n fuel dst src (Z.of_nat n))
    (fun '(d, c, r) => do e <- set_up fuel d 0 c; ret (e, r)) m =
  Some ((dst + Z.of_nat n, nul_ptr dst n s), put_bytes m dst (padded n s)).
Proof.
  intros Hf Hs Hm Hu. destruct (copy_nul_n_spec n s fuel dst src m) as (k & Hk & E & Hd); try done.
  assert (length (padded n s) = n) as Hlen by (apply length_padded; apply Hs).
  rewrite (bind_eq _ _ _ _ _ E). erewrite bind_eq.
  2: { apply set_up_spec; [lia|]. apply put_bytes_mapped. eapply mapped_weaken; [done|lia..]. }
  rewrite <- (take_drop (n - k) (padded n s)) at 2. rewrite put_bytes_app, Hd, length_take, Hlen.
  unfold ret. rewrite Nat.min_l by lia. do 3 f_equal. lia.
Qed.

Lemma strn_src_app m p n s1 s2 :
  strn_src m p (length s1 + n) (s1 ++ s2) -> strn_src m (p + Z.of_nat (length s1)) n s2.
Proof.
  intros (Hz & Hn & Hl). apply Forall_app in Hz as [_ Hz].
  rewrite length_app in *. split_and!; [done|lia|].
  rewrite <- app_assoc, take_app_add in Hl. by apply bytes_at_app in Hl as [_ Hl].
Qed.

Section bounded_proofs.
Context `{Arch}.

(** The end of a bounded source may be read past inside its word. *)
Definition strn_tail (m : mem) (p : Z) (n : nat) (s : list Z) : Prop :=
  (length s < n)%nat -> word_tail_mapped m (p + Z.of_nat (length s)).

Lemma strn_word m p n s :
  mem_ok m -> long_aligned p = true -> (long_size <= n)%nat -> strn_src m p n s ->
  strn_tail m p n s ->
  exists w, length w = long_size /\ bytes_at m p w /\ Forall is_byte w /\
    ((exists s', s = w ++ s' /\ (0 ∉ w) /\
        strn_src m (p + Z.of_nat long_size) (n - long_size) s' /\
        strn_tail m (p + Z.of_nat long_size) (n - long_size) s' /\
        DETECT_NULL (word_of_bytes w) = 0) \/
     (exists rest, w = s ++ 0 :: rest /\ DETECT_NULL (word_of_bytes w) <> 0)).
Proof.
  intros Hok Ha Hn Hs Ht.
  assert (forall w s', length w = long_size -> s = w ++ s' ->
            strn_src m (p + Z.of_nat long_size) (n - long_size) s') as Hrest.
  { intros w s' Hw ->. rewrite <- Hw in *. apply strn_src_app. by rewrite <- Nat.le_add_sub. }
  assert (forall w s', length w = long_size -> s = w ++ s' ->
            strn_tail m (p + Z.of_nat long_size) (n - long_size) s') as Htail.
  { intros w s' Hw -> ?. unfold strn_tail in Ht. rewrite length_app, Hw in Ht.
    eapply eq_ind with (P := word_tail_mapped m); [apply Ht; lia|]. lia. }
  destruct (decide (length s < n)%nat) as [Hlt|Hge].
  - assert (cstr m p s) as Hc by (destruct (strn_src_end _ _ _ _ Hs); [lia|done]).
    destruct (cstr_word m p s Hok Ha Hc (Ht Hlt))
      as (w & Hw & Hwm & Hwb & [(s' & Es & Hz & _ & _ & E)|He]);
      exists w; split_and!; try done; [left|by right].
    exists s'. split_and!; eauto.
  - destruct (list_split long_size s) as (w & s' & Es & Hw & Hl'); [lia|].
    pose proof (strn_src_bytes _ _ _ _ Hs) as Hl. destruct Hs as [Hz _]. rewrite Es in Hl, Hz.
    apply bytes_at_app in Hl as [Hl _]. apply Forall_app in Hz as [Hz _].
    exists w. split_and!; try done; [by apply nonzero_is_byte|]. left. exists s'.
    split_and!; eauto with clib. apply DETECT_NULL_spec; auto with clib.
Qed.

Lemma copy_nul_words_n_spec q n s fuel dst src m :
  mem_ok m -> (n <= q * long_size)%nat -> (q < fuel)%nat ->
  long_aligned dst = true -> long_aligned src = true -> strn_src m src n s ->
  strn_tail m src n s -> mapped m dst (Z.of_nat n) ->
  up_safe dst src (Z.of_nat (length s) + 1) ->
  exists s1 s2, s = s1 ++ s2 /\
    copy_nul_words_n fuel dst src (Z.of_nat n) m =
    Some ((dst + Z.of_nat (length s1), src + Z.of_nat (length s1), Z.of_nat (n - length s1)),
          put_bytes m dst s1).
Proof.
  unfold copy_nul_words_n, TOO_SMALL_LITTLE_BLOCK, LITTLE_BLOCK_SIZE.
  pose proof long_size_pos as Hpos. revert n s fuel dst src m.
  induction q as [|q IH]; intros n s [|f] dst src m Hok Hq Hf Ad As Hs Ht Hm Hu; try lia.
  all: destruct (decide (n < long_size)%nat) as [Hsm|Hbig];
    [exists [], s; split; [done|];
     erewrite loop_stop; [|ctest; reflexivity]; simpl; by rewrite !Z.add_0_r, Nat.sub_0_r|].
  { lia. }
  destruct (strn_word m src n s) as (w & Hw & Hwm & Hwb & Hcase); [done|done|lia|done..|].
  destruct Hcase as [(s' & -> & _ & Hs' & Ht' & E)|(rest & _ & E)].
  - assert (strn_src (put_bytes m dst w) (src + Z.of_nat long_size) (n - long_size) s') as Hsp.
    { rewrite <- Hw. apply strn_src_put; [done|]. rewrite <- Nat.le_add_sub; [done|lia]. }
    destruct (IH (n - long_size)%nat s' f (dst + Z.of_nat long_size) (src + Z.of_nat long_size)
                (put_bytes m dst w)) as (s1 & s2 & -> & Hloop); try done; try lia.
    { by apply put_bytes_ok. } { by apply long_aligned_next. } { by apply long_aligned_next. }
    { intros ?. apply word_tail_put. by apply Ht'. }
    { apply put_bytes_mapped. eapply mapped_weaken; [done|lia..]. }
    { unfold up_safe in *. rewrite length_app in Hu. lia. }
    exists (w ++ s1), s2. split; [by rewrite app_assoc|].
    erewrite loop_go.
    2: { ctest. rewrite (bind_eq _ _ _ _ _ (load_long_at _ _ _ As Hw Hwm)), E.
         cbv iota beta. rewrite Z.eqb_refl. erewrite bind_eq; [reflexivity|].
         apply copy_word_spec; try done. rewrite Hw. eapply mapped_weaken; [done|lia..]. }
    replace (Z.of_nat n - Z.of_nat long_size) with (Z.of_nat (n - long_size)) by lia.
    rewrite Hloop, put_bytes_app, length_app_Z, length_app, Hw, !Z.add_assoc.
    by rewrite Nat.sub_add_distr.
  - exists [], s. split; [done|]. erewrite loop_stop.
    2: { ctest. rewrite (bind_eq _ _ _ _ _ (load_long_at _ _ _ As Hw Hwm)).
         rewrite (proj2 (Z.eqb_neq _ _) E). reflexivity. }
    simpl. by rewrite !Z.add_0_r, Nat.sub_0_r.
Qed.

(** Both phases of [strncpy] and [stpncpy]. *)
Lemma copy_pad_string n s fuel dst src m :
  (n < fuel)%nat -> mem_ok m -> strn_src m src n s -> strn_tail m src n s ->
  mapped m dst (Z.of_nat n) -> up_safe dst src (Z.of_nat (length s) + 1) ->
  bind (if (UNALIGNED_X_Y src dst =? 0) && negb (TOO_SMALL_LITTLE_BLOCK (Z.of_nat n))
        then copy_nul_words_n fuel dst src (Z.of_nat n) else ret (dst, src, Z.of_nat n))
    (fun '(dst, src, count) =>
       bind (copy_nul_n fuel dst src count)
         (fun '(d, c, r) => do e <- set_up fuel d 0 c; ret (e, r))) m =
  Some ((dst + Z.of_nat n, nul_ptr dst n s), put_bytes m dst (padded n s)).
Proof.
  intros Hf Hok Hs Ht Hm Hu. rewrite UNALIGNED_X_Y_zero. pose proof long_size_pos.
  destruct (_ && negb _) eqn:E; [|rewrite bind_ret; by apply copy_pad_spec].
  bool_to_prop.
  destruct (copy_nul_words_n_spec n n s fuel dst src m)
    as (s1 & s2 & -> & Hloop); try done; [nia|].
  assert (length (s1 ++ s2) <= n)%nat as Hn by apply Hs. rewrite length_app in *.
  rewrite (bind_eq _ _ _ _ _ Hloop).
  rewrite (copy_pad_spec (n - length s1) s2).
  - unfold padded, nul_ptr. rewrite <- app_assoc, put_bytes_app, length_app.
    replace (n - (length s1 + length s2))%nat with (n - length s1 - length s2)%nat by lia.
    replace (dst + Z.of_nat (length s1) + Z.of_nat (n - length s1)) with (dst + Z.of_nat n) by lia.
    replace (dst + Z.of_nat (length s1 + length s2))
      with (dst + Z.of_nat (length s1) + Z.of_nat (length s2)) by lia.
    rewrite !put_bytes_app. repeat destruct (decide _); try lia; done.
  - lia.
  - apply strn_src_put; [by rewrite length_app|]. rewrite <- Nat.le_add_sub; [done|lia].
  - apply put_bytes_mapped. eapply mapped_weaken; [done|lia..].
  - unfold up_safe in *. lia.
Qed.

Lemma strncpy_spec n s fuel dst src m :
  (n < fuel)%nat -> mem_ok m -> strn_src m src n s -> strn_tail m src n s ->
  mapped m dst (Z.of_nat n) -> up_safe dst src (Z.of_nat (length s) + 1) ->
  strncpy fuel dst src (Z.of_nat n) m = Some (dst, put_bytes m dst (padded n s)).
Proof.
  intros Hf Hok Hs Ht Hm Hu.
  pose proof (copy_pad_string n s fuel dst src m Hf Hok Hs Ht Hm Hu) as E.
  unfold strncpy, bind, ret in *. repeat csplit E. by simplify_eq.
Qed.

Lemma stpncpy_spec n s fuel dst src m :
  (n < fuel)%nat -> mem_ok m -> strn_src m src n s -> strn_tail m src n s -> 0 < dst ->
  mapped m dst (Z.of_nat n) -> up_safe dst src (Z.of_nat (length s) + 1) ->
  stpncpy fuel dst src (Z.of_nat n) m =
  Some (dst + Z.of_nat (length s), put_bytes m dst (padded n s)).
Proof.
  intros Hf Hok Hs Ht Hd Hm Hu.
  pose proof (copy_pad_string n s fuel dst src m Hf Hok Hs Ht Hm Hu) as E.
  unfold stpncpy, bind, ret in *. repeat csplit E. simplify_eq. unfold nul_ptr, NULL.
  destruct (decide _) as [->|]; [done|]. by rewrite (proj2 (Z.eqb_neq _ _)) by lia.
Qed.

Lemma strncpy_small_spec n s fuel dst src m :
  (n < fuel)%nat -> strn_src m src n s ->
  mapped m dst (Z.of_nat n) -> up_safe dst src (Z.of_nat (length s) + 1) ->
  strncpy_small fuel dst src (Z.of_nat n) m = Some (dst, put_bytes m dst (padded n s)).
Proof.
  intros Hf Hs Hm Hu. pose proof (copy_pad_spec n s fuel dst src m Hf Hs Hm Hu) as E.
  unfold strncpy_small, bind, ret in *. repeat csplit E. by simplify_eq.
Qed.

(** *** strncat *)

Lemma cat_n_spec n s fuel dst src m :
  (n < fuel)%nat -> strn_src m src n s ->
  mapped m dst (Z.of_nat (length s) + 1) -> up_safe dst src (Z.of_nat (length s) + 1) ->
  exists m', cat_n fuel dst src (Z.of_nat n) m = Some (tt, m') /\
    (n <> 0%nat -> m' = put_bytes m dst (s ++ [0])) /\ (n = 0%nat -> m' = m).
Proof.
  unfold cat_n. revert s fuel dst src m.
  induction n as [|n IH]; intros s [|f] dst src m Hf Hs Hm Hu; try lia.
  { erewrite loop_stop; [|ctest; reflexivity]. exists m. split_and!; [done|lia|done]. }
  destruct s as [|b s].
  - apply strn_src_nil in Hs. erewrite loop_stop; [eexists; split; [done|]; split; [done|lia]|].
    ctest. cload Hs.
    rewrite (bind_eq _ _ _ _ _ (store8_put m dst 0 ltac:(done) ltac:(apply Hm; simpl; lia))).
    reflexivity.
  - pose proof (strn_src_put m dst src n [b] s Hu Hs) as Hs'.
    apply strn_src_cons in Hs as (Hz & Hb & _). unfold nonzero_byte in Hz.
    pose proof (store8_put m dst b ltac:(unfold is_byte; lia) ltac:(apply Hm; simpl; lia)) as Est.
    destruct n as [|n].
    + apply strn_src_0 in Hs' as ->. destruct f as [|f]; [lia|].
      erewrite loop_go.
      2: { ctest. cload Hb. rewrite (bind_eq _ _ _ _ _ Est). ctest.
           rewrite (bind_eq _ _ _ _ _ (store8_put (put_bytes m dst [b]) (dst + 1) 0 ltac:(done)
             ltac:(apply put_bytes_is_Some, Hm; simpl; lia))). reflexivity. }
      erewrite loop_stop; [|ctest; reflexivity]. eexists. split; [done|]. split; [done|lia].
    + destruct (IH s f (dst + 1) (src + 1) (put_bytes m dst [b])) as (m' & E & E1 & _);
        [lia|done|..].
      { apply put_bytes_mapped. eapply mapped_weaken; [done|simpl; lia..]. }
      { unfold up_safe in *. simpl in Hu. lia. }
      exists m'. split; [|split; [intros _; by apply E1|lia]]. erewrite loop_go.
      2: { ctest. cload Hb. rewrite (bind_eq _ _ _ _ _ Est). ctest. rewrite bind_ret. reflexivity. }
      by replace (Z.of_nat (S (S n)) - 1) with (Z.of_nat (S n)) by lia.
Qed.

(** With the terminator already at [dst] both cases are one. *)
Lemma cat_n_put n s fuel dst src m :
  (n < fuel)%nat -> strn_src m src n s -> m !! dst = Some 0 ->
  mapped m dst (Z.of_nat (length s) + 1) -> up_safe dst src (Z.of_nat (length s) + 1) ->
  cat_n fuel dst src (Z.of_nat n) m = Some (tt, put_bytes m dst (s ++ [0])).
Proof.
  intros Hf Hs H0 Hm Hu. destruct (cat_n_spec n s fuel dst src m) as (m' & E & E1 & E2); try done.
  rewrite E. destruct (decide (n = 0)%nat) as [->|Hn]; [|by rewrite E1].
  apply strn_src_0 in Hs as ->. rewrite E2 by done. do 2 f_equal. symmetry.
  apply put_bytes_same, bytes_at_cons. split; [done|apply bytes_at_nil].
Qed.

Lemma strncat_spec n s1 s2 fuel p1 p2 m :
  let e := p1 + Z.of_nat (length s1) in
  (length s1 < fuel)%nat -> (n < fuel)%nat -> mem_ok m -> cstr m p1 s1 -> strn_src m p2 n s2 ->
  word_tail_mapped m e ->
  mapped m e (Z.of_nat (length s2) + 1) -> up_safe e p2 (Z.of_nat (length s2) + 1) ->
  strncat fuel p1 p2 (Z.of_nat n) m = Some (p1, put_bytes m e (s2 ++ [0])).
Proof.
  intros e. intros. unfold strncat. erewrite bind_eq by by apply (cat_end_spec s1).
  by erewrite bind_eq by (apply (cat_n_put n s2); by eauto with clib).
Qed.

Lemma strncat_small_spec n s1 s2 fuel p1 p2 m :
  let e := p1 + Z.of_nat (length s1) in
  (length s1 < fuel)%nat -> (n < fuel)%nat -> cstr m p1 s1 -> strn_src m p2 n s2 ->
  mapped m e (Z.of_nat (length s2) + 1) -> up_safe e p2 (Z.of_nat (length s2) + 1) ->
  strncat_small fuel p1 p2 (Z.of_nat n) m = Some (p1, put_bytes m e (s2 ++ [0])).
Proof.
  intros e. intros. unfold strncat_small. erewrite bind_eq by by apply (nul_up_spec s1).
  by erewrite bind_eq by (apply (cat_n_put n s2); by eauto with clib).
Qed.
End bounded_proofs.

(** *** Comparison *)

(** The order of strings: the difference of the first bytes that differ, the
    terminator included. *)
Definition cmp_str (s1 s2 : list Z) : Z := cmp_bytes (s1 ++ [0]) (s2 ++ [0]).

Lemma cmp_str_refl s : cmp_str s s = 0.
Proof. unfold cmp_str. by apply cmp_bytes_zero. Qed.

Lemma cmp_str_zero s1 s2 :
  Forall nonzero_byte s1 -> Forall nonzero_byte s2 -> cmp_str s1 s2 = 0 <-> s1 = s2.
Proof.
  unfold cmp_str. intros H1. revert s2. induction H1 as [|a s1 Ha H1 IH]; intros [|b s2] H2;
    cbn [app cmp_bytes]; try inversion_clear H2 as [|? ? Hb H2']; unfold nonzero_byte in *;
    case_bool; try (split; [lia|by intros [=]]); try done.
  subst b. rewrite IH by done. split; [by intros ->|by intros [=]].
Qed.

Lemma cmp_str_app w s1 s2 : cmp_str (w ++ s1) (w ++ s2) = cmp_str s1 s2.
Proof. unfold cmp_str. rewrite <- !app_assoc. apply cmp_bytes_app. Qed.

Lemma cmp_nul_spec s1 s2 fuel p1 p2 m :
  (length s1 < fuel)%nat -> cstr m p1 s1 -> cstr m p2 s2 ->
  cmp_nul fuel p1 p2 m = Some (cmp_str s1 s2, m).
Proof.
  unfold cmp_nul, cmp_str. revert s2 fuel p1 p2.
  induction s1 as [|a s1 IH]; intros s2 [|f] p1 p2 Hf H1 H2; simpl in Hf; try lia.
  - apply cstr_nil in H1. destruct s2 as [|b s2].
    + apply cstr_nil in H2. erewrite loop_stop; [|cload H1; cload H2; reflexivity]. done.
    + apply cstr_cons in H2 as (Hz & Hb & H2). unfold nonzero_byte in Hz.
      erewrite loop_stop; [|cload H1; cload Hb; reflexivity].
      cbn [app cmp_bytes]. by rewrite (proj2 (Z.eqb_neq 0 b)) by lia.
  - apply cstr_cons in H1 as (Hz & Ha & H1). unfold nonzero_byte in Hz. destruct s2 as [|b s2].
    + apply cstr_nil in H2. erewrite loop_stop; [|cload Ha; cload H2; ctest; reflexivity].
      cbn [app cmp_bytes]. by rewrite (proj2 (Z.eqb_neq a 0)) by lia.
    + apply cstr_cons in H2 as (Hzb & Hb & H2). unfold nonzero_byte in Hzb. simpl.
      destruct (Z.eqb_spec a b) as [->|Hne].
      * erewrite loop_go; [|cload Ha; cload Hb; ctest; reflexivity]. apply IH; (done || lia).
      * erewrite loop_stop; [|cload Ha; cload Hb; ctest; reflexivity]. done.
Qed.

(** Two words that hold the same bytes up to a terminator. *)
Lemma same_string s1 s2 r1 r2 :
  (0 ∉ s1) -> (0 ∉ s2) -> s1 ++ 0 :: r1 = s2 ++ 0 :: r2 -> s1 = s2.
Proof.
  revert s2. induction s1 as [|a s1 IH]; intros [|b s2] H1 H2 E; simplify_eq/=; try set_solver.
  f_equal. apply IH; set_solver.
Qed.

Section cmp_proofs.
Context `{Arch}.

Lemma strcmp_words_spec q s1 s2 fuel p1 p2 m :
  mem_ok m -> (length s1 < q * long_size)%nat -> (q <= fuel)%nat ->
  long_aligned p1 = true -> long_aligned p2 = true -> cstr m p1 s1 -> cstr m p2 s2 ->
  word_tail_mapped m (p1 + Z.of_nat (length s1)) ->
  word_tail_mapped m (p2 + Z.of_nat (length s2)) ->
  (strcmp_words fuel p1 p2 m = Some (inl 0, m) /\ s1 = s2) \/
  exists a t1 t2, s1 = a ++ t1 /\ s2 = a ++ t2 /\
    strcmp_words fuel p1 p2 m =
    Some (inr (p1 + Z.of_nat (length a), p2 + Z.of_nat (length a)), m).
Proof.
  intros Hok. unfold strcmp_words, LITTLE_BLOCK_SIZE. revert s1 s2 fuel p1 p2.
  induction q as [|q IH]; intros s1 s2 [|f] p1 p2 Hq Hf A1 A2 H1 H2 T1 T2; try lia.
  destruct (cstr_word m p1 s1 Hok A1 H1 T1) as (w1 & Hw1 & Hm1 & Hb1 & C1).
  destruct (cstr_word m p2 s2 Hok A2 H2 T2) as (w2 & Hw2 & Hm2 & Hb2 & C2).
  pose proof (load_long_at _ _ _ A1 Hw1 Hm1) as L1.
  pose proof (load_long_at _ _ _ A2 Hw2 Hm2) as L2.
  destruct (Z.eqb_spec (word_of_bytes w1) (word_of_bytes w2)) as [E|E].
  - apply word_of_bytes_inj in E; try done. subst w2.
    destruct C1 as [(s1' & -> & Z1 & H1' & T1' & D1)|(r1 & W1 & D1)];
      destruct C2 as [(s2' & -> & Z2 & H2' & T2' & D2)|(r2 & W2 & D2)]; try done.
    + rewrite length_app in Hq.
      erewrite loop_go.
      2: { rewrite (bind_eq _ _ _ _ _ L1), (bind_eq _ _ _ _ _ L2), Z.eqb_refl, D1. reflexivity. }
      destruct (IH s1' s2' f (p1 + Z.of_nat long_size) (p2 + Z.of_nat long_size))
        as [[Ew ->]|(a & t1 & t2 & -> & -> & Ew)]; try done; try lia;
        try by apply long_aligned_next.
      * left. by split.
      * right. exists (w1 ++ a), t1, t2. rewrite !app_assoc. split_and!; try done.
        rewrite Ew, length_app_Z, Hw1, !Z.add_assoc. done.
    + left. split.
      * erewrite loop_stop; [reflexivity|].
        rewrite (bind_eq _ _ _ _ _ L1), (bind_eq _ _ _ _ _ L2), Z.eqb_refl.
        by rewrite (proj2 (Z.eqb_neq _ _) D1).
      * rewrite W1 in W2. destruct H1 as [N1 _], H2 as [N2 _].
        eapply same_string; [by apply nonzero_not_nul..|done].
  - right. exists [], s1, s2. split_and!; try done. erewrite loop_stop.
    2: { rewrite (bind_eq _ _ _ _ _ L1), (bind_eq _ _ _ _ _ L2).
         rewrite (proj2 (Z.eqb_neq _ _) E). reflexivity. }
    simpl. by rewrite !Z.add_0_r.
Qed.

Lemma strcmp_spec s1 s2 fuel p1 p2 m :
  (length s1 < fuel)%nat -> mem_ok m -> cstr m p1 s1 -> cstr m p2 s2 ->
  word_tail_mapped m (p1 + Z.of_nat (length s1)) ->
  word_tail_mapped m (p2 + Z.of_nat (length s2)) ->
  strcmp fuel p1 p2 m = Some (cmp_str s1 s2, m).
Proof.
  intros Hf Hok H1 H2 T1 T2. unfold strcmp. rewrite UNALIGNED_X_Y_zero.
  pose proof long_size_pos.
  destruct (_ && _) eqn:E; [|rewrite bind_ret; by apply cmp_nul_spec].
  bool_to_prop.
  destruct (strcmp_words_spec (S (length s1)) s1 s2 fuel p1 p2 m)
    as [[Ew ->]|(a & t1 & t2 & -> & -> & Ew)]; try done; [nia|..];
    rewrite (bind_eq _ _ _ _ _ Ew).
  - by rewrite cmp_str_refl.
  - apply cstr_app in H1 as (_ & _ & H1). apply cstr_app in H2 as (_ & _ & H2).
    rewrite cmp_str_app. rewrite length_app in Hf. apply cmp_nul_spec; (done || lia).
Qed.
End cmp_proofs.

(** The order on the first [n] bytes. *)
Definition cmp_strn (n : nat) (s1 s2 : list Z) : Z :=
  cmp_bytes (take n (s1 ++ [0])) (take n (s2 ++ [0])).

Lemma cmp_strn_app n w s1 s2 :
  cmp_strn (length w + n) (w ++ s1) (w ++ s2) = cmp_strn n s1 s2.
Proof. unfold cmp_strn. rewrite <- !app_assoc, !take_app_add. apply cmp_bytes_app. Qed.

Lemma cmp_strn_same n s : cmp_strn n s s = 0.
Proof. unfold cmp_strn. by apply cmp_bytes_zero. Qed.

(** The first byte of a bounded source, the terminator included, and the rest. *)
Lemma strn_src_head m p n s :
  strn_src m p (S n) s -> exists b, m !! p = Some b /\
    (b = 0 /\ s = [] \/ exists s', s = b :: s' /\ b <> 0 /\ strn_src m (p + 1) n s').
Proof.
  intros Hs. destruct s as [|b s].
  - apply strn_src_nil in Hs. eauto.
  - apply strn_src_cons in Hs as (Hz & Hb & Hs). exists b. split; [done|]. right.
    exists s. unfold nonzero_byte in Hz. split_and!; [done|lia|done].
Qed.

(** One comparison: the bytes differ, or both strings end, or both go on. *)
Lemma cmp_strn_step n s1 s2 m p1 p2 :
  strn_src m p1 (S n) s1 -> strn_src m p2 (S n) s2 ->
  exists a b, m !! p1 = Some a /\ m !! p2 = Some b /\
    ((a <> b /\ cmp_strn (S n) s1 s2 = a - b) \/
     (a = b /\ a = 0 /\ cmp_strn (S n) s1 s2 = 0) \/
     (exists t1 t2, a = b /\ a <> 0 /\ cmp_strn (S n) s1 s2 = cmp_strn n t1 t2 /\
        strn_src m (p1 + 1) n t1 /\ strn_src m (p2 + 1) n t2)).
Proof.
  intros (a & Ha & C1)%strn_src_head (b & Hb & C2)%strn_src_head. exists a, b.
  split_and!; try done. unfold cmp_strn.
  destruct C1 as [[-> ->]|(t1 & -> & Hna & H1)]; destruct C2 as [[-> ->]|(t2 & -> & Hnb & H2)];
    cbn [app take cmp_bytes].
  - right. left. rewrite take_nil. done.
  - left. by rewrite (proj2 (Z.eqb_neq 0 b)) by lia.
  - left. by rewrite (proj2 (Z.eqb_neq a 0)) by lia.
  - destruct (Z.eqb_spec a b) as [->|Hne]; [|by left]. right. right. exists t1, t2.
    split_and!; done.
Qed.

Lemma cmp_strn_0 s1 s2 : cmp_strn 0 s1 s2 = 0.
Proof. done. Qed.

Lemma strncmp_small_spec n s1 s2 fuel p1 p2 m :
  (n < fuel)%nat -> strn_src m p1 n s1 -> strn_src m p2 n s2 ->
  strncmp_small fuel p1 p2 (Z.of_nat n) m = Some (cmp_strn n s1 s2, m).
Proof.
  intros Hf H1 H2. unfold strncmp_small. destruct n as [|n]; [done|]. ctest.
  revert s1 s2 fuel p1 p2 Hf H1 H2. induction n as [|n IH]; intros s1 s2 [|f] p1 p2 Hf H1 H2; try lia.
  all: destruct (cmp_strn_step _ s1 s2 m p1 p2 H1 H2)
         as (a & b & Ha & Hb & [[Hne ->]|[(-> & -> & ->)|(t1 & t2 & -> & Hnz & -> & H1' & H2')]]).
  1, 4: erewrite bind_eq by (apply loop_stop; ctest; cload Ha; cload Hb; ctest; reflexivity);
        cbv beta iota; cload Ha; cload Hb; done.
  1, 3: erewrite bind_eq by (apply loop_stop; ctest; cload Ha; cload Hb; rewrite ?orb_true_r; reflexivity);
        cbv beta iota; cload Ha; cload Hb; done.
  - erewrite bind_eq by (apply loop_stop; ctest; cload Ha; cload Hb; rewrite Z.eqb_refl; reflexivity).
    cbv beta iota. cload Ha. cload Hb. rewrite Z.sub_diag. done.
  - rewrite <- (IH t1 t2 f (p1 + 1) (p2 + 1)); try done; [|lia].
    unfold bind at 1. erewrite loop_go.
    2: { ctest. cload Ha. cload Hb. rewrite Z.eqb_refl. ctest. reflexivity. }
    by replace (Z.of_nat (S (S n)) - 1) with (Z.of_nat (S n)) by lia.
Qed.

Lemma cmp_nul_n_spec n s1 s2 fuel p1 p2 m :
  (S n < fuel)%nat -> strn_src m p1 (S n) s1 -> strn_src m p2 (S n) s2 ->
  cmp_nul_n fuel p1 p2 (Z.of_nat (S n)) m = Some (cmp_strn (S n) s1 s2, m).
Proof.
  unfold cmp_nul_n. revert s1 s2 fuel p1 p2.
  induction n as [|n IH]; intros s1 s2 [|f] p1 p2 Hf H1 H2; try lia.
  all: destruct (cmp_strn_step _ s1 s2 m p1 p2 H1 H2)
         as (a & b & Ha & Hb & [[Hne ->]|[(-> & -> & ->)|(t1 & t2 & -> & Hnz & -> & H1' & H2')]]).
  1, 4: erewrite loop_stop; [reflexivity|]; ctest; cload Ha; cload Hb; ctest; reflexivity.
  1, 3: erewrite loop_stop; [reflexivity|]; ctest; cload Ha; cload Hb; rewrite ?orb_true_r; reflexivity.
  - erewrite loop_stop; [|ctest; cload Ha; cload Hb; rewrite Z.eqb_refl; reflexivity]. done.
  - erewrite loop_go.
    2: { ctest. cload Ha. cload Hb. rewrite Z.eqb_refl. ctest. reflexivity. }
    replace (Z.of_nat (S (S n)) - 1) with (Z.of_nat (S n)) by lia. apply IH; (done || lia).
Qed.

Section strncmp_proof.
Context `{Arch}.

(** The word loop returns 0 for equal strings, or leaves both pointers after a
    common prefix with some of the count left. *)
Lemma strncmp_words_spec q n s1 s2 fuel p1 p2 m :
  mem_ok m -> (n <= q * long_size)%nat -> (q < fuel)%nat -> (0 < n)%nat ->
  long_aligned p1 = true -> long_aligned p2 = true -> strn_src m p1 n s1 -> strn_src m p2 n s2 ->
  strn_tail m p1 n s1 -> strn_tail m p2 n s2 ->
  (strncmp_words fuel p1 p2 (Z.of_nat n) m = Some (inl 0, m) /\ cmp_strn n s1 s2 = 0) \/
  exists a t1 t2, s1 = a ++ t1 /\ s2 = a ++ t2 /\ (length a < n)%nat /\
    strncmp_words fuel p1 p2 (Z.of_nat n) m =
    Some (inr (p1 + Z.of_nat (length a), p2 + Z.of_nat (length a), Z.of_nat (n - length a)), m).
Proof.
  intros Hok. unfold strncmp_words, LITTLE_BLOCK_SIZE. revert n s1 s2 fuel p1 p2.
  induction q as [|q IH]; intros n s1 s2 [|f] p1 p2 Hq Hf Hn A1 A2 H1 H2 T1 T2; try lia.
  destruct (decide (n < long_size)%nat) as [Hsm|Hbig].
  { right. exists [], s1, s2. split_and!; try done. simpl. rewrite Nat.sub_0_r, !Z.add_0_r.
    by erewrite loop_stop by (ctest; reflexivity). }
  destruct (strn_word m p1 n s1) as (w1 & Hw1 & Hm1 & Hb1 & C1); [done|done|lia|done..|].
  destruct (strn_word m p2 n s2) as (w2 & Hw2 & Hm2 & Hb2 & C2); [done|done|lia|done..|].
  pose proof (load_long_at _ _ _ A1 Hw1 Hm1) as L1.
  pose proof (load_long_at _ _ _ A2 Hw2 Hm2) as L2.
  destruct (Z.eqb_spec (word_of_bytes w1) (word_of_bytes w2)) as [E|E].
  2: { right. exists [], s1, s2. split_and!; try done. simpl. rewrite Nat.sub_0_r, !Z.add_0_r.
       erewrite loop_stop; [reflexivity|]. ctest.
       rewrite (bind_eq _ _ _ _ _ L1), (bind_eq _ _ _ _ _ L2).
       by rewrite (proj2 (Z.eqb_neq _ _) E). }
  apply word_of_bytes_inj in E; try done. subst w2.
  destruct C1 as [(s1' & -> & Z1 & H1' & T1' & D1)|(r1 & W1 & D1)];
    destruct C2 as [(s2' & -> & Z2 & H2' & T2' & D2)|(r2 & W2 & D2)]; try done.
  - assert (cmp_strn n (w1 ++ s1') (w1 ++ s2') = cmp_strn (n - long_size) s1' s2') as Ec.
    { rewrite <- (cmp_strn_app (n - long_size) w1 s1' s2'). f_equal. lia. }
    destruct (decide (n = long_size)) as [->|Hne].
    { left. rewrite Ec, Nat.sub_diag. split; [|done]. erewrite loop_stop; [reflexivity|]. ctest.
      rewrite (bind_eq _ _ _ _ _ L1), (bind_eq _ _ _ _ _ L2), Z.eqb_refl, Z.sub_diag. done. }
    erewrite loop_go.
    2: { ctest. rewrite (bind_eq _ _ _ _ _ L1), (bind_eq _ _ _ _ _ L2), Z.eqb_refl, D1.
         ctest. reflexivity. }
    replace (Z.of_nat n - Z.of_nat long_size) with (Z.of_nat (n - long_size)) by lia.
    destruct (IH (n - long_size)%nat s1' s2' f (p1 + Z.of_nat long_size) (p2 + Z.of_nat long_size))
      as [[Ew Hz]|(a & t1 & t2 & -> & -> & Ha & Ew)]; try done; try lia;
      try by apply long_aligned_next.
    * left. split; [done|congruence].
    * right. exists (w1 ++ a), t1, t2. rewrite !app_assoc, length_app. split_and!; try done; try lia.
      rewrite Ew, Nat2Z.inj_add, Hw1, !Z.add_assoc. by rewrite Nat.sub_add_distr.
  - left. split.
    + erewrite loop_stop; [reflexivity|]. ctest.
      rewrite (bind_eq _ _ _ _ _ L1), (bind_eq _ _ _ _ _ L2), Z.eqb_refl.
      by rewrite (proj2 (Z.eqb_neq _ _) D1), orb_true_r.
    + rewrite W1 in W2. destruct H1 as [N1 _], H2 as [N2 _].
      assert (s1 = s2) as -> by (eapply same_string; [by apply nonzero_not_nul..|done]).
      apply cmp_strn_same.
Qed.

Lemma strncmp_spec n s1 s2 fuel p1 p2 m :
  (n < fuel)%nat -> mem_ok m -> strn_src m p1 n s1 -> strn_src m p2 n s2 ->
  strn_tail m p1 n s1 -> strn_tail m p2 n s2 ->
  strncmp fuel p1 p2 (Z.of_nat n) m = Some (cmp_strn n s1 s2, m).
Proof.
  intros Hf Hok H1 H2 T1 T2. unfold strncmp. rewrite UNALIGNED_X_Y_zero.
  pose proof long_size_pos. destruct n as [|n]; [done|].
  rewrite (proj2 (Z.eqb_neq (Z.of_nat (S n)) 0)) by lia.
  destruct (_ && _) eqn:E; [|rewrite bind_ret; by apply cmp_nul_n_spec].
  bool_to_prop.
  destruct (strncmp_words_spec (S n) (S n) s1 s2 fuel p1 p2 m)
    as [[Ew ->]|(a & t1 & t2 & -> & -> & Ha & Ew)]; try done; try lia; [nia|..];
    rewrite (bind_eq _ _ _ _ _ Ew); [done|].
  replace (S n) with (length a + (S n - length a))%nat in H1, H2 |- * by lia.
  rewrite cmp_strn_app. apply strn_src_app in H1, H2.
  replace (length a + (S n - length a) - length a)%nat with (S (n - length a)) by lia.
  replace (S n - length a)%nat with (S (n - length a)) in * by lia.
  apply cmp_nul_n_spec; (done || lia).
Qed.
End strncmp_proof.

(** *** Searches *)

Lemma chr_nul_spec s fuel p c m :
  (length s < fuel)%nat -> cstr m p s ->
  chr_nul fuel p c m = Some (ptr_at p (first_index c (s ++ [0])), m).
Proof.
  unfold chr_nul. revert fuel p.
  induction s as [|b s IH]; intros [|f] p Hf Hs; simpl in Hf; try lia.
  - apply cstr_nil in Hs. erewrite loop_stop.
    2: { cload Hs. rewrite Z.eqb_refl. cbn [negb andb].
         instantiate (1 := m). instantiate (1 := if 0 =? c then p else NULL). by destruct (0 =? c). }
    cbn [app first_index]. destruct (0 =? c); [|done]. simpl. by rewrite Z.add_0_r.
  - apply cstr_cons in Hs as (Hz & Hb & Hs). unfold nonzero_byte in Hz. cbn [app first_index].
    destruct (Z.eqb_spec b c) as [->|Hne].
    + erewrite loop_stop; [|cload Hb; rewrite Z.eqb_refl, andb_false_r; reflexivity].
      simpl. by rewrite Z.add_0_r.
    + erewrite loop_go; [|cload Hb; ctest; reflexivity]. rewrite IH by (done || lia).
      destruct (first_index c (s ++ [0])); simpl; [|done]. do 2 f_equal. lia.
Qed.

Section strchr_proofs.
Context `{Arch}.

Lemma strchr_align_spec s fuel p c m :
  (length s < fuel)%nat -> c <> 0 -> cstr m p s ->
  exists s1 s2, s = s1 ++ s2 /\ (c ∉ s1) /\
    ((long_aligned (p + Z.of_nat (length s1)) = true /\
      strchr_align fuel p c m = Some (inr (p + Z.of_nat (length s1)), m)) \/
     strchr_align fuel p c m = Some (inl (ptr_at p (first_index c (s ++ [0]))), m)).
Proof.
  intros Hf Hc. unfold strchr_align. revert fuel p Hf.
  induction s as [|b s IH]; intros [|f] p Hf Hs; simpl in Hf; try lia;
    (destruct (long_aligned p) eqn:Ea;
      [eexists [], _; simpl; rewrite Z.add_0_r; split_and!; [reflexivity|set_solver|left];
       split; [done|]; erewrite loop_stop; [reflexivity|]; by rewrite UNALIGNED_X_zero, Ea|]).
  - apply cstr_nil in Hs. exists [], []. split_and!; [done|set_solver|right].
    erewrite loop_stop; [|rewrite UNALIGNED_X_zero, Ea; cload Hs; reflexivity].
    cbn [app first_index]. by rewrite (proj2 (Z.eqb_neq 0 c)) by lia.
  - apply cstr_cons in Hs as (Hz & Hb & Hs). unfold nonzero_byte in Hz.
    cbn [app first_index]. destruct (Z.eqb_spec b c) as [->|Hne].
    { exists [], (c :: s). split_and!; [done|set_solver|right].
      erewrite loop_stop; [|rewrite UNALIGNED_X_zero, Ea; cload Hb; ctest; reflexivity].
      simpl. by rewrite Z.add_0_r. }
    destruct (IH f (p + 1)) as (s1 & s2 & -> & Hn & Hcase); [lia|done|].
    exists (b :: s1), s2. split_and!; [done|set_solver|].
    erewrite loop_go; [|rewrite UNALIGNED_X_zero, Ea; cload Hb; ctest; reflexivity].
    replace (p + Z.of_nat (length (b :: s1))) with (p + 1 + Z.of_nat (length s1)) by (simpl; lia).
    destruct Hcase as [?|E]; [by left|right]. rewrite E.
    destruct (first_index c _); simpl; [|done]. do 3 f_equal. lia.
Qed.

Lemma strchr_words_spec q s fuel p c m :
  mem_ok m -> is_byte c -> (length s < q * long_size)%nat -> (q <= fuel)%nat ->
  long_aligned p = true -> cstr m p s -> word_tail_mapped m (p + Z.of_nat (length s)) ->
  exists s1 s2, s = s1 ++ s2 /\ (c ∉ s1) /\
    strchr_words fuel p (fill_loop c) m = Some (p + Z.of_nat (length s1), m).
Proof.
  intros Hok Hc. unfold strchr_words, LITTLE_BLOCK_SIZE. revert s fuel p.
  induction q as [|q IH]; intros s [|f] p Hq Hf Ha Hs Ht; try lia.
  destruct (cstr_word m p s Hok Ha Hs Ht) as (w & Hw & Hwm & Hwb & Hcase).
  pose proof (load_long_at _ _ _ Ha Hw Hwm) as L.
  pose proof (DETECT_CHAR_spec w c Hw Hwb Hc) as Hdet. rewrite <- fill_loop_spec in Hdet by done.
  destruct Hcase as [(s' & -> & _ & Hs' & Ht' & E)|(rest & _ & E)].
  - destruct (Z.eqb_spec (DETECT_CHAR (word_of_bytes w) (fill_loop c)) 0) as [Ec|Ec].
    + rewrite length_app in Hq. apply Hdet in Ec as Hn.
      destruct (IH s' f (p + Z.of_nat long_size)) as (s1 & s2 & -> & Hn' & Hloop);
        [lia|lia|by apply long_aligned_next|done..|].
      exists (w ++ s1), s2. split_and!; [by rewrite app_assoc|set_solver|].
      erewrite loop_go; [|rewrite (bind_eq _ _ _ _ _ L), E, Ec; reflexivity].
      rewrite Hloop, length_app_Z, Hw, Z.add_assoc. done.
    + exists [], (w ++ s'). split_and!; [done|set_solver|].
      erewrite loop_stop.
      2: { rewrite (bind_eq _ _ _ _ _ L), (proj2 (Z.eqb_neq _ _) Ec), andb_false_r. reflexivity. }
      simpl. by rewrite Z.add_0_r.
  - exists [], s. split_and!; [done|set_solver|]. erewrite loop_stop.
    2: { rewrite (bind_eq _ _ _ _ _ L), (proj2 (Z.eqb_neq _ _) E). reflexivity. }
    simpl. by rewrite Z.add_0_r.
Qed.

(** The terminator is the first NUL. *)
Lemma first_index_nul s : Forall nonzero_byte s -> first_index 0 (s ++ [0]) = Some (length s).
Proof. intros. rewrite first_index_app by auto with clib. simpl. f_equal. lia. Qed.

Lemma strchr_spec s fuel p i m :
  (length s < fuel)%nat -> mem_ok m -> cstr m p s -> word_tail_mapped m (p + Z.of_nat (length s)) ->
  strchr fuel p i m = Some (ptr_at p (first_index (uwrap 8 i) (s ++ [0])), m).
Proof.
  intros Hf Hok Hs Ht. unfold strchr. pose proof (uwrap_byte i) as Hd. set (c := uwrap 8 i) in *.
  pose proof long_size_pos. destruct (Z.eqb_spec c 0) as [->|Hc].
  - rewrite first_index_nul by apply Hs.
    destruct (nul_align_spec s fuel p m) as (s1 & s2 & -> & [[Ha E]|E]); try done;
      rewrite (bind_eq _ _ _ _ _ E); [|done].
    apply cstr_app in Hs as (_ & _ & Hs). rewrite length_app in *.
    rewrite Nat2Z.inj_add, Z.add_assoc in Ht.
    rewrite (nul_words_up s2) by (done || lia). simpl. do 2 f_equal. lia.
  - destruct (strchr_align_spec s fuel p c m) as (s1 & s2 & -> & Hn & [[Ha E]|E]); try done;
      rewrite (bind_eq _ _ _ _ _ E); [|done].
    apply cstr_app in Hs as (_ & _ & Hs). rewrite length_app in *.
    rewrite Nat2Z.inj_add, Z.add_assoc in Ht.
    destruct (strchr_words_spec (S (length s2)) s2 fuel (p + Z.of_nat (length s1)) c m)
      as (s3 & s4 & -> & Hn' & Ew); try done; [nia|lia|].
    rewrite (bind_eq _ _ _ _ _ Ew). apply cstr_app in Hs as (_ & _ & Hs).
    rewrite length_app in Hf. rewrite (chr_nul_spec s4) by (done || lia).
    rewrite <- !app_assoc, (ptr_at_app c p s1), (ptr_at_app c _ s3) by done. done.
Qed.

Lemma strchr_small_spec s fuel p i m :
  (length s < fuel)%nat -> cstr m p s ->
  strchr_small fuel p i m = Some (ptr_at p (first_index (uwrap 8 i) (s ++ [0])), m).
Proof. apply chr_nul_spec. Qed.

Lemma strchrnul_spec s fuel p i m :
  (length s < fuel)%nat -> mem_ok m -> cstr m p s -> word_tail_mapped m (p + Z.of_nat (length s)) ->
  0 < p ->
  strchrnul fuel p i m =
  Some (p + Z.of_nat (default (length s) (first_index (uwrap 8 i) (s ++ [0]))), m).
Proof.
  intros Hf Hok Hs Ht Hp. unfold strchrnul. erewrite bind_eq by by apply (strchr_spec s).
  destruct (first_index _ _) as [k|]; simpl.
  - by rewrite (proj2 (Z.eqb_neq _ _)) by (unfold NULL; lia).
  - by erewrite bind_eq by by apply (strlen_spec s).
Qed.
End strchr_proofs.

(** The pointer to the last [c] of [s] at [p], or [last] when there is none. *)
Definition last_or (last p c : Z) (s : list Z) : Z :=
  match first_index c (rev s) with
  | Some i => p + Z.of_nat (length s) - 1 - Z.of_nat i
  | None => last
  end.

Lemma last_or_none last p c s : c ∉ s -> last_or last p c s = last.
Proof.
  intros Hn. unfold last_or. rewrite (proj2 (first_index_None c (rev s))); [done|].
  by rewrite list_elem_of_In, <- in_rev, <- list_elem_of_In.
Qed.

Lemma last_or_split last p c s1 s2 :
  last_or last p c (s1 ++ c :: s2) =
  last_or (p + Z.of_nat (length s1)) (p + Z.of_nat (length s1) + 1) c s2.
Proof.
  unfold last_or. rewrite rev_app_distr. cbn [rev]. rewrite <- app_assoc.
  destruct (first_index c (rev s2)) as [i|] eqn:E.
  - apply first_index_Some in E as (l1 & l2 & E & Hn & <-).
    rewrite E, <- !app_assoc, first_index_app by done. cbn [app first_index]. rewrite Z.eqb_refl.
    simpl. rewrite length_app. simpl. lia.
  - apply first_index_None in E as Hn. rewrite first_index_app by done.
    cbn [app first_index]. rewrite Z.eqb_refl. simpl. rewrite length_rev, length_app. simpl. lia.
Qed.

Section strrchr_proof.
Context `{Arch}.

Lemma strrchr_loop_spec f s fuel p last c m :
  (length s < fuel)%nat -> (length s < f)%nat -> mem_ok m -> is_byte c -> c <> 0 ->
  cstr m p s -> word_tail_mapped m (p + Z.of_nat (length s)) -> 0 < p ->
  loop (fun '(s, last) =>
    do s <- strchr fuel s c;
    if s =? NULL then ret (inr last) else ret (inl (s + 1, s))) f (p, last) m =
  Some (last_or last p c s, m).
Proof.
  intros Hfu Hf Hok Hd Hc. revert s p last Hfu Hf.
  induction f as [|f IH]; intros s p last Hfu Hf Hs Ht Hp; [lia|].
  pose proof (strchr_spec s fuel p c m Hfu Hok Hs Ht) as E. rewrite uwrap_byte_id in E by done.
  destruct (first_index c (s ++ [0])) as [k|] eqn:Ek.
  - apply first_index_Some in Ek as (s1 & t & Es & Hn & <-).
    destruct t as [|x t _] using rev_ind.
    { apply app_inj_tail in Es as [_ Es]. congruence. }
    rewrite app_comm_cons, app_assoc in Es. apply app_inj_tail in Es as [-> _].
    erewrite loop_go.
    2: { rewrite (bind_eq _ _ _ _ _ E). simpl.
         rewrite (proj2 (Z.eqb_neq _ _)) by (unfold NULL; lia). reflexivity. }
    rewrite last_or_split. apply cstr_app in Hs as (_ & _ & Hs).
    apply cstr_cons in Hs as (_ & _ & Hs). rewrite length_app in *. cbn [length] in *.
    rewrite (IH t); try done; try lia.
    eapply eq_ind with (P := word_tail_mapped m); [done|]. lia.
  - apply first_index_None in Ek. rewrite last_or_none by set_solver.
    erewrite loop_stop; [done|]. rewrite (bind_eq _ _ _ _ _ E). done.
Qed.

Lemma strrchr_spec s fuel p i m :
  (length s < fuel)%nat -> mem_ok m -> cstr m p s -> word_tail_mapped m (p + Z.of_nat (length s)) ->
  0 < p ->
  strrchr fuel p i m = Some (last_or NULL p (uwrap 8 i) (s ++ [0]), m).
Proof.
  intros Hf Hok Hs Ht Hp. unfold strrchr. pose proof (uwrap_byte i) as Hd.
  set (c := uwrap 8 i) in *. destruct (Z.eqb_spec c 0) as [->|Hc]; simpl.
  { rewrite (strchr_spec s), last_or_split by done.
    change (uwrap 8 0) with 0. by rewrite first_index_nul by apply Hs. }
  rewrite (strrchr_loop_spec fuel s) by done. unfold last_or.
  rewrite rev_app_distr, length_app. cbn [rev app first_index].
  rewrite (proj2 (Z.eqb_neq 0 c)) by lia.
  destruct (first_index c (rev s)); simpl; [|done]. do 2 f_equal. lia.
Qed.
End strrchr_proof.

(** *** Sets of bytes *)

Lemma in_set_spec d fuel q a m :
  (length d < fuel)%nat -> cstr m q d -> in_set fuel q a m = Some (bool_decide (a ∈ d), m).
Proof.
  unfold in_set. revert fuel q. induction d as [|b d IH]; intros [|f] q Hf Hd; simpl in Hf; try lia.
  - apply cstr_nil in Hd. erewrite loop_stop; [|cload Hd; reflexivity]. done.
  - apply cstr_cons in Hd as (Hz & Hb & Hd). unfold nonzero_byte in Hz.
    destruct (Z.eqb_spec a b) as [->|Hne].
    + erewrite loop_stop; [|cload Hb; ctest; reflexivity].
      rewrite bool_decide_true by set_solver. done.
    + erewrite loop_go; [|cload Hb; ctest; reflexivity]. rewrite IH by (done || lia).
      do 2 f_equal. apply bool_decide_ext. set_solver.
Qed.

(** The length of the longest prefix whose bytes satisfy [P]. *)
Fixpoint span_len (P : Z -> bool) (l : list Z) : nat :=
  match l with b :: l => if P b then S (span_len P l) else 0 | [] => 0 end.

Lemma span_len_le P l : (span_len P l <= length l)%nat.
Proof. induction l as [|b l IH]; simpl; [lia|]. destruct (P b); lia. Qed.

Lemma span_len_spec P l :
  Forall (fun b => P b = true) (take (span_len P l) l) /\
  (forall b, l !! span_len P l = Some b -> P b = false).
Proof.
  induction l as [|b l [IH1 IH2]]; simpl; [done|]. destruct (P b) eqn:E; simpl.
  - split; [by constructor|done].
  - split; [done|]. congruence.
Qed.

(** A scan of a string whose body goes on over the bytes that satisfy [P],
    leaves with [fin] at the terminator and with [stop] at another byte. *)
Lemma scan_loop_spec (body : Z -> C mem (Z + Z)) P (fin stop : Z -> Z) s fuel p m :
  (forall a, m !! a = Some 0 -> body a m = Some (inr (fin a), m)) ->
  (forall a b, m !! a = Some b -> b <> 0 ->
     body a m = Some (if P b : bool then inl (a + 1) else inr (stop a), m)) ->
  (length s < fuel)%nat -> cstr m p s ->
  loop body fuel p m =
  Some (let e := p + Z.of_nat (span_len P s) in
        if decide (span_len P s = length s) then fin e else stop e, m).
Proof.
  intros H0 Hb. revert fuel p.
  induction s as [|b s IH]; intros [|f] p Hf Hs; simpl in Hf; try lia.
  - apply cstr_nil in Hs. erewrite loop_stop by by apply H0. simpl. by rewrite Z.add_0_r.
  - apply cstr_cons in Hs as (Hz & Hm & Hs). unfold nonzero_byte in Hz.
    specialize (Hb p b Hm ltac:(lia)). cbn [span_len length].
    destruct (P b) eqn:EP; cbv zeta.
    + erewrite loop_go by done. rewrite IH by (done || lia). cbv zeta.
      replace (p + 1 + Z.of_nat (span_len P s)) with (p + Z.of_nat (S (span_len P s))) by lia.
      repeat destruct (decide _); done || lia.
    + erewrite loop_stop by done. simpl. by rewrite Z.add_0_r.
Qed.

Lemma strspn_spec s d fuel p q m :
  (length s < fuel)%nat -> (length d < fuel)%nat -> cstr m p s -> cstr m q d ->
  strspn fuel p q m = Some (Z.of_nat (span_len (fun b => bool_decide (b ∈ d)) s), m).
Proof.
  intros Hf Hfd Hs Hd. unfold strspn.
  rewrite (scan_loop_spec _ (fun b => bool_decide (b ∈ d)) (fun a => a - p) (fun a => a - p) s);
    try done.
  - cbv zeta. destruct (decide _); do 2 f_equal; lia.
  - intros a Ha. by cload Ha.
  - intros a b Hb Hz. cload Hb. rewrite (proj2 (Z.eqb_neq _ _) Hz).
    rewrite (bind_eq _ _ _ _ _ (in_set_spec d fuel q b m Hfd Hd)). by destruct (bool_decide _).
Qed.

Lemma strcspn_spec s d fuel p q m :
  (length s < fuel)%nat -> (length d < fuel)%nat -> cstr m p s -> cstr m q d ->
  strcspn fuel p q m = Some (Z.of_nat (span_len (fun b => negb (bool_decide (b ∈ d))) s), m).
Proof.
  intros Hf Hfd Hs Hd. unfold strcspn.
  rewrite (scan_loop_spec _ (fun b => negb (bool_decide (b ∈ d))) (fun a => a - p) (fun a => a - p) s);
    try done.
  - cbv zeta. destruct (decide _); do 2 f_equal; lia.
  - intros a Ha. by cload Ha.
  - intros a b Hb Hz. cload Hb. rewrite (proj2 (Z.eqb_neq _ _) Hz).
    rewrite (bind_eq _ _ _ _ _ (in_set_spec d fuel q b m Hfd Hd)). by destruct (bool_decide _).
Qed.

Lemma strpbrk_spec s d fuel p q m :
  (length s < fuel)%nat -> (length d < fuel)%nat -> cstr m p s -> cstr m q d ->
  strpbrk fuel p q m =
  Some (let k := span_len (fun b => negb (bool_decide (b ∈ d))) s in
        if decide (k = length s) then NULL else p + Z.of_nat k, m).
Proof.
  intros Hf Hfd Hs Hd. unfold strpbrk.
  rewrite (scan_loop_spec _ (fun b => negb (bool_decide (b ∈ d))) (fun _ => NULL) (fun a => a) s);
    try done.
  - intros a Ha. by cload Ha.
  - intros a b Hb Hz. cload Hb. rewrite (proj2 (Z.eqb_neq _ _) Hz).
    rewrite (bind_eq _ _ _ _ _ (in_set_spec d fuel q b m Hfd Hd)). by destruct (bool_decide _).
Qed.

(** *** strlcpy, strlcat *)

Lemma lcpy_copy_step n b f dst src m :
  nonzero_byte b -> m !! src = Some b -> is_Some (m !! dst) ->
  lcpy_copy (S f) dst src (Z.of_nat (S (S n))) m =
  lcpy_copy f (dst + 1) (src + 1) (Z.of_nat (S n)) (put_bytes m dst [b]).
Proof.
  intros Hz Hb Hm. unfold nonzero_byte in Hz. unfold lcpy_copy. erewrite loop_go; [reflexivity|].
  ctest. cload Hb. rewrite (bind_eq _ _ _ _ _ (store8_put m dst b ltac:(unfold is_byte; lia) Hm)).
  ctest. unfold ret. do 4 f_equal. lia.
Qed.

(** Copying stops before the last byte of the buffer or after the terminator. *)
Lemma lcpy_copy_spec n s fuel dst src m :
  (n < fuel)%nat -> cstr m src s -> mapped m dst (Z.of_nat n + 1) ->
  up_safe dst src (Z.of_nat (length s) + 1) ->
  if decide (length s < n)%nat then
    exists k, k <> 0 /\
    lcpy_copy fuel dst src (Z.of_nat (S n)) m =
    Some ((dst + Z.of_nat (length s) + 1, src + Z.of_nat (length s) + 1, k),
          put_bytes m dst (s ++ [0]))
  else
    lcpy_copy fuel dst src (Z.of_nat (S n)) m =
    Some ((dst + Z.of_nat n, src + Z.of_nat n, 0), put_bytes m dst (take n s)).
Proof.
  revert s fuel dst src m.
  induction n as [|n IH]; intros s [|f] dst src m Hf Hs Hm Hu; try lia.
  - rewrite decide_False by lia. unfold lcpy_copy. erewrite loop_stop; [|ctest; reflexivity].
    rewrite take_0. simpl. by rewrite !Z.add_0_r.
  - destruct s as [|b s].
    + apply cstr_nil in Hs. rewrite decide_True by (simpl; lia). exists (Z.of_nat (S n)). split; [lia|].
      unfold lcpy_copy. erewrite loop_stop.
      2: { ctest. cload Hs.
           rewrite (bind_eq _ _ _ _ _ (store8_put m dst 0 ltac:(done) ltac:(apply Hm; simpl; lia))).
           reflexivity. }
      replace (Z.of_nat (S (S n)) - 1) with (Z.of_nat (S n)) by lia.
      change (Z.of_nat (length [])) with 0. by rewrite !Z.add_0_r.
    + pose proof (cstr_put_up m dst src [b] s Hu Hs) as Hs'.
      apply cstr_cons in Hs as (Hz & Hb & Hs).
      rewrite !(lcpy_copy_step n b) by (done || (apply Hm; lia)).
      assert (mapped (put_bytes m dst [b]) (dst + 1) (Z.of_nat n + 1)) as Hm'.
      { apply put_bytes_mapped. eapply mapped_weaken; [done|simpl; lia..]. }
      assert (up_safe (dst + 1) (src + 1) (Z.of_nat (length s) + 1)) as Hu'.
      { unfold up_safe in *. simpl in Hu. lia. }
      specialize (IH s f (dst + 1) (src + 1) (put_bytes m dst [b]) ltac:(lia) Hs' Hm' Hu').
      cbn [length take app put_bytes] in *.
      repeat destruct (decide _); try lia.
      * destruct IH as (k & Hk & E). exists k. split; [done|]. rewrite E. do 3 f_equal. f_equal; lia.
      * rewrite IH. do 3 f_equal. f_equal; lia.
Qed.

Lemma strlcpy_spec s fuel dst src (n : nat) m :
  (n < fuel)%nat -> (length s < fuel)%nat -> cstr m src s -> mapped m dst (Z.of_nat n) ->
  disjoint_blk dst (Z.of_nat n) src (Z.of_nat (length s) + 1) ->
  strlcpy fuel dst src (Z.of_nat n) m =
  Some (Z.of_nat (length s),
        if decide (n = 0)%nat then m else put_bytes m dst (take (n - 1) s ++ [0])).
Proof.
  intros Hf Hfs Hs Hm Hd. unfold strlcpy.
  assert (up_safe dst src (Z.of_nat (length s) + 1)) as Hu.
  { unfold disjoint_blk, up_safe in *. lia. }
  destruct n as [|n].
  { unfold bind, ret. change (negb (Z.of_nat 0 =? 0)) with false. cbv beta iota. change (Z.of_nat 0 =? 0) with true. cbv beta iota. rewrite (skip_past_nul_spec s) by done. do 2 f_equal. lia. }
  rewrite (proj2 (Z.eqb_neq (Z.of_nat (S n)) 0)) by lia. rewrite decide_False by lia.
  pose proof (lcpy_copy_spec n s fuel dst src m ltac:(lia) Hs
                ltac:(eapply mapped_weaken; [done|lia..]) Hu) as Hc.
  replace (S n - 1)%nat with n by lia. cbn [negb].
  destruct (decide _) as [Hlt|Hge].
  - destruct Hc as (k & Hk & E). rewrite (bind_eq _ _ _ _ _ E). cbv beta iota.
    rewrite (proj2 (Z.eqb_neq _ _) Hk), bind_ret, take_ge by lia. unfold ret. do 2 f_equal. lia.
  - rewrite (bind_eq _ _ _ _ _ Hc). cbv beta iota. rewrite Z.eqb_refl.
    destruct (list_split n s) as (s1 & s2 & -> & H1 & H2); [lia|].
    rewrite take_app_length' by done. rewrite length_app in *. unfold bind at 1.
    rewrite (bind_eq _ _ _ _ _ (store8_put (put_bytes m dst s1) (dst + Z.of_nat n) 0 ltac:(done)
               ltac:(apply put_bytes_is_Some, Hm; lia))).
    apply cstr_app in Hs as (_ & _ & Hs).
    assert (cstr (put_bytes m dst (s1 ++ [0])) (src + Z.of_nat n) s2) as Hs'.
    { rewrite H1 in Hs. destruct Hs as [Hz Hs]. split; [done|].
      apply bytes_at_put_disjoint; [|done]. unfold disjoint_blk, up_safe in *.
      rewrite !length_app. simpl. lia. }
    rewrite put_bytes_app, H1 in Hs' |- *.
    rewrite (skip_past_nul_spec s2) by (done || lia). unfold ret. do 2 f_equal. lia.
Qed.

(** [strlcat] skips what does not fit. *)
Lemma lcat_copy_spec s fuel dst src (n : nat) m :
  (length s < fuel)%nat -> cstr m src s -> mapped m dst (Z.of_nat n) ->
  disjoint_blk dst (Z.of_nat n) src (Z.of_nat (length s) + 1) ->
  lcat_copy fuel dst src (Z.of_nat n) m =
  Some ((dst + Z.of_nat (length (take n s)), src + Z.of_nat (length s)), put_bytes m dst (take n s)).
Proof.
  unfold lcat_copy. revert n fuel dst src m.
  induction s as [|b s IH]; intros n [|f] dst src m Hf Hs Hm Hd; simpl in Hf; try lia.
  - apply cstr_nil in Hs. erewrite loop_stop; [|cload Hs; reflexivity].
    rewrite take_nil. simpl. by rewrite !Z.add_0_r.
  - unfold disjoint_blk in Hd. pose proof Hs as Hs0. apply cstr_cons in Hs as (Hz & Hb & Hs).
    unfold nonzero_byte in Hz. destruct n as [|n].
    + erewrite loop_go; [|cload Hb; ctest; reflexivity].
      rewrite (IH 0%nat) by first [done | lia | unfold disjoint_blk; cbn [length] in *; lia].
      rewrite !take_0. simpl. do 3 f_equal. lia.
    + erewrite loop_go.
      2: { cload Hb. ctest.
           rewrite (bind_eq _ _ _ _ _ (store8_put m dst b ltac:(unfold is_byte; lia) ltac:(apply Hm; simpl; lia))).
           reflexivity. }
      replace (Z.of_nat (S n) - 1) with (Z.of_nat n) by lia. cbn [length] in *.
      rewrite (IH n); [|lia| | |unfold disjoint_blk; lia].
      * cbn [take length put_bytes]. f_equal. f_equal. f_equal; lia.
      * destruct Hs as [Hz' Hs]. split; [done|]. apply bytes_at_put_disjoint; [|done].
        unfold disjoint_blk. rewrite length_app. simpl. lia.
      * apply put_bytes_mapped. eapply mapped_weaken; [done|lia..].
Qed.

Section strlcat_proof.
Context `{Arch}.

Lemma strlcat_spec s1 s2 fuel dst src (n : nat) m :
  (n < fuel)%nat -> (length s2 < fuel)%nat -> mem_ok m ->
  strn_src m dst n s1 -> cstr m src s2 -> word_tail_mapped m (src + Z.of_nat (length s2)) ->
  mapped m dst (Z.of_nat n) -> disjoint_blk dst (Z.of_nat n) src (Z.of_nat (length s2) + 1) ->
  strlcat fuel dst src (Z.of_nat n) m =
  Some (Z.of_nat (length s1 + length s2),
        if decide (length s1 = n) then m
        else put_bytes m (dst + Z.of_nat (length s1)) (take (n - length s1 - 1) s2 ++ [0])).
Proof.
  intros Hf Hf2 Hok H1 H2 Ht Hm Hd. unfold strlcat.
  rewrite (bind_eq _ _ _ _ _ (nul_up_n_spec n s1 fuel dst m Hf H1)).
  replace (dst + Z.of_nat (length s1) - dst) with (Z.of_nat (length s1)) by lia.
  destruct H1 as (_ & Hn & _). destruct (decide (length s1 = n)) as [<-|Hne].
  - cbv zeta. rewrite Z.sub_diag, Z.eqb_refl. erewrite bind_eq by by apply (strlen_spec s2). unfold ret. do 2 f_equal. lia.
  - rewrite (proj2 (Z.eqb_neq _ _)) by lia.
    replace (Z.of_nat n - Z.of_nat (length s1) - 1) with (Z.of_nat (n - length s1 - 1)) by lia.
    unfold disjoint_blk in Hd. erewrite bind_eq.
    2: { apply (lcat_copy_spec s2); [done|done| |unfold disjoint_blk; lia].
         eapply mapped_weaken; [done|lia..]. }
    cbv beta iota. erewrite bind_eq.
    2: { apply store8_put; [done|]. apply put_bytes_is_Some, Hm. rewrite length_take. lia. }
    rewrite put_bytes_app. unfold ret. do 2 f_equal. lia.
Qed.
End strlcat_proof.

(** *** Tokens

    A string at a call of [strtok_r] is [d ++ t ++ rest]: leading delimiters
    [d], a token [t] without delimiters and what follows, which is empty or
    starts with a delimiter. *)
Definition token_split (delim d t rest : list Z) : Prop :=
  Forall (fun b => b ∈ delim) d /\ Forall (fun b => b ∉ delim) t /\
  match rest with [] => True | c :: _ => c ∈ delim end.

Lemma in_set_nul_spec d fuel q c m :
  (length d < fuel)%nat -> cstr m q d ->
  in_set_nul fuel q c m = Some (bool_decide (c = 0 \/ c ∈ d), m).
Proof.
  unfold in_set_nul. revert fuel q. induction d as [|b d IH]; intros [|f] q Hf Hd; simpl in Hf; try lia.
  - apply cstr_nil in Hd. erewrite loop_stop.
    2: { cload Hd. instantiate (1 := m). instantiate (1 := 0 =? c).
         by destruct (0 =? c). }
    do 2 f_equal. destruct (Z.eqb_spec 0 c); symmetry;
      [apply bool_decide_true; by left|apply bool_decide_false; set_solver].
  - apply cstr_cons in Hd as (Hz & Hb & Hd). unfold nonzero_byte in Hz.
    destruct (Z.eqb_spec b c) as [->|Hne].
    + erewrite loop_stop; [|cload Hb; rewrite Z.eqb_refl; reflexivity].
      rewrite bool_decide_true by set_solver. done.
    + erewrite loop_go; [|cload Hb; ctest; reflexivity]. rewrite IH by (done || lia).
      do 2 f_equal. apply bool_decide_ext. set_solver.
Qed.

Section strtok_proofs.
Context (fuel : nat) (m : mem) (q : Z) (delim : list Z).
Hypothesis Hfuel : (length delim < fuel)%nat.
Hypothesis Hdelim : cstr m q delim.

(** All the leading delimiters are passed, then one more byte is read. *)
Lemma strtok_head_loop d c f p :
  (length d < f)%nat -> Forall (fun b => b ∈ delim) d -> bytes_at m p (d ++ [c]) -> c ∉ delim ->
  loop (strtok_head_step fuel q true) f p m =
  Some ((p + Z.of_nat (length d) + 1, c, false), m).
Proof.
  intros Hf Hd Hp Hc. revert f p Hf Hp.
  induction Hd as [|b d Hb Hd IH]; intros [|f] p Hf Hp; simpl in Hf; try lia;
    apply bytes_at_cons in Hp as [Hm Hp].
  - erewrite loop_stop.
    2: { unfold strtok_head_step. cload Hm. erewrite bind_eq by by apply (in_set_spec delim).
         rewrite bool_decide_false by done. reflexivity. }
    simpl. by rewrite Z.add_0_r.
  - erewrite loop_go.
    2: { unfold strtok_head_step. cload Hm. erewrite bind_eq by by apply (in_set_spec delim).
         rewrite bool_decide_true by done. reflexivity. }
    rewrite IH by (done || lia). cbn [length]. do 4 f_equal. lia.
Qed.

(** The bytes of a token are passed. *)
Lemma strtok_scan_skip tok t f p c :
  (length t < f)%nat -> Forall nonzero_byte t -> Forall (fun b => b ∉ delim) t ->
  bytes_at m p (t ++ [c]) ->
  exists f', (f' <= f)%nat /\
    loop (strtok_scan_step fuel tok q) f p m =
    loop (strtok_scan_step fuel tok q) (S f') (p + Z.of_nat (length t)) m.
Proof.
  intros Hf Hz Hd. revert f p Hf. induction t as [|b t IH]; intros [|f] p Hf Hp; simpl in Hf; try lia.
  - exists f. split; [lia|]. simpl. by rewrite Z.add_0_r.
  - apply bytes_at_cons in Hp as [Hm Hp]. inversion_clear Hz as [|? ? Hb Hz'].
    unfold nonzero_byte in Hb. inversion_clear Hd.
    destruct (IH ltac:(done) ltac:(done) f (p + 1)) as (f' & Hf' & E); [lia|done|].
    exists f'. split; [lia|].
    erewrite loop_go.
    2: { unfold strtok_scan_step. cload Hm. erewrite bind_eq by by apply (in_set_nul_spec delim).
         rewrite bool_decide_false by (intros [?|?]; [lia|done]). reflexivity. }
    rewrite E. f_equal. simpl. lia.
Qed.

Lemma strtok_scan_spec tok t rest p :
  (length t < fuel)%nat -> Forall (fun b => b ∉ delim) t ->
  match rest with [] => True | c :: _ => c ∈ delim end ->
  cstr m p (t ++ rest) ->
  let e := p + Z.of_nat (length t) in
  strtok_scan fuel tok p q m =
  Some (match rest with [] => (tok, NULL) | _ => (tok, e + 1) end,
        match rest with [] => m | _ => put_bytes m e [0] end).
Proof.
  intros Hf Ht Hr Hp e. unfold strtok_scan.
  pose proof (cstr_nul _ _ _ Hp) as Hnul. apply cstr_app in Hp as (Hz & Hpt & Hp).
  set (c := match rest with [] => 0 | c :: _ => c end).
  assert (m !! e = Some c) as Hc.
  { subst c. destruct rest as [|c rest]; [by apply cstr_nil in Hp|by apply cstr_cons in Hp as (_ & ? & _)]. }
  destruct (strtok_scan_skip tok t fuel p c) as (f' & _ & E); try done.
  { apply bytes_at_app. split; [done|]. apply bytes_at_cons. split; [done|apply bytes_at_nil]. }
  rewrite E. fold e. apply loop_stop. unfold strtok_scan_step. cload Hc.
  erewrite bind_eq by by apply (in_set_nul_spec delim).
  rewrite bool_decide_true by (subst c; destruct rest; [by left|by right]).
  subst c. destruct rest as [|c rest]; [done|].
  apply cstr_cons in Hp as (Hzc & _). unfold nonzero_byte in Hzc.
  rewrite (proj2 (Z.eqb_neq c 0)) by lia. replace (e + 1 - 1) with e by lia.
  by rewrite (bind_eq _ _ _ _ _ (store8_put m e 0 ltac:(done) ltac:(by eexists))).
Qed.

(** [strtok_r] on a string (given or saved): the leading delimiters are
    skipped, the token is terminated in place and the position after its
    delimiter is saved, [NULL] when the string is used up. *)
Lemma strtok_r_spec s lasts d t rest :
  let p := if s =? NULL then lasts else s in
  let tok := p + Z.of_nat (length d) in
  let e := tok + Z.of_nat (length t) in
  (length (d ++ t ++ rest) < fuel)%nat -> p <> NULL ->
  token_split delim d t rest -> (t = [] -> rest = []) -> cstr m p (d ++ t ++ rest) ->
  strtok_r fuel s q lasts m =
  Some (match t, rest with
        | [], _ => (NULL, NULL)
        | _, [] => (tok, NULL)
        | _, _ => (tok, e + 1)
        end,
        match rest with [] => m | _ => put_bytes m e [0] end).
Proof.
  intros p tok e Hf Hp (Hd & Ht & Hr) Htr Hs. unfold strtok_r, __strtok_r.
  replace ((s =? NULL) && (lasts =? NULL)) with false.
  2: { symmetry. apply andb_false_iff. subst p. destruct (s =? NULL) eqn:E; [right|by left].
       by apply Z.eqb_neq. }
  fold p. rewrite !length_app in Hf. apply cstr_app in Hs as (Hzd & Hpd & Hs). unfold strtok_head.
  destruct t as [|c t].
  - rewrite Htr by done. rewrite Htr in Hs by done. apply cstr_nil in Hs.
    erewrite bind_eq by (apply (strtok_head_loop d 0); try done; [lia| |by apply nonzero_not_nul, Hdelim];
      apply bytes_at_app; split; [done|]; apply bytes_at_cons; split; [done|apply bytes_at_nil]).
    done.
  - inversion_clear Ht as [|? ? Hct Ht']. cbn [app] in Hs.
    apply cstr_cons in Hs as (Hzc & Hc & Hs). unfold nonzero_byte in Hzc.
    erewrite bind_eq by (apply (strtok_head_loop d c); try done; [lia|];
      apply bytes_at_app; split; [done|]; apply bytes_at_cons; split; [done|apply bytes_at_nil]).
    cbv beta iota. rewrite (proj2 (Z.eqb_neq c 0)) by lia. fold tok. cbn [length] in *.
    replace (tok + 1 - 1) with tok by lia. fold tok in Hs.
    rewrite (strtok_scan_spec tok t rest (tok + 1)); try done; [|lia].
    subst e. cbn [length]. replace (tok + Z.of_nat (S (length t))) with (tok + 1 + Z.of_nat (length t)) by lia.
    by destruct rest.
Qed.

(** [strsep] at a string: an empty token is returned for a leading delimiter;
    at an empty string there is no token at all. *)
Lemma strsep_spec p t rest :
  let e := p + Z.of_nat (length t) in
  (length (t ++ rest) < fuel)%nat -> p <> NULL ->
  token_split delim [] t rest -> cstr m p (t ++ rest) ->
  strsep fuel p q m =
  Some (match t, rest with
        | [], [] => (NULL, NULL)
        | _, [] => (p, NULL)
        | _, _ => (p, e + 1)
        end,
        match rest with [] => m | _ => put_bytes m e [0] end).
Proof.
  intros e Hf Hp (_ & Ht & Hr) Hs. unfold strsep, __strtok_r, strtok_head.
  rewrite (proj2 (Z.eqb_neq p NULL)) by done. cbn [andb]. rewrite length_app in Hf.
  destruct t as [|c t]; [destruct rest as [|c rest]|].
  - apply cstr_nil in Hs. destruct fuel as [|f]; [lia|]. erewrite bind_eq.
    2: { apply loop_stop. unfold strtok_head_step. cload Hs.
         erewrite bind_eq by by apply (in_set_spec delim).
         rewrite bool_decide_false by (apply nonzero_not_nul, Hdelim). reflexivity. }
    done.
  - apply cstr_cons in Hs as (Hzc & Hc & Hs). destruct fuel as [|f] eqn:Ef; [lia|].
    erewrite bind_eq.
    2: { apply loop_stop. unfold strtok_head_step. cload Hc.
         erewrite bind_eq by by apply (in_set_spec delim).
         rewrite bool_decide_true by done. reflexivity. }
    cbv beta iota. subst e. simpl. rewrite Z.add_0_r. replace (p + 1 - 1) with p by lia.
    by rewrite (bind_eq _ _ _ _ _ (store8_put m p 0 ltac:(done) ltac:(by eexists))).
  - inversion_clear Ht as [|? ? Hct Ht']. cbn [app length] in *.
    apply cstr_cons in Hs as (Hzc & Hc & Hs). unfold nonzero_byte in Hzc.
    assert (forall f, (0 < f)%nat ->
      loop (strtok_head_step fuel q false) f p m = Some ((p + 1, c, false), m)) as Eh.
    { intros [|f] ?; [lia|]. apply loop_stop. unfold strtok_head_step. cload Hc.
      erewrite bind_eq by by apply (in_set_spec delim). by rewrite bool_decide_false. }
    rewrite (bind_eq _ _ _ _ _ (Eh fuel ltac:(lia))). cbv beta iota.
    rewrite (proj2 (Z.eqb_neq c 0)) by lia. replace (p + 1 - 1) with p by lia.
    rewrite (strtok_scan_spec p t rest (p + 1)); try done; [|lia].
    subst e. replace (p + Z.of_nat (S (length t))) with (p + 1 + Z.of_nat (length t)) by lia.
    by destruct rest.
Qed.
End strtok_proofs.
