(* ===== verification/Demo.v ===== *)
(** * Concrete memories

    Boolean versions of the predicates on memory, and the small memories on
    which the theorems are evaluated. *)

From S2P Require Import Prelude CMem StrLocal StrMem StrStr.
From stdpp Require Import base list gmap.
From Stdlib Require Import ZArith Lia.

Local Open Scope Z_scope.

(** ** Checks *)

Definition bytes_atb (m : mem) (p : Z) (l : list Z) : bool :=
  forallb (fun i => bool_decide (m !! (p + Z.of_nat i) = l !! i)) (seq 0 (length l)).

Lemma bytes_at_check m p l : bytes_atb m p l = true -> bytes_at m p l.
Proof.
  unfold bytes_atb. rewrite forallb_forall. intros Hb i Hi.
  specialize (Hb i). rewrite in_seq in Hb. specialize (Hb ltac:(lia)). by apply bool_decide_eq_true_1 in Hb.
Qed.

Definition mappedb (m : mem) (p n : Z) : bool :=
  forallb (fun i => bool_decide (is_Some (m !! (p + Z.of_nat i)))) (seq 0 (Z.to_nat n)).

Lemma mapped_check m p n : mappedb m p n = true -> mapped m p n.
Proof.
  unfold mappedb. rewrite forallb_forall. intros Hb a Ha.
  specialize (Hb (Z.to_nat (a - p))). rewrite in_seq in Hb.
  replace (p + Z.of_nat (Z.to_nat (a - p))) with a in Hb by lia. specialize (Hb ltac:(lia)). by apply bool_decide_eq_true_1 in Hb.
Qed.

Definition mem_okb (m : mem) : bool := bool_decide (map_Forall (fun _ b => is_byte b) m).

Lemma mem_ok_check m : mem_okb m = true -> mem_ok m.
Proof. intros Hb a b. apply (bool_decide_eq_true_1 _ Hb). Qed.

Definition cstrb (m : mem) (p : Z) (s : list Z) : bool :=
  forallb (fun b => (0 <? b) && (b <? 256)) s && bytes_atb m p (s ++ [0]).

Lemma nonzero_check s : forallb (fun b => (0 <? b) && (b <? 256)) s = true -> Forall nonzero_byte s.
Proof.
  rewrite forallb_forall, Forall_forall. intros Hb b Hin%list_elem_of_In. specialize (Hb b Hin).
  unfold nonzero_byte. bool_to_prop. lia.
Qed.

Lemma cstr_check m p s : cstrb m p s = true -> cstr m p s.
Proof. intros [Hz Hb]%andb_true_iff. split; [by apply nonzero_check|by apply bytes_at_check]. Qed.

Definition strn_srcb (m : mem) (p : Z) (n : nat) (s : list Z) : bool :=
  forallb (fun b => (0 <? b) && (b <? 256)) s && (length s <=? n)%nat && bytes_atb m p (take n (s ++ [0])).

Lemma strn_src_check m p n s : strn_srcb m p n s = true -> strn_src m p n s.
Proof.
  intros [[Hz Hn]%andb_true_iff Hb]%andb_true_iff.
  split_and!; [by apply nonzero_check|by apply Nat.leb_le|by apply bytes_at_check].
Qed.

(** The bytes after [e] of a word of at most eight bytes. *)
Lemma word_tail_check `{Arch} m e : mappedb m (e + 1) 8 = true -> word_tail_mapped m e.
Proof.
  intros Hm%mapped_check a Ha Hd. apply Hm. split; [lia|].
  pose proof long_size_pos. assert (Z.of_nat long_size <= 8) as H8 by (unfold long_size; destruct long64; lia).
  set (W := Z.of_nat long_size) in *.
  pose proof (Z.div_mod a W ltac:(lia)). pose proof (Z.div_mod e W ltac:(lia)).
  pose proof (Z.mod_pos_bound a W ltac:(lia)). pose proof (Z.mod_pos_bound e W ltac:(lia)).
  assert (W * (a / W) = W * (e / W)) by by rewrite Hd. lia.
Qed.

Lemma strn_tail_check `{Arch} m p n s :
  mappedb m (p + Z.of_nat (length s) + 1) 8 = true -> strn_tail m p n s.
Proof. intros Hm _. by apply word_tail_check. Qed.

(** ** The memory of the string examples: a text, a word of it and room *)

Definition hello : list Z := [104; 101; 108; 108; 111; 32; 119; 111; 114; 108; 100].
Definition lo_ : list Z := [108; 111].
Definition text : Z := 65.
Definition word : Z := 98.
Definition room : Z := 131.

Definition demo : mem :=
  put_bytes (put_bytes (put_bytes ∅ 64 (replicate 160 0)) text (hello ++ [0])) word (lo_ ++ [0]).

(** A hypothesis of a theorem about memory, at a concrete memory. *)
Ltac eval_mem :=
  solve
    [ apply bytes_at_check; vm_compute; reflexivity
    | apply mapped_check; vm_compute; reflexivity
    | apply mem_ok_check; vm_compute; reflexivity
    | apply cstr_check; vm_compute; reflexivity
    | apply strn_src_check; vm_compute; reflexivity
    | apply word_tail_check; vm_compute; reflexivity
    | apply strn_tail_check; vm_compute; reflexivity
    | unfold disjoint_blk, up_safe, text, word, room, hello, lo_; simpl; lia ].
