(* ===== verification/StringProps.v ===== *)
(** * The string library: what its functions compute

    The theorems on libc/string.  The functions come in two variants, the plain
    byte loops of a size-optimised build (the [_small] definitions) and the
    word-at-a-time ones; each theorem covers both where the source has both. *)

From S2P Require Import Prelude CMem StrLocal StrMem StrStr Demo.
From stdpp Require Import base list gmap.
From Stdlib Require Import ZArith Lia.

Local Open Scope Z_scope.
#[local] Existing Instance LP64.

(** ** The order of byte strings *)

(** [l1] comes first: the first bytes that differ decide. *)
Definition lex_lt (l1 l2 : list Z) : Prop :=
  exists pre a b r1 r2, l1 = pre ++ a :: r1 /\ l2 = pre ++ b :: r2 /\ a < b.

Lemma lex_lt_cons a l1 b l2 : lex_lt (a :: l1) (b :: l2) <-> a < b \/ a = b /\ lex_lt l1 l2.
Proof.
  split.
  - intros ([|x pre] & c & d & r1 & r2 & E1 & E2 & Hlt); simplify_eq/=; [by left|].
    right. split; [done|]. by exists pre, c, d, r1, r2.
  - intros [Hlt|(-> & pre & c & d & r1 & r2 & -> & -> & Hlt)]; [by exists [], a, b, l1, l2|].
    by exists (b :: pre), c, d, r1, r2.
Qed.

Lemma lex_lt_nil l1 l2 : lex_lt l1 l2 -> l1 <> [] /\ l2 <> [].
Proof. by intros ([|] & ? & ? & ? & ? & -> & -> & _). Qed.

Lemma cmp_bytes_neg l1 l2 : cmp_bytes l1 l2 < 0 <-> lex_lt l1 l2.
Proof.
  revert l2. induction l1 as [|a l1 IH]; intros [|b l2]; simpl;
    try (split; [lia|intros Hl; exfalso; by apply lex_lt_nil in Hl as [? ?]]).
  rewrite lex_lt_cons. case_bool.
  - rewrite IH. split; [by right|]. intros [|[_ ?]]; [lia|done].
  - split; [intros; left; lia|]. intros [|[? _]]; lia.
Qed.

Lemma cmp_bytes_flip l1 l2 : cmp_bytes l2 l1 = - cmp_bytes l1 l2.
Proof.
  revert l2. induction l1 as [|a l1 IH]; intros [|b l2]; try done. simpl.
  rewrite (Z.eqb_sym b a). case_bool; [apply IH|lia].
Qed.

(** [r] tells the order of [l1] and [l2]. *)
Definition orders (r : Z) (l1 l2 : list Z) : Prop :=
  (r < 0 <-> lex_lt l1 l2) /\ (0 < r <-> lex_lt l2 l1) /\ (r = 0 <-> l1 = l2).

Lemma cmp_bytes_orders l1 l2 : (cmp_bytes l1 l2 = 0 <-> l1 = l2) -> orders (cmp_bytes l1 l2) l1 l2.
Proof.
  intros Hz. split_and!; [apply cmp_bytes_neg| |done].
  rewrite <- cmp_bytes_neg, cmp_bytes_flip. lia.
Qed.

Lemma cmp_strn_zero n s1 s2 :
  Forall nonzero_byte s1 -> Forall nonzero_byte s2 -> (length s1 <= n)%nat -> (length s2 <= n)%nat ->
  cmp_strn n s1 s2 = 0 <-> s1 = s2.
Proof.
  intros H1 H2 L1 L2. split; [|intros ->; by apply cmp_bytes_zero].
  unfold cmp_strn. revert n s2 H2 L1 L2.
  induction H1 as [|a s1 Ha H1 IH]; intros [|n] [|b s2] H2 L1 L2; cbn [length app take cmp_bytes] in *; try lia; try done;
    inversion_clear H2 as [|? ? Hb H2']; unfold nonzero_byte in *.
  - case_bool; lia.
  - case_bool; lia.
  - case_bool; [|lia]. intros E. subst b. f_equal. apply (IH n); done || lia.
Qed.

Lemma nonzero_strn m p n s : strn_src m p n s -> Forall nonzero_byte s /\ (length s <= n)%nat.
Proof. intros (? & ? & _). done. Qed.

(** ** Blocks of bytes *)

(** C17: [memcpy] of blocks that do not overlap, in either build, copies the
    [n] bytes of the source to the destination, changes nothing else, and
    returns the destination; so does [mempcpy], which returns its end.  The fast
    version copies by words, shifting and merging words when the two blocks are
    not aligned alike. *)
Theorem memcpy_correct `{Arch} (l : list Z) (fuel : nat) (dst src : Z) (m : mem) :
  (length l < fuel)%nat -> mem_ok m -> bytes_at m src l -> mapped m dst (Z.of_nat (length l)) ->
  disjoint_blk dst (Z.of_nat (length l)) src (Z.of_nat (length l)) ->
  let n := Z.of_nat (length l) in
  memcpy fuel dst src n m = Some (dst, put_bytes m dst l) /\
  memcpy_small fuel dst src n m = Some (dst, put_bytes m dst l) /\
  mempcpy fuel dst src n m = Some (dst + n, put_bytes m dst l).
Proof.
  intros Hf Ho Hs Hd Hdis n.
  assert (up_safe dst src n) by (unfold up_safe, disjoint_blk, n in *; lia).
  split_and!; [by apply memcpy_spec|by apply memcpy_small_spec|by apply mempcpy_spec].
Qed.

Lemma memcpy_witness :
  memcpy 20 room text 11 demo = Some (room, put_bytes demo room hello) /\
  memcpy_small 20 room text 11 demo = Some (room, put_bytes demo room hello) /\
  mempcpy 20 room text 11 demo = Some (room + 11, put_bytes demo room hello).
Proof. apply (memcpy_correct hello 20 room text demo); eval_mem. Defined.

(** C18: [memmove], in either build, copies the [n] bytes the source had before
    the call to the destination, however the two blocks overlap, and changes
    nothing else. *)
Theorem memmove_correct `{Arch} (l : list Z) (fuel : nat) (dst src : Z) (m : mem) :
  (length l < fuel)%nat -> mem_ok m -> bytes_at m src l -> mapped m dst (Z.of_nat (length l)) ->
  let n := Z.of_nat (length l) in
  memmove fuel dst src n m = Some (dst, put_bytes m dst l) /\
  memmove_small fuel dst src n m = Some (dst, put_bytes m dst l).
Proof. intros. split; [by apply memmove_spec|by apply memmove_small_spec]. Qed.

Lemma memmove_witness :
  memmove 20 (text + 3) text 11 demo = Some (text + 3, put_bytes demo (text + 3) hello) /\
  memmove_small 20 (text + 3) text 11 demo = Some (text + 3, put_bytes demo (text + 3) hello).
Proof. apply (memmove_correct hello 20 (text + 3) text demo); eval_mem. Defined.

(** [memset], in either build, writes the low byte of [c] to each of the
    [n] bytes of the block and to no other, and returns the block. *)
Theorem memset_correct `{Arch} (n fuel : nat) (s c : Z) (m : mem) :
  (n < fuel)%nat -> mapped m s (Z.of_nat n) ->
  memset fuel s c (Z.of_nat n) m = Some (s, put_bytes m s (replicate n (uwrap 8 c))) /\
  memset_small fuel s c (Z.of_nat n) m = Some (s, put_bytes m s (replicate n (uwrap 8 c))).
Proof. intros. split; [by apply memset_spec|by apply memset_small_spec]. Qed.

Lemma memset_witness :
  memset 50 room 353 40 demo = Some (room, put_bytes demo room (replicate 40 97)) /\
  memset_small 50 room 353 40 demo = Some (room, put_bytes demo room (replicate 40 97)).
Proof. apply (memset_correct 40 50 room 353 demo); eval_mem. Defined.

(** [memcmp], in either build, returns the same integer, whose sign tells
    the lexicographic order of the two blocks of unsigned bytes; it is zero only
    for equal blocks. *)
Theorem memcmp_correct `{Arch} (l1 l2 : list Z) (fuel : nat) (p1 p2 : Z) (m : mem) :
  length l1 = length l2 -> (length l1 < fuel)%nat -> mem_ok m -> bytes_at m p1 l1 -> bytes_at m p2 l2 ->
  exists r, memcmp fuel p1 p2 (Z.of_nat (length l1)) m = Some (r, m) /\
    memcmp_small fuel p1 p2 (Z.of_nat (length l1)) m = Some (r, m) /\ orders r l1 l2.
Proof.
  intros. exists (cmp_bytes l1 l2).
  split_and!; [by apply memcmp_spec|by apply memcmp_small_spec|by apply cmp_bytes_orders, cmp_bytes_zero].
Qed.

Lemma memcmp_witness :
  exists r, memcmp 20 (text + 3) word 2 demo = Some (r, demo) /\
    memcmp_small 20 (text + 3) word 2 demo = Some (r, demo) /\ orders r [108; 111] [108; 111].
Proof. apply (memcmp_correct [108; 111] [108; 111] 20 (text + 3) word demo); eval_mem || done. Defined.

(** [memchr], in either build, returns the address of the first byte of the
    block equal to the low byte of [c], and [NULL] when there is none; [memrchr]
    returns the address of the last one. *)
Theorem memchr_correct `{Arch} (l : list Z) (fuel : nat) (p c : Z) (m : mem) :
  (length l < fuel)%nat -> mem_ok m -> bytes_at m p l ->
  let n := Z.of_nat (length l) in
  memchr fuel p c n m = Some (ptr_at p (first_index (uwrap 8 c) l), m) /\
  memchr_small fuel p c n m = Some (ptr_at p (first_index (uwrap 8 c) l), m) /\
  memrchr fuel p c n m = Some (last_ptr p (uwrap 8 c) l, m).
Proof. intros. split_and!; [by apply memchr_spec|by apply memchr_small_spec|by apply memrchr_spec]. Qed.

Lemma memchr_witness :
  memchr 20 text 108 11 demo = Some (text + 2, demo) /\
  memchr_small 20 text 108 11 demo = Some (text + 2, demo) /\
  memrchr 20 text 108 11 demo = Some (text + 9, demo).
Proof. apply (memchr_correct hello 20 text 108 demo); eval_mem. Defined.

(** ** Strings *)

(** [strlen], in either build, returns the number of bytes before the
    terminator; the fast version, which reads whole aligned words, needs no more
    than the word of the terminator to be readable. *)
Theorem strlen_correct `{Arch} (s : list Z) (fuel : nat) (p : Z) (m : mem) :
  (length s < fuel)%nat -> mem_ok m -> cstr m p s -> word_tail_mapped m (p + Z.of_nat (length s)) ->
  strlen fuel p m = Some (Z.of_nat (length s), m) /\
  strlen_small fuel p m = Some (Z.of_nat (length s), m).
Proof. intros. split; [by apply strlen_spec|by apply strlen_small_spec]. Qed.

Lemma strlen_witness : strlen 20 text demo = Some (11, demo) /\ strlen_small 20 text demo = Some (11, demo).
Proof. apply (strlen_correct hello 20 text demo); eval_mem. Defined.

(** [strcpy], in either build, writes the string with its terminator at the
    destination and nothing else, and returns the destination; [stpcpy] returns
    the address of the terminator it wrote. *)
Theorem strcpy_correct `{Arch} (s : list Z) (fuel : nat) (dst src : Z) (m : mem) :
  (length s < fuel)%nat -> mem_ok m -> cstr m src s -> word_tail_mapped m (src + Z.of_nat (length s)) ->
  mapped m dst (Z.of_nat (length s) + 1) -> up_safe dst src (Z.of_nat (length s) + 1) ->
  strcpy fuel dst src m = Some (dst, put_bytes m dst (s ++ [0])) /\
  strcpy_small fuel dst src m = Some (dst, put_bytes m dst (s ++ [0])) /\
  stpcpy fuel dst src m = Some (dst + Z.of_nat (length s), put_bytes m dst (s ++ [0])).
Proof. intros. split_and!; [by apply strcpy_spec|by apply strcpy_small_spec|by apply stpcpy_spec]. Qed.

Lemma strcpy_witness :
  strcpy 20 room text demo = Some (room, put_bytes demo room (hello ++ [0])) /\
  strcpy_small 20 room text demo = Some (room, put_bytes demo room (hello ++ [0])) /\
  stpcpy 20 room text demo = Some (room + 11, put_bytes demo room (hello ++ [0])).
Proof. apply (strcpy_correct hello 20 room text demo); eval_mem. Defined.

(** [strncpy], in either build, writes exactly [n] bytes: the string, cut at
    [n], and zeros up to [n]; [stpncpy] writes the same and returns the address
    of the first zero it wrote, or the end of the block.  The source needs no
    terminator within [n] bytes. *)
Theorem strncpy_correct `{Arch} (n : nat) (s : list Z) (fuel : nat) (dst src : Z) (m : mem) :
  (n < fuel)%nat -> mem_ok m -> strn_src m src n s -> strn_tail m src n s -> 0 < dst ->
  mapped m dst (Z.of_nat n) -> up_safe dst src (Z.of_nat (length s) + 1) ->
  strncpy fuel dst src (Z.of_nat n) m = Some (dst, put_bytes m dst (padded n s)) /\
  strncpy_small fuel dst src (Z.of_nat n) m = Some (dst, put_bytes m dst (padded n s)) /\
  stpncpy fuel dst src (Z.of_nat n) m = Some (dst + Z.of_nat (length s), put_bytes m dst (padded n s)) /\
  length (padded n s) = n.
Proof.
  intros Hf Ho Hs Ht Hd Hm Hu. split_and!; [by apply strncpy_spec|by apply strncpy_small_spec|by apply stpncpy_spec|].
  apply nonzero_strn in Hs as [_ Hs]. unfold padded. rewrite length_app, length_replicate. lia.
Qed.

Lemma strncpy_witness :
  strncpy 20 room text 5 demo = Some (room, put_bytes demo room (take 5 hello)) /\
  strncpy_small 20 room text 5 demo = Some (room, put_bytes demo room (take 5 hello)) /\
  stpncpy 20 room text 5 demo = Some (room + 5, put_bytes demo room (take 5 hello)) /\
  length (take 5 hello) = 5%nat.
Proof. apply (strncpy_correct 5 (take 5 hello) 20 room text demo); eval_mem || done. Defined.

(** [strncat], in either build, appends the first string of at most [n]
    bytes and a terminator to the string at the destination, which keeps its
    bytes and is returned; [strcat] appends a whole string. *)
Theorem strncat_correct `{Arch} (n : nat) (s1 s2 : list Z) (fuel : nat) (p1 p2 : Z) (m : mem) :
  let e := p1 + Z.of_nat (length s1) in
  (length s1 < fuel)%nat -> (n < fuel)%nat -> mem_ok m -> cstr m p1 s1 -> strn_src m p2 n s2 ->
  word_tail_mapped m e -> mapped m e (Z.of_nat (length s2) + 1) ->
  up_safe e p2 (Z.of_nat (length s2) + 1) ->
  let m' := put_bytes m e (s2 ++ [0]) in
  strncat fuel p1 p2 (Z.of_nat n) m = Some (p1, m') /\
  strncat_small fuel p1 p2 (Z.of_nat n) m = Some (p1, m') /\
  bytes_at m' p1 (s1 ++ s2 ++ [0]) /\
  (cstr m p2 s2 -> (length s2 < fuel)%nat -> word_tail_mapped m (p2 + Z.of_nat (length s2)) ->
   strcat fuel p1 p2 m = Some (p1, m') /\ strcat_small fuel p1 p2 m = Some (p1, m')).
Proof.
  intros e Hf1 Hfn Ho H1 H2 Ht Hm Hu m'. split_and!.
  - by apply strncat_spec.
  - by apply strncat_small_spec.
  - apply bytes_at_app. split; [|apply put_bytes_at]. apply bytes_at_put_disjoint; [right; unfold e; lia|].
    destruct H1 as [_ H1]. by apply bytes_at_app in H1 as [H1 _].
  - intros. split; [by apply strcat_spec|by apply strcat_small_spec].
Qed.

Lemma strncat_witness :
  let m' := put_bytes demo (word + 2) (hello ++ [0]) in
  strncat 30 word text 20 demo = Some (word, m') /\
  strncat_small 30 word text 20 demo = Some (word, m') /\
  bytes_at m' word (lo_ ++ hello ++ [0]) /\
  (cstr demo text hello -> (length hello < 30)%nat -> word_tail_mapped demo (text + 11) ->
   strcat 30 word text demo = Some (word, m') /\ strcat_small 30 word text demo = Some (word, m')).
Proof. apply (strncat_correct 20 lo_ hello 30 word text demo); eval_mem. Defined.

(** [strlcpy] writes at most [n] bytes, the terminator included (nothing when
    [n] is zero): as much of the string as fits; it returns the length of the
    whole source, so that a result of at least [n] tells truncation. *)
Theorem strlcpy_correct (s : list Z) (fuel : nat) (dst src : Z) (n : nat) (m : mem) :
  (n < fuel)%nat -> (length s < fuel)%nat -> cstr m src s -> mapped m dst (Z.of_nat n) ->
  disjoint_blk dst (Z.of_nat n) src (Z.of_nat (length s) + 1) ->
  exists m', strlcpy fuel dst src (Z.of_nat n) m = Some (Z.of_nat (length s), m') /\
    (forall a, ~ dst <= a < dst + Z.of_nat n -> m' !! a = m !! a) /\
    ((0 < n)%nat -> cstr m' dst (take (n - 1) s)).
Proof.
  intros Hf Hfs Hs Hm Hd. eexists. split; [by apply strlcpy_spec|]. destruct (decide (n = 0%nat)) as [->|Hn].
  { split; [done|lia]. }
  split.
  - intros a Ha. rewrite lookup_put_bytes, decide_False; [done|].
    rewrite length_app, length_take. simpl. lia.
  - intros _. split; [apply Forall_take, Hs|apply put_bytes_at].
Qed.

Lemma strlcpy_witness :
  exists m', strlcpy 20 room text 6 demo = Some (11, m') /\
    (forall a, ~ room <= a < room + 6 -> m' !! a = demo !! a) /\
    ((0 < 6)%nat -> cstr m' room (take 5 hello)).
Proof. apply (strlcpy_correct hello 20 room text 6 demo); eval_mem. Defined.

(** [strlcat] appends as much of the source as the [n] bytes of the
    destination hold and terminates it; a destination with no terminator in its
    [n] bytes is left alone.  The result is the length it tried to make. *)
Theorem strlcat_correct `{Arch} (s1 s2 : list Z) (fuel : nat) (dst src : Z) (n : nat) (m : mem) :
  (n < fuel)%nat -> (length s2 < fuel)%nat -> mem_ok m -> strn_src m dst n s1 -> cstr m src s2 ->
  word_tail_mapped m (src + Z.of_nat (length s2)) -> mapped m dst (Z.of_nat n) ->
  disjoint_blk dst (Z.of_nat n) src (Z.of_nat (length s2) + 1) ->
  exists m', strlcat fuel dst src (Z.of_nat n) m = Some (Z.of_nat (length s1 + length s2), m') /\
    (forall a, ~ dst <= a < dst + Z.of_nat n -> m' !! a = m !! a) /\
    (if decide (length s1 = n) then m' = m else cstr m' dst (take (n - 1) (s1 ++ s2))).
Proof.
  intros Hf Hf2 Ho H1 H2 Ht Hm Hd. eexists. split; [by apply strlcat_spec|].
  pose proof H1 as (Hz1 & Hl1 & Hb1). destruct (decide (length s1 = n)) as [_|Hn]; [done|]. split.
  - intros a Ha. rewrite lookup_put_bytes, decide_False; [done|].
    rewrite length_app, length_take. simpl. lia.
  - rewrite take_app_ge by lia. replace (n - 1 - length s1)%nat with (n - length s1 - 1)%nat by lia.
    split; [apply Forall_app; split; [done|apply Forall_take, H2]|].
    rewrite <- app_assoc. apply bytes_at_app. split; [|apply put_bytes_at].
    apply bytes_at_put_disjoint; [right; lia|].
    rewrite take_app_ge in Hb1 by lia. by apply bytes_at_app in Hb1 as [Hb1 _].
Qed.

Lemma strlcat_witness :
  exists m', strlcat 20 word text 6 demo = Some (13, m') /\
    (forall a, ~ word <= a < word + 6 -> m' !! a = demo !! a) /\ cstr m' word (lo_ ++ take 3 hello).
Proof. apply (strlcat_correct lo_ hello 20 word text 6 demo); eval_mem. Defined.

(** ** Comparison and search *)

(** [strcmp], in either build, returns an integer whose sign tells the
    lexicographic order of the two strings, compared as unsigned bytes with
    their terminators; it is zero only for equal strings. *)
Theorem strcmp_correct `{Arch} (s1 s2 : list Z) (fuel : nat) (p1 p2 : Z) (m : mem) :
  (length s1 < fuel)%nat -> mem_ok m -> cstr m p1 s1 -> cstr m p2 s2 ->
  word_tail_mapped m (p1 + Z.of_nat (length s1)) -> word_tail_mapped m (p2 + Z.of_nat (length s2)) ->
  exists r, strcmp fuel p1 p2 m = Some (r, m) /\ strcmp_small fuel p1 p2 m = Some (r, m) /\
    orders r (s1 ++ [0]) (s2 ++ [0]).
Proof.
  intros Hf Ho H1 H2 T1 T2. exists (cmp_str s1 s2). split_and!; [by apply strcmp_spec|by apply cmp_nul_spec|].
  apply cmp_bytes_orders. fold (cmp_str s1 s2). rewrite cmp_str_zero; [|apply H1|apply H2].
  split; [by intros ->|]. by intros ?%(inj (fun l => l ++ [0])).
Qed.

Lemma strcmp_witness :
  exists r, strcmp 20 text word demo = Some (r, demo) /\ strcmp_small 20 text word demo = Some (r, demo) /\
    orders r (hello ++ [0]) (lo_ ++ [0]).
Proof. apply (strcmp_correct hello lo_ 20 text word demo); eval_mem. Defined.

(** [strncmp], in either build, gives the order of the strings cut at [n]
    bytes and reads nothing beyond them (the fast version: beyond their
    words). *)
Theorem strncmp_correct `{Arch} (n : nat) (s1 s2 : list Z) (fuel : nat) (p1 p2 : Z) (m : mem) :
  (n < fuel)%nat -> mem_ok m -> strn_src m p1 n s1 -> strn_src m p2 n s2 ->
  strn_tail m p1 n s1 -> strn_tail m p2 n s2 ->
  exists r, strncmp fuel p1 p2 (Z.of_nat n) m = Some (r, m) /\
    strncmp_small fuel p1 p2 (Z.of_nat n) m = Some (r, m) /\
    (r < 0 <-> lex_lt (take n (s1 ++ [0])) (take n (s2 ++ [0]))) /\
    (0 < r <-> lex_lt (take n (s2 ++ [0])) (take n (s1 ++ [0]))) /\ (r = 0 <-> s1 = s2).
Proof.
  intros Hf Ho H1 H2 T1 T2. exists (cmp_strn n s1 s2).
  destruct (nonzero_strn _ _ _ _ H1), (nonzero_strn _ _ _ _ H2).
  split_and!; [by apply strncmp_spec|by apply strncmp_small_spec|apply cmp_bytes_neg| |by apply cmp_strn_zero].
  rewrite <- cmp_bytes_neg, cmp_bytes_flip. unfold cmp_strn. lia.
Qed.

Lemma strncmp_witness :
  exists r, strncmp 20 (text + 3) word 2 demo = Some (r, demo) /\
    strncmp_small 20 (text + 3) word 2 demo = Some (r, demo) /\
    (r < 0 <-> lex_lt [108; 111] [108; 111]) /\ (0 < r <-> lex_lt [108; 111] [108; 111]) /\
    (r = 0 <-> [108; 111] = [108; 111]).
Proof. apply (strncmp_correct 2 [108; 111] [108; 111] 20 (text + 3) word demo); eval_mem. Defined.

(** [strchr], in either build, returns the address of the first byte of the
    string, the terminator included, equal to the low byte of [i], or [NULL];
    [strchrnul] returns the terminator's address instead of [NULL] and
    [strrchr] the address of the last such byte. *)
Theorem strchr_correct `{Arch} (s : list Z) (fuel : nat) (p i : Z) (m : mem) :
  (length s < fuel)%nat -> mem_ok m -> cstr m p s -> word_tail_mapped m (p + Z.of_nat (length s)) -> 0 < p ->
  let k := first_index (uwrap 8 i) (s ++ [0]) in
  strchr fuel p i m = Some (ptr_at p k, m) /\
  strchr_small fuel p i m = Some (ptr_at p k, m) /\
  strchrnul fuel p i m = Some (p + Z.of_nat (default (length s) k), m) /\
  strrchr fuel p i m = Some (last_or NULL p (uwrap 8 i) (s ++ [0]), m).
Proof.
  intros. split_and!; [by apply strchr_spec|by apply strchr_small_spec|by apply strchrnul_spec|by apply strrchr_spec].
Qed.

Lemma strchr_witness :
  strchr 20 text 111 demo = Some (text + 4, demo) /\ strchr_small 20 text 111 demo = Some (text + 4, demo) /\
  strchrnul 20 text 111 demo = Some (text + 4, demo) /\ strrchr 20 text 111 demo = Some (text + 7, demo).
Proof. apply (strchr_correct hello 20 text 111 demo); eval_mem || done. Defined.

(** [strspn] and [strcspn] return the length of the longest prefix of bytes
    in, and not in, the set; [strpbrk] returns the address of the first byte of
    the string in the set, or [NULL]. *)
Theorem strspn_correct (s d : list Z) (fuel : nat) (p q : Z) (m : mem) :
  (length s < fuel)%nat -> (length d < fuel)%nat -> cstr m p s -> cstr m q d ->
  exists k j : nat,
    strspn fuel p q m = Some (Z.of_nat k, m) /\ strcspn fuel p q m = Some (Z.of_nat j, m) /\
    strpbrk fuel p q m = Some (if decide (j = length s) then NULL else p + Z.of_nat j, m) /\
    Forall (fun b => b ∈ d) (take k s) /\ (forall b, s !! k = Some b -> b ∉ d) /\
    Forall (fun b => b ∉ d) (take j s) /\ (forall b, s !! j = Some b -> b ∈ d) /\
    (k <= length s)%nat /\ (j <= length s)%nat.
Proof.
  intros Hf Hd Hs Hq. set (P := fun b => bool_decide (b ∈ d)). set (N := fun b => negb (P b)).
  destruct (span_len_spec P s) as [P1 P2]. destruct (span_len_spec N s) as [N1 N2].
  exists (span_len P s), (span_len N s).
  split_and!; [by apply strspn_spec|by apply strcspn_spec|by apply strpbrk_spec|..]; try apply span_len_le.
  - eapply Forall_impl; [exact P1|]. intros b Hb. by apply bool_decide_eq_true in Hb.
  - intros b Hb. apply P2 in Hb. by apply bool_decide_eq_false in Hb.
  - eapply Forall_impl; [exact N1|]. intros b Hb%negb_true_iff. by apply bool_decide_eq_false in Hb.
  - intros b Hb. apply N2, negb_false_iff in Hb. by apply bool_decide_eq_true in Hb.
Qed.

Lemma strspn_witness :
  exists k j : nat,
    strspn 20 text word demo = Some (Z.of_nat k, demo) /\ strcspn 20 text word demo = Some (Z.of_nat j, demo) /\
    strpbrk 20 text word demo = Some (if decide (j = 11%nat) then NULL else text + Z.of_nat j, demo) /\
    Forall (fun b => b ∈ lo_) (take k hello) /\ (forall b, hello !! k = Some b -> b ∉ lo_) /\
    Forall (fun b => b ∉ lo_) (take j hello) /\ (forall b, hello !! j = Some b -> b ∈ lo_) /\
    (k <= length hello)%nat /\ (j <= length hello)%nat.
Proof. apply (strspn_correct hello lo_ 20 text word demo); eval_mem. Defined.

(** ** Tokens *)

Lemma token_split_exists delim s :
  exists d t rest, s = d ++ t ++ rest /\ token_split delim d t rest /\ (t = [] -> rest = []).
Proof.
  induction s as [|b s (d & t & rest & -> & (Hd & Ht & Hr) & He)]; [by exists [], [], []|].
  destruct (decide (b ∈ delim)) as [Hb|Hb].
  - exists (b :: d), t, rest. split_and!; try done. split; [by constructor|done].
  - destruct d as [|c d].
    + exists [], (b :: t), rest. split_and!; try done. split_and!; [done|by constructor|done].
    + exists [], [b], (c :: d ++ t ++ rest). inversion_clear Hd. split_and!; try done.
      split_and!; [done|by constructor; [|constructor]|done].
Qed.

(** A call of [strtok_r] skips the delimiters at the current position and
    takes the longest run of bytes that are no delimiters: the call returns its
    address, puts a terminator after it and moves the saved position past that,
    or to [NULL] at the end of the text, where with no token left it returns
    [NULL]. *)
Theorem strtok_r_correct (fuel : nat) (s q lasts : Z) (delim str : list Z) (m : mem) :
  let p := if s =? NULL then lasts else s in
  (length delim < fuel)%nat -> cstr m q delim -> (length str < fuel)%nat -> p <> NULL -> cstr m p str ->
  exists d t rest m' lasts', str = d ++ t ++ rest /\ token_split delim d t rest /\ (t = [] -> rest = []) /\
    let tok := p + Z.of_nat (length d) in
    strtok_r fuel s q lasts m = Some (if decide (t = []) then NULL else tok, lasts', m') /\
    m' = (if decide (rest = []) then m else put_bytes m (tok + Z.of_nat (length t)) [0]) /\
    cstr m' tok t /\
    (if decide (rest = []) then lasts' = NULL
     else lasts' = tok + Z.of_nat (length t) + 1 /\ cstr m' lasts' (tail rest)).
Proof.
  intros p Hfd Hq Hf Hp Hs. destruct (token_split_exists delim str) as (d & t & rest & -> & Hsp & He).
  pose proof (strtok_r_spec fuel m q delim Hfd Hq s lasts d t rest Hf Hp Hsp He Hs) as E. cbv zeta in E. fold p in E.
  destruct Hs as [Hz Hb]. rewrite !Forall_app in Hz. destruct Hz as (_ & Hzt & Hzr).
  rewrite <- !app_assoc in Hb. apply bytes_at_app in Hb as [_ Hb]. pose proof Hb as Ht. apply bytes_at_app in Ht as [Ht Hr].
  set (tok := p + Z.of_nat (length d)) in *. exists d, t, rest. destruct rest as [|c rest].
  - exists m, NULL. cbv zeta. fold tok. split_and!; try done. rewrite E. by destruct t.
  - exists (put_bytes m (tok + Z.of_nat (length t)) [0]), (tok + Z.of_nat (length t) + 1). cbv zeta. fold tok.
    split_and!; try done.
    + rewrite E. destruct t as [|x t]; [by specialize (He eq_refl)|done].
    + split; [done|]. apply bytes_at_app. split; [|apply put_bytes_at].
      apply bytes_at_put_disjoint; [right; lia|done].
    + inversion_clear Hzr as [|? ? Hc Hz]. split; [done|]. split; [done|]. simpl tail.
      apply bytes_at_put_disjoint; [left; simpl; lia|]. cbn [app] in Hr. by apply bytes_at_cons in Hr as [_ Hr].
Qed.

Lemma strtok_r_witness :
  exists d t rest m' lasts', hello = d ++ t ++ rest /\ token_split lo_ d t rest /\ (t = [] -> rest = []) /\
    let tok := text + Z.of_nat (length d) in
    strtok_r 20 text word 0 demo = Some (if decide (t = []) then NULL else tok, lasts', m') /\
    m' = (if decide (rest = []) then demo else put_bytes demo (tok + Z.of_nat (length t)) [0]) /\
    cstr m' tok t /\
    (if decide (rest = []) then lasts' = NULL
     else lasts' = tok + Z.of_nat (length t) + 1 /\ cstr m' lasts' (tail rest)).
Proof. apply (strtok_r_correct 20 text word 0 lo_ hello demo); eval_mem || done. Defined.
