(* ===== verification/Malloc.v ===== *)
(** * The allocator (libc/stdlib/malloc.c, free.c, realloc.c, memalign.c, calloc.c)

    The heap is byte memory; a chunk is a header word with its size (bit 0 set
    while the chunk is free) followed by the storage, whose first word links a
    free chunk to the next one.  The model is the configuration without small
    buckets ([malloc-small-bucket] = 0, the default).  This file holds the
    definitions and the arithmetic of sizes; [MallocList] proves the operations
    on the free list correct against a list of chunks, [MallocHeap] the
    invariant of the whole heap. *)

From S2P Require Import Prelude CMem StrLocal.
From stdpp Require Import base list gmap.
From Stdlib Require Import ZArith Lia.

Local Open Scope Z_scope.

(** ** What the allocator relies on *)

(** The alignment of [max_align_t] on the target, a power of two. *)
Class MallocTarget := { chunk_align_pot : Z }.

(** [sbrk]: the new pointer, or -1, and the state of the system's break. *)
Class Sbrk (B : Type) := { sbrk_op : Z -> B -> Z * B }.

(** The string functions it calls, with the fuel of their loops. *)
Class MemFns := {
  mf_memset : nat -> Z -> Z -> Z -> C mem Z;
  mf_memcpy : nat -> Z -> Z -> Z -> C mem Z }.

(** ** State *)

Record heap {B : Type} := Heap {
  hmem : mem;
  __malloc_free_list : Z;
  __malloc_sbrk_start : Z;
  __malloc_sbrk_top : Z;
  errno : Z;
  sbrk_state : B }.
Arguments heap : clear implicits.
Arguments Heap {_}.

(** A [chunk_t **]: the list head or the [next] field of a chunk. *)
Inductive place := FreeList | Next (c : Z).

Definition ENOMEM : Z := 12.
Definition EINVAL : Z := 22.
(** [(void * ) -1] *)
Definition FAILED : Z := -1.

Section malloc.
Context `{Arch} `{MallocTarget} {B : Type} `{Sbrk B} `{MemFns}.
Variable fuel : nat.

Abbreviation M A := (C (heap B) A).

Definition with_mem (h : heap B) (m : mem) : heap B :=
  Heap m (__malloc_free_list h) (__malloc_sbrk_start h) (__malloc_sbrk_top h) (errno h)
    (sbrk_state h).
Definition with_list (h : heap B) (v : Z) : heap B :=
  Heap (hmem h) v (__malloc_sbrk_start h) (__malloc_sbrk_top h) (errno h) (sbrk_state h).

Definition in_mem {A} (c : C mem A) : M A :=
  fun h => match c (hmem h) with Some (a, m) => Some (a, with_mem h m) | None => None end.

Definition set_free_list (v : Z) : M unit := fun h => Some (tt, with_list h v).
Definition set_sbrk_start (v : Z) : M unit :=
  fun h => Some (tt, Heap (hmem h) (__malloc_free_list h) v (__malloc_sbrk_top h)
                       (errno h) (sbrk_state h)).
Definition set_sbrk_top (v : Z) : M unit :=
  fun h => Some (tt, Heap (hmem h) (__malloc_free_list h) (__malloc_sbrk_start h) v
                       (errno h) (sbrk_state h)).
Definition set_errno (v : Z) : M unit :=
  fun h => Some (tt, Heap (hmem h) (__malloc_free_list h) (__malloc_sbrk_start h)
                       (__malloc_sbrk_top h) v (sbrk_state h)).
Definition get {A} (f : heap B -> A) : M A := fun h => Some (f h, h).

(** A failing [sbrk] sets [errno]. *)
Definition sbrk (incr : Z) : M Z :=
  fun h =>
    let '(p, b) := sbrk_op incr (sbrk_state h) in
    Some (p, Heap (hmem h) (__malloc_free_list h) (__malloc_sbrk_start h)
               (__malloc_sbrk_top h) (if p =? FAILED then ENOMEM else errno h) b).

(** ** local-malloc.h: sizes *)

Definition size_t (x : Z) : Z := uwrap long_bits x.
Definition SIZE_MAX : Z := 2 ^ long_bits - 1.

(** [__builtin_align_up]: add [a - 1] and clear the low bits. *)
Definition __align_up (x a : Z) : Z := Z.land (size_t (x + (a - 1))) (Z.lnot (a - 1)).

Definition MALLOC_CHUNK_ALIGN : Z := 2 ^ chunk_align_pot.
Definition MALLOC_HEAD_SIZE : Z := Z.of_nat long_size.
Definition MALLOC_CHUNK_SIZE : Z := Z.of_nat long_size.
Definition MALLOC_CHUNK_MIN : Z :=
  __align_up (MALLOC_CHUNK_SIZE + MALLOC_HEAD_SIZE) MALLOC_CHUNK_ALIGN.
Definition MALLOC_CHUNK_MAX : Z := SIZE_MAX - 2 * Z.max MALLOC_CHUNK_SIZE MALLOC_CHUNK_ALIGN.
Definition MALLOC_ALLOC_MAX : Z := MALLOC_CHUNK_MAX - MALLOC_HEAD_SIZE.

(** The exponent of the first power of two from 16 to 1024 that holds [x], or 0. *)
Definition UP_POT (x : Z) : Z :=
  if x <=? 2 ^ 4 then 4 else if x <=? 2 ^ 5 then 5 else if x <=? 2 ^ 6 then 6
  else if x <=? 2 ^ 7 then 7 else if x <=? 2 ^ 8 then 8 else if x <=? 2 ^ 9 then 9
  else if x <=? 2 ^ 10 then 10 else 0.

Definition chunk_size (malloc_size : Z) : Z :=
  let malloc_size := size_t (malloc_size + MALLOC_HEAD_SIZE) in
  let malloc_size := __align_up malloc_size MALLOC_CHUNK_ALIGN in
  Z.max MALLOC_CHUNK_MIN malloc_size.

Definition malloc_size (chunk_size : Z) : Z := size_t (chunk_size - MALLOC_HEAD_SIZE).

(** ** local-malloc.h: chunks *)

Definition _size_ref (chunk : Z) : Z := chunk - MALLOC_HEAD_SIZE.
Definition get_size_ref (c : Z) : M Z := in_mem (load_long (_size_ref c)).
Definition put_size_ref (c v : Z) : M unit := in_mem (store_long (_size_ref c) v).

Definition _mark_free (c : Z) : M unit :=
  do s <- get_size_ref c; put_size_ref c (Z.lor s 1).
Definition _mark_busy (c : Z) : M unit :=
  do s <- get_size_ref c; put_size_ref c (Z.land s (size_t (Z.lnot 1))).
Definition _is_free (c : Z) : M bool :=
  do s <- get_size_ref c; ret (negb (Z.land s 1 =? 0)).
Definition _size (chunk : Z) : M Z :=
  do s <- get_size_ref chunk; ret (Z.land s (size_t (Z.lnot 1))).
Definition _set_size (chunk size : Z) : M unit := put_size_ref chunk size.

(** [!_is_free(c) ? true : (errno = ENOMEM, false)] *)
Definition _check_busy (c : Z) : M bool :=
  do f <- _is_free c;
  if f : bool then run set_errno ENOMEM; ret false else ret true.

Definition get_next (c : Z) : M Z := in_mem (load_long c).
Definition set_next (c v : Z) : M unit := in_mem (store_long c v).

Definition blob_to_chunk (blob : Z) : Z := blob + MALLOC_HEAD_SIZE.
Definition chunk_to_blob (c : Z) : Z := c - MALLOC_HEAD_SIZE.

(** With the raw header word, free bit included. *)
Definition chunk_end (c : Z) : M Z :=
  do s <- get_size_ref c; ret (_size_ref c + s).
Definition chunk_after (c : Z) : M Z := do s <- _size c; ret (c + s).

Definition read_place (p : place) : M Z :=
  match p with FreeList => get __malloc_free_list | Next c => get_next c end.
Definition write_place (p : place) (v : Z) : M unit :=
  match p with FreeList => set_free_list v | Next c => set_next c v end.

(** ** free.c *)

(** How the walk over the list ends: the chunk is there already ([goto
    unlock]); it goes in at [p], before [c]; or it was merged into its
    predecessor ([goto no_insert], with the new [p_to_free] and [c]). *)
Inductive walk_result := AlreadyFree | InsertAt (p : place) (c : Z) | MergedInto (p_to_free c : Z).

Definition free_walk_step (p_to_free : Z) (p : place) : M (place + walk_result) :=
  do c <- read_place p;
  if c =? NULL then ret (inr (InsertAt p c))
  else if p_to_free <=? c then
    if p_to_free =? c then run set_errno ENOMEM; ret (inr AlreadyFree)
    else ret (inr (InsertAt p c))
  else
    do after <- chunk_after c;
    if after =? p_to_free then
      do rc <- get_size_ref c;
      do sf <- _size p_to_free;
      run put_size_ref c (rc + sf);
      do cn <- get_next c;
      ret (inr (MergedInto c cn))
    else ret (inl (Next c)).

Definition free_walk (p_to_free : Z) : M walk_result :=
  loop (free_walk_step p_to_free) fuel FreeList.

(** From the label [no_insert]: merge with the chunk that follows. *)
Definition free_no_insert (p_to_free c : Z) : M unit :=
  do after <- chunk_after p_to_free;
  if after =? c then
    do rp <- get_size_ref p_to_free;
    do sc <- _size c;
    run put_size_ref p_to_free (rp + sc);
    do cn <- get_next c;
    set_next p_to_free cn
  else ret tt.

Definition __malloc_free (free_p : Z) : M unit :=
  if free_p =? NULL then ret tt
  else
    let p_to_free := free_p in
    do busy <- _check_busy p_to_free;
    if negb busy then ret tt
    else
      run set_next p_to_free NULL;
      run _mark_free p_to_free;
      do w <- free_walk p_to_free;
      match w with
      | AlreadyFree => ret tt
      | InsertAt p c =>
          run set_next p_to_free c;
          run write_place p p_to_free;
          free_no_insert p_to_free c
      | MergedInto p_to_free c => free_no_insert p_to_free c
      end.

Definition make_free_chunk (c size : Z) : M unit :=
  run _set_size c size;
  __malloc_free c.

(** ** malloc.c *)

(** The request for the bytes that align the block; false is the failure of
    the whole call. *)
Definition sbrk_extra (p s align_p : Z) : M bool :=
  let adjust := align_p - p in
  do extra <- sbrk adjust;
  if extra =? size_t (p + s) then run set_sbrk_top (extra + adjust); ret true
  else ret false.

Definition __malloc_sbrk_aligned (s : Z) : M Z :=
  let d := swrap long_bits s in
  if d <? 0 then ret FAILED
  else
    do p <- sbrk d;
    if p =? FAILED then ret p
    else
      run set_sbrk_top (size_t (p + s));
      let c := __align_up (size_t (p + MALLOC_HEAD_SIZE)) MALLOC_CHUNK_ALIGN in
      let align_p := chunk_to_blob c in
      do ok <- (if align_p =? p then ret true else sbrk_extra p s align_p);
      if negb ok then ret FAILED
      else
        do start <- get __malloc_sbrk_start;
        run (if start =? NULL then set_sbrk_start align_p else ret tt);
        ret align_p.

Definition __malloc_grow_chunk (c new_size : Z) : M bool :=
  do chunk_e <- chunk_end c;
  do top <- get __malloc_sbrk_top;
  if negb (chunk_e =? top) then ret false
  else
    do sz <- _size c;
    let add_size := Z.max MALLOC_CHUNK_MIN (size_t (new_size - sz)) in
    do heap <- __malloc_sbrk_aligned add_size;
    if heap =? chunk_e then
      do rc <- get_size_ref c;
      run put_size_ref c (rc + add_size);
      ret true
    else
      run (if negb (heap =? FAILED) then make_free_chunk (blob_to_chunk heap) add_size
           else ret tt);
      ret false.

(** The walk over the free list: the chunk found and unlinked, or [NULL]. *)
Definition malloc_search_step (alloc_size : Z) (p : place) : M (place + Z) :=
  do c <- read_place p;
  if c =? NULL then ret (inr c)
  else
    do sz <- _size c;
    if alloc_size <=? sz then
      let rem := sz - alloc_size in
      if MALLOC_CHUNK_MIN <=? rem then
        let s := c + alloc_size in
        run _set_size c alloc_size;
        run _set_size s rem;
        run _mark_free s;
        do cn <- get_next c;
        run set_next s cn;
        run write_place p s;
        ret (inr c)
      else
        do cn <- get_next c;
        run write_place p cn;
        ret (inr c)
    else
      do cn <- get_next c;
      do grown <- (if cn =? NULL then __malloc_grow_chunk c alloc_size else ret false);
      if grown : bool then
        do cn <- get_next c;
        run write_place p cn;
        ret (inr c)
      else ret (inl (Next c)).

Definition malloc_search (alloc_size : Z) : M Z :=
  loop (malloc_search_step alloc_size) fuel FreeList.

Definition malloc (s : Z) : M Z :=
  if MALLOC_ALLOC_MAX <? s then run set_errno ENOMEM; ret NULL
  else
    let alloc_size := chunk_size s in
    do c <- malloc_search alloc_size;
    do c <-
      (if c =? NULL then
         do blob <- __malloc_sbrk_aligned alloc_size;
         if blob =? FAILED then run set_errno ENOMEM; ret None
         else
           let c := blob_to_chunk blob in
           run _set_size c alloc_size;
           ret (Some c)
       else ret (Some c));
    match c with
    | None => ret NULL
    | Some c =>
        run _mark_busy c;
        run in_mem (mf_memset fuel c 0 (size_t (alloc_size - MALLOC_HEAD_SIZE)));
        ret c
    end.

(** ** realloc.c *)

(** The search for a free chunk at [chunk_e], merged into [p_to_realloc]; the
    new [old_size]. *)
Definition realloc_merge_step (p_to_realloc chunk_e old_size : Z) (p : place) : M (place + Z) :=
  do r <- read_place p;
  if r =? NULL then ret (inr old_size)
  else if r =? chunk_e then
    do r_size <- _size r;
    do rn <- get_next r;
    run write_place p rn;
    run in_mem (mf_memset fuel r 0 r_size);
    let old_size := size_t (old_size + r_size) in
    run _set_size p_to_realloc old_size;
    ret (inr old_size)
  else if p_to_realloc <? r then ret (inr old_size)
  else ret (inl (Next r)).

Definition realloc_merge (p_to_realloc chunk_e old_size : Z) : M Z :=
  loop (realloc_merge_step p_to_realloc chunk_e old_size) fuel FreeList.

Definition realloc (ptr size : Z) : M Z :=
  if ptr =? NULL then malloc size
  else if size =? 0 then run __malloc_free ptr; ret NULL
  else if MALLOC_ALLOC_MAX <? size then run set_errno ENOMEM; ret NULL
  else
    do busy <- _check_busy ptr;
    if negb busy then ret NULL
    else
      let new_size := chunk_size size in
      let p_to_realloc := ptr in
      do old_size <- _size p_to_realloc;
      do old_size <-
        (if old_size <? new_size then
           do chunk_e <- chunk_end p_to_realloc;
           do grown <- __malloc_grow_chunk p_to_realloc new_size;
           if grown : bool then
             run in_mem (mf_memset fuel chunk_e 0 (new_size - old_size));
             ret new_size
           else realloc_merge p_to_realloc chunk_e old_size
         else ret old_size);
      if new_size <=? old_size then
        let extra := old_size - new_size in
        run (if MALLOC_CHUNK_MIN <=? extra then
               run _set_size p_to_realloc new_size;
               do after <- chunk_after p_to_realloc;
               make_free_chunk after extra
             else ret tt);
        ret ptr
      else
        do mem <- malloc size;
        if mem =? NULL then ret NULL
        else
          run in_mem (mf_memcpy fuel mem ptr (malloc_size old_size));
          run __malloc_free ptr;
          ret mem.

(** ** memalign.c, calloc.c, mul_overflow.h *)

Definition memalign (align s : Z) : M Z :=
  if negb (Z.land align (size_t (align - 1)) =? 0) then run set_errno EINVAL; ret NULL
  else
    let align := Z.max align (UP_POT MALLOC_CHUNK_MIN) in
    if (MALLOC_ALLOC_MAX <? align) || (MALLOC_ALLOC_MAX - align <? s) then
      run set_errno ENOMEM; ret NULL
    else
      let s := chunk_size s in
      let size_with_padding := size_t (s + align + MALLOC_CHUNK_MIN) in
      do allocated <- malloc size_with_padding;
      if allocated =? NULL then ret NULL
      else
        let chunk_p := allocated in
        let aligned_p := __align_up allocated align in
        let offset := aligned_p - allocated in
        do chunk_p <-
          (if offset =? 0 then ret chunk_p
           else
             let '(aligned_p, offset) :=
               if offset <? MALLOC_CHUNK_MIN then (aligned_p + align, offset + align)
               else (aligned_p, offset) in
             do sz <- _size chunk_p;
             run _set_size aligned_p (size_t (sz - offset));
             run make_free_chunk chunk_p offset;
             ret aligned_p);
        do sz <- _size chunk_p;
        let offset := size_t (sz - s) in
        run (if MALLOC_CHUNK_MIN <=? offset then
               do r <- get_size_ref chunk_p;
               run put_size_ref chunk_p (r - offset);
               do after <- chunk_after chunk_p;
               make_free_chunk after offset
             else ret tt);
        ret chunk_p.

(** The product, wrapped, and whether it overflowed. *)
Definition mul_overflow_size_t (a b : Z) : Z * bool :=
  (size_t (a * b),
   if (a =? 0) || (b =? 0) then false
   else (SIZE_MAX / b <? a) || (SIZE_MAX / a <? b)).

Definition calloc (n elem : Z) : M Z :=
  let '(bytes, overflow) := mul_overflow_size_t n elem in
  if overflow : bool then run set_errno ENOMEM; ret NULL else malloc bytes.
End malloc.

(** ** libos/fallback/sbrk.c

    The state is [__brk]; [__heap_start] and [__heap_end] are given by the
    linker. *)
Section fallback_sbrk.
Context `{Arch}.
Variables (__heap_start __heap_end : Z).

Definition __fallback_sbrk (incr : Z) (__brk : Z) : Z * Z :=
  if incr <? 0 then
    if uwrap long_bits (__brk - __heap_start) <? uwrap long_bits (- incr) then (FAILED, __brk)
    else (__brk, __brk + incr)
  else
    if uwrap long_bits (__heap_end - __brk) <? uwrap long_bits incr then (FAILED, __brk)
    else (__brk, __brk + incr).
End fallback_sbrk.

(** ** The arithmetic of sizes *)

(** What is assumed of the target: the storage alignment is at least that of
    the header word and is not larger than a page. *)
Class MallocTargetOk `{Arch} `{MallocTarget} : Prop := {
  align_ge : Z.of_nat long_size <= MALLOC_CHUNK_ALIGN;
  align_le : 0 <= chunk_align_pot <= 12 }.

Section sizes.
Context `{Arch} `{MallocTarget} {TOk : MallocTargetOk}.

Lemma long_size_cases :
  (Z.of_nat long_size = 8 /\ long_bits = 64) \/ (Z.of_nat long_size = 4 /\ long_bits = 32).
Proof. unfold long_bits, long_size. destruct long64; [left|right]; split; reflexivity. Qed.

Lemma chunk_align_pos : 0 < MALLOC_CHUNK_ALIGN.
Proof. apply Z.pow_pos_nonneg; [lia|]. apply TOk. Qed.

Lemma chunk_align_le : MALLOC_CHUNK_ALIGN <= 4096.
Proof. apply (Z.pow_le_mono_r 2 _ 12); [lia|]. apply TOk. Qed.

(** The header word divides the alignment. *)
Lemma chunk_align_head : (Z.of_nat long_size | MALLOC_CHUNK_ALIGN).
Proof.
  destruct TOk as [Hge Hle]. unfold MALLOC_CHUNK_ALIGN in *.
  assert (exists k, 0 <= k /\ Z.of_nat long_size = 2 ^ k) as (k & Hk & E).
  { destruct long_size_cases as [[-> _]|[-> _]]; [exists 3|exists 2]; done. }
  rewrite E in *. apply Z.pow_le_mono_r_iff in Hge; [|lia..].
  exists (2 ^ (chunk_align_pot - k)). rewrite <- Z.pow_add_r by lia. f_equal. lia.
Qed.

Lemma chunk_align_even : (2 | MALLOC_CHUNK_ALIGN).
Proof.
  transitivity (Z.of_nat long_size); [|apply chunk_align_head].
  destruct long_size_cases as [[-> _]|[-> _]]; [by exists 4|by exists 2].
Qed.

Lemma land_lnot_pot x k : 0 <= k -> Z.land x (Z.lnot (2 ^ k - 1)) = x / 2 ^ k * 2 ^ k.
Proof.
  intros. replace (2 ^ k - 1) with (Z.ones k) by (rewrite Z.ones_equiv; lia).
  rewrite <- Z.ldiff_land, Z.ldiff_ones_r by done.
  by rewrite Z.shiftl_mul_pow2, Z.shiftr_div_pow2 by done.
Qed.

Lemma align_up_pot x k :
  0 <= k -> 0 <= x -> x + 2 ^ k <= 2 ^ long_bits ->
  (2 ^ k | __align_up x (2 ^ k)) /\ x <= __align_up x (2 ^ k) < x + 2 ^ k.
Proof.
  intros Hk Hx Hb. unfold __align_up, size_t. assert (0 < 2 ^ k) by (apply Z.pow_pos_nonneg; lia).
  rewrite uwrap_small by lia. rewrite land_lnot_pot by done.
  split; [apply Z.divide_factor_r|].
  pose proof (Z.div_mod (x + (2 ^ k - 1)) (2 ^ k) ltac:(lia)).
  pose proof (Z.mod_pos_bound (x + (2 ^ k - 1)) (2 ^ k) ltac:(lia)). lia.
Qed.

Lemma align_up_spec x :
  0 <= x -> x + MALLOC_CHUNK_ALIGN <= 2 ^ long_bits ->
  (MALLOC_CHUNK_ALIGN | __align_up x MALLOC_CHUNK_ALIGN) /\
  x <= __align_up x MALLOC_CHUNK_ALIGN < x + MALLOC_CHUNK_ALIGN.
Proof. apply align_up_pot. apply TOk. Qed.

(** An aligned number is left alone. *)
Lemma align_up_id x :
  0 <= x -> x + MALLOC_CHUNK_ALIGN <= 2 ^ long_bits -> (MALLOC_CHUNK_ALIGN | x) ->
  __align_up x MALLOC_CHUNK_ALIGN = x.
Proof.
  intros Hx Hb [k ->]. destruct (align_up_spec _ Hx Hb) as [[j ->] Hr].
  pose proof chunk_align_pos. destruct Hr as [Hr1 Hr2].
  apply Z.mul_le_mono_pos_r in Hr1; [|done].
  replace (k * MALLOC_CHUNK_ALIGN + MALLOC_CHUNK_ALIGN) with ((k + 1) * MALLOC_CHUNK_ALIGN) in Hr2 by lia.
  apply Z.mul_lt_mono_pos_r in Hr2; [|done]. f_equal. lia.
Qed.

Lemma bits_big : 4 * 4096 + 64 <= 2 ^ long_bits.
Proof. destruct long_size_cases as [[_ ->]|[_ ->]]; lia. Qed.

Lemma chunk_min_spec :
  (MALLOC_CHUNK_ALIGN | MALLOC_CHUNK_MIN) /\
  2 * Z.of_nat long_size <= MALLOC_CHUNK_MIN < 2 * Z.of_nat long_size + MALLOC_CHUNK_ALIGN.
Proof.
  pose proof bits_big. pose proof chunk_align_le.
  destruct (align_up_spec (MALLOC_CHUNK_SIZE + MALLOC_HEAD_SIZE)) as [Hd Hr];
    unfold MALLOC_CHUNK_SIZE, MALLOC_HEAD_SIZE in *; [lia|destruct long_size_cases; lia|].
  split; [exact Hd|]. unfold MALLOC_CHUNK_MIN, MALLOC_CHUNK_SIZE, MALLOC_HEAD_SIZE. lia.
Qed.

Lemma chunk_min_align : MALLOC_CHUNK_ALIGN <= MALLOC_CHUNK_MIN.
Proof.
  destruct chunk_min_spec as [Hd Hr]. apply Z.divide_pos_le; [|done].
  pose proof long_size_pos. lia.
Qed.

Lemma alloc_max_eq :
  MALLOC_ALLOC_MAX = 2 ^ long_bits - 1 - 2 * MALLOC_CHUNK_ALIGN - Z.of_nat long_size.
Proof.
  unfold MALLOC_ALLOC_MAX, MALLOC_CHUNK_MAX, SIZE_MAX, MALLOC_CHUNK_SIZE, MALLOC_HEAD_SIZE.
  pose proof align_ge. lia.
Qed.

(** The size of a chunk for a request: aligned, large enough, no overflow. *)
Lemma chunk_size_spec s :
  0 <= s <= MALLOC_ALLOC_MAX ->
  (MALLOC_CHUNK_ALIGN | chunk_size s) /\ MALLOC_CHUNK_MIN <= chunk_size s /\
  s + Z.of_nat long_size <= chunk_size s < 2 ^ long_bits /\
  (chunk_size s = MALLOC_CHUNK_MIN \/ chunk_size s < s + Z.of_nat long_size + MALLOC_CHUNK_ALIGN).
Proof.
  rewrite alloc_max_eq. intros Hs. unfold chunk_size, MALLOC_HEAD_SIZE, size_t.
  pose proof chunk_align_pos. pose proof long_size_pos.
  rewrite uwrap_small by lia.
  destruct (align_up_spec (s + Z.of_nat long_size)) as [Hd Hr]; [lia..|].
  destruct chunk_min_spec as [Hmd Hmr]. pose proof bits_big. pose proof chunk_align_le.
  assert (MALLOC_CHUNK_MIN < 2 ^ long_bits) by (destruct long_size_cases; lia).
  destruct (Z.max_spec MALLOC_CHUNK_MIN (__align_up (s + Z.of_nat long_size) MALLOC_CHUNK_ALIGN))
    as [[? ->]|[? ->]]; split_and!; try done; lia.
Qed.

(** Setting and clearing the free bit of an even size. *)
Lemma lor_1 n : (2 | n) -> Z.lor n 1 = n + 1.
Proof.
  intros [k ->]. rewrite (Z.mul_comm k 2).
  rewrite Z.lor_comm. pose proof (lor_shift_add 1 k 1 ltac:(lia) ltac:(lia)) as E.
  change (2 ^ 1) with 2 in E. rewrite E. lia.
Qed.

Lemma clear_bit s : 0 <= s < 2 ^ long_bits -> Z.land s (size_t (Z.lnot 1)) = s / 2 * 2.
Proof.
  intros Hs. unfold size_t. rewrite Z.land_comm, land_uwrap; [|by destruct long_size_cases as [[_ ->]|[_ ->]]|done].
  rewrite Z.land_comm. by apply (land_lnot_pot s 1).
Qed.

Lemma size_of_free n : (2 | n) -> 0 <= n < 2 ^ long_bits - 1 -> Z.land (n + 1) (size_t (Z.lnot 1)) = n.
Proof.
  intros [k ->] Hn. rewrite clear_bit by lia. rewrite Z.div_add_l by lia.
  change (1 / 2) with 0. lia.
Qed.

Lemma size_of_busy n : (2 | n) -> 0 <= n < 2 ^ long_bits -> Z.land n (size_t (Z.lnot 1)) = n.
Proof. intros [k ->] Hn. rewrite clear_bit by lia. rewrite Z.div_mul by lia. lia. Qed.

Lemma land_1 s : Z.land s 1 = s mod 2.
Proof. apply (Z.land_ones s 1). lia. Qed.

(** [mul_overflow_size_t] decides the overflow of the product exactly. *)
Lemma mul_overflow_spec a b :
  0 <= a < 2 ^ long_bits -> 0 <= b < 2 ^ long_bits ->
  (mul_overflow_size_t a b).2 = (2 ^ long_bits <=? a * b).
Proof.
  intros Ha Hb. unfold mul_overflow_size_t, SIZE_MAX. cbn [snd].
  destruct (Z.eqb_spec a 0) as [->|Ha0]; [symmetry; apply Z.leb_gt; lia|].
  destruct (Z.eqb_spec b 0) as [->|Hb0]; [symmetry; apply Z.leb_gt; lia|]. cbn [orb].
  assert (forall x y, 0 < y -> 0 <= x -> (2 ^ long_bits - 1) / y < x <-> 2 ^ long_bits <= x * y) as Hq.
  { intros x y Hy Hx. pose proof (Z.div_mod (2 ^ long_bits - 1) y ltac:(lia)).
    pose proof (Z.mod_pos_bound (2 ^ long_bits - 1) y ltac:(lia)). nia. }
  apply eq_true_iff_eq. rewrite orb_true_iff, !Z.ltb_lt, Z.leb_le, !Hq by lia.
  rewrite (Z.mul_comm b a). tauto.
Qed.
End sizes.
