(* ===== verification/MallocList.v ===== *)
(** * The free list of the allocator

    The free list in memory represents a list of chunks (address and size)
    sorted by address, no two of which overlap or touch.  [free_insert] and
    [first_fit] are what [free] and the search of [malloc] do to that list; the
    file proves that the pointer manipulations implement them and leave every
    byte outside the chunks involved unchanged. *)

From S2P Require Import Prelude CMem StrLocal Malloc.
From stdpp Require Import base list gmap sorting.
From Stdlib Require Import ZArith Lia.

Local Open Scope Z_scope.

(** ** Changes of memory *)

(** [m'] differs from [m] only in the addresses of [R]; nothing is unmapped. *)
Record chg (R : Z -> Prop) (m m' : mem) : Prop := {
  chg_out : forall a, ~ R a -> m' !! a = m !! a;
  chg_dom : forall a, is_Some (m !! a) -> is_Some (m' !! a);
  chg_ok : mem_ok m -> mem_ok m' }.

#[global] Instance chg_refl R : Reflexive (chg R).
Proof. by intros m. Qed.

Lemma chg_trans R m1 m2 m3 : chg R m1 m2 -> chg R m2 m3 -> chg R m1 m3.
Proof.
  intros [O1 D1 K1] [O2 D2 K2]. split; [|by auto..]. intros a Ha. rewrite O2, O1; done.
Qed.

#[global] Instance chg_transitive R : Transitive (chg R).
Proof. intros m1 m2 m3. apply chg_trans. Qed.

Lemma chg_mono (R R' : Z -> Prop) m m' : chg R m m' -> (forall a, R a -> R' a) -> chg R' m m'.
Proof. intros [O D K] HR. split; [|done..]. intros a Ha. apply O. auto. Qed.

Lemma chg_mapped R m m' p n : chg R m m' -> mapped m p n -> mapped m' p n.
Proof. intros [_ D _] Hm a Ha. by apply D, Hm. Qed.

Lemma chg_bytes R m m' p l :
  chg R m m' -> bytes_at m p l -> (forall a, p <= a < p + Z.of_nat (length l) -> ~ R a) ->
  bytes_at m' p l.
Proof. intros [O _ _] Hl Hd i Hi. rewrite O; [by apply Hl|]. apply Hd. lia. Qed.

Lemma chg_put m p l : Forall is_byte l -> chg (fun a => p <= a < p + Z.of_nat (length l)) m (put_bytes m p l).
Proof.
  intros Hl. split.
  - intros a Ha. by rewrite lookup_put_bytes, decide_False.
  - intros a. apply put_bytes_is_Some.
  - intros Hm. by apply put_bytes_ok.
Qed.

(** ** Words *)

Section words.
Context `{Arch}.

(** The word [v] is at [a]. *)
Definition word_at (m : mem) (a v : Z) : Prop :=
  bytes_at m a (bytes_of_word v) /\ 0 <= v < 2 ^ long_bits /\ long_aligned a = true.

Lemma word_of_bytes_of_word v : 0 <= v < 2 ^ long_bits -> word_of_bytes (bytes_of_word v) = v.
Proof.
  intros Hv. assert (le_combine (le_split long_size v) = v) as E.
  { rewrite le_combine_split, pow256 by lia. apply Z.mod_small. done. }
  unfold word_of_bytes, bytes_of_word. destruct big_endian; [|done]. by rewrite rev_involutive.
Qed.

Lemma load_word m a v : word_at m a v -> load_long a m = Some (v, m).
Proof.
  intros (Hb & Hv & Ha). rewrite (load_long_at _ _ _ Ha (bytes_of_word_length v) Hb).
  by rewrite word_of_bytes_of_word.
Qed.

Definition word_cells (a x : Z) : Prop := a <= x < a + Z.of_nat long_size.

Lemma store_word m a v :
  long_aligned a = true -> 0 <= v < 2 ^ long_bits -> mapped m a (Z.of_nat long_size) ->
  exists m', store_long a v m = Some (tt, m') /\ word_at m' a v /\ chg (word_cells a) m m'.
Proof.
  intros Ha Hv Hm. eexists. split; [by apply store_long_at|]. split.
  - split; [apply put_bytes_at|done].
  - pose proof (chg_put m a (bytes_of_word v) (bytes_of_word_bytes v)) as Hc.
    by rewrite bytes_of_word_length in Hc.
Qed.

Lemma word_chg R m m' a v :
  chg R m m' -> word_at m a v -> (forall x, word_cells a x -> ~ R x) -> word_at m' a v.
Proof.
  intros Hc (Hb & Hr) Hd. split; [|done]. eapply chg_bytes; [done..|].
  intros x Hx. apply Hd. by rewrite bytes_of_word_length in Hx.
Qed.
End words.

(** ** Chunks *)

Definition chunk : Type := Z * Z.

Section chunks.
Context `{Arch} `{MallocTarget} {TOk : MallocTargetOk}.

Definition lo (x : chunk) : Z := x.1 - Z.of_nat long_size.
Definition hi (x : chunk) : Z := x.1 - Z.of_nat long_size + x.2.
Definition in_chunk (x : chunk) (a : Z) : Prop := lo x <= a < hi x.
Definition apart (x y : chunk) : Prop := hi x <= lo y \/ hi y <= lo x.

Record wf_chunk (x : chunk) : Prop := {
  wf_pos : 0 < lo x;
  wf_addr : (MALLOC_CHUNK_ALIGN | x.1);
  wf_size : (MALLOC_CHUNK_ALIGN | x.2);
  wf_min : MALLOC_CHUNK_MIN <= x.2;
  wf_hi : hi x < 2 ^ long_bits }.

(** Nothing touches: the next chunk starts after the end of this one. *)
Definition gap (x y : chunk) : Prop := x.1 + x.2 < y.1.

Lemma wf_bounds x :
  wf_chunk x -> 2 * Z.of_nat long_size <= x.2 /\ 0 < x.1 < 2 ^ long_bits /\
  0 < x.2 < 2 ^ long_bits - 1 /\ (2 | x.2) /\ (2 | x.1).
Proof.
  intros [Hp Ha Hs Hm Hh]. destruct chunk_min_spec as [_ Hmin]. pose proof long_size_pos.
  unfold lo, hi in *. split_and!; try lia.
  - by transitivity MALLOC_CHUNK_ALIGN; [apply chunk_align_even|].
  - by transitivity MALLOC_CHUNK_ALIGN; [apply chunk_align_even|].
Qed.

Lemma aligned_divide a : (Z.of_nat long_size | a) -> long_aligned a = true.
Proof. intros. unfold long_aligned. apply Z.eqb_eq, Z.mod_divide; [|done]. pose proof long_size_pos. lia. Qed.

Lemma wf_aligned x : wf_chunk x -> long_aligned x.1 = true /\ long_aligned (lo x) = true.
Proof.
  intros [_ Ha _ _ _].
  assert (Z.of_nat long_size | x.1) by (etransitivity; [apply chunk_align_head|done]).
  split; apply aligned_divide; [done|]. unfold lo. apply Z.divide_sub_r; [done|apply Z.divide_refl].
Qed.

(** The header and the link of a free chunk are inside it. *)
Lemma wf_head_in x a : wf_chunk x -> word_cells (lo x) a -> in_chunk x a.
Proof. intros Hx%wf_bounds Ha. unfold word_cells, in_chunk, lo, hi in *. lia. Qed.
Lemma wf_next_in x a : wf_chunk x -> word_cells x.1 a -> in_chunk x a.
Proof. intros Hx%wf_bounds Ha. unfold word_cells, in_chunk, lo, hi in *. lia. Qed.

Definition chunk_mapped (m : mem) (x : chunk) : Prop := mapped m (lo x) x.2.

Lemma mapped_head m x : wf_chunk x -> chunk_mapped m x -> mapped m (lo x) (Z.of_nat long_size).
Proof. intros Hx%wf_bounds Hm. eapply mapped_weaken; [done|unfold lo in *; lia..]. Qed.
Lemma mapped_next m x : wf_chunk x -> chunk_mapped m x -> mapped m x.1 (Z.of_nat long_size).
Proof. intros Hx%wf_bounds Hm. eapply mapped_weaken; [done|unfold lo in *; lia..]. Qed.

(** ** The list *)

Definition head_or (l : list chunk) (tl : Z) : Z :=
  match l with [] => tl | x :: _ => x.1 end.

(** The chunks [l] are free and linked in this order; the last link is [tl]. *)
Fixpoint linked (m : mem) (l : list chunk) (tl : Z) : Prop :=
  match l with
  | [] => True
  | x :: r => word_at m (lo x) (x.2 + 1) /\ word_at m x.1 (head_or r tl) /\ linked m r tl
  end.

Lemma head_or_app l1 l2 tl : head_or (l1 ++ l2) tl = head_or l1 (head_or l2 tl).
Proof. by destruct l1. Qed.

Lemma linked_app m l1 l2 tl :
  linked m (l1 ++ l2) tl <-> linked m l1 (head_or l2 tl) /\ linked m l2 tl.
Proof. induction l1 as [|x l1 IH]; simpl; [tauto|]. rewrite IH, head_or_app. tauto. Qed.

Lemma linked_chg R m m' l tl :
  chg R m m' -> Forall wf_chunk l -> linked m l tl ->
  (forall x a, x ∈ l -> in_chunk x a -> ~ R a) -> linked m' l tl.
Proof.
  intros Hc Hwf. induction Hwf as [|x l Hx Hwf IH]; [done|].
  intros (Hh & Hn & Hl) Hd. simpl. split_and!.
  - eapply word_chg; [done..|]. intros a Ha. apply (Hd x); [set_solver|by apply wf_head_in].
  - eapply word_chg; [done..|]. intros a Ha. apply (Hd x); [set_solver|by apply wf_next_in].
  - apply IH; [done|]. intros y a Hy. apply (Hd y). set_solver.
Qed.

(** *** What the operations do to the list *)

Definition merge_next (x : chunk) (r : list chunk) : list chunk :=
  match r with
  | y :: r' => if x.1 + x.2 =? y.1 then (x.1, x.2 + y.2) :: r' else x :: r
  | [] => [x]
  end.

Fixpoint free_insert (x : chunk) (l : list chunk) : list chunk :=
  match l with
  | [] => [x]
  | y :: r =>
      if x.1 <=? y.1 then merge_next x l
      else if y.1 + y.2 =? x.1 then merge_next (y.1, y.2 + x.2) r
      else y :: free_insert x r
  end.

(** The first chunk that holds [k] bytes: its address, the size it keeps and
    the list without it. *)
Fixpoint first_fit (k : Z) (l : list chunk) : option (Z * Z * list chunk) :=
  match l with
  | [] => None
  | y :: r =>
      if k <=? y.2 then
        if MALLOC_CHUNK_MIN <=? y.2 - k then Some (y.1, k, (y.1 + k, y.2 - k) :: r)
        else Some (y.1, y.2, r)
      else match first_fit k r with
           | Some (c, n, r') => Some (c, n, y :: r')
           | None => None
           end
  end.

Definition total_size (l : list chunk) : Z := foldr (fun x s => x.2 + s) 0 l.

(** Freeing keeps every byte: the sizes add up. *)
Lemma total_merge_next x r : total_size (merge_next x r) = x.2 + total_size r.
Proof. destruct r as [|y r]; simpl; [lia|]. case_bool; simpl; lia. Qed.

Lemma total_free_insert x l : total_size (free_insert x l) = x.2 + total_size l.
Proof.
  induction l as [|y l IH]; cbn [free_insert]; [simpl; lia|].
  destruct (x.1 <=? y.1); [apply total_merge_next|].
  destruct (_ =? _); [rewrite total_merge_next; simpl; lia|]. simpl. lia.
Qed.

Lemma total_first_fit k l c n l' : first_fit k l = Some (c, n, l') -> total_size l = n + total_size l'.
Proof.
  revert c n l'. induction l as [|y l IH]; intros c n l' Hf; simpl in Hf; [done|].
  destruct (k <=? y.2).
  - destruct (_ <=? _); simplify_eq; simpl; lia.
  - destruct (first_fit k l) as [[[c' n'] r']|]; simplify_eq. simpl. rewrite (IH _ _ _ eq_refl). lia.
Qed.
End chunks.

(** ** The primitive operations *)

Section list_ops.
Context `{Arch} `{MallocTarget} {TOk : MallocTargetOk} {B : Type} `{Sbrk B} `{MemFns}.
Implicit Types (h : heap B) (l pre r : list chunk).

(** A heap with other memory and another list head. *)
Definition upd h (m : mem) (p : Z) : heap B := with_list (with_mem h m) p.

Lemma upd_mem h m p : hmem (upd h m p) = m.
Proof. done. Qed.

Lemma with_mem_same h : with_mem h (hmem h) = h.
Proof. by destruct h. Qed.

Lemma with_mem_upd h m : with_mem h m = upd h m (__malloc_free_list h).
Proof. done. Qed.

Lemma get_size_ref_eq h c v :
  word_at (hmem h) (c - Z.of_nat long_size) v -> get_size_ref c h = Some (v, h).
Proof.
  intros Hw. unfold get_size_ref, in_mem, _size_ref, MALLOC_HEAD_SIZE.
  rewrite (load_word _ _ _ Hw). by rewrite with_mem_same.
Qed.

Lemma get_next_eq h c v : word_at (hmem h) c v -> get_next c h = Some (v, h).
Proof.
  intros Hw. unfold get_next, in_mem. rewrite (load_word _ _ _ Hw). by rewrite with_mem_same.
Qed.

Lemma _size_free_eq h x :
  wf_chunk x -> word_at (hmem h) (lo x) (x.2 + 1) -> _size x.1 h = Some (x.2, h).
Proof.
  intros Hx%wf_bounds Hw. unfold _size. rewrite (bind_eq _ _ _ _ _ (get_size_ref_eq _ _ _ Hw)).
  rewrite size_of_free; [done|tauto|lia].
Qed.

Lemma _size_busy_eq h x :
  wf_chunk x -> word_at (hmem h) (lo x) x.2 -> _size x.1 h = Some (x.2, h).
Proof.
  intros Hx%wf_bounds Hw. unfold _size. rewrite (bind_eq _ _ _ _ _ (get_size_ref_eq _ _ _ Hw)).
  rewrite size_of_busy; [done|tauto|lia].
Qed.

Lemma chunk_after_eq h x :
  wf_chunk x -> word_at (hmem h) (lo x) (x.2 + 1) -> chunk_after x.1 h = Some (x.1 + x.2, h).
Proof.
  intros Hx Hw. unfold chunk_after. by rewrite (bind_eq _ _ _ _ _ (_size_free_eq _ _ Hx Hw)).
Qed.

Lemma put_size_ref_eq h x v :
  wf_chunk x -> chunk_mapped (hmem h) x -> 0 <= v < 2 ^ long_bits ->
  exists m', put_size_ref x.1 v h = Some (tt, with_mem h m') /\ word_at m' (lo x) v /\
    chg (word_cells (lo x)) (hmem h) m'.
Proof.
  intros Hx Hm Hv. destruct (wf_aligned x Hx) as [_ Ha].
  destruct (store_word (hmem h) (lo x) v Ha Hv (mapped_head _ _ Hx Hm)) as (m' & E & Hw & Hc).
  exists m'. split_and!; try done. unfold put_size_ref, in_mem, _size_ref, MALLOC_HEAD_SIZE.
  unfold lo in E. by rewrite E.
Qed.

Lemma set_next_eq h x v :
  wf_chunk x -> chunk_mapped (hmem h) x -> 0 <= v < 2 ^ long_bits ->
  exists m', set_next x.1 v h = Some (tt, with_mem h m') /\ word_at m' x.1 v /\
    chg (word_cells x.1) (hmem h) m'.
Proof.
  intros Hx Hm Hv. destruct (wf_aligned x Hx) as [Ha _].
  destruct (store_word (hmem h) x.1 v Ha Hv (mapped_next _ _ Hx Hm)) as (m' & E & Hw & Hc).
  exists m'. split_and!; try done. unfold set_next, in_mem. by rewrite E.
Qed.

Lemma _mark_free_eq h x :
  wf_chunk x -> chunk_mapped (hmem h) x -> word_at (hmem h) (lo x) x.2 ->
  exists m', _mark_free x.1 h = Some (tt, with_mem h m') /\ word_at m' (lo x) (x.2 + 1) /\
    chg (word_cells (lo x)) (hmem h) m'.
Proof.
  intros Hx Hm Hw. pose proof (wf_bounds _ Hx). unfold _mark_free.
  rewrite (bind_eq _ _ _ _ _ (get_size_ref_eq _ _ _ Hw)), lor_1 by tauto.
  apply put_size_ref_eq; [done..|lia].
Qed.

(** The header and the link do not meet. *)
Lemma head_next_apart x a : wf_chunk x -> word_cells (lo x) a -> ~ word_cells x.1 a.
Proof. intros Hx%wf_bounds. unfold word_cells, lo. lia. Qed.

Lemma head_or_range r : Forall wf_chunk r -> 0 <= head_or r 0 < 2 ^ long_bits.
Proof.
  destruct 1 as [|x r Hx Hr]; simpl; [|apply wf_bounds in Hx; lia].
  pose proof bits_big. lia.
Qed.

Lemma head_or_null r : Forall wf_chunk r -> head_or r 0 = 0 -> r = [].
Proof. destruct 1 as [|x r Hx Hr]; simpl; [done|]. apply wf_bounds in Hx. lia. Qed.

Lemma chg_chunk_mapped R m m' x : chg R m m' -> chunk_mapped m x -> chunk_mapped m' x.
Proof. apply chg_mapped. Qed.

Lemma chg_all_mapped R m m' l : chg R m m' -> Forall (chunk_mapped m) l -> Forall (chunk_mapped m') l.
Proof. intros Hc Hl. eapply Forall_impl; [done|]. intros x. by apply chg_chunk_mapped with R. Qed.

Lemma gap_apart x y a : wf_chunk x -> wf_chunk y -> x.1 + x.2 <= y.1 -> in_chunk x a -> ~ in_chunk y a.
Proof. intros ? ? ?. unfold in_chunk, lo, hi. lia. Qed.

(** *** Merging with the next chunk *)

Lemma free_no_insert_spec h z r :
  linked (hmem h) (z :: r) 0 -> Forall wf_chunk (z :: r) -> Forall (chunk_mapped (hmem h)) (z :: r) ->
  Forall (fun y => z.1 + z.2 <= y.1) r ->
  exists m', free_no_insert z.1 (head_or r 0) h = Some (tt, with_mem h m') /\
    linked m' (merge_next z r) 0 /\ chg (in_chunk z) (hmem h) m'.
Proof.
  intros (Hh & Hn & Hl) Hwf Hm Hs. inversion_clear Hwf as [|? ? Hz Hwr].
  inversion_clear Hm as [|? ? Hmz Hmr].
  unfold free_no_insert. rewrite (bind_eq _ _ _ _ _ (chunk_after_eq _ _ Hz Hh)).
  pose proof (wf_bounds _ Hz) as Bz. destruct r as [|y r]; simpl.
  { rewrite (proj2 (Z.eqb_neq _ 0)) by lia. exists (hmem h). rewrite with_mem_same. done. }
  destruct (Z.eqb_spec (z.1 + z.2) y.1) as [Ey|Ey]; cycle 1.
  { exists (hmem h). rewrite with_mem_same. done. }
  destruct Hl as (Hhy & Hny & Hlr). inversion_clear Hwr as [|? ? Hy Hwr'].
  inversion_clear Hs as [|? ? Hzy Hsr]. pose proof (wf_hi _ Hy) as By. unfold hi in By.
  rewrite (bind_eq _ _ _ _ _ (get_size_ref_eq _ _ _ Hh)).
  rewrite (bind_eq _ _ _ _ _ (_size_free_eq _ _ Hy Hhy)).
  destruct (put_size_ref_eq h z (z.2 + 1 + y.2) Hz Hmz) as (m1 & E1 & W1 & C1).
  { pose proof (wf_pos _ Hz). unfold lo in *. pose proof (wf_bounds _ Hy). lia. }
  rewrite (bind_eq _ _ _ _ _ E1).
  assert (word_at m1 y.1 (head_or r 0)) as Hny1.
  { eapply word_chg; [exact C1|done|]. intros a Ha%wf_next_in Hb%wf_head_in; [|done..].
    eapply (gap_apart z y a); [done..|lia|done|done]. }
  rewrite (bind_eq _ _ _ _ _ (get_next_eq (with_mem h m1) _ _ Hny1)).
  destruct (set_next_eq (with_mem h m1) z (head_or r 0) Hz) as (m2 & E2 & W2 & C2).
  { by eapply chg_chunk_mapped. } { by apply head_or_range. }
  exists m2. rewrite E2. cbn [hmem with_mem] in C2.
  assert (chg (in_chunk z) (hmem h) m2) as C.
  { etransitivity; eapply chg_mono; [exact C1| |exact C2|]; intros a; [by apply wf_head_in|by apply wf_next_in]. }
  split; [done|]. split; [|done]. cbn [linked fst snd]. split; [|split; [done|]].
  - change (lo (z.1, z.2 + y.2)) with (lo z). replace (z.2 + y.2 + 1) with (z.2 + 1 + y.2) by lia.
    eapply word_chg; [exact C2|exact W1|]. intros a. by apply head_next_apart.
  - eapply linked_chg; [exact C|done..|]. intros x a Hx Ha Hb.
    rewrite Forall_forall in Hwr', Hsr. eapply (gap_apart z x a); eauto.
Qed.
(** *** Places *)

Definition place_of pre : place :=
  match last pre with None => FreeList | Some y => Next y.1 end.

(** The list starts with [pre] and goes on at [v]. *)
Definition seg h pre (v : Z) : Prop :=
  __malloc_free_list h = head_or pre v /\ linked (hmem h) pre v.

Lemma read_place_eq h pre v : seg h pre v -> read_place (place_of pre) h = Some (v, h).
Proof.
  intros [Hp Hl]. unfold place_of. induction pre as [|y pre _] using rev_ind.
  - simpl in *. unfold get. by rewrite Hp.
  - rewrite last_snoc. apply linked_app in Hl as [_ (_ & Hn & _)]. by apply get_next_eq.
Qed.

Definition in_some (l : list chunk) (a : Z) : Prop := exists x, x ∈ l /\ in_chunk x a.

Lemma sorted_apart l1 x l2 :
  StronglySorted gap (l1 ++ x :: l2) -> Forall (fun y => y.1 + y.2 < x.1) l1.
Proof.
  intros Hs. apply Forall_forall. intros y Hy.
  apply (StronglySorted_app_1_elem_of gap l1 (x :: l2) y x Hs Hy). set_solver.
Qed.

Lemma write_place_eq h pre v0 v :
  seg h pre v0 -> Forall wf_chunk pre -> StronglySorted gap pre ->
  Forall (chunk_mapped (hmem h)) pre -> 0 <= v < 2 ^ long_bits ->
  exists m' p', write_place (place_of pre) v h = Some (tt, upd h m' p') /\
    p' = head_or pre v /\ linked m' pre v /\ chg (in_some pre) (hmem h) m'.
Proof.
  intros [Hp Hl] Hwf Hs Hm Hv. unfold place_of. destruct pre as [|y pre _] using rev_ind.
  - exists (hmem h), v. split_and!; done.
  - rewrite last_snoc. apply Forall_app in Hwf as [Hwp Hwy]. apply Forall_app in Hm as [Hmp Hmy].
    inversion_clear Hwy as [|? ? Hy _]. inversion_clear Hmy as [|? ? Hmy' _].
    destruct (set_next_eq h y v Hy Hmy' Hv) as (m' & E & W & Cg).
    exists m', (__malloc_free_list h). cbn [write_place]. rewrite E, with_mem_upd.
    apply linked_app in Hl as [Hlp (Hhy & _ & _)]. split_and!; try done.
    + rewrite Hp. rewrite !head_or_app. done.
    + apply linked_app. split; [|split; [|split; [done|done]]].
      * eapply linked_chg; [exact Cg|done..|]. intros x a Hx Ha Hb%wf_next_in; [|done].
        pose proof (sorted_apart _ _ _ Hs) as Hlt. rewrite Forall_forall in Hlt, Hwp.
        specialize (Hlt x Hx). eapply (gap_apart x y a); eauto. lia.
      * eapply word_chg; [exact Cg|done|]. intros a. by apply head_next_apart.
    + eapply chg_mono; [exact Cg|]. intros a Ha. exists y. split; [set_solver|by apply wf_next_in].
Qed.

(** *** The representation *)

Record flist h l : Prop := {
  fl_head : __malloc_free_list h = head_or l 0;
  fl_linked : linked (hmem h) l 0;
  fl_sorted : StronglySorted gap l;
  fl_wf : Forall wf_chunk l;
  fl_mapped : Forall (chunk_mapped (hmem h)) l }.

Lemma flist_seg h pre r : flist h (pre ++ r) -> seg h pre (head_or r 0) /\ linked (hmem h) r 0.
Proof.
  intros [Hp Hl _ _ _]. apply linked_app in Hl as [Hl Hr]. split; [|done]. split; [|done].
  by rewrite Hp, head_or_app.
Qed.

Lemma flist_chunk h pre y r :
  flist h (pre ++ y :: r) ->
  wf_chunk y /\ chunk_mapped (hmem h) y /\ word_at (hmem h) (lo y) (y.2 + 1) /\
  word_at (hmem h) y.1 (head_or r 0).
Proof.
  intros Hf. destruct (flist_seg _ _ _ Hf) as [_ (Hh & Hn & _)]. destruct Hf as [_ _ _ Hw Hm].
  apply Forall_app in Hw as [_ Hw], Hm as [_ Hm]. inversion_clear Hw. inversion_clear Hm. done.
Qed.

Lemma place_of_snoc pre y : Next y.1 = place_of (pre ++ [y]).
Proof. unfold place_of. by rewrite last_snoc. Qed.

(** ** The walk of [free] *)

Section walk.
Context h (x : chunk).
Hypothesis Hx : wf_chunk x.
Hypothesis Hword : word_at (hmem h) (lo x) (x.2 + 1).

Definition below (y : chunk) : Prop := y.1 + y.2 < x.1.

Lemma free_walk_spec r pre f :
  (length r < f)%nat -> flist h (pre ++ r) -> Forall (apart x) (pre ++ r) -> Forall below pre ->
  (exists r1 r2, r = r1 ++ r2 /\ Forall below (pre ++ r1) /\
     Forall (fun y => x.1 + x.2 <= y.1) r2 /\
     loop (free_walk_step x.1) f (place_of pre) h =
     Some (InsertAt (place_of (pre ++ r1)) (head_or r2 0), h)) \/
  (exists r1 y r2 m', r = r1 ++ y :: r2 /\ Forall below (pre ++ r1) /\ y.1 + y.2 = x.1 /\
     loop (free_walk_step x.1) f (place_of pre) h =
     Some (MergedInto y.1 (head_or r2 0), with_mem h m') /\
     word_at m' (lo y) (y.2 + x.2 + 1) /\ chg (word_cells (lo y)) (hmem h) m').
Proof.
  revert pre f. induction r as [|y r IH]; intros pre [|f] Hf Hfl Hap Hbl; simpl in Hf; try lia.
  all: destruct (flist_seg _ _ _ Hfl) as [Hseg _].
  { left. exists [], []. rewrite (app_nil_r pre). split_and!; try done.
    erewrite loop_stop; [done|]. unfold free_walk_step.
    by rewrite (bind_eq _ _ _ _ _ (read_place_eq _ _ _ Hseg)). }
  destruct (flist_chunk _ _ _ _ Hfl) as (Hy & Hmy & Hhy & Hny).
  pose proof (wf_bounds _ Hy) as By. pose proof (wf_bounds _ Hx) as Bx.
  assert (apart x y) as Hxy. { rewrite Forall_app, Forall_cons in Hap. tauto. }
  unfold apart, hi, lo in Hxy. cbn [head_or] in Hseg.
  destruct (Z.leb_spec x.1 y.1) as [Hle|Hgt].
  { left. exists [], (y :: r). rewrite (app_nil_r pre). split_and!; try done.
    - constructor; [lia|]. destruct Hfl as [_ _ Hs _ _]. apply StronglySorted_app in Hs as (_ & _ & Hs).
      apply StronglySorted_cons in Hs as [Hs _]. eapply Forall_impl; [exact Hs|].
      intros z Hz. unfold gap in Hz. lia.
    - erewrite loop_stop; [done|]. unfold free_walk_step.
      rewrite (bind_eq _ _ _ _ _ (read_place_eq _ _ _ Hseg)).
      rewrite (proj2 (Z.eqb_neq y.1 NULL)) by (unfold NULL; lia).
      rewrite (proj2 (Z.leb_le _ _) Hle). by rewrite (proj2 (Z.eqb_neq x.1 y.1)) by lia. }
  destruct (Z.eqb_spec (y.1 + y.2) x.1) as [Eq|Ne].
  - right. destruct (put_size_ref_eq h y (y.2 + 1 + x.2) Hy Hmy) as (m1 & E1 & W1 & C1).
    { pose proof (wf_hi _ Hx). pose proof (wf_pos _ Hy). unfold hi, lo in *. lia. }
    assert (word_at m1 y.1 (head_or r 0)) as Hny1.
    { eapply word_chg; [exact C1|done|]. intros a Ha Hb. by eapply head_next_apart. }
    exists [], y, r, m1. rewrite (app_nil_r pre). split_and!; try done.
    + erewrite loop_stop; [done|]. unfold free_walk_step.
      rewrite (bind_eq _ _ _ _ _ (read_place_eq _ _ _ Hseg)).
      rewrite (proj2 (Z.eqb_neq y.1 NULL)) by (unfold NULL; lia).
      rewrite (proj2 (Z.leb_gt _ _) Hgt), (bind_eq _ _ _ _ _ (chunk_after_eq _ _ Hy Hhy)).
      rewrite (proj2 (Z.eqb_eq _ _) Eq), (bind_eq _ _ _ _ _ (get_size_ref_eq _ _ _ Hhy)).
      rewrite (bind_eq _ _ _ _ _ (_size_free_eq _ _ Hx Hword)), (bind_eq _ _ _ _ _ E1).
      by rewrite (bind_eq _ _ _ _ _ (get_next_eq (with_mem h m1) _ _ Hny1)).
    + by replace (y.2 + x.2 + 1) with (y.2 + 1 + x.2) by lia.
  - erewrite loop_go.
    2: { unfold free_walk_step. rewrite (bind_eq _ _ _ _ _ (read_place_eq _ _ _ Hseg)).
         rewrite (proj2 (Z.eqb_neq y.1 NULL)) by (unfold NULL; lia).
         rewrite (proj2 (Z.leb_gt _ _) Hgt), (bind_eq _ _ _ _ _ (chunk_after_eq _ _ Hy Hhy)).
         rewrite (proj2 (Z.eqb_neq _ _) Ne), (place_of_snoc pre y). reflexivity. }
    change (y :: r) with ([y] ++ r) in Hfl, Hap. rewrite app_assoc in Hfl, Hap.
    destruct (IH (pre ++ [y]) f) as [(r1 & r2 & -> & Hb & Hr & E)|(r1 & z & r2 & m' & -> & Hb & Ez & E & W & Cg)];
      try done; [lia| | |].
    + apply Forall_app. split; [done|]. constructor; [unfold below; lia|done].
    + left. exists (y :: r1), r2. rewrite <- app_assoc in Hb, E. done.
    + right. exists (y :: r1), z, r2, m'. rewrite <- app_assoc in Hb. done.
Qed.
End walk.

(** ** [free] *)

Lemma free_insert_below x pre r :
  Forall (fun y => 0 < y.2) pre -> Forall (below x) pre ->
  free_insert x (pre ++ r) = pre ++ free_insert x r.
Proof.
  unfold below. intros Hp Hb. induction pre as [|y pre IH]; [done|].
  inversion_clear Hp. inversion_clear Hb. cbn [app free_insert].
  rewrite (proj2 (Z.leb_gt _ _)) by lia. rewrite (proj2 (Z.eqb_neq _ _)) by lia.
  by rewrite IH.
Qed.

Lemma free_insert_here x r :
  0 < x.2 -> Forall (fun y => x.1 + x.2 <= y.1) r -> free_insert x r = merge_next x r.
Proof.
  intros Hx Hr. destruct r as [|y r]; [done|]. inversion_clear Hr. cbn [free_insert].
  by rewrite (proj2 (Z.leb_le _ _)) by lia.
Qed.

(** The list around a merge is in order again. *)
Lemma merge_next_ok m pre z r :
  StronglySorted gap pre -> Forall (fun y => y.1 + y.2 < z.1) pre ->
  StronglySorted gap r -> Forall (fun y => z.1 + z.2 <= y.1) r ->
  Forall wf_chunk (pre ++ z :: r) -> Forall (chunk_mapped m) (pre ++ z :: r) ->
  StronglySorted gap (pre ++ merge_next z r) /\ Forall wf_chunk (pre ++ merge_next z r) /\
  Forall (chunk_mapped m) (pre ++ merge_next z r).
Proof.
  intros Hs Hb Hsr Hr Hw Hm. apply Forall_app in Hw as [Hwp Hw], Hm as [Hmp Hm].
  inversion_clear Hw as [|? ? Hz Hwr]. inversion_clear Hm as [|? ? Hmz Hmr].
  assert (forall y, y ∈ pre -> y.1 + y.2 < z.1) as Hpz by by apply Forall_forall.
  pose proof (wf_bounds _ Hz) as Bz. destruct r as [|y r]; cbn [merge_next].
  { split_and!; try (apply Forall_app; split; [done|by constructor]).
    apply StronglySorted_app_2; [|done|repeat constructor].
    intros a b Ha Hbz. apply list_elem_of_singleton in Hbz as ->. unfold gap. auto. }
  inversion_clear Hr as [|? ? Hzy Hzr]. apply StronglySorted_cons in Hsr as [Hyr Hsr].
  inversion_clear Hwr as [|? ? Hy Hwr']. inversion_clear Hmr as [|? ? Hmy Hmr'].
  pose proof (wf_bounds _ Hy) as By. rewrite Forall_forall in Hyr. unfold gap in Hyr.
  assert (forall w, w ∈ r -> y.1 + y.2 < w.1) as Hyr' by auto. case_bool.
  - assert (wf_chunk (z.1, z.2 + y.2)) as Hzy'.
    { destruct Hz as [P1 P2 P3 P4 P5], Hy as [Q1 Q2 Q3 Q4 Q5]. unfold lo, hi in *.
      split; unfold lo, hi; simpl; try done; [by apply Z.divide_add_r|lia..]. }
    split_and!; [|by apply Forall_app; split; [|constructor]|].
    + apply StronglySorted_app_2; [|done|].
      * intros a b Ha Hbz. unfold gap. specialize (Hpz a Ha).
        apply elem_of_cons in Hbz as [->|Hbz]; simpl; [lia|]. specialize (Hyr' b Hbz). lia.
      * apply StronglySorted_cons. split; [|done]. apply Forall_forall. intros w Hwin.
        unfold gap. simpl. specialize (Hyr' w Hwin). lia.
    + apply Forall_app. split; [done|]. constructor; [|done].
      intros a Ha. unfold lo in Ha. simpl in Ha.
      destruct (Z.lt_ge_cases a (hi z)); [apply Hmz|apply Hmy]; unfold lo, hi in *; lia.
  - split_and!; [|apply Forall_app; split; [done|constructor; [done|by constructor]]..].
    apply StronglySorted_app_2; [|done|].
    + intros a b Ha Hbz. unfold gap. specialize (Hpz a Ha).
      apply elem_of_cons in Hbz as [->|Hbz]; [lia|].
      apply elem_of_cons in Hbz as [->|Hbz]; [lia|]. specialize (Hyr' b Hbz). lia.
    + apply StronglySorted_cons. split.
      * constructor; [unfold gap; lia|]. apply Forall_forall. intros w Hwin.
        unfold gap. specialize (Hyr' w Hwin). lia.
      * apply StronglySorted_cons. split; [|done]. by apply Forall_forall.
Qed.

(** The step from [no_insert] on, in the whole list. *)
Lemma free_finish h pre z r :
  StronglySorted gap pre -> Forall (fun y => y.1 + y.2 < z.1) pre ->
  StronglySorted gap r -> Forall (fun y => z.1 + z.2 <= y.1) r ->
  Forall wf_chunk (pre ++ z :: r) -> Forall (chunk_mapped (hmem h)) (pre ++ z :: r) ->
  seg h pre z.1 -> linked (hmem h) (z :: r) 0 ->
  exists m', free_no_insert z.1 (head_or r 0) h = Some (tt, with_mem h m') /\
    flist (with_mem h m') (pre ++ merge_next z r) /\ chg (in_chunk z) (hmem h) m'.
Proof.
  intros Hs Hb Hsr Hr Hw Hm [Hp Hl] Hlz.
  pose proof (proj1 (Forall_app _ _ _) Hw) as [Hwp Hwz].
  pose proof (proj1 (Forall_app _ _ _) Hm) as [Hmp Hmz].
  destruct (free_no_insert_spec h z r Hlz Hwz Hmz Hr) as (m' & E & Hl' & Cg).
  exists m'. split; [done|]. split; [|done].
  destruct (merge_next_ok m' pre z r) as (K1 & K2 & K3); try done.
  { by eapply chg_all_mapped. }
  split; try done.
  - cbn [__malloc_free_list with_mem]. rewrite Hp, head_or_app. f_equal.
    destruct r; simpl; [done|]. by case_bool.
  - apply linked_app. split; [|done]. eapply linked_chg; [exact Cg|done| |].
    + replace (head_or (merge_next z r) 0) with z.1; [done|]. destruct r; simpl; [done|]. by case_bool.
    + intros y a Hy Ha Hc. rewrite Forall_forall in Hb, Hwp. specialize (Hb y Hy).
      inversion_clear Hwz. eapply (gap_apart y z a); eauto. lia.
Qed.

Lemma flist_chg R h m' l :
  flist h l -> chg R (hmem h) m' -> (forall y a, y ∈ l -> in_chunk y a -> ~ R a) ->
  flist (with_mem h m') l.
Proof.
  intros [F1 F2 F3 F4 F5] Hc Hd. split; try done.
  - by eapply linked_chg.
  - by eapply chg_all_mapped.
Qed.

Lemma apart_sym x y a : apart x y -> in_chunk y a -> ~ in_chunk x a.
Proof. unfold apart, in_chunk. lia. Qed.

Lemma in_some_elem (x : chunk) l a : x ∈ l -> in_chunk x a -> in_some l a.
Proof. by exists x. Qed.

(** The case without a merge: [x] goes in between [r1] and [r2]. *)
Lemma free_insert_case h x r1 r2 :
  flist h (r1 ++ r2) -> wf_chunk x -> chunk_mapped (hmem h) x ->
  word_at (hmem h) (lo x) (x.2 + 1) -> Forall (apart x) (r1 ++ r2) ->
  Forall (below x) r1 -> Forall (fun y => x.1 + x.2 <= y.1) r2 ->
  exists m' p',
    (run set_next x.1 (head_or r2 0);
     run write_place (place_of r1) x.1;
     free_no_insert x.1 (head_or r2 0)) h = Some (tt, upd h m' p') /\
    flist (upd h m' p') (r1 ++ merge_next x r2) /\
    chg (in_some (x :: r1 ++ r2)) (hmem h) m'.
Proof.
  intros Hfl Hx Hmx Hhx Hap Hb Hr.
  pose proof (fl_wf _ _ Hfl) as Hw. pose proof (proj1 (Forall_app _ _ _) Hw) as [Hw1 Hw2].
  pose proof (proj1 (StronglySorted_app _ _ _) (fl_sorted _ _ Hfl)) as (_ & Hs1 & Hs2).
  destruct (set_next_eq h x (head_or r2 0) Hx Hmx (head_or_range _ Hw2)) as (m1 & E1 & W1 & C1).
  rewrite (bind_eq _ _ _ _ _ E1).
  assert (chg (in_chunk x) (hmem h) m1) as C1' by (eapply chg_mono; [exact C1|]; intros; by apply wf_next_in).
  assert (flist (with_mem h m1) (r1 ++ r2)) as Hfl1.
  { eapply flist_chg; [done|exact C1'|]. intros y a Hy Ha. rewrite Forall_forall in Hap.
    eapply apart_sym; eauto. }
  destruct (flist_seg _ _ _ Hfl1) as [Hseg1 Hl2].
  pose proof (proj1 (Forall_app _ _ _) (fl_mapped _ _ Hfl1)) as [Hm1 Hm2].
  pose proof (wf_bounds _ Hx) as Bx.
  destruct (write_place_eq _ _ _ x.1 Hseg1 Hw1 Hs1 Hm1 ltac:(lia)) as (m2 & p2 & E2 & -> & Hl1 & C2).
  rewrite (bind_eq _ _ _ _ _ E2). cbn [hmem with_mem] in *.
  assert (forall y a, (y = x \/ y ∈ r2) -> in_chunk y a -> ~ in_some r1 a) as Hd.
  { intros y a Hy Ha (z & Hz & Hza). rewrite Forall_forall in Hb, Hr. specialize (Hb z Hz).
    unfold below in Hb. unfold in_chunk, lo, hi in *.
    destruct Hy as [->|Hy]; [lia|]. specialize (Hr y Hy). lia. }
  set (h2 := upd (with_mem h m1) m2 (head_or r1 x.1)).
  destruct (free_finish h2 r1 x r2) as (m3 & E3 & Hfl3 & C3); try done.
  - by apply Forall_app; split; [|constructor].
  - assert (chunk_mapped m2 x) as Hmx2 by (do 2 (eapply chg_chunk_mapped; [eassumption|]); done).
    apply Forall_app; split; [|constructor]; [|done|]; by eapply chg_all_mapped.
  - simpl. split_and!.
    + eapply word_chg; [exact C2| |].
      * eapply word_chg; [exact C1|done|]. intros a. by apply head_next_apart.
      * intros a Ha. apply (Hd x); [by left|by apply wf_head_in].
    + eapply word_chg; [exact C2|done|]. intros a Ha. apply (Hd x); [by left|by apply wf_next_in].
    + eapply linked_chg; [exact C2|done..|]. intros y a Hy. apply (Hd y). by right.
  - exists m3, (head_or r1 x.1). split; [exact E3|]. split; [exact Hfl3|].
    etransitivity; [eapply chg_mono; [exact C1'|]|etransitivity; eapply chg_mono; [exact C2| |exact C3|]].
    + intros a. apply in_some_elem. set_solver.
    + intros a (y & Hy & Ha). exists y. split; [set_solver|done].
    + intros a. apply in_some_elem. set_solver.
Qed.

(** The case where [x] was merged into the chunk [y] in front of it. *)
Lemma free_merge_case h m1 x y r1 r2 :
  flist h (r1 ++ y :: r2) -> wf_chunk x -> chunk_mapped (hmem h) x -> Forall (apart x) (r1 ++ y :: r2) ->
  Forall (below x) r1 -> y.1 + y.2 = x.1 ->
  word_at m1 (lo y) (y.2 + x.2 + 1) -> chg (word_cells (lo y)) (hmem h) m1 ->
  exists m', free_no_insert y.1 (head_or r2 0) (with_mem h m1) = Some (tt, with_mem h m') /\
    flist (with_mem h m') (r1 ++ merge_next (y.1, y.2 + x.2) r2) /\
    chg (in_some (x :: r1 ++ y :: r2)) (hmem h) m'.
Proof.
  intros Hfl Hx Hmx Hap Hb Ey W1 C1.
  destruct (flist_chunk _ _ _ _ Hfl) as (Hy & Hmy & Hhy & Hny).
  destruct (flist_seg _ _ _ Hfl) as [[Hp Hl1] (_ & _ & Hl2)].
  pose proof (fl_sorted _ _ Hfl) as Hs. pose proof (sorted_apart _ _ _ Hs) as Hby.
  apply StronglySorted_app in Hs as (_ & Hs1 & Hs2). apply StronglySorted_cons in Hs2 as [Hyr Hs2].
  pose proof (fl_wf _ _ Hfl) as Hw. apply Forall_app in Hw as [Hw1 Hw2]. inversion_clear Hw2 as [|? ? _ Hwr].
  pose proof (fl_mapped _ _ Hfl) as Hm. apply Forall_app in Hm as [Hm1 Hm2]. inversion_clear Hm2 as [|? ? _ Hmr].
  pose proof (wf_bounds _ Hx) as Bx. pose proof (wf_bounds _ Hy) as By.
  assert (Forall (fun z => y.1 + (y.2 + x.2) <= z.1) r2) as Hxr.
  { rewrite Forall_forall in Hap, Hyr, Hwr. apply Forall_forall. intros z Hz.
    assert (apart x z) as Ha by (apply Hap; set_solver). specialize (Hyr z Hz). unfold gap in Hyr.
    pose proof (wf_bounds _ (Hwr z Hz)). unfold apart, lo, hi in Ha. lia. }
  set (z := (y.1, y.2 + x.2)). assert (wf_chunk z) as Hz.
  { destruct Hx as [P1 P2 P3 P4 P5], Hy as [Q1 Q2 Q3 Q4 Q5]. unfold lo, hi in *. subst z.
    split; unfold lo, hi; simpl; try done; [by apply Z.divide_add_r|lia..]. }
  assert (chunk_mapped (hmem h) z) as Hmz.
  { intros a Ha. subst z. unfold lo in Ha. simpl in Ha.
    destruct (Z.lt_ge_cases a (hi y)); [apply Hmy|apply Hmx]; unfold lo, hi in *; lia. }
  assert (forall w a, w ∈ r1 ++ r2 -> in_chunk w a -> ~ word_cells (lo y) a) as Hd.
  { intros w a Hin Ha Hc%wf_head_in; [|done]. rewrite Forall_forall in Hby, Hyr.
    apply elem_of_app in Hin as [Hin|Hin]; [specialize (Hby w Hin)|specialize (Hyr w Hin)];
      unfold gap, in_chunk, lo, hi in *; lia. }
  destruct (free_finish (with_mem h m1) r1 z r2) as (m2 & E2 & Hfl2 & C2); try done.
  - apply Forall_app; split; [|constructor]; done.
  - eapply chg_all_mapped; [exact C1|]. apply Forall_app; split; [done|constructor]; done.
  - split; [done|]. eapply linked_chg; [exact C1|done..|]. intros w a Hw. apply Hd. set_solver.
  - simpl. split_and!; [done| |].
    + eapply word_chg; [exact C1|done|]. intros a Ha Hb'. by eapply (head_next_apart y).
    + eapply linked_chg; [exact C1|done..|]. intros w a Hw. apply Hd. set_solver.
  - exists m2. split; [exact E2|]. split; [exact Hfl2|].
    etransitivity; eapply chg_mono; [exact C1| |exact C2|].
    + intros a Ha. apply (in_some_elem y); [set_solver|by apply wf_head_in].
    + intros a Ha. destruct (Z.lt_ge_cases a (hi y)).
      * apply (in_some_elem y); [set_solver|]. subst z. unfold in_chunk, lo, hi in *. simpl in *. lia.
      * apply (in_some_elem x); [set_solver|]. subst z. unfold in_chunk, lo, hi in *. simpl in *. lia.
Qed.

Variable fuel : nat.

Lemma free_spec h l x :
  (length l < fuel)%nat -> flist h l -> wf_chunk x -> chunk_mapped (hmem h) x ->
  word_at (hmem h) (lo x) x.2 -> Forall (apart x) l ->
  exists m' p', __malloc_free fuel x.1 h = Some (tt, upd h m' p') /\
    flist (upd h m' p') (free_insert x l) /\ chg (in_some (x :: l)) (hmem h) m'.
Proof.
  intros Hf Hfl Hx Hmx Hhx Hap. pose proof (wf_bounds _ Hx) as Bx. unfold __malloc_free.
  rewrite (proj2 (Z.eqb_neq x.1 NULL)) by (unfold NULL; lia).
  assert (_check_busy x.1 h = Some (true, h)) as Ec.
  { unfold _check_busy, _is_free. unfold bind at 1.
    rewrite (bind_eq _ _ _ _ _ (get_size_ref_eq _ _ _ Hhx)), land_1.
    rewrite (proj2 (Z.mod_divide x.2 2 ltac:(lia))) by tauto. done. }
  rewrite (bind_eq _ _ _ _ _ Ec). cbn [negb].
  destruct (set_next_eq h x NULL Hx Hmx) as (m1 & E1 & W1 & C1); [unfold NULL; lia|].
  rewrite (bind_eq _ _ _ _ _ E1).
  destruct (_mark_free_eq (with_mem h m1) x Hx) as (m2 & E2 & W2 & C2).
  { by eapply chg_chunk_mapped. }
  { eapply word_chg; [exact C1|done|]. intros a. by apply head_next_apart. }
  rewrite (bind_eq _ _ _ _ _ E2). cbn [hmem with_mem] in C2.
  assert (chg (in_chunk x) (hmem h) m2) as C.
  { etransitivity; eapply chg_mono; [exact C1| |exact C2|]; intros a;
      [by apply wf_next_in|by apply wf_head_in]. }
  assert (flist (with_mem h m2) l) as Hfl2.
  { eapply flist_chg; [done|exact C|]. intros y a Hy Ha. rewrite Forall_forall in Hap.
    eapply apart_sym; eauto. }
  assert (chunk_mapped m2 x) as Hmx2 by by eapply chg_chunk_mapped.
  assert (Forall (fun y : chunk => 0 < y.2) l) as Hpos.
  { eapply Forall_impl; [exact (fl_wf _ _ Hfl)|]. intros y Hy%wf_bounds. lia. }
  change (with_mem (with_mem h m1) m2) with (with_mem h m2).
  unfold free_walk. change FreeList with (place_of []).
  destruct (free_walk_spec (with_mem h m2) x Hx W2 l [] fuel Hf Hfl2 Hap ltac:(done))
    as [(r1 & r2 & -> & Hb & Hr & E)|(r1 & y & r2 & m3 & -> & Hb & Ey & E & W & C3)];
    rewrite (bind_eq _ _ _ _ _ E); cbn [app] in *;
    apply Forall_app in Hpos as [Hpos1 Hpos2]; rewrite free_insert_below by done.
  - destruct (free_insert_case (with_mem h m2) x r1 r2) as (m4 & p4 & E4 & Hfl4 & C4); try done.
    exists m4, p4. rewrite E4. split; [done|]. rewrite free_insert_here by (done || lia).
    split; [done|]. etransitivity; [|exact C4]. eapply chg_mono; [exact C|].
    intros a. apply in_some_elem. set_solver.
  - destruct (free_merge_case (with_mem h m2) m3 x y r1 r2) as (m4 & E4 & Hfl4 & C4); try done.
    exists m4, (__malloc_free_list h). split; [exact E4|]. cbn [free_insert].
    inversion_clear Hpos2. rewrite (proj2 (Z.leb_gt _ _)) by lia. rewrite (proj2 (Z.eqb_eq _ _) Ey).
    split; [exact Hfl4|]. etransitivity; [|exact C4]. eapply chg_mono; [exact C|].
    intros a. apply in_some_elem. set_solver.
Qed.

(** ** The search of [malloc] *)

Lemma flist_replace h m' p' pre r r' :
  StronglySorted gap (pre ++ r') -> Forall wf_chunk (pre ++ r') ->
  Forall (chunk_mapped m') (pre ++ r') -> p' = head_or pre (head_or r' 0) ->
  linked m' pre (head_or r' 0) -> linked m' r' 0 -> flist h (pre ++ r) ->
  flist (upd h m' p') (pre ++ r').
Proof.
  intros Hs Hw Hm -> Hl Hl' _. split; try done.
  - cbn. by rewrite head_or_app.
  - apply linked_app. by split.
Qed.

(** Writing the link of the place in front of [r] to the list [r']. *)
Lemma relink h pre r r' m :
  flist h (pre ++ r) -> chg (in_some r) (hmem h) m ->
  StronglySorted gap (pre ++ r') -> Forall wf_chunk r' -> Forall (chunk_mapped m) r' ->
  linked m r' 0 ->
  (forall y a, y ∈ pre -> in_chunk y a -> ~ in_some r a) ->
  (forall y a, y ∈ r' -> in_chunk y a -> ~ in_some pre a) ->
  exists m' p', write_place (place_of pre) (head_or r' 0) (with_mem h m) = Some (tt, upd h m' p') /\
    flist (upd h m' p') (pre ++ r') /\ chg (in_some pre) m m'.
Proof.
  intros Hfl Cg Hs Hw' Hm' Hl' Hd Hd'. destruct (flist_seg _ _ _ Hfl) as [[Hp Hl] _].
  pose proof (proj1 (Forall_app _ _ _) (fl_wf _ _ Hfl)) as [Hw _].
  pose proof (proj1 (Forall_app _ _ _) (fl_mapped _ _ Hfl)) as [Hm _].
  assert (seg (with_mem h m) pre (head_or r 0)) as Hseg.
  { split; [done|]. eapply linked_chg; [exact Cg|done..|]. eauto. }
  pose proof (proj1 (StronglySorted_app _ _ _) Hs) as (_ & Hs1 & _).
  assert (Forall (chunk_mapped m) pre) as Hmp by by eapply chg_all_mapped.
  destruct (write_place_eq (with_mem h m) pre (head_or r 0) (head_or r' 0) Hseg Hw Hs1 Hmp
              (head_or_range _ Hw')) as (m' & p' & E & -> & Hl2 & C2).
  exists m', (head_or pre (head_or r' 0)). split; [exact E|]. split; [|exact C2].
  cbn [hmem with_mem] in C2. eapply flist_replace; try done.
  - by apply Forall_app.
  - apply Forall_app. split; by eapply chg_all_mapped.
  - eapply linked_chg; [exact C2|done..|]. eauto.
Qed.

Lemma sorted_pre_apart pre r y z a :
  StronglySorted gap (pre ++ r) -> y ∈ pre -> z ∈ r -> in_chunk y a -> ~ in_chunk z a.
Proof.
  intros Hs Hy Hz. pose proof (StronglySorted_app_1_elem_of _ _ _ _ _ Hs Hy Hz) as Hg.
  unfold gap, in_chunk, lo, hi in *. lia.
Qed.

Section search.
Context (h : heap B) (k : Z).
Hypothesis Hk : (MALLOC_CHUNK_ALIGN | k).
Hypothesis Hkmin : MALLOC_CHUNK_MIN <= k.

(** A chunk large enough to be cut in two. *)
Lemma split_wf y :
  wf_chunk y -> MALLOC_CHUNK_MIN <= y.2 - k ->
  wf_chunk (y.1, k) /\ wf_chunk (y.1 + k, y.2 - k).
Proof.
  intros [P1 P2 P3 P4 P5] Hrem. pose proof chunk_min_align. pose proof chunk_align_pos.
  unfold lo, hi in *. split; split; unfold lo, hi; simpl; try done; try lia.
  - by apply Z.divide_add_r.
  - by apply Z.divide_sub_r.
Qed.

(** The remainder is given its header and link, and the first part its size. *)
Lemma split_stores y nx :
  let s := (y.1 + k, y.2 - k) in
  wf_chunk y -> chunk_mapped (hmem h) y -> word_at (hmem h) y.1 nx ->
  MALLOC_CHUNK_MIN <= y.2 - k ->
  exists m', (run _set_size y.1 k;
              run _set_size s.1 (y.2 - k);
              run _mark_free s.1;
              do cn <- get_next y.1;
              set_next s.1 cn) h = Some (tt, with_mem h m') /\
    word_at m' (lo y) k /\ word_at m' (lo s) (s.2 + 1) /\ word_at m' s.1 nx /\
    chg (in_chunk y) (hmem h) m'.
Proof.
  intros s Hy Hm Hn Hrem. destruct (split_wf y Hy Hrem) as [Hy1 Hs]. fold s in Hs.
  pose proof (wf_bounds _ Hy) as By. pose proof (wf_bounds _ Hs) as Bs.
  pose proof (wf_bounds _ Hy1) as B1. cbn [fst snd s] in Bs, B1.
  assert (chunk_mapped (hmem h) s) as Hms.
  { eapply mapped_weaken; [exact Hm|subst s; unfold lo; simpl; lia..]. }
  assert (forall a, in_chunk s a -> in_chunk y a) as Hin.
  { intros a. subst s. unfold in_chunk, lo, hi. simpl. lia. }
  assert (forall a, in_chunk s a -> ~ in_chunk (y.1, k) a) as Hsy.
  { intros a. subst s. unfold in_chunk, lo, hi. simpl. lia. }
  unfold _set_size.
  destruct (put_size_ref_eq h (y.1, k) k Hy1) as (m1 & E1 & W1 & C1).
  { eapply mapped_weaken; [exact Hm|unfold lo; simpl; lia..]. } { lia. }
  cbn [fst] in E1. rewrite (bind_eq _ _ _ _ _ E1).
  destruct (put_size_ref_eq (with_mem h m1) s s.2 Hs) as (m2 & E2 & W2 & C2).
  { by eapply chg_chunk_mapped. } { subst s; simpl; lia. }
  cbn [snd s] in E2. rewrite (bind_eq _ _ _ _ _ E2). cbn [hmem with_mem] in C2.
  destruct (_mark_free_eq (with_mem h m2) s Hs) as (m3 & E3 & W3 & C3).
  { do 2 (eapply chg_chunk_mapped; [eassumption|]). done. } { done. }
  change (with_mem (with_mem h m1) m2) with (with_mem h m2). rewrite (bind_eq _ _ _ _ _ E3).
  cbn [hmem with_mem] in C3.
  assert (chg (in_chunk s) m1 m3) as C13.
  { etransitivity; eapply chg_mono; [exact C2| |exact C3|]; intros a; by apply wf_head_in. }
  assert (word_at m3 y.1 nx) as Hn3.
  { eapply word_chg; [exact C13| |].
    - eapply word_chg; [exact C1|exact Hn|]. intros a Ha Hb. by eapply (head_next_apart (y.1, k)).
    - intros a Ha Hb. apply (Hsy a Hb). by apply (wf_next_in (y.1, k)). }
  rewrite (bind_eq _ _ _ _ _ (get_next_eq (with_mem h m3) _ _ Hn3)).
  destruct (set_next_eq (with_mem h m3) s nx Hs) as (m4 & E4 & W4 & C4).
  { eapply chg_chunk_mapped; [exact C13|]. by eapply chg_chunk_mapped. } { apply Hn. }
  exists m4. split; [exact E4|]. cbn [hmem with_mem] in C4.
  assert (chg (in_chunk s) m1 m4) as C14.
  { etransitivity; [exact C13|]. eapply chg_mono; [exact C4|]. intros a. by apply wf_next_in. }
  split_and!.
  - eapply word_chg; [exact C14|exact W1|]. intros a Ha Hb. apply (Hsy a Hb).
    by apply (wf_head_in (y.1, k)).
  - eapply word_chg; [exact C4|exact W3|]. intros a. by apply head_next_apart.
  - done.
  - etransitivity; eapply chg_mono; [exact C1| |exact C14|exact Hin].
    intros a Ha. by apply (wf_head_in y).
Qed.
End search.

(** A free chunk cannot be grown: [chunk_end] counts the free bit. *)
Lemma grow_free_fails h x k :
  word_at (hmem h) (lo x) (x.2 + 1) -> hi x + 1 <> __malloc_sbrk_top h ->
  __malloc_grow_chunk fuel x.1 k h = Some (false, h).
Proof.
  intros Hw Ht. unfold __malloc_grow_chunk, chunk_end. unfold bind at 1.
  rewrite (bind_eq _ _ _ _ _ (get_size_ref_eq _ _ _ Hw)).
  unfold ret at 1, bind, get, _size_ref, MALLOC_HEAD_SIZE. unfold hi in Ht.
  by rewrite (proj2 (Z.eqb_neq _ _)) by lia.
Qed.

Section search_loop.
Context (h : heap B) (k : Z).
Hypothesis Hk : (MALLOC_CHUNK_ALIGN | k).
Hypothesis Hkmin : MALLOC_CHUNK_MIN <= k.

(** The chunk found is unlinked; its header holds the size it keeps, the
    free bit being clear when it was cut. *)
Definition found pre r (f : nat) (c n : Z) r' : Prop :=
  exists m' p' v,
    loop (malloc_search_step fuel k) f (place_of pre) h = Some (c, upd h m' p') /\
    flist (upd h m' p') (pre ++ r') /\ chg (in_some (pre ++ r)) (hmem h) m' /\
    word_at m' (c - Z.of_nat long_size) v /\ (v = n \/ v = n + 1).

Lemma search_split pre y r f :
  flist h (pre ++ y :: r) -> k <= y.2 -> MALLOC_CHUNK_MIN <= y.2 - k ->
  found pre (y :: r) (S f) y.1 k ((y.1 + k, y.2 - k) :: r).
Proof.
  intros Hfl Hfit Hrem. destruct (flist_seg _ _ _ Hfl) as [Hseg Hlr].
  destruct (flist_chunk _ _ _ _ Hfl) as (Hy & Hmy & Hhy & Hny).
  pose proof (wf_bounds _ Hy) as By. pose proof (fl_sorted _ _ Hfl) as Hs.
  pose proof (proj1 (Forall_app _ _ _) (fl_wf _ _ Hfl)) as [Hwp Hwr].
  pose proof (proj1 (Forall_app _ _ _) (fl_mapped _ _ Hfl)) as [Hmp Hmr].
  apply Forall_cons in Hwr as [_ Hwr], Hmr as [_ Hmr]. destruct Hlr as (_ & _ & Hlr).
  destruct (split_stores h k Hk Hkmin y (head_or r 0) Hy Hmy Hny Hrem) as (m1 & E & W1 & W2 & W3 & C1).
  destruct (split_wf k Hk Hkmin y Hy Hrem) as [_ Hsw].
  set (s := (y.1 + k, y.2 - k)) in *.
  assert (forall w a, w ∈ pre -> in_chunk w a -> ~ in_some (y :: r) a) as Hd.
  { intros w a Hw Ha (z & Hz & Hza). by eapply (sorted_pre_apart pre (y :: r) w z a). }
  assert (forall a, in_chunk s a -> in_chunk y a) as Hsy.
  { intros a. subst s. unfold in_chunk, lo, hi. simpl. pose proof chunk_min_align.
    pose proof chunk_align_pos. lia. }
  assert (chg (in_some (y :: r)) (hmem h) m1) as C1'.
  { eapply chg_mono; [exact C1|]. intros a. apply in_some_elem. set_solver. }
  destruct (relink h pre (y :: r) (s :: r) m1) as (m2 & p2 & E2 & Hfl2 & C2); try done.
  - pose proof chunk_min_align. pose proof chunk_align_pos.
    apply StronglySorted_app in Hs as (Hg & Hs1 & Hs2). apply StronglySorted_cons in Hs2 as [Hyr Hs2].
    apply StronglySorted_app_2; [|done|apply StronglySorted_cons; split; [|done]].
    + intros w z Hw [->|Hz]%elem_of_cons; [|apply Hg; [done|set_solver]].
      specialize (Hg w y Hw ltac:(set_solver)). unfold gap in *. subst s. simpl. lia.
    + eapply Forall_impl; [exact Hyr|]. intros z. unfold gap. subst s. simpl. lia.
  - by constructor.
  - constructor; [|by eapply chg_all_mapped]. eapply chg_chunk_mapped; [exact C1|].
    eapply mapped_weaken; [exact Hmy|subst s; unfold lo; simpl; pose proof chunk_min_align;
      pose proof chunk_align_pos; lia..].
  - simpl. split_and!; [exact W2|exact W3|]. eapply linked_chg; [exact C1|done..|].
    intros w a Hw Ha Hb. apply StronglySorted_app in Hs as (_ & _ & Hs).
    by apply (sorted_pre_apart [y] r y w a Hs ltac:(set_solver) Hw Hb).
  - intros w a [->|Hw]%elem_of_cons Ha (z & Hz & Hza); apply (Hd z a Hz Hza).
    + exists y. split; [set_solver|auto].
    + exists w. split; [set_solver|done].
  - exists m2, p2, k. split_and!; [|exact Hfl2| | |by left].
    + unfold s in E, E2. cbn [head_or fst snd] in E, E2.
      erewrite loop_stop; [reflexivity|]. unfold malloc_search_step.
      rewrite (bind_eq _ _ _ _ _ (read_place_eq _ _ _ Hseg)). cbn [head_or].
      rewrite (proj2 (Z.eqb_neq y.1 NULL)) by (unfold NULL; lia).
      rewrite (bind_eq _ _ _ _ _ (_size_free_eq _ _ Hy Hhy)).
      rewrite (proj2 (Z.leb_le _ _) Hfit). cbv zeta. rewrite (proj2 (Z.leb_le _ _) Hrem).
      unfold bind in E |- *. repeat csplit E. by rewrite E, E2.
    + etransitivity; eapply chg_mono; [exact C1'| |exact C2|];
        intros a (z & Hz & Hza); (exists z; split; [set_solver|done]).
    + eapply word_chg; [exact C2|exact W1|]. intros a Ha%wf_head_in (z & Hz & Hza); [|done].
      apply (Hd z a Hz Hza). exists y. split; [set_solver|done].
Qed.

Lemma search_take pre y r f :
  flist h (pre ++ y :: r) -> k <= y.2 -> ~ MALLOC_CHUNK_MIN <= y.2 - k ->
  found pre (y :: r) (S f) y.1 y.2 r.
Proof.
  intros Hfl Hfit Hrem. destruct (flist_seg _ _ _ Hfl) as [Hseg Hlr].
  destruct (flist_chunk _ _ _ _ Hfl) as (Hy & Hmy & Hhy & Hny).
  pose proof (wf_bounds _ Hy) as By. pose proof (fl_sorted _ _ Hfl) as Hs.
  pose proof (proj1 (Forall_app _ _ _) (fl_wf _ _ Hfl)) as [Hwp Hwr].
  pose proof (proj1 (Forall_app _ _ _) (fl_mapped _ _ Hfl)) as [Hmp Hmr].
  apply Forall_cons in Hwr as [_ Hwr], Hmr as [_ Hmr]. destruct Hlr as (_ & _ & Hlr).
  assert (forall w a, w ∈ pre -> in_chunk w a -> ~ in_some (y :: r) a) as Hd.
  { intros w a Hw Ha (z & Hz & Hza). by eapply (sorted_pre_apart pre (y :: r) w z a). }
  destruct (relink h pre (y :: r) r (hmem h)) as (m2 & p2 & E2 & Hfl2 & C2); try done.
  - apply StronglySorted_app in Hs as (Hg & Hs1 & Hs2). apply StronglySorted_cons in Hs2 as [Hyr Hs2].
    apply StronglySorted_app_2; [|done..]. intros w z Hw Hz. apply Hg; [done|set_solver].
  - intros w a Hw Ha (z & Hz & Hza). apply (Hd z a Hz Hza). exists w. split; [set_solver|done].
  - rewrite with_mem_same in E2. exists m2, p2, (y.2 + 1). split_and!; [|exact Hfl2| | |by right].
    + erewrite loop_stop; [reflexivity|]. unfold malloc_search_step.
      rewrite (bind_eq _ _ _ _ _ (read_place_eq _ _ _ Hseg)). cbn [head_or].
      rewrite (proj2 (Z.eqb_neq y.1 NULL)) by (unfold NULL; lia).
      rewrite (bind_eq _ _ _ _ _ (_size_free_eq _ _ Hy Hhy)).
      rewrite (proj2 (Z.leb_le _ _) Hfit). cbv zeta.
      rewrite (proj2 (Z.leb_gt _ _)) by lia.
      rewrite (bind_eq _ _ _ _ _ (get_next_eq _ _ _ Hny)). by rewrite (bind_eq _ _ _ _ _ E2).
    + eapply chg_mono; [exact C2|]. intros a (z & Hz & Hza). exists z. split; [set_solver|done].
    + eapply word_chg; [exact C2|exact Hhy|]. intros a Ha%wf_head_in (z & Hz & Hza); [|done].
      apply (Hd z a Hz Hza). exists y. split; [set_solver|done].
Qed.

Lemma malloc_search_loop r pre f :
  (length r < f)%nat -> flist h (pre ++ r) ->
  Forall (fun x => hi x + 1 <> __malloc_sbrk_top h) (pre ++ r) ->
  match first_fit k r with
  | Some (c, n, r') => found pre r f c n r'
  | None => loop (malloc_search_step fuel k) f (place_of pre) h = Some (NULL, h)
  end.
Proof.
  revert pre f. induction r as [|y r IH]; intros pre [|f] Hf Hfl Htop; simpl in Hf; try lia.
  all: destruct (flist_seg _ _ _ Hfl) as [Hseg _].
  { simpl. erewrite loop_stop; [done|]. unfold malloc_search_step.
    by rewrite (bind_eq _ _ _ _ _ (read_place_eq _ _ _ Hseg)). }
  cbn [first_fit]. destruct (Z.leb_spec k y.2) as [Hfit|Hsmall].
  { destruct (Z.leb_spec MALLOC_CHUNK_MIN (y.2 - k)); [by apply search_split|apply search_take; done || lia]. }
  destruct (flist_chunk _ _ _ _ Hfl) as (Hy & Hmy & Hhy & Hny).
  pose proof (wf_bounds _ Hy) as By.
  assert (hi y + 1 <> __malloc_sbrk_top h) as Hty. { rewrite Forall_app, Forall_cons in Htop. tauto. }
  assert (loop (malloc_search_step fuel k) (S f) (place_of pre) h =
          loop (malloc_search_step fuel k) f (place_of (pre ++ [y])) h) as Hgo.
  { erewrite loop_go; [reflexivity|]. unfold malloc_search_step.
    rewrite (bind_eq _ _ _ _ _ (read_place_eq _ _ _ Hseg)). cbn [head_or].
    rewrite (proj2 (Z.eqb_neq y.1 NULL)) by (unfold NULL; lia).
    rewrite (bind_eq _ _ _ _ _ (_size_free_eq _ _ Hy Hhy)), (proj2 (Z.leb_gt _ _) Hsmall).
    rewrite (bind_eq _ _ _ _ _ (get_next_eq _ _ _ Hny)).
    assert ((if head_or r 0 =? NULL then __malloc_grow_chunk fuel y.1 k else ret false) h =
            Some (false, h)) as Eg by (destruct (_ =? NULL); [by apply grow_free_fails|done]).
    by rewrite (bind_eq _ _ _ _ _ Eg), (place_of_snoc pre y). }
  change (y :: r) with ([y] ++ r) in Hfl, Htop. rewrite app_assoc in Hfl, Htop.
  specialize (IH (pre ++ [y]) f ltac:(lia) Hfl Htop).
  destruct (first_fit k r) as [[[c n] r']|]; [|by rewrite Hgo].
  destruct IH as (m' & p' & v & E & F & Cg & W & Hv). exists m', p', v.
  rewrite <- app_assoc in F, Cg. split_and!; try done. by rewrite Hgo.
Qed.
End search_loop.
End list_ops.
