(* ===== verification/MallocHeap.v ===== *)
(** * The invariant of the heap

    The whole heap: a free list and the chunks in use, none of which overlap,
    and the memory the system can still give.  Each entry point of the allocator
    is shown to preserve it: [malloc], [free], [calloc], [realloc] and
    [memalign].  The system break and the string functions are used through
    their laws ([SbrkOk], [MemFnsOk]); the instances for
    libos/fallback/sbrk.c and for the functions of [StrMem] are at the end. *)

From S2P Require Import Prelude CMem StrLocal StrMem Malloc MallocList.
From stdpp Require Import base list gmap sorting.
From Stdlib Require Import ZArith Lia.

Local Open Scope Z_scope.

(** ** Interfaces *)

(** [sbrk_valid b]: a state the break can be in; [sbrk_avail b a]: the byte [a]
    can still be given by [sbrk].  It gives a block of available bytes once, and
    never the last two pages of the address space. *)
Class SbrkOk `{Arch} (B : Type) `{Sbrk B} := {
  sbrk_avail : B -> Z -> Prop;
  sbrk_range : forall b a, sbrk_avail b a -> 0 < a < 2 ^ long_bits - 8192;
  sbrk_valid : B -> Prop;
  sbrk_failed : forall d b b', sbrk_valid b -> 0 < d < 2 ^ (long_bits - 1) ->
    sbrk_op d b = (FAILED, b') ->
    sbrk_valid b' /\ forall a, sbrk_avail b' a -> sbrk_avail b a;
  sbrk_given : forall d b p b', sbrk_valid b -> 0 < d < 2 ^ (long_bits - 1) ->
    sbrk_op d b = (p, b') -> p <> FAILED ->
    sbrk_valid b' /\ (forall a, p <= a < p + d -> sbrk_avail b a) /\
    (forall a, sbrk_avail b' a -> sbrk_avail b a /\ ~ p <= a < p + d) }.

Class MemFnsOk `{MemFns} : Prop := {
  memset_ok : forall n fuel s c m,
    (n < fuel)%nat -> mapped m s (Z.of_nat n) ->
    mf_memset fuel s c (Z.of_nat n) m = Some (s, put_bytes m s (replicate n (uwrap 8 c)));
  memcpy_ok : forall l fuel dst src m,
    (length l < fuel)%nat -> mem_ok m -> bytes_at m src l ->
    mapped m dst (Z.of_nat (length l)) ->
    disjoint_blk dst (Z.of_nat (length l)) src (Z.of_nat (length l)) ->
    mf_memcpy fuel dst src (Z.of_nat (length l)) m = Some (dst, put_bytes m dst l) }.

(** ** The invariant *)

Section heap.
Context `{Arch} `{MallocTarget} {TOk : MallocTargetOk} {B : Type} `{Sbrk B} {SOk : SbrkOk B}.
Context `{MemFns} {FOk : MemFnsOk}.
Implicit Types (h : heap B) (l : list chunk) (al : gmap Z Z).

Definition in_use al (a : Z) : Prop := exists p n, al !! p = Some n /\ in_chunk (p, n) a.
Definition owned l al (a : Z) : Prop := in_some l a \/ in_use al a.

Record busy_chunk h (p n : Z) : Prop := {
  busy_wf : wf_chunk (p, n);
  busy_mapped : chunk_mapped (hmem h) (p, n);
  busy_head : word_at (hmem h) (lo (p, n)) n }.

Record heap_inv h l al : Prop := {
  inv_free : flist h l;
  inv_busy : forall p n, al !! p = Some n -> busy_chunk h p n;
  inv_apart : forall p n q k, al !! p = Some n -> al !! q = Some k -> p <> q -> apart (p, n) (q, k);
  inv_apart_free : forall p n x, al !! p = Some n -> x ∈ l -> apart (p, n) x;
  inv_brk : sbrk_valid (sbrk_state h);
  inv_avail : forall a, sbrk_avail (sbrk_state h) a -> is_Some (hmem h !! a) /\ ~ owned l al a;
  inv_top : (2 | __malloc_sbrk_top h) \/
            (~ owned l al (__malloc_sbrk_top h - 2) /\
             ~ sbrk_avail (sbrk_state h) (__malloc_sbrk_top h - 2));
  inv_ok : mem_ok (hmem h) }.

(** The blocks in use keep their contents. *)
Definition in_data (x : chunk) (a : Z) : Prop := x.1 <= a < hi x.

Lemma in_data_chunk x a : in_data x a -> in_chunk x a.
Proof. unfold in_data, in_chunk, lo, hi. lia. Qed.

Definition same_data al h h' : Prop :=
  forall p n a, al !! p = Some n -> in_data (p, n) a -> hmem h' !! a = hmem h !! a.

#[global] Instance same_data_refl al : Reflexive (same_data al).
Proof. by intros h p n a. Qed.

Lemma same_data_trans al h1 h2 h3 :
  same_data al h1 h2 -> same_data al h2 h3 -> same_data al h1 h3.
Proof. intros H12 H23 p n a Hp Ha. by rewrite (H23 p n), (H12 p n). Qed.

Lemma same_data_sub al al' h h' : al' ⊆ al -> same_data al h h' -> same_data al' h h'.
Proof. intros Hs Hd p n a Hp. apply Hd. by eapply lookup_weaken. Qed.

Lemma chg_same_data R al h h' :
  chg R (hmem h) (hmem h') -> (forall a, in_use al a -> ~ R a) -> same_data al h h'.
Proof.
  intros Hc Hd p n a Hp Ha%in_data_chunk. apply (chg_out _ _ _ Hc). apply Hd. by exists p, n.
Qed.

Lemma busy_chg R h h' p n :
  busy_chunk h p n -> chg R (hmem h) (hmem h') -> (forall a, in_chunk (p, n) a -> ~ R a) ->
  busy_chunk h' p n.
Proof.
  intros [Hw Hm Hh] Hc Hd. split; [done|by eapply chg_chunk_mapped|].
  eapply word_chg; [done..|]. intros a Ha. apply Hd. by apply wf_head_in.
Qed.

Lemma owned_none l al p n a : ~ owned l al a -> al !! p = Some n -> ~ in_chunk (p, n) a.
Proof. intros Hn Hp Ha. apply Hn. right. by exists p, n. Qed.

(** Changing chunks inside the regions already owned. *)
Lemma inv_rebuild R h l al h' l' al' :
  heap_inv h l al -> flist h' l' -> chg R (hmem h) (hmem h') ->
  sbrk_state h' = sbrk_state h -> __malloc_sbrk_top h' = __malloc_sbrk_top h ->
  (forall a, owned l' al' a -> owned l al a) ->
  (forall p n, al' !! p = Some n -> busy_chunk h' p n) ->
  (forall p n q k, al' !! p = Some n -> al' !! q = Some k -> p <> q -> apart (p, n) (q, k)) ->
  (forall p n x, al' !! p = Some n -> x ∈ l' -> apart (p, n) x) ->
  heap_inv h' l' al'.
Proof.
  intros [I1 I2 I3 I4 I0 I5 I6 I7] Hfl Hc Es Et Ho Hb Ha Haf. split; try done.
  - by rewrite Es.
  - rewrite Es. intros a Hav. destruct (I5 a Hav) as [Hm Hn]. split; [by apply (chg_dom _ _ _ Hc)|auto].
  - rewrite Es, Et. destruct I6 as [?|[Hn Hv]]; [by left|right]. split; [|done]. auto.
  - by apply (chg_ok _ _ _ Hc).
Qed.

(** *** Regions of the lists *)

Lemma in_some_cons (x : chunk) l a : in_some (x :: l) a <-> in_chunk x a \/ in_some l a.
Proof.
  split.
  - intros (y & [->|Hy]%elem_of_cons & Ha); [by left|right; by exists y].
  - intros [Ha|(y & Hy & Ha)]; [exists x|exists y]; (split; [set_solver|done]).
Qed.

Lemma in_some_merge_next z r a :
  0 < z.2 -> Forall (fun y => 0 < y.2) r -> in_some (merge_next z r) a -> in_some (z :: r) a.
Proof.
  intros Hz Hr. destruct r as [|y r]; [done|]. cbn [merge_next]. case_bool; [|done].
  apply Forall_cons in Hr as [Hy _]. rewrite !in_some_cons.
  intros [Ha|?]; [|tauto]. unfold in_chunk, lo, hi in *. simpl in Ha.
  destruct (Z.lt_ge_cases a (z.1 - Z.of_nat long_size + z.2)); [left|right; left]; lia.
Qed.

Lemma in_some_free_insert x l a :
  0 < x.2 -> Forall (fun y => 0 < y.2) l -> in_some (free_insert x l) a -> in_some (x :: l) a.
Proof.
  intros Hx Hl. induction Hl as [|y l Hy Hl IH]; cbn [free_insert]; [done|].
  destruct (x.1 <=? y.1).
  { apply in_some_merge_next; [done|by constructor]. }
  case_bool.
  - intros Ha%in_some_merge_next; [|simpl; lia|done]. apply in_some_cons in Ha. rewrite !in_some_cons.
    destruct Ha as [Ha|?]; [|tauto]. unfold in_chunk, lo, hi in *. simpl in Ha.
    destruct (Z.lt_ge_cases a (y.1 - Z.of_nat long_size + y.2)); [right; left|left]; lia.
  - rewrite in_some_cons in IH. rewrite !in_some_cons. tauto.
Qed.

Lemma wf_all_pos l : Forall wf_chunk l -> Forall (fun y : chunk => 0 < y.2) l.
Proof. intros. eapply Forall_impl; [done|]. intros y Hy%wf_bounds. lia. Qed.

Lemma first_fit_in k l c n l' a :
  0 < k -> first_fit k l = Some (c, n, l') ->
  (in_chunk (c, n) a \/ in_some l' a -> in_some l a) /\ (in_chunk (c, n) a -> 0 <= k <= n).
Proof.
  intros Hk. revert c n l'. induction l as [|y l IH]; intros c n l' E; simpl in E; [done|].
  destruct (Z.leb_spec k y.2).
  - destruct (Z.leb_spec MALLOC_CHUNK_MIN (y.2 - k)); simplify_eq; rewrite ?in_some_cons;
      (split; [|lia]); [|tauto]. pose proof (chunk_min_align). pose proof chunk_align_pos.
    unfold in_chunk, lo, hi. simpl. intros [?|[?|?]]; [left; lia..|by right].
  - destruct (first_fit k l) as [[[c' n'] r']|] eqn:Ef; simplify_eq.
    destruct (IH _ _ _ eq_refl) as [IH1 IH2]. split; [|done]. rewrite !in_some_cons. tauto.
Qed.

(** The chunk found is well formed and apart from what is left. *)
Lemma first_fit_ok k l c n l' m :
  (MALLOC_CHUNK_ALIGN | k) -> MALLOC_CHUNK_MIN <= k ->
  Forall wf_chunk l -> StronglySorted gap l -> Forall (chunk_mapped m) l ->
  first_fit k l = Some (c, n, l') ->
  wf_chunk (c, n) /\ chunk_mapped m (c, n) /\ k <= n /\ Forall (apart (c, n)) l' /\
  exists y, y ∈ l /\ y.1 = c.
Proof.
  intros Hk Hmin. revert c n l'. induction l as [|y l IH]; intros c n l' Hw Hs Hm E; simpl in E; [done|].
  apply Forall_cons in Hw as [Hy Hw], Hm as [Hmy Hm]. apply StronglySorted_cons in Hs as [Hyl Hs].
  pose proof (wf_bounds _ Hy) as By. pose proof chunk_min_align. pose proof chunk_align_pos.
  destruct (Z.leb_spec k y.2).
  - assert (Forall (apart y) l) as Hap.
    { eapply Forall_impl; [exact Hyl|]. intros z. unfold gap, apart, lo, hi. lia. }
    destruct (Z.leb_spec MALLOC_CHUNK_MIN (y.2 - k)); injection E as <- <- <-.
    + destruct (split_wf k Hk Hmin y Hy) as [K1 K2]; [done|]. split_and!; try done.
      * eapply mapped_weaken; [exact Hmy|unfold lo; simpl; lia..].
      * constructor; [unfold apart, lo, hi; simpl; lia|].
        eapply Forall_impl; [exact Hap|]. intros z. unfold apart, lo, hi. simpl. lia.
      * exists y. split; [set_solver|done].
    + destruct y as [c n]. simpl in *. split_and!; try done. exists (c, n). split; [set_solver|done].
  - destruct (first_fit k l) as [[[c' n'] r']|] eqn:Ef; simplify_eq.
    destruct (IH _ _ _ Hw Hs Hm eq_refl) as (K1 & K2 & K3 & K4 & z & Hz & Ez).
    split_and!; try done; [|exists z; split; [set_solver|done]]. constructor; [|done].
    assert (gap y z) as Hg by (rewrite Forall_forall in Hyl; auto).
    unfold gap, apart, lo, hi in *. simpl. lia.
Qed.

Variable fuel : nat.

(** ** [free] *)

(** A chunk that belongs to nobody yet is given to the free list. *)
Lemma free_fresh h l al p n :
  heap_inv h l al -> (length l < fuel)%nat -> busy_chunk h p n ->
  (forall a, in_chunk (p, n) a -> ~ in_some l a) ->
  exists m' p', __malloc_free fuel p h = Some (tt, upd h m' p') /\
    flist (upd h m' p') (free_insert (p, n) l) /\
    chg (in_some ((p, n) :: l)) (hmem h) m' /\
    (forall a, in_some (free_insert (p, n) l) a -> in_some ((p, n) :: l) a).
Proof.
  intros Hi Hf [Hw Hm Hh] Hd. pose proof (inv_free _ _ _ Hi) as Hfl.
  destruct (free_spec fuel h l (p, n) Hf Hfl Hw Hm Hh) as (m' & p' & E & Hfl' & Cg).
  { apply Forall_forall. intros x Hx. pose proof (fl_wf _ _ Hfl) as Hwl. rewrite Forall_forall in Hwl.
    pose proof (wf_bounds _ (Hwl x Hx)). pose proof (wf_bounds _ Hw) as Bw. cbn [fst snd] in Bw.
    unfold apart. destruct (Z.le_gt_cases (lo x) (lo (p, n))) as [Hle|Hgt].
    - right. apply Z.nlt_ge. intros Hlt. apply (Hd (lo (p, n))).
      + unfold in_chunk, lo, hi. simpl. lia.
      + exists x. split; [done|]. unfold in_chunk. lia.
    - left. apply Z.nlt_ge. intros Hlt. apply (Hd (lo x)).
      + unfold in_chunk. lia.
      + exists x. split; [done|]. unfold in_chunk, lo, hi in *. lia. }
  exists m', p'. split_and!; try done. intros a. apply in_some_free_insert.
  - pose proof (wf_bounds _ Hw). simpl in *. lia.
  - apply wf_all_pos, Hfl.
Qed.

Lemma apart_comm (x y : chunk) : apart x y -> apart y x.
Proof. apply or_comm. Qed.

Lemma apart_in (x y : chunk) a : apart x y -> in_chunk x a -> ~ in_chunk y a.
Proof. unfold apart, in_chunk. lia. Qed.

Lemma busy_not_free h l al p n a :
  heap_inv h l al -> al !! p = Some n -> in_chunk (p, n) a -> ~ in_some l a.
Proof.
  intros Hi Hp Ha (x & Hx & Hxa). by apply (apart_in _ _ _ (inv_apart_free _ _ _ Hi _ _ _ Hp Hx) Ha).
Qed.

Lemma delete_not_busy h l al p n a :
  heap_inv h l al -> al !! p = Some n -> in_use (delete p al) a -> ~ in_some ((p, n) :: l) a.
Proof.
  intros Hi Hp (q & k & Hq & Ha) [Hb|Hb]%in_some_cons; apply lookup_delete_Some in Hq as [Hne Hq].
  - by apply (apart_in _ _ _ (inv_apart _ _ _ Hi _ _ _ _ Hp Hq ltac:(done)) Hb).
  - by apply (busy_not_free _ _ _ _ _ _ Hi Hq Ha).
Qed.

Lemma apart_from_regions (x y : chunk) :
  0 < x.2 -> 0 < y.2 -> (forall a, in_chunk x a -> ~ in_chunk y a) -> apart x y.
Proof.
  intros Hx Hy Hd. unfold apart. destruct (Z.le_gt_cases (lo x) (lo y)) as [Hle|Hgt].
  - left. apply Z.nlt_ge. intros Hlt. apply (Hd (lo y)); unfold in_chunk, lo, hi in *; lia.
  - right. apply Z.nlt_ge. intros Hlt. apply (Hd (lo x)); unfold in_chunk, lo, hi in *; lia.
Qed.

Lemma free_heap h l al p n :
  heap_inv h l al -> (length l < fuel)%nat -> al !! p = Some n ->
  exists h', __malloc_free fuel p h = Some (tt, h') /\
    heap_inv h' (free_insert (p, n) l) (delete p al) /\ same_data (delete p al) h h' /\
    errno h' = errno h /\ sbrk_state h' = sbrk_state h.
Proof.
  intros Hi Hf Hp. pose proof (inv_busy _ _ _ Hi _ _ Hp) as Hb.
  destruct (free_fresh h l al p n Hi Hf Hb) as (m' & p' & E & Hfl & Cg & Hin).
  { intros a. by eapply busy_not_free. }
  exists (upd h m' p'). split_and!; try done.
  - eapply inv_rebuild; try done.
    + intros a [Ha|(q & k & Hq & Ha)].
      * apply Hin, in_some_cons in Ha as [Ha|Ha]; [right; by exists p, n|by left].
      * apply lookup_delete_Some in Hq as [_ Hq]. right. by exists q, k.
    + intros q k Hq. eapply busy_chg; [|exact Cg|].
      * apply lookup_delete_Some in Hq as [_ Hq]. by apply Hi.
      * intros a Ha. eapply delete_not_busy; [done..|by exists q, k].
    + intros q1 k1 q2 k2 [_ H1']%lookup_delete_Some [_ H2']%lookup_delete_Some.
      by apply (inv_apart _ _ _ Hi).
    + intros q k x Hq Hx. pose proof (fl_wf _ _ Hfl) as Hw. rewrite Forall_forall in Hw.
      apply apart_from_regions.
      * apply lookup_delete_Some in Hq as [_ Hq].
        pose proof (wf_bounds _ (busy_wf _ _ _ (inv_busy _ _ _ Hi _ _ Hq))). simpl in *. lia.
      * pose proof (wf_bounds _ (Hw x Hx)). lia.
      * intros a Ha Hxa. eapply (delete_not_busy h l al p n a); [done..|by exists q, k|].
        apply Hin. by exists x.
  - eapply chg_same_data; [exact Cg|]. intros a Ha. by eapply delete_not_busy.
Qed.

(** A second [free] of a chunk that is in the list only sets [errno]. *)
Lemma free_free h l x :
  flist h l -> x ∈ l ->
  __malloc_free fuel x.1 h =
  Some (tt, Heap (hmem h) (__malloc_free_list h) (__malloc_sbrk_start h)
              (__malloc_sbrk_top h) ENOMEM (sbrk_state h)).
Proof.
  intros Hfl Hx. apply list_elem_of_split in Hx as (l1 & l2 & ->).
  destruct (flist_chunk _ _ _ _ Hfl) as (Hw & _ & Hh & _). pose proof (wf_bounds _ Hw) as Bx.
  unfold __malloc_free. rewrite (proj2 (Z.eqb_neq x.1 NULL)) by (unfold NULL; lia).
  unfold _check_busy, _is_free. unfold bind at 1. unfold bind at 1.
  rewrite (bind_eq _ _ _ _ _ (get_size_ref_eq _ _ _ Hh)), land_1.
  replace ((x.2 + 1) mod 2) with 1; [done|]. destruct Bx as (_ & _ & _ & [k ->] & _).
  rewrite Z.add_comm, Z_mod_plus_full. done.
Qed.

(** [free(NULL)] does nothing. *)
Lemma free_null h : __malloc_free fuel NULL h = Some (tt, h).
Proof. done. Qed.

(** ** Memory from the system *)

(** [h'] has the same memory and list as [h], and less to give. *)
Lemma inv_sbrk h h' l al :
  heap_inv h l al -> hmem h' = hmem h -> __malloc_free_list h' = __malloc_free_list h ->
  sbrk_valid (sbrk_state h') ->
  (forall a, sbrk_avail (sbrk_state h') a -> sbrk_avail (sbrk_state h) a) ->
  (2 | __malloc_sbrk_top h') \/
    (~ owned l al (__malloc_sbrk_top h' - 2) /\
     ~ sbrk_avail (sbrk_state h') (__malloc_sbrk_top h' - 2)) ->
  heap_inv h' l al.
Proof.
  intros [[F1 F2 F3 F4 F5] I2 I3 I4 I0 I5 I6 I7] Em El Hv Hav Ht.
  split; try done; rewrite ?Em; try done.
  - split; rewrite ?Em, ?El; done.
  - intros p n Hp. destruct (I2 p n Hp). split; [done|by rewrite Em|by rewrite Em].
  - intros a Ha. apply I5. auto.
Qed.

Lemma swrap_size s :
  0 <= s < 2 ^ long_bits ->
  swrap long_bits s = s /\ s < 2 ^ (long_bits - 1) \/ swrap long_bits s < 0.
Proof.
  intros Hs. assert (0 < long_bits) by (destruct long_size_cases; lia).
  assert (2 ^ long_bits = 2 * 2 ^ (long_bits - 1)) as E.
  { replace long_bits with (Z.succ (long_bits - 1)) at 1 by lia. rewrite Z.pow_succ_r; lia. }
  destruct (Z.lt_ge_cases s (2 ^ (long_bits - 1))).
  - left. split; [apply swrap_small; lia|done].
  - right. unfold swrap. rewrite <- (Z_mod_plus_full _ (-1)), Z.mod_small; lia.
Qed.

(** What a successful call gives: the block [r, r + s) for a chunk. *)
Record given h h' (r s : Z) : Prop := {
  given_wf : wf_chunk (r + Z.of_nat long_size, s);
  given_from : forall a, r <= a < r + s -> sbrk_avail (sbrk_state h) a;
  given_once : forall a, r <= a < r + s -> ~ sbrk_avail (sbrk_state h') a;
  given_top : __malloc_sbrk_top h' = r + s }.

Lemma given_wf_chunk r s b :
  (MALLOC_CHUNK_ALIGN | s) -> MALLOC_CHUNK_MIN <= s -> (MALLOC_CHUNK_ALIGN | r + Z.of_nat long_size) ->
  (forall a, r <= a < r + s -> sbrk_avail b a) -> wf_chunk (r + Z.of_nat long_size, s) /\ (2 | r + s).
Proof.
  intros Hs Hmin Hr Hav. pose proof chunk_min_align. pose proof chunk_align_pos.
  pose proof (sbrk_range b r ltac:(apply Hav; lia)).
  pose proof (sbrk_range b (r + s - 1) ltac:(apply Hav; lia)).
  split; [split; unfold lo, hi; simpl; try done; lia|].
  replace (r + s) with (r + Z.of_nat long_size + s - Z.of_nat long_size) by lia.
  apply Z.divide_sub_r; [apply Z.divide_add_r|].
  - by transitivity MALLOC_CHUNK_ALIGN; [apply chunk_align_even|].
  - by transitivity MALLOC_CHUNK_ALIGN; [apply chunk_align_even|].
  - destruct long_size_cases as [[-> _]|[-> _]]; [by exists 4|by exists 2].
Qed.

Lemma sbrk_eq d h p b :
  sbrk_op d (sbrk_state h) = (p, b) ->
  sbrk d h = Some (p, Heap (hmem h) (__malloc_free_list h) (__malloc_sbrk_start h)
                        (__malloc_sbrk_top h) (if p =? FAILED then ENOMEM else errno h) b).
Proof. intros E. unfold sbrk. by rewrite E. Qed.

(** The tail of the function: record the start and return. *)
Lemma set_start_eq h (r : Z) :
  exists st, (do start <- get __malloc_sbrk_start;
              run (if start =? NULL then set_sbrk_start r else ret tt);
              ret r) h =
             Some (r, Heap (hmem h) (__malloc_free_list h) st (__malloc_sbrk_top h) (errno h)
                        (sbrk_state h)).
Proof.
  unfold bind, get. destruct (_ =? NULL); [by eexists|]. exists (__malloc_sbrk_start h). by destruct h.
Qed.

Lemma align_block p s b :
  MALLOC_CHUNK_MIN <= s -> (forall a, p <= a < p + s -> sbrk_avail b a) ->
  let r := chunk_to_blob (__align_up (size_t (p + MALLOC_HEAD_SIZE)) MALLOC_CHUNK_ALIGN) in
  size_t (p + s) = p + s /\ 0 < p /\ p <= r < p + MALLOC_CHUNK_ALIGN /\
  (MALLOC_CHUNK_ALIGN | r + Z.of_nat long_size).
Proof.
  intros Hmin Hav r. pose proof chunk_min_align. pose proof chunk_align_pos. pose proof chunk_align_le.
  pose proof (sbrk_range b p ltac:(apply Hav; lia)) as R1.
  pose proof (sbrk_range b (p + s - 1) ltac:(apply Hav; lia)) as R2.
  assert (Z.of_nat long_size <= 8) by (destruct long_size_cases; lia).
  unfold size_t, MALLOC_HEAD_SIZE in *. split; [apply uwrap_small; lia|].
  subst r. rewrite uwrap_small by lia. unfold chunk_to_blob, MALLOC_HEAD_SIZE.
  destruct (align_up_spec (p + Z.of_nat long_size)) as [Hd Hr]; [lia..|].
  split_and!; try lia. by rewrite Z.sub_add.
Qed.

Lemma sbrk_extra_spec h p s r :
  sbrk_valid (sbrk_state h) ->
  0 < p -> 0 <= s -> p < r <= p + 4096 -> size_t (p + s) = p + s ->
  exists ok h', sbrk_extra p s r h = Some (ok, h') /\ hmem h' = hmem h /\
    __malloc_free_list h' = __malloc_free_list h /\ sbrk_valid (sbrk_state h') /\
    (forall a, sbrk_avail (sbrk_state h') a -> sbrk_avail (sbrk_state h) a) /\
    if ok : bool then
      __malloc_sbrk_top h' = r + s /\
      (forall a, p + s <= a < r + s ->
         sbrk_avail (sbrk_state h) a /\ ~ sbrk_avail (sbrk_state h') a)
    else __malloc_sbrk_top h' = __malloc_sbrk_top h.
Proof.
  intros Hv Hp Hs Hr Esz. unfold sbrk_extra. rewrite Esz.
  assert (0 < r - p < 2 ^ (long_bits - 1)) as Hd.
  { split; [lia|]. apply Z.le_lt_trans with 4096; [lia|].
    destruct long_size_cases as [[_ ->]|[_ ->]]; done. }
  destruct (sbrk_op (r - p) (sbrk_state h)) as [e b] eqn:Ee.
  rewrite (bind_eq _ _ _ _ _ (sbrk_eq _ _ _ _ Ee)).
  destruct (Z.eqb_spec e (p + s)) as [->|Hne].
  - destruct (sbrk_given _ _ _ _ Hv Hd Ee ltac:(unfold FAILED; lia)) as (Hv' & Hfrom & Honce).
    do 2 eexists. split; [reflexivity|]. cbn. split_and!; try done; try lia.
    + intros a Ha. by apply Honce.
    + intros a Ha. split; [apply Hfrom; lia|]. intros Hb. apply Honce in Hb as [_ Hb]. lia.
  - do 2 eexists. split; [reflexivity|]. cbn.
    destruct (decide (e = FAILED)) as [->|He].
    + destruct (sbrk_failed _ _ _ Hv Hd Ee) as [Hv' Hsub]. done.
    + destruct (sbrk_given _ _ _ _ Hv Hd Ee He) as (Hv' & _ & Honce).
      split_and!; try done. intros a Ha. by apply Honce.
Qed.

(** A failed call may have moved the break to an odd place, in memory that
    nobody owns. *)
Lemma inv_lost h h' l al p s :
  heap_inv h l al -> hmem h' = hmem h -> __malloc_free_list h' = __malloc_free_list h ->
  sbrk_valid (sbrk_state h') ->
  MALLOC_CHUNK_MIN <= s -> (forall a, p <= a < p + s -> sbrk_avail (sbrk_state h) a) ->
  (forall a, sbrk_avail (sbrk_state h') a -> sbrk_avail (sbrk_state h) a /\ ~ p <= a < p + s) ->
  __malloc_sbrk_top h' = p + s -> heap_inv h' l al.
Proof.
  intros Hi Em El Hv Hmin Hfrom Honce Et. eapply inv_sbrk; try done; [intros a Ha; by apply Honce|].
  right. rewrite Et. pose proof (proj2 chunk_min_spec). pose proof long_size_pos.
  split; [by apply (inv_avail _ _ _ Hi), Hfrom; lia|]. intros Ha. apply Honce in Ha as [_ Ha]. lia.
Qed.

Lemma sbrk_aligned_spec h l al s :
  heap_inv h l al -> (MALLOC_CHUNK_ALIGN | s) -> MALLOC_CHUNK_MIN <= s < 2 ^ long_bits ->
  exists r h', __malloc_sbrk_aligned s h = Some (r, h') /\ heap_inv h' l al /\
    hmem h' = hmem h /\ (r = FAILED \/ given h h' r s).
Proof.
  intros Hi Hs Hmin. pose proof chunk_min_align. pose proof chunk_align_pos.
  unfold __malloc_sbrk_aligned.
  destruct (swrap_size s) as [[Es Hsd]|Es]; [lia|rewrite Es|];
    [|rewrite (proj2 (Z.ltb_lt _ _) Es); exists FAILED, h; auto].
  rewrite (proj2 (Z.ltb_ge s 0)) by lia. pose proof (inv_brk _ _ _ Hi) as Hv.
  assert (0 < s < 2 ^ (long_bits - 1)) as Hd by lia.
  destruct (sbrk_op s (sbrk_state h)) as [p b] eqn:Ep.
  rewrite (bind_eq _ _ _ _ _ (sbrk_eq _ _ _ _ Ep)).
  destruct (Z.eqb_spec p FAILED) as [->|Hp].
  { exists FAILED. eexists. split; [reflexivity|]. split_and!; [|done|by left].
    destruct (sbrk_failed _ _ _ Hv Hd Ep) as [Hv' Hsub].
    eapply inv_sbrk; try done; cbn [__malloc_sbrk_top sbrk_state].
    destruct (inv_top _ _ _ Hi) as [?|[? Hn]]; [by left|right]. split; [done|]. auto. }
  destruct (sbrk_given _ _ _ _ Hv Hd Ep Hp) as (Hv' & Hfrom & Honce).
  destruct (align_block p s _ (proj1 Hmin) Hfrom) as (Esz & Hp0 & Hr & Hra).
  rewrite Esz. set (r := chunk_to_blob _) in *. unfold set_sbrk_top at 1.
  erewrite bind_eq by reflexivity. cbn [hmem __malloc_free_list __malloc_sbrk_start errno sbrk_state].
  set (h1 := Heap _ _ _ _ _ _).
  destruct (Z.eqb_spec r p) as [Er|Er].
  - rewrite bind_ret. cbn [negb]. destruct (set_start_eq h1 r) as (st & E). rewrite E.
    do 2 eexists. split; [reflexivity|].
    destruct (given_wf_chunk r s (sbrk_state h)) as [Hw Heven]; [done|lia|done|by rewrite Er|].
    split_and!; [|done|right; split; cbn; try done; rewrite Er; [done| |done]].
    + eapply inv_sbrk; try done; cbn; [by apply Honce|]. left. by rewrite <- Er.
    + intros a Ha Hb. apply Honce in Hb as [_ Hb]. lia.
  - destruct (sbrk_extra_spec h1 p s r) as ([] & h2 & E2 & Em & El & Hv2 & Hav & Hok);
      try done; try (pose proof chunk_align_le; lia);
      rewrite (bind_eq _ _ _ _ _ E2); cbn [negb]; cbn [h1 sbrk_state __malloc_sbrk_top] in Hav, Hok.
    + destruct Hok as [Ht Hnew]. destruct (set_start_eq h2 r) as (st & E). rewrite E.
      assert (forall a, r <= a < r + s -> sbrk_avail (sbrk_state h) a) as Hall.
      { intros a Ha. destruct (Z.lt_ge_cases a (p + s)); [apply Hfrom; lia|].
        apply Honce, (Hnew a). lia. }
      destruct (given_wf_chunk r s (sbrk_state h)) as [Hw Heven]; [done|lia|done..|].
      do 2 eexists. split; [reflexivity|]. split_and!; [|done|right; split; cbn; try done].
      * eapply inv_sbrk; try done; cbn; [intros a Ha; by apply Honce, Hav|]. left. by rewrite Ht.
      * intros a Ha Hb. destruct (Z.lt_ge_cases a (p + s)); [|by apply (Hnew a); [lia|]].
        apply Hav, Honce in Hb as [_ Hb]. lia.
    + exists FAILED, h2. split; [reflexivity|]. split_and!; [|done|by left].
      eapply (inv_lost h h2 l al p s); try done; try lia. intros a Ha. by apply Honce, Hav.
Qed.

(** What the system gives for a request of [n] bytes: the first place of the new
    memory where the storage of a chunk is aligned.  When that is not its start, a
    second request makes up for the bytes before it, and both are lost when that one
    does not continue the first. *)
Definition block_start (p : Z) : Z :=
  (p + Z.of_nat long_size + MALLOC_CHUNK_ALIGN - 1) / MALLOC_CHUNK_ALIGN * MALLOC_CHUNK_ALIGN - Z.of_nat long_size.

Definition sbrk_block (n : Z) (b : B) : option Z * B :=
  if 2 ^ (long_bits - 1) <=? n then (None, b)
  else
    let '(p, b1) := sbrk_op n b in
    if p =? FAILED then (None, b1)
    else if block_start p =? p then (Some p, b1)
    else
      let '(e, b2) := sbrk_op (block_start p - p) b1 in
      if e =? p + n then (Some (block_start p), b2) else (None, b2).

Lemma block_start_eq p r : p <= r < p + MALLOC_CHUNK_ALIGN -> (MALLOC_CHUNK_ALIGN | r + Z.of_nat long_size) -> block_start p = r.
Proof.
  intros Hr [k Hk]. pose proof chunk_align_pos. unfold block_start. enough ((p + Z.of_nat long_size + MALLOC_CHUNK_ALIGN - 1) / MALLOC_CHUNK_ALIGN = k) as -> by lia.
  symmetry. apply (Z.div_unique_pos _ _ _ (p + Z.of_nat long_size + MALLOC_CHUNK_ALIGN - 1 - k * MALLOC_CHUNK_ALIGN)); lia.
Qed.

Lemma sbrk_aligned_block h l al s r h' :
  heap_inv h l al -> MALLOC_CHUNK_MIN <= s < 2 ^ long_bits -> __malloc_sbrk_aligned s h = Some (r, h') ->
  sbrk_block s (sbrk_state h) = (if r =? FAILED then None else Some r, sbrk_state h') /\ (r <> FAILED -> errno h' = errno h).
Proof.
  intros Hi Hmin E. pose proof chunk_min_align. pose proof chunk_align_pos. unfold __malloc_sbrk_aligned in E. unfold sbrk_block.
  assert (0 < long_bits) as Hlb by (destruct long_size_cases; lia).
  destruct (swrap_size s) as [[Es Hsd]|Es]; [lia|rewrite Es in E|].
  2: { rewrite (proj2 (Z.ltb_lt _ _) Es) in E. injection E as <- <-. rewrite (proj2 (Z.leb_le _ s)); [done|]. apply Z.nlt_ge. intros Hlt. rewrite swrap_small in Es by lia. lia. }
  rewrite (proj2 (Z.ltb_ge s 0)) in E by lia. rewrite (proj2 (Z.leb_gt _ s)) by done. pose proof (inv_brk _ _ _ Hi) as Hv.
  destruct (sbrk_op s (sbrk_state h)) as [p b] eqn:Ep. rewrite (bind_eq _ _ _ _ _ (sbrk_eq _ _ _ _ Ep)) in E.
  destruct (Z.eqb_spec p FAILED) as [->|Hp]; [by injection E as <- <-|].
  assert (0 < s < 2 ^ (long_bits - 1)) as Hd by lia. destruct (sbrk_given _ _ _ _ Hv Hd Ep Hp) as (_ & Hfrom & _). destruct (align_block p s _ (proj1 Hmin) Hfrom) as (Esz & Hp0 & Hr & Hra).
  rewrite Esz in E. set (q := chunk_to_blob _) in *. rewrite (block_start_eq p q Hr Hra). unfold set_sbrk_top at 1 in E. erewrite bind_eq in E by reflexivity.
  cbn [hmem __malloc_free_list __malloc_sbrk_start errno sbrk_state] in E. set (h1 := Heap _ _ _ _ _ _) in E. assert (q =? FAILED = false) as Hq by (apply Z.eqb_neq; unfold FAILED; lia).
  destruct (Z.eqb_spec q p) as [Er|Er].
  - rewrite bind_ret in E. cbn [negb] in E. destruct (set_start_eq h1 q) as (st & E'). rewrite E' in E. injection E as <- <-. rewrite Hq. by rewrite Er.
  - unfold sbrk_extra in E. rewrite Esz in E. destruct (sbrk_op (q - p) b) as [e b2] eqn:Ee. unfold bind at 1 in E. unfold bind at 1 in E. rewrite (sbrk_eq (q - p) h1 e b2 Ee) in E.
    destruct (Z.eqb_spec e (p + s)) as [->|Hne]; [|by injection E as <- <-]. unfold bind at 1, set_sbrk_top at 1, ret at 1 in E. cbn [negb] in E. set (h2 := Heap _ _ _ _ _ _) in E.
    destruct (set_start_eq h2 q) as (st & E'). rewrite E' in E. injection E as <- <-. rewrite Hq. split; [done|]. intros _. cbn. by rewrite (proj2 (Z.eqb_neq (p + s) FAILED)) by (unfold FAILED; lia).
Qed.

(** ** [malloc] *)

Lemma in_use_delete al c a : in_use (delete c al) a -> in_use al a.
Proof. intros (q & k & [_ Hq]%lookup_delete_Some & Ha). by exists q, k. Qed.

Lemma in_chunk_head (x : chunk) : wf_chunk x -> in_chunk x (lo x).
Proof. intros Hx%wf_bounds. unfold in_chunk, lo, hi. lia. Qed.

(** The chunk is marked busy and cleared. *)
Lemma alloc_finish h c n k v :
  wf_chunk (c, n) -> chunk_mapped (hmem h) (c, n) ->
  word_at (hmem h) (c - Z.of_nat long_size) v -> (v = n \/ v = n + 1) ->
  MALLOC_CHUNK_MIN <= k <= n -> (Z.to_nat k < fuel)%nat ->
  exists m', (run _mark_busy c;
              run in_mem (mf_memset fuel c 0 (size_t (k - MALLOC_HEAD_SIZE)));
              ret c) h = Some (c, with_mem h m') /\
    busy_chunk (with_mem h m') c n /\ chg (in_chunk (c, n)) (hmem h) m' /\
    bytes_at m' c (replicate (Z.to_nat (k - Z.of_nat long_size)) 0).
Proof.
  intros Hw Hm Hh Hv Hk Hf. pose proof (wf_bounds _ Hw) as Bw. cbn [fst snd] in Bw.
  pose proof (proj2 chunk_min_spec) as Bm. unfold _mark_busy, MALLOC_HEAD_SIZE, size_t.
  unfold bind at 1. rewrite (bind_eq _ _ _ _ _ (get_size_ref_eq _ _ _ Hh)).
  assert (Z.land v (uwrap long_bits (Z.lnot 1)) = n) as ->.
  { destruct Hv as [->| ->]; [apply size_of_busy|apply size_of_free]; tauto || lia. }
  destruct (put_size_ref_eq h (c, n) n Hw Hm ltac:(lia)) as (m1 & E1 & W1 & C1).
  cbn [fst] in E1. rewrite E1. rewrite uwrap_small by lia.
  set (j := Z.to_nat (k - Z.of_nat long_size)).
  assert (k - Z.of_nat long_size = Z.of_nat j) as Ej by lia. rewrite Ej.
  assert (mapped m1 c (Z.of_nat j)) as Hmj.
  { eapply chg_mapped; [exact C1|]. eapply mapped_weaken; [exact Hm|unfold lo; simpl; lia..]. }
  unfold bind, in_mem. cbn [hmem with_mem].
  rewrite memset_ok by (done || lia). change (uwrap 8 0) with 0.
  set (m2 := put_bytes m1 c (replicate j 0)). exists m2. split; [done|].
  assert (chg (fun a => c <= a < c + Z.of_nat j) m1 m2) as C2.
  { pose proof (chg_put m1 c (replicate j 0)) as Hc. rewrite length_replicate in Hc. apply Hc.
    by apply Forall_replicate. }
  split; [split; [done| |]|split].
  - eapply chg_mapped; [exact C2|]. eapply chg_mapped; [exact C1|exact Hm].
  - eapply word_chg; [exact C2|exact W1|]. intros a. unfold word_cells, lo. simpl. lia.
  - etransitivity; eapply chg_mono; [exact C1| |exact C2|].
    + intros a. by apply wf_head_in.
    + intros a. unfold in_chunk, lo, hi. simpl. lia.
  - apply put_bytes_at.
Qed.

(** A chunk in use at [c], new or resized, in memory that no other chunk has. *)
Lemma inv_add h h' l al c n :
  heap_inv h l al -> busy_chunk h' c n -> chg (in_chunk (c, n)) (hmem h) (hmem h') ->
  __malloc_free_list h' = __malloc_free_list h -> sbrk_state h' = sbrk_state h ->
  (2 | __malloc_sbrk_top h') ->
  (forall a, in_chunk (c, n) a -> ~ owned l (delete c al) a /\ ~ sbrk_avail (sbrk_state h) a) ->
  heap_inv h' l (<[c := n]> al).
Proof.
  intros Hi Hb Cg El Es Ht Hnew. pose proof Hi as [I1 I2 I3 I4 I0 I5 I6 I7].
  pose proof (wf_bounds _ (busy_wf _ _ _ Hb)) as Bw. cbn [fst snd] in Bw.
  assert (forall q k a, al !! q = Some k -> c <> q -> in_chunk (q, k) a -> in_use (delete c al) a) as Huse.
  { intros q k a Hq Hne Ha. exists q, k. by rewrite lookup_delete_ne. }
  assert (forall q k, al !! q = Some k -> c <> q -> apart (c, n) (q, k)) as Hapc.
  { intros q k Hq Hne. pose proof (wf_bounds _ (busy_wf _ _ _ (I2 q k Hq))).
    apply apart_from_regions; simpl in *; [lia..|]. intros a Ha Hqa.
    apply (proj1 (Hnew a Ha)). right. by apply (Huse q k a). }
  assert (forall x, x ∈ l -> apart (c, n) x) as Hapl.
  { intros x Hx. pose proof (fl_wf _ _ I1) as Hwl. rewrite Forall_forall in Hwl.
    pose proof (wf_bounds _ (Hwl x Hx)). apply apart_from_regions; simpl in *; [lia..|].
    intros a Ha Hxa. apply (proj1 (Hnew a Ha)). left. by exists x. }
  split.
  - destruct I1 as [F1 F2 F3 F4 F5]. split; try done; [congruence| |].
    + eapply linked_chg; [exact Cg|done..|]. intros x a Hx Ha Hc.
      apply (proj1 (Hnew a Hc)). left. by exists x.
    + by eapply chg_all_mapped.
  - intros q k [[<- <-]|[Hne Hq]]%lookup_insert_Some; [done|].
    eapply busy_chg; [by apply I2|exact Cg|]. intros a Ha Hc.
    apply (proj1 (Hnew a Hc)). right. by apply (Huse q k a).
  - intros q k q' k' [[<- <-]|[Hne Hq]]%lookup_insert_Some [[<- <-]|[Hne' Hq']]%lookup_insert_Some Hqq;
      try done; [by apply Hapc| |by apply I3].
    apply apart_comm. by apply Hapc.
  - intros q k x [[<- <-]|[Hne Hq]]%lookup_insert_Some Hx; [by apply Hapl|by apply I4].
  - by rewrite Es.
  - rewrite Es. intros a Ha. destruct (I5 a Ha) as [Hm Hn]. split; [by apply (chg_dom _ _ _ Cg)|].
    intros [Hl|(q & k & Hq & Hqa)]; [apply Hn; by left|].
    apply lookup_insert_Some in Hq as [[<- <-]|[Hne Hq]]; [by apply (proj2 (Hnew a Hqa))|].
    apply Hn. right. by exists q, k.
  - by left.
  - by apply (chg_ok _ _ _ Cg).
Qed.

Lemma wf_hi_even x : wf_chunk x -> (2 | hi x).
Proof.
  intros (_ & _ & _ & Hn & Hc)%wf_bounds. unfold hi.
  apply Z.divide_add_r; [apply Z.divide_sub_r|]; [done| |done].
  destruct long_size_cases as [[-> _]|[-> _]]; [by exists 4|by exists 2].
Qed.

(** The end of a free chunk, taken with its free bit, is never the break. *)
Lemma inv_no_grow h l al :
  heap_inv h l al -> Forall (fun x => hi x + 1 <> __malloc_sbrk_top h) l.
Proof.
  intros Hi. apply Forall_forall. intros x Hx Et.
  pose proof (fl_wf _ _ (inv_free _ _ _ Hi)) as Hw. rewrite Forall_forall in Hw.
  pose proof (Hw x Hx) as Hwx. destruct (wf_hi_even _ Hwx) as [j Ej].
  destruct (inv_top _ _ _ Hi) as [[i Ei]|[Hn _]]; [lia|].
  apply Hn. left. exists x. split; [done|]. apply wf_bounds in Hwx.
  unfold in_chunk, lo, hi in *. lia.
Qed.

(** The result of an allocation: a block of its own, aligned, cleared, with
    room for the request, and the other blocks as they were. *)
Record allocated h al (s r : Z) h' (n : Z) (l' : list chunk) : Prop := {
  al_nonnull : r <> NULL;
  al_new : al !! r = None;
  al_aligned : (MALLOC_CHUNK_ALIGN | r);
  al_room : s + Z.of_nat long_size <= n;
  al_inv : heap_inv h' l' (<[r := n]> al);
  al_zero : bytes_at (hmem h') r (replicate (Z.to_nat (chunk_size s - Z.of_nat long_size)) 0);
  al_others : same_data al h h' }.

Lemma al_new_apart h l al c n :
  heap_inv h l al -> wf_chunk (c, n) -> (forall a, in_chunk (c, n) a -> ~ in_use al a) -> al !! c = None.
Proof.
  intros Hi Hw Hd. destruct (al !! c) as [k|] eqn:Hc; [|done]. exfalso.
  apply (Hd (lo (c, n)) (in_chunk_head _ Hw)). exists c, k. split; [done|].
  pose proof (wf_bounds _ (busy_wf _ _ _ (inv_busy _ _ _ Hi _ _ Hc))) as Bk.
  unfold in_chunk, lo, hi in *. simpl in *. lia.
Qed.

(** A chunk of the free list is turned into a block. *)
Lemma alloc_from_list h l al c n l' m1 p1 m2 :
  let k := upd h m1 p1 in
  heap_inv h l al -> flist k l' -> chg (in_some l) (hmem h) m1 ->
  (forall a, in_chunk (c, n) a \/ in_some l' a -> in_some l a) -> Forall (apart (c, n)) l' ->
  busy_chunk (with_mem k m2) c n -> chg (in_chunk (c, n)) m1 m2 ->
  heap_inv (with_mem k m2) l' (<[c := n]> al) /\ same_data al h (with_mem k m2) /\ al !! c = None.
Proof.
  intros k Hi Hfl C1 Hsub Hap Hb C2.
  assert (chg (in_some l) (hmem h) m2) as C.
  { etransitivity; [exact C1|]. eapply chg_mono; [exact C2|]. auto. }
  assert (forall a, in_use al a -> ~ in_some l a) as Hd.
  { intros a (q & j & Hq & Ha). by eapply busy_not_free. }
  assert (flist (with_mem k m2) l') as Hfl2.
  { eapply flist_chg; [exact Hfl|exact C2|]. intros y a Hy Ha Hc. rewrite Forall_forall in Hap.
    specialize (Hap y Hy). unfold apart, in_chunk in *. lia. }
  assert (forall q j, al !! q = Some j -> apart (c, n) (q, j)) as Hapc.
  { intros q j Hq. pose proof (wf_bounds _ (busy_wf _ _ _ Hb)).
    pose proof (wf_bounds _ (busy_wf _ _ _ (inv_busy _ _ _ Hi _ _ Hq))).
    apply apart_from_regions; simpl in *; [lia..|]. intros a Ha Hqa.
    apply (Hd a); [by exists q, j|]. auto. }
  split_and!.
  - eapply (inv_rebuild (in_some l)); try done.
    + intros a [Ha|(q & j & Hq & Ha)]; [left; auto|].
      apply lookup_insert_Some in Hq as [[<- <-]|[_ Hq]]; [left; auto|]. right. by exists q, j.
    + intros q j [[<- <-]|[_ Hq]]%lookup_insert_Some; [done|].
      eapply busy_chg; [by apply Hi|exact C|]. intros a Ha. apply Hd. by exists q, j.
    + intros q j q' j' [[<- <-]|[_ Hq]]%lookup_insert_Some [[<- <-]|[_ Hq']]%lookup_insert_Some Hne;
        try done; [by apply Hapc| |by apply (inv_apart _ _ _ Hi)].
      apply apart_comm. by apply Hapc.
    + intros q j x [[<- <-]|[_ Hq]]%lookup_insert_Some Hx; [rewrite Forall_forall in Hap; auto|].
      pose proof (fl_wf _ _ Hfl) as Hw. rewrite Forall_forall in Hw.
      pose proof (wf_bounds _ (Hw x Hx)).
      pose proof (wf_bounds _ (busy_wf _ _ _ (inv_busy _ _ _ Hi _ _ Hq))).
      apply apart_from_regions; simpl in *; [lia..|]. intros a Ha Hxa.
      apply (Hd a); [by exists q, j|]. apply Hsub. right. by exists x.
  - by eapply chg_same_data.
  - eapply al_new_apart; [done|apply Hb|]. intros a Ha Hu. apply (Hd a Hu). auto.
Qed.

(** What [malloc] does: a request that is too large is refused; otherwise the first
    chunk of the free list that fits is taken, and only when there is none the system
    is asked, whose refusal is the only other failure. *)
Definition malloc_result h l al (s r : Z) h' : Prop :=
  if MALLOC_ALLOC_MAX <? s then r = NULL /\ set_errno ENOMEM h = Some (tt, h')
  else
    match first_fit (chunk_size s) l with
    | Some (c, n, l') => r = c /\ allocated h al s r h' n l' /\ errno h' = errno h /\ sbrk_state h' = sbrk_state h /\ __malloc_sbrk_top h' = __malloc_sbrk_top h
    | None =>
        let '(p, b) := sbrk_block (chunk_size s) (sbrk_state h) in
        sbrk_state h' = b /\
        match p with
        | Some p => r = p + Z.of_nat long_size /\ allocated h al s r h' (chunk_size s) l /\ errno h' = errno h /\ __malloc_sbrk_top h' = p + chunk_size s
        | None => r = NULL /\ errno h' = ENOMEM /\ heap_inv h' l al /\ hmem h' = hmem h
        end
    end.

Lemma malloc_exact h l al s :
  heap_inv h l al -> 0 <= s < 2 ^ long_bits -> (length l < fuel)%nat -> (Z.to_nat (chunk_size s) < fuel)%nat ->
  exists r h', malloc fuel s h = Some (r, h') /\ malloc_result h l al s r h'.
Proof.
  intros Hi Hs Hf Hfk. unfold malloc, malloc_result. destruct (Z.ltb_spec MALLOC_ALLOC_MAX s) as [Hbig|Hok].
  { do 2 eexists. by split. }
  destruct (chunk_size_spec s (conj (proj1 Hs) Hok)) as (Hka & Hkm & Hkr & _). set (k := chunk_size s) in *.
  cbv zeta. pose proof (inv_free _ _ _ Hi) as Hfl.
  pose proof (malloc_search_loop fuel h k Hka Hkm l [] fuel Hf Hfl (inv_no_grow _ _ _ Hi)) as Hsl.
  unfold malloc_search. change FreeList with (place_of []).
  pose proof (proj2 chunk_min_spec) as Bm. pose proof long_size_pos as Wp.
  destruct (first_fit k l) as [[[c n] l']|] eqn:Eff.
  - destruct Hsl as (m1 & p1 & v & E & Hfl1 & C1 & W1 & Hv). cbn [app] in Hfl1, C1.
    destruct (first_fit_ok k l c n l' (hmem h) Hka Hkm (fl_wf _ _ Hfl) (fl_sorted _ _ Hfl)
                (fl_mapped _ _ Hfl) Eff) as (Hw & Hm & Hkn & Hap & _).
    pose proof (wf_bounds _ Hw) as Bw. cbn [fst snd] in Bw.
    rewrite (bind_eq _ _ _ _ _ E). rewrite (proj2 (Z.eqb_neq c NULL)) by (unfold NULL; lia).
    rewrite bind_ret. destruct (alloc_finish (upd h m1 p1) c n k v) as (m2 & E2 & Hb & C2 & Hz); try done.
    { by eapply chg_chunk_mapped. }
    rewrite E2. do 2 eexists. split; [reflexivity|].
    assert (forall a, in_chunk (c, n) a \/ in_some l' a -> in_some l a) as Hsub.
    { intros a. apply (first_fit_in k l c n l' a); [lia|done]. }
    destruct (alloc_from_list h l al c n l' m1 p1 m2) as (K1 & K2 & K3); try done.
    split_and!; try done. split; try done; [unfold NULL; lia|apply Hw|lia].
  - rewrite (bind_eq _ _ _ _ _ Hsl). cbn [NULL Z.eqb].
    destruct (sbrk_aligned_spec h l al k) as (blob & h1 & E1 & Hi1 & Em & Hg); try done; [lia|].
    destruct (sbrk_aligned_block h l al k blob h1) as [Eb Her]; try done; [lia|]. rewrite Eb.
    unfold bind at 1. rewrite (bind_eq _ _ _ _ _ E1).
    destruct (Z.eqb_spec blob FAILED) as [Hb|Hb].
    { do 2 eexists. split; [reflexivity|]. split_and!; try done. eapply inv_sbrk; try done; apply Hi1. }
    destruct Hg as [?|[Hw Hfrom Honce Htop]]; [done|]. unfold blob_to_chunk, MALLOC_HEAD_SIZE, _set_size.
    set (c := blob + Z.of_nat long_size) in *. pose proof (wf_bounds _ Hw) as Bw. cbn [fst snd] in Bw.
    assert (forall a, in_chunk (c, k) a -> blob <= a < blob + k) as Hrange.
    { intros a. unfold in_chunk, lo, hi. simpl. lia. }
    assert (chunk_mapped (hmem h) (c, k)) as Hm.
    { intros a Ha. apply (inv_avail _ _ _ Hi), Hfrom, Hrange. unfold in_chunk, lo, hi in *. simpl in *. lia. }
    rewrite <- Em in Hm. destruct (put_size_ref_eq h1 (c, k) k Hw Hm ltac:(lia)) as (m1 & E2 & W1 & C1).
    cbn [fst] in E2. rewrite (bind_eq _ _ _ _ _ E2). cbn [ret].
    destruct (alloc_finish (with_mem h1 m1) c k k k) as (m2 & E3 & Hbc & C2 & Hz); try done; try lia.
    { by eapply chg_chunk_mapped. }
    unfold MALLOC_HEAD_SIZE in E3. rewrite E3. do 2 eexists. split; [reflexivity|].
    assert (chg (in_chunk (c, k)) (hmem h1) m2) as C.
    { etransitivity; [|exact C2]. eapply chg_mono; [exact C1|]. intros a. by apply wf_head_in. }
    assert (forall a, in_chunk (c, k) a -> ~ owned l al a) as Hnew.
    { intros a Ha. apply (inv_avail _ _ _ Hi), Hfrom, Hrange, Ha. }
    split_and!; try done; [|by apply Her]. split; try done; [unfold NULL; lia| |apply Hw|lia| |].
    + eapply al_new_apart; [done..|]. intros a Ha Hu. apply (Hnew a Ha). by right.
    + eapply inv_add; try done; [|intros a Ha; split; [|by apply Honce, Hrange]]; cycle 1.
      { intros [Hl|Hu]; apply (Hnew a Ha); [by left|right]. by eapply in_use_delete. }
      cbn. rewrite Htop. replace (blob + k) with (hi (c, k)) by (unfold hi; simpl; lia).
      by apply wf_hi_even.
    + eapply chg_same_data; [cbn; rewrite <- Em; exact C|].
      intros a Hu Ha. apply (Hnew a Ha). by right.
Qed.

Lemma malloc_spec h l al s :
  heap_inv h l al -> 0 <= s < 2 ^ long_bits -> (length l < fuel)%nat ->
  (Z.to_nat (chunk_size s) < fuel)%nat ->
  exists r h', malloc fuel s h = Some (r, h') /\
    ((r = NULL /\ errno h' = ENOMEM /\ heap_inv h' l al /\ hmem h' = hmem h) \/
     exists n l', allocated h al s r h' n l' /\
       (first_fit (chunk_size s) l = Some (r, n, l') \/
        first_fit (chunk_size s) l = None /\ l' = l /\ n = chunk_size s)).
Proof.
  intros Hi Hs Hf Hfk. destruct (malloc_exact h l al s Hi Hs Hf Hfk) as (r & h' & E & Hr). exists r, h'. split; [done|]. unfold malloc_result in Hr.
  destruct (MALLOC_ALLOC_MAX <? s). { destruct Hr as [-> [= <-]]. left. split_and!; try done. eapply inv_sbrk; try done; apply Hi. }
  destruct (first_fit (chunk_size s) l) as [[[c n] l']|]; [destruct Hr as (-> & Ha & _); right; exists n, l'; by auto|].
  destruct (sbrk_block _ _) as [[p|] b]; destruct Hr as [_ Hr]; [right; exists (chunk_size s), l; destruct Hr as (_ & Ha & _); by auto|left; tauto].
Qed.

(** ** [calloc] *)

Lemma calloc_spec h l al n elem :
  heap_inv h l al -> 0 <= n < 2 ^ long_bits -> 0 <= elem < 2 ^ long_bits -> (length l < fuel)%nat ->
  (n * elem < 2 ^ long_bits -> (Z.to_nat (chunk_size (n * elem)) < fuel)%nat) ->
  exists r h', calloc fuel n elem h = Some (r, h') /\
    ((r = NULL /\ errno h' = ENOMEM /\ heap_inv h' l al /\ hmem h' = hmem h) \/
     n * elem < 2 ^ long_bits /\ exists k l', allocated h al (n * elem) r h' k l').
Proof.
  intros Hi Hn He Hf Hfk. unfold calloc. pose proof (mul_overflow_spec n elem Hn He) as Ho.
  destruct (mul_overflow_size_t n elem) as [bytes ov] eqn:Em. cbn [snd] in Ho. subst ov.
  destruct (Z.leb_spec (2 ^ long_bits) (n * elem)) as [Hov|Hok].
  - do 2 eexists. split; [reflexivity|]. left. split_and!; try done.
    eapply inv_sbrk; try done; apply Hi.
  - unfold mul_overflow_size_t, size_t in Em. injection Em as <- _. rewrite uwrap_small by lia.
    destruct (malloc_spec h l al (n * elem)) as (r & h' & E & Hr); try done; [lia|auto|].
    exists r, h'. split; [done|]. destruct Hr as [?|(k & l' & Ha & _)]; [by left|right].
    split; [done|]. by exists k, l'.
Qed.

(** ** Cutting a block in two *)

Lemma two_heads h x y v w :
  wf_chunk x -> wf_chunk y -> chunk_mapped (hmem h) x -> chunk_mapped (hmem h) y ->
  apart x y -> 0 <= v < 2 ^ long_bits -> 0 <= w < 2 ^ long_bits ->
  exists m1 m2, put_size_ref x.1 v h = Some (tt, with_mem h m1) /\
    put_size_ref y.1 w (with_mem h m1) = Some (tt, with_mem h m2) /\
    word_at m1 (lo x) v /\ word_at m2 (lo x) v /\ word_at m2 (lo y) w /\
    chg (fun a => word_cells (lo x) a \/ word_cells (lo y) a) (hmem h) m2.
Proof.
  intros Hx Hy Hmx Hmy Hap Hv Hw.
  destruct (put_size_ref_eq h x v Hx Hmx Hv) as (m1 & E1 & W1 & C1).
  destruct (put_size_ref_eq (with_mem h m1) y w Hy) as (m2 & E2 & W2 & C2); [by eapply chg_chunk_mapped|done|].
  exists m1, m2. split_and!; try done.
  - eapply word_chg; [exact C2|done|]. intros a Ha%wf_head_in Hb%wf_head_in; [|done..].
    by eapply apart_in.
  - etransitivity; eapply chg_mono; [exact C1| |exact C2|]; tauto.
Qed.

Section cut.
Context h l al (p n k : Z).
Hypothesis Hi : heap_inv h l al.
Hypothesis Hp : al !! p = Some n.
Hypothesis Hk : (MALLOC_CHUNK_ALIGN | k).
Hypothesis Hkmin : MALLOC_CHUNK_MIN <= k.
Hypothesis Hrem : MALLOC_CHUNK_MIN <= n - k.

Lemma cut_wf : wf_chunk (p, k) /\ wf_chunk (p + k, n - k).
Proof. apply (split_wf k Hk Hkmin (p, n)); [|done]. by apply (inv_busy _ _ _ Hi). Qed.

Lemma cut_mapped : chunk_mapped (hmem h) (p, k) /\ chunk_mapped (hmem h) (p + k, n - k).
Proof.
  pose proof (busy_mapped _ _ _ (inv_busy _ _ _ Hi _ _ Hp)) as Hm.
  pose proof chunk_min_align. pose proof chunk_align_pos.
  split; (eapply mapped_weaken; [exact Hm|unfold lo; simpl; lia..]).
Qed.

Lemma cut_apart : apart (p, k) (p + k, n - k).
Proof. left. unfold lo, hi. simpl. lia. Qed.

Lemma cut_in a : in_chunk (p, k) a \/ in_chunk (p + k, n - k) a -> in_chunk (p, n) a.
Proof.
  pose proof chunk_min_align. pose proof chunk_align_pos.
  unfold in_chunk, lo, hi. simpl. lia.
Qed.

Lemma cut_new : al !! (p + k) = None.
Proof.
  destruct (al !! (p + k)) as [j|] eqn:Ej; [|done]. exfalso.
  pose proof chunk_min_align. pose proof chunk_align_pos.
  pose proof (inv_apart _ _ _ Hi _ _ _ _ Hp Ej ltac:(lia)) as Hap.
  pose proof (wf_bounds _ (busy_wf _ _ _ (inv_busy _ _ _ Hi _ _ Ej))).
  unfold apart, lo, hi in *. simpl in *. lia.
Qed.

(** With both headers written, the heap has two blocks in its place. *)
Lemma cut_inv m' :
  word_at m' (lo (p, k)) k -> word_at m' (lo (p + k, n - k)) (n - k) ->
  chg (fun a => word_cells (lo (p, k)) a \/ word_cells (lo (p + k, n - k)) a) (hmem h) m' ->
  heap_inv (with_mem h m') l (<[p + k := n - k]> (<[p := k]> al)) /\
  same_data (delete p al) h (with_mem h m') /\
  (forall a, in_data (p, k) a -> m' !! a = hmem h !! a).
Proof.
  intros W1 W2 Cg. destruct cut_wf as [Hw1 Hw2]. destruct cut_mapped as [Hm1 Hm2].
  pose proof cut_apart as Hap.
  assert (chg (in_chunk (p, n)) (hmem h) m') as C.
  { eapply chg_mono; [exact Cg|]. intros a Ha. apply cut_in.
    destruct Ha as [Ha%wf_head_in|Ha%wf_head_in]; auto. }
  assert (forall q j, al !! q = Some j -> q <> p -> apart (p, n) (q, j)) as Ho.
  { intros q j Hq Hne. by apply (inv_apart _ _ _ Hi). }
  assert (forall q j a, al !! q = Some j -> q <> p -> in_chunk (q, j) a -> ~ in_chunk (p, n) a) as Hod.
  { intros q j a Hq Hne Ha Hb. by eapply (apart_in (p, n)); [apply Ho| |]. }
  assert (forall x : chunk, apart (p, n) x -> apart (p, k) x /\ apart (p + k, n - k) x) as Hsub.
  { pose proof chunk_min_align. pose proof chunk_align_pos. intros x. unfold apart, lo, hi. simpl. lia. }
  assert (flist (with_mem h m') l) as Hfl.
  { eapply flist_chg; [apply Hi|exact C|]. intros y a Hy Ha Hb. eapply busy_not_free; [done..|]. by exists y. }
  split_and!.
  - eapply (inv_rebuild (in_chunk (p, n))); try done.
    + intros a [Ha|(q & j & Hq & Ha)]; [by left|right].
      apply lookup_insert_Some in Hq as [[<- <-]|[_ Hq]]; [exists p, n; split; [done|]; apply cut_in; auto|].
      apply lookup_insert_Some in Hq as [[<- <-]|[_ Hq]]; [exists p, n; split; [done|]; apply cut_in; auto|].
      by exists q, j.
    + intros q j [[<- <-]|[_ [[<- <-]|[Hne Hq]]%lookup_insert_Some]]%lookup_insert_Some.
      * split; [done| |done]. by eapply chg_chunk_mapped.
      * split; [done| |done]. by eapply chg_chunk_mapped.
      * eapply busy_chg; [by apply Hi|exact C|]. intros a Ha. by eapply Hod.
    + intros q j q' j' [[<- <-]|[_ [[<- <-]|[Hne Hq]]%lookup_insert_Some]]%lookup_insert_Some
        [[<- <-]|[_ [[<- <-]|[Hne' Hq']]%lookup_insert_Some]]%lookup_insert_Some Hqq; try done.
      * exact (proj2 (Hsub _ (Ho _ _ Hq' (not_eq_sym Hne')))).
      * exact (proj1 (Hsub _ (Ho _ _ Hq' (not_eq_sym Hne')))).
      * exact (apart_comm _ _ (proj2 (Hsub _ (Ho _ _ Hq (not_eq_sym Hne))))).
      * exact (apart_comm _ _ (proj1 (Hsub _ (Ho _ _ Hq (not_eq_sym Hne))))).
      * by apply (inv_apart _ _ _ Hi).
    + intros q j x [[<- <-]|[_ [[<- <-]|[Hne Hq]]%lookup_insert_Some]]%lookup_insert_Some Hx.
      * by apply Hsub, (inv_apart_free _ _ _ Hi).
      * by apply Hsub, (inv_apart_free _ _ _ Hi).
      * by apply (inv_apart_free _ _ _ Hi).
  - eapply chg_same_data; [exact C|]. intros a (q & j & [Hne Hq]%lookup_delete_Some & Ha).
    by eapply Hod.
  - intros a Ha. apply (chg_out _ _ _ Cg). pose proof (wf_bounds _ Hw1).
    unfold in_data, word_cells, lo, hi in *. simpl in *. lia.
Qed.

(** The second part is given back. *)
Lemma cut_free_back m' :
  (length l < fuel)%nat ->
  word_at m' (lo (p, k)) k -> word_at m' (lo (p + k, n - k)) (n - k) ->
  chg (fun a => word_cells (lo (p, k)) a \/ word_cells (lo (p + k, n - k)) a) (hmem h) m' ->
  exists h', __malloc_free fuel (p + k) (with_mem h m') = Some (tt, h') /\
    heap_inv h' (free_insert (p + k, n - k) l) (<[p := k]> al) /\
    same_data (delete p al) h h' /\ (forall a, in_data (p, k) a -> hmem h' !! a = hmem h !! a).
Proof.
  intros Hf W1 W2 Cg. destruct (cut_inv m' W1 W2 Cg) as (Hi' & Hsd & Hpd).
  pose proof cut_new as Hn. pose proof chunk_min_align. pose proof chunk_align_pos.
  assert (p <> p + k) as Hne by lia.
  assert (delete (p + k) (<[p + k := n - k]> (<[p := k]> al)) = <[p := k]> al) as Ed.
  { rewrite delete_insert_id; [done|]. by rewrite lookup_insert_ne. }
  destruct (free_heap _ _ _ (p + k) (n - k) Hi' Hf) as (h' & E & Hinv & Hsd' & _).
  { by rewrite lookup_insert_eq. }
  rewrite Ed in Hinv, Hsd'. exists h'. split_and!; try done.
  - eapply same_data_trans; [exact Hsd|]. eapply same_data_sub; [|exact Hsd'].
    apply map_subseteq_spec. intros q j [Hq Hq']%lookup_delete_Some. by rewrite lookup_insert_ne.
  - intros a Ha. rewrite (Hsd' p k a); [by apply Hpd|by rewrite lookup_insert_eq|done].
Qed.

(** The first part is given back. *)
Lemma cut_free_front m' :
  (length l < fuel)%nat ->
  word_at m' (lo (p, k)) k -> word_at m' (lo (p + k, n - k)) (n - k) ->
  chg (fun a => word_cells (lo (p, k)) a \/ word_cells (lo (p + k, n - k)) a) (hmem h) m' ->
  exists h', __malloc_free fuel p (with_mem h m') = Some (tt, h') /\
    heap_inv h' (free_insert (p, k) l) (<[p + k := n - k]> (delete p al)) /\
    same_data (delete p al) h h'.
Proof.
  intros Hf W1 W2 Cg. destruct (cut_inv m' W1 W2 Cg) as (Hi' & Hsd & Hpd).
  pose proof cut_new as Hn. pose proof chunk_min_align. pose proof chunk_align_pos.
  assert (p <> p + k) as Hne by lia.
  assert (delete p (<[p + k := n - k]> (<[p := k]> al)) = <[p + k := n - k]> (delete p al)) as Ed.
  { rewrite delete_insert_ne by done. by rewrite delete_insert_eq. }
  destruct (free_heap _ _ _ p k Hi' Hf) as (h' & E & Hinv & Hsd' & _).
  { rewrite lookup_insert_ne by done. by rewrite lookup_insert_eq. }
  rewrite Ed in Hinv, Hsd'. exists h'. split_and!; try done.
  eapply same_data_trans; [exact Hsd|]. eapply same_data_sub; [|exact Hsd'].
  apply insert_subseteq. by rewrite lookup_delete_ne.
Qed.
End cut.

(** ** Growing the last block *)

Lemma chunk_end_busy h p n : busy_chunk h p n -> chunk_end p h = Some (hi (p, n), h).
Proof.
  intros [Hw _ Hh]. unfold chunk_end.
  by rewrite (bind_eq _ _ _ _ _ (get_size_ref_eq _ _ _ Hh)).
Qed.

(** Memory that [sbrk] gave where it was not expected goes to the free list. *)
Lemma free_unexpected h h1 l al r s :
  heap_inv h l al -> heap_inv h1 l al -> hmem h1 = hmem h -> given h h1 r s -> (length l < fuel)%nat ->
  exists h', make_free_chunk fuel (blob_to_chunk r) s h1 = Some (tt, h') /\
    heap_inv h' (free_insert (r + Z.of_nat long_size, s) l) al /\ same_data al h h'.
Proof.
  intros Hi Hi1 Em [Hw Hfrom Honce Htop] Hf. unfold make_free_chunk, blob_to_chunk, _set_size, MALLOC_HEAD_SIZE.
  set (c := r + Z.of_nat long_size) in *. pose proof (wf_bounds _ Hw) as Bw. cbn [fst snd] in Bw.
  assert (forall a, in_chunk (c, s) a -> r <= a < r + s) as Hrange.
  { intros a. unfold in_chunk, lo, hi. simpl. lia. }
  assert (forall a, in_chunk (c, s) a -> ~ owned l al a) as Hnew.
  { intros a Ha. apply (inv_avail _ _ _ Hi), Hfrom, Hrange, Ha. }
  assert (chunk_mapped (hmem h1) (c, s)) as Hm.
  { rewrite Em. intros a Ha. apply (inv_avail _ _ _ Hi), Hfrom, Hrange.
    unfold in_chunk, lo, hi in *. simpl in *. lia. }
  destruct (put_size_ref_eq h1 (c, s) s Hw Hm ltac:(lia)) as (m1 & E1 & W1 & C1).
  cbn [fst] in E1. rewrite (bind_eq _ _ _ _ _ E1).
  assert (al !! c = None) as Hc.
  { eapply al_new_apart; [exact Hi|exact Hw|]. intros a Ha Hu. apply (Hnew a Ha). by right. }
  assert (chg (in_chunk (c, s)) (hmem h1) m1) as C1'.
  { eapply chg_mono; [exact C1|]. intros a. by apply wf_head_in. }
  assert (heap_inv (with_mem h1 m1) l (<[c := s]> al)) as Hi2.
  { eapply inv_add; [exact Hi1| |exact C1'|done|done| |].
    - split; [done|by eapply chg_chunk_mapped|done].
    - cbn. rewrite Htop. replace (r + s) with (hi (c, s)) by (unfold hi; simpl; lia). by apply wf_hi_even.
    - intros a Ha. rewrite delete_id by done. split; [auto|by apply Honce, Hrange]. }
  destruct (free_heap (with_mem h1 m1) l (<[c := s]> al) c s Hi2 Hf) as (h' & E & Hi' & Hsd & _).
  { by rewrite lookup_insert_eq. }
  rewrite delete_insert_id in Hi', Hsd by done. exists h'. split_and!; try done.
  eapply same_data_trans; [|exact Hsd]. eapply chg_same_data; [cbn; rewrite <- Em; exact C1'|].
  intros a Hu Ha. apply (Hnew a Ha). by right.
Qed.

(** [sbrk] extended the block: its header gets the new size. *)
Lemma grow_in_place h h1 l al p n add :
  heap_inv h l al -> heap_inv h1 l al -> hmem h1 = hmem h -> al !! p = Some n ->
  given h h1 (hi (p, n)) add ->
  exists m', put_size_ref p (n + add) h1 = Some (tt, with_mem h1 m') /\
    heap_inv (with_mem h1 m') l (<[p := n + add]> al) /\ same_data al h (with_mem h1 m') /\
    chg (word_cells (lo (p, n))) (hmem h) m'.
Proof.
  intros Hi Hi1 Em Hp [Hw Hfrom Honce Htop].
  pose proof (inv_busy _ _ _ Hi _ _ Hp) as [Hwp Hmp Hhp].
  pose proof (wf_bounds _ Hw) as Bw. pose proof (wf_bounds _ Hwp) as Bp. cbn [fst snd] in Bw, Bp.
  assert (wf_chunk (p, n + add)) as Hwn.
  { destruct Hwp as [P1 P2 P3 P4 P5], Hw as [Q1 Q2 Q3 Q4 Q5]. unfold lo, hi in *. simpl in *.
    split; unfold lo, hi; simpl; try done; [by apply Z.divide_add_r|lia..]. }
  assert (forall a, in_chunk (p, n + add) a -> ~ in_chunk (p, n) a -> hi (p, n) <= a < hi (p, n) + add) as Hpart.
  { intros a. unfold in_chunk, lo, hi. simpl. lia. }
  assert (chunk_mapped (hmem h) (p, n + add)) as Hmn.
  { intros a Ha. destruct (Z.lt_ge_cases a (hi (p, n))).
    - apply Hmp. unfold lo, hi in *. simpl in *. lia.
    - apply (inv_avail _ _ _ Hi), Hfrom. unfold lo, hi in *. simpl in *. lia. }
  rewrite <- Em in Hmn. pose proof (wf_bounds _ Hwn) as Bn. cbn [fst snd] in Bn.
  destruct (put_size_ref_eq h1 (p, n + add) (n + add) Hwn Hmn ltac:(lia)) as (m1 & E1 & W1 & C1).
  exists m1. split; [done|]. rewrite Em in C1. split_and!; [| |done].
  - eapply inv_add; [exact Hi1| | |done|done| |].
    + split; [done| |done]. eapply chg_chunk_mapped; [exact C1|]. by rewrite <- Em.
    + rewrite Em. eapply chg_mono; [exact C1|]. intros a. by apply (wf_head_in (p, n + add)).
    + cbn. rewrite Htop. replace (hi (p, n) + add) with (hi (p, n + add)) by (unfold hi; simpl; lia).
      by apply wf_hi_even.
    + intros a Ha. destruct (decide (lo (p, n) <= a < hi (p, n))) as [Hin|Hout].
      * split.
        -- intros [Hl|Hu]; [by eapply (busy_not_free h l al p n a)|].
           eapply (delete_not_busy h l al p n a); [done..|]. apply in_some_cons. by left.
        -- intros Hav. destruct (inv_avail _ _ _ Hi1 a Hav) as [_ Hn]. apply Hn. right. by exists p, n.
      * specialize (Hpart a Ha Hout). split; [|by apply Honce].
        destruct (inv_avail _ _ _ Hi a (Hfrom a Hpart)) as [_ Hn]. intros [Hl|Hu]; apply Hn; [by left|right].
        by eapply in_use_delete.
  - intros q j a Hq Ha. apply (chg_out _ _ _ C1). intros Hc. destruct (decide (q = p)) as [->|Hne].
    + simplify_eq. unfold in_data, word_cells, lo, hi in *. simpl in *. lia.
    + eapply (apart_in (p, n) (q, j) a); [by apply (inv_apart _ _ _ Hi)| |by apply in_data_chunk].
      by apply (wf_head_in (p, n)).
Qed.

Lemma length_merge_next z r : (length (merge_next z r) <= S (length r))%nat.
Proof. destruct r; simpl; [lia|]. case_bool; simpl; lia. Qed.

Lemma length_free_insert x l : (length (free_insert x l) <= S (length l))%nat.
Proof.
  induction l as [|y l IH]; cbn [free_insert]; [done|]. destruct (_ <=? _).
  - apply (length_merge_next x (y :: l)).
  - destruct (_ =? _); [pose proof (length_merge_next (y.1, y.2 + x.2) l)|]; simpl in *; lia.
Qed.

Lemma length_first_fit k l c n l' :
  first_fit k l = Some (c, n, l') -> (length l' <= S (length l))%nat.
Proof.
  revert c n l'. induction l as [|y l IH]; intros c n l' Hff; simpl in Hff; [done|].
  destruct (_ <=? _); [destruct (_ <=? _); simplify_eq; simpl; lia|].
  destruct (first_fit _ l) as [[[c' n'] r']|]; simplify_eq. specialize (IH _ _ _ eq_refl). simpl. lia.
Qed.

Lemma grow_spec h l al p n k :
  heap_inv h l al -> al !! p = Some n -> (MALLOC_CHUNK_ALIGN | k) -> n < k < 2 ^ long_bits ->
  (length l < fuel)%nat ->
  exists g h', __malloc_grow_chunk fuel p k h = Some (g, h') /\ same_data al h h' /\
    if g : bool then exists n', k <= n' /\ heap_inv h' l (<[p := n']> al)
    else exists l', heap_inv h' l' al /\ (length l' <= S (length l))%nat.
Proof.
  intros Hi Hp Hk Hnk Hf. pose proof (inv_busy _ _ _ Hi _ _ Hp) as Hb. unfold __malloc_grow_chunk.
  rewrite (bind_eq _ _ _ _ _ (chunk_end_busy _ _ _ Hb)). unfold get. erewrite bind_eq by reflexivity.
  destruct (Z.eqb_spec (hi (p, n)) (__malloc_sbrk_top h)) as [_|_]; cbn [negb].
  2: { exists false, h. split_and!; try done. exists l. split; [done|lia]. }
  destruct Hb as [Hw Hm Hh]. pose proof (wf_bounds _ Hw) as Bw. cbn [fst snd] in Bw.
  rewrite (bind_eq _ _ _ _ _ (_size_busy_eq h (p, n) Hw Hh)). cbn [snd].
  unfold size_t. rewrite uwrap_small by lia. set (add := Z.max MALLOC_CHUNK_MIN (k - n)).
  assert (MALLOC_CHUNK_ALIGN | add) as Hadd.
  { subst add. destruct (Z.max_spec MALLOC_CHUNK_MIN (k - n)) as [[_ ->]|[_ ->]];
      [apply Z.divide_sub_r; [done|apply Hw]|apply chunk_min_spec]. }
  assert (MALLOC_CHUNK_MIN <= add < 2 ^ long_bits) as Bad.
  { subst add. pose proof (wf_min _ Hw) as Hmin. simpl in Hmin. lia. }
  destruct (sbrk_aligned_spec h l al add Hi Hadd Bad) as (r & h1 & E & Hi1 & Em & Hg).
  rewrite (bind_eq _ _ _ _ _ E).
  assert (word_at (hmem h1) (p - Z.of_nat long_size) n) as Hh1 by by rewrite Em.
  destruct (Z.eqb_spec r (hi (p, n))) as [Er|Er].
  - destruct Hg as [Hr|Hg]; [pose proof (wf_pos _ Hw); unfold hi, lo, FAILED in *; simpl in *; lia|].
    rewrite Er in Hg. destruct (grow_in_place h h1 l al p n add) as (m' & E2 & Hi2 & Hsd & _); try done.
    rewrite (bind_eq _ _ _ _ _ (get_size_ref_eq _ _ _ Hh1)), (bind_eq _ _ _ _ _ E2).
    do 2 eexists. split; [reflexivity|]. split; [done|]. exists (n + add). split; [lia|done].
  - destruct (Z.eqb_spec r FAILED) as [Ef|Ef]; cbn [negb].
    + rewrite bind_ret. do 2 eexists. split; [reflexivity|]. split.
      * intros q j a _ _. by rewrite Em.
      * exists l. split; [done|lia].
    + destruct Hg as [?|Hg]; [done|].
      destruct (free_unexpected h h1 l al r add) as (h2 & E2 & Hi2 & Hsd); try done.
      rewrite (bind_eq _ _ _ _ _ E2). do 2 eexists. split; [reflexivity|]. split; [done|].
      eexists. split; [exact Hi2|apply length_free_insert].
Qed.

(** ** Writing into a block *)

(** The owner of a block may write all of it. *)
Lemma inv_write R h l al p n m' :
  heap_inv h l al -> al !! p = Some n -> chg R (hmem h) m' -> (forall a, R a -> in_data (p, n) a) ->
  heap_inv (with_mem h m') l al /\ same_data (delete p al) h (with_mem h m').
Proof.
  intros Hi Hp Cg HR.
  assert (forall q j a, al !! q = Some j -> q <> p -> in_chunk (q, j) a -> ~ R a) as Hd.
  { intros q j a Hq Hne Ha Hr%HR%in_data_chunk.
    eapply (apart_in (p, n) (q, j) a); [by apply (inv_apart _ _ _ Hi)|done|done]. }
  split.
  - eapply (inv_rebuild R); try done.
    + eapply flist_chg; [apply Hi|exact Cg|]. intros y a Hy Ha Hr%HR%in_data_chunk.
      eapply busy_not_free; [done..|]. by exists y.
    + intros q j Hq. destruct (decide (q = p)) as [->|Hne].
      * simplify_eq. destruct (inv_busy _ _ _ Hi _ _ Hp) as [Hw Hm Hh].
        split; [done|by eapply chg_chunk_mapped|]. eapply word_chg; [exact Cg|done|].
        intros a Ha Hr%HR. unfold in_data, word_cells, lo, hi in *. simpl in *. lia.
      * eapply busy_chg; [by apply Hi|exact Cg|]. intros a Ha. by eapply Hd.
    + apply Hi.
    + apply Hi.
  - eapply chg_same_data; [exact Cg|]. intros a (q & j & [Hne Hq]%lookup_delete_Some & Ha). by eapply Hd.
Qed.

(** ** [realloc] *)

(** No free chunk starts, with its storage, where the block ends: the search
    for one finds nothing. *)
Lemma no_chunk_at_end h l al p n x :
  heap_inv h l al -> al !! p = Some n -> x ∈ l -> x.1 <> NULL /\ x.1 <> hi (p, n).
Proof.
  intros Hi Hp Hx. pose proof (inv_apart_free _ _ _ Hi _ _ _ Hp Hx) as Hap.
  pose proof (fl_wf _ _ (inv_free _ _ _ Hi)) as Hw. rewrite Forall_forall in Hw.
  pose proof (wf_bounds _ (Hw x Hx)) as Bx.
  pose proof (wf_bounds _ (busy_wf _ _ _ (inv_busy _ _ _ Hi _ _ Hp))) as Bp.
  pose proof long_size_pos. unfold NULL, apart, lo, hi in *. cbn [fst snd] in *. split; [lia|]. intros E. lia.
Qed.

Lemma realloc_merge_loop h p e n r pre f :
  flist h (pre ++ r) -> (length r < f)%nat ->
  (forall x, x ∈ r -> x.1 <> NULL /\ x.1 <> e) ->
  loop (realloc_merge_step fuel p e n) f (place_of pre) h = Some (n, h).
Proof.
  revert pre f. induction r as [|y r IH]; intros pre [|f] Hfl Hf Hx; simpl in Hf; try lia;
    destruct (flist_seg _ _ _ Hfl) as [Hseg _]; cbn [head_or] in Hseg.
  - apply loop_stop. unfold realloc_merge_step.
    by rewrite (bind_eq _ _ _ _ _ (read_place_eq _ _ _ Hseg)).
  - destruct (Hx y ltac:(set_solver)) as [H1' H2'].
    assert (forall K, (if p <? y.1 then ret (inr n) else ret (inl (Next y.1))) h = K ->
              realloc_merge_step fuel p e n (place_of pre) h = K) as Hstep.
    { intros K <-. unfold realloc_merge_step.
      rewrite (bind_eq _ _ _ _ _ (read_place_eq _ _ _ Hseg)).
      by rewrite (proj2 (Z.eqb_neq _ _) H1'), (proj2 (Z.eqb_neq _ _) H2'). }
    destruct (p <? y.1).
    + apply loop_stop. by apply Hstep.
    + rewrite (loop_go _ _ _ _ (Next y.1) h) by by apply Hstep. rewrite (place_of_snoc pre y).
      apply IH; [by rewrite <- app_assoc|lia|set_solver].
Qed.

Lemma realloc_merge_none h l al p n :
  heap_inv h l al -> al !! p = Some n -> (length l < fuel)%nat ->
  realloc_merge fuel p (hi (p, n)) n h = Some (n, h).
Proof.
  intros Hi Hp Hf. apply (realloc_merge_loop h p (hi (p, n)) n l []); [apply Hi|done|].
  intros x. by eapply no_chunk_at_end.
Qed.

(** A block after [realloc]: where it is now, its size and its contents. *)
Record moved h al (p n size r : Z) h' (l' : list chunk) (n' : Z) : Prop := {
  mv_nonnull : r <> NULL;
  mv_new : r = p \/ al !! r = None;
  mv_room : size + Z.of_nat long_size <= n';
  mv_inv : heap_inv h' l' (<[r := n']> (delete p al));
  mv_others : same_data (delete p al) h h';
  mv_data : forall i, 0 <= i < Z.min size (n - Z.of_nat long_size) ->
    hmem h' !! (r + i) = hmem h !! (p + i) }.

Lemma same_data_at al h h' p n i :
  same_data al h h' -> al !! p = Some n -> 0 <= i < n - Z.of_nat long_size ->
  hmem h' !! (p + i) = hmem h !! (p + i).
Proof. intros Hs Hp Hr. apply (Hs p n); [done|]. unfold in_data, hi. simpl. lia. Qed.

(** The attempt to grow in place. *)
Lemma realloc_grow h l al p n k :
  heap_inv h l al -> al !! p = Some n -> (MALLOC_CHUNK_ALIGN | k) -> n < k < 2 ^ long_bits ->
  (S (length l) < fuel)%nat -> (Z.to_nat k < fuel)%nat ->
  exists old h1 l1 n1,
    (do chunk_e <- chunk_end p;
     do grown <- __malloc_grow_chunk fuel p k;
     if grown : bool then
       run in_mem (mf_memset fuel chunk_e 0 (k - n));
       ret k
     else realloc_merge fuel p chunk_e n) h = Some (old, h1) /\
    heap_inv h1 l1 (<[p := n1]> al) /\ same_data al h h1 /\ (length l1 <= S (length l))%nat /\
    (old = k /\ k <= n1 \/ old = n /\ n1 = n).
Proof.
  intros Hi Hp Hk Hnk Hf Hfk. pose proof (inv_busy _ _ _ Hi _ _ Hp) as Hb.
  pose proof (wf_bounds _ (busy_wf _ _ _ Hb)) as Bp. cbn [fst snd] in Bp.
  rewrite (bind_eq _ _ _ _ _ (chunk_end_busy _ _ _ Hb)).
  destruct (grow_spec h l al p n k) as ([] & h1 & E & Hsd & Hg); try done; try lia;
    rewrite (bind_eq _ _ _ _ _ E).
  - destruct Hg as (n1 & Hn1 & Hi1). set (j := Z.to_nat (k - n)).
    replace (k - n) with (Z.of_nat j) by lia.
    assert (mapped (hmem h1) (hi (p, n)) (Z.of_nat j)) as Hm.
    { pose proof (busy_mapped _ _ _ (inv_busy _ _ _ Hi1 p n1 ltac:(by rewrite lookup_insert_eq))) as Hm.
      eapply mapped_weaken; [exact Hm|unfold lo, hi; simpl; lia..]. }
    assert (in_mem (mf_memset fuel (hi (p, n)) 0 (Z.of_nat j)) h1 =
            Some (hi (p, n), with_mem h1 (put_bytes (hmem h1) (hi (p, n)) (replicate j 0)))) as Em.
    { unfold in_mem. rewrite memset_ok by (done || lia). done. }
    rewrite (bind_eq _ _ _ _ _ Em).
    pose proof (chg_put (hmem h1) (hi (p, n)) (replicate j 0) ltac:(by apply Forall_replicate)) as Cg.
    rewrite length_replicate in Cg.
    destruct (inv_write _ h1 l (<[p := n1]> al) p n1 _ Hi1 ltac:(by rewrite lookup_insert_eq) Cg) as [Hi2 _].
    { intros a. unfold in_data, hi. simpl. lia. }
    do 4 eexists. split; [reflexivity|]. split; [exact Hi2|]. split_and!; [|lia|left; by split].
    intros q i a Hq Ha. rewrite <- (Hsd q i a Hq Ha). apply (chg_out _ _ _ Cg). intros Hc.
    destruct (decide (q = p)) as [->|Hne].
    + simplify_eq. unfold in_data, hi in *. simpl in *. lia.
    + eapply (apart_in (p, n1) (q, i) a).
      * apply (inv_apart _ _ _ Hi1); [by rewrite lookup_insert_eq|by rewrite lookup_insert_ne|done].
      * unfold in_chunk, lo, hi in *. simpl in *. lia.
      * by apply in_data_chunk.
  - destruct Hg as (l1 & Hi1 & Hl1). exists n, h1, l1, n.
    rewrite (realloc_merge_none h1 l1 al) by (done || lia). rewrite insert_id by done.
    split_and!; try done. by right.
Qed.

(** No room in place: a new block, a copy, and the old block is freed. *)
Lemma realloc_move h l al p n size :
  heap_inv h l al -> al !! p = Some n -> 0 < size <= MALLOC_ALLOC_MAX -> n < chunk_size size ->
  (S (length l) < fuel)%nat -> (Z.to_nat (chunk_size size) < fuel)%nat ->
  exists r h' l',
    (do mem <- malloc fuel size;
     if mem =? NULL then ret NULL
     else
       run in_mem (mf_memcpy fuel mem p (malloc_size n));
       run __malloc_free fuel p;
       ret mem) h = Some (r, h') /\
    ((r = NULL /\ errno h' = ENOMEM /\ heap_inv h' l' al /\ same_data al h h') \/
     exists n', moved h al p n size r h' l' n').
Proof.
  intros Hi Hp Hs Hnk Hf Hfk.
  pose proof (wf_bounds _ (busy_wf _ _ _ (inv_busy _ _ _ Hi _ _ Hp))) as Bp. cbn [fst snd] in Bp.
  assert (0 <= size < 2 ^ long_bits) as Bs by (rewrite alloc_max_eq in Hs; pose proof chunk_align_pos; lia).
  destruct (malloc_spec h l al size Hi Bs ltac:(lia) Hfk) as (r & h1 & E & Hr).
  rewrite (bind_eq _ _ _ _ _ E). destruct Hr as [(-> & Her & Hi1 & Em)|(n1 & l1 & [A1 A2 A3 A4 A5 A6 A7] & Hff)].
  { exists NULL, h1, l. split; [done|]. left. split_and!; try done. intros q j a _ _. by rewrite Em. }
  rewrite (proj2 (Z.eqb_neq _ _) A1).
  assert (r <> p) as Hrp by (intros ->; congruence).
  assert (chunk_size size <= n1) as Hn1.
  { destruct Hff as [Hff|(_ & _ & ->)]; [|lia].
    destruct (chunk_size_spec size) as (K1 & K2 & K3 & _); [lia|].
    pose proof (inv_free _ _ _ Hi) as Hfl.
    by destruct (first_fit_ok _ _ _ _ _ (hmem h) K1 K2 (fl_wf _ _ Hfl) (fl_sorted _ _ Hfl)
             (fl_mapped _ _ Hfl) Hff) as (_ & _ & ? & _). }
  assert (<[r := n1]> al !! p = Some n) as Hp1 by by rewrite lookup_insert_ne.
  assert (<[r := n1]> al !! r = Some n1) as Hr1 by by rewrite lookup_insert_eq.
  set (j := Z.to_nat (n - Z.of_nat long_size)).
  pose proof (busy_mapped _ _ _ (inv_busy _ _ _ A5 _ _ Hp1)) as Hmp.
  pose proof (busy_mapped _ _ _ (inv_busy _ _ _ A5 _ _ Hr1)) as Hmr.
  destruct (mapped_bytes (hmem h1) p j) as (d & Hd & Hdat).
  { eapply mapped_weaken; [exact Hmp|unfold lo; simpl; lia..]. }
  pose proof (inv_apart _ _ _ A5 _ _ _ _ Hr1 Hp1 Hrp) as Hap.
  assert (in_mem (mf_memcpy fuel r p (malloc_size n)) h1 =
          Some (r, with_mem h1 (put_bytes (hmem h1) r d))) as Ec.
  { unfold in_mem, malloc_size, size_t, MALLOC_HEAD_SIZE. rewrite uwrap_small by lia.
    replace (n - Z.of_nat long_size) with (Z.of_nat (length d)) by lia.
    rewrite memcpy_ok; try done; [lia|apply A5| |].
    - eapply mapped_weaken; [exact Hmr|unfold lo; simpl; lia..].
    - unfold disjoint_blk, apart, lo, hi in *. simpl in *. lia. }
  rewrite (bind_eq _ _ _ _ _ Ec).
  pose proof (chg_put (hmem h1) r d (bytes_at_bytes _ _ _ (inv_ok _ _ _ A5) Hdat)) as Cg.
  destruct (inv_write _ h1 l1 _ r n1 _ A5 Hr1 Cg) as [Hi2 Hsd2].
  { intros a. unfold in_data, hi. simpl. lia. }
  rewrite delete_insert_id in Hsd2 by done.
  assert (length l1 <= S (length l))%nat as Hl1.
  { destruct Hff as [Hff|(_ & -> & _)]; [|lia]. by eapply length_first_fit. }
  destruct (free_heap _ l1 _ p n Hi2 ltac:(lia) Hp1) as (h3 & E3 & Hi3 & Hsd3 & _).
  rewrite (bind_eq _ _ _ _ _ E3). rewrite delete_insert_ne in Hi3, Hsd3 by done.
  exists r, h3, (free_insert (p, n) l1). split; [done|]. right. exists n1. split; try done; [by right| |].
  - eapply same_data_trans; [eapply same_data_sub; [|exact A7]; apply delete_subseteq|].
    eapply same_data_trans; [eapply same_data_sub; [|exact Hsd2]; apply delete_subseteq|].
    eapply same_data_sub; [|exact Hsd3]. apply insert_subseteq. by rewrite lookup_delete_ne.
  - intros i Hi'. rewrite (same_data_at _ _ _ r n1 i Hsd3); [|by rewrite lookup_insert_eq|lia].
    cbn. rewrite lookup_put_bytes, decide_True by lia. replace (r + i - r) with i by lia.
    rewrite <- Hdat by lia. rewrite Z2Nat.id by lia. apply (same_data_at al _ _ p n); [done..|lia].
Qed.

(** The block stays: what is not needed of it may be cut off. *)
Lemma realloc_stay h0 al0 h l p n0 n size old :
  let k := chunk_size size in
  al0 !! p = Some n0 -> heap_inv h l (<[p := n]> al0) -> same_data al0 h0 h ->
  0 < size <= MALLOC_ALLOC_MAX -> k <= old -> (old = k /\ k <= n \/ old = n) -> n0 <= n ->
  (length l < fuel)%nat ->
  exists h' l' n',
    (run (if MALLOC_CHUNK_MIN <=? old - k then
            run _set_size p k;
            do after <- chunk_after p;
            make_free_chunk fuel after (old - k)
          else ret tt);
     ret p) h = Some (p, h') /\ moved h0 al0 p n0 size p h' l' n'.
Proof.
  intros k Hp0 Hi Hsd Hs Hold Hcase Hnn Hf.
  destruct (chunk_size_spec size) as (Ka & Km & Kr & _); [lia|]. fold k in Ka, Km, Kr.
  assert (<[p := n]> al0 !! p = Some n) as Hp by by rewrite lookup_insert_eq.
  pose proof (inv_busy _ _ _ Hi _ _ Hp) as Hb. pose proof (wf_bounds _ (busy_wf _ _ _ Hb)) as Bp.
  cbn [fst snd] in Bp.
  assert (p <> NULL) as Hpn by (unfold NULL; lia).
  destruct (Z.leb_spec MALLOC_CHUNK_MIN (old - k)) as [Hcut|Hno].
  - destruct Hcase as [[-> _]| ->]; [pose proof (proj2 chunk_min_spec); pose proof long_size_pos; lia|].
    destruct (cut_wf h l _ p n k Hi Hp Ka Km Hcut) as [Hw1 Hw2].
    destruct (cut_mapped h l _ p n k Hi Hp Km Hcut) as [Hm1 Hm2].
    pose proof (wf_bounds _ Hw1) as B1. pose proof (wf_bounds _ Hw2) as B2. cbn [fst snd] in B1, B2.
    destruct (two_heads h (p, k) (p + k, n - k) k (n - k)) as (m1 & m2 & E1 & E2 & W0 & W1 & W2 & Cg);
      try done; [apply cut_apart|lia..|]. cbn [fst] in E1, E2.
    destruct (cut_free_back h l _ p n k Hi Hp Ka Km Hcut m2 Hf W1 W2 Cg) as (h' & E & Hi' & Hsd' & Hdat).
    assert (chunk_after p (with_mem h m1) = Some (p + k, with_mem h m1)) as Ea.
    { unfold chunk_after. by rewrite (bind_eq _ _ _ _ _ (_size_busy_eq (with_mem h m1) (p, k) Hw1 W0)). }
    exists h', (free_insert (p + k, n - k) l), k. split.
    { unfold bind at 1. unfold _set_size, make_free_chunk. rewrite (bind_eq _ _ _ _ _ E1), (bind_eq _ _ _ _ _ Ea).
      unfold _set_size. by rewrite (bind_eq _ _ _ _ _ E2), E. }
    rewrite insert_insert_eq in Hi'. rewrite delete_insert_eq in Hsd'.
    split; try done; [by left|lia|by rewrite insert_delete_eq| |].
    + eapply same_data_trans; [eapply same_data_sub; [apply delete_subseteq|exact Hsd]|exact Hsd'].
    + intros i Hr. rewrite Hdat by (unfold in_data, hi; simpl; lia).
      apply (same_data_at al0 _ _ p n0); [done..|lia].
  - exists h, l, n. split; [done|]. split; try done; [by left|lia|by rewrite insert_delete_eq| |].
    + eapply same_data_sub; [apply delete_subseteq|exact Hsd].
    + intros i Hr. apply (same_data_at al0 _ _ p n0); [done..|lia].
Qed.

Lemma realloc_spec h l al p n size :
  heap_inv h l al -> al !! p = Some n -> 0 < size <= MALLOC_ALLOC_MAX ->
  (2 + length l < fuel)%nat -> (Z.to_nat (chunk_size size) < fuel)%nat ->
  exists r h' l', realloc fuel p size h = Some (r, h') /\
    ((r = NULL /\ errno h' = ENOMEM /\ heap_inv h' l' al /\ same_data al h h') \/
     exists n', moved h al p n size r h' l' n').
Proof.
  intros Hi Hp Hs Hf Hfk. destruct (chunk_size_spec size) as (Ka & Km & Kr & _); [lia|].
  pose proof (inv_busy _ _ _ Hi _ _ Hp) as Hb. pose proof (wf_bounds _ (busy_wf _ _ _ Hb)) as Bp.
  cbn [fst snd] in Bp. destruct Hb as [Hw Hm Hh]. unfold realloc.
  rewrite (proj2 (Z.eqb_neq p NULL)) by (unfold NULL; lia).
  rewrite (proj2 (Z.eqb_neq size 0)) by lia. rewrite (proj2 (Z.ltb_ge _ _) (proj2 Hs)).
  assert (_check_busy p h = Some (true, h)) as Ec.
  { unfold _check_busy, _is_free. unfold bind at 1.
    rewrite (bind_eq _ _ _ _ _ (get_size_ref_eq _ _ _ Hh)), land_1.
    rewrite (proj2 (Z.mod_divide n 2 ltac:(lia))) by tauto. done. }
  rewrite (bind_eq _ _ _ _ _ Ec). cbn [negb]. cbv zeta.
  rewrite (bind_eq _ _ _ _ _ (_size_busy_eq h (p, n) Hw Hh)). cbn [snd].
  set (k := chunk_size size) in *.
  destruct (Z.ltb_spec n k) as [Hlt|Hge].
  - destruct (realloc_grow h l al p n k) as (old & h1 & l1 & n1 & E & Hi1 & Hsd1 & Hl1 & Hcase);
      try done; try lia. rewrite (bind_eq _ _ _ _ _ E).
    destruct Hcase as [[-> Hn1]|[-> ->]].
    + rewrite (proj2 (Z.leb_le k k)) by lia.
      destruct (realloc_stay h al h1 l1 p n n1 size k) as (h' & l' & n' & E' & Hmv); try done; try lia.
      exists p, h', l'. split; [exact E'|]. right. by exists n'.
    + rewrite insert_id in Hi1 by done. rewrite (proj2 (Z.leb_gt _ _) Hlt).
      destruct (realloc_move h1 l1 al p n size) as (r & h' & l' & E' & Hr); try done; try lia.
      exists r, h', l'. split; [done|]. destruct Hr as [(R1 & R2 & R3 & R4)|(n' & [M1 M2 M3 M4 M5 M6])].
      * left. split_and!; try done. by eapply same_data_trans.
      * right. exists n'. split; try done.
        -- eapply same_data_trans; [|exact M5]. eapply same_data_sub; [apply delete_subseteq|exact Hsd1].
        -- intros i Hir. rewrite M6 by done. apply (same_data_at al _ _ p n); [done..|lia].
  - rewrite bind_ret, (proj2 (Z.leb_le _ _) Hge).
    destruct (realloc_stay h al h l p n n size n) as (h' & l' & n' & E' & Hmv); try done; try lia.
    { by rewrite insert_id. }
    exists p, h', l'. split; [exact E'|]. right. by exists n'.
Qed.

(** ** [memalign] *)

Section memalign.
(** On these targets the smallest chunk is one alignment unit of at most 16
    bytes. *)
Hypothesis Hdouble : 2 * Z.of_nat long_size <= MALLOC_CHUNK_ALIGN <= 16.

Lemma chunk_min_eq : MALLOC_CHUNK_MIN = MALLOC_CHUNK_ALIGN.
Proof.
  destruct chunk_min_spec as [[i Ei] Hr]. pose proof long_size_pos. pose proof chunk_align_pos.
  assert (0 < i < 2) by nia. replace i with 1 in Ei by lia. lia.
Qed.

(** The padded request does not wrap. *)
Lemma padding_fits s align :
  0 <= s -> 0 < align -> align <= MALLOC_ALLOC_MAX -> s <= MALLOC_ALLOC_MAX - align ->
  chunk_size s + align + MALLOC_CHUNK_MIN < 2 ^ long_bits.
Proof.
  intros Hs Ha Hal Hsa. destruct (chunk_size_spec s) as (_ & _ & Kr & Kc); [lia|].
  rewrite chunk_min_eq in *. rewrite alloc_max_eq in *. pose proof chunk_align_pos.
  assert (64 <= 2 ^ long_bits) by (pose proof bits_big; lia). lia.
Qed.

(** Give back the front of a new block. *)
Lemma memalign_front h l al p n off :
  heap_inv h l (<[p := n]> al) -> al !! p = None -> (MALLOC_CHUNK_ALIGN | off) ->
  MALLOC_CHUNK_MIN <= off -> MALLOC_CHUNK_MIN <= n - off -> (length l < fuel)%nat ->
  exists h' l', (do sz <- _size p;
                 run _set_size (p + off) (size_t (sz - off));
                 run make_free_chunk fuel p off;
                 ret (p + off)) h = Some (p + off, h') /\
    heap_inv h' l' (<[p + off := n - off]> al) /\ same_data al h h' /\
    al !! (p + off) = None /\ (length l' <= S (length l))%nat.
Proof.
  intros Hi Hnew Hoff Hmin Hrem Hf.
  assert (<[p := n]> al !! p = Some n) as Hp by by rewrite lookup_insert_eq.
  pose proof (inv_busy _ _ _ Hi _ _ Hp) as [Hw Hm Hh].
  destruct (cut_wf h l _ p n off Hi Hp Hoff Hmin Hrem) as [Hw1 Hw2].
  destruct (cut_mapped h l _ p n off Hi Hp Hmin Hrem) as [Hm1 Hm2].
  pose proof (wf_bounds _ Hw) as B0. pose proof (wf_bounds _ Hw1) as B1.
  pose proof (wf_bounds _ Hw2) as B2. cbn [fst snd] in B0, B1, B2.
  rewrite (bind_eq _ _ _ _ _ (_size_busy_eq h (p, n) Hw Hh)). cbn [snd].
  unfold size_t. rewrite uwrap_small by lia.
  destruct (two_heads h (p + off, n - off) (p, off) (n - off) off) as (m1 & m2 & E1 & E2 & _ & W2 & W1 & Cg);
    try done; [apply apart_comm, cut_apart|lia..|]. cbn [fst] in E1, E2.
  destruct (cut_free_front h l _ p n off Hi Hp Hoff Hmin Hrem m2 Hf W1 W2) as (h' & E & Hi' & Hsd').
  { eapply chg_mono; [exact Cg|]. tauto. }
  rewrite delete_insert_id in Hi', Hsd' by done.
  assert (<[p := n]> al !! (p + off) = None) as Hn by by eapply cut_new.
  rewrite lookup_insert_ne in Hn by lia.
  exists h', (free_insert (p, off) l). split_and!; try done; [|apply length_free_insert].
  unfold make_free_chunk, _set_size. rewrite (bind_eq _ _ _ _ _ E1).
  unfold bind at 1. rewrite (bind_eq _ _ _ _ _ E2). by rewrite E.
Qed.

(** Give back the tail of a new block. *)
Lemma memalign_back h l al p n k :
  heap_inv h l (<[p := n]> al) -> al !! p = None -> (MALLOC_CHUNK_ALIGN | k) ->
  MALLOC_CHUNK_MIN <= k -> MALLOC_CHUNK_MIN <= n - k -> (length l < fuel)%nat ->
  exists h' l', (do sz <- _size p;
                 let offset := size_t (sz - k) in
                 run (if MALLOC_CHUNK_MIN <=? offset then
                        do r <- get_size_ref p;
                        run put_size_ref p (r - offset);
                        do after <- chunk_after p;
                        make_free_chunk fuel after offset
                      else ret tt);
                 ret p) h = Some (p, h') /\
    heap_inv h' l' (<[p := k]> al) /\ same_data al h h'.
Proof.
  intros Hi Hnew Hk Hmin Hrem Hf.
  assert (<[p := n]> al !! p = Some n) as Hp by by rewrite lookup_insert_eq.
  pose proof (inv_busy _ _ _ Hi _ _ Hp) as [Hw Hm Hh].
  destruct (cut_wf h l _ p n k Hi Hp Hk Hmin Hrem) as [Hw1 Hw2].
  destruct (cut_mapped h l _ p n k Hi Hp Hmin Hrem) as [Hm1 Hm2].
  pose proof (wf_bounds _ Hw) as B0. pose proof (wf_bounds _ Hw1) as B1.
  pose proof (wf_bounds _ Hw2) as B2. cbn [fst snd] in B0, B1, B2.
  rewrite (bind_eq _ _ _ _ _ (_size_busy_eq h (p, n) Hw Hh)). cbn [snd]. cbv zeta.
  unfold size_t. rewrite uwrap_small by lia. rewrite (proj2 (Z.leb_le _ _) Hrem).
  destruct (two_heads h (p, k) (p + k, n - k) k (n - k)) as (m1 & m2 & E1 & E2 & W0 & W1 & W2 & Cg);
    try done; [apply cut_apart|lia..|]. cbn [fst] in E1, E2.
  destruct (cut_free_back h l _ p n k Hi Hp Hk Hmin Hrem m2 Hf W1 W2 Cg) as (h' & E & Hi' & Hsd' & _).
  rewrite insert_insert_eq in Hi'. rewrite delete_insert_id in Hsd' by done.
  exists h', (free_insert (p + k, n - k) l). split_and!; try done.
  unfold bind at 1. rewrite (bind_eq _ _ _ _ _ (get_size_ref_eq _ _ _ Hh)).
  replace (n - (n - k)) with k by lia. rewrite (bind_eq _ _ _ _ _ E1).
  unfold chunk_after. unfold bind at 1.
  rewrite (bind_eq _ _ _ _ _ (_size_busy_eq (with_mem h m1) (p, k) Hw1 W0)). unfold ret at 1.
  unfold make_free_chunk, _set_size. cbn [snd]. by rewrite (bind_eq _ _ _ _ _ E2), E.
Qed.

Lemma pot_divides i j : 0 <= i <= j -> (2 ^ i | 2 ^ j).
Proof. intros. exists (2 ^ (j - i)). rewrite <- Z.pow_add_r by lia. f_equal. lia. Qed.

(** The distance to the next multiple of [2 ^ j] from an aligned pointer. *)
Lemma align_offset p j :
  0 <= j -> 0 <= p -> (MALLOC_CHUNK_ALIGN | p) -> p + 2 ^ j <= 2 ^ long_bits ->
  let off := __align_up p (2 ^ j) - p in
  (2 ^ j | p + off) /\ 0 <= off < 2 ^ j /\ (MALLOC_CHUNK_ALIGN | off).
Proof.
  intros Hj Hp Hpa Hb off. destruct (align_up_pot p j Hj Hp Hb) as [Hd Hr].
  subst off. replace (p + (__align_up p (2 ^ j) - p)) with (__align_up p (2 ^ j)) by lia.
  split_and!; [done|lia|lia|]. unfold MALLOC_CHUNK_ALIGN in *.
  destruct (Z.le_gt_cases chunk_align_pot j) as [Hle|Hgt].
  - apply Z.divide_sub_r; [|done]. etransitivity; [apply pot_divides|exact Hd].
    split; [apply TOk|done].
  - assert (2 ^ j | p) as Hjp by (etransitivity; [apply pot_divides|exact Hpa]; lia).
    assert (__align_up p (2 ^ j) = p) as ->.
    { destruct Hd as [x Hx], Hjp as [y Hy]. assert (0 < 2 ^ j) by (apply Z.pow_pos_nonneg; lia).
      rewrite Hx in *. assert (x = y) by nia. lia. }
    rewrite Z.sub_diag. apply Z.divide_0_r.
Qed.

Lemma up_pot_min : UP_POT MALLOC_CHUNK_MIN = 4.
Proof.
  unfold UP_POT. rewrite chunk_min_eq. change (2 ^ 4) with 16.
  by rewrite (proj2 (Z.leb_le _ _)) by lia.
Qed.

(** The alignment used: the one asked for, and at least 4. *)
Lemma align_used j : 0 <= j -> exists i, 0 <= i /\ Z.max (2 ^ j) 4 = 2 ^ i /\ (2 ^ j | 2 ^ i).
Proof.
  intros Hj. destruct (Z.le_gt_cases 2 j) as [Hle|Hgt].
  - exists j. split_and!; [lia| |apply Z.divide_refl].
    apply Z.max_l. apply (Z.pow_le_mono_r 2 2 j); lia.
  - exists 2. split_and!; [lia| |apply pot_divides; lia].
    apply Z.max_r. apply (Z.pow_le_mono_r 2 j 2); lia.
Qed.

Lemma pot_land j : 0 <= j < long_bits -> Z.land (2 ^ j) (size_t (2 ^ j - 1)) = 0.
Proof.
  intros Hj. unfold size_t. assert (0 < 2 ^ j) by (apply Z.pow_pos_nonneg; lia).
  assert (2 ^ j < 2 ^ long_bits) by (apply Z.pow_lt_mono_r; lia).
  rewrite uwrap_small by lia. replace (2 ^ j - 1) with (Z.ones j) by (rewrite Z.ones_equiv; lia).
  rewrite Z.land_ones by lia. apply Z.mod_same. lia.
Qed.

Lemma memalign_front_any h1 l1 al p n i k :
  heap_inv h1 l1 (<[p := n]> al) -> al !! p = None -> 0 <= i -> 0 < p -> 0 < 2 ^ i ->
  p + 2 ^ i <= 2 ^ long_bits -> (MALLOC_CHUNK_ALIGN | p) -> 0 <= k -> k + 2 ^ i + MALLOC_CHUNK_MIN <= n ->
  (S (length l1) < fuel)%nat ->
  let off := __align_up p (2 ^ i) - p in
  exists h2 l2 n2, (if off =? 0 then ret p
     else
       let '(aligned_p, offset) :=
         if off <? MALLOC_CHUNK_MIN then (__align_up p (2 ^ i) + 2 ^ i, off + 2 ^ i)
         else (__align_up p (2 ^ i), off) in
       do sz <- _size p;
       run _set_size aligned_p (size_t (sz - offset));
       run make_free_chunk fuel p offset;
       ret aligned_p) h1 = Some (p + off, h2) /\ heap_inv h2 l2 (<[p + off := n2]> al) /\
     same_data al h1 h2 /\ al !! (p + off) = None /\ (length l2 <= 1 + length l1)%nat /\
     k + MALLOC_CHUNK_MIN <= n2.
Proof.
  intros Hi1 Hp Hi Hpos Hipos Hend Hpa Hk Hn Hf off. pose proof chunk_min_align. pose proof chunk_align_pos.
  destruct (align_offset p i) as (Hd & Hoff & Hoffa); [lia|lia|done|lia|]. fold off in Hoff, Hoffa, Hd.
  destruct (Z.eqb_spec off 0) as [E0|Hne].
  - exists h1, l1, n. rewrite E0, Z.add_0_r. split_and!; try done; lia.
  - assert (MALLOC_CHUNK_ALIGN <= off) as Hge by (apply Z.divide_pos_le; [lia|done]).
    rewrite chunk_min_eq, (proj2 (Z.ltb_ge off _) Hge). replace (__align_up p (2 ^ i)) with (p + off) by lia.
    destruct (memalign_front h1 l1 al p n off) as (h2 & l2 & E2 & K1 & K2 & K3 & K4);
      try done; try (rewrite chunk_min_eq in *; lia); try lia.
    exists h2, l2, (n - off). split_and!; try done; rewrite ?chunk_min_eq in *; lia.
Qed.

Lemma memalign_spec h l al j s :
  heap_inv h l al -> 0 <= j < long_bits -> 0 <= s < 2 ^ long_bits -> (3 + length l < fuel)%nat ->
  (Z.to_nat (chunk_size (chunk_size s + Z.max (2 ^ j) 4 + MALLOC_CHUNK_MIN)) < fuel)%nat ->
  exists r h' l', memalign fuel (2 ^ j) s h = Some (r, h') /\
    ((r = NULL /\ errno h' = ENOMEM /\ heap_inv h' l' al /\ hmem h' = hmem h) \/
     (r <> NULL /\ al !! r = None /\ (2 ^ j | r) /\ s + Z.of_nat long_size <= chunk_size s /\
      heap_inv h' l' (<[r := chunk_size s]> al) /\ same_data al h h')).
Proof.
  intros Hi Hj Hs Hf Hfk. unfold memalign. rewrite pot_land by done. cbn [Z.eqb negb].
  rewrite up_pot_min. destruct (align_used j) as (i & Hi0 & Ei & Hdiv); [lia|]. rewrite Ei in *.
  cbv zeta. destruct ((MALLOC_ALLOC_MAX <? 2 ^ i) || (MALLOC_ALLOC_MAX - 2 ^ i <? s)) eqn:Ebig.
  { do 2 eexists. exists l. split; [reflexivity|]. left. split_and!; try done.
    eapply inv_sbrk; try done; apply Hi. }
  bool_to_prop. assert (0 < 2 ^ i) as Hipos by (apply Z.pow_pos_nonneg; lia).
  assert (MALLOC_ALLOC_MAX < 2 ^ long_bits) as Hmax by (rewrite alloc_max_eq; pose proof chunk_align_pos; lia).
  destruct (chunk_size_spec s) as (Ka & Km & Kr & _); [lia|].
  assert (chunk_size s + 2 ^ i + MALLOC_CHUNK_MIN < 2 ^ long_bits) as Hfit by (apply padding_fits; lia).
  pose proof chunk_min_align. pose proof chunk_align_pos.
  set (k := chunk_size s) in *. unfold size_t at 1. rewrite uwrap_small by lia.
  set (S0 := k + 2 ^ i + MALLOC_CHUNK_MIN) in *.
  destruct (malloc_spec h l al S0 Hi ltac:(lia) ltac:(lia) Hfk) as (p & h1 & E & Hr).
  rewrite (bind_eq _ _ _ _ _ E). destruct Hr as [(-> & Her & Hi1 & Em)|(n & l1 & [A1 A2 A3 A4 A5 A6 A7] & Hff)].
  { exists NULL, h1, l. split; [done|]. left. done. }
  rewrite (proj2 (Z.eqb_neq _ _) A1).
  assert (length l1 <= S (length l))%nat as Hl1.
  { destruct Hff as [Hff|(_ & -> & _)]; [|lia]. by eapply length_first_fit. }
  pose proof (inv_busy _ _ _ A5 p n ltac:(by rewrite lookup_insert_eq)) as Hb.
  pose proof (wf_bounds _ (busy_wf _ _ _ Hb)) as Bp. pose proof (wf_hi _ (busy_wf _ _ _ Hb)) as Bh.
  unfold hi in Bh. cbn [fst snd] in Bp, Bh.
  destruct (align_offset p i) as (Hd & Hoff & Hoffa); [lia|lia|done|lia|].
  set (off := __align_up p (2 ^ i) - p) in *.
  destruct (memalign_front_any h1 l1 al p n i k) as (h2 & l2 & n2 & E2 & Hi2 & Hsd2 & Hn2 & Hl2 & Hk2);
    try done; try lia. fold off in E2, Hi2, Hn2.
  rewrite (bind_eq _ _ _ _ _ E2).
  destruct (memalign_back h2 l2 al (p + off) n2 k) as (h3 & l3 & E3 & Hi3 & Hsd3); try done; try lia.
  exists (p + off), h3, l3. split; [exact E3|]. right. split_and!; try done; [unfold NULL; lia| |lia|].
  - by etransitivity.
  - eapply same_data_trans; [exact A7|]. by eapply same_data_trans.
Qed.
End memalign.
End heap.
