(* ===== verification/MallocSys.v ===== *)
(** * The allocator as a system

    The interfaces of the allocator are discharged by the string functions of
    this library and by the fallback [sbrk]; a client is a sequence of legal
    calls, and every heap it can reach satisfies the invariant. *)

From S2P Require Import Prelude CMem StrLocal StrMem Malloc MallocList MallocHeap.
From stdpp Require Import base list gmap.
From Stdlib Require Import ZArith Lia.

Local Open Scope Z_scope.

(** ** Fuel of the allocator *)

Class MemFnsMono `{MemFns} : Prop := {
  memset_mono : forall s c n, mono (fun f => mf_memset f s c n);
  memcpy_mono : forall d s n, mono (fun f => mf_memcpy f d s n) }.

#[export] Hint Resolve memset_mono memcpy_mono : fuel.

Section malloc_fuel.
Context `{Arch} `{MallocTarget} {B : Type} `{Sbrk B} `{MemFns} {FMono : MemFnsMono}.

Lemma mono_in_mem {A} (c : nat -> C mem A) : mono c -> mono (fun f => in_mem (B := B) (c f)).
Proof.
  intros Hc f f' h r Hr Hf. unfold in_mem in *. destruct (c f (hmem h)) as [[a m]|] eqn:E; [|done].
  by rewrite (Hc f f' _ _ E Hf).
Qed.
Hint Resolve mono_in_mem : fuel.

Lemma free_mono p : mono (fun f => __malloc_free (B := B) f p).
Proof. unfold __malloc_free, free_walk. mono_solve. Qed.
Hint Resolve free_mono : fuel.

Lemma make_free_chunk_mono c s : mono (fun f => make_free_chunk (B := B) f c s).
Proof. unfold make_free_chunk. mono_solve. Qed.
Hint Resolve make_free_chunk_mono : fuel.

Lemma grow_mono c s : mono (fun f => __malloc_grow_chunk f c s).
Proof. unfold __malloc_grow_chunk. mono_solve. Qed.
Hint Resolve grow_mono : fuel.

Lemma malloc_mono s : mono (fun f => malloc f s).
Proof. unfold malloc, malloc_search, malloc_search_step. mono_solve. Qed.
Hint Resolve malloc_mono : fuel.

Lemma calloc_mono n e : mono (fun f => calloc f n e).
Proof. unfold calloc. mono_solve. Qed.

Lemma realloc_mono p s : mono (fun f => realloc f p s).
Proof. unfold realloc, realloc_merge, realloc_merge_step. mono_solve. Qed.

Lemma memalign_mono a s : mono (fun f => memalign f a s).
Proof. unfold memalign. mono_solve. Qed.
End malloc_fuel.

(** ** The string functions behind [MemFns] *)

Section mem_fns.
Context `{Arch}.

(** The word-at-a-time versions. *)
#[global] Instance fast_mem_fns : MemFns := {|
  mf_memset := fun fuel s c n => memset fuel s c n;
  mf_memcpy := fun fuel dst src n => memcpy fuel dst src n |}.

#[global] Instance fast_mem_fns_ok : MemFnsOk.
Proof.
  split.
  - intros. by apply memset_spec.
  - intros. by apply memcpy_spec.
Qed.

#[global] Instance fast_mem_fns_mono : MemFnsMono.
Proof.
  split.
  - intros. simpl. unfold memset. mono_solve.
  - intros. simpl. unfold memcpy. mono_solve.
Qed.
End mem_fns.

(** ** The fallback [sbrk] *)

Section fallback.
Context `{Arch} (__heap_start __heap_end : Z).

Definition fallback_sbrk : Sbrk Z := {| sbrk_op := __fallback_sbrk __heap_start __heap_end |}.

(** The break stays between the ends of the heap, and what lies above it is
    still available. *)
Lemma fallback_sbrk_ok :
  0 < __heap_start <= __heap_end -> __heap_end <= 2 ^ long_bits - 8192 ->
  SbrkOk (H0 := fallback_sbrk) Z.
Proof.
  intros Hs He.
  assert (forall d b, __heap_start <= b <= __heap_end -> 0 < d < 2 ^ (long_bits - 1) ->
    __fallback_sbrk __heap_start __heap_end d b = if __heap_end - b <? d then (FAILED, b) else (b, b + d)) as Eop.
  { intros d b Hb Hd. unfold __fallback_sbrk. rewrite (proj2 (Z.ltb_ge d 0)) by lia.
    rewrite uwrap_small by lia. rewrite uwrap_small; [done|]. split; [lia|].
    apply Z.lt_le_trans with (2 ^ (long_bits - 1)); [lia|]. apply Z.pow_le_mono_r; lia. }
  refine {| sbrk_avail := fun b a => b <= a < __heap_end /\ __heap_start <= b;
            sbrk_valid := fun b => __heap_start <= b <= __heap_end |}.
  - intros b a Ha. lia.
  - intros d b b' Hb Hd. simpl. rewrite Eop by done. case_bool; intros E; simplify_eq; [done|].
    unfold FAILED in *. lia.
  - intros d b p b' Hb Hd. simpl. rewrite Eop by done. case_bool; intros E Hp; simplify_eq.
    split_and!; [lia|lia| |]; intros; lia.
Defined.
End fallback.

(** ** Clients *)

Section client.
Context `{Arch} `{MallocTarget} {TOk : MallocTargetOk} {B : Type} `{Sbrk B} {SOk : SbrkOk B}.
Context `{MemFns} {FOk : MemFnsOk} {FMono : MemFnsMono}.
Implicit Types (h : heap B) (l : list chunk) (al live : gmap Z Z).

(** The calls of a client; [Store] is its own write into one of its blocks. *)
Inductive call :=
| Malloc (s : Z) | Calloc (n elem : Z) | Memalign (align s : Z) | Realloc (p s : Z)
| Free (p : Z) | Store (p i v : Z).

(** What the client holds: the pointers it got and did not free, with the
    sizes it asked for. *)
Definition gets (r s : Z) live : gmap Z Z := if r =? NULL then live else <[r := s]> live.

Definition exec (fuel : nat) (c : call) : C (heap B) Z :=
  match c with
  | Malloc s => malloc fuel s
  | Calloc n elem => calloc fuel n elem
  | Memalign align s => memalign fuel align s
  | Realloc p s => realloc fuel p s
  | Free p => run __malloc_free fuel p; ret 0
  | Store p i v => run in_mem (store8 (p + i) v); ret 0
  end.

Definition live_after (c : call) (r : Z) live : gmap Z Z :=
  match c with
  | Malloc s => gets r s live
  | Calloc n elem => gets r (n * elem) live
  | Memalign align s => gets r s live
  | Realloc p s =>
      if p =? NULL then gets r s live
      else if s =? 0 then delete p live
      else if r =? NULL then live else <[r := s]> (delete p live)
  | Free p => delete p live
  | Store _ _ _ => live
  end.

(** A legal call: its arguments are of their types, a pointer it passes is one
    it holds, and it writes inside its blocks. *)
Definition legal live (c : call) : Prop :=
  match c with
  | Malloc s => 0 <= s < 2 ^ long_bits
  | Calloc n elem => 0 <= n < 2 ^ long_bits /\ 0 <= elem < 2 ^ long_bits
  | Memalign align s =>
      2 * Z.of_nat long_size <= MALLOC_CHUNK_ALIGN <= 16 /\
      (exists j, 0 <= j < long_bits /\ align = 2 ^ j) /\ 0 <= s < 2 ^ long_bits
  | Realloc p s => (p = NULL \/ is_Some (live !! p)) /\ 0 <= s < 2 ^ long_bits
  | Free p => p = NULL \/ is_Some (live !! p)
  | Store p i v => exists s, live !! p = Some s /\ 0 <= i < s
  end.

Inductive step : heap B * gmap Z Z -> call -> heap B * gmap Z Z -> Prop :=
| step_call h live c fuel r h' :
    legal live c -> exec fuel c h = Some (r, h') -> step (h, live) c (h', live_after c r live).

Inductive reachable (st0 : heap B * gmap Z Z) : heap B * gmap Z Z -> Prop :=
| reach_start : reachable st0 st0
| reach_step st c st' : reachable st0 st -> step st c st' -> reachable st0 st'.

(** The heap before the first call. *)
Record initial h : Prop := {
  init_list : __malloc_free_list h = NULL;
  init_top : __malloc_sbrk_top h = 0;
  init_valid : sbrk_valid (sbrk_state h);
  init_avail : forall a, sbrk_avail (sbrk_state h) a -> is_Some (hmem h !! a);
  init_ok : mem_ok (hmem h) }.

Lemma initial_inv h : initial h -> heap_inv h [] ∅.
Proof.
  intros [Hl Ht Hv Ha Ho]. split; try done.
  - split; try done; constructor.
  - intros a Hav. split; [by apply Ha|]. intros [Hx|(p & n & Hp & _)]; [|by rewrite lookup_empty in Hp].
    unfold in_some in Hx. set_solver.
  - left. rewrite Ht. by exists 0.
Qed.

(** The client's view of a heap that satisfies the invariant: its blocks are
    the chunks in use, each with room for what was asked. *)
Definition view al live : Prop :=
  dom live = dom al /\ forall p s n, live !! p = Some s -> al !! p = Some n -> s + Z.of_nat long_size <= n.

Definition sys_inv h live : Prop := exists l al, heap_inv h l al /\ view al live.

Lemma view_get al live p s :
  view al live -> live !! p = Some s -> exists n, al !! p = Some n /\ s + Z.of_nat long_size <= n.
Proof.
  intros [Hd Hr] Hp. assert (p ∈ dom al) as [n Hn]%elem_of_dom by (rewrite <- Hd; by eapply elem_of_dom_2).
  exists n. split; [done|]. by eapply Hr.
Qed.

Lemma view_insert al live r s n :
  view al live -> s + Z.of_nat long_size <= n -> view (<[r := n]> al) (<[r := s]> live).
Proof.
  intros [Hd Hr] Hn. split; [rewrite !dom_insert_L; by rewrite Hd|].
  intros p s' n'. destruct (decide (p = r)) as [->|Hne].
  - rewrite !lookup_insert_eq. intros. by simplify_eq.
  - rewrite !lookup_insert_ne by done. apply Hr.
Qed.

Lemma view_delete al live p : view al live -> view (delete p al) (delete p live).
Proof.
  intros [Hd Hr]. split; [rewrite !dom_delete_L; by rewrite Hd|].
  intros q s n (_ & Hs)%lookup_delete_Some (_ & Hn)%lookup_delete_Some. by eapply Hr.
Qed.

(** ** Every legal call returns and keeps the invariant *)

Definition untouched (c : call) (p i : Z) : Prop :=
  match c with
  | Realloc q _ => p <> q
  | Free q => p <> q
  | Store q j _ => p + i <> q + j
  | _ => True
  end.

(** The bytes of the client's blocks that a call does not change. *)
Definition keeps (c : call) live h h' : Prop :=
  forall p s i, live !! p = Some s -> 0 <= i < s -> untouched c p i -> hmem h' !! (p + i) = hmem h !! (p + i).

Definition call_ok h live (c : call) : Prop :=
  exists fuel r h', exec fuel c h = Some (r, h') /\ sys_inv h' (live_after c r live) /\ keeps c live h h'.

Lemma keeps_same c al live h h' :
  view al live -> (forall p i s n, live !! p = Some s -> al !! p = Some n -> untouched c p i ->
    in_data (p, n) (p + i) -> hmem h' !! (p + i) = hmem h !! (p + i)) -> keeps c live h h'.
Proof.
  intros Hv Hd p s i Hp Hi Hu. destruct (view_get al live p s Hv Hp) as (n & Hn & Hs).
  apply (Hd p i s n); try done. unfold in_data, hi. simpl. lia.
Qed.

(** A call that leaves the blocks as they are, or adds one. *)
Lemma gets_inv c h l al live h' r s n l' :
  view al live -> r <> NULL -> s + Z.of_nat long_size <= n -> heap_inv h' l' (<[r := n]> al) ->
  same_data al h h' -> sys_inv h' (gets r s live) /\ keeps c live h h'.
Proof.
  intros Hv Hr Hs Hi Hd. unfold gets. rewrite (proj2 (Z.eqb_neq r NULL) Hr). split.
  - exists l', (<[r := n]> al). split; [done|]. by apply view_insert.
  - eapply keeps_same; [done|]. intros. by eapply Hd.
Qed.

Lemma none_inv c h al live h' l' :
  view al live -> heap_inv h' l' al -> same_data al h h' -> sys_inv h' live /\ keeps c live h h'.
Proof.
  intros Hv Hi Hd. split; [by exists l', al|]. eapply keeps_same; [done|]. intros. by eapply Hd.
Qed.

Lemma same_mem_data al h h' : hmem h' = hmem h -> same_data al h h'.
Proof. intros E p n a _ _. by rewrite E. Qed.

Lemma malloc_call h live s c :
  sys_inv h live -> 0 <= s < 2 ^ long_bits ->
  exists fuel r h', malloc fuel s h = Some (r, h') /\ sys_inv h' (gets r s live) /\ keeps c live h h'.
Proof.
  intros (l & al & Hi & Hv) Hs. set (fuel := (1 + length l + Z.to_nat (chunk_size s))%nat).
  destruct (malloc_spec fuel h l al s) as (r & h' & E & [(-> & _ & Hi' & Hm)|(n & l' & Ha & _)]); try done; try lia.
  - exists fuel, NULL, h'. split; [done|]. by eapply none_inv, same_mem_data.
  - exists fuel, r, h'. split; [done|]. destruct Ha. by eapply gets_inv.
Qed.

Lemma free_call h live p c :
  sys_inv h live -> p = NULL \/ is_Some (live !! p) -> (forall q i, untouched c q i -> q <> p) ->
  exists fuel h', __malloc_free fuel p h = Some (tt, h') /\ sys_inv h' (delete p live) /\ keeps c live h h'.
Proof.
  intros (l & al & Hi & Hv) Hp Hc.
  assert (al !! NULL = None) as Hnull.
  { destruct (al !! NULL) as [n|] eqn:E0; [|done]. destruct (busy_wf _ _ _ (inv_busy _ _ _ Hi NULL n E0)).
    unfold lo, NULL in *. simpl in *. pose proof long_size_pos. lia. }
  destruct Hp as [->|[s Hs]].
  - exists 1%nat, h. split; [apply free_null|]. rewrite delete_id.
    + by eapply none_inv.
    + apply not_elem_of_dom. rewrite (proj1 Hv). by apply not_elem_of_dom.
  - destruct (view_get al live p s Hv Hs) as (n & Hn & _).
    destruct (free_heap (S (length l)) h l al p n) as (h' & E & Hi' & Hd & _); try done; [lia|].
    exists (S (length l)), h'. split; [done|]. split.
    + exists (free_insert (p, n) l), (delete p al). split; [done|]. by apply view_delete.
    + eapply keeps_same; [done|]. intros q i s' n' Hq Hqn Hu. apply (Hd q n').
      rewrite lookup_delete_ne; [done|]. intros ->. by eapply Hc.
Qed.

Lemma realloc_null fuel s h : realloc fuel NULL s h = malloc fuel s h.
Proof. done. Qed.

Lemma realloc_free fuel p h h' :
  p <> NULL -> __malloc_free fuel p h = Some (tt, h') -> realloc fuel p 0 h = Some (NULL, h').
Proof. intros Hp E. unfold realloc. rewrite (proj2 (Z.eqb_neq _ _) Hp). cbn [Z.eqb]. by rewrite (bind_eq _ _ _ _ _ E). Qed.

Lemma realloc_call h live p s :
  sys_inv h live -> is_Some (live !! p) -> p <> NULL -> 0 < s < 2 ^ long_bits -> call_ok h live (Realloc p s).
Proof.
  intros (l & al & Hi & Hv) [s0 Hs0] Hp Hs. destruct (view_get al live p s0 Hv Hs0) as (n & Hn & _).
  unfold call_ok. simpl. rewrite (proj2 (Z.eqb_neq p NULL) Hp), (proj2 (Z.eqb_neq s 0)) by lia.
  destruct (Z.le_gt_cases s MALLOC_ALLOC_MAX) as [Hle|Hgt].
  - set (fuel := (3 + length l + Z.to_nat (chunk_size s))%nat).
    destruct (realloc_spec fuel h l al p n s) as (r & h' & l' & E & [(-> & _ & Hi' & Hd)|(n' & [M1 M2 M3 M4 M5 M6])]);
      try done; try lia.
    + exists fuel, NULL, h'. split; [done|]. rewrite Z.eqb_refl. by eapply none_inv.
    + exists fuel, r, h'. split; [done|]. rewrite (proj2 (Z.eqb_neq r NULL) M1). split.
      * exists l', (<[r := n']> (delete p al)). split; [done|]. apply view_insert; [by apply view_delete|done].
      * eapply keeps_same; [done|]. intros q i s' k Hq Hqk Hu Hin. simpl in Hu.
        apply (M5 q k); [by rewrite lookup_delete_ne|done].
  - exists 1%nat, NULL, (Heap (hmem h) (__malloc_free_list h) (__malloc_sbrk_start h) (__malloc_sbrk_top h) ENOMEM
                   (sbrk_state h)). split.
    + unfold realloc. rewrite (proj2 (Z.eqb_neq p NULL) Hp), (proj2 (Z.eqb_neq s 0)) by lia.
      by rewrite (proj2 (Z.ltb_lt _ _) Hgt).
    + rewrite Z.eqb_refl. eapply none_inv; [done| |by apply same_mem_data].
      eapply inv_sbrk; try done; apply Hi.
Qed.

Lemma store_call h live p i v s :
  sys_inv h live -> live !! p = Some s -> 0 <= i < s -> call_ok h live (Store p i v).
Proof.
  intros (l & al & Hi & Hv) Hp Hr. destruct (view_get al live p s Hv Hp) as (n & Hn & Hs).
  assert (in_data (p, n) (p + i)) as Hin by (unfold in_data, hi; simpl; lia).
  assert (is_Some (hmem h !! (p + i))) as Hm.
  { apply (busy_mapped _ _ _ (inv_busy _ _ _ Hi p n Hn)). apply in_data_chunk in Hin.
    unfold in_chunk, lo, hi in *. simpl in *. lia. }
  exists 1%nat, 0, (with_mem h (<[p + i := uwrap 8 v]> (hmem h))). split_and!.
  - simpl. unfold in_mem, bind. rewrite store8_at by done. done.
  - exists l, al. split; [|done]. eapply (inv_write (fun a => a = p + i)); [done|done| |by intros a ->].
    eapply chg_mono; [apply (chg_put _ (p + i) [uwrap 8 v]); by constructor; [apply uwrap_byte|]|]. simpl. lia.
  - intros q s' j Hq Hj Hu. simpl in *. by rewrite lookup_insert_ne.
Qed.

Lemma legal_call_ok h live c : sys_inv h live -> legal live c -> call_ok h live c.
Proof.
  intros Hi Hc. destruct c as [s|n e|a s|p s|p|p i v]; simpl in Hc.
  - by apply malloc_call.
  - destruct Hi as (l & al & Hi & Hv). destruct Hc as [Hn He].
    set (fuel := (1 + length l + Z.to_nat (chunk_size (n * e)))%nat).
    destruct (calloc_spec fuel h l al n e) as (r & h' & E & [(-> & _ & Hi' & Hm)|(Hok & k & l' & Ha)]); try done; try lia.
    + exists fuel, NULL, h'. split; [done|]. by eapply none_inv, same_mem_data.
    + exists fuel, r, h'. split; [done|]. destruct Ha. by eapply gets_inv.
  - destruct Hi as (l & al & Hi & Hv). destruct Hc as (Ht & (j & Hj & ->) & Hs).
    set (fuel := (4 + length l + Z.to_nat (chunk_size (chunk_size s + Z.max (2 ^ j) 4 + MALLOC_CHUNK_MIN)))%nat).
    destruct (memalign_spec fuel Ht h l al j s) as (r & h' & l' & E & [(-> & _ & Hi' & Hm)|(Hr & _ & _ & Hn & Hi' & Hd)]);
      try done; try lia.
    + exists fuel, NULL, h'. split; [done|]. by eapply none_inv, same_mem_data.
    + exists fuel, r, h'. split; [done|]. by eapply gets_inv.
  - destruct Hc as [[->|Hp] Hs].
    + destruct (malloc_call h live s (Realloc NULL s) Hi Hs) as (fuel & r & h' & E & Hi' & Hk). by exists fuel, r, h'.
    + destruct (decide (p = NULL)) as [->|Hne].
      { destruct (malloc_call h live s (Realloc NULL s) Hi Hs) as (fuel & r & h' & E & Hi' & Hk). by exists fuel, r, h'. }
      destruct (decide (s = 0)) as [->|Hs0]; [|apply realloc_call; try done; lia].
      destruct (free_call h live p (Realloc p 0)) as (fuel & h' & E & Hi' & Hk); [done|by right|by intros|].
      exists fuel, NULL, h'. split; [by apply realloc_free|]. simpl. by rewrite (proj2 (Z.eqb_neq p NULL) Hne).
  - destruct (free_call h live p (Free p)) as (fuel & h' & E & Hi' & Hk); [done|done|by intros|].
    exists fuel, 0, h'. simpl. by rewrite (bind_eq _ _ _ _ _ E).
  - destruct Hc as (s & Hp & Hr). by eapply store_call.
Qed.

Lemma exec_mono c : mono (fun f => exec f c).
Proof.
  destruct c; simpl; mono_solve;
    auto using malloc_mono, calloc_mono, memalign_mono, realloc_mono, free_mono with fuel.
Qed.

Lemma step_inv h live c h' live' :
  sys_inv h live -> step (h, live) c (h', live') -> sys_inv h' live' /\ keeps c live h h'.
Proof.
  intros Hi Hst. inversion Hst as [? ? ? fuel r ? Hc E]; subst.
  destruct (legal_call_ok h live c Hi Hc) as (fuel' & r' & h2 & E' & Hi' & Hk).
  pose proof (mono_det _ _ _ _ _ _ (exec_mono c) E E') as [= <- <-]. done.
Qed.

Lemma reachable_inv h0 h live :
  initial h0 -> reachable (h0, ∅) (h, live) -> sys_inv h live.
Proof.
  intros Hinit Hr. remember (h, live) as st eqn:Est. revert h live Est.
  induction Hr as [|[h1 live1] c [h2 live2] Hr IH Hst]; intros h live [= <- <-].
  - exists [], ∅. split; [by apply initial_inv|]. split; [by rewrite !dom_empty_L|]. intros p s n Hp. by rewrite lookup_empty in Hp.
  - eapply step_inv; [by apply IH|done].
Qed.

(** ** What the invariant gives the client *)

Record block_ok h (p s : Z) : Prop := {
  blk_nonnull : 0 < p;
  blk_aligned : (MALLOC_CHUNK_ALIGN | p);
  blk_mapped : mapped (hmem h) p s;
  blk_end : p + s < 2 ^ long_bits }.

Lemma sys_inv_block h live p s : sys_inv h live -> live !! p = Some s -> block_ok h p s.
Proof.
  intros (l & al & Hi & Hv) Hp. destruct (view_get al live p s Hv Hp) as (n & Hn & Hs).
  destruct (inv_busy _ _ _ Hi p n Hn) as [Hw Hm _]. pose proof (wf_bounds _ Hw) as Hb.
  pose proof (wf_hi _ Hw) as Hhi. unfold hi in Hhi. simpl in *.
  split; [lia|apply (wf_addr _ Hw)| |lia].
  intros a Ha. apply Hm. unfold in_chunk, lo, hi. simpl. lia.
Qed.

Lemma sys_inv_apart h live p s q t :
  sys_inv h live -> live !! p = Some s -> live !! q = Some t -> p <> q -> disjoint_blk p s q t.
Proof.
  intros (l & al & Hi & Hv) Hp Hq Hne.
  destruct (view_get al live p s Hv Hp) as (n & Hn & Hs). destruct (view_get al live q t Hv Hq) as (k & Hk & Ht).
  pose proof (inv_apart _ _ _ Hi p n q k Hn Hk Hne) as Ha. unfold apart, lo, hi in Ha. simpl in Ha.
  unfold disjoint_blk. lia.
Qed.
End client.
