(* ===== verification/MallocProps.v ===== *)
(** * The allocator: what it guarantees

    The theorems on libc/stdlib/malloc.c, free.c, realloc.c, calloc.c and
    memalign.c, and a small heap on which they are evaluated: the fallback
    [sbrk] over one kilobyte of memory, with the word-at-a-time string
    functions. *)

From S2P Require Import Prelude CMem StrLocal StrMem Malloc MallocList MallocHeap MallocSys Demo.
From stdpp Require Import base list gmap.
From Stdlib Require Import ZArith Lia.

Local Open Scope Z_scope.

(** ** A concrete heap *)

Definition demo_target : MallocTarget := {| chunk_align_pot := 4 |}.
Definition demo_sbrk : Sbrk Z := fallback_sbrk (H := LP64) 4096 5120.

#[local] Existing Instance LP64.
#[local] Existing Instance demo_target.
#[local] Existing Instance demo_sbrk.

#[global] Instance demo_target_ok : MallocTargetOk.
Proof. split; [vm_compute; congruence|done]. Qed.

Lemma demo_heap_fits : 5120 <= 2 ^ @long_bits LP64 - 8192.
Proof. vm_compute. congruence. Qed.

Definition demo_sbrk_ok : SbrkOk Z := fallback_sbrk_ok 4096 5120 ltac:(lia) demo_heap_fits.
#[local] Existing Instance demo_sbrk_ok.

Lemma word_at_check m a v :
  bytes_atb m a (bytes_of_word v) && (0 <=? v) && (v <? 2 ^ long_bits) && long_aligned a = true -> word_at m a v.
Proof. intros Hb. bool_to_prop. split_and!; [by apply bytes_at_check|done..]. Qed.

Definition heap0 : heap Z := Heap (put_bytes ∅ 4096 (replicate 1024 0)) NULL NULL 0 0 4096.

Lemma heap0_initial : initial heap0.
Proof.
  split; [reflexivity|reflexivity|vm_compute; split; congruence| |].
  - intros a [Ha _]. assert (mapped (hmem heap0) 4096 1024) as Hm by eval_mem.
    change (sbrk_state heap0) with 4096 in Ha. apply Hm. lia.
  - eval_mem.
Qed.

Lemma heap0_inv : heap_inv heap0 [] ∅.
Proof. apply initial_inv, heap0_initial. Qed.

(** The heap after [malloc(24)]: one block of 32 bytes at 4112. *)
Definition heap1 : heap Z := match malloc 99 24 heap0 with Some (_, h) => h | None => heap0 end.

Lemma heap1_eq : malloc 99 24 heap0 = Some (4112, heap1).
Proof. vm_compute. reflexivity. Qed.

(** The first allocation of an empty heap, and a free that empties it. *)
Lemma malloc_first fuel (h h' : heap Z) s r :
  heap_inv h [] ∅ -> 0 <= s < 2 ^ long_bits -> (Z.to_nat (chunk_size s) < fuel)%nat ->
  malloc fuel s h = Some (r, h') -> r <> NULL -> heap_inv h' [] {[r := chunk_size s]}.
Proof.
  intros Hi Hs Hf E Hr. destruct (malloc_spec fuel h [] ∅ s) as (r' & h2 & E' & Hc); try done; [simpl; lia|].
  rewrite E in E'. injection E' as <- <-. destruct Hc as [(? & _)|(n & l' & Ha & [?|(_ & -> & ->)])]; [done..|].
  by apply al_inv in Ha.
Qed.

Lemma free_only fuel (h h' : heap Z) p n :
  heap_inv h [] {[p := n]} -> (0 < fuel)%nat -> __malloc_free fuel p h = Some (tt, h') -> heap_inv h' [(p, n)] ∅.
Proof.
  intros Hi Hf E. destruct (free_heap fuel h [] {[p := n]} p n) as (h2 & E' & Hi' & _); try done.
  { by rewrite lookup_singleton_eq. }
  rewrite E in E'. injection E' as <-. by rewrite delete_singleton_eq in Hi'.
Qed.

Lemma heap1_inv : heap_inv heap1 [] {[4112 := 32]}.
Proof.
  apply (malloc_first 99 heap0 heap1 24 4112); [apply heap0_inv|vm_compute; split; congruence| |apply heap1_eq|discriminate].
  apply Nat.ltb_lt. vm_compute. reflexivity.
Qed.

Lemma heap1_step : step (heap0, ∅) (Malloc 24) (heap1, {[4112 := 24]}).
Proof. apply (step_call heap0 ∅ (Malloc 24) 99 4112 heap1); [vm_compute; split; congruence|apply heap1_eq]. Qed.

Lemma heap1_reachable : reachable (heap0, ∅) (heap1, {[4112 := 24]}).
Proof. eapply reach_step; [apply reach_start|apply heap1_step]. Qed.

(** The heap after that block is freed again. *)
Definition heap2 : heap Z := match __malloc_free 99 4112 heap1 with Some (_, h) => h | None => heap1 end.

Lemma heap2_eq : __malloc_free 99 4112 heap1 = Some (tt, heap2).
Proof. vm_compute. reflexivity. Qed.

Lemma heap2_inv : heap_inv heap2 [(4112, 32)] ∅.
Proof. apply (free_only 99 heap1 heap2 4112 32); [apply heap1_inv|lia|apply heap2_eq]. Qed.

(** ** The client's guarantees *)

Section guarantees.
Context `{Arch} `{MallocTarget} {TOk : MallocTargetOk} {B : Type} `{Sbrk B} {SOk : SbrkOk B}.
Context `{MemFns} {FOk : MemFnsOk} {FMono : MemFnsMono}.
Implicit Types (h : heap B) (l : list chunk) (al live : gmap Z Z).

(** C1: in every heap reached from the empty one by any sequence of legal calls
    of malloc, calloc, memalign, realloc, free and of the client's own stores,
    each block the client holds is a non-null, aligned, mapped range of
    addresses of the size it asked for, and no two of them overlap. *)
Theorem reachable_safe h0 h live :
  initial h0 -> reachable (h0, ∅) (h, live) ->
  (forall p s, live !! p = Some s -> block_ok h p s) /\
  (forall p s q t, live !! p = Some s -> live !! q = Some t -> p <> q -> disjoint_blk p s q t).
Proof.
  intros Hi Hr. pose proof (reachable_inv h0 h live Hi Hr) as Hs. split; intros.
  - by eapply sys_inv_block.
  - by eapply sys_inv_apart.
Qed.

(** C2: in every reachable heap each legal call returns (it neither faults nor
    loops), and it leaves every byte of the client's other blocks as it was. *)
Theorem legal_call_returns h0 h live c :
  initial h0 -> reachable (h0, ∅) (h, live) -> legal live c ->
  exists fuel r h', (forall f, (fuel <= f)%nat -> exec f c h = Some (r, h')) /\
    reachable (h0, ∅) (h', live_after c r live) /\ keeps c live h h'.
Proof.
  intros Hi Hr Hc. pose proof (reachable_inv h0 h live Hi Hr) as Hs.
  destruct (legal_call_ok h live c Hs Hc) as (fuel & r & h' & E & _ & Hk). exists fuel, r, h'. split_and!; try done.
  - intros f Hf. by apply (exec_mono c fuel).
  - eapply reach_step; [done|]. by eapply step_call.
Qed.

(** C3: [malloc] is first fit on the address-ordered free list, in full.  A request
    larger than MALLOC_ALLOC_MAX is refused, with [NULL] and ENOMEM and nothing else
    changed.  When a chunk of the free list fits, the call succeeds with the first
    one, split when the rest can be a chunk, and the system is not asked.  Only when
    none fits is it asked for memory, with the requests of [sbrk_block]; then the
    result is the aligned block it gave, or, exactly when it gave none, [NULL] with
    ENOMEM, the memory, the free list and the blocks in use unchanged (the break may
    have moved, when only the second request failed).  A block that is returned is
    not null, new, aligned, cleared and has room for the request; the others keep
    their contents. *)
Theorem malloc_correct fuel h l al s :
  heap_inv h l al -> 0 <= s < 2 ^ long_bits -> (length l < fuel)%nat -> (Z.to_nat (chunk_size s) < fuel)%nat ->
  exists r h', malloc fuel s h = Some (r, h') /\ malloc_result h l al s r h'.
Proof. apply malloc_exact. Qed.

(** C4: [free] of a block in use keeps the heap's invariant: the block leaves the
    ones in use and enters the free list at its place by address, merged with
    the free neighbours it touches; no byte of free memory is lost and the other
    blocks keep their contents.  [free(NULL)] does nothing. *)
Theorem free_correct fuel h l al p n :
  heap_inv h l al -> (length l < fuel)%nat -> al !! p = Some n ->
  __malloc_free fuel NULL h = Some (tt, h) /\
  exists h', __malloc_free fuel p h = Some (tt, h') /\
    heap_inv h' (free_insert (p, n) l) (delete p al) /\ same_data (delete p al) h h' /\
    total_size (free_insert (p, n) l) = n + total_size l /\ errno h' = errno h.
Proof.
  intros Hi Hf Hp. split; [apply free_null|]. destruct (free_heap fuel h l al p n Hi Hf Hp) as (h' & E & Hi' & Hd & He & _).
  exists h'. split_and!; try done. apply total_free_insert.
Qed.

(** C5: [realloc] of a block in use to a size that is not zero keeps the
    heap's invariant.  It either fails with [NULL] and ENOMEM, the old block
    untouched, or returns a block with room for the size, at the old place or a
    new one, with the old contents up to the smaller size; the other blocks keep
    theirs. *)
Theorem realloc_correct fuel h l al p n size :
  heap_inv h l al -> al !! p = Some n -> 0 < size <= MALLOC_ALLOC_MAX ->
  (2 + length l < fuel)%nat -> (Z.to_nat (chunk_size size) < fuel)%nat ->
  exists r h' l', realloc fuel p size h = Some (r, h') /\
    ((r = NULL /\ errno h' = ENOMEM /\ heap_inv h' l' al /\ same_data al h h') \/
     exists n', moved h al p n size r h' l' n').
Proof. apply realloc_spec. Qed.

(** [calloc] gives a cleared block of [n * elem] bytes, and fails with ENOMEM
    and nothing changed whenever the product does not fit in size_t. *)
Theorem calloc_correct fuel h l al n elem :
  heap_inv h l al -> 0 <= n < 2 ^ long_bits -> 0 <= elem < 2 ^ long_bits -> (length l < fuel)%nat ->
  (n * elem < 2 ^ long_bits -> (Z.to_nat (chunk_size (n * elem)) < fuel)%nat) ->
  exists r h', calloc fuel n elem h = Some (r, h') /\
    ((r = NULL /\ errno h' = ENOMEM /\ heap_inv h' l al /\ hmem h' = hmem h) \/
     n * elem < 2 ^ long_bits /\ exists k l', allocated h al (n * elem) r h' k l').
Proof. apply calloc_spec. Qed.

(** [memalign] with a power of two gives a block at a multiple of it, with
    room for the request, and returns what it cut off before and after it to
    the free list; or it fails with ENOMEM and the blocks untouched.  Stated
    where [max_align_t] has the alignment of two words. *)
Theorem memalign_correct fuel h l al j s :
  2 * Z.of_nat long_size <= MALLOC_CHUNK_ALIGN <= 16 ->
  heap_inv h l al -> 0 <= j < long_bits -> 0 <= s < 2 ^ long_bits -> (3 + length l < fuel)%nat ->
  (Z.to_nat (chunk_size (chunk_size s + Z.max (2 ^ j) 4 + MALLOC_CHUNK_MIN)) < fuel)%nat ->
  exists r h' l', memalign fuel (2 ^ j) s h = Some (r, h') /\
    ((r = NULL /\ errno h' = ENOMEM /\ heap_inv h' l' al /\ hmem h' = hmem h) \/
     (r <> NULL /\ al !! r = None /\ (2 ^ j | r) /\ s + Z.of_nat long_size <= chunk_size s /\
      heap_inv h' l' (<[r := chunk_size s]> al) /\ same_data al h h')).
Proof. intros. by eapply memalign_spec. Qed.

(** Freeing a chunk that is in the free list is detected: errno becomes
    ENOMEM, and memory, free list and blocks stay as they are. *)
Theorem double_free_detected fuel h l al x :
  heap_inv h l al -> x ∈ l ->
  exists h', __malloc_free fuel x.1 h = Some (tt, h') /\ errno h' = ENOMEM /\ heap_inv h' l al /\ hmem h' = hmem h.
Proof.
  intros Hi Hx. eexists. split; [eapply free_free; [apply Hi|done]|]. split_and!; try done.
  eapply inv_sbrk; try done; apply Hi.
Qed.
End guarantees.

(** ** The theorems at the heaps above *)

Lemma reachable_safe_witness :
  (forall p s, ({[4112 := 24]} : gmap Z Z) !! p = Some s -> block_ok heap1 p s) /\
  (forall p s q t, ({[4112 := 24]} : gmap Z Z) !! p = Some s -> ({[4112 := 24]} : gmap Z Z) !! q = Some t ->
     p <> q -> disjoint_blk p s q t).
Proof. apply (reachable_safe heap0 heap1 {[4112 := 24]} heap0_initial heap1_reachable). Defined.

Lemma legal_call_returns_witness :
  exists fuel r h', (forall f, (fuel <= f)%nat -> exec f (Free 4112) heap1 = Some (r, h')) /\
    reachable (heap0, ∅) (h', live_after (Free 4112) r {[4112 := 24]}) /\
    keeps (Free 4112) {[4112 := 24]} heap1 h'.
Proof.
  apply (legal_call_returns heap0 heap1 {[4112 := 24]} (Free 4112) heap0_initial heap1_reachable).
  right. exists 24. reflexivity.
Defined.

Lemma malloc_witness :
  exists r h', malloc 99 40 heap2 = Some (r, h') /\ malloc_result heap2 [(4112, 32)] ∅ 40 r h'.
Proof.
  apply (malloc_correct 99 heap2 [(4112, 32)] ∅ 40 heap2_inv); [vm_compute; split; congruence|simpl; lia|].
  apply Nat.ltb_lt. vm_compute. reflexivity.
Defined.

(** A chunk that fits is taken, and the break moves only without one. *)
Example malloc_fits : option_map (fun '(r, h) => (r, sbrk_state h)) (malloc 99 24 heap2) = Some (4112, sbrk_state heap2).
Proof. vm_compute. reflexivity. Qed.

Example malloc_asks : option_map (fun '(r, h) => (r, sbrk_state h)) (malloc 99 40 heap2) = Some (4144, sbrk_state heap2 + 48).
Proof. vm_compute. reflexivity. Qed.

Lemma free_witness :
  __malloc_free 9 NULL heap1 = Some (tt, heap1) /\
  exists h', __malloc_free 9 4112 heap1 = Some (tt, h') /\
    heap_inv h' (free_insert (4112, 32) []) (delete 4112 {[4112 := 32]}) /\
    same_data (delete 4112 {[4112 := 32]}) heap1 h' /\
    total_size (free_insert (4112, 32) []) = 32 + total_size [] /\ errno h' = errno heap1.
Proof. apply (free_correct 9 heap1 [] {[4112 := 32]} 4112 32 heap1_inv); [simpl; lia|reflexivity]. Defined.

Lemma realloc_witness :
  exists r h' l', realloc 999 4112 100 heap1 = Some (r, h') /\
    ((r = NULL /\ errno h' = ENOMEM /\ heap_inv h' l' {[4112 := 32]} /\ same_data {[4112 := 32]} heap1 h') \/
     exists n', moved heap1 {[4112 := 32]} 4112 32 100 r h' l' n').
Proof.
  apply (realloc_correct 999 heap1 [] {[4112 := 32]} 4112 32 100 heap1_inv);
    [reflexivity|vm_compute; split; congruence|simpl; lia|].
  apply Nat.ltb_lt. vm_compute. reflexivity.
Defined.

Lemma calloc_witness :
  exists r h', calloc 99 5 8 heap2 = Some (r, h') /\
    ((r = NULL /\ errno h' = ENOMEM /\ heap_inv h' [(4112, 32)] ∅ /\ hmem h' = hmem heap2) \/
     5 * 8 < 2 ^ long_bits /\ exists k l', allocated heap2 ∅ (5 * 8) r h' k l').
Proof.
  apply (calloc_correct 99 heap2 [(4112, 32)] ∅ 5 8 heap2_inv);
    [vm_compute; split; congruence|vm_compute; split; congruence|simpl; lia|].
  intros _. apply Nat.ltb_lt. vm_compute. reflexivity.
Defined.

Lemma memalign_witness :
  exists r h' l', memalign 999 (2 ^ 6) 40 heap2 = Some (r, h') /\
    ((r = NULL /\ errno h' = ENOMEM /\ heap_inv h' l' ∅ /\ hmem h' = hmem heap2) \/
     (r <> NULL /\ (∅ : gmap Z Z) !! r = None /\ (2 ^ 6 | r) /\ 40 + Z.of_nat long_size <= chunk_size 40 /\
      heap_inv h' l' (<[r := chunk_size 40]> ∅) /\ same_data ∅ heap2 h')).
Proof.
  apply (memalign_correct 999 heap2 [(4112, 32)] ∅ 6 40);
    [vm_compute; split; congruence|apply heap2_inv|vm_compute; split; congruence..|simpl; lia|].
  apply Nat.ltb_lt. vm_compute. reflexivity.
Defined.

Lemma double_free_witness :
  exists h', __malloc_free 9 4112 heap2 = Some (tt, h') /\ errno h' = ENOMEM /\
    heap_inv h' [(4112, 32)] ∅ /\ hmem h' = hmem heap2.
Proof. apply (double_free_detected 9 heap2 [(4112, 32)] ∅ (4112, 32) heap2_inv). left. Defined.
