(* ===== verification/Alloc.v ===== *)
(** * The allocator as an interface

    Search trees and hash tables keep their nodes in blocks of [malloc]; what
    they rely on is the interface of this file: the blocks a client holds are
    apart from each other and from the client's other memory, a call of
    [malloc] or [free] keeps the bytes of all of them, and the client may write
    its own bytes.  The second half discharges the interface with the allocator
    of libc/stdlib, through a frame property: a computation that runs on a part
    of the memory runs the same way on more of it and leaves the rest alone. *)

From S2P Require Import Prelude CMem StrLocal StrMem Malloc MallocList MallocHeap MallocSys.
From stdpp Require Import base list gmap.
From Stdlib Require Import ZArith Lia.

Local Open Scope Z_scope.

(** ** The interface *)

Class AllocOps (S : Type) := {
  st_mem : S -> mem;
  st_set_mem : S -> mem -> S;
  st_errno : S -> Z;
  op_errno : Z -> C S unit;
  op_malloc : nat -> Z -> C S Z;
  op_calloc : nat -> Z -> Z -> C S Z;
  op_realloc : nat -> Z -> Z -> C S Z;
  op_free : nat -> Z -> C S unit }.

(** The bytes of the client: those of the blocks it holds, and the set [F] of
    the addresses it has otherwise. *)
Definition owns (live : gmap Z Z) (F : gset Z) (a : Z) : Prop :=
  (exists p n, live !! p = Some n /\ p <= a < p + n) \/ a ∈ F.

(** The result [r] of a call that moves the [k] bytes of the block [p] to a block of
    [n], with the memory before and after. *)
Definition reallocated (live : gmap Z Z) (F : gset Z) (p k n r : Z) (m m' : mem) (live' : gmap Z Z) : Prop :=
  if r =? NULL then live' = live /\ (forall a, owns live F a -> m' !! a = m !! a)
  else live' = <[r := n]> (delete p live) /\ (r = p \/ live !! r = None) /\ (forall a, owns (delete p live) F a -> m' !! a = m !! a) /\
    forall i, 0 <= i < Z.min k n -> m' !! (r + i) = m !! (p + i).

(** A region inside one block or inside [F]. *)
Definition writable (live : gmap Z Z) (F : gset Z) (R : Z -> Prop) : Prop :=
  (exists p n, live !! p = Some n /\ forall a, R a -> p <= a < p + n) \/ (forall a, R a -> a ∈ F).

(** The bytes of the client are as before. *)
Definition kept (live : gmap Z Z) (F : gset Z) (m m' : mem) : Prop :=
  forall a, owns live F a -> m' !! a = m !! a.

Class AllocOk (S : Type) `{Arch} `{AllocOps S} := {
  alloc_inv : S -> gmap Z Z -> gset Z -> Prop;
  st_mem_set : forall s m, st_mem (st_set_mem s m) = m;
  st_errno_mem : forall v s, exists s', op_errno v s = Some (tt, s') /\ st_mem s' = st_mem s /\ st_errno s' = v;
  alloc_errno : forall s live F v s', alloc_inv s live F -> op_errno v s = Some (tt, s') -> alloc_inv s' live F;
  alloc_ok : forall s live F, alloc_inv s live F -> mem_ok (st_mem s);
  alloc_block : forall s live F p n, alloc_inv s live F -> live !! p = Some n ->
    0 < p /\ long_aligned p = true /\ mapped (st_mem s) p n /\ p + n < 2 ^ long_bits;
  alloc_tail : forall s live F p n e, alloc_inv s live F -> live !! p = Some n -> p <= e < p + n -> word_tail_mapped (st_mem s) e;
  alloc_apart : forall s live F p n q k, alloc_inv s live F -> live !! p = Some n -> live !! q = Some k ->
    p <> q -> disjoint_blk p n q k;
  alloc_foreign : forall s live F a, alloc_inv s live F -> a ∈ F ->
    is_Some (st_mem s !! a) /\ forall p n, live !! p = Some n -> ~ p <= a < p + n;
  alloc_write : forall s live F R m', alloc_inv s live F -> chg R (st_mem s) m' -> writable live F R ->
    alloc_inv (st_set_mem s m') live F;
  alloc_malloc : forall s live F n, alloc_inv s live F -> 0 <= n < 2 ^ long_bits ->
    exists f0 r s', (forall f, (f0 <= f)%nat -> op_malloc f n s = Some (r, s')) /\
      alloc_inv s' (gets r n live) F /\ (r <> NULL -> live !! r = None) /\ kept live F (st_mem s) (st_mem s');
  alloc_calloc : forall s live F n, alloc_inv s live F -> 0 <= n < 2 ^ long_bits ->
    exists f0 r s', (forall f, (f0 <= f)%nat -> op_calloc f 1 n s = Some (r, s')) /\
      alloc_inv s' (gets r n live) F /\ (r <> NULL -> live !! r = None /\ bytes_at (st_mem s') r (replicate (Z.to_nat n) 0)) /\
      kept live F (st_mem s) (st_mem s');
  alloc_realloc : forall s live F p k n, alloc_inv s live F -> live !! p = Some k -> 0 < n < 2 ^ long_bits ->
    exists f0 r s' live', (forall f, (f0 <= f)%nat -> op_realloc f p n s = Some (r, s')) /\
      alloc_inv s' live' F /\ reallocated live F p k n r (st_mem s) (st_mem s') live';
  alloc_realloc_null : forall f n s, op_realloc f NULL n s = op_malloc f n s;
  alloc_realloc_zero : forall f p s, p <> NULL -> op_realloc f p 0 s = (run op_free f p; ret NULL)%C s;
  alloc_free : forall s live F p, alloc_inv s live F -> is_Some (live !! p) ->
    exists f0 s', (forall f, (f0 <= f)%nat -> op_free f p s = Some (tt, s')) /\
      alloc_inv s' (delete p live) F /\ kept (delete p live) F (st_mem s) (st_mem s') }.

(** ** Memory through the interface *)

Section lift.
Context {S : Type} `{Arch} `{AllocOps S}.

(** A computation on the memory alone. *)
Definition on_mem {A} (c : C mem A) : C S A :=
  fun s => match c (st_mem s) with Some (a, m) => Some (a, st_set_mem s m) | None => None end.

(** A read. *)
Definition peek {A} (c : C mem A) : C S A :=
  fun s => match c (st_mem s) with Some (a, _) => Some (a, s) | None => None end.

Definition load_ptr (p : Z) : C S Z := peek (load_long p).
Definition store_ptr (p v : Z) : C S unit := on_mem (store_long p v).

Lemma load_ptr_eq s p v : word_at (st_mem s) p v -> load_ptr p s = Some (v, s).
Proof. intros Hw. unfold load_ptr, peek. by rewrite (load_word _ _ _ Hw). Qed.

(** Fuel passes through both. *)
Lemma mono_on_mem {A} (c : nat -> C mem A) : mono c -> mono (fun f => on_mem (c f)).
Proof.
  intros Hc f f' s r Hr Hf. unfold on_mem in *. destruct (c f (st_mem s)) as [[a m]|] eqn:E; [|done].
  by rewrite (Hc f f' _ _ E Hf).
Qed.

Lemma mono_peek {A} (c : nat -> C mem A) : mono c -> mono (fun f => peek (c f)).
Proof.
  intros Hc f f' s r Hr Hf. unfold peek in *. destruct (c f (st_mem s)) as [[a m]|] eqn:E; [|done].
  by rewrite (Hc f f' _ _ E Hf).
Qed.

Context {AOk : AllocOk S}.

Lemma store_ptr_eq s live F p v :
  alloc_inv s live F -> long_aligned p = true -> 0 <= v < 2 ^ long_bits ->
  mapped (st_mem s) p (Z.of_nat long_size) -> writable live F (word_cells p) ->
  exists s', store_ptr p v s = Some (tt, s') /\ alloc_inv s' live F /\ word_at (st_mem s') p v /\
    chg (word_cells p) (st_mem s) (st_mem s').
Proof.
  intros Hi Ha Hv Hm Hw. destruct (store_word (st_mem s) p v Ha Hv Hm) as (m' & E & Hp & Hc).
  exists (st_set_mem s m'). unfold store_ptr, on_mem. rewrite E, st_mem_set. split_and!; try done.
  by eapply alloc_write.
Qed.

Lemma owns_sub live live' F a : live ⊆ live' -> owns live F a -> owns live' F a.
Proof. intros Hs [(p & n & Hp & Ha)|Ha]; [|by right]. left. exists p, n. split; [|done]. by eapply lookup_weaken. Qed.

Lemma word_kept live F m m' p v :
  kept live F m m' -> (forall a, word_cells p a -> owns live F a) -> word_at m p v -> word_at m' p v.
Proof.
  intros Hk Ho (Hb & Hr). split; [|done]. intros i Hi. rewrite Hk; [by apply Hb|]. apply Ho.
  unfold word_cells. rewrite bytes_of_word_length in Hi. lia.
Qed.
End lift.

#[export] Hint Resolve mono_on_mem mono_peek : fuel.

(** ** The frame property *)

Class Frame (S : Type) := { fdisj : S -> mem -> Prop; fjoin : S -> mem -> S }.

Definition local {S A} `{Frame S} (c : C S A) : Prop :=
  forall s mf r s', fdisj s mf -> c s = Some (r, s') -> c (fjoin s mf) = Some (r, fjoin s' mf) /\ fdisj s' mf.

#[global] Instance frame_mem : Frame mem := {| fdisj := fun m mf => m ##ₘ mf; fjoin := fun m mf => m ∪ mf |}.

#[global] Instance frame_heap {B} : Frame (heap B) :=
  {| fdisj := fun h mf => hmem h ##ₘ mf; fjoin := fun h mf => with_mem h (hmem h ∪ mf) |}.

Create HintDb frame.

Section local.
Context {S : Type} `{Frame S}.

Lemma local_ret {A} (a : A) : local (ret (S := S) a).
Proof. by intros s mf r s' Hd [= <- <-]. Qed.

Lemma local_fault {A} : local (fault (S := S) (A := A)).
Proof. by intros s mf r s' Hd. Qed.

Lemma local_bind {A B} (c : C S A) (k : A -> C S B) : local c -> (forall a, local (k a)) -> local (bind c k).
Proof.
  intros Hc Hk s mf r s' Hd E. unfold bind in *. destruct (c s) as [[a s1]|] eqn:E1; [|done].
  destruct (Hc s mf a s1 Hd E1) as [-> Hd1]. by apply Hk.
Qed.

Lemma local_loop {T R} (body : T -> C S (T + R)) f st : (forall st, local (body st)) -> local (loop body f st).
Proof.
  intros Hb. revert st. induction f as [|f IH]; intros st; [apply local_fault|].
  unfold loop; fold (loop body). apply local_bind; [done|]. intros [st'|r]; [apply IH|apply local_ret].
Qed.
End local.

Lemma local_load8 p : local (load8 p).
Proof.
  intros m mf r m' Hd. unfold load8. simpl. destruct (m !! p) as [b|] eqn:E; [|done]. intros [= <- <-].
  by rewrite (lookup_union_Some_l _ _ _ _ E).
Qed.

Lemma local_store8 p v : local (store8 p v).
Proof.
  intros m mf r m' Hd. unfold store8. simpl. destruct (m !! p) as [b|] eqn:E; [|done]. intros [= <- <-].
  rewrite (lookup_union_Some_l _ _ _ _ E). rewrite insert_union_l. split; [done|].
  apply map_disjoint_insert_l. split; [|done]. by apply (map_disjoint_Some_l m mf p b).
Qed.

#[export] Hint Resolve local_ret local_fault local_load8 local_store8 : frame.

(** Structural proof of [local]: through the binds, loops and tests. *)
Ltac local_solve :=
  repeat first
    [ solve [eauto with frame nocore]
    | apply local_bind; [|intros ?]
    | apply local_loop; intros ?
    | match goal with |- context [match ?x with _ => _ end] => destruct x end ].

Lemma local_load_bytes p n : local (load_bytes p n).
Proof. revert p. induction n; intros p; simpl; local_solve. Qed.

Lemma local_store_bytes p l : local (store_bytes p l).
Proof. revert p. induction l; intros p; simpl; local_solve. Qed.

#[export] Hint Resolve local_load_bytes local_store_bytes : frame.

Lemma local_load_long `{Arch} p : local (load_long p).
Proof. unfold load_long. local_solve. Qed.

Lemma local_store_long `{Arch} p v : local (store_long p v).
Proof. unfold store_long. local_solve. Qed.

#[export] Hint Resolve local_load_long local_store_long : frame.

(** The word-at-a-time string functions. *)
Class MemFnsLocal `{MemFns} : Prop := {
  memset_local : forall f s c n, local (mf_memset f s c n);
  memcpy_local : forall f d s n, local (mf_memcpy f d s n) }.

#[export] Hint Resolve memset_local memcpy_local : frame.

#[global] Instance fast_mem_fns_local `{Arch} : MemFnsLocal.
Proof.
  split; intros; simpl.
  - unfold memset. local_solve.
  - unfold memcpy. local_solve.
Qed.

Section malloc_local.
Context `{Arch} `{MallocTarget} {B : Type} `{Sbrk B} `{MemFns} {FLoc : MemFnsLocal}.

Lemma local_in_mem {A} (c : C mem A) : local c -> local (in_mem (B := B) c).
Proof.
  intros Hc h mf r h' Hd. unfold in_mem. simpl in *. destruct (c (hmem h)) as [[a m]|] eqn:E; [|done].
  intros [= <- <-]. destruct (Hc (hmem h) mf a m Hd E) as [Ej Hj]. simpl in Ej. by rewrite Ej.
Qed.

(** The allocator's own variables are not in the framed memory. *)
Lemma local_vars {A} (f : heap B -> A) (g : heap B -> heap B) :
  (forall h m, f (with_mem h m) = f h) -> (forall h m, g (with_mem h m) = with_mem (g h) m) ->
  (forall h, hmem (g h) = hmem h) -> local (fun h => Some (f h, g h)).
Proof.
  intros Hf Hg Hm h mf r h' Hd [= <- <-]. simpl in *. rewrite Hf, Hg, Hm. done.
Qed.

Lemma local_set_free_list v : local (set_free_list (B := B) v).
Proof. by apply (local_vars (fun _ => tt) (fun h => with_list h v)). Qed.
Lemma local_set_errno v : local (set_errno (B := B) v).
Proof. by apply local_vars. Qed.
Lemma local_set_sbrk_start v : local (set_sbrk_start (B := B) v).
Proof. by apply local_vars. Qed.
Lemma local_set_sbrk_top v : local (set_sbrk_top (B := B) v).
Proof. by apply local_vars. Qed.
Lemma local_get_list : local (get (B := B) __malloc_free_list).
Proof. by apply local_vars. Qed.
Lemma local_get_start : local (get (B := B) __malloc_sbrk_start).
Proof. by apply local_vars. Qed.
Lemma local_get_top : local (get (B := B) __malloc_sbrk_top).
Proof. by apply local_vars. Qed.

Lemma local_sbrk d : local (sbrk (B := B) d).
Proof.
  intros h mf r h' Hd. unfold sbrk. simpl in *. destruct (sbrk_op d (sbrk_state h)) as [p b].
  by intros [= <- <-].
Qed.

Hint Resolve local_in_mem local_set_free_list local_set_errno local_set_sbrk_start local_set_sbrk_top
  local_get_list local_get_start local_get_top local_sbrk : frame.

Lemma local_free f p : local (__malloc_free (B := B) f p).
Proof.
  unfold __malloc_free, free_walk, free_walk_step, free_no_insert, _check_busy, _mark_free, set_next, get_next,
    chunk_after, _size, get_size_ref, put_size_ref, read_place, write_place, get_next, set_next. local_solve.
Qed.
Hint Resolve local_free : frame.

Lemma local_sbrk_aligned s : local (__malloc_sbrk_aligned (B := B) s).
Proof. unfold __malloc_sbrk_aligned, sbrk_extra. local_solve. Qed.
Hint Resolve local_sbrk_aligned : frame.

Lemma local_grow f c s : local (__malloc_grow_chunk (B := B) f c s).
Proof. unfold __malloc_grow_chunk, make_free_chunk, chunk_end, _size, _set_size, get_size_ref, put_size_ref. local_solve. Qed.
Hint Resolve local_grow : frame.

Lemma local_malloc f s : local (malloc (B := B) f s).
Proof.
  unfold malloc, malloc_search, malloc_search_step, _mark_busy, _mark_free, _set_size, _size, get_next, set_next,
    get_size_ref, put_size_ref, read_place, write_place, get_next, set_next. local_solve.
Qed.
Hint Resolve local_malloc : frame.

Lemma local_realloc f p s : local (realloc (B := B) f p s).
Proof.
  unfold realloc, realloc_merge, realloc_merge_step, make_free_chunk, chunk_after, chunk_end, _check_busy, _is_free, _set_size, _size,
    get_size_ref, put_size_ref, read_place, write_place, get_next, set_next. local_solve.
Qed.
End malloc_local.

(** ** The allocator of libc/stdlib behind the interface *)

Section malloc_alloc.
Context `{Arch} `{MallocTarget} {TOk : MallocTargetOk} {B : Type} `{Sbrk B} {SOk : SbrkOk B}.
Context `{MemFns} {FOk : MemFnsOk} {FMono : MemFnsMono} {FLoc : MemFnsLocal}.
Implicit Types (h : heap B) (live : gmap Z Z) (F : gset Z).

#[global] Instance heap_alloc : AllocOps (heap B) := {|
  st_mem := hmem; st_set_mem := with_mem; st_errno := errno; op_errno := set_errno;
  op_malloc := fun f n => malloc f n; op_calloc := fun f n k => calloc f n k; op_realloc := fun f p n => realloc f p n; op_free := fun f p => __malloc_free f p |}.

(** The memory is the allocator's part, where its invariant holds, and [F]. *)
Definition heap_alloc_inv h live F : Prop :=
  exists m0 mf, hmem h = m0 ∪ mf /\ m0 ##ₘ mf /\ dom mf = F /\ mem_ok mf /\ sys_inv (with_mem h m0) live.

Lemma with_mem_join h m0 mf : hmem h = m0 ∪ mf -> h = fjoin (with_mem h m0) mf.
Proof. intros E. simpl. unfold with_mem. simpl. rewrite <- E. by destruct h. Qed.

Lemma heap_alloc_fresh h live s :
  sys_inv h live -> 0 <= s < 2 ^ long_bits ->
  exists f r h', malloc f s h = Some (r, h') /\ sys_inv h' (gets r s live) /\
    (r <> NULL -> live !! r = None /\ bytes_at (hmem h') r (replicate (Z.to_nat s) 0)) /\ keeps (Malloc s) live h h'.
Proof.
  intros (l & al & Hi & Hv) Hs. set (fuel := (1 + length l + Z.to_nat (chunk_size s))%nat).
  destruct (malloc_spec fuel h l al s) as (r & h' & E & [(-> & _ & Hi' & Hm)|(n & l' & Ha & _)]); try done; try lia.
  - exists fuel, NULL, h'. split; [done|]. destruct (none_inv (Malloc s) h al live h' l Hv Hi' (same_mem_data _ _ _ Hm)).
    split_and!; done.
  - exists fuel, r, h'. split; [done|]. destruct Ha as [A1 A2 A3 A4 A5 A6 A7].
    destruct (gets_inv (Malloc s) h l al live h' r s n l' Hv A1 A4 A5 A7). split_and!; try done.
    intros _. split; [apply not_elem_of_dom; rewrite (proj1 Hv); by apply not_elem_of_dom|].
    assert (s <= MALLOC_ALLOC_MAX) as Hmax.
    { destruct (Z.ltb_spec MALLOC_ALLOC_MAX s) as [Hbig|]; [|done]. unfold malloc in E. rewrite (proj2 (Z.ltb_lt _ _) Hbig) in E. by injection E. }
    destruct (chunk_size_spec s (conj (proj1 Hs) Hmax)) as (_ & _ & Hk & _). intros i Hi'. rewrite length_replicate in Hi'.
    rewrite A6 by (rewrite length_replicate; lia). by rewrite !lookup_replicate_2 by lia.
Qed.

Lemma live_mapped h live p n a m0 mf :
  hmem h = m0 ∪ mf -> sys_inv (with_mem h m0) live -> live !! p = Some n -> p <= a < p + n ->
  is_Some (m0 !! a) /\ hmem h !! a = m0 !! a.
Proof.
  intros Em Hi Hp Ha. destruct (sys_inv_block _ _ _ _ Hi Hp) as [_ _ Hm _]. destruct (Hm a Ha) as [b Hb].
  simpl in Hb. rewrite Em, Hb. split; [done|]. by apply lookup_union_Some_l.
Qed.

Lemma heap_alloc_kept h h' live live' F m0 mf m0' :
  hmem h = m0 ∪ mf -> m0 ##ₘ mf -> m0' ##ₘ mf -> dom mf = F -> sys_inv (with_mem h m0) live ->
  hmem h' = m0' ∪ mf -> live' ⊆ live ->
  (forall p n i, live' !! p = Some n -> 0 <= i < n -> m0' !! (p + i) = m0 !! (p + i)) ->
  kept live' F (hmem h) (hmem h').
Proof.
  intros Em Hd Hd' HF Hi Em' Hs Hk a [(p & n & Hp & Ha)|Ha].
  - destruct (live_mapped h live p n a m0 mf Em Hi (lookup_weaken _ _ _ _ Hp Hs) Ha) as [[b Hb] E]. rewrite E, Em'.
    specialize (Hk p n (a - p) Hp ltac:(lia)). replace (p + (a - p)) with a in Hk by lia.
    rewrite Hb in Hk |- *. by apply lookup_union_Some_l.
  - rewrite <- HF in Ha. apply elem_of_dom in Ha as [b Hb]. rewrite Em, Em'.
    by rewrite !(lookup_union_Some_r _ _ _ b).
Qed.

Lemma heap_alloc_clear h live F n :
  heap_alloc_inv h live F -> 0 <= n < 2 ^ long_bits ->
  exists f0 r h', (forall f, (f0 <= f)%nat -> malloc f n h = Some (r, h')) /\
    heap_alloc_inv h' (gets r n live) F /\ (r <> NULL -> live !! r = None /\ bytes_at (hmem h') r (replicate (Z.to_nat n) 0)) /\
    kept live F (hmem h) (hmem h').
Proof.
  intros (m0 & mf & Em & Hd & HF & Hok & Hi) Hn.
  destruct (heap_alloc_fresh _ _ n Hi Hn) as (f0 & r & h1 & E & Hi1 & Hnew & Hk).
  destruct (local_malloc f0 n (with_mem h m0) mf r h1 Hd E) as [Ej Hd1]. rewrite <- with_mem_join in Ej by done.
  exists f0, r, (fjoin h1 mf). split_and!; [intros; by eapply malloc_mono| | |].
  - exists (hmem h1), mf. split_and!; try done. by destruct h1.
  - intros Hr. destruct (Hnew Hr) as [Hl Hz]. split; [done|]. intros i Hi'. specialize (Hz i Hi'). simpl.
    rewrite length_replicate in Hi'. rewrite lookup_replicate_2 in Hz |- * by lia. by apply lookup_union_Some_l.
  - eapply (heap_alloc_kept h _ live live F m0 mf (hmem h1)); try done. intros p k i Hp Hi'. by apply (Hk p k i).
Qed.

Lemma heap_alloc_malloc h live F n :
  heap_alloc_inv h live F -> 0 <= n < 2 ^ long_bits ->
  exists f0 r h', (forall f, (f0 <= f)%nat -> malloc f n h = Some (r, h')) /\
    heap_alloc_inv h' (gets r n live) F /\ (r <> NULL -> live !! r = None) /\ kept live F (hmem h) (hmem h').
Proof.
  intros Hi Hn. destruct (heap_alloc_clear h live F n Hi Hn) as (f0 & r & h' & E & Hi' & Hz & Hk). exists f0, r, h'. split_and!; try done. intros Hr. by apply Hz.
Qed.

(** calloc of one element is malloc, which clears its blocks. *)
Lemma calloc_one f n h : 0 <= n < 2 ^ long_bits -> calloc f 1 n h = malloc f n h.
Proof.
  intros Hn. pose proof bits_big. unfold calloc. assert (0 <= 1 < 2 ^ long_bits) as Hone by lia. pose proof (mul_overflow_spec 1 n Hone Hn) as Ho. destruct (mul_overflow_size_t 1 n) as [bytes ov] eqn:E.
  cbn [snd] in Ho. rewrite Z.mul_1_l, (proj2 (Z.leb_gt _ _)) in Ho by lia. subst ov. unfold mul_overflow_size_t, size_t in E. injection E as <- _.
  rewrite Z.mul_1_l, uwrap_small by lia. done.
Qed.

Lemma heap_alloc_free h live F p :
  heap_alloc_inv h live F -> is_Some (live !! p) ->
  exists f0 h', (forall f, (f0 <= f)%nat -> __malloc_free f p h = Some (tt, h')) /\
    heap_alloc_inv h' (delete p live) F /\ kept (delete p live) F (hmem h) (hmem h').
Proof.
  intros (m0 & mf & Em & Hd & HF & Hok & Hi) Hp.
  destruct (free_call _ _ p (Free p) Hi (or_intror Hp)) as (f0 & h1 & E & Hi1 & Hk); [by intros|].
  destruct (local_free f0 p (with_mem h m0) mf tt h1 Hd E) as [Ej Hd1]. rewrite <- with_mem_join in Ej by done.
  exists f0, (fjoin h1 mf). split_and!; [intros; by eapply free_mono| |].
  - exists (hmem h1), mf. split_and!; try done. by destruct h1.
  - eapply (heap_alloc_kept h _ live _ F m0 mf (hmem h1)); try done; [apply delete_subseteq|].
    intros q k i [Hne Hq]%lookup_delete_Some Hr. by apply (Hk q k i).
Qed.

(** The words of a block are mapped as a whole. *)
Lemma sys_inv_tail h live p n e : sys_inv h live -> live !! p = Some n -> p <= e < p + n -> word_tail_mapped (hmem h) e.
Proof.
  intros (l & al & Hi & Hv) Hp He a Ha Hw. destruct (view_get al live p n Hv Hp) as (c & Hc & Hn). destruct (inv_busy _ _ _ Hi p c Hc) as [Hwf Hm _].
  pose proof (wf_aligned _ Hwf) as [Hal _]. simpl in Hal. pose proof long_size_pos as Hls. set (W := Z.of_nat long_size) in *.
  assert (W | p - W + c) as [j Hj].
  { apply Z.divide_add_r; [apply Z.divide_sub_r; [|apply Z.divide_refl]|]; (etransitivity; [apply chunk_align_head|]); [apply (wf_addr _ Hwf)|apply (wf_size _ Hwf)]. }
  apply Hm. unfold lo. simpl. fold W. split; [lia|].
  assert (e / W < j) as Hlt by (apply Z.div_lt_upper_bound; lia). rewrite <- Hw in Hlt.
  pose proof (Z.div_mod a W ltac:(lia)). pose proof (Z.mod_pos_bound a W ltac:(lia)). nia.
Qed.

(** The client's view of realloc. *)
Lemma realloc_fresh h live p k n :
  sys_inv h live -> live !! p = Some k -> 0 < n < 2 ^ long_bits ->
  exists f r h' live', realloc f p n h = Some (r, h') /\ sys_inv h' live' /\
    if r =? NULL then live' = live /\ keeps (Malloc n) live h h'
    else live' = <[r := n]> (delete p live) /\ (r = p \/ live !! r = None) /\ keeps (Free p) live h h' /\
      forall i, 0 <= i < Z.min k n -> hmem h' !! (r + i) = hmem h !! (p + i).
Proof.
  intros (l & al & Hi & Hv) Hk Hn. destruct (view_get al live p k Hv Hk) as (c & Hc & Hkc).
  assert (p <> NULL) as Hp.
  { intros ->. destruct (busy_wf _ _ _ (inv_busy _ _ _ Hi NULL c Hc)). unfold lo, NULL in *. simpl in *. pose proof long_size_pos. lia. }
  destruct (Z.le_gt_cases n MALLOC_ALLOC_MAX) as [Hle|Hgt].
  - set (fuel := (3 + length l + Z.to_nat (chunk_size n))%nat).
    destruct (realloc_spec fuel h l al p c n) as (r & h' & l' & E & [(-> & _ & Hi' & Hd)|(n' & [M1 M2 M3 M4 M5 M6])]); try done; try lia.
    + exists fuel, NULL, h', live. split; [done|]. destruct (none_inv (Malloc n) h al live h' l' Hv Hi' Hd). done.
    + exists fuel, r, h', (<[r := n]> (delete p live)). rewrite (proj2 (Z.eqb_neq r NULL) M1). split_and!; try done.
      * exists l', (<[r := n']> (delete p al)). split; [done|]. apply view_insert; [by apply view_delete|done].
      * destruct M2 as [->|M2]; [by left|right]. apply not_elem_of_dom. rewrite (proj1 Hv). by apply not_elem_of_dom.
      * eapply keeps_same; [done|]. intros q i s' c' Hq Hqc Hu Hin. simpl in Hu. apply (M5 q c'); [by rewrite lookup_delete_ne|done].
      * intros i Hir. apply M6. lia.
  - eexists 1%nat, NULL, _, live. split; [unfold realloc; rewrite (proj2 (Z.eqb_neq p NULL) Hp), (proj2 (Z.eqb_neq n 0)) by lia; by rewrite (proj2 (Z.ltb_lt _ _) Hgt)|].
    apply and_assoc. split; [|done]. split; [exists l, al; split; [|done]; eapply inv_sbrk; try done; apply Hi|done].
Qed.

Lemma heap_alloc_realloc h live F p k n :
  heap_alloc_inv h live F -> live !! p = Some k -> 0 < n < 2 ^ long_bits ->
  exists f0 r h' live', (forall f, (f0 <= f)%nat -> realloc f p n h = Some (r, h')) /\
    heap_alloc_inv h' live' F /\ reallocated live F p k n r (hmem h) (hmem h') live'.
Proof.
  intros (m0 & mf & Em & Hd & HF & Hok & Hi) Hp Hn.
  destruct (realloc_fresh _ _ p k n Hi Hp Hn) as (f0 & r & h1 & live' & E & Hi1 & Hr).
  destruct (local_realloc f0 p n (with_mem h m0) mf r h1 Hd E) as [Ej Hd1]. rewrite <- with_mem_join in Ej by done.
  exists f0, r, (fjoin h1 mf), live'. split_and!; [intros; by eapply realloc_mono|exists (hmem h1), mf; split_and!; try done; by destruct h1|].
  unfold reallocated. destruct (r =? NULL).
  - destruct Hr as [-> Hk]. split; [done|]. eapply (heap_alloc_kept h _ live live F m0 mf (hmem h1)); try done. intros q j i Hq Hj. by apply (Hk q j i).
  - destruct Hr as (-> & Hnew & Hk & Hdata). split_and!; try done.
    + eapply (heap_alloc_kept h _ live (delete p live) F m0 mf (hmem h1)); try done; [apply delete_subseteq|]. intros q j i [Hne Hq]%lookup_delete_Some Hj. by apply (Hk q j i).
    + intros i Hir. pose proof (Hdata i Hir) as Ed. simpl in Ed. destruct (live_mapped h live p k (p + i) m0 mf Em Hi Hp ltac:(lia)) as [[b Hb] Eb].
      rewrite Eb, Hb in *. simpl. by apply lookup_union_Some_l.
Qed.

Lemma sys_inv_write h live R p n m' :
  sys_inv h live -> live !! p = Some n -> chg R (hmem h) m' -> (forall a, R a -> p <= a < p + n) ->
  sys_inv (with_mem h m') live.
Proof.
  intros (l & al & Hi & Hv) Hp Hc HR. destruct (view_get al live p n Hv Hp) as (k & Hk & Hn).
  exists l, al. split; [|done]. eapply (inv_write R); try done.
  intros a Ha. specialize (HR a Ha). unfold in_data, hi. simpl. lia.
Qed.

(** A write to one part of the memory, the other part as it was. *)
Lemma chg_part R (m0 mf m' : mem) :
  m0 ##ₘ mf -> chg R (m0 ∪ mf) m' -> (forall a, R a -> is_Some (m0 !! a)) ->
  exists m0', m' = m0' ∪ mf /\ m0' ##ₘ mf /\ dom m0' = dom m0 /\ (mem_ok (m0 ∪ mf) -> mem_ok m0') /\
    (forall a, ~ R a -> m0' !! a = m0 !! a).
Proof.
  intros Hd [Ho Hm Hok] HR.
  assert (forall a b, mf !! a = Some b -> m' !! a = Some b /\ m0 !! a = None) as Hf.
  { intros a b Hb. assert (m0 !! a = None) as Hn by by eapply map_disjoint_Some_r. split; [|done].
    rewrite Ho; [by apply lookup_union_Some_r|]. intros [c Hc]%HR. congruence. }
  assert (mf ⊆ m') as Hs by (apply map_subseteq_spec; intros a b Hb; by apply Hf).
  exists (m' ∖ mf).
  assert (m' ∖ mf ##ₘ mf) as Hd' by by apply map_disjoint_difference_l1.
  assert (forall a, ~ R a -> (m' ∖ mf) !! a = m0 !! a) as Hout.
  { intros a Ha. rewrite lookup_difference. destruct (mf !! a) as [b|] eqn:Eb.
    - symmetry. by eapply Hf.
    - rewrite Ho by done. rewrite lookup_union, Eb. by destruct (m0 !! a). }
  split_and!; [|done| | |done].
  - rewrite map_union_comm by done. by rewrite map_difference_union.
  - apply set_eq. intros a. rewrite !elem_of_dom. rewrite lookup_difference.
    destruct (mf !! a) as [b|] eqn:Eb.
    + destruct (Hf a b Eb) as [_ ->]. done.
    + split; intros Hx.
      * destruct (m0 !! a) as [c|] eqn:Ec; [done|]. destruct Hx as [c Hc].
        destruct (decide ((m0 ∪ mf) !! a = None)) as [Hn|Hn]; [|rewrite lookup_union, Eb, Ec in Hn; done].
        assert (~ R a) as Hr by (intros Hr%HR; rewrite Ec in Hr; by destruct Hr). rewrite Ho in Hc by done. congruence.
      * apply Hm. destruct Hx as [c Hc]. exists c. by apply lookup_union_Some_l.
  - intros Hk a b. rewrite lookup_difference. destruct (mf !! a); [done|]. by apply Hok.
Qed.

Lemma heap_alloc_write h live F R m' :
  heap_alloc_inv h live F -> chg R (hmem h) m' -> writable live F R -> heap_alloc_inv (with_mem h m') live F.
Proof.
  intros (m0 & mf & Em & Hd & HF & Hok & Hi) Hc Hw. rewrite Em in Hc.
  assert (mem_ok m0) as Hok0 by (destruct Hi as (l & al & Hi & _); apply (inv_ok _ _ _ Hi)).
  assert (mem_ok (m0 ∪ mf)) as HokU.
  { intros a b [Ha|[_ Ha]]%lookup_union_Some_raw; [by eapply Hok0|by eapply Hok]. }
  destruct Hw as [(p & n & Hp & HR)|HR].
  - destruct (chg_part R m0 mf m' Hd Hc) as (m0' & E & Hd' & Hdom & Hk & Hout).
    { intros a Ha. destruct (live_mapped h live p n a m0 mf Em Hi Hp (HR a Ha)). done. }
    exists m0', mf. split_and!; try done. eapply (sys_inv_write (with_mem h m0) live R p n m0'); try done. split; [done| |by auto].
    intros a. simpl. rewrite <- !elem_of_dom. by rewrite Hdom.
  - rewrite map_union_comm in Hc by done.
    destruct (chg_part R mf m0 m') as (mf' & E & Hd' & Hdom & Hk & Hout); try done.
    { intros a Ha. apply elem_of_dom. rewrite HF. auto. }
    exists m0, mf'. split_and!; try done; [by rewrite map_union_comm|by rewrite Hdom|].
    apply Hk. by rewrite map_union_comm.
Qed.

#[global] Instance heap_alloc_ok : AllocOk (heap B).
Proof.
  refine {| alloc_inv := heap_alloc_inv |}.
  - done.
  - intros v h. by eexists.
  - intros h live F v h' (m0 & mf & Em & Hd & HF & Hok & Hi) [= <-]. exists m0, mf. split_and!; try done.
    destruct Hi as (l & al & Hi & Hv). exists l, al. split; [|done]. eapply inv_sbrk; try done; apply Hi.
  - intros h live F (m0 & mf & Em & Hd & HF & Hok & (l & al & Hi & _)). simpl. rewrite Em.
    intros a b [Ha|[_ Ha]]%lookup_union_Some_raw; [by eapply (inv_ok _ _ _ Hi)|by eapply Hok].
  - intros h live F p n (m0 & mf & Em & Hd & HF & Hok & Hi) Hp.
    destruct (sys_inv_block _ _ _ _ Hi Hp) as [K1 K2 K3 K4]. split_and!; try done.
    + apply aligned_divide. etransitivity; [apply chunk_align_head|done].
    + intros a Ha. destruct (live_mapped h live p n a m0 mf Em Hi Hp Ha) as [Hx E]. simpl. by rewrite E.
  - intros h live F p n e (m0 & mf & Em & Hd & HF & Hok & Hi) Hp He a Ha Hw.
    pose proof (sys_inv_tail _ live p n e Hi Hp He a Ha Hw) as [b Hb]. simpl in Hb. exists b. simpl. rewrite Em. by apply lookup_union_Some_l.
  - intros h live F p n q k (m0 & mf & Em & Hd & HF & Hok & Hi) Hp Hq. by apply (sys_inv_apart _ _ _ _ _ _ Hi).
  - intros h live F a (m0 & mf & Em & Hd & HF & Hok & Hi) Ha. rewrite <- HF in Ha. apply elem_of_dom in Ha as [b Hb].
    split; [simpl; rewrite Em; exists b; by apply lookup_union_Some_r|].
    intros p n Hp Ha. destruct (live_mapped h live p n a m0 mf Em Hi Hp Ha) as [[c Hc] _].
    by eapply map_disjoint_spec.
  - apply heap_alloc_write.
  - apply heap_alloc_malloc.
  - intros h live F n Hi Hn. destruct (heap_alloc_clear h live F n Hi Hn) as (f0 & r & h' & E & Hx). exists f0, r, h'. split; [|done].
    intros f Hf. simpl. rewrite calloc_one by done. by apply E.
  - apply heap_alloc_realloc.
  - done.
  - intros f p h Hp. simpl. unfold realloc. rewrite (proj2 (Z.eqb_neq p NULL) Hp). done.
  - apply heap_alloc_free.
Defined.
End malloc_alloc.
