(* ===== verification/Search.v ===== *)
(** * Searching and sorting arrays (libc/search/bsearch.c, qsort.c)

    An array of elements is a list; a pointer into it is the index of the
    element it points to, so that [p + es] is the next index, and an access
    outside the array is a fault.  The comparison function is a parameter, as
    in the sources.  The exchange of two elements is also modelled on bytes
    ([swapfunc] and the choice of its unit by [SWAPINIT]). *)

From S2P Require Import Prelude CMem StrLocal.
From stdpp Require Import base list gmap sorting.
From Stdlib Require Import ZArith Lia.

Local Open Scope Z_scope.

(** ** bsearch.c *)

Section bsearch.
Context `{Arch} {E : Type}.
Variable compar : E -> Z.    (** [compar(key, element)] *)
Variable fuel : nat.

Definition elt (i : Z) : C (list E) E :=
  fun l => if i <? 0 then None else match l !! Z.to_nat i with Some x => Some (x, l) | None => None end.

(** The index of the element found, or [None] for [NULL]. *)
Definition bsearch (nmemb size : Z) : C (list E) (option Z) :=
  if (nmemb =? 0) || (size =? 0) then ret None
  else
    loop (fun '(lower, upper) =>
      if lower <? upper then
        let index := uwrap long_bits (lower + upper) / 2 in
        do current <- elt index;
        let result := compar current in
        if result <? 0 then ret (inl (lower, index))
        else if 0 <? result then ret (inl (index + 1, upper))
        else ret (inr (Some index))
      else ret (inr None)) fuel (0, nmemb).
End bsearch.

(** ** qsort.c *)

Section qsort.
Context {E : Type}.
Variable cmp : E -> E -> Z.

Abbreviation A T := (C (list E) T).

Definition store_elt (i : Z) (x : E) : A unit :=
  fun l => if i <? 0 then None
           else match l !! Z.to_nat i with Some _ => Some (tt, <[Z.to_nat i := x]> l) | None => None end.

Definition CMP (i j : Z) : A Z := do x <- elt i; do y <- elt j; ret (cmp x y).

Definition swap (i j : Z) : A unit :=
  do x <- elt i;
  do y <- elt j;
  run store_elt i y;
  store_elt j x.

(** [swapfunc] over a run of [n] elements, a [do] loop; not entered for 0. *)
Definition vecswap (fuel : nat) (i j n : Z) : A unit :=
  if 0 <? n then
    loop (fun '(i, j, n) =>
      run swap i j;
      if 0 <? n - 1 then ret (inl (i + 1, j + 1, n - 1)) else ret (inr tt)) fuel (i, j, n)
  else ret tt.

Definition med3 (a b c : Z) : A Z :=
  do ab <- CMP a b;
  do bc <- CMP b c;
  if ab <? 0 then
    if bc <? 0 then ret b else do ac <- CMP a c; ret (if ac <? 0 then c else a)
  else
    if 0 <? bc then ret b else do ac <- CMP a c; ret (if ac <? 0 then a else c).

(** The insertion sort of the [n] elements at [a], used in two places. *)
Definition insert_down (fuel : nat) (a pl : Z) : A unit :=
  loop (fun pl =>
    if a <? pl then
      do c <- CMP (pl - 1) pl;
      if 0 <? c then run swap pl (pl - 1); ret (inl (pl - 1)) else ret (inr tt)
    else ret (inr tt)) fuel pl.

Definition insertion_sort (fuel : nat) (a n : Z) : A unit :=
  loop (fun pm =>
    if pm <? a + n then run insert_down fuel a pm; ret (inl (pm + 1)) else ret (inr tt))
    fuel (a + 1).

(** The index of the pivot. *)
Definition choose_pivot (a n : Z) : A Z :=
  let pm := a + n / 2 in
  if 7 <? n then
    let pl := a in
    let pn := a + (n - 1) in
    if 40 <? n then
      let d := n / 8 in
      do pl <- med3 pl (pl + d) (pl + 2 * d);
      do pm <- med3 (pm - d) pm (pm + d);
      do pn <- med3 (pn - 2 * d) (pn - d) pn;
      med3 pl pm pn
    else med3 pl pm pn
  else ret pm.

(** Scan left to right, stopping at an element larger than the pivot. *)
Definition scan_up (fuel : nat) (a pa pb pc swap_cnt : Z) : A (Z * Z * Z) :=
  loop (fun '(pa, pb, swap_cnt) =>
    if pb <=? pc then
      do r <- CMP pb a;
      if r <=? 0 then
        if r =? 0 then run swap pa pb; ret (inl (pa + 1, pb + 1, 1))
        else ret (inl (pa, pb + 1, swap_cnt))
      else ret (inr (pa, pb, swap_cnt))
    else ret (inr (pa, pb, swap_cnt))) fuel (pa, pb, swap_cnt).

(** Scan right to left, stopping at an element smaller than the pivot. *)
Definition scan_down (fuel : nat) (a pb pc pd swap_cnt : Z) : A (Z * Z * Z) :=
  loop (fun '(pc, pd, swap_cnt) =>
    if pb <=? pc then
      do r <- CMP pc a;
      if 0 <=? r then
        if r =? 0 then run swap pc pd; ret (inl (pc - 1, pd - 1, 1))
        else ret (inl (pc - 1, pd, swap_cnt))
      else ret (inr (pc, pd, swap_cnt))
    else ret (inr (pc, pd, swap_cnt))) fuel (pc, pd, swap_cnt).

(** The outer [for (;;)]: the final [pa], [pb], [pc], [pd] and [swap_cnt]. *)
Definition partition_step (fuel : nat) (a : Z) (st : Z * Z * Z * Z * Z) :
    A ((Z * Z * Z * Z * Z) + (Z * Z * Z * Z * Z)) :=
  let '(pa, pb, pc, pd, swap_cnt) := st in
  do '(pa, pb, swap_cnt) <- scan_up fuel a pa pb pc swap_cnt;
  do '(pc, pd, swap_cnt) <- scan_down fuel a pb pc pd swap_cnt;
  if pc <? pb then ret (inr (pa, pb, pc, pd, swap_cnt))
  else
    run swap pb pc;
    ret (inl (pa, pb + 1, pc - 1, pd, 1)).

Definition partition (fuel : nat) (a n : Z) : A (Z * Z * Z * Z * Z) :=
  loop (partition_step fuel a) fuel (a + 1, a + 1, a + (n - 1), a + (n - 1), 0).

(** From the label [loop] to the choice of the parts: [None] when the range
    was sorted by insertion, else the base and size of the larger part and of
    the smaller part. *)
Definition qsort_pass (fuel : nat) (a n : Z) : A (option (Z * Z * Z * Z)) :=
  if n <? 7 then run insertion_sort fuel a n; ret None
  else
    do pm <- choose_pivot a n;
    run swap a pm;
    do '(pa, pb, pc, pd, swap_cnt) <- partition fuel a n;
    if swap_cnt =? 0 then run insertion_sort fuel a n; ret None
    else
      let pn := a + n in
      let r := Z.min (pa - a) (pb - pa) in
      run vecswap fuel a (pb - r) r;
      let r := Z.min (pd - pc) (pn - pd - 1) in
      run vecswap fuel pb (pn - r) r;
      let d := pb - pa in
      let r := pd - pc in
      let pn := pn - r in
      if d <? r then ret (Some (pn, r, a, d)) else ret (Some (a, d, pn, r)).

Definition PARAMETER_STACK_LEVELS : nat := 8.

(** The parameter stack, top first. *)
Fixpoint qsort_loop (fuel : nat) (a n : Z) (parameter_stack : list (Z * Z)) : A unit :=
  match fuel with
  | O => fault
  | S f =>
      let pop :=
        match parameter_stack with
        | [] => ret tt
        | (a, n) :: st => qsort_loop f a n st
        end in
      do r <- qsort_pass fuel a n;
      match r with
      | None => pop
      | Some (a, n, pa, r) =>
          let larger := if 1 <? n then qsort_loop f a n parameter_stack else pop in
          if 1 <? r then
            if (length parameter_stack <? PARAMETER_STACK_LEVELS)%nat then
              qsort_loop f pa r ((a, n) :: parameter_stack)
            else run qsort_loop f pa r []; larger
          else larger
      end
  end.

Definition qsort (fuel : nat) (n : Z) : A unit := qsort_loop fuel 0 n [].
End qsort.

(** *** The exchange of bytes *)

Section swapfunc.
Context `{Arch}.
Variable fuel : nat.

(** A load or store through a pointer to a type of [k] bytes, which must be
    aligned for it. *)
Definition load_unit (k p : Z) : C mem (list Z) :=
  if p mod k =? 0 then load_bytes p (Z.to_nat k) else fault.
Definition store_unit (k p : Z) (v : list Z) : C mem unit :=
  if p mod k =? 0 then store_bytes p v else fault.

Definition swapcode (k parmi parmj n : Z) : C mem unit :=
  let i := n / k in
  loop (fun '(i, pi, pj) =>
    do t <- load_unit k pi;
    do u <- load_unit k pj;
    run store_unit k pi u;
    run store_unit k pj t;
    let i := uwrap long_bits (i - 1) in
    if 0 <? i then ret (inl (i, pi + k, pj + k)) else ret (inr tt)) fuel (i, parmi, parmj).

Definition SWAPINIT (k a es : Z) : Z :=
  if negb (a mod k =? 0) || negb (es mod k =? 0) then 2 else if es =? k then 0 else 1.

Definition sizeof_ulong : Z := Z.of_nat long_size.
Definition sizeof_uint : Z := 4.

Definition swapfunc (a b n swaptype_ulong swaptype_uint : Z) : C mem unit :=
  if swaptype_ulong <=? 1 then swapcode sizeof_ulong a b n
  else if negb (sizeof_uint =? sizeof_ulong) && (swaptype_uint <=? 1) then swapcode sizeof_uint a b n
  else swapcode 1 a b n.

(** The macro [swap(a, b)]. *)
Definition swap_bytes (a b es swaptype_ulong swaptype_uint : Z) : C mem unit :=
  if swaptype_ulong =? 0 then
    do t <- load_unit sizeof_ulong a;
    do u <- load_unit sizeof_ulong b;
    run store_unit sizeof_ulong a u;
    store_unit sizeof_ulong b t
  else if negb (sizeof_uint =? sizeof_ulong) && (swaptype_uint =? 0) then
    do t <- load_unit sizeof_uint a;
    do u <- load_unit sizeof_uint b;
    run store_unit sizeof_uint a u;
    store_unit sizeof_uint b t
  else swapfunc a b es swaptype_ulong swaptype_uint.
End swapfunc.

(** ** Element access *)

Lemma elt_at {E} (X Y : list E) x i :
  i = Z.of_nat (length X) -> elt i (X ++ x :: Y) = Some (x, X ++ x :: Y).
Proof.
  intros ->. unfold elt. rewrite (proj2 (Z.ltb_ge _ _)) by lia.
  by rewrite Nat2Z.id, list_lookup_middle.
Qed.

Lemma store_elt_at {E} (X Y : list E) x y i :
  i = Z.of_nat (length X) -> store_elt i y (X ++ x :: Y) = Some (tt, X ++ y :: Y).
Proof.
  intros ->. unfold store_elt. rewrite (proj2 (Z.ltb_ge _ _)) by lia.
  rewrite Nat2Z.id, list_lookup_middle by done.
  by rewrite insert_app_r_alt, Nat.sub_diag by lia.
Qed.

Section qsort_proof.
Context {E : Type} (cmp : E -> E -> Z).
Implicit Types (L X Y M P R V W T Lt Gt pre post : list E).

Abbreviation len X := (Z.of_nat (length X)).

(** The exchange of two elements, in either order of the indices. *)
Lemma swap_at X Y V x y i j :
  i = len X -> j = len X + 1 + len Y ->
  swap i j (X ++ x :: Y ++ y :: V) = Some (tt, X ++ y :: Y ++ x :: V) /\
  swap j i (X ++ x :: Y ++ y :: V) = Some (tt, X ++ y :: Y ++ x :: V).
Proof.
  intros Hi Hj. unfold swap.
  assert (forall a b, X ++ a :: Y ++ b :: V = (X ++ a :: Y) ++ b :: V) as Ha by (intros; by rewrite <- app_assoc).
  assert (forall a, j = len (X ++ a :: Y)) as Hl by (intros; rewrite length_app; simpl; lia).
  split.
  - rewrite (bind_eq _ _ _ _ _ (elt_at X (Y ++ y :: V) x i Hi)). rewrite (Ha x y) at 1.
    rewrite (bind_eq _ _ _ _ _ (elt_at (X ++ x :: Y) V y j (Hl x))). rewrite <- (Ha x y).
    rewrite (bind_eq _ _ _ _ _ (store_elt_at X (Y ++ y :: V) x y i Hi)). rewrite (Ha y y).
    rewrite (store_elt_at (X ++ y :: Y) V y x j (Hl y)). by rewrite <- (Ha y x).
  - rewrite (Ha x y) at 1. rewrite (bind_eq _ _ _ _ _ (elt_at (X ++ x :: Y) V y j (Hl x))).
    rewrite <- (Ha x y). rewrite (bind_eq _ _ _ _ _ (elt_at X (Y ++ y :: V) x i Hi)). rewrite (Ha x y) at 1.
    rewrite (bind_eq _ _ _ _ _ (store_elt_at (X ++ x :: Y) V y x j (Hl x))). rewrite <- (Ha x x).
    by rewrite (store_elt_at X (Y ++ x :: V) x y i Hi).
Qed.

Lemma swap_same X Y x i : i = len X -> swap i i (X ++ x :: Y) = Some (tt, X ++ x :: Y).
Proof.
  intros Hi. unfold swap. rewrite (bind_eq _ _ _ _ _ (elt_at X Y x i Hi)).
  rewrite (bind_eq _ _ _ _ _ (elt_at X Y x i Hi)), (bind_eq _ _ _ _ _ (store_elt_at X Y x x i Hi)).
  by apply store_elt_at.
Qed.

Lemma CMP_at X Y V x y i j :
  i = len X -> j = len X + 1 + len Y ->
  CMP cmp i j (X ++ x :: Y ++ y :: V) = Some (cmp x y, X ++ x :: Y ++ y :: V) /\
  CMP cmp j i (X ++ x :: Y ++ y :: V) = Some (cmp y x, X ++ x :: Y ++ y :: V).
Proof.
  intros Hi Hj. unfold CMP.
  assert (elt i (X ++ x :: Y ++ y :: V) = Some (x, X ++ x :: Y ++ y :: V)) as E1 by by apply elt_at.
  assert (elt j (X ++ x :: Y ++ y :: V) = Some (y, X ++ x :: Y ++ y :: V)) as E2.
  { change (x :: Y ++ y :: V) with ((x :: Y) ++ y :: V). rewrite app_assoc. apply elt_at.
    rewrite length_app. simpl. lia. }
  split; [rewrite (bind_eq _ _ _ _ _ E1), (bind_eq _ _ _ _ _ E2)
         |rewrite (bind_eq _ _ _ _ _ E2), (bind_eq _ _ _ _ _ E1)]; done.
Qed.

(** ** Order *)

(** What the standard asks of a comparison function. *)
Record cmp_order : Prop := {
  cmp_sym : forall x y, cmp x y < 0 <-> 0 < cmp y x;
  cmp_trans : forall x y z, cmp x y <= 0 -> cmp y z <= 0 -> cmp x z <= 0 }.

Definition le_cmp (x y : E) : Prop := cmp x y <= 0.
Definition sorted L : Prop := StronglySorted le_cmp L.

Lemma cmp_gt_le x y : cmp_order -> 0 < cmp x y -> le_cmp y x.
Proof. intros Ho Hc. apply (cmp_sym Ho) in Hc. unfold le_cmp. lia. Qed.

(** ** The insertion sort *)

Lemma insert_down_spec S0 : forall fuel pre x R a pl,
  (length S0 < fuel)%nat -> a = len pre -> pl = a + len S0 ->
  exists S1 S2, S0 = S1 ++ S2 /\
    insert_down cmp fuel a pl (pre ++ S0 ++ x :: R) = Some (tt, pre ++ S1 ++ x :: S2 ++ R) /\
    Forall (fun y => 0 < cmp y x) S2 /\ (forall y, last S1 = Some y -> le_cmp y x).
Proof.
  induction S0 as [|y S0 IH] using rev_ind; intros [|f] pre x R a pl Hf Ha Hpl;
    rewrite ?length_app in Hf; simpl in Hf; try lia.
  - exists [], []. split_and!; try done. unfold insert_down. erewrite loop_stop; [done|].
    by rewrite (proj2 (Z.ltb_ge _ _)) by (simpl in Hpl; lia).
  - rewrite length_app in Hpl. simpl in Hpl.
    replace (pre ++ (S0 ++ [y]) ++ x :: R) with ((pre ++ S0) ++ y :: [] ++ x :: R)
      by app_eq.
    destruct (CMP_at (pre ++ S0) [] R y x (pl - 1) pl) as [Ec _]; [rewrite length_app; simpl; lia..|].
    destruct (swap_at (pre ++ S0) [] R y x (pl - 1) pl) as [_ Es]; [rewrite length_app; simpl; lia..|].
    unfold insert_down. destruct (Z.ltb_spec 0 (cmp y x)) as [Hgt|Hle].
    + destruct (IH f pre x (y :: R) a (pl - 1)) as (S1 & S2 & -> & E0 & Hall & Hlast); [lia|done|lia|].
      exists S1, (S2 ++ [y]). split_and!; [by rewrite app_assoc| | |done].
      * erewrite loop_go.
        2: { rewrite (proj2 (Z.ltb_lt a pl)) by lia. rewrite (bind_eq _ _ _ _ _ Ec).
             rewrite (proj2 (Z.ltb_lt _ _) Hgt), (bind_eq _ _ _ _ _ Es). reflexivity. }
        cbn [app]. rewrite <- !app_assoc in *. exact E0.
      * apply Forall_app. split; [done|]. by constructor.
    + exists (S0 ++ [y]), []. rewrite app_nil_r. split_and!; try done.
      * erewrite loop_stop.
        2: { rewrite (proj2 (Z.ltb_lt a pl)) by lia. rewrite (bind_eq _ _ _ _ _ Ec).
             rewrite (proj2 (Z.ltb_ge _ _) Hle). reflexivity. }
        by rewrite <- !app_assoc.
      * intros z. rewrite last_snoc. intros [= <-]. done.
Qed.

Lemma sorted_insert S1 S2 x :
  cmp_order -> sorted (S1 ++ S2) -> Forall (fun y => 0 < cmp y x) S2 ->
  (forall y, last S1 = Some y -> le_cmp y x) -> sorted (S1 ++ x :: S2).
Proof.
  intros Ho Hs H2 H1. apply StronglySorted_app in Hs as (H12 & Hs1 & Hs2).
  apply StronglySorted_app_2; [|done|apply StronglySorted_cons; split; [|done]].
  - intros y z Hy [->|Hz]%elem_of_cons; [|by apply H12].
    destruct S1 as [|w S1 _] using rev_ind; [set_solver|]. rewrite last_snoc in H1.
    apply StronglySorted_app in Hs1 as (Hw & _ & _).
    apply elem_of_app in Hy as [Hy|Hy].
    + eapply (cmp_trans Ho); [apply (Hw y w); [done|set_solver]|by apply H1].
    + apply list_elem_of_singleton in Hy as ->. by apply H1.
  - eapply Forall_impl; [exact H2|]. intros z Hz. by apply cmp_gt_le.
Qed.

Lemma insertion_loop todo : forall fuel fuel' pre sorted_part post a pm,
  (length todo < fuel)%nat -> (length (sorted_part ++ todo) < fuel')%nat ->
  a = len pre -> pm = a + len sorted_part ->
  exists L', loop (fun pm =>
      if pm <? a + len (sorted_part ++ todo) then run insert_down cmp fuel' a pm; ret (inl (pm + 1))
      else ret (inr tt)) fuel pm (pre ++ sorted_part ++ todo ++ post) = Some (tt, pre ++ L' ++ post) /\
    L' ≡ₚ sorted_part ++ todo /\ (cmp_order -> sorted sorted_part -> sorted L').
Proof.
  induction todo as [|x todo IH]; intros [|f] fuel' pre sp post a pm Hf Hf' Ha Hpm; simpl in Hf; try lia.
  - exists sp. rewrite app_nil_r. split_and!; try done. erewrite loop_stop; [done|].
    by rewrite (proj2 (Z.ltb_ge _ _)) by lia.
  - rewrite length_app in Hf'. simpl in Hf'.
    destruct (insert_down_spec sp fuel' pre x (todo ++ post) a pm) as (S1 & S2 & -> & E0 & H2 & H1); [lia|done..|].
    destruct (IH f fuel' pre (S1 ++ x :: S2) post a (pm + 1)) as (L' & E1 & Hp & Hs); try done.
    { lia. } { rewrite !length_app in Hf'. rewrite !length_app. simpl. lia. } { rewrite length_app in Hpm. rewrite length_app. simpl. lia. }
    assert (len ((S1 ++ S2) ++ x :: todo) = len ((S1 ++ x :: S2) ++ todo)) as El.
    { rewrite !length_app. simpl. lia. }
    exists L'. rewrite El. split_and!.
    + erewrite loop_go; [exact E1|]. rewrite (proj2 (Z.ltb_lt _ _)).
      2: { rewrite length_app in Hpm. rewrite !length_app. simpl. lia. }
      replace (pre ++ S1 ++ x :: S2 ++ todo ++ post) with (pre ++ (S1 ++ x :: S2) ++ todo ++ post)
        in E0 by app_eq.
      erewrite bind_eq; [reflexivity|exact E0].
    + rewrite Hp. rewrite <- !app_assoc. simpl. by rewrite Permutation_middle, <- Permutation_middle.
    + intros Ho Hsp. apply Hs; [done|]. by apply sorted_insert.
Qed.

Lemma insertion_sort_spec fuel pre L post a :
  (length L + 1 < fuel)%nat -> a = len pre ->
  exists L', insertion_sort cmp fuel a (len L) (pre ++ L ++ post) = Some (tt, pre ++ L' ++ post) /\
    L' ≡ₚ L /\ (cmp_order -> sorted L').
Proof.
  intros Hf Ha. unfold insertion_sort. destruct L as [|x L].
  - exists []. split_and!; try done; [|constructor]. destruct fuel as [|f]; [lia|].
    erewrite loop_stop; [done|]. by rewrite (proj2 (Z.ltb_ge _ _)) by (simpl; lia).
  - simpl in Hf. destruct (insertion_loop L fuel fuel pre [x] post a (a + 1)) as (L' & E0 & Hp & Hs);
      [lia|simpl; lia|done|done|].
    exists L'. split_and!; try done. intros Ho. apply Hs; [done|]. repeat constructor.
Qed.

(** ** The partition *)

(** Exchange of the element after a run with the first of the run. *)
Lemma swap_front P Lt x R i j :
  i = len P -> j = i + len Lt ->
  exists Lt', swap i j (P ++ Lt ++ x :: R) = Some (tt, P ++ x :: Lt' ++ R) /\ Lt' ≡ₚ Lt.
Proof.
  intros Hi Hj. destruct Lt as [|y Lt].
  - exists []. split; [|done]. simpl in Hj. replace j with i by lia. by apply swap_same.
  - exists (Lt ++ [y]). rewrite <- app_assoc. split; [|by rewrite <- Permutation_cons_append].
    apply (swap_at P Lt R y x i j); [done|simpl in Hj; lia].
Qed.

(** Exchange of the element before a run with the last of the run. *)
Lemma swap_back P Gt x R i j :
  i = len P -> j = i + len Gt ->
  exists Gt', swap i j (P ++ x :: Gt ++ R) = Some (tt, P ++ Gt' ++ x :: R) /\ Gt' ≡ₚ Gt.
Proof.
  intros Hi Hj. destruct Gt as [|y Gt _] using rev_ind.
  - exists []. split; [|done]. simpl in Hj. replace j with i by lia. by apply swap_same.
  - exists (y :: Gt). rewrite length_app in Hj. simpl in Hj. rewrite <- app_assoc.
    split; [|by rewrite Permutation_cons_append].
    apply (swap_at P Gt R x y i j); [done|lia].
Qed.

Definition eqv (v x : E) : Prop := cmp x v = 0.
Definition ltv (v x : E) : Prop := cmp x v < 0.
Definition gtv (v x : E) : Prop := 0 < cmp x v.

(** Comparison of an element with the pivot in front of the range. *)
Lemma CMP_pivot pre v L x R a i :
  a = len pre -> i = a + 1 + len L ->
  CMP cmp i a (pre ++ v :: L ++ x :: R) = Some (cmp x v, pre ++ v :: L ++ x :: R).
Proof. intros Ha Hi. apply (CMP_at pre L R v x a i); [done|lia]. Qed.

Lemma scan_up_spec M : forall fuel pre v E1 Lt R a cnt,
  (length M < fuel)%nat -> a = len pre -> Forall (eqv v) E1 -> Forall (ltv v) Lt ->
  exists E1' Lt' M' cnt',
    scan_up cmp fuel a (a + 1 + len E1) (a + 1 + len E1 + len Lt) (a + len E1 + len Lt + len M) cnt
      (pre ++ v :: (E1 ++ Lt) ++ M ++ R) =
    Some ((a + 1 + len E1', a + 1 + len E1' + len Lt', cnt'), pre ++ v :: (E1' ++ Lt') ++ M' ++ R) /\
    (E1' ++ Lt') ++ M' ≡ₚ (E1 ++ Lt) ++ M /\ Forall (eqv v) E1' /\ Forall (ltv v) Lt' /\
    (M' = [] \/ exists x M'', M' = x :: M'' /\ gtv v x) /\ (length M' <= length M)%nat.
Proof.
  induction M as [|x M IH]; intros [|f] pre v E1 Lt R a cnt Hf Ha He Hl; simpl in Hf; try lia.
  - exists E1, Lt, [], cnt. split_and!; try done; [|by left]. unfold scan_up.
    erewrite loop_stop; [done|]. by rewrite (proj2 (Z.leb_gt _ _)) by (simpl; lia).
  - pose proof (CMP_pivot pre v (E1 ++ Lt) x (M ++ R) a (a + 1 + len E1 + len Lt) Ha
                  ltac:(rewrite length_app; lia)) as Ec.
    assert (a + 1 + len E1 + len Lt <=? a + len E1 + len Lt + len (x :: M) = true) as Eb
      by (apply Z.leb_le; simpl; lia).
    unfold scan_up. destruct (Z.lt_trichotomy (cmp x v) 0) as [Hlt|[Heq|Hgt]].
    + destruct (IH f pre v E1 (Lt ++ [x]) R a cnt) as (E1' & Lt' & M' & cnt' & E0 & Hp & K); [lia|done|done| |].
      { apply Forall_app. split; [done|]. by constructor. }
      exists E1', Lt', M', cnt'. split_and!; try apply K; [| |simpl; lia].
      * erewrite loop_go.
        2: { rewrite Eb. rewrite (bind_eq _ _ _ _ _ Ec), (proj2 (Z.leb_le _ _)) by lia.
             rewrite (proj2 (Z.eqb_neq _ _)) by lia. reflexivity. }
        rewrite length_app in E0. simpl in E0.
        replace (a + 1 + len E1 + len Lt + 1) with (a + 1 + len E1 + Z.of_nat (length Lt + 1)) by lia.
        replace (a + len E1 + len Lt + len (x :: M)) with (a + len E1 + Z.of_nat (length Lt + 1) + len M)
          by (simpl; lia).
        replace (pre ++ v :: (E1 ++ Lt ++ [x]) ++ M ++ R) with (pre ++ v :: (E1 ++ Lt) ++ x :: M ++ R) in E0
          by app_eq. exact E0.
      * rewrite Hp. rewrite <- !app_assoc. done.
    + destruct (swap_front (pre ++ v :: E1) Lt x (M ++ R) (a + 1 + len E1) (a + 1 + len E1 + len Lt))
        as (Lt1 & Es & Hp1); [rewrite length_app; simpl; lia|done|].
      destruct (IH f pre v (E1 ++ [x]) Lt1 R a 1) as (E1' & Lt' & M' & cnt' & E0 & Hp & K); [lia|done| | |].
      { apply Forall_app. split; [done|]. by constructor. } { by rewrite Hp1. }
      exists E1', Lt', M', cnt'. split_and!; try apply K; [| |simpl; lia].
      * replace (pre ++ v :: (E1 ++ Lt) ++ (x :: M) ++ R) with ((pre ++ v :: E1) ++ Lt ++ x :: M ++ R) in *
          by app_eq.
        replace (pre ++ v :: (E1 ++ Lt) ++ x :: M ++ R) with ((pre ++ v :: E1) ++ Lt ++ x :: M ++ R) in *
          by app_eq.
        erewrite loop_go.
        2: { rewrite Eb. rewrite (bind_eq _ _ _ _ _ Ec), (proj2 (Z.leb_le _ _)) by lia.
             rewrite (proj2 (Z.eqb_eq _ _) Heq), (bind_eq _ _ _ _ _ Es). reflexivity. }
        apply Permutation_length in Hp1. rewrite length_app, Hp1 in E0. simpl in E0.
        replace (a + 1 + len E1 + 1) with (a + 1 + Z.of_nat (length E1 + 1)) by lia.
        replace (a + 1 + len E1 + len Lt + 1) with (a + 1 + Z.of_nat (length E1 + 1) + len Lt) by lia.
        replace (a + len E1 + len Lt + len (x :: M)) with (a + Z.of_nat (length E1 + 1) + len Lt + len M)
          by (simpl; lia).
        replace ((pre ++ v :: E1) ++ x :: Lt1 ++ M ++ R) with (pre ++ v :: ((E1 ++ [x]) ++ Lt1) ++ M ++ R)
          by app_eq. exact E0.
      * rewrite Hp, Hp1. rewrite <- !app_assoc. simpl. by rewrite <- (Permutation_middle Lt M x).
    + exists E1, Lt, (x :: M), cnt. split_and!; try done; [|by right; exists x, M].
      erewrite loop_stop; [done|]. rewrite Eb. rewrite (bind_eq _ _ _ _ _ Ec).
      by rewrite (proj2 (Z.leb_gt _ _)) by lia.
Qed.

Lemma scan_down_spec M : forall fuel pre v W Gt E2 post a cnt,
  (length M < fuel)%nat -> a = len pre -> Forall (eqv v) E2 -> Forall (gtv v) Gt ->
  exists Gt' E2' M' cnt',
    let pc := a + len W + len M' in
    scan_down cmp fuel a (a + 1 + len W) (a + len W + len M) (a + len W + len M + len Gt) cnt
      (pre ++ v :: W ++ M ++ Gt ++ E2 ++ post) =
    Some ((pc, pc + len Gt', cnt'), pre ++ v :: W ++ M' ++ Gt' ++ E2' ++ post) /\
    M' ++ Gt' ++ E2' ≡ₚ M ++ Gt ++ E2 /\ Forall (eqv v) E2' /\ Forall (gtv v) Gt' /\
    (M' = [] \/ exists x M'', M' = M'' ++ [x] /\ ltv v x) /\ (exists T, M = M' ++ T).
Proof.
  induction M as [|x M IH] using rev_ind; intros [|f] pre v W Gt E2 post a cnt Hf Ha He Hg;
    rewrite ?length_app in Hf; simpl in Hf; try lia.
  - exists Gt, E2, [], cnt. split_and!; try done; [|by left|by exists []]. unfold scan_down.
    erewrite loop_stop; [done|]. by rewrite (proj2 (Z.leb_gt _ _)) by (simpl; lia).
  - replace (pre ++ v :: W ++ (M ++ [x]) ++ Gt ++ E2 ++ post) with
      (pre ++ v :: (W ++ M) ++ x :: Gt ++ E2 ++ post) by app_eq.
    rewrite length_app. simpl (length [x]).
    pose proof (CMP_pivot pre v (W ++ M) x (Gt ++ E2 ++ post) a (a + len W + Z.of_nat (length M + 1)) Ha
                  ltac:(rewrite length_app; lia)) as Ec.
    assert (a + 1 + len W <=? a + len W + Z.of_nat (length M + 1) = true) as Eb by (apply Z.leb_le; lia).
    unfold scan_down. destruct (Z.lt_trichotomy (cmp x v) 0) as [Hlt|[Heq|Hgt]].
    + exists Gt, E2, (M ++ [x]), cnt. rewrite length_app. simpl (length [x]).
      split_and!; try done; [|by right; exists x, M|by exists []; rewrite app_nil_r].
      erewrite loop_stop.
      2: { rewrite Eb. rewrite (bind_eq _ _ _ _ _ Ec). by rewrite (proj2 (Z.leb_gt _ _)) by lia. }
      do 2 f_equal. app_eq.
    + destruct (swap_back (pre ++ v :: W ++ M) Gt x (E2 ++ post) (a + len W + Z.of_nat (length M + 1))
                  (a + len W + Z.of_nat (length M + 1) + len Gt)) as (Gt1 & Es & Hp1).
      { rewrite length_app. simpl. rewrite length_app. lia. } { done. }
      destruct (IH f pre v W Gt1 (x :: E2) post a 1) as (Gt' & E2' & M' & cnt' & E0 & Hp & K1 & K2 & K3 & T & K4);
        [lia|done|by constructor|by rewrite Hp1|].
      exists Gt', E2', M', cnt'. split_and!; try done; [| |exists (T ++ [x]); by rewrite K4, app_assoc].
      * replace (pre ++ v :: (W ++ M) ++ x :: Gt ++ E2 ++ post) with ((pre ++ v :: W ++ M) ++ x :: Gt ++ E2 ++ post)
          in * by app_eq.
        erewrite loop_go.
        2: { rewrite Eb. rewrite (bind_eq _ _ _ _ _ Ec), (proj2 (Z.leb_le _ _)) by lia.
             rewrite (proj2 (Z.eqb_eq _ _) Heq), (bind_eq _ _ _ _ _ Es). reflexivity. }
        apply Permutation_length in Hp1. rewrite Hp1 in E0.
        replace (a + len W + Z.of_nat (length M + 1) - 1) with (a + len W + len M) by lia.
        replace (a + len W + Z.of_nat (length M + 1) + len Gt - 1) with (a + len W + len M + len Gt) by lia.
        replace ((pre ++ v :: W ++ M) ++ Gt1 ++ x :: E2 ++ post) with (pre ++ v :: W ++ M ++ Gt1 ++ (x :: E2) ++ post)
          by app_eq. exact E0.
      * rewrite Hp, Hp1. rewrite <- app_assoc. simpl. by rewrite <- (Permutation_middle Gt E2 x).
    + destruct (IH f pre v W (x :: Gt) E2 post a cnt) as (Gt' & E2' & M' & cnt' & E0 & Hp & K1 & K2 & K3 & T & K4);
        [lia|done|done|by constructor|].
      exists Gt', E2', M', cnt'. split_and!; try done; [| |exists (T ++ [x]); by rewrite K4, app_assoc].
      * erewrite loop_go.
        2: { rewrite Eb. rewrite (bind_eq _ _ _ _ _ Ec), (proj2 (Z.leb_le _ _)) by lia.
             rewrite (proj2 (Z.eqb_neq _ _)) by lia. reflexivity. }
        replace (a + len W + Z.of_nat (length M + 1) - 1) with (a + len W + len M) by lia.
        replace (a + len W + Z.of_nat (length M + 1) + len Gt) with (a + len W + len M + len (x :: Gt)) by (simpl; lia).
        replace (pre ++ v :: (W ++ M) ++ x :: Gt ++ E2 ++ post) with (pre ++ v :: W ++ M ++ (x :: Gt) ++ E2 ++ post)
          by app_eq. exact E0.
      * rewrite Hp. by rewrite <- app_assoc.
Qed.

(** The ends of what the two scans leave are exchanged: the first is larger
    than the pivot, the last is smaller, so they are two elements. *)
Lemma scan_ends v M T M1 :
  (M1 = [] \/ exists x M2, M1 = x :: M2 /\ gtv v x) -> M1 = M ++ T ->
  M = [] \/ (exists y M2, M = M2 ++ [y] /\ ltv v y) ->
  M = [] \/ exists x M3 y, M = x :: M3 ++ [y] /\ gtv v x /\ ltv v y.
Proof.
  intros H1 -> [->|(y & M2 & -> & Hy)]; [by left|right].
  destruct H1 as [H1|(x & M4 & H1 & Hx)].
  - destruct M2; discriminate.
  - destruct M2 as [|z M3]; simpl in H1; injection H1 as -> H1.
    + unfold gtv, ltv in *. lia.
    + exists x, M3, y. done.
Qed.

(** The array and the variables of the partition: elements equal to the pivot
    [v], smaller, not yet scanned, larger and equal. *)
Definition part_arr pre v (E1 : list E) Lt M Gt (E2 : list E) post : list E :=
  pre ++ v :: (E1 ++ Lt) ++ M ++ Gt ++ E2 ++ post.

Definition part_vars (a : Z) (E1 : list E) Lt M Gt (cnt : Z) : Z * Z * Z * Z * Z :=
  (a + 1 + len E1, a + 1 + len E1 + len Lt, a + len E1 + len Lt + len M,
   a + len E1 + len Lt + len M + len Gt, cnt).

Definition part_ok (v : E) (E1 : list E) Lt Gt (E2 : list E) : Prop :=
  Forall (eqv v) E1 /\ Forall (ltv v) Lt /\ Forall (gtv v) Gt /\ Forall (eqv v) E2.

Lemma partition_scans fuel pre v E1 Lt M Gt E2 post a cnt :
  (length M < fuel)%nat -> a = len pre -> part_ok v E1 Lt Gt E2 ->
  exists E1' Lt' M' Gt' E2' cnt',
    partition_step cmp fuel a (part_vars a E1 Lt M Gt cnt) (part_arr pre v E1 Lt M Gt E2 post) =
    (let '(pa, pb, pc, pd, swap_cnt) := part_vars a E1' Lt' M' Gt' cnt' in
     if pc <? pb then ret (inr (pa, pb, pc, pd, swap_cnt))
     else run swap pb pc; ret (inl (pa, pb + 1, pc - 1, pd, 1))) (part_arr pre v E1' Lt' M' Gt' E2' post) /\
    E1' ++ Lt' ++ M' ++ Gt' ++ E2' ≡ₚ E1 ++ Lt ++ M ++ Gt ++ E2 /\ part_ok v E1' Lt' Gt' E2' /\
    (M' = [] \/ exists x M3 y, M' = x :: M3 ++ [y] /\ gtv v x /\ ltv v y) /\ (length M' <= length M)%nat.
Proof.
  intros Hf Ha (H1 & H2 & H3 & H4).
  destruct (scan_up_spec M fuel pre v E1 Lt (Gt ++ E2 ++ post) a cnt Hf Ha H1 H2)
    as (E1a & Lta & M1 & cnt1 & Eu & Hp1 & H1a & H2a & Hend1 & Hlen1).
  destruct (scan_down_spec M1 fuel pre v (E1a ++ Lta) Gt E2 post a cnt1 ltac:(lia) Ha H4 H3)
    as (Gta & E2a & M2 & cnt2 & Ed & Hp2 & H4a & H3a & Hend2 & T & HT).
  rewrite length_app in Ed.
  pose proof (Permutation_length Hp1) as Hl1. rewrite !length_app in Hl1.
  pose proof (f_equal length HT) as Hl2. rewrite length_app in Hl2.
  exists E1a, Lta, M2, Gta, E2a, cnt2. split_and!; [| |done|by eapply scan_ends|lia].
  - unfold partition_step, part_vars, part_arr. rewrite (bind_eq _ _ _ _ _ Eu).
    replace (a + len E1 + len Lt + len M + len Gt) with (a + Z.of_nat (length E1a + length Lta) + len M1 + len Gt)
      by lia.
    replace (a + len E1 + len Lt + len M) with (a + Z.of_nat (length E1a + length Lta) + len M1) by lia.
    replace (a + 1 + len E1a + len Lta) with (a + 1 + Z.of_nat (length E1a + length Lta)) by lia.
    rewrite (bind_eq _ _ _ _ _ Ed).
    by replace (a + Z.of_nat (length E1a + length Lta)) with (a + len E1a + len Lta) by lia.
  - rewrite Hp2. rewrite <- !app_assoc in Hp1.
    transitivity ((E1a ++ Lta ++ M1) ++ Gt ++ E2); [by rewrite <- !app_assoc|]. by rewrite Hp1, <- !app_assoc.
Qed.

Lemma partition_loop n : forall fuel fuel' pre v E1 Lt M Gt E2 post a cnt,
  length M = n -> (length M < fuel)%nat -> (length M < fuel')%nat -> a = len pre ->
  part_ok v E1 Lt Gt E2 ->
  exists E1' Lt' Gt' E2' cnt',
    loop (partition_step cmp fuel' a) fuel (part_vars a E1 Lt M Gt cnt) (part_arr pre v E1 Lt M Gt E2 post) =
    Some (part_vars a E1' Lt' [] Gt' cnt', part_arr pre v E1' Lt' [] Gt' E2' post) /\
    E1' ++ Lt' ++ Gt' ++ E2' ≡ₚ E1 ++ Lt ++ M ++ Gt ++ E2 /\ part_ok v E1' Lt' Gt' E2'.
Proof.
  induction n as [n IH] using lt_wf_ind.
  intros [|f] fuel' pre v E1 Lt M Gt E2 post a cnt Hn Hf Hf' Ha Hok; [lia|].
  destruct (partition_scans fuel' pre v E1 Lt M Gt E2 post a cnt Hf' Ha Hok)
    as (E1a & Lta & M2 & Gta & E2a & cnt2 & Est & Hp & Hoka & [->|(x & M3 & y & -> & Hx & Hy)] & Hlen).
  - exists E1a, Lta, Gta, E2a, cnt2. split_and!; try done.
    erewrite loop_stop; [reflexivity|]. rewrite Est. unfold part_vars.
    by rewrite (proj2 (Z.ltb_lt _ _)) by (simpl; lia).
  - simpl in Hlen. rewrite length_app in Hlen. simpl in Hlen. destruct Hoka as (K1 & K2 & K3 & K4).
    destruct (IH (length M3) ltac:(lia) f fuel' pre v E1a (Lta ++ [y]) M3 (x :: Gta) E2a post a 1)
      as (E1' & Lt' & Gt' & E2' & cnt' & E0 & Hq & K); try done; try lia.
    { split_and!; try done; [|by constructor]. apply Forall_app. split; [done|]. by constructor. }
    exists E1', Lt', Gt', E2', cnt'. split; [|split; [|done]].
    + erewrite loop_go.
      2: { rewrite Est. unfold part_vars, part_arr. simpl. rewrite length_app. simpl.
           rewrite (proj2 (Z.ltb_ge _ _)) by lia.
           erewrite bind_eq; [reflexivity|].
           replace (pre ++ v :: (E1a ++ Lta) ++ x :: (M3 ++ [y]) ++ Gta ++ E2a ++ post) with
             ((pre ++ v :: E1a ++ Lta) ++ x :: M3 ++ y :: Gta ++ E2a ++ post) by app_eq.
           refine (proj1 (swap_at _ _ _ _ _ _ _ _ _)); rewrite !length_app; simpl; rewrite ?length_app; lia. }
      rewrite <- E0. unfold part_vars, part_arr. rewrite length_app. simpl (length [y]). simpl (length (x :: Gta)).
      replace ((pre ++ v :: E1a ++ Lta) ++ y :: M3 ++ x :: Gta ++ E2a ++ post) with
        (pre ++ v :: (E1a ++ Lta ++ [y]) ++ M3 ++ (x :: Gta) ++ E2a ++ post) by app_eq.
      f_equal. tuple_eq.
    + rewrite Hq, <- Hp. rewrite <- !app_assoc. simpl. do 2 f_equiv.
      rewrite <- (Permutation_middle M3 (Gta ++ E2a) x), <- app_assoc. simpl.
      rewrite <- (Permutation_middle M3 (Gta ++ E2a) y). apply perm_swap.
Qed.

(** ** Moving the equal elements to the middle *)

Lemma vecswap_loop X : forall fuel P Y Q T i j,
  length X = length Y -> (length X <= fuel)%nat -> X <> [] -> i = len P -> j = i + len X + len Q ->
  loop (fun '(i, j, n) =>
      run swap i j;
      if 0 <? n - 1 then ret (inl (i + 1, j + 1, n - 1)) else ret (inr tt)) fuel (i, j, len X)
    (P ++ X ++ Q ++ Y ++ T) = Some (tt, P ++ Y ++ Q ++ X ++ T).
Proof.
  induction X as [|x X IH]; intros [|f] P Y Q T i j Hl Hf Hne Hi Hj; try done; [simpl in *; lia|].
  destruct Y as [|y Y]; [done|]. simpl in Hl, Hf, Hj.
  assert (swap i j (P ++ (x :: X) ++ Q ++ (y :: Y) ++ T) = Some (tt, (P ++ [y]) ++ X ++ (Q ++ [x]) ++ Y ++ T)) as Es.
  { replace (P ++ (x :: X) ++ Q ++ (y :: Y) ++ T) with (P ++ x :: (X ++ Q) ++ y :: Y ++ T) by app_eq.
    replace ((P ++ [y]) ++ X ++ (Q ++ [x]) ++ Y ++ T) with (P ++ y :: (X ++ Q) ++ x :: Y ++ T) by app_eq.
    refine (proj1 (swap_at _ _ _ _ _ _ _ Hi _)). rewrite length_app. lia. }
  destruct X as [|x1 X].
  - destruct Y; [|done]. erewrite loop_stop.
    2: { rewrite (bind_eq _ _ _ _ _ Es). reflexivity. }
    do 2 f_equal. app_eq.
  - erewrite loop_go.
    2: { rewrite (bind_eq _ _ _ _ _ Es). rewrite (proj2 (Z.ltb_lt _ _)) by (simpl; lia). reflexivity. }
    replace (len (x :: x1 :: X) - 1) with (len (x1 :: X)) by (simpl; lia).
    rewrite IH; try done; try lia; [do 2 f_equal; app_eq| |]; rewrite length_app; simpl in *; lia.
Qed.

Lemma vecswap_spec fuel P X Y Q T i j :
  length X = length Y -> (length X <= fuel)%nat -> i = len P -> j = i + len X + len Q ->
  vecswap fuel i j (len X) (P ++ X ++ Q ++ Y ++ T) = Some (tt, P ++ Y ++ Q ++ X ++ T).
Proof.
  intros Hl Hf Hi Hj. unfold vecswap. destruct X as [|x X].
  - by destruct Y.
  - rewrite (proj2 (Z.ltb_lt _ _)) by (simpl; lia). by apply vecswap_loop.
Qed.

(** Exchanging the smaller of two neighbouring runs with the far end of the
    other one moves the second in front of the first. *)
Lemma vecswap_min fuel P X Y T i j r :
  (length X <= fuel)%nat -> i = len P -> r = Z.min (len X) (len Y) -> j = i + len X + len Y - r ->
  exists X' Y', vecswap fuel i j r (P ++ X ++ Y ++ T) = Some (tt, P ++ Y' ++ X' ++ T) /\
    X' ≡ₚ X /\ Y' ≡ₚ Y.
Proof.
  intros Hf Hi Hr Hj. destruct (Nat.le_ge_cases (length X) (length Y)) as [Hle|Hge].
  - destruct (list_split (length Y - length X) Y) as (Y1 & Y2 & -> & H1 & H2); [lia|].
    rewrite length_app in *. exists X, (Y2 ++ Y1). split_and!; [|done|apply Permutation_app_comm].
    replace r with (len X) by lia. rewrite <- !app_assoc. apply vecswap_spec; lia.
  - destruct (list_split (length Y) X) as (X1 & X2 & -> & H1 & H2); [lia|].
    rewrite length_app in *. exists (X2 ++ X1), Y. split_and!; [|apply Permutation_app_comm|done].
    replace r with (len X1) by lia. rewrite <- !app_assoc. apply vecswap_spec; lia.
Qed.

(** ** The pivot *)

Lemma elt_in L i : 0 <= i < len L -> exists x, elt i L = Some (x, L).
Proof.
  intros Hi. unfold elt. rewrite (proj2 (Z.ltb_ge _ _)) by lia.
  destruct (lookup_lt_is_Some_2 L (Z.to_nat i)) as [x ->]; [lia|]. by exists x.
Qed.

Lemma CMP_in L i j : 0 <= i < len L -> 0 <= j < len L -> exists c, CMP cmp i j L = Some (c, L).
Proof.
  intros [x Ex]%elt_in [y Ey]%elt_in. exists (cmp x y). unfold CMP.
  by rewrite (bind_eq _ _ _ _ _ Ex), (bind_eq _ _ _ _ _ Ey).
Qed.

Lemma med3_in L i j k lo hi :
  0 <= lo -> hi <= len L -> lo <= i < hi -> lo <= j < hi -> lo <= k < hi ->
  exists r, med3 cmp i j k L = Some (r, L) /\ lo <= r < hi.
Proof.
  intros Hlo Hhi Hi Hj Hk. unfold med3.
  destruct (CMP_in L i j) as [cij Eij], (CMP_in L j k) as [cjk Ejk], (CMP_in L i k) as [cik Eik]; try lia.
  rewrite (bind_eq _ _ _ _ _ Eij), (bind_eq _ _ _ _ _ Ejk).
  repeat case_bool; rewrite ?(bind_eq _ _ _ _ _ Eik); eexists; (split; [reflexivity|]); try done.
  all: case_bool; done.
Qed.

Lemma choose_pivot_in L a n :
  0 <= a -> 7 <= n -> a + n <= len L -> exists pm, choose_pivot cmp a n L = Some (pm, L) /\ a <= pm < a + n.
Proof.
  intros Ha Hn HL. unfold choose_pivot.
  assert (0 <= n / 2 /\ 2 * (n / 2) <= n < 2 * (n / 2) + 2) as H2 by (pose proof (Z_div_mod_eq_full n 2);
    pose proof (Z.mod_pos_bound n 2); lia).
  assert (0 <= n / 8 /\ 8 * (n / 8) <= n) as H8 by (pose proof (Z_div_mod_eq_full n 8);
    pose proof (Z.mod_pos_bound n 8); lia).
  case_bool; [|exists (a + n / 2); split; [done|lia]].
  case_bool; [|apply med3_in; lia].
  destruct (med3_in L a (a + n / 8) (a + 2 * (n / 8)) a (a + n)) as (i & Ei & Hi); [lia..|].
  destruct (med3_in L (a + n / 2 - n / 8) (a + n / 2) (a + n / 2 + n / 8) a (a + n)) as (j & Ej & Hj); [lia..|].
  destruct (med3_in L (a + (n - 1) - 2 * (n / 8)) (a + (n - 1) - n / 8) (a + (n - 1)) a (a + n))
    as (k & Ek & Hk); [lia..|].
  rewrite (bind_eq _ _ _ _ _ Ei), (bind_eq _ _ _ _ _ Ej), (bind_eq _ _ _ _ _ Ek). apply med3_in; lia.
Qed.

(** Moving the pivot to the front. *)
Lemma swap_head pre L post a pm :
  a = len pre -> a <= pm < a + len L ->
  exists v L', swap a pm (pre ++ L ++ post) = Some (tt, pre ++ v :: L' ++ post) /\ v :: L' ≡ₚ L.
Proof.
  intros Ha Hpm. destruct L as [|x L]; [simpl in Hpm; lia|]. destruct (decide (pm = a)) as [->|Hne].
  - exists x, L. split; [|done]. by apply swap_same.
  - destruct (list_split (Z.to_nat (pm - a - 1)) L) as (L1 & L2 & -> & H1 & H2); [simpl in Hpm; lia|].
    destruct L2 as [|y L2]; [simpl in Hpm, H2; rewrite length_app in *; simpl in *; lia|].
    exists y, (L1 ++ x :: L2). split.
    + replace (pre ++ (x :: L1 ++ y :: L2) ++ post) with (pre ++ x :: L1 ++ y :: L2 ++ post) by app_eq.
      replace (pre ++ y :: (L1 ++ x :: L2) ++ post) with (pre ++ y :: L1 ++ x :: L2 ++ post) by app_eq.
      refine (proj1 (swap_at _ _ _ _ _ _ _ Ha _)). lia.
    + rewrite <- !Permutation_middle. apply perm_swap.
Qed.

(** ** One pass *)

(** The parts that a pass leaves to sort, larger one first. *)
Definition pass_parts (a : Z) Lt M Gt : Z * Z * Z * Z :=
  if len Lt <? len Gt then (a + len Lt + len M, len Gt, a, len Lt)
  else (a, len Lt, a + len Lt + len M, len Gt).

Lemma pass_partition fuel pre L post a :
  (length L + 1 < fuel)%nat -> a = len pre -> 7 <= len L ->
  exists pm arr v E1 Lt Gt E2 cnt,
    choose_pivot cmp a (len L) (pre ++ L ++ post) = Some (pm, pre ++ L ++ post) /\
    swap a pm (pre ++ L ++ post) = Some (tt, arr) /\
    partition cmp fuel a (len L) arr =
      Some (part_vars a E1 Lt [] Gt cnt, part_arr pre v E1 Lt [] Gt E2 post) /\
    v :: E1 ++ Lt ++ Gt ++ E2 ≡ₚ L /\ part_ok v E1 Lt Gt E2.
Proof.
  intros Hf Ha Hn.
  destruct (choose_pivot_in (pre ++ L ++ post) a (len L)) as (pm & Ep & Hpm); [lia|done|rewrite !length_app; lia|].
  destruct (swap_head pre L post a pm Ha Hpm) as (v & L1 & Es & Hp).
  pose proof (Permutation_length Hp) as Hl. simpl in Hl.
  destruct (partition_loop (length L1) fuel fuel pre v [] [] L1 [] [] post a 0)
    as (E1 & Lt & Gt & E2 & cnt & El & Hq & Hok); [lia..|done|by repeat constructor|].
  exists pm, (pre ++ v :: L1 ++ post), v, E1, Lt, Gt, E2, cnt.
  split_and!; [done|done| |rewrite <- Hp, Hq; simpl; by rewrite app_nil_r|done].
  unfold partition. rewrite <- El. unfold part_arr. simpl. f_equal. unfold part_vars. simpl. tuple_eq.
Qed.

(** The two exchanges that turn the four runs into three. *)
Lemma pass_rearrange fuel pre v E1 Lt Gt E2 post a pa pb pc pd pn :
  (length E1 + length Gt + 1 < fuel)%nat -> a = len pre ->
  pa = a + 1 + len E1 -> pb = pa + len Lt -> pc = pb - 1 -> pd = pc + len Gt -> pn = pd + len E2 + 1 ->
  exists Lt' M Gt' arr,
    vecswap fuel a (pb - Z.min (pa - a) (pb - pa)) (Z.min (pa - a) (pb - pa))
      (pre ++ v :: (E1 ++ Lt) ++ Gt ++ E2 ++ post) = Some (tt, arr) /\
    vecswap fuel pb (pn - Z.min (pd - pc) (pn - pd - 1)) (Z.min (pd - pc) (pn - pd - 1)) arr =
      Some (tt, pre ++ (Lt' ++ M ++ Gt') ++ post) /\
    Lt' ≡ₚ Lt /\ M ≡ₚ (v :: E1) ++ E2 /\ Gt' ≡ₚ Gt.
Proof.
  intros Hf Ha Hpa Hpb Hpc Hpd Hpn.
  destruct (vecswap_min fuel pre (v :: E1) Lt (Gt ++ E2 ++ post) a
              (pb - Z.min (pa - a) (pb - pa)) (Z.min (pa - a) (pb - pa))) as (X & Lt' & Ev & HX & HLt);
    [simpl; lia|done|simpl; lia|simpl; lia|].
  pose proof (Permutation_length HX) as Hl1. pose proof (Permutation_length HLt) as Hl2. simpl in Hl1.
  destruct (vecswap_min fuel (pre ++ Lt' ++ X) Gt E2 post pb
              (pn - Z.min (pd - pc) (pn - pd - 1)) (Z.min (pd - pc) (pn - pd - 1))) as (Gt' & Y & Ew & HGt & HY);
    [lia|rewrite !length_app; lia|lia|lia|].
  exists Lt', (X ++ Y), Gt', ((pre ++ Lt' ++ X) ++ Gt ++ E2 ++ post).
  split_and!; [| |done|by rewrite HX, HY|done].
  - replace (pre ++ v :: (E1 ++ Lt) ++ Gt ++ E2 ++ post) with (pre ++ (v :: E1) ++ Lt ++ Gt ++ E2 ++ post) by app_eq.
    rewrite Ev. do 2 f_equal. app_eq.
  - rewrite Ew. do 2 f_equal. app_eq.
Qed.

Lemma qsort_pass_spec fuel pre L post a :
  (length L + 1 < fuel)%nat -> a = len pre ->
  (exists L', qsort_pass cmp fuel a (len L) (pre ++ L ++ post) = Some (None, pre ++ L' ++ post) /\
     L' ≡ₚ L /\ (cmp_order -> sorted L')) \/
  (exists v Lt M Gt,
     qsort_pass cmp fuel a (len L) (pre ++ L ++ post) =
       Some (Some (pass_parts a Lt M Gt), pre ++ (Lt ++ M ++ Gt) ++ post) /\
     Lt ++ M ++ Gt ≡ₚ L /\ Forall (ltv v) Lt /\ Forall (gtv v) Gt /\
     Forall (fun x => x = v \/ eqv v x) M /\ v ∈ M).
Proof.
  intros Hf Ha. unfold qsort_pass. destruct (Z.ltb_spec (len L) 7) as [Hlt|Hge].
  { left. destruct (insertion_sort_spec fuel pre L post a Hf Ha) as (L' & Ei & Hp & Hs).
    exists L'. split; [|done]. by rewrite (bind_eq _ _ _ _ _ Ei). }
  destruct (pass_partition fuel pre L post a Hf Ha Hge)
    as (pm & arr & v & E1 & Lt & Gt & E2 & cnt & Epm & Esw & Ep & Hp & H1 & H2 & H3 & H4).
  pose proof (Permutation_length Hp) as Hl. simpl in Hl. rewrite !length_app in Hl.
  rewrite (bind_eq _ _ _ _ _ Epm), (bind_eq _ _ _ _ _ Esw), (bind_eq _ _ _ _ _ Ep).
  unfold part_vars, part_arr. cbn [app length]. change (Z.of_nat 0) with 0. destruct (Z.eqb_spec cnt 0) as [_|_].
  - left. destruct (insertion_sort_spec fuel pre (v :: (E1 ++ Lt) ++ Gt ++ E2) post a) as (L' & Ei & Hp' & Hs);
      [simpl; rewrite !length_app; lia|done|].
    exists L'. split_and!; [|rewrite Hp'; by rewrite <- app_assoc|done].
    replace (len L) with (len (v :: (E1 ++ Lt) ++ Gt ++ E2)) by (simpl; rewrite !length_app; lia).
    replace (pre ++ v :: (E1 ++ Lt) ++ Gt ++ E2 ++ post) with (pre ++ (v :: (E1 ++ Lt) ++ Gt ++ E2) ++ post) by app_eq.
    by rewrite (bind_eq _ _ _ _ _ Ei).
  - right.
    destruct (pass_rearrange fuel pre v E1 Lt Gt E2 post a (a + 1 + len E1) (a + 1 + len E1 + len Lt)
      (a + len E1 + len Lt + 0) (a + len E1 + len Lt + 0 + len Gt) (a + len L))
      as (Lt' & M & Gt' & arr' & Ev & Ew & HLt & HM & HGt); [lia..|].
    exists v, Lt', M, Gt'. split_and!; [| | | | |rewrite HM; set_solver].
    + rewrite (bind_eq _ _ _ _ _ Ev), (bind_eq _ _ _ _ _ Ew). unfold pass_parts.
      apply Permutation_length in HLt, HM, HGt. rewrite length_app in HM. simpl in HM.
      replace (a + 1 + len E1 + len Lt - (a + 1 + len E1)) with (len Lt') by lia.
      replace (a + len E1 + len Lt + 0 + len Gt - (a + len E1 + len Lt + 0)) with (len Gt') by lia.
      replace (a + len L - len Gt') with (a + len Lt' + len M) by lia. by destruct (len Lt' <? len Gt').
    + rewrite HLt, HM, HGt. rewrite <- Hp. simpl. rewrite <- Permutation_middle. f_equiv.
      rewrite (Permutation_app_comm E1 (Lt ++ Gt ++ E2)), <- !app_assoc. f_equiv.
      by rewrite (app_assoc Gt E2 E1), (Permutation_app_comm (Gt ++ E2) E1), (Permutation_app_comm Gt E2), app_assoc.
    + by rewrite HLt. + by rewrite HGt.
    + rewrite HM. apply Forall_app. split; [constructor; [by left|]|];
        (eapply Forall_impl; [eassumption|]; intros; by right).
Qed.

(** ** The iteration and its parameter stack *)

(** Sorting of one range, and of several ranges one after the other. *)
Definition sorts (t : Z * Z) (arr arr' : list E) : Prop :=
  exists pre L L' post, arr = pre ++ L ++ post /\ arr' = pre ++ L' ++ post /\
    t = (len pre, len L) /\ L' ≡ₚ L /\ (cmp_order -> sorted L').

Fixpoint sorts_all (ts : list (Z * Z)) (arr arr' : list E) : Prop :=
  match ts with
  | [] => arr = arr'
  | t :: ts => exists mid, sorts t arr mid /\ sorts_all ts mid arr'
  end.

Definition in_range (arr : list E) (t : Z * Z) : Prop := 0 <= t.1 /\ 0 <= t.2 /\ t.1 + t.2 <= len arr.

Definition weight (ts : list (Z * Z)) : nat := sum_list_with (fun t => 2 * Z.to_nat t.2 + 1)%nat ts.

Lemma in_range_split arr t :
  in_range arr t -> exists pre L post, arr = pre ++ L ++ post /\ t = (len pre, len L).
Proof.
  destruct t as [a n]. intros (H1 & H2 & H3). simpl in *.
  destruct (list_split (Z.to_nat a) arr) as (pre & R & -> & Hp & HR); [lia|]. rewrite length_app in H3.
  destruct (list_split (Z.to_nat n) R) as (L & post & -> & HL & _); [lia|].
  exists pre, L, post. split; [done|]. tuple_eq.
Qed.

Lemma sorts_at pre L post arr' t :
  t = (len pre, len L) -> sorts t (pre ++ L ++ post) arr' ->
  exists L', arr' = pre ++ L' ++ post /\ L' ≡ₚ L /\ (cmp_order -> sorted L').
Proof.
  intros -> (pre1 & L1 & L' & post1 & E0 & -> & Ht & HL). injection Ht as H1 H2.
  apply app_inj_1 in E0 as [<- E0]; [|lia]. apply app_inj_1 in E0 as [<- <-]; [|lia]. by exists L'.
Qed.

Lemma sorts_length t arr arr' : sorts t arr arr' -> length arr' = length arr.
Proof.
  intros (pre & L & L' & post & -> & -> & _ & Hp%Permutation_length & _).
  rewrite !length_app. lia.
Qed.

Lemma in_range_sorts t u arr arr' : sorts t arr arr' -> in_range arr u -> in_range arr' u.
Proof. intros Hs. unfold in_range. by rewrite (sorts_length t arr arr' Hs). Qed.

Lemma sorts_small t arr : in_range arr t -> t.2 <= 1 -> sorts t arr arr.
Proof.
  intros Hr Hs. destruct (in_range_split arr t Hr) as (pre & L & post & -> & ->). simpl in Hs.
  exists pre, L, L, post. split_and!; try done. intros _. destruct L as [|x [|y L]]; [constructor| |simpl in Hs; lia].
  repeat constructor.
Qed.

(** Sorted parts around the elements equal to the pivot. *)
Lemma sorted_parts v Lt M Gt :
  cmp_order -> sorted Lt -> sorted Gt -> Forall (ltv v) Lt -> Forall (gtv v) Gt ->
  Forall (fun x => x = v \/ eqv v x) M -> sorted (Lt ++ M ++ Gt).
Proof.
  intros Ho H1 H2 Hl Hg Hm. rewrite Forall_forall in Hl, Hg, Hm.
  assert (cmp v v = 0) as Hv by (pose proof (cmp_sym Ho v v); lia).
  assert (forall x, x ∈ Lt ++ M -> le_cmp x v) as Hle.
  { intros x [Hx%Hl|[->|Hx]%Hm]%elem_of_app; unfold ltv, eqv, le_cmp in *; lia. }
  assert (forall x, x ∈ M ++ Gt -> le_cmp v x) as Hge.
  { intros x [[->|Hx]%Hm|Hx%Hg]%elem_of_app; unfold gtv, eqv, le_cmp in *; [lia| |by apply cmp_gt_le].
    pose proof (cmp_sym Ho x v). pose proof (cmp_sym Ho v x). lia. }
  assert (forall x y, x ∈ Lt ++ M -> y ∈ M ++ Gt -> le_cmp x y) as Hxy.
  { intros x y Hx%Hle Hy%Hge. by eapply (cmp_trans Ho). }
  apply StronglySorted_app_2; [set_solver|done|]. apply StronglySorted_app_2; [set_solver| |done].
  assert (forall x y, x ∈ M -> y ∈ M -> le_cmp x y) as Hmm by set_solver. clear -Hmm.
  induction M as [|x M IH]; [constructor|]. apply StronglySorted_cons. split; [|set_solver].
  apply Forall_forall. set_solver.
Qed.

Lemma sorts_parts v Lt M Gt pre L post a A N pa r arr1 mid arr2 :
  arr1 = pre ++ (Lt ++ M ++ Gt) ++ post -> a = len pre -> pass_parts a Lt M Gt = (A, N, pa, r) ->
  Lt ++ M ++ Gt ≡ₚ L -> Forall (ltv v) Lt -> Forall (gtv v) Gt -> Forall (fun x => x = v \/ eqv v x) M ->
  sorts (pa, r) arr1 mid -> sorts (A, N) mid arr2 -> sorts (a, len L) (pre ++ L ++ post) arr2.
Proof.
  intros -> -> Hparts Hp Hl Hg Hm Hs1 Hs2.
  assert (exists Lt' Gt', arr2 = pre ++ (Lt' ++ M ++ Gt') ++ post /\ Lt' ≡ₚ Lt /\ Gt' ≡ₚ Gt /\
    (cmp_order -> sorted Lt') /\ (cmp_order -> sorted Gt')) as (Lt' & Gt' & -> & HLt & HGt & Hs3 & Hs4).
  { assert (forall Lt Gt, pre ++ (Lt ++ M ++ Gt) ++ post = (pre ++ Lt ++ M) ++ Gt ++ post) as Eg by (intros; app_eq).
    assert (forall Lt Gt, pre ++ (Lt ++ M ++ Gt) ++ post = pre ++ Lt ++ (M ++ Gt ++ post)) as El by (intros; app_eq).
    unfold pass_parts in Hparts. destruct (len Lt <? len Gt); injection Hparts as <- <- <- <-.
    - rewrite El in Hs1. apply sorts_at in Hs1 as (Lt' & -> & HLt & Hs3); [|done].
      rewrite <- El, Eg in Hs2. apply sorts_at in Hs2 as (Gt' & -> & HGt & Hs4).
      2: { apply Permutation_length in HLt. rewrite !length_app. tuple_eq. }
      exists Lt', Gt'. by rewrite Eg.
    - rewrite Eg in Hs1. apply sorts_at in Hs1 as (Gt' & -> & HGt & Hs3); [|rewrite !length_app; tuple_eq].
      rewrite <- Eg, El in Hs2. apply sorts_at in Hs2 as (Lt' & -> & HLt & Hs4); [|done].
      exists Lt', Gt'. by rewrite El. }
  exists pre, L, (Lt' ++ M ++ Gt'), post. split_and!; try done; [by rewrite HLt, HGt|].
  intros Ho. apply (sorted_parts v); try done; auto; by rewrite ?HLt, ?HGt.
Qed.

Lemma pass_parts_range v pre L post Lt M Gt A N pa r :
  pass_parts (len pre) Lt M Gt = (A, N, pa, r) -> Lt ++ M ++ Gt ≡ₚ L -> v ∈ M ->
  in_range (pre ++ (Lt ++ M ++ Gt) ++ post) (A, N) /\ in_range (pre ++ (Lt ++ M ++ Gt) ++ post) (pa, r) /\
  0 <= N /\ 0 <= r /\ N + r < len L.
Proof.
  intros Hparts Hp Hv. apply Permutation_length in Hp. rewrite !length_app in Hp.
  assert (M <> []) as Hm by (intros ->; set_solver). destruct M as [|x M]; [done|]. simpl in Hp.
  unfold in_range. rewrite !length_app. simpl.
  unfold pass_parts in Hparts. destruct (len Lt <? len Gt); injection Hparts as <- <- <- <-; simpl; lia.
Qed.

Lemma weight_cons t ts : weight (t :: ts) = (2 * Z.to_nat t.2 + 1 + weight ts)%nat.
Proof. done. Qed.

(** The iteration with its stack sorts the current range, then the stacked
    ones from the top. *)
Definition loop_ok (fuel : nat) : Prop := forall a n st arr,
  (weight ((a, n) :: st) < fuel)%nat -> Forall (in_range arr) ((a, n) :: st) ->
  exists arr', qsort_loop cmp fuel a n st arr = Some (tt, arr') /\ sorts_all ((a, n) :: st) arr arr'.

Definition qsort_pop (f : nat) (st : list (Z * Z)) : C (list E) unit :=
  match st with [] => ret tt | (a, n) :: st' => qsort_loop cmp f a n st' end.

Lemma qsort_pop_ok f st arr :
  loop_ok f -> (weight st < f)%nat -> Forall (in_range arr) st ->
  exists arr', qsort_pop f st arr = Some (tt, arr') /\ sorts_all st arr arr'.
Proof. intros IH Hw H1. destruct st as [|[a n] st']; [by exists arr|]. by apply IH. Qed.

Lemma qsort_larger_ok f a n st arr :
  loop_ok f -> (weight ((a, n) :: st) < f)%nat -> Forall (in_range arr) ((a, n) :: st) ->
  exists arr', (if 1 <? n then qsort_loop cmp f a n st else qsort_pop f st) arr = Some (tt, arr') /\
    sorts_all ((a, n) :: st) arr arr'.
Proof.
  intros IH Hw Hr. case_bool; [by apply IH|]. apply Forall_cons in Hr as [Hr Hst].
  rewrite weight_cons in Hw. destruct (qsort_pop_ok f st arr) as (arr' & E0 & Hs); [done|lia|done|].
  exists arr'. split; [done|]. exists arr. split; [by apply sorts_small|done].
Qed.

Lemma in_range_all t st arr arr' : sorts t arr arr' -> Forall (in_range arr) st -> Forall (in_range arr') st.
Proof. intros Hs Hst. eapply Forall_impl; [exact Hst|]. intros u. by eapply in_range_sorts. Qed.

Lemma qsort_loop_spec : forall fuel, loop_ok fuel.
Proof.
  induction fuel as [|f IH]; intros a n st arr Hw Hr; [lia|].
  apply Forall_cons in Hr as [Hr Hst]. rewrite weight_cons in Hw. simpl in Hw.
  destruct (in_range_split arr (a, n) Hr) as (pre & L & post & -> & [= -> ->]). rewrite Nat2Z.id in Hw.
  simpl qsort_loop. fold (qsort_pop f st).
  destruct (qsort_pass_spec (S f) pre L post (len pre)) as [(L' & Ep & Hp & Hs)|(v & Lt & M & Gt & Ep & Hp & Hl & Hg & Hm & Hv)];
    [lia|done| |]; rewrite (bind_eq _ _ _ _ _ Ep).
  - assert (sorts (len pre, len L) (pre ++ L ++ post) (pre ++ L' ++ post)) as Hsort by (exists pre, L, L', post; done).
    destruct (qsort_pop_ok f st (pre ++ L' ++ post)) as (arr' & E0 & Ha); [done|lia|by eapply in_range_all|].
    exists arr'. split; [exact E0|]. by exists (pre ++ L' ++ post).
  - destruct (pass_parts (len pre) Lt M Gt) as [[[A N] pa] r] eqn:Hparts.
    destruct (pass_parts_range v pre L post Lt M Gt A N pa r Hparts Hp Hv) as (HA & Hpa & HN & Hr0 & HNr).
    assert (Forall (in_range (pre ++ (Lt ++ M ++ Gt) ++ post)) st) as Hst1.
    { eapply Forall_impl; [exact Hst|]. intros u. apply Permutation_length in Hp. unfold in_range.
      by rewrite !(length_app pre), !(length_app _ post), Hp. }
    enough (exists arr', (if 1 <? r
        then if (length st <? PARAMETER_STACK_LEVELS)%nat then qsort_loop cmp f pa r ((A, N) :: st)
             else run qsort_loop cmp f pa r []; (if 1 <? N then qsort_loop cmp f A N st else qsort_pop f st)
        else if 1 <? N then qsort_loop cmp f A N st else qsort_pop f st)
        (pre ++ (Lt ++ M ++ Gt) ++ post) = Some (tt, arr') /\
      sorts_all ((pa, r) :: (A, N) :: st) (pre ++ (Lt ++ M ++ Gt) ++ post) arr')
      as (arr' & E0 & mid & Hs1 & mid' & Hs2 & Hs3).
    { exists arr'. split; [exact E0|]. exists mid'. split; [|done]. by eapply sorts_parts. }
    destruct (Z.ltb_spec 1 r) as [Hr1|Hr1].
    + destruct (Nat.ltb_spec (length st) PARAMETER_STACK_LEVELS) as [_|_].
      * apply IH; [rewrite !weight_cons; simpl; lia|]. by rewrite !Forall_cons.
      * destruct (IH pa r [] (pre ++ (Lt ++ M ++ Gt) ++ post)) as (arr2 & E2 & mid & Hs1 & <-);
          [rewrite weight_cons; simpl; lia|by rewrite Forall_cons|].
        destruct (qsort_larger_ok f A N st mid) as (arr' & E3 & Hs2);
          [done|rewrite weight_cons; simpl; lia|eapply in_range_all; [exact Hs1|by constructor]|].
        exists arr'. rewrite (bind_eq _ _ _ _ _ E2). split; [exact E3|]. by exists mid.
    + destruct (qsort_larger_ok f A N st (pre ++ (Lt ++ M ++ Gt) ++ post)) as (arr' & E3 & Hs2);
        [done|rewrite weight_cons; simpl; lia|by constructor|].
      exists arr'. split; [exact E3|]. exists (pre ++ (Lt ++ M ++ Gt) ++ post).
      split; [by apply sorts_small|done].
Qed.

(** Any comparison function: the sort ends, stays inside the array and
    permutes it; with an order, the result is sorted. *)
Lemma qsort_spec fuel L :
  (2 * length L + 1 < fuel)%nat ->
  exists L', qsort cmp fuel (len L) L = Some (tt, L') /\ L' ≡ₚ L /\ (cmp_order -> sorted L').
Proof.
  intros Hf. unfold qsort.
  destruct (qsort_loop_spec fuel 0 (len L) [] L) as (L' & E0 & mid & Hs & <-).
  { rewrite weight_cons. simpl. lia. } { repeat constructor; simpl; lia. }
  exists mid. split; [done|].
  destruct (sorts_at [] L [] mid (0, len L)) as (L' & -> & HL); [done|by rewrite app_nil_r|].
  by rewrite app_nil_r.
Qed.
End qsort_proof.

(** ** The exchange of blocks of bytes *)

Section swapfunc_proof.
Context `{Arch}.

Lemma load_unit_at k p l m :
  p mod k = 0 -> k = Z.of_nat (length l) -> bytes_at m p l -> load_unit k p m = Some (l, m).
Proof.
  intros Hp -> Hl. unfold load_unit. rewrite (proj2 (Z.eqb_eq _ _) Hp), Nat2Z.id. by apply load_bytes_at.
Qed.

Lemma store_unit_at k p l m :
  p mod k = 0 -> k = Z.of_nat (length l) -> mapped m p k -> Forall is_byte l ->
  store_unit k p l m = Some (tt, put_bytes m p l).
Proof.
  intros Hp -> Hm Hl. unfold store_unit. rewrite (proj2 (Z.eqb_eq _ _) Hp). by apply store_bytes_at.
Qed.

(** Two blocks that may be exchanged: the same one or apart. *)
Definition swappable (a b n : Z) : Prop := a = b \/ disjoint_blk a n b n.

Lemma swap_unit k a b la lb m {R} (f : C mem R) :
  a mod k = 0 -> b mod k = 0 -> k = Z.of_nat (length la) -> k = Z.of_nat (length lb) ->
  bytes_at m a la -> bytes_at m b lb -> mem_ok m ->
  (do t <- load_unit k a; do u <- load_unit k b; run store_unit k a u; run store_unit k b t; f) m =
  f (put_bytes (put_bytes m a lb) b la).
Proof.
  intros Ha Hb Hla Hlb Hma Hmb Hok.
  pose proof (bytes_at_bytes m a la Hok Hma). pose proof (bytes_at_bytes m b lb Hok Hmb).
  rewrite (bind_eq _ _ _ _ _ (load_unit_at k a la m Ha Hla Hma)).
  rewrite (bind_eq _ _ _ _ _ (load_unit_at k b lb m Hb Hlb Hmb)).
  erewrite bind_eq; [|apply store_unit_at; try done; rewrite Hla; by apply bytes_at_mapped].
  erewrite bind_eq; [reflexivity|]. apply store_unit_at; try done.
  rewrite Hlb. by apply put_bytes_mapped, bytes_at_mapped.
Qed.

(** The [do] loop, unit by unit. *)
Lemma swapcode_loop k q : forall fuel a b la lb m,
  0 < k -> (q < fuel)%nat -> Z.of_nat q < 2 ^ long_bits - 1 ->
  a mod k = 0 -> b mod k = 0 ->
  Z.of_nat (length la) = Z.of_nat (S q) * k -> length lb = length la ->
  swappable a b (Z.of_nat (length la)) -> bytes_at m a la -> bytes_at m b lb -> mem_ok m ->
  swapcode fuel k a b (Z.of_nat (length la)) m = Some (tt, put_bytes (put_bytes m a lb) b la).
Proof.
  induction q as [|q IH]; intros [|f] a b la lb m Hk Hf Hq Ha Hb Hla Hlb Hs Hma Hmb Hok; try lia.
  - unfold swapcode. rewrite Hla, Z.div_mul by lia. erewrite loop_stop; [done|].
    rewrite (swap_unit k a b la lb m) by (done || lia).
    change (Z.of_nat 1 - 1) with 0. by rewrite uwrap_small by lia.
  - unfold swapcode in *. rewrite Hla, Z.div_mul by lia.
    destruct (list_split (Z.to_nat k) la) as (u & la' & -> & Hu & Hla'); [lia|].
    destruct (list_split (Z.to_nat k) lb) as (w & lb' & -> & Hw & Hlb'); [lia|].
    rewrite !length_app in *. apply bytes_at_app in Hma as [Hua Hma], Hmb as [Hub Hmb].
    assert (Z.of_nat (length u) = k /\ Z.of_nat (length w) = k) as [Eu Ew] by lia.
    rewrite Eu in Hma. rewrite Ew in Hmb.
    erewrite loop_go.
    2: { rewrite (swap_unit k a b u w m) by (done || lia).
         rewrite uwrap_small by lia. rewrite (proj2 (Z.ltb_lt _ _)) by lia. reflexivity. }
    pose proof (bytes_at_bytes m a u Hok Hua). pose proof (bytes_at_bytes m b w Hok Hub).
    assert (forall x l, bytes_at m x l -> disjoint_blk a k x (Z.of_nat (length l)) ->
      disjoint_blk b k x (Z.of_nat (length l)) -> bytes_at (put_bytes (put_bytes m a w) b u) x l) as Hkeep.
    { intros x l Hx Hd1 Hd2. apply bytes_at_put_disjoint; [by rewrite Eu|].
      apply bytes_at_put_disjoint; [by rewrite Ew|done]. }
    specialize (IH f (a + k) (b + k) la' lb' (put_bytes (put_bytes m a w) b u)).
    rewrite !put_bytes_app. rewrite Ew, Eu.
    rewrite (put_bytes_comm (put_bytes m a w) (a + k) lb' b u).
    2: { unfold swappable, disjoint_blk in *. lia. }
    rewrite <- IH; try done; try lia.
    + replace (Z.of_nat (length la')) with (Z.of_nat (S q) * k) by lia. rewrite Z.div_mul by lia.
      f_equal. tuple_eq.
    + rewrite <- Z.add_mod_idemp_l, Ha, Z.add_0_l by lia. apply Z_mod_same_full.
    + rewrite <- Z.add_mod_idemp_l, Hb, Z.add_0_l by lia. apply Z_mod_same_full.
    + unfold swappable, disjoint_blk in *. lia.
    + apply Hkeep; [done|..]; unfold swappable, disjoint_blk in *; lia.
    + apply Hkeep; [done|..]; unfold swappable, disjoint_blk in *; lia.
    + by do 2 (apply put_bytes_ok; [|done]).
Qed.

Lemma swapcode_spec k fuel a b la lb m :
  0 < k -> (length la <= fuel)%nat -> Z.of_nat (length la) < 2 ^ long_bits -> (0 < length la)%nat ->
  a mod k = 0 -> b mod k = 0 -> Z.of_nat (length la) mod k = 0 -> length lb = length la ->
  swappable a b (Z.of_nat (length la)) -> bytes_at m a la -> bytes_at m b lb -> mem_ok m ->
  swapcode fuel k a b (Z.of_nat (length la)) m = Some (tt, put_bytes (put_bytes m a lb) b la).
Proof.
  intros Hk Hf Hr Hpos Ha Hb Hn Hlb Hs Hma Hmb Hok.
  apply Z_div_exact_full_2 in Hn; [|lia].
  assert (0 < Z.of_nat (length la) / k <= Z.of_nat (length la)) as Hq by nia.
  apply (swapcode_loop k (Z.to_nat (Z.of_nat (length la) / k - 1))); try done; lia || nia.
Qed.

Lemma SWAPINIT_unit k base es i :
  0 < k -> SWAPINIT k base es <= 1 -> (base + i * es) mod k = 0 /\ (i * es) mod k = 0.
Proof.
  unfold SWAPINIT. intros Hk.
  destruct (Z.eqb_spec (base mod k) 0) as [Hb|]; [|simpl; lia].
  destruct (Z.eqb_spec (es mod k) 0) as [He|]; [|simpl; lia]. intros _.
  assert ((i * es) mod k = 0) as Hi by (rewrite Z.mul_mod, He, Z.mul_0_r by lia; by apply Z.mod_0_l; lia).
  split; [|done]. by rewrite Z.add_mod, Hb, Hi by lia.
Qed.

Lemma SWAPINIT_word k base es : SWAPINIT k base es = 0 -> es = k.
Proof.
  unfold SWAPINIT. destruct (_ || _); [done|]. by destruct (Z.eqb_spec es k).
Qed.

(** The exchange of two runs of elements of the array at [base]: every unit
    that is chosen is aligned for its type, and the runs change places. *)
Lemma swapfunc_spec fuel base es i j la lb m :
  (length la <= fuel)%nat -> Z.of_nat (length la) < 2 ^ long_bits -> (0 < length la)%nat ->
  (exists q, Z.of_nat (length la) = q * es) -> length lb = length la ->
  swappable (base + i * es) (base + j * es) (Z.of_nat (length la)) ->
  bytes_at m (base + i * es) la -> bytes_at m (base + j * es) lb -> mem_ok m ->
  swapfunc fuel (base + i * es) (base + j * es) (Z.of_nat (length la))
    (SWAPINIT sizeof_ulong base es) (SWAPINIT sizeof_uint base es) m =
  Some (tt, put_bytes (put_bytes m (base + i * es) lb) (base + j * es) la).
Proof.
  intros Hf Hr Hpos [q Hq] Hlb Hs Hma Hmb Hok. pose proof long_size_pos as Hl. unfold swapfunc.
  assert (forall k, 0 < k -> SWAPINIT k base es <= 1 \/ k = 1 ->
    swapcode fuel k (base + i * es) (base + j * es) (Z.of_nat (length la)) m =
    Some (tt, put_bytes (put_bytes m (base + i * es) lb) (base + j * es) la)) as Hk.
  { intros k Hk Hinit. apply swapcode_spec; try done; rewrite ?Hq;
      (destruct Hinit as [Hi| ->]; [by eapply SWAPINIT_unit|by rewrite Z.mod_1_r]). }
  case_bool; [apply Hk; [unfold sizeof_ulong; lia|by left]|].
  destruct (negb _); simpl; [case_bool|]; apply Hk; (unfold sizeof_uint; lia) || auto.
Qed.

Lemma swap_bytes_spec fuel base es i j la lb m :
  (length la <= fuel)%nat -> 0 < es < 2 ^ long_bits -> Z.of_nat (length la) = es -> length lb = length la ->
  swappable (base + i * es) (base + j * es) es ->
  bytes_at m (base + i * es) la -> bytes_at m (base + j * es) lb -> mem_ok m ->
  swap_bytes fuel (base + i * es) (base + j * es) es
    (SWAPINIT sizeof_ulong base es) (SWAPINIT sizeof_uint base es) m =
  Some (tt, put_bytes (put_bytes m (base + i * es) lb) (base + j * es) la).
Proof.
  intros Hf Hes Hla Hlb Hs Hma Hmb Hok. pose proof long_size_pos as Hl. unfold swap_bytes.
  pose proof (bytes_at_bytes m _ la Hok Hma). pose proof (bytes_at_bytes m _ lb Hok Hmb).
  assert (forall k, 0 < k -> SWAPINIT k base es = 0 ->
    (do t <- load_unit k (base + i * es); do u <- load_unit k (base + j * es);
     run store_unit k (base + i * es) u; store_unit k (base + j * es) t) m =
    Some (tt, put_bytes (put_bytes m (base + i * es) lb) (base + j * es) la)) as Hk.
  { intros k Hk Hi. pose proof (SWAPINIT_word k base es Hi). subst k.
    destruct (SWAPINIT_unit es base es i) as [Ai _]; [lia..|].
    destruct (SWAPINIT_unit es base es j) as [Aj _]; [lia..|].
    rewrite (bind_eq _ _ _ _ _ (load_unit_at es _ la m Ai (eq_sym Hla) Hma)).
    rewrite (bind_eq _ _ _ _ _ (load_unit_at es _ lb m Aj ltac:(lia) Hmb)).
    pose proof (bytes_at_mapped m _ la Hma) as Mi. pose proof (bytes_at_mapped m _ lb Hmb) as Mj.
    rewrite Hla in Mi. rewrite Hlb, Hla in Mj.
    erewrite bind_eq; [|apply store_unit_at; try done; lia].
    apply store_unit_at; try done. by apply put_bytes_mapped. }
  case_bool; [apply Hk; [unfold sizeof_ulong; lia|done]|].
  assert (swapfunc fuel (base + i * es) (base + j * es) es
    (SWAPINIT sizeof_ulong base es) (SWAPINIT sizeof_uint base es) m =
    Some (tt, put_bytes (put_bytes m (base + i * es) lb) (base + j * es) la)) as Hfn.
  { rewrite <- Hla at 3. apply swapfunc_spec; try done; try lia; [|by rewrite Hla]. exists 1. lia. }
  destruct (negb _); simpl; [case_bool|]; [apply Hk; [unfold sizeof_uint; lia|done]|exact Hfn..].
Qed.
End swapfunc_proof.

(** ** Binary search *)

Section bsearch_proof.
Context `{Arch} {E : Type} (compar : E -> Z) (L : list E).

Abbreviation len := (Z.of_nat (length L)).

(** The elements are ordered for the key: those it is above come first. *)
Definition key_ordered : Prop :=
  forall i j x y, (i <= j)%nat -> L !! i = Some x -> L !! j = Some y ->
    (compar x < 0 -> compar y < 0) /\ (0 < compar y -> 0 < compar x).

Definition bsearch_body : Z * Z -> C (list E) ((Z * Z) + option Z) := fun '(lower, upper) =>
  if lower <? upper then
    let index := uwrap long_bits (lower + upper) / 2 in
    do current <- elt index;
    let result := compar current in
    if result <? 0 then ret (inl (lower, index))
    else if 0 <? result then ret (inl (index + 1, upper))
    else ret (inr (Some index))
  else ret (inr None).

Definition found (r : option Z) (lower upper : Z) : Prop :=
  match r with
  | Some i => lower <= i < upper /\ exists x, L !! Z.to_nat i = Some x /\ compar x = 0
  | None => key_ordered -> forall i x, lower <= i < upper -> L !! Z.to_nat i = Some x -> compar x <> 0
  end.

Lemma bsearch_loop : forall fuel (w : nat) lower upper,
  0 <= lower <= upper -> upper <= len -> 2 * len <= 2 ^ long_bits ->
  upper - lower < 2 ^ Z.of_nat w -> (w < fuel)%nat ->
  exists r, loop bsearch_body fuel (lower, upper) L = Some (r, L) /\ found r lower upper.
Proof.
  induction fuel as [|f IH]; intros w lower upper Hlu Hu Hlen Hw Hf; [lia|].
  rewrite loop_S. unfold bsearch_body at 1. destruct (Z.ltb_spec lower upper) as [Hlt|Hge].
  2: { exists None. split; [done|]. intros _ i x Hi. lia. }
  rewrite uwrap_small by lia.
  assert (lower <= (lower + upper) / 2 < upper) as Hidx by (split; [apply Z.div_le_lower_bound|apply Z.div_lt_upper_bound]; lia).
  assert (2 * ((lower + upper) / 2) <= lower + upper <= 2 * ((lower + upper) / 2) + 1) as Hmid
    by (pose proof (Z_div_mod_eq_full (lower + upper) 2); pose proof (Z.mod_pos_bound (lower + upper) 2); lia).
  set (index := (lower + upper) / 2) in *.
  destruct w as [|w]; [simpl in Hw; lia|]. rewrite Nat2Z.inj_succ, Z.pow_succ_r in Hw by lia.
  destruct (elt_in L index) as [x Ex]; [lia|].
  assert (L !! Z.to_nat index = Some x) as Hx.
  { unfold elt in Ex. destruct (index <? 0); [done|]. by destruct (L !! Z.to_nat index); simplify_eq. }
  rewrite (bind_eq _ _ _ _ _ Ex). cbv zeta.
  destruct (Z.ltb_spec (compar x) 0) as [Hneg|Hnneg]; [|destruct (Z.ltb_spec 0 (compar x)) as [Hpos|Hzero]].
  - destruct (IH w lower index) as (r & Er & Hr); [lia..|]. exists r. split; [exact Er|].
    destruct r as [i|]; simpl in *; [destruct Hr as [? ?]; split; [lia|done]|].
    intros Ho i y Hi Hy. destruct (Z.lt_ge_cases i index); [apply (Hr Ho i); [lia|done]|].
    destruct (Ho (Z.to_nat index) (Z.to_nat i) x y) as [Hlow _]; [lia|done|done|]. specialize (Hlow Hneg). lia.
  - destruct (IH w (index + 1) upper) as (r & Er & Hr); [lia..|]. exists r. split; [exact Er|].
    destruct r as [i|]; simpl in *; [destruct Hr as [? ?]; split; [lia|done]|].
    intros Ho i y Hi Hy. destruct (Z.lt_ge_cases index i); [apply (Hr Ho i); [lia|done]|].
    destruct (Ho (Z.to_nat i) (Z.to_nat index) y x) as [_ Hhigh]; [lia|done|done|]. specialize (Hhigh Hpos). lia.
  - exists (Some index). split; [done|]. simpl. split; [lia|]. exists x. split; [done|lia].
Qed.

Lemma bsearch_spec fuel (w : nat) size :
  size <> 0 -> 2 * len <= 2 ^ long_bits -> len < 2 ^ Z.of_nat w -> (w < fuel)%nat ->
  exists r, bsearch compar fuel len size L = Some (r, L) /\ found r 0 len.
Proof.
  intros Hs Hl Hw Hf. unfold bsearch. rewrite (proj2 (Z.eqb_neq size 0) Hs).
  destruct (Z.eqb_spec len 0) as [H0|H0]; simpl.
  - exists None. split; [done|]. intros _ i x Hi. lia.
  - apply (bsearch_loop fuel w); lia.
Qed.
End bsearch_proof.
