(* ===== verification/SearchProps.v ===== *)
(** * Sorting and searching: what the functions guarantee

    The theorems on libc/search/qsort.c and bsearch.c. *)

From S2P Require Import Prelude CMem StrLocal StrMem StrStr Search Demo.
From stdpp Require Import base list gmap.
From Stdlib Require Import ZArith Lia.

Local Open Scope Z_scope.
#[local] Existing Instance LP64.

(** C16: for any comparison function whatever, [qsort] ends without leaving the
    array and leaves a permutation of it; if the function orders the elements
    the result is sorted.  The bound on the fuel, twice the length of the array,
    also bounds the passes and the recursion, however bad the pivots are. *)
Theorem qsort_correct {E : Type} (cmp : E -> E -> Z) (fuel : nat) (L : list E) :
  (2 * length L + 1 < fuel)%nat ->
  exists L', qsort cmp fuel (Z.of_nat (length L)) L = Some (tt, L') /\ L' ≡ₚ L /\ (cmp_order cmp -> sorted cmp L').
Proof. apply qsort_spec. Qed.

Lemma qsort_witness :
  exists L', qsort Z.sub 40 12 [5; 3; 9; 1; 5; 8; 2; 7; 7; 0; 4; 6] = Some (tt, L') /\
    L' ≡ₚ [5; 3; 9; 1; 5; 8; 2; 7; 7; 0; 4; 6] /\ (cmp_order Z.sub -> sorted Z.sub L').
Proof. apply (qsort_correct Z.sub 40 [5; 3; 9; 1; 5; 8; 2; 7; 7; 0; 4; 6]). simpl. lia. Defined.

(** [bsearch] returns within a number of steps logarithmic in the length of
    the array.  A result is the index of an element that matches the key; when it
    is [NULL] and the array is ordered for the key, no element matches. *)
Theorem bsearch_correct `{Arch} {E : Type} (compar : E -> Z) (L : list E) (fuel w : nat) (size : Z) :
  size <> 0 -> 2 * Z.of_nat (length L) <= 2 ^ long_bits -> Z.of_nat (length L) < 2 ^ Z.of_nat w -> (w < fuel)%nat ->
  exists r, bsearch compar fuel (Z.of_nat (length L)) size L = Some (r, L) /\
    match r with
    | Some i => exists x, 0 <= i /\ L !! Z.to_nat i = Some x /\ compar x = 0
    | None => key_ordered compar L -> Forall (fun x => compar x <> 0) L
    end.
Proof.
  intros Hs Hl Hw Hf. destruct (bsearch_spec compar L fuel w size Hs Hl Hw Hf) as (r & E0 & Hr).
  exists r. split; [done|]. destruct r as [i|].
  - destruct Hr as (Hi & x & Hx & Hc). exists x. split_and!; [lia|done..].
  - intros Ho. apply Forall_lookup. intros i x Hi. apply (Hr Ho (Z.of_nat i) x); [|by rewrite Nat2Z.id].
    apply lookup_lt_Some in Hi. lia.
Qed.

Lemma bsearch_witness :
  exists r, bsearch (Z.sub 7) 5 6 8 [1; 3; 4; 7; 9; 12] = Some (r, [1; 3; 4; 7; 9; 12]) /\
    match r with
    | Some i => exists x, 0 <= i /\ [1; 3; 4; 7; 9; 12] !! Z.to_nat i = Some x /\ 7 - x = 0
    | None => key_ordered (Z.sub 7) [1; 3; 4; 7; 9; 12] -> Forall (fun x => 7 - x <> 0) [1; 3; 4; 7; 9; 12]
    end.
Proof.
  apply (bsearch_correct (Z.sub 7) [1; 3; 4; 7; 9; 12] 5 3 8); [lia|vm_compute; congruence|vm_compute; reflexivity|lia].
Defined.

(** The exchange of two elements of [es] bytes of the array at [base], in
    the unit that SWAPINIT chose from the alignment of the array and the size of
    its elements, exchanges their bytes and nothing else: no access is
    misaligned and no byte is left over. *)
Theorem swap_correct `{Arch} (fuel : nat) (base es i j : Z) (la lb : list Z) (m : mem) :
  (length la <= fuel)%nat -> 0 < es < 2 ^ long_bits -> Z.of_nat (length la) = es -> length lb = length la ->
  swappable (base + i * es) (base + j * es) es ->
  bytes_at m (base + i * es) la -> bytes_at m (base + j * es) lb -> mem_ok m ->
  swap_bytes fuel (base + i * es) (base + j * es) es (SWAPINIT sizeof_ulong base es)
    (SWAPINIT sizeof_uint base es) m =
  Some (tt, put_bytes (put_bytes m (base + i * es) lb) (base + j * es) la).
Proof. apply swap_bytes_spec. Qed.

Lemma swap_witness :
  swap_bytes 5 66 67 1 (SWAPINIT sizeof_ulong 65 1) (SWAPINIT sizeof_uint 65 1) demo =
  Some (tt, put_bytes (put_bytes demo 66 [108]) 67 [101]).
Proof.
  apply (swap_correct 5 65 1 1 2 [101] [108] demo);
    [simpl; lia|vm_compute; split; congruence|reflexivity|reflexivity|right; left; lia|eval_mem..].
Defined.
