(* ===== verification/Tree.v ===== *)
(** * Search trees: libc/search/tsearch.c, tfind.c, tdelete.c, twalk.c, tdestroy.c

    The nodes are blocks of the allocator behind the interface of Alloc, three
    words each; a [node_t **] is the address of the root variable or of a link
    of a node.  The abstraction of the memory is a binary tree whose nodes carry
    their addresses, and what a client sees of it is the list of its nodes in
    order. *)

From S2P Require Import Prelude CMem StrLocal StrMem Malloc MallocList MallocHeap MallocSys Alloc Search.
From stdpp Require Import base list gmap sorting.
From Stdlib Require Import ZArith Lia.

Local Open Scope Z_scope.

(** ** The operations *)

Inductive VISIT := preorder | postorder | endorder | leaf.

Section tsearch.
Context {S : Type} `{Arch} `{AllocOps S}.
Variable compar : Z -> Z -> Z.
Variable fuel : nat.

(** The fields of a [node_t]: [key], [llink], [rlink]. *)
Definition key (n : Z) : Z := n.
Definition llink (n : Z) : Z := n + Z.of_nat long_size.
Definition rlink (n : Z) : Z := n + 2 * Z.of_nat long_size.
Definition sizeof_node_t : Z := 3 * Z.of_nat long_size.

(** [while ( *rootp != NULL)]: the node found, or the link that is NULL. *)
Definition tsearch_step (vkey rootp : Z) : C S (Z + (Z + Z)) :=
  do n <- load_ptr rootp;
  if n =? NULL then ret (inr (inr rootp))
  else
    do k <- load_ptr (key n);
    let r := compar vkey k in
    if r =? 0 then ret (inr (inl n))
    else ret (inl (if r <? 0 then llink n else rlink n)).

Definition tsearch (vkey vrootp : Z) : C S Z :=
  if vrootp =? NULL then ret NULL
  else
    do x <- loop (tsearch_step vkey) fuel vrootp;
    match x with
    | inl n => ret n
    | inr rootp =>
        do q <- op_malloc fuel sizeof_node_t;
        if q =? NULL then ret q
        else
          run store_ptr rootp q;
          run store_ptr (key q) vkey;
          run store_ptr (rlink q) NULL;
          run store_ptr (llink q) NULL;
          ret q
    end.

Definition tfind (vkey vrootp : Z) : C S Z :=
  if vrootp =? NULL then ret NULL
  else
    do x <- loop (tsearch_step vkey) fuel vrootp;
    match x with inl n => ret n | inr _ => ret NULL end.

(** The descent of tdelete: [p] is the node above the link [rootp]. *)
Definition tdelete_step (vkey : Z) (st : Z * Z) : C S (Z * Z + option (Z * Z)) :=
  let '(p, rootp) := st in
  do n <- load_ptr rootp;
  do k <- load_ptr (key n);
  let cmp := compar vkey k in
  if cmp =? 0 then ret (inr (Some (p, rootp)))
  else
    let p := n in
    let rootp := if cmp <? 0 then llink n else rlink n in
    do c <- load_ptr rootp;
    if c =? NULL then ret (inr None) else ret (inl (p, rootp)).

(** [for (q = r->llink; q->llink != NULL; q = r->llink) r = q;] *)
Definition successor_step (st : Z * Z) : C S (Z * Z + Z * Z) :=
  let '(q, r) := st in
  do ql <- load_ptr (llink q);
  if ql =? NULL then ret (inr (q, r))
  else
    let r := q in
    do q <- load_ptr (llink r);
    ret (inl (q, r)).

(** Steps D1 to D3: the node that takes the place of [*rootp]. *)
Definition replacement (rootp : Z) : C S Z :=
  do n <- load_ptr rootp;
  do r <- load_ptr (rlink n);
  do q <- load_ptr (llink n);
  if q =? NULL then ret r
  else if negb (r =? NULL) then
    do rl <- load_ptr (llink r);
    if rl =? NULL then run store_ptr (llink r) q; ret r
    else
      do '(q, r) <- loop successor_step fuel (rl, r);
      do qr <- load_ptr (rlink q);
      run store_ptr (llink r) qr;
      do n <- load_ptr rootp;
      do nl <- load_ptr (llink n);
      run store_ptr (llink q) nl;
      do n <- load_ptr rootp;
      do nr <- load_ptr (rlink n);
      run store_ptr (rlink q) nr;
      ret q
  else ret q.

Definition tdelete (vkey vrootp : Z) : C S Z :=
  if vrootp =? NULL then ret NULL
  else
    do p <- load_ptr vrootp;
    if p =? NULL then ret NULL
    else
      do x <- loop (tdelete_step vkey) fuel (p, vrootp);
      match x with
      | None => ret NULL
      | Some (p, rootp) =>
          do q <- replacement rootp;
          do n <- load_ptr rootp;
          run op_free fuel n;
          run store_ptr rootp q;
          ret p
      end.
End tsearch.

Section twalk.
Context {S : Type} `{Arch} `{AllocOps S}.

(** The recursion is bounded by [depth]. *)
Section walk.
Variable action : Z -> VISIT -> Z -> C S unit.

Fixpoint twalk_trecurse (depth : nat) (root level : Z) : C S unit :=
  match depth with
  | O => fault
  | Datatypes.S depth =>
      do l <- load_ptr (llink root);
      do r <- load_ptr (rlink root);
      if (l =? NULL) && (r =? NULL) then action root leaf level
      else
        run action root preorder level;
        do l <- load_ptr (llink root);
        run (if negb (l =? NULL) then do lv <- int_ (level + 1); twalk_trecurse depth l lv else ret tt);
        run action root postorder level;
        do r <- load_ptr (rlink root);
        run (if negb (r =? NULL) then do lv <- int_ (level + 1); twalk_trecurse depth r lv else ret tt);
        action root endorder level
  end.

End walk.

(** [action] is [None] for the null function pointer. *)
Definition twalk (action : option (Z -> VISIT -> Z -> C S unit)) (depth : nat) (vroot : Z) : C S unit :=
  match action with
  | Some action => if negb (vroot =? NULL) then twalk_trecurse action depth vroot 0 else ret tt
  | None => ret tt
  end.

Section destroy.
Variable free_action : Z -> C S unit.
Variable fuel : nat.

Fixpoint tdestroy_trecurse (depth : nat) (root : Z) : C S unit :=
  match depth with
  | O => fault
  | Datatypes.S depth =>
      do l <- load_ptr (llink root);
      run (if negb (l =? NULL) then do l <- load_ptr (llink root); tdestroy_trecurse depth l else ret tt);
      do r <- load_ptr (rlink root);
      run (if negb (r =? NULL) then do r <- load_ptr (rlink root); tdestroy_trecurse depth r else ret tt);
      do k <- load_ptr (key root);
      run free_action k;
      op_free fuel root
  end.

Definition tdestroy (depth : nat) (vrootp : Z) : C S unit :=
  if negb (vrootp =? NULL) then tdestroy_trecurse depth vrootp else ret tt.
End destroy.
End twalk.

(** ** Trees in memory *)

(** A node with its address and its key. *)
Inductive tree := Leaf | Node (l : tree) (p k : Z) (r : tree).

#[global] Instance tree_eq_dec : EqDecision tree.
Proof. solve_decision. Defined.

Fixpoint elems (t : tree) : list (Z * Z) :=
  match t with Leaf => [] | Node l p k r => elems l ++ (p, k) :: elems r end.

Definition addrs (t : tree) : list Z := (elems t).*1.
Definition keys (t : tree) : list Z := (elems t).*2.

Lemma node_addr l p k r : p ∈ addrs (Node l p k r).
Proof. apply list_elem_of_fmap. exists (p, k). split; [done|]. simpl. rewrite elem_of_app, elem_of_cons. auto. Qed.

Fixpoint height (t : tree) : nat :=
  match t with Leaf => 0%nat | Node l _ _ r => S (Nat.max (height l) (height r)) end.

(** A tree with a hole: the way up from the hole.  [Fr true] is a node whose
    left subtree has the hole, with its right subtree. *)
Inductive frame := Fr (left : bool) (p k : Z) (other : tree).

Definition node_of (left : bool) (t : tree) (p k : Z) (other : tree) : tree :=
  if left then Node t p k other else Node other p k t.

Fixpoint plug (c : list frame) (t : tree) : tree :=
  match c with [] => t | Fr d p k o :: c => plug c (node_of d t p k o) end.

Fixpoint before (c : list frame) : list (Z * Z) :=
  match c with
  | [] => []
  | Fr d p k o :: c => if d then before c else before c ++ elems o ++ [(p, k)]
  end.
Fixpoint after (c : list frame) : list (Z * Z) :=
  match c with
  | [] => []
  | Fr d p k o :: c => if d then (p, k) :: elems o ++ after c else after c
  end.

Lemma elems_plug c t : elems (plug c t) = before c ++ elems t ++ after c.
Proof.
  revert t. induction c as [|[[] p k o] c IH]; intros t; simpl.
  - by rewrite app_nil_r.
  - rewrite IH. simpl. app_eq.
  - rewrite IH. simpl. app_eq.
Qed.

Definition ctx_elems (c : list frame) : list (Z * Z) := before c ++ after c.

Lemma elem_of_ctx d p k o c e : e ∈ ctx_elems (Fr d p k o :: c) <-> e = (p, k) \/ e ∈ elems o \/ e ∈ ctx_elems c.
Proof. unfold ctx_elems. destruct d; simpl; set_solver. Qed.

Section shape.
Context `{Arch}.

Fixpoint reps (m : mem) (v : Z) (t : tree) : Prop :=
  match t with
  | Leaf => v = NULL
  | Node l p k r =>
      v = p /\ word_at m (key p) k /\
      exists vl vr, word_at m (llink p) vl /\ reps m vl l /\ word_at m (rlink p) vr /\ reps m vr r
  end.

Definition link (left : bool) (p : Z) : Z := if left then llink p else rlink p.

(** The link with the hole, from the link [root] of the whole tree. *)
Definition place (root : Z) (c : list frame) : Z :=
  match c with [] => root | Fr d p _ _ :: _ => link d p end.

Fixpoint ctx_reps (m : mem) (root : Z) (c : list frame) (v : Z) : Prop :=
  match c with
  | [] => word_at m root v
  | Fr d p k o :: c =>
      ctx_reps m root c p /\ word_at m (key p) k /\ word_at m (link d p) v /\
      exists vo, word_at m (link (negb d) p) vo /\ reps m vo o
  end.

Definition node_cells (p a : Z) : Prop := p <= a < p + sizeof_node_t.

(** The addresses the representation depends on. *)
Definition foot (es : list (Z * Z)) (a : Z) : Prop := exists p k, (p, k) ∈ es /\ node_cells p a.

Definition agree (D : Z -> Prop) (m m' : mem) : Prop := forall a, D a -> m' !! a = m !! a.

Lemma agree_sub (D D' : Z -> Prop) m m' : agree D' m m' -> (forall a, D a -> D' a) -> agree D m m'.
Proof. intros Ha Hs a Hd. by apply Ha, Hs. Qed.

Lemma word_agree D m m' p v : agree D m m' -> (forall a, word_cells p a -> D a) -> word_at m p v -> word_at m' p v.
Proof.
  intros Ha Hs (Hb & Hr). split; [|done]. intros i Hi. rewrite bytes_of_word_length in Hi.
  rewrite Ha; [apply Hb; by rewrite bytes_of_word_length|]. apply Hs. unfold word_cells. lia.
Qed.

Lemma key_cells p a : word_cells (key p) a -> node_cells p a.
Proof. unfold word_cells, node_cells, key, sizeof_node_t. lia. Qed.

Lemma link_cells d p a : word_cells (link d p) a -> node_cells p a.
Proof. unfold word_cells, node_cells, link, llink, rlink, sizeof_node_t. destruct d; lia. Qed.

Lemma reps_node m v d t p k o :
  reps m v (node_of d t p k o) <->
  v = p /\ word_at m (key p) k /\
  exists vt vo, word_at m (link d p) vt /\ reps m vt t /\ word_at m (link (negb d) p) vo /\ reps m vo o.
Proof. destruct d; simpl; naive_solver. Qed.

Lemma foot_sub (es es' : list (Z * Z)) D m m' :
  agree (fun a => D a \/ foot es' a) m m' -> (forall e, e ∈ es -> e ∈ es') -> agree (foot es) m m'.
Proof. intros Ha Hs a (q & j & Hq & Hc). apply Ha. right. exists q, j. auto. Qed.

Lemma reps_agree m m' v t : reps m v t -> agree (foot (elems t)) m m' -> reps m' v t.
Proof.
  revert v. induction t as [|l IHl p k r IHr]; intros v; simpl; [done|].
  intros (-> & Hk & vl & vr & Wl & Hl & Wr & Hr) Ha.
  assert (agree (node_cells p) m m') as Hn.
  { eapply agree_sub; [exact Ha|]. intros a Hc. exists p, k. split; [set_solver|done]. }
  assert (agree (fun a => False \/ foot (elems l ++ (p, k) :: elems r) a) m m') as Ha'.
  { eapply agree_sub; [exact Ha|]. tauto. }
  split; [done|]. split; [by eapply word_agree; [|apply key_cells|]|].
  exists vl, vr. split_and!.
  - by eapply word_agree; [|apply (link_cells true)|].
  - apply IHl; [done|]. eapply foot_sub; [exact Ha'|]. set_solver.
  - by eapply word_agree; [|apply (link_cells false)|].
  - apply IHr; [done|]. eapply foot_sub; [exact Ha'|]. set_solver.
Qed.

Lemma ctx_agree m m' root c v :
  ctx_reps m root c v -> agree (fun a => word_cells root a \/ foot (ctx_elems c) a) m m' -> ctx_reps m' root c v.
Proof.
  revert v. induction c as [|[d p k o] c IH]; intros v; simpl.
  - intros Hw Ha. eapply word_agree; [exact Ha|intros; by left|done].
  - intros (Hc & Hk & Hl & vo & Hr & Ht) Ha.
    assert (agree (node_cells p) m m') as Hn.
    { eapply agree_sub; [exact Ha|]. intros a Hx. right. exists p, k. rewrite elem_of_ctx. auto. }
    split_and!; [|by eapply word_agree; [|apply key_cells|]|by eapply word_agree; [|apply (link_cells d)|]|].
    + apply IH; [done|]. eapply agree_sub; [exact Ha|]. intros a [Hx|(q & j & Hq & Hx)]; [by left|right].
      exists q, j. rewrite elem_of_ctx. auto.
    + exists vo. split; [by eapply word_agree; [|apply (link_cells (negb d))|]|].
      eapply reps_agree; [done|]. eapply foot_sub; [exact Ha|]. intros e He. rewrite elem_of_ctx. auto.
Qed.

Lemma ctx_place m root c v : ctx_reps m root c v -> word_at m (place root c) v.
Proof. destruct c as [|[d p k o] c]; simpl; [done|]. by intros (_ & _ & Hv & _). Qed.

Lemma plug_reps m root c t :
  (exists v, word_at m root v /\ reps m v (plug c t)) <-> exists v, ctx_reps m root c v /\ reps m v t.
Proof.
  revert t. induction c as [|[d p k o] c IH]; intros t; simpl; [done|]. rewrite IH. split.
  - intros (v & Hc & (-> & Hk & vt & vo & W1 & R1 & W2 & R2)%reps_node). exists vt. split_and!; try done. by exists vo.
  - intros (v & (Hc & Hk & Hv & vo & W & R) & Ht). exists p. split; [done|]. apply reps_node. split_and!; try done.
    by exists v, vo.
Qed.

(** A store to the hole's link: the rest of the context is as it was. *)
Lemma ctx_set m m' root c v v' :
  ctx_reps m root c v -> word_at m' (place root c) v' -> NoDup (ctx_elems c).*1 ->
  (forall p a, p ∈ (ctx_elems c).*1 -> node_cells p a -> ~ word_cells root a) ->
  (forall p q a, p ∈ (ctx_elems c).*1 -> q ∈ (ctx_elems c).*1 -> node_cells p a -> node_cells q a -> p = q) ->
  agree (fun a => (word_cells root a \/ foot (ctx_elems c) a) /\ ~ word_cells (place root c) a) m m' ->
  ctx_reps m' root c v'.
Proof.
  destruct c as [|[d p k o] c]; simpl; [done|]. intros (Hc & Hk & Hv & vo & Wo & Ro) Hw Hnd Hr Hap Ha.
  assert (p ∉ (ctx_elems c).*1 /\ p ∉ (elems o).*1) as [Hpc Hpo].
  { unfold ctx_elems in *. destruct d; simpl in Hnd; rewrite ?fmap_app, ?fmap_cons, ?NoDup_app, ?NoDup_cons in Hnd;
      rewrite ?fmap_app; set_solver. }
  assert (forall q, q ∈ (ctx_elems c).*1 \/ q ∈ (elems o).*1 -> q ∈ (ctx_elems (Fr d p k o :: c)).*1) as Hin.
  { intros q. rewrite !list_elem_of_fmap. intros [(e & -> & He)|(e & -> & He)]; exists e; rewrite elem_of_ctx; auto. }
  assert (p ∈ (ctx_elems (Fr d p k o :: c)).*1) as Hp.
  { apply list_elem_of_fmap. exists (p, k). rewrite elem_of_ctx. auto. }
  assert (forall q j, (q, j) ∈ ctx_elems c \/ (q, j) ∈ elems o -> forall a, node_cells q a -> ~ node_cells p a) as Hsep.
  { intros q j Hq a Hqa Hpa. assert (q = p) as ->.
    { apply (Hap q p a); try done. apply Hin. destruct Hq as [Hq|Hq]; [left|right]; apply list_elem_of_fmap; by exists (q, j). }
    destruct Hq as [Hq|Hq]; [apply Hpc|apply Hpo]; apply list_elem_of_fmap; by exists (p, j). }
  split_and!; [|eapply word_agree; [exact Ha| |done]|done|exists vo; split; [eapply word_agree; [exact Ha| |done]|]].
  - eapply ctx_agree; [done|]. eapply agree_sub; [exact Ha|]. intros a [Hx|(q & j & Hq & Hx)].
    + split; [by left|]. intros Hl%link_cells. by eapply (Hr p a).
    + split; [right; exists q, j; rewrite elem_of_ctx; auto|]. intros Hl%link_cells. by apply (Hsep q j (or_introl Hq) a).
  - intros a Hx. split; [right; exists p, k; rewrite elem_of_ctx; split; [auto|by apply key_cells]|].
    revert Hx. unfold word_cells, link, key, llink, rlink. destruct d; lia.
  - intros a Hx. split; [right; exists p, k; rewrite elem_of_ctx; split; [auto|by eapply link_cells]|].
    revert Hx. unfold word_cells, link, key, llink, rlink. destruct d; simpl; lia.
  - eapply reps_agree; [done|]. eapply agree_sub; [exact Ha|]. intros a (q & j & Hq & Hx).
    split; [right; exists q, j; rewrite elem_of_ctx; auto|]. intros Hl%link_cells. by apply (Hsep q j (or_intror Hq) a).
Qed.
End shape.
