(* ===== verification/TreeSpec.v ===== *)
(** * Search trees: the proofs

    Every operation is a walk down a path: the loop invariants say which part of
    the tree is above the current link (a context with a hole) and which below,
    and that the keys before the hole are smaller and those after it larger than
    the key that is looked for. *)

From S2P Require Import Prelude CMem StrLocal StrMem Malloc MallocList MallocHeap MallocSys Alloc Search Tree.
From stdpp Require Import base list gmap sorting.
From Stdlib Require Import ZArith Lia.

Local Open Scope Z_scope.

Section order.
Variable compar : Z -> Z -> Z.
Hypothesis Ho : cmp_order compar.

Definition lt_cmp (x y : Z) : Prop := compar x y < 0.

Lemma cmp_le_lt x y z : compar x y <= 0 -> lt_cmp y z -> lt_cmp x z.
Proof.
  unfold lt_cmp. intros E H2. assert (compar x z <= 0) by (apply (cmp_trans _ Ho _ y); lia).
  destruct (Z.eq_dec (compar x z) 0) as [E'|]; [|lia]. exfalso.
  assert (compar z x <= 0) as Hzx.
  { destruct (Z.le_gt_cases (compar z x) 0) as [|Hg]; [done|]. apply (cmp_sym _ Ho) in Hg. lia. }
  assert (compar z y <= 0) by (apply (cmp_trans _ Ho _ x); lia). apply (cmp_sym _ Ho) in H2. lia.
Qed.

Lemma cmp_lt_trans x y z : lt_cmp x y -> lt_cmp y z -> lt_cmp x z.
Proof. intros. eapply cmp_le_lt; [|done]. unfold lt_cmp in *. lia. Qed.

(** The keys of the context are on the right sides of [vkey]. *)
Definition bounds (vkey : Z) (c : list frame) : Prop :=
  Forall (fun e => 0 < compar vkey e.2) (before c) /\ Forall (fun e => compar vkey e.2 < 0) (after c).

Definition sorted_keys (es : list (Z * Z)) : Prop := StronglySorted lt_cmp (es.*2).

Lemma sorted_app es1 es2 :
  sorted_keys (es1 ++ es2) <->
  sorted_keys es1 /\ sorted_keys es2 /\ forall x y, x ∈ es1 -> y ∈ es2 -> lt_cmp x.2 y.2.
Proof.
  unfold sorted_keys. rewrite fmap_app. split.
  - intros Hs. split_and!; [by eapply StronglySorted_app_1_l|by eapply StronglySorted_app_1_r|].
    intros x y Hx Hy. eapply StronglySorted_app_1_elem_of; [done|..]; apply list_elem_of_fmap; eauto.
  - intros (H1 & H2 & H3). apply StronglySorted_app_2; [|done..].
    intros x y (x' & -> & Hx)%list_elem_of_fmap (y' & -> & Hy)%list_elem_of_fmap. auto.
Qed.

(** One step down, to the side of [vkey]. *)
Lemma bounds_down vkey c l p k r :
  sorted_keys (elems (plug c (Node l p k r))) -> bounds vkey c -> compar vkey k <> 0 ->
  let d := compar vkey k <? 0 in
  bounds vkey (Fr d p k (if d then r else l) :: c) /\
  plug (Fr d p k (if d then r else l) :: c) (if d then l else r) = plug c (Node l p k r).
Proof.
  intros Hs [Hb Ha] Hne d. split; [|by destruct d].
  rewrite elems_plug in Hs. simpl in Hs. apply sorted_app in Hs as (_ & Hs & _). apply sorted_app in Hs as (Hs & _ & _).
  apply sorted_app in Hs as (_ & Hr & Hl). apply (sorted_app [(p, k)]) in Hr as (_ & _ & Hr).
  subst d. destruct (Z.ltb_spec (compar vkey k) 0) as [Hlt|Hge]; split; simpl; try done.
  - constructor; [done|]. apply Forall_app. split; [|done]. apply Forall_forall. intros e He.
    apply (cmp_lt_trans _ k); [done|]. apply (Hr (p, k)); [set_solver|done].
  - apply Forall_app. split; [done|]. apply Forall_app. split; [|by constructor; [simpl; lia|]].
    apply Forall_forall. intros e He. assert (lt_cmp e.2 k) as Hek by (apply (Hl e (p, k)); set_solver).
    apply (cmp_sym _ Ho). apply (cmp_lt_trans _ k); [done|]. apply (cmp_sym _ Ho). lia.
Qed.

(** A hole where the descent ends has no element that compares equal. *)
Lemma bounds_absent vkey c e : bounds vkey c -> e ∈ elems (plug c Leaf) -> compar vkey e.2 <> 0.
Proof.
  intros [Hb Ha] He. rewrite elems_plug in He. simpl in He. rewrite Forall_forall in Hb, Ha.
  apply elem_of_app in He as [He|He]; [specialize (Hb e He)|specialize (Ha e He)]; lia.
Qed.

(** The key goes in at the hole. *)
Lemma bounds_insert vkey c q :
  bounds vkey c -> sorted_keys (elems (plug c Leaf)) -> sorted_keys (elems (plug c (Node Leaf q vkey Leaf))).
Proof.
  intros [Hb Ha]. rewrite !elems_plug. simpl. intros (H1 & H2 & H3)%sorted_app. rewrite Forall_forall in Hb, Ha.
  apply sorted_app. split_and!; [done| |].
  - apply (sorted_app [_]). split_and!; [repeat constructor|done|]. intros x y ->%list_elem_of_singleton Hy. by apply Ha.
  - intros x y Hx [->|Hy]%elem_of_cons; [|auto]. apply (cmp_sym _ Ho). by apply Hb.
Qed.

Lemma sorted_remove c l p k r t' :
  sorted_keys (elems (plug c (Node l p k r))) -> elems t' = elems l ++ elems r -> sorted_keys (elems (plug c t')).
Proof.
  rewrite !elems_plug. simpl. intros Hs ->. rewrite <- !app_assoc in *. simpl in Hs.
  apply sorted_app in Hs as (H1 & Hs & H2). apply sorted_app in Hs as (H3 & Hs & H4).
  apply (sorted_app [(p, k)]) in Hs as (_ & Hs & _).
  apply sorted_app. split_and!; [done| |set_solver]. apply sorted_app. split_and!; [done..|set_solver].
Qed.
End order.

Section spec.
Context {S : Type} `{Arch} `{AllocOps S} {AOk : AllocOk S}.
Variable compar : Z -> Z -> Z.
Hypothesis Ho : cmp_order compar.
Implicit Types (s : S) (live : gmap Z Z) (F : gset Z) (t : tree) (c : list frame).

(** The root variable, one of the client's words, holds a search tree whose
    nodes are blocks of their own. *)
Record tree_at s live F (root : Z) t : Prop := {
  ta_alloc : alloc_inv s live F;
  ta_root : 0 < root /\ forall a, word_cells root a -> a ∈ F;
  ta_reps : exists v, word_at (st_mem s) root v /\ reps (st_mem s) v t;
  ta_nodup : NoDup (addrs t);
  ta_live : forall p, p ∈ addrs t -> live !! p = Some sizeof_node_t;
  ta_sorted : sorted_keys compar (elems t) }.

(** The client's other bytes. *)
Definition others_kept live F (root : Z) t (m m' : mem) : Prop :=
  forall a, owns live F a -> ~ word_cells root a -> ~ foot (elems t) a -> m' !! a = m !! a.

Lemma node_size_range : 0 < sizeof_node_t < 2 ^ long_bits.
Proof. unfold sizeof_node_t. destruct long_size_cases as [[-> ->]|[-> ->]]; vm_compute; split; congruence. Qed.

Lemma live_node s live F p :
  alloc_inv s live F -> live !! p = Some sizeof_node_t ->
  0 < p < 2 ^ long_bits /\ long_aligned (key p) = true /\ (forall d, long_aligned (link d p) = true) /\
  mapped (st_mem s) p sizeof_node_t.
Proof.
  intros Hi Hp. destruct (alloc_block s live F p sizeof_node_t Hi Hp) as (H1 & H2 & H3 & H4).
  pose proof node_size_range. split_and!; [lia..|done| |done].
  pose proof (long_aligned_next p H2) as A1. intros []; unfold link, llink, rlink; [done|].
  replace (p + 2 * Z.of_nat long_size) with (p + Z.of_nat long_size + Z.of_nat long_size) by lia.
  by apply long_aligned_next.
Qed.

Lemma node_mapped s p :
  mapped (st_mem s) p sizeof_node_t ->
  mapped (st_mem s) (key p) (Z.of_nat long_size) /\ forall d, mapped (st_mem s) (link d p) (Z.of_nat long_size).
Proof.
  intros Hm. split; [|intros []]; (eapply mapped_weaken; [exact Hm|..]);
    unfold key, link, llink, rlink, sizeof_node_t; lia.
Qed.

Lemma node_writable live F p (R : Z -> Prop) :
  live !! p = Some sizeof_node_t -> (forall a, R a -> node_cells p a) -> writable live F R.
Proof. intros Hp HR. left. exists p, sizeof_node_t. done. Qed.

(** A store to a field of a node. *)
Lemma store_field s live F p f v :
  alloc_inv s live F -> live !! p = Some sizeof_node_t -> f = key p \/ (exists d, f = link d p) ->
  0 <= v < 2 ^ long_bits ->
  exists s', store_ptr f v s = Some (tt, s') /\ alloc_inv s' live F /\ word_at (st_mem s') f v /\
    chg (word_cells f) (st_mem s) (st_mem s').
Proof.
  intros Hi Hp Hf Hv. destruct (live_node s live F p Hi Hp) as (_ & Ak & Al & Hm).
  destruct (node_mapped s p Hm) as [Mk Ml].
  assert (forall a, word_cells f a -> node_cells p a) as Hc.
  { intros a. destruct Hf as [->|[d ->]]; [apply key_cells|apply link_cells]. }
  apply (store_ptr_eq s live F); try done; [|..|by eapply node_writable]; by destruct Hf as [->|[d ->]].
Qed.

Lemma sep_nodes s live F p q a :
  alloc_inv s live F -> live !! p = Some sizeof_node_t -> live !! q = Some sizeof_node_t ->
  node_cells p a -> node_cells q a -> p = q.
Proof.
  intros Hi Hp Hq Ha Hb. destruct (decide (p = q)) as [|Hne]; [done|].
  pose proof (alloc_apart s live F p _ q _ Hi Hp Hq Hne) as Hd. unfold disjoint_blk, node_cells in *. lia.
Qed.

Lemma sep_root s live F root p a :
  alloc_inv s live F -> (forall a, word_cells root a -> a ∈ F) -> live !! p = Some sizeof_node_t ->
  node_cells p a -> ~ word_cells root a.
Proof.
  intros Hi Hr Hp Ha Hw. destruct (alloc_foreign s live F a Hi (Hr a Hw)) as [_ Hn]. by apply (Hn p sizeof_node_t).
Qed.

Lemma foot_owned live F es a :
  (forall p, p ∈ es.*1 -> live !! p = Some sizeof_node_t) -> foot es a -> owns live F a.
Proof.
  intros Hl (p & k & Hp & Ha). left. exists p, sizeof_node_t. split; [|done]. apply Hl.
  apply list_elem_of_fmap. by exists (p, k).
Qed.

(** ** The descent *)

Lemma down_reps m root c l p k r v (d : bool) :
  ctx_reps m root c v -> reps m v (Node l p k r) ->
  v = p /\ word_at m (key p) k /\
  exists v1, ctx_reps m root (Fr d p k (if d then r else l) :: c) v1 /\ reps m v1 (if d then l else r).
Proof.
  intros Hc (-> & Hk & vl & vr & Wl & Rl & Wr & Rr). split_and!; try done.
  destruct d; [exists vl|exists vr]; simpl; split_and!; try done; [by exists vr|by exists vl].
Qed.

Lemma search_loop vkey f s root t c v :
  (height t < f)%nat -> ctx_reps (st_mem s) root c v -> reps (st_mem s) v t ->
  (forall p, p ∈ addrs t -> 0 < p) -> sorted_keys compar (elems (plug c t)) -> bounds compar vkey c ->
  exists x, loop (tsearch_step compar vkey) f (place root c) s = Some (x, s) /\
    ((exists p k, x = inl p /\ (p, k) ∈ elems t /\ compar vkey k = 0) \/
     exists c', x = inr (place root c') /\ plug c' Leaf = plug c t /\ bounds compar vkey c' /\
       ctx_reps (st_mem s) root c' NULL).
Proof.
  revert t c v. induction f as [|f IH]; intros t c v Hf Hc Hv Hp Hs Hb; [lia|]. destruct t as [|l p k r].
  - simpl in Hv. subst v. exists (inr (place root c)). split; [|right; by exists c].
    rewrite (loop_stop _ _ _ _ (inr (place root c)) s); [done|]. unfold tsearch_step.
    by rewrite (bind_eq _ _ _ _ _ (load_ptr_eq _ _ _ (ctx_place _ _ _ _ Hc))).
  - set (d := compar vkey k <? 0).
    destruct (down_reps _ _ _ _ _ _ _ _ d Hc Hv) as (-> & Hk & v1 & Hc1 & Hv1).
    assert (0 < p) as Hp0 by (apply Hp; unfold addrs; simpl; set_solver).
    assert (forall st, st = (if compar vkey k =? 0 then inr (inl p) else inl (link d p)) ->
      tsearch_step compar vkey (place root c) s = Some (st, s)) as Estep.
    { intros st ->. unfold tsearch_step. rewrite (bind_eq _ _ _ _ _ (load_ptr_eq _ _ _ (ctx_place _ _ _ _ Hc))).
      rewrite (proj2 (Z.eqb_neq p NULL)) by (unfold NULL; lia).
      rewrite (bind_eq _ _ _ _ _ (load_ptr_eq _ _ _ Hk)). cbv zeta. fold d. by destruct (_ =? 0), d. }
    destruct (Z.eqb_spec (compar vkey k) 0) as [E0|E0].
    + exists (inl p). rewrite (loop_stop _ _ _ _ _ _ (Estep _ eq_refl)). split; [done|]. left. exists p, k.
      split_and!; try done. simpl. set_solver.
    + rewrite (loop_go _ _ _ _ _ _ (Estep _ eq_refl)).
      destruct (bounds_down compar Ho vkey c l p k r Hs Hb E0) as [Hb1 Ep]. fold d in Hb1, Ep.
      change (link d p) with (place root (Fr d p k (if d then r else l) :: c)).
      assert (forall e, e ∈ elems (if d then l else r) -> e ∈ elems (Node l p k r)) as Hsub.
      { intros e He. simpl. destruct d; set_solver. }
      destruct (IH (if d then l else r) (Fr d p k (if d then r else l) :: c) v1) as (x & E & Hx); try done.
      * simpl in Hf. destruct d; lia.
      * intros q (e & -> & He%Hsub)%list_elem_of_fmap. apply Hp. apply list_elem_of_fmap. by exists e.
      * by rewrite Ep.
      * exists x. split; [done|]. destruct Hx as [(q & j & Hq & Hin & Hj)|(c' & Hx & Hpl & Hr)]; [left|right].
        -- exists q, j. auto.
        -- exists c'. by rewrite Hpl, Ep.
Qed.

Lemma tree_search vkey f s live F root t :
  tree_at s live F root t -> (height t < f)%nat ->
  exists x, loop (tsearch_step compar vkey) f root s = Some (x, s) /\
    ((exists p k, x = inl p /\ (p, k) ∈ elems t /\ compar vkey k = 0) \/
     exists c, x = inr (place root c) /\ plug c Leaf = t /\ bounds compar vkey c /\ ctx_reps (st_mem s) root c NULL).
Proof.
  intros [Hi Hr (v & Hw & Hv) Hn Hl Hs] Hf. apply (search_loop vkey f s root t [] v); try done.
  intros p Hp. by apply (live_node s live F p Hi (Hl p Hp)).
Qed.

(** ** tfind *)

Lemma tfind_spec vkey f s live F root t :
  tree_at s live F root t -> (height t < f)%nat ->
  exists r, tfind compar f vkey root s = Some (r, s) /\
    ((exists k, (r, k) ∈ elems t /\ compar vkey k = 0) \/
     (r = NULL /\ forall e, e ∈ elems t -> compar vkey e.2 <> 0)).
Proof.
  intros Ht Hf. destruct (tree_search vkey f s live F root t Ht Hf) as (x & E & Hx).
  unfold tfind. rewrite (proj2 (Z.eqb_neq root NULL)) by (pose proof (ta_root _ _ _ _ _ Ht); unfold NULL; lia).
  rewrite (bind_eq _ _ _ _ _ E). destruct Hx as [(p & k & -> & Hp & Hk)|(c & -> & <- & Hb & _)].
  - exists p. split; [done|]. left. by exists k.
  - exists NULL. split; [done|]. right. split; [done|]. intros e. by apply bounds_absent.
Qed.

(** ** Stores *)

Lemma word_at_mapped m a v : word_at m a v -> mapped m a (Z.of_nat long_size) /\ long_aligned a = true.
Proof.
  intros (Hb & _ & Ha). split; [|done]. apply bytes_at_mapped in Hb. by rewrite bytes_of_word_length in Hb.
Qed.

Lemma place_writable live F root c :
  writable live F (word_cells root) -> (forall p, p ∈ (ctx_elems c).*1 -> live !! p = Some sizeof_node_t) ->
  writable live F (word_cells (place root c)).
Proof.
  intros Hr Hl. destruct c as [|[d p k o] c]; [done|]. simpl. eapply node_writable; [|apply link_cells].
  apply Hl, list_elem_of_fmap. exists (p, k). rewrite elem_of_ctx. auto.
Qed.

Lemma ctx_store s live F root c v v' :
  alloc_inv s live F -> ctx_reps (st_mem s) root c v -> 0 <= v' < 2 ^ long_bits -> NoDup (ctx_elems c).*1 ->
  (forall p, p ∈ (ctx_elems c).*1 -> live !! p = Some sizeof_node_t) -> writable live F (word_cells root) ->
  (forall p a, p ∈ (ctx_elems c).*1 -> node_cells p a -> ~ word_cells root a) ->
  exists s', store_ptr (place root c) v' s = Some (tt, s') /\ alloc_inv s' live F /\
    ctx_reps (st_mem s') root c v' /\ chg (word_cells (place root c)) (st_mem s) (st_mem s').
Proof.
  intros Hi Hc Hv Hn Hl Hw Hr. destruct (word_at_mapped _ _ _ (ctx_place _ _ _ _ Hc)) as [Hm Ha].
  destruct (store_ptr_eq s live F (place root c) v' Hi Ha Hv Hm (place_writable live F root c Hw Hl))
    as (s' & E & Hi' & Hp & Hg). exists s'. split_and!; try done.
  eapply ctx_set; try done.
  - intros p q a Hp' Hq. apply (sep_nodes s live F p q a); auto.
  - intros a [_ Hx]. by apply (chg_out _ _ _ Hg).
Qed.

(** ** tsearch *)

(** What a store outside the context leaves of it. *)
Lemma ctx_chg R m m' root c v :
  ctx_reps m root c v -> chg R m m' -> (forall a, R a -> ~ word_cells root a /\ ~ foot (ctx_elems c) a) ->
  ctx_reps m' root c v.
Proof.
  intros Hc Hg HR. eapply ctx_agree; [done|]. intros a Ha. apply (chg_out _ _ _ Hg). intros Hx%HR. tauto.
Qed.

Lemma new_node s live F q vkey :
  alloc_inv s live F -> live !! q = Some sizeof_node_t -> 0 <= vkey < 2 ^ long_bits ->
  exists s', (run store_ptr (key q) vkey; run store_ptr (rlink q) NULL; run store_ptr (llink q) NULL; ret q) s = Some (q, s') /\
    alloc_inv s' live F /\ reps (st_mem s') q (Node Leaf q vkey Leaf) /\ chg (node_cells q) (st_mem s) (st_mem s').
Proof.
  intros Hi Hq Hv. assert (0 <= NULL < 2 ^ long_bits) as Hz by (pose proof node_size_range; unfold NULL; lia).
  destruct (store_field s live F q (key q) vkey Hi Hq ltac:(auto) Hv) as (s1 & E1 & I1 & W1 & C1).
  destruct (store_field s1 live F q (rlink q) NULL I1 Hq ltac:(right; by exists false) Hz) as (s2 & E2 & I2 & W2 & C2).
  destruct (store_field s2 live F q (llink q) NULL I2 Hq ltac:(right; by exists true) Hz) as (s3 & E3 & I3 & W3 & C3).
  exists s3. rewrite (bind_eq _ _ _ _ _ E1), (bind_eq _ _ _ _ _ E2), (bind_eq _ _ _ _ _ E3). split_and!; try done.
  - simpl. split_and!; [done| |exists NULL, NULL; split_and!; try done].
    + eapply word_chg; [exact C3|eapply word_chg; [exact C2|done|]|];
        intros a; unfold word_cells, key, llink, rlink; lia.
    + eapply word_chg; [exact C3|done|]. intros a; unfold word_cells, key, llink, rlink; lia.
  - etransitivity; [eapply chg_mono; [exact C1|apply key_cells]|].
    etransitivity; [eapply chg_mono; [exact C2|apply (link_cells false)]|].
    eapply chg_mono; [exact C3|apply (link_cells true)].
Qed.

(** The outcome of [tsearch] when the key is absent: no memory, or a new node
    in its place in the order. *)
Inductive inserted s live F root t vkey : Z -> S -> Prop :=
| ins_failed s' : tree_at s' live F root t -> kept live F (st_mem s) (st_mem s') -> inserted s live F root t vkey NULL s'
| ins_done r s' A B t' :
    r <> NULL -> live !! r = None -> elems t = A ++ B -> elems t' = A ++ (r, vkey) :: B ->
    tree_at s' (<[r := sizeof_node_t]> live) F root t' -> others_kept live F root t (st_mem s) (st_mem s') ->
    inserted s live F root t vkey r s'.

Lemma insert_hole s live F root c vkey s1 q :
  tree_at s live F root (plug c Leaf) -> bounds compar vkey c -> 0 <= vkey < 2 ^ long_bits ->
  ctx_reps (st_mem s1) root c NULL -> alloc_inv s1 (<[q := sizeof_node_t]> live) F -> live !! q = None ->
  kept live F (st_mem s) (st_mem s1) ->
  exists s', (run store_ptr (place root c) q; run store_ptr (key q) vkey; run store_ptr (rlink q) NULL;
    run store_ptr (llink q) NULL; ret q) s1 = Some (q, s') /\ inserted s live F root (plug c Leaf) vkey q s'.
Proof.
  intros Ht Hb Hv Hc Hi1 Hq Hk. set (live1 := <[q := sizeof_node_t]> live) in *.
  destruct Ht as [Hi [Hr0 Hr] _ Hn Hl Hs].
  assert (live1 !! q = Some sizeof_node_t) as Hq1 by (unfold live1; apply lookup_insert_eq).
  assert (forall p, p ∈ (ctx_elems c).*1 -> p <> q /\ live1 !! p = Some sizeof_node_t) as Hl1.
  { intros p Hp. assert (live !! p = Some sizeof_node_t) as Hlp.
    { apply Hl. unfold addrs. rewrite elems_plug. done. }
    assert (p <> q) by congruence. split; [done|]. unfold live1. by rewrite lookup_insert_ne. }
  assert (NoDup (ctx_elems c).*1) as Hn' by (unfold addrs in Hn; by rewrite elems_plug in Hn).
  assert (elems (plug c Leaf) = ctx_elems c) as Ee by (by rewrite elems_plug).
  destruct (live_node s1 live1 F q Hi1 Hq1) as (Bq & _).
  destruct (ctx_store s1 live1 F root c NULL q) as (s2 & E2 & I2 & C2 & G2); try done; [lia|by apply Hl1|by right| |].
  { intros p a Hp. apply (sep_root s1 live1 F root p a); try done. by apply Hl1. }
  destruct (new_node s2 live1 F q vkey I2 Hq1 Hv) as (s3 & E3 & I3 & R3 & G3).
  exists s3. rewrite (bind_eq _ _ _ _ _ E2). split; [exact E3|].
  apply (ins_done _ _ _ _ _ _ q s3 (before c) (after c) (plug c (Node Leaf q vkey Leaf)));
    [unfold NULL; lia|done|by rewrite elems_plug|by rewrite elems_plug| |].
  - assert (elems (plug c (Node Leaf q vkey Leaf)) = before c ++ (q, vkey) :: after c) as Ep by by rewrite elems_plug.
    split; try done.
    + apply plug_reps. exists q. split; [|done]. eapply ctx_chg; [exact C2|exact G3|]. intros a Ha. split.
      * by apply (sep_root s1 live1 F root q a).
      * intros (p & k & Hp & Hpa). destruct (Hl1 p) as [Hpq Hlp]; [apply list_elem_of_fmap; by exists (p, k)|].
        apply Hpq. by apply (sep_nodes s1 live1 F p q a).
    + unfold addrs. rewrite Ep, fmap_app, fmap_cons. simpl. unfold ctx_elems in Hn', Hl1. rewrite fmap_app in Hn'.
      apply NoDup_app in Hn' as (N1 & N2 & N3). apply NoDup_app. rewrite NoDup_cons.
      assert (forall p, p ∈ (before c).*1 \/ p ∈ (after c).*1 -> p <> q) as Hne.
      { intros p Hp. apply Hl1. rewrite fmap_app. set_solver. }
      split_and!; [done| | |done]; [intros p Hp [->|Hp']%elem_of_cons; [by eapply (Hne q); [left|]|by eapply N2]|].
      intros Hx. by apply (Hne q); [right|].
    + intros p. unfold addrs. rewrite Ep, fmap_app, fmap_cons. unfold ctx_elems in Hl1. rewrite fmap_app in Hl1.
      intros [Hp|[->|Hp]%elem_of_cons]%elem_of_app; [|done|]; apply Hl1; set_solver.
    + by apply bounds_insert.
  - intros a Ha Hroot Hf. rewrite (chg_out _ _ _ G3), (chg_out _ _ _ G2); [by apply Hk|..].
    + intros Hp. destruct c as [|[d p k o] c]; [done|]. apply Hf. rewrite Ee. exists p, k. rewrite elem_of_ctx.
      split; [auto|]. by eapply link_cells.
    + intros Hc'. destruct Ha as [(p & n & Hp & Ha)|Ha].
      * assert (p <> q) as Hpq by congruence. assert (live1 !! p = Some n) as Hp1 by (unfold live1; by rewrite lookup_insert_ne).
        pose proof (alloc_apart s1 live1 F p n q _ Hi1 Hp1 Hq1 Hpq). unfold disjoint_blk, node_cells in *. lia.
      * destruct (alloc_foreign s1 live1 F a Hi1 Ha) as [_ Hx]. by apply (Hx q sizeof_node_t).
Qed.

Lemma tsearch_spec vkey s live F root t :
  tree_at s live F root t -> 0 <= vkey < 2 ^ long_bits ->
  exists f0 r s', (forall f, (f0 <= f)%nat -> tsearch compar f vkey root s = Some (r, s')) /\
    ((exists k, (r, k) ∈ elems t /\ compar vkey k = 0 /\ s' = s) \/
     (forall e, e ∈ elems t -> compar vkey e.2 <> 0) /\ inserted s live F root t vkey r s').
Proof.
  intros Ht Hv. pose proof (ta_alloc _ _ _ _ _ Ht) as Hi. pose proof (ta_root _ _ _ _ _ Ht) as [Hr0 Hr].
  assert (forall f x, (height t < f)%nat -> loop (tsearch_step compar vkey) f root s = Some (x, s) ->
    tsearch compar f vkey root s = match x with
      | inl n => Some (n, s)
      | inr rootp => (do q <- op_malloc f sizeof_node_t; if q =? NULL then ret q
          else run store_ptr rootp q; run store_ptr (key q) vkey; run store_ptr (rlink q) NULL;
            run store_ptr (llink q) NULL; ret q) s
      end) as Eu.
  { intros f x Hf E. unfold tsearch. rewrite (proj2 (Z.eqb_neq root NULL)) by (unfold NULL; lia).
    rewrite (bind_eq _ _ _ _ _ E). by destruct x. }
  destruct (tree_search vkey (1 + height t)%nat s live F root t Ht) as (x & E & Hx); [lia|].
  assert (forall f, (1 + height t <= f)%nat -> loop (tsearch_step compar vkey) f root s = Some (x, s)) as El.
  { intros f Hf. eapply (mono_loop (fun _ => tsearch_step compar vkey)); [intros; apply mono_const|exact E|done]. }
  destruct Hx as [(p & k & -> & Hp & Hk)|(c & -> & <- & Hb & Hc)].
  - exists (1 + height t)%nat, p, s. split; [|left; by exists k]. intros f Hf. by rewrite (Eu f (inl p)) by auto with lia.
  - destruct (alloc_malloc s live F sizeof_node_t Hi) as (f0 & q & s1 & Em & Hi1 & Hq & Hk).
    { pose proof node_size_range. lia. }
    assert (ctx_reps (st_mem s1) root c NULL) as Hc1.
    { eapply ctx_agree; [done|]. intros a Ha. apply Hk. destruct Ha as [Ha|Ha]; [right; auto|].
      eapply foot_owned; [|exact Ha]. intros p Hp. apply (ta_live _ _ _ _ _ Ht). unfold addrs. by rewrite elems_plug. }
    unfold gets in Hi1. destruct (Z.eqb_spec q NULL) as [->|Hq0].
    + exists (Nat.max f0 (1 + height (plug c Leaf))), NULL, s1. split.
      * intros f Hf. rewrite (Eu f (inr (place root c))) by auto with lia.
        rewrite (bind_eq _ _ _ _ _ (Em f ltac:(lia))). done.
      * right. split; [intros e; by apply bounds_absent|]. apply ins_failed; [|done].
        destruct Ht as [_ ? _ ? ? ?]. split; try done. apply plug_reps. by exists NULL.
    + destruct (insert_hole s live F root c vkey s1 q) as (s' & Es & Hins); try done; [by apply Hq|].
      exists (Nat.max f0 (1 + height (plug c Leaf))), q, s'. split.
      * intros f Hf. rewrite (Eu f (inr (place root c))) by auto with lia.
        rewrite (bind_eq _ _ _ _ _ (Em f ltac:(lia))). by rewrite (proj2 (Z.eqb_neq q NULL)).
      * right. split; [intros e; by apply bounds_absent|done].
Qed.

(** ** tdelete *)

(** The node above the hole; for the root, the node in it. *)
Definition parent c (v : Z) : Z := match c with [] => v | Fr _ p _ _ :: _ => p end.

Lemma delete_loop vkey f s root t c v :
  (height t <= f)%nat -> t <> Leaf -> ctx_reps (st_mem s) root c v -> reps (st_mem s) v t ->
  (forall p, p ∈ addrs t -> 0 < p) -> sorted_keys compar (elems (plug c t)) -> bounds compar vkey c ->
  exists x, loop (tdelete_step compar vkey) f (parent c v, place root c) s = Some (x, s) /\
    ((exists c' l p k r, x = Some (parent c' p, place root c') /\ plug c' (Node l p k r) = plug c t /\
        compar vkey k = 0 /\ ctx_reps (st_mem s) root c' p /\ reps (st_mem s) p (Node l p k r)) \/
     x = None /\ forall e, e ∈ elems (plug c t) -> compar vkey e.2 <> 0).
Proof.
  revert t c v. induction f as [|f IH]; intros t c v Hf Hne Hc Hv Hp Hs Hb; [destruct t; simpl in Hf; [done|lia]|].
  destruct t as [|l p k r]; [done|]. set (d := compar vkey k <? 0).
  destruct (down_reps _ _ _ _ _ _ _ _ d Hc Hv) as (-> & Hk & v1 & Hc1 & Hv1).
  set (c1 := Fr d p k (if d then r else l) :: c) in *.
  assert (tdelete_step compar vkey (parent c p, place root c) s =
    Some (if compar vkey k =? 0 then inr (Some (parent c p, place root c))
          else if v1 =? NULL then inr None else inl (p, link d p), s)) as Estep.
  { unfold tdelete_step. rewrite (bind_eq _ _ _ _ _ (load_ptr_eq _ _ _ (ctx_place _ _ _ _ Hc))).
    rewrite (bind_eq _ _ _ _ _ (load_ptr_eq _ _ _ Hk)). cbv zeta. fold d. destruct (_ =? 0); [done|].
    fold (link d p). rewrite (bind_eq _ _ _ _ _ (load_ptr_eq _ _ _ (ctx_place _ _ _ _ Hc1))). by destruct (_ =? _). }
  destruct (Z.eqb_spec (compar vkey k) 0) as [E0|E0].
  { eexists. rewrite (loop_stop _ _ _ _ _ _ Estep). split; [done|]. left. by exists c, l, p, k, r. }
  destruct (bounds_down compar Ho vkey c l p k r Hs Hb E0) as [Hb1 Ep]. fold d in Hb1, Ep. fold c1 in Hb1, Ep.
  destruct (decide ((if d then l else r) = Leaf)) as [El|El].
  { rewrite El in *. simpl in Hv1. subst v1. exists None. rewrite (loop_stop _ _ _ _ _ _ Estep). split; [done|]. right.
    split; [done|]. rewrite <- Ep. intros e. by apply bounds_absent. }
  assert (forall e, e ∈ elems (if d then l else r) -> e ∈ elems (Node l p k r)) as Hsub.
  { intros e He. simpl. destruct d; set_solver. }
  assert (forall q, q ∈ addrs (if d then l else r) -> 0 < q) as Hp1.
  { intros q (e & -> & He%Hsub)%list_elem_of_fmap. apply Hp. apply list_elem_of_fmap. by exists e. }
  assert (v1 <> NULL) as Hv0.
  { destruct (if d then l else r) as [|l1 p1 k1 r1]; [done|]. destruct Hv1 as [-> _].
    assert (0 < p1) by (apply Hp1; unfold addrs; simpl; set_solver). unfold NULL. lia. }
  rewrite (proj2 (Z.eqb_neq v1 NULL) Hv0) in Estep. rewrite (loop_go _ _ _ _ _ _ Estep).
  destruct (IH (if d then l else r) c1 v1) as (x & E & Hx); try done.
  - simpl in Hf. destruct d; lia.
  - by rewrite Ep.
  - exists x. split; [exact E|]. by rewrite <- Ep.
Qed.

(** ** The successor *)

Definition all_left c : Prop := Forall (fun '(Fr d _ _ _) => d = true) c.

Lemma all_left_before c : all_left c -> before c = [].
Proof. induction 1 as [|[d p k o] c -> _ IH]; simpl; done. Qed.

Lemma successor_loop f s root t c v r kr o :
  (height t <= f)%nat -> t <> Leaf -> (forall p, p ∈ addrs t -> 0 < p) -> all_left c ->
  ctx_reps (st_mem s) root (Fr true r kr o :: c) v -> reps (st_mem s) v t ->
  exists c' q kq rq r' kr' o', loop successor_step f (v, r) s = Some ((q, r'), s) /\
    plug (Fr true r' kr' o' :: c') (Node Leaf q kq rq) = plug (Fr true r kr o :: c) t /\ all_left c' /\
    ctx_reps (st_mem s) root (Fr true r' kr' o' :: c') q /\ reps (st_mem s) q (Node Leaf q kq rq).
Proof.
  revert t c v r kr o. induction f as [|f IH]; intros t c v r kr o Hf Hne Hp Ha Hc Hv; [destruct t; simpl in Hf; [done|lia]|].
  destruct t as [|l p k rt]; [done|].
  destruct (down_reps _ _ _ _ _ _ _ _ true Hc Hv) as (-> & Hk & v1 & Hc1 & Hv1).
  assert (successor_step (p, r) s = Some (if v1 =? NULL then inr (p, r) else inl (v1, p), s)) as Estep.
  { unfold successor_step. pose proof (ctx_place _ _ _ _ Hc1) as Hw. simpl in Hw.
    rewrite (bind_eq _ _ _ _ _ (load_ptr_eq _ _ _ Hw)). destruct (v1 =? NULL); [done|].
    by rewrite (bind_eq _ _ _ _ _ (load_ptr_eq _ _ _ Hw)). }
  destruct (decide (l = Leaf)) as [->|Hl].
  - simpl in Hv1. subst v1. exists c, p, k, rt, r, kr, o. rewrite (loop_stop _ _ _ _ _ _ Estep). done.
  - assert (forall q, q ∈ addrs l -> 0 < q) as Hp1.
    { intros q (e & -> & He)%list_elem_of_fmap. apply Hp. unfold addrs. simpl. set_solver. }
    assert (v1 <> NULL) as Hv0.
    { destruct l as [|l1 p1 k1 r1]; [done|]. destruct Hv1 as [-> _].
      assert (0 < p1) by (apply Hp1; unfold addrs; simpl; set_solver). unfold NULL. lia. }
    rewrite (proj2 (Z.eqb_neq v1 NULL) Hv0) in Estep. rewrite (loop_go _ _ _ _ _ _ Estep).
    destruct (IH l (Fr true r kr o :: c) v1 p k rt) as (c' & q & kq & rq & r' & kr' & o' & E & Hpl & Hr); try done.
    + simpl in Hf. lia.
    + by constructor.
    + exists c', q, kq, rq, r', kr', o'. split; [exact E|]. by rewrite Hpl.
Qed.

(** ** The replacement *)

Lemma foot_apart s live F p es a :
  alloc_inv s live F -> live !! p = Some sizeof_node_t ->
  (forall q, q ∈ es.*1 -> live !! q = Some sizeof_node_t /\ q <> p) -> node_cells p a -> ~ foot es a.
Proof.
  intros Hi Hp Hq Ha (q & k & Hin & Hqa). destruct (Hq q) as [Hl Hne]; [apply list_elem_of_fmap; by exists (q, k)|].
  apply Hne. by apply (sep_nodes s live F q p a).
Qed.

Lemma reps_chg R m m' v t : reps m v t -> chg R m m' -> (forall a, R a -> ~ foot (elems t) a) -> reps m' v t.
Proof. intros Hr Hg HR. eapply reps_agree; [done|]. intros a Ha. apply (chg_out _ _ _ Hg). intros Hx%HR. done. Qed.

Lemma reps_range m v t : reps m v t -> (forall p, p ∈ addrs t -> 0 < p < 2 ^ long_bits) -> 0 <= v < 2 ^ long_bits /\ (v = NULL <-> t = Leaf).
Proof.
  destruct t as [|l p k r]; simpl.
  - intros -> _. pose proof node_size_range. unfold NULL. split; [lia|done].
  - intros [-> _] Hp. assert (0 < p < 2 ^ long_bits) by (apply Hp; unfold addrs; simpl; set_solver).
    split; [lia|]. unfold NULL. split; [lia|done].
Qed.

Definition sub_nodes live (es : list (Z * Z)) : Prop :=
  NoDup es.*1 /\ forall p, p ∈ es.*1 -> live !! p = Some sizeof_node_t.

(** The right child has no left child: it takes the left subtree. *)
Lemma replace_right s live F l r0 kr rr vl vrr :
  alloc_inv s live F -> sub_nodes live (elems l ++ (r0, kr) :: elems rr) ->
  reps (st_mem s) vl l -> word_at (st_mem s) (key r0) kr -> word_at (st_mem s) (rlink r0) vrr ->
  reps (st_mem s) vrr rr ->
  exists s', store_ptr (llink r0) vl s = Some (tt, s') /\ alloc_inv s' live F /\
    reps (st_mem s') r0 (Node l r0 kr rr) /\ chg (node_cells r0) (st_mem s) (st_mem s').
Proof.
  intros Hi [Hn Hl] Rl Wk Wr Rr. rewrite fmap_app, fmap_cons in Hn, Hl. simpl in Hn, Hl.
  apply NoDup_app in Hn as (_ & Hx & Hn). apply NoDup_cons in Hn as [Hy _].
  assert (live !! r0 = Some sizeof_node_t) as Hr0 by (apply Hl; set_solver).
  destruct (reps_range _ _ _ Rl) as [Bv _].
  { intros p Hp. apply (live_node s live F p Hi), Hl. unfold addrs in Hp. set_solver. }
  destruct (store_field s live F r0 (llink r0) vl Hi Hr0 ltac:(right; by exists true) Bv) as (s1 & E1 & I1 & W1 & C1).
  pose proof (chg_mono _ _ _ _ C1 (link_cells true r0)) as C1'. exists s1. split_and!; try done.
  simpl. split_and!; [done| |exists vl, vrr; split_and!; [done| | |]].
  - eapply word_chg; [exact C1|done|]. intros a; unfold word_cells, key, llink; lia.
  - eapply reps_chg; [exact Rl|exact C1'|]. intros a. apply (foot_apart s live F); try done.
    intros q Hq. split; [apply Hl; set_solver|]. intros ->. by eapply Hx; [|left].
  - eapply word_chg; [exact C1|done|]. intros a; unfold word_cells, rlink, llink; lia.
  - eapply reps_chg; [exact Rr|exact C1'|]. intros a. apply (foot_apart s live F); try done.
    intros q Hq. split; [apply Hl; set_solver|]. by intros ->.
Qed.

Lemma place_foot root c a : c <> [] -> word_cells (place root c) a -> foot (ctx_elems c) a.
Proof.
  destruct c as [|[d p k o] c]; [done|]. intros _ Ha. exists p, k. rewrite elem_of_ctx. split; [auto|]. by eapply link_cells.
Qed.

Lemma foot_apart2 s live F es1 es2 a :
  alloc_inv s live F -> (forall p, p ∈ es1.*1 -> live !! p = Some sizeof_node_t) ->
  (forall p, p ∈ es2.*1 -> live !! p = Some sizeof_node_t /\ p ∉ es1.*1) -> foot es1 a -> ~ foot es2 a.
Proof.
  intros Hi H1 H2 (p & k & Hp & Ha). assert (p ∈ es1.*1) as Hp1 by (apply list_elem_of_fmap; by exists (p, k)).
  apply (foot_apart s live F p); auto. intros q Hq. destruct (H2 q Hq) as [Hl Hn]. split; [done|]. by intros ->.
Qed.

(** The successor is unlinked: its right subtree takes its place. *)
Lemma unlink_successor s live F n c q kq rq :
  alloc_inv s live F -> sub_nodes live (ctx_elems c ++ (q, kq) :: elems rq) ->
  live !! n = Some sizeof_node_t -> n ∉ (ctx_elems c).*1 -> c <> [] ->
  ctx_reps (st_mem s) (rlink n) c q -> reps (st_mem s) q (Node Leaf q kq rq) ->
  exists s1 vr vqr, word_at (st_mem s) (rlink q) vqr /\ store_ptr (place (rlink n) c) vqr s = Some (tt, s1) /\
    alloc_inv s1 live F /\ word_at (st_mem s1) (rlink n) vr /\ reps (st_mem s1) vr (plug c rq) /\
    word_at (st_mem s1) (key q) kq /\ chg (foot (ctx_elems c)) (st_mem s) (st_mem s1).
Proof.
  intros Hi [Hn Hl] Hln Hnn Hc0 Hc (_ & Wk & v0 & vqr & _ & _ & Wr & Rq). rewrite fmap_app, fmap_cons in *. simpl in *.
  apply NoDup_app in Hn as (Nc & N2 & Hn). apply NoDup_cons in Hn as [N3 _].
  assert (forall p, p ∈ (ctx_elems c).*1 -> live !! p = Some sizeof_node_t) as Hlc by (intros; apply Hl; set_solver).
  destruct (reps_range _ _ _ Rq) as [Bq _].
  { intros p Hp. apply (live_node s live F p Hi), Hl. unfold addrs in Hp. set_solver. }
  destruct (ctx_store s live F (rlink n) c q vqr) as (s1 & E1 & I1 & C1 & G1); try done.
  { apply (node_writable live F n); [done|apply (link_cells false)]. }
  { intros p a Hp Ha Hw%(link_cells false). assert (p = n) as -> by (by apply (sep_nodes s live F p n a); auto). done. }
  assert (chg (foot (ctx_elems c)) (st_mem s) (st_mem s1)) as G1' by (eapply chg_mono; [exact G1|intros; by eapply place_foot]).
  assert (exists v, word_at (st_mem s1) (rlink n) v /\ reps (st_mem s1) v (plug c rq)) as (vr & Wr1 & Rr1).
  { apply plug_reps. exists vqr. split; [done|]. eapply reps_chg; [exact Rq|exact G1'|]. intros a.
    apply (foot_apart2 s live F); try done. intros p Hp. split; [apply Hl; set_solver|]. intros Hx. by eapply N2; [|right]. }
  exists s1, vr, vqr. split_and!; try done.
  eapply word_chg; [exact G1'|done|]. intros a Ha Hf. eapply (foot_apart s live F q (ctx_elems c) a); try done.
  - apply Hl. set_solver.
  - intros p Hp. split; [auto|]. intros ->. by eapply N2; [|left].
  - by apply key_cells.
Qed.

(** A node takes two subtrees. *)
Lemma adopt_node s live F q kq l vl r vr :
  alloc_inv s live F -> live !! q = Some sizeof_node_t -> word_at (st_mem s) (key q) kq ->
  (forall p, p ∈ (elems l ++ elems r).*1 -> live !! p = Some sizeof_node_t /\ p <> q) ->
  reps (st_mem s) vl l -> reps (st_mem s) vr r ->
  exists s2 s3, store_ptr (llink q) vl s = Some (tt, s2) /\ store_ptr (rlink q) vr s2 = Some (tt, s3) /\
    alloc_inv s3 live F /\ reps (st_mem s3) q (Node l q kq r) /\
    chg (node_cells q) (st_mem s) (st_mem s2) /\ chg (node_cells q) (st_mem s) (st_mem s3).
Proof.
  intros Hi Hq Wk Hl Rl Rr. rewrite fmap_app in Hl.
  assert (forall v t, reps (st_mem s) v t -> (forall p, p ∈ addrs t -> p ∈ (elems l).*1 ++ (elems r).*1) ->
    0 <= v < 2 ^ long_bits) as Bv.
  { intros v t Hr Ht. eapply reps_range; [exact Hr|]. intros p Hp. apply (live_node s live F p Hi), Hl, Ht, Hp. }
  destruct (store_field s live F q (llink q) vl Hi Hq) as (s2 & E2 & I2 & W2 & G2);
    [right; by exists true|apply (Bv vl l Rl); unfold addrs; set_solver|].
  destruct (store_field s2 live F q (rlink q) vr I2 Hq) as (s3 & E3 & I3 & W3 & G3);
    [right; by exists false|apply (Bv vr r Rr); unfold addrs; set_solver|].
  pose proof (chg_mono _ _ _ _ G2 (link_cells true q)) as G2'. pose proof (chg_mono _ _ _ _ G3 (link_cells false q)) as G3'.
  assert (chg (node_cells q) (st_mem s) (st_mem s3)) as G by (etransitivity; [exact G2'|exact G3']).
  assert (forall v t, reps (st_mem s) v t -> (forall p, p ∈ addrs t -> p ∈ (elems l).*1 ++ (elems r).*1) ->
    reps (st_mem s3) v t) as Hr.
  { intros v t Hr Ht. eapply reps_chg; [exact Hr|exact G|]. intros a. apply (foot_apart s live F); try done.
    intros p Hp. by apply Hl, Ht. }
  exists s2, s3. split_and!; try done. simpl. split_and!; [done| |exists vl, vr; split_and!; try done].
  - eapply word_chg; [exact G3|eapply word_chg; [exact G2|done|]|]; intros a; unfold word_cells, key, llink, rlink; lia.
  - eapply word_chg; [exact G3|done|]; intros a; unfold word_cells, key, llink, rlink; lia.
  - apply Hr; [done|]. unfold addrs. set_solver.
  - apply Hr; [done|]. unfold addrs. set_solver.
Qed.

#[global] Instance sub_nodes_perm live : Proper (Permutation ==> iff) (sub_nodes live).
Proof. intros es es' Hp. unfold sub_nodes. rewrite Hp. split; intros [Hn Hl]; (split; [done|]); intros p; rewrite ?Hp || rewrite <- ?Hp; apply Hl. Qed.

Lemma sub_nodes_app live es1 es2 :
  sub_nodes live (es1 ++ es2) <->
  sub_nodes live es1 /\ sub_nodes live es2 /\ forall p, p ∈ es1.*1 -> p ∈ es2.*1 -> False.
Proof.
  unfold sub_nodes. rewrite fmap_app, NoDup_app. split.
  - intros [(H1 & H2 & H3) Hl]. split_and!; try done; set_solver.
  - intros ((H1 & Hl1) & (H2 & Hl2) & H3). split; [split_and!; try done; set_solver|]. set_solver.
Qed.

Lemma sub_nodes_cons live p k es :
  sub_nodes live ((p, k) :: es) <->
  live !! p = Some sizeof_node_t /\ sub_nodes live es /\ p ∉ es.*1.
Proof.
  unfold sub_nodes. rewrite fmap_cons, NoDup_cons. simpl. split.
  - intros [[H1 H2] Hl]. split_and!; try done; set_solver.
  - intros (Hp & (H2 & Hl) & H1). split; [done|]. set_solver.
Qed.

Lemma plug_perm c l n k r : elems (plug c (Node l n k r)) ≡ₚ (n, k) :: elems l ++ elems r ++ ctx_elems c.
Proof. rewrite elems_plug. simpl. unfold ctx_elems. solve_Permutation. Qed.

(** The outcome of steps D1 to D3: a tree of the remaining nodes, in order. *)
Record replaced s live F root c n l r q s1 t' : Prop := {
  rp_alloc : alloc_inv s1 live F;
  rp_ctx : ctx_reps (st_mem s1) root c n;
  rp_tree : reps (st_mem s1) q t';
  rp_elems : elems t' = elems l ++ elems r;
  rp_chg : chg (foot (elems l ++ elems r)) (st_mem s) (st_mem s1) }.

Lemma ctx_kept s live F root c n k l r m1 :
  alloc_inv s live F -> (forall a, word_cells root a -> a ∈ F) ->
  sub_nodes live ((n, k) :: elems l ++ elems r ++ ctx_elems c) -> ctx_reps (st_mem s) root c n ->
  chg (foot (elems l ++ elems r)) (st_mem s) m1 -> ctx_reps m1 root c n.
Proof.
  intros Hi Hr Hs Hc Hg. eapply ctx_chg; [exact Hc|exact Hg|]. intros a Ha.
  apply sub_nodes_cons in Hs as (_ & Hs & _). rewrite app_assoc in Hs. apply sub_nodes_app in Hs as ([_ H1] & [_ H2] & H3). split.
  - destruct Ha as (p & j & Hp & Ha). apply (sep_root s live F root p a); try done. apply H1, list_elem_of_fmap. by exists (p, j).
  - apply (foot_apart2 s live F (elems l ++ elems r)); try done. intros p Hp. split; [auto|]. intros Hx. eauto.
Qed.

Lemma chg_foot p k es m m' : (p, k) ∈ es -> chg (node_cells p) m m' -> chg (foot es) m m'.
Proof. intros Hp Hg. eapply chg_mono; [exact Hg|]. intros a Ha. by exists p, k. Qed.

(** Membership in appended lists of nodes. *)
Ltac memb :=
  repeat first [rewrite fmap_app|rewrite fmap_cons|rewrite elem_of_app|rewrite elem_of_cons]; simpl; tauto.

Lemma place_apart s live F root c p a :
  alloc_inv s live F -> (forall a, word_cells root a -> a ∈ F) -> sub_nodes live (ctx_elems c) ->
  live !! p = Some sizeof_node_t -> p ∉ (ctx_elems c).*1 -> word_cells (place root c) a -> ~ node_cells p a.
Proof.
  intros Hi Hr [_ Hs] Hp Hn Hw Ha. destruct (decide (c = [])) as [->|Hc]; [by eapply (sep_root s live F root p a)|].
  eapply (foot_apart s live F p (ctx_elems c) a); try done; [|by eapply place_foot].
  intros q Hq. split; [auto|]. by intros ->.
Qed.

(** Step D3. *)
Lemma replace_deep f s live F root c n k l vl r0 kr rl rr vrl :
  (height rl <= f)%nat -> rl <> Leaf -> alloc_inv s live F -> (forall a, word_cells root a -> a ∈ F) ->
  let r := Node rl r0 kr rr in
  sub_nodes live ((n, k) :: elems l ++ elems r ++ ctx_elems c) -> ctx_reps (st_mem s) root c n ->
  word_at (st_mem s) (llink n) vl -> reps (st_mem s) vl l ->
  ctx_reps (st_mem s) (rlink n) [Fr true r0 kr rr] vrl -> reps (st_mem s) vrl rl ->
  exists q s1 t', (do '(q, r) <- loop successor_step f (vrl, r0);
      do qr <- load_ptr (rlink q); run store_ptr (llink r) qr;
      do n <- load_ptr (place root c); do nl <- load_ptr (llink n); run store_ptr (llink q) nl;
      do n <- load_ptr (place root c); do nr <- load_ptr (rlink n); run store_ptr (rlink q) nr; ret q) s = Some (q, s1) /\
    replaced s live F root c n l r q s1 t'.
Proof.
  intros Hf Hrl Hi Hr r Hs Hc Wl Rl Hc2 Hv. pose proof Hs as Hs'.
  apply sub_nodes_cons in Hs' as (Hn & Hs' & Hnn). apply sub_nodes_app in Hs' as (Hsl & Hs' & Hdl).
  apply sub_nodes_app in Hs' as (Hsr & Hsc & Hdr).
  destruct (successor_loop f s (rlink n) rl [] vrl r0 kr rr) as (c' & q & kq & rq & r' & kr' & o' & E & Hpl & Hal & Hc' & Hq);
    try done; [|by constructor|].
  { intros p Hp. apply (live_node s live F p Hi), Hsr. unfold r. simpl. rewrite fmap_app. unfold addrs in Hp. set_solver. }
  set (c2 := Fr true r' kr' o' :: c') in *. assert (before c2 = []) as Eb by (apply all_left_before; by constructor).
  assert (elems r = (q, kq) :: elems rq ++ after c2) as Er.
  { change r with (plug [Fr true r0 kr rr] rl). rewrite <- Hpl, elems_plug, Eb. done. }
  assert (ctx_elems c2 = after c2) as Ec by (unfold ctx_elems; by rewrite Eb).
  assert (sub_nodes live (ctx_elems c2 ++ (q, kq) :: elems rq)) as Hs2.
  { rewrite Ec. rewrite Er in Hsr. 
    assert (after c2 ++ (q, kq) :: elems rq ≡ₚ (q, kq) :: elems rq ++ after c2) as -> by solve_Permutation. done. }
  assert (forall p, p ∈ (ctx_elems c2).*1 -> p ∈ (elems r).*1) as Hin by (intros p; rewrite Ec, Er; memb).
  destruct (unlink_successor s live F n c2 q kq rq) as (s1 & vr & vqr & Wqr & E1 & I1 & W1 & R1 & K1 & G1); try done.
  { intros Hx%Hin. apply Hnn. memb. }
  assert (chg (foot (elems l ++ elems r)) (st_mem s) (st_mem s1)) as G1'.
  { eapply chg_mono; [exact G1|]. intros a (p & j & Hp & Ha). exists p, j. split; [|done]. rewrite Ec in Hp. rewrite Er. memb. }
  assert (forall a, foot (ctx_elems c2) a -> ~ node_cells n a) as Hcn.
  { intros a Hfa Ha. eapply (foot_apart s live F n (ctx_elems c2) a); try done. intros p Hp. split; [apply Hsr; auto|].
    intros ->. apply Hnn. apply Hin in Hp. memb. }
  assert (word_at (st_mem s1) (llink n) vl) as Wl1.
  { eapply word_chg; [exact G1|done|]. intros a Ha Hfa. eapply Hcn; [done|]. by apply (link_cells true). }
  assert (reps (st_mem s1) vl l) as Rl1.
  { eapply reps_chg; [exact Rl|exact G1|]. intros a. apply (foot_apart2 s live F); [done|intros; apply Hsr; auto|].
    intros p Hp. split; [by apply Hsl|]. intros Hx%Hin. eapply Hdl; [done|]. memb. }
  pose proof Hs2 as Hs2'. apply sub_nodes_app in Hs2' as (_ & Hs3 & Hd3). apply sub_nodes_cons in Hs3 as (Hlq & Hs3 & Hq3).
  destruct (adopt_node s1 live F q kq l vl (plug c2 rq) vr) as (s2 & s3 & E2 & E3 & I3 & R3 & G2 & G3); try done.
  { intros p. rewrite elems_plug, Eb. simpl. rewrite fmap_app, elem_of_app. intros [Hp|Hp].
    - split; [by apply Hsl|]. intros ->. eapply Hdl; [done|]. rewrite Er. memb.
    - rewrite fmap_app, elem_of_app in Hp. split; [apply Hsr; rewrite Er; memb|]. intros ->.
      destruct Hp as [Hp|Hp]; [done|]. eapply (Hd3 q); [by rewrite Ec|]. memb. }
  assert ((q, kq) ∈ elems l ++ elems r) as Hqr by (rewrite Er; memb).
  assert (forall a, word_cells (place root c) a -> ~ node_cells q a) as Hpq.
  { intros a. apply (place_apart s live F); try done. intros Hx. eapply (Hdr q); [|exact Hx]. rewrite Er. memb. }
  assert (forall a, node_cells n a -> ~ node_cells q a) as Hnq.
  { intros a Ha Hb. assert (n = q) as -> by (by apply (sep_nodes s live F n q a)). apply Hnn. rewrite Er. memb. }
  assert (word_at (st_mem s1) (place root c) n) as Wp.
  { apply ctx_place. by apply (ctx_kept s live F root c n k l r). }
  assert (chg (foot (elems l ++ elems r)) (st_mem s) (st_mem s3)) as G by (etransitivity; [exact G1'|by eapply chg_foot]).
  exists q, s3, (Node l q kq (plug c2 rq)). split.
  - rewrite (bind_eq _ _ _ _ _ E), (bind_eq _ _ _ _ _ (load_ptr_eq _ _ _ Wqr)), (bind_eq _ _ _ _ _ E1).
    rewrite (bind_eq _ _ _ _ _ (load_ptr_eq _ _ _ Wp)), (bind_eq _ _ _ _ _ (load_ptr_eq _ _ _ Wl1)), (bind_eq _ _ _ _ _ E2).
    rewrite (bind_eq _ _ _ _ _ (load_ptr_eq s2 (place root c) n ltac:(by eapply word_chg))).
    rewrite (bind_eq _ _ _ _ _ (load_ptr_eq s2 (rlink n) vr ltac:(eapply word_chg; [exact G2|done|];
      intros a Ha; by eapply Hnq, (link_cells false)))).
    by rewrite (bind_eq _ _ _ _ _ E3).
  - split; try done; [by apply (ctx_kept s live F root c n k l r)|]. cbn [elems]. by rewrite elems_plug, Eb, Er.
Qed.

Lemma replacement_spec f s live F root c n k l r :
  (height r <= f)%nat -> alloc_inv s live F -> (forall a, word_cells root a -> a ∈ F) ->
  sub_nodes live ((n, k) :: elems l ++ elems r ++ ctx_elems c) -> ctx_reps (st_mem s) root c n ->
  reps (st_mem s) n (Node l n k r) ->
  exists q s1 t', replacement f (place root c) s = Some (q, s1) /\ replaced s live F root c n l r q s1 t'.
Proof.
  intros Hf Hi Hr Hs Hc (_ & Wk & vl & vr & Wl & Rl & Wr & Rr).
  assert (forall t p, t = l \/ t = r -> p ∈ addrs t -> live !! p = Some sizeof_node_t) as Hlive.
  { intros t p Ht Hp. apply Hs. unfold addrs in Hp. destruct Ht as [->| ->]; memb. }
  assert (forall t v, t = l \/ t = r -> reps (st_mem s) v t -> (v =? NULL) = true <-> t = Leaf) as Hnull.
  { intros t v Ht Hv. destruct (reps_range _ _ _ Hv) as [_ Hx]; [|by rewrite Z.eqb_eq].
    intros p Hp. apply (live_node s live F p Hi). by apply (Hlive t). }
  unfold replacement. rewrite (bind_eq _ _ _ _ _ (load_ptr_eq _ _ _ (ctx_place _ _ _ _ Hc))).
  rewrite (bind_eq _ _ _ _ _ (load_ptr_eq _ _ _ Wr)), (bind_eq _ _ _ _ _ (load_ptr_eq _ _ _ Wl)).
  destruct (vl =? NULL) eqn:El.
  { apply (Hnull l) in El; [subst l|by left|done]. exists vr, s, r. split; [done|]. split; done. }
  destruct (vr =? NULL) eqn:Er; cbn [negb].
  { apply (Hnull r) in Er; [subst r|by right|done]. exists vl, s, l. split; [done|]. split; try done. simpl. by rewrite app_nil_r. }
  destruct r as [|rl r0 kr rr]; [simpl in Rr; subst vr; done|].
  destruct Rr as (-> & Wk0 & vrl & vrr & Wrl & Rrl & Wrr & Rrr).
  rewrite (bind_eq _ _ _ _ _ (load_ptr_eq _ _ _ Wrl)). destruct (vrl =? NULL) eqn:Erl.
  - destruct (reps_range _ _ _ Rrl) as [_ Hx].
    { intros p Hp. apply (live_node s live F p Hi), (Hlive (Node rl r0 kr rr)); [by right|]. unfold addrs in *. simpl. memb. }
    apply Z.eqb_eq, Hx in Erl. subst rl.
    destruct (replace_right s live F l r0 kr rr vl vrr) as (s1 & E1 & I1 & R1 & G1); try done.
    { apply sub_nodes_cons in Hs as (_ & Hs & _). rewrite app_assoc in Hs. by apply sub_nodes_app in Hs as (Hs & _). }
    assert (chg (foot (elems l ++ elems (Node Leaf r0 kr rr))) (st_mem s) (st_mem s1)) as G.
    { eapply chg_foot; [|exact G1]. simpl. memb. }
    exists r0, s1, (Node l r0 kr rr). split; [by rewrite (bind_eq _ _ _ _ _ E1)|]. split; try done.
    by apply (ctx_kept s live F root c n k l (Node Leaf r0 kr rr)).
  - apply (replace_deep f s live F root c n k l vl r0 kr rl rr vrl); try done.
    + simpl in Hf. lia.
    + intros ->. simpl in Rrl. by subst vrl.
    + simpl. split_and!; try done. by exists vrr.
Qed.

(** ** The deletion *)

(** The node leaves the tree and is freed; the result is its parent, or the
    address of the node itself when it was the root. *)
Record deleted s live F root t vkey r s' : Prop := {
  del_tree : exists c l p k r0 t', t = plug c (Node l p k r0) /\ compar vkey k = 0 /\ r = parent c p /\
    elems t' = before c ++ elems l ++ elems r0 ++ after c /\ tree_at s' (delete p live) F root t';
  del_others : others_kept live F root t (st_mem s) (st_mem s') }.

Lemma height_plug c t : (height t <= height (plug c t))%nat.
Proof.
  revert t. induction c as [|[d p k o] c IH]; intros t; simpl; [done|].
  etransitivity; [|apply IH]. destruct d; simpl; lia.
Qed.

Lemma replacement_mono rootp : mono (fun f => replacement (S := S) f rootp).
Proof. unfold replacement. mono_solve. Qed.

(** The node is freed and the link set. *)
Lemma free_and_link s1 live F root c n k q t' :
  alloc_inv s1 live F -> (forall a, word_cells root a -> a ∈ F) -> sub_nodes live ((n, k) :: elems t' ++ ctx_elems c) ->
  ctx_reps (st_mem s1) root c n -> reps (st_mem s1) q t' ->
  exists f0 s3, (forall f, (f0 <= f)%nat ->
      (do n <- load_ptr (place root c); run op_free f n; store_ptr (place root c) q) s1 = Some (tt, s3)) /\
    alloc_inv s3 (delete n live) F /\ ctx_reps (st_mem s3) root c q /\ reps (st_mem s3) q t' /\
    forall a, owns (delete n live) F a -> ~ word_cells (place root c) a -> st_mem s3 !! a = st_mem s1 !! a.
Proof.
  intros Hi Hr Hs Hc Ht. apply sub_nodes_cons in Hs as (Hn & Hs & Hnn).
  assert (sub_nodes (delete n live) (elems t' ++ ctx_elems c)) as Hs'.
  { destruct Hs as [Hd Hl]. split; [done|]. intros p Hp. rewrite lookup_delete_ne; [auto|]. by intros ->. }
  pose proof Hs' as Hs2. apply sub_nodes_app in Hs2 as ([Hnt Hlt] & [Hnc Hlc] & Hd).
  destruct (alloc_free s1 live F n Hi ltac:(by rewrite Hn)) as (f0 & s2 & Ef & I2 & K2).
  assert (ctx_reps (st_mem s2) root c n) as Hc2.
  { eapply ctx_agree; [exact Hc|]. intros a Ha. apply K2. destruct Ha as [Ha|Ha]; [right; auto|by eapply foot_owned]. }
  assert (reps (st_mem s2) q t') as Ht2.
  { eapply reps_agree; [exact Ht|]. intros a Ha. apply K2. by apply (foot_owned _ _ (elems t')). }
  destruct (reps_range _ _ _ Ht2) as [Bq _]; [intros p Hp; by apply (live_node s2 (delete n live) F p I2), Hlt|].
  destruct (ctx_store s2 (delete n live) F root c n q) as (s3 & E3 & I3 & C3 & G3); try done; [by right| |].
  { intros p a Hp. apply (sep_root s2 (delete n live) F root p a); auto. }
  exists f0, s3. split_and!; try done.
  - intros f Hf. rewrite (bind_eq _ _ _ _ _ (load_ptr_eq _ _ _ (ctx_place _ _ _ _ Hc))). by rewrite (bind_eq _ _ _ _ _ (Ef f Hf)).
  - eapply reps_chg; [exact Ht2|exact G3|]. intros a Ha (p & j & Hp & Hpa).
    assert (p ∈ (elems t').*1) as Hp1 by (apply list_elem_of_fmap; by exists (p, j)).
    eapply (place_apart s2 (delete n live) F root c p a); try done; [auto|]. intros Hx. eauto.
  - intros a Ha Hpl. rewrite (chg_out _ _ _ G3) by done. by apply K2.
Qed.

Lemma delete_node vkey s live F root c n k l r q s1 t' :
  tree_at s live F root (plug c (Node l n k r)) -> compar vkey k = 0 -> replaced s live F root c n l r q s1 t' ->
  exists f0 s3, (forall f, (f0 <= f)%nat ->
      (do n <- load_ptr (place root c); run op_free f n; store_ptr (place root c) q) s1 = Some (tt, s3)) /\
    deleted s live F root (plug c (Node l n k r)) vkey (parent c n) s3.
Proof.
  intros [Hi [Hr0 Hr] _ Hn Hl Hs] Ek [I1 C1 T1 Et G1].
  assert (sub_nodes live ((n, k) :: elems l ++ elems r ++ ctx_elems c)) as Hsub.
  { rewrite <- plug_perm. done. }
  assert (elems (plug c t') ≡ₚ elems t' ++ ctx_elems c) as Hp' by (rewrite elems_plug; unfold ctx_elems; solve_Permutation).
  assert (sub_nodes live ((n, k) :: elems t' ++ ctx_elems c)) as Hsub'.
  { rewrite Et, <- app_assoc. done. }
  destruct (free_and_link s1 live F root c n k q t' I1 Hr Hsub' C1 T1) as (f0 & s3 & Ef & I3 & C3 & T3 & K3).
  exists f0, s3. split; [done|]. split.
  - exists c, l, n, k, r, (plug c t'). split_and!; try done; [by rewrite elems_plug, Et, <- app_assoc|].
    apply sub_nodes_cons in Hsub' as (_ & Hsn & Hnn). rewrite <- Hp' in Hsn, Hnn. destruct Hsn as [Nd Hl']. split; try done.
    + apply plug_reps. by exists q.
    + intros p Hp. rewrite lookup_delete_ne; [by apply Hl'|]. by intros ->.
    + by eapply sorted_remove.
  - intros a Ha Hroot Hf. rewrite K3; [apply (chg_out _ _ _ G1)|..].
    + intros (p & j & Hp%elem_of_app & Hpa). apply Hf. exists p, j. split; [|done]. rewrite plug_perm. memb.
    + destruct Ha as [(p & m & Hp & Ha)|Ha]; [left; exists p, m|by right]. split; [|done]. rewrite lookup_delete_ne; [done|].
      intros <-. apply Hf. exists n, k. rewrite plug_perm. split; [memb|]. apply sub_nodes_cons in Hsub as (Hn' & _).
      unfold node_cells. replace sizeof_node_t with m; [done|congruence].
    + intros Hp. destruct (decide (c = [])) as [->|Hc]; [done|]. apply place_foot in Hp as (p & j & Hp & Hpa); [|done].
      apply Hf. exists p, j. split; [|done]. rewrite plug_perm. memb.
Qed.

Lemma tdelete_spec vkey s live F root t :
  tree_at s live F root t ->
  exists f0 r s', (forall f, (f0 <= f)%nat -> tdelete compar f vkey root s = Some (r, s')) /\
    ((r = NULL /\ s' = s /\ forall e, e ∈ elems t -> compar vkey e.2 <> 0) \/ deleted s live F root t vkey r s').
Proof.
  intros Ht. pose proof Ht as [Hi [Hr0 Hr] (v & Wv & Rv) Hn Hl Hs].
  assert (forall f, tdelete compar f vkey root s = (if v =? NULL then ret NULL
    else do x <- loop (tdelete_step compar vkey) f (v, root);
      match x with None => ret NULL | Some (p, rootp) =>
        do q <- replacement f rootp; do n <- load_ptr rootp; run op_free f n; run store_ptr rootp q; ret p end) s) as Eu.
  { intros f. unfold tdelete. rewrite (proj2 (Z.eqb_neq root NULL)) by (unfold NULL; lia).
    by rewrite (bind_eq _ _ _ _ _ (load_ptr_eq _ _ _ Wv)). }
  assert (forall p, p ∈ addrs t -> 0 < p < 2 ^ long_bits) as Hpos.
  { intros p Hp. by apply (live_node s live F p Hi), Hl. }
  destruct (reps_range _ _ _ Rv Hpos) as [_ Hnull]. destruct (Z.eqb_spec v NULL) as [E0|E0].
  { exists 0%nat, NULL, s. split; [done|]. left. split_and!; try done. apply Hnull in E0 as ->. intros e He. simpl in He. set_solver. }
  destruct (delete_loop vkey (height t) s root t [] v) as (x & E & Hx); try done; [by intros ->%Hnull|intros; by apply Hpos|].
  assert (forall f, (height t <= f)%nat -> loop (tdelete_step compar vkey) f (v, root) s = Some (x, s)) as El.
  { intros f Hf. eapply (mono_loop (fun _ => tdelete_step compar vkey)); [intros; apply mono_const|exact E|done]. }
  destruct Hx as [(c & l & n & k & r & -> & Epl & Ek & Hc & Hv)|[-> Habs]].
  - simpl in Epl. subst t. assert (height r <= height (plug c (Node l n k r)))%nat as Hh.
    { etransitivity; [|apply height_plug]. simpl. lia. }
    destruct (replacement_spec _ s live F root c n k l r Hh Hi Hr) as (q & s1 & t' & E1 & R1); try done.
    { rewrite <- plug_perm. done. }
    destruct (delete_node vkey s live F root c n k l r q s1 t' Ht Ek R1) as (f1 & s3 & E3 & D3).
    exists (Nat.max f1 (height (plug c (Node l n k r)))), (parent c n), s3. split; [|by right].
    intros f Hf. rewrite Eu, (bind_eq _ _ _ _ _ (El f ltac:(lia))).
    rewrite (bind_eq _ _ _ _ _ (replacement_mono _ _ f _ _ E1 ltac:(lia))). specialize (E3 f ltac:(lia)).
    unfold bind in E3 |- *. destruct (load_ptr (place root c) s1) as [[n' s1']|]; [|done].
    destruct (op_free f n' s1') as [[[] s2]|]; [|done]. by rewrite E3.
  - exists (height t), NULL, s. split; [|by left]. intros f Hf. by rewrite Eu, (bind_eq _ _ _ _ _ (El f Hf)).
Qed.
End spec.
