(* ===== verification/TreeWalk.v ===== *)
(** * Search trees: the traversals

    [twalk] and [tdestroy] call a function of the client; what it does is a
    hypothesis, with a predicate of the client that records the calls made so
    far. *)

From stdpp Require Import base list gmap sorting.
From Stdlib Require Import ZArith Lia.
From S2P Require Import Prelude CMem StrLocal StrMem Malloc MallocList MallocHeap MallocSys Alloc Search Tree TreeSpec.

Local Open Scope Z_scope.

(** The calls of a walk: a leaf is visited once, another node before, between
    and after its subtrees. *)
Fixpoint visits (t : tree) (level : Z) : list (Z * VISIT * Z) :=
  match t with
  | Leaf => []
  | Node Leaf p _ Leaf => [(p, leaf, level)]
  | Node l p _ r =>
      (p, preorder, level) :: visits l (level + 1) ++ (p, postorder, level) :: visits r (level + 1) ++
      [(p, endorder, level)]
  end.

(** The keys with the children before the parent. *)
Fixpoint post_keys (t : tree) : list Z :=
  match t with Leaf => [] | Node l _ k r => post_keys l ++ post_keys r ++ [k] end.

Section walk.
Context {S : Type} `{Arch} `{AllocOps S}.
Variables (action : Z -> VISIT -> Z -> C S unit) (D : Z -> Prop) (P : list (Z * VISIT * Z) -> S -> Prop).

(** The action returns and leaves the nodes of the tree as they are. *)
Hypothesis action_ok : forall s vs p v lv, P vs s ->
  exists s', action p v lv s = Some (tt, s') /\ P (vs ++ [(p, v, lv)]) s' /\ agree D (st_mem s) (st_mem s').

Lemma twalk_trecurse_spec t depth s vs v level :
  reps (st_mem s) v t -> t <> Leaf -> (height t <= depth)%nat -> 0 <= level -> level + Z.of_nat (height t) <= INT_MAX ->
  (forall a, foot (elems t) a -> D a) -> (forall p, p ∈ addrs t -> p <> NULL) -> P vs s ->
  exists s', twalk_trecurse action depth v level s = Some (tt, s') /\ P (vs ++ visits t level) s' /\
    agree D (st_mem s) (st_mem s').
Proof.
  revert depth s vs v level. induction t as [|l IHl p k r IHr]; intros depth s vs v level Hv Hne Hd Hlv Hmax HD Hnn HP; [done|].
  destruct depth as [|depth]; [simpl in Hd; lia|]. simpl in Hd, Hmax.
  assert (forall t0 s0 v0 vs0, (t0 = l \/ t0 = r) -> agree D (st_mem s) (st_mem s0) -> reps (st_mem s0) v0 t0 -> P vs0 s0 ->
    exists s1, (if negb (v0 =? NULL) then do lv <- int_ (level + 1); twalk_trecurse action depth v0 lv else ret tt) s0
      = Some (tt, s1) /\ P (vs0 ++ visits t0 (level + 1)) s1 /\ agree D (st_mem s) (st_mem s1)) as Hsub.
  { intros t0 s0 v0 vs0 Ht0 Ha0 Hv0 HP0. destruct (decide (t0 = Leaf)) as [->|Hl0].
    - simpl in Hv0. subst v0. exists s0. simpl. by rewrite app_nil_r.
    - assert (forall e, e ∈ elems t0 -> e ∈ elems (Node l p k r)) as Hin.
      { intros e He. simpl. destruct Ht0 as [->| ->]; set_solver. }
      assert (v0 <> NULL) as Hv00.
      { destruct t0 as [|l0 p0 k0 r0]; [done|]. destruct Hv0 as [-> _]. apply Hnn. apply list_elem_of_fmap.
        exists (p0, k0). split; [done|]. apply Hin. simpl. set_solver. }
      rewrite (proj2 (Z.eqb_neq v0 NULL) Hv00). cbn [negb]. unfold int_, fits_int. rewrite (proj2 (Z.leb_le _ _)), (proj2 (Z.leb_le _ _))
        by (unfold INT_MIN; lia). cbn [andb].
      assert (exists s1, twalk_trecurse action depth v0 (level + 1) s0 = Some (tt, s1) /\
        P (vs0 ++ visits t0 (level + 1)) s1 /\ agree D (st_mem s0) (st_mem s1)) as (s1 & E & HP1 & Ha1).
      { destruct Ht0 as [->| ->]; [apply IHl|apply IHr]; try done; try lia;
          try (intros a (q & j & Hq & Hc); apply HD; exists q, j; auto);
          intros q (e & -> & He%Hin)%list_elem_of_fmap; apply Hnn, list_elem_of_fmap; by exists e. }
      exists s1. split_and!; try done. intros a Ha. rewrite Ha1, Ha0 by done. done. }
  assert (forall s0, agree D (st_mem s) (st_mem s0) -> reps (st_mem s0) v (Node l p k r)) as Hrep.
  { intros s0 Ha. eapply reps_agree; [done|]. eapply agree_sub; [exact Ha|done]. }
  destruct (Hrep s ltac:(done)) as (-> & _ & vl & vr & Wl & Rl & Wr & Rr).
  assert (forall t0 v0, t0 = l \/ t0 = r -> reps (st_mem s) v0 t0 -> (v0 =? NULL) = true <-> t0 = Leaf) as Hz.
  { intros t0 v0 Ht0 Hv0. rewrite Z.eqb_eq. destruct t0 as [|l0 p0 k0 r0]; simpl in Hv0; [done|]. destruct Hv0 as [-> _].
    split; [|done]. intros ->. exfalso. apply (Hnn NULL); [|done]. apply list_elem_of_fmap. exists (NULL, k0). split; [done|].
    simpl. destruct Ht0 as [<-|<-]; simpl; set_solver. }
  cbn [twalk_trecurse]. rewrite (bind_eq _ _ _ _ _ (load_ptr_eq _ _ _ Wl)), (bind_eq _ _ _ _ _ (load_ptr_eq _ _ _ Wr)).
  destruct ((vl =? NULL) && (vr =? NULL)) eqn:Eb.
  { apply andb_true_iff in Eb as [E1 E2]. apply (Hz l) in E1 as ->; [|by left|done]. apply (Hz r) in E2 as ->; [|by right|done].
    destruct (action_ok s vs p leaf level HP) as (s1 & E & HP1 & Ha1). by exists s1. }
  destruct (action_ok s vs p preorder level HP) as (s1 & E1 & HP1 & Ha1). rewrite (bind_eq _ _ _ _ _ E1).
  destruct (Hrep s1 Ha1) as (_ & _ & vl1 & _ & Wl1 & Rl1 & _). rewrite (bind_eq _ _ _ _ _ (load_ptr_eq _ _ _ Wl1)).
  destruct (Hsub l s1 vl1 _ (or_introl eq_refl) Ha1 Rl1 HP1) as (s2 & E2 & HP2 & Ha2). rewrite (bind_eq _ _ _ _ _ E2).
  destruct (action_ok s2 _ p postorder level HP2) as (s3 & E3 & HP3 & Ha3). rewrite (bind_eq _ _ _ _ _ E3).
  assert (agree D (st_mem s) (st_mem s3)) as Ha3' by (intros a Ha; rewrite Ha3, Ha2 by done; done).
  destruct (Hrep s3 Ha3') as (_ & _ & _ & vr3 & _ & _ & Wr3 & Rr3). rewrite (bind_eq _ _ _ _ _ (load_ptr_eq _ _ _ Wr3)).
  destruct (Hsub r s3 vr3 _ (or_intror eq_refl) Ha3' Rr3 HP3) as (s4 & E4 & HP4 & Ha4). rewrite (bind_eq _ _ _ _ _ E4).
  destruct (action_ok s4 _ p endorder level HP4) as (s5 & E5 & HP5 & Ha5). exists s5. split_and!; [done| |].
  - replace (visits (Node l p k r) level) with ((p, preorder, level) :: visits l (level + 1) ++ (p, postorder, level) ::
      visits r (level + 1) ++ [(p, endorder, level)]).
    + rewrite <- !app_assoc in HP5. exact HP5.
    + destruct l, r; try done. simpl in Rl, Rr. subst vl vr. done.
  - intros a Ha. rewrite Ha5, Ha4 by done. done.
Qed.
End walk.

(** ** tdestroy *)

(** The blocks that are left when those at [ps] are freed. *)
Definition remove (ps : list Z) (N : gmap Z Z) : gmap Z Z := filter (fun x => x.1 ∉ ps) N.

Lemma lookup_remove ps N p n : remove ps N !! p = Some n <-> N !! p = Some n /\ p ∉ ps.
Proof. apply map_lookup_filter_Some. Qed.

Lemma remove_sub ps N : remove ps N ⊆ N.
Proof. apply map_filter_subseteq. Qed.

Lemma remove_remove ps qs N : remove qs (remove ps N) = remove (ps ++ qs) N.
Proof. apply map_eq. intros p. apply option_eq. intros n. rewrite !lookup_remove. set_solver. Qed.

Lemma remove_ext ps qs N : (forall p, p ∈ ps <-> p ∈ qs) -> remove ps N = remove qs N.
Proof. intros E. apply map_eq. intros p. apply option_eq. intros n. rewrite !lookup_remove. by rewrite E. Qed.

Lemma remove_one p N : remove [p] N = delete p N.
Proof. apply map_eq. intros q. apply option_eq. intros n. rewrite lookup_remove, lookup_delete_Some. set_solver. Qed.

Section destroy.
Context {S : Type} `{Arch} `{AllocOps S} {AOk : AllocOk S}.
Variables (free_action : Z -> C S unit) (F : gset Z) (P : gmap Z Z -> list Z -> S -> Prop).
Implicit Types (N rest : gmap Z Z).

(** The action may free and allocate; it leaves the nodes of the tree. *)
Hypothesis free_action_ok : forall s N rest ks k, alloc_inv s (N ∪ rest) F -> N ##ₘ rest -> P rest ks s ->
  exists s' rest', free_action k s = Some (tt, s') /\ alloc_inv s' (N ∪ rest') F /\ N ##ₘ rest' /\
    P rest' (ks ++ [k]) s' /\ kept N ∅ (st_mem s) (st_mem s').

(** The predicate is about the client's own memory, which [free] keeps. *)
Hypothesis client_free : forall f p s s' rest ks, op_free f p s = Some (tt, s') ->
  kept rest F (st_mem s) (st_mem s') -> P rest ks s -> P rest ks s'.

Definition nodes_in N (t : tree) : Prop := NoDup (addrs t) /\ forall p, p ∈ addrs t -> N !! p = Some sizeof_node_t.

(** The state after the nodes of [t] are gone. *)
Definition destroyed s N (t : tree) ks rest' s' : Prop :=
  alloc_inv s' (remove (addrs t) N ∪ rest') F /\ remove (addrs t) N ##ₘ rest' /\ P rest' (ks ++ post_keys t) s' /\
  kept (remove (addrs t) N) ∅ (st_mem s) (st_mem s').

Lemma reps_kept N m m' v t :
  reps m v t -> (forall p, p ∈ addrs t -> N !! p = Some sizeof_node_t) -> kept N ∅ m m' -> reps m' v t.
Proof. intros Hr Hn Hk. eapply reps_agree; [done|]. intros a Ha. apply Hk. by eapply foot_owned. Qed.

Lemma kept_sub N N' m m' : N' ⊆ N -> kept N ∅ m m' -> kept N' ∅ m m'.
Proof. intros Hs Hk a Ha. apply Hk. by eapply owns_sub. Qed.

Lemma kept_trans N m1 m2 m3 : kept N ∅ m1 m2 -> kept N ∅ m2 m3 -> kept N ∅ m1 m3.
Proof. intros H1 H2 a Ha. by rewrite H2, H1. Qed.

(** The last steps of a call: the key, then the node. *)
Lemma free_node s N rest ks p k :
  alloc_inv s (N ∪ rest) F -> N ##ₘ rest -> P rest ks s -> N !! p = Some sizeof_node_t -> word_at (st_mem s) (key p) k ->
  exists f0 s' rest', (forall f, (f0 <= f)%nat -> (do k <- load_ptr (key p); run free_action k; op_free f p) s = Some (tt, s')) /\
    alloc_inv s' (delete p N ∪ rest') F /\ delete p N ##ₘ rest' /\ P rest' (ks ++ [k]) s' /\
    kept (delete p N) ∅ (st_mem s) (st_mem s').
Proof.
  intros Hi Hd HP Hp Wk. destruct (free_action_ok s N rest ks k Hi Hd HP) as (s1 & rest1 & E1 & I1 & D1 & P1 & K1).
  destruct (alloc_free s1 (N ∪ rest1) F p I1) as (f0 & s2 & E2 & I2 & K2).
  { exists sizeof_node_t. by apply lookup_union_Some_l. }
  rewrite delete_union in I2, K2. rewrite (delete_id rest1) in I2, K2 by (by eapply map_disjoint_Some_l).
  exists f0, s2, rest1. split_and!; try done.
  - intros f Hf. rewrite (bind_eq _ _ _ _ _ (load_ptr_eq _ _ _ Wk)), (bind_eq _ _ _ _ _ E1). by apply E2.
  - by apply map_disjoint_delete_l.
  - eapply (client_free f0 p s1 s2); [by apply E2| |done]. intros a Ha. apply K2. eapply owns_sub; [|exact Ha].
    apply map_union_subseteq_r. by apply map_disjoint_delete_l.
  - intros a Ha. rewrite K2; [|destruct Ha as [Ha|Ha]; [|set_solver]].
    + apply K1. eapply owns_sub; [apply delete_subseteq|done].
    + eapply owns_sub; [|by left]. apply map_union_subseteq_l.
Qed.

Definition destroys (t : tree) (depth : nat) (call : nat -> C S unit) s : Prop :=
  forall N rest ks, nodes_in N t -> alloc_inv s (N ∪ rest) F -> N ##ₘ rest -> P rest ks s ->
  exists f0 s' rest', (forall f, (f0 <= f)%nat -> call f s = Some (tt, s')) /\ destroyed s N t ks rest' s'.

(** A subtree that may be empty. *)
Lemma destroy_child t depth s lnk v :
  word_at (st_mem s) lnk v -> reps (st_mem s) v t -> (forall p, p ∈ addrs t -> p <> NULL) ->
  (t <> Leaf -> destroys t depth (fun f => tdestroy_trecurse free_action f depth v) s) ->
  destroys t depth (fun f => if negb (v =? NULL) then do l <- load_ptr lnk; tdestroy_trecurse free_action f depth l else ret tt) s.
Proof.
  intros Wv Rv Hnn IH N rest ks Hn Hi Hd HP. destruct (decide (t = Leaf)) as [->|Ht].
  - simpl in Rv. subst v. exists 0%nat, s, rest. split; [done|]. unfold destroyed, addrs. simpl. rewrite app_nil_r.
    assert (remove [] N = N) as -> by (apply map_eq; intros p; apply option_eq; intros n; rewrite lookup_remove; set_solver).
    done.
  - destruct (IH Ht N rest ks Hn Hi Hd HP) as (f0 & s' & rest' & E & HD). exists f0, s', rest'. split; [|done].
    intros f Hf. destruct (Z.eqb_spec v NULL) as [->|_]; cbn [negb].
    + destruct t as [|l p k r]; [done|]. destruct Rv as [Ep _]. exfalso. apply (Hnn p); [|done].
      apply list_elem_of_fmap. exists (p, k). simpl. set_solver.
    + rewrite (bind_eq _ _ _ _ _ (load_ptr_eq _ _ _ Wv)). by apply E.
Qed.

Lemma nodes_in_parts N l p k r :
  nodes_in N (Node l p k r) ->
  nodes_in N l /\ nodes_in (remove (addrs l) N) r /\ remove (addrs r) (remove (addrs l) N) !! p = Some sizeof_node_t /\
  N !! p = Some sizeof_node_t /\
  delete p (remove (addrs r) (remove (addrs l) N)) = remove (addrs (Node l p k r)) N.
Proof.
  unfold nodes_in, addrs. simpl. rewrite fmap_app, fmap_cons. simpl. intros [Hnd Hin].
  apply NoDup_app in Hnd as (Nl & Nx & Nr). apply NoDup_cons in Nr as [Npr Nr]. split_and!; try done.
  - intros q Hq. apply Hin. set_solver.
  - intros q Hq. apply lookup_remove. split; [apply Hin; set_solver|]. intros Hx. eapply Nx; [done|by right].
  - rewrite remove_remove. apply lookup_remove. split; [apply Hin; set_solver|].
    intros [Hx|Hx]%elem_of_app; [eapply Nx; [exact Hx|by left]|done].
  - apply Hin. set_solver.
  - rewrite <- remove_one, !remove_remove. apply remove_ext. set_solver.
Qed.

Lemma alloc_node_nonnull s N rest p : alloc_inv s (N ∪ rest) F -> N !! p = Some sizeof_node_t -> p <> NULL.
Proof.
  intros Hi Hp. destruct (alloc_block s (N ∪ rest) F p sizeof_node_t Hi) as [Hpos _]; [by apply lookup_union_Some_l|].
  unfold NULL. lia.
Qed.

Lemma tdestroy_trecurse_spec t depth s v :
  reps (st_mem s) v t -> t <> Leaf -> (height t <= depth)%nat ->
  destroys t depth (fun f => tdestroy_trecurse free_action f depth v) s.
Proof.
  revert depth s v. induction t as [|l IHl p k r IHr]; intros depth s v Hv Hne Hd N rest ks Hn Hi Hdj HP; [done|].
  destruct depth as [|depth]; [simpl in Hd; lia|]. simpl in Hd. destruct Hv as (-> & Wk & vl & vr & Wl & Rl & Wr & Rr).
  destruct (nodes_in_parts N l p k r Hn) as (Hnl & Hnr & Hp2 & Hp0 & Erem).
  destruct (destroy_child l depth s (llink p) vl Wl Rl) with N rest ks as (f1 & s1 & rest1 & E1 & I1 & D1 & P1 & K1); try done.
  { intros q Hq. eapply alloc_node_nonnull; [exact Hi|by apply Hnl]. }
  { intros Hl. apply IHl; [done..|lia]. }
  set (N1 := remove (addrs l) N) in *. set (N2 := remove (addrs r) N1) in *.
  assert (N1 !! p = Some sizeof_node_t) as Hp1 by (eapply lookup_weaken; [exact Hp2|apply remove_sub]).
  assert (forall q, node_cells p q -> owns N1 ∅ q) as Ho1 by (intros q Hq; left; by exists p, sizeof_node_t).
  assert (forall q, node_cells p q -> owns N2 ∅ q) as Ho2 by (intros q Hq; left; by exists p, sizeof_node_t).
  assert (word_at (st_mem s1) (rlink p) vr) as Wr1.
  { eapply word_kept; [exact K1| |exact Wr]. intros a Ha. by apply Ho1, (link_cells false). }
  assert (reps (st_mem s1) vr r) as Rr1 by (eapply reps_kept; [done|apply Hnr|done]).
  destruct (destroy_child r depth s1 (rlink p) vr Wr1 Rr1) with N1 rest1 (ks ++ post_keys l)
    as (f2 & s2 & rest2 & E2 & I2 & D2 & P2 & K2); try done.
  { intros q Hq. eapply alloc_node_nonnull; [exact I1|by apply Hnr]. }
  { intros Hr. apply IHr; [done..|lia]. }
  assert (kept N2 ∅ (st_mem s) (st_mem s2)) as K12 by (eapply kept_trans; [eapply kept_sub; [apply remove_sub|exact K1]|exact K2]).
  assert (word_at (st_mem s2) (key p) k) as Wk2.
  { eapply word_kept; [exact K12| |exact Wk]. intros a Ha. by apply Ho2, key_cells. }
  destruct (free_node s2 N2 rest2 _ p k I2 D2 P2 Hp2 Wk2) as (f3 & s3 & rest3 & E3 & I3 & D3 & P3 & K3).
  rewrite Erem in I3, D3, K3. exists (Nat.max f1 (Nat.max f2 f3)), s3, rest3. split.
  - intros f Hf. cbn [tdestroy_trecurse]. rewrite (bind_eq _ _ _ _ _ (load_ptr_eq _ _ _ Wl)).
    rewrite (bind_eq _ _ _ _ _ (E1 f ltac:(lia))), (bind_eq _ _ _ _ _ (load_ptr_eq _ _ _ Wr1)).
    rewrite (bind_eq _ _ _ _ _ (E2 f ltac:(lia))). by apply E3; lia.
  - split_and!; try done.
    + simpl. by rewrite !app_assoc.
    + eapply kept_trans; [|exact K3]. eapply kept_sub; [|exact K12]. rewrite <- Erem. apply delete_subseteq.
Qed.
End destroy.
