(* ===== verification/TreeProps.v ===== *)
(** * Search trees: what they guarantee

    The theorems on libc/search/tsearch.c, tfind.c, tdelete.c, twalk.c and
    tdestroy.c, for any allocator behind the interface of Alloc, evaluated with
    the allocator of libc/stdlib. *)

From stdpp Require Import base list gmap sorting.
From Stdlib Require Import ZArith Lia.
From S2P Require Import Prelude CMem StrLocal StrMem Malloc MallocList MallocHeap MallocSys MallocProps Demo.
From S2P Require Import Alloc Search Tree TreeSpec TreeWalk.

Local Open Scope Z_scope.

(** ** A concrete tree *)

Section demo.
#[local] Existing Instance LP64.
#[local] Existing Instance demo_target.
#[local] Existing Instance demo_sbrk.
#[local] Existing Instance demo_sbrk_ok.

(** The root variable is at 64, one more word of the client at 72. *)
Definition client_bytes : mem := put_bytes ∅ 64 (replicate 16 0).
Definition client_set : gset Z := dom client_bytes.

Definition tree_heap0 : heap Z := with_mem heap0 (hmem heap0 ∪ client_bytes).

Lemma cmp_order_sub : cmp_order Z.sub.
Proof. split; intros; lia. Qed.

Lemma client_bytes_apart : hmem heap0 ##ₘ client_bytes.
Proof. apply (bool_decide_eq_true_1 _). vm_compute. reflexivity. Qed.

Lemma tree_heap0_alloc : alloc_inv tree_heap0 ∅ client_set.
Proof.
  exists (hmem heap0), client_bytes. split_and!; [done|apply client_bytes_apart|done|eval_mem|].
  exists [], ∅. split; [|by split].
  change (with_mem tree_heap0 (hmem heap0)) with heap0. apply heap0_inv.
Qed.

Lemma client_root a : word_cells 64 a -> a ∈ client_set.
Proof.
  intros Ha. apply elem_of_dom. assert (mapped client_bytes 64 16) as Hm by eval_mem. apply Hm.
  revert Ha. unfold word_cells. change (Z.of_nat long_size) with 8. lia.
Qed.

Lemma tree_heap0_tree : tree_at Z.sub tree_heap0 ∅ client_set 64 Leaf.
Proof.
  split; [apply tree_heap0_alloc|split; [done|apply client_root]| |constructor|intros p Hp; by apply elem_of_nil in Hp|constructor].
  exists NULL. split; [|done]. apply word_at_check. vm_compute. reflexivity.
Qed.

(** The tree with the key 7. *)
Definition tree_heap1 : heap Z :=
  match tsearch Z.sub 99 7 64 tree_heap0 with Some (_, h) => h | None => tree_heap0 end.

Lemma tree_heap1_eq : tsearch Z.sub 99 7 64 tree_heap0 = Some (4112, tree_heap1).
Proof. vm_compute. reflexivity. Qed.

Lemma tsearch_heap_mono k r : mono (fun f => tsearch (S := heap Z) Z.sub f k r).
Proof.
  pose proof (malloc_mono (B := Z) sizeof_node_t) as Hm. unfold tsearch. cbn [op_malloc heap_alloc]. mono_solve.
Qed.

Lemma elems_one t p k : elems t = [(p, k)] -> t = Node Leaf p k Leaf.
Proof.
  destruct t as [|l q j r]; [done|]. simpl. destruct (elems l) as [|x xs] eqn:El.
  - intros [= -> -> Er]. assert (forall t, elems t = [] -> t = Leaf) as Hn.
    { intros [|? ? ? ?]; [done|]. simpl. by intros []%app_eq_nil. }
    by rewrite (Hn l El), (Hn r Er).
  - simpl. intros [= -> Hx]. by destruct xs.
Qed.

Lemma pair_inv {A B} {a c : A} {b d : B} : (a, b) = (c, d) -> c = a /\ d = b.
Proof. by intros [= -> ->]. Qed.

(** The first key of an empty tree. *)
Lemma first_insert s live F root k r s' :
  inserted (S := heap Z) Z.sub s live F root Leaf k r s' -> r <> NULL ->
  tree_at Z.sub s' (<[r := sizeof_node_t]> live) F root (Node Leaf r k Leaf).
Proof.
  intros [?|r' ? A B t' _ _ EA Et Ht] Hr; [done|]. simpl in EA. symmetry in EA. apply app_eq_nil in EA as [-> ->].
  simpl in Et. apply elems_one in Et. by subst t'.
Qed.

Lemma tree_heap1_tree : tree_at Z.sub tree_heap1 {[4112 := 24]} client_set 64 (Node Leaf 4112 7 Leaf).
Proof.
  destruct (tsearch_spec Z.sub cmp_order_sub 7 _ _ _ _ _ tree_heap0_tree) as (f0 & r & s' & E & Hr);
    [vm_compute; split; congruence|].
  destruct Hr as [(k & Hk & _)|[_ Hins]]; [simpl in Hk; by apply elem_of_nil in Hk|]. apply first_insert in Hins.
  - pose proof (pair_inv (mono_det _ _ _ _ _ _ (tsearch_heap_mono 7 64) tree_heap1_eq (E f0 (Nat.le_refl f0)))) as [Er Es].
    rewrite Er, Es in Hins. exact Hins.
  - pose proof (pair_inv (mono_det _ _ _ _ _ _ (tsearch_heap_mono 7 64) tree_heap1_eq (E f0 (Nat.le_refl f0)))) as [Er _].
    rewrite Er. discriminate.
Qed.
End demo.

Section guarantees.
Context {S : Type} `{Arch} `{AllocOps S} {AOk : AllocOk S}.
Variable compar : Z -> Z -> Z.
Implicit Types (s : S) (live : gmap Z Z) (F : gset Z) (t : tree).

(** C6: [tsearch] in a tree ordered by the comparison function returns with
    enough fuel.  If a key of the tree compares equal it returns that node and
    changes nothing; otherwise it returns NULL when there is no memory, with the
    tree as it was, or the address of a new block that is now a node with the
    new key, at its place in the order, the other nodes where they were; the rest
    of the client's memory is unchanged. *)
Theorem tsearch_correct vkey s live F root t :
  cmp_order compar -> tree_at compar s live F root t -> 0 <= vkey < 2 ^ long_bits ->
  exists f0 r s', (forall f, (f0 <= f)%nat -> tsearch compar f vkey root s = Some (r, s')) /\
    ((exists k, (r, k) ∈ elems t /\ compar vkey k = 0 /\ s' = s) \/
     (forall e, e ∈ elems t -> compar vkey e.2 <> 0) /\ inserted compar s live F root t vkey r s').
Proof. intros Ho. by apply tsearch_spec. Qed.

(** C7: [tdelete] removes the node whose key compares equal and only that: the
    remaining nodes keep their addresses, keys and order, the block of the node
    is freed, and the result is the parent of the node (for the root, its old
    address).  When no key compares equal the result is NULL and nothing
    changes. *)
Theorem tdelete_correct vkey s live F root t :
  cmp_order compar -> tree_at compar s live F root t ->
  exists f0 r s', (forall f, (f0 <= f)%nat -> tdelete compar f vkey root s = Some (r, s')) /\
    ((r = NULL /\ s' = s /\ forall e, e ∈ elems t -> compar vkey e.2 <> 0) \/
     deleted compar s live F root t vkey r s').
Proof. intros Ho. by apply tdelete_spec. Qed.

(** [tfind] changes nothing and returns the node whose key compares equal,
    or NULL when there is none. *)
Theorem tfind_correct vkey f s live F root t :
  cmp_order compar -> tree_at compar s live F root t -> (height t < f)%nat ->
  exists r, tfind compar f vkey root s = Some (r, s) /\
    ((exists k, (r, k) ∈ elems t /\ compar vkey k = 0) \/
     (r = NULL /\ forall e, e ∈ elems t -> compar vkey e.2 <> 0)).
Proof. intros Ho. by apply tfind_spec. Qed.

(** [twalk] calls the action exactly at the visits of the tree, in their
    order and with their levels, as long as the action leaves the nodes. *)
Theorem twalk_correct (action : Z -> VISIT -> Z -> C S unit) (P : list (Z * VISIT * Z) -> S -> Prop) s live F root t v :
  (forall s vs p v lv, P vs s ->
     exists s', action p v lv s = Some (tt, s') /\ P (vs ++ [(p, v, lv)]) s' /\
       agree (foot (elems t)) (st_mem s) (st_mem s')) ->
  tree_at compar s live F root t -> word_at (st_mem s) root v -> reps (st_mem s) v t ->
  Z.of_nat (height t) <= INT_MAX -> P [] s ->
  exists s', twalk (Some action) (height t) v s = Some (tt, s') /\ P (visits t 0) s'.
Proof.
  intros Ha Ht Hw Hv Hm HP. unfold twalk. destruct (decide (t = Leaf)) as [->|Hne].
  - simpl in Hv. subst v. by exists s.
  - assert (forall p, p ∈ addrs t -> p <> NULL) as Hnn.
    { intros p Hp. destruct (live_node s live F p (ta_alloc _ _ _ _ _ _ Ht) (ta_live _ _ _ _ _ _ Ht p Hp)). unfold NULL. lia. }
    assert (v <> NULL) as Hv0.
    { destruct t as [|l p k r]; [done|]. destruct Hv as [-> _]. apply Hnn, node_addr. }
    rewrite (proj2 (Z.eqb_neq v NULL) Hv0). cbn [negb].
    destruct (twalk_trecurse_spec action (foot (elems t)) P Ha t (height t) s [] v 0) as (s' & E & HP' & _); try done.
    by exists s'.
Qed.

(** C8: [tdestroy] calls the action once for every key of the tree, children
    before parents, and frees every node: afterwards the client holds the blocks
    that the action left it and no others. *)
Theorem tdestroy_correct (free_action : Z -> C S unit) (P : gmap Z Z -> list Z -> S -> Prop) s live F root t v N rest :
  (forall s N rest ks k, alloc_inv s (N ∪ rest) F -> N ##ₘ rest -> P rest ks s ->
     exists s' rest', free_action k s = Some (tt, s') /\ alloc_inv s' (N ∪ rest') F /\ N ##ₘ rest' /\
       P rest' (ks ++ [k]) s' /\ kept N ∅ (st_mem s) (st_mem s')) ->
  (forall f p s s' rest ks, op_free f p s = Some (tt, s') -> kept rest F (st_mem s) (st_mem s') -> P rest ks s -> P rest ks s') ->
  tree_at compar s live F root t -> word_at (st_mem s) root v -> reps (st_mem s) v t ->
  live = N ∪ rest -> N ##ₘ rest -> dom N = list_to_set (addrs t) -> P rest [] s ->
  exists f0 s' rest', (forall f, (f0 <= f)%nat -> tdestroy free_action f (height t) v s = Some (tt, s')) /\
    alloc_inv s' rest' F /\ P rest' (post_keys t) s'.
Proof.
  intros Ha Hfr Ht Hw Hv -> Hd Hdom HP. unfold tdestroy. pose proof Ht as [Hi _ _ Hnd Hl _].
  assert (forall p, p ∈ addrs t -> N !! p = Some sizeof_node_t) as HN.
  { intros p Hp. assert (p ∈ dom N) as [n Hn]%elem_of_dom by (rewrite Hdom; by apply elem_of_list_to_set).
    rewrite Hn, <- (Hl p Hp). symmetry. by apply lookup_union_Some_l. }
  assert (remove (addrs t) N = ∅) as Er.
  { apply map_empty. intros p. destruct (remove (addrs t) N !! p) as [n|] eqn:E; [|done]. exfalso.
    apply lookup_remove in E as [Hn Hp]. apply Hp. apply elem_of_dom_2 in Hn. rewrite Hdom in Hn. by apply elem_of_list_to_set in Hn. }
  destruct (decide (t = Leaf)) as [->|Hne].
  - simpl in Hv. subst v. exists 0%nat, s, rest. split_and!; try done. assert (N = ∅) as ->; [|by rewrite map_empty_union in Hi].
    apply dom_empty_inv_L. by rewrite Hdom.
  - destruct (tdestroy_trecurse_spec free_action F P Ha Hfr t (height t) s v Hv Hne) with N rest ([] : list Z)
      as (f0 & s' & rest' & E & I' & _ & P' & _); try done.
    rewrite Er, map_empty_union in I'. exists f0, s', rest'. split_and!; try done. intros f Hf.
    destruct (Z.eqb_spec v NULL) as [->|_]; [|by apply E]. exfalso.
    destruct t as [|l p k r]; [done|]. destruct Hv as [Ep _].
    apply (alloc_node_nonnull F s N rest p Hi); [apply HN, node_addr|done].
Qed.
End guarantees.

Section witnesses.
#[local] Existing Instance LP64.
#[local] Existing Instance demo_target.
#[local] Existing Instance demo_sbrk.
#[local] Existing Instance demo_sbrk_ok.

Abbreviation one := (Node Leaf 4112 7 Leaf).

Lemma tsearch_witness :
  exists f0 r s', (forall f, (f0 <= f)%nat -> tsearch Z.sub f 9 64 tree_heap1 = Some (r, s')) /\
    ((exists k, (r, k) ∈ elems one /\ 9 - k = 0 /\ s' = tree_heap1) \/
     (forall e, e ∈ elems one -> 9 - e.2 <> 0) /\ inserted Z.sub tree_heap1 {[4112 := 24]} client_set 64 one 9 r s').
Proof.
  apply (tsearch_correct Z.sub 9 tree_heap1 {[4112 := 24]} client_set 64 one); [apply cmp_order_sub|apply tree_heap1_tree|].
  vm_compute. split; congruence.
Defined.

Lemma tdelete_witness :
  exists f0 r s', (forall f, (f0 <= f)%nat -> tdelete Z.sub f 7 64 tree_heap1 = Some (r, s')) /\
    ((r = NULL /\ s' = tree_heap1 /\ forall e, e ∈ elems one -> 7 - e.2 <> 0) \/
     deleted Z.sub tree_heap1 {[4112 := 24]} client_set 64 one 7 r s').
Proof.
  apply (tdelete_correct Z.sub 7 tree_heap1 {[4112 := 24]} client_set 64 one); [apply cmp_order_sub|apply tree_heap1_tree].
Defined.

Lemma tfind_witness :
  exists r, tfind Z.sub 5 7 64 tree_heap1 = Some (r, tree_heap1) /\
    ((exists k, (r, k) ∈ elems one /\ 7 - k = 0) \/ (r = NULL /\ forall e, e ∈ elems one -> 7 - e.2 <> 0)).
Proof.
  apply (tfind_correct Z.sub 7 5 tree_heap1 {[4112 := 24]} client_set 64 one); [apply cmp_order_sub|apply tree_heap1_tree|].
  simpl. lia.
Defined.

Lemma reps_single m p k :
  word_at m (key p) k -> word_at m (llink p) 0 -> word_at m (rlink p) 0 -> reps m p (Node Leaf p k Leaf).
Proof. intros. simpl. split; [done|]. split; [done|]. by exists 0, 0. Qed.

Lemma tree_heap1_root : word_at (st_mem tree_heap1) 64 4112 /\ reps (st_mem tree_heap1) 4112 one.
Proof.
  split; [apply word_at_check; vm_compute; reflexivity|].
  apply reps_single; apply word_at_check; vm_compute; reflexivity.
Qed.

Lemma twalk_witness :
  exists s', twalk (Some (fun _ _ _ => ret tt)) 1 4112 tree_heap1 = Some (tt, s') /\ s' = tree_heap1.
Proof.
  apply (twalk_correct Z.sub (fun _ _ _ => ret tt) (fun _ s => s = tree_heap1) tree_heap1 {[4112 := 24]} client_set 64 one 4112).
  - intros s vs p v lv Hs. exists s. split; [reflexivity|]. split; [exact Hs|intros a _; reflexivity].
  - apply tree_heap1_tree.
  - apply tree_heap1_root.
  - apply tree_heap1_root.
  - simpl. unfold INT_MAX. lia.
  - reflexivity.
Defined.

Lemma tdestroy_witness :
  exists f0 s' rest', (forall f, (f0 <= f)%nat -> tdestroy (fun _ => ret tt) f 1 4112 tree_heap1 = Some (tt, s')) /\
    alloc_inv s' rest' client_set /\ rest' = ∅.
Proof.
  apply (tdestroy_correct Z.sub (fun _ => ret tt) (fun rest _ _ => rest = ∅) tree_heap1 {[4112 := 24]} client_set 64 one 4112
    {[4112 := 24]} ∅).
  - intros s N rest ks k Hi Hd ->. exists s, ∅. split_and!; [reflexivity|exact Hi|exact Hd|reflexivity|intros a _; reflexivity].
  - intros f p s s' rest ks _ _ Hr. exact Hr.
  - apply tree_heap1_tree.
  - apply tree_heap1_root.
  - apply tree_heap1_root.
  - rewrite map_union_empty. reflexivity.
  - apply map_disjoint_empty_r.
  - rewrite dom_singleton_L. unfold addrs. simpl. set_solver.
  - reflexivity.
Defined.
End witnesses.
