(* ===== verification/Time.v ===== *)
(** * Calendar time (libc/time/gmtime_r.c, mktime.c, lcltime_r.c, tzcalc_limits.c, tzset.c)

    A broken-down time and the time-zone data are records that the functions
    update in place.  Signed integers are checked: an [int], [long] or [time_t]
    computation that leaves the range of its type is a fault, except for the
    two sums that the sources compute first and test for overflow afterwards,
    which wrap around. *)

From S2P Require Import Prelude CMem.
From stdpp Require Import base list.
From Stdlib Require Import ZArith Lia.

Local Open Scope Z_scope.

(** ** local.h and the types *)

(** [time_t] has 64 bits, or 32. *)
Class TimeT := { time64 : bool }.

Definition time_bits `{TimeT} : Z := if time64 then 64 else 32.

Definition TIME_T_MAX `{TimeT} : Z := 2 ^ (time_bits - 1) - 1.
Definition TIME_T_MIN `{TimeT} : Z := - 2 ^ (time_bits - 1).

Definition SECSPERMIN : Z := 60.
Definition MINSPERHOUR : Z := 60.
Definition HOURSPERDAY : Z := 24.
Definition SECSPERHOUR : Z := SECSPERMIN * MINSPERHOUR.
Definition SECSPERDAY : Z := SECSPERHOUR * HOURSPERDAY.
Definition DAYSPERWEEK : Z := 7.
Definition YEAR_BASE : Z := 1900.
Definition EPOCH_YEAR : Z := 1970.
Definition EPOCH_WDAY : Z := 4.
Definition EPOCH_YEARS_SINCE_LEAP : Z := 2.
Definition EPOCH_YEARS_SINCE_CENTURY : Z := 70.
Definition EPOCH_YEARS_SINCE_LEAP_CENTURY : Z := 370.

Record tm := Tm {
  tm_sec : Z; tm_min : Z; tm_hour : Z; tm_mday : Z; tm_mon : Z; tm_year : Z;
  tm_wday : Z; tm_yday : Z; tm_isdst : Z }.

(** [tzrule_t]; [ch] is the kind of the rule. *)
Inductive rule_kind := JulianJ | DayD | MonthM.
Record tzrule := TzRule {
  ch : rule_kind; r_m : Z; r_n : Z; r_d : Z; r_s : Z; change : Z; offset : Z }.

Record tzinfo := TzInfo { north : bool; year : Z; rule0 : tzrule; rule1 : tzrule }.

(** C division and remainder round towards zero. *)
Infix "÷" := Z.quot (at level 40, left associativity) : Z_scope.
Infix "%%" := Z.rem (at level 40, left associativity) : Z_scope.

Definition isleap (y : Z) : bool := (y %% 4 =? 0) && (negb (y %% 100 =? 0) || (y %% 400 =? 0)).

Definition isleap2 (y y_off : Z) : bool :=
  let y := if negb (y_off =? 0) then y %% 400 + y_off else y in isleap y.

Definition __month_lengths (leap : bool) : list Z :=
  if leap then [31; 29; 31; 30; 31; 30; 31; 31; 30; 31; 30; 31]
  else [31; 28; 31; 30; 31; 30; 31; 31; 30; 31; 30; 31].

Definition fits_time `{TimeT} (x : Z) : bool := (TIME_T_MIN <=? x) && (x <=? TIME_T_MAX).
Definition time_ `{TimeT} {S} (x : Z) : C S Z := if fits_time x then ret x else fault.

(** ** gmtime_r.c *)

Section gmtime.
Context `{Arch} `{TimeT}.

Definition EPOCH_ADJUSTMENT_DAYS : Z := 719468.
Definition ADJUSTED_EPOCH_YEAR : Z := 0.
Definition ADJUSTED_EPOCH_WDAY : Z := 3.
Definition DAYS_PER_ERA : Z := 146097.
Definition DAYS_PER_CENTURY : Z := 36524.
Definition DAYS_PER_4_YEARS : Z := 3 * 365 + 366.
Definition DAYS_PER_YEAR : Z := 365.
Definition DAYS_IN_JANUARY : Z := 31.
Definition DAYS_IN_FEBRUARY : Z := 28.
Definition YEARS_PER_ERA : Z := 400.

(** Days and seconds of the day, then the date from the day number; [eraday]
    is an [unsigned long], [erayear], [yearday], [month] and [day] are
    [unsigned]. *)
Definition gmtime_days (lcltime : Z) : Z * Z :=
  let days := lcltime ÷ SECSPERDAY + EPOCH_ADJUSTMENT_DAYS in
  let rem := lcltime %% SECSPERDAY in
  if rem <? 0 then (days - 1, rem + SECSPERDAY) else (days, rem).

Definition era_year (eraday : Z) : Z :=
  uwrap 32 (uwrap long_bits (eraday - eraday / (DAYS_PER_4_YEARS - 1) + eraday / DAYS_PER_CENTURY
               - eraday / (DAYS_PER_ERA - 1)) / 365).

Definition year_day (eraday erayear : Z) : Z :=
  uwrap 32 (eraday - uwrap 32 (DAYS_PER_YEAR * erayear + erayear / 4 - erayear / 100)).

Definition month_day (yearday : Z) : Z * Z :=
  let month := uwrap 32 (5 * yearday + 2) / 153 in
  let day := uwrap 32 (yearday - uwrap 32 (153 * month + 2) / 5 + 1) in
  (uwrap 32 (if month <? 10 then month + 2 else month - 10), day).

Definition gmtime_r (lcltime : Z) : C tm bool :=
  let '(days, rem) := gmtime_days lcltime in
  let hour := rem ÷ SECSPERHOUR in
  let rem := rem %% SECSPERHOUR in
  let weekday := (ADJUSTED_EPOCH_WDAY + days) %% DAYSPERWEEK in
  let weekday := if weekday <? 0 then weekday + DAYSPERWEEK else weekday in
  let era := (if 0 <=? days then days else days - (DAYS_PER_ERA - 1)) ÷ DAYS_PER_ERA in
  let eraday := uwrap long_bits (days - era * DAYS_PER_ERA) in
  let erayear := era_year eraday in
  let yearday := year_day eraday erayear in
  let '(month, day) := month_day yearday in
  let year := ADJUSTED_EPOCH_YEAR + erayear + era * YEARS_PER_ERA + (if month <=? 1 then 1 else 0) in
  let feb := DAYS_PER_YEAR - DAYS_IN_JANUARY - DAYS_IN_FEBRUARY in
  let yday := if feb <=? yearday then yearday - feb
              else yearday + DAYS_IN_JANUARY + DAYS_IN_FEBRUARY + (if isleap erayear then 1 else 0) in
  let year := year - YEAR_BASE in
  run upd (fun t => Tm (rem %% SECSPERMIN) (rem ÷ SECSPERMIN) hour (tm_mday t) (tm_mon t) (tm_year t)
                      weekday yday (tm_isdst t));
  if time64 && negb (fits_int year) then ret false
  else
    run upd (fun t => Tm (tm_sec t) (tm_min t) (tm_hour t) day month year (tm_wday t) (tm_yday t) 0);
    ret true.
End gmtime.

(** ** mktime.c *)

Section mktime.
Context `{Arch} `{TimeT}.
Variable fuel : nat.

(** stdlib/div.c on a machine that rounds towards zero. *)
Definition div (num denom : Z) : Z * Z :=
  let quot := num ÷ denom in
  let rem := num %% denom in
  if (0 <=? num) && (rem <? 0) then (quot + 1, rem - denom)
  else if (num <? 0) && (0 <? rem) then (quot - 1, rem + denom)
  else (quot, rem).

(** One block of [validate_structure]: the value brought into [0, base - 1] and
    the next larger unit, which takes the carry. *)
Definition carry {S} (base x next : Z) : C S (Z * Z) :=
  if (x <? 0) || (base - 1 <? x) then
    let '(quot, rem) := div x base in
    do next <- int_ (next + quot);
    if rem <? 0 then do next <- int_ (next - 1); ret (rem + base, next)
    else ret (rem, next)
  else ret (x, next).

Definition days_in_month {S} (days_in_feb x : Z) : C S Z :=
  if x =? 1 then ret days_in_feb else at_index (__month_lengths false) x.

Definition feb_days (tm_year year_off : Z) : Z := if isleap2 tm_year (year_off + YEAR_BASE) then 29 else 28.

(** The loops over the months: [tm_mday], [tm_mon], [year_off], [days_in_feb]. *)
Definition mday_down_step {S} (tm_year : Z) : Z * Z * Z * Z -> C S ((Z * Z * Z * Z) + (Z * Z * Z)) :=
  fun '(mday, mon, year_off, days_in_feb) =>
    if mday <=? 0 then
      let '(mon, year_off, days_in_feb) :=
        if mon - 1 =? -1 then (11, year_off - 1, feb_days tm_year (year_off - 1))
        else (mon - 1, year_off, days_in_feb) in
      do n <- days_in_month days_in_feb mon;
      ret (inl (mday + n, mon, year_off, days_in_feb))
    else ret (inr (mday, mon, year_off)).

Definition mday_up_step {S} (tm_year : Z) : Z * Z * Z * Z -> C S ((Z * Z * Z * Z) + (Z * Z * Z)) :=
  fun '(mday, mon, year_off, days_in_feb) =>
    do n <- days_in_month days_in_feb mon;
    if n <? mday then
      let mday := mday - n in
      if mon + 1 =? 12 then ret (inl (mday, 0, year_off + 1, feb_days tm_year (year_off + 1)))
      else ret (inl (mday, mon + 1, year_off, days_in_feb))
    else ret (inr (mday, mon, year_off)).

Definition validate_structure : C tm bool :=
  do t <- get_st;
  do '(sec, min) <- carry 60 (tm_sec t) (tm_min t);
  do '(min, hour) <- carry 60 min (tm_hour t);
  do '(hour, mday) <- carry 24 hour (tm_mday t);
  do '(mon, year_off) <- carry 12 (tm_mon t) 0;
  let days_in_feb := feb_days (tm_year t) year_off in
  do '(mday, mon, year_off) <-
    (if mday <=? 0 then loop (mday_down_step (tm_year t)) fuel (mday, mon, year_off, days_in_feb)
     else loop (mday_up_step (tm_year t)) fuel (mday, mon, year_off, days_in_feb));
  run upd (fun t => Tm sec min hour mday mon (swrap 32 (tm_year t + year_off)) (tm_wday t) (tm_yday t) (tm_isdst t));
  ret (fits_int (tm_year t + year_off)).

Definition _DAYS_BEFORE_MONTH : list Z := [0; 31; 59; 90; 120; 151; 181; 212; 243; 273; 304; 334].
Definition _DAYS_IN_YEAR (year : Z) : Z := 365 + (if isleap2 year YEAR_BASE then 1 else 0).
Definition DAYSPERHCEN : Z := 3652425.

(** The loops over the years from 1970. *)
Definition years_up {S} (year days : Z) : C S Z :=
  loop (fun '(y, days) =>
    if y <? year then do days <- time_ (days + _DAYS_IN_YEAR y); ret (inl (y + 1, days))
    else ret (inr days)) fuel (70, days).

Definition years_down {S} (year days : Z) : C S Z :=
  do '(y, days) <-
    loop (fun '(y, days) =>
      if year <? y then do days <- time_ (days - _DAYS_IN_YEAR y); ret (inl (y - 1, days))
      else ret (inr (y, days))) fuel (69, days);
  time_ (days - _DAYS_IN_YEAR y).

Definition set_tm_wday (days : Z) : C tm unit :=
  let w := (days + 4) %% 7 in
  upd (fun t => Tm (tm_sec t) (tm_min t) (tm_hour t) (tm_mday t) (tm_mon t) (tm_year t)
                  (if w <? 0 then w + 7 else w) (tm_yday t) (tm_isdst t)).

Definition set_yday (v : Z) : C tm unit :=
  upd (fun t => Tm (tm_sec t) (tm_min t) (tm_hour t) (tm_mday t) (tm_mon t) (tm_year t)
                  (tm_wday t) v (tm_isdst t)).

(** The time and the day number, or [None] for [EOVERFLOW] (and -1). *)
Definition mktime_utc : C tm (option (Z * Z)) :=
  do ok <- validate_structure;
  if negb ok then ret None
  else
    do t <- get_st;
    let tim := tm_sec t + tm_min t * SECSPERMIN + tm_hour t * SECSPERHOUR in
    do before <- at_index _DAYS_BEFORE_MONTH (tm_mon t);
    let days := tm_mday t - 1 + before in
    let days := if (1 <? tm_mon t) && isleap2 (tm_year t) YEAR_BASE then days + 1 else days in
    run set_yday days;
    do '(year, days) <-
      (if time64 then
         let hundredcentury :=
           if 0 <? tm_year t then tm_year t ÷ 10000
           else swrap 32 (- (uwrap 32 (- uwrap 32 (tm_year t)) / 10000)) in
         do days <- time_ (days + hundredcentury * DAYSPERHCEN);
         ret (tm_year t - hundredcentury * 10000, days)
       else ret (tm_year t, days));
    do days <- (if 70 <? year then years_up year days
                else if year <? 70 then years_down year days else ret days);
    if (days <? TIME_T_MIN ÷ SECSPERDAY) || (TIME_T_MAX ÷ SECSPERDAY <? days) then ret None
    else
      let daysecs := days * SECSPERDAY in
      let tim := swrap time_bits (tim + daysecs) in
      if (0 <? daysecs) && (tim <? 0) then ret None
      else ret (Some (tim, days)).

(** -1 is also the time one second before the epoch, which the callers cannot
    tell from the failure. *)
Definition timegm : C tm Z :=
  do r <- mktime_utc;
  match r with
  | None => ret (-1)
  | Some (tim, days) =>
      if tim =? -1 then ret tim
      else
        run upd (fun t => Tm (tm_sec t) (tm_min t) (tm_hour t) (tm_mday t) (tm_mon t) (tm_year t)
                            (tm_wday t) (tm_yday t) 0);
        run set_tm_wday days;
        ret tim
  end.
End mktime.

(** ** tzcalc_limits.c *)

Section zones.
Context `{Arch} `{TimeT}.
Variable fuel : nat.

(** The day on which a rule takes effect, counted from the epoch. *)
Definition rule_day {S} (year year_days : Z) (r : tzrule) : C S Z :=
  match ch r with
  | JulianJ => int_ (year_days + r_d r + (if isleap year && (60 <=? r_d r) then 1 else 0) - 1)
  | DayD => int_ (year_days + r_d r)
  | MonthM =>
      let ip := __month_lengths (isleap year) in
      do '(j, days) <-
        loop (fun '(j, days) =>
          if j <? r_m r then do n <- at_index ip (j - 1); ret (inl (j + 1, days + n))
          else ret (inr (j, days))) fuel (1, year_days);
      let m_wday := (EPOCH_WDAY + days) %% DAYSPERWEEK in
      let wday_diff := r_d r - m_wday in
      let wday_diff := if wday_diff <? 0 then wday_diff + DAYSPERWEEK else wday_diff in
      let m_day := (r_n r - 1) * DAYSPERWEEK + wday_diff in
      do n <- at_index ip (j - 1);
      do m_day <- loop (fun m_day => if n <=? m_day then ret (inl (m_day - DAYSPERWEEK)) else ret (inr m_day))
                    fuel m_day;
      int_ (days + m_day)
  end.

Definition with_change (r : tzrule) (c : Z) : tzrule :=
  TzRule (ch r) (r_m r) (r_n r) (r_d r) (r_s r) c (offset r).

Definition rule_change {S} (year year_days : Z) (r : tzrule) : C S tzrule :=
  do days <- rule_day year year_days r;
  do c <- time_ (days * SECSPERDAY + r_s r + offset r);
  ret (with_change r c).

Definition epoch_year_days (year : Z) : Z :=
  let years := year - EPOCH_YEAR in
  years * 365 + (years - 1 + EPOCH_YEARS_SINCE_LEAP) ÷ 4
    - (years - 1 + EPOCH_YEARS_SINCE_CENTURY) ÷ 100
    + (years - 1 + EPOCH_YEARS_SINCE_LEAP_CENTURY) ÷ 400.

(** [__tzcalc_limits] on [__tzinfo]: false leaves it alone. *)
Definition __tzcalc_limits (year : Z) : C tzinfo bool :=
  if year <? EPOCH_YEAR then ret false
  else
    do year_days <- int_ (epoch_year_days year);
    do tz <- get_st;
    do r0 <- rule_change year year_days (rule0 tz);
    do r1 <- rule_change year year_days (rule1 tz);
    run upd (fun _ => TzInfo (change r0 <? change r1) year r0 r1);
    ret true.

(** ** The state of [mktime] and [localtime_r] *)

Record tstate := TState { st_tm : tm; st_tz : tzinfo; daylight : bool; timezone : Z; st_errno : Z }.

Definition EOVERFLOW : Z := 139.

Definition on_tm {A} (c : C tm A) : C tstate A :=
  fun s => match c (st_tm s) with
           | Some (a, t) => Some (a, TState t (st_tz s) (daylight s) (timezone s) (st_errno s))
           | None => None
           end.
Definition on_tz {A} (c : C tzinfo A) : C tstate A :=
  fun s => match c (st_tz s) with
           | Some (a, z) => Some (a, TState (st_tm s) z (daylight s) (timezone s) (st_errno s))
           | None => None
           end.
Definition errno_is (e : Z) : C tstate unit :=
  upd (fun s => TState (st_tm s) (st_tz s) (daylight s) (timezone s) e).

(** tzset.c from the label [done]: [None] when the value of [TZ] was not
    understood ([bail]); the second rule is there when [dst_valid]. *)
Definition default_tzrule : tzrule := TzRule JulianJ 0 0 0 0 0 0.

Definition tz_rules (TZ : option (tzrule * option tzrule)) : tzrule * tzrule :=
  match TZ with
  | None => (default_tzrule, default_tzrule)
  | Some (r0, None) => (r0, r0)
  | Some (r0, Some r1) => (r0, r1)
  end.

Definition tzset (TZ : option (tzrule * option tzrule)) : C tstate unit :=
  let '(r0, r1) := tz_rules TZ in
  run on_tz (upd (fun z => TzInfo (north z) (year z) r0 r1));
  do z <- get_st;
  run on_tz (__tzcalc_limits (year (st_tz z)));
  upd (fun s => TState (st_tm s) (st_tz s) (negb (offset r0 =? offset r1)) (offset r0) (st_errno s)).

(** [y == __tzinfo.year || __tzcalc_limits(y)] *)
Definition limits_for (y : Z) : C tstate bool :=
  do s <- get_st;
  if y =? year (st_tz s) then ret true else on_tz (__tzcalc_limits y).

Definition set_isdst (v : Z) : C tm unit :=
  upd (fun t => Tm (tm_sec t) (tm_min t) (tm_hour t) (tm_mday t) (tm_mon t) (tm_year t)
                  (tm_wday t) (tm_yday t) v).
Definition set_sec (v : Z) : C tm unit :=
  upd (fun t => Tm v (tm_min t) (tm_hour t) (tm_mday t) (tm_mon t) (tm_year t)
                  (tm_wday t) (tm_yday t) (tm_isdst t)).

(** The correction of a wrong [tm_isdst]: the time and the day number. *)
Definition dst_correct (isdst : bool) (tim days year : Z) : C tstate (Z * Z) :=
  do s <- get_st;
  let diff := swrap 32 (offset (rule0 (st_tz s)) - offset (rule1 (st_tz s))) in
  let diff := if isdst then diff else - diff in
  do sec <- int_ (tm_sec (st_tm s) + diff);
  run on_tm (set_sec sec);
  do tim <- time_ (tim + diff);
  run on_tm (validate_structure fuel);
  do s1 <- get_st;
  let mday := tm_mday (st_tm s1) - tm_mday (st_tm s) in
  if mday =? 0 then ret (tim, days)
  else
    let mday := if 1 <? mday then -1 else if mday <? -1 then 1 else mday in
    let days := days + mday in
    let yday := tm_yday (st_tm s1) + mday in
    run (if yday <? 0 then on_tm (set_yday (_DAYS_IN_YEAR (year - 1) - 1))
         else
           let n := _DAYS_IN_YEAR year in
           on_tm (set_yday (if n - 1 <? yday then yday - n else yday)));
    ret (tim, days).

Definition mktime (TZ : option (tzrule * option tzrule)) : C tstate Z :=
  do r <- on_tm (mktime_utc fuel);
  match r with
  | None => run errno_is EOVERFLOW; ret (-1)
  | Some (tim, days) =>
      if tim =? -1 then ret tim
      else
        run tzset TZ;
        do s <- get_st;
        do '(isdst, tim, days) <-
          (if daylight s then
             do y <- int_ (tm_year (st_tm s) + YEAR_BASE);
             let tm_isdst := if 0 <? tm_isdst (st_tm s) then 1 else tm_isdst (st_tm s) in
             do ok <- limits_for y;
             if negb ok then ret (tm_isdst, tim, days)
             else
               do s <- get_st;
               let z := st_tz s in
               do startdst_dst <- time_ (change (rule0 z) - offset (rule1 z));
               do startstd_dst <- time_ (change (rule1 z) - offset (rule1 z));
               do startstd_std <- time_ (change (rule1 z) - offset (rule0 z));
               if (startstd_std <=? tim) && (tim <? startstd_dst) then ret (tm_isdst, tim, days)
               else
                 let isdst := if north z then (startdst_dst <=? tim) && (tim <? startstd_std)
                              else (startdst_dst <=? tim) || (tim <? startstd_std) in
                 let isdst_int := if isdst then 1 else 0 in
                 if (0 <=? tm_isdst) && (Z.lxor isdst_int tm_isdst =? 1) then
                   do '(tim, days) <- dst_correct isdst tim days (tm_year (st_tm s));
                   ret (isdst_int, tim, days)
                 else ret (isdst_int, tim, days)
           else ret (0, tim, days));
        do s <- get_st;
        let offset := if isdst =? 1 then offset (rule1 (st_tz s)) else offset (rule0 (st_tz s)) in
        let sum := swrap time_bits (tim + offset) in
        if ((0 <? offset) && (sum <? tim)) || ((offset <? 0) && (tim <? sum)) then
          run errno_is EOVERFLOW; ret (-1)
        else
          run on_tm (set_isdst isdst);
          run on_tm (set_tm_wday days);
          ret sum
  end.

(** ** lcltime_r.c *)

(** The seconds, minutes and hours of the zone's offset taken off, with one
    carry or borrow each. *)
Definition borrow (base x next : Z) : Z * Z :=
  if base <=? x then (x - base, next + 1) else if x <? 0 then (x + base, next - 1) else (x, next).

(** [tm_hour] may now be on the next or the previous day. *)
Definition day_after (ip : list Z) (t : tm) : C tm unit :=
  do len <- at_index ip (tm_mon t);
  let wday := if 6 <? tm_wday t + 1 then 0 else tm_wday t + 1 in
  let hour := tm_hour t - HOURSPERDAY in
  let mday := tm_mday t + 1 in
  if len <? mday then
    let mon := tm_mon t + 1 in
    if mon =? 12 then
      do y <- int_ (tm_year t + 1);
      upd (fun _ => Tm (tm_sec t) (tm_min t) hour (mday - len) 0 y wday 0 (tm_isdst t))
    else upd (fun _ => Tm (tm_sec t) (tm_min t) hour (mday - len) mon (tm_year t) wday (tm_yday t + 1) (tm_isdst t))
  else upd (fun _ => Tm (tm_sec t) (tm_min t) hour mday (tm_mon t) (tm_year t) wday (tm_yday t + 1) (tm_isdst t)).

Definition day_before (ip : list Z) (t : tm) : C tm unit :=
  let wday := if tm_wday t - 1 <? 0 then 6 else tm_wday t - 1 in
  let hour := tm_hour t + 24 in
  let mday := tm_mday t - 1 in
  if mday =? 0 then
    if tm_mon t - 1 <? 0 then
      do y <- int_ (tm_year t - 1);
      do len <- at_index ip 11;
      let yday := 364 + (if isleap (y + YEAR_BASE) then 1 else 0) in
      upd (fun _ => Tm (tm_sec t) (tm_min t) hour len 11 y wday yday (tm_isdst t))
    else
      do len <- at_index ip (tm_mon t - 1);
      upd (fun _ => Tm (tm_sec t) (tm_min t) hour len (tm_mon t - 1) (tm_year t) wday (tm_yday t - 1) (tm_isdst t))
  else upd (fun _ => Tm (tm_sec t) (tm_min t) hour mday (tm_mon t) (tm_year t) wday (tm_yday t - 1) (tm_isdst t)).

Definition sub_offset (ip : list Z) (off : Z) : C tm unit :=
  do t <- get_st;
  let hours := off ÷ SECSPERHOUR in
  let off := off %% SECSPERHOUR in
  let mins := off ÷ SECSPERMIN in
  let secs := off %% SECSPERMIN in
  let '(sec, min) := borrow SECSPERMIN (tm_sec t - secs) (tm_min t - mins) in
  let '(min, hour) := borrow MINSPERHOUR min (tm_hour t - hours) in
  let t := Tm sec min hour (tm_mday t) (tm_mon t) (tm_year t) (tm_wday t) (tm_yday t) (tm_isdst t) in
  if HOURSPERDAY <=? hour then day_after ip t
  else if hour <? 0 then day_before ip t
  else upd (fun _ => t).

Definition localtime_r (TZ : option (tzrule * option tzrule)) (tim : Z) : C tstate bool :=
  do ok <- on_tm (gmtime_r tim);
  if negb ok then ret false
  else
    do s <- get_st;
    do year <- int_ (tm_year (st_tm s) + YEAR_BASE);
    let ip := __month_lengths (isleap year) in
    run tzset TZ;
    do s <- get_st;
    do isdst <-
      (if daylight s then
         do ok <- limits_for year;
         do s <- get_st;
         let z := st_tz s in
         if ok : bool then
           ret (if (if north z then (change (rule0 z) <=? tim) && (tim <? change (rule1 z))
                    else (change (rule0 z) <=? tim) || (tim <? change (rule1 z))) then 1 else 0)
         else ret (-1)
       else ret 0);
    run on_tm (set_isdst isdst);
    do s <- get_st;
    run on_tm (sub_offset ip (if isdst =? 1 then offset (rule1 (st_tz s)) else offset (rule0 (st_tz s))));
    ret true.
End zones.
