(* ===== verification/TimeSpec.v ===== *)
(** * The calendar and the conversions to and from it

    The proleptic Gregorian calendar counted from the lengths of years and
    months, and the proofs that [gmtime_r], [mktime_utc] and [timegm] compute
    it. *)

From S2P Require Import Prelude CMem Time.
From stdpp Require Import base list.
From Stdlib Require Import ZArith Lia.

Local Open Scope Z_scope.

(** ** The calendar *)

Definition leap_day (y : Z) : Z := if isleap y then 1 else 0.
Definition year_len (y : Z) : Z := 365 + leap_day y.
Definition month_len (y m : Z) : Z := nth (Z.to_nat m) (__month_lengths (isleap y)) 0.

(** Leap years before the year [y]. *)
Definition leaps (y : Z) : Z := (y - 1) / 4 - (y - 1) / 100 + (y - 1) / 400.

(** Days from the epoch to the first day of a year, of a month of it, and to a
    day of that month. *)
Definition year_start (y : Z) : Z := 365 * (y - 1970) + (leaps y - leaps 1970).
Definition month_start (y m : Z) : Z := foldr Z.add 0 (take (Z.to_nat m) (__month_lengths (isleap y))).
Definition civil_day (y m d : Z) : Z := year_start y + month_start y m + (d - 1).

Definition valid_date (y m d : Z) : Prop := 0 <= m < 12 /\ 1 <= d <= month_len y m.

(** The twelve months, one by one. *)
Lemma month_split m :
  0 <= m < 12 -> m = 0 \/ m = 1 \/ m = 2 \/ m = 3 \/ m = 4 \/ m = 5 \/ m = 6 \/ m = 7 \/ m = 8 \/ m = 9 \/ m = 10 \/ m = 11.
Proof. lia. Qed.
Ltac month_cases m H :=
  apply month_split in H; repeat destruct H as [->|H]; [..|subst m].

Ltac div_lia := Z.to_euclidean_division_equations; lia.

Lemma isleap_mod y : isleap y = (y mod 4 =? 0) && (negb (y mod 100 =? 0) || (y mod 400 =? 0)).
Proof.
  unfold isleap.
  assert (forall n, n <> 0 -> (y %% n =? 0) = (y mod n =? 0)) as E.
  { intros n Hn. apply eq_true_iff_eq. rewrite !Z.eqb_eq, Z.rem_divide, Z.mod_divide by done. done. }
  by rewrite !E.
Qed.

Lemma leap_day_cases y :
  leap_day y = 1 /\ y mod 4 = 0 /\ (y mod 100 <> 0 \/ y mod 400 = 0) \/
  leap_day y = 0 /\ (y mod 4 <> 0 \/ y mod 100 = 0 /\ y mod 400 <> 0).
Proof.
  unfold leap_day. rewrite isleap_mod.
  destruct (Z.eqb_spec (y mod 4) 0), (Z.eqb_spec (y mod 100) 0), (Z.eqb_spec (y mod 400) 0);
    cbn [negb orb andb]; tauto.
Qed.

(** The count of days agrees with the lengths of the years and months. *)
Lemma year_start_next y : year_start (y + 1) = year_start y + year_len y.
Proof.
  unfold year_start, year_len, leaps. destruct (leap_day_cases y) as [[-> Hy]|[-> Hy]]; div_lia.
Qed.

Lemma year_start_epoch : year_start 1970 = 0.
Proof. reflexivity. Qed.

Lemma month_start_next y m : 0 <= m < 12 -> month_start y (m + 1) = month_start y m + month_len y m.
Proof.
  intros Hm. unfold month_start, month_len.
  month_cases m Hm; destruct (isleap y); reflexivity.
Qed.

Lemma month_start_year y : month_start y 12 = year_len y.
Proof. unfold month_start, year_len, leap_day. by destruct (isleap y). Qed.

Lemma isleap_era y : isleap (y mod 400) = isleap y.
Proof.
  assert (leap_day (y mod 400) = leap_day y) as E.
  { destruct (leap_day_cases y) as [[-> Hy]|[-> Hy]], (leap_day_cases (y mod 400)) as [[-> Hz]|[-> Hz]]; div_lia. }
  unfold leap_day in E. by destruct (isleap _), (isleap _).
Qed.

(** ** gmtime_r *)

Section gmtime_proof.
Context `{Arch} `{TimeT}.

Lemma gmtime_days_spec t :
  gmtime_days t = (t / 86400 + 719468, t mod 86400).
Proof.
  unfold gmtime_days, EPOCH_ADJUSTMENT_DAYS. change SECSPERDAY with 86400.
  destruct (Z.ltb_spec (t %% 86400) 0); apply f_equal2; div_lia.
Qed.

Lemma long_bits_ge : 2 ^ 32 <= 2 ^ long_bits.
Proof. apply Z.pow_le_mono_r; [lia|]. unfold long_bits, long_size. destruct long64; lia. Qed.

(** The year of the era that starts in March, and the day of that year. *)
Lemma era_year_spec d :
  0 <= d < 146097 ->
  let y := era_year d in let r := year_day d y in
  0 <= y <= 399 /\ 0 <= r < 365 + leap_day (y + 1) /\ d = 365 * y + y / 4 - y / 100 + r.
Proof.
  intros Hd y r. pose proof long_bits_ge as Hl.
  assert (y = (d - d / 1460 + d / 36524 - d / 146096) / 365) as Hy.
  { subst y. unfold era_year, DAYS_PER_4_YEARS, DAYS_PER_CENTURY, DAYS_PER_ERA.
    change (3 * 365 + 366 - 1) with 1460. change (146097 - 1) with 146096.
    rewrite (uwrap_small long_bits) by (split; [|eapply Z.lt_le_trans; [|exact Hl]]; div_lia).
    rewrite uwrap_small by div_lia. reflexivity. }
  assert (0 <= y <= 399) as Hr by div_lia.
  assert (0 <= d - (365 * y + y / 4 - y / 100) < 365 + leap_day (y + 1)) as Hday.
  { split; [div_lia|]. destruct (leap_day_cases (y + 1)) as [[-> Hz]|[-> Hz]]; div_lia. }
  assert (r = d - (365 * y + y / 4 - y / 100)) as Er.
  { subst r. unfold year_day, DAYS_PER_YEAR. rewrite (uwrap_small 32 (365 * _ + _ - _)) by div_lia.
    rewrite uwrap_small; [done|]. destruct (leap_day_cases (y + 1)) as [[E _]|[E _]]; rewrite E in *; lia. }
  rewrite Er. lia.
Qed.

(** Month (from January) and day for a day of the year that starts in March. *)
Lemma month_day_spec r :
  0 <= r < 366 -> exists k, 0 <= k < 12 /\
    month_day r = (if k <? 10 then k + 2 else k - 10, r - (153 * k + 2) / 5 + 1) /\
    (153 * k + 2) / 5 <= r < (153 * (k + 1) + 2) / 5.
Proof.
  intros Hr. exists ((5 * r + 2) / 153). assert (0 <= (5 * r + 2) / 153 < 12) as Hk by div_lia.
  split; [done|]. assert ((153 * ((5 * r + 2) / 153) + 2) / 5 <= r < (153 * ((5 * r + 2) / 153 + 1) + 2) / 5) by div_lia.
  split; [|done]. unfold month_day. rewrite (uwrap_small 32 (5 * r + 2)) by lia. cbv zeta.
  set (k := (5 * r + 2) / 153) in *. rewrite (uwrap_small 32 (153 * k + 2)) by lia.
  rewrite (uwrap_small 32 (r - _ + 1)) by div_lia.
  f_equal. destruct (Z.ltb_spec k 10); apply uwrap_small; lia.
Qed.

(** The months counted from March. *)
Lemma march_month Y k :
  0 <= k < 12 ->
  let m := if k <? 10 then k + 2 else k - 10 in
  0 <= m < 12 /\ (m <=? 1) = negb (k <? 10) /\
  month_start Y m = (153 * k + 2) / 5 + (if k <? 10 then 59 + leap_day Y else -306) /\
  month_len Y m = if k =? 11 then 28 + leap_day Y else (153 * (k + 1) + 2) / 5 - (153 * k + 2) / 5.
Proof.
  intros Hk. unfold month_start, month_len, leap_day.
  month_cases k Hk; destruct (isleap Y); split_and!; by vm_compute.
Qed.

Lemma leap_day_shift y e : leap_day (y + 400 * e) = leap_day y.
Proof. unfold leap_day. rewrite <- (isleap_era (y + _)), Z.mul_comm, Z_mod_plus_full. by rewrite isleap_era. Qed.

(** The date of a day of an era. *)
Lemma civil_from_era e y r k :
  0 <= y <= 399 -> 0 <= r < 365 + leap_day (y + 1) -> 0 <= k < 12 ->
  (153 * k + 2) / 5 <= r < (153 * (k + 1) + 2) / 5 ->
  let m := if k <? 10 then k + 2 else k - 10 in
  let d := r - (153 * k + 2) / 5 + 1 in
  let Y := y + e * 400 + (if m <=? 1 then 1 else 0) in
  valid_date Y m d /\ civil_day Y m d = 146097 * e + (365 * y + y / 4 - y / 100) + r - 719468 /\
  month_start Y m + (d - 1) = if 306 <=? r then r - 306 else r + 31 + 28 + (if isleap y then 1 else 0).
Proof.
  intros Hy Hr Hk Hd m d Y. destruct (march_month Y k Hk) as (Hm & Em & Es & El). fold m in Hm, Em, Es, El.
  assert ((306 <=? r) = negb (k <? 10)) as Er.
  { destruct (Z.leb_spec 306 r), (Z.ltb_spec k 10); try done; exfalso; div_lia. }
  assert (leap_day Y = leap_day (if k <? 10 then y else y + 1)) as EY.
  { subst Y. rewrite Em. destruct (k <? 10); cbn [negb].
    - rewrite Z.add_0_r, (Z.mul_comm e). apply leap_day_shift.
    - replace (y + e * 400 + 1) with (y + 1 + 400 * e) by lia. apply leap_day_shift. }
  split_and!; [split; [done|]| |].
  - rewrite El, EY. subst d. destruct (Z.eqb_spec k 11) as [->|Hne]; [|lia].
    cbn [Z.ltb Z.compare Pos.compare Pos.compare_cont]. change ((153 * 11 + 2) / 5) with 337 in *. lia.
  - unfold civil_day. rewrite Es, EY. subst d. unfold year_start, leaps. subst Y. rewrite Em.
    change ((1970 - 1) / 4 - (1970 - 1) / 100 + (1970 - 1) / 400) with 477.
    destruct (k <? 10); cbn [negb].
    + destruct (leap_day_cases y) as [[-> Hz]|[-> Hz]]; clear -Hz Hy; div_lia.
    + clear -Hy. div_lia.
  - rewrite Es, EY, Er. subst d. unfold leap_day. destruct (k <? 10); cbn [negb]; lia.
Qed.

(** ** The conversion *)

Definition valid_tm (t : tm) : Prop :=
  0 <= tm_sec t < 60 /\ 0 <= tm_min t < 60 /\ 0 <= tm_hour t < 24 /\
  valid_date (tm_year t + 1900) (tm_mon t) (tm_mday t).

Definition tm_day (t : tm) : Z := civil_day (tm_year t + 1900) (tm_mon t) (tm_mday t).
Definition tm_seconds (t : tm) : Z := tm_day t * 86400 + tm_hour t * 3600 + tm_min t * 60 + tm_sec t.

(** The fields that follow from the date. *)
Definition derived_ok (t : tm) : Prop :=
  tm_wday t = (tm_day t + 4) mod 7 /\
  tm_yday t = month_start (tm_year t + 1900) (tm_mon t) + (tm_mday t - 1).

Lemma gmtime_r_spec t tm0 :
  exists b t1, gmtime_r t tm0 = Some (b, t1) /\
    exists t2, valid_tm t2 /\ tm_seconds t2 = t /\ derived_ok t2 /\ tm_isdst t2 = 0 /\
      if b then t1 = t2 /\ (time64 = true -> fits_int (tm_year t2) = true)
      else time64 = true /\ fits_int (tm_year t2) = false.
Proof.
  unfold gmtime_r. rewrite gmtime_days_spec. set (D := t / 86400 + 719468). set (rem := t mod 86400).
  assert (0 <= rem < 86400) as Hrem by (apply Z.mod_pos_bound; lia).
  change SECSPERHOUR with 3600. change SECSPERMIN with 60. change DAYSPERWEEK with 7.
  change (DAYS_PER_YEAR - DAYS_IN_JANUARY - DAYS_IN_FEBRUARY) with 306. cbv zeta.
  assert ((if 0 <=? D then D else D - (DAYS_PER_ERA - 1)) ÷ DAYS_PER_ERA = D / 146097) as Ee.
  { unfold DAYS_PER_ERA. destruct (Z.leb_spec 0 D); div_lia. }
  rewrite Ee. set (e := D / 146097). unfold DAYS_PER_ERA.
  assert (0 <= D - e * 146097 < 146097) as Hera by div_lia.
  pose proof long_bits_ge. rewrite (uwrap_small long_bits) by lia.
  destruct (era_year_spec (D - e * 146097) Hera) as (Hy & Hr & Ed).
  set (y := era_year (D - e * 146097)) in *. set (r := year_day (D - e * 146097) y) in *.
  assert (0 <= r < 366) as Hr366 by (destruct (leap_day_cases (y + 1)) as [[E _]|[E _]]; rewrite E in Hr; lia).
  destruct (month_day_spec r Hr366) as (k & Hk & Emd & Hkr). rewrite Emd.
  destruct (civil_from_era e y r k Hy Hr Hk Hkr) as (Hv & Ec & Ey). unfold ADJUSTED_EPOCH_YEAR, YEARS_PER_ERA, YEAR_BASE.
  set (m := if k <? 10 then k + 2 else k - 10) in *. set (d := r - (153 * k + 2) / 5 + 1) in *.
  rewrite Z.add_0_l. set (Y := y + e * 400 + (if m <=? 1 then 1 else 0)) in *.
  set (w := if (ADJUSTED_EPOCH_WDAY + D) %% 7 <? 0 then _ else _).
  assert (w = (civil_day Y m d + 4) mod 7) as Ew.
  { subst w. rewrite Ec. unfold ADJUSTED_EPOCH_WDAY. clear -Ed. subst e.
    destruct (Z.ltb_spec ((3 + D) %% 7) 0); div_lia. }
  set (t2 := Tm ((rem %% 3600) %% 60) ((rem %% 3600) ÷ 60) (rem ÷ 3600) d m (Y - 1900) w
               (month_start Y m + (d - 1)) 0).
  assert (valid_tm t2 /\ tm_seconds t2 = t /\ derived_ok t2) as (Hok1 & Hok2 & Hok3).
  { unfold valid_tm, tm_seconds, derived_ok, tm_day. cbn [tm_sec tm_min tm_hour tm_mday tm_mon tm_year tm_wday tm_yday t2].
    replace (Y - 1900 + 1900) with Y by lia. rewrite Ec. subst e. replace (146097 * (D / 146097) + (365 * y + y / 4 - y / 100) + r - 719468) with (D - 719468) in * by lia.
    split_and!; try done; try (clear -Hrem; div_lia); [|by rewrite <- Ec].
    subst D. clear -Hrem. subst rem. div_lia. }
  unfold DAYS_IN_JANUARY, DAYS_IN_FEBRUARY. rewrite <- Ey.
  destruct (time64 && negb (fits_int (Y - 1900))) eqn:Eb.
  - apply andb_true_iff in Eb as [Eb1 Eb2%negb_true_iff].
    do 2 eexists. split; [reflexivity|]. by exists t2.
  - do 2 eexists. split; [reflexivity|]. exists t2. split_and!; try done.
    intros E64. rewrite E64 in Eb. by apply negb_false_iff in Eb.
Qed.
End gmtime_proof.

(** ** mktime *)

Section mktime_proof.
Context `{Arch} `{TimeT}.

Lemma div_spec x n : 0 < n -> div x n = (x ÷ n, x %% n).
Proof.
  intros Hn. unfold div. destruct (Z.leb_spec 0 x) as [Hx|Hx]; cbn [andb].
  - pose proof (Z.rem_bound_pos x n Hx Hn). rewrite !(proj2 (Z.ltb_ge _ 0)) by lia. done.
  - pose proof (Z.rem_bound_pos_neg x n Hn ltac:(lia)). rewrite (proj2 (Z.ltb_ge 0 _)) by lia.
    by rewrite andb_false_r.
Qed.

Lemma carry_spec {S} base x next (s : S) :
  0 < base -> INT_MIN < next + x / base -> next + x / base < INT_MAX ->
  carry base x next s = Some ((x mod base, next + x / base), s).
Proof.
  intros Hb H1 H2. unfold carry. rewrite div_spec by done.
  destruct ((x <? 0) || (base - 1 <? x)) eqn:E.
  - assert (x ÷ base = x / base /\ x %% base = x mod base /\ 0 <= x %% base \/
            x ÷ base = x / base + 1 /\ x %% base = x mod base - base /\ x %% base < 0) as Hc.
    { pose proof (Z.quot_rem' x base) as Eq. pose proof (Z.div_mod x base ltac:(lia)) as Ed.
      pose proof (Z.mod_pos_bound x base Hb). destruct (Z.le_gt_cases 0 x) as [Hx|Hx].
      - left. pose proof (Z.rem_bound_pos x base Hx Hb).
        rewrite Z.quot_div_nonneg, Z.rem_mod_nonneg by lia. lia.
      - pose proof (Z.rem_bound_pos_neg x base Hb ltac:(lia)).
        assert (x ÷ base - x / base = 0 \/ x ÷ base - x / base = 1) as [E0|E0] by nia.
        + left. replace (x ÷ base) with (x / base) in * by lia. lia.
        + right. replace (x ÷ base) with (x / base + 1) in * by lia. lia. }
    unfold int_. destruct Hc as [(-> & -> & Hc)|(-> & -> & Hc)].
    + rewrite (proj2 (Z.ltb_ge _ 0)) by lia. unfold fits_int.
      rewrite (proj2 (Z.leb_le _ _)), (proj2 (Z.leb_le _ _)) by lia. done.
    + rewrite (proj2 (Z.ltb_lt _ 0)) by lia. unfold fits_int, bind.
      rewrite !(proj2 (Z.leb_le _ _)) by lia. simpl. unfold ret. rewrite !(proj2 (Z.leb_le _ _)) by lia.
      simpl. do 3 f_equal; lia.
  - bool_to_prop. rewrite Z.div_small, Z.mod_small, Z.add_0_r by lia. done.
Qed.

Lemma leap_day_isleap2 y off : (if isleap2 y off then 1 else 0) = leap_day (y + off).
Proof.
  unfold isleap2. destruct (Z.eqb_spec off 0) as [->|Hne]; simpl; [by rewrite Z.add_0_r|].
  fold (leap_day (y %% 400 + off)). rewrite <- (leap_day_shift _ (y ÷ 400)). f_equal.
  pose proof (Z.quot_rem' y 400). lia.
Qed.

Lemma feb_days_spec y off : feb_days y off = 28 + leap_day (y + off + 1900).
Proof.
  unfold feb_days. replace (y + off + 1900) with (y + (off + YEAR_BASE)) by (unfold YEAR_BASE; lia).
  rewrite <- leap_day_isleap2. by destruct (isleap2 _ _).
Qed.

Lemma days_in_month_spec {S} Y m (s : S) :
  0 <= m < 12 -> days_in_month (28 + leap_day Y) m s = Some (month_len Y m, s).
Proof.
  intros Hm. unfold days_in_month, at_index, month_len, leap_day.
  month_cases m Hm; destruct (isleap Y); reflexivity.
Qed.

Lemma month_len_range Y m : 0 <= m < 12 -> 28 <= month_len Y m <= 31.
Proof.
  intros Hm. unfold month_len.
  month_cases m Hm; destruct (isleap Y); by vm_compute.
Qed.

(** A day counted from the next month, from the previous one. *)
Lemma civil_day_next Y m d :
  0 <= m < 11 -> civil_day Y m (d + month_len Y m) = civil_day Y (m + 1) d.
Proof. intros. unfold civil_day. rewrite month_start_next by lia. lia. Qed.

Lemma civil_day_new_year Y d : civil_day Y 11 (d + month_len Y 11) = civil_day (Y + 1) 0 d.
Proof.
  unfold civil_day. rewrite year_start_next, <- month_start_year.
  pose proof (month_start_next Y 11 ltac:(lia)) as E. change (11 + 1) with 12 in E.
  change (month_start (Y + 1) 0) with 0. lia.
Qed.

(** ** The months of [validate_structure] *)

Lemma mday_down_spec {S} ty (s : S) : forall fuel mday mon yo,
  0 <= mon < 12 -> mday <= month_len (ty + yo + 1900) mon -> (Z.to_nat (1 - mday) < fuel)%nat ->
  exists mday' mon' yo', loop (mday_down_step ty) fuel (mday, mon, yo, feb_days ty yo) s = Some ((mday', mon', yo'), s) /\
    valid_date (ty + yo' + 1900) mon' mday' /\
    civil_day (ty + yo' + 1900) mon' mday' = civil_day (ty + yo + 1900) mon mday.
Proof.
  induction fuel as [|f IH]; intros mday mon yo Hm Hd Hf; [lia|]. rewrite loop_S. unfold mday_down_step at 1.
  destruct (Z.leb_spec mday 0) as [Hle|Hgt].
  2: { exists mday, mon, yo. split_and!; try done; unfold valid_date; lia. }
  destruct (Z.eqb_spec (mon - 1) (-1)) as [E|E].
  - assert (mon = 0) as -> by lia. rewrite (feb_days_spec ty (yo - 1)).
    rewrite (bind_eq _ _ _ _ _ (days_in_month_spec (ty + (yo - 1) + 1900) 11 s ltac:(lia))).
    pose proof (month_len_range (ty + (yo - 1) + 1900) 11 ltac:(lia)).
    destruct (IH (mday + month_len (ty + (yo - 1) + 1900) 11) 11 (yo - 1)) as (mday' & mon' & yo' & El & Hv & Ec); [lia..|].
    exists mday', mon', yo'. rewrite <- feb_days_spec. split_and!; [exact El|done|]. rewrite Ec, civil_day_new_year.
    f_equal; lia.
  - rewrite (feb_days_spec ty yo).
    rewrite (bind_eq _ _ _ _ _ (days_in_month_spec (ty + yo + 1900) (mon - 1) s ltac:(lia))).
    pose proof (month_len_range (ty + yo + 1900) (mon - 1) ltac:(lia)).
    destruct (IH (mday + month_len (ty + yo + 1900) (mon - 1)) (mon - 1) yo) as (mday' & mon' & yo' & El & Hv & Ec); [lia..|].
    exists mday', mon', yo'. rewrite <- feb_days_spec. split_and!; [exact El|done|]. rewrite Ec, civil_day_next by lia.
    f_equal; lia.
Qed.

Lemma mday_up_spec {S} ty (s : S) : forall fuel mday mon yo,
  0 <= mon < 12 -> 0 < mday -> (Z.to_nat mday < fuel)%nat ->
  exists mday' mon' yo', loop (mday_up_step ty) fuel (mday, mon, yo, feb_days ty yo) s = Some ((mday', mon', yo'), s) /\
    valid_date (ty + yo' + 1900) mon' mday' /\
    civil_day (ty + yo' + 1900) mon' mday' = civil_day (ty + yo + 1900) mon mday.
Proof.
  induction fuel as [|f IH]; intros mday mon yo Hm Hd Hf; [lia|]. rewrite loop_S. unfold mday_up_step at 1.
  rewrite (feb_days_spec ty yo).
  rewrite (bind_eq _ _ _ _ _ (days_in_month_spec (ty + yo + 1900) mon s Hm)).
  pose proof (month_len_range (ty + yo + 1900) mon Hm) as Hl.
  destruct (Z.ltb_spec (month_len (ty + yo + 1900) mon) mday) as [Hlt|Hge].
  2: { exists mday, mon, yo. split_and!; try done; unfold valid_date; lia. }
  destruct (Z.eqb_spec (mon + 1) 12) as [E|E].
  - assert (mon = 11) as -> by lia.
    destruct (IH (mday - month_len (ty + yo + 1900) 11) 0 (yo + 1)) as (mday' & mon' & yo' & El & Hv & Ec); [lia..|].
    exists mday', mon', yo'. split_and!; [exact El|done|].
    rewrite Ec. replace (ty + (yo + 1) + 1900) with (ty + yo + 1900 + 1) by lia. rewrite <- civil_day_new_year.
    f_equal; lia.
  - destruct (IH (mday - month_len (ty + yo + 1900) mon) (mon + 1) yo) as (mday' & mon' & yo' & El & Hv & Ec); [lia..|].
    exists mday', mon', yo'. rewrite <- feb_days_spec. split_and!; [exact El|done|].
    rewrite Ec, <- civil_day_next by lia. f_equal; lia.
Qed.

(** ** The normalisation *)

(** The seconds that a broken-down time stands for, its fields in any range. *)
Definition raw_seconds (t : tm) : Z :=
  civil_day (tm_year t + 1900 + tm_mon t / 12) (tm_mon t mod 12) (tm_mday t) * 86400 +
  tm_hour t * 3600 + tm_min t * 60 + tm_sec t.

(** Fields far enough from the ends of [int] for the carries. *)
Definition moderate (t : tm) : Prop :=
  Forall (fun x => - 2 ^ 30 <= x <= 2 ^ 30) [tm_sec t; tm_min t; tm_hour t; tm_mday t; tm_mon t].

(** The day of the month with the carry of the time of day. *)
Definition carried_mday (t : tm) : Z := tm_mday t + (tm_hour t + (tm_min t + tm_sec t / 60) / 60) / 24.

(** The normalised time, before the year is fitted into an [int]. *)
Record normalised (t t' : tm) : Prop := {
  nm_valid : valid_tm t';
  nm_seconds : tm_seconds t' = raw_seconds t;
  nm_wday : tm_wday t' = tm_wday t;
  nm_yday : tm_yday t' = tm_yday t;
  nm_isdst : tm_isdst t' = tm_isdst t }.

Lemma swrap_int x : fits_int x = true -> swrap 32 x = x.
Proof.
  unfold fits_int, INT_MIN, INT_MAX. intros Hx. bool_to_prop. apply swrap_small; [lia|]. simpl. lia.
Qed.

Lemma validate_spec fuel t :
  moderate t -> Z.abs (carried_mday t) + 1 < Z.of_nat fuel ->
  exists t2, normalised t t2 /\
    validate_structure fuel t =
      Some (fits_int (tm_year t2),
            Tm (tm_sec t2) (tm_min t2) (tm_hour t2) (tm_mday t2) (tm_mon t2) (swrap 32 (tm_year t2))
              (tm_wday t2) (tm_yday t2) (tm_isdst t2)).
Proof.
  intros Hmod Hf. unfold moderate in Hmod. rewrite !Forall_cons in Hmod. destruct Hmod as (Hs & Hmi & Hh & Hd & Hmo & _).
  change (2 ^ 30) with 1073741824 in *.
  unfold carried_mday in Hf. unfold validate_structure. erewrite bind_eq; [|reflexivity]. cbv beta.
  set (min1 := tm_min t + tm_sec t / 60) in *. set (hour1 := tm_hour t + min1 / 60) in *.
  set (mday1 := tm_mday t + hour1 / 24) in *.
  assert (-1100000000 < min1 < 1100000000) as H1 by (subst min1; div_lia).
  assert (-1100000000 < hour1 < 1100000000) as H2 by (subst hour1; div_lia).
  assert (-1130000000 < mday1 < 1130000000) as H3 by (subst mday1; div_lia).
  erewrite bind_eq; [|apply carry_spec; unfold INT_MIN, INT_MAX; fold min1; lia]. cbv beta iota. fold min1.
  erewrite bind_eq; [|apply carry_spec; unfold INT_MIN, INT_MAX; fold hour1; lia]. cbv beta iota. fold hour1.
  erewrite bind_eq; [|apply carry_spec; unfold INT_MIN, INT_MAX; fold mday1; lia]. cbv beta iota. fold mday1.
  erewrite bind_eq; [|apply carry_spec; unfold INT_MIN, INT_MAX; div_lia]. cbv beta iota.
  fold min1 hour1 mday1. rewrite Z.add_0_l.
  assert (0 <= tm_mon t mod 12 < 12) as Hm12 by (apply Z.mod_pos_bound; lia).
  assert (exists mday' mon' yo',
    (if mday1 <=? 0 then loop (mday_down_step (tm_year t)) fuel (mday1, tm_mon t mod 12, tm_mon t / 12, feb_days (tm_year t) (tm_mon t / 12))
     else loop (mday_up_step (tm_year t)) fuel (mday1, tm_mon t mod 12, tm_mon t / 12, feb_days (tm_year t) (tm_mon t / 12))) t =
      Some ((mday', mon', yo'), t) /\
    valid_date (tm_year t + yo' + 1900) mon' mday' /\
    civil_day (tm_year t + yo' + 1900) mon' mday' = civil_day (tm_year t + tm_mon t / 12 + 1900) (tm_mon t mod 12) mday1)
    as (mday' & mon' & yo' & El & Hv & Ec).
  { destruct (Z.leb_spec mday1 0).
    - pose proof (month_len_range (tm_year t + tm_mon t / 12 + 1900) _ Hm12). apply mday_down_spec; lia.
    - apply mday_up_spec; lia. }
  rewrite (bind_eq _ _ _ _ _ El).
  exists (Tm (tm_sec t mod 60) (min1 mod 60) (hour1 mod 24) mday' mon' (tm_year t + yo') (tm_wday t) (tm_yday t) (tm_isdst t)).
  split; [split; try done; simpl|done].
  - unfold valid_tm. simpl. split_and!; try (apply Z.mod_pos_bound; lia). done.
  - unfold tm_seconds, raw_seconds, tm_day. simpl. rewrite Ec.
    replace (tm_year t + tm_mon t / 12 + 1900) with (tm_year t + 1900 + tm_mon t / 12) by lia.
    assert (civil_day (tm_year t + 1900 + tm_mon t / 12) (tm_mon t mod 12) mday1 =
            civil_day (tm_year t + 1900 + tm_mon t / 12) (tm_mon t mod 12) (tm_mday t) + hour1 / 24) as ->
      by (unfold civil_day; lia).
    pose proof (Z.div_mod hour1 24 ltac:(lia)). pose proof (Z.div_mod min1 60 ltac:(lia)).
    pose proof (Z.div_mod (tm_sec t) 60 ltac:(lia)). lia.
Qed.

(** ** Dates are determined by their day number *)

Lemma year_start_mono y z : y <= z -> year_start y <= year_start z.
Proof. intros. unfold year_start, leaps. div_lia. Qed.

Lemma month_start_mono Y m n : 0 <= m <= n -> n <= 12 -> month_start Y m <= month_start Y n.
Proof.
  intros Hm Hn. assert (exists k : nat, n = m + Z.of_nat k) as [k ->] by (exists (Z.to_nat (n - m)); lia).
  induction k as [|k IH]; [rewrite Z.add_0_r; lia|].
  pose proof (month_start_next Y (m + Z.of_nat k) ltac:(lia)) as E.
  pose proof (month_len_range Y (m + Z.of_nat k) ltac:(lia)).
  replace (m + Z.of_nat (S k)) with (m + Z.of_nat k + 1) by lia. lia.
Qed.

Lemma civil_day_bounds Y m d :
  valid_date Y m d ->
  year_start Y + month_start Y m <= civil_day Y m d < year_start Y + month_start Y (m + 1) /\
  year_start Y <= civil_day Y m d < year_start (Y + 1).
Proof.
  intros [Hm Hd]. unfold civil_day. rewrite year_start_next, <- month_start_year, month_start_next by done.
  pose proof (month_start_mono Y 0 m ltac:(lia) ltac:(lia)) as H1. change (month_start Y 0) with 0 in H1.
  pose proof (month_start_mono Y (m + 1) 12 ltac:(lia) ltac:(lia)) as H2. rewrite month_start_next in H2 by done. lia.
Qed.

Lemma civil_day_inj Y m d Y' m' d' :
  valid_date Y m d -> valid_date Y' m' d' -> civil_day Y m d = civil_day Y' m' d' -> Y = Y' /\ m = m' /\ d = d'.
Proof.
  intros H1 H2 E. pose proof (civil_day_bounds Y m d H1) as [B1 B1']. pose proof (civil_day_bounds Y' m' d' H2) as [B2 B2'].
  assert (Y = Y') as <-.
  { destruct (Z.lt_trichotomy Y Y') as [Hl|[Hl|Hl]]; [|done|].
    - pose proof (year_start_mono (Y + 1) Y' ltac:(lia)). lia.
    - pose proof (year_start_mono (Y' + 1) Y ltac:(lia)). lia. }
  destruct H1 as [Hm Hd], H2 as [Hm' Hd'].
  assert (m = m') as <-.
  { destruct (Z.lt_trichotomy m m') as [Hl|[Hl|Hl]]; [|done|].
    - pose proof (month_start_mono Y (m + 1) m' ltac:(lia) ltac:(lia)). lia.
    - pose proof (month_start_mono Y (m' + 1) m ltac:(lia) ltac:(lia)). lia. }
  unfold civil_day in E. lia.
Qed.

(** A normalised time is determined by the seconds. *)
Lemma tm_seconds_inj t t' :
  valid_tm t -> valid_tm t' -> tm_seconds t = tm_seconds t' ->
  tm_sec t = tm_sec t' /\ tm_min t = tm_min t' /\ tm_hour t = tm_hour t' /\
  tm_mday t = tm_mday t' /\ tm_mon t = tm_mon t' /\ tm_year t = tm_year t'.
Proof.
  intros (H1 & H2 & H3 & H4) (H1' & H2' & H3' & H4') E. unfold tm_seconds in E.
  assert (tm_day t = tm_day t' /\ tm_hour t = tm_hour t' /\ tm_min t = tm_min t' /\ tm_sec t = tm_sec t') as (Ed & ? & ? & ?) by lia.
  destruct (civil_day_inj _ _ _ _ _ _ H4 H4' Ed) as (? & ? & ?). split_and!; lia.
Qed.

Lemma raw_seconds_valid t : valid_tm t -> raw_seconds t = tm_seconds t.
Proof.
  intros (_ & _ & _ & Hm & _). unfold raw_seconds, tm_seconds, tm_day.
  rewrite Z.div_small, Z.mod_small, Z.add_0_r by done. done.
Qed.

(** ** The years of [mktime_utc] *)

Lemma _DAYS_IN_YEAR_spec y : _DAYS_IN_YEAR y = year_len (y + 1900).
Proof. unfold _DAYS_IN_YEAR, year_len. by rewrite leap_day_isleap2. Qed.

Lemma year_start_hcen y k : year_start (y + k * 10000) = year_start y + k * DAYSPERHCEN.
Proof. unfold year_start, leaps, DAYSPERHCEN. div_lia. Qed.

Lemma time_at {S} x (s : S) : TIME_T_MIN <= x <= TIME_T_MAX -> time_ x s = Some (x, s).
Proof. intros Hx. unfold time_, fits_time. by rewrite !(proj2 (Z.leb_le _ _)) by lia. Qed.

(** Bounds on day numbers that keep the loops inside [time_t]. *)
Lemma years_up_loop {S} (s : S) year : forall fuel y days,
  y <= year -> year - y < Z.of_nat fuel -> TIME_T_MIN <= days ->
  days + (year_start (year + 1900) - year_start (y + 1900)) <= TIME_T_MAX ->
  loop (fun '(y, days) =>
    if y <? year then do days <- time_ (days + _DAYS_IN_YEAR y); ret (inl (y + 1, days))
    else ret (inr days)) fuel (y, days) s =
  Some (days + (year_start (year + 1900) - year_start (y + 1900)), s).
Proof.
  induction fuel as [|f IH]; intros y days Hy Hf Hlo Hhi; [lia|]. rewrite loop_S.
  destruct (Z.ltb_spec y year) as [Hlt|Hge].
  - pose proof (year_start_next (y + 1900)) as En. rewrite _DAYS_IN_YEAR_spec.
    pose proof (year_start_mono (y + 1900 + 1) (year + 1900) ltac:(lia)).
    assert (365 <= year_len (y + 1900)) by (unfold year_len; destruct (leap_day_cases (y + 1900)); lia).
    rewrite (bind_eq _ _ _ _ _ (time_at (days + year_len (y + 1900)) s ltac:(lia))). simpl.
    rewrite IH; replace (y + 1 + 1900) with (y + 1900 + 1) by lia; try lia. do 2 f_equal. lia.
  - assert (y = year) as -> by lia. rewrite Z.sub_diag, Z.add_0_r. done.
Qed.

Lemma years_down_loop {S} (s : S) year : forall fuel y days,
  year <= y -> y - year < Z.of_nat fuel -> days <= TIME_T_MAX ->
  TIME_T_MIN <= days + (year_start (year + 1901) - year_start (y + 1901)) ->
  loop (fun '(y, days) =>
      if year <? y then do days <- time_ (days - _DAYS_IN_YEAR y); ret (inl (y - 1, days))
      else ret (inr (y, days))) fuel (y, days) s =
  Some ((year, days + (year_start (year + 1901) - year_start (y + 1901))), s).
Proof.
  induction fuel as [|f IH]; intros y days Hy Hf Hhi Hlo; [lia|]. rewrite loop_S.
  destruct (Z.ltb_spec year y) as [Hlt|Hge].
  - pose proof (year_start_next (y + 1900)) as En. rewrite _DAYS_IN_YEAR_spec.
    pose proof (year_start_mono (year + 1901) (y + 1900) ltac:(lia)).
    replace (y + 1901) with (y + 1900 + 1) in * by lia.
    assert (365 <= year_len (y + 1900)) by (unfold year_len; destruct (leap_day_cases (y + 1900)); lia).
    rewrite (bind_eq _ _ _ _ _ (time_at (days - year_len (y + 1900)) s ltac:(lia))). simpl.
    rewrite IH; replace (y - 1 + 1901) with (y + 1900) by lia; try lia. do 3 f_equal. lia.
  - assert (y = year) as -> by lia. rewrite Z.sub_diag, Z.add_0_r. done.
Qed.

(** Days before the first of January of a year within 10000 of 1900, added to
    a small number of days. *)
Lemma years_spec {S} (s : S) fuel year days :
  time64 = true -> -10000 < year < 10000 -> 10100 < Z.of_nat fuel -> - 2 ^ 40 <= days <= 2 ^ 40 ->
  (if 70 <? year then years_up fuel year days
   else if year <? 70 then years_down fuel year days else ret days) s =
  Some (days + year_start (year + 1900), s).
Proof.
  intros H64 Hy Hf Hd. assert (TIME_T_MAX = 2 ^ 63 - 1 /\ TIME_T_MIN = - 2 ^ 63) as [Emax Emin]
    by (unfold TIME_T_MAX, TIME_T_MIN, time_bits; by rewrite H64).
  assert (-10000000 < year_start (year + 1900) < 10000000) as Hs by (unfold year_start, leaps; div_lia).
  destruct (Z.ltb_spec 70 year); [|destruct (Z.ltb_spec year 70)].
  - unfold years_up. rewrite years_up_loop; change (year_start (70 + 1900)) with 0; try lia. do 2 f_equal. lia.
  - pose proof (year_start_next (year + 1900)) as En. replace (year + 1900 + 1) with (year + 1901) in En by lia.
    assert (365 <= year_len (year + 1900) <= 366) by (unfold year_len; destruct (leap_day_cases (year + 1900)); lia).
    unfold years_down. erewrite bind_eq.
    2: { apply years_down_loop; change (year_start (69 + 1901)) with 0; lia. }
    cbv beta iota. change (year_start (69 + 1901)) with 0. rewrite _DAYS_IN_YEAR_spec, time_at by lia. do 2 f_equal. lia.
  - assert (year = 70) as -> by lia. change (year_start (70 + 1900)) with 0. by rewrite Z.add_0_r.
Qed.

Lemma before_month {S} y m d (s : S) :
  0 <= m < 12 -> exists b, at_index _DAYS_BEFORE_MONTH m s = Some (b, s) /\
    (if (1 <? m) && isleap2 y YEAR_BASE then d - 1 + b + 1 else d - 1 + b) = month_start (y + 1900) m + (d - 1).
Proof.
  intros Hm. pose proof (leap_day_isleap2 y YEAR_BASE) as El. unfold YEAR_BASE in *. unfold month_start, leap_day in *.
  month_cases m Hm; eexists; (split; [reflexivity|]); destruct (isleap2 y 1900), (isleap (y + 1900)); try done; simpl; lia.
Qed.

Lemma hundredcentury_spec y :
  fits_int y = true ->
  (if 0 <? y then y ÷ 10000 else swrap 32 (- (uwrap 32 (- uwrap 32 y) / 10000))) = y ÷ 10000.
Proof.
  unfold fits_int, INT_MIN, INT_MAX. intros Hy. bool_to_prop. destruct (Z.ltb_spec 0 y) as [|Hle]; [done|].
  assert (uwrap 32 (- uwrap 32 y) = - y) as ->.
  { unfold uwrap. change (2 ^ 32) with 4294967296. div_lia. }
  rewrite swrap_small; [div_lia|lia|]. change (2 ^ (32 - 1)) with 2147483648. div_lia.
Qed.

Definition yday_of (t : tm) : Z := month_start (tm_year t + 1900) (tm_mon t) + (tm_mday t - 1).

Lemma yday_range t : valid_tm t -> 0 <= yday_of t <= 366.
Proof.
  intros (_ & _ & _ & Hv). pose proof (civil_day_bounds _ _ _ Hv) as [_ Hb]. unfold civil_day in Hb.
  rewrite year_start_next in Hb. unfold yday_of, year_len in *. destruct (leap_day_cases (tm_year t + 1900)); lia.
Qed.

Lemma tm_day_range t : - 2 ^ 31 <= tm_year t < 2 ^ 31 -> valid_tm t -> - 10 ^ 12 < tm_day t < 10 ^ 12.
Proof.
  intros Hy Hv%yday_range. unfold tm_day, civil_day. rewrite <- Z.add_assoc. fold (yday_of t).
  unfold year_start, leaps. div_lia.
Qed.

Lemma tm_day_hcen t hc :
  tm_day t = yday_of t + hc * DAYSPERHCEN + year_start (tm_year t - hc * 10000 + 1900).
Proof.
  pose proof (year_start_hcen (tm_year t - hc * 10000 + 1900) hc) as E.
  replace (tm_year t - hc * 10000 + 1900 + hc * 10000) with (tm_year t + 1900) in E by lia.
  unfold tm_day, civil_day, yday_of. lia.
Qed.

Definition with_yday (t : tm) : tm :=
  Tm (tm_sec t) (tm_min t) (tm_hour t) (tm_mday t) (tm_mon t) (tm_year t) (tm_wday t)
    (yday_of t) (tm_isdst t).

Lemma mktime_utc_spec fuel t :
  time64 = true -> moderate t -> Z.abs (carried_mday t) + 1 < Z.of_nat fuel -> 10100 < Z.of_nat fuel ->
  exists t2, normalised t t2 /\
    if fits_int (tm_year t2) then mktime_utc fuel t = Some (Some (raw_seconds t, tm_day t2), with_yday t2)
    else exists t3, mktime_utc fuel t = Some (None, t3).
Proof.
  intros H64 Hmod Hf Hf2. destruct (validate_spec fuel t Hmod Hf) as (t2 & Hn & Ev). exists t2. split; [done|].
  unfold mktime_utc. rewrite (bind_eq _ _ _ _ _ Ev). destruct (fits_int (tm_year t2)) eqn:Ey.
  2: { eexists. reflexivity. }
  rewrite (swrap_int _ Ey). cbv beta iota delta [negb]. erewrite bind_eq; [|reflexivity]. cbn [tm_sec tm_min tm_hour tm_mday tm_mon tm_year].
  destruct (nm_valid _ _ Hn) as (Hs & Hmi & Hh & Hm & Hd).
  set (t2' := Tm _ _ _ _ _ _ _ _ _). destruct (before_month (tm_year t2) (tm_mon t2) (tm_mday t2) t2' Hm) as (b & Eb & Ed).
  rewrite (bind_eq _ _ _ _ _ Eb). rewrite Ed.
  fold (yday_of t2). set (yd := yday_of t2).
  pose proof (yday_range t2 (nm_valid _ _ Hn)) as Hyd. fold yd in Hyd.
  erewrite bind_eq; [|reflexivity]. rewrite H64. rewrite hundredcentury_spec by done.
  unfold fits_int, INT_MIN, INT_MAX in Ey. bool_to_prop.
  assert (TIME_T_MAX = 2 ^ 63 - 1 /\ TIME_T_MIN = - 2 ^ 63) as [Emax Emin]
    by (unfold TIME_T_MAX, TIME_T_MIN, time_bits; by rewrite H64).
  assert (-214749 < tm_year t2 ÷ 10000 < 214749 /\ -10000 < tm_year t2 - tm_year t2 ÷ 10000 * 10000 < 10000)
    as [Hhc Hr] by div_lia.
  set (hc := tm_year t2 ÷ 10000) in *.
  erewrite bind_eq.
  2: { rewrite (bind_eq _ _ _ _ _ (time_at (yd + hc * DAYSPERHCEN) _ ltac:(unfold DAYSPERHCEN; lia))). reflexivity. }
  cbv beta iota. erewrite bind_eq; [|apply years_spec; try done; unfold DAYSPERHCEN; lia].
  replace (yd + hc * DAYSPERHCEN + year_start (tm_year t2 - hc * 10000 + 1900)) with (tm_day t2).
  2: { rewrite (tm_day_hcen t2 hc). subst yd. unfold yday_of. lia. }
  pose proof (tm_day_range t2 ltac:(lia) ltac:(done)) as Hday.
  rewrite Emax, Emin. change (- 2 ^ 63 ÷ SECSPERDAY) with (-106751991167300). change ((2 ^ 63 - 1) ÷ SECSPERDAY) with 106751991167300.
  rewrite (proj2 (Z.ltb_ge _ _)), (proj2 (Z.ltb_ge _ _)) by lia. simpl orb. cbv iota zeta.
  change SECSPERMIN with 60. change SECSPERHOUR with 3600. change SECSPERDAY with 86400.
  replace (tm_sec t2 + tm_min t2 * 60 + tm_hour t2 * 3600 + tm_day t2 * 86400) with (raw_seconds t)
    by (rewrite <- (nm_seconds _ _ Hn); unfold tm_seconds; lia).
  assert (raw_seconds t = tm_day t2 * 86400 + (tm_hour t2 * 3600 + tm_min t2 * 60 + tm_sec t2)) as Eraw
    by (rewrite <- (nm_seconds _ _ Hn); unfold tm_seconds; lia).
  unfold time_bits. rewrite H64. rewrite swrap_small by lia.
  destruct (Z.ltb_spec 0 (tm_day t2 * 86400)), (Z.ltb_spec (raw_seconds t) 0); try lia; done.
Qed.

(** ** timegm and its round trips with gmtime_r *)

Definition with_derived (t : tm) : tm :=
  Tm (tm_sec t) (tm_min t) (tm_hour t) (tm_mday t) (tm_mon t) (tm_year t) ((tm_day t + 4) mod 7) (yday_of t) 0.

Lemma timegm_spec fuel t :
  time64 = true -> moderate t -> Z.abs (carried_mday t) + 1 < Z.of_nat fuel -> 10100 < Z.of_nat fuel ->
  exists t2, normalised t t2 /\
    if fits_int (tm_year t2) then
      timegm fuel t = Some (raw_seconds t, if raw_seconds t =? -1 then with_yday t2 else with_derived t2)
    else exists t3, timegm fuel t = Some (-1, t3).
Proof.
  intros H64 Hmod Hf Hf2. destruct (mktime_utc_spec fuel t H64 Hmod Hf Hf2) as (t2 & Hn & Hr). exists t2. split; [done|].
  unfold timegm. destruct (fits_int (tm_year t2)).
  - rewrite (bind_eq _ _ _ _ _ Hr). destruct (Z.eqb_spec (raw_seconds t) (-1)) as [E|E]; [done|].
    unfold set_tm_wday, upd, bind, ret. do 2 f_equal. unfold with_derived, with_yday. simpl. f_equal.
    destruct (Z.ltb_spec ((tm_day t2 + 4) %% 7) 0); div_lia.
  - destruct Hr as [t3 Hr]. exists t3. by rewrite (bind_eq _ _ _ _ _ Hr).
Qed.

Lemma valid_moderate t : valid_tm t -> moderate t /\ carried_mday t = tm_mday t /\ 1 <= tm_mday t <= 31.
Proof.
  intros (Hs & Hmi & Hh & Hm & Hd). pose proof (month_len_range (tm_year t + 1900) (tm_mon t) Hm).
  split_and!; [|unfold carried_mday; div_lia|lia|lia].
  unfold moderate. rewrite !Forall_cons. change (2 ^ 30) with 1073741824. split_and!; try done; lia.
Qed.

Lemma timegm_gmtime fuel t tm0 t1 :
  time64 = true -> 10100 < Z.of_nat fuel -> gmtime_r t tm0 = Some (true, t1) -> timegm fuel t1 = Some (t, t1).
Proof.
  intros H64 Hf Eg. destruct (gmtime_r_spec t tm0) as (b & t1' & Eg' & t2 & Hv & Hs & Hd & Hz & Hb).
  rewrite Eg in Eg'. injection Eg' as <- <-. destruct Hb as [-> Hfit].
  destruct (valid_moderate t2 Hv) as (Hmod & Hc & Hday).
  destruct (timegm_spec fuel t2 H64 Hmod ltac:(lia) Hf) as (t3 & Hn & Hr).
  rewrite (raw_seconds_valid t2 Hv) in Hr. pose proof (nm_seconds _ _ Hn) as E3. rewrite (raw_seconds_valid t2 Hv) in E3.
  destruct (tm_seconds_inj t3 t2 (nm_valid _ _ Hn) Hv E3) as (F1 & F2 & F3 & F4 & F5 & F6).
  rewrite F6, (Hfit H64) in Hr. rewrite Hr, Hs. do 2 f_equal. destruct Hd as [Hw Hyd].
  unfold with_yday, with_derived, yday_of, tm_day. rewrite (nm_isdst _ _ Hn), (nm_wday _ _ Hn), F1, F2, F3, F4, F5, F6, <- Hyd.
  fold (tm_day t2). rewrite <- Hw. destruct (t =? -1), t2; simpl in *; by subst.
Qed.

Lemma gmtime_timegm fuel t s t' tm0 :
  time64 = true -> moderate t -> Z.abs (carried_mday t) + 1 < Z.of_nat fuel -> 10100 < Z.of_nat fuel ->
  timegm fuel t = Some (s, t') -> s <> -1 -> gmtime_r s tm0 = Some (true, t').
Proof.
  intros H64 Hmod Hf Hf2 Et Hs1. destruct (timegm_spec fuel t H64 Hmod Hf Hf2) as (t2 & Hn & Hr).
  destruct (fits_int (tm_year t2)) eqn:Ef.
  2: { destruct Hr as [t3 Hr]. rewrite Hr in Et. by simplify_eq. }
  rewrite Hr in Et. injection Et as <- <-. rewrite (proj2 (Z.eqb_neq _ _) Hs1).
  destruct (gmtime_r_spec (raw_seconds t) tm0) as (b & t1 & Eg & t4 & Hv & Hs & [Hw Hyd] & Hz & Hb).
  rewrite <- (nm_seconds _ _ Hn) in Hs.
  destruct (tm_seconds_inj t4 t2 Hv (nm_valid _ _ Hn) Hs) as (F1 & F2 & F3 & F4 & F5 & F6).
  destruct b; [destruct Hb as [-> _]|destruct Hb as [_ Hb]; by rewrite F6, Ef in Hb].
  rewrite Eg. do 2 f_equal. unfold with_derived, yday_of, tm_day in *. rewrite F4, F5, F6 in *.
  rewrite <- Hyd, <- Hw. destruct t4; simpl in *; by subst.
Qed.
End mktime_proof.

(** ** Time-zone rules *)

Section zones_proof.
Context `{Arch} `{TimeT}.

Lemma epoch_year_days_spec y : 1970 <= y -> epoch_year_days y = year_start y.
Proof.
  intros Hy. unfold epoch_year_days, year_start, leaps, EPOCH_YEAR, EPOCH_YEARS_SINCE_LEAP,
    EPOCH_YEARS_SINCE_CENTURY, EPOCH_YEARS_SINCE_LEAP_CENTURY.
  change ((1970 - 1) / 4 - (1970 - 1) / 100 + (1970 - 1) / 400) with 477. div_lia.
Qed.

Lemma at_month {S} y m (s : S) :
  0 <= m < 12 -> at_index (__month_lengths (isleap y)) m s = Some (month_len y m, s).
Proof. intros Hm. unfold at_index, month_len. month_cases m Hm; destruct (isleap y); reflexivity. Qed.

Lemma months_before_loop {S} (s : S) y m : forall fuel j days,
  1 <= j <= m -> m <= 12 -> (Z.to_nat (m - j) < fuel)%nat ->
  loop (fun '(j, days) =>
    if j <? m then do n <- at_index (__month_lengths (isleap y)) (j - 1); ret (inl (j + 1, days + n))
    else ret (inr (j, days))) fuel (j, days) s =
  Some ((m, days + (month_start y (m - 1) - month_start y (j - 1))), s).
Proof.
  induction fuel as [|f IH]; intros j days Hj Hm Hf; [lia|]. rewrite loop_S.
  destruct (Z.ltb_spec j m) as [Hlt|Hge].
  - rewrite (bind_eq _ _ _ _ _ (at_month y (j - 1) s ltac:(lia))). simpl.
    pose proof (month_start_next y (j - 1) ltac:(lia)) as E. replace (j - 1 + 1) with j in E by lia.
    rewrite IH by lia. replace (j + 1 - 1) with j by lia. do 3 f_equal. lia.
  - assert (j = m) as -> by lia. do 3 f_equal. lia.
Qed.

(** The last weeks: back to the last occurrence in the month. *)
Lemma last_week_loop {S} (s : S) n : forall fuel d,
  7 <= n -> 0 <= d -> (Z.to_nat d < fuel)%nat ->
  exists k, loop (fun m_day => if n <=? m_day then ret (inl (m_day - DAYSPERWEEK)) else ret (inr m_day)) fuel d s =
    Some (d - 7 * k, s) /\ 0 <= k /\ 0 <= d - 7 * k < n /\ (0 < k -> n <= d - 7 * k + 7).
Proof.
  induction fuel as [|f IH]; intros d Hn Hd Hf; [lia|]. rewrite loop_S. unfold DAYSPERWEEK.
  destruct (Z.leb_spec n d) as [Hle|Hgt].
  - destruct (IH (d - 7)) as (k & E & Hk & Hr & Hl); [lia..|]. exists (k + 1). unfold DAYSPERWEEK in E. simpl. rewrite E.
    split_and!; try lia. do 2 f_equal. lia.
  - exists 0. split_and!; try lia. do 2 f_equal. lia.
Qed.

Record month_rule (r : tzrule) : Prop := {
  mr_kind : ch r = MonthM;
  mr_m : 1 <= r_m r <= 12; mr_n : 1 <= r_n r <= 5; mr_d : 0 <= r_d r <= 6 }.

(** Rule M m.n.d: a day of month [m] that is the weekday [d], in week [n] of
    the month (days 7(n-1) to 7n-1) or, when that is past the month's end, in
    its last week. *)
Lemma rule_day_month {S} (s : S) fuel y r :
  month_rule r -> 1970 <= y < 5000000 -> (60 < fuel)%nat ->
  exists k, rule_day fuel y (year_start y) r s = Some (civil_day y (r_m r - 1) (k + 1), s) /\
    0 <= k < month_len y (r_m r - 1) /\ (civil_day y (r_m r - 1) (k + 1) + 4) mod 7 = r_d r /\
    (7 * (r_n r - 1) <= k < 7 * r_n r \/ k < 7 * (r_n r - 1) /\ month_len y (r_m r - 1) <= k + 7).
Proof.
  intros [Hk Hm Hn Hd] Hy Hf. unfold rule_day. rewrite Hk.
  erewrite bind_eq; [|apply months_before_loop; lia]. change (1 - 1) with 0. change (month_start y 0) with 0.
  rewrite Z.sub_0_r. cbv beta iota.
  assert (0 <= year_start y <= 2000000000) as Hys by (unfold year_start, leaps; div_lia).
  pose proof (month_start_mono y 0 (r_m r - 1) ltac:(lia) ltac:(lia)) as Hms. change (month_start y 0) with 0 in Hms.
  pose proof (month_start_mono y (r_m r - 1) 12 ltac:(lia) ltac:(lia)) as Hms2. rewrite month_start_year in Hms2.
  assert (year_len y <= 366) by (unfold year_len; destruct (leap_day_cases y); lia).
  pose proof (month_len_range y (r_m r - 1) ltac:(lia)) as Hml.
  set (M := year_start y + month_start y (r_m r - 1)) in *. unfold EPOCH_WDAY, DAYSPERWEEK.
  assert (exists w, (if r_d r - (4 + M) %% 7 <? 0 then r_d r - (4 + M) %% 7 + 7 else r_d r - (4 + M) %% 7) = w /\
            0 <= w < 7 /\ (M + w + 4) mod 7 = r_d r) as (w & Ew & Hw & Hwd).
  { eexists. split; [reflexivity|]. destruct (Z.ltb_spec (r_d r - (4 + M) %% 7) 0); div_lia. }
  rewrite Ew. rewrite (bind_eq _ _ _ _ _ (at_month y (r_m r - 1) s ltac:(lia))).
  destruct (last_week_loop s (month_len y (r_m r - 1)) fuel ((r_n r - 1) * 7 + w)) as (q & El & Hq & Hr & Hl); [lia..|].
  rewrite (bind_eq _ _ _ _ _ El). exists ((r_n r - 1) * 7 + w - 7 * q).
  assert (civil_day y (r_m r - 1) ((r_n r - 1) * 7 + w - 7 * q + 1) = M + ((r_n r - 1) * 7 + w - 7 * q)) as ->
    by (unfold civil_day; lia).
  split_and!; [|lia|lia|clear -Hwd; div_lia|lia].
  unfold int_, fits_int, INT_MIN, INT_MAX. by rewrite !(proj2 (Z.leb_le _ _)) by lia.
Qed.

(** What [tzset] stores: a rule of one of the three kinds, or the zeroed rule of
    a zone without daylight saving time. *)
Record rule_ok (r : tzrule) : Prop := {
  ok_kind : match ch r with
            | MonthM => month_rule r \/ r_m r = 0 /\ r_n r = 0 /\ r_d r = 0
            | _ => 0 <= r_d r < 2 ^ 16
            end;
  ok_s : 0 <= r_s r < 2 ^ 28;
  ok_offset : -86400 < offset r < 86400 }.

Lemma rule_day_total {S} (s : S) fuel y r :
  rule_ok r -> 1970 <= y < 5000000 -> (60 < fuel)%nat ->
  exists D, rule_day fuel y (year_start y) r s = Some (D, s) /\ -7 <= D <= 2000000000.
Proof.
  intros [Hk _ _] Hy Hf.
  assert (0 <= year_start y <= 1900000000) as Hys by (unfold year_start, leaps; div_lia).
  assert (forall x, -7 <= x <= 70000 -> int_ (year_start y + x) s = Some (year_start y + x, s)) as Hint.
  { intros x Hx. apply int_at. unfold INT_MIN, INT_MAX. lia. }
  destruct (ch r) eqn:E.
  - unfold rule_day. rewrite E. eexists. split; [|apply and_comm].
    + apply int_at. unfold INT_MIN, INT_MAX. destruct (isleap y && _); lia.
    + destruct (isleap y && _); lia.
  - unfold rule_day. rewrite E. eexists. split; [apply Hint; lia|lia].
  - destruct Hk as [Hk|(Hm & Hn & Hd)].
    + destruct (rule_day_month s fuel y r Hk Hy Hf) as (k & Er & Hr & _). eexists. split; [exact Er|].
      destruct Hk as [_ Hm _ _]. pose proof (month_len_range y (r_m r - 1) ltac:(lia)).
      pose proof (civil_day_bounds y (r_m r - 1) (k + 1) ltac:(unfold valid_date; lia)) as [_ Hb].
      rewrite year_start_next in Hb. unfold year_len in Hb. destruct (leap_day_cases y); lia.
    + unfold rule_day. rewrite E, Hm, Hn, Hd. erewrite bind_eq.
      2: { destruct fuel as [|f]; [lia|]. rewrite loop_S. reflexivity. }
      cbv beta iota. unfold EPOCH_WDAY, DAYSPERWEEK.
      set (w := if 0 - (4 + year_start y) %% 7 <? 0 then _ else _).
      assert (0 <= w < 7) as Hw.
      { subst w. destruct (Z.ltb_spec (0 - (4 + year_start y) %% 7) 0); div_lia. }
      rewrite (bind_eq _ _ _ _ _ (at_month y (1 - 1) s ltac:(lia))).
      pose proof (month_len_range y (1 - 1) ltac:(lia)). erewrite bind_eq.
      2: { destruct fuel as [|f]; [lia|]. rewrite loop_S, (proj2 (Z.leb_gt _ _)) by lia. reflexivity. }
      eexists. split; [apply Hint; lia|lia].
Qed.

Lemma rule_change_total {S} (s : S) fuel y r :
  time64 = true -> rule_ok r -> 1970 <= y < 5000000 -> (60 < fuel)%nat ->
  exists c, rule_change fuel y (year_start y) r s = Some (with_change r c, s).
Proof.
  intros H64 Hr Hy Hf. destruct (rule_day_total s fuel y r Hr Hy Hf) as (D & Ed & Hd).
  unfold rule_change. rewrite (bind_eq _ _ _ _ _ Ed). destruct Hr as [_ Hs Ho].
  erewrite bind_eq; [eexists; reflexivity|]. apply time_at. unfold TIME_T_MIN, TIME_T_MAX, time_bits.
  rewrite H64. change SECSPERDAY with 86400. lia.
Qed.

(** *** When a rule takes effect

    The day of the year [y], counted from the epoch, that a rule names: the n-th day
    of the weekday [d] in a month, or the last one when [n] is 5; the day [n] of a
    year whose 29 February is not counted; the day [n], from 0, of the year. *)
Definition nth_weekday (y m n d : Z) : Z :=
  let first := civil_day y m 1 in
  let day := first + (d - (first + 4)) mod 7 + 7 * (n - 1) in
  if day <? first + month_len y m then day else day - 7.

Definition rule_date (y : Z) (r : tzrule) : Z :=
  match ch r with
  | JulianJ => year_start y + (r_d r - 1) + (if isleap y && (60 <=? r_d r) then 1 else 0)
  | DayD => year_start y + r_d r
  | MonthM => nth_weekday y (r_m r - 1) (r_n r) (r_d r)
  end.

(** In universal time: the time of day is that of the zone until the change. *)
Definition rule_instant (y : Z) (r : tzrule) : Z := rule_date y r * 86400 + r_s r + offset r.

(** A rule of a zone that has daylight saving time. *)
Definition rule_proper (r : tzrule) : Prop := match ch r with MonthM => month_rule r | _ => True end.

(** The day n of a rule J names the same date in every year. *)
Lemma julian_date y m d r : ch r = JulianJ -> 0 <= m < 12 -> 1 <= d <= month_len 1970 m -> r_d r = month_start 1970 m + d -> rule_date y r = civil_day y m d.
Proof.
  intros Ek Hm Hd Er. unfold rule_date. rewrite Ek, Er. unfold civil_day, month_start, month_len in *. change (isleap 1970) with false in *.
  month_cases m Hm; destruct (isleap y); cbn [__month_lengths andb] in *;
    repeat (match goal with |- context [foldr Z.add 0 ?l] => let v := eval vm_compute in (foldr Z.add 0 l) in change (foldr Z.add 0 l) with v end);
    (match type of Hd with context [nth ?i ?l 0] => let v := eval vm_compute in (nth i l 0) in change (nth i l 0) with v in Hd end);
    repeat case_bool; lia.
Qed.

Lemma nth_weekday_eq y m n d k :
  0 <= m < 12 -> 1 <= n <= 5 -> 0 <= k < month_len y m -> (civil_day y m (k + 1) + 4) mod 7 = d ->
  (7 * (n - 1) <= k < 7 * n \/ k < 7 * (n - 1) /\ month_len y m <= k + 7) -> civil_day y m (k + 1) = nth_weekday y m n d.
Proof.
  intros Hm Hn Hk Hd Hc. pose proof (month_len_range y m Hm) as Hlen. unfold nth_weekday. set (first := civil_day y m 1).
  assert (civil_day y m (k + 1) = first + k) as E by (unfold first, civil_day; lia). rewrite E in *.
  set (j := (d - (first + 4)) mod 7). assert (0 <= j < 7) as Hj by (apply Z.mod_pos_bound; lia).
  assert (exists q, k = j + 7 * q) as [q Hq].
  { exists ((k - j) / 7). assert ((k - j) mod 7 = 0) as E0; [|pose proof (Z.div_mod (k - j) 7); lia]. unfold j. rewrite <- Hd. clear. div_lia. }
  destruct (Z.ltb_spec (first + j + 7 * (n - 1)) (first + month_len y m)); lia.
Qed.

Lemma rule_day_date {S} (s : S) fuel y r :
  rule_ok r -> rule_proper r -> 1970 <= y < 5000000 -> (60 < fuel)%nat -> rule_day fuel y (year_start y) r s = Some (rule_date y r, s).
Proof.
  intros Hr Hp Hy Hf. destruct (rule_day_total s fuel y r Hr Hy Hf) as (D & E & _). rewrite E. unfold rule_proper in Hp. unfold rule_date.
  destruct (ch r) eqn:Ek; [| |destruct (rule_day_month s fuel y r Hp Hy Hf) as (k & E' & H1 & H2 & H3); rewrite E in E'; injection E' as ->; destruct Hp; by rewrite (nth_weekday_eq y (r_m r - 1) (r_n r) (r_d r) k) by (done || lia)];
    unfold rule_day, int_ in E; rewrite Ek in E; (destruct (fits_int _); [|done]); injection E as <-; do 2 f_equal; lia.
Qed.

Lemma rule_change_eq {S} (s : S) fuel y r r' :
  rule_ok r -> rule_proper r -> 1970 <= y < 5000000 -> (60 < fuel)%nat -> rule_change fuel y (year_start y) r s = Some (r', s) -> change r' = rule_instant y r.
Proof.
  intros Hr Hp Hy Hf. unfold rule_change. rewrite (bind_eq _ _ _ _ _ (rule_day_date s fuel y r Hr Hp Hy Hf)). unfold bind, time_. destruct (fits_time _); [|done]. intros [= <-]. done.
Qed.

(** The rules of a zone, whatever the change-over times. *)
Definition same_rule (r r' : tzrule) : Prop := exists c, r' = with_change r c.

(** The changes of the year [y] are in place. *)
Definition limits_of (y : Z) (r0 r1 : tzrule) (z : tzinfo) : Prop :=
  change (rule0 z) = rule_instant y r0 /\ change (rule1 z) = rule_instant y r1 /\ north z = (rule_instant y r0 <? rule_instant y r1).

Lemma tzcalc_total fuel y tz :
  time64 = true -> rule_ok (rule0 tz) -> rule_ok (rule1 tz) -> y < 5000000 -> (60 < fuel)%nat ->
  exists b tz', __tzcalc_limits fuel y tz = Some (b, tz') /\ same_rule (rule0 tz) (rule0 tz') /\
    same_rule (rule1 tz) (rule1 tz') /\ (b = (1970 <=? y)) /\ (b = true -> year tz' = y) /\ (b = false -> tz' = tz) /\
    (b = true -> rule_proper (rule0 tz) -> rule_proper (rule1 tz) -> limits_of y (rule0 tz) (rule1 tz) tz').
Proof.
  intros H64 H0' H1 Hy Hf. unfold __tzcalc_limits, EPOCH_YEAR. destruct (Z.ltb_spec y 1970) as [Hlt|Hge].
  - exists false, tz. rewrite (proj2 (Z.leb_gt _ _)) by lia. split_and!; try done;
      [exists (change (rule0 tz))|exists (change (rule1 tz))]; by destruct tz as [? ? [] []].
  - rewrite epoch_year_days_spec by lia. erewrite bind_eq.
    2: { apply int_at. unfold year_start, leaps, INT_MIN, INT_MAX. div_lia. }
    erewrite bind_eq; [|reflexivity]. cbv beta.
    destruct (rule_change_total tz fuel y (rule0 tz)) as [c0 E0]; try done.
    destruct (rule_change_total tz fuel y (rule1 tz)) as [c1 E1]; try done.
    rewrite (bind_eq _ _ _ _ _ E0), (bind_eq _ _ _ _ _ E1). do 2 eexists. split; [reflexivity|].
    rewrite (proj2 (Z.leb_le _ _)) by lia. split_and!; try done; [by eexists..|]. intros _ P0 P1.
    pose proof (rule_change_eq tz fuel y (rule0 tz) _ H0' P0 ltac:(lia) Hf E0) as C0. pose proof (rule_change_eq tz fuel y (rule1 tz) _ H1 P1 ltac:(lia) Hf E1) as C1.
    unfold limits_of. cbn [rule0 rule1 north]. by rewrite C0, C1.
Qed.

(** ** Local time *)

Lemma borrow_spec base x next :
  - base <= x < 2 * base -> let '(x', next') := borrow base x next in
  0 <= x' < base /\ x' + base * next' = x + base * next /\ next - 1 <= next' <= next + 1.
Proof. intros Hx. unfold borrow. destruct (Z.leb_spec base x); [|destruct (Z.ltb_spec x 0)]; lia. Qed.

(** A date with the weekday and the day of the year that belong to it; the hour
    may lie on the day before or after. *)
Definition dated (t : tm) : Prop :=
  0 <= tm_sec t < 60 /\ 0 <= tm_min t < 60 /\
  valid_date (tm_year t + 1900) (tm_mon t) (tm_mday t) /\ derived_ok t.

(** The same instant, on a day [k] days later. *)
Lemma moved_day t y m d hour w yd k :
  dated t -> hour = tm_hour t - 24 * k -> 0 <= hour < 24 -> valid_date (y + 1900) m d ->
  civil_day (y + 1900) m d = tm_day t + k -> w = (tm_day t + k + 4) mod 7 ->
  yd = month_start (y + 1900) m + (d - 1) ->
  let t' := Tm (tm_sec t) (tm_min t) hour d m y w yd (tm_isdst t) in
  valid_tm t' /\ tm_seconds t' = tm_seconds t /\ derived_ok t' /\ tm_isdst t' = tm_isdst t.
Proof.
  intros (Hs & Hmi & _ & _) -> Hh Hv Ec -> ->. unfold valid_tm, tm_seconds, derived_ok, tm_day in *. simpl in *.
  rewrite Ec. split_and!; lia || done.
Qed.

Lemma wday_next w D : w = (D + 4) mod 7 -> (if 6 <? w + 1 then 0 else w + 1) = (D + 1 + 4) mod 7.
Proof. intros ->. destruct (Z.ltb_spec 6 ((D + 4) mod 7 + 1)); div_lia. Qed.

Lemma wday_prev w D : w = (D + 4) mod 7 -> (if w - 1 <? 0 then 6 else w - 1) = (D + -1 + 4) mod 7.
Proof. intros ->. destruct (Z.ltb_spec ((D + 4) mod 7 - 1) 0); div_lia. Qed.

Definition same_instant (t t' : tm) : Prop :=
  valid_tm t' /\ tm_seconds t' = tm_seconds t /\ derived_ok t' /\ tm_isdst t' = tm_isdst t.

Lemma day_after_spec t s ip :
  dated t -> 24 <= tm_hour t < 48 -> fits_int (tm_year t + 1) = true -> ip = __month_lengths (isleap (tm_year t + 1900)) ->
  exists t', day_after ip t s = Some (tt, t') /\ same_instant t t'.
Proof.
  intros Hdt Hh Hfit ->. pose proof Hdt as (Hs & Hmi & [Hm Hd] & Hw & Hy). unfold day_after.
  rewrite (bind_eq _ _ _ _ _ (at_month (tm_year t + 1900) (tm_mon t) s Hm)).
  pose proof (month_len_range (tm_year t + 1900) (tm_mon t) Hm) as Hl. pose proof (wday_next _ _ Hw) as Ew.
  destruct (Z.ltb_spec (month_len (tm_year t + 1900) (tm_mon t)) (tm_mday t + 1)) as [Hlast|Hin].
  - assert (tm_mday t = month_len (tm_year t + 1900) (tm_mon t)) as Ed by lia.
    replace (tm_mday t + 1 - month_len (tm_year t + 1900) (tm_mon t)) with 1 by lia.
    destruct (Z.eqb_spec (tm_mon t + 1) 12) as [E12|E12].
    + assert (tm_mon t = 11) as Em by lia.
      assert (int_ (tm_year t + 1) s = Some (tm_year t + 1, s)) as Ei by (unfold int_; by rewrite Hfit).
      rewrite (bind_eq _ _ _ _ _ Ei). eexists. split; [reflexivity|].
      pose proof (civil_day_new_year (tm_year t + 1900) 1) as En. rewrite <- Em in En.
      replace (tm_year t + 1900 + 1) with (tm_year t + 1 + 1900) in En by lia.
      apply (moved_day t _ _ _ _ _ _ 1); try done; try (unfold HOURSPERDAY; lia).
      * pose proof (month_len_range (tm_year t + 1 + 1900) 0 ltac:(lia)). unfold valid_date. lia.
      * rewrite <- En. unfold tm_day. rewrite Ed. unfold civil_day. lia.
    + eexists. split; [reflexivity|].
      pose proof (civil_day_next (tm_year t + 1900) (tm_mon t) 1 ltac:(lia)) as En.
      apply (moved_day t _ _ _ _ _ _ 1); try done; try (unfold HOURSPERDAY; lia).
      * pose proof (month_len_range (tm_year t + 1900) (tm_mon t + 1) ltac:(lia)). unfold valid_date. lia.
      * rewrite <- En. unfold tm_day. rewrite Ed. unfold civil_day. lia.
      * rewrite Hy, (month_start_next _ (tm_mon t)) by lia. lia.
  - eexists. split; [reflexivity|].
    apply (moved_day t _ _ _ _ _ _ 1); try done; try (unfold HOURSPERDAY; lia); [unfold valid_date; lia|].
    unfold tm_day, civil_day. lia.
Qed.

Lemma day_before_spec t s ip :
  dated t -> -24 <= tm_hour t < 0 -> fits_int (tm_year t - 1) = true -> ip = __month_lengths (isleap (tm_year t + 1900)) ->
  exists t', day_before ip t s = Some (tt, t') /\ same_instant t t'.
Proof.
  intros Hdt Hh Hfit ->. pose proof Hdt as (Hs & Hmi & [Hm Hd] & Hw & Hy). unfold day_before.
  pose proof (month_len_range (tm_year t + 1900) (tm_mon t) Hm) as Hl. pose proof (wday_prev _ _ Hw) as Ew.
  destruct (Z.eqb_spec (tm_mday t - 1) 0) as [E1|E1].
  - assert (tm_mday t = 1) as Ed by lia. destruct (Z.ltb_spec (tm_mon t - 1) 0) as [E0|E0].
    + assert (tm_mon t = 0) as Em by lia.
      assert (int_ (tm_year t - 1) s = Some (tm_year t - 1, s)) as Ei by (unfold int_; by rewrite Hfit).
      rewrite (bind_eq _ _ _ _ _ Ei), (bind_eq _ _ _ _ _ (at_month (tm_year t + 1900) 11 s ltac:(lia))).
      eexists. split; [reflexivity|].
      assert (forall y, month_len y 11 = 31) as E31 by (intros y; unfold month_len; by destruct (isleap y)).
      pose proof (civil_day_new_year (tm_year t - 1 + 1900) 0) as En.
      replace (tm_year t - 1 + 1900 + 1) with (tm_year t + 1900) in En by lia.
      apply (moved_day t _ _ _ _ _ _ (-1)); try done; try lia.
      * unfold valid_date. rewrite !E31. lia.
      * rewrite (E31 (tm_year t + 1900)), <- (E31 (tm_year t - 1 + 1900)).
        change (month_len (tm_year t - 1 + 1900) 11) with (0 + month_len (tm_year t - 1 + 1900) 11).
        rewrite En. unfold tm_day. rewrite Em, Ed. unfold civil_day. lia.
      * pose proof (month_start_next (tm_year t - 1 + 1900) 11 ltac:(lia)) as En2.
        rewrite E31 in En2. change (11 + 1) with 12 in En2. rewrite month_start_year in En2.
        rewrite E31. unfold YEAR_BASE, year_len, leap_day in *. lia.
    + rewrite (bind_eq _ _ _ _ _ (at_month (tm_year t + 1900) (tm_mon t - 1) s ltac:(lia))).
      eexists. split; [reflexivity|].
      pose proof (month_start_next (tm_year t + 1900) (tm_mon t - 1) ltac:(lia)) as En.
      replace (tm_mon t - 1 + 1) with (tm_mon t) in En by lia.
      pose proof (month_len_range (tm_year t + 1900) (tm_mon t - 1) ltac:(lia)).
      apply (moved_day t _ _ _ _ _ _ (-1)); try done; try lia; [unfold valid_date; lia|].
      unfold tm_day, civil_day. rewrite Ed, En. lia.
  - eexists. split; [reflexivity|].
    apply (moved_day t _ _ _ _ _ _ (-1)); try done; try lia; [unfold valid_date; lia|].
    unfold tm_day, civil_day. lia.
Qed.

Lemma sub_offset_spec t ip off :
  valid_tm t -> derived_ok t -> -86400 < off < 86400 ->
  fits_int (tm_year t + 1) = true -> fits_int (tm_year t - 1) = true ->
  ip = __month_lengths (isleap (tm_year t + 1900)) ->
  exists t', sub_offset ip off t = Some (tt, t') /\ valid_tm t' /\ tm_seconds t' = tm_seconds t - off /\
    derived_ok t' /\ tm_isdst t' = tm_isdst t.
Proof.
  intros (Hs & Hmi & Hh & Hv) Hd Hoff Hf1 Hf2 Hip. unfold sub_offset. erewrite bind_eq; [|reflexivity]. cbv beta zeta.
  change SECSPERHOUR with 3600. change SECSPERMIN with 60. change MINSPERHOUR with 60.
  assert (exists h m s, off ÷ 3600 = h /\ (off %% 3600) ÷ 60 = m /\ (off %% 3600) %% 60 = s /\
    off = 3600 * h + 60 * m + s /\ -23 <= h <= 23 /\ -59 <= m <= 59 /\ -59 <= s <= 59)
    as (h & m & s & -> & -> & -> & Eo & Bh & Bm & Bs) by (do 3 eexists; split_and!; try reflexivity; div_lia).
  pose proof (borrow_spec 60 (tm_sec t - s) (tm_min t - m) ltac:(lia)) as B1.
  destruct (borrow 60 (tm_sec t - s) (tm_min t - m)) as [sec min1].
  pose proof (borrow_spec 60 min1 (tm_hour t - h) ltac:(lia)) as B2.
  destruct (borrow 60 min1 (tm_hour t - h)) as [min hour].
  set (t1 := Tm sec min hour (tm_mday t) (tm_mon t) (tm_year t) (tm_wday t) (tm_yday t) (tm_isdst t)).
  assert (dated t1) as Hdt by (unfold dated; simpl; split_and!; lia || apply Hv || apply Hd).
  assert (tm_seconds t1 = tm_seconds t - off) as Es by (unfold tm_seconds, tm_day; simpl; lia).
  unfold HOURSPERDAY. rewrite <- Es.
  destruct (Z.leb_spec 24 hour) as [H24|H24]; [|destruct (Z.ltb_spec hour 0) as [H0'|H0']].
  - destruct (day_after_spec t1 t ip) as (t' & E & V & S & D & I); try done; [simpl; lia|]. by exists t'.
  - destruct (day_before_spec t1 t ip) as (t' & E & V & S & D & I); try done; [simpl; lia|]. by exists t'.
  - exists t1. split; [done|]. split; [|done]. unfold valid_tm. simpl. split_and!; lia || apply Hv.
Qed.

(** ** tzset and localtime_r *)

Definition zone_ok (TZ : option (tzrule * option tzrule)) : Prop :=
  rule_ok (tz_rules TZ).1 /\ rule_ok (tz_rules TZ).2.

(** The state after [tzset]: the rules of the zone and what follows from them. *)
Record zone_set (TZ : option (tzrule * option tzrule)) (s : tstate) : Prop := {
  zs_rule0 : same_rule (tz_rules TZ).1 (rule0 (st_tz s));
  zs_rule1 : same_rule (tz_rules TZ).2 (rule1 (st_tz s));
  zs_daylight : daylight s = negb (offset (tz_rules TZ).1 =? offset (tz_rules TZ).2) }.

Lemma same_rule_offset r r' : same_rule r r' -> offset r' = offset r.
Proof. by intros [c ->]. Qed.

Lemma same_rule_ok r r' : same_rule r r' -> rule_ok r -> rule_ok r'.
Proof. intros [c ->] [Hk Hs Ho]. split; try done. simpl. destruct (ch r) eqn:E; try done.
  destruct Hk as [[? ? ? ?]|Hk]; [left; by split|by right]. Qed.

Lemma same_rule_proper r r' : same_rule r r' -> rule_proper r -> rule_proper r'.
Proof. intros [c ->]. unfold rule_proper. cbn [ch with_change]. destruct (ch r); try done. intros [K1 K2 K3 K4]. by split. Qed.

Lemma same_rule_limits y r0 r0' r1 r1' z : same_rule r0 r0' -> same_rule r1 r1' -> limits_of y r0' r1' z -> limits_of y r0 r1 z.
Proof. by intros [c ->] [c' ->]. Qed.

(** The rules of a zone whose clocks change name days. *)
Definition zone_proper (TZ : option (tzrule * option tzrule)) : Prop :=
  offset (tz_rules TZ).1 <> offset (tz_rules TZ).2 -> rule_proper (tz_rules TZ).1 /\ rule_proper (tz_rules TZ).2.

(** The flag of a time in the year [y] of universal time: 0 in a zone without
    daylight saving time, -1 (not known) before 1970, and otherwise whether the
    time is from the first change of the year to the second or, in the southern
    hemisphere, outside of the time from the second to the first. *)
Definition dst_flag (TZ : option (tzrule * option tzrule)) (y t : Z) : Z :=
  let '(r0, r1) := tz_rules TZ in
  if offset r0 =? offset r1 then 0
  else if y <? 1970 then -1
  else
    let a := rule_instant y r0 in
    let b := rule_instant y r1 in
    if (if a <? b then (a <=? t) && (t <? b) else negb ((b <=? t) && (t <? a))) then 1 else 0.

Lemma same_rule_trans r r' r'' : same_rule r r' -> same_rule r' r'' -> same_rule r r''.
Proof. intros [c ->] [c' ->]. by exists c'. Qed.

Lemma on_tz_eq {A} (c : C tzinfo A) s a z :
  c (st_tz s) = Some (a, z) -> on_tz c s = Some (a, TState (st_tm s) z (daylight s) (timezone s) (st_errno s)).
Proof. intros E. unfold on_tz. by rewrite E. Qed.

Lemma on_tm_eq {A} (c : C tm A) s a t :
  c (st_tm s) = Some (a, t) -> on_tm c s = Some (a, TState t (st_tz s) (daylight s) (timezone s) (st_errno s)).
Proof. intros E. unfold on_tm. by rewrite E. Qed.

Lemma tzset_spec fuel TZ s :
  time64 = true -> zone_ok TZ -> year (st_tz s) < 5000000 -> (60 < fuel)%nat ->
  exists s', tzset fuel TZ s = Some (tt, s') /\ zone_set TZ s' /\ st_tm s' = st_tm s /\
    year (st_tz s') = year (st_tz s) /\ timezone s' = offset (tz_rules TZ).1 /\
    (1970 <= year (st_tz s) -> rule_proper (tz_rules TZ).1 -> rule_proper (tz_rules TZ).2 -> limits_of (year (st_tz s)) (tz_rules TZ).1 (tz_rules TZ).2 (st_tz s')).
Proof.
  intros H64 [Hr0 Hr1] Hy Hf. unfold tzset. destruct (tz_rules TZ) as [r0 r1] eqn:Er. simpl in Hr0, Hr1.
  erewrite bind_eq; [|by apply on_tz_eq]. erewrite bind_eq; [|reflexivity]. cbv beta. cbn [st_tz year].
  set (s1 := TState _ _ _ _ _).
  destruct (tzcalc_total fuel (year (st_tz s)) (st_tz s1)) as (b & z & Ez & S0 & S1 & Eb & Hbt & Hbf & Hlim); try done.
  rewrite (bind_eq _ _ _ _ _ (on_tz_eq _ _ _ _ Ez)). eexists. split; [reflexivity|].
  split; [by split; rewrite ?Er; simpl|]. split_and!; rewrite ?Er; try done; simpl.
  - destruct b; [by apply Hbt|by rewrite Hbf].
  - intros H70. apply Hlim. rewrite Eb. by apply Z.leb_le.
Qed.

Lemma limits_for_spec fuel TZ s y :
  time64 = true -> zone_ok TZ -> zone_set TZ s -> y < 5000000 -> year (st_tz s) < 5000000 -> (60 < fuel)%nat ->
  exists b s', limits_for fuel y s = Some (b, s') /\ zone_set TZ s' /\ st_tm s' = st_tm s /\
    year (st_tz s') < 5000000 /\ (1970 <= year (st_tz s) \/ year (st_tz s) <> y -> b = (1970 <=? y)) /\
    (1970 <= y -> rule_proper (tz_rules TZ).1 -> rule_proper (tz_rules TZ).2 ->
     (1970 <= year (st_tz s) -> limits_of (year (st_tz s)) (tz_rules TZ).1 (tz_rules TZ).2 (st_tz s)) -> limits_of y (tz_rules TZ).1 (tz_rules TZ).2 (st_tz s')).
Proof.
  intros H64 [Hr0 Hr1] [Z0 Z1 Z2] Hy Hys Hf. unfold limits_for. erewrite bind_eq; [|reflexivity]. cbv beta.
  destruct (Z.eqb_spec y (year (st_tz s))) as [->|Hne].
  { exists true, s. split_and!; try done; [intros [?|?]; [|done]; symmetry; by apply Z.leb_le|auto]. }
  destruct (tzcalc_total fuel y (st_tz s)) as (b & z & Ez & S0 & S1 & Eb & Ht & Hfl & Hlim); try done; [by eapply same_rule_ok..|].
  rewrite (on_tz_eq _ _ _ _ Ez). do 2 eexists. split; [reflexivity|]. split_and!; [|done| |done|].
  - split; simpl; [by eapply same_rule_trans..|done].
  - simpl. destruct b; [by rewrite Ht|by rewrite Hfl].
  - intros H70 P0 P1 _. cbn [st_tz]. apply (same_rule_limits y _ _ _ _ z Z0 Z1). apply Hlim; [rewrite Eb; by apply Z.leb_le|by eapply same_rule_proper..].
Qed.

(** The test of [localtime_r]. *)
Definition dst_active (z : tzinfo) (t : Z) : bool :=
  if north z then (change (rule0 z) <=? t) && (t <? change (rule1 z))
  else (change (rule0 z) <=? t) || (t <? change (rule1 z)).

Lemma dst_active_flag TZ y t z :
  offset (tz_rules TZ).1 <> offset (tz_rules TZ).2 -> 1970 <= y -> limits_of y (tz_rules TZ).1 (tz_rules TZ).2 z ->
  (if dst_active z t then 1 else 0) = dst_flag TZ y t.
Proof.
  intros Ho Hy (C0 & C1 & Cn). unfold dst_flag, dst_active. destruct (tz_rules TZ) as [r0 r1]. cbn [fst snd] in *. rewrite (proj2 (Z.eqb_neq _ _) Ho), (proj2 (Z.ltb_ge y 1970)) by done.
  rewrite C0, C1, Cn. destruct (rule_instant y r0 <? rule_instant y r1); [done|].
  by destruct (Z.leb_spec (rule_instant y r0) t), (Z.ltb_spec t (rule_instant y r1)), (Z.leb_spec (rule_instant y r1) t), (Z.ltb_spec t (rule_instant y r0)); try lia.
Qed.

(** The offset in force. *)
Definition zone_offset (TZ : option (tzrule * option tzrule)) (isdst : Z) : Z :=
  if isdst =? 1 then offset (tz_rules TZ).2 else offset (tz_rules TZ).1.

Lemma localtime_r_spec fuel TZ t s tg :
  time64 = true -> zone_ok TZ -> year (st_tz s) < 5000000 -> (60 < fuel)%nat ->
  gmtime_r t (st_tm s) = Some (true, tg) -> -4000000 < tm_year tg < 4000000 ->
  exists s', localtime_r fuel TZ t s = Some (true, s') /\
    valid_tm (st_tm s') /\ derived_ok (st_tm s') /\ year (st_tz s') < 5000000 /\
    tm_seconds (st_tm s') = t - zone_offset TZ (tm_isdst (st_tm s')) /\
    (offset (tz_rules TZ).1 = offset (tz_rules TZ).2 -> tm_isdst (st_tm s') = 0) /\
    (zone_proper TZ -> 1970 <= year (st_tz s) \/ year (st_tz s) <> tm_year tg + 1900 -> tm_isdst (st_tm s') = dst_flag TZ (tm_year tg + 1900) t).
Proof.
  intros H64 Hz Hy Hf Eg Hyr. unfold localtime_r.
  destruct (gmtime_r_spec t (st_tm s)) as (b & tg' & Eg' & t2 & Hv & Hs & Hd & _ & Hb).
  rewrite Eg in Eg'. injection Eg' as <- <-. destruct Hb as [-> _].
  rewrite (bind_eq _ _ _ _ _ (on_tm_eq _ _ _ _ Eg)). cbv beta iota delta [negb]. erewrite bind_eq; [|reflexivity].
  cbv beta. cbn [st_tm]. set (s1 := TState t2 _ _ _ _).
  rewrite (bind_eq _ _ _ _ _ (int_at (tm_year t2 + YEAR_BASE) s1 ltac:(unfold YEAR_BASE, INT_MIN, INT_MAX; lia))).
  destruct (tzset_spec fuel TZ s1) as (s2 & Ez & Hzs & Et & Ey2 & _ & Hlim2); try done. change (year (st_tz s1)) with (year (st_tz s)) in Ey2, Hlim2.
  pose proof (zs_daylight _ _ Hzs) as Edl'. rewrite (bind_eq _ _ _ _ _ Ez).
  erewrite bind_eq; [|reflexivity]. cbv beta.
  assert (exists isdst s3, (if daylight s2 then
      do ok <- limits_for fuel (tm_year t2 + YEAR_BASE);
      do s <- get_st;
      let z := st_tz s in
      if ok : bool then ret (if dst_active z t then 1 else 0) else ret (-1)
    else ret 0) s2 = Some (isdst, s3) /\ zone_set TZ s3 /\ st_tm s3 = t2 /\ year (st_tz s3) < 5000000 /\
    (daylight s2 = false -> isdst = 0) /\
    (zone_proper TZ -> 1970 <= year (st_tz s) \/ year (st_tz s) <> tm_year t2 + 1900 -> isdst = dst_flag TZ (tm_year t2 + 1900) t))
    as (isdst & s3 & Ei & Hzs3 & Et3 & Hy3 & Hi0 & Hi1).
  { destruct (daylight s2) eqn:Edl.
    - destruct (limits_for_spec fuel TZ s2 (tm_year t2 + YEAR_BASE)) as (ok & s3 & El & Hzs3 & Et3 & Hy3 & Hok & Hlim3);
        try done; [unfold YEAR_BASE; lia|by rewrite Ey2|]. rewrite Ey2 in Hok, Hlim3. unfold YEAR_BASE in *.
      assert (offset (tz_rules TZ).1 <> offset (tz_rules TZ).2) as Ho by (intros Eo; by rewrite Eo, Z.eqb_refl in Edl').
      rewrite (bind_eq _ _ _ _ _ El). erewrite bind_eq; [|reflexivity]. cbv beta zeta.
      exists (if ok then if dst_active (st_tz s3) t then 1 else 0 else -1), s3. split; [by destruct ok|]. rewrite Et3, Et. split_and!; try done.
      intros Hp Hyc. rewrite (Hok Hyc). destruct (Hp Ho) as [P0 P1]. destruct (Z.leb_spec 1970 (tm_year t2 + 1900)) as [H70|H70].
      + apply dst_active_flag; [done..|]. apply Hlim3; [done..|]. intros Hc. by apply Hlim2.
      + unfold dst_flag. destruct (tz_rules TZ) as [r0 r1]. cbn [fst snd] in Ho. by rewrite (proj2 (Z.eqb_neq _ _) Ho), (proj2 (Z.ltb_lt _ 1970)).
    - exists 0, s2. split_and!; try done; [by rewrite Ey2|]. intros _ _. unfold dst_flag. destruct (tz_rules TZ) as [r0 r1]. cbn [fst snd] in Edl'. by destruct (offset r0 =? offset r1). }
  unfold dst_active in Ei. rewrite (bind_eq _ _ _ _ _ Ei). erewrite bind_eq; [|by apply on_tm_eq].
  erewrite bind_eq; [|reflexivity]. cbv beta. cbn [st_tm st_tz]. rewrite Et3.
  destruct Hzs3 as [Z0 Z1 Z2]. rewrite (same_rule_offset _ _ Z0), (same_rule_offset _ _ Z1).
  fold (zone_offset TZ isdst). unfold YEAR_BASE.
  destruct (sub_offset_spec (Tm (tm_sec t2) (tm_min t2) (tm_hour t2) (tm_mday t2) (tm_mon t2) (tm_year t2) (tm_wday t2)
              (tm_yday t2) isdst) (__month_lengths (isleap (tm_year t2 + 1900))) (zone_offset TZ isdst))
    as (t' & E' & V' & S' & D' & I'); try done.
  { destruct Hz as [[_ _ ?] [_ _ ?]]. unfold zone_offset. destruct (isdst =? 1); lia. }
  { unfold fits_int, INT_MIN, INT_MAX. simpl. by rewrite !(proj2 (Z.leb_le _ _)) by lia. }
  { unfold fits_int, INT_MIN, INT_MAX. simpl. by rewrite !(proj2 (Z.leb_le _ _)) by lia. }
  erewrite bind_eq; [|apply on_tm_eq; exact E']. eexists. split; [reflexivity|]. simpl in *. rewrite I'.
  split_and!; try done.
  - rewrite S'. f_equal. exact Hs.
  - intros Eo. apply Hi0. rewrite Edl', Eo, Z.eqb_refl. done.
Qed.

(** ** mktime in a zone without daylight saving time *)

Lemma set_tm_wday_spec days t :
  set_tm_wday days t = Some (tt, Tm (tm_sec t) (tm_min t) (tm_hour t) (tm_mday t) (tm_mon t) (tm_year t)
                                  ((days + 4) mod 7) (tm_yday t) (tm_isdst t)).
Proof.
  unfold set_tm_wday, upd. do 3 f_equal. destruct (Z.ltb_spec ((days + 4) %% 7) 0); div_lia.
Qed.

Lemma mktime_std fuel TZ s :
  time64 = true -> zone_ok TZ -> offset (tz_rules TZ).1 = offset (tz_rules TZ).2 ->
  year (st_tz s) < 5000000 -> moderate (st_tm s) ->
  Z.abs (carried_mday (st_tm s)) + 1 < Z.of_nat fuel -> 10100 < Z.of_nat fuel -> raw_seconds (st_tm s) <> -1 ->
  exists t2, normalised (st_tm s) t2 /\
    (fits_int (tm_year t2) = true ->
     exists s', mktime fuel TZ s = Some (raw_seconds (st_tm s) + offset (tz_rules TZ).1, s') /\
       st_tm s' = with_derived t2).
Proof.
  intros H64 Hz Eo Hy Hmod Hf Hf2 Hne.
  destruct (mktime_utc_spec fuel (st_tm s) H64 Hmod Hf Hf2) as (t2 & Hn & Hr). exists t2. split; [done|].
  intros Efit. rewrite Efit in Hr. unfold mktime. rewrite (bind_eq _ _ _ _ _ (on_tm_eq _ _ _ _ Hr)). cbv beta iota.
  rewrite (proj2 (Z.eqb_neq _ _) Hne). set (s1 := TState _ _ _ _ _).
  destruct (tzset_spec fuel TZ s1) as (s2 & Ez & [Z0 Z1 Z2] & Et & _); try done; [lia|]. rewrite (bind_eq _ _ _ _ _ Ez).
  erewrite bind_eq; [|reflexivity]. cbv beta. rewrite Z2, Eo, Z.eqb_refl. cbv beta iota delta [negb].
  erewrite bind_eq; [|reflexivity]. cbv beta iota. erewrite bind_eq; [|reflexivity]. cbv beta.
  cbn [Z.eqb]. rewrite (same_rule_offset _ _ Z0), Eo.
  assert (- 10 ^ 17 < raw_seconds (st_tm s) < 10 ^ 17) as Hraw.
  { rewrite <- (nm_seconds _ _ Hn). destruct (nm_valid _ _ Hn) as (B1 & B2 & B3 & _).
    unfold fits_int, INT_MIN, INT_MAX in Efit. bool_to_prop.
    pose proof (tm_day_range t2 ltac:(lia) (nm_valid _ _ Hn)). unfold tm_seconds. lia. }
  assert (-86400 < offset (tz_rules TZ).2 < 86400) as Hoff by apply Hz.
  unfold time_bits. rewrite H64, swrap_small by lia.
  destruct ((0 <? offset (tz_rules TZ).2) && (raw_seconds (st_tm s) + offset (tz_rules TZ).2 <? raw_seconds (st_tm s))
    || (offset (tz_rules TZ).2 <? 0) && (raw_seconds (st_tm s) <? raw_seconds (st_tm s) + offset (tz_rules TZ).2)) eqn:Eov.
  { exfalso. apply orb_true_iff in Eov as [[E1 E2]%andb_true_iff|[E1 E2]%andb_true_iff]; bool_to_prop; lia. }
  erewrite bind_eq; [|by apply on_tm_eq]. erewrite bind_eq; [|apply on_tm_eq, set_tm_wday_spec].
  eexists. split; [reflexivity|]. rewrite Et. done.
Qed.

(** Instants less than two days apart are in the same or in neighbouring years. *)
Lemma year_near t t' :
  valid_tm t -> valid_tm t' -> - 86400 < tm_seconds t - tm_seconds t' < 86400 -> tm_year t' - 1 <= tm_year t <= tm_year t' + 1.
Proof.
  intros (S1 & M1 & H1 & V1) (S2 & M2 & H2 & V2) Hd. unfold tm_seconds in Hd.
  assert (- 2 < tm_day t - tm_day t' < 2) as Hday by lia. unfold tm_day in Hday.
  apply civil_day_bounds in V1 as [_ B1], V2 as [_ B2]. pose proof (year_start_next (tm_year t + 1900)) as N1.
  pose proof (year_start_next (tm_year t' + 1900)) as N2. unfold year_len in N1, N2.
  pose proof (leap_day_cases (tm_year t + 1900)). pose proof (leap_day_cases (tm_year t' + 1900)). split.
  - destruct (Z.le_gt_cases (tm_year t' - 1) (tm_year t)) as [|Hgt]; [done|].
    pose proof (year_start_mono (tm_year t + 1900 + 1 + 1) (tm_year t' + 1900) ltac:(lia)).
    pose proof (year_start_next (tm_year t + 1900 + 1)) as N3. unfold year_len in N3.
    pose proof (leap_day_cases (tm_year t + 1900 + 1)). lia.
  - destruct (Z.le_gt_cases (tm_year t) (tm_year t' + 1)) as [|Hgt]; [done|].
    pose proof (year_start_mono (tm_year t' + 1900 + 1 + 1) (tm_year t + 1900) ltac:(lia)).
    pose proof (year_start_next (tm_year t' + 1900 + 1)) as N3. unfold year_len in N3.
    pose proof (leap_day_cases (tm_year t' + 1900 + 1)). lia.
Qed.

Lemma mktime_localtime fuel TZ t s tg :
  time64 = true -> zone_ok TZ -> offset (tz_rules TZ).1 = offset (tz_rules TZ).2 ->
  year (st_tz s) < 5000000 -> 10100 < Z.of_nat fuel ->
  gmtime_r t (st_tm s) = Some (true, tg) -> -4000000 < tm_year tg < 4000000 -> t - offset (tz_rules TZ).1 <> -1 ->
  exists s1 s2, localtime_r fuel TZ t s = Some (true, s1) /\
    mktime fuel TZ s1 = Some (t, s2) /\ st_tm s2 = st_tm s1.
Proof.
  intros H64 Hz Eo Hy Hf Eg Hyr Hne.
  destruct (localtime_r_spec fuel TZ t s tg H64 Hz Hy ltac:(lia) Eg Hyr) as (s1 & El & Hv & Hd & Hy1 & Hs & Hi0 & _).
  destruct (gmtime_r_spec t (st_tm s)) as (b & tg' & Eg' & t2 & Hvg & Hsg & _ & _ & Hb).
  rewrite Eg in Eg'. injection Eg' as <- <-. destruct Hb as [-> _].
  destruct (valid_moderate _ Hv) as (Hmod & Hc & Hday). rewrite (Hi0 Eo) in Hs. unfold zone_offset in Hs. cbn [Z.eqb] in Hs.
  assert (-86400 < offset (tz_rules TZ).1 < 86400) as Hoff by apply Hz.
  pose proof (year_near _ _ Hv Hvg ltac:(lia)) as Hnear.
  destruct (mktime_std fuel TZ s1) as (t3 & Hn & Hm); try done; try lia; [rewrite raw_seconds_valid by done; lia|].
  pose proof (nm_seconds _ _ Hn) as E3. rewrite raw_seconds_valid in E3, Hm by done.
  destruct (tm_seconds_inj t3 (st_tm s1) (nm_valid _ _ Hn) Hv E3) as (F1 & F2 & F3 & F4 & F5 & F6).
  destruct Hm as (s2 & Em & Et2).
  { unfold fits_int, INT_MIN, INT_MAX. rewrite F6. by rewrite !(proj2 (Z.leb_le _ _)) by lia. }
  exists s1, s2. split_and!; [done|rewrite Em; do 2 f_equal; lia|]. rewrite Et2. unfold with_derived, yday_of, tm_day.
  destruct Hd as [Hw Hyd]. unfold tm_day in Hw. rewrite F1, F2, F3, F4, F5, F6, <- Hw, <- Hyd, <- (Hi0 Eo).
  by destruct (st_tm s1).
Qed.
End zones_proof.
