(* ===== verification/TimeProps.v ===== *)
(** * Calendar time: what the functions guarantee

    The theorems on libc/time: gmtime_r.c, mktime.c, timegm.c, lcltime_r.c,
    tzcalc_limits.c and tzset.c, with a 64-bit [time_t] for those that convert
    to it. *)

From S2P Require Import Prelude CMem Time TimeSpec.
From stdpp Require Import base list.
From Stdlib Require Import ZArith Lia.

Local Open Scope Z_scope.

(** ** Concrete times and zones *)

Definition time_64 : TimeT := {| time64 := true |}.
#[local] Existing Instance LP64.
#[local] Existing Instance time_64.

Definition blank : tm := Tm 0 0 0 0 0 0 0 0 0.
(** 29 February 2024, 12:34:56 *)
Definition leap_noon : tm := Tm 56 34 12 29 1 124 4 59 0.
(** 3 July 2024, 09:46:40 *)
Definition summer_day : tm := Tm 40 46 9 3 6 124 3 184 0.
(** EST5EDT, with the rules of the United States, and EST5. *)
Definition eastern : option (tzrule * option tzrule) :=
  Some (TzRule MonthM 3 2 0 7200 0 18000, Some (TzRule MonthM 11 1 0 7200 0 14400)).
Definition est5 : option (tzrule * option tzrule) := Some (TzRule MonthM 0 0 0 0 0 18000, None).
Definition start : tstate :=
  TState blank (TzInfo true 0 (TzRule MonthM 0 0 0 0 0 0) (TzRule MonthM 0 0 0 0 0 0)) false 0 0.

Lemma eastern_proper : zone_proper eastern.
Proof. intros _. split; split; vm_compute; try split; congruence. Qed.

Lemma eastern_ok : zone_ok eastern.
Proof. split; split; simpl; lia || (left; split; simpl; lia || done). Qed.

Lemma est5_ok : zone_ok est5.
Proof. split; split; simpl; lia || by right. Qed.

(** ** Universal time *)

(** C19: [gmtime_r] converts every number of seconds, before or after the epoch:
    the fields are those of a valid date and time of the proleptic Gregorian
    calendar at exactly that second, with the weekday and day of the year that
    follow from it; it returns NULL exactly when a 64-bit time is in a year that
    [tm_year] cannot hold. *)
Theorem gmtime_r_correct `{Arch} `{TimeT} (t : Z) (tm0 : tm) :
  exists b t1 t2, gmtime_r t tm0 = Some (b, t1) /\ valid_tm t2 /\ tm_seconds t2 = t /\ derived_ok t2 /\ tm_isdst t2 = 0 /\
    if b then t1 = t2 /\ (time64 = true -> fits_int (tm_year t2) = true)
    else time64 = true /\ fits_int (tm_year t2) = false.
Proof. destruct (gmtime_r_spec t tm0) as (b & t1 & E & t2 & Hs). by exists b, t1, t2. Qed.

(** C20: [timegm] normalises any fields not near the ends of [int], out of range or
    negative, to the valid date and time they denote, returns its seconds and
    sets the weekday and day of the year; when the year leaves [int] it
    returns -1. *)
Theorem timegm_correct `{TimeT} (fuel : nat) (t : tm) :
  time64 = true -> moderate t -> Z.abs (carried_mday t) + 1 < Z.of_nat fuel -> 10100 < Z.of_nat fuel ->
  exists t2, valid_tm t2 /\ tm_seconds t2 = raw_seconds t /\
    if fits_int (tm_year t2)
    then timegm fuel t = Some (raw_seconds t, if raw_seconds t =? -1 then with_yday t2 else with_derived t2)
    else exists t3, timegm fuel t = Some (-1, t3).
Proof.
  intros. destruct (timegm_spec fuel t) as (t2 & Hn & Hr); [done..|]. exists t2.
  split_and!; [apply (nm_valid _ _ Hn)|apply (nm_seconds _ _ Hn)|done].
Qed.

Lemma timegm_witness :
  let t := Tm 75 (-3) 30 0 14 123 0 0 0 in
  exists t2, valid_tm t2 /\ tm_seconds t2 = raw_seconds t /\
    if fits_int (tm_year t2)
    then timegm (Z.to_nat 20000) t =
         Some (raw_seconds t, if raw_seconds t =? -1 then with_yday t2 else with_derived t2)
    else exists t3, timegm (Z.to_nat 20000) t = Some (-1, t3).
Proof.
  apply (timegm_correct (Z.to_nat 20000) (Tm 75 (-3) 30 0 14 123 0 0 0));
    [reflexivity|repeat constructor; simpl; lia|rewrite Z2Nat.id by lia; vm_compute; reflexivity|lia].
Defined.

(** [timegm] inverts [gmtime_r]: it returns the second the fields came from
    and leaves the fields as they are. *)
Theorem timegm_inverts_gmtime `{Arch} `{TimeT} (fuel : nat) (t : Z) (tm0 t1 : tm) :
  time64 = true -> 10100 < Z.of_nat fuel -> gmtime_r t tm0 = Some (true, t1) -> timegm fuel t1 = Some (t, t1).
Proof. apply timegm_gmtime. Qed.

Lemma timegm_inverts_gmtime_witness : timegm (Z.to_nat 20000) leap_noon = Some (1709210096, leap_noon).
Proof.
  apply (timegm_inverts_gmtime (Z.to_nat 20000) 1709210096 blank leap_noon); [reflexivity|lia|vm_compute; reflexivity].
Defined.

(** [gmtime_r] inverts [timegm]: for any fields, in range or not, the second
    that [timegm] returns is converted back to the normalised fields it left. *)
Theorem gmtime_inverts_timegm `{Arch} `{TimeT} (fuel : nat) (t : tm) (s : Z) (t' tm0 : tm) :
  time64 = true -> moderate t -> Z.abs (carried_mday t) + 1 < Z.of_nat fuel -> 10100 < Z.of_nat fuel ->
  timegm fuel t = Some (s, t') -> s <> -1 -> gmtime_r s tm0 = Some (true, t').
Proof. apply gmtime_timegm. Qed.

Lemma gmtime_inverts_timegm_witness : gmtime_r 1709210096 blank = Some (true, leap_noon).
Proof.
  apply (gmtime_inverts_timegm (Z.to_nat 20000) (Tm 116 (-27) 13 60 0 124 0 0 1) 1709210096 leap_noon blank);
    [reflexivity|repeat constructor; simpl; lia|rewrite Z2Nat.id by lia; vm_compute; reflexivity|lia| |discriminate].
  vm_compute. reflexivity.
Defined.

(** ** Local time *)

(** C21: [localtime_r] gives valid fields whose seconds are the time less the
    offset of the zone in force, with the matching weekday and day of the year.  The
    flag tm_isdst is [dst_flag]: 0 in a zone whose clocks do not change, -1 before
    1970, and otherwise 1 exactly when the time is in the part of the year that the
    zone's own rules give to daylight saving time: from the day and hour of the first
    rule to those of the second, in that year, in either hemisphere.  The year for
    which changes were computed before does not matter, unless it is the year of the
    time and before 1970. *)
Theorem localtime_r_correct `{Arch} `{TimeT} (fuel : nat) TZ (t : Z) (s : tstate) (tg : tm) :
  time64 = true -> zone_ok TZ -> zone_proper TZ -> year (st_tz s) < 5000000 -> (60 < fuel)%nat ->
  gmtime_r t (st_tm s) = Some (true, tg) -> -4000000 < tm_year tg < 4000000 ->
  1970 <= year (st_tz s) \/ year (st_tz s) <> tm_year tg + 1900 ->
  exists s', localtime_r fuel TZ t s = Some (true, s') /\ valid_tm (st_tm s') /\ derived_ok (st_tm s') /\
    tm_isdst (st_tm s') = dst_flag TZ (tm_year tg + 1900) t /\
    tm_seconds (st_tm s') = t - zone_offset TZ (tm_isdst (st_tm s')).
Proof.
  intros H64 Hz Hp Hy Hf Eg Hyr Hc. destruct (localtime_r_spec fuel TZ t s tg) as (s' & E & H1' & H2' & _ & H3' & _ & H5'); [done..|].
  exists s'. split_and!; try done. by apply H5'.
Qed.

Lemma localtime_r_witness :
  exists s', localtime_r 70 eastern 1720000000 start = Some (true, s') /\ valid_tm (st_tm s') /\ derived_ok (st_tm s') /\
    tm_isdst (st_tm s') = 1 /\ tm_seconds (st_tm s') = 1720000000 - zone_offset eastern (tm_isdst (st_tm s')).
Proof.
  apply (localtime_r_correct 70 eastern 1720000000 start summer_day);
    [reflexivity|apply eastern_ok|apply eastern_proper|vm_compute; reflexivity|lia|vm_compute; reflexivity|vm_compute; split; reflexivity|right; vm_compute; congruence].
Defined.

(** The table of changes starts with the year 0 and no changes, so that a time of
    the year 0 is taken for one with known changes. *)
Example year_zero : option_map (fun '(_, s) => (tm_year (st_tm s), tm_isdst (st_tm s))) (localtime_r 70 eastern (-62150000000) (TState blank (TzInfo false 0 default_tzrule default_tzrule) false 0 0)) = Some (-1900, 1).
Proof. vm_compute. reflexivity. Qed.

(** [mktime] inverts [localtime_r] in a zone without daylight saving time:
    the time comes back and the fields stay as they are. *)
Theorem mktime_inverts_localtime `{Arch} `{TimeT} (fuel : nat) TZ (t : Z) (s : tstate) (tg : tm) :
  time64 = true -> zone_ok TZ -> offset (tz_rules TZ).1 = offset (tz_rules TZ).2 -> year (st_tz s) < 5000000 ->
  10100 < Z.of_nat fuel -> gmtime_r t (st_tm s) = Some (true, tg) -> -4000000 < tm_year tg < 4000000 ->
  t - offset (tz_rules TZ).1 <> -1 ->
  exists s1 s2, localtime_r fuel TZ t s = Some (true, s1) /\ mktime fuel TZ s1 = Some (t, s2) /\ st_tm s2 = st_tm s1.
Proof. apply mktime_localtime. Qed.

Lemma mktime_inverts_localtime_witness :
  exists s1 s2, localtime_r (Z.to_nat 20000) est5 1709210096 start = Some (true, s1) /\
    mktime (Z.to_nat 20000) est5 s1 = Some (1709210096, s2) /\ st_tm s2 = st_tm s1.
Proof.
  apply (mktime_inverts_localtime (Z.to_nat 20000) est5 1709210096 start leap_noon);
    [reflexivity|apply est5_ok|reflexivity|vm_compute; reflexivity|lia|vm_compute; reflexivity|vm_compute; split; reflexivity|discriminate].
Defined.

(** The rule M m.n.d of a zone selects a day of month [m] that is the weekday
    [d]: the n-th such day, or the last one when the month has fewer. *)
Theorem rule_day_correct `{TimeT} {S : Type} (s : S) (fuel : nat) (y : Z) (r : tzrule) :
  month_rule r -> 1970 <= y < 5000000 -> (60 < fuel)%nat ->
  exists k, rule_day fuel y (year_start y) r s = Some (civil_day y (r_m r - 1) (k + 1), s) /\
    0 <= k < month_len y (r_m r - 1) /\ (civil_day y (r_m r - 1) (k + 1) + 4) mod 7 = r_d r /\
    (7 * (r_n r - 1) <= k < 7 * r_n r \/ k < 7 * (r_n r - 1) /\ month_len y (r_m r - 1) <= k + 7).
Proof. apply rule_day_month. Qed.

Lemma rule_day_witness :
  let r := TzRule MonthM 3 2 0 7200 0 18000 in
  exists k, rule_day 70 2024 (year_start 2024) r tt = Some (civil_day 2024 2 (k + 1), tt) /\
    0 <= k < month_len 2024 2 /\ (civil_day 2024 2 (k + 1) + 4) mod 7 = 0 /\
    (7 * (2 - 1) <= k < 7 * 2 \/ k < 7 * (2 - 1) /\ month_len 2024 2 <= k + 7).
Proof.
  apply (rule_day_correct tt 70 2024 (TzRule MonthM 3 2 0 7200 0 18000)); [split; simpl; done || lia|lia|lia].
Defined.
