(* ===== verification/Utf8.v ===== *)
(** * UTF-8 (libc/stdlib/mbtowc_r.c, wctomb_r.c)

    The conversion functions of the UTF-8 locale for a 32-bit [wchar_t].  The
    decoder is restartable: a call that runs out of input stores the bytes it
    has seen in the conversion state and the next call goes on from there. *)

From S2P Require Import Prelude CMem.
From stdpp Require Import base list gmap.
From Stdlib Require Import ZArith Lia.

Local Open Scope Z_scope.

(** ** State *)

(** [mbstate_t]: how many bytes of a character have been seen, and the bytes. *)
Record mbstate := Mb { __count : Z; wchb0 : Z; wchb1 : Z; wchb2 : Z }.

Definition with_count (st : mbstate) (c : Z) : mbstate := Mb c (wchb0 st) (wchb1 st) (wchb2 st).
Definition with_wchb0 (st : mbstate) (b : Z) : mbstate := Mb (__count st) b (wchb1 st) (wchb2 st).
Definition with_wchb1 (st : mbstate) (b : Z) : mbstate := Mb (__count st) (wchb0 st) b (wchb2 st).
Definition with_wchb2 (st : mbstate) (b : Z) : mbstate := Mb (__count st) (wchb0 st) (wchb1 st) b.

Section utf8.
Context `{Arch}.

(** What a call does: the value returned, the character stored through [pwc]
    if any, and the state; a read outside the mapped memory is a fault. *)
Abbreviation result := (option (Z * option Z * mbstate)).

Definition gives (r : Z) (pwc : option Z) (st : mbstate) : result := Some (r, pwc, st).

(** A byte taken from the state is counted as input: [++n] unless [n] is
    [SIZE_MAX], when the state already held [k] bytes; otherwise it is the
    next byte and the state now holds [k]. *)
Definition count_byte (k : Z) (st : mbstate) (n : Z) : mbstate * Z :=
  if __count st =? k - 1 then (with_count st k, n)
  else (st, if n <? 2 ^ long_bits - 1 then n + 1 else n).

(** [ch < 0x80 || ch > 0xbf] *)
Definition not_trail (ch : Z) : bool := (ch <? 0x80) || (0xbf <? ch).

(** Bytes 0xc0 to 0xdf start a sequence of two. *)
Definition mbtowc2 (m : mem) (t i n ch : Z) (st : mbstate) : result :=
  if ch =? 0xc0 then gives (-1) None st
  else
    let st := with_wchb0 st ch in
    let '(st, n) := count_byte 1 st n in
    if n <? 2 then gives (-2) None st
    else
      ch ← m !! (t + i);
      let i := i + 1 in
      if not_trail ch then gives (-1) None st
      else if wchb0 st <? 0xc2 then gives (-1) None st
      else
        let st := with_count st 0 in
        gives i (Some (Z.lor (Z.shiftl (Z.land (wchb0 st) 0x1f) 6) (Z.land ch 0x3f))) st.

(** Bytes 0xe0 to 0xef start a sequence of three. *)
Definition mbtowc3 (m : mem) (t i n ch : Z) (st : mbstate) : result :=
  let st := with_wchb0 st ch in
  let '(st, n) := count_byte 1 st n in
  if n <? 2 then gives (-2) None st
  else
    '(ch, i) ← (if __count st =? 1 then ch ← m !! (t + i); Some (ch, i + 1) else Some (wchb1 st, i));
    if (wchb0 st =? 0xe0) && (ch <? 0xa0) then gives (-1) None st
    else if not_trail ch then gives (-1) None st
    else
      let st := with_wchb1 st ch in
      let '(st, n) := count_byte 2 st n in
      if n <? 3 then gives (-2) None st
      else
        ch ← m !! (t + i);
        let i := i + 1 in
        if not_trail ch then gives (-1) None st
        else
          let st := with_count st 0 in
          let tmp := Z.lor (Z.lor (Z.shiftl (Z.land (wchb0 st) 0x0f) 12) (Z.shiftl (Z.land (wchb1 st) 0x3f) 6))
                       (Z.land ch 0x3f) in
          if (0xd800 <=? tmp) && (tmp <=? 0xdfff) then gives (-1) None st
          else gives i (Some tmp) st.

(** Bytes 0xf0 to 0xf4 start a sequence of four. *)
Definition mbtowc4 (m : mem) (t i n ch : Z) (st : mbstate) : result :=
  let st := with_wchb0 st ch in
  let '(st, n) := count_byte 1 st n in
  if n <? 2 then gives (-2) None st
  else
    '(ch, i) ← (if __count st =? 1 then ch ← m !! (t + i); Some (ch, i + 1) else Some (wchb1 st, i));
    if ((wchb0 st =? 0xf0) && (ch <? 0x90)) || ((wchb0 st =? 0xf4) && (0x90 <=? ch)) then gives (-1) None st
    else if not_trail ch then gives (-1) None st
    else
      let st := with_wchb1 st ch in
      let '(st, n) := count_byte 2 st n in
      if n <? 3 then gives (-2) None st
      else
        '(ch, i) ← (if __count st =? 2 then ch ← m !! (t + i); Some (ch, i + 1) else Some (wchb2 st, i));
        if not_trail ch then gives (-1) None st
        else
          let st := with_wchb2 st ch in
          let '(st, n) := count_byte 3 st n in
          if n <? 4 then gives (-2) None st
          else
            ch ← m !! (t + i);
            let i := i + 1 in
            if not_trail ch then gives (-1) None st
            else
              let tmp := Z.lor (Z.lor (Z.lor (Z.shiftl (Z.land (wchb0 st) 0x07) 18)
                                             (Z.shiftl (Z.land (wchb1 st) 0x3f) 12))
                                      (Z.shiftl (Z.land (wchb2 st) 0x3f) 6)) (Z.land ch 0x3f) in
              gives i (Some tmp) (with_count st 0).

Definition __utf8_mbtowc (m : mem) (s n : Z) (st : mbstate) : result :=
  if s =? NULL then gives 0 None st
  else if n =? 0 then gives (-2) None st
  else
    '(ch, i) ← (if __count st =? 0 then ch ← m !! s; Some (ch, 1) else Some (wchb0 st, 0));
    if ch =? 0 then gives 0 (Some 0) (with_count st 0)
    else if ch <=? 0x7f then gives 1 (Some ch) (with_count st 0)
    else if (0xc0 <=? ch) && (ch <=? 0xdf) then mbtowc2 m s i n ch st
    else if (0xe0 <=? ch) && (ch <=? 0xef) then mbtowc3 m s i n ch st
    else if (0xf0 <=? ch) && (ch <=? 0xf4) then mbtowc4 m s i n ch st
    else gives (-1) None st.

(** [uwchar_t], which is [wchar_t] (signed or unsigned) on these targets. *)
Definition uwchar (w : Z) : Z := w.

Definition __utf8_wctomb (s wchar : Z) : C mem Z :=
  if s =? NULL then ret 0
  else if wchar <=? 0x7f then run store8 s wchar; ret 1
  else if (0x80 <=? wchar) && (wchar <=? 0x7ff) then
    run store8 s (Z.lor 0xc0 (Z.shiftr (Z.land wchar 0x7c0) 6));
    run store8 (s + 1) (Z.lor 0x80 (Z.land wchar 0x3f));
    ret 2
  else if (0x800 <=? wchar) && (uwchar wchar <=? 0xffff) then
    if (0xd800 <=? uwchar wchar) && (uwchar wchar <=? 0xdfff) then ret (-1)
    else
      run store8 s (Z.lor 0xe0 (Z.shiftr (Z.land wchar 0xf000) 12));
      run store8 (s + 1) (Z.lor 0x80 (Z.shiftr (Z.land wchar 0xfc0) 6));
      run store8 (s + 2) (Z.lor 0x80 (Z.land wchar 0x3f));
      ret 3
  else if (0x10000 <=? uwchar wchar) && (uwchar wchar <=? 0x10ffff) then
    run store8 s (Z.lor 0xf0 (Z.shiftr (Z.land wchar 0x1c0000) 18));
    run store8 (s + 1) (Z.lor 0x80 (Z.shiftr (Z.land wchar 0x3f000) 12));
    run store8 (s + 2) (Z.lor 0x80 (Z.shiftr (Z.land wchar 0xfc0) 6));
    run store8 (s + 3) (Z.lor 0x80 (Z.land wchar 0x3f));
    ret 4
  else ret (-1).
End utf8.

(** ** The encoding *)

Definition surrogate (c : Z) : Prop := 0xd800 <= c <= 0xdfff.
Definition valid_cp (c : Z) : Prop := 0 <= c <= 0x10ffff /\ ~ surrogate c.

Definition utf8_encode (c : Z) : list Z :=
  if c <? 0x80 then [c]
  else if c <? 0x800 then [0xc0 + c / 64; 0x80 + c mod 64]
  else if c <? 0x10000 then [0xe0 + c / 4096; 0x80 + c / 64 mod 64; 0x80 + c mod 64]
  else [0xf0 + c / 262144; 0x80 + c / 4096 mod 64; 0x80 + c / 64 mod 64; 0x80 + c mod 64].

Ltac div_solve := Z.to_euclidean_division_equations; lia.

Section utf8_proof.
Context `{Arch}.

Lemma utf8_encode_bytes c : valid_cp c -> Forall is_byte (utf8_encode c).
Proof.
  intros [Hc _]. unfold utf8_encode. repeat case_bool; rewrite !Forall_cons; split_and!; try constructor; unfold is_byte; div_solve.
Qed.

(** The fields as the sources extract them. *)
Lemma lead_field base j k w mask :
  0 <= j -> 0 <= k <= 6 -> mask = Z.shiftl (Z.ones k) j -> base mod 2 ^ k = 0 ->
  Z.lor base (Z.shiftr (Z.land w mask) j) = base + (w / 2 ^ j) mod 2 ^ k.
Proof.
  intros Hj Hk Hm Hb. rewrite (field_spec j k) by lia. apply (lor_low k); try lia.
  apply Z.mod_pos_bound. apply Z.pow_pos_nonneg; lia.
Qed.

Lemma last_field w : Z.lor 0x80 (Z.land w 0x3f) = 0x80 + w mod 64.
Proof. rewrite (low_spec 6) by done. apply (lor_low 6); [lia| |done]. apply Z.mod_pos_bound. lia. Qed.

Lemma store8_eq {B} m p v (k : C mem B) :
  is_Some (m !! p) -> is_byte v -> (run store8 p v; k) m = k (<[p := v]> m).
Proof. intros Hp Hv. rewrite (bind_eq _ _ _ _ _ (store8_at m p v Hp)). by rewrite uwrap_byte_id. Qed.

Lemma is_Some_insert (m : mem) p q v : is_Some (m !! p) -> is_Some (<[q := v]> m !! p).
Proof. intros Hp. destruct (decide (q = p)) as [->|]; [by rewrite lookup_insert_eq|by rewrite lookup_insert_ne]. Qed.

Lemma store8_list (m : mem) p b l {B} (k : C mem B) :
  mapped m p (Z.of_nat (length (b :: l))) -> is_byte b ->
  (run store8 p b; k) m = k (put_bytes m p [b]) /\ mapped (put_bytes m p [b]) (p + 1) (Z.of_nat (length l)).
Proof.
  intros Hm Hb. split; [apply store8_eq; [apply Hm; simpl; lia|done]|].
  apply put_bytes_mapped. intros a Ha. apply Hm. simpl. lia.
Qed.

Lemma utf8_wctomb_spec s c m :
  s <> NULL -> valid_cp c -> mapped m s (Z.of_nat (length (utf8_encode c))) ->
  __utf8_wctomb s c m = Some (Z.of_nat (length (utf8_encode c)), put_bytes m s (utf8_encode c)).
Proof.
  intros Hs Hv Hm. pose proof (utf8_encode_bytes c Hv) as Hb. destruct Hv as [Hc Hsur].
  unfold __utf8_wctomb, utf8_encode, uwchar, surrogate in *.
  rewrite (proj2 (Z.eqb_neq _ _) Hs), last_field.
  rewrite (lead_field 0xc0 6 5), (lead_field 0x80 6 6), (lead_field 0xe0 12 4), (lead_field 0xf0 18 3),
    (lead_field 0x80 12 6) by (done || lia).
  change (2 ^ 6) with 64. change (2 ^ 12) with 4096. change (2 ^ 18) with 262144. change (2 ^ 5) with 32.
  change (2 ^ 4) with 16. change (2 ^ 3) with 8.
  destruct (Z.ltb_spec c 0x80) as [H1|H1].
  { rewrite (proj2 (Z.leb_le c 0x7f)) by lia. inversion_clear Hb.
    destruct (store8_list m s c [] (ret 1) Hm) as [-> _]; done. }
  rewrite (proj2 (Z.leb_gt c 0x7f)), (proj2 (Z.leb_le 0x80 c)) by lia.
  destruct (Z.ltb_spec c 0x800) as [H2|H2].
  { rewrite (proj2 (Z.leb_le c 0x7ff)) by lia. cbv iota beta delta [andb].
    rewrite (Z.mod_small (c / 64)) by div_solve. rewrite !Forall_cons in Hb. destruct Hb as (B1 & B2 & _).
    destruct (store8_list m s _ _ (run store8 (s + 1) (0x80 + c mod 64); ret 2) Hm B1) as [-> Hm2].
    destruct (store8_list _ (s + 1) _ _ (ret 2) Hm2 B2) as [-> _]. done. }
  rewrite (proj2 (Z.leb_gt c 0x7ff)), (proj2 (Z.leb_le 0x800 c)) by lia. cbv iota beta delta [andb].
  destruct (Z.ltb_spec c 0x10000) as [H3|H3].
  { rewrite (proj2 (Z.leb_le c 0xffff)) by lia.
    replace (if 0xd800 <=? c then c <=? 0xdfff else false) with false
      by (destruct (Z.leb_spec 0xd800 c), (Z.leb_spec c 0xdfff); lia || done).
    rewrite (Z.mod_small (c / 4096)) by div_solve. rewrite !Forall_cons in Hb. destruct Hb as (B1 & B2 & B3 & _).
    destruct (store8_list m s _ _ (run store8 (s + 1) (0x80 + c / 64 mod 64); run store8 (s + 2) (0x80 + c mod 64); ret 3) Hm B1) as [-> Hm2].
    destruct (store8_list _ (s + 1) _ _ (run store8 (s + 2) (0x80 + c mod 64); ret 3) Hm2 B2) as [-> Hm3].
    replace (s + 1 + 1) with (s + 2) in Hm3 by lia.
    destruct (store8_list _ (s + 2) _ _ (ret 3) Hm3 B3) as [-> _].
    unfold ret. do 2 f_equal. simpl. by replace (s + 1 + 1) with (s + 2) by lia. }
  rewrite (proj2 (Z.leb_gt c 0xffff)), (proj2 (Z.leb_le 0x10000 c)), (proj2 (Z.leb_le c 0x10ffff)) by lia.
  rewrite (Z.mod_small (c / 262144)) by div_solve. rewrite !Forall_cons in Hb. destruct Hb as (B1 & B2 & B3 & B4 & _).
  destruct (store8_list m s _ _ (run store8 (s + 1) (0x80 + c / 4096 mod 64); run store8 (s + 2) (0x80 + c / 64 mod 64);
    run store8 (s + 3) (0x80 + c mod 64); ret 4) Hm B1) as [-> Hm2].
  destruct (store8_list _ (s + 1) _ _ (run store8 (s + 2) (0x80 + c / 64 mod 64);
    run store8 (s + 3) (0x80 + c mod 64); ret 4) Hm2 B2) as [-> Hm3].
  replace (s + 1 + 1) with (s + 2) in Hm3 by lia.
  destruct (store8_list _ (s + 2) _ _ (run store8 (s + 3) (0x80 + c mod 64); ret 4) Hm3 B3) as [-> Hm4].
  replace (s + 2 + 1) with (s + 3) in Hm4 by lia.
  destruct (store8_list _ (s + 3) _ _ (ret 4) Hm4 B4) as [-> _].
  unfold ret. do 2 f_equal. simpl. replace (s + 1 + 1) with (s + 2) by lia. by replace (s + 2 + 1) with (s + 3) by lia.
Qed.

Lemma utf8_wctomb_bad s c m :
  s <> NULL -> surrogate c \/ 0x10ffff < c -> __utf8_wctomb s c m = Some (-1, m).
Proof.
  intros Hs Hc. unfold __utf8_wctomb, uwchar, surrogate in *. rewrite (proj2 (Z.eqb_neq _ _) Hs).
  rewrite (proj2 (Z.leb_gt c 0x7f)), (proj2 (Z.leb_gt c 0x7ff)), andb_false_r by lia.
  rewrite (proj2 (Z.leb_le 0x800 c)) by lia. cbn [andb]. destruct Hc as [Hc|Hc].
  - by rewrite (proj2 (Z.leb_le c 0xffff)), (proj2 (Z.leb_le 0xd800 c)), (proj2 (Z.leb_le c 0xdfff)) by lia.
  - rewrite (proj2 (Z.leb_gt c 0xffff)), (proj2 (Z.leb_gt c 0x10ffff)) by lia. by rewrite andb_false_r.
Qed.

(** ** Decoding *)

Lemma cat_low k a b : 0 <= k -> 0 <= b < 2 ^ k -> Z.lor (Z.shiftl a k) b = a * 2 ^ k + b.
Proof.
  intros Hk Hb. rewrite Z.shiftl_mul_pow2 by done. apply (lor_low k); try done.
  apply Z.mod_mul. assert (0 < 2 ^ k) by (apply Z.pow_pos_nonneg; lia). lia.
Qed.

Lemma value2 a b : 0 <= a < 32 -> 0 <= b < 64 ->
  Z.lor (Z.shiftl (Z.land (0xc0 + a) 0x1f) 6) (Z.land (0x80 + b) 0x3f) = a * 64 + b.
Proof.
  intros Ha Hb. rewrite (low_spec 5), (low_spec 6) by done. change (2 ^ 5) with 32. change (2 ^ 6) with 64.
  replace ((0xc0 + a) mod 32) with a by div_solve. replace ((0x80 + b) mod 64) with b by div_solve.
  rewrite cat_low by lia. done.
Qed.

Lemma value3 a b d : 0 <= a < 16 -> 0 <= b < 64 -> 0 <= d < 64 ->
  Z.lor (Z.lor (Z.shiftl (Z.land (0xe0 + a) 0x0f) 12) (Z.shiftl (Z.land (0x80 + b) 0x3f) 6)) (Z.land (0x80 + d) 0x3f) =
  a * 4096 + b * 64 + d.
Proof.
  intros Ha Hb Hd. rewrite (low_spec 4), !(low_spec 6) by done. change (2 ^ 4) with 16. change (2 ^ 6) with 64.
  replace ((0xe0 + a) mod 16) with a by div_solve. replace ((0x80 + b) mod 64) with b by div_solve.
  replace ((0x80 + d) mod 64) with d by div_solve.
  rewrite <- Z.lor_assoc, (cat_low 6), cat_low by lia. lia.
Qed.

Lemma value4 a b d e : 0 <= a < 8 -> 0 <= b < 64 -> 0 <= d < 64 -> 0 <= e < 64 ->
  Z.lor (Z.lor (Z.lor (Z.shiftl (Z.land (0xf0 + a) 0x07) 18) (Z.shiftl (Z.land (0x80 + b) 0x3f) 12))
               (Z.shiftl (Z.land (0x80 + d) 0x3f) 6)) (Z.land (0x80 + e) 0x3f) =
  a * 262144 + b * 4096 + d * 64 + e.
Proof.
  intros Ha Hb Hd He. rewrite (low_spec 3), !(low_spec 6) by done. change (2 ^ 3) with 8. change (2 ^ 6) with 64.
  replace ((0xf0 + a) mod 8) with a by div_solve. replace ((0x80 + b) mod 64) with b by div_solve.
  replace ((0x80 + d) mod 64) with d by div_solve. replace ((0x80 + e) mod 64) with e by div_solve.
  rewrite <- !Z.lor_assoc, (cat_low 6), (cat_low 12), cat_low by lia. lia.
Qed.

(** The state that has seen the bytes [l] of a character. *)
Definition seen (st : mbstate) (l : list Z) : Prop :=
  __count st = Z.of_nat (length l) /\
  match l with
  | [] => True
  | [b0] => wchb0 st = b0
  | [b0; b1] => wchb0 st = b0 /\ wchb1 st = b1
  | [b0; b1; b2] => wchb0 st = b0 /\ wchb1 st = b1 /\ wchb2 st = b2
  | _ => False
  end.

(** What a call has to do on the rest [l2] of the encoding of [c] after [l1],
    with [n] bytes of input. *)
Definition decodes (c : Z) (l1 l2 : list Z) (n : Z) (r : option (Z * option Z * mbstate)) : Prop :=
  exists st', if Z.of_nat (length l2) <=? n
    then r = Some (if c =? 0 then 0 else Z.of_nat (length l2), Some c, st') /\ seen st' []
    else r = Some (-2, None, st') /\ seen st' (l1 ++ take (Z.to_nat n) l2).

Lemma size_max_big : 2 ^ 32 <= 2 ^ long_bits.
Proof. apply Z.pow_le_mono_r; [lia|]. unfold long_bits, long_size. destruct long64; lia. Qed.

Lemma trail_ok b : 0 <= b < 64 -> not_trail (0x80 + b) = false.
Proof. intros Hb. unfold not_trail. apply orb_false_iff. rewrite Z.ltb_ge, Z.ltb_ge. lia. Qed.

Lemma decodes_done c l1 l2 n r st :
  Z.of_nat (length l2) <= n -> c <> 0 -> r = Some (Z.of_nat (length l2), Some c, st) -> __count st = 0 ->
  decodes c l1 l2 n r.
Proof.
  intros Hn Hc -> Hs. exists st. rewrite (proj2 (Z.leb_le _ _) Hn), (proj2 (Z.eqb_neq _ _) Hc). done.
Qed.

Lemma decodes_more c l1 l2 n r st :
  n < Z.of_nat (length l2) -> r = Some (-2, None, st) -> seen st (l1 ++ take (Z.to_nat n) l2) -> decodes c l1 l2 n r.
Proof. intros Hn -> Hs. exists st. by rewrite (proj2 (Z.leb_gt _ _) Hn). Qed.

(** One step of the evaluation of a decoder: its tests are decided by the
    arithmetic context, its reads by the bytes at hand. *)
Ltac dstep :=
  cbn [__count wchb0 wchb1 wchb2 with_count with_wchb0 with_wchb1 with_wchb2 andb orb negb mbind option_bind fst snd];
  change (0 + 1) with 1; change (1 + 1) with 2; change (2 + 1) with 3; change (3 + 1) with 4;
  repeat match goal with
  | H : ?m !! _ = Some _ |- context [?m !! _] => rewrite H
  end;
  try rewrite !trail_ok by lia; ctest.

(** Bytes that are there for the decoder. *)
Lemma input_at m s n l i j b :
  bytes_at m s (take (Z.to_nat n) l) -> j = Z.of_nat i -> l !! i = Some b -> j < n -> m !! (s + j) = Some b.
Proof.
  intros Hm -> Hi Hn. pose proof (lookup_lt_Some _ _ _ Hi). rewrite Hm by (rewrite length_take; lia).
  rewrite lookup_take_lt by lia. done.
Qed.

Lemma input_first m s n l b :
  bytes_at m s (take (Z.to_nat n) (b :: l)) -> 1 <= n -> m !! s = Some b /\ m !! (s + 0) = Some b.
Proof.
  intros Hm Hn. pose proof (input_at m s n (b :: l) 0 0 b Hm eq_refl eq_refl ltac:(lia)) as E.
  split; [by rewrite Z.add_0_r in E|done].
Qed.

(** A first byte taken from the state does not depend on [n] at [SIZE_MAX]. *)
Ltac dcases n :=
  repeat dstep;
  repeat (match goal with |- context [?x <? 2 ^ long_bits - 1] => destruct (Z.ltb_spec x (2 ^ long_bits - 1)) end;
          repeat dstep).

Lemma decode2 m s n st l1 l2 c a b :
  l1 ++ l2 = [0xc0 + a; 0x80 + b] -> l2 <> [] -> c = a * 64 + b -> 2 <= a < 32 -> 0 <= b < 64 ->
  seen st l1 -> 1 <= n <= 2 ^ long_bits - 1 -> bytes_at m s (take (Z.to_nat n) l2) -> s <> NULL ->
  decodes c l1 l2 n (__utf8_mbtowc m s n st).
Proof.
  intros El Hne -> Ha Hb Hst Hn Hm Hs. pose proof size_max_big. unfold __utf8_mbtowc, mbtowc2, count_byte.
  rewrite (proj2 (Z.eqb_neq _ _) Hs), (proj2 (Z.eqb_neq n 0)) by lia.
  destruct st as [cnt w0 w1 w2], Hst as [Hcnt Hw]; simpl in Hcnt, Hw.
  destruct l1 as [|x0 [|x1 l1]]; simpl in El, Hcnt.
  - subst. destruct (input_first _ _ _ _ _ Hm) as [M0 _]; [lia|]. destruct (decide (n = 1)) as [->|Hn1].
    + eapply decodes_more; [simpl; lia|repeat dstep; reflexivity|done].
    + pose proof (input_at _ _ _ _ 1 1 _ Hm eq_refl eq_refl ltac:(lia)) as M1.
      eapply decodes_done; [simpl; lia|lia|repeat dstep; rewrite value2 by lia; reflexivity|done].
  - injection El as -> ->. subst. destruct (input_first _ _ _ _ _ Hm) as [_ M0]; [lia|].
    eapply decodes_done; [simpl; lia|lia|dcases n; rewrite value2 by lia; reflexivity|done].
  - destruct l1; [|done]. injection El as _ _ El. by subst.
Qed.

Lemma decode3 m s n st l1 l2 c a b d :
  l1 ++ l2 = [0xe0 + a; 0x80 + b; 0x80 + d] -> l2 <> [] -> c = a * 4096 + b * 64 + d ->
  0 <= a < 16 -> 0 <= b < 64 -> 0 <= d < 64 -> 0x800 <= c -> ~ surrogate c ->
  seen st l1 -> 1 <= n <= 2 ^ long_bits - 1 -> bytes_at m s (take (Z.to_nat n) l2) -> s <> NULL ->
  decodes c l1 l2 n (__utf8_mbtowc m s n st).
Proof.
  intros El Hne Ec Ha Hb Hd Hc Hsur Hst Hn Hm Hs. pose proof size_max_big. unfold __utf8_mbtowc, mbtowc3, count_byte, surrogate in *.
  rewrite (proj2 (Z.eqb_neq _ _) Hs), (proj2 (Z.eqb_neq n 0)) by lia.
  assert ((0xe0 + a =? 0xe0) && (0x80 + b <? 0xa0) = false) as Eover.
  { destruct (Z.eqb_spec (0xe0 + a) 0xe0), (Z.ltb_spec (0x80 + b) 0xa0); done || (exfalso; lia). }
  assert ((0xd800 <=? c) && (c <=? 0xdfff) = false) as Esur.
  { destruct (Z.leb_spec 0xd800 c), (Z.leb_spec c 0xdfff); done || (exfalso; lia). }
  pose proof (value3 a b d Ha Hb Hd) as Ev. rewrite <- Ec in Ev.
  destruct st as [cnt w0 w1 w2], Hst as [Hcnt Hw]; simpl in Hcnt, Hw.
  destruct l1 as [|x0 [|x1 [|x2 l1]]]; simpl in El, Hcnt.
  - subst cnt l2. destruct (input_first _ _ _ _ _ Hm) as [M0 _]; [lia|]. destruct (decide (n = 1)) as [->|Hn1].
    { eapply decodes_more; [simpl; lia|repeat dstep; reflexivity|done]. }
    pose proof (input_at _ _ _ _ 1 1 _ Hm eq_refl eq_refl ltac:(lia)) as M1. destruct (decide (n = 2)) as [->|Hn2].
    { eapply decodes_more; [simpl; lia|repeat dstep; rewrite Eover; repeat dstep; reflexivity|done]. }
    pose proof (input_at _ _ _ _ 2 2 _ Hm eq_refl eq_refl ltac:(lia)) as M2.
    eapply decodes_done; [simpl; lia|lia|repeat dstep; rewrite Eover; repeat dstep; rewrite Ev, Esur; reflexivity|done].
  - injection El as -> ->. subst cnt w0. destruct (input_first _ _ _ _ _ Hm) as [_ M0]; [lia|]. destruct (decide (n = 1)) as [->|Hn1].
    { eapply decodes_more; [simpl; lia|repeat dstep; rewrite Eover; repeat dstep; reflexivity|done]. }
    pose proof (input_at _ _ _ _ 1 1 _ Hm eq_refl eq_refl ltac:(lia)) as M1.
    eapply decodes_done; [simpl; lia|lia|dcases n; rewrite Eover; dcases n; rewrite Ev, Esur; reflexivity|done].
  - injection El as -> -> ->. destruct Hw as [-> ->]. subst cnt. destruct (input_first _ _ _ _ _ Hm) as [_ M0]; [lia|].
    eapply decodes_done; [simpl; lia|lia|dcases n; rewrite Eover; dcases n; rewrite Ev, Esur; reflexivity|done].
  - destruct l1; [|done]. injection El as _ _ _ El. by subst.
Qed.

Lemma decode4 m s n st l1 l2 c a b d e :
  l1 ++ l2 = [0xf0 + a; 0x80 + b; 0x80 + d; 0x80 + e] -> l2 <> [] -> c = a * 262144 + b * 4096 + d * 64 + e ->
  0 <= a < 5 -> 0 <= b < 64 -> 0 <= d < 64 -> 0 <= e < 64 -> 0x10000 <= c <= 0x10ffff ->
  seen st l1 -> 1 <= n <= 2 ^ long_bits - 1 -> bytes_at m s (take (Z.to_nat n) l2) -> s <> NULL ->
  decodes c l1 l2 n (__utf8_mbtowc m s n st).
Proof.
  intros El Hne Ec Ha Hb Hd He Hc Hst Hn Hm Hs. pose proof size_max_big. unfold __utf8_mbtowc, mbtowc4, count_byte in *.
  rewrite (proj2 (Z.eqb_neq _ _) Hs), (proj2 (Z.eqb_neq n 0)) by lia.
  assert ((0xf0 + a =? 0xf0) && (0x80 + b <? 0x90) || (0xf0 + a =? 0xf4) && (0x90 <=? 0x80 + b) = false) as Eover.
  { destruct (Z.eqb_spec (0xf0 + a) 0xf0), (Z.ltb_spec (0x80 + b) 0x90), (Z.eqb_spec (0xf0 + a) 0xf4), (Z.leb_spec 0x90 (0x80 + b));
      done || (exfalso; lia). }
  pose proof (value4 a b d e ltac:(lia) Hb Hd He) as Ev. rewrite <- Ec in Ev.
  destruct st as [cnt w0 w1 w2], Hst as [Hcnt Hw]; simpl in Hcnt, Hw.
  destruct l1 as [|x0 [|x1 [|x2 [|x3 l1]]]]; simpl in El, Hcnt.
  - subst cnt l2. destruct (input_first _ _ _ _ _ Hm) as [M0 _]; [lia|]. destruct (decide (n = 1)) as [->|Hn1].
    { eapply decodes_more; [simpl; lia|repeat dstep; reflexivity|done]. }
    pose proof (input_at _ _ _ _ 1 1 _ Hm eq_refl eq_refl ltac:(lia)) as M1. destruct (decide (n = 2)) as [->|Hn2].
    { eapply decodes_more; [simpl; lia|repeat dstep; rewrite Eover; repeat dstep; reflexivity|done]. }
    pose proof (input_at _ _ _ _ 2 2 _ Hm eq_refl eq_refl ltac:(lia)) as M2. destruct (decide (n = 3)) as [->|Hn3].
    { eapply decodes_more; [simpl; lia|repeat dstep; rewrite Eover; repeat dstep; reflexivity|done]. }
    pose proof (input_at _ _ _ _ 3 3 _ Hm eq_refl eq_refl ltac:(lia)) as M3.
    eapply decodes_done; [simpl; lia|lia|repeat dstep; rewrite Eover; repeat dstep; rewrite Ev; reflexivity|done].
  - injection El as -> ->. subst cnt w0. destruct (input_first _ _ _ _ _ Hm) as [_ M0]; [lia|]. destruct (decide (n = 1)) as [->|Hn1].
    { eapply decodes_more; [simpl; lia|repeat dstep; rewrite Eover; repeat dstep; reflexivity|done]. }
    pose proof (input_at _ _ _ _ 1 1 _ Hm eq_refl eq_refl ltac:(lia)) as M1. destruct (decide (n = 2)) as [->|Hn2].
    { eapply decodes_more; [simpl; lia|repeat dstep; rewrite Eover; repeat dstep; reflexivity|done]. }
    pose proof (input_at _ _ _ _ 2 2 _ Hm eq_refl eq_refl ltac:(lia)) as M2.
    eapply decodes_done; [simpl; lia|lia|dcases n; rewrite Eover; dcases n; rewrite Ev; reflexivity|done].
  - injection El as -> -> ->. destruct Hw as [-> ->]. subst cnt. destruct (input_first _ _ _ _ _ Hm) as [_ M0]; [lia|].
    destruct (decide (n = 1)) as [->|Hn1].
    { eapply decodes_more; [simpl; lia|repeat dstep; rewrite Eover; repeat dstep; reflexivity|done]. }
    pose proof (input_at _ _ _ _ 1 1 _ Hm eq_refl eq_refl ltac:(lia)) as M1.
    eapply decodes_done; [simpl; lia|lia|dcases n; rewrite Eover; dcases n; rewrite Ev; reflexivity|done].
  - injection El as -> -> -> ->. destruct Hw as (-> & -> & ->). subst cnt. destruct (input_first _ _ _ _ _ Hm) as [_ M0]; [lia|].
    eapply decodes_done; [simpl; lia|lia|dcases n; rewrite Eover; dcases n; rewrite Ev; reflexivity|done].
  - destruct l1; [|done]. injection El as _ _ _ _ El. by subst.
Qed.

(** The decoder on the encoding of a character, from any point of it. *)
Lemma utf8_mbtowc_spec m s n st l1 l2 c :
  valid_cp c -> utf8_encode c = l1 ++ l2 -> l2 <> [] -> seen st l1 ->
  1 <= n <= 2 ^ long_bits - 1 -> bytes_at m s (take (Z.to_nat n) l2) -> s <> NULL ->
  decodes c l1 l2 n (__utf8_mbtowc m s n st).
Proof.
  intros [Hc Hsur] El Hne Hst Hn Hm Hs. unfold utf8_encode in El.
  destruct (Z.ltb_spec c 0x80) as [H1|H1]; [|destruct (Z.ltb_spec c 0x800) as [H2|H2];
    [|destruct (Z.ltb_spec c 0x10000) as [H3|H3]]].
  - destruct l1 as [|x l1]; simpl in El; [|by destruct l1, l2]. subst l2. destruct Hst as [Hcnt _]. simpl in Hcnt.
    destruct (input_first _ _ _ _ _ Hm) as [M0 _]; [lia|]. unfold __utf8_mbtowc.
    rewrite (proj2 (Z.eqb_neq _ _) Hs), (proj2 (Z.eqb_neq n 0)), Hcnt by lia.
    change (Z.of_nat 0 =? 0) with true. rewrite M0. cbn [mbind option_bind].
    exists (with_count st 0). rewrite (proj2 (Z.leb_le _ n)) by (simpl; lia).
    rewrite (proj2 (Z.leb_le c 0x7f)) by lia. destruct (Z.eqb_spec c 0) as [->|]; done.
  - apply (decode2 m s n st l1 l2 c (c / 64) (c mod 64)); try done; div_solve.
  - apply (decode3 m s n st l1 l2 c (c / 4096) (c / 64 mod 64) (c mod 64)); try done; div_solve.
  - apply (decode4 m s n st l1 l2 c (c / 262144) (c / 4096 mod 64) (c / 64 mod 64) (c mod 64)); try done; div_solve.
Qed.

(** ** What is accepted *)

Lemma trail_range b : not_trail b = false -> exists x, b = 0x80 + x /\ 0 <= x < 64.
Proof. unfold not_trail. intros Hb. exists (b - 0x80). apply orb_false_iff in Hb as [H1 H2]. bool_to_prop. lia. Qed.

Definition accepted (m : mem) (s n r c : Z) (st' : mbstate) : Prop :=
  valid_cp c /\ bytes_at m s (utf8_encode c) /\ __count st' = 0 /\
  r = (if c =? 0 then 0 else Z.of_nat (length (utf8_encode c))) /\ Z.of_nat (length (utf8_encode c)) <= n.

Lemma sound2 m s n ch st r c st' :
  __count st = 0 -> m !! s = Some ch -> 0xc0 <= ch <= 0xdf -> mbtowc2 m s 1 n ch st = Some (r, Some c, st') ->
  accepted m s n r c st'.
Proof.
  intros Hst M0 Hch Hr. unfold mbtowc2, count_byte in Hr. cbn [__count with_wchb0] in Hr. rewrite Hst in Hr.
  change (0 =? 1 - 1) with true in Hr. cbv iota beta in Hr.
  destruct (ch =? 0xc0) eqn:Ec0; [done|]. destruct (n <? 2) eqn:En; [done|].
  destruct (m !! (s + 1)) as [b1|] eqn:M1; [|done]. cbn [mbind option_bind] in Hr.
  destruct (not_trail b1) eqn:T1; [done|]. cbn [wchb0 with_count with_wchb0] in Hr. destruct (ch <? 0xc2) eqn:Eo; [done|].
  apply trail_range in T1 as (x & -> & Hx). bool_to_prop. replace ch with (0xc0 + (ch - 0xc0)) in Hr by lia.
  rewrite value2 in Hr by lia. unfold gives in Hr. injection Hr as <- <- <-.
  set (c := (ch - 0xc0) * 64 + x). assert (utf8_encode c = [ch; 0x80 + x]) as Ee.
  { unfold utf8_encode. rewrite (proj2 (Z.ltb_ge c 0x80)), (proj2 (Z.ltb_lt c 0x800)) by (subst c; lia).
    f_equal; [|f_equal]; subst c; div_solve. }
  unfold accepted. rewrite Ee. rewrite (proj2 (Z.eqb_neq c 0)) by (subst c; lia).
  split_and!; [split; [subst c; lia|unfold surrogate; subst c; lia]| |done|done|simpl; lia].
  apply bytes_at_cons. split; [done|]. apply bytes_at_cons. split; [done|apply bytes_at_nil].
Qed.

Lemma sound3 m s n ch st r c st' :
  __count st = 0 -> m !! s = Some ch -> 0xe0 <= ch <= 0xef -> mbtowc3 m s 1 n ch st = Some (r, Some c, st') ->
  accepted m s n r c st'.
Proof.
  intros Hst M0 Hch Hr. unfold mbtowc3, count_byte in Hr. cbn [__count with_wchb0] in Hr. rewrite Hst in Hr.
  change (0 =? 1 - 1) with true in Hr. cbv iota beta in Hr.
  destruct (n <? 2) eqn:En; [done|]. cbn [__count with_count] in Hr. change (1 =? 1) with true in Hr. cbv iota in Hr.
  destruct (m !! (s + 1)) as [b1|] eqn:M1; [|done]. cbn [mbind option_bind wchb0 wchb1 with_count with_wchb0] in Hr.
  destruct ((ch =? 0xe0) && (b1 <? 0xa0)) eqn:Eo; [done|]. destruct (not_trail b1) eqn:T1; [done|].
  cbn [__count with_count with_wchb1] in Hr. change (1 =? 2 - 1) with true in Hr. cbv iota beta in Hr.
  destruct (n <? 3) eqn:En3; [done|]. change (1 + 1) with 2 in Hr.
  destruct (m !! (s + 2)) as [b2|] eqn:M2; [|done]. cbn [mbind option_bind] in Hr.
  destruct (not_trail b2) eqn:T2; [done|]. cbn [wchb0 wchb1 with_count with_wchb0 with_wchb1] in Hr.
  apply trail_range in T1 as (x & -> & Hx), T2 as (y & -> & Hy). bool_to_prop.
  replace ch with (0xe0 + (ch - 0xe0)) in Hr by lia. rewrite value3 in Hr by lia.
  set (v := (ch - 0xe0) * 4096 + x * 64 + y) in *.
  destruct ((0xd800 <=? v) && (v <=? 0xdfff)) eqn:Es; [done|]. unfold gives in Hr. injection Hr as <- <- <-.
  assert (0x800 <= v) as Hv by (apply andb_false_iff in Eo as [Eo|Eo]; bool_to_prop; subst v; lia).
  assert (utf8_encode v = [ch; 0x80 + x; 0x80 + y]) as Ee.
  { unfold utf8_encode. rewrite (proj2 (Z.ltb_ge v 0x80)), (proj2 (Z.ltb_ge v 0x800)), (proj2 (Z.ltb_lt v 0x10000)) by (subst v; lia).
    f_equal; [|f_equal; [|f_equal]]; subst v; div_solve. }
  unfold accepted. rewrite Ee. rewrite (proj2 (Z.eqb_neq v 0)) by lia.
  split_and!; [split; [subst v; lia|]| |done|done|simpl; lia].
  - unfold surrogate. apply andb_false_iff in Es as [Es|Es]; bool_to_prop; lia.
  - apply bytes_at_cons. split; [done|]. apply bytes_at_cons. split; [done|].
    replace (s + 1 + 1) with (s + 2) by lia. apply bytes_at_cons. split; [done|apply bytes_at_nil].
Qed.

Lemma sound4 m s n ch st r c st' :
  __count st = 0 -> m !! s = Some ch -> 0xf0 <= ch <= 0xf4 -> mbtowc4 m s 1 n ch st = Some (r, Some c, st') ->
  accepted m s n r c st'.
Proof.
  intros Hst M0 Hch Hr. unfold mbtowc4, count_byte in Hr. cbn [__count with_wchb0] in Hr. rewrite Hst in Hr.
  change (0 =? 1 - 1) with true in Hr. cbv iota beta in Hr.
  destruct (n <? 2) eqn:En; [done|]. cbn [__count with_count] in Hr. change (1 =? 1) with true in Hr. cbv iota in Hr.
  destruct (m !! (s + 1)) as [b1|] eqn:M1; [|done]. cbn [mbind option_bind wchb0 wchb1 with_count with_wchb0] in Hr.
  destruct ((ch =? 0xf0) && (b1 <? 0x90) || (ch =? 0xf4) && (0x90 <=? b1)) eqn:Eo; [done|].
  destruct (not_trail b1) eqn:T1; [done|].
  cbn [__count with_count with_wchb1] in Hr. change (1 =? 2 - 1) with true in Hr. cbv iota beta in Hr.
  destruct (n <? 3) eqn:En3; [done|]. cbn [__count with_count with_wchb1] in Hr. change (2 =? 2) with true in Hr.
  change (1 + 1) with 2 in Hr. cbv iota in Hr.
  destruct (m !! (s + 2)) as [b2|] eqn:M2; [|done]. cbn [mbind option_bind] in Hr.
  destruct (not_trail b2) eqn:T2; [done|].
  cbn [__count with_count with_wchb1 with_wchb2] in Hr. change (2 =? 3 - 1) with true in Hr. cbv iota beta in Hr.
  destruct (n <? 4) eqn:En4; [done|]. change (2 + 1) with 3 in Hr.
  destruct (m !! (s + 3)) as [b3|] eqn:M3; [|done]. cbn [mbind option_bind] in Hr.
  destruct (not_trail b3) eqn:T3; [done|]. cbn [wchb0 wchb1 wchb2 with_count with_wchb0 with_wchb1 with_wchb2] in Hr.
  apply trail_range in T1 as (x & -> & Hx), T2 as (y & -> & Hy), T3 as (z & -> & Hz).
  replace ch with (0xf0 + (ch - 0xf0)) in Hr by lia. rewrite value4 in Hr by lia.
  set (v := (ch - 0xf0) * 262144 + x * 4096 + y * 64 + z) in *. unfold gives in Hr. injection Hr as <- <- <-.
  assert (0x10000 <= v <= 0x10ffff) as Hv.
  { apply orb_false_iff in Eo as [E1 E2]. apply andb_false_iff in E1 as [E1|E1], E2 as [E2|E2]; bool_to_prop; subst v; lia. }
  assert (utf8_encode v = [ch; 0x80 + x; 0x80 + y; 0x80 + z]) as Ee.
  { unfold utf8_encode. rewrite (proj2 (Z.ltb_ge v 0x80)), (proj2 (Z.ltb_ge v 0x800)), (proj2 (Z.ltb_ge v 0x10000)) by lia.
    f_equal; [|f_equal; [|f_equal; [|f_equal]]]; subst v; div_solve. }
  bool_to_prop. unfold accepted. rewrite Ee. rewrite (proj2 (Z.eqb_neq v 0)) by lia.
  split_and!; [split; [lia|unfold surrogate; lia]| |done|done|simpl; lia].
  apply bytes_at_cons. split; [done|]. apply bytes_at_cons. split; [done|].
  replace (s + 1 + 1) with (s + 2) by lia. apply bytes_at_cons. split; [done|].
  replace (s + 2 + 1) with (s + 3) by lia. apply bytes_at_cons. split; [done|apply bytes_at_nil].
Qed.

(** Only the shortest encodings of valid code points are accepted. *)
Lemma utf8_mbtowc_sound m s n st r c st' :
  mem_ok m -> s <> NULL -> 0 <= n -> __count st = 0 -> __utf8_mbtowc m s n st = Some (r, Some c, st') ->
  accepted m s n r c st'.
Proof.
  intros Hok Hs Hn Hst Hr. unfold __utf8_mbtowc in Hr. rewrite (proj2 (Z.eqb_neq _ _) Hs), Hst in Hr.
  destruct (Z.eqb_spec n 0) as [|Hn0]; [done|]. change (0 =? 0) with true in Hr. cbv iota in Hr.
  destruct (m !! s) as [ch|] eqn:M0; [|done]. cbn [mbind option_bind] in Hr. pose proof (Hok s ch M0) as Hb. unfold is_byte in Hb.
  assert (ch < 0x80 -> accepted m s n (if ch =? 0 then 0 else 1) ch (with_count st 0)) as H1.
  { intros Hlt. assert (utf8_encode ch = [ch]) as Ee by (unfold utf8_encode; by rewrite (proj2 (Z.ltb_lt ch 0x80))).
    unfold accepted. rewrite Ee. split_and!; [split; [lia|unfold surrogate; lia]| |done|done|simpl; lia].
    apply bytes_at_cons. split; [done|apply bytes_at_nil]. }
  destruct (Z.eqb_spec ch 0) as [->|H0]; [unfold gives in Hr; injection Hr as <- <- <-; apply H1; lia|].
  destruct (Z.leb_spec ch 0x7f); [unfold gives in Hr; injection Hr as <- <- <-; apply H1; lia|].
  destruct (Z.leb_spec 0xc0 ch), (Z.leb_spec ch 0xdf), (Z.leb_spec 0xe0 ch), (Z.leb_spec ch 0xef),
    (Z.leb_spec 0xf0 ch), (Z.leb_spec ch 0xf4); cbn [andb] in Hr; try (exfalso; lia); try done.
  all: first [eapply sound2; [..|exact Hr] | eapply sound3; [..|exact Hr] | eapply sound4; [..|exact Hr]]; done || lia.
Qed.
End utf8_proof.
