(* ===== verification/Convert.v ===== *)
(** * Numbers (libc/stdlib/utoa.c, itoa.c, l64a.c, a64l.c, rand48.c and its callers)

    Conversions between integers and digit strings in memory, and the 48-bit
    linear congruential generator on its 16-bit parts. *)

From S2P Require Import Prelude CMem.
From stdpp Require Import base list gmap.
From Stdlib Require Import ZArith Lia.

Local Open Scope Z_scope.

(** ** utoa.c, itoa.c *)

Section itoa.
Variable fuel : nat.

(** digits[] = "0123456789abcdefghijklmnopqrstuvwxyz" *)
Definition digits : list Z := map Z.of_nat (seq 48 10 ++ seq 97 26).

(** The digits, least significant first, with their number. *)
Definition utoa_digits (str base value : Z) : C mem Z :=
  loop (fun '(i, value) =>
    let remainder := value mod base in
    do d <- at_index digits remainder;
    run store8 (str + i) d;
    let value := value / base in
    if negb (value =? 0) then ret (inl (i + 1, value)) else ret (inr (i + 1))) fuel (0, value).

Definition utoa_reverse (str j i : Z) : C mem unit :=
  loop (fun '(j, i) =>
    if j <? i then
      do c <- load8 (str + j);
      do d <- load8 (str + i);
      run store8 (str + j) d;
      run store8 (str + i) c;
      ret (inl (j + 1, i - 1))
    else ret (inr tt)) fuel (j, i).

Definition __utoa (value str base : Z) : C mem Z :=
  if (base <? 2) || (36 <? base) then run store8 str 0; ret NULL
  else
    do i <- utoa_digits str base value;
    run store8 (str + i) 0;
    run utoa_reverse str 0 (i - 1);
    ret str.

(** The negation is done on the [int]. *)
Definition __itoa (value str base : Z) : C mem Z :=
  if (base <? 2) || (36 <? base) then run store8 str 0; ret NULL
  else if (base =? 10) && (value <? 0) then
    run store8 str 45;
    do neg <- int_ (- value);
    run __utoa (uwrap 32 neg) (str + 1) base;
    ret str
  else
    run __utoa (uwrap 32 value) str base;
    ret str.
End itoa.

(** ** l64a.c, a64l.c *)

Section a64.
Context `{Arch}.

(** R64_ARRAY[] = "./0123456789A..Za..z" *)
Definition R64_ARRAY : list Z := map Z.of_nat ([46; 47]%nat ++ seq 48 10 ++ seq 65 26 ++ seq 97 26).

(** [k] passes of the loop are left; [_l64a_buf] is the static buffer. *)
Fixpoint l64a_loop (k : nat) (ptr tmp : Z) : C mem unit :=
  match k with
  | O => ret tt
  | S k =>
      if tmp =? 0 then store8 ptr 0
      else
        do d <- at_index R64_ARRAY (Z.land tmp (64 - 1));
        run store8 ptr d;
        l64a_loop k (ptr + 1) (Z.shiftr tmp 6)
  end.

Definition l64a (_l64a_buf value : Z) : C mem Z :=
  let tmp := Z.land (uwrap long_bits value) 0xffffffff in
  run l64a_loop 6 _l64a_buf tmp;
  ret _l64a_buf.

Definition a64l_digit (ch : Z) : Z :=
  if ch =? 47 then 1
  else if (48 <=? ch) && (ch <=? 57) then ch - 48 + 2
  else if (65 <=? ch) && (ch <=? 90) then ch - 65 + 12
  else if (97 <=? ch) && (ch <=? 122) then ch - 97 + 38
  else 0.

(** The end of the input, at most 6 characters on. *)
Fixpoint a64l_end (k : nat) (ptr : Z) : C mem Z :=
  match k with
  | O => ret ptr
  | S k => do c <- load8 ptr; a64l_end k (if c =? 0 then ptr else ptr + 1)
  end.

(** [while (ptr > input)], at most 6 times. *)
Fixpoint a64l_digits (k : nat) (input ptr result : Z) : C mem Z :=
  if input <? ptr then
    match k with
    | O => fault
    | S k =>
        let ptr := ptr - 1 in
        do ch <- load8 ptr;
        a64l_digits k input ptr (uwrap long_bits (uwrap long_bits (Z.shiftl result 6) + a64l_digit ch))
    end
  else ret result.

Definition a64l (input : Z) : C mem Z :=
  if input =? NULL then ret 0
  else
    do ptr <- a64l_end 6 input;
    do result <- a64l_digits 6 input ptr 0;
    ret (swrap long_bits result).
End a64.

(** ** rand48 *)

Section rand48.
Context `{Arch}.

(** Three [unsigned short], least significant first. *)
Record short3 := Short3 { s0 : Z; s1 : Z; s2 : Z }.
Record rand48 := Rand48 { _seed : short3; _mult : short3; _add : Z }.

Definition default_mult : short3 := Short3 0xe66d 0xdeec 0x0005.
Definition default_add : Z := 0x000b.
Definition _rand48 : rand48 := Rand48 (Short3 0x330e 0xabcd 0x1234) default_mult default_add.

(** The new [xseed]. *)
Definition __dorand48 (r : rand48) (xseed : short3) : short3 :=
  let m := _mult r in
  let accu := uwrap 32 (uwrap 32 (s0 m * s0 xseed) + _add r) in
  let temp0 := uwrap 16 accu in
  let accu := Z.shiftr accu 16 in
  let accu := uwrap 32 (accu + uwrap 32 (uwrap 32 (s0 m * s1 xseed) + uwrap 32 (s1 m * s0 xseed))) in
  let temp1 := uwrap 16 accu in
  let accu := Z.shiftr accu 16 in
  let accu := uwrap 32 (accu + uwrap 32 (uwrap 32 (uwrap 32 (s0 m * s2 xseed) + uwrap 32 (s1 m * s1 xseed))
                                         + uwrap 32 (s2 m * s0 xseed))) in
  Short3 temp0 temp1 (uwrap 16 accu).

(** The callers: the value and the new seed. *)
Definition _nrand48_r (r : rand48) (xseed : short3) : Z * short3 :=
  let x := __dorand48 r xseed in
  (swrap long_bits (swrap long_bits (uwrap long_bits (Z.shiftl (s2 x) 15)) + Z.shiftr (s1 x) 1), x).

Definition _lrand48_r (r : rand48) : Z * rand48 :=
  let x := __dorand48 r (_seed r) in
  (swrap long_bits (swrap long_bits (uwrap long_bits (Z.shiftl (s2 x) 15)) + Z.shiftr (s1 x) 1),
   Rand48 x (_mult r) (_add r)).

Definition _jrand48_r (r : rand48) (xseed : short3) : Z * short3 :=
  let x := __dorand48 r xseed in
  (swrap 32 (Z.lor (uwrap 32 (Z.shiftl (s2 x) 16)) (s1 x)), x).

Definition _mrand48_r (r : rand48) : Z * rand48 :=
  let x := __dorand48 r (_seed r) in
  (swrap 32 (Z.lor (uwrap 32 (Z.shiftl (s2 x) 16)) (s1 x)), Rand48 x (_mult r) (_add r)).

Definition _srand48_r (r : rand48) (seed : Z) : rand48 :=
  Rand48 (Short3 0x330e (uwrap 16 seed) (uwrap 16 (Z.shiftr (uwrap long_bits seed) 16))) default_mult default_add.

(** The old seed is returned in a static array. *)
Definition _seed48_r (r : rand48) (xseed : short3) : short3 * rand48 :=
  (_seed r, Rand48 xseed default_mult default_add).

Definition _lcong48_r (p0 p1 p2 p3 p4 p5 p6 : Z) : rand48 :=
  Rand48 (Short3 p0 p1 p2) (Short3 p3 p4 p5) p6.
End rand48.

(** ** The generator *)

Section rand48_proof.
Definition short_ok (x : Z) : Prop := 0 <= x < 2 ^ 16.
Definition short3_ok (x : short3) : Prop := short_ok (s0 x) /\ short_ok (s1 x) /\ short_ok (s2 x).
Definition rand48_ok (r : rand48) : Prop := short3_ok (_seed r) /\ short3_ok (_mult r) /\ short_ok (_add r).

(** The 48-bit number that three shorts stand for. *)
Definition value48 (x : short3) : Z := s0 x + 2 ^ 16 * s1 x + 2 ^ 32 * s2 x.

(** The carries that the 32-bit accumulator loses do not reach the result. *)
Lemma dorand48_spec r x :
  rand48_ok r -> short3_ok x ->
  short3_ok (__dorand48 r x) /\ value48 (__dorand48 r x) = (value48 (_mult r) * value48 x + _add r) mod 2 ^ 48.
Proof.
  intros (_ & (H0 & H1 & H2) & Ha) (X0 & X1 & X2). unfold short_ok in *.
  split; [split_and!; apply (uwrap_range 16); lia|].
  unfold value48, __dorand48. cbn [s0 s1 s2]. rewrite !Z.shiftr_div_pow2 by lia.
  assert (forall a b, 0 <= a < 2 ^ 16 -> 0 <= b < 2 ^ 16 -> 0 <= a * b <= 65535 * 65535) as Hp by (intros; nia).
  set (m0 := s0 (_mult r)) in *. set (m1 := s1 (_mult r)) in *. set (m2 := s2 (_mult r)) in *.
  replace ((m0 + 2 ^ 16 * m1 + 2 ^ 32 * m2) * (s0 x + 2 ^ 16 * s1 x + 2 ^ 32 * s2 x) + _add r) with
    (m0 * s0 x + _add r + 2 ^ 16 * (m0 * s1 x + m1 * s0 x) + 2 ^ 32 * (m0 * s2 x + m1 * s1 x + m2 * s0 x) +
     2 ^ 48 * (m1 * s2 x + m2 * s1 x + 2 ^ 16 * (m2 * s2 x))) by ring.
  pose proof (Hp m0 (s0 x) H0 X0). pose proof (Hp m0 (s1 x) H0 X1). pose proof (Hp m1 (s0 x) H1 X0).
  pose proof (Hp m0 (s2 x) H0 X2). pose proof (Hp m1 (s1 x) H1 X1). pose proof (Hp m2 (s0 x) H2 X0).
  generalize dependent (m0 * s0 x). generalize dependent (m0 * s1 x). generalize dependent (m1 * s0 x).
  generalize dependent (m0 * s2 x). generalize dependent (m1 * s1 x). generalize dependent (m2 * s0 x).
  generalize (m1 * s2 x + m2 * s1 x + 2 ^ 16 * (m2 * s2 x)). generalize dependent (_add r). clear.
  intros add Ha K p20 H20 p11 H11 p02 H02 p10 H10 p01 H01 p00 H00.
  unfold uwrap. change (2 ^ 32) with 4294967296. change (2 ^ 16) with 65536 in *. change (2 ^ 48) with 281474976710656.
  Z.to_euclidean_division_equations. lia.
Qed.

Lemma value48_range x : short3_ok x -> 0 <= value48 x < 2 ^ 48.
Proof. unfold short3_ok, short_ok, value48. lia. Qed.

Context `{Arch}.

Lemma long_bits_le : 32 <= long_bits.
Proof. unfold long_bits, long_size. destruct long64; lia. Qed.

(** The high bits of the new seed. *)
Lemma lrand48_spec r :
  rand48_ok r -> let '(v, r') := _lrand48_r r in
  v = value48 (_seed r') / 2 ^ 17 /\ 0 <= v < 2 ^ 31 /\ rand48_ok r' /\
  value48 (_seed r') = (value48 (_mult r) * value48 (_seed r) + _add r) mod 2 ^ 48.
Proof.
  intros Hr. unfold _lrand48_r. destruct (dorand48_spec r (_seed r) Hr (proj1 Hr)) as [Hx Hv]. cbn [_seed].
  pose proof long_bits_le as Hl. assert (2 ^ 32 <= 2 ^ long_bits) by (apply Z.pow_le_mono_r; lia).
  assert (2 ^ 31 <= 2 ^ (long_bits - 1)) by (apply Z.pow_le_mono_r; lia).
  set (x := __dorand48 r (_seed r)) in *. destruct Hx as (B0 & B1 & B2). unfold short_ok in *.
  rewrite Z.shiftl_mul_pow2, Z.shiftr_div_pow2 by lia.
  change (2 ^ 1) with 2. change (2 ^ 15) with 32768.
  assert (0 <= s2 x * 32768 + s1 x / 2 < 2 ^ 31) by (Z.to_euclidean_division_equations; lia).
  rewrite uwrap_small by lia. rewrite (swrap_small _ (s2 x * 32768)), swrap_small by lia.
  split_and!; [unfold value48; Z.to_euclidean_division_equations; lia..| |done].
  split_and!; try done; apply Hr.
Qed.

Lemma mrand48_spec r :
  rand48_ok r -> let '(v, r') := _mrand48_r r in
  v = swrap 32 (value48 (_seed r') / 2 ^ 16) /\ - 2 ^ 31 <= v < 2 ^ 31 /\ rand48_ok r' /\
  value48 (_seed r') = (value48 (_mult r) * value48 (_seed r) + _add r) mod 2 ^ 48.
Proof.
  intros Hr. unfold _mrand48_r. destruct (dorand48_spec r (_seed r) Hr (proj1 Hr)) as [Hx Hv]. cbn [_seed].
  set (x := __dorand48 r (_seed r)) in *. destruct Hx as (B0 & B1 & B2). unfold short_ok in *.
  rewrite Z.shiftl_mul_pow2 by lia. rewrite uwrap_small by lia.
  assert (Z.lor (s2 x * 2 ^ 16) (s1 x) = value48 x / 2 ^ 16) as ->.
  { rewrite (lor_low 16) by (lia || apply Z.mod_mul; lia). unfold value48. Z.to_euclidean_division_equations. lia. }
  split_and!; [done|..|done]; [| |split_and!; try done; apply Hr].
  - unfold swrap. pose proof (Z.mod_pos_bound (value48 x / 2 ^ 16 + 2 ^ (32 - 1)) (2 ^ 32) ltac:(lia)). lia.
  - unfold swrap. pose proof (Z.mod_pos_bound (value48 x / 2 ^ 16 + 2 ^ (32 - 1)) (2 ^ 32) ltac:(lia)). lia.
Qed.
End rand48_proof.

(** ** Digits *)

(** The number with the digits [l], least significant first. *)
Fixpoint of_digits (base : Z) (l : list Z) : Z :=
  match l with [] => 0 | d :: l => d + base * of_digits base l end.

(** The digits of a number: in range, none missing, no leading zero. *)
Record digits_of (base v : Z) (l : list Z) : Prop := {
  dg_value : of_digits base l = v;
  dg_range : Forall (fun d => 0 <= d < base) l;
  dg_lead : last l <> Some 0 \/ l = [0];
  dg_some : l <> [] }.

Definition digit_char (d : Z) : Z := nth (Z.to_nat d) digits 0.

Section itoa_proof.
Lemma digit_char_ok d {S} (s : S) :
  0 <= d < 36 -> at_index digits d s = Some (digit_char d, s) /\ nonzero_byte (digit_char d).
Proof.
  intros Hd. unfold at_index, digit_char. rewrite (proj2 (Z.ltb_ge _ _)) by lia.
  assert (Forall nonzero_byte digits) as Hall.
  { apply Forall_forall. intros x (n & -> & Hn)%list_elem_of_fmap. apply elem_of_app in Hn as [Hn|Hn];
      apply elem_of_seq in Hn; unfold nonzero_byte; lia. }
  destruct (lookup_lt_is_Some_2 digits (Z.to_nat d)) as [x Hx]; [simpl; lia|]. rewrite Hx.
  rewrite (nth_lookup_Some digits _ 0 x Hx). split; [done|]. by eapply Forall_lookup_1.
Qed.

Lemma digits_one base v : 2 <= base -> 0 <= v < base -> digits_of base v [v].
Proof.
  intros Hb Hv. split; simpl; [lia|by constructor| |done].
  destruct (Z.eq_dec v 0) as [->|]; [by right|left; congruence].
Qed.

Lemma digits_cons base v l :
  2 <= base -> 0 < v / base -> digits_of base (v / base) l -> digits_of base v (v mod base :: l).
Proof.
  intros Hb Hv [H1 H2 H3 H4]. split.
  - simpl. rewrite H1. pose proof (Z.div_mod v base ltac:(lia)). lia.
  - constructor; [apply Z.mod_pos_bound; lia|done].
  - destruct H3 as [H3|H3]; [|subst l; simpl in H1; lia]. left. destruct l; done.
  - done.
Qed.

(** The digit loop writes the digits in this order after what is there. *)
Lemma utoa_digits_loop str base (k : nat) : forall fuel value prev m,
  2 <= base <= 36 -> (k <= fuel)%nat -> (0 < k)%nat -> 0 <= value < 2 ^ Z.of_nat k ->
  mapped m str (Z.of_nat (length prev) + Z.of_nat k) ->
  exists l, digits_of base value l /\ (length l <= k)%nat /\
    loop (fun '(i, value) =>
      let remainder := value mod base in
      do d <- at_index digits remainder;
      run store8 (str + i) d;
      let value := value / base in
      if negb (value =? 0) then ret (inl (i + 1, value)) else ret (inr (i + 1))) fuel
      (Z.of_nat (length prev), value) (put_bytes m str prev) =
    Some (Z.of_nat (length (prev ++ map digit_char l)), put_bytes m str (prev ++ map digit_char l)).
Proof.
  induction k as [|k IH]; intros [|f] value prev m Hb Hf Hk Hv Hm; try lia.
  pose proof (Z.mod_pos_bound value base ltac:(lia)) as Hr. rewrite loop_S.
  destruct (digit_char_ok (value mod base) (put_bytes m str prev) ltac:(lia)) as [Ed Hd].
  rewrite (bind_eq _ _ _ _ _ Ed).
  assert (store8 (str + Z.of_nat (length prev)) (digit_char (value mod base)) (put_bytes m str prev) =
          Some (tt, put_bytes m str (prev ++ [digit_char (value mod base)]))) as Es.
  { rewrite store8_at by (apply put_bytes_is_Some, Hm; lia). rewrite uwrap_byte_id by (unfold nonzero_byte, is_byte in *; lia).
    by rewrite put_bytes_app. }
  rewrite (bind_eq _ _ _ _ _ Es). cbv zeta. destruct (Z.eqb_spec (value / base) 0) as [E0|E0]; cbn [negb].
  - exists [value mod base]. pose proof (Z.div_mod value base ltac:(lia)) as Edm. rewrite E0, Z.mul_0_r in Edm.
    split_and!; [|simpl; lia|unfold ret; cbv iota; rewrite length_app; cbn [map length]; apply f_equal, f_equal2; [lia|done]].
    assert (value mod base = value) as -> by lia. apply digits_one; lia.
  - pose proof (Z.div_pos value base ltac:(lia) ltac:(lia)) as Hpos.
    assert (value / base < 2 ^ Z.of_nat k) as Hlt.
    { apply Z.div_lt_upper_bound; [lia|]. rewrite Nat2Z.inj_succ, Z.pow_succ_r in Hv by lia. nia. }
    destruct k as [|k']; [simpl in Hlt; lia|].
    destruct (IH f (value / base) (prev ++ [digit_char (value mod base)]) m) as (l & Hl & Hlen & El); try done; try lia.
    { rewrite length_app. simpl. eapply mapped_weaken; [exact Hm|lia|lia]. }
    exists (value mod base :: l). split_and!; [apply digits_cons; [lia|lia|done]|simpl; lia|].
    rewrite length_app in El. simpl in El.
    replace (Z.of_nat (length prev) + 1) with (Z.of_nat (length prev + 1)) by lia. simpl. rewrite El.
    by rewrite <- app_assoc.
Qed.

(** The reversal in place, from both ends. *)
Lemma utoa_reverse_spec (n : nat) : forall fuel str j i l m,
  length l = n -> (n < fuel)%nat -> i = j + Z.of_nat n - 1 -> bytes_at m (str + j) l -> mem_ok m ->
  utoa_reverse fuel str j i m = Some (tt, put_bytes m (str + j) (rev l)).
Proof.
  induction n as [n IH] using lt_wf_ind. intros [|f] str j i l m Hn Hf Hi Hl Hok; [lia|].
  unfold utoa_reverse. rewrite loop_S. destruct (Z.ltb_spec j i) as [Hlt|Hge].
  - destruct l as [|x l]; [simpl in Hn; lia|]. destruct l as [|y l _] using rev_ind; [simpl in Hn; lia|].
    simpl in Hn. rewrite length_app in Hn. simpl in Hn.
    pose proof (bytes_at_bytes _ _ _ Hok Hl) as Hb. rewrite Forall_cons, Forall_app, Forall_singleton in Hb. destruct Hb as (Bx & Bl & By).
    apply bytes_at_cons in Hl as [Mx Hl]. apply bytes_at_app in Hl as [Hl Hy]. apply bytes_at_cons in Hy as [My _].
    replace (str + j + 1 + Z.of_nat (length l)) with (str + i) in My by lia.
    rewrite (bind_eq _ _ _ _ _ (load8_at _ _ _ Mx)), (bind_eq _ _ _ _ _ (load8_at _ _ _ My)).
    rewrite (bind_eq _ _ _ _ _ (store8_at _ _ y (ltac:(by exists x)))), uwrap_byte_id by done.
    erewrite bind_eq; [|apply store8_at; rewrite lookup_insert_ne by lia; by exists y]. rewrite uwrap_byte_id by done.
    unfold ret. unfold utoa_reverse in IH.
    rewrite (IH (length l) ltac:(lia) f str (j + 1) (i - 1) l); try lia; try done.
    + do 2 f_equal. simpl. rewrite rev_app_distr. simpl. rewrite !put_bytes_app. simpl.
      replace (str + (j + 1)) with (str + j + 1) by lia. rewrite length_rev.
      replace (str + j + 1 + Z.of_nat (length l)) with (str + i) by lia.
      change (<[str + i := x]> (<[str + j := y]> m)) with (put_bytes (<[str + j := y]> m) (str + i) [x]).
      rewrite (put_bytes_comm (<[str + j := y]> m) (str + i) [x] (str + j + 1) (rev l)); [done|].
      unfold disjoint_blk. rewrite length_rev. simpl. lia.
    + replace (str + (j + 1)) with (str + j + 1) by lia.
      apply (bytes_at_put_disjoint _ (str + i) [x]); [unfold disjoint_blk; simpl; lia|].
      apply (bytes_at_put_disjoint _ (str + j) [y]); [unfold disjoint_blk; simpl; lia|done].
    + apply (put_bytes_ok _ (str + i) [x]); [|by constructor]. apply (put_bytes_ok _ (str + j) [y]); [done|by constructor].
  - unfold ret. destruct l as [|x [|y l]]; simpl in Hn; [done| |lia]. simpl.
    apply bytes_at_cons in Hl as [Mx _]. by rewrite insert_id.
Qed.

Lemma utoa_spec fuel value str base m :
  2 <= base <= 36 -> 0 <= value < 2 ^ 32 -> (33 < fuel)%nat -> mapped m str 33 -> mem_ok m ->
  exists l, digits_of base value l /\ (length l <= 32)%nat /\
    __utoa fuel value str base m = Some (str, put_bytes m str (rev (map digit_char l) ++ [0])).
Proof.
  intros Hb Hv Hf Hm Hok.
  destruct (utoa_digits_loop str base 32 fuel value [] m) as (l & Hl & Hlen & El); try done; try lia.
  { eapply mapped_weaken; [exact Hm|lia|simpl; lia]. }
  exists l. split_and!; try done. unfold __utoa. rewrite (proj2 (Z.ltb_ge _ _)), (proj2 (Z.ltb_ge _ _)) by lia. cbn [orb].
  unfold utoa_digits. rewrite (bind_eq _ _ _ _ _ El). cbn [app]. set (D := map digit_char l) in *.
  assert (Forall is_byte D) as HD.
  { apply Forall_forall. intros x (d & -> & Hd)%list_elem_of_fmap.
    pose proof (proj1 (Forall_forall _ _) (dg_range _ _ _ Hl) d Hd) as Hdr. simpl in Hdr.
    destruct (digit_char_ok d tt ltac:(lia)) as [_ Hz]. unfold nonzero_byte, is_byte in *. lia. }
  assert (length D = length l) as HlD by apply length_map.
  assert (store8 (str + Z.of_nat (length D)) 0 (put_bytes m str D) = Some (tt, put_bytes m str (D ++ [0]))) as Es.
  { rewrite store8_at by (apply put_bytes_is_Some, Hm; lia). by rewrite put_bytes_app. }
  rewrite (bind_eq _ _ _ _ _ Es).
  assert (mem_ok (put_bytes m str (D ++ [0]))) as Hok2.
  { apply put_bytes_ok; [done|]. apply Forall_app. split; [done|]. by constructor. }
  erewrite bind_eq.
  2: { apply (utoa_reverse_spec (length D) fuel str 0 (Z.of_nat (length D) - 1) D); try done; try lia.
       pose proof (put_bytes_at m str (D ++ [0])) as Hat. apply bytes_at_app in Hat as [Hat _]. by rewrite Z.add_0_r. }
  unfold ret. do 2 f_equal. rewrite Z.add_0_r, !put_bytes_app, length_rev.
  rewrite (put_bytes_comm (put_bytes m str D) _ [0] str (rev D)) by (unfold disjoint_blk; rewrite length_rev; simpl; lia).
  by rewrite put_bytes_overwrite by by rewrite length_rev.
Qed.

(** The text of a number: the sign in base 10, and the unsigned value in any
    other base. *)
Lemma itoa_spec fuel value str base m :
  2 <= base <= 36 -> INT_MIN < value <= INT_MAX -> (33 < fuel)%nat -> mapped m str 34 -> mem_ok m ->
  exists l, digits_of base (if (base =? 10) && (value <? 0) then - value else uwrap 32 value) l /\
    __itoa fuel value str base m =
      Some (str, put_bytes m str ((if (base =? 10) && (value <? 0) then [45] else []) ++ rev (map digit_char l) ++ [0])).
Proof.
  intros Hb Hv Hf Hm Hok. unfold __itoa. rewrite (proj2 (Z.ltb_ge base 2)), (proj2 (Z.ltb_ge 36 base)) by lia. cbn [orb].
  unfold INT_MIN, INT_MAX in Hv. destruct ((base =? 10) && (value <? 0)) eqn:E.
  - apply andb_true_iff in E as [_ E]. bool_to_prop.
    rewrite (bind_eq _ _ _ _ _ (store8_at m str 45 (Hm str ltac:(lia)))). change (uwrap 8 45) with 45.
    assert (int_ (- value) (<[str := 45]> m) = Some (- value, <[str := 45]> m)) as Ei.
    { unfold int_, fits_int, INT_MIN, INT_MAX. by rewrite !(proj2 (Z.leb_le _ _)) by lia. }
    rewrite (bind_eq _ _ _ _ _ Ei), uwrap_small by lia.
    destruct (utoa_spec fuel (- value) (str + 1) base (put_bytes m str [45])) as (l & Hl & _ & El); try done; try lia.
    { apply put_bytes_mapped. eapply mapped_weaken; [exact Hm|lia|lia]. }
    { apply put_bytes_ok; [done|]. by constructor. }
    exists l. split; [done|]. simpl in El. rewrite (bind_eq _ _ _ _ _ El). done.
  - pose proof (uwrap_range 32 value ltac:(lia)).
    destruct (utoa_spec fuel (uwrap 32 value) str base m) as (l & Hl & _ & El); try done; try lia.
    { eapply mapped_weaken; [exact Hm|lia|lia]. }
    exists l. split; [done|]. by rewrite (bind_eq _ _ _ _ _ El).
Qed.

(** The smallest [int] overflows in the negation, before the cast. *)
Lemma itoa_int_min fuel str m : __itoa fuel INT_MIN str 10 m = None.
Proof. unfold __itoa. simpl. unfold bind, store8. by destruct (m !! str). Qed.
End itoa_proof.

(** ** The radix-64 notation *)

Section a64_proof.
Context `{Arch}.

Definition r64_char (d : Z) : Z := nth (Z.to_nat d) R64_ARRAY 0.

Lemma r64_all : forallb (fun n => (a64l_digit (r64_char (Z.of_nat n)) =? Z.of_nat n) &&
  (0 <? r64_char (Z.of_nat n)) && (r64_char (Z.of_nat n) <? 256)) (seq 0 64) = true.
Proof. reflexivity. Qed.

Lemma r64_ok d : 0 <= d < 64 -> a64l_digit (r64_char d) = d /\ nonzero_byte (r64_char d).
Proof.
  intros Hd. pose proof r64_all as Ha. rewrite forallb_forall in Ha.
  assert (In (Z.to_nat d) (seq 0 64)) as Hin by (apply in_seq; lia). specialize (Ha _ Hin). simpl in Ha.
  rewrite Z2Nat.id in Ha by lia. apply andb_true_iff in Ha as [Ha H3]. apply andb_true_iff in Ha as [H1 H2].
  bool_to_prop. unfold nonzero_byte. done.
Qed.

Lemma r64_at {S} d (s : S) : 0 <= d < 64 -> at_index R64_ARRAY d s = Some (r64_char d, s).
Proof.
  intros Hd. unfold at_index, r64_char. rewrite (proj2 (Z.ltb_ge _ _)) by lia.
  destruct (lookup_lt_is_Some_2 R64_ARRAY (Z.to_nat d)) as [x Hx]; [simpl; lia|]. rewrite Hx.
  by rewrite (nth_lookup_Some R64_ARRAY _ 0 x Hx).
Qed.

(** The digits that [l64a] writes, and the terminator when there is room. *)
Lemma l64a_loop_spec k : forall ptr v m,
  0 <= v < 64 ^ Z.of_nat k -> mapped m ptr (Z.of_nat k) ->
  exists l, of_digits 64 l = v /\ Forall (fun d => 0 <= d < 64) l /\ (length l <= k)%nat /\
    l64a_loop k ptr v m =
      Some (tt, put_bytes m ptr (map r64_char l ++ if (length l <? k)%nat then [0] else [])).
Proof.
  induction k as [|k IH]; intros ptr v m Hv Hm.
  - exists []. change (64 ^ Z.of_nat 0) with 1 in Hv. split_and!; simpl; done || lia.
  - cbn [l64a_loop]. destruct (Z.eqb_spec v 0) as [->|Hne].
    + exists []. split_and!; simpl; try done; [lia|]. rewrite store8_at by (apply Hm; lia). done.
    + rewrite (low_spec 6 v) by done. rewrite Z.shiftr_div_pow2 by lia. change (2 ^ 6) with 64.
      pose proof (Z.mod_pos_bound v 64 ltac:(lia)) as Hr. rewrite (bind_eq _ _ _ _ _ (r64_at _ m Hr)).
      destruct (r64_ok (v mod 64) Hr) as [_ Hz]. rewrite Nat2Z.inj_succ, Z.pow_succ_r in Hv by lia.
      rewrite (bind_eq _ _ _ _ _ (store8_at m ptr _ (Hm ptr ltac:(lia)))), uwrap_byte_id by (unfold nonzero_byte, is_byte in *; lia).
      destruct (IH (ptr + 1) (v / 64) (<[ptr := r64_char (v mod 64)]> m)) as (l & Hl & Hf & Hlen & El).
      { split; [apply Z.div_pos; lia|apply Z.div_lt_upper_bound; lia]. }
      { apply (put_bytes_mapped m ptr [_]). eapply mapped_weaken; [exact Hm|lia|lia]. }
      exists (v mod 64 :: l). split_and!; [|by constructor|simpl; lia|exact El].
      simpl. rewrite Hl. pose proof (Z.div_mod v 64 ltac:(lia)). lia.
Qed.

Lemma a64l_end_nul k p (m : mem) : m !! p = Some 0 -> a64l_end k p m = Some (p, m).
Proof. intros Hp. induction k as [|k IH]; [done|]. simpl. by rewrite (bind_eq _ _ _ _ _ (load8_at _ _ _ Hp)). Qed.

Lemma a64l_end_spec l : forall k p (m : mem),
  Forall nonzero_byte l -> bytes_at m p l -> (length l <= k)%nat ->
  ((length l < k)%nat -> m !! (p + Z.of_nat (length l)) = Some 0) ->
  a64l_end k p m = Some (p + Z.of_nat (length l), m).
Proof.
  induction l as [|b l IH]; intros k p m Hz Hl Hk Hnul.
  - simpl. rewrite Z.add_0_r in *. destruct k; [done|]. apply a64l_end_nul. apply Hnul. simpl. lia.
  - destruct k as [|k]; [simpl in Hk; lia|]. apply bytes_at_cons in Hl as [Hb Hl]. inversion_clear Hz as [|? ? Hb0 Hz'].
    cbn [a64l_end]. rewrite (bind_eq _ _ _ _ _ (load8_at _ _ _ Hb)). rewrite (proj2 (Z.eqb_neq b 0)) by (unfold nonzero_byte in Hb0; lia).
    rewrite IH; try done; try (simpl in *; lia).
    + do 2 f_equal. simpl. lia.
    + intros Hlt. rewrite <- Hnul by (simpl; lia). f_equal. simpl. lia.
Qed.

Lemma of_digits_snoc l d : of_digits 64 (l ++ [d]) = of_digits 64 l + 64 ^ Z.of_nat (length l) * d.
Proof.
  induction l as [|x l IH]; [simpl; lia|]. cbn [app of_digits length]. rewrite IH, Nat2Z.inj_succ, Z.pow_succ_r by lia. ring.
Qed.

(** The value of the digits read from the end. *)
Lemma a64l_digits_spec l : forall k p result (m : mem),
  Forall (fun d => 0 <= d < 64) l -> bytes_at m p (map r64_char l) -> (length l <= k)%nat ->
  0 <= result < 2 ^ long_bits ->
  a64l_digits k p (p + Z.of_nat (length l)) result m =
    Some (uwrap long_bits (of_digits 64 l + 64 ^ Z.of_nat (length l) * result), m).
Proof.
  induction l as [|d l IH] using rev_ind; intros k p result m Hf Hl Hk Hr.
  - simpl. rewrite Z.add_0_r. assert (forall k, a64l_digits k p p result m = Some (result, m)) as ->.
    { intros []; simpl; by rewrite Z.ltb_irrefl. }
    rewrite Z.mul_1_l, uwrap_small; done.
  - rewrite length_app in *. simpl in Hk. apply Forall_app in Hf as [Hf Hd]. rewrite Forall_singleton in Hd.
    rewrite map_app in Hl. apply bytes_at_app in Hl as [Hl Hc]. apply bytes_at_cons in Hc as [Hc _]. rewrite length_map in Hc.
    destruct k as [|k]; [lia|]. cbn [a64l_digits]. rewrite (proj2 (Z.ltb_lt _ _)) by (simpl; lia).
    replace (p + Z.of_nat (length l + length [d]) - 1) with (p + Z.of_nat (length l)) by (simpl; lia).
    rewrite (bind_eq _ _ _ _ _ (load8_at _ _ _ Hc)). rewrite (proj1 (r64_ok d Hd)).
    assert (0 <= long_bits) as Hlb by (pose proof long_bits_le; lia).
    rewrite IH; try done; [|lia|by apply uwrap_range].
    do 2 f_equal. rewrite of_digits_snoc, Z.shiftl_mul_pow2 by lia. change (2 ^ 6) with 64. unfold uwrap.
    assert (2 ^ long_bits <> 0) by (apply Z.pow_nonzero; lia).
    rewrite Z.add_mod_idemp_l by done.
    rewrite <- Z.add_mod_idemp_r, Z.mul_mod_idemp_r, Z.add_mod_idemp_r by done. f_equal.
    rewrite Nat2Z.inj_add, Z.pow_add_r by lia. change (64 ^ Z.of_nat (length [d])) with 64. ring.
Qed.

(** What is read back is the low 32 bits of what was written. *)
Lemma a64l_l64a buf v m :
  buf <> NULL -> mapped m buf 7 -> m !! (buf + 6) = Some 0 ->
  exists l m', l64a buf v m = Some (buf, m') /\ cstr m' buf l /\ (length l <= 6)%nat /\
    a64l buf m' = Some (swrap long_bits (v mod 2 ^ 32), m').
Proof.
  intros Hb Hm H6. unfold l64a. pose proof long_bits_le as Hlb.
  assert (2 ^ 32 <= 2 ^ long_bits) by (apply Z.pow_le_mono_r; lia).
  assert (Z.land (uwrap long_bits v) 0xffffffff = v mod 2 ^ 32) as ->.
  { rewrite (low_spec 32) by done. unfold uwrap. apply Z.mod_mod_divide.
    exists (2 ^ (long_bits - 32)). rewrite <- Z.pow_add_r by lia. f_equal. lia. }
  pose proof (Z.mod_pos_bound v (2 ^ 32) ltac:(lia)) as Hv.
  destruct (l64a_loop_spec 6 buf (v mod 2 ^ 32) m) as (l & Hl & Hf & Hlen & El).
  { change (64 ^ Z.of_nat 6) with (2 ^ 36). lia. } { eapply mapped_weaken; [exact Hm|lia|lia]. }
  rewrite (bind_eq _ _ _ _ _ El). exists (map r64_char l). eexists. split; [reflexivity|].
  set (m' := put_bytes m buf _).
  assert (bytes_at m' buf (map r64_char l)) as Hat.
  { subst m'. pose proof (put_bytes_at m buf (map r64_char l ++ if (length l <? 6)%nat then [0] else [])) as Hat.
    by apply bytes_at_app in Hat as [Hat _]. }
  assert (Forall nonzero_byte (map r64_char l)) as Hz.
  { apply Forall_fmap. eapply Forall_impl; [exact Hf|]. intros d Hd. by apply r64_ok. }
  assert (m' !! (buf + Z.of_nat (length l)) = Some 0) as Hnul.
  { subst m'. destruct (Nat.ltb_spec (length l) 6) as [Hlt|Hge].
    - rewrite put_bytes_app, length_map. simpl. apply lookup_insert_eq.
    - rewrite app_nil_r, lookup_put_bytes, decide_False by (rewrite length_map; lia).
      by replace (Z.of_nat (length l)) with 6 by lia. }
  rewrite length_map. split_and!; [|done|].
  { split; [done|]. apply bytes_at_app. split; [done|]. rewrite length_map. apply bytes_at_cons. split; [done|apply bytes_at_nil]. }
  unfold a64l. rewrite (proj2 (Z.eqb_neq _ _) Hb).
  erewrite bind_eq; [|apply (a64l_end_spec (map r64_char l)); try done; by rewrite length_map].
  rewrite length_map. erewrite bind_eq; [|by apply a64l_digits_spec; try done; lia].
  rewrite Z.mul_0_r, Z.add_0_r, Hl, uwrap_small by lia. done.
Qed.
End a64_proof.
