(* ===== verification/Strto.v ===== *)
(** * Integers from text (libc/stdio/strtoi.h, strtol.c, strtoul.c, strtoll.c, strtoull.c, libc/stdlib/atoi.c, atol.c, atoll.c)

    One template, [strtoi], parameterised by the width and the signedness of
    its result.  The result of a call is the value, the number stored in
    [errno] if any, and the memory with the end of the number stored through
    [endptr]. *)

From S2P Require Import Prelude CMem StrLocal StrMem StrStr Convert.
From stdpp Require Import base list gmap.
From Stdlib Require Import ZArith Lia.

Local Open Scope Z_scope.

Definition EINVAL : Z := 22.
Definition ERANGE : Z := 34.

(** ctype/isspace.c in the C locale *)
Definition isspace (c : Z) : bool := (c =? 32) || ((9 <=? c) && (c <=? 13)).

(** ** Digits (local-stdio.h) *)

Definition TOLOWER (c : Z) : Z := Z.lor c (97 - 65).

(** On [unsigned int]: what is below '0' becomes very large. *)
Definition digit_to_val (c : Z) : Z :=
  let c := if 57 <? c then uwrap 32 (TOLOWER (uwrap 32 (c - 1)) + (48 - 97 + 11)) else c in
  uwrap 32 (c - 48).

(** ** The template *)

Section strtoi.
Context `{Arch}.
Variable fuel : nat.

(** The width and signedness of [strtoi_type], and whether the unsigned
    versions use the compiler's overflow checks. *)
Variables (width : Z) (strtoi_signed use_overflow : bool).

Definition strtoi_max : Z := if strtoi_signed then 2 ^ (width - 1) - 1 else 2 ^ width - 1.

Definition FLAG_NEG : Z := 1.
Definition FLAG_OFLOW : Z := 2.

Definition skip_spaces (s : Z) : C mem (Z * Z) :=
  loop (fun s =>
    do i <- load8 s;
    if isspace i then ret (inl (s + 1)) else ret (inr (i, s + 1))) fuel s.

(** [switch (i)]: the flags, the next character and the position after it. *)
Definition strtoi_sign (i s : Z) : C mem (Z * Z * Z) :=
  if (i =? 45) || (i =? 43) then
    do i' <- load8 s;
    ret (if i =? 45 then FLAG_NEG else 0, i', s + 1)
  else ret (0, i, s).

(** The base and what a prefix consumed: [base], [nptr], [i], [s]. *)
Definition strtoi_base (base nptr i s : Z) : C mem (Z * Z * Z * Z) :=
  if i =? 48 then
    do c <- load8 s;
    if (TOLOWER c =? 120) && (Z.lor base 16 =? 16) then
      do i <- load8 (s + 1);
      ret (16, s, i, s + 2)
    else if base =? 0 then ret (8, nptr, i, s)
    else ret (base, nptr, i, s)
  else if base =? 0 then ret (10, nptr, i, s)
  else ret (base, nptr, i, s).

(** The limit on the magnitude, before the division by the base. *)
Definition strtoi_limit (flags : Z) : Z :=
  if strtoi_signed then uwrap width (strtoi_max + flags) else strtoi_max.

(** One more digit: the new value and flags. *)
Definition strtoi_add (limit base : Z) (val flags i : Z) : Z * Z :=
  if use_overflow && negb strtoi_signed then
    let p := val * base in
    if 2 ^ width <=? p then (uwrap width p, Z.lor flags FLAG_OFLOW)
    else
      let q := p + i in
      if 2 ^ width <=? q then (uwrap width q, Z.lor flags FLAG_OFLOW) else (q, flags)
  else
    let cutoff := limit / base in
    let cutlim := limit mod base in
    if (cutoff <? val) || ((val =? cutoff) && (cutlim <? i)) then (val, Z.lor flags FLAG_OFLOW)
    else (uwrap width (uwrap width (val * base) + i), flags).

Definition strtoi_digits (limit base nptr val flags i s : Z) : C mem (Z * Z * Z) :=
  loop (fun '(nptr, val, flags, i, s) =>
    let i := digit_to_val i in
    if base <=? i then ret (inr (nptr, val, flags))
    else
      let '(val, flags) := strtoi_add limit base val flags i in
      do i <- load8 s;
      ret (inl (s, val, flags, i, s + 1))) fuel (nptr, val, flags, i, s).

Definition strtoi_cast (x : Z) : Z := if strtoi_signed then swrap width x else x.

Definition set_endptr (endptr p : Z) : C mem unit :=
  if endptr =? NULL then ret tt else store_long endptr p.

Definition strtoi (nptr endptr ibase : Z) : C mem (Z * option Z) :=
  let base := uwrap 32 ibase in
  if (36 <? base) || (base =? 1) then
    run set_endptr endptr nptr;
    ret (0, Some EINVAL)
  else
    do '(i, s) <- skip_spaces nptr;
    do '(flags, i, s) <- strtoi_sign i s;
    do '(base, nptr, i, s) <- strtoi_base base nptr i s;
    let limit := strtoi_limit flags in
    do '(nptr, val, flags) <- strtoi_digits limit base nptr 0 flags i s;
    run set_endptr endptr nptr;
    let val := if negb (Z.land flags FLAG_NEG =? 0) then uwrap width (- val) else val in
    if negb (Z.land flags FLAG_OFLOW =? 0) then ret (strtoi_cast limit, Some ERANGE)
    else ret (strtoi_cast val, None).
End strtoi.

(** ** The instances *)

Section instances.
Context `{Arch}.
Variable fuel : nat.
Variable use_overflow : bool.

Definition strtol := strtoi fuel long_bits true use_overflow.
Definition strtoul := strtoi fuel long_bits false use_overflow.
Definition strtoll := strtoi fuel 64 true use_overflow.
Definition strtoull := strtoi fuel 64 false use_overflow.
Definition strtoimax := strtoi fuel 64 true use_overflow.
Definition strtoumax := strtoi fuel 64 false use_overflow.

Definition atoi (s : Z) : C mem Z := do '(v, _) <- strtol s NULL 10; ret (swrap 32 v).
Definition atol (s : Z) : C mem Z := do '(v, _) <- strtol s NULL 10; ret v.
Definition atoll (s : Z) : C mem Z := do '(v, _) <- strtoll s NULL 10; ret v.
End instances.

(** ** What a number is

    The reference: white space, an optional sign, an optional [0x] where the
    base allows it, and the longest run of digits of the base. *)

Definition digit_value (c : Z) : option Z :=
  if (48 <=? c) && (c <=? 57) then Some (c - 48)
  else if (65 <=? c) && (c <=? 90) then Some (c - 65 + 10)
  else if (97 <=? c) && (c <=? 122) then Some (c - 97 + 10)
  else None.

Fixpoint digit_span (base : Z) (s : list Z) : list Z :=
  match s with
  | c :: s =>
      match digit_value c with
      | Some d => if d <? base then d :: digit_span base s else []
      | None => []
      end
  | [] => []
  end.

Definition horner (base v : Z) (ds : list Z) : Z := fold_left (fun v d => v * base + d) ds v.

(** A number at the start of a text: its sign, base and digits, and how many
    characters of the text it takes. *)
Record numeral := Numeral { nu_neg : bool; nu_base : Z; nu_digits : list Z; nu_len : Z }.

Definition magnitude (n : numeral) : Z := horner (nu_base n) 0 (nu_digits n).

Definition starts (c : Z) (s : list Z) : bool := match s with b :: _ => b =? c | [] => false end.

Definition hex_prefix (base : Z) (s : list Z) : bool :=
  starts 48 s && (starts 120 (tail s) || starts 88 (tail s)) && ((base =? 0) || (base =? 16)).

(** A lone [0x] is the number 0 followed by an [x]. *)
Definition unsigned_part (base : Z) (neg : bool) (before : Z) (s : list Z) : numeral :=
  if hex_prefix base s then
    let ds := digit_span 16 (drop 2 s) in
    Numeral neg 16 ds (before + (if ds is [] then 1 else 2 + Z.of_nat (length ds)))
  else
    let base := if base =? 0 then (if starts 48 s then 8 else 10) else base in
    let ds := digit_span base s in
    Numeral neg base ds (if ds is [] then 0 else before + Z.of_nat (length ds)).

Definition number (base : Z) (s : list Z) : numeral :=
  let ws := span_len isspace s in
  let t := drop ws s in
  if starts 45 t then unsigned_part base true (Z.of_nat ws + 1) (tail t)
  else if starts 43 t then unsigned_part base false (Z.of_nat ws + 1) (tail t)
  else unsigned_part base false (Z.of_nat ws) t.

(** The result for a number: the value when the type has it and else the
    nearest end of the type; the unsigned versions limit the magnitude and then
    negate in the type. *)
Definition number_result (width : Z) (signed : bool) (n : numeral) : Z * option Z :=
  let v := magnitude n in
  let x := if nu_neg n then - v else v in
  if signed then
    if x <? - 2 ^ (width - 1) then (- 2 ^ (width - 1), Some ERANGE)
    else if 2 ^ (width - 1) - 1 <? x then (2 ^ (width - 1) - 1, Some ERANGE)
    else (x, None)
  else if 2 ^ width - 1 <? v then (2 ^ width - 1, Some ERANGE)
  else (uwrap width x, None).

Definition at_endptr `{Arch} (endptr p : Z) (m : mem) : mem :=
  if endptr =? NULL then m else put_bytes m endptr (bytes_of_word p).

(** ** Digits *)

Lemma digit_to_val_spec c :
  is_byte c ->
  match digit_value c with
  | Some d => digit_to_val c = d /\ 0 <= d < 36
  | None => 36 <= digit_to_val c
  end.
Proof.
  intros Hc.
  assert ((match digit_value c with
           | Some d => (digit_to_val c =? d) && (0 <=? d) && (d <? 36)
           | None => 36 <=? digit_to_val c
           end) = true) as E.
  { revert c Hc. apply all_bytes. vm_compute. reflexivity. }
  destruct (digit_value c); bool_to_prop; lia.
Qed.

Lemma tolower_x c : is_byte c -> (TOLOWER c =? 120) = ((c =? 120) || (c =? 88)).
Proof.
  intros Hc. apply eqb_true_iff. revert c Hc.
  apply (all_bytes (fun c => Bool.eqb (TOLOWER c =? 120) ((c =? 120) || (c =? 88)))). vm_compute. reflexivity.
Qed.

Lemma base_hex base : 0 <= base <= 36 -> (Z.lor base 16 =? 16) = ((base =? 0) || (base =? 16)).
Proof.
  intros Hb. apply eqb_true_iff. assert (is_byte base) as Hc by (unfold is_byte; lia). clear Hb. revert base Hc.
  apply (all_bytes (fun c => Bool.eqb (Z.lor c 16 =? 16) ((c =? 0) || (c =? 16)))). vm_compute. reflexivity.
Qed.

Lemma horner_ge base ds v :
  1 <= base -> 0 <= v -> Forall (fun d => 0 <= d) ds -> v <= horner base v ds.
Proof.
  intros Hb. revert v. induction ds as [|d ds IH]; intros v Hv Hd; [unfold horner; simpl; lia|].
  inversion_clear Hd. unfold horner in *. simpl. transitivity (v * base + d); [nia|]. apply IH; [nia|done].
Qed.

Lemma digit_span_range base s : Forall is_byte s -> Forall (fun d => 0 <= d < base) (digit_span base s).
Proof.
  induction 1 as [|c s Hc Hs IH]; simpl; [constructor|]. pose proof (digit_to_val_spec c Hc) as Hd.
  destruct (digit_value c) as [d|]; [|constructor]. destruct (Z.ltb_spec d base); constructor; [lia|done].
Qed.

(** ** The template computes the reference *)

Section strtoi_proof.
Context `{Arch}.
Variables (width : Z) (signed ov : bool).
Hypothesis width_ok : 8 <= width.

Variable limit : Z.
Hypothesis limit_ok : 0 <= limit < 2 ^ width.
Hypothesis limit_max : signed = false -> limit = 2 ^ width - 1.

(** The state of the digit loop after the number [V]. *)
Definition digits_st (neg V val flags : Z) : Prop :=
  flags = neg + (if limit <? V then FLAG_OFLOW else 0) /\ (V <= limit -> val = V) /\ 0 <= val < 2 ^ width.

Lemma lor_oflow neg (b : bool) : neg = 0 \/ neg = 1 -> Z.lor (neg + (if b then FLAG_OFLOW else 0)) FLAG_OFLOW = neg + FLAG_OFLOW.
Proof. intros [-> | ->]; by destruct b. Qed.

(** The division test is the test of the sum. *)
Lemma cutoff_spec base val i :
  2 <= base -> 0 <= val -> 0 <= i < base ->
  ((limit / base <? val) || ((val =? limit / base) && (limit mod base <? i))) = (limit <? val * base + i).
Proof.
  intros Hb Hv Hi. pose proof (Z.div_mod limit base ltac:(lia)). pose proof (Z.mod_pos_bound limit base ltac:(lia)).
  set (q := limit / base) in *. set (r := limit mod base) in *. clearbody q r.
  destruct (Z.ltb_spec limit (val * base + i)) as [Hl|Hl].
  - destruct (Z.ltb_spec q val); [done|]. assert (val = q) as -> by nia.
    rewrite Z.eqb_refl, (proj2 (Z.ltb_lt r i)) by lia. done.
  - rewrite (proj2 (Z.ltb_ge q val)) by nia. destruct (Z.eqb_spec val q) as [->|]; [|done].
    rewrite (proj2 (Z.ltb_ge r i)) by lia. done.
Qed.

Lemma strtoi_add_spec base neg V val flags i :
  2 <= base -> neg = 0 \/ neg = 1 -> 0 <= V -> 0 <= i < base -> digits_st neg V val flags ->
  let '(val', flags') := strtoi_add width signed ov limit base val flags i in
  digits_st neg (V * base + i) val' flags'.
Proof.
  intros Hb Hn HV Hi (-> & Hval & Hr). unfold strtoi_add, digits_st.
  assert (forall x, 0 <= uwrap width x < 2 ^ width) as Hw by (intros; apply uwrap_range; lia).
  assert (limit < V -> limit < V * base + i) by nia.
  destruct (ov && negb signed) eqn:Eov.
  - rewrite limit_max in * by (by destruct ov, signed). cbv zeta.
    destruct (Z.leb_spec (2 ^ width) (val * base)) as [H1|H1]; [|destruct (Z.leb_spec (2 ^ width) (val * base + i)) as [H2|H2]].
    1,2: rewrite lor_oflow by done; destruct (Z.ltb_spec (2 ^ width - 1) (V * base + i)) as [H3|H3];
      [split; [done|split; [lia|apply Hw]]|rewrite Hval in * by nia; lia].
    split_and!; [|intros; rewrite Hval in * by nia; lia|nia|lia].
    destruct (Z.ltb_spec (2 ^ width - 1) V); destruct (Z.ltb_spec (2 ^ width - 1) (V * base + i)); try lia.
    all: rewrite Hval in * by lia; lia.
  - rewrite cutoff_spec by lia. destruct (Z.ltb_spec limit (val * base + i)) as [H1|H1].
    + rewrite lor_oflow by done. destruct (Z.ltb_spec limit (V * base + i)); [split_and!; [done|lia..]|].
      rewrite Hval in H1 by nia. lia.
    + rewrite uwrap_small by (rewrite uwrap_small by nia; nia). rewrite uwrap_small by nia.
      split_and!; [|intros; rewrite Hval by nia; done|nia|lia].
      destruct (Z.ltb_spec limit V); destruct (Z.ltb_spec limit (V * base + i)); try lia.
      all: rewrite Hval in * by lia; lia.
Qed.

(** The digit loop, at the text [t]: the character in hand is its first. *)
Lemma strtoi_digits_spec base neg t : forall fuel nptr V val flags p m,
  2 <= base <= 36 -> neg = 0 \/ neg = 1 -> 0 <= V -> (length t < fuel)%nat -> cstr m p t ->
  digits_st neg V val flags ->
  let ds := digit_span base t in
  exists val' flags',
    strtoi_digits fuel width signed ov limit base nptr val flags (hd 0 t) (p + 1) m =
      Some (if ds is [] then nptr else p + Z.of_nat (length ds), val', flags', m) /\
    digits_st neg (horner base V ds) val' flags'.
Proof.
  induction t as [|c t IH]; intros [|f] nptr V val flags p m Hb Hn HV Hf Hs Hst; simpl in Hf; try lia; unfold strtoi_digits;
    rewrite loop_S; cbv zeta; cbn [hd digit_span].
  - change (digit_to_val 0) with 4294967248. rewrite (proj2 (Z.leb_le _ _)) by lia. by exists val, flags.
  - apply cstr_cons in Hs as (Hc & Hm & Hs). pose proof (digit_to_val_spec c) as Hd.
    specialize (Hd ltac:(unfold is_byte, nonzero_byte in *; lia)). destruct (digit_value c) as [d|].
    2: { rewrite (proj2 (Z.leb_le _ _)) by lia. by exists val, flags. }
    destruct Hd as [-> Hd]. destruct (Z.ltb_spec d base) as [Hlt|Hge].
    2: { rewrite (proj2 (Z.leb_le _ _)) by lia. by exists val, flags. }
    rewrite (proj2 (Z.leb_gt _ _)) by lia.
    pose proof (strtoi_add_spec base neg V val flags d ltac:(lia) Hn HV ltac:(lia) Hst) as Hst'.
    destruct (strtoi_add _ _ _ _ _ _ _ _) as [val1 flags1].
    assert (m !! (p + 1) = Some (hd 0 t)) as Hnext.
    { destruct t; [by apply cstr_nil in Hs|by apply cstr_cons in Hs as (_ & ? & _)]. }
    rewrite (bind_eq _ _ _ _ _ (load8_at _ _ _ Hnext)).
    destruct (IH f (p + 1) (V * base + d) val1 flags1 (p + 1) m Hb Hn ltac:(nia) ltac:(lia) Hs Hst') as (val2 & flags2 & E & Hst2).
    exists val2, flags2. split; [|exact Hst2]. etransitivity; [exact E|]. do 4 f_equal.
    destruct (digit_span base t); simpl; lia.
Qed.
End strtoi_proof.

Section strtoi_whole.
Context `{Arch}.

Lemma cstr_hd m p t : cstr m p t -> m !! p = Some (hd 0 t).
Proof. destruct t; [by intros ?%cstr_nil|by intros (_ & ? & _)%cstr_cons]. Qed.

Lemma cstr_tail m p t : t <> [] -> cstr m p t -> cstr m (p + 1) (tail t).
Proof. destruct t; [done|by intros _ (_ & _ & ?)%cstr_cons]. Qed.

Lemma starts_hd c t : c <> 0 -> starts c t = (hd 0 t =? c).
Proof. intros Hc. destruct t; [|done]. cbn [starts hd]. symmetry. apply Z.eqb_neq. lia. Qed.

Lemma hd_byte m p t : cstr m p t -> is_byte (hd 0 t).
Proof.
  destruct t as [|c t]; [intros _; unfold is_byte; simpl; lia|]. intros (Hc & _ & _)%cstr_cons.
  unfold is_byte, nonzero_byte in *. simpl. lia.
Qed.

Lemma skip_spaces_spec t : forall fuel p m,
  (length t < fuel)%nat -> cstr m p t ->
  let ws := span_len isspace t in
  skip_spaces fuel p m = Some (hd 0 (drop ws t), p + Z.of_nat ws + 1, m) /\ cstr m (p + Z.of_nat ws) (drop ws t).
Proof.
  induction t as [|c t IH]; intros [|f] p m Hf Hs; simpl in Hf; try lia; unfold skip_spaces; rewrite loop_S.
  all: pose proof (cstr_hd _ _ _ Hs) as Hp; rewrite (bind_eq _ _ _ _ _ (load8_at _ _ _ Hp)); cbn [hd span_len].
  - simpl. rewrite Z.add_0_r. done.
  - destruct (isspace c) eqn:Ec; [|simpl; by rewrite Z.add_0_r].
    apply cstr_cons in Hs as (_ & _ & Hs). destruct (IH f (p + 1) m ltac:(lia) Hs) as [E Hs']. cbn [drop].
    replace (p + Z.of_nat (S (span_len isspace t))) with (p + 1 + Z.of_nat (span_len isspace t)) by lia.
    split; [exact E|done].
Qed.

Lemma strtoi_sign_spec m p t :
  cstr m p t ->
  let sgn := starts 45 t || starts 43 t in
  let u := if sgn then tail t else t in
  let q := if sgn then p + 1 else p in
  strtoi_sign (hd 0 t) (p + 1) m = Some (if starts 45 t then FLAG_NEG else 0, hd 0 u, q + 1, m) /\ cstr m q u.
Proof.
  intros Hs. cbv zeta. unfold strtoi_sign. rewrite !starts_hd by lia.
  destruct ((hd 0 t =? 45) || (hd 0 t =? 43)) eqn:E.
  - assert (t <> []) by (by intros ->). pose proof (cstr_tail _ _ _ ltac:(done) Hs) as Ht. split; [|done].
    rewrite (bind_eq _ _ _ _ _ (load8_at _ _ _ (cstr_hd _ _ _ Ht))). done.
  - apply orb_false_iff in E as [-> _]. done.
Qed.

Lemma strtoi_base_spec base nptr u p m :
  0 <= base <= 36 -> cstr m p u ->
  strtoi_base base nptr (hd 0 u) (p + 1) m =
    Some (if hex_prefix base u then (16, p + 1, hd 0 (drop 2 u), p + 3)
          else (if base =? 0 then (if starts 48 u then 8 else 10) else base, nptr, hd 0 u, p + 1), m) /\
  (hex_prefix base u = true -> cstr m (p + 2) (drop 2 u)).
Proof.
  intros Hb Hs. unfold strtoi_base, hex_prefix. rewrite !starts_hd by lia.
  destruct (Z.eqb_spec (hd 0 u) 48) as [E|E]; [|by destruct (base =? 0)].
  assert (u <> []) as Hu by (by intros ->). pose proof (cstr_tail _ _ _ Hu Hs) as Ht.
  rewrite (bind_eq _ _ _ _ _ (load8_at _ _ _ (cstr_hd _ _ _ Ht))).
  rewrite (tolower_x _ (hd_byte _ _ _ Ht)), base_hex by done. cbn [andb].
  destruct (((hd 0 (tail u) =? 120) || (hd 0 (tail u) =? 88)) && _) eqn:Ex; [|by destruct (base =? 0)].
  assert (tail u <> []) as Htu by (intros Hn; rewrite Hn in Ex; discriminate).
  assert (drop 2 u = tail (tail u)) as -> by (by destruct u as [|? [|]]).
  pose proof (cstr_tail _ _ _ Htu Ht) as Htt. rewrite (bind_eq _ _ _ _ _ (load8_at _ _ _ (cstr_hd _ _ _ Htt))).
  replace (p + 1 + 2) with (p + 3) by lia. replace (p + 2) with (p + 1 + 1) by lia. done.
Qed.

Variables (width : Z) (signed ov : bool).
Hypothesis width_ok : 8 <= width.

Lemma pow2_half : 2 ^ width = 2 * 2 ^ (width - 1) /\ 128 <= 2 ^ (width - 1).
Proof.
  split; [rewrite <- Z.pow_succ_r by lia; f_equal; lia|]. change 128 with (2 ^ 7). apply Z.pow_le_mono_r; lia.
Qed.

Lemma strtoi_limit_eq neg :
  neg = 0 \/ neg = 1 ->
  strtoi_limit width signed neg = if signed then 2 ^ (width - 1) - 1 + neg else 2 ^ width - 1.
Proof.
  intros Hn. pose proof pow2_half. unfold strtoi_limit, strtoi_max. destruct signed; [|done].
  rewrite uwrap_small; [done|lia].
Qed.

(** The last steps: sign, range, conversion to the type. *)
Lemma strtoi_finish n val flags :
  let neg := if nu_neg n then FLAG_NEG else 0 in
  let limit := strtoi_limit width signed neg in
  0 <= magnitude n -> digits_st width limit neg (magnitude n) val flags ->
  (if negb (Z.land flags FLAG_OFLOW =? 0) then (strtoi_cast width signed limit, Some ERANGE)
   else (strtoi_cast width signed (if negb (Z.land flags FLAG_NEG =? 0) then uwrap width (- val) else val), None)) =
  number_result width signed n.
Proof.
  intros neg limit Hm (-> & Hval & Hr). pose proof pow2_half as [Hp Hh].
  assert (neg = 0 \/ neg = 1) as Hn by (subst neg; destruct (nu_neg n); auto).
  subst limit. rewrite strtoi_limit_eq in * by done. unfold number_result, strtoi_cast. set (V := magnitude n) in *.
  replace (negb (Z.land (neg + _) FLAG_OFLOW =? 0)) with ((if signed then 2 ^ (width - 1) - 1 + neg else 2 ^ width - 1) <? V)
    by (destruct (_ <? V); subst neg; by destruct (nu_neg n)).
  replace (negb (Z.land (neg + _) FLAG_NEG =? 0)) with (nu_neg n) by (destruct (_ <? V); subst neg; by destruct (nu_neg n)).
  assert (forall x, - 2 ^ (width - 1) <= x < 2 ^ (width - 1) -> swrap width x = x) as Hsw by (intros; apply swrap_small; lia).
  assert (forall x, swrap width (uwrap width x) = swrap width x) as Hsu
    by (intros; unfold swrap, uwrap; by rewrite Z.add_mod_idemp_l by lia).
  destruct signed; [|destruct (Z.ltb_spec (2 ^ width - 1) V); [done|rewrite Hval by done;
    destruct (nu_neg n); [done|rewrite uwrap_small by lia; done]]].
  destruct (Z.ltb_spec (2 ^ (width - 1) - 1 + neg) V) as [Hl|Hl]; subst neg; destruct (nu_neg n); unfold FLAG_NEG in *.
  - rewrite (proj2 (Z.ltb_lt (- V) _)) by lia. do 2 f_equal. unfold swrap.
    replace (2 ^ (width - 1) - 1 + 1 + 2 ^ (width - 1)) with (1 * 2 ^ width) by lia. rewrite Z.mod_mul by lia. lia.
  - rewrite (proj2 (Z.ltb_ge V (- _))), (proj2 (Z.ltb_lt _ V)) by lia. rewrite Hsw by lia. do 2 f_equal. lia.
  - rewrite (proj2 (Z.ltb_ge (- V) _)), (proj2 (Z.ltb_ge _ (- V))) by lia. rewrite Hsu, Hval, Hsw by lia. done.
  - rewrite (proj2 (Z.ltb_ge V (- _))), (proj2 (Z.ltb_ge _ V)) by lia. rewrite Hval, Hsw by lia. done.
Qed.

Lemma unsigned_part_magnitude base neg before u :
  0 <= base -> Forall nonzero_byte u -> 0 <= magnitude (unsigned_part base neg before u).
Proof.
  intros Hb Hu. unfold magnitude, unsigned_part. apply nonzero_is_byte in Hu.
  assert (forall b w, 1 <= b -> Forall is_byte w -> 0 <= horner b 0 (digit_span b w)) as Hh.
  { intros b w Hb' Hw. apply horner_ge; [done..|]. eapply Forall_impl; [by apply digit_span_range|simpl; lia]. }
  destruct (hex_prefix base u); apply Hh; [lia|by apply Forall_drop| |done].
  destruct (Z.eqb_spec base 0); [destruct (starts 48 u)|]; lia.
Qed.

Lemma bind_quad_assoc {S A B D E F G} (c : C S (A * B * D * E)) (f : A -> B -> D -> E -> C S F) (g : F -> C S G) s :
  bind c (fun '(a, b, d, e) => bind (f a b d e) g) s = bind (bind c (fun '(a, b, d, e) => f a b d e)) g s.
Proof. unfold bind. destruct (c s) as [[[[[? ?] ?] ?] ?]|]; done. Qed.

(** Prefix and digits, from the first character after the sign. *)
Lemma strtoi_part base nptr neg before u p m fuel limit :
  0 <= base <= 36 -> base <> 1 -> (length u < fuel)%nat -> cstr m p u -> p = nptr + before ->
  0 <= limit < 2 ^ width -> (signed = false -> limit = 2 ^ width - 1) ->
  let n := unsigned_part base neg before u in
  let flag := if neg then FLAG_NEG else 0 in
  exists val flags,
    (do '(base, nptr, i, s) <- strtoi_base base nptr (hd 0 u) (p + 1);
     strtoi_digits fuel width signed ov limit base nptr 0 flag i s) m = Some (nptr + nu_len n, val, flags, m) /\
    digits_st width limit flag (magnitude n) val flags.
Proof.
  intros Hb Hb1 Hf Hs -> Hl Hlm n flag. destruct (strtoi_base_spec base nptr u (nptr + before) m Hb Hs) as [Eb Hx].
  rewrite (bind_eq _ _ _ _ _ Eb).
  assert (flag = 0 \/ flag = 1) as Hflag by (subst flag; destruct neg; auto).
  assert (digits_st width limit flag 0 0 flag) as H0.
  { split_and!; [|done..|lia]. rewrite (proj2 (Z.ltb_ge limit 0)) by lia. lia. }
  subst n. unfold unsigned_part, magnitude. destruct (hex_prefix base u).
  - pose proof (length_drop u 2) as Hd. replace (nptr + before + 3) with (nptr + before + 2 + 1) by lia.
    destruct (strtoi_digits_spec width signed ov width_ok limit Hl Hlm 16 flag (drop 2 u) fuel (nptr + before + 1) 0 0 flag
      (nptr + before + 2) m ltac:(lia) Hflag ltac:(lia) ltac:(lia) (Hx eq_refl) H0) as (val & flags & E & Hst).
    exists val, flags. split; [|exact Hst]. rewrite E. cbn [nu_len]. do 4 f_equal. destruct (digit_span 16 (drop 2 u)); simpl; lia.
  - set (b := if base =? 0 then _ else _) in *.
    assert (2 <= b <= 36) as Hbb by (subst b; destruct (Z.eqb_spec base 0); [destruct (starts 48 u)|]; lia).
    destruct (strtoi_digits_spec width signed ov width_ok limit Hl Hlm b flag u fuel nptr 0 0 flag
      (nptr + before) m Hbb Hflag ltac:(lia) ltac:(lia) Hs H0) as (val & flags & E & Hst).
    exists val, flags. split; [|exact Hst]. rewrite E. cbn [nu_len]. do 4 f_equal. destruct (digit_span b u); simpl; lia.
Qed.

Lemma set_endptr_at endptr e m :
  (endptr <> NULL -> long_aligned endptr = true /\ mapped m endptr (Z.of_nat long_size)) ->
  set_endptr endptr e m = Some (tt, at_endptr endptr e m).
Proof.
  intros He. unfold set_endptr, at_endptr. destruct (Z.eqb_spec endptr NULL); [done|].
  destruct He; [done|]. by apply store_long_at.
Qed.

(** The whole function. *)
Lemma strtoi_spec fuel nptr endptr ibase s m :
  (length s < fuel)%nat -> cstr m nptr s ->
  (endptr <> NULL -> long_aligned endptr = true /\ mapped m endptr (Z.of_nat long_size)) ->
  0 <= ibase <= 36 -> ibase <> 1 ->
  let n := number ibase s in
  strtoi fuel width signed ov nptr endptr ibase m =
    Some (number_result width signed n, at_endptr endptr (nptr + nu_len n) m).
Proof.
  intros Hf Hs He Hb Hb1 n. unfold strtoi. rewrite uwrap_small by lia.
  rewrite (proj2 (Z.ltb_ge 36 ibase)), (proj2 (Z.eqb_neq ibase 1)) by lia. cbn [orb].
  destruct (skip_spaces_spec s fuel nptr m Hf Hs) as [Es Ht]. rewrite (bind_eq _ _ _ _ _ Es).
  set (ws := span_len isspace s) in *. set (t := drop ws s) in *.
  assert (length t <= length s)%nat as Hlt by (subst t; rewrite length_drop; lia).
  destruct (strtoi_sign_spec m (nptr + Z.of_nat ws) t Ht) as [Eg Hu]. rewrite (bind_eq _ _ _ _ _ Eg).
  set (sgn := starts 45 t || starts 43 t) in *. set (u := if sgn then tail t else t) in *.
  set (q := if sgn then nptr + Z.of_nat ws + 1 else nptr + Z.of_nat ws) in *. set (neg := starts 45 t) in *.
  assert (n = unsigned_part ibase neg (q - nptr) u) as En.
  { subst n q u sgn. unfold number. fold ws t neg. destruct neg, (starts 43 t); simpl; f_equal; lia. }
  assert (length u <= length t)%nat as Hlu by (subst u; destruct sgn, t; simpl; lia).
  set (flag := if neg then FLAG_NEG else 0) in *. set (limit := strtoi_limit width signed flag).
  assert (flag = 0 \/ flag = 1) as Hflag by (subst flag; destruct neg; auto).
  destruct pow2_half as [Hp Hh].
  destruct (strtoi_part ibase nptr neg (q - nptr) u q m fuel limit) as (val & flags & Ed & Hst);
    try done; try lia; [subst limit; rewrite strtoi_limit_eq by done; destruct signed; lia
      |intros Hsg; subst limit; rewrite strtoi_limit_eq by done; by rewrite Hsg|].
  rewrite <- En in *. etransitivity; [apply (bind_quad_assoc (strtoi_base ibase nptr (hd 0 u) (q + 1)))|].
  rewrite (bind_eq _ _ _ _ _ Ed), (bind_eq _ _ _ _ _ (set_endptr_at endptr _ m He)).
  assert (nu_neg n = neg) as Hneg by (rewrite En; unfold unsigned_part; by destruct (hex_prefix ibase u)).
  assert (0 <= magnitude n) as Hm by (rewrite En; apply unsigned_part_magnitude; [lia|apply Hu]).
  pose proof (strtoi_finish n val flags) as Hfin. rewrite Hneg in Hfin. rewrite <- (Hfin Hm Hst). by destruct (negb _).
Qed.

Definition valid_base (b : Z) : bool := (b =? 0) || ((2 <=? b) && (b <=? 36)).

Lemma strtoi_bad_base fuel nptr endptr ibase m :
  fits_int ibase = true -> valid_base ibase = false ->
  (endptr <> NULL -> long_aligned endptr = true /\ mapped m endptr (Z.of_nat long_size)) ->
  strtoi fuel width signed ov nptr endptr ibase m = Some ((0, Some EINVAL), at_endptr endptr nptr m).
Proof.
  unfold fits_int, valid_base, INT_MIN, INT_MAX. intros Hi Hb He. unfold strtoi.
  assert ((36 <? uwrap 32 ibase) || (uwrap 32 ibase =? 1) = true) as ->.
  { bool_to_prop. apply orb_true_iff. rewrite Z.ltb_lt, Z.eqb_eq. unfold uwrap. change (2 ^ 32) with 4294967296.
    destruct (Z.leb_spec 2 ibase), (Z.leb_spec ibase 36); cbn [andb] in *; try done; Z.to_euclidean_division_equations; lia. }
  by rewrite (bind_eq _ _ _ _ _ (set_endptr_at endptr nptr m He)).
Qed.

End strtoi_whole.

(** ** Reading back what itoa wrote *)

Section roundtrip.
Context `{Arch}.

Lemma digit_char_reads d :
  0 <= d < 36 ->
  digit_value (digit_char d) = Some d /\ isspace (digit_char d) = false /\
  digit_char d <> 45 /\ digit_char d <> 43 /\ (d < 16 -> digit_char d <> 120 /\ digit_char d <> 88).
Proof.
  intros Hd.
  assert (bool_decide (digit_value (digit_char d) = Some d) && negb (isspace (digit_char d)) &&
    negb (digit_char d =? 45) && negb (digit_char d =? 43) &&
    ((16 <=? d) || (negb (digit_char d =? 120) && negb (digit_char d =? 88))) = true) as E.
  { assert (forall n, In n (seq 0 36) -> (let d := Z.of_nat n in
      bool_decide (digit_value (digit_char d) = Some d) && negb (isspace (digit_char d)) &&
      negb (digit_char d =? 45) && negb (digit_char d =? 43) &&
      ((16 <=? d) || (negb (digit_char d =? 120) && negb (digit_char d =? 88)))) = true) as Hall
      by (apply forallb_forall; vm_compute; reflexivity).
    specialize (Hall (Z.to_nat d)). rewrite in_seq, Z2Nat.id in Hall by lia. apply Hall. lia. }
  bool_to_prop. split_and!; try done; [by eapply bool_decide_eq_true_1|].
  intros Hlt. rewrite (proj2 (Z.leb_gt 16 d)) in * by lia. cbn [orb] in *. bool_to_prop. done.
Qed.

Lemma digit_span_chars base ds :
  base <= 36 -> Forall (fun d => 0 <= d < base) ds -> digit_span base (map digit_char ds) = ds.
Proof.
  intros Hb. induction 1 as [|d ds Hd _ IH]; [done|]. simpl.
  rewrite (proj1 (digit_char_reads d ltac:(lia))), (proj2 (Z.ltb_lt d base)) by lia. by rewrite IH.
Qed.

Lemma horner_rev base l : horner base 0 (rev l) = of_digits base l.
Proof.
  induction l as [|d l IH]; [done|]. unfold horner in *. simpl. rewrite fold_left_app. simpl. rewrite IH. lia.
Qed.

(** The text of the digits [ds] after an optional minus sign. *)
Lemma number_of_digits base (neg : bool) ds :
  2 <= base <= 36 -> ds <> [] -> Forall (fun d => 0 <= d < base) ds ->
  number base ((if neg then [45] else []) ++ map digit_char ds) =
    Numeral neg base ds (Z.of_nat (length ((if neg then [45] else []) ++ map digit_char ds))).
Proof.
  intros Hb Hne Hds. destruct ds as [|d ds]; [done|]. set (D := map digit_char (d :: ds)).
  pose proof Hds as Hds'. inversion_clear Hds' as [|? ? Hd Hds1].
  destruct (digit_char_reads d ltac:(lia)) as (_ & Hsp & H45 & H43 & _).
  assert (forall before, unsigned_part base neg before D = Numeral neg base (d :: ds) (before + Z.of_nat (length D))) as Hpart.
  { intros before. unfold unsigned_part. assert (hex_prefix base D = false) as ->.
    { unfold hex_prefix. destruct (Z.eqb_spec base 16) as [->|]; [|rewrite (proj2 (Z.eqb_neq base 0)) by lia; by rewrite andb_false_r].
      subst D. destruct ds as [|d2 ds]; cbn [map tail starts]; [by rewrite andb_false_r|].
      inversion_clear Hds1 as [|? ? Hd2 _]. destruct (digit_char_reads d2 ltac:(lia)) as (_ & _ & _ & _ & Hx).
      destruct (Hx ltac:(lia)) as [H1 H2]. rewrite (proj2 (Z.eqb_neq _ _) H1), (proj2 (Z.eqb_neq _ _) H2). cbn [orb]. by rewrite andb_false_r. }
    rewrite (proj2 (Z.eqb_neq base 0)) by lia. subst D. rewrite digit_span_chars by (lia || done). by rewrite length_map. }
  unfold number. destruct neg; cbn [app].
  - cbn [span_len drop]. change (isspace 45) with false. cbn iota. cbn [drop starts tail]. rewrite Hpart. f_equal. cbn [length]. lia.
  - subst D. cbn [map span_len]. rewrite Hsp. cbn iota. cbn [drop starts].
    rewrite (proj2 (Z.eqb_neq _ _) H45), (proj2 (Z.eqb_neq _ _) H43). apply (Hpart 0).
Qed.

Lemma digits_length base v l (k : nat) :
  2 <= base -> digits_of base v l -> v < 2 ^ Z.of_nat k -> (0 < k)%nat -> (length l <= k)%nat.
Proof.
  intros Hb [Hv Hr Hlast _] Hlt Hk. destruct Hlast as [Hlast| ->]; [|simpl; lia].
  destruct l as [|d l _] using rev_ind; [simpl; lia|]. rewrite last_snoc in Hlast.
  apply Forall_app in Hr as [Hr Hd]. rewrite Forall_singleton in Hd.
  assert (d <> 0) by congruence.
  assert (2 ^ Z.of_nat (length l) <= of_digits base (l ++ [d])) as Hge.
  { clear Hv Hlt. induction l as [|x l IH]; [simpl; lia|]. inversion_clear Hr. cbn [app of_digits length].
    rewrite Nat2Z.inj_succ, Z.pow_succ_r by lia. specialize (IH ltac:(done)).
    pose proof (Z.pow_nonneg 2 (Z.of_nat (length l)) ltac:(lia)). nia. }
  rewrite length_app. simpl. assert (Z.of_nat (length l) < Z.of_nat k) by (apply (Z.pow_lt_mono_r_iff 2); lia). lia.
Qed.

Lemma atoi_itoa fuel ov value str base m :
  2 <= base <= 36 -> INT_MIN < value <= INT_MAX -> (33 < fuel)%nat -> mapped m str 34 -> mem_ok m ->
  base = 10 \/ 0 <= value ->
  exists m', __itoa fuel value str base m = Some (str, m') /\
    strtol fuel ov str NULL base m' = Some ((value, None), m') /\
    (base = 10 -> atoi fuel ov str m' = Some (value, m')).
Proof.
  intros Hb Hv Hf Hm Hok Hpos. destruct (itoa_spec fuel value str base m Hb Hv Hf Hm Hok) as (l & Hl & E).
  set (neg := (base =? 10) && (value <? 0)) in *. set (S := (if neg then [45] else []) ++ map digit_char (rev l)).
  assert (rev (map digit_char l) = map digit_char (rev l)) as Erev by (symmetry; apply map_rev).
  rewrite Erev, app_assoc in E. fold S in E. eexists. split; [exact E|]. set (m' := put_bytes _ _ _) in *.
  unfold INT_MIN, INT_MAX in Hv.
  assert (0 <= (if neg then - value else uwrap 32 value) < 2 ^ 32 /\
          (if neg then - (if neg then - value else uwrap 32 value) else if neg then - value else uwrap 32 value) = value) as [Hr Hval].
  { subst neg. destruct (Z.eqb_spec base 10), (Z.ltb_spec value 0); cbn [andb]; rewrite ?uwrap_small by lia; lia. }
  pose proof (digits_length base _ l 32 ltac:(lia) Hl (proj2 Hr) ltac:(lia)) as Hlen.
  assert (Forall (fun d => 0 <= d < base) (rev l)) as Hds by (apply Forall_rev, Hl).
  assert (cstr m' str S) as Hs.
  { split; [|apply put_bytes_at]. subst S. apply Forall_app. split; [destruct neg; [by repeat constructor|constructor]|].
    apply Forall_fmap. eapply Forall_impl; [exact Hds|]. intros d Hd. simpl in Hd. apply (digit_char_ok d m). lia. }
  assert (length S <= 33)%nat as HlS.
  { subst S. rewrite length_app, length_map, length_rev. destruct neg; simpl; lia. }
  assert (strtol fuel ov str NULL base m' = Some ((value, None), m')) as Et; [|split; [exact Et|]].
  2: { intros ->. unfold atoi. rewrite (bind_eq _ _ _ _ _ Et). unfold ret. rewrite swrap_small; [done|lia|].
       change (32 - 1) with 31. lia. }
  unfold strtol. pose proof long_bits_le. assert (8 <= long_bits) as H8 by lia.
  rewrite (strtoi_spec long_bits true ov H8 fuel str NULL base S m'); try done; try lia.
  assert (number base S = Numeral neg base (rev l) (Z.of_nat (length S))) as ->.
  { apply number_of_digits; [done| |done]. intros Hn. apply (dg_some _ _ _ Hl). by destruct l; [|apply app_eq_nil in Hn as [_ ?]]. }
  unfold number_result, magnitude. cbn [nu_neg nu_base nu_digits nu_len]. rewrite horner_rev, (dg_value _ _ _ Hl), Hval.
  assert (2 ^ 31 <= 2 ^ (long_bits - 1)) by (apply Z.pow_le_mono_r; lia).
  rewrite (proj2 (Z.ltb_ge _ _)), (proj2 (Z.ltb_ge _ _)) by lia. done.
Qed.
End roundtrip.
