(* ===== verification/TextProps.v ===== *)
(** * Encodings, conversions and random numbers: what the functions guarantee

    The theorems on the UTF-8 codec (libc/stdlib/mbtowc_r.c, wctomb_r.c), on the
    integer conversions and on the rand48 generator. *)

From S2P Require Import Prelude CMem StrLocal StrMem StrStr Demo Utf8 Convert Strto.
From stdpp Require Import base list gmap.
From Stdlib Require Import ZArith Lia.

Local Open Scope Z_scope.
#[local] Existing Instance LP64.

(** The encoder writes the shortest UTF-8 form of each valid code point,
    and its length is the result; a surrogate or a number above 0x10ffff is
    refused with nothing written. *)
Theorem utf8_wctomb_correct (s c : Z) (m : mem) :
  s <> NULL -> 0 <= c -> mapped m s 4 ->
  (valid_cp c -> __utf8_wctomb s c m = Some (Z.of_nat (length (utf8_encode c)), put_bytes m s (utf8_encode c))) /\
  (~ valid_cp c -> __utf8_wctomb s c m = Some (-1, m)).
Proof.
  intros Hs Hc Hm. split; intros Hv.
  - apply utf8_wctomb_spec; [done..|]. eapply mapped_weaken; [done|lia|].
    unfold utf8_encode. repeat (case_bool; [simpl; lia|]). simpl. lia.
  - apply utf8_wctomb_bad; [done|]. unfold valid_cp, surrogate in *. lia.
Qed.

Lemma utf8_wctomb_witness :
  (valid_cp 0x20ac ->
   __utf8_wctomb room 0x20ac demo = Some (3, put_bytes demo room [0xe2; 0x82; 0xac])) /\
  (~ valid_cp 0x20ac -> __utf8_wctomb room 0x20ac demo = Some (-1, demo)).
Proof. apply (utf8_wctomb_correct room 0x20ac demo); [discriminate|lia|eval_mem]. Defined.

(** The decoder inverts the encoder however the input is cut into calls: when
    the bytes [l1] of a code point were seen by earlier calls and [l2] are the
    rest, a call with [n] bytes of input returns the code point if [l2] fits in
    [n], and otherwise -2 with the new bytes remembered in the state. *)
Theorem utf8_roundtrip `{Arch} (m : mem) (s n : Z) (st : mbstate) (l1 l2 : list Z) (c : Z) :
  valid_cp c -> utf8_encode c = l1 ++ l2 -> l2 <> [] -> seen st l1 -> 1 <= n <= 2 ^ long_bits - 1 ->
  bytes_at m s (take (Z.to_nat n) l2) -> s <> NULL -> decodes c l1 l2 n (__utf8_mbtowc m s n st).
Proof. apply utf8_mbtowc_spec. Qed.

Definition euro : mem := put_bytes demo room [0x82; 0xac].

Lemma utf8_roundtrip_witness :
  decodes 0x20ac [0xe2] [0x82; 0xac] 2 (__utf8_mbtowc euro room 2 (Mb 1 0xe2 0 0)).
Proof.
  apply (utf8_roundtrip euro room 2 (Mb 1 0xe2 0 0) [0xe2] [0x82; 0xac] 0x20ac);
    [vm_compute; intuition congruence|reflexivity|discriminate|split; reflexivity|vm_compute; split; congruence|eval_mem|discriminate].
Defined.

(** What the decoder accepts from its initial state is the encoding of a
    valid code point, in its only form: overlong forms, surrogates and numbers
    above 0x10ffff are never decoded, and no byte after the first [n] is
    used. *)
Theorem utf8_mbtowc_accepts `{Arch} (m : mem) (s n : Z) (st : mbstate) (r c : Z) (st' : mbstate) :
  mem_ok m -> s <> NULL -> 0 <= n -> __count st = 0 -> __utf8_mbtowc m s n st = Some (r, Some c, st') ->
  valid_cp c /\ bytes_at m s (utf8_encode c) /\ __count st' = 0 /\
  r = (if c =? 0 then 0 else Z.of_nat (length (utf8_encode c))) /\ Z.of_nat (length (utf8_encode c)) <= n.
Proof. apply utf8_mbtowc_sound. Qed.

Lemma utf8_mbtowc_accepts_witness :
  valid_cp 104 /\ bytes_at demo text (utf8_encode 104) /\ __count (Mb 0 0 0 0) = 0 /\
  1 = (if 104 =? 0 then 0 else Z.of_nat (length (utf8_encode 104))) /\ Z.of_nat (length (utf8_encode 104)) <= 5.
Proof.
  apply (utf8_mbtowc_accepts demo text 5 (Mb 0 0 0 0) 1 104 (Mb 0 0 0 0));
    [eval_mem|discriminate|lia|reflexivity|vm_compute; reflexivity].
Defined.

(** The 48-bit generator computed in 16-bit limbs and a 32-bit accumulator is
    the linear congruence X' = (a X + c) mod 2^48; lrand48 returns its top 31
    bits and mrand48 its top 32 bits as a signed number. *)
Theorem rand48_correct `{Arch} (r : rand48) :
  rand48_ok r ->
  let next := (value48 (_mult r) * value48 (_seed r) + _add r) mod 2 ^ 48 in
  (exists r', _lrand48_r r = (next / 2 ^ 17, r') /\ rand48_ok r' /\ value48 (_seed r') = next) /\
  (exists r', _mrand48_r r = (swrap 32 (next / 2 ^ 16), r') /\ rand48_ok r' /\ value48 (_seed r') = next) /\
  0 <= next / 2 ^ 17 < 2 ^ 31.
Proof.
  intros Hr. pose proof (lrand48_spec r Hr) as Hl. pose proof (mrand48_spec r Hr) as Hm.
  destruct (_lrand48_r r) as [v r1]. destruct (_mrand48_r r) as [w r2].
  destruct Hl as (-> & Hv & H1 & E1). destruct Hm as (-> & _ & H2 & E2). cbv zeta. rewrite E1 in *. rewrite E2 in *.
  split_and!; [by exists r1|by exists r2|lia..].
Qed.

Lemma rand48_witness :
  let next := (value48 (_mult _rand48) * value48 (_seed _rand48) + _add _rand48) mod 2 ^ 48 in
  (exists r', _lrand48_r _rand48 = (next / 2 ^ 17, r') /\ rand48_ok r' /\ value48 (_seed r') = next) /\
  (exists r', _mrand48_r _rand48 = (swrap 32 (next / 2 ^ 16), r') /\ rand48_ok r' /\ value48 (_seed r') = next) /\
  0 <= next / 2 ^ 17 < 2 ^ 31.
Proof. apply (rand48_correct _rand48). vm_compute. intuition congruence. Defined.

(** [itoa] writes the digits of the number in the base, most significant
    first and without leading zeros, after a minus sign for a negative number in
    base ten, and terminates them; in another base a negative number is shown as
    unsigned. *)
Theorem itoa_correct (fuel : nat) (value str base : Z) (m : mem) :
  2 <= base <= 36 -> INT_MIN < value <= INT_MAX -> (33 < fuel)%nat -> mapped m str 34 -> mem_ok m ->
  let neg := (base =? 10) && (value <? 0) in
  exists l, digits_of base (if neg then - value else uwrap 32 value) l /\
    __itoa fuel value str base m =
    Some (str, put_bytes m str ((if neg then [45] else []) ++ rev (map digit_char l) ++ [0])).
Proof. apply itoa_spec. Qed.

Lemma itoa_witness :
  let neg := (10 =? 10) && (-305 <? 0) in
  exists l, digits_of 10 (if neg then - -305 else uwrap 32 (-305)) l /\
    __itoa 40 (-305) room 10 demo =
    Some (room, put_bytes demo room ((if neg then [45] else []) ++ rev (map digit_char l) ++ [0])).
Proof. apply (itoa_correct 40 (-305) room 10 demo); [lia|vm_compute; split; congruence|lia|eval_mem..]. Defined.

(** [a64l] reads back what [l64a] wrote: the low 32 bits of the number, as a
    string of at most six characters. *)
Theorem a64l_inverts_l64a `{Arch} (buf v : Z) (m : mem) :
  buf <> NULL -> mapped m buf 7 -> m !! (buf + 6) = Some 0 ->
  exists l m', l64a buf v m = Some (buf, m') /\ cstr m' buf l /\ (length l <= 6)%nat /\
    a64l buf m' = Some (swrap long_bits (v mod 2 ^ 32), m').
Proof. apply a64l_l64a. Qed.

Lemma a64l_witness :
  exists l m', l64a room 0xdeadbeef demo = Some (room, m') /\ cstr m' room l /\ (length l <= 6)%nat /\
    a64l room m' = Some (swrap long_bits (0xdeadbeef mod 2 ^ 32), m').
Proof. apply (a64l_inverts_l64a room 0xdeadbeef demo); [discriminate|eval_mem|vm_compute; reflexivity]. Defined.

(** C40: [strtol], [strtoul] and the other instances of the template, at any width
    and with either way of detecting overflow, read the number at the start of
    the text: they return its value, or the nearest end of the type with ERANGE
    when the type does not have it, and store the end of what they read; a base
    that is not 0 or 2..36 gives EINVAL and reads nothing. *)
Theorem strtoi_correct `{Arch} (fuel : nat) (width : Z) (signed ov : bool) (nptr endptr ibase : Z) (s : list Z) (m : mem) :
  8 <= width -> fits_int ibase = true -> (length s < fuel)%nat -> cstr m nptr s ->
  (endptr <> NULL -> long_aligned endptr = true /\ mapped m endptr (Z.of_nat long_size)) ->
  let n := number ibase s in
  strtoi fuel width signed ov nptr endptr ibase m =
    Some (if valid_base ibase then number_result width signed n else (0, Some EINVAL),
          at_endptr endptr (if valid_base ibase then nptr + nu_len n else nptr) m).
Proof.
  intros Hw Hi Hf Hs He n. destruct (valid_base ibase) eqn:Hb; [|by apply strtoi_bad_base].
  unfold valid_base in Hb. assert (0 <= ibase <= 36 /\ ibase <> 1) as [H1 H2].
  { destruct (Z.eqb_spec ibase 0); [lia|]. cbn [orb] in Hb. bool_to_prop. lia. }
  by apply strtoi_spec.
Qed.

(** [" -0x7fffffff9z"], the end pointer in the first word of the room *)
Definition numeral_text : list Z := [32; 45; 48; 120; 55; 102; 102; 102; 102; 102; 102; 102; 57; 122].
Definition numeral_mem : mem := put_bytes demo 160 (numeral_text ++ [0]).

Lemma strtoi_witness :
  strtoi 20 32 true false 160 136 16 numeral_mem =
    Some (number_result 32 true (number 16 numeral_text), at_endptr 136 (160 + nu_len (number 16 numeral_text)) numeral_mem) /\
  number_result 32 true (number 16 numeral_text) = (INT_MIN, Some ERANGE) /\ nu_len (number 16 numeral_text) = 13.
Proof.
  split; [|split; vm_compute; reflexivity].
  apply (strtoi_correct 20 32 true false 160 136 16 numeral_text numeral_mem);
    [lia|reflexivity|vm_compute; lia|eval_mem|split; [reflexivity|eval_mem]].
Defined.

(** What [itoa] writes, [strtol] reads back in the same base, and [atoi] in base
    ten: the number itself, with no error. *)
Theorem itoa_reads_back `{Arch} (fuel : nat) (ov : bool) (value str base : Z) (m : mem) :
  2 <= base <= 36 -> INT_MIN < value <= INT_MAX -> (33 < fuel)%nat -> mapped m str 34 -> mem_ok m ->
  base = 10 \/ 0 <= value ->
  exists m', __itoa fuel value str base m = Some (str, m') /\
    strtol fuel ov str NULL base m' = Some ((value, None), m') /\
    (base = 10 -> atoi fuel ov str m' = Some (value, m')).
Proof. apply atoi_itoa. Qed.

Lemma itoa_reads_back_witness :
  exists m', __itoa 40 (-305) room 10 demo = Some (room, m') /\
    strtol 40 true room NULL 10 m' = Some ((-305, None), m') /\
    (10 = 10 -> atoi 40 true room m' = Some (-305, m')).
Proof.
  apply (itoa_reads_back 40 true (-305) room 10 demo); [lia|vm_compute; split; congruence|lia|eval_mem..|by left].
Defined.
