(* ===== verification/Printf.v ===== *)
(** * Formatted output (libc/stdio/vfprintf.c, vfprintf_int.c, vfprintf_str.c, vfprintf_char.c, ultoa_invert.c)

    [vfprintf] of the integer variants: narrow characters, without positional
    arguments, [%n] and floating point (whose conversions print ["*float*"]).
    The format and the strings are the bytes of their arrays, the terminator
    included: a read past the last byte is a fault.  The stream is any state with
    a [put] function. *)

From S2P Require Import Prelude CMem Convert Strto.
From stdpp Require Import base list.
From Stdlib Require Import ZArith Lia.

Local Open Scope Z_scope.

(** ** Arguments *)

(** What the caller passed, by its promoted type. *)
Inductive arg :=
  | AInt (x : Z)
  | ALong (x : Z)
  | ALLong (x : Z)
  | APtr (p : Z)
  | AStr (s : option (list Z))
  | ADouble (bits : Z).

(** The flags and the [put] function of a stream. *)
Class PutStream (S : Type) := {
  str_flags : S -> Z;
  str_set_flags : Z -> S -> S;
  str_put : Z -> C S Z }.

Definition FL_ZFILL : Z := 0x0001.
Definition FL_PLUS : Z := 0x0002.
Definition FL_SPACE : Z := 0x0004.
Definition FL_LPAD : Z := 0x0008.
Definition FL_ALT : Z := 0x0010.
Definition FL_WIDTH : Z := 0x0020.
Definition FL_PREC : Z := 0x0040.
Definition FL_LONG : Z := 0x0080.
Definition FL_SHORT : Z := 0x0100.
Definition FL_REPD_TYPE : Z := 0x0200.
Definition FL_NEGATIVE : Z := 0x0400.

(** ** The monad

    The stream, the number of characters put and the arguments not yet read; the
    result [None] is the jump to the label [fail]. *)

Record pst {S : Type} := Pst { p_stream : S; stream_len : Z; ap : list arg }.
Arguments pst : clear implicits.
Arguments Pst {_}.

Definition P (S A : Type) : Type := C (pst S) (option A).

Definition pret {S A} (a : A) : P S A := ret (Some a).
Definition pbind {S A B} (c : P S A) (k : A -> P S B) : P S B :=
  do x <- c;
  match x with Some a => k a | None => ret None end.

Notation "'pdo' x <- c ; k" := (pbind c (fun x => k))
  (at level 10, x name, c at level 100, k at level 200,
   format "'[v' 'pdo'  x  <-  c ; '//' k ']'") : c_scope.
Notation "'pdo' ' p <- c ; k" := (pbind c (fun x => match x with p => k end))
  (at level 10, p pattern, c at level 100, k at level 200,
   format "'[v' 'pdo'  ' p  <-  c ; '//' k ']'") : c_scope.
Notation "'prun' c ; k" := (pbind c (fun _ => k))
  (at level 10, c at level 100, k at level 200,
   format "'[v' 'prun'  c ; '//' k ']'") : c_scope.

Definition ploop {S T R} (body : T -> P S (T + R)) : nat -> T -> P S R :=
  loop (fun st =>
    do x <- body st;
    match x with
    | Some (inl st') => ret (inl st')
    | Some (inr r) => ret (inr (Some r))
    | None => ret (inr None)
    end).

(** ** ultoa_invert.c *)

(** Division by ten without a division, on [w] bits; [char] is 8 bits. *)
Definition udivmod10 (w n : Z) : Z * Z :=
  let u := uwrap w in
  let q := u (Z.shiftr n 1 + Z.shiftr n 2) in
  let q := u (q + Z.shiftr q 4) in
  let q := u (q + Z.shiftr q 8) in
  let q := u (q + Z.shiftr q 16) in
  let q := if 32 <? w then u (q + Z.shiftr q 32) else q in
  let q := Z.shiftr q 3 in
  let r := uwrap 8 (u (n - u (Z.shiftl (u (u (Z.shiftl q 2) + q)) 1))) in
  if 9 <? r then (u (q + 1), r - 10) else (q, r).

Definition udivmod (w val base : Z) : Z * Z :=
  if base =? 2 then (Z.shiftr val 1, Z.land val 1)
  else if base =? 8 then (Z.shiftr val 3, Z.land val 7)
  else if base =? 16 then (Z.shiftr val 4, Z.land val 15)
  else udivmod10 w val.

Section printf.
Context `{Arch}.

(** _NEED_IO_LONG_LONG, _NEED_IO_C99_FORMATS, _NEED_IO_PERCENT_B, FANCY_DIVMOD *)
Variables (need_long_long need_c99 need_percent_b fancy_divmod : bool).
Context {S : Type} `{PutStream S}.
Variable fuel : nat.

(** The width of [ultoa_unsigned_t]. *)
Definition ultoa_bits : Z := if need_long_long then 64 else long_bits.

Definition PRINTF_BUF_SIZE : Z :=
  if ultoa_bits <=? 32 then (if need_percent_b then 32 else 11)
  else if need_percent_b then 64 else 22.

(** The digits stored in [buf], in the order of their addresses; a store past its
    end is a fault. *)
Definition __ultoa_invert (val base : Z) : P S (list Z) :=
  let hex := 97 - 48 - 10 + 16 - base in
  let base := Z.land base 31 in
  ploop (fun '(val, buf) =>
    let '(val, v) := if fancy_divmod then udivmod ultoa_bits val base else (val / base, val mod base) in
    let v := if 9 <? v then v + hex else v in
    let v := v + 48 in
    if PRINTF_BUF_SIZE <=? Z.of_nat (length buf) then fault
    else
      let buf := buf ++ [v] in
      pret (if negb (val =? 0) then inl (val, buf) else inr buf)) fuel (val, []).

(** ** Reading arguments and the format *)

Definition va_arg : P S arg :=
  fun st => match ap st with
            | a :: r => Some (Some a, Pst (p_stream st) (stream_len st) r)
            | [] => None
            end.

(** An argument of another type than the one asked for is a fault; a pointer is
    read as the integer of its size. *)
Definition va_int : P S Z :=
  pdo a <- va_arg;
  match a with
  | AInt x => pret x
  | APtr x => if long64 then fault else pret x
  | _ => fault
  end.
Definition va_long : P S Z :=
  pdo a <- va_arg;
  match a with ALong x => pret x | APtr x => pret x | _ => fault end.
Definition va_llong : P S Z :=
  pdo a <- va_arg;
  match a with ALLong x => pret x | _ => fault end.
Definition va_string : P S (option (list Z)) :=
  pdo a <- va_arg;
  match a with AStr s => pret s | _ => fault end.
Definition va_double : P S unit :=
  pdo a <- va_arg;
  match a with ADouble _ => pret tt | _ => fault end.

Definition arg_to_signed (flags : Z) : P S Z :=
  if has flags FL_LONG then
    if has flags FL_REPD_TYPE then
      pdo x <- va_llong;
      pret (swrap ultoa_bits (swrap 64 x))
    else
      pdo x <- va_long;
      pret (swrap long_bits x)
  else
    pdo x <- va_int;
    if has flags FL_SHORT then
      if has flags FL_REPD_TYPE then pret (swrap 8 x) else pret (swrap 16 x)
    else pret (swrap 32 x).

Definition arg_to_unsigned (flags : Z) : P S Z :=
  if has flags FL_LONG then
    if has flags FL_REPD_TYPE then
      pdo x <- va_llong;
      pret (uwrap ultoa_bits (uwrap 64 x))
    else
      pdo x <- va_long;
      pret (uwrap long_bits x)
  else
    pdo x <- va_int;
    if has flags FL_SHORT then
      if has flags FL_REPD_TYPE then pret (uwrap 8 x) else pret (uwrap 16 x)
    else pret (uwrap 32 x).

(** [*fmt++] *)
Definition fetch (fmt : list Z) : P S (Z * list Z) :=
  match fmt with c :: fmt => pret (c, fmt) | [] => fault end.

Definition my_putc (c : Z) : P S unit :=
  fun st =>
    if fits_int (stream_len st + 1) then
      match str_put (uwrap 8 c) (p_stream st) with
      | Some (r, s) => Some (if r <? 0 then None else Some tt, Pst s (stream_len st + 1) (ap st))
      | None => None
      end
    else None.

(** ** A conversion specification *)

(** What a character of the specification does: it is consumed with new values
    of [flags], [width] and [prec], it ends the specification, or it jumps to
    [ret]. *)
Inductive scan := Continue (flags width prec : Z) | Break | GotoRet.

(** CHECK_INT_SIZE for a type of 4 or 8 bytes *)
Definition int_size_flags (flags : Z) (bytes : Z) : Z :=
  if bytes =? 4 then flags
  else if bytes =? Z.of_nat long_size then Z.lor flags FL_LONG
  else Z.lor flags (Z.lor FL_LONG FL_REPD_TYPE).

Definition check_int_sizes (c flags : Z) : option Z :=
  if c =? 108 then
    Some (Z.lor (if has flags FL_LONG then Z.lor flags FL_REPD_TYPE else flags) FL_LONG)
  else if c =? 104 then
    Some (Z.lor (if has flags FL_SHORT then Z.lor flags FL_REPD_TYPE else flags) FL_SHORT)
  else if c =? 76 then Some (Z.lor (Z.lor flags FL_REPD_TYPE) FL_LONG)
  else if need_c99 then
    if c =? 106 then Some (int_size_flags flags 8)
    else if c =? 122 then Some (int_size_flags flags (Z.of_nat long_size))
    else if c =? 116 then Some (int_size_flags flags (Z.of_nat long_size))
    else None
  else None.

(** The characters '0', '+', ' ', '-', '#' and ''' *)
Definition flag_char (c : Z) : option Z :=
  if c =? 48 then Some FL_ZFILL
  else if c =? 43 then Some (Z.lor FL_PLUS FL_SPACE)
  else if c =? 32 then Some FL_SPACE
  else if c =? 45 then Some FL_LPAD
  else if c =? 35 then Some FL_ALT
  else if c =? 39 then Some 0
  else None.

(** [10 * n + c] with the [unsigned] digit [c], stored in an [int]. *)
Definition next_digit (n c : Z) : P S Z :=
  do t <- int_ (10 * n);
  pret (swrap 32 (uwrap 32 t + (c - 48))).

Definition scan_sizes (c flags width prec : Z) : scan :=
  match check_int_sizes c flags with
  | Some flags => Continue flags width prec
  | None => Break
  end.

Definition scan_step (c flags width prec : Z) : P S scan :=
  match (if flags <? FL_WIDTH then flag_char c else None) with
  | Some f => pret (Continue (Z.lor flags f) width prec)
  | None =>
      if flags <? FL_LONG then
        if (48 <=? c) && (c <=? 57) then
          if has flags FL_PREC then
            pdo prec <- next_digit prec c;
            pret (Continue flags width prec)
          else
            pdo width <- next_digit width c;
            pret (Continue (Z.lor flags FL_WIDTH) width prec)
        else if c =? 42 then
          if has flags FL_PREC then
            pdo prec <- va_int;
            pret (Continue flags width (swrap 32 prec))
          else
            pdo width <- va_int;
            pret (Continue (Z.lor flags FL_WIDTH) (swrap 32 width) prec)
        else if c =? 46 then
          if has flags FL_PREC then pret GotoRet else pret (Continue (Z.lor flags FL_PREC) width prec)
        else pret (scan_sizes c flags width prec)
      else pret (scan_sizes c flags width prec)
  end.

(** One pass of the loop [do ... while ((c = *fmt++) != 0)]. *)
Definition scan_iter (x : Z * Z * Z * Z * list Z) : P S ((Z * Z * Z * Z * list Z) + option (Z * Z * Z * Z * list Z)) :=
  let '(c, flags, width, prec, fmt) := x in
  pdo x <- scan_step c flags width prec;
  match x with
  | Continue flags width prec =>
      pdo '(c, fmt) <- fetch fmt;
      if c =? 0 then pret (inr (Some (c, flags, width, prec, fmt)))
      else pret (inl (c, flags, width, prec, fmt))
  | Break => pret (inr (Some (c, flags, width, prec, fmt)))
  | GotoRet => pret (inr None)
  end.

(** The loop over the specification; [None] is the jump to [ret]. *)
Definition scan_spec (c : Z) (fmt : list Z) : P S (option (Z * Z * Z * Z * list Z)) :=
  ploop scan_iter fuel (c, 0, 0, 0, fmt).

(** ** Strings and characters *)

(** [strnlen(pnt, size)] *)
Fixpoint strnlen_at (pnt : list Z) (size : Z) : P S Z :=
  if size =? 0 then pret 0
  else
    match pnt with
    | [] => fault
    | b :: pnt => if b =? 0 then pret 0 else pdo n <- strnlen_at pnt (size - 1); pret (n + 1)
    end.

(** [while (size--) my_putc( *pnt++, stream);] *)
Definition put_string (pnt : list Z) (size : Z) : P S unit :=
  ploop (fun '(pnt, size) =>
    if size =? 0 then pret (inr tt)
    else
      pdo '(b, pnt) <- fetch pnt;
      prun my_putc b;
      pret (inl (pnt, size - 1))) fuel (pnt, size).

(** From the label [str_lpad]: the width that is left on the right. *)
Definition str_lpad (flags width size : Z) (pnt : list Z) : P S Z :=
  pdo width <-
    (if negb (has flags FL_LPAD) then
       ploop (fun width =>
         if size <? uwrap long_bits width then
           prun my_putc 32;
           pret (inl (width - 1))
         else pret (inr width)) fuel width
     else pret width);
  let width := swrap 32 (uwrap long_bits (uwrap long_bits width - size)) in
  prun put_string pnt size;
  pret width.

(** "(null)" and "*float*" *)
Definition null_text : list Z := [40; 110; 117; 108; 108; 41; 0].
Definition float_text : list Z := [42; 102; 108; 111; 97; 116; 42; 0].

Definition printf_char (flags width : Z) : P S Z :=
  pdo x <- va_int;
  str_lpad (without flags FL_PREC) width 1 [uwrap 8 x].

Definition printf_str (flags width prec : Z) : P S Z :=
  pdo s <- va_string;
  let pnt := match s with Some s => s | None => null_text end in
  pdo size <- strnlen_at pnt (if has flags FL_PREC then uwrap long_bits prec else 2 ^ long_bits - 1);
  str_lpad flags width size pnt.

(** ** Integers (vfprintf_int.c) *)

(** The flags, the character of the prefix (0 for octal) and the digits, or
    [None] for an unknown conversion. *)
Definition int_digits (c flags prec : Z) : P S (option (Z * Z * list Z)) :=
  let zero x := (x =? 0) && has flags FL_PREC && (prec =? 0) in
  if (c =? 100) || (c =? 105) then
    pdo x_s <- arg_to_signed flags;
    let '(x_s, flags) :=
      if x_s <? 0 then (swrap ultoa_bits (uwrap ultoa_bits (- uwrap ultoa_bits x_s)), Z.lor flags FL_NEGATIVE)
      else (x_s, flags) in
    let flags := without flags FL_ALT in
    pdo buf <- (if zero x_s then pret [] else __ultoa_invert (uwrap ultoa_bits x_s) 10);
    pret (Some (flags, c, buf))
  else
    let conv :=
      if c =? 117 then Some (without flags FL_ALT, 10, c)
      else if c =? 111 then Some (flags, 8, 0)
      else if c =? 112 then
        let flags := Z.lor flags FL_ALT in
        Some (if long64 then Z.lor flags FL_LONG else flags, 16, 120)
      else if TOLOWER c =? 120 then Some (flags, Z.lor (120 - c) 16, c)
      else if need_percent_b && (TOLOWER c =? 98) then Some (flags, 2, c)
      else None in
    match conv with
    | None => pret None
    | Some (flags, base, c) =>
        let flags := without flags (Z.lor FL_PLUS FL_SPACE) in
        pdo x <- arg_to_unsigned flags;
        let flags := if x =? 0 then without flags FL_ALT else flags in
        pdo buf <- (if zero x then pret [] else __ultoa_invert x base);
        pret (Some (flags, c, buf))
    end.

(** [while (len < width) { my_putc(' ', stream); len++; }] *)
Definition pad_left (len width : Z) : P S Z :=
  ploop (fun len =>
    if len <? width then
      prun my_putc 32;
      pret (inl (len + 1))
    else pret (inr len)) fuel len.

Definition put_prefix (flags c : Z) : P S unit :=
  if has flags FL_ALT then
    prun my_putc 48;
    if negb (c =? 0) then my_putc c else pret tt
  else if has flags (Z.lor FL_NEGATIVE (Z.lor FL_PLUS FL_SPACE)) then
    let z := 32 in
    let z := if has flags FL_PLUS then 43 else z in
    let z := if has flags FL_NEGATIVE then 45 else z in
    my_putc z
  else pret tt.

Definition put_zeros (prec buf_len : Z) : P S unit :=
  ploop (fun prec =>
    if buf_len <? prec then
      prun my_putc 48;
      pret (inl (prec - 1))
    else pret (inr tt)) fuel prec.

(** [while (buf_len) my_putc(u.buf[--buf_len], stream);] *)
Definition put_buf (buf : list Z) : P S unit :=
  ploop (fun buf_len =>
    if buf_len =? 0 then pret (inr tt)
    else
      match buf !! Z.to_nat (buf_len - 1) with
      | Some b => prun my_putc b; pret (inl (buf_len - 1))
      | None => fault
      end) fuel (Z.of_nat (length buf)).

(** From the digits to the output: the width that is left on the right. *)
Definition int_output (flags c : Z) (buf : list Z) (width prec : Z) : P S Z :=
  let buf_len := Z.of_nat (length buf) in
  let len := buf_len in
  let '(flags, len) :=
    if has flags FL_PREC then
      let flags := without flags FL_ZFILL in
      if len <? prec then (if c =? 0 then without flags FL_ALT else flags, prec) else (flags, len)
    else (flags, len) in
  do len <- int_
    (if has flags FL_ALT then len + 1 + (if negb (c =? 0) then 1 else 0)
     else if has flags (Z.lor FL_NEGATIVE (Z.lor FL_PLUS FL_SPACE)) then len + 1
     else len);
  pdo '(len, prec) <-
    (if negb (has flags FL_LPAD) then
       let '(len, prec) :=
         if has flags FL_ZFILL then
           if len <? width then (width, buf_len + (width - len)) else (len, buf_len)
         else (len, prec) in
       pdo len <- pad_left len width;
       pret (len, prec)
     else pret (len, prec));
  let width := width - len in
  prun put_prefix flags c;
  prun put_zeros prec buf_len;
  prun put_buf buf;
  pret width.

(** The width that is left on the right, or [None] for [continue]. *)
Definition printf_int (c flags width prec : Z) : P S (option Z) :=
  pdo x <- int_digits c flags prec;
  match x with
  | None =>
      prun my_putc 37;
      prun my_putc c;
      pret None
  | Some (flags, c, buf) =>
      pdo width <- int_output flags c buf width prec;
      pret (Some width)
  end.

(** [while (width-- > 0) my_putc(' ', stream);] *)
Definition pad_right (width : Z) : P S unit :=
  ploop (fun width =>
    if 0 <? width then
      prun my_putc 32;
      pret (inl (width - 1))
    else pret (inr tt)) fuel width.

(** ** vfprintf *)

(** Up to the next specification: its first character, or [None] at the end. *)
Definition literal (fmt : list Z) : P S (option (Z * list Z)) :=
  ploop (fun fmt =>
    pdo '(c, fmt) <- fetch fmt;
    if c =? 0 then pret (inr None)
    else if c =? 37 then
      pdo '(c, fmt) <- fetch fmt;
      if negb (c =? 37) then pret (inr (Some (c, fmt)))
      else prun my_putc c; pret (inl fmt)
    else prun my_putc c; pret (inl fmt)) fuel fmt.

Definition is_float_conv (c : Z) : bool :=
  ((101 <=? TOLOWER c) && (TOLOWER c <=? 103)) || (need_c99 && (TOLOWER c =? 97)).

(** The conversion: the width left on the right, or [None] for [continue]. *)
Definition conversion (c flags width prec : Z) : P S (option Z) :=
  if is_float_conv c then
    prun va_double;
    pdo w <- str_lpad flags width 7 float_text;
    pret (Some w)
  else if c =? 99 then pdo w <- printf_char flags width; pret (Some w)
  else if c =? 115 then pdo w <- printf_str flags width prec; pret (Some w)
  else printf_int c flags width prec.

(** One pass of the outer loop; [None] is the end of the output. *)
Definition format_step (fmt : list Z) : P S (option (list Z)) :=
  pdo x <- literal fmt;
  match x with
  | None => pret None
  | Some (c, fmt) =>
      pdo y <- scan_spec c fmt;
      match y with
      | None => pret None
      | Some (c, flags, width, prec, fmt) =>
          let '(prec, flags) := if prec <? 0 then (0, without flags FL_PREC) else (prec, flags) in
          pdo '(width, flags) <-
            (if width <? 0 then
               do width <- int_ (- width);
               pret (width, Z.lor flags FL_LPAD)
             else pret (width, flags));
          pdo w <- conversion c flags width prec;
          match w with
          | None => pret (Some fmt)
          | Some width => prun pad_right width; pret (Some fmt)
          end
      end
  end.

Definition format_loop (fmt : list Z) : P S unit :=
  ploop (fun fmt =>
    pdo x <- format_step fmt;
    match x with Some fmt => pret (inl fmt) | None => pret (inr tt) end) fuel fmt.

Definition vfprintf (fmt : list Z) (args : list arg) : C S Z :=
  fun s =>
    if Z.land (str_flags s) 0x0002 =? 0 then Some (-1, s)
    else
      match format_loop fmt (Pst s 0 args) with
      | Some (Some _, st) => Some (stream_len st, p_stream st)
      | Some (None, st) =>
          let s := p_stream st in
          Some (-1, str_set_flags (uwrap 8 (Z.lor (str_flags s) 0x0004)) s)
      | None => None
      end.
End printf.
