(* ===== verification/PrintfSpec.v ===== *)
(** * The output of printf, and what its parts do

    A reference for formatted output: formats as sequences of pieces, and the text
    of each piece for given arguments.  Then a small calculus of output,
    [emits c used l a]: the computation [c] reads the arguments [used], puts the
    characters [l] one by one and returns [a], unless a [put] fails first. *)

From S2P Require Import Prelude CMem Convert Strto Printf.
From stdpp Require Import base list.
From Stdlib Require Import ZArith Lia.

Local Open Scope Z_scope.

(** ** The calculus *)

Section emits.
Context {S : Type} `{PutStream S}.

(** Put the characters in turn, until one fails. *)
Fixpoint outs (l : list Z) : C S bool :=
  match l with
  | [] => ret true
  | c :: l => do r <- str_put (uwrap 8 c); if r <? 0 then ret false else outs l
  end.

Definition emits {A} (c : P S A) (used : list arg) (l : list Z) (a : A) : Prop :=
  forall st rest,
    ap st = used ++ rest -> 0 <= stream_len st -> stream_len st + Z.of_nat (length l) <= INT_MAX ->
    match outs l (p_stream st) with
    | Some (true, s) => c st = Some (Some a, Pst s (stream_len st + Z.of_nat (length l)) rest)
    | Some (false, s) => exists n args, c st = Some (None, Pst s n args)
    | None => c st = None
    end.

Lemma outs_app l1 l2 s :
  outs (l1 ++ l2) s =
  match outs l1 s with Some (true, s') => outs l2 s' | r => r end.
Proof.
  revert s. induction l1 as [|c l1 IH]; intros s; [done|]. cbn [app outs]. unfold bind.
  destruct (str_put (uwrap 8 c) s) as [[r s']|]; [|done]. destruct (r <? 0); [done|]. apply IH.
Qed.

Lemma emits_ret {A} (a : A) : emits (pret a) [] [] a.
Proof. intros [s n args] rest Ha Hn Hl. simpl in *. subst. by rewrite Z.add_0_r. Qed.

(** A computation that reads no argument and puts nothing. *)
Lemma emits_pure {A} (c : P S A) a : (forall st, c st = Some (Some a, st)) -> emits c [] [] a.
Proof. intros Hc st rest Ha Hn Hl. rewrite Hc. by apply emits_ret. Qed.

Lemma emits_bind {A B} (c : P S A) (k : A -> P S B) u1 u2 l1 l2 a b :
  emits c u1 l1 a -> emits (k a) u2 l2 b -> emits (pbind c k) (u1 ++ u2) (l1 ++ l2) b.
Proof.
  intros Hc Hk st rest Ha Hn Hl. rewrite <- app_assoc in Ha. rewrite length_app in *.
  specialize (Hc st _ Ha Hn ltac:(lia)). rewrite outs_app. unfold pbind, bind.
  destruct (outs l1 (p_stream st)) as [[[] s']|]; [|destruct Hc as (n & args & ->)|].
  - rewrite Hc. specialize (Hk (Pst s' (stream_len st + Z.of_nat (length l1)) (u2 ++ rest)) rest). simpl in Hk.
    specialize (Hk eq_refl ltac:(lia) ltac:(lia)).
    replace (stream_len st + Z.of_nat (length l1 + length l2)) with (stream_len st + Z.of_nat (length l1) + Z.of_nat (length l2)) by lia.
    done.
  - by exists n, args.
  - by rewrite Hc.
Qed.

(** The same with the next computation first known to be quiet. *)
Lemma emits_quiet {A B} (c : P S A) (k : A -> P S B) u l a b :
  emits c [] [] a -> emits (k a) u l b -> emits (pbind c k) u l b.
Proof. apply (emits_bind c k [] u [] l). Qed.

Lemma emits_read {A B} (c : P S A) (k : A -> P S B) u1 u2 l a b :
  emits c u1 [] a -> emits (k a) u2 l b -> emits (pbind c k) (u1 ++ u2) l b.
Proof. apply (emits_bind c k u1 u2 [] l). Qed.

Lemma emits_out {A B} (c : P S A) (k : A -> P S B) l1 l2 a b :
  emits c [] l1 a -> emits (k a) [] l2 b -> emits (pbind c k) [] (l1 ++ l2) b.
Proof. apply (emits_bind c k [] [] l1 l2). Qed.

(** An integer that fits. *)
Lemma emits_int {B} x (k : Z -> P S B) u l b :
  fits_int x = true -> emits (k x) u l b -> emits (bind (int_ x) k) u l b.
Proof. intros Hx Hk. unfold int_. rewrite Hx. exact Hk. Qed.

Lemma emits_eq {A} (c : P S A) u u' l l' a a' :
  u = u' -> l = l' -> a = a' -> emits c u l a -> emits c u' l' a'.
Proof. by intros -> -> ->. Qed.

Lemma emits_putc c : emits (my_putc c) [] [c] tt.
Proof.
  intros [s n args] rest Ha Hn Hl. simpl in *. subst. unfold my_putc, bind. cbn [stream_len p_stream ap].
  assert (fits_int (n + 1) = true) as ->.
  { unfold fits_int, INT_MIN, INT_MAX in *. apply andb_true_iff. rewrite !Z.leb_le. lia. }
  destruct (str_put (uwrap 8 c) s) as [[r s']|]; [|done]. destruct (r <? 0); simpl; [by exists (n + 1), rest|done].
Qed.

Lemma ploop_S {T R} (body : T -> P S (T + R)) f st s :
  ploop body (Datatypes.S f) st s =
  match body st s with
  | Some (Some (inl st'), s') => ploop body f st' s'
  | Some (Some (inr r), s') => Some (Some r, s')
  | Some (None, s') => Some (None, s')
  | None => None
  end.
Proof.
  unfold ploop at 1. rewrite loop_S. unfold bind.
  destruct (body st s) as [[[[]|] s']|]; done.
Qed.

Lemma emits_go {T R} (body : T -> P S (T + R)) f st st' u1 u2 l1 l2 r :
  emits (body st) u1 l1 (inl st') -> emits (ploop body f st') u2 l2 r ->
  emits (ploop body (Datatypes.S f) st) (u1 ++ u2) (l1 ++ l2) r.
Proof.
  intros Hb Hl. pose proof (emits_bind (body st) (fun x => match x with inl st' => ploop body f st' | inr r => pret r end)
    u1 u2 l1 l2 (inl st') r Hb Hl) as Hc.
  intros s rest Ha Hn Hlen. specialize (Hc s rest Ha Hn Hlen). rewrite ploop_S. unfold pbind, bind in Hc.
  destruct (body st s) as [[[[]|] s']|]; exact Hc.
Qed.

Lemma emits_stop {T R} (body : T -> P S (T + R)) f st u l r :
  emits (body st) u l (inr r) -> emits (ploop body (Datatypes.S f) st) u l r.
Proof.
  intros Hb s rest Ha Hn Hlen. specialize (Hb s rest Ha Hn Hlen). rewrite ploop_S.
  destruct (outs l (p_stream s)) as [[[] ?]|]; [by rewrite Hb|destruct Hb as (n & args & ->); by exists n, args|by rewrite Hb].
Qed.

(** A loop that puts the same character [n] times. *)
Lemma emits_fill {R} (test : Z -> bool) (d c : Z) (res : Z -> R) (n : nat) : forall f z,
  (n < f)%nat -> (forall i : nat, (i < n)%nat -> test (z + d * Z.of_nat i) = true) -> test (z + d * Z.of_nat n) = false ->
  emits (ploop (fun z => if test z then prun my_putc c; pret (inl (z + d)) else pret (inr (res z))) f z)
    [] (replicate n c) (res (z + d * Z.of_nat n)).
Proof.
  induction n as [|n IH]; intros [|f] z Hf Ht Hfalse; try lia.
  - apply emits_stop. replace (z + d * Z.of_nat 0) with z in * by lia. rewrite Hfalse. apply emits_ret.
  - apply (emits_go _ f z (z + d) [] [] [c]).
    + specialize (Ht 0%nat ltac:(lia)). replace (z + d * Z.of_nat 0) with z in Ht by lia. rewrite Ht.
      apply (emits_out _ _ [c] [] tt); [apply emits_putc|apply emits_ret].
    + replace (z + d * Z.of_nat (Datatypes.S n)) with (z + d + d * Z.of_nat n) in * by lia.
      apply IH; [lia| |done]. intros i Hi. specialize (Ht (Datatypes.S i) ltac:(lia)). rewrite <- Ht. f_equal. lia.
Qed.

Lemma emits_fill_eq {R} (body : Z -> P S (Z + R)) (test : Z -> bool) (d c : Z) (res : Z -> R) (n : nat) f z r :
  (forall z, body z = if test z then prun my_putc c; pret (inl (z + d)) else pret (inr (res z))) ->
  (n < f)%nat -> (forall i : nat, (i < n)%nat -> test (z + d * Z.of_nat i) = true) -> test (z + d * Z.of_nat n) = false ->
  r = res (z + d * Z.of_nat n) -> emits (ploop body f z) [] (replicate n c) r.
Proof.
  intros Hb Hf Ht Hfalse ->. intros st rest Ha Hn Hl.
  assert (ploop body f z st = ploop (fun z => if test z then prun my_putc c; pret (inl (z + d)) else pret (inr (res z))) f z st) as ->.
  { clear -Hb. revert z st. induction f as [|f IH]; intros z st; [done|]. rewrite !ploop_S, Hb.
    match goal with |- match ?c with Some _ => _ | None => _ end = _ => destruct c as [[[[]|] ?]|]; [apply IH|done..] end. }
  by apply emits_fill.
Qed.
End emits.

(** ** The reference *)

(** The digits of a number, least significant first; 64 are enough for the
    numbers of the library. *)
Fixpoint lsf_digits (k : nat) (base v : Z) : list Z :=
  match k with
  | O => []
  | S k => v mod base :: (if v / base =? 0 then [] else lsf_digits k base (v / base))
  end.

Definition digit_text (upper : bool) (d : Z) : Z :=
  if d <? 10 then 48 + d else if upper then 65 + (d - 10) else 97 + (d - 10).

Definition lsf_text (base : Z) (upper : bool) (v : Z) : list Z :=
  map (digit_text upper) (lsf_digits 64 base v).

(** The fields of a conversion specification. *)
Inductive fwidth := WNone | WNum (n : list Z) | WStar.
Inductive fprec := PNone | PNum (n : list Z) | PStar.
Inductive fsize := SNone | SHH | SH | SL | SLL | SBigL | SJ | SZ | ST.
Inductive fconv := Fd | Fi | Fu | Fo | Fx | FX | Fp | Fb | FB | Fc | Fs | Ffloat (c : Z).

#[global] Instance fconv_eq_dec : EqDecision fconv.
Proof. solve_decision. Defined.

Record directive := Dir {
  d_flags : list Z;
  d_width : fwidth;
  d_prec : fprec;
  d_size : fsize;
  d_conv : fconv }.

Inductive piece := Lit (c : Z) | Percent | Conv (d : directive).

(** *** The text of a format *)

Definition dec_text (n : list Z) : list Z := map (fun d => d + 48) n.
Definition width_text (w : fwidth) : list Z :=
  match w with WNone => [] | WNum n => dec_text n | WStar => [42] end.
Definition prec_text (p : fprec) : list Z :=
  match p with PNone => [] | PNum n => 46 :: dec_text n | PStar => [46; 42] end.
Definition size_text (s : fsize) : list Z :=
  match s with
  | SNone => [] | SHH => [104; 104] | SH => [104] | SL => [108] | SLL => [108; 108]
  | SBigL => [76] | SJ => [106] | SZ => [122] | ST => [116]
  end.
Definition conv_char (c : fconv) : Z :=
  match c with
  | Fd => 100 | Fi => 105 | Fu => 117 | Fo => 111 | Fx => 120 | FX => 88 | Fp => 112
  | Fb => 98 | FB => 66 | Fc => 99 | Fs => 115 | Ffloat c => c
  end.

Definition dir_text (d : directive) : list Z :=
  d_flags d ++ width_text (d_width d) ++ prec_text (d_prec d) ++ size_text (d_size d) ++ [conv_char (d_conv d)].
Definition piece_text (p : piece) : list Z :=
  match p with Lit c => [c] | Percent => [37; 37] | Conv d => 37 :: dir_text d end.
Definition format_text (ps : list piece) : list Z := flat_map piece_text ps.

(** *** The output *)

Section reference.
Context `{Arch}.
Variables (need_long_long need_c99 need_percent_b : bool).

(** The promoted type of an integer argument and the number of bits of it that
    count. *)
Inductive kind := KInt | KLong | KLLong.
Definition size_kind (s : fsize) : kind * Z :=
  match s with
  | SNone => (KInt, 32)
  | SHH => (KInt, 8)
  | SH => (KInt, 16)
  | SL => (KLong, long_bits)
  | SLL | SBigL => (KLLong, if need_long_long then 64 else long_bits)
  | SJ => if long64 then (KLong, 64) else (KLLong, if need_long_long then 64 else long_bits)
  | SZ | ST => if long64 then (KLong, 64) else (KInt, 32)
  end.
Definition of_kind (k : kind) (a : arg) : option Z :=
  match k, a with
  | KInt, AInt x | KLong, ALong x | KLLong, ALLong x => Some x
  | _, _ => None
  end.

Definition dec_value (n : list Z) : Z := horner 10 0 n.

(** Width and precision with the arguments they take; a negative width asks for
    left adjustment, a negative precision is none. *)
Definition get_width (w : fwidth) (args : list arg) : option (Z * list arg) :=
  match w, args with
  | WNone, _ => Some (0, args)
  | WNum n, _ => Some (dec_value n, args)
  | WStar, AInt x :: args => Some (swrap 32 x, args)
  | WStar, _ => None
  end.
Definition get_prec (p : fprec) (args : list arg) : option (option Z * list arg) :=
  match p, args with
  | PNone, _ => Some (None, args)
  | PNum n, _ => Some (Some (dec_value n), args)
  | PStar, AInt x :: args => Some (if swrap 32 x <? 0 then None else Some (swrap 32 x), args)
  | PStar, _ => None
  end.

Definition spaces (n : Z) : list Z := replicate (Z.to_nat n) 32.
Definition zeros (n : Z) : list Z := replicate (Z.to_nat n) 48.

(** A text in a field of at least [width] characters. *)
Definition field (minus : bool) (width : Z) (l : list Z) : list Z :=
  let n := width - Z.of_nat (length l) in
  if minus then l ++ spaces n else spaces n ++ l.

(** A number: sign, prefix, leading zeros and digits in a field.  The precision is
    the least number of digits; without one, the zero flag fills the field. *)
Definition number_field (minus zero : bool) (width : Z) (prec : option Z) (sign prefix digits : list Z) : list Z :=
  let pre := sign ++ prefix in
  match prec with
  | Some p => field minus width (pre ++ zeros (p - Z.of_nat (length digits)) ++ digits)
  | None =>
      if zero && negb minus then pre ++ zeros (width - Z.of_nat (length (pre ++ digits))) ++ digits
      else field minus width (pre ++ digits)
  end.

(** The digits of [v], least significant first: none for zero with precision
    zero. *)
Definition value_text (base : Z) (upper : bool) (v : Z) (prec : option Z) : list Z :=
  if (v =? 0) && bool_decide (prec = Some 0) then [] else rev (lsf_text base upper v).

(** The conversions of unsigned numbers: base, case, and the prefix of the
    alternative form of a number other than zero. *)
Definition unsigned_conv (c : fconv) : option (Z * bool * list Z) :=
  match c with
  | Fu => Some (10, false, [])
  | Fo => Some (8, false, [48])
  | Fx | Fp => Some (16, false, [48; 120])
  | FX => Some (16, true, [48; 88])
  | Fb => Some (2, false, [48; 98])
  | FB => Some (2, false, [48; 66])
  | _ => None
  end.

Definition mem_flag (c : Z) (d : directive) : bool := existsb (Z.eqb c) (d_flags d).

(** The prefix of octal only makes the first digit a zero. *)
Definition alt_prefix (d : directive) (v : Z) (prec : option Z) (digits prefix : list Z) : list Z :=
  if (mem_flag 35 d || bool_decide (d_conv d = Fp)) && negb (v =? 0) then
    if bool_decide (d_conv d = Fo) && match prec with Some p => Z.of_nat (length digits) <? p | None => false end then []
    else prefix
  else [].

Definition sign_text (d : directive) (neg : bool) : list Z :=
  if neg then [45] else if mem_flag 43 d then [43] else if mem_flag 32 d then [32] else [].

(** The string up to its end or to the precision, or [None] when neither comes
    before the end of the array. *)
Fixpoint string_upto (s : list Z) (n : Z) : option (list Z) :=
  if n =? 0 then Some []
  else
    match s with
    | [] => None
    | b :: s => if b =? 0 then Some [] else match string_upto s (n - 1) with Some t => Some (b :: t) | None => None end
    end.

(** The text of a conversion whose width, flag '-' and precision are known, and
    the arguments that are left. *)
Definition render_conv (d : directive) (minus : bool) (width : Z) (prec : option Z) (args : list arg) :
    option (list Z * list arg) :=
  match d_conv d, args with
  | (Fd | Fi), a :: args =>
      let '(k, w) := size_kind (d_size d) in
      match of_kind k a with
      | Some x =>
          let v := swrap w x in
          let digits := value_text 10 false (Z.abs v) prec in
          Some (number_field minus (mem_flag 48 d) width prec (sign_text d (v <? 0)) [] digits, args)
      | None => None
      end
  | Fc, AInt x :: args => Some (field minus width [uwrap 8 x], args)
  | Fs, AStr s :: args =>
      match string_upto (match s with Some s => s | None => null_text end)
                        (match prec with Some p => p | None => 2 ^ long_bits - 1 end) with
      | Some t => Some (field minus width t, args)
      | None => None
      end
  | Ffloat _, ADouble _ :: args => Some (field minus width (take 7 float_text), args)
  | c, a :: args =>
      match unsigned_conv c,
            (match c with
             | Fp => match a with APtr p => Some (uwrap long_bits p) | _ => None end
             | _ => let '(k, w) := size_kind (d_size d) in
                    match of_kind k a with Some x => Some (uwrap w x) | None => None end
             end) with
      | Some (base, upper, prefix), Some v =>
          let digits := value_text base upper v prec in
          Some (number_field minus (mem_flag 48 d) width prec [] (alt_prefix d v prec digits prefix) digits, args)
      | _, _ => None
      end
  | _, [] => None
  end.

Definition render (d : directive) (args : list arg) : option (list Z * list arg) :=
  match get_width (d_width d) args with
  | Some (w, args) =>
      match get_prec (d_prec d) args with
      | Some (p, args) => render_conv d (mem_flag 45 d || (w <? 0)) (Z.abs w) p args
      | None => None
      end
  | None => None
  end.

Definition render_piece (p : piece) (args : list arg) : option (list Z * list arg) :=
  match p with
  | Lit c => Some ([c], args)
  | Percent => Some ([37], args)
  | Conv d => render d args
  end.

Fixpoint render_format (ps : list piece) (args : list arg) : option (list Z * list arg) :=
  match ps with
  | [] => Some ([], args)
  | p :: ps =>
      match render_piece p args with
      | Some (l, args) =>
          match render_format ps args with
          | Some (l', args) => Some (l ++ l', args)
          | None => None
          end
      | None => None
      end
  end.

(** *** Well-formed formats *)

Definition is_flag_char (c : Z) : bool := existsb (Z.eqb c) [48; 43; 32; 45; 35; 39].
Definition dec_ok (n : list Z) : bool :=
  forallb (fun d => (0 <=? d) && (d <=? 9)) n && (dec_value n <=? INT_MAX).

Definition dir_ok (d : directive) : bool :=
  forallb is_flag_char (d_flags d) &&
  match d_width d with WNum n => dec_ok n && (0 <? hd 0 n) | _ => true end &&
  match d_prec d with PNum n => dec_ok n | _ => true end &&
  match d_size d with SJ | SZ | ST => need_c99 | _ => true end &&
  match d_conv d with
  | Fb | FB => need_percent_b
  | Fp | Fc | Fs => match d_size d with SNone => true | _ => false end
  | Ffloat c => is_float_conv need_c99 c && (65 <=? c) && (c <=? 122) && match d_size d with SNone => true | _ => false end
  | _ => true
  end.
Definition piece_ok (p : piece) : bool :=
  match p with
  | Lit c => (0 <? c) && (c <? 256) && negb (c =? 37)
  | Percent => true
  | Conv d => dir_ok d
  end.
End reference.
