(* ===== verification/PrintfConv.v ===== *)
(** * The parts of vfprintf compute the reference

    Digits, conversion specifications, and each kind of conversion. *)

From S2P Require Import Prelude CMem StrLocal Convert Strto Printf PrintfSpec.
From stdpp Require Import base list.
From Stdlib Require Import ZArith Lia.

Local Open Scope Z_scope.

Lemma lor_lt (k : Z) a b : 0 <= k -> 0 <= a < 2 ^ k -> 0 <= b < 2 ^ k -> 0 <= Z.lor a b < 2 ^ k.
Proof.
  intros Hk Ha Hb. replace (Z.lor a b) with (Z.lor a b mod 2 ^ k); [apply Z.mod_pos_bound; lia|].
  by rewrite <- Z.land_ones, Z.land_lor_distr_l, !Z.land_ones, !Z.mod_small by lia.
Qed.

(** ** Division by ten by shifts *)

Lemma udivmod10_spec w n :
  w = 32 \/ w = 64 -> 0 <= n < 2 ^ w -> udivmod10 w n = (n / 10, n mod 10).
Proof.
  intros Hw Hn. unfold udivmod10. rewrite !Z.shiftr_div_pow2, !Z.shiftl_mul_pow2 by lia.
  change (2 ^ 1) with 2. change (2 ^ 2) with 4. change (2 ^ 3) with 8. change (2 ^ 4) with 16.
  change (2 ^ 8) with 256. change (2 ^ 16) with 65536. change (2 ^ 32) with 4294967296.
  set (q1 := n / 2 + n / 4). assert (0 <= q1 /\ 4 * q1 <= 3 * n /\ 3 * n - 5 <= 4 * q1) as H1 by (subst q1; Z.to_euclidean_division_equations; lia).
  rewrite (uwrap_small w q1) by lia.
  set (q2 := q1 + q1 / 16). assert (0 <= q2 /\ 16 * q2 <= 17 * q1 /\ 17 * q1 - 15 <= 16 * q2) as H2 by (subst q2; Z.to_euclidean_division_equations; lia).
  rewrite (uwrap_small w q2) by lia.
  set (q3 := q2 + q2 / 256). assert (0 <= q3 /\ 256 * q3 <= 257 * q2 /\ 257 * q2 - 255 <= 256 * q3) as H3 by (subst q3; Z.to_euclidean_division_equations; lia).
  rewrite (uwrap_small w q3) by lia.
  set (q4 := q3 + q3 / 65536).
  assert (0 <= q4 /\ 65536 * q4 <= 65537 * q3 /\ 65537 * q3 - 65535 <= 65536 * q4) as H4 by (subst q4; Z.to_euclidean_division_equations; lia).
  rewrite (uwrap_small w q4) by lia. clearbody q1 q2 q3 q4.
  set (q5 := if 32 <? w then _ else _).
  assert (0 <= q5 /\ 10 * q5 <= 8 * n /\ 8 * n - 79 < 10 * q5 ) as H5.
  { subst q5. destruct Hw as [-> | ->]; [change (32 <? 32) with false; cbv iota; change (2 ^ 32) with 4294967296 in Hn; lia|].
    change (32 <? 64) with true. cbv iota. change (2 ^ 64) with 18446744073709551616 in *.
    set (x := q4 + q4 / 4294967296).
    assert (0 <= x /\ 4294967296 * x <= 4294967297 * q4 /\ 4294967297 * q4 - 4294967295 <= 4294967296 * x) as H6
      by (subst x; Z.to_euclidean_division_equations; lia).
    clearbody x. rewrite uwrap_small; [lia|]. change (2 ^ 64) with 18446744073709551616. lia. }
  clearbody q5. clear H1 H2 H3 H4 q1 q2 q3 q4.
  set (q := q5 / 8). assert (0 <= q /\ 8 * q <= q5 /\ q5 - 7 <= 8 * q) as H6 by (subst q; Z.to_euclidean_division_equations; lia).
  clearbody q. assert (0 <= n - 10 * q <= 19) as H7 by lia.
  assert (2 ^ w >= 4294967296) as Hbig by (destruct Hw as [-> | ->]; lia).
  rewrite (uwrap_small w (q * 4)) by lia. rewrite (uwrap_small w (q * 4 + q)) by lia.
  rewrite (uwrap_small w ((q * 4 + q) * 2)) by lia. rewrite (uwrap_small w (n - _)) by lia.
  rewrite uwrap_small by lia. pose proof (Z.div_mod n 10 ltac:(lia)). pose proof (Z.mod_pos_bound n 10 ltac:(lia)).
  destruct (Z.ltb_spec 9 (n - (q * 4 + q) * 2)); [rewrite uwrap_small by lia|]; apply f_equal2; lia.
Qed.

Lemma udivmod_spec w val base :
  w = 32 \/ w = 64 -> 0 <= val < 2 ^ w -> base = 2 \/ base = 8 \/ base = 10 \/ base = 16 ->
  udivmod w val base = (val / base, val mod base).
Proof.
  intros Hw Hv [-> | [-> | [-> | ->]]]; unfold udivmod; cbv [Z.eqb Pos.eqb]; [..|by apply udivmod10_spec|];
    rewrite Z.shiftr_div_pow2 by lia; apply f_equal2; try done.
  1: change 1 with (Z.ones 1). 2: change 7 with (Z.ones 3). 3: change 15 with (Z.ones 4).
  all: by rewrite Z.land_ones by lia.
Qed.

(** ** Digits *)

Section conv.
Context `{Arch}.
Variables (need_long_long need_c99 need_percent_b fancy_divmod : bool).
Context {S : Type} `{PutStream S}.
Variable fuel : nat.

Abbreviation ultoa_bits := (ultoa_bits need_long_long).

Lemma ultoa_bits_cases : ultoa_bits = 32 \/ ultoa_bits = 64.
Proof. unfold Printf.ultoa_bits, long_bits, long_size. destruct need_long_long, long64; auto. Qed.

Lemma long_bits_ultoa : long_bits <= ultoa_bits.
Proof. unfold Printf.ultoa_bits, long_bits, long_size. destruct need_long_long, long64; lia. Qed.

(** The number of digits that fit. *)
Lemma lsf_digits_enough base v (k k' : nat) :
  2 <= base -> 0 <= v < base ^ Z.of_nat k -> (0 < k <= k')%nat -> lsf_digits k base v = lsf_digits k' base v.
Proof.
  intros Hb. revert v k'. induction k as [|k IH]; intros v [|k'] Hv Hk; try lia. cbn [lsf_digits]. f_equal.
  destruct (Z.eqb_spec (v / base) 0) as [E|E]; [done|].
  pose proof (Z.div_pos v base ltac:(lia) ltac:(lia)).
  rewrite Nat2Z.inj_succ, Z.pow_succ_r in Hv by lia.
  assert (v / base < base ^ Z.of_nat k) as Hlt by (apply Z.div_lt_upper_bound; lia).
  destruct k as [|k]; [simpl in Hlt; lia|]. apply IH; lia.
Qed.

Lemma lsf_digits_length base v k : (length (lsf_digits k base v) <= k)%nat.
Proof. revert v. induction k as [|k IH]; intros v; simpl; [lia|]. destruct (_ =? 0); simpl; [lia|]. specialize (IH (v / base)). lia. Qed.

(** They are the digits of the number. *)
Lemma lsf_digits_of base v (k : nat) :
  2 <= base -> 0 <= v < base ^ Z.of_nat k -> (0 < k)%nat -> digits_of base v (lsf_digits k base v).
Proof.
  intros Hb. revert v. induction k as [|k IH]; intros v Hv Hk; [lia|]. cbn [lsf_digits].
  pose proof (Z.div_pos v base ltac:(lia) ltac:(lia)). pose proof (Z.div_mod v base ltac:(lia)) as Hdm.
  pose proof (Z.mod_pos_bound v base ltac:(lia)).
  destruct (Z.eqb_spec (v / base) 0) as [E|E].
  - rewrite E, Z.mul_0_r in Hdm. assert (v mod base = v) as -> by lia. apply digits_one; lia.
  - rewrite Nat2Z.inj_succ, Z.pow_succ_r in Hv by lia.
    assert (v / base < base ^ Z.of_nat k) as Hlt by (apply Z.div_lt_upper_bound; lia).
    destruct k as [|k]; [simpl in Hlt; lia|]. apply digits_cons; [lia..|]. apply IH; lia.
Qed.

(** [base] as the code has it: 48 stands for 16 with capital letters. *)
Definition code_base (base : Z) (upper : bool) : Z := if upper then Z.lor base 32 else base.

Definition base_ok (base : Z) (upper : bool) : Prop :=
  (base = 2 /\ need_percent_b = true /\ upper = false) \/ (base = 8 /\ upper = false) \/ (base = 10 /\ upper = false) \/ base = 16.

Lemma ultoa_loop base upper (k : nat) : forall f v prev st,
  base_ok base upper -> (0 < k <= f)%nat -> 0 <= v < 2 ^ ultoa_bits -> v < base ^ Z.of_nat k ->
  Z.of_nat (length prev) + Z.of_nat k <= PRINTF_BUF_SIZE need_long_long need_percent_b ->
  ploop (S := S) (fun '(val, buf) =>
    let '(val, v) := if fancy_divmod then udivmod ultoa_bits val base else (val / base, val mod base) in
    let v := if 9 <? v then v + (97 - 48 - 10 + 16 - code_base base upper) else v in
    let v := v + 48 in
    if PRINTF_BUF_SIZE need_long_long need_percent_b <=? Z.of_nat (length buf) then fault
    else
      let buf := buf ++ [v] in
      pret (if negb (val =? 0) then inl (val, buf) else inr buf)) f (v, prev) st =
  Some (Some (prev ++ map (digit_text upper) (lsf_digits k base v)), st).
Proof.
  induction k as [|k IH]; intros [|f] v prev st Hb Hk Hv Hlt Hbuf; try lia. rewrite ploop_S.
  assert ((if fancy_divmod then udivmod ultoa_bits v base else (v / base, v mod base)) = (v / base, v mod base)) as ->.
  { destruct fancy_divmod; [|done]. apply udivmod_spec; [apply ultoa_bits_cases|done|]. unfold base_ok in Hb. lia. }
  assert (2 <= base <= 16) as Hbr by (unfold base_ok in Hb; lia).
  pose proof (Z.mod_pos_bound v base ltac:(lia)) as Hm. pose proof (Z.div_pos v base ltac:(lia) ltac:(lia)) as Hd.
  cbv zeta. rewrite (proj2 (Z.leb_gt _ _)) by lia.
  assert ((if 9 <? v mod base then v mod base + (97 - 48 - 10 + 16 - code_base base upper) else v mod base) + 48 = digit_text upper (v mod base)) as ->.
  { unfold digit_text. destruct (Z.ltb_spec 9 (v mod base)), (Z.ltb_spec (v mod base) 10); try lia.
    assert (base = 16) as -> by (unfold base_ok in Hb; lia). unfold code_base. destruct upper; [change (Z.lor 16 32) with 48|]; lia. }
  cbn [lsf_digits map]. unfold pret, ret. destruct (Z.eqb_spec (v / base) 0) as [E|E]; cbn [negb]; [done|].
  rewrite Nat2Z.inj_succ, Z.pow_succ_r in Hlt by lia.
  assert (v / base < base ^ Z.of_nat k) as Hlt' by (apply Z.div_lt_upper_bound; lia).
  destruct k as [|k']; [simpl in Hlt'; lia|].
  assert (v / base <= v) by (apply Z.div_le_upper_bound; nia).
  etransitivity; [apply (IH f (v / base) (prev ++ [digit_text upper (v mod base)]) st Hb)|].
  - lia.
  - lia.
  - done.
  - rewrite length_app. simpl. lia.
  - rewrite <- app_assoc. done.
Qed.

Lemma ultoa_spec base upper v :
  (64 < fuel)%nat -> base_ok base upper -> 0 <= v < 2 ^ ultoa_bits ->
  emits (__ultoa_invert need_long_long need_percent_b fancy_divmod fuel v (code_base base upper)) [] [] (lsf_text base upper v).
Proof.
  intros fuel_64 Hb Hv. apply emits_pure. intros st. unfold __ultoa_invert.
  assert (Z.land (code_base base upper) 31 = base) as ->.
  { destruct Hb as [(-> & _ & ->) | [(-> & ->) | [(-> & ->) | ->]]]; [done..|]. by destruct upper. }
  set (k := Z.to_nat (PRINTF_BUF_SIZE need_long_long need_percent_b)).
  assert (0 < k <= 64)%nat as Hk.
  { subst k. unfold PRINTF_BUF_SIZE. destruct (_ <=? 32), need_percent_b; lia. }
  assert (v < base ^ Z.of_nat k) as Hlt.
  { eapply Z.lt_le_trans; [apply Hv|]. subst k. unfold PRINTF_BUF_SIZE.
    destruct ultoa_bits_cases as [-> | ->]; cbn [Z.leb Z.compare Pos.compare Pos.compare_cont];
    destruct Hb as [(-> & -> & _) | [(-> & _) | [(-> & _) | ->]]]; try destruct need_percent_b; vm_compute; congruence. }
  etransitivity; [apply (ultoa_loop base upper k fuel v [] st Hb)|].
  - lia.
  - done.
  - done.
  - subst k. simpl. unfold PRINTF_BUF_SIZE. destruct (_ <=? 32), need_percent_b; lia.
  - unfold lsf_text. cbn [app]. rewrite (lsf_digits_enough base v k 64); [done|..|lia]; [unfold base_ok in Hb|]; lia.
Qed.

(** ** Conversion specifications *)

Lemma emits_va_int x : emits (va_int (S := S)) [AInt x] [] x.
Proof. intros [s n args] rest Ha Hn Hl. simpl in *. subst args. by rewrite Z.add_0_r. Qed.

Abbreviation scan_iter := (scan_iter need_c99 (S := S)).
Abbreviation scan_step := (scan_step need_c99 (S := S)).

(** The loop with the text [txt] ahead, its first character in hand. *)
Definition scan_at (f : nat) (flags width prec : Z) (txt : list Z) : P S (option (Z * Z * Z * Z * list Z)) :=
  ploop scan_iter f (hd 0 txt, flags, width, prec, tail txt).

(** The rest of a specification starts with a character that is not NUL. *)
Definition goes_on (txt : list Z) : Prop := match txt with c :: _ => c <> 0 | [] => False end.

Lemma scan_next f flags width prec c rest flags' width' prec' u1 u2 r :
  goes_on rest -> emits (scan_step c flags width prec) u1 [] (Continue flags' width' prec') ->
  emits (scan_at f flags' width' prec' rest) u2 [] r ->
  emits (scan_at (Datatypes.S f) flags width prec (c :: rest)) (u1 ++ u2) [] r.
Proof.
  intros Hg Hs Hr. destruct rest as [|c2 t]; [done|]. simpl in Hg. unfold scan_at. cbn [hd tail] in *.
  apply (emits_go _ f _ (c2, flags', width', prec', t) u1 u2 [] []); [|exact Hr].
  unfold Printf.scan_iter. rewrite <- (app_nil_r u1). eapply (emits_read _ _ u1 []); [exact Hs|]. cbv beta iota.
  eapply emits_quiet; [apply emits_ret|]. cbv beta iota. rewrite (proj2 (Z.eqb_neq c2 0)) by done. apply emits_ret.
Qed.

Lemma scan_quiet f flags width prec c rest flags' width' prec' u r :
  goes_on rest -> scan_step c flags width prec = pret (Continue flags' width' prec') ->
  emits (scan_at f flags' width' prec' rest) u [] r ->
  emits (scan_at (Datatypes.S f) flags width prec (c :: rest)) u [] r.
Proof. intros Hg Hs. apply (scan_next f _ _ _ _ _ _ _ _ [] u); [done|]. rewrite Hs. apply emits_ret. Qed.

Definition flag_value (c : Z) : Z := match flag_char c with Some f => f | None => 0 end.
Definition flags_of (l : list Z) (fl : Z) : Z := fold_left (fun fl c => Z.lor fl (flag_value c)) l fl.

Lemma is_flag_value c : is_flag_char c = true -> flag_char c = Some (flag_value c) /\ 0 <= flag_value c < 32.
Proof.
  unfold is_flag_char. simpl. unfold flag_value, flag_char. intros Hc.
  destruct (c =? 48); [done|]. destruct (c =? 43); [done|]. destruct (c =? 32); [done|].
  destruct (c =? 45); [done|]. destruct (c =? 35); [done|]. destruct (c =? 39); done.
Qed.

Lemma goes_on_app l rest : Forall (fun c => c <> 0) l -> goes_on rest -> goes_on (l ++ rest).
Proof. destruct 1; done. Qed.

Lemma flag_chars_nonzero l : forallb is_flag_char l = true -> Forall (fun c => c <> 0) l.
Proof.
  rewrite forallb_forall, Forall_forall. intros Hl c Hc%list_elem_of_In. specialize (Hl c Hc).
  intros ->. discriminate.
Qed.

Lemma scan_flags l : forall f fl width prec rest u r,
  forallb is_flag_char l = true -> 0 <= fl < 32 -> goes_on rest ->
  emits (scan_at f (flags_of l fl) width prec rest) u [] r ->
  emits (scan_at (length l + f) fl width prec (l ++ rest)) u [] r.
Proof.
  induction l as [|c l IH]; intros f fl width prec rest u r Hl Hfl Hg Hr; [done|].
  simpl in Hl. apply andb_true_iff in Hl as [Hc Hl]. destruct (is_flag_value c Hc) as [Ec Hv]. cbn [length app Nat.add].
  apply (scan_quiet _ _ _ _ _ _ (Z.lor fl (flag_value c)) width prec).
  - apply goes_on_app; [by apply flag_chars_nonzero|done].
  - unfold Printf.scan_step. rewrite (proj2 (Z.ltb_lt fl FL_WIDTH)) by (unfold FL_WIDTH; lia). by rewrite Ec.
  - apply IH; [done| |done|done]. by apply (lor_lt 5).
Qed.

Lemma flags_of_range l fl : forallb is_flag_char l = true -> 0 <= fl < 32 -> 0 <= flags_of l fl < 32.
Proof.
  revert fl. induction l as [|c l IH]; intros fl Hl Hfl; [done|]. simpl in Hl. apply andb_true_iff in Hl as [Hc Hl].
  apply IH; [done|]. apply (lor_lt 5); [lia|done|]. by apply is_flag_value.
Qed.

(** The flag of the precision and the order of the flag words. *)
Lemma prec_flag fl : 0 <= fl < 128 -> has fl FL_PREC = (64 <=? fl).
Proof.
  intros Hf. enough ((128 <=? fl) || Bool.eqb (has fl FL_PREC) (64 <=? fl) = true) as E.
  { rewrite (proj2 (Z.leb_gt 128 fl)) in E by lia. by apply eqb_prop in E. }
  revert fl Hf. assert (forall b, is_byte b -> (128 <=? b) || Bool.eqb (has b FL_PREC) (64 <=? b) = true) as Hall
    by (apply all_bytes; vm_compute; reflexivity).
  intros fl Hf. apply Hall. unfold is_byte. lia.
Qed.

Lemma width_flag fl : 0 <= fl < 64 -> 32 <= Z.lor fl FL_WIDTH < 64.
Proof.
  intros Hf. enough ((64 <=? fl) || ((32 <=? Z.lor fl FL_WIDTH) && (Z.lor fl FL_WIDTH <? 64)) = true) as E.
  { rewrite (proj2 (Z.leb_gt 64 fl)) in E by lia. cbn [orb] in E. bool_to_prop. lia. }
  revert fl Hf. assert (forall b, is_byte b -> (64 <=? b) || ((32 <=? Z.lor b FL_WIDTH) && (Z.lor b FL_WIDTH <? 64)) = true) as Hall
    by (apply all_bytes; vm_compute; reflexivity).
  intros fl Hf. apply Hall. unfold is_byte. lia.
Qed.

Lemma prec_set fl : 0 <= fl < 64 -> 64 <= Z.lor fl FL_PREC < 128.
Proof.
  intros Hf. rewrite Z.lor_comm. unfold FL_PREC. rewrite (lor_low 6); [lia|lia|done|done].
Qed.

Lemma next_digit_eq n d :
  0 <= n -> 0 <= d <= 9 -> n * 10 + d <= INT_MAX -> next_digit n (d + 48) = (pret (n * 10 + d) : P S Z).
Proof.
  unfold INT_MAX. intros Hn Hd Hle. unfold next_digit, int_.
  assert (fits_int (10 * n) = true) as ->.
  { unfold fits_int, INT_MIN, INT_MAX. apply andb_true_iff. rewrite !Z.leb_le. lia. }
  change (pret (swrap 32 (uwrap 32 (10 * n) + (d + 48 - 48))) = (pret (n * 10 + d) : P S Z)).
  rewrite uwrap_small by lia. rewrite swrap_small; [f_equal; lia|lia|]. change (2 ^ (32 - 1)) with (2 ^ 31). lia.
Qed.

Lemma dec_nonzero n : Forall (fun d => 0 <= d <= 9) n -> Forall (fun c => c <> 0) (dec_text n).
Proof. intros Hn. apply Forall_fmap. eapply Forall_impl; [exact Hn|]. simpl. lia. Qed.

Lemma digit_char_test d : 0 <= d <= 9 -> ((48 <=? d + 48) && (d + 48 <=? 57)) = true.
Proof. intros. apply andb_true_iff. rewrite !Z.leb_le. lia. Qed.

Lemma horner_cons base v d n : horner base v (d :: n) = horner base (v * base + d) n.
Proof. done. Qed.

Lemma horner_step v d n :
  0 <= v -> Forall (fun d => 0 <= d <= 9) (d :: n) -> horner 10 v (d :: n) <= INT_MAX ->
  v * 10 + d <= INT_MAX /\ Forall (fun d => 0 <= d <= 9) n /\ 0 <= d <= 9 /\ 0 <= v * 10 + d.
Proof.
  intros Hv Hn Hle. inversion_clear Hn as [|? ? Hd Hn']. rewrite horner_cons in Hle.
  pose proof (horner_ge 10 n (v * 10 + d) ltac:(lia) ltac:(lia)) as Hge.
  specialize (Hge ltac:(eapply Forall_impl; [exact Hn'|simpl; lia])). split_and!; try done; lia.
Qed.

(** The digits of a width after its first, and of a precision. *)
Lemma scan_width_digits n : forall f fl width prec rest u r,
  Forall (fun d => 0 <= d <= 9) n -> 32 <= fl < 64 -> 0 <= width -> horner 10 width n <= INT_MAX -> goes_on rest ->
  Z.lor fl FL_WIDTH = fl ->
  emits (scan_at f fl (horner 10 width n) prec rest) u [] r ->
  emits (scan_at (length n + f) fl width prec (dec_text n ++ rest)) u [] r.
Proof.
  induction n as [|d n IH]; intros f fl width prec rest u r Hn Hfl Hw Hle Hg Hlor Hr; [done|].
  destruct (horner_step _ _ _ Hw Hn Hle) as (H1 & H2 & H3 & H4). cbn [dec_text map length app Nat.add].
  apply (scan_quiet _ _ _ _ _ _ fl (width * 10 + d) prec).
  - apply goes_on_app; [by apply dec_nonzero|done].
  - unfold Printf.scan_step. rewrite (proj2 (Z.ltb_ge fl FL_WIDTH)) by (unfold FL_WIDTH; lia).
    rewrite (proj2 (Z.ltb_lt fl FL_LONG)) by (unfold FL_LONG; lia). rewrite digit_char_test by done.
    rewrite prec_flag, (proj2 (Z.leb_gt 64 fl)) by lia. rewrite next_digit_eq by lia. by rewrite Hlor.
  - by apply IH.
Qed.

Lemma scan_prec_digits n : forall f fl width prec rest u r,
  Forall (fun d => 0 <= d <= 9) n -> 64 <= fl < 128 -> 0 <= prec -> horner 10 prec n <= INT_MAX -> goes_on rest ->
  emits (scan_at f fl width (horner 10 prec n) rest) u [] r ->
  emits (scan_at (length n + f) fl width prec (dec_text n ++ rest)) u [] r.
Proof.
  induction n as [|d n IH]; intros f fl width prec rest u r Hn Hfl Hw Hle Hg Hr; [done|].
  destruct (horner_step _ _ _ Hw Hn Hle) as (H1 & H2 & H3 & H4). cbn [dec_text map length app Nat.add].
  apply (scan_quiet _ _ _ _ _ _ fl width (prec * 10 + d)).
  - apply goes_on_app; [by apply dec_nonzero|done].
  - unfold Printf.scan_step. rewrite (proj2 (Z.ltb_ge fl FL_WIDTH)) by (unfold FL_WIDTH; lia).
    rewrite (proj2 (Z.ltb_lt fl FL_LONG)) by (unfold FL_LONG; lia). rewrite digit_char_test by done.
    rewrite prec_flag, (proj2 (Z.leb_le 64 fl)) by lia. by rewrite next_digit_eq by lia.
  - by apply IH.
Qed.

Lemma dec_ok_iff n : dec_ok n = true <-> Forall (fun d => 0 <= d <= 9) n /\ dec_value n <= INT_MAX.
Proof.
  unfold dec_ok. rewrite andb_true_iff, forallb_forall, Z.leb_le, Forall_forall. split; intros [H1 H2]; (split; [|done]).
  - intros d Hd%list_elem_of_In. specialize (H1 d Hd). bool_to_prop. lia.
  - intros d Hd%list_elem_of_In. specialize (H1 d Hd). simpl in H1. apply andb_true_iff. rewrite !Z.leb_le. lia.
Qed.

(** *** The fields *)

Definition width_args (w : fwidth) (x : Z) : list arg := match w with WStar => [AInt x] | _ => [] end.
Definition width_value (w : fwidth) (x : Z) : Z :=
  match w with WNone => 0 | WNum n => dec_value n | WStar => swrap 32 x end.
Definition width_flags (w : fwidth) (fl : Z) : Z := match w with WNone => fl | _ => Z.lor fl FL_WIDTH end.

Lemma scan_width w x f fl prec rest u r :
  match w with WNum n => dec_ok n && (0 <? hd 0 n) | _ => true end = true -> 0 <= fl < 32 -> goes_on rest ->
  emits (scan_at f (width_flags w fl) (width_value w x) prec rest) u [] r ->
  emits (scan_at (length (width_text w) + f) fl 0 prec (width_text w ++ rest)) (width_args w x ++ u) [] r.
Proof.
  intros Hw Hfl Hg Hr. destruct w as [|n|]; [done| |]; cbn [width_text width_args width_flags width_value app] in *.
  - apply andb_true_iff in Hw as [Hn Hd0]. apply dec_ok_iff in Hn as [Hn Hle]. destruct n as [|d n]; [done|].
    apply Z.ltb_lt in Hd0. simpl in Hd0. unfold dec_value in *. destruct (horner_step 0 d n ltac:(lia) Hn Hle) as (H1 & H2 & H3 & H4).
    rewrite horner_cons in *. cbn [dec_text map length app Nat.add].
    apply (scan_quiet _ _ _ _ _ _ (Z.lor fl FL_WIDTH) (0 * 10 + d) prec).
    + apply goes_on_app; [by apply dec_nonzero|done].
    + unfold Printf.scan_step. rewrite (proj2 (Z.ltb_lt fl FL_WIDTH)) by (unfold FL_WIDTH; lia).
      assert (flag_char (d + 48) = None) as ->.
      { unfold flag_char. rewrite !(proj2 (Z.eqb_neq _ _)) by lia. done. }
      rewrite (proj2 (Z.ltb_lt fl FL_LONG)) by (unfold FL_LONG; lia). rewrite digit_char_test by done.
      rewrite prec_flag, (proj2 (Z.leb_gt 64 fl)) by lia. by rewrite next_digit_eq by lia.
    + pose proof (width_flag fl ltac:(lia)). rewrite length_map. fold (dec_text n). apply scan_width_digits; try done; try lia.
      by rewrite <- Z.lor_assoc.
  - apply (scan_next _ _ _ _ _ _ (Z.lor fl FL_WIDTH) (swrap 32 x) prec [AInt x] u); [done| |done].
    unfold Printf.scan_step. rewrite (proj2 (Z.ltb_lt fl FL_WIDTH)) by (unfold FL_WIDTH; lia).
    change (flag_char 42) with (None : option Z). rewrite (proj2 (Z.ltb_lt fl FL_LONG)) by (unfold FL_LONG; lia).
    change ((48 <=? 42) && (42 <=? 57)) with false. change (42 =? 42) with true. cbv iota.
    rewrite prec_flag, (proj2 (Z.leb_gt 64 fl)) by lia.
    apply (emits_read _ _ [AInt x] [] [] x); [apply emits_va_int|apply emits_ret].
Qed.

Definition prec_args (p : fprec) (x : Z) : list arg := match p with PStar => [AInt x] | _ => [] end.
Definition prec_value (p : fprec) (x : Z) : Z :=
  match p with PNone => 0 | PNum n => dec_value n | PStar => swrap 32 x end.
Definition prec_flags (p : fprec) (fl : Z) : Z := match p with PNone => fl | _ => Z.lor fl FL_PREC end.

Lemma scan_prec p x f fl width rest u r :
  match p with PNum n => dec_ok n | _ => true end = true -> 0 <= fl < 64 -> goes_on rest ->
  emits (scan_at f (prec_flags p fl) width (prec_value p x) rest) u [] r ->
  emits (scan_at (length (prec_text p) + f) fl width 0 (prec_text p ++ rest)) (prec_args p x ++ u) [] r.
Proof.
  intros Hp Hfl Hg Hr.
  assert (forall q, scan_step 46 fl width q = pret (Continue (Z.lor fl FL_PREC) width q)) as Hdot.
  { intros q. unfold Printf.scan_step. change (flag_char 46) with (None : option Z).
    replace (if fl <? FL_WIDTH then None else None : option Z) with (None : option Z) by (by destruct (fl <? FL_WIDTH)).
    rewrite (proj2 (Z.ltb_lt fl FL_LONG)) by (unfold FL_LONG; lia).
    change ((48 <=? 46) && (46 <=? 57)) with false. change (46 =? 42) with false. change (46 =? 46) with true. cbv iota.
    by rewrite prec_flag, (proj2 (Z.leb_gt 64 fl)) by lia. }
  pose proof (prec_set fl Hfl) as Hset.
  destruct p as [|n|]; [done| |]; cbn [prec_text prec_args prec_flags prec_value app length Nat.add] in *.
  - apply dec_ok_iff in Hp as [Hn Hle]. apply (scan_quiet _ _ _ _ _ _ _ _ _ _ _ (goes_on_app _ _ (dec_nonzero n Hn) Hg) (Hdot 0)).
    unfold dec_text at 1. rewrite length_map. by apply scan_prec_digits.
  - apply (scan_quiet _ _ _ _ _ (42 :: rest) _ _ _ _ _ ltac:(done) (Hdot 0)).
    apply (scan_next _ _ _ _ _ _ (Z.lor fl FL_PREC) width (swrap 32 x) [AInt x] u); [done| |done].
    unfold Printf.scan_step. rewrite (proj2 (Z.ltb_ge _ FL_WIDTH)) by (unfold FL_WIDTH; lia).
    rewrite (proj2 (Z.ltb_lt _ FL_LONG)) by (unfold FL_LONG; lia).
    change ((48 <=? 42) && (42 <=? 57)) with false. change (42 =? 42) with true. cbv iota.
    rewrite prec_flag, (proj2 (Z.leb_le 64 _)) by lia.
    apply (emits_read _ _ [AInt x] [] [] x); [apply emits_va_int|apply emits_ret].
Qed.
(** *** Length modifiers and the conversion character *)

Lemma scan_letter c fl width prec :
  65 <= c -> scan_step c fl width prec = pret (scan_sizes need_c99 c fl width prec).
Proof.
  intros Hc. unfold Printf.scan_step. assert (flag_char c = None) as ->.
  { unfold flag_char. rewrite !(proj2 (Z.eqb_neq _ _)) by lia. done. }
  replace (if fl <? FL_WIDTH then None else None : option Z) with (None : option Z) by (by destruct (fl <? FL_WIDTH)).
  rewrite (proj2 (Z.leb_gt c 57)), andb_false_r, !(proj2 (Z.eqb_neq c _)) by lia. by destruct (fl <? FL_LONG).
Qed.

Definition size_flags (s : fsize) (fl : Z) : Z :=
  match s with
  | SNone => fl
  | SH => Z.lor fl FL_SHORT
  | SHH => Z.lor (Z.lor (Z.lor fl FL_SHORT) FL_REPD_TYPE) FL_SHORT
  | SL => Z.lor fl FL_LONG
  | SLL => Z.lor (Z.lor (Z.lor fl FL_LONG) FL_REPD_TYPE) FL_LONG
  | SBigL => Z.lor (Z.lor fl FL_REPD_TYPE) FL_LONG
  | SJ => int_size_flags fl 8
  | SZ | ST => int_size_flags fl (Z.of_nat long_size)
  end.

Lemma no_size fl : 0 <= fl < 128 -> has fl FL_SHORT = false /\ has fl FL_LONG = false.
Proof.
  intros Hf. enough ((128 <=? fl) || (negb (has fl FL_SHORT) && negb (has fl FL_LONG)) = true) as E.
  { rewrite (proj2 (Z.leb_gt 128 fl)) in E by lia. cbn [orb] in E. by bool_to_prop. }
  revert fl Hf. assert (forall b, is_byte b -> (128 <=? b) || (negb (has b FL_SHORT) && negb (has b FL_LONG)) = true) as Hall
    by (apply all_bytes; vm_compute; reflexivity).
  intros fl Hf. apply Hall. unfold is_byte. lia.
Qed.

Lemma scan_size s f fl width prec rest u r :
  match s with SJ | SZ | ST => need_c99 | _ => true end = true -> 0 <= fl < 128 -> goes_on rest ->
  emits (scan_at f (size_flags s fl) width prec rest) u [] r ->
  emits (scan_at (length (size_text s) + f) fl width prec (size_text s ++ rest)) u [] r.
Proof.
  intros Hs Hfl Hg Hr. destruct (no_size fl Hfl) as [Hsh Hlo].
  assert (forall c fl fl' f rest, 65 <= c -> check_int_sizes need_c99 c fl = Some fl' -> goes_on rest ->
    emits (scan_at f fl' width prec rest) u [] r -> emits (scan_at (Datatypes.S f) fl width prec (c :: rest)) u [] r) as Hone.
  { intros c fl1 fl' f1 rest1 Hc Hch Hg1. apply scan_quiet; [done|]. rewrite scan_letter by done.
    unfold scan_sizes. by rewrite Hch. }
  destruct s; cbn [size_text size_flags app length Nat.add] in *; try done.
  - apply (Hone 104 fl (Z.lor fl FL_SHORT)); [lia|unfold check_int_sizes; simpl; by rewrite Hsh|done|].
    apply (Hone 104 _ (size_flags SHH fl)); [lia| |done|done].
    unfold check_int_sizes, size_flags. cbn [Z.eqb Pos.eqb]. by rewrite has_lor, orb_true_r.
  - apply (Hone 104 fl (Z.lor fl FL_SHORT)); [lia|unfold check_int_sizes; simpl; by rewrite Hsh|done|done].
  - apply (Hone 108 fl (Z.lor fl FL_LONG)); [lia|unfold check_int_sizes; simpl; by rewrite Hlo|done|done].
  - apply (Hone 108 fl (Z.lor fl FL_LONG)); [lia|unfold check_int_sizes; simpl; by rewrite Hlo|done|].
    apply (Hone 108 _ (size_flags SLL fl)); [lia| |done|done].
    unfold check_int_sizes, size_flags. cbn [Z.eqb Pos.eqb]. by rewrite has_lor, orb_true_r.
  - apply (Hone 76 fl (size_flags SBigL fl)); [lia|done|done|done].
  - apply (Hone 106 fl (size_flags SJ fl)); [lia|unfold check_int_sizes; simpl; by rewrite Hs|done|done].
  - apply (Hone 122 fl (size_flags SZ fl)); [lia|unfold check_int_sizes; simpl; by rewrite Hs|done|done].
  - apply (Hone 116 fl (size_flags ST fl)); [lia|unfold check_int_sizes; simpl; by rewrite Hs|done|done].
Qed.

Definition conv_ok (c : fconv) : bool :=
  match c with Ffloat c => is_float_conv need_c99 c && (65 <=? c) && (c <=? 122) | _ => true end.

Lemma float_conv_chars c :
  is_float_conv need_c99 c = true -> 65 <= c <= 122 ->
  c <> 108 /\ c <> 104 /\ c <> 76 /\ c <> 106 /\ c <> 122 /\ c <> 116.
Proof.
  intros Hc Hr.
  assert (negb (is_float_conv need_c99 c) ||
    (negb (c =? 108) && negb (c =? 104) && negb (c =? 76) && negb (c =? 106) && negb (c =? 122) && negb (c =? 116)) = true) as E.
  { assert (is_byte c) as Hb by (unfold is_byte; lia). clear Hc Hr. revert c Hb.
    apply (all_bytes (fun c => negb (is_float_conv need_c99 c) ||
      (negb (c =? 108) && negb (c =? 104) && negb (c =? 76) && negb (c =? 106) && negb (c =? 122) && negb (c =? 116)))).
    destruct need_c99; vm_compute; reflexivity. }
  rewrite Hc in E. cbn [negb orb] in E. bool_to_prop. done.
Qed.

Lemma conv_char_letter c : conv_ok c = true -> 65 <= conv_char c /\ forall fl, check_int_sizes need_c99 (conv_char c) fl = None.
Proof.
  intros Hc. destruct c as [| | | | | | | | | | |c]; simpl in *; try (split; [lia|]; intros; unfold check_int_sizes; simpl; by destruct need_c99).
  apply andb_true_iff in Hc as [Hc H3]. apply andb_true_iff in Hc as [H1 H2]. bool_to_prop.
  destruct (float_conv_chars c H1 ltac:(lia)) as (? & ? & ? & ? & ? & ?). split; [lia|]. intros fl.
  unfold check_int_sizes. rewrite !(proj2 (Z.eqb_neq c _)) by done. by destruct need_c99.
Qed.

Lemma scan_conv c f fl width prec fmt :
  conv_ok c = true ->
  emits (scan_at (Datatypes.S f) fl width prec (conv_char c :: fmt)) [] [] (Some (conv_char c, fl, width, prec, fmt)).
Proof.
  intros Hc. destruct (conv_char_letter c Hc) as [Hl Hn]. unfold scan_at. apply emits_stop. cbn [hd tail].
  unfold Printf.scan_iter. rewrite scan_letter by done. unfold scan_sizes. rewrite Hn.
  eapply emits_quiet; [apply emits_ret|]. apply emits_ret.
Qed.

(** *** The whole specification *)

Definition dir_flags (d : directive) : Z :=
  size_flags (d_size d) (prec_flags (d_prec d) (width_flags (d_width d) (flags_of (d_flags d) 0))).

Lemma dir_ok_parts d :
  dir_ok need_c99 need_percent_b d = true ->
  forallb is_flag_char (d_flags d) = true /\
  match d_width d with WNum n => dec_ok n && (0 <? hd 0 n) | _ => true end = true /\
  match d_prec d with PNum n => dec_ok n | _ => true end = true /\
  match d_size d with SJ | SZ | ST => need_c99 | _ => true end = true /\ conv_ok (d_conv d) = true.
Proof.
  unfold dir_ok. intros Hd. apply andb_true_iff in Hd as [Hd H5]. apply andb_true_iff in Hd as [Hd H4].
  apply andb_true_iff in Hd as [Hd H3]. apply andb_true_iff in Hd as [H1 H2]. split_and!; try done.
  destruct (d_conv d); try done. simpl. by apply andb_true_iff in H5 as [? _].
Qed.

Lemma width_flags_range w fl : 0 <= fl < 32 -> 0 <= width_flags w fl < 64.
Proof. intros Hf. destruct w; simpl; [lia|pose proof (width_flag fl ltac:(lia)); lia..]. Qed.

Lemma prec_flags_range p fl : 0 <= fl < 64 -> 0 <= prec_flags p fl < 128.
Proof. intros Hf. destruct p; simpl; [lia|pose proof (prec_set fl ltac:(lia)); lia..]. Qed.

Lemma scan_dir d f fmt x y :
  dir_ok need_c99 need_percent_b d = true ->
  emits (scan_at (length (dir_text d) + f) 0 0 0 (dir_text d ++ fmt))
    (width_args (d_width d) x ++ prec_args (d_prec d) y) []
    (Some (conv_char (d_conv d), dir_flags d, width_value (d_width d) x, prec_value (d_prec d) y, fmt)).
Proof.
  intros Hd. destruct (dir_ok_parts d Hd) as (H1 & H2 & H3 & H4 & H5). unfold dir_text. rewrite <- !app_assoc, !length_app.
  assert (goes_on ([conv_char (d_conv d)] ++ fmt)) as G4 by (simpl; destruct (conv_char_letter _ H5); lia).
  assert (goes_on (size_text (d_size d) ++ [conv_char (d_conv d)] ++ fmt)) as G3
    by (apply goes_on_app; [destruct (d_size d); by repeat constructor|done]).
  assert (goes_on (prec_text (d_prec d) ++ size_text (d_size d) ++ [conv_char (d_conv d)] ++ fmt)) as G2.
  { apply goes_on_app; [|done]. destruct (d_prec d) as [|n|]; simpl; [constructor| |by repeat constructor].
    constructor; [done|]. apply dec_nonzero. by apply dec_ok_iff in H3 as [? _]. }
  assert (goes_on (width_text (d_width d) ++ prec_text (d_prec d) ++ size_text (d_size d) ++ [conv_char (d_conv d)] ++ fmt)) as G1.
  { apply goes_on_app; [|done]. destruct (d_width d) as [|n|]; simpl; [constructor| |by repeat constructor].
    apply dec_nonzero. apply andb_true_iff in H2 as [H2 _]. by apply dec_ok_iff in H2 as [? _]. }
  pose proof (flags_of_range (d_flags d) 0 H1 ltac:(lia)) as R1.
  pose proof (width_flags_range (d_width d) _ R1) as R2. pose proof (prec_flags_range (d_prec d) _ R2) as R3.
  rewrite <- !Nat.add_assoc. apply scan_flags; [done|lia|done|]. apply scan_width; [done|done|done|].
  rewrite <- (app_nil_r (prec_args _ _)). apply scan_prec; [done|done|done|]. apply scan_size; [done|done|done|].
  apply (scan_conv (d_conv d) f). done.
Qed.
(** ** Layout of a number *)

Lemma emits_bounded {A} (c : P S A) u l a :
  (Z.of_nat (length l) <= INT_MAX -> emits c u l a) -> emits c u l a.
Proof. intros Hc st rest Ha Hn Hl. by apply Hc; [lia|..]. Qed.

Lemma length_spaces n : Z.of_nat (length (spaces n)) = Z.max 0 n.
Proof. unfold spaces. rewrite length_replicate. lia. Qed.

Lemma length_zeros n : Z.of_nat (length (zeros n)) = Z.max 0 n.
Proof. unfold zeros. rewrite length_replicate. lia. Qed.

Lemma pad_left_spec len width :
  (Z.to_nat (width - len) < fuel)%nat -> emits (pad_left (S := S) fuel len width) [] (spaces (width - len)) (Z.max len width).
Proof.
  intros Hf. unfold pad_left, spaces.
  eapply (emits_fill_eq _ (fun len => len <? width) 1 32 (fun len => len) (Z.to_nat (width - len))); [done|done| | |lia].
  - intros i Hi. apply Z.ltb_lt. lia.
  - apply Z.ltb_ge. lia.
Qed.

Lemma pad_right_spec width :
  (Z.to_nat width < fuel)%nat -> emits (pad_right (S := S) fuel width) [] (spaces width) tt.
Proof.
  intros Hf. unfold pad_right, spaces.
  eapply (emits_fill_eq _ (fun width => 0 <? width) (-1) 32 (fun _ => tt) (Z.to_nat width)); [done|done| | |done].
  - intros i Hi. apply Z.ltb_lt. lia.
  - apply Z.ltb_ge. lia.
Qed.

Lemma put_zeros_spec prec n :
  (Z.to_nat (prec - n) < fuel)%nat -> emits (put_zeros (S := S) fuel prec n) [] (zeros (prec - n)) tt.
Proof.
  intros Hf. unfold put_zeros, zeros.
  eapply (emits_fill_eq _ (fun prec => n <? prec) (-1) 48 (fun _ => tt) (Z.to_nat (prec - n))); [done|done| | |done].
  - intros i Hi. apply Z.ltb_lt. lia.
  - apply Z.ltb_ge. lia.
Qed.

Lemma put_buf_spec buf : (length buf < fuel)%nat -> emits (put_buf (S := S) fuel buf) [] (rev buf) tt.
Proof.
  intros Hf. unfold put_buf. generalize fuel Hf. clear.
  assert (forall (l1 l2 : list Z) f, (length l1 < f)%nat -> emits (ploop (S := S) (fun buf_len =>
    if buf_len =? 0 then pret (inr tt)
    else
      match (l1 ++ l2) !! Z.to_nat (buf_len - 1) with
      | Some b => prun my_putc b; pret (inl (buf_len - 1))
      | None => fault
      end) f (Z.of_nat (length l1))) [] (rev l1) tt) as Hgen.
  { intros l1. induction l1 as [|b l1 IH] using rev_ind; intros l2 [|f] Hf; try (simpl in Hf; lia).
    - apply emits_stop. simpl. apply emits_ret.
    - rewrite rev_app_distr. rewrite length_app in *. simpl in Hf. cbn [rev app length].
      apply (emits_go _ f _ (Z.of_nat (length l1)) [] [] [b] (rev l1)).
      + rewrite (proj2 (Z.eqb_neq _ 0)) by lia. replace (Z.to_nat (Z.of_nat (length l1 + 1) - 1)) with (length l1) by lia.
        rewrite <- app_assoc. cbn [app]. rewrite list_lookup_middle by done.
        apply (emits_out _ _ [b] [] tt); [apply emits_putc|]. replace (Z.of_nat (length l1 + 1) - 1) with (Z.of_nat (length l1)) by lia.
        apply emits_ret.
      + rewrite <- app_assoc. apply IH. lia. }
  intros f Hf. specialize (Hgen buf [] f Hf). by rewrite app_nil_r in Hgen.
Qed.

(** What [put_prefix] writes. *)
Definition prefix_text (flags c : Z) : list Z :=
  if has flags FL_ALT then 48 :: (if negb (c =? 0) then [c] else [])
  else if has flags FL_NEGATIVE || (has flags FL_PLUS || has flags FL_SPACE) then
    [if has flags FL_NEGATIVE then 45 else if has flags FL_PLUS then 43 else 32]
  else [].

Lemma put_prefix_spec flags c : emits (put_prefix (S := S) flags c) [] (prefix_text flags c) tt.
Proof.
  unfold put_prefix, prefix_text. rewrite !has_mask. destruct (has flags FL_ALT).
  - apply (emits_out _ _ [48] _ tt); [apply emits_putc|]. destruct (negb (c =? 0)); [apply emits_putc|apply emits_ret].
  - destruct (has flags FL_NEGATIVE || (has flags FL_PLUS || has flags FL_SPACE)); [|apply emits_ret]. apply emits_putc.
Qed.

Lemma prefix_length flags c len :
  (if has flags FL_ALT then len + 1 + (if negb (c =? 0) then 1 else 0)
   else if has flags (Z.lor FL_NEGATIVE (Z.lor FL_PLUS FL_SPACE)) then len + 1
   else len) = len + Z.of_nat (length (prefix_text flags c)).
Proof.
  unfold prefix_text. rewrite !has_mask. destruct (has flags FL_ALT); [destruct (negb (c =? 0)); simpl; lia|].
  destruct (has flags FL_NEGATIVE || (has flags FL_PLUS || has flags FL_SPACE)); simpl; lia.
Qed.

Lemma fits_nonneg x : 0 <= x <= INT_MAX -> fits_int x = true.
Proof. unfold fits_int, INT_MIN, INT_MAX. intros. apply andb_true_iff. rewrite !Z.leb_le. lia. Qed.

Lemma spaces_none n : n <= 0 -> spaces n = [].
Proof. intros. unfold spaces. by replace (Z.to_nat n) with 0%nat by lia. Qed.

Lemma zeros_none n : n <= 0 -> zeros n = [].
Proof. intros. unfold zeros. by replace (Z.to_nat n) with 0%nat by lia. Qed.

(** The last part of [int_output], from the flags and the length [len] of zeros
    and digits. *)
Definition output_from (flags c : Z) (buf : list Z) (width prec len : Z) : P S Z :=
  do len <- int_
    (if has flags FL_ALT then len + 1 + (if negb (c =? 0) then 1 else 0)
     else if has flags (Z.lor FL_NEGATIVE (Z.lor FL_PLUS FL_SPACE)) then len + 1
     else len);
  pdo '(len, prec) <-
    (if negb (has flags FL_LPAD) then
       let '(len, prec) :=
         if has flags FL_ZFILL then
           if len <? width then (width, Z.of_nat (length buf) + (width - len)) else (len, Z.of_nat (length buf))
         else (len, prec) in
       pdo len <- pad_left fuel len width;
       pret (len, prec)
     else pret (len, prec));
  let width := width - len in
  prun put_prefix flags c;
  prun put_zeros fuel prec (Z.of_nat (length buf));
  prun put_buf fuel buf;
  pret width.

Lemma pbind_pret {A B} (a : A) (k : A -> P S B) : pbind (pret a) k = k a.
Proof. reflexivity. Qed.

Lemma emits_bind_assoc {A B D} (c : P S A) (k : A -> P S B) (g : B -> P S D) l1 l2 a d :
  emits c [] l1 a -> emits (pbind (k a) g) [] l2 d -> emits (pbind (pbind c k) g) [] (l1 ++ l2) d.
Proof.
  intros Hc Hk. assert (emits (pbind c (fun a => pbind (k a) g)) [] (l1 ++ l2) d) as Hb by (by eapply emits_out).
  intros st rest Ha Hn Hl. specialize (Hb st rest Ha Hn Hl). unfold pbind, bind in *.
  destruct (c st) as [[[] ?]|]; done.
Qed.

Lemma output_tail flags c buf prec w z :
  z = zeros (prec - Z.of_nat (length buf)) ->
  (length (prefix_text flags c ++ z ++ rev buf ++ spaces w) < fuel)%nat ->
  emits (pdo w' <- (prun put_prefix flags c;
                    prun put_zeros fuel prec (Z.of_nat (length buf));
                    prun put_buf fuel buf;
                    pret w);
         pad_right fuel w') [] (prefix_text flags c ++ z ++ rev buf ++ spaces w) tt.
Proof.
  intros -> Hf. rewrite !length_app, length_rev in Hf.
  pose proof (length_zeros (prec - Z.of_nat (length buf))). pose proof (length_spaces w).
  rewrite !app_assoc. eapply emits_out; [|apply pad_right_spec; lia]. rewrite <- !app_assoc.
  eapply emits_out; [apply put_prefix_spec|]. eapply emits_out; [apply put_zeros_spec; lia|].
  rewrite <- (app_nil_r (rev buf)). eapply emits_out; [apply put_buf_spec; lia|]. apply emits_ret.
Qed.

Lemma pad_left_pair (len width prec : Z) :
  (Z.to_nat (width - len) < fuel)%nat ->
  emits (S := S) (pdo len <- pad_left fuel len width; pret (len, prec)) [] (spaces (width - len)) (Z.max len width, prec).
Proof.
  intros Hf. rewrite <- (app_nil_r (spaces _)). eapply emits_out; [by apply pad_left_spec|apply emits_ret].
Qed.

Lemma output_spec flags c buf width prec len :
  let pre := prefix_text flags c in
  let L := Z.of_nat (length buf) in
  let len1 := len + Z.of_nat (length pre) in
  let zero := has flags FL_ZFILL && negb (has flags FL_LPAD) in
  len = Z.max L prec -> (has flags FL_ZFILL = true -> prec <= L) ->
  let body := pre ++ zeros (if zero then width - len1 else prec - L) ++ rev buf in
  let out := if has flags FL_LPAD then body ++ spaces (width - len1)
             else if zero then body else spaces (width - len1) ++ body in
  (length out < fuel)%nat -> emits (pdo w <- output_from flags c buf width prec len; pad_right fuel w) [] out tt.
Proof.
  intros pre L len1 zero Hlen Hz body out Hf. apply emits_bounded. intros Hmax.
  assert (Z.of_nat (length body) = Z.of_nat (length pre) + Z.max 0 (if zero then width - len1 else prec - L) + L) as Hbody.
  { unfold body. rewrite !length_app, length_rev. pose proof (length_zeros (if zero then width - len1 else prec - L)). subst L. lia. }
  assert (Z.of_nat (length out) >= Z.of_nat (length body)) as Hout.
  { unfold out. destruct (has flags FL_LPAD), zero; rewrite ?length_app; lia. }
  assert (0 <= len1 <= INT_MAX) as Hlen1.
  { subst len1 L. destruct zero eqn:Ez; [|lia]. apply andb_true_iff in Ez as [Ez _]. specialize (Hz Ez). lia. }
  unfold output_from. rewrite prefix_length. fold pre len1. unfold int_. rewrite fits_nonneg by done. change (bind (ret len1) ?k) with (k len1).
  cbv beta. destruct (has flags FL_LPAD) eqn:Elp; cbn [negb].
  - assert (zero = false) as Ezf by (unfold zero; apply andb_false_r). subst zero.
    assert (out = pre ++ zeros (prec - L) ++ rev buf ++ spaces (width - len1)) as Eout
      by (unfold out, body; rewrite Ezf, !app_assoc; done).
    rewrite Eout in *. rewrite pbind_pret. by apply output_tail.
  - destruct (has flags FL_ZFILL) eqn:Ez.
    + assert (zero = true) as Ezt by done. clearbody zero. subst zero. cbv iota in *.
      set (x := if len1 <? width then _ else _).
      assert (x = (Z.max len1 width, L + Z.max 0 (width - len1))) as ->.
      { subst x. destruct (Z.ltb_spec len1 width); apply f_equal2; lia. }
      cbv iota. rewrite <- (app_nil_l out). eapply (emits_bind_assoc _ _ _ [] out).
      { rewrite <- (spaces_none (width - Z.max len1 width)) by lia. apply pad_left_pair. lia. }
      cbv beta iota.
      assert (out = pre ++ zeros (width - len1) ++ rev buf ++ spaces (width - Z.max (Z.max len1 width) width)) as Eout.
      { rewrite (spaces_none (width - _)), app_nil_r by lia. done. }
      rewrite Eout in *. apply output_tail; [|done].
      unfold zeros. f_equal. subst L. lia.
    + assert (zero = false) as Ezt by done. clearbody zero. subst zero. cbv iota in *.
      eapply emits_bind_assoc; [apply pad_left_pair|].
      { unfold out in Hf. rewrite length_app in Hf. pose proof (length_spaces (width - len1)). lia. }
      cbv beta iota.
      assert (body = pre ++ zeros (prec - L) ++ rev buf ++ spaces (width - Z.max len1 width)) as Eb.
      { rewrite (spaces_none (width - Z.max len1 width)), app_nil_r by lia. done. }
      unfold out in Hf. rewrite length_app in Hf.
      assert (length (pre ++ zeros (prec - L) ++ rev buf ++ spaces (width - Z.max len1 width)) < fuel)%nat as Hf2 by (rewrite <- Eb; lia).
      rewrite Eb. by apply output_tail.
Qed.

Lemma prefix_text_has flags flags' c :
  has flags FL_ALT = has flags' FL_ALT -> has flags FL_NEGATIVE = has flags' FL_NEGATIVE ->
  has flags FL_PLUS = has flags' FL_PLUS -> has flags FL_SPACE = has flags' FL_SPACE ->
  prefix_text flags c = prefix_text flags' c.
Proof. unfold prefix_text. by intros -> -> -> ->. Qed.

Definition is_some {A} (o : option A) : bool := match o with Some _ => true | None => false end.

(** The flags with which the prefix is written: the zero of octal is dropped when
    the precision already makes one. *)
Definition prefix_flags (flags c prec : Z) (digits : list Z) : Z :=
  if has flags FL_PREC && (Z.of_nat (length digits) <? prec) && (c =? 0) then without flags FL_ALT else flags.

Lemma int_output_spec flags c buf width prec popt :
  has flags FL_PREC = is_some popt -> prec = default 0 popt -> 0 <= prec ->
  let pre := prefix_text (prefix_flags flags c prec buf) c in
  let out := number_field (has flags FL_LPAD) (has flags FL_ZFILL) width popt [] pre (rev buf) in
  (length out < fuel)%nat ->
  emits (pdo w <- int_output fuel flags c buf width prec; pad_right fuel w) [] out tt.
Proof.
  intros Hp Hprec H0p pre out Hf. set (L := Z.of_nat (length buf)).
  assert (exists flags2, int_output fuel flags c buf width prec = output_from flags2 c buf width prec (Z.max L prec) /\
    has flags2 FL_LPAD = has flags FL_LPAD /\ has flags2 FL_ZFILL = has flags FL_ZFILL && negb (is_some popt) /\
    prefix_text flags2 c = pre) as (flags2 & -> & Hlp & Hzf & Hpre).
  { unfold int_output, output_from, pre, prefix_flags. fold L. rewrite Hp. destruct popt as [p|]; cbn [is_some andb negb].
    - exists (if (L <? prec) && (c =? 0) then without (without flags FL_ZFILL) FL_ALT else without flags FL_ZFILL).
      destruct (Z.ltb_spec L prec); [destruct (c =? 0)|]; cbn [andb];
        (split_and!; [rewrite ?Z.max_r, ?Z.max_l by lia; reflexivity|flag_bits; done|flag_bits; by rewrite andb_false_r|];
         apply prefix_text_has; by flag_bits).
    - exists flags. simpl in Hprec. subst prec. rewrite Z.max_l by lia. rewrite andb_true_r. done. }
  set (body := fun z => pre ++ zeros z ++ rev buf).
  assert (forall z, Z.of_nat (length (body z)) = Z.of_nat (length pre) + Z.max 0 z + L) as Hbody.
  { intros z. unfold body. rewrite !length_app, length_rev. pose proof (length_zeros z). subst L. lia. }
  set (len1 := Z.max L prec + Z.of_nat (length pre)).
  assert (out = (if has flags2 FL_LPAD then body (prec - L) ++ spaces (width - len1)
     else if has flags2 FL_ZFILL && negb (has flags2 FL_LPAD) then body (width - len1) else spaces (width - len1) ++ body (prec - L))) as Eout.
  { unfold out, number_field. rewrite Hlp, Hzf. cbn [app]. destruct popt as [p|]; cbn [is_some negb]; simpl in Hprec; subst prec.
    - rewrite andb_false_r, length_rev. fold L. fold (body (p - L)). unfold field. rewrite Hbody. cbn [andb].
      replace (width - (Z.of_nat (length pre) + Z.max 0 (p - L) + L)) with (width - len1) by (subst len1 L; lia). done.
    - rewrite andb_true_r. assert (body (0 - L) = pre ++ rev buf) as Eb by (unfold body; rewrite zeros_none by (subst L; lia); done).
      unfold field. rewrite length_app, length_rev, Nat2Z.inj_add. fold L.
      replace (width - (Z.of_nat (length pre) + L)) with (width - len1) by (subst len1 L; lia).
      rewrite Eb. destruct (has flags FL_LPAD), (has flags FL_ZFILL); done. }
  pose proof (output_spec flags2 c buf width prec (Z.max L prec) eq_refl) as Hspec. rewrite Hpre in Hspec. fold L len1 in Hspec.
  rewrite Eout in *. destruct (has flags2 FL_LPAD) eqn:E1; cbn [negb] in *.
  - rewrite andb_false_r in Hspec. apply Hspec; [|done]. rewrite Hzf. destruct popt; simpl in *; [by rewrite andb_false_r|subst; lia].
  - rewrite andb_true_r in *. destruct (has flags2 FL_ZFILL) eqn:E2.
    + apply Hspec; [|done]. intros _. destruct popt; simpl in *; [by rewrite andb_false_r in Hzf|subst; lia].
    + by apply Hspec.
Qed.
End conv.
