(* ===== verification/PrintfRun.v ===== *)
(** * vfprintf computes the reference

    Each conversion and then whole formats: [vfprintf] puts exactly the characters
    of [render_format]. *)

From S2P Require Import Prelude CMem StrLocal Convert Strto Printf PrintfSpec PrintfConv.
From stdpp Require Import base list.
From Stdlib Require Import ZArith Lia.

Local Open Scope Z_scope.

Section vf_run.
Context `{Arch}.
Variables (need_long_long need_c99 need_percent_b fancy_divmod : bool).
Context {S : Type} `{PutStream S}.
Variable fuel : nat.
Hypothesis fuel_64 : (64 < fuel)%nat.

Abbreviation ultoa_bits := (ultoa_bits need_long_long).
Abbreviation size_kind := (size_kind need_long_long).

(** ** The flag word of a specification *)

Definition size_long (s : fsize) : bool :=
  match s with SL | SLL | SBigL | SJ => true | SZ | ST => long64 | _ => false end.
Definition size_short (s : fsize) : bool := match s with SHH | SH => true | _ => false end.
Definition size_repd (s : fsize) : bool :=
  match s with SHH | SLL | SBigL => true | SJ => negb long64 | _ => false end.

Record flags_match (d : directive) (fl : Z) (minus prec : bool) : Prop := {
  fm_zfill : has fl FL_ZFILL = mem_flag 48 d;
  fm_plus : has fl FL_PLUS = mem_flag 43 d;
  fm_space : has fl FL_SPACE = mem_flag 32 d || mem_flag 43 d;
  fm_lpad : has fl FL_LPAD = minus;
  fm_alt : has fl FL_ALT = mem_flag 35 d;
  fm_prec : has fl FL_PREC = prec;
  fm_neg : has fl FL_NEGATIVE = false;
  fm_long : has fl FL_LONG = size_long (d_size d);
  fm_short : has fl FL_SHORT = size_short (d_size d);
  fm_repd : has fl FL_REPD_TYPE = size_repd (d_size d) }.

Lemma flags_of_has l fl x : has (flags_of l fl) x = has fl x || existsb (fun c => has (flag_value c) x) l.
Proof.
  revert fl. induction l as [|c l IH]; intros fl; simpl; [by rewrite orb_false_r|].
  unfold flags_of in *. simpl. by rewrite IH, has_lor, orb_assoc.
Qed.

(** The bits of a flag character. *)
Lemma flag_value_bits c :
  has (flag_value c) FL_ZFILL = (48 =? c) /\ has (flag_value c) FL_PLUS = (43 =? c) /\
  has (flag_value c) FL_SPACE = (32 =? c) || (43 =? c) /\ has (flag_value c) FL_LPAD = (45 =? c) /\
  has (flag_value c) FL_ALT = (35 =? c).
Proof.
  unfold flag_value, flag_char. rewrite !(Z.eqb_sym _ c).
  destruct (Z.eqb_spec c 48) as [->|]; [done|]. destruct (Z.eqb_spec c 43) as [->|]; [done|].
  destruct (Z.eqb_spec c 32) as [->|]; [done|]. destruct (Z.eqb_spec c 45) as [->|]; [done|].
  destruct (Z.eqb_spec c 35) as [->|]; [done|]. by destruct (c =? 39).
Qed.

Lemma flag_value_high c x : 0 <= x -> Z.land 31 x = 0 -> has (flag_value c) x = false.
Proof.
  intros Hx H31. unfold has. apply negb_false_iff, Z.eqb_eq. unfold flag_value, flag_char.
  repeat match goal with |- context [if ?b then _ else _] => destruct b end; try done;
    match goal with |- Z.land ?v x = 0 =>
      let w := eval vm_compute in v in change v with w;
      replace w with (Z.land w 31) by reflexivity; by rewrite <- Z.land_assoc, H31 end.
Qed.

Lemma existsb_ext {A} (f g : A -> bool) l : (forall x, f x = g x) -> existsb f l = existsb g l.
Proof. intros He. induction l as [|a l IH]; simpl; [done|]. by rewrite He, IH. Qed.

Lemma existsb_orb {A} (f g : A -> bool) l : existsb (fun x => f x || g x) l = existsb f l || existsb g l.
Proof. induction l as [|a l IH]; simpl; [done|]. rewrite IH. destruct (f a), (g a), (existsb f l); done. Qed.

Lemma existsb_false {A} (f : A -> bool) l : (forall x, f x = false) -> existsb f l = false.
Proof. intros He. induction l as [|a l IH]; simpl; [done|]. by rewrite He, IH. Qed.

Lemma size_flags_has s fl x : has (size_flags s fl) x = has fl x || has (size_flags s 0) x.
Proof.
  destruct s; unfold size_flags, int_size_flags; repeat match goal with |- context [if ?b then _ else _] => destruct b end;
    rewrite ?has_lor, ?has_0; cbn [orb]; rewrite ?orb_false_r, <- ?orb_assoc; done.
Qed.

Lemma dir_flags_match d :
  flags_match d (dir_flags d) (mem_flag 45 d) (match d_prec d with PNone => false | _ => true end).
Proof.
  assert (forall x, has (dir_flags d) x =
    existsb (fun c => has (flag_value c) x) (d_flags d) ||
    ((match d_width d with WNone => false | _ => has FL_WIDTH x end) ||
     (match d_prec d with PNone => false | _ => has FL_PREC x end) || has (size_flags (d_size d) 0) x)) as Hd.
  { intros x. unfold dir_flags. rewrite size_flags_has. unfold prec_flags, width_flags.
    destruct (d_prec d), (d_width d); rewrite ?has_lor, flags_of_has, has_0; cbn [orb];
      rewrite ?orb_false_r, <- ?orb_assoc; done. }
  assert (forall x, 0 <= x -> Z.land 31 x = 0 -> existsb (fun c => has (flag_value c) x) (d_flags d) = false) as Hhigh.
  { intros x Hx H31. apply existsb_false. intros c. by apply flag_value_high. }
  assert (forall x, x = FL_ZFILL \/ x = FL_PLUS \/ x = FL_SPACE \/ x = FL_LPAD \/ x = FL_ALT \/ x = FL_NEGATIVE \/ x = FL_PREC ->
    has (size_flags (d_size d) 0) x = false) as Hsz.
  { intros x Hx. destruct (d_size d); unfold size_flags, int_size_flags, long_size; destruct long64;
      destruct Hx as [-> | [-> | [-> | [-> | [-> | [-> | ->]]]]]]; reflexivity. }
  split; rewrite Hd.
  1-5: rewrite Hsz by auto 10; destruct (d_width d), (d_prec d); cbn [orb]; change (has FL_WIDTH _) with false;
    change (has FL_PREC _) with false; cbn [orb]; rewrite ?orb_false_r.
  all: try (apply existsb_ext; intros c; apply flag_value_bits).
  all: try (unfold mem_flag; rewrite <- existsb_orb; apply existsb_ext; intros c; apply flag_value_bits).
  all: rewrite Hhigh by (vm_compute; first [reflexivity | discriminate]); cbn [orb].
  - rewrite Hsz by auto 10. by destruct (d_width d), (d_prec d).
  - rewrite Hsz by auto 10. by destruct (d_width d), (d_prec d).
  - destruct (d_width d), (d_prec d), (d_size d); unfold size_flags, int_size_flags, long_size, size_long; destruct long64; reflexivity.
  - destruct (d_width d), (d_prec d), (d_size d); unfold size_flags, int_size_flags, long_size; destruct long64; reflexivity.
  - destruct (d_width d), (d_prec d), (d_size d); unfold size_flags, int_size_flags, long_size, size_repd; destruct long64; reflexivity.
Qed.

Lemma match_no_prec d fl minus p : flags_match d fl minus p -> flags_match d (without fl FL_PREC) minus false.
Proof. intros []. split; by flag_bits. Qed.

Lemma match_minus d fl minus p : flags_match d fl minus p -> flags_match d (Z.lor fl FL_LPAD) true p.
Proof. intros []. split; flag_bits; rewrite ?orb_false_r, ?orb_true_r; done. Qed.

(** ** Integer arguments *)

Lemma emits_va_long a x : a = ALong x \/ a = APtr x -> emits (va_long (S := S)) [a] [] x.
Proof. intros Ha [s n args] rest Has Hn Hl. simpl in *. subst args. by destruct Ha as [-> | ->]; rewrite Z.add_0_r. Qed.

Lemma emits_va_llong x : emits (va_llong (S := S)) [ALLong x] [] x.
Proof. intros [s n args] rest Has Hn Hl. simpl in *. subst args. by rewrite Z.add_0_r. Qed.

Lemma size_kind_bits s k w : size_kind s = (k, w) -> 8 <= w <= ultoa_bits.
Proof.
  unfold PrintfSpec.size_kind, Printf.ultoa_bits, long_bits, long_size.
  destruct s, need_long_long, long64; intros [= <- <-]; lia.
Qed.

(** Which of the branches of [arg_to_t] the size selects. *)
Lemma arg_int_spec (cast : Z -> Z -> Z) s k w a x fl :
  size_kind s = (k, w) -> of_kind k a = Some x ->
  has fl FL_LONG = size_long s -> has fl FL_SHORT = size_short s -> has fl FL_REPD_TYPE = size_repd s ->
  (forall w, 0 < w <= 64 -> cast w (cast 64 x) = cast w x) ->
  emits (if has fl FL_LONG then
           if has fl FL_REPD_TYPE then pdo x <- va_llong; pret (cast ultoa_bits (cast 64 x))
           else pdo x <- va_long; pret (cast long_bits x)
         else
           pdo x <- va_int;
           if has fl FL_SHORT then if has fl FL_REPD_TYPE then pret (cast 8 x) else pret (cast 16 x)
           else pret (cast 32 x)) [a] [] (cast w x).
Proof.
  intros Hk Ha -> -> -> Hc.
  assert (ultoa_bits = 32 \/ ultoa_bits = 64) as Hu by apply ultoa_bits_cases.
  assert (forall y, (a = AInt x -> emits (S := S) (pdo x <- va_int; pret (cast y x)) [a] [] (cast y x)) /\
    (a = ALong x -> emits (S := S) (pdo x <- va_long; pret (cast y x)) [a] [] (cast y x)) /\
    (a = ALLong x -> emits (S := S) (pdo x <- va_llong; pret (cast ultoa_bits (cast 64 x))) [a] [] (cast ultoa_bits x))) as Hrd.
  { intros y. split_and!; intros ->.
    - apply (emits_read _ _ [AInt x] [] [] x); [apply emits_va_int|apply emits_ret].
    - apply (emits_read _ _ [ALong x] [] [] x); [apply emits_va_long; by left|apply emits_ret].
    - apply (emits_read _ _ [ALLong x] [] [] x); [apply emits_va_llong|]. rewrite Hc by lia. apply emits_ret. }
  assert ((a = AInt x /\ k = KInt) \/ (a = ALong x /\ k = KLong) \/ (a = ALLong x /\ k = KLLong)) as Hcases
    by (destruct k, a; simplify_eq/=; auto).
  unfold PrintfSpec.size_kind in Hk. unfold size_long, size_short, size_repd.
  assert (ultoa_bits = if need_long_long then 64 else long_bits) as Eu by done.
  destruct s; try (destruct long64 eqn:El); simplify_eq/=;
    destruct Hcases as [[-> ?] | [[-> ?] | [-> ?]]]; try done; rewrite <- ?Eu; try by apply Hrd.
  all: assert (64 = long_bits) as -> by (unfold long_bits, long_size; rewrite El; done); by apply Hrd.
Qed.

Lemma arg_signed_spec s k w a x fl :
  size_kind s = (k, w) -> of_kind k a = Some x ->
  has fl FL_LONG = size_long s -> has fl FL_SHORT = size_short s -> has fl FL_REPD_TYPE = size_repd s ->
  emits (arg_to_signed need_long_long (S := S) fl) [a] [] (swrap w x).
Proof.
  intros Hk Ha Hlo Hsh Hre. apply (arg_int_spec swrap s k w a x fl); try done.
  intros y Hy. by apply swrap_swrap.
Qed.

Lemma arg_unsigned_spec s k w a x fl :
  size_kind s = (k, w) -> of_kind k a = Some x ->
  has fl FL_LONG = size_long s -> has fl FL_SHORT = size_short s -> has fl FL_REPD_TYPE = size_repd s ->
  emits (arg_to_unsigned need_long_long (S := S) fl) [a] [] (uwrap w x).
Proof.
  intros Hk Ha Hlo Hsh Hre. apply (arg_int_spec uwrap s k w a x fl); try done.
  intros y Hy. apply uwrap_uwrap. lia.
Qed.

(** ** Integer conversions *)

Abbreviation int_digits := (int_digits need_long_long need_percent_b fancy_divmod (S := S) fuel).

(** The buffer holds the reversed digits of the reference. *)
Definition digits_buf (base : Z) (upper : bool) (v : Z) (popt : option Z) : list Z :=
  if (v =? 0) && bool_decide (popt = Some 0) then [] else lsf_text base upper v.

Lemma digits_buf_rev base upper v popt : rev (digits_buf base upper v popt) = value_text base upper v popt.
Proof. unfold digits_buf, value_text. by destruct (_ && _). Qed.

Lemma prec_zero popt prec :
  prec = default 0 popt -> is_some popt && (prec =? 0) = bool_decide (popt = Some 0).
Proof.
  intros ->. destruct popt as [p|]; simpl; [|done]. destruct (Z.eqb_spec p 0) as [->|Hp]; [done|].
  symmetry. apply bool_decide_eq_false. congruence.
Qed.

Lemma ultoa_buf base upper v popt prec z :
  base_ok need_percent_b base upper -> 0 <= v < 2 ^ ultoa_bits -> z = (v =? 0) && bool_decide (popt = Some 0) ->
  prec = default 0 popt ->
  emits (if z then pret [] else __ultoa_invert need_long_long need_percent_b fancy_divmod fuel v (code_base base upper))
    [] [] (digits_buf base upper v popt).
Proof. intros Hb Hv -> Hp. unfold digits_buf. destruct (_ && _); [apply emits_ret|by apply ultoa_spec]. Qed.

(** The magnitude of a signed number, by way of its negation. *)
Lemma magnitude_spec W v :
  0 < W -> - 2 ^ (W - 1) <= v < 2 ^ (W - 1) ->
  let x := if v <? 0 then swrap W (uwrap W (- uwrap W v)) else v in
  uwrap W x = Z.abs v /\ (x =? 0) = (Z.abs v =? 0).
Proof.
  intros HW Hv x. assert (2 ^ W = 2 * 2 ^ (W - 1)) as E by (rewrite <- Z.pow_succ_r by lia; f_equal; lia).
  subst x. destruct (Z.ltb_spec v 0) as [Hneg|Hpos].
  - assert (uwrap W (- uwrap W v) = - v) as ->.
    { unfold uwrap. replace (v mod 2 ^ W) with (v + 2 ^ W).
      - replace (- (v + 2 ^ W)) with (- v + (-1) * 2 ^ W) by lia. rewrite Z.mod_add by lia. apply Z.mod_small. lia.
      - rewrite <- (Z.mod_add v 1) by lia. rewrite Z.mod_small; lia. }
    rewrite swrap_uwrap by done. rewrite (uwrap_small W (- v)) by lia. destruct (Z.ltb_spec (- v) (2 ^ (W - 1))).
    + split; [rewrite uwrap_small by lia; lia|]. rewrite !(proj2 (Z.eqb_neq _ 0)) by lia. done.
    + split; [|rewrite !(proj2 (Z.eqb_neq _ 0)) by lia; done].
      unfold uwrap. rewrite <- (Z.mod_add _ 1) by lia. rewrite Z.mod_small by lia. lia.
  - split; [rewrite uwrap_small by lia; lia|]. by rewrite Z.abs_eq.
Qed.

Lemma int_digits_signed c d fl minus popt prec k w a x :
  c = 100 \/ c = 105 -> flags_match d fl minus (is_some popt) -> prec = default 0 popt ->
  size_kind (d_size d) = (k, w) -> of_kind k a = Some x ->
  let v := swrap w x in
  emits (int_digits c fl prec) [a] []
    (Some (without (if v <? 0 then Z.lor fl FL_NEGATIVE else fl) FL_ALT, c, digits_buf 10 false (Z.abs v) popt)).
Proof.
  intros Hc Hm Hp Hk Ha v. unfold Printf.int_digits.
  assert ((c =? 100) || (c =? 105) = true) as -> by (destruct Hc as [-> | ->]; done).
  pose proof (size_kind_bits _ _ _ Hk) as Hw. pose proof (swrap_range w x ltac:(lia)) as Hv. fold v in Hv.
  rewrite <- (app_nil_r [a]). eapply emits_read.
  { apply (arg_signed_spec (d_size d) k w a x); [done..|apply Hm|apply Hm|apply Hm]. }
  fold v. cbv beta.
  assert (2 ^ (w - 1) <= 2 ^ (ultoa_bits - 1)) by (apply Z.pow_le_mono_r; lia).
  assert (0 < ultoa_bits) as Hu0 by lia. assert (- 2 ^ (ultoa_bits - 1) <= v < 2 ^ (ultoa_bits - 1)) as Hv2 by lia.
  destruct (magnitude_spec ultoa_bits v Hu0 Hv2) as [Hmag Hzero].
  set (x_s := if v <? 0 then _ else v) in *.
  assert ((if v <? 0 then (swrap ultoa_bits (uwrap ultoa_bits (- uwrap ultoa_bits v)), Z.lor fl FL_NEGATIVE) else (v, fl)) =
          (x_s, if v <? 0 then Z.lor fl FL_NEGATIVE else fl)) as -> by (subst x_s; by destruct (v <? 0)).
  cbv iota. eapply emits_quiet; [|apply emits_ret]. rewrite Hmag.
  apply (ultoa_buf 10 false (Z.abs v) popt prec).
  - right; right; left. done.
  - assert (2 ^ ultoa_bits = 2 * 2 ^ (ultoa_bits - 1)) by (rewrite <- Z.pow_succ_r by lia; f_equal; lia). lia.
  - rewrite Hzero, (fm_prec _ _ _ _ Hm), <- (prec_zero popt prec Hp). by rewrite andb_assoc.
  - done.
Qed.

(** The unsigned conversions: the character kept for the prefix and the flags
    before the argument is read. *)
Definition conv_prefix_char (c : fconv) : Z :=
  match c with Fo => 0 | Fp => 120 | c => conv_char c end.
Definition conv_flags (c : fconv) (fl : Z) : Z :=
  without (match c with
           | Fu => without fl FL_ALT
           | Fp => if long64 then Z.lor (Z.lor fl FL_ALT) FL_LONG else Z.lor fl FL_ALT
           | _ => fl
           end) (Z.lor FL_PLUS FL_SPACE).

(** The unsigned value that a conversion reads. *)
Definition unsigned_value (d : directive) (a : arg) : option Z :=
  match d_conv d with
  | Fp => match a with APtr p => Some (uwrap long_bits p) | _ => None end
  | _ => let '(k, w) := size_kind (d_size d) in
         match of_kind k a with Some x => Some (uwrap w x) | None => None end
  end.

Lemma unsigned_arg d fl minus p a v :
  flags_match d fl minus p -> (d_conv d = Fp -> d_size d = SNone) -> unsigned_value d a = Some v ->
  emits (arg_to_unsigned need_long_long (S := S) (conv_flags (d_conv d) fl)) [a] [] v /\ 0 <= v < 2 ^ ultoa_bits.
Proof.
  intros Hm Hp Hv. unfold unsigned_value in Hv.
  assert (forall c w, 0 <= w <= ultoa_bits -> uwrap w c < 2 ^ ultoa_bits) as Hlt.
  { intros c w Hw. pose proof (uwrap_range w c ltac:(lia)). assert (2 ^ w <= 2 ^ ultoa_bits) by (apply Z.pow_le_mono_r; lia). lia. }
  destruct (decide (d_conv d = Fp)) as [Ep|Ep].
  - rewrite Ep in *. destruct a; try done. injection Hv as <-. specialize (Hp eq_refl).
    pose proof (fm_long _ _ _ _ Hm) as Hlo. rewrite Hp in Hlo. pose proof (fm_short _ _ _ _ Hm) as Hsh. rewrite Hp in Hsh.
    pose proof (fm_repd _ _ _ _ Hm) as Hre. rewrite Hp in Hre. simpl in Hlo, Hsh, Hre.
    split.
    + unfold arg_to_unsigned, conv_flags. destruct long64 eqn:El.
      * flag_bits. rewrite Hlo, Hre. cbn [orb]. apply (emits_read _ _ [APtr p0] [] [] p0); [apply emits_va_long; by right|apply emits_ret].
      * flag_bits. rewrite Hlo, Hsh. cbn [orb].
        assert (long_bits = 32) as -> by (unfold long_bits, long_size; by rewrite El).
        apply (emits_read _ _ [APtr p0] [] [] p0); [|apply emits_ret].
        intros [s n args] rest Has Hn Hl. simpl in *. subst args. unfold va_int, pbind, bind, va_arg. simpl. by rewrite El, Z.add_0_r.
    + assert (0 <= long_bits) as H0l by (unfold long_bits, long_size; destruct long64; lia).
      pose proof (uwrap_range long_bits p0 H0l). split; [lia|]. apply Hlt. pose proof (long_bits_ultoa need_long_long). lia.
  - assert ((let '(k, w) := size_kind (d_size d) in match of_kind k a with Some x => Some (uwrap w x) | None => None end) = Some v) as Hv'
      by (by destruct (d_conv d)).
    clear Hv. destruct (size_kind (d_size d)) as [k w] eqn:Ek. destruct (of_kind k a) as [x|] eqn:Ea; [|done]. injection Hv' as <-.
    pose proof (size_kind_bits _ _ _ Ek) as Hw. split; [|pose proof (uwrap_range w x ltac:(lia)); split; [lia|apply Hlt; lia]].
    apply (arg_unsigned_spec (d_size d) k w a x); [done..| | |]; unfold conv_flags.
    + rewrite <- (fm_long _ _ _ _ Hm). destruct (d_conv d); try done; by flag_bits.
    + rewrite <- (fm_short _ _ _ _ Hm). destruct (d_conv d); try done; by flag_bits.
    + rewrite <- (fm_repd _ _ _ _ Hm). destruct (d_conv d); try done; by flag_bits.
Qed.

Lemma int_digits_unsigned d fl minus popt prec a v base upper prefix :
  flags_match d fl minus (is_some popt) -> prec = default 0 popt -> (d_conv d = Fp -> d_size d = SNone) ->
  unsigned_conv (d_conv d) = Some (base, upper, prefix) -> (base = 2 -> need_percent_b = true) ->
  unsigned_value d a = Some v ->
  emits (int_digits (conv_char (d_conv d)) fl prec) [a] []
    (Some (if v =? 0 then without (conv_flags (d_conv d) fl) FL_ALT else conv_flags (d_conv d) fl,
           conv_prefix_char (d_conv d), digits_buf base upper v popt)).
Proof.
  intros Hm Hp Hps Hu Hb2 Hv. destruct (unsigned_arg d fl minus _ a v Hm Hps Hv) as [Harg Hrange].
  assert (base_ok need_percent_b base upper) as Hb.
  { unfold base_ok. destruct (d_conv d); simplify_eq/=; auto 10. }
  unfold Printf.int_digits.
  set (conv := if conv_char (d_conv d) =? 117 then _ else _).
  assert (((conv_char (d_conv d) =? 100) || (conv_char (d_conv d) =? 105)) = false /\
    exists fl0, conv = Some (fl0, code_base base upper, conv_prefix_char (d_conv d)) /\
      without fl0 (Z.lor FL_PLUS FL_SPACE) = conv_flags (d_conv d) fl) as (-> & fl0 & -> & Efl).
  { subst conv. unfold conv_flags. destruct (d_conv d); simplify_eq/=; (split; [done|]); rewrite ?Hb2 by done; eexists; split; reflexivity. }
  cbv iota zeta. rewrite Efl. rewrite <- (app_nil_r [a]). eapply emits_read; [exact Harg|]. cbv beta.
  eapply emits_quiet; [|apply emits_ret].
  eapply (ultoa_buf base upper v popt prec); [done|done| |done].
  rewrite <- andb_assoc, (fm_prec _ _ _ _ Hm), (prec_zero popt prec Hp). done.
Qed.

(** ** Each conversion, with the padding on its right *)

Abbreviation conversion := (conversion need_long_long need_c99 need_percent_b fancy_divmod (S := S) fuel).

(** What follows the conversion in the outer loop. *)
Definition finish (fmt : list Z) (w : option Z) : P S (option (list Z)) :=
  match w with
  | None => pret (Some fmt)
  | Some width => prun pad_right fuel width; pret (Some fmt)
  end.

Ltac exact_outs out st :=
  destruct (outs out (p_stream st)) as [[[] ?]|]; naive_solver.

Lemma finish_some (c : P S Z) fmt u out :
  emits (pdo w <- c; pad_right fuel w) u out tt ->
  emits (pdo w <- (pdo w <- c; pret (Some w)); finish fmt w) u out (Some fmt).
Proof.
  intros Hc st rest Ha Hn Hl. specialize (Hc st rest Ha Hn Hl). unfold pbind, bind, finish, pret, ret in *.
  destruct (c st) as [[[w|] s]|]; cbv beta iota in *; [|exact_outs out st|exact_outs out st].
  unfold pbind, bind. destruct (pad_right fuel w s) as [[[[]|] s']|]; exact_outs out st.
Qed.

Lemma finish_read {A} (c : P S A) (k : A -> P S (option Z)) a u1 u2 fmt out r :
  emits c u1 [] a -> emits (pdo w <- k a; finish fmt w) u2 out r ->
  emits (pdo w <- (pdo x <- c; k x); finish fmt w) (u1 ++ u2) out r.
Proof.
  intros Hc Hk. pose proof (emits_read c (fun x => pdo w <- k x; finish fmt w) u1 u2 out a r Hc Hk) as Hb.
  intros st rest Ha Hn Hl. specialize (Hb st rest Ha Hn Hl). unfold pbind, bind in *. destruct (c st) as [[[] ?]|]; done.
Qed.

Lemma printf_int_spec c fl c' fl' buf width prec popt fmt a out :
  emits (int_digits c fl prec) [a] [] (Some (fl', c', buf)) ->
  has fl' FL_PREC = is_some popt -> prec = default 0 popt -> 0 <= prec ->
  out = number_field (has fl' FL_LPAD) (has fl' FL_ZFILL) width popt [] (prefix_text (prefix_flags fl' c' prec buf) c') (rev buf) ->
  (length out < fuel)%nat ->
  emits (pdo w <- printf_int need_long_long need_percent_b fancy_divmod fuel c fl width prec; finish fmt w) [a] out (Some fmt).
Proof.
  intros Hd Hpr Hp H0p -> Hf. unfold printf_int. rewrite <- (app_nil_r [a]). eapply finish_read; [exact Hd|]. cbv iota.
  apply finish_some. by apply (int_output_spec fuel fl' c' buf width prec popt).
Qed.

(** Strings: left padding, the string, right padding. *)
Lemma put_string_spec l rest :
  (length l < fuel)%nat -> emits (put_string (S := S) fuel (l ++ rest) (Z.of_nat (length l))) [] l tt.
Proof.
  unfold put_string. generalize fuel. induction l as [|b l IH]; intros [|f] Hf; simpl in Hf; try lia.
  - apply emits_stop. apply emits_ret.
  - apply (emits_go _ f _ (l ++ rest, Z.of_nat (length l)) [] [] [b] l).
    + rewrite (proj2 (Z.eqb_neq _ 0)) by (simpl; lia). cbn [app fetch]. rewrite pbind_pret. cbv iota.
      apply (emits_out _ _ [b] [] tt); [apply emits_putc|].
      replace (Z.of_nat (length (b :: l)) - 1) with (Z.of_nat (length l)) by (simpl; lia). apply emits_ret.
    + apply IH. lia.
Qed.

Lemma str_lpad_spec fl width l rest :
  0 <= width <= INT_MAX -> (length (field (has fl FL_LPAD) width l) < fuel)%nat ->
  emits (pdo w <- str_lpad fuel fl width (Z.of_nat (length l)) (l ++ rest); pad_right fuel w) []
    (field (has fl FL_LPAD) width l) tt.
Proof.
  intros Hw Hf. apply emits_bounded. intros Hmax. unfold str_lpad, field in *. unfold INT_MAX in *.
  pose proof (length_spaces (width - Z.of_nat (length l))) as Hsp.
  assert (2 ^ 32 <= 2 ^ long_bits) as Hlb by (apply Z.pow_le_mono_r; [lia|]; apply long_bits_le).
  assert (forall w, - 2 ^ 31 <= w <= 2 ^ 31 - 1 -> Z.of_nat (length l) <= 2 ^ 31 - 1 ->
    - 2 ^ 31 <= w - Z.of_nat (length l) <= 2 ^ 31 - 1 ->
    swrap 32 (uwrap long_bits (uwrap long_bits w - Z.of_nat (length l))) = w - Z.of_nat (length l)) as Hsw.
  { intros w Hw1 Hl Hw2. unfold uwrap. rewrite Zminus_mod_idemp_l.
    pose proof (swrap_swrap 32 long_bits (w - Z.of_nat (length l))) as Hss. pose proof long_bits_le.
    rewrite (swrap_uwrap 32) by lia. fold (uwrap long_bits (w - Z.of_nat (length l))).
    rewrite uwrap_uwrap by lia. rewrite <- swrap_uwrap by lia. apply swrap_small; [lia|]. change (32 - 1) with 31. lia. }
  destruct (has fl FL_LPAD) eqn:Elp; cbn [negb].
  - rewrite length_app in *. rewrite pbind_pret. cbv zeta. rewrite Hsw by lia.
    eapply emits_bind_assoc; [apply put_string_spec; lia|]. rewrite pbind_pret. apply pad_right_spec. lia.
  - rewrite length_app in *. set (n := Z.max width (Z.of_nat (length l))).
    eapply emits_bind_assoc with (a := Z.min width (Z.of_nat (length l))).
    { unfold spaces. eapply (emits_fill_eq _ (fun width => Z.of_nat (length l) <? uwrap long_bits width) (-1) 32 (fun w => w) (Z.to_nat (width - Z.of_nat (length l))));
        [done|lia| | |].
      - intros i Hi. rewrite uwrap_small by lia. apply Z.ltb_lt. lia.
      - rewrite uwrap_small by lia. apply Z.ltb_ge. lia.
      - lia. }
    cbv zeta. rewrite Hsw by lia. apply (emits_eq _ [] [] (l ++ []) l tt tt); [done|apply app_nil_r|done|]. eapply emits_bind_assoc; [apply put_string_spec; lia|].
    rewrite pbind_pret. rewrite <- (spaces_none (Z.min width (Z.of_nat (length l)) - Z.of_nat (length l))) by lia.
    apply pad_right_spec. lia.
Qed.

Lemma strnlen_upto s : forall n t,
  0 <= n -> string_upto s n = Some t ->
  emits (strnlen_at (S := S) s n) [] [] (Z.of_nat (length t)) /\ exists rest, s = t ++ rest.
Proof.
  induction s as [|b s IH]; intros n t Hn Ht; simpl in Ht |- *; destruct (Z.eqb_spec n 0) as [->|Hn0].
  - injection Ht as <-. split; [apply emits_ret|by eexists].
  - done.
  - injection Ht as <-. split; [apply emits_ret|by eexists].
  - destruct (b =? 0); [injection Ht as <-; split; [apply emits_ret|by eexists]|].
    destruct (string_upto s (n - 1)) as [t'|] eqn:E; [|done]. injection Ht as <-.
    destruct (IH (n - 1) t' ltac:(lia) E) as [He [rest ->]]. split; [|by exists rest].
    eapply emits_quiet; [exact He|]. replace (Z.of_nat (length t') + 1) with (Z.of_nat (length (b :: t'))) by (simpl; lia). apply emits_ret.
Qed.

Lemma number_field_pre minus zero width popt pre ds :
  number_field minus zero width popt pre [] ds = number_field minus zero width popt [] pre ds.
Proof. unfold number_field. by rewrite app_nil_r. Qed.

(** The prefix and sign that the code writes are those of the reference. *)
Lemma signed_prefix d fl minus p c (neg : bool) prec buf :
  flags_match d fl minus p -> c <> 0 ->
  let fl' := without (if neg then Z.lor fl FL_NEGATIVE else fl) FL_ALT in
  prefix_text (prefix_flags fl' c prec buf) c = sign_text d neg /\
  has fl' FL_LPAD = minus /\ has fl' FL_ZFILL = mem_flag 48 d /\ has fl' FL_PREC = p.
Proof.
  intros [] Hc fl'. unfold prefix_flags. rewrite (proj2 (Z.eqb_neq c 0)), andb_false_r by done. unfold prefix_text, sign_text.
  subst fl'. split_and!; destruct neg; flag_bits; rewrite ?fm_plus0, ?fm_space0, ?fm_lpad0, ?fm_zfill0, ?fm_prec0, ?fm_neg0; cbn [orb];
    rewrite ?orb_false_r; try done.
  destruct (mem_flag 43 d), (mem_flag 32 d); done.
Qed.

Lemma unsigned_prefix d fl minus popt prec v base upper prefix buf :
  flags_match d fl minus (is_some popt) -> prec = default 0 popt ->
  unsigned_conv (d_conv d) = Some (base, upper, prefix) ->
  let fl' := if v =? 0 then without (conv_flags (d_conv d) fl) FL_ALT else conv_flags (d_conv d) fl in
  let c' := conv_prefix_char (d_conv d) in
  prefix_text (prefix_flags fl' c' prec buf) c' = alt_prefix d v popt (rev buf) prefix /\
  has fl' FL_LPAD = minus /\ has fl' FL_ZFILL = mem_flag 48 d /\ has fl' FL_PREC = is_some popt.
Proof.
  intros Hm Hp Hu fl' c'.
  assert (forall x, x = FL_LPAD \/ x = FL_ZFILL \/ x = FL_PREC \/ x = FL_NEGATIVE -> has fl' x = has fl x) as Hkeep.
  { intros x Hx. subst fl'. unfold conv_flags.
    destruct (v =? 0), (d_conv d), long64; destruct Hx as [-> | [-> | [-> | ->]]]; flag_bits; by rewrite ?orb_false_r. }
  rewrite !Hkeep by auto. destruct Hm. rewrite fm_lpad0, fm_zfill0, fm_prec0. split_and!; try done.
  assert (has fl' FL_ALT = negb (v =? 0) && match d_conv d with Fu => false | Fp => true | _ => mem_flag 35 d end) as Halt.
  { subst fl'. unfold conv_flags. destruct (v =? 0), (d_conv d), long64; simplify_eq/=; flag_bits; rewrite ?fm_alt0, ?orb_true_r; done. }
  assert (has fl' FL_PLUS = false /\ has fl' FL_SPACE = false) as [Hpl Hsp].
  { subst fl'. unfold conv_flags. destruct (v =? 0), (d_conv d), long64; simplify_eq/=; split; by flag_bits. }
  assert (match popt with Some p => Z.of_nat (length (rev buf)) <? p | None => false end = is_some popt && (Z.of_nat (length buf) <? prec)) as Hlt.
  { rewrite length_rev. destruct popt; simpl in *; by subst. }
  unfold alt_prefix. rewrite Hlt.
  assert (prefix_text (prefix_flags fl' c' prec buf) c' =
    if has fl' FL_ALT && negb (is_some popt && (Z.of_nat (length buf) <? prec) && (c' =? 0)) then 48 :: (if negb (c' =? 0) then [c'] else []) else []) as ->.
  { unfold prefix_flags. rewrite Hkeep, fm_prec0 by auto. unfold prefix_text.
    destruct (is_some popt && (Z.of_nat (length buf) <? prec) && (c' =? 0)); cbn [negb]; flag_bits;
      rewrite ?(Hkeep FL_NEGATIVE), ?fm_neg0, ?Hpl, ?Hsp by auto; rewrite ?andb_true_r, ?andb_false_r; cbn [orb]; [done|].
    by destruct (has fl' FL_ALT). }
  rewrite Halt. subst c'. generalize (is_some popt && (Z.of_nat (length buf) <? prec)). intros lt. destruct (d_conv d) eqn:Ec; simplify_eq/=; rewrite ?andb_false_r, ?andb_true_r; cbn [negb andb];
    destruct (mem_flag 35 d), (v =? 0); cbn [negb andb orb]; try done; by destruct lt.
Qed.

Lemma not_float c : is_float_conv need_c99 c = true -> c <> 99 /\ c <> 115.
Proof. intros Hc. split; intros ->; revert Hc; unfold is_float_conv; vm_compute; by destruct need_c99. Qed.

Lemma emits_va_string x : emits (va_string (S := S)) [AStr x] [] x.
Proof. intros [s n args] rest Ha Hn Hl. simpl in *. subst args. by rewrite Z.add_0_r. Qed.

Lemma emits_va_double x : emits (va_double (S := S)) [ADouble x] [] tt.
Proof. intros [s n args] rest Ha Hn Hl. simpl in *. subst args. by rewrite Z.add_0_r. Qed.

Lemma emits_assoc_read {A B D} (c : P S A) (k : A -> P S B) (g : B -> P S D) u1 u2 l a d :
  emits c u1 [] a -> emits (pbind (k a) g) u2 l d -> emits (pbind (pbind c k) g) (u1 ++ u2) l d.
Proof.
  intros Hc Hk. assert (emits (pbind c (fun a => pbind (k a) g)) (u1 ++ u2) l d) as Hb by (by eapply emits_read).
  intros st rest Ha Hn Hl. specialize (Hb st rest Ha Hn Hl). unfold pbind, bind in *.
  destruct (c st) as [[[] ?]|]; done.
Qed.

Definition number_conv (c : fconv) : bool :=
  match c with Fc | Fs | Ffloat _ => false | _ => true end.

Lemma conversion_int c fl width prec :
  number_conv c = true ->
  conversion (conv_char c) fl width prec = printf_int need_long_long need_percent_b fancy_divmod fuel (conv_char c) fl width prec.
Proof.
  intros Hc. unfold Printf.conversion.
  assert (is_float_conv need_c99 (conv_char c) = false) as -> by (unfold is_float_conv; destruct need_c99; by destruct c).
  by destruct c.
Qed.

(** The conversions of the reference, one kind at a time. *)
Section one_conversion.
Variables (d : directive) (fl : Z) (minus : bool) (width prec : Z) (popt : option Z) (fmt : list Z).
Hypothesis d_ok : dir_ok need_c99 need_percent_b d = true.
Hypothesis matches : flags_match d fl minus (is_some popt).
Hypothesis prec_value : prec = default 0 popt.
Hypothesis prec_range : 0 <= prec <= INT_MAX.
Hypothesis width_range : 0 <= width <= INT_MAX.

Abbreviation converts := (fun a out =>
  emits (pdo w <- conversion (conv_char (d_conv d)) fl width prec; finish fmt w) [a] out (Some fmt)).

Lemma conversion_unsigned a v base upper prefix :
  unsigned_conv (d_conv d) = Some (base, upper, prefix) -> unsigned_value d a = Some v ->
  let digits := value_text base upper v popt in
  let out := number_field minus (mem_flag 48 d) width popt [] (alt_prefix d v popt digits prefix) digits in
  (length out < fuel)%nat -> converts a out.
Proof.
  intros Hu Ev digits out Hf.
  assert (d_conv d = Fp -> d_size d = SNone) as Hps.
  { intros Ep. unfold dir_ok in d_ok. apply andb_true_iff in d_ok as [_ Hok]. rewrite Ep in Hok. by destruct (d_size d). }
  assert (base = 2 -> need_percent_b = true) as Hb2.
  { intros ->. unfold dir_ok in d_ok. apply andb_true_iff in d_ok as [_ Hok]. destruct (d_conv d); simplify_eq/=; done. }
  pose proof (int_digits_unsigned d fl minus popt prec a v base upper prefix matches prec_value Hps Hu Hb2 Ev) as Hd.
  destruct (unsigned_prefix d fl minus popt prec v base upper prefix (digits_buf base upper v popt) matches prec_value Hu) as (Hpre & Hlp & Hzf & Hpr).
  rewrite digits_buf_rev in Hpre. rewrite conversion_int by by destruct (d_conv d).
  eapply printf_int_spec; [exact Hd|exact Hpr|exact prec_value|lia| |exact Hf].
  by rewrite Hlp, Hzf, Hpre, digits_buf_rev.
Qed.

Lemma conversion_signed a k w x :
  d_conv d = Fd \/ d_conv d = Fi -> size_kind (d_size d) = (k, w) -> of_kind k a = Some x ->
  let out := number_field minus (mem_flag 48 d) width popt (sign_text d (swrap w x <? 0)) [] (value_text 10 false (Z.abs (swrap w x)) popt) in
  (length out < fuel)%nat -> converts a out.
Proof.
  intros Hs Ek Ex out Hf.
  assert (conv_char (d_conv d) <> 0) as Hc0 by (destruct Hs as [-> | ->]; done).
  assert (conv_char (d_conv d) = 100 \/ conv_char (d_conv d) = 105) as Hdi by (destruct Hs as [-> | ->]; auto).
  pose proof (int_digits_signed (conv_char (d_conv d)) d fl minus popt prec k w a x Hdi matches prec_value Ek Ex) as Hd. cbv zeta in Hd.
  destruct (signed_prefix d fl minus _ (conv_char (d_conv d)) (swrap w x <? 0) prec (digits_buf 10 false (Z.abs (swrap w x)) popt) matches Hc0)
    as (Hpre & Hlp & Hzf & Hpr).
  rewrite conversion_int by by destruct Hs as [-> | ->].
  eapply printf_int_spec; [exact Hd|exact Hpr|exact prec_value|lia| |exact Hf].
  subst out. by rewrite Hlp, Hzf, Hpre, digits_buf_rev, number_field_pre.
Qed.

Lemma conversion_char x :
  d_conv d = Fc -> (length (field minus width [uwrap 8 x]) < fuel)%nat -> converts (AInt x) (field minus width [uwrap 8 x]).
Proof.
  intros -> Hf. unfold Printf.conversion. cbn [conv_char].
  assert (is_float_conv need_c99 99 = false) as -> by (unfold is_float_conv; by destruct need_c99).
  change (99 =? 99) with true. cbv iota. apply finish_some. unfold printf_char.
  eapply (emits_eq _ ([AInt x] ++ [])); [done|reflexivity|reflexivity|]. eapply emits_assoc_read; [apply emits_va_int|].
  assert (has (without fl FL_PREC) FL_LPAD = minus) as Hlp by (rewrite <- (fm_lpad _ _ _ _ matches); by flag_bits).
  rewrite <- Hlp in *. by apply (str_lpad_spec (without fl FL_PREC) width [uwrap 8 x] []).
Qed.

Lemma conversion_str str t :
  d_conv d = Fs ->
  string_upto (match str with Some s => s | None => null_text end) (match popt with Some p => p | None => 2 ^ long_bits - 1 end) = Some t ->
  (length (field minus width t) < fuel)%nat -> converts (AStr str) (field minus width t).
Proof.
  intros -> Et Hf. unfold Printf.conversion. cbn [conv_char].
  assert (is_float_conv need_c99 115 = false) as -> by (unfold is_float_conv; by destruct need_c99).
  change (115 =? 99) with false. change (115 =? 115) with true. cbv iota. apply finish_some. unfold printf_str.
  pose proof long_bits_le as Hlb. assert (2 ^ 32 <= 2 ^ long_bits) by (apply Z.pow_le_mono_r; lia). unfold INT_MAX in *.
  eapply (emits_eq _ ([AStr str] ++ [])); [done|reflexivity|reflexivity|]. eapply emits_assoc_read; [apply emits_va_string|].
  assert ((if has fl FL_PREC then uwrap long_bits prec else 2 ^ long_bits - 1) = match popt with Some p => p | None => 2 ^ long_bits - 1 end) as ->.
  { rewrite (fm_prec _ _ _ _ matches). destruct popt as [p|]; simpl in *; [|done]. subst. apply uwrap_small. lia. }
  cbv zeta. eapply (emits_eq _ ([] ++ [])); [done|reflexivity|reflexivity|].
  match type of Et with string_upto ?s ?n = _ =>
    assert (0 <= n) as Hn0 by (destruct popt; simpl in *; lia); destruct (strnlen_upto s n t Hn0 Et) as [Hn [tl Etl]] end.
  rewrite Etl in *.
  eapply emits_assoc_read; [exact Hn|]. cbv beta. rewrite <- (fm_lpad _ _ _ _ matches) in *. by apply str_lpad_spec.
Qed.

Lemma conversion_float c bits :
  d_conv d = Ffloat c -> (length (field minus width (take 7 float_text)) < fuel)%nat ->
  converts (ADouble bits) (field minus width (take 7 float_text)).
Proof.
  intros Ef Hf. unfold dir_ok in d_ok. rewrite Ef in *. rewrite !andb_true_iff in d_ok. destruct d_ok as (_ & ((Hfc & _) & _) & _).
  unfold Printf.conversion. cbn [conv_char]. rewrite Hfc.
  eapply (emits_eq _ ([ADouble bits] ++ [])); [done|reflexivity|reflexivity|]. eapply finish_read; [apply emits_va_double|]. cbv beta.
  apply finish_some. rewrite <- (fm_lpad _ _ _ _ matches) in *. by apply (str_lpad_spec fl width (take 7 float_text) [0]).
Qed.

Lemma conversion_spec args out rest :
  render_conv need_long_long d minus width popt args = Some (out, rest) -> (length out < fuel)%nat ->
  exists a, args = a :: rest /\ converts a out.
Proof.
  intros Hr Hf. destruct args as [|a args]; [unfold render_conv in Hr; by destruct (d_conv d)|].
  assert (forall base upper prefix, unsigned_conv (d_conv d) = Some (base, upper, prefix) ->
    match unsigned_value d a with
    | Some v => Some (number_field minus (mem_flag 48 d) width popt []
        (alt_prefix d v popt (value_text base upper v popt) prefix) (value_text base upper v popt), args)
    | None => None
    end = Some (out, rest) -> exists a0, a :: args = a0 :: rest /\ converts a0 out) as Huns.
  { intros base upper prefix Hu Hv. destruct (unsigned_value d a) as [v|] eqn:Ev; [|done].
    injection Hv as <- <-. exists a. split; [done|]. by eapply conversion_unsigned. }
  assert (forall k w, (d_conv d = Fd \/ d_conv d = Fi) -> size_kind (d_size d) = (k, w) ->
    match of_kind k a with
    | Some x => Some (number_field minus (mem_flag 48 d) width popt (sign_text d (swrap w x <? 0)) [] (value_text 10 false (Z.abs (swrap w x)) popt), args)
    | None => None end = Some (out, rest) -> exists a0, a :: args = a0 :: rest /\ converts a0 out) as Hsig.
  { intros k w Hs Ek Hv. destruct (of_kind k a) as [x|] eqn:Ex; [|done]. injection Hv as <- <-. exists a. split; [done|]. by eapply conversion_signed. }
  unfold render_conv in Hr. unfold unsigned_value in Huns. destruct (size_kind (d_size d)) as [k w] eqn:Ek.
  destruct (d_conv d) as [| | | | | | | | | | |c] eqn:Ec.
  1,2: by eapply Hsig; eauto.
  1-7: eapply Huns; [reflexivity|exact Hr].
  - destruct a as [x| | | | |]; try done. injection Hr as <- <-. exists (AInt x). split; [done|]. rewrite <- Ec. by apply conversion_char.
  - destruct a as [| | | |str|]; try done. destruct (string_upto _ _) as [t|] eqn:Et; [|done]. injection Hr as <- <-.
    exists (AStr str). split; [done|]. rewrite <- Ec. by apply conversion_str.
  - destruct a as [| | | | |bits]; try done. injection Hr as <- <-. exists (ADouble bits). split; [done|]. rewrite <- Ec. by eapply conversion_float.
Qed.
End one_conversion.

(** ** Whole formats *)

Abbreviation format_step := (format_step need_long_long need_c99 need_percent_b fancy_divmod (S := S) fuel).

Lemma field_width minus width l : width <= Z.of_nat (length (field minus width l)).
Proof.
  unfold field. pose proof (length_spaces (width - Z.of_nat (length l))). destruct minus; rewrite length_app; lia.
Qed.

Lemma number_field_width minus zero width popt sign prefix ds :
  width <= Z.of_nat (length (number_field minus zero width popt sign prefix ds)).
Proof.
  unfold number_field. destruct popt; [apply field_width|]. destruct (zero && negb minus); [|apply field_width].
  rewrite !length_app. pose proof (length_zeros (width - Z.of_nat (length sign + length prefix + length ds))). lia.
Qed.

Lemma render_conv_width d minus width popt args out rest :
  render_conv need_long_long d minus width popt args = Some (out, rest) -> width <= Z.of_nat (length out).
Proof.
  unfold render_conv. intros Hr.
  repeat match type of Hr with
  | match ?x with _ => _ end = Some _ => destruct x; try discriminate Hr
  | (let '(_, _) := ?x in _) = Some _ => destruct x
  end; injection Hr as <- <-; first [apply field_width | apply number_field_width].
Qed.

Definition is_lit (p : piece) : bool := match p with Conv _ => false | _ => true end.
Definition lit_out (p : piece) : list Z := match p with Lit c => [c] | _ => [37] end.
Definition lits_out (ps : list piece) : list Z := flat_map lit_out ps.

Abbreviation literal_body := (fun fmt : list Z =>
    pdo '(c, fmt) <- fetch (S := S) fmt;
    if c =? 0 then pret (inr None)
    else if c =? 37 then
      pdo '(c, fmt) <- fetch fmt;
      if negb (c =? 37) then pret (inr (Some (c, fmt)))
      else prun my_putc c; pret (inl fmt)
    else prun my_putc c; pret (inl fmt)).

Lemma literal_loop lits : forall f tl r,
  Forall (fun p => is_lit p = true /\ piece_ok need_c99 need_percent_b p = true) lits ->
  emits (literal_body tl) [] [] (inr r) ->
  emits (ploop literal_body (length lits + Datatypes.S f) (format_text lits ++ tl)) [] (lits_out lits) r.
Proof.
  induction lits as [|p lits IH]; intros f tl r Hl Hb; [by apply emits_stop|].
  inversion_clear Hl as [|? ? [Hp Hok] Hl']. cbn [length Nat.add format_text flat_map lits_out]. rewrite <- app_assoc.
  apply (emits_go _ _ _ (format_text lits ++ tl) [] []); [|by apply IH].
  destruct p as [c| |]; [| |done]; cbn [piece_text lit_out app fetch]; rewrite pbind_pret; cbv iota.
  - simpl in Hok. bool_to_prop. rewrite !(proj2 (Z.eqb_neq c _)) by lia.
    apply (emits_out _ _ [c] [] tt); [apply emits_putc|apply emits_ret].
  - change (37 =? 0) with false. change (37 =? 37) with true. cbv iota. cbn [fetch]. rewrite pbind_pret. cbv iota.
    change (negb (37 =? 37)) with false. cbv iota. apply (emits_out _ _ [37] [] tt); [apply emits_putc|apply emits_ret].
Qed.

Lemma literal_spec lits tl r :
  Forall (fun p => is_lit p = true /\ piece_ok need_c99 need_percent_b p = true) lits -> (length lits < fuel)%nat ->
  emits (literal_body tl) [] [] (inr r) -> emits (literal fuel (format_text lits ++ tl)) [] (lits_out lits) r.
Proof.
  intros Hl Hf Hb. unfold literal. replace fuel with (length lits + Datatypes.S (fuel - length lits - 1))%nat by lia.
  by apply literal_loop.
Qed.

(** The first character of a specification is not a percent sign. *)
Lemma dir_text_head d :
  dir_ok need_c99 need_percent_b d = true -> exists c t, dir_text d = c :: t /\ c <> 37 /\ c <> 0.
Proof.
  intros Hd. destruct (dir_ok_parts need_c99 need_percent_b d Hd) as (H1 & H2 & H3 & H4 & H5). unfold dir_text.
  destruct (d_flags d) as [|c l]; [|exists c; eexists; split; [reflexivity|]].
  2: { simpl in H1. apply andb_true_iff in H1 as [Hc _]. split; intros ->; discriminate. }
  destruct (d_width d) as [|[|n l]|]; [|done| |by exists 42; eexists].
  2: { exists (n + 48). eexists. split; [reflexivity|]. apply andb_true_iff in H2 as [Hn _].
       apply dec_ok_iff in Hn as [Hn _]. inversion_clear Hn. lia. }
  destruct (d_prec d); [|by exists 46; eexists..].
  destruct (d_size d); [|by eexists _, _..]. exists (conv_char (d_conv d)), []. split; [done|].
  destruct (conv_char_letter need_c99 _ H5). lia.
Qed.

(** The width and precision that the code reads are those of the reference. *)
Lemma get_width_args w args width args1 :
  get_width w args = Some (width, args1) -> exists x, args = width_args w x ++ args1 /\ width = width_value w x.
Proof.
  destruct w as [|n|]; simpl; [intros [= <- <-]; by exists 0|intros [= <- <-]; by exists 0|].
  destruct args as [|[x| | | | |] args]; try done. intros [= <- <-]. by exists x.
Qed.

Lemma get_prec_args p args popt args1 :
  match p with PNum n => dec_ok n | _ => true end = true -> get_prec p args = Some (popt, args1) ->
  exists y, args = prec_args p y ++ args1 /\ prec_value p y <= INT_MAX /\
    popt = if (match p with PNone => false | _ => true end) && negb (prec_value p y <? 0) then Some (prec_value p y) else None.
Proof.
  intros Hp. destruct p as [|n|]; simpl in *.
  - intros [= <- <-]. exists 0. split_and!; [done|unfold INT_MAX; lia|done].
  - intros [= <- <-]. apply dec_ok_iff in Hp as [Hn Hle]. exists 0. split_and!; [done|done|].
    unfold dec_value in *. rewrite (proj2 (Z.ltb_ge _ 0)); [done|]. apply horner_ge; [lia..|].
    eapply Forall_impl; [exact Hn|simpl; lia].
  - destruct args as [|[x| | | | |] args]; try done. intros [= <- <-]. exists x. split_and!; [done| |by destruct (swrap 32 x <? 0)].
    pose proof (swrap_range 32 x ltac:(lia)). unfold INT_MAX. change (32 - 1) with 31 in *. lia.
Qed.

(** The part of a pass after the specification is read. *)
Definition after_scan (c flags width prec : Z) (fmt : list Z) : P S (option (list Z)) :=
  let '(prec, flags) := if prec <? 0 then (0, without flags FL_PREC) else (prec, flags) in
  pdo '(width, flags) <-
    (if width <? 0 then
       do width <- int_ (- width);
       pret (width, Z.lor flags FL_LPAD)
     else pret (width, flags));
  pdo w <- conversion c flags width prec;
  finish fmt w.

Lemma after_scan_spec d fmt args out rest width prec popt :
  dir_ok need_c99 need_percent_b d = true ->
  popt = (if (match d_prec d with PNone => false | _ => true end) && negb (prec <? 0) then Some prec else None) ->
  (d_prec d = PNone -> prec = 0) -> prec <= INT_MAX -> INT_MIN <= width ->
  render_conv need_long_long d (mem_flag 45 d || (width <? 0)) (Z.abs width) popt args = Some (out, rest) -> (length out < fuel)%nat ->
  exists a, args = a :: rest /\ emits (after_scan (conv_char (d_conv d)) (dir_flags d) width prec fmt) [a] out (Some fmt).
Proof.
  intros Hok Hpo Hpn Hple Hwge Hr Hf.
  set (prec' := if prec <? 0 then 0 else prec).
  set (fl1 := if prec <? 0 then without (dir_flags d) FL_PREC else dir_flags d).
  set (fl2 := if width <? 0 then Z.lor fl1 FL_LPAD else fl1).
  assert (flags_match d fl1 (mem_flag 45 d) (is_some popt)) as Hm1.
  { pose proof (dir_flags_match d) as Hm. subst fl1 popt. destruct (prec <? 0); cbn [negb].
    - rewrite andb_false_r. by eapply match_no_prec.
    - rewrite andb_true_r. by destruct (d_prec d). }
  assert (flags_match d fl2 (mem_flag 45 d || (width <? 0)) (is_some popt)) as Hm2.
  { subst fl2. destruct (width <? 0); [rewrite orb_true_r; by eapply match_minus|by rewrite orb_false_r]. }
  assert (prec' = default 0 popt /\ 0 <= prec' <= INT_MAX) as [Hp' Hp0'].
  { subst prec' popt. destruct (Z.ltb_spec prec 0); cbn [negb]; [rewrite andb_false_r; split; [done|unfold INT_MAX; lia]|].
    rewrite andb_true_r. destruct (d_prec d); simpl; [rewrite Hpn by done; split; [done|unfold INT_MAX; lia]|split; [done|lia]..]. }
  assert (Z.of_nat (length out) <= INT_MAX -> exists a, args = a :: rest /\
    emits (pdo w <- conversion (conv_char (d_conv d)) fl2 (Z.abs width) prec'; finish fmt w) [a] out (Some fmt)) as Hconv.
  { intros Hmax. pose proof (render_conv_width _ _ _ _ _ _ _ Hr) as Hwid. eapply conversion_spec; try done. lia. }
  assert (exists a, args = a :: rest) as [a ->].
  { unfold render_conv in Hr. destruct args as [|a args]; [by destruct (d_conv d)|]. exists a. f_equal.
    repeat match type of Hr with
    | match ?x with _ => _ end = Some _ => destruct x; try discriminate Hr
    | (let '(_, _) := ?x in _) = Some _ => destruct x
    end; by injection Hr as _ <-. }
  exists a. split; [done|]. apply emits_bounded. intros Hmax. destruct (Hconv Hmax) as (a' & [= <-] & Hem).
  unfold after_scan.
  replace (if prec <? 0 then (0, without (dir_flags d) FL_PREC) else (prec, dir_flags d)) with (prec', fl1)
    by (subst prec' fl1; by destruct (prec <? 0)).
  cbv iota. rewrite <- (app_nil_l [a]). apply (emits_read _ _ [] [a] out (Z.abs width, fl2)); [|exact Hem].
  pose proof (render_conv_width _ _ _ _ _ _ _ Hr) as Hwid. unfold INT_MIN, INT_MAX in *.
  subst fl2. destruct (Z.ltb_spec width 0).
  - apply emits_int; [apply fits_nonneg; unfold INT_MAX; lia|]. replace (- width) with (Z.abs width) by lia. apply emits_ret.
  - replace width with (Z.abs width) at 1 by lia. apply emits_ret.
Qed.

Lemma width_value_ge w x : match w with WNum n => dec_ok n && (0 <? hd 0 n) | _ => true end = true -> INT_MIN <= width_value w x.
Proof.
  unfold INT_MIN. intros Hw. destruct w as [|n|]; simpl; [lia| |].
  - apply andb_true_iff in Hw as [Hw _]. apply dec_ok_iff in Hw as [Hn _]. unfold dec_value.
    pose proof (horner_ge 10 n 0 ltac:(lia) ltac:(lia)) as Hge.
    specialize (Hge ltac:(eapply Forall_impl; [exact Hn|simpl; lia])). lia.
  - pose proof (swrap_range 32 x ltac:(lia)). change (32 - 1) with 31 in *. lia.
Qed.

Lemma dir_step lits d fmt args out rest :
  Forall (fun p => is_lit p = true /\ piece_ok need_c99 need_percent_b p = true) lits ->
  dir_ok need_c99 need_percent_b d = true -> render need_long_long d args = Some (out, rest) ->
  (length lits < fuel)%nat -> (length (dir_text d) < fuel)%nat -> (length out < fuel)%nat ->
  exists used, args = used ++ rest /\
    emits (format_step (format_text lits ++ 37 :: dir_text d ++ fmt)) used (lits_out lits ++ out) (Some fmt).
Proof.
  intros Hl Hok Hr Hf1 Hf2 Hf3. unfold render in Hr.
  destruct (get_width (d_width d) args) as [[w args1]|] eqn:Ew; [|done].
  destruct (get_prec (d_prec d) args1) as [[popt args2]|] eqn:Ep; [|done].
  destruct (dir_ok_parts need_c99 need_percent_b d Hok) as (H1 & H2 & H3 & H4 & H5).
  destruct (get_width_args _ _ _ _ Ew) as (x & -> & ->). destruct (get_prec_args _ _ _ _ H3 Ep) as (y & -> & Hple & Hpo).
  destruct (after_scan_spec d fmt args2 out rest (width_value (d_width d) x) (prec_value (d_prec d) y) popt) as (a & -> & Hem); try done.
  { by intros ->. } { by apply width_value_ge. }
  exists ((width_args (d_width d) x ++ prec_args (d_prec d) y) ++ [a]). split; [by rewrite <- !app_assoc|].
  destruct (dir_text_head d Hok) as (c & t & Et & Hc37 & Hc0).
  assert (emits (literal_body (37 :: dir_text d ++ fmt)) [] [] (inr (Some (c, t ++ fmt)))) as Hlit.
  { cbn [fetch]. rewrite pbind_pret, Et. cbn [app]. cbv iota. change (37 =? 0) with false. change (37 =? 37) with true. cbv iota.
    cbn [fetch]. rewrite pbind_pret. cbv iota. rewrite (proj2 (Z.eqb_neq c 37)) by done. apply emits_ret. }
  unfold Printf.format_step. rewrite <- (app_nil_l ((_ ++ _) ++ _)).
  eapply (emits_bind _ _ [] _ (lits_out lits) out); [by apply literal_spec|]. cbv iota.
  eapply (emits_read _ _ _ [a] out
    (Some (conv_char (d_conv d), dir_flags d, width_value (d_width d) x, prec_value (d_prec d) y, fmt))); [|exact Hem].
  pose proof (scan_dir need_c99 need_percent_b d (fuel - length (dir_text d)) fmt x y Hok) as Hscan.
  replace (length (dir_text d) + (fuel - length (dir_text d)))%nat with fuel in Hscan by lia.
  rewrite Et in Hscan. exact Hscan.
Qed.

(** A '%' right before the terminator is taken for an unknown conversion: the
    terminator is put, and the format is read on behind it. *)
Lemma lone_percent_step fmt :
  emits (format_step (37 :: 0 :: fmt)) [] [37; 0] (Some fmt).
Proof.
  assert (conversion 0 0 0 0 = (prun my_putc 37; prun my_putc 0; pret None)) as Ec
    by (unfold Printf.conversion, printf_int, int_digits, is_float_conv; destruct need_c99, need_percent_b; reflexivity).
  destruct fuel as [|f]; [lia|]. unfold Printf.format_step. eapply emits_quiet.
  { apply emits_stop. cbn [fetch]. rewrite !pbind_pret. apply emits_ret. }
  cbv iota beta. eapply emits_quiet.
  { apply emits_stop. unfold scan_iter.
    assert (scan_step need_c99 0 0 0 0 (S := S) = pret Break) as -> by (unfold scan_step, scan_sizes, check_int_sizes; by destruct need_c99).
    rewrite pbind_pret. apply emits_ret. }
  cbv iota beta. change (0 <? 0) with false. cbv iota. rewrite pbind_pret.
  rewrite Ec.
  apply (emits_out _ _ [37; 0] [] None); [|apply emits_ret].
  apply (emits_out _ _ [37] [0] tt); [apply emits_putc|]. apply (emits_out _ _ [0] [] tt); [apply emits_putc|apply emits_ret].
Qed.

Lemma format_text_app ps qs : format_text (ps ++ qs) = format_text ps ++ format_text qs.
Proof. apply flat_map_app. Qed.

Lemma lits_out_app ps qs : lits_out (ps ++ qs) = lits_out ps ++ lits_out qs.
Proof. apply flat_map_app. Qed.

Lemma piece_text_pos p : (0 < length (piece_text p))%nat.
Proof. destruct p; simpl; lia. Qed.

Lemma length_lits ps : (length ps <= length (format_text ps))%nat.
Proof.
  induction ps as [|p ps IH]; simpl; [lia|]. rewrite length_app. pose proof (piece_text_pos p).
  unfold format_text in *. lia.
Qed.

Lemma format_run ps : forall lits f args out rest,
  Forall (fun p => is_lit p = true /\ piece_ok need_c99 need_percent_b p = true) lits ->
  forallb (piece_ok need_c99 need_percent_b) ps = true -> render_format need_long_long ps args = Some (out, rest) ->
  (length ps < f)%nat -> (length (format_text lits ++ format_text ps) < fuel)%nat -> (length (lits_out lits ++ out) < fuel)%nat ->
  exists used, args = used ++ rest /\
    emits (ploop (fun fmt =>
      pdo x <- format_step fmt;
      match x with Some fmt => pret (inl fmt) | None => pret (inr tt) end) f (format_text lits ++ format_text ps ++ [0]))
      used (lits_out lits ++ out) tt.
Proof.
  induction ps as [|p ps IH]; intros lits [|f] args out rest Hl Hok Hr Hf Hf1 Hf2; simpl in Hf; try lia.
  - simpl in Hr. injection Hr as <- <-. exists []. split; [done|]. apply emits_stop. cbn [format_text flat_map app].
    rewrite length_app in Hf1. pose proof (length_lits lits).
    assert (emits (literal_body [0]) [] [] (inr None)) as Hlit by (cbn [fetch]; rewrite pbind_pret; apply emits_ret).
    apply (emits_eq _ [] [] (((lits_out lits ++ []) ++ [])) _ (inr tt) (inr tt)); [done|by rewrite !app_nil_r|done|].
    apply (emits_out _ _ (lits_out lits ++ []) [] (None : option (list Z))); [|apply emits_ret].
    unfold Printf.format_step. eapply emits_out; [apply literal_spec; [done|lia|exact Hlit]|apply emits_ret].
  - simpl in Hok. apply andb_true_iff in Hok as [Hp Hok]. simpl in Hr.
    destruct (render_piece need_long_long p args) as [[l args1]|] eqn:Ep; [|done].
    destruct (render_format need_long_long ps args1) as [[l' args2]|] eqn:Eps; [|done]. injection Hr as <- <-.
    destruct (is_lit p) eqn:Elit.
    + assert (args1 = args /\ l = lit_out p) as [-> ->] by (destruct p; simplify_eq/=; done).
      destruct (IH (lits ++ [p]) (Datatypes.S f) args l' args2) as (used & Hu & Hem); try done; [|lia|..].
      * apply Forall_app. split; [done|]. by constructor.
      * rewrite format_text_app, <- app_assoc. cbn [format_text flat_map]. by rewrite app_nil_r.
      * rewrite lits_out_app, <- app_assoc. cbn [lits_out flat_map]. by rewrite app_nil_r.
      * exists used. split; [done|]. rewrite format_text_app, lits_out_app, <- !app_assoc in Hem. cbn [format_text lits_out flat_map] in *.
        rewrite !app_nil_r in Hem. rewrite <- !app_assoc. exact Hem.
    + destruct p as [| |d]; try done. simpl in Ep.
      rewrite !length_app in *. simpl in Hf1. rewrite length_app in Hf1.
      pose proof (length_lits lits). fold (format_text ps) in Hf1.
      destruct (dir_step lits d (format_text ps ++ [0]) args l args1) as (u1 & Hu1 & Hem1); try done; try lia.
      destruct (IH [] f args1 l' args2) as (u2 & Hu2 & Hem2); [by constructor|done|done|lia|simpl; lia|simpl; lia|].
      exists (u1 ++ u2). split; [by rewrite Hu1, Hu2, app_assoc|]. cbn [lits_out flat_map app] in Hem2. rewrite (app_assoc (lits_out lits)).
      eapply (emits_go _ f _ (format_text ps ++ [0]) u1 u2); [|exact Hem2].
      apply (emits_eq _ (u1 ++ []) _ ((lits_out lits ++ l) ++ []) _ (inl (format_text ps ++ [0])) (inl (format_text ps ++ [0])));
        [by rewrite app_nil_r|by rewrite app_nil_r|done|].
      eapply (emits_bind _ _ u1 [] _ [] (Some (format_text ps ++ [0]))); [|apply emits_ret].
      cbn [format_text flat_map piece_text app] in *. rewrite <- !app_assoc. cbn [app]. exact Hem1.
Qed.

(** ** vfprintf *)

(** From what the loop puts to what the call returns. *)
Lemma vfprintf_emits fmt used rest out s :
  emits (format_loop need_long_long need_c99 need_percent_b fancy_divmod fuel fmt) used out tt ->
  Z.of_nat (length out) <= INT_MAX -> Z.land (str_flags s) 0x0002 <> 0 ->
  vfprintf need_long_long need_c99 need_percent_b fancy_divmod fuel fmt (used ++ rest) s =
  match outs out s with
  | Some (true, s') => Some (Z.of_nat (length out), s')
  | Some (false, s') => Some (-1, str_set_flags (uwrap 8 (Z.lor (str_flags s') 0x0004)) s')
  | None => None
  end.
Proof.
  intros Hem Hmax Hwr. unfold vfprintf. rewrite (proj2 (Z.eqb_neq _ 0) Hwr).
  specialize (Hem (Pst s 0 (used ++ rest)) rest eq_refl). simpl in Hem. specialize (Hem ltac:(lia) ltac:(lia)).
  destruct (outs out s) as [[[] s']|]; [by rewrite Hem|by destruct Hem as (n & args & ->)|by rewrite Hem].
Qed.

Lemma vfprintf_spec ps args out rest s :
  forallb (piece_ok need_c99 need_percent_b) ps = true -> render_format need_long_long ps args = Some (out, rest) ->
  Z.of_nat (length out) <= INT_MAX -> (length (format_text ps) < fuel)%nat -> (length out < fuel)%nat ->
  Z.land (str_flags s) 0x0002 <> 0 ->
  vfprintf need_long_long need_c99 need_percent_b fancy_divmod fuel (format_text ps ++ [0]) args s =
  match outs out s with
  | Some (true, s') => Some (Z.of_nat (length out), s')
  | Some (false, s') => Some (-1, str_set_flags (uwrap 8 (Z.lor (str_flags s') 0x0004)) s')
  | None => None
  end.
Proof.
  intros Hok Hr Hmax Hf1 Hf2 Hwr. pose proof (length_lits ps).
  destruct (format_run ps [] fuel args out rest) as (used & -> & Hem); [by constructor|done|done|lia|done|done|].
  by apply vfprintf_emits.
Qed.

Lemma lone_percent_spec ps args out rest s :
  forallb (piece_ok need_c99 need_percent_b) ps = true -> render_format need_long_long ps args = Some (out, rest) ->
  Z.of_nat (length out) + 2 <= INT_MAX -> (length (format_text ps) + 1 < fuel)%nat -> (length out < fuel)%nat ->
  Z.land (str_flags s) 0x0002 <> 0 ->
  vfprintf need_long_long need_c99 need_percent_b fancy_divmod fuel (37 :: 0 :: format_text ps ++ [0]) args s =
  match outs (37 :: 0 :: out) s with
  | Some (true, s') => Some (Z.of_nat (length out) + 2, s')
  | Some (false, s') => Some (-1, str_set_flags (uwrap 8 (Z.lor (str_flags s') 0x0004)) s')
  | None => None
  end.
Proof.
  intros Hok Hr Hmax Hf1 Hf2 Hwr. pose proof (length_lits ps).
  destruct (format_run ps [] (pred fuel) args out rest) as (used & -> & Hem); [by constructor|done|done|lia|simpl; lia|done|].
  rewrite (vfprintf_emits _ used rest (37 :: 0 :: out)); [..|simpl; lia|done].
  - cbn [length]. by replace (Z.of_nat (Datatypes.S (Datatypes.S (length out)))) with (Z.of_nat (length out) + 2) by lia.
  - unfold format_loop. assert (fuel = Datatypes.S (pred fuel)) as Ef by lia.
    match goal with |- emits (ploop ?b _ ?x) ?u ?l ?r => cut (emits (ploop b (Datatypes.S (pred fuel)) x) u l r); [by rewrite <- Ef|] end.
    apply (emits_go _ _ _ (format_text ps ++ [0]) [] used [37; 0] out); [|exact Hem].
    apply (emits_out _ _ [37; 0] [] (Some (format_text ps ++ [0]))); [apply lone_percent_step|apply emits_ret].
Qed.
End vf_run.
