(* ===== verification/Stdio.v ===== *)
(** * Buffered streams: libc/stdio

    bufio.c with bufio_setvbuf's modes left out, and the functions on top of it:
    getc, ungetc, putc, fflush, fseek, ftell, fread, fwrite, fgets, fputs,
    clearerr, rewind.  The state is the [struct __file_bufio]; its buffer is an
    array of its own (an access outside it is a fault), and the system calls
    behind [read], [write] and [lseek] are the parameter [Device].  Positions are
    of the type __off_t, with 64 bits, and an overflow in their arithmetic is a
    fault; fseek and ftell convert them from and to long. *)

From S2P Require Import Prelude CMem.
From stdpp Require Import base list gmap.
From Stdlib Require Import ZArith Lia.

Local Open Scope Z_scope.

(** ** What the streams rely on *)

(** [dev_read n] is the return value and the bytes that were stored;
    [dev_lseek] is [None] for a null pointer; [dev_stdin] says whether the stream
    is stdin (and stdin and stdout are linked), [dev_fflush_stdout] is what
    [fflush(stdout)] does. *)
Class Device (D : Type) := {
  dev_read : Z -> D -> Z * list Z * D;
  dev_write : list Z -> D -> Z * D;
  dev_lseek : option (Z -> Z -> D -> Z * D);
  dev_stdin : bool;
  dev_fflush_stdout : D -> D }.

Definition __SRD : Z := 0x01.
Definition __SWR : Z := 0x02.
Definition __SERR : Z := 0x04.
Definition __SEOF : Z := 0x08.
Definition __SCLOSE : Z := 0x10.
Definition __SEXT : Z := 0x20.
Definition __SBUF : Z := 0x40.
Definition __BLBF : Z := 0x02.
Definition EOF : Z := -1.
Definition _FDEV_ERR : Z := -1.
Definition _FDEV_EOF : Z := -2.
Definition SEEK_SET : Z := 0.
Definition SEEK_CUR : Z := 1.
Definition SEEK_END : Z := 2.
Definition OFF_MAX : Z := 2 ^ 63 - 1.

(** ** The state *)

Record FILE {D : Type} := File {
  unget : Z;
  flags : Z;
  dir : Z;
  bflags : Z;
  pos : Z;
  buf : list Z;
  size : Z;
  len : Z;
  off : Z;
  dev : D }.
Arguments FILE : clear implicits.
Arguments File {_}.

Section stdio.
Context {D : Type} `{Device D} `{Arch}.
Variable fuel : nat.

Abbreviation M A := (C (FILE D) A).

Definition set_unget v (f : FILE D) := File v (flags f) (dir f) (bflags f) (pos f) (buf f) (size f) (len f) (off f) (dev f).
Definition set_flags v (f : FILE D) := File (unget f) v (dir f) (bflags f) (pos f) (buf f) (size f) (len f) (off f) (dev f).
Definition set_dir v (f : FILE D) := File (unget f) (flags f) v (bflags f) (pos f) (buf f) (size f) (len f) (off f) (dev f).
Definition set_pos v (f : FILE D) := File (unget f) (flags f) (dir f) (bflags f) v (buf f) (size f) (len f) (off f) (dev f).
Definition set_buf v (f : FILE D) := File (unget f) (flags f) (dir f) (bflags f) (pos f) v (size f) (len f) (off f) (dev f).
Definition set_len v (f : FILE D) := File (unget f) (flags f) (dir f) (bflags f) (pos f) (buf f) (size f) v (off f) (dev f).
Definition set_off v (f : FILE D) := File (unget f) (flags f) (dir f) (bflags f) (pos f) (buf f) (size f) (len f) v (dev f).
Definition set_dev (v : D) (f : FILE D) := File (unget f) (flags f) (dir f) (bflags f) (pos f) (buf f) (size f) (len f) (off f) v.

Definition rd {A} (g : FILE D -> A) : M A := fun f => Some (g f, f).

(** [flags |= x], an unsigned byte. *)
Definition or_flags (x : Z) : M unit := upd (fun f => set_flags (uwrap 8 (Z.lor (flags f) x)) f).
Definition clear_flags (x : Z) : M unit := upd (fun f => set_flags (Z.land (flags f) (Z.lnot x)) f).
Definition has_flag (x : Z) : M bool := do fl <- rd flags; ret (negb (Z.land fl x =? 0)).

(** A value of type __off_t; [bf->pos += n]. *)
Definition off_t (v : Z) : M Z := if (- 2 ^ 63 <=? v) && (v <=? OFF_MAX) then ret v else fault.
Definition add_pos (n : Z) : M unit :=
  do p <- rd pos;
  do p <- off_t (p + n);
  upd (set_pos p).

(** [n] bytes of the buffer from [b]. *)
Definition slice (b n : Z) : M (list Z) :=
  do bs <- rd buf;
  if (0 <=? b) && (0 <=? n) && (b + n <=? Z.of_nat (length bs)) then ret (take (Z.to_nat n) (drop (Z.to_nat b) bs))
  else fault.

(** The bytes [l] stored in the buffer from [b]. *)
Definition store_buf (b : Z) (l : list Z) : M unit :=
  do bs <- rd buf;
  if (0 <=? b) && (b + Z.of_nat (length l) <=? Z.of_nat (length bs)) then
    upd (set_buf (take (Z.to_nat b) bs ++ l ++ drop (Z.to_nat b + length l) bs))
  else fault.

(** ** local-stdio.h *)

Definition bufio_write (l : list Z) : M Z :=
  fun f => let '(r, d) := dev_write l (dev f) in Some (r, set_dev d f).

(** The return value and the bytes stored. *)
Definition bufio_read (n : Z) : M (Z * list Z) :=
  fun f => let '(r, l, d) := dev_read n (dev f) in Some ((r, l), set_dev d f).

Definition bufio_seekable : M bool := ret (match dev_lseek with Some _ => true | None => false end).

Definition bufio_lseek (offset whence : Z) : M Z :=
  match dev_lseek with
  | Some lseek => fun f => let '(r, d) := lseek offset whence (dev f) in Some (r, set_dev d f)
  | None => ret _FDEV_ERR
  end.

Definition __non_atomic_exchange_ungetc (v : Z) : M Z := do e <- rd unget; run upd (set_unget v); ret e.
Definition __non_atomic_compare_exchange_ungetc (d v : Z) : M bool :=
  do e <- rd unget; if negb (e =? d) then ret false else run upd (set_unget v); ret true.

(** ** bufio.c *)

(** [while (bf->len)] of a flush: [b] is the index of the local [buf]. *)
Definition flush_step (b : Z) : M (Z + Z) :=
  do n <- rd len;
  if n =? 0 then ret (inr 0)
  else
    do l <- slice b n;
    do this <- bufio_write l;
    if this <=? 0 then run upd (set_len 0); ret (inr _FDEV_ERR)
    else
      run add_pos this;
      run upd (fun f => set_len (len f - this) f);
      ret (inl (b + this)).

Definition __bufio_flush_locked : M Z :=
  do d <- rd dir;
  if d =? __SWR then loop flush_step fuel 0
  else if d =? __SRD then
    do l <- rd len; do o <- rd off;
    let backup := l - o in
    run (if negb (backup =? 0) then
           run add_pos (- backup);
           do p <- rd pos;
           run bufio_lseek p SEEK_SET;
           ret tt
         else ret tt);
    run upd (set_len 0);
    run upd (set_off 0);
    ret 0
  else ret 0.

Definition __bufio_fill_locked : M Z :=
  run upd (set_off 0);
  do sz <- rd size;
  do '(n, l) <- bufio_read sz;
  run store_buf 0 l;
  if n <=? 0 then
    run upd (set_len 0);
    ret (if n <? 0 then _FDEV_ERR else _FDEV_EOF)
  else
    run upd (set_len n);
    run add_pos n;
    ret 0.

Definition __bufio_flush : M Z := __bufio_flush_locked.

Definition __bufio_setdir_locked (d : Z) : M Z :=
  do cur <- rd dir;
  if negb (cur =? d) then
    do r <- __bufio_flush_locked;
    run upd (set_dir d);
    ret r
  else ret 0.

Definition newline : Z := 10.

(** [c] is a [char]; its value as an [unsigned char] is stored. *)
Definition __bufio_put (c : Z) : M Z :=
  let c := uwrap 8 c in
  do r <- __bufio_setdir_locked __SWR;
  if r <? 0 then ret _FDEV_ERR
  else
    do n <- rd len;
    run store_buf n [c];
    run upd (set_len (n + 1));
    do n <- rd len; do sz <- rd size; do bfl <- rd bflags;
    if (sz <=? n) || ((c =? newline) && negb (Z.land bfl __BLBF =? 0)) then
      do r <- __bufio_flush_locked;
      ret (if r <? 0 then _FDEV_ERR else c)
    else ret c.

(** From the label [again]; the second time round [flushed] is set. *)
Definition __bufio_get : M Z :=
  loop (fun flushed : bool =>
    do r <- __bufio_setdir_locked __SRD;
    if r <? 0 then ret (inr _FDEV_ERR)
    else
      do o <- rd off; do l <- rd len;
      if l <=? o then
        if negb flushed && dev_stdin then
          run upd (fun f => set_dev (dev_fflush_stdout (dev f)) f);
          ret (inl true)
        else
          do r <- __bufio_fill_locked;
          if negb (r =? 0) then ret (inr r)
          else
            do o <- rd off; do bs <- slice o 1;
            run upd (set_off (o + 1));
            ret (inr (match bs with b :: _ => b | [] => 0 end))
      else
        do bs <- slice o 1;
        run upd (set_off (o + 1));
        ret (inr (match bs with b :: _ => b | [] => 0 end))) 2 false.

Definition __bufio_seek (offset whence : Z) : M Z :=
  do sk <- bufio_seekable;
  if negb sk then ret _FDEV_ERR
  else
    do r <- __bufio_setdir_locked __SRD;
    if r <? 0 then ret _FDEV_ERR
    else
      do p <- rd pos; do l <- rd len; do o <- rd off;
      do buf_pos <- off_t (p - l);
      do '(whence, offset) <-
        (if whence =? SEEK_CUR then
           do cur <- off_t (buf_pos + o);
           do offset <- off_t (offset + cur);
           ret (SEEK_SET, offset)
         else ret (whence, offset));
      do buf_end <- off_t (buf_pos + l);
      if (whence =? SEEK_SET) && (buf_pos <=? offset) && (offset <=? buf_end) then
        run upd (set_off (swrap 32 (offset - buf_pos)));
        ret offset
      else
        do r <- bufio_lseek offset whence;
        run (if 0 <=? r then upd (set_pos r) else ret tt);
        run upd (set_len 0);
        run upd (set_off 0);
        ret r.

(** ** fgetc.c, ungetc.c, fputc.c *)

Definition getc : M Z :=
  do ok <- has_flag __SRD;
  if negb ok then run or_flags __SERR; ret EOF
  else
    do u <- __non_atomic_exchange_ungetc 0;
    if negb (u =? 0) then ret (uwrap 8 (u - 1))
    else
      do rv <- __bufio_get;
      if rv <? 0 then
        run or_flags (if rv =? _FDEV_ERR then __SERR else __SEOF);
        ret EOF
      else ret (uwrap 8 rv).

Definition ungetc (c : Z) : M Z :=
  do ok <- has_flag __SRD;
  if negb ok || (c =? EOF) then ret EOF
  else
    do done <- __non_atomic_compare_exchange_ungetc 0 (uwrap 8 c + 1);
    if negb done then ret EOF
    else
      run clear_flags __SEOF;
      ret (uwrap 8 c).

Definition putc (c : Z) : M Z :=
  do ok <- has_flag __SWR;
  if negb ok then ret EOF
  else
    do r <- __bufio_put c;
    if r <? 0 then run or_flags __SERR; ret EOF
    else ret (uwrap 8 c).

(** ** fflush.c, fseek.c, ftell.c, feof.c, clearerr.c, rewind.c *)

Definition fflush : M Z :=
  do r <- __bufio_flush;
  run upd (set_unget 0);
  ret r.

(** A [struct __file_bufio] has [__SEXT] and [seek] is [__bufio_seek].  The offset
    is a long. *)
Definition fseek (offset whence : Z) : M Z :=
  let offset := swrap long_bits offset in
  do r <- __bufio_seek offset whence;
  if 0 <=? r then
    run clear_flags __SEOF;
    run upd (set_unget 0);
    ret 0
  else ret (-1).

Definition ftell : M Z :=
  do r <- __bufio_seek 0 SEEK_CUR;
  let r := swrap long_bits r in
  do u <- rd unget;
  if negb (u =? 0) then
    if r =? - 2 ^ (long_bits - 1) then fault else ret (r - 1)
  else ret r.

(** feof.c, ferror.c *)
Definition feof : M Z := do fl <- rd flags; ret (Z.land fl __SEOF).
Definition ferror : M Z := do fl <- rd flags; ret (Z.land fl __SERR).

Definition clearerr : M unit := clear_flags (Z.lor __SERR __SEOF).

Definition rewind : M unit :=
  run clearerr;
  run fseek 0 SEEK_SET;
  ret tt.

(** ** fread.c, fwrite.c

    The client's memory is the list of the bytes read, in the order in which
    they are stored from [ptr], or the list of the bytes to write. *)

(** The two nested loops of the version without __FAST_BUFIO; the items read
    and the bytes stored. *)
Definition fread_item (sz : Z) (acc : list Z) : M (list Z * bool) :=
  loop (fun '(j, acc) =>
    if j <? sz then
      do c <- getc;
      if c =? EOF then ret (inr (acc, false)) else ret (inl (j + 1, acc ++ [uwrap 8 c]))
    else ret (inr (acc, true))) fuel (0, acc).

Definition fread (sz nmemb : Z) : M (Z * list Z) :=
  do ok <- has_flag __SRD;
  if negb ok || (sz =? 0) then ret (0, [])
  else
    loop (fun '(i, acc) =>
      if i <? nmemb then
        do '(acc, ok) <- fread_item sz acc;
        if ok : bool then ret (inl (i + 1, acc)) else ret (inr (i, acc))
      else ret (inr (i, acc))) fuel (0, []).

Definition fwrite_item (sz : Z) (cp : list Z) : M (list Z * bool) :=
  loop (fun '(j, cp) =>
    if j <? sz then
      match cp with
      | [] => fault
      | c :: cp =>
          do r <- __bufio_put c;
          if r <? 0 then ret (inr (cp, false)) else ret (inl (j + 1, cp))
      end
    else ret (inr (cp, true))) fuel (0, cp).

Definition fwrite (ptr : list Z) (sz nmemb : Z) : M Z :=
  do ok <- has_flag __SWR;
  if negb ok || (sz =? 0) then ret 0
  else
    loop (fun '(i, cp) =>
      if i <? nmemb then
        do '(cp, ok) <- fwrite_item sz cp;
        if ok : bool then ret (inl (i + 1, cp)) else ret (inr i)
      else ret (inr i)) fuel (0, ptr).

(** With __FAST_BUFIO: [size_bits] is the width of [size_t]. *)
Variable size_bits : Z.

Definition fread_fast_step (st : list Z * Z * bool) : M (list Z * Z * bool + list Z) :=
  let '(acc, bytes, flushed) := st in
  if bytes =? 0 then ret (inr acc)
  else
    do l <- rd len; do o <- rd off;
    let this_time := l - o in
    if negb (this_time =? 0) then
      let this_time := if bytes <? this_time then bytes else this_time in
      do bs <- slice o this_time;
      run upd (set_off (o + this_time));
      ret (inl (acc ++ bs, bytes - this_time, flushed))
    else if negb flushed && dev_stdin then
      run upd (fun f => set_dev (dev_fflush_stdout (dev f)) f);
      run __bufio_setdir_locked __SRD;
      do u <- __non_atomic_exchange_ungetc 0;
      ret (inl (if negb (u =? 0) then (acc ++ [uwrap 8 (u - 1)], bytes - 1, true) else (acc, bytes, true)))
    else
      do bsz <- rd size;
      if bytes <? bsz then
        do r <- __bufio_fill_locked;
        if negb (r =? 0) then
          run or_flags (if r =? _FDEV_ERR then __SERR else __SEOF);
          ret (inr acc)
        else ret (inl (acc, bytes, true))
      else
        run upd (set_len 0);
        run upd (set_off 0);
        do '(n, bs) <- bufio_read bytes;
        if n <=? 0 then
          run or_flags (if n <? 0 then __SERR else __SEOF);
          ret (inr (acc ++ bs))
        else
          run add_pos n;
          ret (inl (acc ++ bs, bytes - n, true)).

Definition fread_fast (sz nmemb : Z) : M (Z * list Z) :=
  do ok <- has_flag __SRD;
  if negb ok || (sz =? 0) then ret (0, [])
  else
    let bytes := sz * nmemb in
    if (bytes <? 2 ^ size_bits) && (0 <? bytes) then
      run __bufio_setdir_locked __SRD;
      do u <- __non_atomic_exchange_ungetc 0;
      do acc <- loop fread_fast_step fuel
        (if negb (u =? 0) then ([uwrap 8 (u - 1)], bytes - 1, false) else ([], bytes, false));
      ret (Z.of_nat (length acc) / sz, acc)
    else fread sz nmemb.

(** The small writes; the bytes not yet taken. *)
Definition fwrite_small_step (cp : list Z) : M (list Z + list Z) :=
  if Z.of_nat (length cp) =? 0 then ret (inr cp)
  else
    do sz <- rd size; do n <- rd len;
    let this_time := sz - n in
    do r <- (if this_time =? 0 then __bufio_flush_locked else ret 0);
    if negb (r =? 0) then run or_flags r; ret (inr cp)
    else
      let this_time := Z.min this_time (Z.of_nat (length cp)) in
      do n <- rd len;
      run store_buf n (take (Z.to_nat this_time) cp);
      run upd (fun f => set_len (len f + this_time) f);
      ret (inl (drop (Z.to_nat this_time) cp)).

Definition fwrite_large_step (cp : list Z) : M (list Z + list Z) :=
  if Z.of_nat (length cp) =? 0 then ret (inr cp)
  else
    do n <- bufio_write cp;
    if n <=? 0 then run or_flags _FDEV_ERR; ret (inr cp)
    else
      run add_pos n;
      ret (inl (drop (Z.to_nat n) cp)).

Definition fwrite_fast (ptr : list Z) (sz nmemb : Z) : M Z :=
  do ok <- has_flag __SWR;
  if negb ok || (sz =? 0) then ret 0
  else
    let bytes := sz * nmemb in
    do bfl <- rd bflags;
    if (Z.land bfl __BLBF =? 0) && (bytes <? 2 ^ size_bits) && (0 <? bytes) then
      run __bufio_setdir_locked __SWR;
      do bsz <- rd size;
      do rest <-
        (if bytes <? bsz then loop fwrite_small_step fuel ptr
         else
           do r <- __bufio_flush_locked;
           if 0 <=? r then loop fwrite_large_step fuel ptr else ret ptr);
      ret ((bytes - Z.of_nat (length rest)) / sz)
    else fwrite ptr sz nmemb.

(** ** fgets.c, fputs.c *)

(** The line stored at [str] with its terminating NUL, or [None] for NULL. *)
Definition fgets (sz : Z) : M (option (list Z)) :=
  do ok <- has_flag __SRD;
  if negb ok || (sz <=? 0) then ret None
  else
    loop (fun '(c, n, acc) =>
      if negb (c =? newline) && (0 <? n) then
        do c <- getc;
        if c =? EOF then
          match acc with [] => ret (inr None) | _ => ret (inr (Some (acc ++ [0]))) end
        else ret (inl (c, n - 1, acc ++ [uwrap 8 c]))
      else ret (inr (Some (acc ++ [0])))) fuel (0, sz - 1, []).

(** [str] is the text of the string, without its NUL. *)
Definition fputs (str : list Z) : M Z :=
  do ok <- has_flag __SWR;
  if negb ok then ret EOF
  else
    loop (fun str =>
      match str with
      | [] => ret (inr 0)
      | c :: str =>
          do r <- __bufio_put c;
          if r <? 0 then run or_flags __SERR; ret (inr EOF) else ret (inl str)
      end) fuel str.
End stdio.
