(* ===== verification/StdioSpec.v ===== *)
(** * Buffered streams: the abstract file

    A stream on a regular file is a byte string and a position; the buffer is
    invisible.  The refinement says so of every operation of the version that is
    built by default (without __FAST_BUFIO), for any device that behaves like a
    regular file, however short its reads and writes are. *)

From stdpp Require Import base list gmap.
From Stdlib Require Import ZArith Lia.
From S2P Require Import Prelude CMem Stdio.

Local Open Scope Z_scope.

(** ** Writing into a byte string *)

(** The bytes [l] at [p]; the gap after the end of the file reads as zeros. *)
Definition write_at (c : list Z) (p : Z) (l : list Z) : list Z :=
  match l with
  | [] => c
  | _ => let n := Z.to_nat p in take n c ++ replicate (n - length c) 0 ++ l ++ drop (n + length l) c
  end.

Lemma lookup_write_at c p l i :
  l <> [] ->
  write_at c p l !! i =
    if decide (i < Z.to_nat p)%nat then if decide (i < length c)%nat then c !! i else Some 0
    else if decide (i < Z.to_nat p + length l)%nat then l !! (i - Z.to_nat p)%nat else c !! i.
Proof.
  intros Hl. destruct l as [|x l]; [done|]. unfold write_at. set (n := Z.to_nat p). set (l' := x :: l).
  destruct (decide (i < n)%nat) as [Hi|Hi].
  - destruct (decide (i < length c)%nat) as [Hc|Hc].
    + rewrite lookup_app_l by (rewrite length_take; lia). by rewrite lookup_take_lt.
    + rewrite lookup_app_r by (rewrite length_take; lia). rewrite length_take.
      rewrite lookup_app_l by (rewrite length_replicate; lia). apply lookup_replicate_2. lia.
  - rewrite app_assoc, lookup_app_r by (rewrite length_app, length_take, length_replicate; lia).
    rewrite length_app, length_take, length_replicate.
    replace (i - (n `min` length c + (n - length c)))%nat with (i - n)%nat by lia.
    destruct (decide (i < n + length l')%nat) as [Hl'|Hl'].
    + rewrite lookup_app_l by lia. done.
    + rewrite lookup_app_r by lia. rewrite lookup_drop. f_equal. lia.
Qed.

Lemma length_write_at c p l : l <> [] -> length (write_at c p l) = Nat.max (length c) (Z.to_nat p + length l).
Proof. intros Hl. destruct l as [|x l]; [done|]. unfold write_at. rewrite !length_app, length_take, length_replicate, length_drop. lia. Qed.

Lemma write_at_app c p l1 l2 :
  0 <= p -> write_at (write_at c p l1) (p + Z.of_nat (length l1)) l2 = write_at c p (l1 ++ l2).
Proof.
  intros Hp. destruct (decide (l2 = [])) as [->|H2]; [by rewrite app_nil_r|].
  destruct (decide (l1 = [])) as [->|H1]; [by rewrite Z.add_0_r|].
  assert (l1 ++ l2 <> []) as H12 by (by destruct l1). apply list_eq. intros i.
  rewrite !(lookup_write_at _ _ _ _ H2), !(lookup_write_at _ _ _ _ H12), !(lookup_write_at _ _ _ _ H1).
  replace (Z.to_nat (p + Z.of_nat (length l1))) with (Z.to_nat p + length l1)%nat by lia. rewrite length_app.
  rewrite (length_write_at _ _ _ H1). repeat (destruct (decide _)); try lia; try done.
  - rewrite lookup_app_l by lia. done.
  - rewrite lookup_app_r by lia. f_equal. lia.
Qed.

Lemma write_at_bytes c p l : Forall is_byte c -> Forall is_byte l -> Forall is_byte (write_at c p l).
Proof.
  intros Hc Hl. destruct l as [|x l]; [done|]. unfold write_at. rewrite !Forall_app. split_and!.
  - by apply Forall_take.
  - apply Forall_replicate. by split.
  - done.
  - by apply Forall_drop.
Qed.

(** ** Regular files *)

Class DeviceOk (D : Type) `{Device D} := {
  dev_content : D -> list Z;
  dev_pos : D -> Z;
  dev_good : D -> Prop;
  dev_good_bytes : forall d, dev_good d -> Forall is_byte (dev_content d) /\ 0 <= dev_pos d <= OFF_MAX;
  (** a read gives some of the bytes that follow, and none only at the end *)
  dev_read_ok : forall d n, dev_good d -> 0 < n ->
    exists l d', dev_read n d = (Z.of_nat (length l), l, d') /\ dev_good d' /\ dev_content d' = dev_content d /\
      dev_pos d' = dev_pos d + Z.of_nat (length l) /\ Z.of_nat (length l) <= n /\
      l = take (length l) (drop (Z.to_nat (dev_pos d)) (dev_content d)) /\
      (l = [] -> Z.of_nat (length (dev_content d)) <= dev_pos d);
  (** a write that ends at a position of type __off_t takes at least one byte *)
  dev_write_ok : forall d l, dev_good d -> l <> [] -> Forall is_byte l -> dev_pos d + Z.of_nat (length l) <= OFF_MAX ->
    exists k d', dev_write l d = (Z.of_nat k, d') /\ (0 < k <= length l)%nat /\ dev_good d' /\
      dev_content d' = write_at (dev_content d) (dev_pos d) (take k l) /\ dev_pos d' = dev_pos d + Z.of_nat k;
  dev_lseek_ok : exists lseek, dev_lseek = Some lseek /\ forall d offset whence, dev_good d ->
    whence = SEEK_SET \/ whence = SEEK_END ->
    let target := if whence =? SEEK_SET then offset else Z.of_nat (length (dev_content d)) + offset in
    exists r d', lseek offset whence d = (r, d') /\ dev_good d' /\ dev_content d' = dev_content d /\
      ((0 <= target <= OFF_MAX /\ r = target /\ dev_pos d' = target) \/ ((target < 0 \/ OFF_MAX < target) /\ r < 0 /\ dev_pos d' = dev_pos d));
  dev_stdout_ok : forall d, dev_good d -> dev_good (dev_fflush_stdout d) /\
    dev_content (dev_fflush_stdout d) = dev_content d /\ dev_pos (dev_fflush_stdout d) = dev_pos d }.

(** ** The abstraction *)

(** The file as the client sees it. *)
Record afile := AFile { a_data : list Z; a_pos : Z }.

Section abstraction.
Context {D : Type} `{Device D} {DOk : DeviceOk D}.
Implicit Types f : FILE D.

Definition valid_bytes f : list Z := take (Z.to_nat (len f)) (buf f).

Definition abs f : afile :=
  if dir f =? __SWR then
    AFile (write_at (dev_content (dev f)) (pos f) (valid_bytes f)) (pos f + len f)
  else AFile (dev_content (dev f)) (pos f - len f + off f).

Record buffered f : Prop := {
  b_good : dev_good (dev f);
  b_size : 0 < size f < 2 ^ 31 /\ Z.of_nat (length (buf f)) = size f;
  b_bytes : Forall is_byte (buf f);
  b_range : 0 <= off f <= len f /\ len f <= size f;
  b_pos : dev_pos (dev f) = pos f;
  b_room : dir f = __SWR -> pos f + len f <= OFF_MAX;
  b_dir : (dir f = __SWR /\ off f = 0) \/
    (dir f <> __SWR /\ (dir f = __SRD \/ len f = 0) /\ len f <= pos f /\
     valid_bytes f = take (Z.to_nat (len f)) (drop (Z.to_nat (pos f - len f)) (dev_content (dev f)))) }.

(** Between two calls there is room for one more byte. *)
Definition ready f : Prop := buffered f /\ (dir f = __SWR -> len f < size f).

(** What the operations of the buffer leave alone. *)
Definition same_head f f' : Prop :=
  unget f' = unget f /\ flags f' = flags f /\ bflags f' = bflags f /\ size f' = size f.

#[global] Instance same_head_refl : Reflexive same_head.
Proof. by intros f. Qed.

#[global] Instance same_head_trans : Transitive same_head.
Proof. intros f1 f2 f3 (?&?&?&?) (?&?&?&?). repeat split; congruence. Qed.

(** ** The accesses to the buffer *)

Lemma slice_eq f b n :
  0 <= b -> 0 <= n -> b + n <= Z.of_nat (length (buf f)) ->
  slice b n f = Some (take (Z.to_nat n) (drop (Z.to_nat b) (buf f)), f).
Proof.
  intros. unfold slice, rd, bind. rewrite !(proj2 (Z.leb_le _ _)) by lia. done.
Qed.

Lemma store_buf_eq f b l :
  0 <= b -> b + Z.of_nat (length l) <= Z.of_nat (length (buf f)) ->
  store_buf b l f =
    Some (tt, set_buf (take (Z.to_nat b) (buf f) ++ l ++ drop (Z.to_nat b + length l) (buf f)) f).
Proof. intros. unfold store_buf, rd, bind. rewrite !(proj2 (Z.leb_le _ _)) by lia. done. Qed.

(** ** Positions *)

Lemma off_t_eq v f : - 2 ^ 63 <= v <= OFF_MAX -> off_t v f = Some (v, f).
Proof. intros Hv. unfold off_t. by rewrite !(proj2 (Z.leb_le _ _)) by lia. Qed.

Lemma add_pos_eq n f : - 2 ^ 63 <= pos f + n <= OFF_MAX -> add_pos n f = Some (tt, set_pos (pos f + n) f).
Proof. intros Hp. unfold add_pos. unfold bind at 1, rd at 1. by rewrite (bind_eq _ _ _ _ _ (off_t_eq _ _ Hp)). Qed.

Lemma pos_bounds f : buffered f -> 0 <= pos f <= OFF_MAX.
Proof. intros Hb. rewrite <- (b_pos _ Hb). by apply dev_good_bytes, Hb. Qed.

(** ** Flush *)

Definition flushed f (d : D) : FILE D := set_len 0 (set_pos (pos f + len f) (set_dev d f)).

Lemma flush_loop fuel f b :
  (Z.to_nat (len f) < fuel)%nat -> dev_good (dev f) -> dev_pos (dev f) = pos f -> Forall is_byte (buf f) ->
  0 <= b -> 0 <= len f -> b + len f <= Z.of_nat (length (buf f)) -> pos f + len f <= OFF_MAX ->
  exists d, loop flush_step fuel b f = Some (0, flushed f d) /\ dev_good d /\ dev_pos d = pos f + len f /\
    dev_content d = write_at (dev_content (dev f)) (pos f) (take (Z.to_nat (len f)) (drop (Z.to_nat b) (buf f))).
Proof.
  revert f b. induction fuel as [|fuel IH]; intros f b Hf Hg Hp Hby Hb Hl Hr Hmax; [lia|].
  destruct (Z.eqb_spec (len f) 0) as [E0|E0].
  { exists (dev f). rewrite (loop_stop _ _ _ _ 0 f); [|unfold flush_step, rd, bind; by rewrite E0].
    rewrite E0, Z.add_0_r. split_and!; try done. unfold flushed. rewrite E0, Z.add_0_r, <- E0. by destruct f. }
  set (l := take (Z.to_nat (len f)) (drop (Z.to_nat b) (buf f))).
  assert (length l = Z.to_nat (len f)) as Hll by (unfold l; rewrite length_take, length_drop; lia).
  destruct (dev_write_ok (dev f) l Hg) as (k & d1 & Ew & Hk & Hg1 & Hc1 & Hp1).
  { intros El. rewrite El in Hll. simpl in Hll. lia. }
  { unfold l. by apply Forall_take, Forall_drop. }
  { rewrite Hp. lia. }
  set (f1 := set_len (len f - Z.of_nat k) (set_pos (pos f + Z.of_nat k) (set_dev d1 f))).
  assert (flush_step b f = Some (inl (b + Z.of_nat k), f1)) as Es.
  { unfold flush_step. unfold bind at 1, rd at 1. rewrite (proj2 (Z.eqb_neq _ _) E0).
    rewrite (bind_eq _ _ _ _ _ (slice_eq f b (len f) Hb Hl Hr)). fold l.
    unfold bufio_write. unfold bind at 1. rewrite Ew. rewrite (proj2 (Z.leb_gt _ _)) by lia.
    pose proof (proj2 (dev_good_bytes _ Hg)). rewrite (bind_eq _ _ _ _ _ (add_pos_eq (Z.of_nat k) (set_dev d1 f) ltac:(cbn; unfold OFF_MAX in *; lia))). done. }
  rewrite (loop_go _ _ _ _ _ _ Es).
  destruct (IH f1 (b + Z.of_nat k)) as (d & E & Hgd & Hpd & Hcd); unfold f1; simpl; try done; try lia.
  exists d. fold f1. rewrite E. split_and!; [|done|simpl in *; lia|].
  - unfold flushed, f1, set_len, set_pos, set_dev. simpl. do 3 f_equal. lia.
  - rewrite Hcd. simpl. rewrite Hc1, Hp.
    replace (pos f + Z.of_nat k) with (pos f + Z.of_nat (length (take k l))) by (rewrite length_take; lia).
    rewrite write_at_app by (destruct (dev_good_bytes _ Hg); lia). f_equal. rewrite <- (take_drop k l) at 2. f_equal.
    unfold l. rewrite skipn_firstn_comm, drop_drop. f_equal; [lia|]. f_equal. lia.
Qed.

Record flush_result f f' : Prop := {
  fr_buffered : buffered f';
  fr_abs : abs f' = abs f;
  fr_empty : len f' = 0 /\ off f' = 0;
  fr_dir : dir f' = dir f;
  fr_device : dev_content (dev f') = a_data (abs f);
  fr_head : same_head f f' }.

(** A buffer without data is in order for any direction. *)
Lemma buffered_empty f :
  dev_good (dev f) -> 0 < size f < 2 ^ 31 /\ Z.of_nat (length (buf f)) = size f -> Forall is_byte (buf f) ->
  len f = 0 -> off f = 0 -> dev_pos (dev f) = pos f ->
  buffered f /\ abs f = AFile (dev_content (dev f)) (pos f).
Proof.
  intros Hg Hs Hb Hl Ho Hp. assert (0 <= pos f <= OFF_MAX) by (destruct (dev_good_bytes _ Hg); lia).
  assert (valid_bytes f = []) as Ev by (unfold valid_bytes; rewrite Hl; apply take_0). split.
  - split; try done; [lia|lia|]. destruct (decide (dir f = __SWR)); [by left|right]. rewrite Ev, Hl, take_0. split_and!; auto with lia.
  - unfold abs. rewrite Ev, Hl, Ho. destruct (_ =? _); f_equal; lia.
Qed.

Lemma flush_locked_spec fuel f :
  buffered f -> (Z.to_nat (size f) < fuel)%nat ->
  exists f', __bufio_flush_locked fuel f = Some (0, f') /\ flush_result f f'.
Proof.
  intros Hbuf Hf. pose proof Hbuf as [Hg Hs Hb Hr Hp Hroom Hd]. pose proof (pos_bounds f Hbuf) as Hpb. unfold __bufio_flush_locked. unfold bind at 1, rd at 1.
  destruct Hd as [[Ed Eo]|(Ed & Hd & Hlp & Hv)].
  - destruct (flush_loop fuel f 0) as (d & E & Hgd & Hpd & Hcd); try done; try lia.
    rewrite (proj2 (Z.eqb_eq _ _) Ed), E. exists (flushed f d). split; [done|].
    assert (abs f = AFile (dev_content d) (pos f + len f)) as Ea.
    { unfold abs. rewrite (proj2 (Z.eqb_eq _ _) Ed). by rewrite Hcd. }
    destruct (buffered_empty (flushed f d)) as [Hb' Ha']; try done. split; try done; [by rewrite Ha', Ea|by rewrite Ea].
  - rewrite (proj2 (Z.eqb_neq _ _) Ed). assert (abs f = AFile (dev_content (dev f)) (pos f - len f + off f)) as Ea.
    { unfold abs. by rewrite (proj2 (Z.eqb_neq _ _) Ed). }
    destruct (Z.eqb_spec (dir f) __SRD) as [Er|Er].
    + unfold bind at 1, rd at 1. unfold bind at 1, rd at 1. cbv zeta. destruct (Z.eqb_spec (len f - off f) 0) as [E0|E0]; cbn [negb].
      * set (f' := set_off 0 (set_len 0 f)). exists f'. split; [done|].
        destruct (buffered_empty f') as [Hb' Ha']; try done. split; try done; [|by rewrite Ea].
        rewrite Ha', Ea. f_equal. simpl. lia.
      * destruct dev_lseek_ok as (lseek & Els & Hls).
        destruct (Hls (dev f) (pos f - (len f - off f)) SEEK_SET Hg (or_introl eq_refl)) as (r & d & E & Hgd & Hcd & Hx).
        simpl in Hx. destruct Hx as [(_ & -> & Hpd)|(Hneg & _)]; [|lia].
        assert (- 2 ^ 63 <= pos f + - (len f - off f) <= OFF_MAX) as Hoff by (change (2 ^ 63) with 9223372036854775808; lia).
        set (f' := set_off 0 (set_len 0 (set_dev d (set_pos (pos f - (len f - off f)) f)))). exists f'. split.
        { unfold bufio_lseek. rewrite Els. unfold bind at 1. unfold bind at 1. rewrite (add_pos_eq _ f Hoff). replace (pos f + - (len f - off f)) with (pos f - (len f - off f)) by lia.
          unfold bind, upd, rd, ret. simpl. by rewrite E. }
        destruct (buffered_empty f') as [Hb' Ha']; try done. split; try done; [|rewrite Ea; done].
        rewrite Ha', Ea. simpl. rewrite Hcd. f_equal. lia.
    + destruct Hd as [?|Hl0]; [done|]. exists f. split; [done|]. split; try done; [lia|by rewrite Ea].
Qed.

Lemma setdir_spec fuel f d :
  buffered f -> (Z.to_nat (size f) < fuel)%nat -> d = __SRD \/ d = __SWR ->
  exists f', __bufio_setdir_locked fuel d f = Some (0, f') /\ buffered f' /\ abs f' = abs f /\ dir f' = d /\
    same_head f f' /\ (f' = f \/ len f' = 0 /\ off f' = 0).
Proof.
  intros Hb Hf Hd. unfold __bufio_setdir_locked. unfold bind at 1, rd at 1. destruct (Z.eqb_spec (dir f) d) as [E|E]; cbn [negb].
  - exists f. split_and!; try done. by left.
  - destruct (flush_locked_spec fuel f Hb Hf) as (f1 & E1 & [Hb1 Ha1 [Hl1 Ho1] Hd1 Hc1 Hh1]).
    rewrite (bind_eq _ _ _ _ _ E1). exists (set_dir d f1). split; [done|].
    destruct (buffered_empty (set_dir d f1)) as [Hb' Ha']; try done; try apply Hb1.
    destruct (buffered_empty f1) as [_ Ha'']; try done; try apply Hb1.
    split_and!; try done; [by rewrite Ha', <- Ha1, Ha''|by right].
Qed.

(** ** The operations of the abstract file *)

Definition a_put (c : Z) (a : afile) : afile := AFile (write_at (a_data a) (a_pos a) [c]) (a_pos a + 1).

Definition a_get (a : afile) : option Z * afile :=
  match a_data a !! Z.to_nat (a_pos a) with
  | Some b => (Some b, AFile (a_data a) (a_pos a + 1))
  | None => (None, a)
  end.

(** ** Put *)

Lemma put_byte f c :
  buffered f -> dir f = __SWR -> len f < size f -> is_byte c -> a_pos (abs f) < OFF_MAX ->
  let f' := set_len (len f + 1) (set_buf (take (Z.to_nat (len f)) (buf f) ++ [c] ++ drop (Z.to_nat (len f) + 1) (buf f)) f) in
  buffered f' /\ abs f' = a_put c (abs f).
Proof.
  intros [Hg Hs Hb Hr Hp Hroom Hd] Ed Hl Hc Hmax f'. destruct Hd as [[_ Ho]|[? _]]; [|done].
  assert (a_pos (abs f) = pos f + len f) as Eap by (unfold abs; by rewrite (proj2 (Z.eqb_eq _ _) Ed)).
  assert (0 <= pos f) by (destruct (dev_good_bytes _ Hg); lia).
  assert (valid_bytes f' = valid_bytes f ++ [c]) as Ev.
  { unfold valid_bytes, f'. simpl. rewrite take_app_ge by (rewrite length_take; lia). rewrite length_take.
    replace (Z.to_nat (len f + 1) - Z.to_nat (len f) `min` length (buf f))%nat with 1%nat by lia. done. }
  assert (length (valid_bytes f) = Z.to_nat (len f)) as Hv by (unfold valid_bytes; rewrite length_take; lia). split.
  - split; try done; simpl.
    + rewrite length_app, length_take. simpl. rewrite length_drop. lia.
    + rewrite Forall_app, Forall_cons. split_and!; [by apply Forall_take|done|by apply Forall_drop].
    + lia.
    + lia.
    + by left.
  - unfold abs. simpl. rewrite (proj2 (Z.eqb_eq _ _) Ed), Ev. unfold a_put. simpl.
    rewrite <- write_at_app, Hv, Z2Nat.id by lia. f_equal. lia.
Qed.

Lemma put_spec fuel f c :
  ready f -> (Z.to_nat (size f) < fuel)%nat -> a_pos (abs f) < OFF_MAX ->
  exists f', __bufio_put fuel c f = Some (uwrap 8 c, f') /\ ready f' /\ abs f' = a_put (uwrap 8 c) (abs f) /\ same_head f f'.
Proof.
  intros [Hb Hrm] Hf Hmax. unfold __bufio_put.
  destruct (setdir_spec fuel f __SWR Hb Hf (or_intror eq_refl)) as (f1 & E1 & Hb1 & Ha1 & Hd1 & Hh1 & Hx).
  rewrite (bind_eq _ _ _ _ _ E1). cbn [Z.ltb Z.compare].
  pose proof (b_size _ Hb1) as Hs1. assert (size f1 = size f) as Esz by apply Hh1.
  assert (0 <= len f1 < size f1) as Hl1.
  { destruct (b_range _ Hb1). destruct Hx as [->|[-> _]]; [|lia]. specialize (Hrm Hd1). lia. }
  unfold bind at 1, rd at 1. rewrite (bind_eq _ _ _ _ _ (store_buf_eq f1 (len f1) [uwrap 8 c] ltac:(lia) ltac:(simpl; lia))).
  cbn [length]. destruct (put_byte f1 (uwrap 8 c) Hb1 Hd1 (proj2 Hl1) (uwrap_byte c) ltac:(by rewrite Ha1)) as [Hb2 Ha2].
  set (f2 := set_len _ _) in Hb2, Ha2. unfold bind at 1, upd at 1. fold f2.
  unfold bind at 1, rd at 1. unfold bind at 1, rd at 1. unfold bind at 1, rd at 1.
  destruct (_ || _) eqn:Efl.
  - destruct (flush_locked_spec fuel f2 Hb2) as (f3 & E3 & [Hb3 Ha3 [Hl3 _] Hd3 _ Hh3]).
    { unfold f2. simpl. lia. }
    rewrite (bind_eq _ _ _ _ _ E3). exists f3. split; [done|]. split_and!.
    + split; [done|]. intros _. destruct (b_size _ Hb3). lia.
    + by rewrite Ha3, Ha2, Ha1.
    + etransitivity; [exact Hh1|]. etransitivity; [|exact Hh3]. done.
  - apply orb_false_iff in Efl as [Efl _]. apply Z.leb_gt in Efl. exists f2. split; [done|]. split_and!; [done| |].
    + by rewrite Ha2, Ha1.
    + etransitivity; [exact Hh1|]. done.
Qed.

(** ** Get *)

Lemma abs_read f : buffered f -> dir f = __SRD -> abs f = AFile (dev_content (dev f)) (pos f - len f + off f) /\ len f <= pos f.
Proof.
  intros Hb Ed. unfold abs. rewrite Ed. split; [done|]. destruct (b_dir _ Hb) as [[Ed' _]|(_ & _ & ? & _)]; [|done].
  rewrite Ed in Ed'. done.
Qed.

Lemma take_byte f :
  buffered f -> dir f = __SRD -> off f < len f ->
  exists b, slice (off f) 1 f = Some ([b], f) /\ a_get (abs f) = (Some b, abs (set_off (off f + 1) f)) /\
    buffered (set_off (off f + 1) f) /\ is_byte b.
Proof.
  intros Hb Ed Ho. destruct (abs_read f Hb Ed) as [Ea Hlp]. destruct Hb as [Hg Hs Hby Hr Hp Hroom Hd].
  destruct Hd as [[Ed' _]|(_ & _ & _ & Hv)]; [rewrite Ed in Ed'; done|].
  destruct (lookup_lt_is_Some_2 (buf f) (Z.to_nat (off f))) as [b Hbo]; [lia|]. exists b. split_and!.
  - rewrite slice_eq by lia. simpl. rewrite (drop_S _ b) by done. done.
  - unfold a_get. rewrite Ea. simpl.
    replace (Z.to_nat (pos f - len f + off f)) with (Z.to_nat (pos f - len f) + Z.to_nat (off f))%nat by lia.
    assert (valid_bytes f !! Z.to_nat (off f) = Some b) as Hvb by (unfold valid_bytes; rewrite lookup_take_lt by lia; done).
    rewrite Hv, lookup_take_lt, lookup_drop in Hvb by lia. rewrite Hvb. unfold abs. simpl. rewrite Ed. simpl.
    do 2 f_equal. lia.
  - split; try done; simpl; [lia|]. right. split_and!; auto. by rewrite Ed.
  - by eapply (Forall_lookup_1 _ _ _ _ Hby).
Qed.

Lemma fill_spec f :
  buffered f -> dir f = __SRD -> off f = len f ->
  exists r f', __bufio_fill_locked f = Some (r, f') /\ buffered f' /\ abs f' = abs f /\ dir f' = __SRD /\ same_head f f' /\
    ((r = 0 /\ off f' < len f') \/ (r = _FDEV_EOF /\ a_get (abs f) = (None, abs f))).
Proof.
  intros Hb Ed Ho. destruct (abs_read f Hb Ed) as [Ea Hlp]. destruct Hb as [Hg Hs Hby Hr Hp Hroom Hd].
  destruct (dev_read_ok (dev f) (size f) Hg) as (l & d & Er & Hgd & Hcd & Hpd & Hll & Hl & Hend); [lia|].
  destruct (dev_good_bytes _ Hg) as [Hcb Hpos].
  assert (Forall is_byte l) as Hlb by (rewrite Hl; by apply Forall_take, Forall_drop).
  set (bs := l ++ drop (length l) (buf f)).
  assert (Z.of_nat (length bs) = size f) as Hbs by (unfold bs; rewrite length_app, length_drop; lia).
  assert (Forall is_byte bs) as Hbsb by (unfold bs; apply Forall_app; split; [done|by apply Forall_drop]).
  assert (store_buf 0 l (set_dev d (set_off 0 f)) = Some (tt, set_buf bs (set_dev d (set_off 0 f)))) as Est.
  { rewrite store_buf_eq; [done|lia|simpl; lia]. }
  unfold __bufio_fill_locked, bind at 1, upd at 1. unfold bind at 1, rd at 1. unfold bind at 1, bufio_read at 1.
  cbn [size dev set_off]. rewrite Er. rewrite (bind_eq _ _ _ _ _ Est).
  destruct (decide (l = [])) as [->|Hne].
  - set (f' := set_len 0 (set_buf bs (set_dev d (set_off 0 f)))). exists _FDEV_EOF, f'. split; [done|].
    destruct (buffered_empty f') as [Hb' Ha']; try done; [simpl in *; lia|].
    assert (abs f' = abs f) as Eab by (rewrite Ha', Ea; simpl; rewrite Hcd; f_equal; lia).
    split_and!; try done. right. split; [done|]. unfold a_get. rewrite Ea. simpl.
    rewrite lookup_ge_None_2; [done|]. specialize (Hend eq_refl). lia.
  - assert (0 < length l)%nat as Hl0 by (destruct l; [done|simpl; lia]).
    rewrite (proj2 (Z.leb_gt _ _)) by lia.
    set (f' := set_pos (pos f + Z.of_nat (length l)) (set_len (Z.of_nat (length l)) (set_buf bs (set_dev d (set_off 0 f))))).
    exists 0, f'. assert (valid_bytes f' = l) as Ev.
    { unfold valid_bytes, f'. simpl. rewrite Nat2Z.id. unfold bs. by rewrite take_app_length. }
    split.
    { unfold bind at 1, upd at 1. pose proof (proj2 (dev_good_bytes _ Hgd)). rewrite (bind_eq _ _ _ _ _ (add_pos_eq (Z.of_nat (length l)) (set_len (Z.of_nat (length l)) (set_buf bs (set_dev d (set_off 0 f)))) ltac:(cbn; unfold OFF_MAX in *; lia))). done. }
    split_and!; try done.
    + split; try done; simpl; [lia|lia|lia|intros Ed2; rewrite Ed in Ed2; done|]. right. split_and!; auto; [by rewrite Ed|lia|].
      rewrite Ev, Hcd, Nat2Z.id. rewrite Hl at 1. do 2 f_equal. lia.
    + rewrite Ea. unfold abs. simpl. rewrite Ed. simpl. rewrite Hcd. f_equal. lia.
    + left. simpl. lia.
Qed.

Lemma get_result f (r : Z) f' a :
  buffered f' -> same_head f f' -> dir f' = __SRD ->
  match a_get a with (Some b, a') => r = b /\ is_byte b /\ abs f' = a' | (None, a') => r = _FDEV_EOF /\ abs f' = a' end ->
  ready f' /\ same_head f f' /\
  match a_get a with (Some b, a') => r = b /\ is_byte b /\ abs f' = a' | (None, a') => r = _FDEV_EOF /\ abs f' = a' end.
Proof. intros Hb Hh Ed Hr. split; [|done]. split; [done|]. intros Ed'. rewrite Ed in Ed'. done. Qed.

(** From a buffer in read mode, after the flush of stdout. *)
Lemma get_body f :
  buffered f -> dir f = __SRD ->
  exists r f', (do o <- rd off; do l <- rd len;
      if l <=? o then
        do r <- __bufio_fill_locked;
        if negb (r =? 0) then ret (inr r : bool + Z)
        else do o <- rd off; do bs <- slice o 1; run upd (set_off (o + 1)); ret (inr (match bs with b :: _ => b | [] => 0 end))
      else do bs <- slice o 1; run upd (set_off (o + 1)); ret (inr (match bs with b :: _ => b | [] => 0 end))) f
      = Some (inr r, f') /\ ready f' /\ same_head f f' /\
    match a_get (abs f) with (Some b, a') => r = b /\ is_byte b /\ abs f' = a' | (None, a') => r = _FDEV_EOF /\ abs f' = a' end.
Proof.
  intros Hb Ed. unfold bind at 1, rd at 1. unfold bind at 1, rd at 1. destruct (Z.leb_spec (len f) (off f)) as [Hlo|Hlo].
  - assert (off f = len f) as Eo by (destruct (b_range _ Hb); lia).
    destruct (fill_spec f Hb Ed Eo) as (r & f1 & E1 & Hb1 & Ha1 & Ed1 & Hh1 & Hx). rewrite (bind_eq _ _ _ _ _ E1).
    destruct Hx as [[-> Ho1]|[-> Hend]].
    + cbn [Z.eqb negb]. destruct (take_byte f1 Hb1 Ed1 Ho1) as (b & Es & Eg & Hb2 & Hby).
      exists b, (set_off (off f1 + 1) f1). split; [unfold bind at 1, rd at 1; by rewrite (bind_eq _ _ _ _ _ Es)|].
      apply get_result; try done. rewrite <- Ha1, Eg. done.
    + exists _FDEV_EOF, f1. split; [done|]. apply get_result; try done. by rewrite Hend.
  - destruct (take_byte f Hb Ed Hlo) as (b & Es & Eg & Hb2 & Hby).
    exists b, (set_off (off f + 1) f). split; [by rewrite (bind_eq _ _ _ _ _ Es)|].
    apply get_result; try done. by rewrite Eg.
Qed.

Lemma setdir_same fuel f d : dir f = d -> __bufio_setdir_locked fuel d f = Some (0, f).
Proof. intros E. unfold __bufio_setdir_locked. unfold bind at 1, rd at 1. by rewrite (proj2 (Z.eqb_eq _ _) E). Qed.

Lemma get_spec fuel f :
  ready f -> (Z.to_nat (size f) < fuel)%nat ->
  exists r f', __bufio_get fuel f = Some (r, f') /\ ready f' /\ same_head f f' /\
    match a_get (abs f) with (Some b, a') => r = b /\ is_byte b /\ abs f' = a' | (None, a') => r = _FDEV_EOF /\ abs f' = a' end.
Proof.
  intros [Hb _] Hf. destruct (setdir_spec fuel f __SRD Hb Hf (or_introl eq_refl)) as (f1 & E1 & Hb1 & Ha1 & Hd1 & Hh1 & _).
  unfold __bufio_get. rewrite loop_S. rewrite (bind_eq _ _ _ _ _ E1). cbn [Z.ltb Z.compare].
  destruct ((len f1 <=? off f1) && dev_stdin) eqn:Est.
  - apply andb_true_iff in Est as [El Es]. unfold bind at 1, rd at 1. unfold bind at 1, rd at 1. rewrite El, Es. cbn [negb andb].
    unfold bind at 1, upd at 1. set (f2 := set_dev (dev_fflush_stdout (dev f1)) f1). cbn [ret].
    destruct (dev_stdout_ok (dev f1) (b_good _ Hb1)) as (G1 & G2 & G3).
    assert (buffered f2 /\ abs f2 = abs f1) as [Hb2 Ha2].
    { destruct Hb1 as [K1 K2 K3 K4 K5 K7 K6]. split.
      - split; try done; [unfold f2; simpl; by rewrite G3|]. unfold f2. simpl. rewrite G2. exact K6.
      - unfold abs, f2. simpl. by rewrite G2. }
    rewrite loop_S, (bind_eq _ _ _ _ _ (setdir_same fuel f2 __SRD Hd1)). cbn [Z.ltb Z.compare negb andb].
    destruct (get_body f2 Hb2 Hd1) as (r & f3 & E3 & Hr3 & Hh3 & Hx). rewrite E3. exists r, f3.
    rewrite Ha2, Ha1 in Hx. split_and!; try done. etransitivity; [exact Hh1|]. etransitivity; [|exact Hh3]. done.
  - destruct (get_body f1 Hb1 Hd1) as (r & f3 & E3 & Hr3 & Hh3 & Hx).
    unfold bind at 1, rd at 1 in E3. unfold bind at 1, rd at 1 in E3.
    unfold bind at 1, rd at 1. unfold bind at 1, rd at 1. destruct (len f1 <=? off f1); [simpl in Est; rewrite Est; cbn [negb andb]|];
      rewrite E3; exists r, f3; rewrite Ha1 in Hx; (split_and!; try done; etransitivity; [exact Hh1|exact Hh3]).
Qed.

(** ** Seek *)

Definition a_target (a : afile) (offset whence : Z) : Z :=
  if whence =? SEEK_SET then offset
  else if whence =? SEEK_CUR then a_pos a + offset
  else Z.of_nat (length (a_data a)) + offset.

Lemma seek_real f offset whence :
  buffered f -> dir f = __SRD -> whence = SEEK_SET \/ whence = SEEK_END ->
  exists r f', (do r <- bufio_lseek offset whence; run (if 0 <=? r then upd (set_pos r) else ret tt);
      run upd (set_len 0); run upd (set_off 0); ret r) f = Some (r, f') /\ ready f' /\ same_head f f' /\
    let target := a_target (abs f) offset whence in
    (0 <= target <= OFF_MAX /\ r = target /\ abs f' = AFile (a_data (abs f)) target \/
     (target < 0 \/ OFF_MAX < target) /\ r < 0 /\ abs f' = AFile (a_data (abs f)) (pos f)).
Proof.
  intros Hb Ed Hw. destruct (abs_read f Hb Ed) as [Ea Hlp]. destruct Hb as [Hg Hs Hby Hr Hp _ _].
  destruct dev_lseek_ok as (lseek & Els & Hls). destruct (Hls (dev f) offset whence Hg Hw) as (r & d & E & Hgd & Hcd & Hx).
  assert (a_target (abs f) offset whence = if whence =? SEEK_SET then offset else Z.of_nat (length (dev_content (dev f))) + offset) as ->.
  { unfold a_target. rewrite Ea. simpl. by destruct Hw as [->| ->]. }
  set (target := if whence =? SEEK_SET then _ else _) in *. cbv zeta in Hx.
  set (f' := set_off 0 (set_len 0 (if 0 <=? r then set_pos r (set_dev d f) else set_dev d f))).
  exists r, f'. split.
  { unfold bufio_lseek. rewrite Els. unfold bind at 1. rewrite E. unfold f'. by destruct (0 <=? r). }
  assert (dev_pos d = pos f') as Hpd.
  { unfold f'. destruct Hx as [(Ht & -> & ->)|(Ht & Hneg & ->)].
    - rewrite (proj2 (Z.leb_le _ _)) by lia. done.
    - rewrite (proj2 (Z.leb_gt _ _)) by done. done. }
  assert (dev f' = d /\ len f' = 0 /\ off f' = 0 /\ buf f' = buf f /\ size f' = size f /\ dir f' = dir f /\ same_head f f')
    as (F1 & F2 & F3 & F4 & F5 & F6 & F7) by (unfold f'; by destruct (0 <=? r)).
  destruct (buffered_empty f') as [Hb' Ha']; rewrite ?F1, ?F4, ?F5; try done.
  split; [split; [done|intros Ed'; rewrite F6, Ed in Ed'; done]|]. split; [done|].
  cbv zeta. rewrite Ha', Ea, F1, <- Hpd, Hcd. simpl.
  destruct Hx as [(Ht & Hrt & Hp')|(Ht & Hneg & Hp')]; [left|right]; rewrite Hp'; split_and!; try done; try lia. by rewrite Hp.
Qed.

Lemma seek_spec fuel f offset whence :
  ready f -> (Z.to_nat (size f) < fuel)%nat -> whence = SEEK_SET \/ whence = SEEK_CUR \/ whence = SEEK_END ->
  let target := a_target (abs f) offset whence in
  - 2 ^ 63 <= target <= OFF_MAX ->
  exists r f', __bufio_seek fuel offset whence f = Some (r, f') /\ ready f' /\ same_head f f' /\
    (0 <= target /\ r = target /\ abs f' = AFile (a_data (abs f)) target \/
     target < 0 /\ r < 0 /\ a_data (abs f') = a_data (abs f)).
Proof.
  intros [Hb _] Hf Hw target Htg. destruct (setdir_spec fuel f __SRD Hb Hf (or_introl eq_refl)) as (f1 & E1 & Hb1 & Ha1 & Hd1 & Hh1 & _).
  unfold __bufio_seek, bufio_seekable. destruct dev_lseek_ok as (lseek & Els & _). rewrite Els, bind_ret.
  cbn [negb]. rewrite (bind_eq _ _ _ _ _ E1). cbn [Z.ltb Z.compare].
  unfold bind at 1, rd at 1. unfold bind at 1, rd at 1. unfold bind at 1, rd at 1.
  destruct (abs_read f1 Hb1 Hd1) as [Ea Hlp]. pose proof (b_range _ Hb1) as Hr1. pose proof (pos_bounds f1 Hb1) as Hpb. change (2 ^ 63) with 9223372036854775808 in Htg.
  rewrite (bind_eq _ _ _ _ _ (off_t_eq (pos f1 - len f1) f1 ltac:(change (2 ^ 63) with 9223372036854775808; lia))).
  set (w' := if whence =? SEEK_CUR then SEEK_SET else whence).
  set (o' := if whence =? SEEK_CUR then offset + (pos f1 - len f1 + off f1) else offset).
  assert (w' = SEEK_SET \/ w' = SEEK_END) as Hw' by (destruct Hw as [->|[->| ->]]; auto).
  assert (a_target (abs f1) o' w' = target) as Et.
  { unfold target. rewrite <- Ha1, Ea. unfold a_target, w', o'. destruct Hw as [->|[->| ->]]; simpl; lia. }
  assert ((if whence =? SEEK_CUR then do cur <- off_t (pos f1 - len f1 + off f1); do offset <- off_t (offset + cur); ret (SEEK_SET, offset) else ret (whence, offset)) f1 = Some ((w', o'), f1)) as Ewo.
  { unfold w', o'. destruct (Z.eqb_spec whence SEEK_CUR) as [Ew|Ew]; [|done].
    rewrite (bind_eq _ _ _ _ _ (off_t_eq (pos f1 - len f1 + off f1) f1 ltac:(change (2 ^ 63) with 9223372036854775808; lia))).
    assert (offset + (pos f1 - len f1 + off f1) = target) as Eo by (unfold target, a_target; rewrite Ew, <- Ha1, Ea; cbn; lia).
    by rewrite (bind_eq _ _ _ _ _ (off_t_eq (offset + (pos f1 - len f1 + off f1)) f1 ltac:(change (2 ^ 63) with 9223372036854775808; lia))). }
  rewrite (bind_eq _ _ _ _ _ Ewo). rewrite (bind_eq _ _ _ _ _ (off_t_eq (pos f1 - len f1 + len f1) f1 ltac:(change (2 ^ 63) with 9223372036854775808; lia))).
  destruct ((w' =? SEEK_SET) && (pos f1 - len f1 <=? o') && (o' <=? pos f1 - len f1 + len f1)) eqn:Eb.
  - bool_to_prop. pose proof (proj1 (b_size _ Hb1)) as Hsz. rewrite swrap_small by (change (2 ^ (32 - 1)) with 2147483648; change (2 ^ 31) with 2147483648 in Hsz; lia).
    set (f2 := set_off (o' - (pos f1 - len f1)) f1). exists o', f2. split; [done|].
    assert (buffered f2) as Hb2.
    { destruct Hb1 as [K1 K2 K3 K4 K5 K7 K6]. split; try done; simpl; [lia|]. destruct K6 as [[K6 _]|K6]; [rewrite Hd1 in K6; done|right; done]. }
    split_and!; [split; [done|simpl; by rewrite Hd1]|exact Hh1|]. rewrite <- Et. left.
    assert (a_target (abs f1) o' w' = o') as -> by (unfold a_target; by rewrite (proj2 (Z.eqb_eq _ _) H0)).
    split_and!; [lia|done|]. rewrite <- Ha1, Ea. unfold abs, f2. simpl. rewrite Hd1. simpl. f_equal. lia.
  - destruct (seek_real f1 o' w' Hb1 Hd1 Hw') as (r & f2 & E2 & Hr2 & Hh2 & Hx). exists r, f2. split; [exact E2|].
    split_and!; [done|etransitivity; [exact Hh1|exact Hh2]|]. cbv zeta in Hx |- *. rewrite Et, Ha1 in Hx.
    destruct Hx as [(Hx & Hx')|(Hx1 & Hx2 & ->)]; [left; split; [lia|done]|right; split; [lia|done]].
Qed.
End abstraction.
