(* ===== verification/StdioStream.v ===== *)
(** * Buffered streams: the refinement

    The stream functions over the abstract file: a byte string and a position,
    one character pushed back, and the two indicators.  Every function of
    a stream that is open for reading and writing gives the result, and leads to
    the state, that the abstract stream says. *)

From stdpp Require Import base list gmap.
From Stdlib Require Import ZArith Lia.
From S2P Require Import Prelude CMem Stdio StdioSpec.

Local Open Scope Z_scope.

(** ** The abstract stream *)

Record astream := AStream { s_file : afile; s_unget : option Z; s_eof : bool; s_err : bool }.

Definition s_getc (s : astream) : Z * astream :=
  match s_unget s with
  | Some c => (c, AStream (s_file s) None (s_eof s) (s_err s))
  | None =>
      match a_get (s_file s) with
      | (Some b, a) => (b, AStream a None (s_eof s) (s_err s))
      | (None, a) => (EOF, AStream a None true (s_err s))
      end
  end.

Definition s_ungetc (c : Z) (s : astream) : Z * astream :=
  if c =? EOF then (EOF, s)
  else match s_unget s with
       | Some _ => (EOF, s)
       | None => (uwrap 8 c, AStream (s_file s) (Some (uwrap 8 c)) false (s_err s))
       end.

Definition s_putc (c : Z) (s : astream) : Z * astream :=
  (uwrap 8 c, AStream (a_put (uwrap 8 c) (s_file s)) (s_unget s) (s_eof s) (s_err s)).

Definition s_fflush (s : astream) : Z * astream := (0, AStream (s_file s) None (s_eof s) (s_err s)).

(** A seek to a position before the start fails; what it leaves is not
    specified here. *)
Definition s_fseek (offset whence : Z) (s : astream) : Z * astream :=
  (0, AStream (AFile (a_data (s_file s)) (a_target (s_file s) offset whence)) None false (s_err s)).

Definition s_ftell (s : astream) : Z * astream :=
  (match s_unget s with Some _ => a_pos (s_file s) - 1 | None => a_pos (s_file s) end, s).

(** At most [k] characters; false when the end of the file came first. *)
Fixpoint s_read (k : nat) (s : astream) : list Z * bool * astream :=
  match k with
  | O => ([], true, s)
  | S k =>
      let '(c, s1) := s_getc s in
      if c =? EOF then ([], false, s1)
      else let '(l, ok, s2) := s_read k s1 in (c :: l, ok, s2)
  end.

Definition s_fread (sz nmemb : Z) (s : astream) : (Z * list Z) * astream :=
  if sz =? 0 then ((0, []), s)
  else
    let '(l, ok, s') := s_read (Z.to_nat (sz * nmemb)) s in
    ((Z.of_nat (length l) / sz, l), s').

Fixpoint s_write (l : list Z) (s : astream) : astream :=
  match l with [] => s | c :: l => s_write l (s_putc c s).2 end.

Definition s_fwrite (l : list Z) (sz nmemb : Z) (s : astream) : Z * astream :=
  if sz =? 0 then (0, s) else (nmemb, s_write l s).

Definition s_fputs (l : list Z) (s : astream) : Z * astream := (0, s_write l s).

(** Up to a newline, at most [k] characters. *)
Fixpoint s_line (k : nat) (s : astream) : list Z * astream :=
  match k with
  | O => ([], s)
  | S k =>
      let '(c, s1) := s_getc s in
      if c =? EOF then ([], s1)
      else if c =? newline then ([c], s1)
      else let '(l, s2) := s_line k s1 in (c :: l, s2)
  end.

Definition s_fgets (sz : Z) (s : astream) : option (list Z) * astream :=
  if sz <=? 0 then (None, s)
  else
    let '(l, s') := s_line (Z.to_nat (sz - 1)) s in
    ((if (1 <? sz) && (match l with [] => true | _ => false end) then None else Some (l ++ [0])), s').

Definition s_feof (s : astream) : Z * astream := (if s_eof s then __SEOF else 0, s).
Definition s_ferror (s : astream) : Z * astream := (if s_err s then __SERR else 0, s).
Definition s_clearerr (s : astream) : unit * astream := (tt, AStream (s_file s) (s_unget s) false false).
Definition s_rewind (s : astream) : unit * astream := (tt, AStream (AFile (a_data (s_file s)) 0) None false false).

(** ** Programs of calls *)

Inductive call :=
| Getc | Ungetc (c : Z) | Putc (c : Z) | Fflush | Fseek (offset whence : Z) | Ftell | Feof | Ferror | Clearerr | Rewind
| Fread (sz nmemb : Z) | Fwrite (l : list Z) (sz nmemb : Z) | Fgets (sz : Z) | Fputs (l : list Z).

Inductive result := RUnit | RInt (r : Z) | RRead (r : Z * list Z) | RLine (r : option (list Z)).

Definition int_result {S} (x : Z * S) : result * S := (RInt x.1, x.2).

Definition s_call (c : call) (s : astream) : result * astream :=
  match c with
  | Getc => int_result (s_getc s)
  | Ungetc c => int_result (s_ungetc c s)
  | Putc c => int_result (s_putc c s)
  | Fflush => int_result (s_fflush s)
  | Fseek offset whence => int_result (s_fseek offset whence s)
  | Ftell => int_result (s_ftell s)
  | Feof => int_result (s_feof s)
  | Ferror => int_result (s_ferror s)
  | Clearerr => (RUnit, (s_clearerr s).2)
  | Rewind => (RUnit, (s_rewind s).2)
  | Fread sz nmemb => let '(r, s) := s_fread sz nmemb s in (RRead r, s)
  | Fwrite l sz nmemb => int_result (s_fwrite l sz nmemb s)
  | Fgets sz => let '(r, s) := s_fgets sz s in (RLine r, s)
  | Fputs l => int_result (s_fputs l s)
  end.

Fixpoint s_calls (cs : list call) (s : astream) : list result * astream :=
  match cs with
  | [] => ([], s)
  | c :: cs => let '(r, s1) := s_call c s in let '(rs, s2) := s_calls cs s1 in (r :: rs, s2)
  end.

(** The arguments are in their types, a seek goes to a position of the file, no
    byte is written past the last position of type __off_t, and ftell is called
    where the position fits in a long. *)
Definition legal `{Arch} (c : call) (s : astream) : Prop :=
  match c with
  | Putc _ => a_pos (s_file s) < OFF_MAX
  | Fseek offset whence =>
      (whence = SEEK_SET \/ whence = SEEK_CUR \/ whence = SEEK_END) /\ - 2 ^ (long_bits - 1) <= offset < 2 ^ (long_bits - 1) /\
      0 <= a_target (s_file s) offset whence <= OFF_MAX
  | Ftell => a_pos (s_file s) < 2 ^ (long_bits - 1)
  | Fread sz nmemb => 0 <= sz /\ 0 <= nmemb
  | Fwrite l sz nmemb => 0 <= sz /\ 0 <= nmemb /\ Z.of_nat (length l) = sz * nmemb /\ a_pos (s_file s) + Z.of_nat (length l) <= OFF_MAX
  | Fputs l => a_pos (s_file s) + Z.of_nat (length l) <= OFF_MAX
  | _ => True
  end.

Fixpoint legal_calls `{Arch} (cs : list call) (s : astream) : Prop :=
  match cs with [] => True | c :: cs => legal c s /\ legal_calls cs (s_call c s).2 end.

(** The loop bound of a call. *)
Definition call_fuel (c : call) : nat :=
  match c with
  | Fread sz nmemb => Z.to_nat sz + Z.to_nat nmemb
  | Fwrite _ sz nmemb => Z.to_nat sz + Z.to_nat nmemb
  | Fgets sz => Z.to_nat sz
  | Fputs l => length l
  | _ => 0
  end.

(** ** Flags *)

Lemma land_bit a k : 0 <= k -> (Z.land a (2 ^ k) =? 0) = negb (Z.testbit a k).
Proof.
  intros Hk. destruct (Z.testbit a k) eqn:E; cbn [negb].
  - apply Z.eqb_neq. intros Hz. assert (Z.testbit (Z.land a (2 ^ k)) k = true) as Ht.
    { rewrite Z.land_spec, E, Z.pow2_bits_true by done. done. }
    rewrite Hz, Z.bits_0 in Ht. done.
  - apply Z.eqb_eq. apply Z.bits_inj'. intros n Hn. rewrite Z.land_spec, Z.bits_0, Z.pow2_bits_eqb by done.
    destruct (Z.eqb_spec k n) as [<-|_]; [by rewrite E|apply andb_false_r].
Qed.

Lemma uwrap8_bit a k : 0 <= k < 8 -> Z.testbit (uwrap 8 a) k = Z.testbit a k.
Proof. intros Hk. unfold uwrap. apply Z.mod_pow2_bits_low. lia. Qed.

Section streams.
Context {D : Type} `{Device D} {DOk : DeviceOk D} {HA : Arch}.
Implicit Types f : FILE D.

Definition sabs f : astream :=
  AStream (abs f) (if unget f =? 0 then None else Some (unget f - 1)) (Z.testbit (flags f) 3) (Z.testbit (flags f) 2).

(** Open for reading and writing. *)
Record open f : Prop := {
  o_ready : ready f;
  o_read : Z.testbit (flags f) 0 = true;
  o_write : Z.testbit (flags f) 1 = true;
  o_unget : 0 <= unget f <= 256 }.

Lemma has_flag_eq f k x : 0 <= k -> x = 2 ^ k -> has_flag x f = Some (Z.testbit (flags f) k, f).
Proof.
  intros Hk ->. unfold has_flag. unfold bind at 1, rd at 1. rewrite land_bit by done. by rewrite negb_involutive.
Qed.

(** A change of the fields above the buffer. *)
Lemma ready_head f u fl : ready f -> ready (set_unget u (set_flags fl f)) /\ abs (set_unget u (set_flags fl f)) = abs f.
Proof. intros [[K1 K2 K3 K4 K5 K7 K6] Hr]. split; [|done]. split; [by split|done]. Qed.

Lemma set_unget_flags f u : set_unget u f = set_unget u (set_flags (flags f) f).
Proof. by destruct f. Qed.

Lemma set_flags_unget f fl : set_flags fl f = set_unget (unget f) (set_flags fl f).
Proof. by destruct f. Qed.

(** ** getc, ungetc, putc *)

(** The error flag stays too. *)
Lemma getc_full fuel f :
  open f -> (Z.to_nat (size f) < fuel)%nat ->
  exists r f', getc fuel f = Some (r, f') /\ open f' /\ size f' = size f /\ s_getc (sabs f) = (r, sabs f') /\ (r = EOF \/ is_byte r) /\
    Z.testbit (flags f') 2 = Z.testbit (flags f) 2.
Proof.
  intros [Hr H0 H1 Hu] Hf. unfold getc. rewrite (bind_eq _ _ _ _ _ (has_flag_eq f 0 __SRD ltac:(lia) eq_refl)), H0. cbn [negb].
  unfold __non_atomic_exchange_ungetc. unfold bind at 1. unfold bind at 1, rd at 1. unfold bind at 1, upd at 1. unfold ret at 1.
  unfold s_getc, sabs. cbn [s_unget s_file s_eof]. destruct (Z.eqb_spec (unget f) 0) as [Eu|Eu]; cbn [negb].
  - destruct (ready_head f 0 (flags f) Hr) as [Hr1 Ha1]. rewrite <- set_unget_flags in Hr1, Ha1.
    destruct (get_spec fuel (set_unget 0 f) Hr1 Hf) as (r & f2 & E2 & Hr2 & (U2 & F2 & B2 & S2) & Hx).
    rewrite (bind_eq _ _ _ _ _ E2). rewrite Ha1 in Hx. simpl in U2, F2, S2. destruct (a_get (abs f)) as [[b|] a'].
    + destruct Hx as (-> & Hby & Ha2). rewrite (proj2 (Z.ltb_ge _ _)) by apply Hby.
      exists b, f2. rewrite (uwrap_byte_id b Hby). split; [done|]. split_and!; try done.
      * split; try done; rewrite ?F2, ?U2; done || lia.
      * by rewrite Ha2, U2, F2.
      * by right.
      * by rewrite F2.
    + destruct Hx as [-> Ha2]. cbn [Z.ltb Z.compare]. rewrite (proj2 (Z.eqb_neq _FDEV_EOF _FDEV_ERR)) by done.
      unfold or_flags. unfold bind at 1, upd at 1. set (fl := uwrap 8 (Z.lor (flags f2) __SEOF)).
      destruct (ready_head f2 (unget f2) fl Hr2) as [Hr3 Ha3]. rewrite <- set_flags_unget in Hr3, Ha3.
      exists EOF, (set_flags fl f2). split; [done|].
      assert (forall k, 0 <= k < 8 -> Z.testbit fl k = Z.testbit (flags f2) k || Z.testbit __SEOF k) as Hfl.
      { intros k Hk. unfold fl. by rewrite uwrap8_bit, Z.lor_spec. }
      split_and!; try done.
      * split; [done| | |simpl; lia]; cbn [flags set_flags]; rewrite Hfl, F2 by lia; rewrite ?H0, ?H1; done.
      * cbn [flags set_flags unget]. rewrite Ha3, Ha2, !Hfl, U2, F2 by lia. by rewrite orb_true_r, orb_false_r.
      * by left.
      * cbn [flags set_flags]. rewrite Hfl, F2 by lia. by rewrite orb_false_r.
  - destruct (ready_head f 0 (flags f) Hr) as [Hr1 Ha1]. rewrite <- set_unget_flags in Hr1, Ha1.
    assert (uwrap 8 (unget f - 1) = unget f - 1) as Ew by (apply uwrap_small; lia).
    exists (uwrap 8 (unget f - 1)), (set_unget 0 f). split; [done|]. split_and!; try done; [by rewrite Ew, Ha1|right; apply uwrap_byte].
Qed.

Lemma getc_spec fuel f :
  open f -> (Z.to_nat (size f) < fuel)%nat ->
  exists r f', getc fuel f = Some (r, f') /\ open f' /\ size f' = size f /\ s_getc (sabs f) = (r, sabs f') /\ (r = EOF \/ is_byte r).
Proof. intros Ho Hf. destruct (getc_full fuel f Ho Hf) as (r & f' & E & K1 & K2 & K3 & K4 & _). by exists r, f'. Qed.

Lemma clear_flag_bit fl x k : 0 <= k -> Z.testbit (Z.land fl (Z.lnot x)) k = Z.testbit fl k && negb (Z.testbit x k).
Proof. intros Hk. by rewrite Z.land_spec, Z.lnot_spec. Qed.

(** The stream with the end-of-file indicator cleared and [u] pushed back. *)
Lemma clear_eof f u :
  open f -> 0 <= u <= 256 ->
  let f' := set_unget u (set_flags (Z.land (flags f) (Z.lnot __SEOF)) f) in
  open f' /\ sabs f' = AStream (abs f) (if u =? 0 then None else Some (u - 1)) false (Z.testbit (flags f) 2).
Proof.
  intros [Hr H0 H1 Hu] Hur f'. destruct (ready_head f u (Z.land (flags f) (Z.lnot __SEOF)) Hr) as [Hr' Ha']. split.
  - split; [done| | |done]; unfold f'; cbn [flags set_flags set_unget]; rewrite clear_flag_bit by lia; rewrite ?H0, ?H1; done.
  - unfold sabs. fold f' in Ha'. rewrite Ha'. unfold f'. cbn [flags set_flags set_unget unget]. rewrite !clear_flag_bit by lia.
    by rewrite andb_false_r, andb_true_r.
Qed.

Lemma ungetc_full f c :
  open f -> exists r f', ungetc c f = Some (r, f') /\ open f' /\ size f' = size f /\ s_ungetc c (sabs f) = (r, sabs f') /\
    Z.testbit (flags f') 2 = Z.testbit (flags f) 2.
Proof.
  intros Ho. pose proof Ho as [Hr H0 H1 Hu]. unfold ungetc.
  rewrite (bind_eq _ _ _ _ _ (has_flag_eq f 0 __SRD ltac:(lia) eq_refl)), H0. cbn [negb orb]. unfold s_ungetc.
  destruct (c =? EOF); [by exists EOF, f|]. unfold __non_atomic_compare_exchange_ungetc.
  unfold bind at 1. unfold bind at 1, rd at 1. unfold sabs at 1. cbn [s_unget].
  destruct (Z.eqb_spec (unget f) 0) as [Eu|Eu]; cbn [negb]; [|by exists EOF, f].
  unfold bind at 1, upd at 1. unfold ret at 1. cbn [negb]. unfold clear_flags. unfold bind at 1, upd at 1.
  pose proof (uwrap_byte c) as Hc. unfold is_byte in Hc.
  destruct (clear_eof f (uwrap 8 c + 1) Ho ltac:(lia)) as [Ho' Ha'].
  exists (uwrap 8 c), (set_unget (uwrap 8 c + 1) (set_flags (Z.land (flags f) (Z.lnot __SEOF)) f)).
  split; [done|]. split_and!; try done.
  - rewrite Ha', (proj2 (Z.eqb_neq _ _)) by lia. do 3 f_equal. lia.
  - cbn [flags set_flags set_unget]. rewrite clear_flag_bit by lia. by rewrite andb_true_r.
Qed.

Lemma ungetc_spec f c :
  open f -> exists r f', ungetc c f = Some (r, f') /\ open f' /\ size f' = size f /\ s_ungetc c (sabs f) = (r, sabs f').
Proof. intros Ho. destruct (ungetc_full f c Ho) as (r & f' & E & K1 & K2 & K3 & _). by exists r, f'. Qed.

Lemma open_same f f' : open f -> ready f' -> same_head f f' -> open f'.
Proof. intros [Hr H0 H1 Hu] Hr' (U & F & _). split; rewrite ?U, ?F; done. Qed.

Lemma sabs_same f f' : same_head f f' -> sabs f' = AStream (abs f') (s_unget (sabs f)) (s_eof (sabs f)) (s_err (sabs f)).
Proof. intros (U & F & _). unfold sabs. simpl. by rewrite U, F. Qed.

Lemma bufio_put_open fuel f c :
  open f -> (Z.to_nat (size f) < fuel)%nat -> a_pos (abs f) < OFF_MAX ->
  exists f', __bufio_put fuel c f = Some (uwrap 8 c, f') /\ open f' /\ size f' = size f /\ sabs f' = (s_putc c (sabs f)).2.
Proof.
  intros Ho Hf Hmax. destruct (put_spec fuel f c (o_ready _ Ho) Hf Hmax) as (f' & E & Hr & Ha & Hh). exists f'.
  split; [done|]. split_and!; [by eapply open_same|apply Hh|]. by rewrite (sabs_same f f' Hh), Ha.
Qed.

Lemma putc_spec fuel f c :
  open f -> (Z.to_nat (size f) < fuel)%nat -> a_pos (abs f) < OFF_MAX ->
  exists r f', putc fuel c f = Some (r, f') /\ open f' /\ size f' = size f /\ s_putc c (sabs f) = (r, sabs f').
Proof.
  intros Ho Hf Hmax. destruct (bufio_put_open fuel f c Ho Hf Hmax) as (f' & E & Ho' & Hs & Ha). unfold putc.
  rewrite (bind_eq _ _ _ _ _ (has_flag_eq f 1 __SWR ltac:(lia) eq_refl)), (o_write _ Ho). cbn [negb].
  rewrite (bind_eq _ _ _ _ _ E). rewrite (proj2 (Z.ltb_ge _ _)) by apply uwrap_byte. exists (uwrap 8 c), f'.
  split_and!; try done. rewrite Ha. done.
Qed.

(** ** fflush, fseek, ftell *)

Lemma fflush_spec fuel f :
  open f -> (Z.to_nat (size f) < fuel)%nat ->
  exists r f', fflush fuel f = Some (r, f') /\ open f' /\ size f' = size f /\ s_fflush (sabs f) = (r, sabs f') /\
    dev_content (dev f') = a_data (abs f).
Proof.
  intros Ho Hf. destruct (flush_locked_spec fuel f (proj1 (o_ready _ Ho)) Hf) as (f1 & E1 & [Hb1 Ha1 [Hl1 _] Hd1 Hc1 Hh1]).
  assert (ready f1) as Hr1 by (split; [done|]; intros _; destruct (b_size _ Hb1); lia).
  pose proof (open_same f f1 Ho Hr1 Hh1) as Ho1. destruct (ready_head f1 0 (flags f1) Hr1) as [Hr2 Ha2].
  rewrite <- set_unget_flags in Hr2, Ha2. unfold fflush, __bufio_flush. rewrite (bind_eq _ _ _ _ _ E1).
  exists 0, (set_unget 0 f1). split; [done|]. split_and!; try done.
  - destruct Ho1 as [_ K1 K2 _]. by split.
  - apply Hh1.
  - unfold s_fflush, sabs. cbn [s_file s_eof s_err unget set_unget flags]. rewrite Ha2, Ha1.
    assert (flags f1 = flags f) as -> by apply Hh1. done.
Qed.

Lemma fseek_spec fuel f offset whence :
  open f -> (Z.to_nat (size f) < fuel)%nat -> whence = SEEK_SET \/ whence = SEEK_CUR \/ whence = SEEK_END ->
  - 2 ^ (long_bits - 1) <= offset < 2 ^ (long_bits - 1) -> 0 <= a_target (abs f) offset whence <= OFF_MAX ->
  exists r f', fseek fuel offset whence f = Some (r, f') /\ open f' /\ size f' = size f /\
    s_fseek offset whence (sabs f) = (r, sabs f').
Proof.
  intros Ho Hf Hw Hof Ht. destruct (seek_spec fuel f offset whence (o_ready _ Ho) Hf Hw) as (r & f1 & E1 & Hr1 & Hh1 & Hx); [change (2 ^ 63) with 9223372036854775808; lia|].
  destruct Hx as [(_ & -> & Ha1)|(? & _)]; [|lia]. unfold fseek. rewrite swrap_small by (done || apply long_bits_pos). rewrite (bind_eq _ _ _ _ _ E1).
  rewrite (proj2 (Z.leb_le _ _)) by lia. unfold clear_flags. unfold bind at 1, upd at 1.
  destruct (clear_eof f1 0 (open_same f f1 Ho Hr1 Hh1) ltac:(lia)) as [Ho' Ha'].
  exists 0, (set_unget 0 (set_flags (Z.land (flags f1) (Z.lnot __SEOF)) f1)). split; [done|].
  split_and!; try done; [apply Hh1|]. rewrite Ha', Ha1. unfold s_fseek. cbn [s_file s_err sabs]. assert (flags f1 = flags f) as -> by apply Hh1. done.
Qed.

(** The position is a nonnegative number of type __off_t. *)
Lemma abs_pos f : ready f -> 0 <= a_pos (abs f) <= OFF_MAX.
Proof.
  intros [Hb _]. pose proof (pos_bounds f Hb). destruct Hb as [K1 K2 K3 K4 K5 K7 K6]. unfold abs. destruct (Z.eqb_spec (dir f) __SWR) as [E|E]; simpl; [specialize (K7 E); lia|].
  destruct K6 as [[? _]|(_ & _ & ? & _)]; [done|lia].
Qed.

Lemma ftell_spec fuel f :
  open f -> (Z.to_nat (size f) < fuel)%nat -> a_pos (abs f) < 2 ^ (long_bits - 1) ->
  exists r f', ftell fuel f = Some (r, f') /\ open f' /\ size f' = size f /\ s_ftell (sabs f) = (r, sabs f').
Proof.
  intros Ho Hf Hp. pose proof (abs_pos f (o_ready _ Ho)) as Hb. assert (a_target (abs f) 0 SEEK_CUR = a_pos (abs f)) as Et by (unfold a_target; simpl; lia).
  destruct (seek_spec fuel f 0 SEEK_CUR (o_ready _ Ho) Hf) as (r & f1 & E1 & Hr1 & Hh1 & Hx); [auto|rewrite Et; change (2 ^ 63) with 9223372036854775808; lia|].
  rewrite Et in Hx. destruct Hx as [(_ & -> & Ha1)|(? & _)]; [|lia]. unfold ftell. rewrite (bind_eq _ _ _ _ _ E1).
  assert (0 < 2 ^ (long_bits - 1)) as Hpow by (apply Z.pow_pos_nonneg; pose proof long_bits_pos; lia). rewrite swrap_small by (apply long_bits_pos || lia).
  unfold bind at 1, rd at 1. assert (unget f1 = unget f) as -> by apply Hh1. rewrite (proj2 (Z.eqb_neq (a_pos (abs f)) (- 2 ^ (long_bits - 1)))) by lia.
  exists (if negb (unget f =? 0) then a_pos (abs f) - 1 else a_pos (abs f)), f1. split; [by destruct (unget f =? 0)|]. split_and!; [by eapply open_same|apply Hh1|].
  rewrite (sabs_same f f1 Hh1), Ha1. unfold s_ftell, sabs. cbn [s_unget s_file s_eof s_err]. destruct (unget f =? 0); cbn [negb]; by destruct (abs f).
Qed.

(** ** clearerr, rewind *)

Lemma clearerr_spec f : open f -> exists f', clearerr f = Some (tt, f') /\ open f' /\ size f' = size f /\ s_clearerr (sabs f) = (tt, sabs f').
Proof.
  intros [Hr H1 H2 Hu]. unfold clearerr, clear_flags. set (fl := Z.land (flags f) (Z.lnot (Z.lor __SERR __SEOF))).
  destruct (ready_head f (unget f) fl Hr) as [Hr' Ha']. rewrite <- set_flags_unget in Hr', Ha'. exists (set_flags fl f).
  assert (forall k, 0 <= k -> Z.testbit fl k = Z.testbit (flags f) k && negb (Z.testbit (Z.lor __SERR __SEOF) k)) as Hfl by (intros; by apply clear_flag_bit).
  split; [done|]. split_and!; try done.
  - split; try done; cbn [flags set_flags]; rewrite Hfl by lia; by rewrite ?H1, ?H2.
  - unfold s_clearerr, sabs. cbn [s_file s_unget flags set_flags unget]. rewrite Ha', !Hfl by lia. by rewrite !andb_false_r.
Qed.

Lemma rewind_spec fuel f :
  open f -> (Z.to_nat (size f) < fuel)%nat ->
  exists f', rewind fuel f = Some (tt, f') /\ open f' /\ size f' = size f /\ s_rewind (sabs f) = (tt, sabs f').
Proof.
  intros Ho Hf. destruct (clearerr_spec f Ho) as (f1 & E1 & Ho1 & Hs1 & Ha1). unfold rewind. rewrite (bind_eq _ _ _ _ _ E1).
  assert (0 < 2 ^ (long_bits - 1)) as Hpow by (apply Z.pow_pos_nonneg; pose proof long_bits_pos; lia).
  destruct (fseek_spec fuel f1 0 SEEK_SET Ho1) as (r & f2 & E2 & Ho2 & Hs2 & Ha2); [lia|by left|lia|done|]. rewrite (bind_eq _ _ _ _ _ E2). exists f2. split; [done|].
  split_and!; [done|lia|]. apply (f_equal snd) in Ha1, Ha2. unfold s_clearerr in Ha1. unfold s_fseek in Ha2. cbn [snd] in Ha1, Ha2. by rewrite <- Ha2, <- Ha1.
Qed.

(** ** fread, fwrite *)

Lemma s_read_add a b st :
  s_read (a + b) st =
    let '(l1, ok1, st1) := s_read a st in
    if ok1 : bool then let '(l2, ok2, st2) := s_read b st1 in (l1 ++ l2, ok2, st2) else (l1, false, st1).
Proof.
  revert st. induction a as [|a IH]; intros st; simpl; [by destruct (s_read b st) as [[? ?] ?]|].
  destruct (s_getc st) as [c st1]. destruct (c =? EOF); [done|]. rewrite IH.
  destruct (s_read a st1) as [[l1 ok1] st2]. destruct ok1; [|done]. by destruct (s_read b st2) as [[? ?] ?].
Qed.

Lemma s_read_length k st :
  let '(l, ok, _) := s_read k st in if ok : bool then length l = k else (length l < k)%nat.
Proof.
  revert st. induction k as [|k IH]; intros st; simpl; [done|]. destruct (s_getc st) as [c st1].
  destruct (c =? EOF); simpl; [lia|]. specialize (IH st1). destruct (s_read k st1) as [[l ok] st2]. destruct ok; simpl; lia.
Qed.

Lemma fread_item_spec fuel n f sz i acc :
  open f -> (Z.to_nat (size f) < fuel)%nat -> (Z.to_nat (sz - i) < n)%nat ->
  exists f' l ok, loop (fun '(j, acc) =>
      if j <? sz then
        do c <- getc fuel;
        if c =? EOF then ret (inr (acc, false)) else ret (inl (j + 1, acc ++ [uwrap 8 c]))
      else ret (inr (acc, true))) n (i, acc) f = Some ((acc ++ l, ok), f') /\
    open f' /\ size f' = size f /\ s_read (Z.to_nat (sz - i)) (sabs f) = (l, ok, sabs f').
Proof.
  intros Ho Hf. revert f i acc Ho Hf. induction n as [|n IH]; intros f i acc Ho Hf Hn; [lia|].
  destruct (Z.ltb_spec i sz) as [Hlt|Hge].
  - destruct (getc_spec fuel f Ho Hf) as (c & f1 & E1 & Ho1 & Hs1 & Hg & Hc).
    replace (Z.to_nat (sz - i)) with (S (Z.to_nat (sz - (i + 1)))) by lia. cbn [s_read]. rewrite Hg.
    destruct (Z.eqb_spec c EOF) as [->|Hne].
    + exists f1, [], false. rewrite app_nil_r. split_and!; try done.
      rewrite (loop_stop _ _ _ _ (acc, false) f1); [done|]. rewrite (proj2 (Z.ltb_lt _ _) Hlt). by rewrite (bind_eq _ _ _ _ _ E1).
    + destruct Hc as [?|Hc]; [done|].
      destruct (IH f1 (i + 1) (acc ++ [uwrap 8 c]) Ho1 ltac:(lia) ltac:(lia)) as (f2 & l & ok & E2 & Ho2 & Hs2 & Hr2).
      exists f2, (c :: l), ok. rewrite Hr2. split_and!; try done; [|by rewrite Hs2].
      rewrite (loop_go _ _ _ _ (i + 1, acc ++ [uwrap 8 c]) f1); [rewrite E2, (uwrap_byte_id c Hc), <- app_assoc; done|].
      rewrite (proj2 (Z.ltb_lt _ _) Hlt), (bind_eq _ _ _ _ _ E1). by rewrite (proj2 (Z.eqb_neq _ _) Hne).
  - exists f, [], true. rewrite app_nil_r. replace (Z.to_nat (sz - i)) with 0%nat by lia. split_and!; try done.
    rewrite (loop_stop _ _ _ _ (acc, true) f); [done|]. by rewrite (proj2 (Z.ltb_ge _ _) Hge).
Qed.

Lemma fread_items fuel n f sz nmemb i acc :
  open f -> (Z.to_nat (size f) < fuel)%nat -> (Z.to_nat sz < fuel)%nat -> 0 < sz -> 0 <= i ->
  Z.of_nat (length acc) = i * sz -> i <= nmemb -> (Z.to_nat (nmemb - i) < n)%nat ->
  exists f' l ok, loop (fun '(i, acc) =>
      if i <? nmemb then
        do '(acc, ok) <- fread_item fuel sz acc;
        if ok : bool then ret (inl (i + 1, acc)) else ret (inr (i, acc))
      else ret (inr (i, acc))) n (i, acc) f = Some ((Z.of_nat (length (acc ++ l)) / sz, acc ++ l), f') /\
    open f' /\ size f' = size f /\ s_read (Z.to_nat (sz * (nmemb - i))) (sabs f) = (l, ok, sabs f').
Proof.
  intros Ho Hf Hfz Hsz. revert f i acc Ho Hf. induction n as [|n IH]; intros f i acc Ho Hf Hi Hacc Hin Hn; [lia|].
  destruct (Z.ltb_spec i nmemb) as [Hlt|Hge].
  - destruct (fread_item_spec fuel fuel f sz 0 acc Ho Hf ltac:(lia)) as (f1 & l1 & ok1 & E1 & Ho1 & Hs1 & Hr1).
    rewrite Z.sub_0_r in Hr1. pose proof (s_read_length (Z.to_nat sz) (sabs f)) as Hlen. rewrite Hr1 in Hlen.
    replace (Z.to_nat (sz * (nmemb - i))) with (Z.to_nat sz + Z.to_nat (sz * (nmemb - (i + 1))))%nat by nia.
    rewrite s_read_add, Hr1. destruct ok1.
    + destruct (IH f1 (i + 1) (acc ++ l1) Ho1 ltac:(lia) ltac:(lia)) as (f2 & l2 & ok2 & E2 & Ho2 & Hs2 & Hr2);
        [rewrite length_app_Z; nia|lia|lia|].
      exists f2, (l1 ++ l2), ok2. rewrite Hr2. split_and!; try done; [|by rewrite Hs2].
      rewrite (loop_go _ _ _ _ (i + 1, acc ++ l1) f1); [by rewrite E2, app_assoc|].
      rewrite (proj2 (Z.ltb_lt _ _) Hlt). unfold fread_item. by rewrite (bind_eq _ _ _ _ _ E1).
    + exists f1, l1, false. split_and!; try done.
      rewrite (loop_stop _ _ _ _ (i, acc ++ l1) f1).
      * do 3 f_equal. apply (Z.div_unique _ _ _ (Z.of_nat (length l1))); [lia|]. rewrite length_app_Z. nia.
      * rewrite (proj2 (Z.ltb_lt _ _) Hlt). unfold fread_item. by rewrite (bind_eq _ _ _ _ _ E1).
  - exists f, [], true. rewrite app_nil_r. replace (Z.to_nat (sz * (nmemb - i))) with 0%nat by nia. split_and!; try done.
    rewrite (loop_stop _ _ _ _ (i, acc) f).
    + do 3 f_equal. rewrite Hacc. symmetry. apply Z.div_mul. lia.
    + by rewrite (proj2 (Z.ltb_ge _ _) Hge).
Qed.

Lemma fread_spec fuel f sz nmemb :
  open f -> (Z.to_nat (size f) < fuel)%nat -> (Z.to_nat sz < fuel)%nat -> (Z.to_nat nmemb < fuel)%nat -> 0 <= sz -> 0 <= nmemb ->
  exists r f', fread fuel sz nmemb f = Some (r, f') /\ open f' /\ size f' = size f /\ s_fread sz nmemb (sabs f) = (r, sabs f').
Proof.
  intros Ho Hf Hfz Hfn Hsz Hn. unfold fread. rewrite (bind_eq _ _ _ _ _ (has_flag_eq f 0 __SRD ltac:(lia) eq_refl)), (o_read _ Ho).
  cbn [negb orb]. unfold s_fread. destruct (Z.eqb_spec sz 0) as [Ez|Ez]; [by exists (0, []), f|].
  destruct (fread_items fuel fuel f sz nmemb 0 [] Ho Hf Hfz ltac:(lia) ltac:(lia) ltac:(simpl; lia) Hn ltac:(lia))
    as (f' & l & ok & E & Ho' & Hs & Hr). rewrite Z.sub_0_r in Hr. rewrite Hr. do 2 eexists. split; [exact E|]. done.
Qed.

Lemma s_write_app l1 l2 st : s_write (l1 ++ l2) st = s_write l2 (s_write l1 st).
Proof. revert st. induction l1 as [|c l1 IH]; intros st; simpl; [done|apply IH]. Qed.

Lemma s_write_pos l st : a_pos (s_file (s_write l st)) = a_pos (s_file st) + Z.of_nat (length l).
Proof. revert st. induction l as [|c l IH]; intros st; cbn [s_write]; [cbn; lia|]. rewrite IH. cbn. lia. Qed.

Lemma sabs_pos f st : sabs f = st -> a_pos (abs f) = a_pos (s_file st).
Proof. by intros <-. Qed.

Lemma fwrite_item_spec fuel n f sz i cp :
  open f -> (Z.to_nat (size f) < fuel)%nat -> i <= sz -> sz - i <= Z.of_nat (length cp) -> (Z.to_nat (sz - i) < n)%nat -> a_pos (abs f) + (sz - i) <= OFF_MAX ->
  exists f', loop (fun '(j, cp) =>
      if j <? sz then
        match cp with
        | [] => fault
        | c :: cp => do r <- __bufio_put fuel c; if r <? 0 then ret (inr (cp, false)) else ret (inl (j + 1, cp))
        end
      else ret (inr (cp, true))) n (i, cp) f = Some ((drop (Z.to_nat (sz - i)) cp, true), f') /\
    open f' /\ size f' = size f /\ sabs f' = s_write (take (Z.to_nat (sz - i)) cp) (sabs f).
Proof.
  intros Ho Hf. revert f i cp Ho Hf. induction n as [|n IH]; intros f i cp Ho Hf Hi Hcp Hn Hmax; [lia|].
  destruct (Z.ltb_spec i sz) as [Hlt|Hge].
  - destruct cp as [|c cp]; [simpl in Hcp; lia|]. destruct (bufio_put_open fuel f c Ho Hf ltac:(lia)) as (f1 & E1 & Ho1 & Hs1 & Ha1). pose proof (sabs_pos _ _ Ha1) as Hp1. cbn in Hp1.
    replace (Z.to_nat (sz - i)) with (S (Z.to_nat (sz - (i + 1)))) by lia. cbn [take drop s_write length] in *.
    destruct (IH f1 (i + 1) cp Ho1 ltac:(lia) ltac:(lia) ltac:(lia) ltac:(lia) ltac:(lia)) as (f2 & E2 & Ho2 & Hs2 & Ha2).
    exists f2. rewrite Ha2, Ha1. split_and!; try done; [|by rewrite Hs2].
    rewrite (loop_go _ _ _ _ (i + 1, cp) f1); [done|]. rewrite (proj2 (Z.ltb_lt _ _) Hlt), (bind_eq _ _ _ _ _ E1).
    by rewrite (proj2 (Z.ltb_ge _ _)) by apply uwrap_byte.
  - exists f. replace (Z.to_nat (sz - i)) with 0%nat by lia. split_and!; try done.
    rewrite (loop_stop _ _ _ _ (cp, true) f); [done|]. by rewrite (proj2 (Z.ltb_ge _ _) Hge).
Qed.

Lemma fwrite_items fuel n f sz nmemb i cp :
  open f -> (Z.to_nat (size f) < fuel)%nat -> (Z.to_nat sz < fuel)%nat -> 0 < sz -> i <= nmemb ->
  Z.of_nat (length cp) = sz * (nmemb - i) -> (Z.to_nat (nmemb - i) < n)%nat -> a_pos (abs f) + Z.of_nat (length cp) <= OFF_MAX ->
  exists f', loop (fun '(i, cp) =>
      if i <? nmemb then
        do '(cp, ok) <- fwrite_item fuel sz cp;
        if ok : bool then ret (inl (i + 1, cp)) else ret (inr i)
      else ret (inr i)) n (i, cp) f = Some (nmemb, f') /\
    open f' /\ size f' = size f /\ sabs f' = s_write cp (sabs f).
Proof.
  intros Ho Hf Hfz Hsz. revert f i cp Ho Hf. induction n as [|n IH]; intros f i cp Ho Hf Hi Hcp Hn Hmax; [lia|].
  destruct (Z.ltb_spec i nmemb) as [Hlt|Hge].
  - destruct (fwrite_item_spec fuel fuel f sz 0 cp Ho Hf ltac:(lia) ltac:(nia) ltac:(lia) ltac:(nia)) as (f1 & E1 & Ho1 & Hs1 & Ha1).
    rewrite Z.sub_0_r in E1, Ha1. pose proof (sabs_pos _ _ Ha1) as Hp1. rewrite s_write_pos, length_take in Hp1. cbn [s_file sabs] in Hp1.
    destruct (IH f1 (i + 1) (drop (Z.to_nat sz) cp) Ho1 ltac:(lia) ltac:(lia)) as (f2 & E2 & Ho2 & Hs2 & Ha2);
      [rewrite length_drop; nia|lia|rewrite length_drop; nia|].
    exists f2. rewrite Ha2, Ha1, <- s_write_app, take_drop. split_and!; try done; [|by rewrite Hs2].
    rewrite (loop_go _ _ _ _ (i + 1, drop (Z.to_nat sz) cp) f1); [done|].
    rewrite (proj2 (Z.ltb_lt _ _) Hlt). unfold fwrite_item. by rewrite (bind_eq _ _ _ _ _ E1).
  - assert (i = nmemb) as -> by lia. assert (cp = []) as -> by (apply nil_length_inv; nia). exists f. split_and!; try done.
    rewrite (loop_stop _ _ _ _ nmemb f); [done|]. by rewrite Z.ltb_irrefl.
Qed.

Lemma fwrite_spec fuel f l sz nmemb :
  open f -> (Z.to_nat (size f) < fuel)%nat -> (Z.to_nat sz < fuel)%nat -> (Z.to_nat nmemb < fuel)%nat -> 0 <= sz -> 0 <= nmemb ->
  Z.of_nat (length l) = sz * nmemb -> a_pos (abs f) + Z.of_nat (length l) <= OFF_MAX ->
  exists r f', fwrite fuel l sz nmemb f = Some (r, f') /\ open f' /\ size f' = size f /\ s_fwrite l sz nmemb (sabs f) = (r, sabs f').
Proof.
  intros Ho Hf Hfz Hfn Hsz Hn Hl Hmax. unfold fwrite. rewrite (bind_eq _ _ _ _ _ (has_flag_eq f 1 __SWR ltac:(lia) eq_refl)), (o_write _ Ho).
  cbn [negb orb]. unfold s_fwrite. destruct (Z.eqb_spec sz 0) as [Ez|Ez]; [by exists 0, f|].
  destruct (fwrite_items fuel fuel f sz nmemb 0 l Ho Hf Hfz ltac:(lia) Hn) as (f' & E & Ho' & Hs & Hr); [lia|lia|lia|].
  exists nmemb, f'. by rewrite Hr.
Qed.

Lemma fputs_spec fuel f l :
  open f -> (Z.to_nat (size f) < fuel)%nat -> (length l < fuel)%nat -> a_pos (abs f) + Z.of_nat (length l) <= OFF_MAX ->
  exists r f', fputs fuel l f = Some (r, f') /\ open f' /\ size f' = size f /\ s_fputs l (sabs f) = (r, sabs f').
Proof.
  intros Ho Hf Hl Hmax. unfold fputs. rewrite (bind_eq _ _ _ _ _ (has_flag_eq f 1 __SWR ltac:(lia) eq_refl)), (o_write _ Ho). cbn [negb].
  unfold s_fputs. set (body := fun str : list Z => _). exists 0.
  enough (forall n f, open f -> (Z.to_nat (size f) < fuel)%nat -> (length l < n)%nat -> a_pos (abs f) + Z.of_nat (length l) <= OFF_MAX ->
    exists f', loop body n l f = Some (0, f') /\ open f' /\ size f' = size f /\ sabs f' = s_write l (sabs f)) as Hg.
  { destruct (Hg fuel f Ho Hf Hl Hmax) as (f' & E & Ho' & Hs & Ha). exists f'. by rewrite Ha. }
  clear f Ho Hf Hl Hmax. induction l as [|c l IH]; intros n f Ho Hf Hl Hmax; (destruct n as [|n]; [simpl in Hl; lia|]).
  - exists f. by rewrite (loop_stop _ _ _ _ 0 f).
  - cbn [length] in Hl, Hmax. destruct (bufio_put_open fuel f c Ho Hf ltac:(lia)) as (f1 & E1 & Ho1 & Hs1 & Ha1). pose proof (sabs_pos _ _ Ha1) as Hp1. cbn in Hp1.
    destruct (IH n f1 Ho1 ltac:(lia) ltac:(lia) ltac:(lia)) as (f2 & E2 & Ho2 & Hs2 & Ha2). exists f2.
    cbn [s_write]. rewrite Ha2, Ha1. split_and!; try done; [|by rewrite Hs2].
    rewrite (loop_go _ _ _ _ l f1); [done|]. unfold body. rewrite (bind_eq _ _ _ _ _ E1).
    by rewrite (proj2 (Z.ltb_ge _ _)) by apply uwrap_byte.
Qed.

(** ** fgets *)

Lemma fgets_loop fuel n f c k acc :
  open f -> (Z.to_nat (size f) < fuel)%nat -> (Z.to_nat k < n)%nat -> c <> newline ->
  exists f', loop (fun '(c, n, acc) =>
      if negb (c =? newline) && (0 <? n) then
        do c <- getc fuel;
        if c =? EOF then match acc with [] => ret (inr None) | _ => ret (inr (Some (acc ++ [0]))) end
        else ret (inl (c, n - 1, acc ++ [uwrap 8 c]))
      else ret (inr (Some (acc ++ [0])))) n (c, k, acc) f =
    Some (let '(l, _) := s_line (Z.to_nat k) (sabs f) in
          if (0 <? k) && (match acc ++ l with [] => true | _ => false end) then None else Some (acc ++ l ++ [0]), f') /\
    open f' /\ size f' = size f /\ (s_line (Z.to_nat k) (sabs f)).2 = sabs f'.
Proof.
  intros Ho Hf. revert f c k acc Ho Hf. induction n as [|n IH]; intros f c k acc Ho Hf Hn Hc; [lia|].
  destruct (Z.ltb_spec 0 k) as [Hlt|Hge].
  - destruct (getc_spec fuel f Ho Hf) as (c1 & f1 & E1 & Ho1 & Hs1 & Hg & Hby).
    replace (Z.to_nat k) with (S (Z.to_nat (k - 1))) by lia. cbn [s_line]. rewrite Hg.
    destruct (Z.eqb_spec c1 EOF) as [->|Hne].
    + exists f1. rewrite app_nil_r. split_and!; try done.
      rewrite (loop_stop _ _ _ _ (match acc with [] => None | _ => Some (acc ++ [0]) end) f1); [by destruct acc|].
      rewrite (proj2 (Z.eqb_neq _ _) Hc), (proj2 (Z.ltb_lt _ _) Hlt). cbn [negb andb]. rewrite (bind_eq _ _ _ _ _ E1).
      by destruct acc.
    + destruct Hby as [?|Hby]; [done|].
      assert (forall x, x = inl (c1, k - 1, acc ++ [c1]) -> (if negb (c =? newline) && (0 <? k) then
        do c <- getc fuel;
        if c =? EOF then match acc with [] => ret (inr None) | _ => ret (inr (Some (acc ++ [0]))) end
        else ret (inl (c, k - 1, acc ++ [uwrap 8 c]))
      else ret (inr (Some (acc ++ [0])))) f = Some (x, f1)) as Es.
      { intros x ->. rewrite (proj2 (Z.eqb_neq _ _) Hc), (proj2 (Z.ltb_lt _ _) Hlt). cbn [negb andb].
        rewrite (bind_eq _ _ _ _ _ E1), (proj2 (Z.eqb_neq _ _) Hne), (uwrap_byte_id c1 Hby). done. }
      rewrite (loop_go _ _ _ _ (c1, k - 1, acc ++ [c1]) f1) by (by apply Es). destruct (Z.eqb_spec c1 newline) as [->|Hnl].
      * exists f1. split_and!; try done. destruct n as [|n]; [lia|].
        rewrite (loop_stop _ _ _ _ (Some ((acc ++ [newline]) ++ [0])) f1); [|done].
        rewrite <- app_assoc. by destruct acc.
      * destruct (IH f1 c1 (k - 1) (acc ++ [c1]) Ho1 ltac:(lia) ltac:(lia) Hnl) as (f2 & E2 & Ho2 & Hs2 & Ha2).
        exists f2. rewrite E2. destruct (s_line (Z.to_nat (k - 1)) (sabs f1)) as [l s2]. split_and!; try done; [|by rewrite Hs2].
        rewrite <- !app_assoc. simpl. by destruct acc; rewrite ?andb_false_r.
  - exists f. replace (Z.to_nat k) with 0%nat by lia. cbn [s_line]. split_and!; try done.
    rewrite (loop_stop _ _ _ _ (Some (acc ++ [0])) f); [done|]. rewrite (proj2 (Z.ltb_ge _ _) Hge). by rewrite andb_false_r.
Qed.

Lemma fgets_spec fuel f sz :
  open f -> (Z.to_nat (size f) < fuel)%nat -> (Z.to_nat sz < fuel)%nat ->
  exists r f', fgets fuel sz f = Some (r, f') /\ open f' /\ size f' = size f /\ s_fgets sz (sabs f) = (r, sabs f').
Proof.
  intros Ho Hf Hfz. unfold fgets. rewrite (bind_eq _ _ _ _ _ (has_flag_eq f 0 __SRD ltac:(lia) eq_refl)), (o_read _ Ho).
  cbn [negb orb]. unfold s_fgets. destruct (Z.leb_spec sz 0) as [Ez|Ez]; [by exists None, f|].
  destruct (fgets_loop fuel fuel f 0 (sz - 1) [] Ho Hf ltac:(lia)) as (f' & E & Ho' & Hs & Ha); [done|].
  do 2 eexists. split; [exact E|]. destruct (s_line (Z.to_nat (sz - 1)) (sabs f)) as [l s']. simpl in Ha. subst s'.
  split_and!; try done. do 2 f_equal. cbn [app]. destruct (Z.ltb_spec 1 sz), (Z.ltb_spec 0 (sz - 1)); done || lia.
Qed.

(** ** Programs *)

Definition do_call (fuel : nat) (c : call) : C (FILE D) result :=
  match c with
  | Getc => do r <- getc fuel; ret (RInt r)
  | Ungetc c => do r <- ungetc c; ret (RInt r)
  | Putc c => do r <- putc fuel c; ret (RInt r)
  | Fflush => do r <- fflush fuel; ret (RInt r)
  | Fseek offset whence => do r <- fseek fuel offset whence; ret (RInt r)
  | Ftell => do r <- ftell fuel; ret (RInt r)
  | Feof => do r <- feof; ret (RInt r)
  | Ferror => do r <- ferror; ret (RInt r)
  | Clearerr => run clearerr; ret RUnit
  | Rewind => run rewind fuel; ret RUnit
  | Fread sz nmemb => do r <- fread fuel sz nmemb; ret (RRead r)
  | Fwrite l sz nmemb => do r <- fwrite fuel l sz nmemb; ret (RInt r)
  | Fgets sz => do r <- fgets fuel sz; ret (RLine r)
  | Fputs l => do r <- fputs fuel l; ret (RInt r)
  end.

Fixpoint do_calls (fuel : nat) (cs : list call) : C (FILE D) (list result) :=
  match cs with
  | [] => ret []
  | c :: cs => do r <- do_call fuel c; do rs <- do_calls fuel cs; ret (r :: rs)
  end.

Lemma land_flag a k : 0 <= k -> Z.land a (2 ^ k) = if Z.testbit a k then 2 ^ k else 0.
Proof.
  intros Hk. pose proof (land_bit a k Hk) as Hb. destruct (Z.testbit a k) eqn:E; cbn [negb] in Hb; [|by apply Z.eqb_eq].
  apply Z.bits_inj'. intros n Hn. rewrite Z.land_spec, Z.pow2_bits_eqb by lia. destruct (Z.eqb_spec k n) as [<-|]; [by rewrite E|apply andb_false_r].
Qed.

Lemma feof_spec f : feof f = Some ((s_feof (sabs f)).1, f).
Proof. unfold feof. unfold bind at 1, rd at 1. unfold ret. change __SEOF with (2 ^ 3). by rewrite land_flag. Qed.

Lemma ferror_spec f : ferror f = Some ((s_ferror (sabs f)).1, f).
Proof. unfold ferror. unfold bind at 1, rd at 1. unfold ret. change __SERR with (2 ^ 2). by rewrite land_flag. Qed.

(** The result and the state of a function that refines its abstraction. *)
Lemma call_intro {A} (m : C (FILE D) A) (wrap : A -> result) (sm : astream -> A * astream) f f' r :
  m f = Some (r, f') -> sm (sabs f) = (r, sabs f') ->
  (do r <- m; ret (wrap r)) f = Some (wrap r, f') /\ (wrap (sm (sabs f)).1, (sm (sabs f)).2) = (wrap r, sabs f').
Proof. intros E Hs. rewrite (bind_eq _ _ _ _ _ E), Hs. done. Qed.

Lemma call_spec fuel c f :
  open f -> legal c (sabs f) -> (Z.to_nat (size f) + call_fuel c < fuel)%nat ->
  exists r f', do_call fuel c f = Some (r, f') /\ s_call c (sabs f) = (r, sabs f') /\ open f' /\ size f' = size f.
Proof.
  intros Ho Hl Hf. pose proof (abs_pos f (o_ready _ Ho)) as Hp.
  assert (forall A (m : C (FILE D) A) (wrap : A -> result) (sm : astream -> A * astream),
    (exists r f', m f = Some (r, f') /\ open f' /\ size f' = size f /\ sm (sabs f) = (r, sabs f')) ->
    exists r f', (do r <- m; ret (wrap r)) f = Some (r, f') /\ (wrap (sm (sabs f)).1, (sm (sabs f)).2) = (r, sabs f') /\
      open f' /\ size f' = size f) as Hw.
  { intros A m wrap sm (r & f' & E & Ho' & Hs & Ha). exists (wrap r), f'. destruct (call_intro m wrap sm f f' r E Ha). done. }
  destruct c as [|c|c| |o w| | | | | |sz n|l sz n|sz|l]; cbn [do_call s_call legal call_fuel] in *.
  - apply (Hw _ (getc fuel) RInt s_getc). destruct (getc_spec fuel f Ho) as (r & f' & E & K1 & K2 & K3 & _); [lia|]. by exists r, f'.
  - by apply (Hw _ (ungetc c) RInt (s_ungetc c)), ungetc_spec.
  - apply (Hw _ (putc fuel c) RInt (s_putc c)), putc_spec; [done|lia|done].
  - apply (Hw _ (fflush fuel) RInt s_fflush). destruct (fflush_spec fuel f Ho) as (r & f' & E & K1 & K2 & K3 & _); [lia|]. by exists r, f'.
  - apply (Hw _ (fseek fuel o w) RInt (s_fseek o w)). destruct Hl as (? & ? & ?). apply fseek_spec; done || lia.
  - apply (Hw _ (ftell fuel) RInt s_ftell), ftell_spec; done || lia.
  - apply (Hw _ feof RInt s_feof). exists (s_feof (sabs f)).1, f. by rewrite feof_spec.
  - apply (Hw _ ferror RInt s_ferror). exists (s_ferror (sabs f)).1, f. by rewrite ferror_spec.
  - apply (Hw _ clearerr (fun _ => RUnit) s_clearerr). destruct (clearerr_spec f Ho) as (f' & K). by exists tt, f'.
  - apply (Hw _ (rewind fuel) (fun _ => RUnit) s_rewind). destruct (rewind_spec fuel f Ho ltac:(lia)) as (f' & K). by exists tt, f'.
  - destruct (Hw _ (fread fuel sz n) RRead (s_fread sz n)) as (r & f' & E & Hs & Hr); [apply fread_spec; done || lia|].
    exists r, f'. split; [done|]. split; [|done]. rewrite <- Hs. by destruct (s_fread sz n (sabs f)).
  - apply (Hw _ (fwrite fuel l sz n) RInt (s_fwrite l sz n)). destruct Hl as (? & ? & ? & ?). apply fwrite_spec; done || lia.
  - destruct (Hw _ (fgets fuel sz) RLine (s_fgets sz)) as (r & f' & E & Hs & Hr); [apply fgets_spec; done || lia|].
    exists r, f'. split; [done|]. split; [|done]. rewrite <- Hs. by destruct (s_fgets sz (sabs f)).
  - apply (Hw _ (fputs fuel l) RInt (s_fputs l)), fputs_spec; done || lia.
Qed.

Lemma calls_spec fuel cs f :
  open f -> legal_calls cs (sabs f) -> (Z.to_nat (size f) + sum_list_with call_fuel cs < fuel)%nat ->
  exists rs f', do_calls fuel cs f = Some (rs, f') /\ s_calls cs (sabs f) = (rs, sabs f') /\ open f' /\ size f' = size f.
Proof.
  revert f. induction cs as [|c cs IH]; intros f Ho Hl Hf; [by exists [], f|]. simpl in Hl, Hf. destruct Hl as [Hl1 Hl2].
  destruct (call_spec fuel c f Ho Hl1 ltac:(lia)) as (r & f1 & E1 & Hs1 & Ho1 & Hz1). rewrite Hs1 in Hl2. simpl in Hl2.
  destruct (IH f1 Ho1 Hl2 ltac:(lia)) as (rs & f2 & E2 & Hs2 & Ho2 & Hz2). exists (r :: rs), f2.
  cbn [do_calls s_calls]. rewrite (bind_eq _ _ _ _ _ E1), (bind_eq _ _ _ _ _ E2), Hs1, Hs2. split_and!; try done. by rewrite Hz2.
Qed.
End streams.
