(* ===== verification/StdioProps.v ===== *)
(** * Buffered streams: what they guarantee

    The theorems on libc/stdio, and a file in memory on which they are
    evaluated: its reads give at most three bytes and its writes take at most
    two. *)

From stdpp Require Import base list gmap.
From Stdlib Require Import ZArith Lia.
From S2P Require Import Prelude CMem Stdio StdioSpec StdioStream.

Local Open Scope Z_scope.

(** ** A concrete file *)

Definition ram_read (n : Z) (d : list Z * Z) : Z * list Z * (list Z * Z) :=
  let l := take (Z.to_nat (Z.min n 3)) (drop (Z.to_nat d.2) d.1) in
  (Z.of_nat (length l), l, (d.1, d.2 + Z.of_nat (length l))).

Definition ram_write (l : list Z) (d : list Z * Z) : Z * (list Z * Z) :=
  let l := take 2 l in (Z.of_nat (length l), (write_at d.1 d.2 l, d.2 + Z.of_nat (length l))).

Definition ram_lseek (offset whence : Z) (d : list Z * Z) : Z * (list Z * Z) :=
  let target := if whence =? SEEK_SET then offset
                else if whence =? SEEK_CUR then d.2 + offset else Z.of_nat (length d.1) + offset in
  if (target <? 0) || (OFF_MAX <? target) then (-1, d) else (target, (d.1, target)).

#[global] Instance ram : Device (list Z * Z) := {|
  dev_read := ram_read; dev_write := ram_write; dev_lseek := Some ram_lseek;
  dev_stdin := true; dev_fflush_stdout := fun d => d |}.

#[global] Instance ram_ok : DeviceOk (list Z * Z).
Proof.
  refine {| dev_content := fst; dev_pos := snd; dev_good := fun d => Forall is_byte d.1 /\ Z.of_nat (length d.1) <= OFF_MAX /\ 0 <= d.2 <= OFF_MAX |}.
  - tauto.
  - intros [c p] n (Hc & Hlen & Hp) Hn. simpl in *. unfold ram_read. cbn [fst snd].
    set (l := take (Z.to_nat (Z.min n 3)) (drop (Z.to_nat p) c)). exists l, (c, p + Z.of_nat (length l)).
    assert (length l = Nat.min (Z.to_nat (Z.min n 3)) (length c - Z.to_nat p)) as El by (unfold l; rewrite length_take, length_drop; done).
    split_and!; try done; simpl; [lia|lia|lia| |].
    + unfold l at 1. rewrite El.
      destruct (Nat.le_ge_cases (Z.to_nat (Z.min n 3)) (length c - Z.to_nat p)) as [Hle|Hge].
      * by rewrite Nat.min_l.
      * rewrite Nat.min_r by done. rewrite !take_ge by (rewrite length_drop; lia). done.
    + intros E0. rewrite E0 in El. simpl in El. lia.
  - intros [c p] l (Hc & Hlen & Hp) Hl Hby Hroom. simpl in *. unfold ram_write. cbn [fst snd]. exists (length (take 2 l)), (write_at c p (take 2 l), p + Z.of_nat (length (take 2 l))).
    assert (0 < length l)%nat by (destruct l; [done|simpl; lia]).
    split_and!; try done; rewrite ?length_take; cbn [fst snd]; try lia.
    + apply write_at_bytes; [done|by apply Forall_take].
    + rewrite length_write_at by (destruct l; done). rewrite length_take. lia.
    + f_equal. destruct (Nat.le_ge_cases 2 (length l)); [by rewrite Nat.min_l|]. rewrite Nat.min_r by done. by rewrite !take_ge by lia.
  - exists ram_lseek. split; [done|]. intros [c p] offset whence (Hc & Hlen & Hp) Hw. simpl in *. unfold ram_lseek. cbn [fst snd].
    destruct Hw as [->| ->]; cbn [Z.eqb SEEK_SET SEEK_END SEEK_CUR Pos.eqb];
      (match goal with |- context [if ?b then _ else _] => destruct b eqn:Eb end); do 2 eexists; (split; [reflexivity|]); bool_to_prop;
      (split_and!; try done; cbn [fst snd]; try lia; first [left; lia|right; lia]).
  - intros d Hd. done.
Defined.

(** A stream open for update on a file of five bytes, with a buffer of four. *)
Definition stream0 : FILE (list Z * Z) :=
  File 0 (Z.lor (Z.lor __SRD __SWR) (Z.lor (Z.lor __SCLOSE __SEXT) __SBUF)) 0 0 0 (replicate 4 0) 4 0 0 ([72; 101; 108; 108; 111], 0).

Lemma stream0_open : open stream0.
Proof.
  split; [|done..]. split; [|done]. split; simpl; try done.
  - split; [|done]. repeat constructor; done.
  - repeat constructor; done.
  - right. split_and!; try done. by right.
Qed.

(** ** The guarantees *)

Section guarantees.
Context {D : Type} `{Device D} {DOk : DeviceOk D} {HA : Arch}.
Implicit Types f : FILE D.

(** C9: a stream open for reading and writing on a regular file refines the
    abstract stream: for every program of legal calls of getc, ungetc, putc,
    fflush, fseek, ftell, feof, ferror, clearerr, rewind, fread, fwrite, fgets and
    fputs, in any order and with any buffer size, the results of the calls are those
    of a byte string with a position, one pushed-back character, an end-of-file
    indicator and an error indicator.  Legal calls stay within the positions of
    type __off_t, and ftell is called where the position fits in a long; no
    arithmetic on positions overflows then. *)
Theorem stream_refines fuel cs f :
  open f -> legal_calls cs (sabs f) -> (Z.to_nat (size f) + sum_list_with call_fuel cs < fuel)%nat ->
  exists rs f', do_calls fuel cs f = Some (rs, f') /\ s_calls cs (sabs f) = (rs, sabs f') /\ open f'.
Proof.
  intros Ho Hl Hf. destruct (calls_spec fuel cs f Ho Hl Hf) as (rs & f' & E & Hs & Ho' & _). by exists rs, f'.
Qed.

(** After any program of legal calls, [fflush] succeeds and leaves in the
    file the bytes of the abstract stream, whatever the buffer held and however
    short the writes of the device are. *)
Theorem fflush_writes_back fuel cs f :
  open f -> legal_calls cs (sabs f) -> (Z.to_nat (size f) + sum_list_with call_fuel cs < fuel)%nat ->
  exists rs f1 f2, do_calls fuel cs f = Some (rs, f1) /\ fflush fuel f1 = Some (0, f2) /\
    dev_content (dev f2) = a_data (s_file (s_calls cs (sabs f)).2).
Proof.
  intros Ho Hl Hf. destruct (calls_spec fuel cs f Ho Hl Hf) as (rs & f1 & E & Hs & Ho1 & Hz).
  destruct (fflush_spec fuel f1 Ho1 ltac:(lia)) as (r & f2 & E2 & _ & _ & Hr & Hc).
  exists rs, f1, f2. rewrite Hs. split_and!; try done. unfold s_fflush in Hr. by injection Hr as <- _.
Qed.

(** A seek to a position before the start of the file fails with -1 and, when
    the buffer holds bytes that were read ahead, loses them: the position of the
    stream jumps forward over the bytes that the client has not read. *)
Theorem failed_fseek_skips fuel f offset :
  open f -> dir f = __SRD -> - 2 ^ (long_bits - 1) <= offset < 0 ->
  exists f', fseek fuel offset SEEK_SET f = Some (-1, f') /\ a_data (abs f') = a_data (abs f) /\
    a_pos (abs f') = a_pos (abs f) + (len f - off f).
Proof.
  intros Ho Hd Hneg. destruct (o_ready _ Ho) as [Hb _]. destruct (abs_read f Hb Hd) as [Ea Hlp]. pose proof (b_range _ Hb) as Hr.
  destruct (seek_real f offset SEEK_SET Hb Hd (or_introl eq_refl)) as (r & f' & E & _ & _ & Hx).
  cbv zeta in Hx. unfold a_target in Hx. simpl in Hx. destruct Hx as [(? & _)|(_ & Hrn & Ha)]; [lia|].
  assert (0 < 2 ^ (long_bits - 1)) as Hpow by (apply Z.pow_pos_nonneg; pose proof long_bits_pos; lia). pose proof (pos_bounds f Hb) as Hpb.
  unfold fseek. rewrite swrap_small by (apply long_bits_pos || lia). unfold __bufio_seek, bufio_seekable. destruct dev_lseek_ok as (lseek & Els & _). rewrite Els.
  exists f'. split; [|rewrite Ha, Ea; simpl; split; [done|lia]].
  unfold bind at 1. rewrite bind_ret. cbn [negb]. rewrite (bind_eq _ _ _ _ _ (setdir_same fuel f __SRD Hd)). cbn [Z.ltb Z.compare].
  unfold bind at 1, rd at 1. unfold bind at 1, rd at 1. unfold bind at 1, rd at 1.
  rewrite (bind_eq _ _ _ _ _ (off_t_eq (pos f - len f) f ltac:(change (2 ^ 63) with 9223372036854775808; lia))). cbn [Z.eqb SEEK_SET SEEK_CUR Pos.eqb]. rewrite bind_ret.
  rewrite (bind_eq _ _ _ _ _ (off_t_eq (pos f - len f + len f) f ltac:(change (2 ^ 63) with 9223372036854775808; lia))). rewrite Z.eqb_refl, (proj2 (Z.leb_gt (pos f - len f) offset)) by lia. cbn [andb]. rewrite E. by rewrite (proj2 (Z.leb_gt 0 r)).
Qed.
End guarantees.

(** ** The version with __FAST_BUFIO *)

Section fast.
Context {D : Type} `{Device D}.
Implicit Types f : FILE D.

Lemma fwrite_fast_enter fuel bits l f :
  Z.testbit (flags f) 1 = true -> dir f = __SWR -> Z.land (bflags f) __BLBF = 0 ->
  0 < Z.of_nat (length l) < 2 ^ bits ->
  fwrite_fast fuel bits l 1 (Z.of_nat (length l)) f =
  (do rest <- (if Z.of_nat (length l) <? size f then loop (fwrite_small_step fuel) fuel l
     else do r <- __bufio_flush_locked fuel; if 0 <=? r then loop fwrite_large_step fuel l else ret l);
   ret ((Z.of_nat (length l) - Z.of_nat (length rest)) / 1)) f.
Proof.
  intros Hw Hd Hb Hl. unfold fwrite_fast. rewrite (bind_eq _ _ _ _ _ (has_flag_eq f 1 __SWR ltac:(lia) eq_refl)), Hw.
  cbn [negb orb Z.eqb]. cbv zeta. rewrite Z.mul_1_l. unfold bind at 1, rd at 1. rewrite Hb.
  rewrite (proj2 (Z.ltb_lt _ _)), (proj2 (Z.ltb_lt _ _)) by lia. cbn [Z.eqb andb].
  rewrite (bind_eq _ _ _ _ _ (setdir_same fuel f __SWR Hd)). unfold bind at 1, rd at 1. done.
Qed.

(** With __FAST_BUFIO a write of exactly the room that is left, shorter than
    the buffer, leaves the buffer full and not flushed; the next [putc] stores
    outside it. *)
Theorem fast_fwrite_overflow fuel bits l f :
  (2 <= fuel)%nat -> Z.testbit (flags f) 1 = true -> dir f = __SWR -> Z.land (bflags f) __BLBF = 0 ->
  0 < Z.of_nat (length l) < 2 ^ bits -> Z.of_nat (length (buf f)) = size f -> 0 < len f ->
  Z.of_nat (length l) = size f - len f ->
  exists f', fwrite_fast fuel bits l 1 (Z.of_nat (length l)) f = Some (Z.of_nat (length l), f') /\
    forall n c, putc n c f' = None.
Proof.
  intros Hf Hw Hd Hb Hl Hs Hlen Hroom. rewrite (fwrite_fast_enter fuel bits l f Hw Hd Hb Hl). rewrite (proj2 (Z.ltb_lt _ _)) by lia.
  set (bs := take (Z.to_nat (len f)) (buf f) ++ l ++ drop (Z.to_nat (len f) + length l) (buf f)).
  set (f1 := set_len (len f + Z.of_nat (length l)) (set_buf bs f)).
  assert (fwrite_small_step fuel l f = Some (inl [], f1)) as E1.
  { unfold fwrite_small_step. rewrite (proj2 (Z.eqb_neq _ _)) by lia. unfold bind at 1, rd at 1. unfold bind at 1, rd at 1. cbv zeta.
    rewrite (proj2 (Z.eqb_neq (size f - len f) 0)) by lia. rewrite bind_ret. cbn [Z.eqb negb].
    rewrite Z.min_l by lia. replace (Z.to_nat (size f - len f)) with (length l) by lia. rewrite take_ge, drop_ge by lia.
    unfold bind at 1, rd at 1. rewrite (bind_eq _ _ _ _ _ (store_buf_eq f (len f) l ltac:(lia) ltac:(lia))). fold bs.
    unfold bind at 1, upd at 1. unfold f1. by rewrite Hroom. }
  assert (fwrite_small_step fuel [] f1 = Some (inr [], f1)) as E2 by done.
  destruct fuel as [|[|n]]; [lia..|].
  exists f1. split.
  - unfold bind at 1. rewrite (loop_go _ _ _ _ _ _ E1), (loop_stop _ _ _ _ _ _ E2). unfold ret. do 2 f_equal.
    simpl length. rewrite Z.div_1_r. lia.
  - intros k c. unfold putc. rewrite (bind_eq _ _ _ _ _ (has_flag_eq f1 1 __SWR ltac:(lia) eq_refl)).
    unfold f1 at 1. cbn [flags set_len set_buf]. rewrite Hw. cbn [negb]. unfold bind at 1. unfold __bufio_put.
    rewrite (bind_eq _ _ _ _ _ (setdir_same k f1 __SWR Hd)). cbn [Z.ltb Z.compare]. unfold bind at 1, rd at 1.
    unfold bind at 1. unfold store_buf. unfold bind at 1, rd at 1.
    assert (Z.of_nat (length (buf f1)) = size f) as Hb1.
    { unfold f1, bs. simpl. rewrite !length_app, length_take, length_drop. lia. }
    rewrite Hb1. rewrite (proj2 (Z.leb_gt (len f1 + _) (size f))) by (unfold f1; simpl; lia). by rewrite andb_false_r.
Qed.

(** With __FAST_BUFIO a large write that fails sets every bit of the flags of
    the stream and not only the error indicator: the stream is then marked as
    readable, as at its end and as wide. *)
Theorem fast_fwrite_error_flags fuel bits l f :
  (1 <= fuel)%nat -> Z.testbit (flags f) 1 = true -> dir f = __SWR -> Z.land (bflags f) __BLBF = 0 ->
  0 < Z.of_nat (length l) < 2 ^ bits -> len f = 0 -> size f <= Z.of_nat (length l) ->
  (dev_write l (dev f)).1 <= 0 ->
  exists f', fwrite_fast fuel bits l 1 (Z.of_nat (length l)) f = Some (0, f') /\ flags f' = 0xff.
Proof.
  intros Hf Hw Hd Hb Hl Hlen Hs Hfail. rewrite (fwrite_fast_enter fuel bits l f Hw Hd Hb Hl). rewrite (proj2 (Z.ltb_ge _ _)) by lia.
  destruct fuel as [|n]; [lia|].
  assert (__bufio_flush_locked (Datatypes.S n) f = Some (0, f)) as Ef.
  { unfold __bufio_flush_locked. unfold bind at 1, rd at 1. rewrite Hd. cbn [Z.eqb __SWR Pos.eqb].
    apply loop_stop. unfold flush_step. unfold bind at 1, rd at 1. by rewrite Hlen. }
  destruct (dev_write l (dev f)) as [r d] eqn:Ew. simpl in Hfail.
  set (f' := set_flags (uwrap 8 (Z.lor (flags f) _FDEV_ERR)) (set_dev d f)).
  assert (fwrite_large_step l f = Some (inr l, f')) as E1.
  { unfold fwrite_large_step. rewrite (proj2 (Z.eqb_neq _ _)) by lia. unfold bind at 1, bufio_write at 1. rewrite Ew.
    by rewrite (proj2 (Z.leb_le _ _) Hfail). }
  exists f'. split.
  - unfold bind at 1. rewrite (bind_eq _ _ _ _ _ Ef). cbn [Z.leb Z.compare]. rewrite (loop_stop _ _ _ _ _ _ E1).
    unfold ret. do 2 f_equal. by rewrite Z.sub_diag.
  - unfold f', _FDEV_ERR. cbn [flags set_flags]. by rewrite Z.lor_m1_r.
Qed.
End fast.

(** ** Witnesses *)

#[local] Existing Instance ILP32.

Abbreviation prog :=
  [Getc; Ungetc 74; Getc; Putc 33; Putc 10; Fseek 0 SEEK_SET; Fgets 4; Ftell; Fwrite [1; 2; 3; 4; 5; 6] 2 3; Fseek (-3) SEEK_END; Fread 2 2; Feof; Ferror; Clearerr; Feof; Rewind; Ftell].

Lemma stream_refines_witness :
  exists rs f', do_calls 40 prog stream0 = Some (rs, f') /\ s_calls prog (sabs stream0) = (rs, sabs f') /\ open f'.
Proof.
  apply (stream_refines 40 prog stream0); [apply stream0_open| |vm_compute; lia].
  vm_compute. intuition congruence.
Defined.

Lemma fflush_writes_back_witness :
  exists rs f1 f2, do_calls 40 prog stream0 = Some (rs, f1) /\ fflush 40 f1 = Some (0, f2) /\
    dev_content (dev f2) = a_data (s_file (s_calls prog (sabs stream0)).2).
Proof.
  apply (fflush_writes_back 40 prog stream0); [apply stream0_open| |vm_compute; lia].
  vm_compute. intuition congruence.
Defined.

(** The stream after its first byte was read. *)
Definition stream1 : FILE (list Z * Z) := match getc 9 stream0 with Some (_, f) => f | None => stream0 end.

Lemma stream1_open : open stream1.
Proof.
  destruct (getc_spec 9 stream0 stream0_open) as (r & f' & E & Ho & _); [vm_compute; lia|].
  unfold stream1. by rewrite E.
Qed.

Lemma failed_fseek_witness :
  exists f', fseek 9 (-1) SEEK_SET stream1 = Some (-1, f') /\ a_data (abs f') = a_data (abs stream1) /\
    a_pos (abs f') = a_pos (abs stream1) + (len stream1 - off stream1).
Proof. apply (failed_fseek_skips 9 stream1 (-1)); [apply stream1_open|reflexivity|vm_compute; split; congruence]. Defined.

(** With a long of 32 bits ftell does not report a position that does not fit: the
    value is converted. *)
Example ftell_converts :
  option_map fst (ftell 9 (File 0 (flags stream0) __SRD 0 (2 ^ 31) (replicate 4 0) 4 0 0 ([], 2 ^ 31))) = Some (- 2 ^ 31).
Proof. vm_compute. reflexivity. Qed.

(** The stream after one byte was written. *)
Definition stream2 : FILE (list Z * Z) := match putc 9 65 stream0 with Some (_, f) => f | None => stream0 end.

Lemma fast_fwrite_overflow_witness :
  exists f', fwrite_fast 9 64 [66; 67; 68] 1 3 stream2 = Some (3, f') /\ forall n c, putc n c f' = None.
Proof.
  apply (fast_fwrite_overflow 9 64 [66; 67; 68] stream2); [lia|reflexivity|reflexivity|reflexivity|vm_compute; split; reflexivity
    |reflexivity|reflexivity|reflexivity].
Defined.

(** A device whose writes fail. *)
Definition full_device : Device unit := {|
  dev_read := fun _ d => (0, [], d); dev_write := fun _ d => (-1, d); dev_lseek := None;
  dev_stdin := false; dev_fflush_stdout := fun d => d |}.

Lemma fast_fwrite_error_flags_witness :
  exists f', fwrite_fast (H := full_device) 9 64 [1; 2; 3; 4] 1 4 (File 0 0x72 __SWR 0 0 (replicate 4 0) 4 0 0 tt) = Some (0, f') /\ flags f' = 0xff.
Proof.
  apply (fast_fwrite_error_flags (H := full_device) 9 64 [1; 2; 3; 4] (File 0 0x72 __SWR 0 0 (replicate 4 0) 4 0 0 tt));
    [lia|reflexivity|reflexivity|reflexivity|vm_compute; split; reflexivity|reflexivity|vm_compute; congruence|vm_compute; congruence].
Defined.
