(* ===== verification/Sprintf.v ===== *)
(** * printf to memory and to a buffered file (libc/stdio/filestrput.c, vsnprintf.c, vsprintf.c, snprintf.c, sprintf.c, fprintf.c)

    Two streams for [vfprintf]: one that writes into a buffer in memory, with the
    calls built on it, and the buffered file of [Stdio]. *)

From stdpp Require Import base list gmap.
From Stdlib Require Import ZArith Lia.
From S2P Require Import Prelude CMem Convert Strto Stdio StdioSpec StdioStream Printf PrintfSpec PrintfConv PrintfRun.

Local Open Scope Z_scope.

(** ** struct __file_str *)

(** The pushed-back character, the flags, [pos], [end] and the memory. *)
Record file_str := FileStr { fs_unget : Z; fs_flags : Z; fs_pos : Z; fs_end : Z; fs_mem : mem }.

(** Past the end of the buffer nothing is stored. *)
Definition __file_str_put (c : Z) : C file_str Z :=
  fun f =>
    if negb (fs_pos f =? fs_end f) then
      match store8 (fs_pos f) c (fs_mem f) with
      | Some (_, m) => Some (uwrap 8 c, FileStr (fs_unget f) (fs_flags f) (fs_pos f + 1) (fs_end f) m)
      | None => None
      end
    else Some (uwrap 8 c, f).

#[global] Instance file_str_stream : PutStream file_str := {|
  str_flags := fs_flags;
  str_set_flags := fun fl f => FileStr (fs_unget f) fl (fs_pos f) (fs_end f) (fs_mem f);
  str_put := __file_str_put |}.

(** A size that is negative as an [int] means that there is no limit. *)
Definition FDEV_STRING_WRITE_END (s n : Z) : Z :=
  if swrap 32 n <? 0 then NULL else if negb (n =? 0) then s + n - 1 else s.

Definition FDEV_SETUP_STRING_WRITE (s e : Z) (m : mem) : file_str := FileStr 0 __SWR s e m.

Section sprintf.
Context `{Arch}.
Variables (need_long_long need_c99 need_percent_b fancy_divmod : bool).
Variable fuel : nat.

Abbreviation vfprintf := (vfprintf need_long_long need_c99 need_percent_b fancy_divmod).

(** [snprintf] is the same with the arguments given one by one. *)
Definition vsnprintf (s n : Z) (fmt : list Z) (args : list arg) : C mem Z :=
  fun m =>
    match vfprintf fuel fmt args (FDEV_SETUP_STRING_WRITE s (FDEV_STRING_WRITE_END s n) m) with
    | Some (i, f) => (if negb (n =? 0) then run store8 (fs_pos f) 0; ret i else ret i) (fs_mem f)
    | None => None
    end.

Definition vsprintf (s : Z) (fmt : list Z) (args : list arg) : C mem Z :=
  fun m =>
    match vfprintf fuel fmt args (FDEV_SETUP_STRING_WRITE s NULL m) with
    | Some (i, f) => (if 0 <=? i then run store8 (s + i) 0; ret i else ret i) (fs_mem f)
    | None => None
    end.
End sprintf.

(** ** The buffered file *)

Section bufio_stream.
Context {D : Type} `{Device D}.
Variable fuel : nat.

(** [put] of a [struct __file_bufio] is [__bufio_put]. *)
Definition bufio_put_stream : PutStream (FILE D) := {|
  str_flags := flags;
  str_set_flags := set_flags;
  str_put := __bufio_put fuel |}.

Definition fprintf `{Arch} (need_long_long need_c99 need_percent_b fancy_divmod : bool) (fmt : list Z) (args : list arg) :
    C (FILE D) Z :=
  vfprintf (H0 := bufio_put_stream) need_long_long need_c99 need_percent_b fancy_divmod fuel fmt args.
End bufio_stream.

(** ** What is written to the buffer *)

Section sprintf_proof.
Context `{Arch}.

(** With [room] bytes left before the end. *)
Lemma str_outs l : forall u fl pos e m (room : nat),
  e = pos + Z.of_nat room \/ (e = NULL /\ 0 < pos /\ (length l <= room)%nat) -> mapped m pos (Z.of_nat room) ->
  let k := Nat.min (length l) room in
  outs l (FileStr u fl pos e m) =
    Some (true, FileStr u fl (pos + Z.of_nat k) e (put_bytes m pos (take k (map (uwrap 8) l)))).
Proof.
  induction l as [|c l IH]; intros u fl pos e m room He Hm k.
  - subst k. simpl. by rewrite Z.add_0_r.
  - cbn [outs]. unfold bind. cbn [str_put file_str_stream]. unfold __file_str_put. cbn [fs_pos fs_end fs_mem fs_flags].
    rewrite (uwrap_byte_id (uwrap 8 c)) by apply uwrap_byte. destruct room as [|r].
    + destruct He as [-> |(_ & _ & Hle)]; [|simpl in Hle; lia]. rewrite Z.add_0_r, Z.eqb_refl. cbn [negb].
      rewrite (proj2 (Z.ltb_ge _ 0)) by apply uwrap_byte. rewrite (IH u fl pos pos m 0%nat) by (done || left; lia).
      subst k. by rewrite !Nat.min_0_r.
    + rewrite (proj2 (Z.eqb_neq pos e)) by (destruct He as [-> |(-> & ? & _)]; unfold NULL; lia). cbn [negb].
      rewrite store8_at by (apply Hm; lia). rewrite (uwrap_byte_id (uwrap 8 c)) by apply uwrap_byte.
      rewrite (proj2 (Z.ltb_ge _ 0)) by apply uwrap_byte. rewrite (IH u fl (pos + 1) e _ r).
      * subst k. cbn [length Nat.min map take put_bytes]. do 3 f_equal. lia.
      * destruct He as [-> |(-> & ? & Hle)]; [left; lia|right; split_and!; [done|lia|simpl in Hle; lia]].
      * intros a Ha. rewrite lookup_insert_is_Some'. right. apply Hm. lia.
Qed.

Variables (need_long_long need_c99 need_percent_b fancy_divmod : bool).
Variable fuel : nat.

Section one_call.
Variables (ps : list piece) (args rest : list arg) (out : list Z).
Hypothesis fuel_64 : (64 < fuel)%nat.
Hypothesis format_ok : forallb (piece_ok need_c99 need_percent_b) ps = true.
Hypothesis rendered : render_format need_long_long ps args = Some (out, rest).
Hypothesis out_max : Z.of_nat (length out) <= INT_MAX.
Hypothesis fuel_fmt : (length (format_text ps) < fuel)%nat.
Hypothesis fuel_out : (length out < fuel)%nat.

(** At most [n - 1] characters and the terminator are stored; the result is the
    length of the whole output. *)
Lemma vsnprintf_spec s n m :
  0 < s -> 0 <= n < 2 ^ long_bits -> mapped m s n ->
  vsnprintf need_long_long need_c99 need_percent_b fancy_divmod fuel s n (format_text ps ++ [0]) args m =
    Some (Z.of_nat (length out),
          if n =? 0 then m else put_bytes m s (take (Z.to_nat (n - 1)) (map (uwrap 8) out) ++ [0])).
Proof.
  intros Hs Hn Hm. unfold vsnprintf, FDEV_SETUP_STRING_WRITE.
  rewrite (vfprintf_spec need_long_long need_c99 need_percent_b fancy_divmod fuel fuel_64 ps args out rest) by done.
  set (room := Z.to_nat (n - 1)). set (e := FDEV_STRING_WRITE_END s n).
  assert (e = s + Z.of_nat room \/ (e = NULL /\ 0 < s /\ (length out <= room)%nat)) as He.
  { subst e room. unfold FDEV_STRING_WRITE_END. destruct (Z.ltb_spec (swrap 32 n) 0) as [Hneg|_].
    - right. split_and!; [done|done|]. assert (2 ^ 31 <= n).
      { destruct (Z.le_gt_cases (2 ^ 31) n); [done|]. rewrite swrap_small in Hneg; [lia|lia|change (32 - 1) with 31; lia]. }
      unfold INT_MAX in out_max. lia.
    - left. destruct (Z.eqb_spec n 0) as [->|]; simpl; lia. }
  rewrite (str_outs out 0 __SWR s e m room He) by (eapply mapped_weaken; [exact Hm|lia|subst room; lia]).
  cbn [fs_pos fs_mem]. set (k := Nat.min (length out) room).
  assert (take room (map (uwrap 8) out) = take k (map (uwrap 8) out)) as Et.
  { subst k. destruct (Nat.le_ge_cases (length out) room); [|by rewrite Nat.min_r].
    rewrite Nat.min_l, !firstn_all2 by (rewrite ?length_map; lia). done. }
  destruct (Z.eqb_spec n 0) as [->|Hn0]; cbn [negb].
  - subst k room. rewrite Nat.min_0_r. done.
  - unfold bind. rewrite Et, put_bytes_app. assert (length (take k (map (uwrap 8) out)) = k) as Hk
      by (rewrite length_take, length_map; subst k; lia).
    rewrite store8_at; [by rewrite Hk|]. apply put_bytes_is_Some, Hm. subst k room. lia.
Qed.

Lemma vsprintf_spec s m :
  0 < s -> mapped m s (Z.of_nat (length out) + 1) ->
  vsprintf need_long_long need_c99 need_percent_b fancy_divmod fuel s (format_text ps ++ [0]) args m =
    Some (Z.of_nat (length out), put_bytes m s (map (uwrap 8) out ++ [0])).
Proof.
  intros Hs Hm. unfold vsprintf, FDEV_SETUP_STRING_WRITE.
  rewrite (vfprintf_spec need_long_long need_c99 need_percent_b fancy_divmod fuel fuel_64 ps args out rest) by done.
  rewrite (str_outs out 0 __SWR s NULL m (length out)) by first [right; done | eapply mapped_weaken; [exact Hm|lia|lia]].
  cbn [fs_pos fs_mem]. rewrite Nat.min_id, firstn_all2 by (rewrite length_map; lia).
  rewrite (proj2 (Z.leb_le 0 _)) by lia. unfold bind. rewrite put_bytes_app, length_map.
  rewrite store8_at; [done|]. apply put_bytes_is_Some, Hm. lia.
Qed.
End one_call.
End sprintf_proof.

(** ** What is written to a buffered file *)

Section fprintf_proof.
Context {D : Type} `{Device D} {DOk : DeviceOk D} `{Arch}.
Variable fuel : nat.

Lemma bufio_outs l : forall f,
  open f -> (Z.to_nat (size f) < fuel)%nat -> a_pos (abs f) + Z.of_nat (length l) <= OFF_MAX ->
  exists f', outs (H := bufio_put_stream fuel) l f = Some (true, f') /\ open f' /\ size f' = size f /\ sabs f' = s_write l (sabs f).
Proof.
  induction l as [|c l IH]; intros f Ho Hf Hmax; [by exists f|]. cbn [length] in Hmax.
  destruct (bufio_put_open fuel f (uwrap 8 c) Ho Hf ltac:(lia)) as (f1 & E1 & Ho1 & Hs1 & Ha1). pose proof (sabs_pos _ _ Ha1) as Hp1. cbn in Hp1.
  destruct (IH f1 Ho1 ltac:(lia) ltac:(lia)) as (f2 & E2 & Ho2 & Hs2 & Ha2). exists f2. cbn [outs s_write]. unfold bind.
  cbn [str_put bufio_put_stream]. rewrite E1. rewrite (proj2 (Z.ltb_ge _ 0)) by apply uwrap_byte. split_and!; [done|done|lia|].
  rewrite Ha2, Ha1. unfold s_putc. by rewrite (uwrap_byte_id (uwrap 8 c)) by apply uwrap_byte.
Qed.

Lemma fprintf_spec need_long_long need_c99 need_percent_b fancy_divmod ps args out rest f :
  (64 < fuel)%nat -> forallb (piece_ok need_c99 need_percent_b) ps = true ->
  render_format need_long_long ps args = Some (out, rest) -> Z.of_nat (length out) <= INT_MAX ->
  (length (format_text ps) < fuel)%nat -> (length out < fuel)%nat ->
  open f -> (Z.to_nat (size f) < fuel)%nat -> a_pos (abs f) + Z.of_nat (length out) <= OFF_MAX ->
  exists f', fprintf fuel need_long_long need_c99 need_percent_b fancy_divmod (format_text ps ++ [0]) args f =
      Some (Z.of_nat (length out), f') /\ open f' /\ size f' = size f /\ sabs f' = s_write out (sabs f).
Proof.
  intros H64 Hok Hr Hmax Hf1 Hf2 Ho Hsz Hoff. destruct (bufio_outs out f Ho Hsz Hoff) as (f' & E & Ho' & Hs' & Ha').
  exists f'. split; [|done]. unfold fprintf.
  rewrite (vfprintf_spec (H0 := bufio_put_stream fuel) need_long_long need_c99 need_percent_b fancy_divmod fuel H64 ps args out rest); try done.
  - by rewrite E.
  - cbn [str_flags bufio_put_stream]. pose proof (o_write _ Ho) as Hw. intros E0.
    assert (Z.testbit (Z.land (flags f) 2) 1 = false) as Hb by (by rewrite E0).
    rewrite Z.land_spec in Hb. change (Z.testbit 2 1) with true in Hb. by rewrite andb_true_r, Hw in Hb.
Qed.
End fprintf_proof.
