(* ===== verification/Scanf.v ===== *)
(** * Formatted input (libc/stdio/vfscanf.c, scanf_private.h, filestrget.c, vsscanf.c, fscanf.c)

    [vfscanf] of the integer variants: narrow characters, without positional
    arguments and floating point.  The format is the bytes of its array, the
    terminator included; the arguments are the addresses passed by the caller.
    The stream is any state with [getc] and [ungetc], and it holds the memory the
    results are stored in, so that the text of [vsscanf] and the results may share
    it. *)

From stdpp Require Import base list gmap.
From Stdlib Require Import ZArith Lia.
From S2P Require Import Prelude CMem CInt Convert Strto Stdio.

Local Open Scope Z_scope.

(** ** The stream *)

Class GetStream (S : Type) := {
  g_flags : S -> Z;
  g_getc : C S Z;
  g_ungetc : Z -> C S Z;
  g_mem : S -> mem;
  g_set_mem : mem -> S -> S }.

(** The stream, the number of characters read (the context of the conversions)
    and the arguments that are left. *)
Record sst {S : Type} := Sst { s_stream : S; scanf_len : Z; s_ap : list Z }.
Arguments sst : clear implicits.
Arguments Sst {_}.

Definition FL_STAR : Z := 0x01.
Definition FL_WIDTH : Z := 0x02.
Definition FL_LONG : Z := 0x04.
Definition FL_CHAR : Z := 0x10.
Definition FL_SHORT : Z := 0x20.
Definition FL_MINUS : Z := 0x40.
Definition FL_ANY : Z := 0x80.

Section scanf.
Context `{Arch}.

(** _NEED_IO_LONG_LONG, _NEED_IO_C99_FORMATS, _NEED_IO_PERCENT_B, _NEED_IO_BRACKET *)
Variables (need_long_long need_c99 need_percent_b need_bracket : bool).
Context {S : Type} `{GetStream S}.
Variable fuel : nat.

Abbreviation M A := (C (sst S) A).

Definition FL_LONGLONG : Z := if need_long_long then 0x08 else 0x00.

(** The width of [uint_scanf_t]. *)
Definition scanf_bits : Z := if need_long_long then 64 else long_bits.

Definition in_stream {A} (c : C S A) : M A :=
  fun st => match c (s_stream st) with
            | Some (a, s) => Some (a, Sst s (scanf_len st) (s_ap st))
            | None => None
            end.

Definition add_len (d : Z) : M unit :=
  fun st => if fits_int (scanf_len st + d) then Some (tt, Sst (s_stream st) (scanf_len st + d) (s_ap st)) else None.

Definition scanf_getc : M Z :=
  do c <- in_stream g_getc;
  run (if negb (c <? 0) then add_len 1 else ret tt);
  ret c.

Definition scanf_ungetc (c : Z) : M unit :=
  run (if negb (c <? 0) then add_len (-1) else ret tt);
  run in_stream (g_ungetc c);
  ret tt.

(** The bytes [l] at [addr], which is aligned to [align]. *)
Definition put_at (align addr : Z) (l : list Z) : M unit :=
  if addr mod align =? 0 then
    in_stream (fun s =>
      match store_bytes addr l (g_mem s) with
      | Some (_, m) => Some (tt, g_set_mem m s)
      | None => None
      end)
  else fault.

Definition putmb (addr wi : Z) : M Z :=
  if negb (addr =? 0) then
    run put_at 1 addr [uwrap 8 wi];
    ret (addr + 1)
  else ret addr.

Definition putval (addr val flags : Z) : M unit :=
  if negb (addr =? 0) then
    if has flags FL_CHAR then put_at 1 addr (bytes_of_int 1 val)
    else if need_long_long && has flags FL_LONGLONG then put_at 8 addr (bytes_of_int 8 val)
    else if has flags FL_LONG then put_at (Z.of_nat long_size) addr (bytes_of_int long_size val)
    else if has flags FL_SHORT then put_at 2 addr (bytes_of_int 2 val)
    else put_at 4 addr (bytes_of_int 4 val)
  else ret tt.

(** ** conv_int *)

(** [!--width || IS_EOF(i = scanf_getc(stream, context))]: the next character and
    the width that is left, or [None] when the test is true. *)
Definition next_char (width : Z) : M (option (Z * Z)) :=
  let width := uwrap 32 (width - 1) in
  if width =? 0 then ret None
  else
    do i <- scanf_getc;
    if i <? 0 then ret None else ret (Some (i, width)).

(** The sign; [None] is the jump to [err]. *)
Definition int_sign (i width flags : Z) : M (option (Z * Z * Z)) :=
  if (i =? 45) || (i =? 43) then
    let flags := if i =? 45 then Z.lor flags FL_MINUS else flags in
    do x <- next_char width;
    match x with
    | None => ret None
    | Some (i, width) => ret (Some (i, width, flags))
    end
  else ret (Some (i, width, flags)).

(** The prefix of the base: the flags and, unless it jumps to [putval], the next
    character, the width and the base. *)
Definition int_prefix (i width flags base : Z) : M (Z * option (Z * Z * Z)) :=
  if i =? 48 then
    do x <- next_char width;
    match x with
    | None => ret (flags, None)
    | Some (i, width) =>
        let flags := Z.lor flags FL_ANY in
        if (TOLOWER i =? 120) && ((base =? 0) || (base =? 16)) then
          do y <- next_char width;
          match y with
          | None => ret (flags, None)
          | Some (i, width) => ret (flags, Some (i, width, 16))
          end
        else if need_percent_b && ((i =? 98) && (base <=? 2)) then
          do y <- next_char width;
          match y with
          | None => ret (flags, None)
          | Some (i, width) => ret (flags, Some (i, width, 2))
          end
        else if (base =? 0) || (base =? 8) then ret (flags, Some (i, width, 8))
        else ret (flags, Some (i, width, base))
    end
  else ret (flags, Some (i, width, if base =? 0 then 10 else base)).

(** The digits: the flags and the value, and whether the field ended first. *)
Definition digit_step (base : Z) (x : Z * Z * Z * Z) : M ((Z * Z * Z * Z) + (bool * Z * Z)) :=
  let '(i, width, flags, val) := x in
  let c := digit_to_val (uwrap 32 i) in
  if base <=? c then
    run scanf_ungetc i;
    ret (inr (false, flags, val))
  else
    let flags := Z.lor flags FL_ANY in
    let val := uwrap scanf_bits (uwrap scanf_bits (val * base) + c) in
    let width := uwrap 32 (width - 1) in
    if width =? 0 then ret (inr (true, flags, val))
    else
      do i <- scanf_getc;
      if negb (i <? 0) then ret (inl (i, width, flags, val)) else ret (inr (false, flags, val)).

Definition int_put (addr val flags : Z) : M Z :=
  let val := if has flags FL_MINUS then uwrap scanf_bits (- val) else val in
  run putval addr val flags;
  ret 1.

Definition conv_int (width addr flags base : Z) : M Z :=
  do i <- scanf_getc;
  do x <- int_sign i width flags;
  match x with
  | None => ret 0
  | Some (i, width, flags) =>
      do y <- int_prefix i width flags base;
      match y with
      | (flags, None) => int_put addr 0 flags
      | (flags, Some (i, width, base)) =>
          do '(full, flags, val) <- loop (digit_step base) fuel (i, width, flags, 0);
          if full then int_put addr val flags
          else if negb (has flags FL_ANY) then ret 0
          else int_put addr val flags
      end
  end.

(** ** conv_brk *)

(** The inner loop: whether [wi] is in the set, and the format behind it; [None]
    at the end of the format. *)
Fixpoint scanset (wi : Z) (first frange : bool) (cabove : Z) (fmatch : bool) (fmt : list Z) : M (option (list Z * bool)) :=
  match fmt with
  | [] => fault
  | f :: fmt =>
      if f =? 0 then ret None
      else if negb first && (f =? 93) then ret (Some (fmt, fmatch))
      else
        match fmt with
        | [] => fault
        | f' :: _ =>
            if negb first && ((f =? 45) && negb frange && negb (f' =? 93)) then scanset wi false true cabove fmatch fmt
            else
              let cbelow := if frange then cabove else f in
              scanset wi false false f (if (cbelow <=? wi) && (wi <=? f) then true else fmatch) fmt
        end
  end.

Definition brk_step (fnegate : bool) (_fmt : list Z) (x : Z * Z * bool) : M ((Z * Z * bool) + option (list Z * Z * bool)) :=
  let '(width, addr, fany) := x in
  do wi <- scanf_getc;
  do r <- scanset wi true false 0 false _fmt;
  match r with
  | None => ret (inr None)
  | Some (fmt, fmatch) =>
      if wi <? 0 then ret (inr (Some (fmt, addr, fany)))
      else if Bool.eqb fmatch fnegate then
        run scanf_ungetc wi;
        ret (inr (Some (fmt, addr, fany)))
      else
        do addr <- putmb addr wi;
        let width := uwrap 32 (width - 1) in
        if negb (width =? 0) then ret (inl (width, addr, true)) else ret (inr (Some (fmt, addr, true)))
  end.

Definition conv_brk (width addr : Z) (_fmt : list Z) : M (option (list Z)) :=
  match _fmt with
  | [] => fault
  | c :: r =>
      let '(fnegate, _fmt) := if c =? 94 then (true, r) else (false, _fmt) in
      do x <- loop (brk_step fnegate _fmt) fuel (width, addr, false);
      match x with
      | None => ret None
      | Some (fmt, addr, fany) =>
          if negb fany then ret None
          else
            run putmb addr 0;
            ret (Some fmt)
      end
  end.

Definition skip_spaces : M Z :=
  loop (fun _ : unit =>
    do i <- scanf_getc;
    if i <? 0 then ret (inr i)
    else if isspace i then ret (inl tt)
    else
      run scanf_ungetc i;
      ret (inr i)) fuel tt.

(** ** vfscanf *)

Definition fetch (fmt : list Z) : M (Z * list Z) :=
  match fmt with c :: fmt => ret (c, fmt) | [] => fault end.

(** [while ((c -= '0') < 10)]: the character behind the number, the flags, the
    width and the format. *)
Definition scan_width (c flags : Z) (fmt : list Z) : M (Z * Z * Z * list Z) :=
  do '(c, flags, width, fmt) <-
    loop (fun '(c, flags, width, fmt) =>
      let c := uwrap 8 (c - 48) in
      if c <? 10 then
        do '(c', fmt) <- fetch fmt;
        ret (inl (c', Z.lor flags FL_WIDTH, uwrap 32 (width * 10 + c), fmt))
      else ret (inr (uwrap 8 (c + 48), flags, width, fmt))) fuel (c, flags, 0, fmt);
  ret (c, flags, if has flags FL_WIDTH then width else 2 ^ 32 - 1, fmt).

(** CHECK_INT_SIZE for a type of 4 or 8 bytes *)
Definition int_size_flags (flags bytes : Z) : Z :=
  if negb (bytes =? 4) then
    if bytes =? Z.of_nat long_size then Z.lor flags FL_LONG
    else if need_long_long && (bytes =? 8) then Z.lor flags FL_LONGLONG
    else flags
  else flags.

(** The size of the target: the flags, the conversion and the format. *)
Definition scan_size (c flags : Z) (fmt : list Z) : M (Z * Z * list Z) :=
  if c =? 104 then
    do '(c, fmt) <- fetch fmt;
    if c =? 104 then
      do '(c, fmt) <- fetch fmt;
      ret (c, Z.lor (Z.lor flags FL_SHORT) FL_CHAR, fmt)
    else ret (c, Z.lor flags FL_SHORT, fmt)
  else if c =? 108 then
    do '(c, fmt) <- fetch fmt;
    if c =? 108 then
      do '(c, fmt) <- fetch fmt;
      ret (c, Z.lor (Z.lor flags FL_LONG) FL_LONGLONG, fmt)
    else ret (c, Z.lor flags FL_LONG, fmt)
  else if c =? 76 then
    do '(c, fmt) <- fetch fmt;
    ret (c, Z.lor flags (Z.lor FL_LONG FL_LONGLONG), fmt)
  else if need_c99 && ((c =? 106) || (c =? 122) || (c =? 116)) then
    let flags := int_size_flags flags (if c =? 106 then 8 else Z.of_nat long_size) in
    do '(c, fmt) <- fetch fmt;
    ret (c, flags, fmt)
  else ret (c, flags, fmt).

(** "cdinopsuxX", "b" and "[" *)
Definition CNV_LIST : list Z :=
  [99; 100; 105; 110; 111; 112; 115; 117; 120; 88] ++ (if need_percent_b then [98] else []) ++ (if need_bracket then [91] else []).

Definition va_pointer : M Z :=
  fun st => match s_ap st with
            | a :: r => Some (a, Sst (s_stream st) (scanf_len st) r)
            | [] => None
            end.

(** What a conversion does: [c] is 0 or 1, with the format; or the jump to
    [eof]. *)
Inductive conv_result := Converted (c : Z) (fmt : list Z) | ConvEof.

(** [%c] *)
Definition scan_chars (width addr : Z) (fmt : list Z) : M conv_result :=
  loop (fun '(width, addr, have_put) =>
    do wi <- scanf_getc;
    if wi <? 0 then ret (inr (if have_put : bool then Converted 1 fmt else ConvEof))
    else
      do addr <- putmb addr wi;
      let width := uwrap 32 (width - 1) in
      if negb (width =? 0) then ret (inl (width, addr, true)) else ret (inr (Converted 1 fmt))) fuel (width, addr, false).

(** [%s] *)
Definition scan_string (width addr : Z) (fmt : list Z) : M conv_result :=
  do addr <-
    loop (fun '(width, addr) =>
      do wi <- scanf_getc;
      if wi <? 0 then ret (inr addr)
      else if isspace wi then
        run scanf_ungetc wi;
        ret (inr addr)
      else
        do addr <- putmb addr wi;
        let width := uwrap 32 (width - 1) in
        if negb (width =? 0) then ret (inl (width, addr)) else ret (inr addr)) fuel (width, addr);
  run putmb addr 0;
  ret (Converted 1 fmt).

Definition convert (c flags width addr : Z) (fmt : list Z) : M conv_result :=
  if c =? 99 then scan_chars (if has flags FL_WIDTH then width else 1) addr fmt
  else if need_bracket && (c =? 91) then
    do r <- conv_brk width addr fmt;
    ret (match r with Some fmt => Converted 1 fmt | None => Converted 0 [] end)
  else
    do i <- skip_spaces;
    if i <? 0 then ret ConvEof
    else if c =? 115 then scan_string width addr fmt
    else
      let '(flags, base) :=
        if (c =? 100) || (c =? 117) then (flags, 10)
        else if need_percent_b && (c =? 98) then (flags, 2)
        else if c =? 111 then (flags, 8)
        else if c =? 105 then (flags, 0)
        else if c =? 112 then (if long64 then Z.lor flags FL_LONG else flags, 16)
        else (flags, 16) in
      do c <- conv_int width addr flags base;
      ret (Converted c fmt).

(** How a piece of the format ends: the loop goes on with the format and the
    number of conversions, it is left, or it jumps to [eof]. *)
Inductive piece_result := Go (fmt : list Z) (nconvs : Z) | Stop (nconvs : Z) | AtEof (nconvs : Z).

(** A conversion specification, from the character behind '%'. *)
Definition specification (c : Z) (fmt : list Z) (nconvs : Z) : M piece_result :=
  do '(c, flags, fmt) <-
    (if c =? 42 then
       do '(c, fmt) <- fetch fmt;
       ret (c, FL_STAR, fmt)
     else ret (c, 0, fmt));
  do '(c, flags, width, fmt) <- scan_width c flags fmt;
  do '(c, flags, fmt) <- scan_size c flags fmt;
  if (c =? 0) || negb (existsb (Z.eqb c) CNV_LIST) then ret (Stop nconvs)
  else
    do addr <- (if has flags FL_STAR then ret 0 else va_pointer);
    if c =? 110 then
      do n <- (fun st => Some (scanf_len st, st));
      run putval addr (uwrap 32 n) flags;
      ret (Go fmt nconvs)
    else
      do r <- convert c flags width addr fmt;
      match r with
      | ConvEof => ret (AtEof nconvs)
      | Converted c fmt =>
          if c =? 0 then
            do fl <- in_stream (fun s => Some (g_flags s, s));
            if negb (Z.land fl __SERR =? 0) || (negb (Z.land fl __SEOF =? 0) && (nconvs =? 0)) then ret (AtEof nconvs)
            else ret (Stop nconvs)
          else ret (Go fmt (if negb (has flags FL_STAR) then uwrap 8 (nconvs + 1) else nconvs))
      end.

(** One pass of the loop over the format. *)
Definition format_piece (fmt : list Z) (nconvs : Z) : M piece_result :=
  do '(c, fmt) <- fetch fmt;
  if c =? 0 then ret (Stop nconvs)
  else if isspace c then
    run skip_spaces;
    ret (Go fmt nconvs)
  else
    do '(ordinary, c, fmt) <-
      (if negb (c =? 37) then ret (true, c, fmt)
       else
         do '(c, fmt) <- fetch fmt;
         ret (c =? 37, c, fmt));
    if ordinary then
      do i <- scanf_getc;
      if i <? 0 then ret (AtEof nconvs)
      else if negb (uwrap 8 i =? c) then
        run scanf_ungetc i;
        ret (Stop nconvs)
      else ret (Go fmt nconvs)
    else specification c fmt nconvs.

Definition scan_loop (fmt : list Z) : M Z :=
  loop (fun '(fmt, nconvs) =>
    do r <- format_piece fmt nconvs;
    match r with
    | Go fmt nconvs => ret (inl (fmt, nconvs))
    | Stop nconvs => ret (inr nconvs)
    | AtEof nconvs => ret (inr (if negb (nconvs =? 0) then nconvs else EOF))
    end) fuel (fmt, 0).

Definition vfscanf (fmt : list Z) (args : list Z) : C S Z :=
  fun s =>
    match scan_loop fmt (Sst s 0 args) with
    | Some (r, st) => Some (r, s_stream st)
    | None => None
    end.
End scanf.
