(* ===== verification/ScanfSpec.v ===== *)
(** * Formatted input: the stream it reads and the reference

    What [vfscanf] may assume of its stream, as the class [GetStreamOk]; and a
    reference for formats as sequences of pieces: what each piece takes from the
    input and stores. *)

From stdpp Require Import base list gmap.
From Stdlib Require Import ZArith Lia.
From S2P Require Import Prelude CMem CInt Convert Strto Stdio PrintfSpec Scanf.

Local Open Scope Z_scope.

(** ** The stream *)

(** [gs_rep r l eof pushed s]: the stream [s] still delivers the bytes [l]; its
    end-of-file flag is [eof], and [pushed] says whether a character is pushed
    back.  It depends on the memory of the block [r] only. *)
Class GetStreamOk (S : Type) `{GetStream S} := {
  gs_rep : Z * Z -> list Z -> bool -> bool -> S -> Prop;
  gs_eof r l eof b s : gs_rep r l eof b s -> negb (Z.land (g_flags s) __SEOF =? 0) = eof;
  gs_err r l eof b s : gs_rep r l eof b s -> Z.land (g_flags s) __SERR = 0;
  gs_bytes r l eof b s : gs_rep r l eof b s -> Forall is_byte l;
  gs_getc r c l eof b s :
    gs_rep r (c :: l) eof b s -> exists s', g_getc s = Some (c, s') /\ gs_rep r l eof false s' /\ g_mem s' = g_mem s;
  gs_getc_end r eof b s :
    gs_rep r [] eof b s -> exists s', g_getc s = Some (EOF, s') /\ gs_rep r [] true false s' /\ g_mem s' = g_mem s;
  gs_ungetc r c l eof s :
    gs_rep r l eof false s -> is_byte c ->
    exists x s', g_ungetc c s = Some (x, s') /\ gs_rep r (c :: l) false true s' /\ g_mem s' = g_mem s;
  gs_store r l eof b s p bs :
    gs_rep r l eof b s -> disjoint_blk p (Z.of_nat (length bs)) r.1 r.2 ->
    gs_rep r l eof b (g_set_mem (put_bytes (g_mem s) p bs) s);
  gs_set_mem m s : g_mem (g_set_mem m s) = m }.

(** ** Fields *)

(** At most [n] elements. *)
Fixpoint takez (n : Z) (l : list Z) : list Z :=
  match l with
  | [] => []
  | x :: l => if n <=? 0 then [] else x :: takez (n - 1) l
  end.

(** The elements before the first that does not satisfy [f]. *)
Fixpoint span (f : Z -> bool) (l : list Z) : list Z :=
  match l with
  | [] => []
  | x :: l => if f x then x :: span f l else []
  end.

(** After [k] characters of a field of [w]: what is left, and the end-of-file
    flag, set when the field was read to the end of the input and cleared when a
    character was pushed back. *)
Definition after (w : Z) (k : nat) (l : list Z) (eof : bool) : list Z * bool :=
  let rest := drop k l in
  (rest, if Z.of_nat k =? w then eof else match rest with [] => true | _ => false end).

(** ** Integers *)

Definition bin_prefix (need_percent_b : bool) (base : Z) (t : list Z) : bool :=
  need_percent_b && (starts 48 t && starts 98 (tail t) && ((base =? 0) || (base =? 2))).

(** The base of the digits and the length of the prefix. *)
Definition field_base (need_percent_b : bool) (base : Z) (t : list Z) : Z * nat :=
  if hex_prefix base t then (16, 2%nat)
  else if bin_prefix need_percent_b base t then (2, 2%nat)
  else (if base =? 0 then (if starts 48 t then 8 else 10) else base, 0%nat).

(** The number in a field of [w] characters at the start of the input, and how
    many characters are taken, also when there is none. *)
Definition ref_int (need_percent_b : bool) (base w : Z) (l : list Z) : option Z * nat :=
  let k1 := if starts 45 l || starts 43 l then 1%nat else 0%nat in
  let t := takez (w - Z.of_nat k1) (drop k1 l) in
  let '(b, k2) := field_base need_percent_b base t in
  let ds := digit_span b (drop k2 t) in
  if (k2 =? 0)%nat && (length ds =? 0)%nat then (None, k1)
  else (Some (if starts 45 l then - horner b 0 ds else horner b 0 ds), (k1 + k2 + length ds)%nat).

(** ** Formats *)

(** A member of a scan set. *)
Inductive citem := CChar (c : Z) | CRange (lo hi : Z).

Inductive sconv := ScInt (c : fconv) | ScStr | ScChars | ScCount | ScSet (neg : bool) (items : list citem).

Record sdir := SDir { sd_star : bool; sd_width : list Z; sd_size : fsize; sd_conv : sconv }.

Inductive spiece := SSpace (c : Z) | SLit (c : Z) | SPercent | SConv (d : sdir).

Definition citem_text (i : citem) : list Z :=
  match i with CChar c => [c] | CRange lo hi => [lo; 45; hi] end.
Definition sconv_text (c : sconv) : list Z :=
  match c with
  | ScInt c => [conv_char c]
  | ScStr => [115]
  | ScChars => [99]
  | ScCount => [110]
  | ScSet neg items => 91 :: (if neg then [94] else []) ++ flat_map citem_text items ++ [93]
  end.
Definition sdir_text (d : sdir) : list Z :=
  (if sd_star d then [42] else []) ++ dec_text (sd_width d) ++ size_text (sd_size d) ++ sconv_text (sd_conv d).
Definition spiece_text (p : spiece) : list Z :=
  match p with SSpace c => [c] | SLit c => [c] | SPercent => [37; 37] | SConv d => 37 :: sdir_text d end.
Definition sformat_text (ps : list spiece) : list Z := flat_map spiece_text ps.

Definition in_item (c : Z) (i : citem) : bool :=
  match i with CChar x => c =? x | CRange lo hi => (lo <=? c) && (c <=? hi) end.
Definition in_set (neg : bool) (items : list citem) (c : Z) : bool := negb (Bool.eqb (existsb (in_item c) items) neg).

Section reference.
Context `{Arch}.
Variables (need_long_long need_c99 need_percent_b need_bracket : bool).

(** The number of bytes of an integer target. *)
Definition target_size (s : fsize) : nat :=
  match s with
  | SNone => 4%nat
  | SHH => 1%nat
  | SH => 2%nat
  | SL => long_size
  | SLL | SBigL => if need_long_long then 8%nat else long_size
  | SJ => if long64 || need_long_long then 8%nat else 4%nat
  | SZ | ST => long_size
  end.

Definition int_target (c : fconv) (s : fsize) : nat :=
  match c with Fp => long_size | _ => target_size s end.

Definition int_base (c : fconv) : Z :=
  match c with Fd | Fu => 10 | Fo => 8 | Fi => 0 | Fb => 2 | _ => 16 end.

(** A width of zero counts down from [2 ^ 32]. *)
Definition field_width (d : sdir) : Z :=
  match sd_width d with
  | [] => match sd_conv d with ScChars => 1 | _ => 2 ^ 32 - 1 end
  | n => if dec_value n =? 0 then 2 ^ 32 else dec_value n
  end.

(** A store: the address, its alignment and the bytes. *)
Record sstore := SStore { st_addr : Z; st_align : Z; st_bytes : list Z }.

Definition puts (m : mem) (sts : list sstore) : mem :=
  fold_left (fun m st => put_bytes m (st_addr st) (st_bytes st)) sts m.

Definition store_to (target : option Z) (align : Z) (bs : list Z) : list sstore :=
  match target with Some a => [SStore a align bs] | None => [] end.

(** A conversion succeeds with its stores and what is left of the input, or does
    not match, or meets the end of the input. *)
Inductive outcome :=
  | Matched (sts : list sstore) (l : list Z) (eof : bool)
  | Mismatch (l : list Z) (eof : bool)
  | InputEnd (l : list Z).

(** Conversions that skip white space first. *)
Definition skipping (l : list Z) (k : list Z -> outcome) : outcome :=
  match drop (length (span isspace l)) l with
  | [] => InputEnd []
  | l => k l
  end.

(** A nonempty run of characters that satisfy [f], with a terminator. *)
Definition ref_chars (f : Z -> bool) (w : Z) (target : option Z) (l : list Z) (eof : bool) : outcome :=
  let t := span f (takez w l) in
  let '(l', eof') := after w (length t) l eof in
  match t with
  | [] => Mismatch l' eof'
  | _ => Matched (store_to target 1 (t ++ [0])) l' eof'
  end.

(** [n] characters have been read before. *)
Definition ref_conv (d : sdir) (target : option Z) (n : Z) (l : list Z) (eof : bool) : outcome :=
  let w := field_width d in
  match sd_conv d with
  | ScCount => let k := target_size (sd_size d) in Matched (store_to target (Z.of_nat k) (bytes_of_int k n)) l eof
  | ScChars =>
      match takez w l with
      | [] => InputEnd []
      | t => let '(l', eof') := after w (length t) l eof in Matched (store_to target 1 t) l' eof'
      end
  | ScSet neg items => ref_chars (in_set neg items) w target l eof
  | ScStr => skipping l (fun l => ref_chars (fun c => negb (isspace c)) w target l false)
  | ScInt c =>
      skipping l (fun l =>
        let '(v, k) := ref_int need_percent_b (int_base c) w l in
        let '(l', eof') := after w k l false in
        match v with
        | Some v => let k := int_target c (sd_size d) in Matched (store_to target (Z.of_nat k) (bytes_of_int k v)) l' eof'
        | None => Mismatch l' eof'
        end)
  end.

(** A whole format: the result, the stores and what is left.  [tot] is the length
    of the whole input and [n] the number of conversions made. *)
Fixpoint ref_scan (ps : list spiece) (tot n : Z) (l : list Z) (eof : bool) (args : list Z) :
    option (Z * list sstore * list Z * bool) :=
  let eof_result := if n =? 0 then EOF else n in
  match ps with
  | [] => Some (n, [], l, eof)
  | SSpace _ :: ps =>
      let '(l, eof) := after (2 ^ 32) (length (span isspace l)) l eof in
      ref_scan ps tot n l eof args
  | (SLit _ | SPercent) as p :: ps =>
      let c := match p with SLit c => c | _ => 37 end in
      match l with
      | [] => Some (eof_result, [], [], true)
      | x :: l => if x =? c then ref_scan ps tot n l eof args else Some (n, [], x :: l, false)
      end
  | SConv d :: ps =>
      match (if sd_star d then Some (None, args) else match args with a :: args => Some (Some a, args) | [] => None end) with
      | None => None
      | Some (target, args) =>
          match ref_conv d target (tot - Z.of_nat (length l)) l eof with
          | Matched sts l eof =>
              let n := match sd_conv d with ScCount => n | _ => if sd_star d then n else n + 1 end in
              match ref_scan ps tot n l eof args with
              | Some (r, sts', l, eof) => Some (r, sts ++ sts', l, eof)
              | None => None
              end
          | Mismatch l eof => Some (if eof then eof_result else n, [], l, eof)
          | InputEnd l => Some (eof_result, [], l, true)
          end
      end
  end.

(** *** Well-formed formats *)

(** In a scan set a bracket can only come first, and a hyphen that is no range
    only first or last. *)
Fixpoint items_ok (first : bool) (items : list citem) : bool :=
  match items with
  | [] => true
  | i :: items =>
      match i with
      | CChar c => (0 <? c) && (c <? 256) && (first || (negb (c =? 93) && (negb (c =? 45) || (length items =? 0)%nat)))
      | CRange lo hi =>
          (0 <? lo) && (lo <=? hi) && (hi <? 256) && negb (hi =? 93) && (first || (negb (lo =? 93) && negb (lo =? 45)))
      end && items_ok false items
  end.

Definition set_ok (neg : bool) (items : list citem) : bool :=
  items_ok true items && match items with
                         | [] => false
                         | (CChar c | CRange c _) :: _ => neg || negb (c =? 94)
                         end.

Definition sdir_ok (d : sdir) : bool :=
  forallb (fun d => (0 <=? d) && (d <=? 9)) (sd_width d) && (dec_value (sd_width d) <? 2 ^ 32) &&
  match sd_size d with SJ | SZ | ST => need_c99 | _ => true end &&
  match sd_conv d with
  | ScInt c =>
      match c with
      | Fd | Fi | Fu | Fo | Fx | FX => true
      | Fb => need_percent_b
      | Fp => match sd_size d with SNone => true | _ => false end
      | _ => false
      end
  | ScCount => true
  | ScStr | ScChars => match sd_size d with SNone => true | _ => false end
  | ScSet neg items => need_bracket && match sd_size d with SNone => true | _ => false end && set_ok neg items
  end.

Definition spiece_ok (p : spiece) : bool :=
  match p with
  | SSpace c => isspace c
  | SLit c => (0 <? c) && (c <? 256) && negb (c =? 37) && negb (isspace c)
  | SPercent => true
  | SConv d => sdir_ok d
  end.
End reference.

(** *** The documented widths

    The manual text of vfscanf allows widths from 1 to 255 and gives 255 as the
    default, where the code takes any number that fits in 32 bits and has no limit
    by default.  [documented] is a format with the default written out. *)

Definition width_ok (p : spiece) : bool :=
  match p with
  | SConv d => match sd_width d with [] => true | n => (1 <=? dec_value n) && (dec_value n <=? 255) end
  | _ => true
  end.

Definition documented_piece (p : spiece) : spiece :=
  match p with
  | SConv (SDir star [] sz ((ScInt _ | ScStr | ScSet _ _) as c)) => SConv (SDir star [2; 5; 5] sz c)
  | _ => p
  end.

Definition documented (ps : list spiece) : list spiece := map documented_piece ps.
