(* ===== verification/ScanfRun.v ===== *)
(** * Formatted input: the conversions

    The functions of [Scanf] against the reference of [ScanfSpec], over any stream
    that satisfies [GetStreamOk]. *)

From stdpp Require Import base list gmap.
From Stdlib Require Import ZArith Lia.
From S2P Require Import Prelude CMem CInt Convert Strto Stdio PrintfSpec Scanf ScanfSpec.

Local Open Scope Z_scope.

(** ** Fields *)

Lemma takez_nil n l : n <= 0 -> takez n l = [].
Proof. intros. destruct l; simpl; [done|]. by rewrite (proj2 (Z.leb_le n 0)). Qed.

Lemma takez_cons n x l : 0 < n -> takez n (x :: l) = x :: takez (n - 1) l.
Proof. intros. simpl. by rewrite (proj2 (Z.leb_gt n 0)). Qed.

Lemma length_takez n l : Z.of_nat (length (takez n l)) <= Z.max 0 n.
Proof.
  revert n. induction l as [|x l IH]; intros n; simpl; [lia|]. destruct (Z.leb_spec n 0); simpl; [lia|].
  specialize (IH (n - 1)). lia.
Qed.

Lemma takez_all n l : Z.of_nat (length l) <= n -> takez n l = l.
Proof.
  revert n. induction l as [|x l IH]; intros n Hn; [done|]. simpl in Hn. rewrite takez_cons by lia. by rewrite IH by lia.
Qed.

Lemma takez_prefix n l : takez n l = take (length (takez n l)) l.
Proof.
  revert n. induction l as [|x l IH]; intros n; simpl; [done|]. destruct (n <=? 0); [done|]. simpl. by rewrite <- IH.
Qed.

Lemma span_prefix f l : span f l = take (length (span f l)) l.
Proof. induction l as [|x l IH]; simpl; [done|]. destruct (f x); [|done]. simpl. by rewrite <- IH. Qed.

Lemma span_length f l : (length (span f l) <= length l)%nat.
Proof. induction l as [|x l IH]; simpl; [lia|]. destruct (f x); simpl; lia. Qed.

Lemma takez_length n l : (length (takez n l) <= length l)%nat.
Proof. revert n. induction l as [|x l IH]; intros n; simpl; [lia|]. destruct (n <=? 0); simpl; [lia|]. specialize (IH (n - 1)). lia. Qed.

Lemma takez_bytes n l : Forall is_byte l -> Forall is_byte (takez n l).
Proof. intros Hl. rewrite takez_prefix. by apply Forall_take. Qed.

(** Consuming one character of a field. *)
Lemma after_cons w k x l eof : 0 < w -> after w (S k) (x :: l) eof = after (w - 1) k l eof.
Proof.
  intros Hw. unfold after. cbn [drop]. do 2 f_equal. destruct (Z.eqb_spec (Z.of_nat (S k)) w), (Z.eqb_spec (Z.of_nat k) (w - 1)); lia || done.
Qed.

Lemma uwrap32_pred w : 1 <= w <= 2 ^ 32 -> uwrap 32 (uwrap 32 w - 1) = uwrap 32 (w - 1).
Proof. intros Hw. unfold uwrap. by rewrite Zminus_mod_idemp_l. Qed.

Lemma uwrap32_zero w : 1 <= w <= 2 ^ 32 -> (uwrap 32 (w - 1) =? 0) = (w =? 1).
Proof.
  intros Hw. rewrite uwrap_small by lia. destruct (Z.eqb_spec (w - 1) 0), (Z.eqb_spec w 1); lia || done.
Qed.

(** ** Triples *)

Section scan_run.
Context `{Arch}.
Variables (need_long_long need_c99 need_percent_b need_bracket : bool).
Context {S : Type} `{GetStreamOk S}.

Abbreviation M A := (C (sst S) A).

(** From a state that satisfies [P], [c] returns [a] in one that satisfies [Q]. *)
Definition triple {A} (P : sst S -> Prop) (c : M A) (a : A) (Q : sst S -> Prop) : Prop :=
  forall st, P st -> exists st', c st = Some (a, st') /\ Q st'.

Lemma t_ret {A} (P : sst S -> Prop) (a : A) : triple P (ret a) a P.
Proof. intros st Hp. by exists st. Qed.

Lemma t_bind {A B} P (c : M A) a Q (k : A -> M B) b R :
  triple P c a Q -> triple Q (k a) b R -> triple P (bind c k) b R.
Proof.
  intros Hc Hk st Hp. destruct (Hc st Hp) as (s1 & E1 & Hq). destruct (Hk s1 Hq) as (s2 & E2 & Hr).
  exists s2. by rewrite (bind_eq _ _ _ _ _ E1).
Qed.

Lemma t_assoc {A B D} P (c : M A) (k : A -> M B) (g : B -> M D) d Q :
  triple P (bind c (fun x => bind (k x) g)) d Q -> triple P (bind (bind c k) g) d Q.
Proof.
  intros Ht st Hp. destruct (Ht st Hp) as (s' & E & Hq). exists s'. split; [|done]. rewrite <- E. unfold bind. by destruct (c st) as [[]|].
Qed.

Lemma t_pre {A} (P P' : sst S -> Prop) (c : M A) a Q : (forall st, P' st -> P st) -> triple P c a Q -> triple P' c a Q.
Proof. intros Hp Hc st ?. by apply Hc, Hp. Qed.

Lemma t_post {A} P (c : M A) a (Q Q' : sst S -> Prop) : (forall st, Q st -> Q' st) -> triple P c a Q -> triple P c a Q'.
Proof. intros Hq Hc st Hp. destruct (Hc st Hp) as (s1 & E & ?). exists s1. auto. Qed.

Lemma t_go {T R} P (body : T -> M (T + R)) f x x' Q r Q' :
  triple P (body x) (inl x') Q -> triple Q (loop body f x') r Q' -> triple P (loop body (Datatypes.S f) x) r Q'.
Proof.
  intros Hb Hl st Hp. destruct (Hb st Hp) as (s1 & E1 & Hq). destruct (Hl s1 Hq) as (s2 & E2 & Hr).
  exists s2. by rewrite (loop_go _ _ _ _ _ _ E1).
Qed.

Lemma t_stop {T R} P (body : T -> M (T + R)) f x r Q :
  triple P (body x) (inr r) Q -> triple P (loop body (Datatypes.S f) x) r Q.
Proof. intros Hb st Hp. destruct (Hb st Hp) as (s1 & E1 & Hq). exists s1. by rewrite (loop_stop _ _ _ _ _ _ E1). Qed.

(** ** The stream *)

(** The length of the whole input, which is counted in an [int], and the block
    of memory the stream depends on. *)
Variables (tot : Z) (r : Z * Z).
Hypothesis tot_max : tot <= INT_MAX.

(** The input [l] is left, the memory is [m] and the arguments are [ap]; no
    character is pushed back in [fresh]. *)
Definition state_is (b : bool) (l : list Z) (eof : bool) (m : mem) (ap : list Z) (st : sst S) : Prop :=
  gs_rep r l eof b (s_stream st) /\ g_mem (s_stream st) = m /\ scanf_len st = tot - Z.of_nat (length l) /\
  Z.of_nat (length l) <= tot /\ s_ap st = ap.
Definition fresh := state_is false.
Definition holds l eof m ap st : Prop := exists b, state_is b l eof m ap st.

Lemma fresh_holds l eof m ap st : fresh l eof m ap st -> holds l eof m ap st.
Proof. intros. by exists false. Qed.

Lemma t_fresh {A} P (c : M A) a l eof m ap : triple P c a (fresh l eof m ap) -> triple P c a (holds l eof m ap).
Proof. apply t_post, fresh_holds. Qed.

Lemma holds_bytes l eof m ap st : holds l eof m ap st -> Forall is_byte l.
Proof. intros (b & Hr & _). by eapply gs_bytes. Qed.

Lemma fits_len x : 0 <= x <= tot -> fits_int x = true.
Proof. intros Hx. unfold fits_int, INT_MIN, INT_MAX in *. apply andb_true_iff. rewrite !Z.leb_le. lia. Qed.

(** The character [c] was just read. *)
Definition got (c : Z) l eof m ap st : Prop := fresh l eof m ap st /\ is_byte c /\ Z.of_nat (length l) < tot.

Lemma got_holds c l eof m ap st : got c l eof m ap st -> holds l eof m ap st.
Proof. intros [? _]. by apply fresh_holds. Qed.

Lemma t_getc c l eof m ap : triple (holds (c :: l) eof m ap) scanf_getc c (got c l eof m ap).
Proof.
  intros [s n a] (b & Hr & <- & Hn & Hl & Ha). cbn [s_stream scanf_len s_ap] in *. subst.
  pose proof (gs_bytes _ _ _ _ _ Hr) as Hb. inversion_clear Hb as [|? ? Hc _].
  destruct (gs_getc _ _ _ _ _ _ Hr) as (s' & E & Hr' & Em).
  unfold scanf_getc, bind, in_stream. cbn [s_stream scanf_len s_ap]. rewrite E.
  assert ((c <? 0) = false) as -> by (apply Z.ltb_ge; unfold is_byte in Hc; lia). cbn [negb]. unfold add_len. cbn [s_stream scanf_len s_ap].
  cbn [length] in *. rewrite fits_len by lia. eexists. split; [reflexivity|].
  split; [|split; [done|lia]]. repeat split; cbn [s_stream scanf_len s_ap]; try done; lia.
Qed.

Lemma t_getc_end eof m ap : triple (holds [] eof m ap) scanf_getc EOF (holds [] true m ap).
Proof.
  intros [s n a] (b & Hr & <- & Hn & Hl & Ha). cbn [s_stream scanf_len s_ap] in *. subst.
  destruct (gs_getc_end _ _ _ _ Hr) as (s' & E & Hr' & Em).
  unfold scanf_getc, bind, in_stream. cbn [s_stream scanf_len s_ap]. rewrite E.
  eexists. split; [reflexivity|]. exists false. repeat split; try done.
Qed.

Lemma t_ungetc c l eof m ap : triple (got c l eof m ap) (scanf_ungetc c) tt (holds (c :: l) false m ap).
Proof.
  intros [s n a] ((Hr & <- & Hn & Hl & Ha) & Hc & Hlt). cbn [s_stream scanf_len s_ap] in *. subst.
  destruct (gs_ungetc _ c _ _ _ Hr Hc) as (x & s' & E & Hr' & Em).
  unfold scanf_ungetc, bind, in_stream, add_len.
  assert ((c <? 0) = false) as -> by (apply Z.ltb_ge; unfold is_byte in Hc; lia). cbn [negb s_stream scanf_len s_ap].
  rewrite fits_len by lia. cbn [s_stream scanf_len s_ap]. rewrite E. eexists. split; [reflexivity|].
  exists true. repeat split; cbn [s_stream scanf_len s_ap length]; try done; lia.
Qed.

(** A test on the character just read. *)
Lemma t_got {A} c l eof m ap (k : M A) a Q : (is_byte c -> triple (got c l eof m ap) k a Q) -> triple (got c l eof m ap) k a Q.
Proof. intros Hk st Hg. apply Hk; [apply Hg|done]. Qed.

Lemma byte_not_eof c : is_byte c -> (c <? 0) = false.
Proof. intros Hc. apply Z.ltb_ge. unfold is_byte in Hc. lia. Qed.

(** ** Stores *)

(** Where the results go: nowhere, or to [n] bytes outside the stream. *)
Definition target_ok (m : mem) (target : option Z) (n : Z) : Prop :=
  match target with
  | Some a => 0 < n -> 0 < a /\ mapped m a n /\ disjoint_blk a n r.1 r.2
  | None => True
  end.
Definition put_target (m : mem) (target : option Z) (t : list Z) : mem :=
  match target with Some a => put_bytes m a t | None => m end.
Definition cursor (target : option Z) (k : nat) : Z :=
  match target with Some a => a + Z.of_nat k | None => 0 end.

Lemma t_put l eof m ap align addr bs :
  addr mod align = 0 -> mapped m addr (Z.of_nat (length bs)) -> Forall is_byte bs ->
  disjoint_blk addr (Z.of_nat (length bs)) r.1 r.2 ->
  triple (holds l eof m ap) (put_at align addr bs) tt (holds l eof (put_bytes m addr bs) ap).
Proof.
  intros Hal Hm Hbs Hd [s n a] (b & Hr & <- & Hn & Hl & Ha). cbn [s_stream scanf_len s_ap] in *. subst.
  unfold put_at. rewrite Hal. cbn [Z.eqb]. unfold in_stream. cbn [s_stream scanf_len s_ap].
  rewrite store_bytes_at by done. eexists. split; [reflexivity|]. exists b. repeat split; cbn [s_stream scanf_len s_ap]; try done.
  - by apply gs_store.
  - apply gs_set_mem.
Qed.

Lemma t_putmb l eof m ap target t c n :
  target_ok m target n -> Z.of_nat (length t) < n -> is_byte c ->
  triple (holds l eof (put_target m target t) ap) (putmb (cursor target (length t)) c) (cursor target (length (t ++ [c])))
    (holds l eof (put_target m target (t ++ [c])) ap).
Proof.
  intros Ht Hn Hc. unfold putmb. destruct target as [a|]; simpl in *; [|apply t_ret].
  destruct Ht as (Ha & Hm & Hd); [lia|]. rewrite (proj2 (Z.eqb_neq _ 0)) by lia. cbn [negb]. rewrite (uwrap_byte_id c) by done.
  eapply t_bind; [apply t_put|].
  - apply Z.mod_1_r.
  - apply put_bytes_mapped. eapply mapped_weaken; [exact Hm|lia|simpl; lia].
  - by apply list.Forall_singleton.
  - unfold disjoint_blk in *. simpl. lia.
  - rewrite put_bytes_app, length_app. cbn [length]. replace (a + Z.of_nat (length t) + 1) with (a + Z.of_nat (length t + 1)) by lia. apply t_ret.
Qed.
(** ** Runs of characters *)

(** A loop that takes the characters of a field while [f] holds and puts each in
    the target; [mk w t] is its state with [w] characters left and [t] taken, and
    [fin t] its result. *)
Section chars_loop.
Context {T R : Type} (body : T -> M (T + R)) (f : Z -> bool) (mk : Z -> list Z -> T) (fin : list Z -> R).
Variables (m : mem) (ap : list Z) (target : option Z) (room : Z).
Hypothesis at_end : forall w t eof m', triple (holds [] eof m' ap) (body (mk w t)) (inr (fin t)) (holds [] true m' ap).
Hypothesis at_other : forall w t c l eof m',
  f c = false -> triple (holds (c :: l) eof m' ap) (body (mk w t)) (inr (fin t)) (holds (c :: l) false m' ap).
Hypothesis at_char : forall w t c l eof,
  f c = true -> 1 <= w <= 2 ^ 32 -> Z.of_nat (length t) < room ->
  triple (holds (c :: l) eof (put_target m target t) ap) (body (mk w t))
    (if w =? 1 then inr (fin (t ++ [c])) else inl (mk (w - 1) (t ++ [c])))
    (holds l eof (put_target m target (t ++ [c])) ap).

Lemma chars_run l : forall fuel w t eof,
  1 <= w <= 2 ^ 32 -> (length l < fuel)%nat -> Z.of_nat (length t + length (span f (takez w l))) <= room ->
  let k := length (span f (takez w l)) in
  triple (holds l eof (put_target m target t) ap) (loop body fuel (mk w t)) (fin (t ++ span f (takez w l)))
    (holds (after w k l eof).1 (after w k l eof).2 (put_target m target (t ++ span f (takez w l))) ap).
Proof.
  induction l as [|c l IH]; intros [|fuel] w t eof Hw Hf Hroom k; simpl in Hf; try lia.
  - subst k. cbn [takez span length] in *. rewrite app_nil_r. unfold after. cbn [drop fst snd].
    rewrite (proj2 (Z.eqb_neq _ w)) by lia. apply t_stop, at_end.
  - subst k. rewrite takez_cons in * by lia. cbn [span] in *. destruct (f c) eqn:Ec.
    + cbn [length] in *. rewrite after_cons by lia. pose proof (at_char w t c l eof Ec Hw ltac:(lia)) as Hc.
      destruct (Z.eqb_spec w 1) as [->|Hne].
      * rewrite (takez_nil (1 - 1)) by lia. cbn [span length]. unfold after. cbn [drop fst snd]. change (Z.of_nat 0 =? 1 - 1) with true. by apply t_stop.
      * eapply t_go; [exact Hc|]. replace (t ++ c :: span f (takez (w - 1) l)) with ((t ++ [c]) ++ span f (takez (w - 1) l)) by (by rewrite <- app_assoc).
        apply IH; [lia|lia|]. rewrite length_app. cbn [length]. lia.
    + cbn [length]. rewrite app_nil_r. unfold after. cbn [drop fst snd]. rewrite (proj2 (Z.eqb_neq _ w)) by lia. by apply t_stop, at_other.
Qed.
End chars_loop.

(** The step of such a loop. *)
Lemma t_take {A} c l eof m ap target t (k : Z -> M A) a Q n :
  target_ok m target n -> Z.of_nat (length t) < n ->
  (is_byte c -> triple (holds l eof (put_target m target (t ++ [c])) ap) (k (cursor target (length (t ++ [c])))) a Q) ->
  triple (got c l eof (put_target m target t) ap) (bind (putmb (cursor target (length t)) c) k) a Q.
Proof.
  intros Ht Hn Hk. apply t_got. intros Hc. eapply t_bind; [|by apply Hk].
  eapply t_pre; [apply got_holds|]. by eapply t_putmb.
Qed.

Lemma t_skip_spaces l : forall fuel eof m ap,
  (length l < fuel)%nat -> Z.of_nat (length l) < 2 ^ 32 ->
  let k := length (span isspace l) in
  triple (holds l eof m ap) (skip_spaces fuel) (match drop k l with [] => EOF | c :: _ => c end)
    (holds (after (2 ^ 32) k l eof).1 (after (2 ^ 32) k l eof).2 m ap).
Proof.
  cbv zeta. unfold after. cbn [fst snd]. induction l as [|c l IH]; intros [|fuel] eof m ap Hf Hl; simpl in Hf; try lia; unfold skip_spaces; cbn [fst snd].
  - cbn [span length drop]. apply t_stop. eapply t_bind; [apply t_getc_end|]. apply t_ret.
  - cbn [span] in *. cbn [length] in Hl. destruct (isspace c) eqn:Ec; cbn [length drop].
    + eapply t_go.
      * eapply t_bind; [apply t_getc|]. apply t_got. intros Hc. rewrite byte_not_eof, Ec by done. eapply t_pre; [apply got_holds|]. apply t_ret.
      * specialize (IH fuel eof m ap ltac:(lia) ltac:(lia)).
        pose proof (span_length isspace l). rewrite (proj2 (Z.eqb_neq (Z.of_nat (length (span isspace l))) (2 ^ 32))) in IH by lia. rewrite (proj2 (Z.eqb_neq _ (2 ^ 32))) by lia. exact IH.
    + apply t_stop. eapply t_bind; [apply t_getc|]. apply t_got. intros Hc. rewrite byte_not_eof, Ec by done.
      eapply t_bind; [apply t_ungetc|]. apply t_ret.
Qed.
(** ** Integers *)

Abbreviation bits := (scanf_bits need_long_long).

Lemma bits_range : 32 <= bits.
Proof. unfold scanf_bits, long_bits, long_size. destruct need_long_long, long64; lia. Qed.

(** [putval] *)
Definition putval_size (flags : Z) : nat :=
  if has flags FL_CHAR then 1%nat
  else if need_long_long && has flags (FL_LONGLONG need_long_long) then 8%nat
  else if has flags FL_LONG then long_size
  else if has flags FL_SHORT then 2%nat
  else 4%nat.

Definition aligned_to (target : option Z) (n : Z) : Prop :=
  match target with Some a => a mod n = 0 | None => True end.

Lemma putval_size_pos flags : (0 < putval_size flags)%nat.
Proof. unfold putval_size, long_size. destruct long64; repeat case_match; lia. Qed.

Lemma t_putval l eof m ap target val flags (n := putval_size flags) :
  target_ok m target (Z.of_nat n) -> aligned_to target (Z.of_nat n) ->
  triple (holds l eof m ap) (putval need_long_long (cursor target 0) val flags) tt (holds l eof (put_target m target (bytes_of_int n val)) ap).
Proof.
  intros Ht Ha. unfold putval. destruct target as [a|]; simpl in *; [|apply t_ret]. pose proof (putval_size_pos flags). destruct Ht as (H0' & Hm & Hd); [subst n; lia|].
  rewrite Z.add_0_r, (proj2 (Z.eqb_neq a 0)) by lia. cbn [negb]. subst n. unfold putval_size in *.
  assert (forall k align, Z.of_nat k = align -> a mod align = 0 -> mapped m a (Z.of_nat k) -> disjoint_blk a (Z.of_nat k) r.1 r.2 ->
    triple (holds l eof m ap) (put_at align a (bytes_of_int k val)) tt (holds l eof (put_bytes m a (bytes_of_int k val)) ap)) as Hp.
  { intros k align <- ? ? ?. apply t_put; rewrite ?bytes_of_int_length; auto using bytes_of_int_bytes. }
  destruct (has flags FL_CHAR); [by apply Hp|]. destruct (need_long_long && has flags (FL_LONGLONG need_long_long)); [by apply Hp|].
  destruct (has flags FL_LONG); [by apply Hp|]. destruct (has flags FL_SHORT); by apply Hp.
Qed.

Lemma putval_size_bits flags : 8 * Z.of_nat (putval_size flags) <= bits.
Proof.
  unfold putval_size, scanf_bits, long_bits, long_size. destruct need_long_long, long64, (has flags FL_CHAR), (has flags FL_LONG), (has flags FL_SHORT);
    cbn [andb]; try destruct (has flags _); lia.
Qed.

Lemma t_int_put l eof m ap target flags v (n := putval_size flags) :
  target_ok m target (Z.of_nat n) -> aligned_to target (Z.of_nat n) ->
  triple (holds l eof m ap) (int_put need_long_long (cursor target 0) (uwrap bits v) flags) 1
    (holds l eof (put_target m target (bytes_of_int n (if has flags FL_MINUS then - v else v))) ap).
Proof.
  intros Ht Ha. unfold int_put. pose proof bits_range. pose proof (putval_size_bits flags) as Hb.
  eapply t_bind; [|apply t_ret].
  replace (bytes_of_int n (if has flags FL_MINUS then - v else v))
    with (bytes_of_int n (if has flags FL_MINUS then uwrap bits (- uwrap bits v) else uwrap bits v)).
  - by apply t_putval.
  - destruct (has flags FL_MINUS); [|by apply bytes_of_int_uwrap].
    replace (uwrap bits (- uwrap bits v)) with (uwrap bits (- v)); [by apply bytes_of_int_uwrap|].
    unfold uwrap. rewrite <- (Z.sub_0_l (v mod 2 ^ bits)), <- (Z.sub_0_l v). by rewrite Zminus_mod_idemp_r.
Qed.

Lemma putval_size_lor flags x :
  x = FL_ANY \/ x = FL_MINUS -> putval_size (Z.lor flags x) = putval_size flags.
Proof.
  intros Hx. unfold putval_size, FL_LONGLONG.
  destruct Hx as [-> | ->], need_long_long; flag_bits; rewrite !orb_false_r; done.
Qed.
Lemma uwrap_digit v base d : 0 < bits -> uwrap bits (uwrap bits (uwrap bits v * base) + d) = uwrap bits (v * base + d).
Proof. intros Hb. unfold uwrap. by rewrite Zplus_mod_idemp_l, <- Zplus_mod_idemp_l, Zmult_mod_idemp_l, Zplus_mod_idemp_l. Qed.

(** The digit loop, with the first character of the field in hand. *)
Lemma t_digits base m ap l : forall fuel i w flags v eof,
  2 <= base <= 36 -> 1 <= w <= 2 ^ 32 -> (length l < fuel)%nat ->
  let ds := digit_span base (i :: takez (w - 1) l) in
  triple (got i l eof m ap) (loop (digit_step need_long_long base) fuel (i, uwrap 32 w, flags, uwrap bits v))
    (Z.of_nat (length ds) =? w, (if ds is [] then flags else Z.lor flags FL_ANY), uwrap bits (horner base v ds))
    (holds (after w (length ds) (i :: l) eof).1 (after w (length ds) (i :: l) eof).2 m ap).
Proof.
  pose proof bits_range.
  induction l as [|c l IH]; intros [|fuel] i w flags v eof Hb Hw Hf ds; simpl in Hf; try lia; subst ds; cbn [digit_span].
  all: apply t_got; intros Hi; pose proof (digit_to_val_spec i Hi) as Hd.
  all: assert (uwrap 32 i = i) as Ei by (apply uwrap_small; unfold is_byte in Hi; lia).
  all: assert (base <= digit_to_val i -> forall l0, triple (got i l0 eof m ap) (loop (digit_step need_long_long base) (Datatypes.S fuel) (i, uwrap 32 w, flags, uwrap bits v))
      (Z.of_nat 0 =? w, flags, uwrap bits v) (holds (after w 0 (i :: l0) eof).1 (after w 0 (i :: l0) eof).2 m ap)) as Hno
    by (intros Hge l0; apply t_stop; unfold digit_step; rewrite Ei, (proj2 (Z.leb_le _ _) Hge); unfold after; cbn [drop fst snd];
        rewrite !(proj2 (Z.eqb_neq _ w)) by lia; eapply t_bind; [apply t_ungetc|apply t_ret]).
  all: destruct (digit_value i) as [d|]; [|by apply Hno; lia].
  all: destruct Hd as [Ed Hd]; destruct (Z.ltb_spec d base) as [Hlt|Hge]; [|by apply Hno; lia].
  all: cbn [length horner fold_left] in *; rewrite after_cons by lia.
  - (* the input ends here *)
    apply t_stop. unfold digit_step. rewrite Ei, Ed, (proj2 (Z.leb_gt _ _)) by lia. rewrite uwrap_digit, uwrap32_pred, uwrap32_zero by lia.
    cbn [takez digit_span length horner fold_left]. unfold after. cbn [drop fst snd].
    destruct (Z.eqb_spec w 1) as [->|Hne]; [eapply t_pre; [apply got_holds|]; apply t_ret|].
    rewrite (proj2 (Z.eqb_neq (Z.of_nat 1) w)), (proj2 (Z.eqb_neq (Z.of_nat 0) _)) by lia.
    eapply t_bind; [eapply t_pre; [apply got_holds|]; apply t_getc_end|]. apply t_ret.
  - destruct (Z.eqb_spec w 1) as [->|Hne].
    + apply t_stop. unfold digit_step. rewrite Ei, Ed, (proj2 (Z.leb_gt _ _)) by lia. rewrite uwrap_digit, uwrap32_pred, uwrap32_zero by lia.
      rewrite (takez_nil (1 - 1)) by lia. cbn [digit_span length horner fold_left]. unfold after. cbn [drop fst snd].
      change (1 =? 1) with true. change (Z.of_nat 0 =? 1 - 1) with true. eapply t_pre; [apply got_holds|]. apply t_ret.
    + rewrite (takez_cons (w - 1)) by lia.
      specialize (IH fuel c (w - 1) (Z.lor flags FL_ANY) (v * base + d) eof Hb ltac:(lia) ltac:(lia)). cbv zeta in IH.
      set (ds := digit_span base (c :: takez (w - 1 - 1) l)) in *.
      eapply t_go.
      { unfold digit_step. rewrite Ei, Ed, (proj2 (Z.leb_gt _ _)) by lia. rewrite uwrap_digit, uwrap32_pred, uwrap32_zero by lia.
        rewrite (proj2 (Z.eqb_neq w 1)) by lia. eapply t_bind; [eapply t_pre; [apply got_holds|]; apply t_getc|].
        apply t_got. intros Hc. rewrite byte_not_eof by done. apply t_ret. }
      assert ((Z.of_nat (Datatypes.S (length ds)) =? w) = (Z.of_nat (length ds) =? w - 1)) as ->
        by (destruct (Z.eqb_spec (Z.of_nat (Datatypes.S (length ds))) w), (Z.eqb_spec (Z.of_nat (length ds)) (w - 1)); lia || done).
      assert ((if ds is [] then Z.lor flags FL_ANY else Z.lor (Z.lor flags FL_ANY) FL_ANY) = Z.lor flags FL_ANY) as Eds
        by (destruct ds; [done|]; by rewrite <- Z.lor_assoc, Z.lor_diag).
      rewrite Eds in IH. exact IH.
Qed.

(** The next character of a field whose first is in hand. *)
Lemma t_next_none i l w eof m ap :
  1 <= w <= 2 ^ 32 -> takez (w - 1) l = [] ->
  triple (got i l eof m ap) (next_char (uwrap 32 w)) None (holds (after w 1 (i :: l) eof).1 (after w 1 (i :: l) eof).2 m ap).
Proof.
  intros Hw Ht. unfold next_char. cbv zeta. rewrite uwrap32_pred, uwrap32_zero by lia. rewrite after_cons by lia. unfold after. cbn [drop fst snd].
  eapply t_pre; [apply got_holds|]. destruct (Z.eqb_spec w 1) as [->|Hne]; [change (Z.of_nat 0 =? 1 - 1) with true; apply t_ret|].
  rewrite (proj2 (Z.eqb_neq (Z.of_nat 0) _)) by lia. destruct l as [|c l]; [|rewrite takez_cons in Ht by lia; done].
  eapply t_bind; [apply t_getc_end|]. apply t_ret.
Qed.

Lemma t_next_some i c l w eof m ap :
  2 <= w <= 2 ^ 32 -> triple (got i (c :: l) eof m ap) (next_char (uwrap 32 w)) (Some (c, uwrap 32 (w - 1))) (got c l eof m ap).
Proof.
  intros Hw. unfold next_char. cbv zeta. rewrite uwrap32_pred, uwrap32_zero, (proj2 (Z.eqb_neq w 1)) by lia.
  eapply t_pre; [apply got_holds|]. eapply t_bind; [apply t_getc|]. apply t_got. intros Hc. rewrite byte_not_eof by done. apply t_ret.
Qed.

Lemma takez_cons_inv w c t l : takez w l = c :: t -> exists l', l = c :: l' /\ t = takez (w - 1) l' /\ 0 < w.
Proof. destruct l as [|x l]; simpl; [done|]. destruct (Z.leb_spec w 0); [done|]. intros E. injection E as -> <-. eauto. Qed.
(** *** One conversion *)

Section one_int.
Variables (fuel : nat) (target : option Z) (m : mem) (ap : list Z) (n : nat) (neg : bool).

(** The target has room. *)
Definition fits : Prop := target_ok m target (Z.of_nat n) /\ aligned_to target (Z.of_nat n).

(** What the flags say. *)
Definition int_flags (flags : Z) : Prop := putval_size flags = n /\ has flags FL_MINUS = neg.

Lemma int_flags_any flags : int_flags flags -> int_flags (Z.lor flags FL_ANY).
Proof. intros [Hn Hm]. split; [by rewrite putval_size_lor by auto|]. flag_bits. by rewrite Hm, orb_false_r. Qed.

(** The memory with the number [v] stored. *)
Definition stored (v : Z) : mem := put_target m target (bytes_of_int n (if neg then - v else v)).

Lemma t_store l eof flags v :
  fits -> int_flags flags ->
  triple (holds l eof m ap) (int_put need_long_long (cursor target 0) (uwrap bits v) flags) 1 (holds l eof (stored v) ap).
Proof.
  intros [Hroom Hal] [Hn Hm]. pose proof (t_int_put l eof m ap target flags v) as Ht. rewrite Hn, Hm in Ht. by apply Ht.
Qed.

Abbreviation digits_and_put := (fun i w flags base =>
  do '(full, flags, val) <- loop (digit_step need_long_long base) fuel (i, w, flags, 0);
  if full then int_put need_long_long (cursor target 0) val flags
  else if negb (has flags FL_ANY) then ret 0
  else int_put need_long_long (cursor target 0) val flags).

Lemma t_digits_and_put base i l w flags eof :
  2 <= base <= 36 -> 1 <= w <= 2 ^ 32 -> (length l < fuel)%nat -> int_flags flags ->
  let ds := digit_span base (i :: takez (w - 1) l) in
  let ok := has flags FL_ANY || negb (length ds =? 0)%nat in
  (ok = true -> fits) ->
  triple (got i l eof m ap) (digits_and_put i (uwrap 32 w) flags base) (if ok then 1 else 0)
    (holds (after w (length ds) (i :: l) eof).1 (after w (length ds) (i :: l) eof).2 (if ok then stored (horner base 0 ds) else m) ap).
Proof.
  intros Hb Hw Hf Hfl ds ok Hfit. pose proof (t_digits base m ap l fuel i w flags 0 eof Hb Hw Hf) as Hd. cbv zeta in Hd. fold ds in Hd.
  change (uwrap bits 0) with (0 mod 2 ^ bits) in Hd. rewrite Z.mod_0_l in Hd by (pose proof bits_range; lia).
  eapply t_bind; [exact Hd|]. cbv iota beta. subst ok. destruct ds as [|d ds'].
  - cbn [length]. rewrite (proj2 (Z.eqb_neq _ w)) by lia. rewrite orb_false_r in *. destruct (has flags FL_ANY); cbn [negb]; [by apply t_store; auto|apply t_ret].
  - cbn [length Nat.eqb negb] in *. rewrite orb_true_r in *.
    assert (has (Z.lor flags FL_ANY) FL_ANY = true) as -> by (flag_bits; apply orb_true_r). cbn [negb].
    pose proof (int_flags_any _ Hfl). destruct (Z.of_nat (Datatypes.S (length ds')) =? w); apply t_store; auto.
Qed.

Lemma t_store_zero l eof flags :
  fits -> int_flags flags -> triple (holds l eof m ap) (int_put need_long_long (cursor target 0) 0 flags) 1 (holds l eof (stored 0) ap).
Proof.
  intros Hfit Hfl. pose proof (t_store l eof flags 0 Hfit Hfl) as Hs. unfold uwrap in Hs.
  rewrite Z.mod_0_l in Hs by (pose proof bits_range; lia). done.
Qed.

Abbreviation put_number := (fun y : Z * option (Z * Z * Z) =>
  match y with
  | (flags, None) => int_put need_long_long (cursor target 0) 0 flags
  | (flags, Some (i, width, base)) => digits_and_put i width flags base
  end).

(** The digits behind a prefix whose second character [c] is in hand. *)
Lemma t_after_prefix b c l w flags eof :
  2 <= b <= 36 -> 1 <= w <= 2 ^ 32 -> (length l < fuel)%nat -> fits -> int_flags flags -> has flags FL_ANY = true ->
  let ds := digit_span b (takez (w - 1) l) in
  triple (got c l eof m ap)
    (do y <- (do x <- next_char (uwrap 32 w);
              match x with None => ret (flags, None) | Some (i, width) => ret (flags, Some (i, width, b)) end);
     put_number y) 1
    (holds (after w (1 + length ds) (c :: l) eof).1 (after w (1 + length ds) (c :: l) eof).2 (stored (horner b 0 ds)) ap).
Proof.
  intros Hb Hw Hf Hfit Hfl Hany ds. destruct (takez (w - 1) l) as [|i t] eqn:Et.
  - subst ds. eapply t_bind; [eapply t_bind; [by apply t_next_none|apply t_ret]|]. by apply t_store_zero.
  - apply takez_cons_inv in Et as (l' & -> & -> & Hw'). cbn [length Nat.add] in *. rewrite after_cons by lia.
    eapply t_bind; [eapply t_bind; [apply t_next_some; lia|apply t_ret]|]. cbv iota beta.
    pose proof (t_digits_and_put b i l' (w - 1) flags eof Hb ltac:(lia) ltac:(lia) Hfl) as Hd. rewrite Hany in Hd. by apply Hd.
Qed.

(** From the first character behind the sign. *)
Lemma t_int_field i l w flags base eof :
  base = 0 \/ base = 2 \/ base = 8 \/ base = 10 \/ base = 16 ->
  1 <= w <= 2 ^ 32 -> (length l < fuel)%nat -> int_flags flags -> has flags FL_ANY = false ->
  let t := i :: takez (w - 1) l in
  let '(b, k) := field_base need_percent_b base t in
  let ds := digit_span b (drop k t) in
  let ok := negb ((k =? 0)%nat && (length ds =? 0)%nat) in
  (ok = true -> fits) ->
  triple (got i l eof m ap)
    (do y <- int_prefix need_percent_b i (uwrap 32 w) flags base; put_number y)
    (if ok then 1 else 0)
    (holds (after w (k + length ds) (i :: l) eof).1 (after w (k + length ds) (i :: l) eof).2 (if ok then stored (horner b 0 ds) else m) ap).
Proof.
  intros Hbase Hw Hf Hfl Hany t. unfold int_prefix. destruct (Z.eqb_spec i 48) as [->|Hi].
  2: { assert (field_base need_percent_b base t = (if base =? 0 then 10 else base, 0%nat)) as ->.
       { unfold field_base, hex_prefix, bin_prefix. subst t. cbn [starts]. rewrite (proj2 (Z.eqb_neq i 48)) by done. cbn [andb]. by rewrite andb_false_r. }
       cbn [drop Nat.eqb andb Nat.add]. intros Hfit. eapply t_bind; [apply t_ret|]. cbv iota beta.
       set (b := if base =? 0 then 10 else base). assert (2 <= b <= 36) as Hb by (subst b; destruct (Z.eqb_spec base 0); lia).
       pose proof (t_digits_and_put b i l w flags eof Hb Hw Hf Hfl) as Hd. rewrite Hany in Hd. by apply Hd. }
  destruct (takez (w - 1) l) as [|c t'] eqn:Et.
  - (* the digit 0 alone *)
    assert (field_base need_percent_b base t = (if base =? 0 then 8 else base, 0%nat)) as ->.
    { unfold field_base, hex_prefix, bin_prefix. subst t. cbn [starts tail]. by rewrite !andb_false_r. }
    set (b := if base =? 0 then 8 else base). assert (2 <= b) as Hb by (subst b; destruct (Z.eqb_spec base 0); lia).
    subst t. cbn [drop Nat.eqb andb Nat.add digit_span]. change (digit_value 48) with (Some 0). cbv iota. rewrite (proj2 (Z.ltb_lt 0 b)) by lia.
    intros Hfit. eapply t_bind; [eapply t_bind; [by apply t_next_none|apply t_ret]|]. by apply t_store_zero; auto.
  - apply takez_cons_inv in Et as (l' & -> & -> & Hw'). cbn [length] in Hf. destruct (field_base need_percent_b base t) as [b k] eqn:Efb.
    cbv zeta. intros Hfit. apply t_assoc.
    eapply t_bind; [apply t_next_some; lia|]. cbv iota beta zeta.
    pose proof (int_flags_any _ Hfl) as Hfl'.
    assert (has (Z.lor flags FL_ANY) FL_ANY = true) as Hany' by (flag_bits; apply orb_true_r).
    apply t_got. intros Hc. rewrite tolower_x by done.
    assert (hex_prefix base t = ((c =? 120) || (c =? 88)) && ((base =? 0) || (base =? 16))) as Ehex by done.
    assert (bin_prefix need_percent_b base t = need_percent_b && ((c =? 98) && (base <=? 2))) as Ebin.
    { unfold bin_prefix. subst t. cbn [starts tail]. change (48 =? 48) with true. cbn [andb].
      by destruct Hbase as [-> | [-> | [-> | [-> | ->]]]]. }
    revert Efb Hfit. unfold field_base. rewrite Ehex, Ebin.
    destruct (((c =? 120) || (c =? 88)) && _).
    { intros [= <- <-] Hfit. subst t. cbn [drop Nat.eqb andb negb Nat.add] in *. rewrite after_cons by lia. apply t_after_prefix; lia || auto. }
    destruct (need_percent_b && _).
    { intros [= <- <-] Hfit. subst t. cbn [drop Nat.eqb andb negb Nat.add] in *. rewrite after_cons by lia. apply t_after_prefix; lia || auto. }
    intros Efb Hfit. assert ((if base =? 0 then 8 else base) = b /\ 0%nat = k) as [Eb0 <-] by (by injection Efb as <- <-). clear Efb.
    subst t. cbn [drop Nat.eqb andb negb Nat.add] in *. symmetry in Eb0. assert (2 <= b <= 36) as Hb by (rewrite Eb0; destruct (Z.eqb_spec base 0); lia).
    cbn [digit_span] in *. change (digit_value 48) with (Some 0) in *. cbv iota in Hfit |- *. rewrite (proj2 (Z.ltb_lt 0 b)) in * by lia.
    assert ((if (base =? 0) || (base =? 8) then 8 else base) = b) as Eb.
    { rewrite Eb0. destruct (Z.eqb_spec base 0), (Z.eqb_spec base 8); done. }
    pose proof (t_digits_and_put b c l' (w - 1) (Z.lor flags FL_ANY) eof Hb ltac:(lia) ltac:(lia) Hfl') as Hd.
    rewrite Hany' in Hd. cbn [length Nat.eqb negb orb] in *. rewrite after_cons by lia.
    apply (t_bind _ _ (Z.lor flags FL_ANY, Some (c, uwrap 32 (w - 1), b)) (got c l' eof m ap)); [|by apply Hd].
    rewrite <- Eb. destruct ((base =? 0) || (base =? 8)); apply t_ret.
Qed.

Lemma t_conv_int l w flags base eof :
  base = 0 \/ base = 2 \/ base = 8 \/ base = 10 \/ base = 16 ->
  l <> [] -> 1 <= w <= 2 ^ 32 -> (length l < fuel)%nat -> neg = starts 45 l ->
  putval_size flags = n -> has flags FL_MINUS = false -> has flags FL_ANY = false ->
  let '(v, k) := ref_int need_percent_b base w l in
  (is_Some v -> fits) ->
  triple (holds l eof m ap) (conv_int need_long_long need_percent_b fuel (uwrap 32 w) (cursor target 0) flags base)
    (if v is Some _ then 1 else 0)
    (holds (after w k l eof).1 (after w k l eof).2 (if v is Some v then put_target m target (bytes_of_int n v) else m) ap).
Proof.
  intros Hbase Hl Hw Hf Hneg Hn Hmin Hany. destruct l as [|i l]; [done|]. cbn [length] in Hf. unfold ref_int, conv_int.
  cbv zeta. cbn [starts] in *.
  destruct ((i =? 45) || (i =? 43)) eqn:Esign.
  - change (drop 1 (i :: l)) with l. destruct (takez (w - Z.of_nat 1) l) as [|c t] eqn:Et.
    + assert (field_base need_percent_b base [] = (if base =? 0 then 10 else base, 0%nat)) as -> by (unfold field_base, hex_prefix, bin_prefix; cbn [starts andb]; by rewrite andb_false_r).
      cbn [drop digit_span length Nat.eqb andb]. intros _. eapply t_bind; [apply t_getc|]. unfold int_sign. rewrite Esign.
      eapply t_bind; [eapply t_bind; [by apply t_next_none|apply t_ret]|]. apply t_ret.
    + apply takez_cons_inv in Et as (l' & -> & -> & Hw'). cbn [length] in Hf.
      assert (int_flags (if i =? 45 then Z.lor flags FL_MINUS else flags)) as Hfl.
      { split; [destruct (i =? 45); [by rewrite putval_size_lor by auto|done]|]. rewrite Hneg. destruct (i =? 45); [flag_bits; by rewrite orb_true_r|done]. }
      assert (has (if i =? 45 then Z.lor flags FL_MINUS else flags) FL_ANY = false) as Hany'
        by (destruct (i =? 45); [flag_bits; by rewrite Hany|done]).
      pose proof (t_int_field c l' (w - 1) _ base eof Hbase ltac:(lia) ltac:(lia) Hfl Hany') as Hd. cbv zeta in Hd. change (Z.of_nat 1) with 1.
      destruct (field_base need_percent_b base (c :: takez (w - 1 - 1) l')) as [b k2].
      set (ds := digit_span b (drop k2 (c :: takez (w - 1 - 1) l'))) in *.
      rewrite <- Hneg. destruct ((k2 =? 0)%nat && (length ds =? 0)%nat) eqn:Eok; cbn [negb] in Hd; rewrite <- ?Nat.add_assoc; cbn [Nat.add];
        intros Hfit; rewrite after_cons by lia; (eapply t_bind; [apply t_getc|]); unfold int_sign; rewrite Esign;
        (eapply t_bind; [eapply t_bind; [apply t_next_some; lia|apply t_ret]|]); cbv iota beta.
      * apply andb_true_iff in Eok as [E1%Nat.eqb_eq E2%Nat.eqb_eq]. rewrite E1, E2 in Hd. by apply Hd.
      * by apply Hd; eauto.
  - change (drop 0 (i :: l)) with (i :: l). rewrite Z.sub_0_r, takez_cons by lia.
    assert (int_flags flags) as Hfl by (split; [done|]; rewrite Hneg, Hmin; by destruct (i =? 45)).
    pose proof (t_int_field i l w flags base eof Hbase ltac:(lia) ltac:(lia) Hfl Hany) as Hd. cbv zeta in Hd.
    destruct (field_base need_percent_b base (i :: takez (w - 1) l)) as [b k2].
    set (ds := digit_span b (drop k2 (i :: takez (w - 1) l))) in *.
    rewrite <- Hneg. cbn [Nat.add].
    destruct ((k2 =? 0)%nat && (length ds =? 0)%nat) eqn:Eok; cbn [negb] in Hd; intros Hfit; (eapply t_bind; [apply t_getc|]); unfold int_sign; rewrite Esign;
      (eapply t_bind; [apply t_ret|]); cbv iota beta.
    + apply andb_true_iff in Eok as [E1%Nat.eqb_eq E2%Nat.eqb_eq]. rewrite E1, E2 in Hd. by apply Hd.
    + by apply Hd; eauto.
Qed.
End one_int.
(** ** Scan sets *)

Lemma citem_text_head items rest : exists f t, flat_map citem_text items ++ 93 :: rest = f :: t.
Proof. destruct items as [|[c|lo hi] items]; simpl; eauto. Qed.

Lemma eq_between wi c : ((c <=? wi) && (wi <=? c)) = (wi =? c).
Proof. destruct (Z.leb_spec c wi), (Z.leb_spec wi c), (Z.eqb_spec wi c); try done; lia. Qed.

Lemma scanset_spec wi rest items : forall first cabove fmatch (st : sst S),
  items_ok first items = true -> (first = true -> items <> []) ->
  scanset wi first false cabove fmatch (flat_map citem_text items ++ 93 :: rest) st = Some (Some (rest, fmatch || existsb (in_item wi) items), st).
Proof.
  induction items as [|i items IH]; intros first cabove fmatch st Hok Hne.
  - destruct first; [by destruct Hne|]. cbn. by rewrite orb_false_r.
  - cbn [items_ok] in Hok. apply andb_true_iff in Hok as [Hi Hok]. cbn [flat_map existsb].
    destruct (citem_text_head items rest) as (f' & t & Et).
    destruct i as [c|lo hi]; cbn [citem_text app in_item].
    + cbn [scanset]. rewrite Et. rewrite !andb_true_iff in Hi. destruct Hi as ((Hc0 & _) & Hf). rewrite (proj2 (Z.eqb_neq c 0)) by lia.
      assert (negb first && (c =? 93) = false) as -> by (destruct first; [done|]; cbn [orb] in Hf; apply andb_true_iff in Hf as [Hf _]; by apply negb_true_iff in Hf).
      assert (negb first && ((c =? 45) && negb false && negb (f' =? 93)) = false) as ->.
      { destruct first; [done|]. cbn [negb andb orb] in *. apply andb_true_iff in Hf as [_ Hf]. destruct (c =? 45); [|done]. cbn [negb orb andb] in *.
        apply Nat.eqb_eq, length_zero_iff_nil in Hf. subst items. injection Et as <- _. done. }
      rewrite eq_between, <- Et, IH by done. do 3 f_equal. destruct (wi =? c); [by rewrite orb_true_r|done].
    + rewrite !andb_true_iff in Hi. destruct Hi as ((((Hlo & Hle) & Hhi) & H93) & Hf). rewrite Z.leb_le, !Z.ltb_lt in *.
      cbn [scanset]. rewrite (proj2 (Z.eqb_neq lo 0)) by lia.
      assert (negb first && (lo =? 93) = false) as -> by (destruct first; [done|]; cbn [orb] in Hf; apply andb_true_iff in Hf as [Hf _]; by apply negb_true_iff in Hf).
      assert (negb first && ((lo =? 45) && negb false && negb (45 =? 93)) = false) as ->.
      { destruct first; [done|]. cbn [negb andb orb] in *. apply andb_true_iff in Hf as [_ Hf]. by destruct (lo =? 45). }
      change (45 =? 0) with false. change (45 =? 93) with false. cbn [negb andb]. change (45 =? 45) with true. rewrite H93. cbn [negb andb].
      rewrite (proj2 (Z.eqb_neq hi 0)) by lia. apply negb_true_iff in H93. rewrite H93, Et. rewrite andb_false_r. cbn [andb].
      rewrite eq_between, <- Et, IH by done. do 3 f_equal. destruct (Z.leb_spec lo wi), (Z.leb_spec wi hi), (Z.eqb_spec wi lo); cbn [andb]; try lia;
        rewrite ?orb_true_r, ?orb_false_r; done.
Qed.

(** ** Characters *)

Lemma t_terminate l eof m ap target t (k : Z) n :
  target_ok m target n -> Z.of_nat (length t) < n ->
  triple (holds l eof (put_target m target t) ap) (run putmb (cursor target (length t)) 0; ret k) k
    (holds l eof (put_target m target (t ++ [0])) ap).
Proof. intros Ht Hn. eapply t_bind; [by eapply t_putmb|apply t_ret]. Qed.

Lemma nonempty_app (t : list Z) c : negb (length (t ++ [c]) =? 0)%nat = true.
Proof. rewrite length_app. cbn [length]. rewrite Nat.add_comm. done. Qed.

Section chars.
Variables (fuel : nat) (m : mem) (ap : list Z) (target : option Z) (n : Z).
Hypothesis target_room : target_ok m target n.

(** [%s] *)
Lemma t_scan_string l w fmt eof :
  let t := span (fun c => negb (isspace c)) (takez w l) in
  1 <= w <= 2 ^ 32 -> (length l < fuel)%nat -> Z.of_nat (length t) < n ->
  triple (holds l eof m ap) (scan_string fuel (uwrap 32 w) (cursor target 0) fmt) (Converted 1 fmt)
    (holds (after w (length t) l eof).1 (after w (length t) l eof).2 (put_target m target (t ++ [0])) ap).
Proof.
  intros t Hw Hf Hn. unfold scan_string.
  eapply (t_bind _ _ (cursor target (length t)) (holds (after w (length t) l eof).1 (after w (length t) l eof).2 (put_target m target t) ap)).
  - replace m with (put_target m target []) at 1 by (by destruct target).
    apply (chars_run _ (fun c => negb (isspace c)) (fun w t => (uwrap 32 w, cursor target (length t))) (fun t => cursor target (length t)) m ap target n)
      with (t := []); [..|lia|done|fold t; simpl; lia].
    + intros w' t' eof' m'. eapply t_bind; [apply t_getc_end|]. apply t_ret.
    + intros w' t' c l' eof' m' Hc%negb_false_iff. eapply t_bind; [apply t_getc|]. apply t_got. intros Hb. rewrite byte_not_eof, Hc by done.
      eapply t_bind; [apply t_ungetc|apply t_ret].
    + intros w' t' c l' eof' Hc%negb_true_iff Hw' Hn'. eapply t_bind; [apply t_getc|]. apply t_got. intros Hb. rewrite byte_not_eof, Hc by done.
      eapply t_take; [done|done|]. intros _. cbv zeta. rewrite uwrap32_pred, uwrap32_zero by lia. destruct (w' =? 1); apply t_ret.
  - eapply t_bind; [by eapply t_putmb|]. apply t_ret.
Qed.

(** [%c] *)
Lemma t_scan_chars l w fmt eof :
  let t := takez w l in
  1 <= w <= 2 ^ 32 -> (length l < fuel)%nat -> Z.of_nat (length t) <= n ->
  triple (holds l eof m ap) (scan_chars fuel (uwrap 32 w) (cursor target 0) fmt) (if t is [] then ConvEof else Converted 1 fmt)
    (holds (after w (length t) l eof).1 (after w (length t) l eof).2 (put_target m target t) ap).
Proof.
  intros t Hw Hf Hn. unfold scan_chars.
  assert (forall l0, span (fun _ => true) l0 = l0) as Esp by (intros l0; induction l0; simpl; congruence).
  assert (span (fun _ => true) (takez w l) = t) as Et by apply Esp. clearbody t.
  assert ((if t is [] then ConvEof else Converted 1 fmt) = (if negb (length t =? 0)%nat then Converted 1 fmt else ConvEof)) as -> by (by destruct t).
  subst t. replace m with (put_target m target []) at 1 by (by destruct target).
  apply (chars_run _ (fun _ => true) (fun w t => (uwrap 32 w, cursor target (length t), negb (length t =? 0)%nat))
    (fun t => if negb (length t =? 0)%nat then Converted 1 fmt else ConvEof) m ap target n) with (t := []); [..|lia|done|done].
  - intros w' t' eof' m'. eapply t_bind; [apply t_getc_end|]. apply t_ret.
  - done.
  - intros w' t' c l' eof' _ Hw' Hn'. rewrite nonempty_app. eapply t_bind; [apply t_getc|]. apply t_got. intros Hb. rewrite byte_not_eof by done.
    eapply t_take; [done|done|]. intros _. cbv zeta. rewrite uwrap32_pred, uwrap32_zero by lia. destruct (w' =? 1); apply t_ret.
Qed.

(** Scan sets *)
Lemma t_conv_brk l w neg items fmt eof :
  let t := span (in_set neg items) (takez w l) in
  set_ok neg items = true -> 1 <= w <= 2 ^ 32 -> (length l < fuel)%nat -> 0 <= n -> (t <> [] -> Z.of_nat (length t) < n) ->
  triple (holds l eof m ap)
    (conv_brk fuel (uwrap 32 w) (cursor target 0) ((if neg then [94] else []) ++ flat_map citem_text items ++ 93 :: fmt))
    (if t is [] then None else Some fmt)
    (holds (after w (length t) l eof).1 (after w (length t) l eof).2 (if t is [] then m else put_target m target (t ++ [0])) ap).
Proof.
  intros t Hok Hw Hf Hn0 Hn. apply andb_true_iff in Hok as [Hit Hhd].
  assert (conv_brk (S := S) fuel (uwrap 32 w) (cursor target 0) ((if neg then [94] else []) ++ flat_map citem_text items ++ 93 :: fmt) =
    do x <- loop (brk_step neg (flat_map citem_text items ++ 93 :: fmt)) fuel (uwrap 32 w, cursor target 0, false);
    match x with
    | None => ret None
    | Some (fmt, addr, fany) => if negb fany then ret None else run putmb addr 0; ret (Some fmt)
    end) as ->.
  { destruct neg; [done|]. destruct items as [|[c|c hi] items]; [done|..]; cbn [orb] in Hhd; apply negb_true_iff in Hhd;
      cbn [app flat_map citem_text conv_brk]; by rewrite Hhd. }
  assert (items <> []) as Hne by by destruct items.
  assert (forall wi (st : sst S), scanset wi true false 0 false (flat_map citem_text items ++ 93 :: fmt) st =
    Some (Some (fmt, existsb (in_item wi) items), st)) as Hset by (intros wi st; by rewrite scanset_spec).
  eapply (t_bind _ _ (Some (fmt, cursor target (length t), negb (length t =? 0)%nat))
    (holds (after w (length t) l eof).1 (after w (length t) l eof).2 (put_target m target t) ap)).
  - replace m with (put_target m target []) at 1 by (by destruct target).
    apply (chars_run (brk_step neg (flat_map citem_text items ++ 93 :: fmt)) (in_set neg items)
      (fun w t => (uwrap 32 w, cursor target (length t), negb (length t =? 0)%nat))
      (fun t => Some (fmt, cursor target (length t), negb (length t =? 0)%nat)) m ap target n) with (t := []); [..|lia|done|fold t; simpl; destruct t; [simpl; lia|apply Z.lt_le_incl; by apply Hn]].
    + intros w' t' eof' m'. eapply t_bind; [apply t_getc_end|]. eapply t_bind; [intros st Hst; exists st; split; [apply Hset|exact Hst]|]. apply t_ret.
    + intros w' t' c l' eof' m' Hc. eapply t_bind; [apply t_getc|]. apply t_got. intros Hb.
      eapply t_bind; [intros st Hst; exists st; split; [apply Hset|exact Hst]|]. cbv iota beta. rewrite byte_not_eof by done.
      apply negb_false_iff in Hc. rewrite Hc. eapply t_bind; [apply t_ungetc|apply t_ret].
    + intros w' t' c l' eof' Hc Hw' Hn'. eapply t_bind; [apply t_getc|]. apply t_got. intros Hb.
      eapply t_bind; [intros st Hst; exists st; split; [apply Hset|exact Hst]|]. cbv iota beta. rewrite byte_not_eof by done.
      apply negb_true_iff in Hc. rewrite Hc, nonempty_app.
      eapply t_take; [done|done|]. intros _. cbv zeta. rewrite uwrap32_pred, uwrap32_zero by lia. destruct (w' =? 1); apply t_ret.
  - cbv iota beta. destruct t as [|c t'] eqn:Et; cbn [length Nat.eqb negb].
    + replace (put_target m target []) with m by (by destruct target). apply t_ret.
    + rewrite <- Et. change (Datatypes.S (length t')) with (length (c :: t')). rewrite <- Et in *. eapply t_bind; [eapply t_putmb; [done|apply Hn; by rewrite Et|done]|]. apply t_ret.
Qed.
End chars.
End scan_run.
