(* ===== verification/ScanfFormat.v ===== *)
(** * Formatted input: whole formats

    The specifications of a format and the loop over it: [vfscanf] computes
    [ref_scan]. *)

From stdpp Require Import base list gmap.
From Stdlib Require Import ZArith Lia.
From S2P Require Import Prelude CMem CInt Convert Strto Stdio PrintfSpec Scanf ScanfSpec ScanfRun.

Local Open Scope Z_scope.

(** The first character of a conversion and what follows it in the format. *)
Definition conv_hd (c : sconv) : Z :=
  match c with ScInt c => conv_char c | ScStr => 115 | ScChars => 99 | ScCount => 110 | ScSet _ _ => 91 end.
Definition conv_tl (c : sconv) : list Z :=
  match c with ScSet neg items => (if neg then [94] else []) ++ flat_map citem_text items ++ [93] | _ => [] end.

Lemma sconv_text_eq c : sconv_text c = conv_hd c :: conv_tl c.
Proof. by destruct c. Qed.

Definition not_digit (c : Z) : Prop := is_byte c /\ (c < 48 \/ 57 < c).

Section scan_format.
Context `{Arch}.
Variables (need_long_long need_c99 need_percent_b need_bracket : bool).
Context {S : Type} `{GetStreamOk S}.
Variables (tot : Z) (r : Z * Z).
Hypothesis tot_max : tot <= INT_MAX.
Variable fuel : nat.

Abbreviation M A := (C (sst S) A).
Abbreviation holds := (holds tot r).

Lemma t_pure {A} (P : sst S -> Prop) (c : M A) a : (forall st, c st = Some (a, st)) -> triple P c a P.
Proof. intros Hc st Hp. by exists st. Qed.

(** ** Widths and sizes *)

Definition digits_flags (n : list Z) (flags : Z) : Z := if n is [] then flags else Z.lor flags FL_WIDTH.

Lemma width_loop c' fmt n : not_digit c' -> Forall (fun d => 0 <= d <= 9) n -> forall f flags v (st : sst S), (length n < f)%nat ->
  loop (fun '(c, flags, width, fmt) =>
      let c := uwrap 8 (c - 48) in
      if c <? 10 then
        do '(c', fmt) <- fetch fmt;
        ret (inl (c', Z.lor flags FL_WIDTH, uwrap 32 (width * 10 + c), fmt))
      else ret (inr (uwrap 8 (c + 48), flags, width, fmt))) f
    (hd 0 (dec_text n ++ c' :: fmt), flags, uwrap 32 v, tl (dec_text n ++ c' :: fmt)) st =
  Some ((c', digits_flags n flags, uwrap 32 (horner 10 v n), fmt), st).
Proof.
  intros [Hb Hc] Hn. induction Hn as [|d n Hd Hn IH]; intros [|f] flags v st Hf; simpl in Hf; try lia.
  - apply loop_stop. cbn [dec_text map app hd tl]. unfold is_byte in Hb.
    assert (uwrap 8 (uwrap 8 (c' - 48) + 48) = c') as E.
    { unfold uwrap. rewrite Zplus_mod_idemp_l. replace (c' - 48 + 48) with c' by lia. apply Z.mod_small. lia. }
    assert ((uwrap 8 (c' - 48) <? 10) = false) as ->.
    { apply Z.ltb_ge. destruct Hc; [|rewrite uwrap_small by lia; lia].
      unfold uwrap. rewrite <- (Z.mod_add _ 1) by lia. rewrite Z.mod_small by lia. lia. }
    cbv zeta iota. by rewrite E.
  - rewrite loop_S. cbn [dec_text map app hd tl]. fold (dec_text n). cbv zeta iota beta.
    replace (d + 48 - 48) with d by lia. rewrite (uwrap_small 8 d) by lia. rewrite (proj2 (Z.ltb_lt d 10)) by lia.
    specialize (IH f (Z.lor flags FL_WIDTH) (v * 10 + d) st ltac:(lia)).
    assert (uwrap 32 (uwrap 32 v * 10 + d) = uwrap 32 (v * 10 + d)) as ->
      by (unfold uwrap; by rewrite <- Zplus_mod_idemp_l, Zmult_mod_idemp_l, Zplus_mod_idemp_l).
    assert (digits_flags n (Z.lor flags FL_WIDTH) = Z.lor flags FL_WIDTH) as Efl by (destruct n; [done|]; cbn; by rewrite <- Z.lor_assoc, Z.lor_diag).
    rewrite Efl in IH. destruct (dec_text n ++ c' :: fmt) as [|x t] eqn:Et; [by destruct (dec_text n)|]. cbn [hd tl fetch] in *. exact IH.
Qed.

Lemma scan_width_spec c' fmt n flags (st : sst S) :
  not_digit c' -> Forall (fun d => 0 <= d <= 9) n -> horner 10 0 n < 2 ^ 32 -> (length n < fuel)%nat -> has flags FL_WIDTH = false ->
  scan_width fuel (hd 0 (dec_text n ++ c' :: fmt)) flags (tl (dec_text n ++ c' :: fmt)) st =
  Some ((c', digits_flags n flags, (if n is [] then 2 ^ 32 - 1 else horner 10 0 n), fmt), st).
Proof.
  intros Hc Hn Hv Hf Hfl. unfold scan_width. change 0 with (uwrap 32 0) at 2.
  rewrite (bind_eq _ _ _ _ _ (width_loop c' fmt n Hc Hn fuel flags 0 st Hf)). cbv iota beta.
  assert (has (digits_flags n flags) FL_WIDTH = negb (length n =? 0)%nat) as ->.
  { destruct n; [done|]. cbn [digits_flags length Nat.eqb negb]. flag_bits. apply orb_true_r. }
  assert (0 <= horner 10 0 n) by (apply horner_ge; [lia|lia|]; eapply Forall_impl; [exact Hn|simpl; lia]).
  rewrite (uwrap_small 32) by lia. by destruct n.
Qed.

Definition size_flags (s : fsize) (fl : Z) : Z :=
  match s with
  | SNone => fl
  | SHH => Z.lor (Z.lor fl FL_SHORT) FL_CHAR
  | SH => Z.lor fl FL_SHORT
  | SL => Z.lor fl FL_LONG
  | SLL => Z.lor (Z.lor fl FL_LONG) (FL_LONGLONG need_long_long)
  | SBigL => Z.lor fl (Z.lor FL_LONG (FL_LONGLONG need_long_long))
  | SJ => int_size_flags need_long_long fl 8
  | SZ | ST => int_size_flags need_long_long fl (Z.of_nat long_size)
  end.

(** A character that is no size. *)
Definition no_size (c : Z) : Prop :=
  (c =? 104) = false /\ (c =? 108) = false /\ (c =? 76) = false /\ (c =? 106) = false /\ (c =? 122) = false /\ (c =? 116) = false.

Lemma scan_size_spec s c fmt flags (st : sst S) :
  no_size c -> match s with SJ | SZ | ST => need_c99 | _ => true end = true ->
  scan_size need_long_long need_c99 (hd 0 (size_text s ++ c :: fmt)) flags (tl (size_text s ++ c :: fmt)) st = Some ((c, size_flags s flags, fmt), st).
Proof.
  intros (E1 & E2 & E3 & E4 & E5 & E6) Hc. unfold scan_size. destruct s; cbn [size_text app hd tl fetch]; try rewrite Hc.
  all: try (rewrite E1, E2, E3, E4, E5, E6; cbn [orb]; by rewrite andb_false_r).
  all: try (cbn; by rewrite ?E1, ?E2).
  all: done.
Qed.

Definition dir_flags (d : sdir) : Z :=
  size_flags (sd_size d) (digits_flags (sd_width d) (if sd_star d then FL_STAR else 0)).

Lemma dir_flags_spec d :
  has (dir_flags d) FL_STAR = sd_star d /\ has (dir_flags d) FL_WIDTH = negb (length (sd_width d) =? 0)%nat /\
  has (dir_flags d) FL_MINUS = false /\ has (dir_flags d) FL_ANY = false /\
  putval_size need_long_long (dir_flags d) = target_size need_long_long (sd_size d).
Proof.
  unfold dir_flags, digits_flags, putval_size, target_size, size_flags, int_size_flags, FL_LONGLONG, long_size.
  destruct d as [star width s c]. cbn [sd_star sd_width sd_size].
  destruct star, width, s, need_long_long, long64; vm_compute; done.
Qed.

(** ** Conversions *)

Definition store_ok (m : mem) (st : sstore) : Prop :=
  0 < st_addr st /\ st_addr st mod st_align st = 0 /\ mapped m (st_addr st) (Z.of_nat (length (st_bytes st))) /\
  disjoint_blk (st_addr st) (Z.of_nat (length (st_bytes st))) r.1 r.2.

(** [c] does what the outcome says. *)
Definition converts (o : outcome) (P : sst S -> Prop) (c : M conv_result) (fmt : list Z) (m : mem) (ap : list Z) : Prop :=
  match o with
  | Matched sts l eof => Forall (store_ok m) sts -> triple P c (Converted 1 fmt) (holds l eof (puts m sts) ap)
  | Mismatch l eof => exists fmt', triple P c (Converted 0 fmt') (holds l eof m ap)
  | InputEnd l => triple P c ConvEof (holds l true m ap)
  end.

Lemma converts_bind {A} o P Q (c : M A) a (k : A -> M conv_result) fmt m ap :
  triple P c a Q -> converts o Q (k a) fmt m ap -> converts o P (bind c k) fmt m ap.
Proof.
  intros Hc Hk. destruct o as [sts l eof|l eof|l]; simpl in *.
  - intros Hs. eapply t_bind; [exact Hc|auto].
  - destruct Hk as [fmt' Hk]. exists fmt'. by eapply t_bind.
  - by eapply t_bind.
Qed.

Lemma store_to_ok m target align bs :
  Forall (store_ok m) (store_to target align bs) -> target_ok r m target (Z.of_nat (length bs)) /\ aligned_to target align.
Proof.
  destruct target as [a|]; [|done]. simpl. intros (Ha & Hal & Hm & Hd)%Forall_inv. done.
Qed.

Lemma puts_store_to m target align bs : puts m (store_to target align bs) = put_target m target bs.
Proof. by destruct target. Qed.

Lemma takez_empty w l : 0 < w -> takez w l = [] -> l = [].
Proof. intros Hw. destruct l; [done|]. by rewrite takez_cons. Qed.

Lemma after_length w k l eof : (length (after w k l eof).1 <= length l)%nat.
Proof. unfold after. cbn [fst]. rewrite length_drop. lia. Qed.

Lemma field_width_range d : Forall (fun d => 0 <= d <= 9) (sd_width d) -> dec_value (sd_width d) < 2 ^ 32 -> 1 <= field_width d <= 2 ^ 32.
Proof.
  intros Hn Hv. assert (0 <= dec_value (sd_width d)) by (apply horner_ge; [lia|lia|]; eapply Forall_impl; [exact Hn|simpl; lia]).
  unfold field_width. destruct (sd_width d) as [|x n] in *; [destruct (sd_conv d); lia|].
  destruct (Z.eqb_spec (dec_value (x :: n)) 0); lia.
Qed.

(** The width in the code. *)
Lemma field_width_code d :
  Forall (fun d => 0 <= d <= 9) (sd_width d) -> dec_value (sd_width d) < 2 ^ 32 ->
  let width := if sd_width d is [] then 2 ^ 32 - 1 else horner 10 0 (sd_width d) in
  uwrap 32 (field_width d) = match sd_conv d with ScChars => if negb (length (sd_width d) =? 0)%nat then width else 1 | _ => width end.
Proof.
  intros Hn Hv width. assert (0 <= dec_value (sd_width d)) by (apply horner_ge; [lia|lia|]; eapply Forall_impl; [exact Hn|simpl; lia]).
  subst width. unfold field_width. destruct (sd_width d) as [|x n] in *; [by destruct (sd_conv d)|]. cbn [length Nat.eqb negb].
  assert (uwrap 32 (if dec_value (x :: n) =? 0 then 2 ^ 32 else dec_value (x :: n)) = horner 10 0 (x :: n)) as ->.
  { destruct (Z.eqb_spec (dec_value (x :: n)) 0) as [E|E]; [unfold dec_value in E; rewrite E; reflexivity|]. apply (uwrap_small 32 (dec_value (x :: n))). lia. }
  by destruct (sd_conv d).
Qed.

Section one_conversion.
Variables (d : sdir) (target : option Z) (fmt : list Z) (m : mem) (ap : list Z).
Hypothesis d_ok : sdir_ok need_c99 need_percent_b need_bracket d = true.

Abbreviation width := (if sd_width d is [] then 2 ^ 32 - 1 else horner 10 0 (sd_width d)).
Abbreviation convert_d := (convert need_long_long need_percent_b need_bracket fuel (conv_hd (sd_conv d)) (dir_flags d) width (cursor target 0)
  (conv_tl (sd_conv d) ++ fmt)).

Lemma dir_ok_width : Forall (fun d => 0 <= d <= 9) (sd_width d) /\ dec_value (sd_width d) < 2 ^ 32.
Proof.
  unfold sdir_ok in d_ok. rewrite !andb_true_iff in d_ok. destruct d_ok as (((Hn & Hv) & _) & _). split; [|lia].
  rewrite forallb_forall in Hn. apply Forall_forall. intros x Hx%list_elem_of_In. specialize (Hn x Hx). lia.
Qed.

(** The conversions that skip white space. *)
Lemma span_drop_head f l x l' : drop (length (span f l)) l = x :: l' -> f x = false.
Proof. induction l as [|y l IH]; simpl; [done|]. destruct (f y) eqn:E; [exact IH|]. simpl. by intros [= -> _]. Qed.

Lemma converts_skipping l eof (k : list Z -> outcome) (c : M conv_result) :
  (length l < fuel)%nat -> Z.of_nat (length l) <= tot ->
  (forall x l', (length (x :: l') <= length l)%nat -> isspace x = false -> converts (k (x :: l')) (holds (x :: l') false m ap) c fmt m ap) ->
  converts (skipping l k) (holds l eof m ap) (do i <- skip_spaces fuel; if i <? 0 then ret ConvEof else c) fmt m ap.
Proof.
  intros Hf Hl Hk. unfold INT_MAX in tot_max. pose proof (t_skip_spaces tot r tot_max l fuel eof m ap Hf ltac:(lia)) as Hs. cbv zeta in Hs.
  pose proof (span_length isspace l). unfold after in Hs. cbn [fst snd] in Hs. rewrite (proj2 (Z.eqb_neq _ (2 ^ 32))) in Hs by lia.
  pose proof (length_drop l (length (span isspace l))) as Hlen. unfold skipping.
  destruct (drop (length (span isspace l)) l) as [|x l'] eqn:Ed.
  - eapply converts_bind; [exact Hs|]. apply t_ret.
  - assert (converts (k (x :: l')) (holds (x :: l') false m ap) (if x <? 0 then ret ConvEof else c) fmt m ap) as Hc.
    { destruct (Z.ltb_spec x 0) as [Hx|Hx]; [|apply Hk; [lia|by eapply span_drop_head]].
      assert (forall st, ~ holds (x :: l') false m ap st) as Hno.
      { intros st Hst%holds_bytes. inversion_clear Hst as [|? ? Hb _]. unfold is_byte in Hb. lia. }
      destruct (k (x :: l')); [intros _ st Hst|exists []; intros st Hst|intros st Hst]; by apply Hno in Hst. }
    eapply converts_bind; [exact Hs|exact Hc].
Qed.

(** Runs of characters. *)
Lemma converts_string l :
  sd_conv d = ScStr -> (length l < fuel)%nat -> Forall (fun c => isspace c = false) (take 1 l) -> l <> [] ->
  converts (ref_chars (fun c => negb (isspace c)) (field_width d) target l false) (holds l false m ap)
    (scan_string fuel width (cursor target 0) fmt) fmt m ap.
Proof.
  intros Ec Hf Hl Hne. destruct dir_ok_width as [Hn Hv]. pose proof (field_width_range d Hn Hv) as Hw.
  pose proof (field_width_code d Hn Hv) as Ew. rewrite Ec in Ew. cbv zeta in Ew. rewrite <- Ew.
  destruct l as [|x l]; [done|]. apply Forall_inv in Hl. unfold ref_chars.
  pose proof (t_scan_string tot r tot_max fuel m ap target) as Ht. specialize (fun n Hn => Ht n Hn (x :: l) (field_width d) fmt false).
  rewrite takez_cons in * by lia. cbn [span] in *. rewrite Hl in *. cbn [negb] in *.
  set (t := x :: span (fun c => negb (isspace c)) (takez (field_width d - 1) l)) in *. unfold after in *. cbn [fst snd] in *.
  cbv zeta in Ht. change (x :: span (fun c => negb (isspace c)) (takez (field_width d - 1) l)) with t. intros Hs. apply store_to_ok in Hs as [Hs _].
  rewrite puts_store_to. rewrite length_app in Hs. cbn [length] in Hs. apply (Ht _ Hs); [done|done|]. rewrite Nat2Z.inj_add. simpl. lia.
Qed.

Lemma converts_set l eof neg items :
  sd_conv d = ScSet neg items -> (length l < fuel)%nat ->
  converts (ref_chars (in_set neg items) (field_width d) target l eof) (holds l eof m ap)
    (do x <- conv_brk fuel width (cursor target 0) (conv_tl (sd_conv d) ++ fmt);
     ret (match x with Some fmt => Converted 1 fmt | None => Converted 0 [] end)) fmt m ap.
Proof.
  intros Ec Hf. destruct dir_ok_width as [Hn Hv]. pose proof (field_width_range d Hn Hv) as Hw.
  pose proof (field_width_code d Hn Hv) as Ew. rewrite Ec in Ew. cbv zeta in Ew. rewrite <- Ew, Ec. cbn [conv_tl]. rewrite <- !app_assoc. cbn [app].
  assert (set_ok neg items = true) as Hset by (unfold sdir_ok in d_ok; rewrite Ec, !andb_true_iff in d_ok; tauto).
  unfold ref_chars. pose proof (fun n Hn => t_conv_brk tot r tot_max fuel m ap target n Hn l (field_width d) neg items fmt eof Hset Hw Hf) as Ht.
  set (t := span (in_set neg items) (takez (field_width d) l)) in *. unfold after in *. cbn [fst snd] in *. clearbody t. destruct t as [|x t].
  - exists []. eapply t_bind; [apply (Ht 0)|apply t_ret]; [by destruct target|lia|done].
  - intros Hs. apply store_to_ok in Hs as [Hs _]. rewrite puts_store_to. eapply t_bind; [apply (Ht _ Hs)|apply t_ret]; [lia|].
    intros _. rewrite length_app, Nat2Z.inj_add. simpl. lia.
Qed.

Lemma converts_chars l eof :
  sd_conv d = ScChars -> (length l < fuel)%nat ->
  converts (match takez (field_width d) l with
            | [] => InputEnd []
            | t => let '(l', eof') := after (field_width d) (length t) l eof in Matched (store_to target 1 t) l' eof'
            end) (holds l eof m ap)
    (scan_chars fuel (if has (dir_flags d) FL_WIDTH then width else 1) (cursor target 0) fmt) fmt m ap.
Proof.
  intros Ec Hf. destruct dir_ok_width as [Hn Hv]. pose proof (field_width_range d Hn Hv) as Hw.
  pose proof (field_width_code d Hn Hv) as Ew. rewrite Ec in Ew. cbv zeta in Ew. rewrite (proj1 (proj2 (dir_flags_spec d))), <- Ew.
  pose proof (fun n Hn => t_scan_chars tot r tot_max fuel m ap target n Hn l (field_width d) fmt eof) as Ht. cbv zeta in Ht.
  destruct (takez (field_width d) l) as [|x t] eqn:Et.
  - apply takez_empty in Et as ->; [|lia]. specialize (Ht 0 ltac:(by destruct target) Hw ltac:(simpl in *; lia) ltac:(simpl; lia)).
    unfold after in Ht. cbn [drop length fst snd] in Ht. rewrite (proj2 (Z.eqb_neq _ (field_width d))) in Ht by lia.
    replace (put_target m target []) with m in Ht by (by destruct target). exact Ht.
  - unfold after in *. cbn [fst snd] in *. intros Hs. apply store_to_ok in Hs as [Hs _]. rewrite puts_store_to. by apply (Ht _ Hs).
Qed.

(** Integers: the flags and the base. *)
Definition int_conv (c flags : Z) : Z * Z :=
  if (c =? 100) || (c =? 117) then (flags, 10)
  else if need_percent_b && (c =? 98) then (flags, 2)
  else if c =? 111 then (flags, 8)
  else if c =? 105 then (flags, 0)
  else if c =? 112 then (if long64 then Z.lor flags FL_LONG else flags, 16)
  else (flags, 16).

Lemma int_conv_spec c :
  sd_conv d = ScInt c ->
  let '(flags, base) := int_conv (conv_char c) (dir_flags d) in
  base = int_base c /\ putval_size need_long_long flags = int_target need_long_long c (sd_size d) /\
  has flags FL_MINUS = false /\ has flags FL_ANY = false.
Proof.
  intros Ec. destruct (dir_flags_spec d) as (_ & _ & Hm & Ha & Hp). unfold sdir_ok in d_ok. rewrite Ec in d_ok.
  apply andb_true_iff in d_ok as [_ Hc]. destruct c; try done; unfold int_conv; cbn [conv_char Z.eqb Pos.eqb orb andb]; rewrite ?andb_false_r; try done.
  - destruct (sd_size d) eqn:Es; try done. cbn [int_target]. unfold target_size in Hp. split; [done|].
    unfold putval_size, FL_LONGLONG, long_size in *. destruct long64; [|done]. split_and!; [|flag_bits; by rewrite Hm|flag_bits; by rewrite Ha].
    clear Hp. unfold dir_flags. rewrite Es. cbn [size_flags]. destruct need_long_long, (sd_star d), (sd_width d); vm_compute; done.
  - by rewrite Hc.
Qed.

Lemma converts_int c l :
  sd_conv d = ScInt c -> (length l < fuel)%nat -> l <> [] ->
  converts (let '(v, k) := ref_int need_percent_b (int_base c) (field_width d) l in
            let '(l', eof') := after (field_width d) k l false in
            match v with
            | Some v => let k := int_target need_long_long c (sd_size d) in Matched (store_to target (Z.of_nat k) (bytes_of_int k v)) l' eof'
            | None => Mismatch l' eof'
            end) (holds l false m ap)
    (let '(flags, base) := int_conv (conv_char c) (dir_flags d) in
     do c <- conv_int need_long_long need_percent_b fuel width (cursor target 0) flags base; ret (Converted c fmt)) fmt m ap.
Proof.
  intros Ec Hf Hne. destruct dir_ok_width as [Hn Hv]. pose proof (field_width_range d Hn Hv) as Hw.
  pose proof (field_width_code d Hn Hv) as Ew. rewrite Ec in Ew. cbv zeta in Ew. rewrite <- Ew.
  pose proof (int_conv_spec c Ec) as Hi. destruct (int_conv (conv_char c) (dir_flags d)) as [flags base]. destruct Hi as (-> & Hp & Hm & Ha).
  assert (int_base c = 0 \/ int_base c = 2 \/ int_base c = 8 \/ int_base c = 10 \/ int_base c = 16) as Hb by (destruct c; simpl; auto).
  pose proof (t_conv_int need_long_long need_percent_b tot r tot_max fuel target m ap (int_target need_long_long c (sd_size d)) (starts 45 l)
    l (field_width d) flags (int_base c) false Hb Hne Hw Hf eq_refl Hp Hm Ha) as Ht.
  destruct (ref_int need_percent_b (int_base c) (field_width d) l) as [[v|] k]; unfold after in *; cbn [fst snd] in *.
  - intros Hs. apply store_to_ok in Hs as [Hs Hal]. rewrite bytes_of_int_length in Hs. rewrite puts_store_to.
    eapply t_bind; [apply Ht; intros _; split; [exact Hs|exact Hal]|apply t_ret].
  - exists fmt. eapply t_bind; [apply Ht; by intros []|apply t_ret].
Qed.

Lemma converts_d l eof n :
  sd_conv d <> ScCount -> (length l < fuel)%nat -> Z.of_nat (length l) <= tot ->
  converts (ref_conv need_long_long need_percent_b d target n l eof) (holds l eof m ap) convert_d fmt m ap.
Proof.
  intros Hc Hf Hl. unfold ref_conv, convert. destruct (sd_conv d) as [c| | | |neg items] eqn:Ec; try done.
  - cbn [conv_hd]. assert ((conv_char c =? 99) = false /\ (conv_char c =? 91) = false /\ (conv_char c =? 115) = false) as (-> & -> & Es).
    { unfold sdir_ok in d_ok. rewrite Ec in d_ok. apply andb_true_iff in d_ok as [_ Hok]. by destruct c. }
    rewrite andb_false_r. cbn [conv_tl app]. rewrite Es. apply (converts_skipping l eof); [done|done|]. intros x l' Hl' _. apply converts_int; [done|lia|done].
  - cbn [conv_hd conv_tl app]. change (115 =? 99) with false. change (115 =? 91) with false. rewrite andb_false_r. change (115 =? 115) with true.
    apply (converts_skipping l eof); [done|done|]. intros x l' Hl' Hx. apply converts_string; [done|lia| |done]. simpl. by constructor.
  - cbn [conv_hd conv_tl app]. change (99 =? 99) with true. by apply converts_chars.
  - assert (need_bracket = true) as Hnb by (unfold sdir_ok in d_ok; rewrite Ec, !andb_true_iff in d_ok; tauto).
    cbn [conv_hd]. change (91 =? 99) with false. change (91 =? 91) with true. rewrite Hnb. cbn [andb]. rewrite <- Ec. by eapply converts_set.
Qed.
End one_conversion.

(** ** Specifications *)

Definition outcome_state (o : outcome) (m : mem) (ap : list Z) : sst S -> Prop :=
  match o with
  | Matched sts l eof => holds l eof (puts m sts) ap
  | Mismatch l eof => holds l eof m ap
  | InputEnd l => holds l true m ap
  end.

Definition outcome_ok (o : outcome) (m : mem) : Prop :=
  match o with Matched sts _ _ => Forall (store_ok m) sts | _ => True end.

(** The number of conversions after a successful one. *)
Definition counted (d : sdir) (n : Z) : Z :=
  match sd_conv d with ScCount => n | _ => if sd_star d then n else n + 1 end.

Definition outcome_result (o : outcome) (d : sdir) (fmt : list Z) (n : Z) : piece_result :=
  match o with
  | Matched _ _ _ => Go fmt (counted d n)
  | Mismatch _ eof => if eof && (n =? 0) then AtEof n else Stop n
  | InputEnd _ => AtEof n
  end.

Lemma t_flags l eof m ap (n : Z) :
  triple (holds l eof m ap)
    (do fl <- in_stream (fun s => Some (g_flags s, s));
     if negb (Z.land fl __SERR =? 0) || (negb (Z.land fl __SEOF =? 0) && (n =? 0)) then ret (AtEof n) else ret (Stop n))
    (if eof && (n =? 0) then AtEof n else Stop n) (holds l eof m ap).
Proof.
  intros [s k a] (b & Hr & Hm). exists (Sst s k a). split; [|by exists b]. unfold bind, in_stream. cbn [s_stream scanf_len s_ap] in *.
  rewrite (gs_err _ _ _ _ _ Hr), (gs_eof _ _ _ _ _ Hr). cbn [Z.eqb negb orb]. by destruct (eof && (n =? 0)).
Qed.

Lemma t_va_pointer l eof m a ap : triple (holds l eof m (a :: ap)) va_pointer a (holds l eof m ap).
Proof.
  intros [s k x] (b & Hr & Hm & Hn & Hl & Ha). cbn [s_stream scanf_len s_ap] in *. subst x.
  exists (Sst s k ap). split; [done|]. exists b. repeat split; done.
Qed.

Lemma t_scanf_len l eof m ap :
  triple (holds l eof m ap) (fun st => Some (scanf_len st, st)) (tot - Z.of_nat (length l)) (holds l eof m ap).
Proof. intros st (b & Hr & Hm & Hn & Hl & Ha). exists st. rewrite Hn. split; [done|]. by exists b. Qed.

Lemma conv_hd_spec d :
  sdir_ok need_c99 need_percent_b need_bracket d = true ->
  let c := conv_hd (sd_conv d) in
  not_digit c /\ no_size c /\ (c =? 42) = false /\ (c =? 0) = false /\ existsb (Z.eqb c) (CNV_LIST need_percent_b need_bracket) = true /\
  (c =? 110) = match sd_conv d with ScCount => true | _ => false end.
Proof.
  intros Hok. apply andb_true_iff in Hok as [_ Hc]. unfold not_digit, no_size, is_byte.
  destruct (sd_conv d) as [c| | | |neg items]; try destruct c; simpl in *; try done.
  all: try (split_and!; done || lia).
  - by rewrite Hc; split_and!; done || lia.
  - rewrite !andb_true_iff in Hc. destruct Hc as ((-> & _) & _).
    split_and!; try (done || lia). rewrite existsb_app. apply orb_true_r.
Qed.

(** The first character behind the width. *)
Lemma size_hd s c fmt : not_digit c -> exists x, size_text s ++ c :: fmt = x :: tl (size_text s ++ c :: fmt) /\ not_digit x /\ (x =? 42) = (if s is SNone then c =? 42 else false).
Proof. intros Hc. unfold not_digit, is_byte in *. destruct s; cbn [size_text app tl]; eexists; (split; [reflexivity|]); (split; [lia|done]). Qed.

Lemma dec_hd n x t : Forall (fun d => 0 <= d <= 9) n -> exists c, dec_text n ++ x :: t = c :: tl (dec_text n ++ x :: t) /\ (c =? 42) = (if n is [] then x =? 42 else false).
Proof. intros Hn. destruct Hn as [|d n Hd _]; cbn [dec_text map app tl]; eexists; (split; [reflexivity|]); [done|]. apply Z.eqb_neq. lia. Qed.

Abbreviation specification := (specification need_long_long need_c99 need_percent_b need_bracket fuel).

(** Up to the conversion character. *)
Lemma specification_text d fmt n (st : sst S) :
  sdir_ok need_c99 need_percent_b need_bracket d = true -> (length (sd_width d) < fuel)%nat ->
  let c := conv_hd (sd_conv d) in
  let width := if sd_width d is [] then 2 ^ 32 - 1 else horner 10 0 (sd_width d) in
  specification (hd 0 (sdir_text d ++ fmt)) (tl (sdir_text d ++ fmt)) n st =
  (do addr <- (if sd_star d then ret 0 else va_pointer);
   if c =? 110 then
     do k <- (fun st => Some (scanf_len st, st));
     run putval need_long_long addr (uwrap 32 k) (dir_flags d);
     ret (Go (conv_tl (sd_conv d) ++ fmt) n)
   else
     do r <- convert need_long_long need_percent_b need_bracket fuel c (dir_flags d) width addr (conv_tl (sd_conv d) ++ fmt);
     match r with
     | ConvEof => ret (AtEof n)
     | Converted c fmt =>
         if c =? 0 then
           do fl <- in_stream (fun s => Some (g_flags s, s));
           if negb (Z.land fl __SERR =? 0) || (negb (Z.land fl __SEOF =? 0) && (n =? 0)) then ret (AtEof n)
           else ret (Stop n)
         else ret (Go fmt (if negb (has (dir_flags d) FL_STAR) then uwrap 8 (n + 1) else n))
     end) st.
Proof.
  intros Hok Hf c width. destruct (dir_ok_width d Hok) as [Hn Hv]. destruct (conv_hd_spec d Hok) as (Hnd & Hns & H42 & H0' & Hin & _).
  destruct (dir_flags_spec d) as (Hstar & _).
  set (T2 := size_text (sd_size d) ++ c :: conv_tl (sd_conv d) ++ fmt). set (T1 := dec_text (sd_width d) ++ T2).
  assert (sdir_text d ++ fmt = (if sd_star d then [42] else []) ++ T1) as ->.
  { unfold sdir_text, T1, T2. rewrite sconv_text_eq, <- !app_assoc. done. }
  destruct (size_hd (sd_size d) c (conv_tl (sd_conv d) ++ fmt) Hnd) as (x & Ex & Hx & Hx42). fold T2 in Ex.
  assert (exists y, T1 = y :: tl T1 /\ (y =? 42) = false) as (y & Ey & Hy42).
  { unfold T1. rewrite Ex. destruct (dec_hd (sd_width d) x (tl T2) Hn) as (y & Ey & Hy). exists y. split; [exact Ey|].
    rewrite Hy. destruct (sd_width d); [|done]. rewrite Hx42. by destruct (sd_size d). }
  unfold Scanf.specification.
  assert ((if hd 0 ((if sd_star d then [42] else []) ++ T1) =? 42
           then do '(c, fmt) <- fetch (tl ((if sd_star d then [42] else []) ++ T1)); ret (c, FL_STAR, fmt)
           else ret (hd 0 ((if sd_star d then [42] else []) ++ T1), 0, tl ((if sd_star d then [42] else []) ++ T1))) st =
    Some ((hd 0 T1, (if sd_star d then FL_STAR else 0), tl T1), st)) as E1.
  { destruct (sd_star d); cbn [app hd tl]; [change (42 =? 42) with true; cbv iota; by rewrite Ey|]. rewrite Ey. cbn [hd tl]. by rewrite Hy42. }
  rewrite (bind_eq _ _ _ _ _ E1). cbv iota beta.
  assert (scan_width fuel (hd 0 T1) (if sd_star d then FL_STAR else 0) (tl T1) st =
    Some ((x, digits_flags (sd_width d) (if sd_star d then FL_STAR else 0), width, tl T2), st)) as E2.
  { unfold T1. rewrite Ex at 1 2. apply scan_width_spec; try done. by destruct (sd_star d). }
  rewrite (bind_eq _ _ _ _ _ E2). cbv iota beta.
  assert (scan_size need_long_long need_c99 x (digits_flags (sd_width d) (if sd_star d then FL_STAR else 0)) (tl T2) st =
    Some ((c, dir_flags d, conv_tl (sd_conv d) ++ fmt), st)) as E3.
  { replace x with (hd 0 T2) by (by rewrite Ex). apply scan_size_spec; [done|].
    unfold sdir_ok in Hok. rewrite !andb_true_iff in Hok. destruct Hok as ((_ & Hs) & _). exact Hs. }
  rewrite (bind_eq _ _ _ _ _ E3). cbv iota beta. fold c in H0', Hin. rewrite H0', Hin. cbn [orb negb]. by rewrite Hstar.
Qed.

Lemma t_specification d fmt n l eof m ap target ap' :
  sdir_ok need_c99 need_percent_b need_bracket d = true -> (length (sd_width d) < fuel)%nat -> (length l < fuel)%nat ->
  Z.of_nat (length l) <= tot -> 0 <= n < 255 ->
  (if sd_star d then Some (None, ap) else match ap with a :: ap => Some (Some a, ap) | [] => None end) = Some (target, ap') ->
  let o := ref_conv need_long_long need_percent_b d target (tot - Z.of_nat (length l)) l eof in
  outcome_ok o m ->
  triple (holds l eof m ap) (specification (hd 0 (sdir_text d ++ fmt)) (tl (sdir_text d ++ fmt)) n) (outcome_result o d fmt n) (outcome_state o m ap').
Proof.
  intros Hok Hf Hfl Hl Hn Htgt o Ho st Hst. rewrite specification_text by done. revert st Hst.
  destruct (conv_hd_spec d Hok) as (_ & _ & _ & _ & _ & Hcount). destruct (dir_flags_spec d) as (Hstar & _ & _ & _ & Hsize).
  assert (triple (holds l eof m ap) (if sd_star d then ret 0 else va_pointer) (cursor target 0) (holds l eof m ap')) as Haddr.
  { destruct (sd_star d); [injection Htgt as <- <-; apply t_ret|]. destruct ap as [|a ap0]; [done|]. injection Htgt as <- <-.
    cbn [cursor]. rewrite Z.add_0_r. apply t_va_pointer. }
  eapply (t_bind _ _ _ _ _ _ _ Haddr). rewrite Hcount. destruct (sd_conv d) as [c| | | |neg items] eqn:Ec.
  4: { subst o. unfold ref_conv in *. rewrite Ec in *. cbn [outcome_ok outcome_result outcome_state conv_tl app] in *. unfold counted. rewrite Ec.
       eapply t_bind; [apply t_scanf_len|]. unfold INT_MAX in tot_max. rewrite (uwrap_small 32) by lia.
       apply store_to_ok in Ho as [Ho Hal]. rewrite bytes_of_int_length in Ho. rewrite puts_store_to. rewrite <- Hsize in *.
       eapply t_bind; [by apply t_putval|]. apply t_ret. }
  all: (pose proof (converts_d d target fmt m ap' Hok l eof (tot - Z.of_nat (length l)) ltac:(by rewrite Ec) Hfl Hl) as Hc;
    fold o in Hc; rewrite Ec in Hc; destruct o as [sts l' eof'|l' eof'|l']; cbn [converts outcome_ok outcome_result outcome_state] in *;
    [ eapply t_bind; [apply Hc, Ho|]; change (1 =? 0) with false; cbv iota; rewrite Hstar, (uwrap_small 8) by lia; unfold counted; rewrite Ec;
      destruct (sd_star d); apply t_ret
    | destruct Hc as [fmt' Hc]; eapply t_bind; [exact Hc|]; change (0 =? 0) with true; cbv iota; apply t_flags
    | eapply t_bind; [exact Hc|]; apply t_ret ]).
Qed.

(** ** Whole formats *)

Lemma puts_app m s1 s2 : puts m (s1 ++ s2) = puts (puts m s1) s2.
Proof. apply fold_left_app. Qed.

Lemma puts_mapped sts : forall m p n, mapped m p n -> mapped (puts m sts) p n.
Proof. induction sts as [|st sts IH]; intros m p n Hm; [done|]. simpl. by apply IH, put_bytes_mapped. Qed.

Lemma stores_ok_puts m s1 s2 : Forall (store_ok m) s2 -> Forall (store_ok (puts m s1)) s2.
Proof. intros Hs. eapply Forall_impl; [exact Hs|]. intros st (? & ? & Hm & ?). split_and!; try done. by apply puts_mapped. Qed.

Abbreviation format_piece := (format_piece need_long_long need_c99 need_percent_b need_bracket fuel).

Lemma outcome_bounds d target n l eof :
  match ref_conv need_long_long need_percent_b d target n l eof with
  | Matched _ l' _ | Mismatch l' _ | InputEnd l' => (length l' <= length l)%nat
  end.
Proof.
  assert (forall w k l0 eof0, (length (drop k l0) <= length l0)%nat /\ (after w k l0 eof0).1 = drop k l0) as Hd by (intros; rewrite length_drop; split; [lia|done]).
  assert (forall (k : list Z -> outcome) l0, (forall l1, (length l1 <= length l0)%nat -> match k l1 with
    | Matched _ l' _ | Mismatch l' _ | InputEnd l' => (length l' <= length l1)%nat end) ->
    match skipping l0 k with Matched _ l' _ | Mismatch l' _ | InputEnd l' => (length l' <= length l0)%nat end) as Hskip.
  { intros k l0 Hk. unfold skipping. pose proof (length_drop l0 (length (span isspace l0))) as Hlen.
    destruct (drop (length (span isspace l0)) l0) as [|x l1] eqn:E; [simpl; lia|]. specialize (Hk (x :: l1) ltac:(lia)).
    destruct (k (x :: l1)); lia. }
  assert (forall f w l0 eof0, match ref_chars f w target l0 eof0 with Matched _ l' _ | Mismatch l' _ | InputEnd l' => (length l' <= length l0)%nat end) as Hch.
  { intros f w l0 eof0. unfold ref_chars, after. destruct (span f (takez w l0)); rewrite length_drop; lia. }
  unfold ref_conv. destruct (sd_conv d) as [c| | | |neg items]; [| | |done|apply Hch].
  - apply Hskip. intros l1 _. destruct (ref_int _ _ _ l1) as [[v|] k]; unfold after; rewrite length_drop; lia.
  - apply Hskip. intros l1 _. apply Hch.
  - destruct (takez (field_width d) l) as [|x t]; [simpl; lia|]. unfold after. rewrite length_drop. lia.
Qed.

(** A piece of the format that is no specification. *)
Definition ordinary (fmt : list Z) (c n : Z) : M piece_result :=
  do i <- scanf_getc;
  if i <? 0 then ret (AtEof n)
  else if negb (uwrap 8 i =? c) then
    run scanf_ungetc i;
    ret (Stop n)
  else ret (Go fmt n).

Lemma t_ordinary c fmt n l eof m ap :
  triple (holds l eof m ap) (ordinary fmt c n)
    (match l with [] => AtEof n | y :: _ => if y =? c then Go fmt n else Stop n end)
    (match l with [] => holds [] true m ap | y :: l' => if y =? c then holds l' eof m ap else holds l false m ap end).
Proof.
  unfold ordinary. destruct l as [|y l].
  - eapply t_bind; [by apply t_getc_end|]. apply t_ret.
  - eapply t_bind; [by apply t_getc|]. apply t_got. intros Hb. rewrite byte_not_eof, (uwrap_byte_id y) by done.
    destruct (y =? c); cbn [negb].
    + eapply t_pre; [apply got_holds|]. apply t_ret.
    + eapply t_bind; [by apply t_ungetc|]. apply t_ret.
Qed.

Lemma format_piece_literal c fmt n st :
  spiece_ok need_c99 need_percent_b need_bracket (SLit c) = true -> format_piece (c :: fmt) n st = ordinary fmt c n st.
Proof.
  simpl. rewrite !andb_true_iff. intros (((H1' & H2') & H3) & H4). apply negb_true_iff in H3, H4. unfold Scanf.format_piece.
  cbn [fetch]. rewrite bind_ret. rewrite (proj2 (Z.eqb_neq c 0)) by lia. rewrite H4, H3. cbn [negb]. by rewrite bind_ret.
Qed.

Lemma format_piece_percent fmt n st : format_piece (37 :: 37 :: fmt) n st = ordinary fmt 37 n st.
Proof. done. Qed.

Lemma sdir_text_hd d fmt :
  sdir_ok need_c99 need_percent_b need_bracket d = true -> exists c t, sdir_text d ++ fmt = c :: t /\ (c =? 37) = false.
Proof.
  intros Hok. destruct (dir_ok_width d Hok) as [Hn _]. destruct (conv_hd_spec d Hok) as (_ & _ & _ & _ & Hin & _).
  assert ((conv_hd (sd_conv d) =? 37) = false) as H37.
  { destruct (Z.eqb_spec (conv_hd (sd_conv d)) 37) as [E|]; [|done]. rewrite E in Hin. by destruct need_percent_b, need_bracket. }
  unfold sdir_text. rewrite sconv_text_eq. destruct (sd_star d); [by eexists _, _|]. destruct Hn as [|x w Hx _].
  - destruct (sd_size d); by eexists _, _.
  - eexists _, _. split; [reflexivity|]. apply Z.eqb_neq. lia.
Qed.

Lemma format_piece_conv d fmt n st :
  sdir_ok need_c99 need_percent_b need_bracket d = true ->
  format_piece (37 :: sdir_text d ++ fmt) n st = specification (hd 0 (sdir_text d ++ fmt)) (tl (sdir_text d ++ fmt)) n st.
Proof.
  intros Hok. destruct (sdir_text_hd d fmt Hok) as (c & t & -> & Hc). cbn [hd tl]. unfold Scanf.format_piece, bind at 1, fetch at 1, ret at 1.
  change (37 =? 0) with false. change (isspace 37) with false. change (37 =? 37) with true. cbn [negb fetch].
  unfold bind at 1. unfold bind at 1, ret at 1 2. cbv iota beta. by rewrite Hc.
Qed.

Lemma format_piece_space c fmt n st :
  isspace c = true -> format_piece (c :: fmt) n st = (run skip_spaces fuel; ret (Go fmt n)) st.
Proof.
  intros Hc. unfold Scanf.format_piece. cbn [fetch]. rewrite bind_ret. destruct (Z.eqb_spec c 0) as [->|]; [done|]. by rewrite Hc.
Qed.

(** The loop over the format. *)
Abbreviation step := (fun '(fmt, nconvs) =>
  do r <- format_piece fmt nconvs;
  match r with
  | Go fmt nconvs => ret (inl (fmt, nconvs))
  | Stop nconvs => ret (inr nconvs)
  | AtEof nconvs => ret (inr (if negb (nconvs =? 0) then nconvs else EOF))
  end).

(** The state at the end, with the arguments that were not used. *)
Definition ends l eof m : sst S -> Prop := fun st => exists ap, holds l eof m ap st.

Lemma holds_ends l eof m ap st : holds l eof m ap st -> ends l eof m st.
Proof. by exists ap. Qed.

Lemma t_eq {A} P (c c' : M A) a Q : (forall st, c st = c' st) -> triple P c' a Q -> triple P c a Q.
Proof. intros Hc Ht st Hp. destruct (Ht st Hp) as (s' & E & Hq). exists s'. by rewrite Hc. Qed.

Lemma t_step_stop P fmt n f (pr : piece_result) res Q :
  triple P (format_piece fmt n) pr Q ->
  match pr with Go _ _ => False | Stop n => res = n | AtEof n => res = (if n =? 0 then EOF else n) end ->
  triple P (loop step (Datatypes.S f) (fmt, n)) res Q.
Proof.
  intros Hp Hr. apply t_stop. eapply t_bind; [exact Hp|]. destruct pr as [| |k]; [done|subst; apply t_ret|].
  subst. destruct (k =? 0); apply t_ret.
Qed.

Lemma t_step_go P fmt n f fmt' n' res Q Q' :
  triple P (format_piece fmt n) (Go fmt' n') Q -> triple Q (loop step f (fmt', n')) res Q' -> triple P (loop step (Datatypes.S f) (fmt, n)) res Q'.
Proof. intros Hp Hq. eapply t_go; [|exact Hq]. eapply t_bind; [exact Hp|]. apply t_ret. Qed.

Lemma t_format ps : forall f n l eof m ap res sts l' eof',
  forallb (spiece_ok need_c99 need_percent_b need_bracket) ps = true ->
  ref_scan need_long_long need_percent_b ps tot n l eof ap = Some (res, sts, l', eof') ->
  Forall (store_ok m) sts -> 0 <= n -> n + Z.of_nat (length ps) <= 255 -> Z.of_nat (length l) <= tot ->
  (length ps < f)%nat -> (length l < fuel)%nat -> (length (sformat_text ps) < fuel)%nat ->
  triple (holds l eof m ap) (loop step f (sformat_text ps ++ [0], n)) res (ends l' eof' (puts m sts)).
Proof.
  induction ps as [|p ps IH]; intros [|f] n l eof m ap res sts l' eof' Hok Hr Hst Hn0 Hn Hl Hf Hfl Hft; cbn [length] in *; try lia.
  - injection Hr as <- <- <- <-. eapply t_post; [apply holds_ends|]. 
    by apply (t_step_stop _ _ _ _ (Stop n)); [apply t_pure|].
  - cbn [forallb] in Hok. apply andb_true_iff in Hok as [Hp Hok]. unfold INT_MAX in tot_max.
    cbn [sformat_text flat_map] in *. rewrite length_app in Hft. fold (sformat_text ps) in *. rewrite <- app_assoc.
    assert (forall c, (match l with
        | [] => Some (if n =? 0 then EOF else n, [], [], true)
        | x :: l0 => if x =? c then ref_scan need_long_long need_percent_b ps tot n l0 eof ap else Some (n, [], x :: l0, false)
        end) = Some (res, sts, l', eof') -> (forall st, format_piece (spiece_text p ++ sformat_text ps ++ [0]) n st = ordinary (sformat_text ps ++ [0]) c n st) ->
      triple (holds l eof m ap) (loop step (Datatypes.S f) (spiece_text p ++ sformat_text ps ++ [0], n)) res (ends l' eof' (puts m sts))) as Hlit.
    { intros c Hc Hpc. pose proof (t_ordinary c (sformat_text ps ++ [0]) n l eof m ap) as Ho. apply (t_eq _ _ _ _ _ Hpc) in Ho.
      destruct l as [|x l0].
      - injection Hc as <- <- <- <-. eapply t_post; [apply holds_ends|]. by eapply t_step_stop.
      - destruct (x =? c).
        + eapply t_step_go; [exact Ho|]. apply IH; try done; simpl in *; lia.
        + injection Hc as <- <- <- <-. eapply t_post; [apply holds_ends|]. by eapply t_step_stop. }
    destruct p as [c|c| |d].
    + simpl in Hp. pose proof (t_skip_spaces tot r tot_max l fuel eof m ap Hfl ltac:(lia)) as Hs. cbv zeta in Hs.
      pose proof (after_length (2 ^ 32) (length (span isspace l)) l eof) as Hlen. cbn [ref_scan] in Hr.
      destruct (after (2 ^ 32) (length (span isspace l)) l eof) as [l1 eof1]. cbn [fst snd] in *.
      eapply t_step_go; [|apply (IH f n l1 eof1 m ap); try done; lia].
      eapply t_eq; [intros st; by apply format_piece_space|]. eapply t_bind; [exact Hs|apply t_ret].
    + apply (Hlit c); [exact Hr|]. intros st. by apply format_piece_literal.
    + apply (Hlit 37); [exact Hr|done].
    + cbn [ref_scan] in Hr. cbn [spiece_ok] in Hp.
      destruct (if sd_star d then _ else _) as [[target ap']|] eqn:Et; [|done].
      assert (length (sd_width d) < fuel)%nat as Hwd.
      { simpl in Hft. unfold sdir_text in Hft. rewrite !length_app in Hft. unfold dec_text in Hft. rewrite length_map in Hft. lia. }
      pose proof (t_specification d (sformat_text ps ++ [0]) n l eof m ap target ap' Hp Hwd Hfl Hl ltac:(lia) Et) as Hs. cbv zeta in Hs.
      pose proof (outcome_bounds d target (tot - Z.of_nat (length l)) l eof) as Hlen.
      assert (forall st, format_piece (spiece_text (SConv d) ++ sformat_text ps ++ [0]) n st =
        specification (hd 0 (sdir_text d ++ sformat_text ps ++ [0])) (tl (sdir_text d ++ sformat_text ps ++ [0])) n st) as Hpc
        by (intros st; by apply format_piece_conv).
      destruct (ref_conv need_long_long need_percent_b d target (tot - Z.of_nat (length l)) l eof) as [s1 l1 eof1|l1 eof1|l1];
        cbn [outcome_ok outcome_result outcome_state] in *.
      * destruct (ref_scan _ _ ps tot _ l1 eof1 ap') as [[[[res2 s2] l2] eof2]|] eqn:E2; [|done]. injection Hr as <- <- <- <-.
        apply Forall_app in Hst as [Hs1 Hs2]. eapply t_step_go; [eapply t_eq; [exact Hpc|by apply Hs]|].
        rewrite puts_app. eapply IH; try done; [by apply stores_ok_puts|..]; unfold counted; destruct (sd_conv d), (sd_star d); lia.
      * injection Hr as <- <- <- <-. eapply t_post; [apply holds_ends|]. eapply t_step_stop; [eapply t_eq; [exact Hpc|by apply Hs]|].
        destruct eof1; cbn [andb]; destruct (n =? 0) eqn:En; rewrite ?En; done.
      * injection Hr as <- <- <- <-. eapply t_post; [apply holds_ends|]. by eapply t_step_stop; [eapply t_eq; [exact Hpc|by apply Hs]|].
Qed.
End scan_format.

(** ** vfscanf *)

Lemma vfscanf_spec `{Arch} need_long_long need_c99 need_percent_b need_bracket {S : Type} `{GetStreamOk S} fuel r ps args l eof b (s : S) res sts l' eof' :
  gs_rep r l eof b s -> Z.of_nat (length l) <= INT_MAX ->
  forallb (spiece_ok need_c99 need_percent_b need_bracket) ps = true -> (length ps <= 255)%nat ->
  ref_scan need_long_long need_percent_b ps (Z.of_nat (length l)) 0 l eof args = Some (res, sts, l', eof') ->
  Forall (store_ok r (g_mem s)) sts -> (length l < fuel)%nat -> (length (sformat_text ps) < fuel)%nat ->
  exists b' s', vfscanf need_long_long need_c99 need_percent_b need_bracket fuel (sformat_text ps ++ [0]) args s = Some (res, s') /\
    gs_rep r l' eof' b' s' /\ g_mem s' = puts (g_mem s) sts.
Proof.
  intros Hr Hmax Hok H255 Hscan Hst Hf1 Hf2.
  assert (length ps <= length (sformat_text ps))%nat as Hlen.
  { clear. induction ps as [|p ps IH]; [done|]. cbn [sformat_text flat_map length]. rewrite length_app.
    assert (0 < length (spiece_text p))%nat by (destruct p; simpl; lia). unfold sformat_text in IH. lia. }
  destruct (t_format need_long_long need_c99 need_percent_b need_bracket (Z.of_nat (length l)) r Hmax fuel ps fuel 0 l eof (g_mem s) args res sts l' eof'
    Hok Hscan Hst ltac:(lia) ltac:(lia) ltac:(lia) ltac:(lia) Hf1 Hf2 (Sst s 0 args)) as (st & E & ap & b' & Hr' & Hm & _).
  { exists b. repeat split; cbn [s_stream scanf_len s_ap]; try done; lia. }
  exists b', (s_stream st). unfold vfscanf, scan_loop. by rewrite E.
Qed.
