(* ===== verification/Sscanf.v ===== *)
(** * scanf from memory and from a buffered file (libc/stdio/filestrget.c, vsscanf.c, sscanf.c, fscanf.c)

    Two streams for [vfscanf]: the characters of a string in memory, which may
    also hold the results, and the buffered file of [Stdio]. *)

From stdpp Require Import base list gmap.
From Stdlib Require Import ZArith Lia.
From S2P Require Import Prelude CMem CInt StrStr Convert Strto Stdio StdioSpec StdioStream PrintfSpec Sprintf Scanf ScanfSpec ScanfRun ScanfFormat.

Local Open Scope Z_scope.

(** ** A string *)

Definition __file_str_get : C file_str Z :=
  fun f =>
    match load8 (fs_pos f) (fs_mem f) with
    | Some (rv, _) =>
        if rv =? 0 then Some (_FDEV_EOF, f)
        else Some (rv, FileStr (fs_unget f) (fs_flags f) (fs_pos f + 1) (fs_end f) (fs_mem f))
    | None => None
    end.

(** [getc_unlocked] and [ungetc_unlocked] of a stream whose [get] is
    [__file_str_get]. *)
Definition str_getc : C file_str Z :=
  fun f =>
    if Z.land (fs_flags f) __SRD =? 0 then
      Some (EOF, FileStr (fs_unget f) (uwrap 8 (Z.lor (fs_flags f) __SERR)) (fs_pos f) (fs_end f) (fs_mem f))
    else
      let unget := fs_unget f in
      let f := FileStr 0 (fs_flags f) (fs_pos f) (fs_end f) (fs_mem f) in
      if negb (unget =? 0) then Some (uwrap 8 (unget - 1), f)
      else
        match __file_str_get f with
        | Some (rv, f) =>
            if rv <? 0 then
              let fl := uwrap 8 (Z.lor (fs_flags f) (if rv =? _FDEV_ERR then __SERR else __SEOF)) in
              Some (EOF, FileStr (fs_unget f) fl (fs_pos f) (fs_end f) (fs_mem f))
            else Some (uwrap 8 rv, f)
        | None => None
        end.

Definition str_ungetc (c : Z) : C file_str Z :=
  fun f =>
    if (Z.land (fs_flags f) __SRD =? 0) || (c =? EOF) then Some (EOF, f)
    else if negb (fs_unget f =? 0) then Some (EOF, f)
    else
      Some (uwrap 8 c, FileStr (uwrap 8 c + 1) (Z.land (fs_flags f) (Z.lnot __SEOF)) (fs_pos f) (fs_end f) (fs_mem f)).

#[global] Instance str_get_stream : GetStream file_str := {|
  g_flags := fs_flags;
  g_getc := str_getc;
  g_ungetc := str_ungetc;
  g_mem := fs_mem;
  g_set_mem := fun m f => FileStr (fs_unget f) (fs_flags f) (fs_pos f) (fs_end f) m |}.

Definition FDEV_SETUP_STRING_READ (s : Z) (m : mem) : file_str := FileStr 0 __SRD s NULL m.

Section sscanf.
Context `{Arch}.
Variables (need_long_long need_c99 need_percent_b need_bracket : bool).

(** [sscanf] is the same with the arguments given one by one. *)
Definition vsscanf (fuel : nat) (s : Z) (fmt : list Z) (args : list Z) : C mem Z :=
  fun m =>
    match vfscanf need_long_long need_c99 need_percent_b need_bracket fuel fmt args (FDEV_SETUP_STRING_READ s m) with
    | Some (i, f) => Some (i, fs_mem f)
    | None => None
    end.
End sscanf.

(** The string lies in the block [r]. *)
Definition str_rep (r : Z * Z) (l : list Z) (eof pushed : bool) (f : file_str) : Prop :=
  fs_flags f = Z.lor __SRD (if eof then __SEOF else 0) /\
  exists w, cstr (fs_mem f) (fs_pos f) w /\ r.1 <= fs_pos f /\ fs_pos f + Z.of_nat (length w) + 1 <= r.1 + r.2 /\
    if pushed then exists c, is_byte c /\ fs_unget f = c + 1 /\ l = c :: w else fs_unget f = 0 /\ l = w.

#[global] Instance str_stream_ok : GetStreamOk file_str.
Proof.
  refine {| gs_rep := str_rep |}.
  - intros r l eof b f (Hf & _). simpl. rewrite Hf. by destruct eof.
  - intros r l eof b f (Hf & _). simpl. rewrite Hf. by destruct eof.
  - intros r l eof b f (_ & w & [Hw _] & _ & _ & Hb).
    assert (Forall is_byte w) as Hwb by (eapply Forall_impl; [exact Hw|]; intros x Hx; unfold nonzero_byte, is_byte in *; lia).
    destruct b; [destruct Hb as (c & Hc & _ & ->); by constructor|by destruct Hb as [_ ->]].
  - intros r c l eof b [u fl p e m] (Hf & w & Hw & Hp1 & Hp2 & Hb). cbn [fs_flags fs_pos fs_mem fs_unget g_getc g_mem str_get_stream] in *. subst fl.
    unfold str_getc. cbn [fs_flags fs_pos fs_mem fs_unget fs_end].
    assert ((Z.land (Z.lor __SRD (if eof then __SEOF else 0)) __SRD =? 0) = false) as -> by (by destruct eof). destruct b.
    + destruct Hb as (c' & Hc & -> & [= <- ->]). rewrite (proj2 (Z.eqb_neq _ 0)) by (unfold is_byte in Hc; lia). cbn [negb].
      rewrite uwrap_small by (unfold is_byte in Hc; lia). replace (c + 1 - 1) with c by lia.
      eexists. split; [reflexivity|]. split; [|done]. split; [done|]. by exists w.
    + destruct Hb as [-> <-]. cbn [Z.eqb negb]. unfold __file_str_get. cbn [fs_flags fs_pos fs_mem fs_unget fs_end].
      apply cstr_cons in Hw as (Hc & Hm & Hw). unfold nonzero_byte in Hc. rewrite (load8_at _ _ _ Hm), (proj2 (Z.eqb_neq c 0)) by lia.
      rewrite (proj2 (Z.ltb_ge c 0)), uwrap_small by lia. eexists. split; [reflexivity|]. split; [|done]. split; [done|].
      exists l. cbn [fs_mem fs_pos fs_unget length] in *. split_and!; try done; lia.
  - intros r eof b [u fl p e m] (Hf & w & Hw & Hp1 & Hp2 & Hb). cbn [fs_flags fs_pos fs_mem fs_unget g_getc g_mem str_get_stream] in *. subst fl.
    destruct b; [by destruct Hb as (c' & _ & _ & ?)|]. destruct Hb as [-> <-]. unfold str_getc. cbn [fs_flags fs_pos fs_mem fs_unget fs_end].
    assert ((Z.land (Z.lor __SRD (if eof then __SEOF else 0)) __SRD =? 0) = false) as -> by (by destruct eof). cbn [Z.eqb negb].
    unfold __file_str_get. cbn [fs_flags fs_pos fs_mem fs_unget fs_end]. pose proof Hw as Hm. apply cstr_nil in Hm. rewrite (load8_at _ _ _ Hm).
    eexists. split; [reflexivity|]. split; [|done]. split; [by destruct eof|]. by exists [].
  - intros r c l eof [u fl p e m] (Hf & w & Hw & Hp1 & Hp2 & Hu & ->) Hc. cbn [fs_flags fs_pos fs_mem fs_unget g_ungetc g_mem str_get_stream] in *. subst fl u.
    unfold str_ungetc. cbn [fs_flags fs_pos fs_mem fs_unget fs_end].
    assert ((Z.land (Z.lor __SRD (if eof then __SEOF else 0)) __SRD =? 0) = false) as -> by (by destruct eof).
    unfold is_byte in Hc. rewrite (proj2 (Z.eqb_neq c EOF)) by (unfold EOF; lia). cbn [orb Z.eqb negb]. rewrite uwrap_small by lia.
    do 2 eexists. split; [reflexivity|]. split; [|done]. split; [by destruct eof|]. exists w. split_and!; try done. by exists c.
  - intros r l eof b [u fl p e m] q bs (Hf & w & Hw & Hp1 & Hp2 & Hb) Hd. cbn [fs_flags fs_pos fs_mem fs_unget g_set_mem g_mem str_get_stream fs_end] in *.
    split; [done|]. exists w. cbn [fs_pos fs_mem fs_unget]. split_and!; try done. destruct Hw as [Hz Hw]. split; [done|].
    apply bytes_at_put_disjoint; [|done]. unfold disjoint_blk in *. rewrite length_app. simpl. lia.
  - done.
Defined.

(** ** A buffered file *)

Section file_stream.
Context {D : Type} `{Device D}.
Variable fuel : nat.

(** A call on the file, beside the memory. *)
Definition on_file {A} (c : C (FILE D) A) : C (FILE D * mem) A :=
  fun s => match c s.1 with Some (a, f) => Some (a, (f, s.2)) | None => None end.

Definition file_get_stream : GetStream (FILE D * mem) := {|
  g_flags := fun s => flags s.1;
  g_getc := on_file (getc fuel);
  g_ungetc := fun c => on_file (ungetc c);
  g_mem := snd;
  g_set_mem := fun m s => (s.1, m) |}.

Definition fscanf `{Arch} (need_long_long need_c99 need_percent_b need_bracket : bool) (fmt : list Z) (args : list Z) : C (FILE D * mem) Z :=
  vfscanf (H0 := file_get_stream) need_long_long need_c99 need_percent_b need_bracket fuel fmt args.

Context {DOk : DeviceOk D}.

(** What a stream still delivers. *)
Definition to_read (a : astream) : list Z :=
  match s_unget a with Some c => [c] | None => [] end ++ drop (Z.to_nat (a_pos (s_file a))) (a_data (s_file a)).

Definition file_rep (r : Z * Z) (l : list Z) (eof pushed : bool) (s : FILE D * mem) : Prop :=
  open s.1 /\ (Z.to_nat (size s.1) < fuel)%nat /\ Z.testbit (flags s.1) 2 = false /\ Forall is_byte l /\ 0 <= a_pos (s_file (sabs s.1)) /\
  to_read (sabs s.1) = l /\ s_eof (sabs s.1) = eof /\ (match s_unget (sabs s.1) with Some _ => true | None => false end) = pushed.

Lemma land_bit_eq fl k x : 0 <= k -> x = 2 ^ k -> negb (Z.land fl x =? 0) = Z.testbit fl k.
Proof. intros Hk ->. rewrite land_bit by done. by rewrite negb_involutive. Qed.

#[local] Existing Instance file_get_stream.

Definition file_stream_ok : GetStreamOk (FILE D * mem).
Proof.
  refine {| gs_rep := file_rep |}.
  - intros r l eof b [f m] (Ho & Hs & He & Hb & Hp & Hl & Heof & Hu). cbn [g_flags file_get_stream fst snd] in *.
    rewrite (land_bit_eq _ 3) by done. by rewrite <- Heof.
  - intros r l eof b [f m] (Ho & Hs & He & Hb & Hp & Hl & Heof & Hu). cbn [g_flags file_get_stream fst snd] in *.
    pose proof (land_bit_eq (flags f) 2 __SERR ltac:(lia) eq_refl) as E. rewrite He in E. apply negb_false_iff, Z.eqb_eq in E. exact E.
  - intros r l eof b [f m] (Ho & Hs & He & Hb & _). done.
  - intros r c l eof b [f m] (Ho & Hs & He & Hb & Hp & Hl & Heof & Hu). cbn [g_getc g_mem file_get_stream on_file fst snd] in *.
    destruct (getc_full fuel f Ho Hs) as (x & f' & E & Ho' & Hs' & Hg & _ & He'). unfold on_file. cbn [fst snd]. rewrite E.
    unfold s_getc, to_read in *. inversion_clear Hb as [|? ? Hcb Hlb].
    destruct (sabs f) as [[data p] [u|] e]; cbn [s_unget s_file s_eof a_data a_pos app] in *.
    + injection Hl as -> Hl. apply pair_equal_spec in Hg as [<- Ha]. exists (f', m). split; [done|]. split; [|done].
      unfold file_rep, to_read. cbn [fst snd]. rewrite <- Ha. cbn [s_unget s_file s_eof a_data a_pos app]. rewrite Hs', He'. done.
    + unfold a_get in Hg. cbn [a_data a_pos] in Hg.
      assert (data !! Z.to_nat p = Some c) as Hc by (rewrite <- (Nat.add_0_r (Z.to_nat p)), <- lookup_drop, Hl; done). rewrite Hc in Hg.
      apply pair_equal_spec in Hg as [<- Ha]. exists (f', m). split; [done|]. split; [|done].
      unfold file_rep, to_read. cbn [fst snd]. rewrite <- Ha. cbn [s_unget s_file s_eof a_data a_pos app]. rewrite Hs', He'.
      split_and!; try done; [lia|]. replace (Z.to_nat (p + 1)) with (Z.to_nat p + 1)%nat by lia. by rewrite <- drop_drop, Hl.
  - intros r eof b [f m] (Ho & Hs & He & Hb & Hp & Hl & Heof & Hu). cbn [g_getc g_mem file_get_stream on_file fst snd] in *.
    destruct (getc_full fuel f Ho Hs) as (x & f' & E & Ho' & Hs' & Hg & _ & He'). unfold on_file. cbn [fst snd]. rewrite E.
    unfold s_getc, to_read in *. destruct (sabs f) as [[data p] [u|] e]; cbn [s_unget s_file s_eof a_data a_pos app] in *; [done|].
    unfold a_get in Hg. cbn [a_data a_pos] in Hg.
    assert (data !! Z.to_nat p = None) as Hc by (rewrite <- (Nat.add_0_r (Z.to_nat p)), <- lookup_drop, Hl; done). rewrite Hc in Hg.
    apply pair_equal_spec in Hg as [<- Ha]. exists (f', m). split; [done|]. split; [|done].
    unfold file_rep, to_read. cbn [fst snd]. rewrite <- Ha. cbn [s_unget s_file s_eof a_data a_pos app]. by rewrite Hs', He'.
  - intros r c l eof [f m] (Ho & Hs & He & Hb & Hp & Hl & Heof & Hu) Hc. cbn [g_ungetc g_mem file_get_stream on_file fst snd] in *.
    destruct (ungetc_full f c Ho) as (x & f' & E & Ho' & Hs' & Hg & He'). unfold on_file. cbn [fst snd]. rewrite E.
    unfold s_ungetc, to_read in *. unfold is_byte in Hc. rewrite (proj2 (Z.eqb_neq c EOF)) in Hg by (unfold EOF; lia).
    destruct (sabs f) as [[data p] [u|] e]; cbn [s_unget s_file s_eof a_data a_pos app] in *; [done|].
    apply pair_equal_spec in Hg as [<- Ha]. exists (uwrap 8 c), (f', m). split; [done|]. split; [|done].
    unfold file_rep, to_read. cbn [fst snd]. rewrite <- Ha. cbn [s_unget s_file s_eof a_data a_pos app]. rewrite Hs', He', uwrap_small by lia.
    split_and!; try done; [by constructor|by rewrite Hl].
  - intros r l eof b [f m] p bs Hr _. done.
  - done.
Defined.
End file_stream.

Section fscanf_proof.
Context {D : Type} `{Device D} {DOk : DeviceOk D} `{Arch}.
Variable fuel : nat.

Lemma fscanf_spec need_long_long need_c99 need_percent_b need_bracket ps args (f : FILE D) m res sts l' eof' :
  open f -> (Z.to_nat (size f) < fuel)%nat -> Z.testbit (flags f) 2 = false -> 0 <= a_pos (s_file (sabs f)) ->
  let l := to_read (sabs f) in
  Forall is_byte l -> Z.of_nat (length l) <= INT_MAX ->
  forallb (spiece_ok need_c99 need_percent_b need_bracket) ps = true -> (length ps <= 255)%nat ->
  ref_scan need_long_long need_percent_b ps (Z.of_nat (length l)) 0 l (s_eof (sabs f)) args = Some (res, sts, l', eof') ->
  Forall (store_ok (0, 0) m) sts -> (length l < fuel)%nat -> (length (sformat_text ps) < fuel)%nat ->
  exists f', fscanf fuel need_long_long need_c99 need_percent_b need_bracket (sformat_text ps ++ [0]) args (f, m) =
      Some (res, (f', puts m sts)) /\
    open f' /\ (Z.to_nat (size f') < fuel)%nat /\ to_read (sabs f') = l' /\ s_eof (sabs f') = eof'.
Proof.
  intros Ho Hs He Hp l Hb Hmax Hok H255 Hscan Hst Hf1 Hf2.
  destruct (vfscanf_spec (H0 := file_get_stream fuel) (H1 := file_stream_ok fuel) need_long_long need_c99 need_percent_b need_bracket fuel (0, 0) ps args l (s_eof (sabs f))
    (match s_unget (sabs f) with Some _ => true | None => false end) (f, m) res sts l' eof')
    as (b' & [f' m'] & E & (Ho' & Hs' & _ & _ & _ & Hl' & He' & _) & Hm); try done.
  exists f'. cbn [g_mem file_get_stream fst snd] in *. subst m'. done.
Qed.
End fscanf_proof.
