(* ===== verification/ScanPrint.v ===== *)
(** * scanf reads back what printf wrote

    Lists of numbers printed with the integer conversions, one after the other
    with a space between them, and read with the same format. *)

From stdpp Require Import base list gmap.
From Stdlib Require Import ZArith Lia.
From S2P Require Import Prelude CMem CInt StrStr Convert Strto Printf PrintfSpec PrintfConv PrintfRun Sprintf Scanf ScanfSpec ScanfRun ScanfFormat Sscanf.

Local Open Scope Z_scope.

(** ** Numbers as text *)

Definition digits_text (base : Z) (upper : bool) (v : Z) : list Z := rev (lsf_text base upper v).

(** What may follow a number. *)
Definition stops (t : list Z) : Prop := t = [] \/ exists t', t = 32 :: t'.

Lemma digit_text_reads upper d :
  0 <= d < 16 ->
  digit_value (digit_text upper d) = Some d /\ isspace (digit_text upper d) = false /\ nonzero_byte (digit_text upper d) /\
  digit_text upper d <> 45 /\ digit_text upper d <> 43 /\ (digit_text upper d = 48 -> d = 0).
Proof.
  intros Hd.
  assert (forall n, In n (seq 0 16) -> (let d := Z.of_nat n in let c := digit_text upper d in
    bool_decide (digit_value c = Some d) && negb (isspace c) && (0 <? c) && (c <? 256) && negb (c =? 45) && negb (c =? 43) &&
    (negb (c =? 48) || (d =? 0))) = true) as Hall by (apply forallb_forall; destruct upper; vm_compute; reflexivity).
  specialize (Hall (Z.to_nat d)). rewrite in_seq, Z2Nat.id in Hall by lia. specialize (Hall ltac:(lia)). cbv zeta in Hall.
  rewrite !andb_true_iff in Hall. destruct Hall as ((((((H1 & H2) & H3) & H4) & H5) & H6) & H7).
  apply bool_decide_eq_true_1 in H1. apply negb_true_iff in H2. unfold nonzero_byte. split_and!; try done; lia.
Qed.

Section digits_text.
Variables (base : Z) (upper : bool) (v : Z).
Hypothesis base_range : 2 <= base <= 16.
Hypothesis v_range : 0 <= v < 2 ^ 64.

Lemma digits_text_of : digits_of base v (lsf_digits 64 base v).
Proof.
  apply lsf_digits_of; [lia| |lia]. split; [lia|]. eapply Z.lt_le_trans; [apply v_range|]. apply (Z.pow_le_mono_l 2 base 64). lia.
Qed.

Lemma digits_text_map : digits_text base upper v = map (digit_text upper) (rev (lsf_digits 64 base v)).
Proof. unfold digits_text, lsf_text. by rewrite map_rev. Qed.

Lemma digits_text_range : Forall (fun d => 0 <= d < 16) (rev (lsf_digits 64 base v)).
Proof. apply Forall_rev. eapply Forall_impl; [apply (dg_range _ _ _ digits_text_of)|]. simpl. lia. Qed.

Lemma digit_span_text l t :
  Forall (fun d => 0 <= d < base) l -> stops t -> digit_span base (map (digit_text upper) l ++ t) = l.
Proof.
  intros Hl Ht. induction Hl as [|d l Hd _ IH].
  - destruct Ht as [-> | [t' ->]]; reflexivity.
  - cbn [map app digit_span]. rewrite (proj1 (digit_text_reads upper d ltac:(lia))), (proj2 (Z.ltb_lt d base)) by lia. by rewrite IH.
Qed.

Lemma digits_text_span t : stops t -> digit_span base (digits_text base upper v ++ t) = rev (lsf_digits 64 base v).
Proof. intros Ht. rewrite digits_text_map. apply digit_span_text; [|done]. apply Forall_rev, digits_text_of. Qed.

Lemma digits_text_value : horner base 0 (rev (lsf_digits 64 base v)) = v.
Proof. rewrite horner_rev. apply digits_text_of. Qed.

(** The first character, and the only one when it is a zero. *)
Lemma digits_text_head :
  exists c l, digits_text base upper v = c :: l /\ nonzero_byte c /\ isspace c = false /\ c <> 45 /\ c <> 43 /\ (c = 48 -> v = 0 /\ l = []).
Proof.
  rewrite digits_text_map. pose proof digits_text_of as [Hv _ Hlead Hne]. pose proof digits_text_range as Hr.
  destruct (rev (lsf_digits 64 base v)) as [|d l] eqn:E.
  { apply (f_equal (@rev Z)) in E. rewrite rev_involutive in E. done. }
  inversion_clear Hr as [|? ? Hd _]. destruct (digit_text_reads upper d Hd) as (_ & Hs & Hnz & H45 & H43 & H48).
  eexists _, _. split; [reflexivity|]. split_and!; try done. intros Hc. specialize (H48 Hc). subst d.
  apply (f_equal (@rev Z)) in E. rewrite rev_involutive in E. cbn [rev] in E. destruct Hlead as [Hlead|Hlead].
  - rewrite E, last_snoc in Hlead. done.
  - rewrite Hlead in *. apply (f_equal length) in E. rewrite length_app, length_rev in E. destruct l; [|simpl in E; lia]. split; [rewrite <- Hv; simpl; lia|done].
Qed.

Lemma digits_text_nonzero : Forall nonzero_byte (digits_text base upper v).
Proof.
  rewrite digits_text_map. apply Forall_map. eapply Forall_impl; [apply digits_text_range|]. intros d Hd. by apply digit_text_reads.
Qed.

Lemma digits_text_length : length (digits_text base upper v) = length (rev (lsf_digits 64 base v)).
Proof. rewrite digits_text_map. apply length_map. Qed.
End digits_text.

(** No prefix is seen in plain digits. *)
Lemma digits_no_prefix need_percent_b base upper v b t :
  2 <= base <= 16 -> 0 <= v < 2 ^ 64 -> stops t ->
  hex_prefix b (digits_text base upper v ++ t) = false /\ bin_prefix need_percent_b b (digits_text base upper v ++ t) = false.
Proof.
  intros Hb Hv Ht. destruct (digits_text_head base upper v Hb Hv) as (c & l & -> & _ & _ & _ & _ & H48).
  unfold hex_prefix, bin_prefix. cbn [app starts tail]. destruct (Z.eqb_spec c 48) as [->|]; [|by rewrite !andb_false_r].
  destruct (H48 eq_refl) as [_ ->]. destruct Ht as [-> | [t' ->]]; cbn [app starts]; by rewrite !andb_false_r.
Qed.

(** ** A number in front of the input *)

(** [body] is an unsigned number that a conversion of base [b0] reads to its end,
    whatever stops it. *)
Definition reads (need_percent_b : bool) (b0 : Z) (body : list Z) (v : Z) : Prop :=
  (exists c l, body = c :: l /\ isspace c = false /\ c <> 45 /\ c <> 43) /\ (length body <= 66)%nat /\ Forall nonzero_byte body /\
  forall t, stops t -> exists b k, field_base need_percent_b b0 (body ++ t) = (b, k) /\
    horner b 0 (digit_span b (drop k (body ++ t))) = v /\ (k + length (digit_span b (drop k (body ++ t))))%nat = length body.

Lemma digits_text_max base upper v : (length (digits_text base upper v) <= 64)%nat.
Proof. unfold digits_text, lsf_text. rewrite length_rev, length_map. apply lsf_digits_length. Qed.

Lemma digits_text_reads need_percent_b b0 base upper v :
  2 <= base <= 16 -> 0 <= v < 2 ^ 64 -> b0 = base \/ b0 = 0 /\ base = 10 -> reads need_percent_b b0 (digits_text base upper v) v.
Proof.
  intros Hb Hv Hb0. destruct (digits_text_head base upper v Hb Hv) as (c & l & Hc & _ & Hs & H45 & H43 & H48).
  split; [by exists c, l|]. split; [pose proof (digits_text_max base upper v); lia|]. split; [by apply digits_text_nonzero|].
  intros t Ht. unfold field_base. destruct (digits_no_prefix need_percent_b base upper v b0 t Hb Hv Ht) as [-> ->].
  destruct Hb0 as [-> | [-> ->]].
  - rewrite (proj2 (Z.eqb_neq base 0)) by lia. exists base, 0%nat. rewrite drop_0. rewrite digits_text_span, digits_text_value, digits_text_length by done. done.
  - cbn [Z.eqb]. rewrite Hc. cbn [app starts]. destruct (Z.eqb_spec c 48) as [->|].
    + destruct (H48 eq_refl) as [-> ->]. exists 8, 0%nat. split; [done|]. destruct Ht as [-> | [t' ->]]; done.
    + exists 10, 0%nat. rewrite drop_0. change (c :: l ++ t) with ((c :: l) ++ t). rewrite <- Hc.
      rewrite digits_text_span, digits_text_value, digits_text_length by done. done.
Qed.

Lemma hex_text_reads need_percent_b v : 0 <= v < 2 ^ 64 -> reads need_percent_b 16 (48 :: 120 :: digits_text 16 false v) v.
Proof.
  intros Hv. split; [by exists 48, (120 :: digits_text 16 false v)|].
  split; [pose proof (digits_text_max 16 false v); simpl; lia|]. split.
  { repeat constructor; try lia. by apply digits_text_nonzero. }
  intros t Ht. exists 16, 2%nat. split; [done|]. change (drop 2 ((48 :: 120 :: digits_text 16 false v) ++ t)) with (digits_text 16 false v ++ t). cbn [length].
  rewrite digits_text_span, digits_text_value, digits_text_length by (done || lia). done.
Qed.

Lemma takez_app n l t : Z.of_nat (length l) <= n -> takez n (l ++ t) = l ++ takez (n - Z.of_nat (length l)) t.
Proof.
  revert n. induction l as [|x l IH]; intros n Hn; cbn [app length] in *; [by rewrite Z.sub_0_r|].
  rewrite takez_cons, IH by lia. do 2 f_equal. f_equal. lia.
Qed.

Lemma stops_takez n t : stops t -> stops (takez n t).
Proof. intros [-> | [t' ->]]; [by left|]. cbn [takez]. destruct (n <=? 0); [by left|right; eauto]. Qed.

Definition signed_text (neg : bool) (body : list Z) : list Z := if neg then 45 :: body else body.

Lemma ref_int_reads need_percent_b b0 body v (neg : bool) w t :
  reads need_percent_b b0 body v -> 67 <= w -> stops t ->
  ref_int need_percent_b b0 w (signed_text neg body ++ t) = (Some (if neg then - v else v), length (signed_text neg body)).
Proof.
  intros ((c & l & Hc & _ & H45 & H43) & Hlen & _ & Hr) Hw Ht. unfold ref_int, signed_text.
  set (k1 := if neg then 1%nat else 0%nat).
  assert ((if neg then 45 :: body else body) ++ t = (if neg then [45] else []) ++ body ++ t) as -> by by destruct neg.
  assert (starts 45 ((if neg then [45] else []) ++ body ++ t) = neg) as ->.
  { destruct neg; [done|]. rewrite Hc. cbn [app starts]. by apply Z.eqb_neq. }
  assert ((if neg || starts 43 ((if neg then [45] else []) ++ body ++ t) then 1%nat else 0%nat) = k1) as ->.
  { destruct neg; [done|]. rewrite Hc. cbn [app starts orb]. by rewrite (proj2 (Z.eqb_neq c 43)). }
  assert (drop k1 ((if neg then [45] else []) ++ body ++ t) = body ++ t) as -> by by destruct neg.
  rewrite takez_app by (subst k1; destruct neg; lia). destruct (Hr _ (stops_takez (w - Z.of_nat k1 - Z.of_nat (length body)) t Ht)) as (b & k & -> & <- & Hk).
  set (ds := digit_span _ _) in *. destruct ((k =? 0)%nat && (length ds =? 0)%nat) eqn:E.
  { apply andb_true_iff in E as [E1 E2]. apply Nat.eqb_eq in E1, E2. rewrite Hc in Hk. simpl in Hk. lia. }
  f_equal. subst k1. destruct neg; simpl; lia.
Qed.

(** ** Items *)

(** A number, the conversion it is printed and read with, and the address it is
    read to. *)
Record item := Item { it_conv : fconv; it_size : fsize; it_value : Z; it_to : Z }.

Section items.
Context `{Arch}.
Variables (need_long_long need_c99 need_percent_b need_bracket : bool).

Abbreviation size_kind := (size_kind need_long_long).
Abbreviation target_size := (target_size need_long_long).

(** The argument that passes the number to printf. *)
Definition item_arg (i : item) : arg :=
  match it_conv i with
  | Fp => APtr (it_value i)
  | _ => match (size_kind (it_size i)).1 with KInt => AInt (it_value i) | KLong => ALong (it_value i) | KLLong => ALLong (it_value i) end
  end.

Definition item_bits (i : item) : Z := match it_conv i with Fp => long_bits | _ => (size_kind (it_size i)).2 end.
Definition item_target (i : item) : nat := int_target need_long_long (it_conv i) (it_size i).

Definition item_ok (i : item) : bool :=
  match it_conv i with
  | Fd | Fi | Fu | Fo | Fx | FX => true
  | Fb => need_percent_b
  | Fp => match it_size i with SNone => true | _ => false end
  | _ => false
  end && match it_size i with SJ | SZ | ST => need_c99 | _ => true end.

Definition item_text (i : item) : list Z :=
  let x := it_value i in
  let u := uwrap (item_bits i) x in
  match it_conv i with
  | Fd | Fi =>
      let v := swrap (item_bits i) x in
      signed_text (v <? 0) (digits_text 10 false (Z.abs v))
  | Fp => if u =? 0 then digits_text 16 false u else 48 :: 120 :: digits_text 16 false u
  | Fu => digits_text 10 false u
  | Fo => digits_text 8 false u
  | FX => digits_text 16 true u
  | Fb => digits_text 2 false u
  | _ => digits_text 16 false u
  end.

Definition print_piece (i : item) : piece := Conv (Dir [] WNone PNone (it_size i) (it_conv i)).
Definition scan_piece (i : item) : spiece := SConv (SDir false [] (it_size i) (ScInt (it_conv i))).

(** The format, for printing and for reading: the conversions with spaces
    between them. *)
Definition print_pieces (its : list item) : list piece :=
  match its with [] => [] | i :: its => print_piece i :: flat_map (fun i => [Lit 32; print_piece i]) its end.
Definition scan_pieces (its : list item) : list spiece :=
  match its with [] => [] | i :: its => scan_piece i :: flat_map (fun i => [SSpace 32; scan_piece i]) its end.

Lemma same_format its : format_text (print_pieces its) = sformat_text (scan_pieces its).
Proof.
  destruct its as [|i its]; [done|]. cbn [print_pieces scan_pieces format_text sformat_text flat_map]. f_equal.
  induction its as [|j its IH]; [done|]. cbn [flat_map app piece_text spiece_text]. unfold format_text, sformat_text in *. by rewrite IH.
Qed.

Lemma item_bits_range i : 8 <= item_bits i <= 64.
Proof.
  unfold item_bits, ScanfSpec.target_size, PrintfSpec.size_kind, long_bits, long_size.
  destruct (it_conv i), (it_size i), long64, need_long_long; simpl; lia.
Qed.

(** The target holds exactly the bits that are printed. *)
Lemma item_target_bits i : 8 * Z.of_nat (item_target i) = item_bits i.
Proof.
  unfold item_target, item_bits, int_target, ScanfSpec.target_size, PrintfSpec.size_kind, long_bits, long_size.
  destruct (it_conv i), (it_size i), long64, need_long_long; done.
Qed.

(** *** Printing *)

Lemma number_field_plain pre prefix digits : number_field false false 0 None pre prefix digits = pre ++ prefix ++ digits.
Proof.
  unfold number_field, field, spaces. cbn [andb negb]. rewrite (Z2Nat.nonpos (0 - _)) by lia. cbn [replicate app]. by rewrite <- app_assoc.
Qed.

Lemma value_text_plain base upper v : value_text base upper v None = digits_text base upper v.
Proof. unfold value_text. by rewrite andb_false_r. Qed.

Lemma render_item i args :
  item_ok i = true -> render need_long_long (Dir [] WNone PNone (it_size i) (it_conv i)) (item_arg i :: args) = Some (item_text i, args).
Proof.
  intros [Hc _]%andb_true_iff. unfold render. cbn [d_width d_prec get_width get_prec]. change (0 <? 0) with false. change (Z.abs 0) with 0.
  unfold render_conv, item_text, item_arg, item_bits, mem_flag in *. cbn [d_conv d_size d_flags existsb orb].
  destruct (it_conv i) eqn:Ec; try done.
  7: { cbn [unsigned_conv]. rewrite value_text_plain, number_field_plain.
    unfold alt_prefix. rewrite bool_decide_true by done. rewrite orb_true_r. by destruct (uwrap long_bits (it_value i) =? 0). }
  all: destruct (PrintfSpec.size_kind need_long_long (it_size i)) as [[] w]; cbn [fst snd unsigned_conv of_kind] in *.
  all: rewrite value_text_plain, number_field_plain; unfold sign_text, alt_prefix, signed_text; try done; by destruct (swrap w (it_value i) <? 0).
Qed.

(** The text after the first item, and the whole text. *)
Definition items_tail (its : list item) : list Z := flat_map (fun i => 32 :: item_text i) its.
Definition items_text (its : list item) : list Z := match its with [] => [] | i :: its => item_text i ++ items_tail its end.

Lemma render_items its :
  forallb item_ok its = true -> render_format need_long_long (print_pieces its) (map item_arg its) = Some (items_text its, []).
Proof.
  destruct its as [|i its]; [done|]. intros [Hi Ho]%andb_true_iff.
  assert (render_format need_long_long (flat_map (fun i => [Lit 32; print_piece i]) its) (map item_arg its) = Some (items_tail its, [])) as Ht.
  - induction its as [|j its IH]; [done|]. apply andb_true_iff in Ho as [Hj Ho].
    cbn [flat_map app map render_format render_piece print_piece]. rewrite (render_item j) by done. by rewrite (IH Ho).
  - cbn [print_pieces map render_format render_piece print_piece]. rewrite (render_item i) by done. by rewrite Ht.
Qed.

(** *** Reading *)

Lemma item_text_reads i :
  item_ok i = true ->
  exists neg body v, item_text i = signed_text neg body /\ reads need_percent_b (int_base (it_conv i)) body v /\
    bytes_of_int (item_target i) (if neg then - v else v) = bytes_of_int (item_target i) (it_value i).
Proof.
  intros Hi. pose proof (item_bits_range i) as Hb. pose proof (item_target_bits i) as Ht. unfold item_text. set (x := it_value i).
  assert (2 ^ item_bits i <= 2 ^ 64) as Hpow by (apply Z.pow_le_mono_r; lia).
  pose proof (uwrap_range (item_bits i) x ltac:(lia)) as Hu. pose proof (swrap_range (item_bits i) x ltac:(lia)) as Hs.
  assert (2 ^ (item_bits i - 1) < 2 ^ 64) as Hpow' by (apply Z.pow_lt_mono_r; lia).
  pose proof (bytes_of_int_uwrap (item_target i) (item_bits i) x ltac:(lia)) as Eu.
  pose proof (bytes_of_int_swrap (item_target i) (item_bits i) x ltac:(lia) ltac:(lia)) as Es.
  apply andb_true_iff in Hi as [Hc _]. destruct (it_conv i) eqn:Ec; try done; cbn [int_base].
  1, 2: eexists (_ <? 0), _, (Z.abs (swrap (item_bits i) x)); split; [reflexivity|]; split;
    [apply digits_text_reads; lia|rewrite <- Es; f_equal; destruct (Z.ltb_spec (swrap (item_bits i) x) 0); lia].
  5: { exists false. destruct (uwrap (item_bits i) x =? 0); eexists _, _; (split; [reflexivity|]); (split; [|exact Eu]);
    [apply digits_text_reads; lia|apply hex_text_reads; lia]. }
  all: exists false; eexists _, _; (split; [reflexivity|]); (split; [|exact Eu]); apply digits_text_reads; lia.
Qed.

(** It does not start with white space, and holds no terminator. *)
Lemma item_text_start i : item_ok i = true -> exists c l, item_text i = c :: l /\ isspace c = false /\ Forall nonzero_byte (c :: l).
Proof.
  intros Hi. destruct (item_text_reads i Hi) as (neg & body & v & -> & ((c & l & -> & Hs & _) & _ & Hnz & _) & _).
  destruct neg; [|by exists c, l]. exists 45, (c :: l). split_and!; [done..|]. by constructor; [unfold nonzero_byte|].
Qed.

Definition item_store (i : item) : sstore :=
  SStore (it_to i) (Z.of_nat (item_target i)) (bytes_of_int (item_target i) (it_value i)).

Definition at_end (l : list Z) : bool := match l with [] => true | _ => false end.

Lemma skipping_none c l' l k : l = c :: l' -> isspace c = false -> skipping l k = k l.
Proof. intros -> Hs. unfold skipping. cbn [span]. by rewrite Hs. Qed.

Lemma scan_item i n t eof :
  item_ok i = true -> stops t ->
  ref_conv need_long_long need_percent_b (SDir false [] (it_size i) (ScInt (it_conv i))) (Some (it_to i)) n (item_text i ++ t) eof =
    Matched [item_store i] t (at_end t).
Proof.
  intros Hi Ht. unfold ref_conv. cbn [sd_conv sd_size sd_width field_width].
  destruct (item_text_start i Hi) as (c & l & Hc & Hs & _). rewrite (skipping_none c (l ++ t)) by (done || by rewrite Hc).
  destruct (item_text_reads i Hi) as (neg & body & v & Htext & Hr & Hv). pose proof Hr as (_ & Hlen & _).
  assert (length (item_text i) <= 67)%nat as Hl by (rewrite Htext; destruct neg; simpl; lia).
  rewrite Htext, (ref_int_reads _ _ _ v) by (done || lia). rewrite <- Htext in *.
  unfold after. rewrite drop_app_length. rewrite (proj2 (Z.eqb_neq _ (2 ^ 32 - 1))) by lia.
  unfold item_store, item_target in *. by rewrite Hv.
Qed.

Lemma items_tail_stops its : stops (items_tail its).
Proof. destruct its; [by left|right; by eexists]. Qed.

Lemma after_space c l' l eof :
  l = c :: l' -> isspace c = false -> after (2 ^ 32) (length (span isspace (32 :: l))) (32 :: l) eof = (l, false).
Proof. intros -> Hs. cbn [span]. rewrite Hs. done. Qed.

Lemma scan_piece_item i ps tot n t eof args :
  item_ok i = true -> stops t ->
  ref_scan need_long_long need_percent_b (scan_piece i :: ps) tot n (item_text i ++ t) eof (it_to i :: args) =
    match ref_scan need_long_long need_percent_b ps tot (n + 1) t (at_end t) args with
    | Some (r, sts, l, eof) => Some (r, item_store i :: sts, l, eof)
    | None => None
    end.
Proof. intros Hi Ht. unfold scan_piece. cbn [ref_scan sd_star sd_conv]. by rewrite scan_item. Qed.

Lemma scan_tail its tot : forall n,
  forallb item_ok its = true ->
  ref_scan need_long_long need_percent_b (flat_map (fun i => [SSpace 32; scan_piece i]) its) tot n (items_tail its) (at_end (items_tail its)) (map it_to its) =
    Some (n + Z.of_nat (length its), map item_store its, [], true).
Proof.
  induction its as [|j its IH]; intros n Ho; [cbn; by rewrite Z.add_0_r|]. apply andb_true_iff in Ho as [Hj Ho].
  destruct (item_text_start j Hj) as (c & l & Hc & Hs & _). pose proof (items_tail_stops its) as Ht.
  change (items_tail (j :: its)) with (32 :: item_text j ++ items_tail its). cbn [flat_map app map].
  etrans; [|etrans; [refine (scan_piece_item j (flat_map (fun i => [SSpace 32; scan_piece i]) its) tot n (items_tail its) false (map it_to its) Hj Ht)|]].
  - cbn [ref_scan]. rewrite (after_space c (l ++ items_tail its)) by (done || by rewrite Hc). done.
  - rewrite IH by done. cbn [map length]. do 4 f_equal. lia.
Qed.

Lemma scan_items its tot n eof :
  its <> [] -> forallb item_ok its = true ->
  ref_scan need_long_long need_percent_b (scan_pieces its) tot n (items_text its) eof (map it_to its) =
    Some (n + Z.of_nat (length its), map item_store its, [], true).
Proof.
  intros Hne Ho. destruct its as [|i its]; [done|]. apply andb_true_iff in Ho as [Hi Ho].
  cbn [scan_pieces items_text map]. rewrite scan_piece_item by (done || apply items_tail_stops). rewrite scan_tail by done.
  cbn [length]. do 4 f_equal. lia.
Qed.

Lemma items_text_nonzero its : forallb item_ok its = true -> Forall nonzero_byte (items_text its).
Proof.
  assert (forallb item_ok its = true -> Forall nonzero_byte (items_tail its)) as Htail.
  { induction its as [|j its IH]; [constructor|]. intros [Hj Ho]%andb_true_iff. destruct (item_text_start j Hj) as (c & l & Hc & _ & Hnz).
    change (items_tail (j :: its)) with (32 :: item_text j ++ items_tail its).
    rewrite Hc. constructor; [unfold nonzero_byte; lia|]. apply Forall_app_2; auto. }
  destruct its as [|i its]; [constructor|]. intros Ho. pose proof (Htail Ho) as Hnz. cbn [items_tail flat_map app] in Hnz. by inversion Hnz.
Qed.

Lemma pieces_ok its :
  forallb item_ok its = true ->
  forallb (piece_ok need_c99 need_percent_b) (print_pieces its) = true /\
  forallb (spiece_ok need_c99 need_percent_b need_bracket) (scan_pieces its) = true /\
  length (scan_pieces its) = (2 * length its - 1)%nat.
Proof.
  assert (forall i, item_ok i = true -> piece_ok need_c99 need_percent_b (print_piece i) = true /\
      spiece_ok need_c99 need_percent_b need_bracket (scan_piece i) = true) as H1.
  { intros i Hi. unfold item_ok in Hi. cbn [piece_ok spiece_ok print_piece scan_piece]. unfold dir_ok, sdir_ok.
    cbn [d_flags d_width d_prec d_size d_conv sd_width sd_size sd_conv forallb andb].
    destruct (it_conv i), (it_size i), need_percent_b, need_c99; done. }
  destruct its as [|i its]; [done|]. intros [Hi Ho]%andb_true_iff. cbn [print_pieces scan_pieces forallb length].
  destruct (H1 i Hi) as [-> ->]. cbn [andb]. induction its as [|j its IH]; [done|]. apply andb_true_iff in Ho as [Hj Ho].
  cbn [flat_map app forallb length]. destruct (H1 j Hj) as [-> ->], (IH Ho) as (-> & -> & E). split_and!; [done..|]. simpl in *. lia.
Qed.
End items.

(** ** Stores that do not overlap *)

Definition stores_disjoint (a b : sstore) : Prop :=
  disjoint_blk (st_addr a) (Z.of_nat (length (st_bytes a))) (st_addr b) (Z.of_nat (length (st_bytes b))).

Lemma puts_frame sts p l : forall m,
  Forall (fun st => disjoint_blk (st_addr st) (Z.of_nat (length (st_bytes st))) p (Z.of_nat (length l))) sts ->
  bytes_at m p l -> bytes_at (puts m sts) p l.
Proof.
  induction sts as [|st sts IH]; intros m Hd Hl; [done|]. inversion_clear Hd as [|? ? Hst Hd']. cbn [puts fold_left].
  apply IH; [done|]. by apply bytes_at_put_disjoint.
Qed.

Lemma puts_at sts : forall m,
  ForallOrdPairs stores_disjoint sts -> Forall (fun st => bytes_at (puts m sts) (st_addr st) (st_bytes st)) sts.
Proof.
  induction sts as [|st sts IH]; intros m Hd; [constructor|]. inversion_clear Hd as [|? ? Hst Hd']. constructor; [|by apply IH].
  cbn [puts fold_left]. apply puts_frame; [|apply put_bytes_at]. eapply Forall_impl; [exact Hst|].
  intros x Hx. unfold stores_disjoint, disjoint_blk in *. lia.
Qed.

Lemma puts_outside sts a : forall m,
  Forall (fun st => ~ st_addr st <= a < st_addr st + Z.of_nat (length (st_bytes st))) sts -> puts m sts !! a = m !! a.
Proof.
  induction sts as [|st sts IH]; intros m Hd; [done|]. inversion_clear Hd as [|? ? Hst Hd']. cbn [puts fold_left].
  etrans; [by apply IH|]. by rewrite lookup_put_bytes, decide_False.
Qed.

(** ** The round trip *)

Section round_trip.
Context `{Arch}.
Variables (need_long_long need_c99 need_percent_b fancy_divmod need_bracket : bool).

(** The target is aligned, mapped and apart from the text. *)
Definition target_free (m : mem) (s n : Z) (i : item) : Prop :=
  let k := Z.of_nat (item_target need_long_long i) in
  0 < it_to i /\ it_to i mod k = 0 /\ mapped m (it_to i) k /\ disjoint_blk (it_to i) k s n.

Definition targets_disjoint (i j : item) : Prop :=
  disjoint_blk (it_to i) (Z.of_nat (item_target need_long_long i)) (it_to j) (Z.of_nat (item_target need_long_long j)).

Lemma targets_stores its : ForallOrdPairs targets_disjoint its -> ForallOrdPairs stores_disjoint (map (item_store need_long_long) its).
Proof.
  induction 1 as [|i its Hi _ IH]; [constructor|]. constructor; [|done]. apply Forall_map. eapply Forall_impl; [exact Hi|].
  intros j Hj. unfold stores_disjoint, item_store, targets_disjoint in *. cbn [st_addr st_bytes]. by rewrite !bytes_of_int_length.
Qed.

Lemma reads_back_spec fuel its s n m :
  its <> [] -> (length its <= 128)%nat -> forallb (item_ok need_c99 need_percent_b) its = true -> (64 < fuel)%nat ->
  let text := items_text need_long_long its in
  let fmt := format_text (print_pieces its) ++ [0] in
  (length fmt <= fuel)%nat -> (length text < fuel)%nat -> Z.of_nat (length text) <= INT_MAX ->
  0 < s -> Z.of_nat (length text) < n < 2 ^ long_bits -> mapped m s n ->
  Forall (target_free m s n) its ->
  exists m1, vsnprintf need_long_long need_c99 need_percent_b fancy_divmod fuel s n fmt (map (item_arg need_long_long) its) m =
      Some (Z.of_nat (length text), m1) /\ m1 = put_bytes m s (text ++ [0]) /\
    vsscanf need_long_long need_c99 need_percent_b need_bracket fuel s fmt (map it_to its) m1 =
      Some (Z.of_nat (length its), puts m1 (map (item_store need_long_long) its)).
Proof.
  intros Hne H128 Hok H64 text fmt Hf1 Hf2 Hmax Hs Hn Hm Hfree.
  destruct (pieces_ok need_c99 need_percent_b need_bracket its Hok) as (Hp & Hsp & Hlen).
  assert (length fmt = length (format_text (print_pieces its)) + 1)%nat as Hfl by (subst fmt; rewrite length_app; simpl; lia).
  pose proof (items_text_nonzero need_long_long need_c99 need_percent_b its Hok) as Hnz. fold text in Hnz.
  assert (map (uwrap 8) text = text) as Hbytes.
  { clear -Hnz. induction Hnz as [|c l Hc _ IH]; [done|]. cbn [map]. rewrite uwrap_byte_id, IH by (unfold nonzero_byte, is_byte in *; lia). done. }
  exists (put_bytes m s (text ++ [0])). split; [|split; [done|]].
  - subst fmt. rewrite (vsnprintf_spec _ _ _ _ fuel _ _ [] text) by (lia || done || by eapply render_items).
    rewrite (proj2 (Z.eqb_neq n 0)), Hbytes, firstn_all2 by lia. done.
  - subst fmt. rewrite same_format in *. unfold vsscanf.
    destruct (vfscanf_spec need_long_long need_c99 need_percent_b need_bracket fuel (s, n) (scan_pieces its) (map it_to its) text false false
      (FDEV_SETUP_STRING_READ s (put_bytes m s (text ++ [0]))) (0 + Z.of_nat (length its)) (map (item_store need_long_long) its) [] true)
      as (b' & f & -> & _ & Hmem); try done; try lia.
    + split; [done|]. exists text. cbn [fs_mem fs_pos fs_unget FDEV_SETUP_STRING_READ fst snd]. split_and!; try done; [split; [done|apply put_bytes_at]|lia..].
    + by apply scan_items with (need_c99 := need_c99).
    + apply Forall_map. eapply Forall_impl; [exact Hfree|]. intros i (H1 & H2 & H3 & H4). unfold store_ok, item_store. cbn [st_addr st_align st_bytes fst snd].
      rewrite bytes_of_int_length. split_and!; try done. by apply put_bytes_mapped.
    + cbn [g_mem str_get_stream] in Hmem. by rewrite Hmem.
Qed.
End round_trip.
