(* ===== verification/PrintfProps.v ===== *)
(** * Formatted output: what it guarantees

    The theorems on vfprintf and on the calls that print into memory and into a
    buffered file, with the format and the arguments on which they are evaluated. *)

From stdpp Require Import base list gmap.
From Stdlib Require Import ZArith Lia.
From S2P Require Import Prelude CMem Demo Convert Strto Stdio StdioSpec StdioStream StdioProps Printf PrintfSpec PrintfConv PrintfRun Sprintf.

Local Open Scope Z_scope.

(** ** A concrete format *)

(** A stream that keeps what is put; it takes [room] characters. *)
Definition sink (room : Z) : PutStream (Z * list Z) := {|
  str_flags := fst;
  str_set_flags := fun fl s => (fl, s.2);
  str_put := fun c s => if Z.of_nat (length s.2) <? room then Some (c, (s.1, s.2 ++ [c])) else Some (-1, s) |}.

(** ["n=%+06d %#-*.3x|%.2s%%%c"] *)
Definition pieces0 : list piece :=
  [Lit 110; Lit 61;
   Conv (Dir [43; 48] (WNum [6]) PNone SNone Fd); Lit 32;
   Conv (Dir [35; 45] WStar (PNum [3]) SL Fx); Lit 124;
   Conv (Dir [] WNone (PNum [2]) SNone Fs); Percent;
   Conv (Dir [] WNone PNone SNone Fc)].
Definition args0 : list arg := [AInt (-42); AInt 8; ALong 10; AStr (Some [97; 98; 99; 0]); AInt 33].

(** ["n=-00042 0x00a   |ab%!"] *)
Definition out0 : list Z :=
  [110; 61; 45; 48; 48; 48; 52; 50; 32; 48; 120; 48; 48; 97; 32; 32; 32; 124; 97; 98; 37; 33].

(** ** The guarantees *)

Section guarantees.
Context `{Arch}.
Variables (need_long_long need_c99 need_percent_b fancy_divmod : bool).
Variable fuel : nat.

(** C10: for every format made of plain characters, "%%" and conversion
    specifications (flags, width, precision, size, the conversions
    d i u o x X p b B c s and the floating-point ones that the integer variants
    replace by "*float*") and for arguments of the types it asks for, vfprintf
    puts exactly the characters of the reference [render_format], in order, and
    returns their number; when the stream refuses one it stops there, sets the
    error flag and returns -1.  The digit buffer is never overrun. *)
Theorem vfprintf_correct {S : Type} `{PutStream S} ps args out rest (s : S) :
  (64 < fuel)%nat -> (length (format_text ps) < fuel)%nat -> (length out < fuel)%nat ->
  forallb (piece_ok need_c99 need_percent_b) ps = true ->
  render_format need_long_long ps args = Some (out, rest) -> Z.of_nat (length out) <= INT_MAX ->
  Z.land (str_flags s) 0x0002 <> 0 ->
  vfprintf need_long_long need_c99 need_percent_b fancy_divmod fuel (format_text ps ++ [0]) args s =
  match outs out s with
  | Some (true, s') => Some (Z.of_nat (length out), s')
  | Some (false, s') => Some (-1, str_set_flags (uwrap 8 (Z.lor (str_flags s') 0x0004)) s')
  | None => None
  end.
Proof. intros. by apply (vfprintf_spec _ _ _ _ _ ltac:(eassumption) ps args out rest). Qed.

(** C11: [vsnprintf] writes at most [n] bytes, whatever the length of the output:
    the first [n - 1] characters of it and a terminator, and nothing when [n] is
    zero; it returns the length of the whole output.  With [n] large enough the
    buffer holds exactly the string, which is what [vsprintf] stores without a
    limit. *)
Theorem vsnprintf_correct ps args out rest s n m :
  (64 < fuel)%nat -> (length (format_text ps) < fuel)%nat -> (length out < fuel)%nat ->
  forallb (piece_ok need_c99 need_percent_b) ps = true ->
  render_format need_long_long ps args = Some (out, rest) -> Z.of_nat (length out) <= INT_MAX ->
  0 < s -> 0 <= n < 2 ^ long_bits -> mapped m s n ->
  (exists m',
    vsnprintf need_long_long need_c99 need_percent_b fancy_divmod fuel s n (format_text ps ++ [0]) args m =
      Some (Z.of_nat (length out), m') /\
    (forall a, ~ s <= a < s + Z.min n (Z.of_nat (length out) + 1) -> m' !! a = m !! a) /\
    (0 < n -> bytes_at m' s (take (Z.to_nat (n - 1)) (map (uwrap 8) out) ++ [0]))) /\
  (Z.of_nat (length out) < n ->
    vsprintf need_long_long need_c99 need_percent_b fancy_divmod fuel s (format_text ps ++ [0]) args m =
    vsnprintf need_long_long need_c99 need_percent_b fancy_divmod fuel s n (format_text ps ++ [0]) args m).
Proof.
  intros H64 Hf1 Hf2 Hok Hr Hmax Hs Hn Hm.
  rewrite (vsnprintf_spec _ _ _ _ fuel ps args rest out) by done. split.
  - eexists. split; [reflexivity|]. destruct (Z.eqb_spec n 0) as [->|Hn0]; [split; [done|lia]|].
    split; [|intros _; apply put_bytes_at]. intros a Ha. rewrite lookup_put_bytes, decide_False; [done|].
    rewrite length_app, length_take, length_map. simpl. lia.
  - intros Hlt. rewrite (vsprintf_spec _ _ _ _ fuel ps args rest out) by (done || (eapply mapped_weaken; [exact Hm|lia|lia])).
    rewrite (proj2 (Z.eqb_neq n 0)) by lia. by rewrite firstn_all2 by (rewrite length_map; lia).
Qed.

(** C12: [fprintf] on a buffered file refines the write of the rendered text to
    the abstract stream, from any state of the buffer, where the text ends at a
    position of type __off_t. *)
Theorem fprintf_correct {D : Type} `{Device D} {DOk : DeviceOk D} ps args out rest (f : FILE D) :
  (64 < fuel)%nat -> (length (format_text ps) < fuel)%nat -> (length out < fuel)%nat ->
  forallb (piece_ok need_c99 need_percent_b) ps = true ->
  render_format need_long_long ps args = Some (out, rest) -> Z.of_nat (length out) <= INT_MAX ->
  open f -> (Z.to_nat (size f) < fuel)%nat -> a_pos (abs f) + Z.of_nat (length out) <= OFF_MAX ->
  exists f', fprintf fuel need_long_long need_c99 need_percent_b fancy_divmod (format_text ps ++ [0]) args f =
      Some (Z.of_nat (length out), f') /\ open f' /\ size f' = size f /\ sabs f' = s_write out (sabs f).
Proof. intros. by eapply (fprintf_spec fuel _ _ _ _ ps args out rest f). Qed.

(** A format that ends in a single "%" is read past its terminator: the "%"
    and the terminator are put, and the bytes that happen to follow in memory
    are taken as the rest of the format. *)
Theorem lone_percent_reads_on {S : Type} `{PutStream S} ps args out rest (s : S) :
  (64 < fuel)%nat -> (length (format_text ps) + 1 < fuel)%nat -> (length out < fuel)%nat ->
  forallb (piece_ok need_c99 need_percent_b) ps = true ->
  render_format need_long_long ps args = Some (out, rest) -> Z.of_nat (length out) + 2 <= INT_MAX ->
  Z.land (str_flags s) 0x0002 <> 0 ->
  vfprintf need_long_long need_c99 need_percent_b fancy_divmod fuel ([37; 0] ++ format_text ps ++ [0]) args s =
  match outs ([37; 0] ++ out) s with
  | Some (true, s') => Some (Z.of_nat (length out) + 2, s')
  | Some (false, s') => Some (-1, str_set_flags (uwrap 8 (Z.lor (str_flags s') 0x0004)) s')
  | None => None
  end.
Proof. intros. by apply (lone_percent_spec _ _ _ _ _ ltac:(eassumption) ps args out rest). Qed.
End guarantees.

(** The division by ten with shifts and additions, of the targets without a
    wide division, is the division by ten, at 32 and at 64 bits. *)
Theorem udivmod10_correct w n :
  w = 32 \/ w = 64 -> 0 <= n < 2 ^ w -> udivmod10 w n = (n / 10, n mod 10).
Proof. apply udivmod10_spec. Qed.

(** ** Evaluation *)

Ltac evaluates := vm_compute; first [done | lia].

(** A stream with room and one that takes five characters. *)
Lemma vfprintf_witness :
  vfprintf (H := LP64) (H0 := sink 100) true true true false 100 (format_text pieces0 ++ [0]) args0 (2, []) = Some (22, (2, out0)) /\
  vfprintf (H := LP64) (H0 := sink 5) true true true true 100 (format_text pieces0 ++ [0]) args0 (2, []) = Some (-1, (6, take 5 out0)).
Proof.
  split; (etrans; [eapply (vfprintf_correct (H := LP64) true true true _ 100 pieces0 args0 out0 []); evaluates|reflexivity]).
Defined.

(** A block of 30 bytes; ten of them are given to the call. *)
Definition block0 : mem := list_to_map (map (fun i => (200 + Z.of_nat i, 7)) (seq 0 30)).

Lemma vsnprintf_witness :
  (exists m', vsnprintf (H := LP64) true true true false 100 200 10 (format_text pieces0 ++ [0]) args0 block0 = Some (22, m') /\
    (forall a, ~ 200 <= a < 200 + 10 -> m' !! a = block0 !! a) /\ (0 < 10 -> bytes_at m' 200 (take 9 out0 ++ [0]))) /\
  vsprintf (H := LP64) true true true false 100 200 (format_text pieces0 ++ [0]) args0 block0 =
    vsnprintf (H := LP64) true true true false 100 200 30 (format_text pieces0 ++ [0]) args0 block0.
Proof.
  assert (mapped block0 200 30) as Hm by by apply mapped_check. split.
  - apply (vsnprintf_correct (H := LP64) true true true false 100 pieces0 args0 out0 [] 200 10 block0); try evaluates.
    eapply mapped_weaken; [exact Hm|lia|lia].
  - apply (vsnprintf_correct (H := LP64) true true true false 100 pieces0 args0 out0 [] 200 30 block0); evaluates.
Defined.

Lemma fprintf_witness :
  exists f', fprintf (H := ram) (H0 := LP64) 100 true true true false (format_text pieces0 ++ [0]) args0 stream0 = Some (22, f') /\
    open f' /\ size f' = size stream0 /\ sabs f' = s_write out0 (sabs stream0).
Proof.
  apply (fprintf_correct (H := LP64) true true true false 100 pieces0 args0 out0 [] stream0); [evaluates..|apply stream0_open|evaluates|vm_compute; congruence].
Defined.

(** ["%"] followed in memory by the string ["A%d"]. *)
Lemma lone_percent_witness :
  vfprintf (H := ILP32) (H0 := sink 100) true true true false 100 [37; 0; 65; 37; 100; 0] [AInt 7] (2, []) = Some (4, (2, [37; 0; 65; 55])).
Proof.
  etrans; [eapply (lone_percent_reads_on (H := ILP32) true true true false 100 [Lit 65; Conv (Dir [] WNone PNone SNone Fd)] [AInt 7] [65; 55] []); evaluates|].
  reflexivity.
Defined.

Lemma udivmod10_witness : udivmod10 64 18446744073709551615 = (1844674407370955161, 5).
Proof. apply (udivmod10_correct 64 18446744073709551615); [by right|lia]. Defined.
