(* ===== verification/ScanfProps.v ===== *)
(** * Formatted input: what it guarantees

    The theorems on vfscanf over any stream, on the calls that read a string and a
    buffered file, and the round trip with formatted output, with the inputs on
    which they are evaluated. *)

From stdpp Require Import base list gmap.
From Stdlib Require Import ZArith Lia.
From S2P Require Import Prelude CMem CInt Demo StrStr Convert Strto Stdio StdioSpec StdioStream StdioProps Printf PrintfSpec PrintfConv PrintfRun Sprintf Scanf ScanfSpec ScanfRun ScanfFormat Sscanf ScanPrint PrintfProps.

Local Open Scope Z_scope.

Section guarantees.
Context `{Arch}.
Variables (need_long_long need_c99 need_percent_b need_bracket : bool).
Variable fuel : nat.

(** C13: for every format made of white space, ordinary characters, "%%" and
    conversion specifications (assignment suppression, width, size, the
    conversions d i u o x X p b s c n and scan sets with ranges and negation) and
    on every stream that satisfies [GetStreamOk], vfscanf takes from the input,
    stores and returns exactly what the reference [ref_scan] says, on a match as
    well as on a mismatch or at the end of the input; one character at most is
    pushed back, and nothing but the targets is written.  Widths are the documented
    ones: from 1 to 255 where they are given, and where they are not the input is
    one on which the documented default of 255 makes no difference. *)
Theorem vfscanf_correct {S : Type} `{GetStreamOk S} r ps args l eof b (s : S) res sts l' eof' :
  gs_rep r l eof b s -> Z.of_nat (length l) <= INT_MAX ->
  forallb (spiece_ok need_c99 need_percent_b need_bracket) ps = true -> forallb width_ok ps = true -> (length ps <= 255)%nat ->
  ref_scan need_long_long need_percent_b (documented ps) (Z.of_nat (length l)) 0 l eof args = Some (res, sts, l', eof') ->
  ref_scan need_long_long need_percent_b ps (Z.of_nat (length l)) 0 l eof args =
    ref_scan need_long_long need_percent_b (documented ps) (Z.of_nat (length l)) 0 l eof args ->
  Forall (store_ok r (g_mem s)) sts -> (length l < fuel)%nat -> (length (sformat_text ps) < fuel)%nat ->
  exists b' s', vfscanf need_long_long need_c99 need_percent_b need_bracket fuel (sformat_text ps ++ [0]) args s = Some (res, s') /\
    gs_rep r l' eof' b' s' /\ g_mem s' = puts (g_mem s) sts.
Proof. intros Hs Hl Hok _ Hps Hr E. rewrite <- E in Hr. intros. by eapply vfscanf_spec. Qed.

(** C14: [fscanf] on a buffered file open for update, in any state of the buffer,
    reads the bytes from the current position on (a character pushed back first)
    as the reference says, with the documented widths; the file is left open with
    exactly the rest of the input to read, so a following read sees the first
    character not taken. *)
Theorem fscanf_correct {D : Type} `{Device D} {DOk : DeviceOk D} ps args (f : FILE D) m res sts l' eof' :
  open f -> (Z.to_nat (size f) < fuel)%nat -> Z.testbit (flags f) 2 = false -> 0 <= a_pos (s_file (sabs f)) ->
  let l := to_read (sabs f) in
  Forall is_byte l -> Z.of_nat (length l) <= INT_MAX ->
  forallb (spiece_ok need_c99 need_percent_b need_bracket) ps = true -> forallb width_ok ps = true -> (length ps <= 255)%nat ->
  ref_scan need_long_long need_percent_b (documented ps) (Z.of_nat (length l)) 0 l (s_eof (sabs f)) args = Some (res, sts, l', eof') ->
  ref_scan need_long_long need_percent_b ps (Z.of_nat (length l)) 0 l (s_eof (sabs f)) args =
    ref_scan need_long_long need_percent_b (documented ps) (Z.of_nat (length l)) 0 l (s_eof (sabs f)) args ->
  Forall (store_ok (0, 0) m) sts -> (length l < fuel)%nat -> (length (sformat_text ps) < fuel)%nat ->
  exists f', fscanf fuel need_long_long need_c99 need_percent_b need_bracket (sformat_text ps ++ [0]) args (f, m) =
      Some (res, (f', puts m sts)) /\
    open f' /\ (Z.to_nat (size f') < fuel)%nat /\ to_read (sabs f') = l' /\ s_eof (sabs f') = eof'.
Proof. intros Ho Hf He Hp l Hb Hl Hok _ Hps Hr E. rewrite <- E in Hr. intros. by apply fscanf_spec. Qed.

(** C15: what [vsnprintf] prints, [vsscanf] reads back with the same format: for a
    list of numbers printed with the conversions d i u o x X p b of any size, with
    spaces between them, the read returns the number of items, and every target
    holds the bytes of its number, whatever the number, at the width of its type;
    memory outside of the text and the targets is unchanged. *)
Theorem sscanf_reads_back fancy_divmod its s n m :
  its <> [] -> (length its <= 128)%nat -> forallb (item_ok need_c99 need_percent_b) its = true -> (64 < fuel)%nat ->
  let text := items_text need_long_long its in
  let fmt := format_text (print_pieces its) ++ [0] in
  (length fmt <= fuel)%nat -> (length text < fuel)%nat -> Z.of_nat (length text) <= INT_MAX ->
  0 < s -> Z.of_nat (length text) < n < 2 ^ long_bits -> mapped m s n ->
  Forall (target_free need_long_long m s n) its -> ForallOrdPairs (targets_disjoint need_long_long) its ->
  exists m1 m2,
    vsnprintf need_long_long need_c99 need_percent_b fancy_divmod fuel s n fmt (map (item_arg need_long_long) its) m =
      Some (Z.of_nat (length text), m1) /\
    vsscanf need_long_long need_c99 need_percent_b need_bracket fuel s fmt (map it_to its) m1 = Some (Z.of_nat (length its), m2) /\
    Forall (fun i => bytes_at m2 (it_to i) (bytes_of_int (item_target need_long_long i) (it_value i))) its /\
    forall a, ~ s <= a < s + n -> Forall (fun i => ~ it_to i <= a < it_to i + Z.of_nat (item_target need_long_long i)) its ->
      m2 !! a = m !! a.
Proof.
  intros Hne H128 Hok H64 text fmt Hf1 Hf2 Hmax Hs Hn Hm Hfree Hdis.
  destruct (reads_back_spec need_long_long need_c99 need_percent_b fancy_divmod need_bracket fuel its s n m) as (m1 & E1 & Hm1 & E2); try done.
  exists m1, (puts m1 (map (item_store need_long_long) its)). split_and!; [done..| |].
  - apply Forall_map with (f := item_store need_long_long) (P := fun st => bytes_at _ (st_addr st) (st_bytes st)), puts_at, targets_stores, Hdis.
  - intros a Ha Hout. rewrite puts_outside, Hm1, lookup_put_bytes, decide_False; [done| |].
    + fold text. rewrite length_app. cbn [length]. lia.
    + apply Forall_map. eapply Forall_impl; [exact Hout|]. intros i Hi. unfold item_store. cbn [st_addr st_bytes]. by rewrite bytes_of_int_length.
Qed.
End guarantees.

(** ** Evaluation *)

(** ["%d:%2x %*c%[a-c]"] *)
Definition spieces0 : list spiece :=
  [SConv (SDir false [] SNone (ScInt Fd)); SLit 58; SConv (SDir false [2] SH (ScInt Fx)); SSpace 32;
   SConv (SDir true [] SNone ScChars); SConv (SDir false [] SNone (ScSet false [CRange 97 99]))].

(** ["-17:1f -bad"] *)
Definition input0 : list Z := [45; 49; 55; 58; 49; 102; 32; 45; 98; 97; 100].

(** 160 bytes, with the input at 200. *)
Definition room0 : mem := put_bytes (list_to_map (map (fun i => (100 + Z.of_nat i, 7)) (seq 0 160))) 200 (input0 ++ [0]).

Definition stores0 : list sstore := [SStore 100 4 [239; 255; 255; 255]; SStore 104 2 [31; 0]; SStore 110 1 [98; 97; 0]].

(** Targets in a concrete memory. *)
Ltac free_targets :=
  repeat (apply Forall_cons; split); [..|apply Forall_nil; done];
  (split; [by vm_compute|split; [by vm_compute|split; [by apply mapped_check; vm_compute|first [left; by vm_compute|right; by vm_compute]]]]).

Lemma vfscanf_witness :
  exists b' s', vfscanf (H := LP64) true true true true 100 (sformat_text spieces0 ++ [0]) [100; 104; 110] (FDEV_SETUP_STRING_READ 200 room0) =
      Some (3, s') /\
    gs_rep (200, 12) [100] false b' s' /\ g_mem s' = puts room0 stores0.
Proof.
  destruct (vfscanf_correct (H := LP64) true true true true 100 (200, 12) spieces0 [100; 104; 110] input0 false false
    (FDEV_SETUP_STRING_READ 200 room0) 3 stores0 [100] false) as (b' & s' & E & Hr & Hm);
    [|evaluates|evaluates|evaluates|evaluates|evaluates|evaluates|cbn [g_mem str_get_stream fs_mem FDEV_SETUP_STRING_READ]; free_targets|evaluates|evaluates|].
  - split; [done|]. exists input0. split; [by apply cstr_check; vm_compute|]. done.
  - cbn [g_mem str_get_stream fs_mem FDEV_SETUP_STRING_READ] in Hm. exists b', s'. split_and!; [exact E|exact Hr|exact Hm].
Defined.

(** A width of zero is not refused: "%0d" reads like "%d". *)
Example zero_width :
  option_map (fun '(r, s) => (r, map (fun a => fs_mem s !! a) [100; 101; 102; 103]))
    (vfscanf (H := LP64) true true true true 100 [37; 48; 100; 0] [100] (FDEV_SETUP_STRING_READ 200 room0)) =
  Some (1, [Some 239; Some 255; Some 255; Some 255]).
Proof. vm_compute. reflexivity. Qed.

(** The file of [stream0] holds "Hello". *)
Lemma fscanf_witness :
  exists f', fscanf (H := ram) (H0 := LP64) 100 true true true true (sformat_text [SLit 72; SConv (SDir false [3] SNone ScStr); SConv (SDir false [] SNone ScCount)] ++ [0])
      [110; 120] (stream0, room0) = Some (1, (f', puts room0 [SStore 110 1 [101; 108; 108; 0]; SStore 120 4 [4; 0; 0; 0]])) /\
    open f' /\ (Z.to_nat (size f') < 100)%nat /\ to_read (sabs f') = [111] /\ s_eof (sabs f') = false.
Proof.
  apply (fscanf_correct (H := LP64) true true true true 100 [SLit 72; SConv (SDir false [3] SNone ScStr); SConv (SDir false [] SNone ScCount)]
    [110; 120] stream0 room0 1 [SStore 110 1 [101; 108; 108; 0]; SStore 120 4 [4; 0; 0; 0]] [111] false);
    [|evaluates|evaluates|evaluates| |evaluates|evaluates|evaluates|evaluates|evaluates|evaluates| |evaluates|evaluates].
  - apply stream0_open.
  - by repeat constructor.
  - free_targets.
Defined.

(** A short, a pointer and a wide number. *)
Definition items0 : list item := [Item Fd SH (-300) 100; Item Fp SNone 4096 104; Item FX SLL 255 112].

Lemma sscanf_reads_back_witness :
  exists m1 m2,
    vsnprintf (H := LP64) true true true false 100 200 40 (format_text (print_pieces items0) ++ [0]) (map (item_arg (H := LP64) true) items0) room0 =
      Some (14, m1) /\
    vsscanf (H := LP64) true true true true 100 200 (format_text (print_pieces items0) ++ [0]) [100; 104; 112] m1 = Some (3, m2) /\
    bytes_at m2 100 [212; 254].
Proof.
  destruct (sscanf_reads_back (H := LP64) true true true true 100 false items0 200 40 room0) as (m1 & m2 & E1 & E2 & Hb & _);
    [done|evaluates|evaluates|evaluates|evaluates|evaluates|evaluates|evaluates|evaluates| | | |].
  - by apply mapped_check; vm_compute.
  - free_targets.
  - repeat (first [apply FOP_nil|apply FOP_cons|apply Forall_nil; done|apply Forall_cons; split]); first [left; by vm_compute|right; by vm_compute].
  - exists m1, m2. split_and!; [exact E1|exact E2|]. by inversion Hb.
Defined.
