(* ===== verification/Float.v ===== *)
(** * Binary floating point

    The IEEE 754 binary formats as bit patterns, the numbers they stand for as
    integers (multiples of the smallest subnormal number), rounding in the four
    modes, and the arithmetic operations that the math library uses.  The standard
    leaves open which NaN an operation returns: the class [NanRules] stands for the
    machine's choice. *)

From stdpp Require Import base list.
From Stdlib Require Import ZArith Lia.
From S2P Require Import Prelude.

Local Open Scope Z_scope.

(** ** Formats *)

(** The widths of the fraction and of the exponent. *)
Class Fmt := { mbits : Z; ebits : Z; mbits_pos : 1 < mbits; ebits_pos : 2 < ebits }.

Definition b64 : Fmt.
Proof. by refine {| mbits := 52; ebits := 11 |}. Defined.
Definition b32 : Fmt.
Proof. by refine {| mbits := 23; ebits := 8 |}. Defined.

Section format.
Context `{Fmt}.

(** The bit of the sign, and the pattern of infinity without it. *)
Definition sbit : Z := mbits + ebits.
Definition inf_bits : Z := (2 ^ ebits - 1) * 2 ^ mbits.

Definition fman (x : Z) : Z := x mod 2 ^ mbits.
Definition fexp (x : Z) : Z := (x / 2 ^ mbits) mod 2 ^ ebits.
Definition fsign (x : Z) : bool := Z.testbit x sbit.
Definition fabs_bits (x : Z) : Z := x mod 2 ^ sbit.
Definition is_float (x : Z) : Prop := 0 <= x < 2 ^ (sbit + 1).

Definition is_finite (x : Z) : bool := fabs_bits x <? inf_bits.
Definition is_inf (x : Z) : bool := fabs_bits x =? inf_bits.
Definition is_nan (x : Z) : bool := inf_bits <? fabs_bits x.

(** The number, in units of the smallest subnormal: significand and exponent. *)
Definition fscale (x : Z) : Z := Z.max 0 (fexp x - 1).
Definition fsig (x : Z) : Z := if fexp x =? 0 then fman x else 2 ^ mbits + fman x.
Definition mag (x : Z) : Z := fsig x * 2 ^ fscale x.
Definition fval (x : Z) : Z := if fsign x then - mag x else mag x.

(** The number one is [2 ^ one_log] units. *)
Definition one_log : Z := 2 ^ (ebits - 1) - 2 + mbits.

Definition with_sign (neg : bool) (a : Z) : Z := if neg then a + 2 ^ sbit else a.

(** ** Rounding *)

Inductive rmode := ToNearest | Upward | Downward | TowardZero.

#[global] Instance rmode_eq_dec : EqDecision rmode.
Proof. solve_decision. Defined.

(** Whether the quotient [q] with the remainder [r] below [2 ^ s] is rounded away
    from zero. *)
Definition round_away (mode : rmode) (neg : bool) (q r s : Z) : bool :=
  match mode with
  | ToNearest => (2 ^ s <? 2 * r) || ((2 * r =? 2 ^ s) && Z.odd q)
  | Upward => negb neg && (0 <? r)
  | Downward => neg && (0 <? r)
  | TowardZero => false
  end.

(** The pattern when the number is too large. *)
Definition overflow_bits (mode : rmode) (neg : bool) : Z :=
  match mode, neg with
  | ToNearest, _ | Upward, false | Downward, true => inf_bits
  | _, _ => inf_bits - 1
  end.

(** The float for [v / 2 ^ k] units. *)
Definition fround (mode : rmode) (neg : bool) (v k : Z) : Z :=
  let e := Z.max 0 (Z.log2 v - k - mbits) in
  let q := v / 2 ^ (k + e) in
  let r := v mod 2 ^ (k + e) in
  let b := e * 2 ^ mbits + (if round_away mode neg q r (k + e) then q + 1 else q) in
  with_sign neg (if inf_bits <=? b then overflow_bits mode neg else b).

(** ** Operations *)

(** The NaN of an operation with a NaN operand, and of an invalid operation. *)
Class NanRules := { nan_of : Z -> Z -> Z; nan_invalid : Z }.
Class NanOk `{NanRules} := {
  nan_of_nan x y : is_nan (nan_of x y) = true;
  nan_invalid_nan : is_nan nan_invalid = true }.

Context `{NanRules}.

Definition fadd (mode : rmode) (x y : Z) : Z :=
  if is_nan x || is_nan y then nan_of x y
  else if is_inf x then (if is_inf y && negb (Bool.eqb (fsign x) (fsign y)) then nan_invalid else x)
  else if is_inf y then y
  else
    let s := fval x + fval y in
    if s =? 0 then with_sign (if Bool.eqb (fsign x) (fsign y) then fsign x else bool_decide (mode = Downward)) 0
    else fround mode (s <? 0) (Z.abs s) 0.

Definition fneg (x : Z) : Z := Z.lxor x (2 ^ sbit).
Definition fsub (mode : rmode) (x y : Z) : Z := if is_nan x || is_nan y then nan_of x y else fadd mode x (fneg y).

Definition fmul (mode : rmode) (x y : Z) : Z :=
  let neg := xorb (fsign x) (fsign y) in
  if is_nan x || is_nan y then nan_of x y
  else if is_inf x || is_inf y then (if (mag x =? 0) || (mag y =? 0) then nan_invalid else with_sign neg inf_bits)
  else fround mode neg (mag x * mag y) one_log.

(** Comparisons; infinity is the largest number. *)
Definition feq (x y : Z) : bool := negb (is_nan x || is_nan y) && (fval x =? fval y).
Definition flt (x y : Z) : bool := negb (is_nan x || is_nan y) && (fval x <? fval y).
End format.

(** ** The numbers *)

Section numbers.
Context `{Fmt}.

Lemma pow_m : 0 < 2 ^ mbits.
Proof. pose proof mbits_pos. apply Z.pow_pos_nonneg; lia. Qed.

Lemma pow_e : 4 <= 2 ^ ebits.
Proof. pose proof ebits_pos. apply (Z.pow_le_mono_r 2 2). all: lia. Qed.

Lemma pow_s : 2 ^ sbit = 2 ^ ebits * 2 ^ mbits.
Proof. pose proof mbits_pos. pose proof ebits_pos. unfold sbit. rewrite Z.pow_add_r by lia. lia. Qed.

Lemma inf_range : 0 < inf_bits < 2 ^ sbit.
Proof. pose proof pow_m. pose proof pow_e. rewrite pow_s. unfold inf_bits. nia. Qed.

Lemma fman_range x : 0 <= fman x < 2 ^ mbits.
Proof. apply Z.mod_pos_bound, pow_m. Qed.

Lemma fexp_range x : 0 <= fexp x < 2 ^ ebits.
Proof. apply Z.mod_pos_bound. pose proof pow_e. lia. Qed.

Lemma fabs_range x : 0 <= fabs_bits x < 2 ^ sbit.
Proof. apply Z.mod_pos_bound. pose proof inf_range. lia. Qed.

Lemma fsig_range x : 0 <= fsig x < 2 * 2 ^ mbits.
Proof. pose proof (fman_range x). unfold fsig. destruct (_ =? 0); lia. Qed.

(** Sign and absolute value. *)
Lemma fsign_val x : is_float x -> fsign x = (2 ^ sbit <=? x).
Proof.
  intros Hx. unfold fsign, is_float in *. pose proof inf_range as Hs. assert (0 <= sbit) by (unfold sbit; pose proof mbits_pos; pose proof ebits_pos; lia).
  rewrite Z.pow_add_r in Hx by lia. change (2 ^ 1) with 2 in Hx.
  assert (Z.testbit x sbit = Z.odd (x / 2 ^ sbit)) as -> by (rewrite <- Z.shiftr_div_pow2 by lia; rewrite <- Z.bit0_odd, Z.shiftr_spec by lia; by rewrite Z.add_0_l).
  destruct (Z.leb_spec (2 ^ sbit) x).
  - assert (x / 2 ^ sbit = 1) as ->; [|done]. symmetry. apply Z.div_unique with (r := x - 2 ^ sbit); lia.
  - by rewrite Z.div_small by lia.
Qed.

Lemma float_split x : is_float x -> x = with_sign (fsign x) (fabs_bits x).
Proof.
  intros Hx. rewrite fsign_val by done. unfold fabs_bits, with_sign, is_float in *. pose proof inf_range as Hs.
  assert (0 <= sbit) by (unfold sbit; pose proof mbits_pos; pose proof ebits_pos; lia).
  rewrite Z.pow_add_r in Hx by lia. change (2 ^ 1) with 2 in Hx. destruct (Z.leb_spec (2 ^ sbit) x).
  - rewrite <- (Z.mod_add x (-1)) by lia. rewrite Z.mod_small; lia.
  - by rewrite Z.mod_small by lia.
Qed.

Lemma with_sign_float neg a : 0 <= a < 2 ^ sbit -> is_float (with_sign neg a).
Proof.
  intros Ha. unfold is_float, with_sign. assert (0 <= sbit) by (unfold sbit; pose proof mbits_pos; pose proof ebits_pos; lia).
  rewrite Z.pow_add_r by lia. change (2 ^ 1) with 2. destruct neg; lia.
Qed.

Lemma with_sign_parts neg a : 0 <= a < 2 ^ sbit -> fsign (with_sign neg a) = neg /\ fabs_bits (with_sign neg a) = a.
Proof.
  intros Ha. rewrite fsign_val by by apply with_sign_float. unfold fabs_bits, with_sign. destruct neg.
  - rewrite (proj2 (Z.leb_le _ _)) by lia. split; [done|]. rewrite <- (Z.mod_add _ (-1)) by lia. rewrite Z.mod_small; lia.
  - rewrite (proj2 (Z.leb_gt _ _)) by lia. by rewrite Z.mod_small by lia.
Qed.

(** The fields do not depend on the sign. *)
Lemma fman_abs x : fman (fabs_bits x) = fman x.
Proof.
  unfold fman, fabs_bits. rewrite pow_s. apply Z.mod_mod_divide. by exists (2 ^ ebits).
Qed.

Lemma fexp_abs x : fexp (fabs_bits x) = fexp x.
Proof.
  unfold fexp, fabs_bits. pose proof pow_m. pose proof pow_e. rewrite pow_s, (Z.mul_comm (2 ^ ebits)), Z.rem_mul_r by lia.
  rewrite Z.mul_comm, Z.div_add by lia. rewrite (Z.div_small (x mod _)) by (apply Z.mod_pos_bound; lia). rewrite Z.add_0_l. apply Z.mod_mod. lia.
Qed.

Lemma mag_abs x : mag (fabs_bits x) = mag x.
Proof. unfold mag, fsig, fscale. by rewrite fexp_abs, fman_abs. Qed.

Lemma fval_with_sign neg a : 0 <= a < 2 ^ sbit -> fval (with_sign neg a) = if neg then - mag a else mag a.
Proof.
  intros Ha. destruct (with_sign_parts neg a Ha) as [Hs Hb]. unfold fval. rewrite Hs, <- (mag_abs (with_sign _ _)), Hb. done.
Qed.

(** A pattern is its scale and its significand, added. *)
Lemma pattern_split a : 0 <= a < 2 ^ sbit -> a = fscale a * 2 ^ mbits + fsig a.
Proof.
  intros Ha. unfold fscale, fsig, fexp, fman. pose proof pow_m. pose proof pow_e. rewrite pow_s in Ha.
  rewrite (Z.mod_small (a / 2 ^ mbits)) by (split; [apply Z.div_pos; lia|apply Z.div_lt_upper_bound; lia]).
  assert (a = 2 ^ mbits * (a / 2 ^ mbits) + a mod 2 ^ mbits) as E by (apply Z.div_mod; lia). assert (0 <= a / 2 ^ mbits) by (apply Z.div_pos; lia).
  set (d := a / 2 ^ mbits) in *. set (r := a mod 2 ^ mbits) in *. clearbody d r.
  destruct (Z.eqb_spec d 0) as [->|]; [lia|]. rewrite Z.max_r by lia. lia.
Qed.

Lemma scale_or_normal a : fscale a = 0 \/ 2 ^ mbits <= fsig a.
Proof. unfold fscale, fsig. pose proof (fman_range a). destruct (Z.eqb_spec (fexp a) 0); [left; lia|right; lia]. Qed.

Lemma fscale_nonneg a : 0 <= fscale a.
Proof. unfold fscale. lia. Qed.

(** Every scale and significand make a pattern, also when the significand is the
    next power of two. *)
Lemma mag_encode e q :
  0 <= e -> 0 <= q <= 2 * 2 ^ mbits -> e = 0 \/ 2 ^ mbits <= q -> e * 2 ^ mbits + q < 2 ^ sbit ->
  mag (e * 2 ^ mbits + q) = q * 2 ^ e.
Proof.
  intros He Hq Hn Hlt. pose proof pow_m. pose proof pow_e. rewrite pow_s in Hlt. set (P := 2 ^ mbits) in *.
  unfold mag, fsig, fscale, fexp, fman. fold P.
  destruct (Z.lt_ge_cases q P) as [Hs|Hs]; [|destruct (Z.lt_ge_cases q (2 * P)) as [Hs2|Hs2]].
  - assert (e = 0) as -> by lia. replace (0 * P + q) with q by lia. rewrite (Z.div_small q P), (Z.mod_small q P) by lia.
    rewrite (Z.mod_small 0) by lia. reflexivity.
  - assert ((e * P + q) / P = e + 1) as -> by (symmetry; apply Z.div_unique with (r := q - P); lia).
    assert ((e * P + q) mod P = q - P) as -> by (symmetry; apply Z.mod_unique with (q := e + 1); lia).
    rewrite Z.mod_small by nia. rewrite (proj2 (Z.eqb_neq _ 0)), Z.max_r by lia. f_equal; [lia|f_equal; lia].
  - assert (q = 2 * P) as -> by lia. assert ((e * P + 2 * P) / P = e + 2) as -> by (symmetry; apply Z.div_unique with (r := 0); lia).
    assert ((e * P + 2 * P) mod P = 0) as -> by (symmetry; apply Z.mod_unique with (q := e + 2); lia).
    rewrite Z.mod_small by nia. rewrite (proj2 (Z.eqb_neq _ 0)), Z.max_r by lia.
    replace (e + 2 - 1) with (Z.succ e) by lia. rewrite Z.pow_succ_r by lia. lia.
Qed.

(** Moving up [d] patterns, to the next power of two at most. *)
Lemma mag_add a d :
  0 <= a -> 0 <= d -> fsig a + d <= 2 * 2 ^ mbits -> fscale a = 0 \/ 2 ^ mbits <= fsig a -> a + d < 2 ^ sbit -> mag (a + d) = mag a + d * 2 ^ fscale a.
Proof.
  intros Ha Hd Hq Hn Hlt. pose proof (fsig_range a). rewrite (pattern_split a) at 1 by lia. rewrite <- Z.add_assoc. rewrite mag_encode; [unfold mag; lia|apply fscale_nonneg|lia|lia|].
  rewrite Z.add_assoc, <- pattern_split by lia. done.
Qed.

Lemma mag_succ a : 0 <= a -> a + 1 < 2 ^ sbit -> mag (a + 1) = mag a + 2 ^ fscale a.
Proof.
  intros Ha Hlt. pose proof (fsig_range a). rewrite (mag_add a 1); [lia..|apply scale_or_normal|lia].
Qed.

Lemma mag_mono a b : 0 <= a <= b -> b < 2 ^ sbit -> mag a + (b - a) <= mag b.
Proof.
  intros Hab Hb. replace b with (a + (b - a)) by lia. assert (0 <= b - a) as Hd by lia. assert (a + (b - a) < 2 ^ sbit) as Hlt by lia.
  assert (0 <= a) as Ha by lia. generalize dependent (b - a). clear Hab Hb b. intros d Hd Hlt. revert d Hd Hlt. refine (natlike_ind _ _ _).
  - intros. rewrite Z.add_0_r. lia.
  - intros d Hd IH Hlt. unfold Z.succ in *. rewrite Z.add_assoc, mag_succ by lia. specialize (IH ltac:(lia)).
    assert (0 < 2 ^ fscale (a + d)) by (apply Z.pow_pos_nonneg; [lia|apply fscale_nonneg]). lia.
Qed.

Lemma mag_nonneg a : 0 <= mag a.
Proof. unfold mag. pose proof (fsig_range a). assert (0 < 2 ^ fscale a) by (apply Z.pow_pos_nonneg; [lia|apply fscale_nonneg]). nia. Qed.

Lemma mag_0 : mag 0 = 0.
Proof. unfold mag, fsig, fman, fexp. pose proof pow_m. by rewrite Z.div_0_l, !Z.mod_0_l by (lia || pose proof pow_e; lia). Qed.

Lemma mag_zero a : 0 <= a < 2 ^ sbit -> mag a = 0 -> a = 0.
Proof. intros Ha Hm. pose proof (mag_mono 0 a ltac:(lia) ltac:(lia)). rewrite mag_0 in *. lia. Qed.

Lemma mag_inj a b : 0 <= a < 2 ^ sbit -> 0 <= b < 2 ^ sbit -> mag a = mag b -> a = b.
Proof.
  intros Ha Hb Hm. destruct (Z.le_ge_cases a b).
  - pose proof (mag_mono a b ltac:(lia) ltac:(lia)). lia.
  - pose proof (mag_mono b a ltac:(lia) ltac:(lia)). lia.
Qed.

Lemma mag_lt a b : 0 <= a < 2 ^ sbit -> 0 <= b < 2 ^ sbit -> mag a < mag b <-> a < b.
Proof.
  intros Ha Hb. destruct (Z.lt_ge_cases a b).
  - pose proof (mag_mono a b ltac:(lia) ltac:(lia)). lia.
  - pose proof (mag_mono b a ltac:(lia) ltac:(lia)). lia.
Qed.
End numbers.

(** ** Patterns with cleared low bits *)

Definition clear (k u : Z) : Z := u / 2 ^ k * 2 ^ k.

Section clearing.
Context `{Fmt}.

Definition bias : Z := 2 ^ (ebits - 1) - 1.

Lemma bias_range : 3 <= bias /\ 2 ^ ebits = 2 * bias + 2.
Proof.
  pose proof ebits_pos. unfold bias. assert (2 ^ ebits = 2 * 2 ^ (ebits - 1)) as -> by (rewrite <- Z.pow_succ_r by lia; f_equal; lia).
  assert (2 ^ 2 <= 2 ^ (ebits - 1)) by (apply Z.pow_le_mono_r; lia). change (2 ^ 2) with 4 in *. lia.
Qed.

Lemma one_log_eq : one_log = bias - 1 + mbits.
Proof. unfold one_log, bias. lia. Qed.

(** The exponent field and the place of the binary point. *)
Lemma exp_point a : bias <= fexp a -> mbits - (fexp a - bias) + fscale a = one_log /\ 2 ^ mbits <= fsig a.
Proof.
  intros Hb. pose proof bias_range. pose proof (fman_range a). rewrite one_log_eq. unfold fscale, fsig.
  rewrite (proj2 (Z.eqb_neq _ 0)) by lia. lia.
Qed.

Lemma mag_below_one a : fexp a < bias -> mag a < 2 ^ one_log.
Proof.
  intros Hb. pose proof (fsig_range a). pose proof pow_m. pose proof (fscale_nonneg a). pose proof mbits_pos. pose proof bias_range. pose proof (fexp_range a).
  unfold mag. assert (0 < 2 ^ fscale a) by (apply Z.pow_pos_nonneg; lia).
  assert (2 ^ fscale a * (2 * 2 ^ mbits) <= 2 ^ one_log); [|nia].
  replace (2 ^ fscale a * (2 * 2 ^ mbits)) with (2 ^ (fscale a + 1 + mbits)) by (rewrite !Z.pow_add_r by lia; change (2 ^ 1) with 2; lia).
  apply Z.pow_le_mono_r; [lia|]. rewrite one_log_eq. unfold fscale in *. destruct (Z.eq_dec (fexp a) 0); [|lia]. lia.
Qed.

Lemma mag_integral a : mbits <= fexp a - bias -> mag a mod 2 ^ one_log = 0.
Proof.
  intros Hb. pose proof bias_range. pose proof mbits_pos. destruct (exp_point a) as [E _]; [lia|]. pose proof (fscale_nonneg a). assert (0 <= one_log) by (rewrite one_log_eq; lia).
  unfold mag. replace (fscale a) with (fscale a - one_log + one_log) by lia. rewrite Z.pow_add_r by lia. rewrite Z.mul_assoc. apply Z.mod_mul.
  apply Z.pow_nonzero; lia.
Qed.

Lemma clear_pattern a k d :
  0 <= a < 2 ^ sbit -> 0 <= k <= mbits -> clear k (a + d) = fscale a * 2 ^ mbits + clear k (fsig a + d).
Proof.
  intros Ha Hk. rewrite (pattern_split a) at 1 by done. unfold clear. assert (0 < 2 ^ k) by (apply Z.pow_pos_nonneg; lia).
  assert (2 ^ mbits = 2 ^ (mbits - k) * 2 ^ k) as E by (rewrite <- Z.pow_add_r by lia; f_equal; lia).
  replace (fscale a * 2 ^ mbits + fsig a + d) with (fsig a + d + fscale a * 2 ^ (mbits - k) * 2 ^ k) by lia.
  rewrite Z.div_add by lia. rewrite E. lia.
Qed.

Lemma mag_clear a k d :
  0 <= a < inf_bits -> 2 ^ mbits <= fsig a -> 0 <= k <= mbits -> 0 <= d <= 2 ^ k ->
  mag (clear k (a + d)) = (fsig a + d) / 2 ^ k * 2 ^ (k + fscale a) /\ 0 <= clear k (a + d) <= inf_bits.
Proof.
  intros Ha Hn Hk Hd. pose proof inf_range. pose proof (fsig_range a). pose proof (fscale_nonneg a). pose proof pow_m.
  assert (0 < 2 ^ k) by (apply Z.pow_pos_nonneg; lia). assert (2 ^ mbits = 2 ^ (mbits - k) * 2 ^ k) as E by (rewrite <- Z.pow_add_r by lia; f_equal; lia).
  assert (0 < 2 ^ (mbits - k)) by (apply Z.pow_pos_nonneg; lia).
  rewrite clear_pattern by lia. unfold clear. set (q := (fsig a + d) / 2 ^ k).
  assert (2 ^ (mbits - k) <= q) by (apply Z.div_le_lower_bound; lia).
  assert (q <= 2 * 2 ^ (mbits - k)).
  { assert (q < 2 * 2 ^ (mbits - k) + 1); [|lia]. apply Z.div_lt_upper_bound; [lia|]. nia. }
  assert (fscale a * 2 ^ mbits + q * 2 ^ k <= inf_bits) as Hinf.
  { assert (a = fscale a * 2 ^ mbits + fsig a) as Ea by (apply pattern_split; lia). unfold inf_bits in *. set (N := 2 ^ ebits - 1) in *.
    assert (fscale a + 1 < N) by (apply (Z.mul_lt_mono_pos_r (2 ^ mbits)); lia). assert (q * 2 ^ k <= 2 * 2 ^ mbits) by (rewrite E; nia). nia. }
  split; [|nia]. rewrite mag_encode; [|lia|nia|right; nia|lia]. rewrite <- Z.mul_assoc, Z.pow_add_r by lia. done.
Qed.
End clearing.

(** ** Exact results *)

Section exact.
Context `{Fmt}.

Lemma mag_below a n : fexp a <= n -> 1 <= n -> mag a < 2 ^ (n + mbits).
Proof.
  intros Hn H1. pose proof (fsig_range a). pose proof pow_m. pose proof mbits_pos. pose proof (fscale_nonneg a). unfold mag.
  assert (0 < 2 ^ fscale a <= 2 ^ (n - 1)) by (split; [apply Z.pow_pos_nonneg; lia|apply Z.pow_le_mono_r; [lia|]; unfold fscale; lia]).
  replace (n + mbits) with (1 + mbits + (n - 1)) by lia. rewrite !Z.pow_add_r by lia. change (2 ^ 1) with 2. nia.
Qed.

Lemma mag_above a : 1 <= fexp a -> 2 ^ (fexp a - 1 + mbits) <= mag a.
Proof.
  intros Hn. pose proof (fman_range a). pose proof mbits_pos. unfold mag, fsig, fscale. rewrite (proj2 (Z.eqb_neq _ 0)), Z.max_r by lia.
  assert (0 < 2 ^ (fexp a - 1)) by (apply Z.pow_pos_nonneg; lia). rewrite Z.pow_add_r by lia. nia.
Qed.

(** A significand of the precision, at any scale, is a number of the format. *)
Lemma representable e : 0 <= e -> forall q,
  0 <= q <= 2 * 2 ^ mbits -> e * 2 ^ mbits + 2 * 2 ^ mbits < 2 ^ sbit -> exists a, 0 <= a < 2 ^ sbit /\ mag a = q * 2 ^ e.
Proof.
  intros He. pose proof pow_m. revert e He. refine (natlike_ind _ _ _).
  - intros q Hq Hs. exists q. split; [lia|]. rewrite Z.mul_1_r. replace q with (0 * 2 ^ mbits + q) at 1 by lia. rewrite mag_encode; lia.
  - intros e He IH q Hq Hs. destruct (Z.lt_ge_cases q (2 ^ mbits)).
    + destruct (IH (2 * q)) as (a & Ha & E); [lia|nia|]. exists a. split; [done|]. rewrite E, Z.pow_succ_r by lia. lia.
    + exists (Z.succ e * 2 ^ mbits + q). split; [nia|]. apply mag_encode; lia.
Qed.

(** A number of the format is rounded to itself. *)
Lemma fround_exact mode neg a k : 0 <= a < inf_bits -> 0 <= k -> fround mode neg (mag a * 2 ^ k) k = with_sign neg a.
Proof.
  intros Ha Hk. pose proof inf_range. pose proof (fsig_range a) as Hq. pose proof (fscale_nonneg a) as Hs. pose proof pow_m. pose proof mbits_pos.
  assert (a = fscale a * 2 ^ mbits + fsig a) as Ea by (apply pattern_split; lia).
  assert (mag a * 2 ^ k = fsig a * 2 ^ (k + fscale a)) as Ev by (unfold mag; rewrite (Z.pow_add_r 2 k) by lia; lia).
  assert (Z.max 0 (Z.log2 (mag a * 2 ^ k) - k - mbits) = fscale a) as Ee.
  { rewrite Ev. destruct (Z.eq_dec (fsig a) 0) as [E0|E0].
    - rewrite E0. destruct (scale_or_normal a) as [-> |]; [|lia]. change (Z.log2 (0 * _)) with 0. lia.
    - rewrite Z.log2_mul_pow2 by lia. destruct (scale_or_normal a) as [-> |Hn].
      + assert (Z.log2 (fsig a) <= mbits); [|lia]. assert (Z.log2 (fsig a) < mbits + 1); [|lia]. apply Z.log2_lt_pow2; [lia|].
        rewrite Z.pow_add_r by lia. lia.
      + assert (Z.log2 (fsig a) = mbits) as ->; [|lia]. apply Z.log2_unique; [lia|]. rewrite Z.pow_succ_r by lia. lia. }
  unfold fround. rewrite Ee. assert (0 < 2 ^ (k + fscale a)) by (apply Z.pow_pos_nonneg; lia).
  rewrite Ev, Z.div_mul, Z.mod_mul by lia. assert (round_away mode neg (fsig a) 0 (k + fscale a) = false) as ->.
  { destruct mode; cbn [round_away]; rewrite ?andb_false_r; try done. rewrite (proj2 (Z.ltb_ge _ _)), (proj2 (Z.eqb_neq _ _)) by lia. done. }
  rewrite <- Ea, (proj2 (Z.leb_gt _ _)) by lia. done.
Qed.

(** Only the quotient matters. *)
Lemma fround_shift mode neg v k j : 0 < v -> 0 <= k -> 0 <= j -> fround mode neg (v * 2 ^ j) (k + j) = fround mode neg v k.
Proof.
  intros Hv Hk Hj. unfold fround. rewrite Z.log2_mul_pow2 by lia. replace (j + Z.log2 v - (k + j) - mbits) with (Z.log2 v - k - mbits) by lia.
  set (e := Z.max 0 _). assert (0 < 2 ^ j) by (apply Z.pow_pos_nonneg; lia). assert (0 < 2 ^ (k + e)) by (apply Z.pow_pos_nonneg; lia).
  assert (2 ^ (k + j + e) = 2 ^ (k + e) * 2 ^ j) as E by (rewrite <- Z.pow_add_r by lia; f_equal; lia).
  rewrite E, Z.div_mul_cancel_r, Zmult_mod_distr_r by lia. set (q := v / 2 ^ (k + e)). set (r := v mod 2 ^ (k + e)).
  assert (0 <= r < 2 ^ (k + e)) as Hr by (apply Z.mod_pos_bound; lia). assert (round_away mode neg q (r * 2 ^ j) (k + j + e) = round_away mode neg q r (k + e)) as ->; [|done].
  unfold round_away. rewrite E. destruct mode; try done.
  - f_equal; [|f_equal].
    + destruct (Z.ltb_spec (2 ^ (k + e)) (2 * r)); [apply Z.ltb_lt|apply Z.ltb_ge]; nia.
    + destruct (Z.eqb_spec (2 * r) (2 ^ (k + e))); [apply Z.eqb_eq|apply Z.eqb_neq]; nia.
  - f_equal. destruct (Z.ltb_spec 0 r); [apply Z.ltb_lt|apply Z.ltb_ge]; nia.
  - f_equal. destruct (Z.ltb_spec 0 r); [apply Z.ltb_lt|apply Z.ltb_ge]; nia.
Qed.

Lemma fround_ratio mode neg v k w j :
  0 < v -> 0 < w -> 0 <= k -> 0 <= j -> v * 2 ^ j = w * 2 ^ k -> fround mode neg v k = fround mode neg w j.
Proof.
  intros Hv Hw Hk Hj E. rewrite <- (fround_shift mode neg v k j), <- (fround_shift mode neg w j k) by done. by rewrite E, Z.add_comm.
Qed.

Lemma fneg_spec x : is_float x -> fneg x = with_sign (negb (fsign x)) (fabs_bits x).
Proof.
  intros Hx. unfold fneg. rewrite (float_split x Hx) at 1. pose proof (fabs_range x) as Ha. assert (0 <= sbit) as Hs by (unfold sbit; pose proof mbits_pos; pose proof ebits_pos; lia).
  assert (Z.lxor (fabs_bits x) (2 ^ sbit) = fabs_bits x + 2 ^ sbit) as E.
  { rewrite Z.add_nocarry_lxor; [done|]. rewrite Z.land_comm. apply Z.bits_inj'. intros n Hn. rewrite Z.land_spec, Z.bits_0, Z.pow2_bits_eqb by lia.
    destruct (Z.eqb_spec sbit n) as [<-|]; [|done]. simpl. destruct (Z.eq_dec (fabs_bits x) 0) as [->|]; [by rewrite Z.bits_0|].
    apply Z.bits_above_log2; [lia|]. apply Z.log2_lt_pow2; lia. }
  unfold with_sign. destruct (fsign x); cbn [negb]; [|by apply E]. rewrite <- E, Z.lxor_assoc, Z.lxor_nilpotent. by rewrite Z.lxor_0_r.
Qed.
End exact.

Section exact_sums.
Context `{Fmt} `{NanRules}.

Lemma finite_other x : is_finite x = true -> is_nan x = false /\ is_inf x = false.
Proof. unfold is_finite, is_nan, is_inf. rewrite Z.ltb_lt, Z.ltb_ge, Z.eqb_neq. lia. Qed.

Lemma fneg_parts x :
  is_float x -> is_float (fneg x) /\ fabs_bits (fneg x) = fabs_bits x /\ fsign (fneg x) = negb (fsign x) /\ fval (fneg x) = - fval x.
Proof.
  intros Hx. rewrite fneg_spec by done. pose proof (fabs_range x) as Ha. destruct (with_sign_parts (negb (fsign x)) _ Ha) as [-> ->].
  split_and!; [by apply with_sign_float|done|done|]. rewrite fval_with_sign by done. unfold fval. rewrite mag_abs. destruct (fsign x); cbn [negb]; lia.
Qed.

(** A sum that is a number of the format is exact. *)
Lemma fadd_exact mode x y b :
  is_finite x = true -> is_finite y = true -> 0 <= b < inf_bits -> Z.abs (fval x + fval y) = mag b -> fval x + fval y <> 0 ->
  fadd mode x y = with_sign (fval x + fval y <? 0) b.
Proof.
  intros Hx Hy Hb Hm Hn. destruct (finite_other x Hx) as [Hx1 Hx2], (finite_other y Hy) as [Hy1 Hy2].
  unfold fadd. rewrite Hx1, Hx2, Hy1, Hy2. cbn [orb]. rewrite (proj2 (Z.eqb_neq _ 0)) by done. rewrite Hm, <- (Z.mul_1_r (mag b)).
  by apply (fround_exact mode _ b 0).
Qed.

Lemma fsub_exact mode x y b :
  is_float y -> is_finite x = true -> is_finite y = true -> 0 <= b < inf_bits -> Z.abs (fval x - fval y) = mag b -> fval x - fval y <> 0 ->
  fsub mode x y = with_sign (fval x - fval y <? 0) b.
Proof.
  intros Fy Hx Hy Hb Hm Hn. destruct (finite_other x Hx) as [Hx1 _], (finite_other y Hy) as [Hy1 _]. unfold fsub. rewrite Hx1, Hy1. cbn [orb].
  destruct (fneg_parts y Fy) as (_ & Ea & _ & Ev). assert (fval x - fval y = fval x + fval (fneg y)) as E by lia. rewrite E in *.
  apply fadd_exact; try done. unfold is_finite in *. by rewrite Ea.
Qed.
End exact_sums.
