(* ===== verification/Libm.v ===== *)
(** * The math library: functions on the words of a double (libm/math, libm/common)

    Rounding to integers, remainder, square root and the access to exponent and
    sign.  They work on the two 32-bit words of the representation, as the source
    does; the few operations in floating point are those of [Float].  The state is
    errno, and [mode] is the rounding direction. *)

From stdpp Require Import base list.
From Stdlib Require Import ZArith Lia.
From S2P Require Import Prelude CMem Float.

Local Open Scope Z_scope.

#[export] Existing Instance b64 | 10.

(** ** Words (common/fdlibm.h) *)

Definition u32 : Z -> Z := uwrap 32.
Definition s32 : Z -> Z := swrap 32.

(** The words as unsigned numbers; a signed variable takes [s32] of them. *)
Definition HIGH_WORD (x : Z) : Z := u32 (Z.shiftr x 32).
Definition LOW_WORD (x : Z) : Z := u32 x.
Definition INSERT_WORDS (ix0 ix1 : Z) : Z := Z.lor (Z.shiftl (u32 ix0) 32) (u32 ix1).
Definition SET_HIGH_WORD (x v : Z) : Z := INSERT_WORDS v (LOW_WORD x).

(** A left shift of an int, done unsigned. *)
Definition lsl (x s : Z) : Z := s32 (Z.shiftl x s).

Definition EDOM : Z := 33.
Definition ERANGE : Z := 34.

Section libm.
Context `{NanRules}.

(** WANT_ERRNO, and the rounding direction. *)
Variables (want_errno : bool) (mode : rmode).
Variable fuel : nat.

Abbreviation M A := (C Z A).

(** ** Classification *)

Definition isnan64 (x : Z) : Z :=
  let hx := Z.land (HIGH_WORD x) 0x7fffffff in
  let lx := LOW_WORD x in
  let hx := Z.lor hx (Z.shiftr (Z.lor lx (u32 (- lx))) 31) in
  let hx := u32 (0x7ff00000 - hx) in
  Z.shiftr hx 31.

Definition isinf64 (x : Z) : Z :=
  let hx := Z.land (HIGH_WORD x) 0x7fffffff in
  let lx := LOW_WORD x in
  let hx := Z.lor hx (Z.shiftr (Z.lor lx (u32 (- lx))) 31) in
  let hx := u32 (0x7ff00000 - hx) in
  1 - Z.shiftr (Z.lor hx (u32 (- hx))) 31.

Definition finite64 (x : Z) : Z :=
  let hx := s32 (HIGH_WORD x) in
  Z.shiftr (u32 (Z.land hx 0x7fffffff - 0x7ff00000)) 31.

Inductive fpclass := FP_NAN | FP_INFINITE | FP_ZERO | FP_SUBNORMAL | FP_NORMAL.

Definition __fpclassify64 (x : Z) : fpclass :=
  let msw := Z.land (HIGH_WORD x) 0x7fffffff in
  let lsw := LOW_WORD x in
  if (msw =? 0) && (lsw =? 0) then FP_ZERO
  else if msw <=? 0x000fffff then FP_SUBNORMAL
  else if msw <=? 0x7fefffff then FP_NORMAL
  else if (msw =? 0x7ff00000) && (lsw =? 0) then FP_INFINITE
  else FP_NAN.

Definition fabs64 (x : Z) : Z := SET_HIGH_WORD x (Z.land (HIGH_WORD x) 0x7fffffff).

Definition copysign64 (x y : Z) : Z :=
  SET_HIGH_WORD x (Z.lor (Z.land (HIGH_WORD x) 0x7fffffff) (Z.land (HIGH_WORD y) 0x80000000)).

(** ** Errors *)

Definition __math_with_errno (y e : Z) : M Z := fun errno => Some (y, if want_errno then e else errno).

Definition __math_invalid (x : Z) : M Z :=
  if negb (isnan64 x =? 0) then ret (fadd mode x x) else __math_with_errno nan_invalid EDOM.

(** The largest and the smallest normal number. *)
Definition _FLOAT64_MAX : Z := inf_bits - 1.
Definition _FLOAT64_MIN : Z := 0x0010000000000000.

Definition __math_oflow (sign : bool) : M Z :=
  __math_with_errno (fmul mode (if sign then fneg _FLOAT64_MAX else _FLOAT64_MAX) _FLOAT64_MAX) ERANGE.
Definition __math_uflow (sign : bool) : M Z :=
  __math_with_errno (fmul mode (if sign then fneg _FLOAT64_MIN else _FLOAT64_MIN) _FLOAT64_MIN) ERANGE.
Definition __math_check_uflow (y : Z) : M Z := if feq y 0 then __math_with_errno y ERANGE else ret y.

(** ** Rounding to an integer *)

Definition trunc64 (x : Z) : Z :=
  let ix := swrap 64 x in
  let exp := Z.land (Z.shiftr ix 52) 0x7ff - 1023 in
  if exp =? 1024 then fadd mode x x
  else
    let mask :=
      if exp <? 0 then - 2 ^ 63
      else Z.lnot (Z.shiftr 0x000fffffffffffff (if 64 <=? exp then 63 else exp)) in
    uwrap 64 (Z.land ix mask).

(** The low bits of [i1] behind the binary point, 20 bits of the fraction being in
    the high word. *)
Definition low_mask (j0 : Z) : Z := Z.shiftr 0xffffffff (j0 - 20).

Definition floor64 (x : Z) : M Z :=
  let i0 := s32 (HIGH_WORD x) in
  let i1 := s32 (LOW_WORD x) in
  let j0 := Z.land (Z.shiftr i0 20) 0x7ff - 0x3ff in
  if j0 <? 20 then
    if j0 <? 0 then
      if 0 <=? i0 then ret (INSERT_WORDS 0 0)
      else if negb (Z.lor (Z.land i0 0x7fffffff) i1 =? 0) then ret (INSERT_WORDS (s32 0xbff00000) 0)
      else ret (INSERT_WORDS i0 i1)
    else
      let i := Z.shiftr 0x000fffff j0 in
      if Z.lor (Z.land (u32 i0) i) (u32 i1) =? 0 then ret x
      else
        do i0 <- (if i0 <? 0 then int_ (i0 + Z.shiftr 0x00100000 j0) else ret i0);
        ret (INSERT_WORDS (s32 (Z.land (u32 i0) (u32 (Z.lnot i)))) 0)
  else if 51 <? j0 then
    if j0 =? 0x400 then ret (fadd mode x x) else ret x
  else
    let i := low_mask j0 in
    if Z.land (u32 i1) i =? 0 then ret x
    else
      do '(i0, i1) <-
        (if i0 <? 0 then
           if j0 =? 20 then
             do i0 <- int_ (i0 + 1);
             ret (i0, i1)
           else
             let j := s32 (u32 (u32 i1 + Z.shiftl 1 (52 - j0))) in
             do i0 <- (if u32 j <? u32 i1 then int_ (i0 + 1) else ret i0);
             ret (i0, j)
         else ret (i0, i1));
      ret (INSERT_WORDS i0 (s32 (Z.land (u32 i1) (u32 (Z.lnot i))))).

Definition ceil64 (x : Z) : M Z :=
  let i0 := s32 (HIGH_WORD x) in
  let i1 := s32 (LOW_WORD x) in
  let j0 := Z.land (Z.shiftr i0 20) 0x7ff - 0x3ff in
  if j0 <? 20 then
    if j0 <? 0 then
      if i0 <? 0 then ret (INSERT_WORDS (s32 0x80000000) 0)
      else if negb (Z.lor i0 i1 =? 0) then ret (INSERT_WORDS 0x3ff00000 0)
      else ret (INSERT_WORDS i0 i1)
    else
      let i := Z.shiftr 0x000fffff j0 in
      if Z.lor (Z.land (u32 i0) i) (u32 i1) =? 0 then ret x
      else
        do i0 <- (if 0 <? i0 then int_ (i0 + Z.shiftr 0x00100000 j0) else ret i0);
        ret (INSERT_WORDS (s32 (Z.land (u32 i0) (u32 (Z.lnot i)))) 0)
  else if 51 <? j0 then
    if j0 =? 0x400 then ret (fadd mode x x) else ret x
  else
    let i := low_mask j0 in
    if Z.land (u32 i1) i =? 0 then ret x
    else
      do '(i0, i1) <-
        (if 0 <? i0 then
           if j0 =? 20 then
             do i0 <- int_ (i0 + 1);
             ret (i0, i1)
           else
             let j := s32 (u32 (u32 i1 + Z.shiftl 1 (52 - j0))) in
             do i0 <- (if u32 j <? u32 i1 then int_ (i0 + 1) else ret i0);
             ret (i0, j)
         else ret (i0, i1));
      ret (INSERT_WORDS i0 (s32 (Z.land (u32 i1) (u32 (Z.lnot i))))).

Definition round64 (x : Z) : M Z :=
  let msw := s32 (HIGH_WORD x) in
  let lsw := LOW_WORD x in
  let exponent_less_1023 := Z.shiftr (Z.land msw 0x7ff00000) 20 - 1023 in
  if exponent_less_1023 <? 20 then
    if exponent_less_1023 <? 0 then
      let msw := s32 (Z.land (u32 msw) 0x80000000) in
      let msw := if exponent_less_1023 =? -1 then Z.lor msw (Z.shiftl 1023 20) else msw in
      ret (INSERT_WORDS msw 0)
    else
      let exponent_mask := Z.shiftr 0x000fffff exponent_less_1023 in
      if (Z.land (u32 msw) exponent_mask =? 0) && (lsw =? 0) then ret x
      else
        do msw <- int_ (msw + Z.shiftr 0x00080000 exponent_less_1023);
        ret (INSERT_WORDS (s32 (Z.land (u32 msw) (u32 (Z.lnot exponent_mask)))) 0)
  else if 51 <? exponent_less_1023 then
    if exponent_less_1023 =? 1024 then ret (fadd mode x x) else ret x
  else
    let exponent_mask := low_mask exponent_less_1023 in
    if Z.land lsw exponent_mask =? 0 then ret x
    else
      let tmp := u32 (lsw + Z.shiftl 1 (51 - exponent_less_1023)) in
      do msw <- (if tmp <? lsw then int_ (msw + 1) else ret msw);
      ret (INSERT_WORDS msw (Z.land tmp (u32 (Z.lnot exponent_mask)))).

(** The fraction and the integer part. *)
Definition modf64 (x : Z) : Z * Z :=
  let i0 := s32 (HIGH_WORD x) in
  let i1 := s32 (LOW_WORD x) in
  let zero := INSERT_WORDS (Z.land (u32 i0) 0x80000000) 0 in
  let j0 := Z.land (Z.shiftr i0 20) 0x7ff - 0x3ff in
  if j0 <? 20 then
    if j0 <? 0 then (x, zero)
    else
      let i := Z.shiftr 0x000fffff j0 in
      if Z.lor (Z.land (u32 i0) i) (u32 i1) =? 0 then (zero, x)
      else
        let iptr := INSERT_WORDS (Z.land (u32 i0) (u32 (Z.lnot i))) 0 in
        (fsub mode x iptr, iptr)
  else if 51 <? j0 then
    match __fpclassify64 x with
    | FP_NAN => (fadd mode x x, fadd mode x x)
    | _ => (zero, x)
    end
  else
    let i := low_mask j0 in
    if Z.land (u32 i1) i =? 0 then (zero, x)
    else
      let iptr := INSERT_WORDS i0 (Z.land (u32 i1) (u32 (Z.lnot i))) in
      (fsub mode x iptr, iptr).
(** ** fmod *)

(** [for (ix = start, i = v; i > 0; i = lsl(i, 1)) ix -= 1;] *)
Definition count_down (start v : Z) : M Z :=
  loop (fun '(ix, i) => if 0 <? i then ret (inl (ix - 1, lsl i 1)) else ret (inr ix)) fuel (start, v).

(** [ilogb] of the number with the words [hx] (without the sign) and [lx]. *)
Definition word_log (hx lx : Z) : M Z :=
  if hx <? 0x00100000 then
    if hx =? 0 then count_down (-1043) (s32 lx) else count_down (-1022) (lsl hx 11)
  else ret (Z.shiftr hx 20 - 1023).

(** The significand, with the leading bit at the place of a normal number's. *)
Definition align_words (ix hx lx : Z) : Z * Z :=
  if -1022 <=? ix then (Z.lor 0x00100000 (Z.land 0x000fffff hx), lx)
  else
    let n := -1022 - ix in
    if n <=? 31 then (s32 (Z.lor (u32 (Z.shiftl hx n)) (Z.shiftr lx (32 - n))), u32 (Z.shiftl lx n))
    else (s32 (u32 (Z.shiftl lx (n - 32))), 0).

(** [hz = hx - hy; lz = lx - ly; if (lx < ly) hz -= 1;] *)
Definition sub_words (hx lx hy ly : Z) : M (Z * Z) :=
  do hz <- int_ (hx - hy);
  do hz <- (if lx <? ly then int_ (hz - 1) else ret hz);
  ret (hz, u32 (lx - ly)).

(** [hx = hz + hz + (lz >> 31); lx = lz + lz;] *)
Definition double_words (hz lz : Z) : M (Z * Z) :=
  do h2 <- int_ (hz + hz);
  ret (s32 (u32 (u32 h2 + Z.shiftr lz 31)), u32 (lz + lz)).

(** The subtractions; [None] when the remainder is found to be zero. *)
Definition fmod_step (hy ly : Z) (st : Z * Z * Z) : M ((Z * Z * Z) + option (Z * Z)) :=
  let '(n, hx, lx) := st in
  if n =? 0 then ret (inr (Some (hx, lx)))
  else
    let n := n - 1 in
    do '(hz, lz) <- sub_words hx lx hy ly;
    if hz <? 0 then
      do '(hx, lx) <- double_words hx lx;
      ret (inl (n, hx, lx))
    else if Z.lor (u32 hz) lz =? 0 then ret (inr None)
    else
      do '(hx, lx) <- double_words hz lz;
      ret (inl (n, hx, lx)).

(** [while (hx < 0x00100000)]: normalize. *)
Definition normalize_step (st : Z * Z * Z) : M ((Z * Z * Z) + (Z * Z * Z)) :=
  let '(hx, lx, iy) := st in
  if hx <? 0x00100000 then
    do '(hx, lx) <- double_words hx lx;
    ret (inl (hx, lx, iy - 1))
  else ret (inr (hx, lx, iy)).

(** Back to a float with the sign word [sx]. *)
Definition fmod_result (sx hx lx iy : Z) : M Z :=
  if -1022 <=? iy then
    let hx := Z.lor (hx - 0x00100000) (Z.shiftl (iy + 1023) 20) in
    ret (INSERT_WORDS (Z.lor hx sx) lx)
  else
    let n := -1022 - iy in
    let '(hx, lx) :=
      if n <=? 20 then (Z.shiftr hx n, Z.lor (Z.shiftr lx n) (u32 (Z.shiftl (u32 hx) (32 - n))))
      else if n <=? 31 then (sx, Z.lor (u32 (Z.shiftl hx (32 - n))) (Z.shiftr lx n))
      else (sx, Z.shiftr hx (n - 32)) in
    ret (fmul mode (INSERT_WORDS (Z.lor hx sx) lx) 0x3ff0000000000000).

Definition fmod64 (x y : Z) : M Z :=
  let hx := s32 (HIGH_WORD x) in
  let lx := LOW_WORD x in
  let hy := s32 (HIGH_WORD y) in
  let ly := LOW_WORD y in
  let sx := s32 (Z.land (u32 hx) 0x80000000) in
  let hx := Z.lxor hx sx in
  let hy := Z.land hy 0x7fffffff in
  let zero := if sx =? 0 then 0 else 2 ^ 63 in
  if negb (isnan64 x =? 0) || negb (isnan64 y =? 0) then ret (fadd mode x y)
  else if negb (isinf64 x =? 0) then __math_invalid x
  else if Z.lor (u32 hy) ly =? 0 then __math_invalid y
  else if (hx <=? hy) && ((hx <? hy) || (lx <? ly)) then ret x
  else if (hx <=? hy) && (lx =? ly) then ret zero
  else
    do ix <- word_log hx lx;
    do iy <- word_log hy ly;
    let '(hx, lx) := align_words ix hx lx in
    let '(hy, ly) := align_words iy hy ly in
    do r <- loop (fmod_step hy ly) fuel (ix - iy, hx, lx);
    match r with
    | None => ret zero
    | Some (hx, lx) =>
        do '(hz, lz) <- sub_words hx lx hy ly;
        let '(hx, lx) := if 0 <=? hz then (hz, lz) else (hx, lx) in
        if Z.lor (u32 hx) lx =? 0 then ret zero
        else
          do '(hx, lx, iy) <- loop normalize_step fuel (hx, lx, iy);
          fmod_result sx hx lx iy
    end.

(** ** sqrt *)

(** The words of [x], of which the lower has its own sign bit moved up. *)
Definition shift_up (ix0 ix1 : Z) : Z * Z :=
  (s32 (u32 (u32 ix0 + u32 (u32 ix0 + Z.shiftr (Z.land ix1 0x80000000) 31))), u32 (ix1 + ix1)).

(** A subnormal number: [m] and the words of the normalized significand. *)
Definition sqrt_normalize (ix0 ix1 : Z) : M (Z * Z * Z) :=
  do '(m, ix0, ix1) <-
    loop (fun '(m, ix0, ix1) =>
      if ix0 =? 0 then ret (inl (m - 21, s32 (Z.lor (u32 ix0) (Z.shiftr ix1 11)), u32 (Z.shiftl ix1 21)))
      else ret (inr (m, ix0, ix1))) fuel (0, ix0, ix1);
  do '(i, ix0) <-
    loop (fun '(i, ix0) =>
      if Z.land ix0 0x00100000 =? 0 then
        do ix0 <- int_ (Z.shiftl ix0 1);
        ret (inl (i + 1, ix0))
      else ret (inr (i, ix0))) fuel (0, ix0);
  let m := m - (i - 1) in
  let ix0 := if negb (i =? 0) then s32 (Z.lor (u32 ix0) (Z.shiftr ix1 (32 - i))) else ix0 in
  ret (m, ix0, u32 (Z.shiftl ix1 i)).

(** The bits of the root in the high word: [s0], [ix0], [ix1], [q] and [r]. *)
Definition sqrt_high_step (st : Z * Z * Z * Z * Z) : M ((Z * Z * Z * Z * Z) + (Z * Z * Z * Z)) :=
  let '(s0, ix0, ix1, q, r) := st in
  if negb (r =? 0) then
    let t := s32 (u32 (u32 s0 + r)) in
    do '(s0, ix0, q) <-
      (if t <=? ix0 then
         do ix0 <- int_ (ix0 - t);
         ret (s32 (u32 (u32 t + r)), ix0, s32 (u32 (u32 q + r)))
       else ret (s0, ix0, q));
    let '(ix0, ix1) := shift_up ix0 ix1 in
    ret (inl (s0, ix0, ix1, q, Z.shiftr r 1))
  else ret (inr (s0, ix0, ix1, q)).

(** The bits in the low word: [s0], [s1], [ix0], [ix1], [q1] and [r]. *)
Definition sqrt_low_step (st : Z * Z * Z * Z * Z * Z) : M ((Z * Z * Z * Z * Z * Z) + (Z * Z * Z)) :=
  let '(s0, s1, ix0, ix1, q1, r) := st in
  if negb (r =? 0) then
    let t1 := u32 (s1 + r) in
    let t := s0 in
    do '(s0, s1, ix0, ix1, q1) <-
      (if (t <? ix0) || ((t =? ix0) && (t1 <=? ix1)) then
         let s1 := u32 (t1 + r) in
         do s0 <- (if (Z.land t1 0x80000000 =? 0x80000000) && (Z.land s1 0x80000000 =? 0) then int_ (s0 + 1) else ret s0);
         do ix0 <- int_ (ix0 - t);
         do ix0 <- (if ix1 <? t1 then int_ (ix0 - 1) else ret ix0);
         ret (s0, s1, ix0, u32 (ix1 - t1), u32 (q1 + r))
       else ret (s0, s1, ix0, ix1, q1));
    let '(ix0, ix1) := shift_up ix0 ix1 in
    ret (inl (s0, s1, ix0, ix1, q1, Z.shiftr r 1))
  else ret (inr (ix0, ix1, q1)).

(** The rounding of the root, whose words are [q] and [q1]. *)
Definition sqrt_round (q q1 : Z) : M (Z * Z) :=
  if bool_decide (mode = ToNearest) || bool_decide (mode = Upward) then
    if q1 =? 0xffffffff then
      do q <- int_ (q + 1);
      ret (q, 0)
    else if bool_decide (mode = Upward) then
      do q <- (if q1 =? 0xfffffffe then int_ (q + 1) else ret q);
      ret (q, u32 (q1 + 2))
    else ret (q, u32 (q1 + Z.land q1 1))
  else ret (q, q1).

Definition sqrt64 (x : Z) : M Z :=
  let ix0 := s32 (HIGH_WORD x) in
  let ix1 := LOW_WORD x in
  if Z.land ix0 0x7ff00000 =? 0x7ff00000 then
    if (ix0 <? 0) && (isnan64 x =? 0) then __math_invalid x else ret (fadd mode x x)
  else if (ix0 <=? 0) && (Z.lor (Z.land (u32 ix0) (u32 (Z.lnot 0x80000000))) ix1 =? 0) then ret x
  else if (ix0 <=? 0) && (ix0 <? 0) then __math_invalid x
  else
    let m := Z.shiftr ix0 20 in
    do '(m, ix0, ix1) <- (if m =? 0 then sqrt_normalize ix0 ix1 else ret (m, ix0, ix1));
    let m := m - 1023 in
    let ix0 := Z.lor (Z.land ix0 0x000fffff) 0x00100000 in
    let '(ix0, ix1) := if negb (Z.land m 1 =? 0) then shift_up ix0 ix1 else (ix0, ix1) in
    let m := Z.shiftr m 1 in
    let '(ix0, ix1) := shift_up ix0 ix1 in
    do '(s0, ix0, ix1, q) <- loop sqrt_high_step fuel (0, ix0, ix1, 0, 0x00200000);
    do '(ix0, ix1, q1) <- loop sqrt_low_step fuel (s0, 0, ix0, ix1, 0, 0x80000000);
    do '(q, q1) <- (if negb (Z.lor (u32 ix0) ix1 =? 0) then sqrt_round q q1 else ret (q, q1));
    let ix0 := Z.shiftr q 1 + 0x3fe00000 in
    let ix1 := Z.shiftr q1 1 in
    let ix1 := if Z.land q 1 =? 1 then Z.lor ix1 0x80000000 else ix1 in
    do ix0 <- int_ (ix0 + lsl m 20);
    ret (INSERT_WORDS ix0 ix1).

(** ** Exponents *)

Definition check_uflow (x : Z) : M Z := if want_errno then __math_check_uflow x else ret x.
Definition __math_denorm (x : Z) : M Z := __math_with_errno x ERANGE.

Definition FP_ILOGB0 : Z := - INT_MAX.

Definition ilogb64 (x : Z) : M Z :=
  let hx := s32 (HIGH_WORD x) in
  let lx := s32 (LOW_WORD x) in
  let hx := Z.land hx 0x7fffffff in
  if hx <? 0x00100000 then
    if Z.lor hx lx =? 0 then
      do _ <- __math_invalid 0;
      ret FP_ILOGB0
    else if hx =? 0 then count_down (-1043) lx
    else count_down (-1022) (lsl hx 11)
  else if hx <? 0x7ff00000 then ret (Z.shiftr hx 20 - 1023)
  else
    do _ <- __math_invalid 0;
    ret INT_MAX.

Definition two54 : Z := 0x4350000000000000.
Definition twom54 : Z := 0x3c90000000000000.

(** The fraction, and [*eptr]. *)
Definition frexp64 (x : Z) : Z * Z :=
  let hx := s32 (HIGH_WORD x) in
  let lx := s32 (LOW_WORD x) in
  let ix := Z.land 0x7fffffff hx in
  if (0x7ff00000 <=? ix) || (Z.lor ix lx =? 0) then (fadd mode x x, 0)
  else
    let '(x, hx, ix, e) :=
      if ix <? 0x00100000 then
        let x := fmul mode x two54 in
        let hx := s32 (HIGH_WORD x) in
        (x, hx, Z.land hx 0x7fffffff, -54)
      else (x, hx, ix, 0) in
    let e := e + (Z.shiftr ix 20 - 1022) in
    let hx := s32 (Z.lor (Z.land (u32 hx) 0x800fffff) 0x3fe00000) in
    (SET_HIGH_WORD x hx, e).

(** The part of scalbn from the test for NaN and infinity on. *)
Definition scalbn_finish (x hx k n : Z) : M Z :=
  if k =? 0x7ff then ret (fadd mode x x)
  else if 50000 <? n then __math_oflow (hx <? 0)
  else
    do k <- int_ (k + n);
    if 0x7fe <? k then __math_oflow (hx <? 0)
    else if 0 <? k then ret (SET_HIGH_WORD x (Z.lor (Z.land (u32 hx) 0x800fffff) (Z.shiftl k 20)))
    else if k <=? -54 then __math_uflow (hx <? 0)
    else
      let k := k + 54 in
      let x := SET_HIGH_WORD x (Z.lor (Z.land (u32 hx) 0x800fffff) (Z.shiftl k 20)) in
      check_uflow (fmul mode x twom54).

Definition scalbn64 (x n : Z) : M Z :=
  let hx := s32 (HIGH_WORD x) in
  let lx := s32 (LOW_WORD x) in
  let k := Z.shiftr (Z.land hx 0x7ff00000) 20 in
  if k =? 0 then
    if Z.lor lx (Z.land hx 0x7fffffff) =? 0 then ret x
    else
      let x := fmul mode x two54 in
      let hx := s32 (HIGH_WORD x) in
      let k := Z.shiftr (Z.land hx 0x7ff00000) 20 - 54 in
      if n <? -50000 then __math_uflow (hx <? 0) else scalbn_finish x hx k n
  else scalbn_finish x hx k n.

Definition ldexp64 (value exp : Z) : M Z := scalbn64 value exp.

(** [if (lx == 0) hx -= 1; lx -= 1;] and [lx += 1; if (lx == 0) hx += 1;] *)
Definition words_down (hx lx : Z) : M (Z * Z) :=
  do hx <- (if lx =? 0 then int_ (hx - 1) else ret hx);
  ret (hx, u32 (lx - 1)).
Definition words_up (hx lx : Z) : M (Z * Z) :=
  let lx := u32 (lx + 1) in
  do hx <- (if lx =? 0 then int_ (hx + 1) else ret hx);
  ret (hx, lx).

Definition nextafter64 (x y : Z) : M Z :=
  let hx := s32 (HIGH_WORD x) in
  let lx := LOW_WORD x in
  let hy := s32 (HIGH_WORD y) in
  let ly := LOW_WORD y in
  let ix := Z.land hx 0x7fffffff in
  let iy := Z.land hy 0x7fffffff in
  if ((0x7ff00000 <=? ix) && negb (Z.lor (ix - 0x7ff00000) lx =? 0)) ||
     ((0x7ff00000 <=? iy) && negb (Z.lor (iy - 0x7ff00000) ly =? 0)) then ret (fadd mode x y)
  else if feq x y then ret y
  else if Z.lor ix lx =? 0 then ret (INSERT_WORDS (Z.land (u32 hy) 0x80000000) 1)
  else
    do '(hx, lx) <-
      (if 0 <=? hx then
         if (hy <? hx) || ((hx =? hy) && (ly <? lx)) then words_down hx lx else words_up hx lx
       else
         if (0 <=? hy) || (hy <? hx) || ((hx =? hy) && (ly <? lx)) then words_down hx lx else words_up hx lx);
    let hy := Z.land hx 0x7ff00000 in
    if 0x7ff00000 <=? hy then __math_oflow (hx <? 0)
    else
      let x := INSERT_WORDS hx lx in
      if hy <? 0x00100000 then __math_denorm x else ret x.
End libm.
