(* ===== verification/LibmRound.v ===== *)
(** * Rounding to an integer: the words and the numbers

    The operations on the words of a double as operations on its pattern, and from
    there what floor, ceil, trunc, round and modf compute. *)

From stdpp Require Import base list.
From Stdlib Require Import ZArith Lia.
From S2P Require Import Prelude CMem Float Libm.

Local Open Scope Z_scope.

(** ** Words *)

Lemma u32_s32 a : u32 (s32 a) = u32 a.
Proof. unfold u32, s32, uwrap, swrap. rewrite Zminus_mod_idemp_l. f_equal. lia. Qed.

Lemma u32_range a : 0 <= u32 a < 2 ^ 32.
Proof. apply uwrap_range. lia. Qed.

Lemma u32_small a : 0 <= a < 2 ^ 32 -> u32 a = a.
Proof. apply uwrap_small. Qed.

Lemma u32_u32 a : u32 (u32 a) = u32 a.
Proof. apply u32_small, u32_range. Qed.

Lemma INSERT_WORDS_eq h l : INSERT_WORDS h l = u32 h * 2 ^ 32 + u32 l.
Proof.
  unfold INSERT_WORDS. rewrite Z.shiftl_mul_pow2 by lia. apply (lor_low 32); [lia|apply u32_range|by apply Z.mod_mul].
Qed.

Lemma INSERT_s32 h l : INSERT_WORDS (s32 h) l = INSERT_WORDS h l.
Proof. rewrite !INSERT_WORDS_eq. by rewrite u32_s32. Qed.

Lemma land_ones_eq a n k : 0 <= k -> n = 2 ^ k - 1 -> Z.land a n = a mod 2 ^ k.
Proof. intros Hk ->. rewrite <- Z.land_ones by done. f_equal. rewrite Z.ones_equiv. lia. Qed.

Lemma land_lnot_u32 a k : 0 <= k <= 32 -> Z.land (u32 a) (u32 (Z.lnot (2 ^ k - 1))) = clear k (u32 a).
Proof.
  intros Hk. unfold u32 at 2, uwrap. rewrite <- (Z.land_ones (Z.lnot _)) by lia.
  rewrite (Z.land_comm (Z.lnot _)), Z.land_assoc, (Z.land_ones (u32 a)) by lia. fold (uwrap 32 (u32 a)). change (uwrap 32 (u32 a)) with (u32 (u32 a)).
  rewrite u32_u32. replace (2 ^ k - 1) with (Z.ones k) by (rewrite Z.ones_equiv; lia). rewrite <- Z.ldiff_land, Z.ldiff_ones_r by lia.
  unfold clear. by rewrite Z.shiftl_mul_pow2, Z.shiftr_div_pow2 by lia.
Qed.

Lemma shiftr_mask n j : 0 <= j <= n -> Z.shiftr (2 ^ n - 1) j = 2 ^ (n - j) - 1.
Proof.
  intros Hj. rewrite Z.shiftr_div_pow2 by lia. replace (2 ^ n - 1) with (Z.ones n) by (rewrite Z.ones_equiv; lia).
  rewrite Z.ones_div_pow2, Z.ones_equiv by lia. lia.
Qed.

Section double.
Variable x : Z.
Hypothesis x_float : is_float x.

Lemma x_range : 0 <= x < 2 ^ 64.
Proof. exact x_float. Qed.

Lemma HIGH_WORD_eq : HIGH_WORD x = x / 2 ^ 32 /\ 0 <= x / 2 ^ 32 < 2 ^ 32.
Proof.
  pose proof x_range. assert (0 <= x / 2 ^ 32 < 2 ^ 32) by (split; [apply Z.div_pos; lia|apply Z.div_lt_upper_bound; lia]).
  unfold HIGH_WORD. rewrite Z.shiftr_div_pow2 by lia. by rewrite u32_small.
Qed.

Lemma words_eq : x = x / 2 ^ 32 * 2 ^ 32 + LOW_WORD x.
Proof. unfold LOW_WORD, u32, uwrap. pose proof (Z.div_mod x (2 ^ 32)). lia. Qed.

Lemma high_sign : (s32 (HIGH_WORD x) <? 0) = fsign x.
Proof.
  rewrite fsign_val by done. destruct HIGH_WORD_eq as [-> Hr]. change (2 ^ sbit) with (2 ^ 63). pose proof words_eq as E. pose proof (u32_range x) as Hl. fold (LOW_WORD x) in Hl.
  unfold s32. rewrite swrap_uwrap by lia. rewrite uwrap_small by done. change (32 - 1) with 31.
  destruct (Z.ltb_spec (x / 2 ^ 32) (2 ^ 31)), (Z.leb_spec (2 ^ 63) x); try lia; apply Z.ltb_lt || apply Z.ltb_ge; lia.
Qed.

Lemma high_signed : s32 (HIGH_WORD x) = x / 2 ^ 32 - (if fsign x then 2 ^ 32 else 0).
Proof.
  rewrite <- high_sign. destruct HIGH_WORD_eq as [-> Hr]. unfold s32. rewrite swrap_uwrap by lia. rewrite uwrap_small by done. change (32 - 1) with 31.
  destruct (Z.ltb_spec (x / 2 ^ 32) (2 ^ 31)).
  - rewrite (proj2 (Z.ltb_ge _ 0)) by lia. lia.
  - rewrite (proj2 (Z.ltb_lt _ 0)) by lia. lia.
Qed.

Lemma high_exponent : Z.land (Z.shiftr (s32 (HIGH_WORD x)) 20) 0x7ff = fexp x.
Proof.
  rewrite (land_ones_eq _ _ 11) by done. rewrite Z.shiftr_div_pow2 by lia. rewrite high_signed. unfold fexp. change mbits with 52. change ebits with 11.
  change (2 ^ 52) with (2 ^ 32 * 2 ^ 20). rewrite <- Z.div_div by lia.
  destruct (fsign x); [|by rewrite Z.sub_0_r]. replace (x / 2 ^ 32 - 2 ^ 32) with (x / 2 ^ 32 + (-(2)) * 2 ^ 11 * 2 ^ 20) by lia.
  rewrite Z.div_add by lia. by rewrite Z.mod_add by lia.
Qed.
End double.

(** ** Cleared words *)

Lemma insert_high i0 w k :
  u32 i0 = w / 2 ^ 32 -> 0 <= w < 2 ^ 64 -> 32 <= k <= 64 ->
  INSERT_WORDS (s32 (Z.land (u32 i0) (u32 (Z.lnot (2 ^ (k - 32) - 1))))) 0 = clear k w.
Proof.
  intros Hi Hw Hk. rewrite INSERT_WORDS_eq, u32_s32, land_lnot_u32, Hi by lia. unfold clear.
  assert (0 < 2 ^ (k - 32)) by (apply Z.pow_pos_nonneg; lia). rewrite Z.div_div by lia. rewrite <- Z.pow_add_r by lia.
  replace (32 + (k - 32)) with k by lia. assert (0 < 2 ^ k) by (apply Z.pow_pos_nonneg; lia).
  assert (2 ^ k = 2 ^ (k - 32) * 2 ^ 32) as E by (rewrite <- Z.pow_add_r by lia; f_equal; lia).
  pose proof (Z.mul_div_le w (2 ^ k) ltac:(lia)). assert (0 <= w / 2 ^ k) by (apply Z.div_pos; lia).
  rewrite (u32_small (_ * _)) by nia. change (u32 0) with 0. rewrite E. lia.
Qed.

Lemma insert_low i0 i1 w k :
  u32 i0 = w / 2 ^ 32 -> u32 i1 = w mod 2 ^ 32 -> 0 <= k <= 32 ->
  INSERT_WORDS i0 (Z.land (u32 i1) (u32 (Z.lnot (2 ^ k - 1)))) = clear k w.
Proof.
  intros H0 H1 Hk. rewrite INSERT_WORDS_eq, land_lnot_u32, H0, H1 by lia. unfold clear.
  assert (0 < 2 ^ k) by (apply Z.pow_pos_nonneg; lia). assert (0 < 2 ^ (32 - k)) by (apply Z.pow_pos_nonneg; lia).
  assert (2 ^ 32 = 2 ^ (32 - k) * 2 ^ k) as E by (rewrite <- Z.pow_add_r by lia; f_equal; lia).
  pose proof (Z.mod_pos_bound w (2 ^ 32) ltac:(lia)) as Hm. pose proof (Z.mul_div_le (w mod 2 ^ 32) (2 ^ k) ltac:(lia)).
  assert (0 <= w mod 2 ^ 32 / 2 ^ k) by (apply Z.div_pos; lia). rewrite (u32_small (_ * _)) by nia.
  rewrite (Z.div_mod w (2 ^ 32)) at 3 by lia.
  replace (2 ^ 32 * (w / 2 ^ 32) + w mod 2 ^ 32) with (w mod 2 ^ 32 + w / 2 ^ 32 * 2 ^ (32 - k) * 2 ^ k)
    by (rewrite <- Z.mul_assoc, <- E; lia).
  rewrite Z.div_add, Z.mul_add_distr_r, <- (Z.mul_assoc _ (2 ^ (32 - k))), <- E by lia. lia.
Qed.

Section double_words.
Variable x : Z.
Hypothesis x_float : is_float x.

(** Whether bits behind the binary point are set. *)
Lemma fraction_high k : 32 <= k <= 52 -> (Z.lor (Z.land (u32 (s32 (HIGH_WORD x))) (2 ^ (k - 32) - 1)) (LOW_WORD x) =? 0) = (x mod 2 ^ k =? 0).
Proof.
  intros Hk. rewrite (land_ones_eq _ _ (k - 32)), u32_s32 by lia. destruct (HIGH_WORD_eq x x_float) as [-> Hr]. rewrite u32_small by done.
  assert (0 < 2 ^ (k - 32)) by (apply Z.pow_pos_nonneg; lia).
  replace (2 ^ k) with (2 ^ 32 * 2 ^ (k - 32)) by (rewrite <- Z.pow_add_r by lia; f_equal; lia). rewrite Z.rem_mul_r by lia.
  change (x mod 2 ^ 32) with (LOW_WORD x). set (a := (x / 2 ^ 32) mod 2 ^ (k - 32)).
  pose proof (u32_range x) as Hl. fold (LOW_WORD x) in Hl. assert (0 <= a) by (apply Z.mod_pos_bound; lia).
  destruct (Z.eqb_spec (LOW_WORD x + 2 ^ 32 * a) 0) as [E|E].
  - assert (a = 0) as -> by lia. assert (LOW_WORD x = 0) as -> by lia. done.
  - apply Z.eqb_neq. rewrite Z.lor_eq_0_iff. lia.
Qed.

Lemma fraction_low k : 0 <= k <= 32 -> Z.land (u32 (s32 (LOW_WORD x))) (2 ^ k - 1) = x mod 2 ^ k.
Proof.
  intros Hk. rewrite (land_ones_eq _ _ k), u32_s32 by lia. unfold LOW_WORD. rewrite u32_u32. unfold u32, uwrap.
  apply Z.mod_mod_divide. exists (2 ^ (32 - k)). rewrite <- Z.pow_add_r by lia. f_equal. lia.
Qed.

(** Adding to the high word. *)
Lemma high_add d : 0 <= x + d * 2 ^ 32 < 2 ^ 64 -> u32 (s32 (HIGH_WORD x) + d) = (x + d * 2 ^ 32) / 2 ^ 32.
Proof.
  intros Hd. rewrite high_signed by done. rewrite Z.div_add by lia. unfold u32, uwrap.
  assert (0 <= x / 2 ^ 32 + d < 2 ^ 32) as Hr by (rewrite <- Z.div_add by lia; split; [apply Z.div_pos; lia|apply Z.div_lt_upper_bound; lia]).
  destruct (fsign x).
  - replace (x / 2 ^ 32 - 2 ^ 32 + d) with (x / 2 ^ 32 + d + (-1) * 2 ^ 32) by lia. rewrite Z.mod_add by lia. by rewrite Z.mod_small.
  - rewrite Z.sub_0_r. by rewrite Z.mod_small.
Qed.

(** Adding to the low word, with the carry. *)
Lemma low_add d :
  0 <= d < 2 ^ 32 ->
  let l := u32 (LOW_WORD x + d) in
  l = (x + d) mod 2 ^ 32 /\ (x + d) / 2 ^ 32 = x / 2 ^ 32 + (if l <? LOW_WORD x then 1 else 0).
Proof.
  intros Hd l. pose proof (u32_range x) as Hl. fold (LOW_WORD x) in Hl. pose proof (words_eq x) as E.
  assert (l = (x + d) mod 2 ^ 32) as El by (subst l; unfold LOW_WORD, u32, uwrap; by rewrite Zplus_mod_idemp_l). split; [done|].
  subst l. unfold u32, uwrap in *. destruct (Z.lt_ge_cases (LOW_WORD x + d) (2 ^ 32)).
  - rewrite Z.mod_small by lia. rewrite (proj2 (Z.ltb_ge _ _)) by lia. symmetry. apply Z.div_unique with (r := LOW_WORD x + d); lia.
  - rewrite <- (Z.mod_add _ (-1)) by lia. rewrite Z.mod_small by lia. rewrite (proj2 (Z.ltb_lt _ _)) by lia.
    symmetry. apply Z.div_unique with (r := LOW_WORD x + d - 2 ^ 32); lia.
Qed.
(** The sum stays within the numbers of the same sign. *)
Definition room_for (d : Z) : Prop := 0 <= d /\ fabs_bits x + d < 2 ^ 63.

Lemma room_range d : room_for d -> 0 <= x + d < 2 ^ 64 /\ fabs_bits x <= x /\ (fsign x = false -> x + d < 2 ^ 63).
Proof.
  intros [Hd Hr]. pose proof (float_split x x_float) as E. pose proof (fabs_range x) as Ha. unfold with_sign in E.
  change (2 ^ sbit) with (2 ^ 63) in *. destruct (fsign x); repeat split; try done; lia.
Qed.

Lemma high_fits d : room_for (d * 2 ^ 32) -> fits_int (s32 (HIGH_WORD x) + d) = true.
Proof.
  intros Hd. destruct (room_range _ Hd) as (Hr & _ & Hp). destruct Hd as [Hd _]. rewrite high_signed by done. unfold fits_int, INT_MIN, INT_MAX.
  pose proof (fsign_val x x_float) as Es. change (2 ^ sbit) with (2 ^ 63) in Es. pose proof (words_eq x) as E. pose proof (u32_range x) as Hl. fold (LOW_WORD x) in Hl.
  rewrite andb_true_iff, !Z.leb_le. destruct (fsign x).
  - symmetry in Es. apply Z.leb_le in Es. lia.
  - specialize (Hp eq_refl). symmetry in Es. apply Z.leb_gt in Es. lia.
Qed.

Lemma low_fits d : 0 <= d < 2 ^ 32 -> room_for d -> u32 (LOW_WORD x + d) < LOW_WORD x -> fits_int (s32 (HIGH_WORD x) + 1) = true.
Proof.
  intros Hd Hr Hlt. destruct (low_add d Hd) as [_ E]. cbv zeta in E. rewrite (proj2 (Z.ltb_lt _ _) Hlt) in E.
  destruct (room_range _ Hr) as (Hx & _ & Hp). rewrite high_signed by done. unfold fits_int, INT_MIN, INT_MAX.
  pose proof (fsign_val x x_float) as Es. change (2 ^ sbit) with (2 ^ 63) in Es. pose proof (Z.mul_div_le (x + d) (2 ^ 32) ltac:(lia)) as Hle.
  pose proof (words_eq x) as Ew. pose proof (u32_range x) as Hl. fold (LOW_WORD x) in Hl.
  rewrite andb_true_iff, !Z.leb_le. destruct (fsign x).
  - symmetry in Es. apply Z.leb_le in Es. lia.
  - specialize (Hp eq_refl). symmetry in Es. apply Z.leb_gt in Es. lia.
Qed.

(** Clearing after a number was added, or not, to the high word. *)
Lemma bump_high (c : bool) j (e : Z) b :
  0 <= j < 20 -> b = 2 ^ (20 - j) \/ b = 2 ^ (19 - j) -> room_for (b * 2 ^ 32) ->
  bind (if c then int_ (s32 (HIGH_WORD x) + b) else ret (s32 (HIGH_WORD x)))
       (fun i0 => ret (INSERT_WORDS (s32 (Z.land (u32 i0) (u32 (Z.lnot (Z.shiftr 0x000fffff j))))) 0)) e =
  Some (clear (52 - j) (if c then x + b * 2 ^ 32 else x), e).
Proof.
  intros Hj Hb Hr. assert (0 <= b) by (destruct Hb as [-> | ->]; apply Z.pow_nonneg; lia).
  change 0x000fffff with (2 ^ 20 - 1). rewrite shiftr_mask by lia. replace (20 - j) with (52 - j - 32) by lia.
  pose proof (x_range x x_float). unfold bind. destruct c.
  - unfold int_. rewrite high_fits by done. cbn [ret]. unfold ret. rewrite (insert_high _ (x + b * 2 ^ 32)); [done| |apply (room_range _ Hr)|lia].
    apply high_add. apply (room_range _ Hr).
  - unfold ret. rewrite (insert_high _ x); [done| |done|lia]. destruct (HIGH_WORD_eq x x_float) as [-> ?]. rewrite u32_s32. by rewrite u32_small.
Qed.

(** To the low word. *)
Lemma bump_low j (e : Z) d :
  20 <= j <= 51 -> 0 <= d < 2 ^ 32 -> room_for d ->
  bind (if u32 (LOW_WORD x + d) <? LOW_WORD x then int_ (s32 (HIGH_WORD x) + 1) else ret (s32 (HIGH_WORD x)))
       (fun i0 => ret (INSERT_WORDS i0 (Z.land (u32 (LOW_WORD x + d)) (u32 (Z.lnot (low_mask j)))))) e =
  Some (clear (52 - j) (x + d), e).
Proof.
  intros Hj Hd Hr. unfold low_mask. change 0xffffffff with (2 ^ 32 - 1). rewrite shiftr_mask by lia. replace (32 - (j - 20)) with (52 - j) by lia.
  destruct (low_add d Hd) as [El Eh]. cbv zeta in *. pose proof (room_range _ Hr) as (Hx & _ & _). destruct (HIGH_WORD_eq x x_float) as [Hh Hhr].
  assert (forall i0, u32 i0 = (x + d) / 2 ^ 32 -> INSERT_WORDS i0 (Z.land (u32 (LOW_WORD x + d)) (u32 (Z.lnot (2 ^ (52 - j) - 1)))) = clear (52 - j) (x + d)) as Hins.
  { intros i0 Hi. rewrite <- (u32_u32 (LOW_WORD x + d)). apply insert_low; [done| |lia]. by rewrite u32_u32. }
  unfold bind. destruct (Z.ltb_spec (u32 (LOW_WORD x + d)) (LOW_WORD x)) as [Hlt|_].
  - unfold int_. rewrite (low_fits d) by done. unfold ret. assert ((x + d) / 2 ^ 32 < 2 ^ 32) by (apply Z.div_lt_upper_bound; lia).
    pose proof (words_eq x). pose proof (u32_range x) as Hl. fold (LOW_WORD x) in Hl. pose proof (x_range x x_float).
    rewrite Hins; [done|]. rewrite high_add by lia. rewrite Eh, Z.div_add by lia. lia.
  - unfold ret. rewrite Hins; [done|]. rewrite u32_s32, Hh, Eh, Z.add_0_r. by apply u32_small.
Qed.
End double_words.

(** ** Numbers *)

(** The number one. *)
Abbreviation one := (2 ^ one_log).

(** A number, in the same units, rounded to an integer. *)
Definition int_floor (v : Z) : Z := v / one * one.
Definition int_ceil (v : Z) : Z := - (- v / one * one).
Definition int_trunc (v : Z) : Z := Z.quot v one * one.
Definition int_round (v : Z) : Z := Z.sgn v * ((Z.abs v + 2 ^ (one_log - 1)) / one * one).

(** [r] is the float that [f] makes of [x]. *)
Record rounds_to (f : Z -> Z) (x r : Z) : Prop := {
  rt_float : is_float r;
  rt_finite : is_finite r = true;
  rt_sign : fsign r = fsign x;
  rt_value : fval r = f (fval x) }.

Lemma fval_abs x : fval x = if fsign x then - mag (fabs_bits x) else mag (fabs_bits x).
Proof. unfold fval. by rewrite mag_abs. Qed.

Lemma fsig_low x k : 0 <= k <= mbits -> fsig (fabs_bits x) mod 2 ^ k = x mod 2 ^ k.
Proof.
  intros Hk. assert (fman x mod 2 ^ k = x mod 2 ^ k) as E.
  { unfold fman. apply Z.mod_mod_divide. exists (2 ^ (mbits - k)). rewrite <- Z.pow_add_r by lia. f_equal. lia. }
  unfold fsig. rewrite fexp_abs, fman_abs. destruct (_ =? 0); [done|]. rewrite <- E.
  replace (2 ^ mbits + fman x) with (fman x + 2 ^ (mbits - k) * 2 ^ k) by (rewrite <- Z.pow_add_r by lia; replace (mbits - k + k) with mbits by lia; lia).
  apply Z.mod_add, Z.pow_nonzero; lia.
Qed.

Section finite.
Variable x : Z.
Hypothesis x_float : is_float x.
Hypothesis x_finite : is_finite x = true.

Let a := fabs_bits x.
Let j := fexp x - 1023.

Lemma a_range : 0 <= a < inf_bits.
Proof. pose proof (fabs_range x). unfold is_finite in x_finite. apply Z.ltb_lt in x_finite. subst a. lia. Qed.

Lemma a_exp : fexp a = fexp x.
Proof. apply fexp_abs. Qed.

Section fraction.
Hypothesis j_range : 0 <= j <= 51.
Let k := 52 - j.

Lemma a_small : a < 1075 * 2 ^ 52.
Proof.
  pose proof a_range as Ha. pose proof inf_range. rewrite (pattern_split a) by lia. pose proof (fsig_range a) as Hs. change (2 ^ mbits) with (2 ^ 52) in *.
  assert (fscale a <= 1073) by (unfold fscale; rewrite a_exp; subst j; lia). lia.
Qed.

Lemma k_scale : k + fscale a = one_log /\ 2 ^ mbits <= fsig a.
Proof.
  assert (bias <= fexp a) as Hb by (rewrite a_exp; change bias with 1023; subst j; lia). destruct (exp_point a Hb) as [E Hs]. split; [|done].
  rewrite <- E, a_exp. change bias with 1023. change mbits with 52. subst k j. lia.
Qed.

Lemma div_one d : (mag a + d * 2 ^ fscale a) / one = (fsig a + d) / 2 ^ k.
Proof.
  destruct k_scale as [<- _]. pose proof (fscale_nonneg a). unfold mag. rewrite Z.pow_add_r by (subst k; lia).
  rewrite <- Z.mul_add_distr_r. apply Z.div_mul_cancel_r; apply Z.pow_nonzero; subst k; lia.
Qed.

Lemma fraction_zero : (x mod 2 ^ k =? 0) = (mag a mod one =? 0).
Proof.
  pose proof (fscale_nonneg a). destruct k_scale as [<- _]. unfold mag. rewrite (Z.pow_add_r 2 k) by (subst k; lia).
  rewrite Zmult_mod_distr_r. subst a. rewrite fsig_low by (change mbits with 52; subst k; lia).
  assert (0 < 2 ^ fscale (fabs_bits x)) by (apply Z.pow_pos_nonneg; lia). destruct (Z.eqb_spec (x mod 2 ^ k) 0) as [->|Hn]; [done|].
  symmetry. apply Z.eqb_neq. nia.
Qed.

Lemma k_pow : 0 < 2 ^ k <= 2 ^ 52.
Proof. subst k. split; [apply Z.pow_pos_nonneg; lia|apply Z.pow_le_mono_r; lia]. Qed.

Lemma fraction_room d : 0 <= d <= 2 ^ k -> room_for x d.
Proof. intros Hd. pose proof a_small. pose proof k_pow. split; [lia|]. fold a. lia. Qed.

Definition signed (v : Z) : Z := if fsign x then - v else v.

(** Bits added at the place of one or below, and the rest cleared. *)
Lemma clear_rounds f d :
  0 <= d <= 2 ^ k -> f (fval x) = signed ((mag a + d * 2 ^ fscale a) / one * one) -> rounds_to f x (clear k (x + d)).
Proof.
  intros Hd Hf. pose proof a_range as Ha. pose proof a_small. pose proof k_pow as Hk. destruct k_scale as [Ek Hn].
  destruct (mag_clear a k d) as [Hmag Hcl]; [done|done|change mbits with 52; subst k; lia|done|].
  assert (clear k (x + d) = with_sign (fsign x) (clear k (a + d))) as ->.
  { rewrite (float_split x x_float) at 1. fold a. unfold with_sign. destruct (fsign x); [|done]. unfold clear. change (2 ^ sbit) with (2 ^ 63).
    replace (a + 2 ^ 63 + d) with (a + d + 2 ^ (63 - k) * 2 ^ k) by (rewrite <- Z.pow_add_r by (subst k; lia); replace (63 - k + k) with 63 by lia; lia).
    rewrite Z.div_add by lia. rewrite Z.mul_add_distr_r. f_equal. rewrite <- Z.pow_add_r by (subst k; lia). f_equal. lia. }
  assert (clear k (a + d) <= a + d) as Hle by (unfold clear; rewrite Z.mul_comm; apply Z.mul_div_le; lia).
  assert (0 <= clear k (a + d) < 2 ^ sbit) as Hr by (change (2 ^ sbit) with (2 ^ 63); lia).
  destruct (with_sign_parts (fsign x) _ Hr) as [Hsg Hab].
  split; [by apply with_sign_float| |done|].
  - unfold is_finite. rewrite Hab. apply Z.ltb_lt. change inf_bits with (2047 * 2 ^ 52). lia.
  - rewrite fval_with_sign by done. rewrite Hf, Hmag, div_one, Ek. unfold signed. done.
Qed.
End fraction.

(** A number that is an integer already. *)
Lemma integral_rounds f : f (fval x) = fval x -> rounds_to f x x.
Proof. intros Hf. by split. Qed.

Lemma fval_signed : fval x = signed (mag a).
Proof. apply fval_abs. Qed.
End finite.

(** ** The reference roundings *)

Section reference_rounding.

Lemma one_pos : 0 < one.
Proof. apply Z.pow_pos_nonneg; [lia|]. by vm_compute. Qed.

Lemma div_exact v : v mod one = 0 -> v / one * one = v.
Proof. intros Hv. pose proof one_pos. pose proof (Z.div_mod v one). lia. Qed.

Lemma int_floor_neg v : v mod one <> 0 -> int_floor (- v) = - ((v + one) / one * one).
Proof.
  intros Hv. pose proof one_pos as Hp. unfold int_floor. rewrite Z.div_opp_l_nz by lia.
  replace (v + one) with (v + 1 * one) by lia. rewrite Z.div_add by lia. lia.
Qed.

Lemma int_floor_exact v : v mod one = 0 -> int_floor v = v /\ int_floor (- v) = - v.
Proof.
  intros Hv. pose proof one_pos. split; [by apply div_exact|]. apply div_exact. by apply Z.mod_opp_l_z; [lia|].
Qed.

Lemma int_ceil_opp v : int_ceil v = - int_floor (- v).
Proof. done. Qed.

Lemma int_trunc_signed (neg : bool) v : 0 <= v -> int_trunc (if neg then - v else v) = if neg then - (v / one * one) else v / one * one.
Proof.
  intros Hv. pose proof one_pos. unfold int_trunc. destruct neg; [rewrite Z.quot_opp_l by lia|]; rewrite Z.quot_div_nonneg by lia; lia.
Qed.

Lemma int_round_signed (neg : bool) v :
  0 <= v -> int_round (if neg then - v else v) = if neg then - ((v + 2 ^ (one_log - 1)) / one * one) else (v + 2 ^ (one_log - 1)) / one * one.
Proof.
  intros Hv. pose proof one_pos. unfold int_round. assert (2 ^ (one_log - 1) * 2 = one) as Eh by by vm_compute.
  assert (v = 0 -> (v + 2 ^ (one_log - 1)) / one = 0) as H0 by (intros ->; apply Z.div_small; lia).
  destruct (Z.eq_dec v 0) as [->|]; [rewrite (H0 eq_refl); by destruct neg|].
  destruct neg; rewrite ?Z.abs_opp, ?Z.sgn_opp, (Z.abs_eq v), (Z.sgn_pos v) by lia; lia.
Qed.
End reference_rounding.

(** ** floor and ceil *)

Section functions.
Context `{NanRules}.
Variable mode : rmode.
Variable x : Z.
Hypothesis x_float : is_float x.

Let a := fabs_bits x.

Lemma s32_zero l : 0 <= l < 2 ^ 32 -> s32 l = 0 <-> l = 0.
Proof.
  intros Hl. split; [|by intros ->]. intros E. apply (f_equal u32) in E. rewrite u32_s32 in E. by rewrite u32_small in E.
Qed.

Lemma abs_words : fabs_bits x = LOW_WORD x + 2 ^ 32 * (HIGH_WORD x mod 2 ^ 31).
Proof.
  destruct (HIGH_WORD_eq x x_float) as [-> _]. unfold fabs_bits. change (2 ^ sbit) with (2 ^ 32 * 2 ^ 31). by rewrite Z.rem_mul_r by lia.
Qed.

Lemma land_abs_high : Z.land (s32 (HIGH_WORD x)) 0x7fffffff = HIGH_WORD x mod 2 ^ 31.
Proof.
  rewrite (land_ones_eq _ _ 31) by done. rewrite high_signed by done. destruct (HIGH_WORD_eq x x_float) as [-> _].
  destruct (fsign x); [|by rewrite Z.sub_0_r]. replace (x / 2 ^ 32 - 2 ^ 32) with (x / 2 ^ 32 + (-2) * 2 ^ 31) by lia. by rewrite Z.mod_add by lia.
Qed.

Lemma zero_words : (Z.lor (Z.land (s32 (HIGH_WORD x)) 0x7fffffff) (s32 (LOW_WORD x)) =? 0) = (fabs_bits x =? 0).
Proof.
  rewrite land_abs_high, abs_words. pose proof (u32_range x) as Hl. fold (LOW_WORD x) in Hl.
  pose proof (Z.mod_pos_bound (HIGH_WORD x) (2 ^ 31) ltac:(lia)) as Hh. pose proof (s32_zero _ Hl) as Hz.
  destruct (Z.eqb_spec (LOW_WORD x + 2 ^ 32 * (HIGH_WORD x mod 2 ^ 31)) 0).
  - apply Z.eqb_eq, Z.lor_eq_0_iff. rewrite Hz. lia.
  - apply Z.eqb_neq. rewrite Z.lor_eq_0_iff, Hz. lia.
Qed.

Lemma insert_same : INSERT_WORDS (s32 (HIGH_WORD x)) (s32 (LOW_WORD x)) = x.
Proof.
  rewrite INSERT_WORDS_eq, !u32_s32. destruct (HIGH_WORD_eq x x_float) as [-> Hr]. unfold LOW_WORD. rewrite u32_u32, (u32_small (x / _)) by done.
  symmetry. apply words_eq.
Qed.

Hypothesis x_finite : is_finite x = true.

Lemma rounds_constant f neg c :
  fsign x = neg -> 0 <= c < inf_bits -> f (fval x) = (if neg then - mag c else mag c) -> rounds_to f x (with_sign neg c).
Proof.
  intros Hs Hc Hf. pose proof inf_range. assert (0 <= c < 2 ^ sbit) as Hc' by lia. destruct (with_sign_parts neg c Hc') as [E1 E2]. split.
  - by apply with_sign_float.
  - unfold is_finite. rewrite E2. apply Z.ltb_lt. lia.
  - by rewrite E1.
  - rewrite Hf. by apply fval_with_sign.
Qed.

Lemma below_one : fexp x - 1023 < 0 -> 0 <= mag a < one.
Proof. intros Hj. split; [apply mag_nonneg|]. apply mag_below_one. subst a. rewrite fexp_abs. change bias with 1023. lia. Qed.

Lemma above_point : 51 < fexp x - 1023 -> mag a mod one = 0.
Proof. intros Hj. apply mag_integral. subst a. rewrite fexp_abs. change bias with 1023. change mbits with 52. lia. Qed.

Lemma finite_exp : fexp x - 1023 < 1024.
Proof.
  unfold is_finite in x_finite. apply Z.ltb_lt in x_finite. rewrite <- fexp_abs. pose proof (fabs_range x) as Hr. unfold fexp.
  change mbits with 52. change ebits with 11. change inf_bits with (2047 * 2 ^ 52) in *. change (2 ^ sbit) with (2 ^ 63) in *.
  assert (fabs_bits x / 2 ^ 52 < 2047) by (apply Z.div_lt_upper_bound; lia). assert (0 <= fabs_bits x / 2 ^ 52) by (apply Z.div_pos; lia).
  rewrite Z.mod_small by lia. lia.
Qed.

Lemma low_same : u32 (s32 (LOW_WORD x)) = LOW_WORD x.
Proof. rewrite u32_s32. apply u32_u32. Qed.

Lemma test_high j :
  j = fexp x - 1023 -> 0 <= j < 20 ->
  (Z.lor (Z.land (u32 (s32 (HIGH_WORD x))) (Z.shiftr 0x000fffff j)) (LOW_WORD x) =? 0) = (mag a mod one =? 0).
Proof.
  intros Ej Hj. change 0x000fffff with (2 ^ 20 - 1). rewrite shiftr_mask by lia. replace (20 - j) with (52 - j - 32) by lia.
  rewrite fraction_high by (done || lia). subst j. apply fraction_zero; [done..|lia].
Qed.

Lemma test_low j : j = fexp x - 1023 -> 20 <= j <= 51 -> (Z.land (LOW_WORD x) (low_mask j) =? 0) = (mag a mod one =? 0).
Proof.
  intros Ej Hj. unfold low_mask. change 0xffffffff with (2 ^ 32 - 1). rewrite shiftr_mask by lia. replace (32 - (j - 20)) with (52 - j) by lia.
  rewrite <- low_same, fraction_low by lia. subst j. apply fraction_zero; [done..|lia].
Qed.

(** The change of floor and ceil when the binary point is in the low word. *)
Lemma bump_low_one (c : bool) j (e : Z) :
  j = fexp x - 1023 -> 20 <= j <= 51 ->
  bind (if c then
          if j =? 20 then bind (int_ (s32 (HIGH_WORD x) + 1)) (fun i0 => ret (i0, s32 (LOW_WORD x)))
          else
            let j' := s32 (u32 (LOW_WORD x + Z.shiftl 1 (52 - j))) in
            bind (if u32 j' <? LOW_WORD x then int_ (s32 (HIGH_WORD x) + 1) else ret (s32 (HIGH_WORD x))) (fun i0 => ret (i0, j'))
        else ret (s32 (HIGH_WORD x), s32 (LOW_WORD x)))
       (fun '(i0, i1) => ret (INSERT_WORDS i0 (s32 (Z.land (u32 i1) (u32 (Z.lnot (low_mask j))))))) e =
  Some (clear (52 - j) (if c then x + 2 ^ (52 - j) else x), e).
Proof.
  intros Ej Hj. assert (forall i l, INSERT_WORDS i (s32 l) = INSERT_WORDS i l) as Hins by (intros; rewrite !INSERT_WORDS_eq; by rewrite u32_s32).
  assert (room_for x (2 ^ (52 - j))) as Hroom by (subst j; apply fraction_room; try done; lia).
  destruct c.
  - destruct (Z.eqb_spec j 20) as [E|E].
    + rewrite E in *. change (2 ^ (52 - 20)) with (1 * 2 ^ 32) in *. unfold bind, int_. rewrite high_fits by assumption. unfold ret. rewrite Hins. unfold low_mask. change (Z.shiftr 4294967295 (20 - 20)) with (2 ^ 32 - 1).
      rewrite (insert_low _ (s32 (LOW_WORD x)) (x + 1 * 2 ^ 32)); [done| | |lia].
      * apply high_add; [done|]. by apply room_range.
      * rewrite Z.mod_add by lia. apply low_same.
    + cbv zeta. rewrite u32_s32, u32_u32. pose proof (bump_low x x_float j e (2 ^ (52 - j))) as Hb. rewrite <- Hb; [|lia| |done].
      * rewrite Z.shiftl_mul_pow2, Z.mul_1_l by lia. unfold bind. destruct (_ <? _); [unfold int_; destruct (fits_int _); [|done]|]; unfold ret; by rewrite Hins, u32_s32, u32_u32.
      * split; [apply Z.pow_nonneg; lia|apply Z.pow_lt_mono_r; lia].
  - unfold bind, ret. rewrite Hins. unfold low_mask. change 0xffffffff with (2 ^ 32 - 1). rewrite shiftr_mask by lia. replace (32 - (j - 20)) with (52 - j) by lia.
    rewrite (insert_low _ (s32 (LOW_WORD x)) x); [done| |apply low_same|lia].
    destruct (HIGH_WORD_eq x x_float) as [-> ?]. rewrite u32_s32. by rewrite u32_small.
Qed.

(** The value after the change: one more for the numbers that move away from
    zero. *)
Lemma bumped_value f (c : bool) j d :
  j = fexp x - 1023 -> 0 <= j <= 51 -> 0 <= d <= 2 ^ (52 - j) ->
  f (fval x) = signed x ((mag a + (if c then d * 2 ^ fscale a else 0)) / one * one) ->
  rounds_to f x (clear (52 - j) (if c then x + d else x)).
Proof.
  intros -> Hj Hd Hf. replace (if c then x + d else x) with (x + (if c then d else 0)) by (destruct c; lia).
  apply clear_rounds; [done..|destruct c; lia|]. rewrite Hf. by destruct c.
Qed.

Lemma point_pow j : j = fexp x - 1023 -> 0 <= j <= 51 -> 2 ^ (52 - j) * 2 ^ fscale a = one.
Proof.
  intros -> Hj. rewrite <- Z.pow_add_r by (try apply fscale_nonneg; lia). f_equal. by apply k_scale.
Qed.

(** What floor and ceil do when the binary point is in the high word, and in the
    low word; [c] says that the number moves away from zero. *)
Section parts.
Variables (f : Z -> Z) (c : bool) (j e : Z).
Hypothesis j_eq : j = fexp x - 1023.
Hypothesis f_integral : mag a mod one = 0 -> f (fval x) = fval x.
Hypothesis f_value : mag a mod one <> 0 -> f (fval x) = signed x ((mag a + (if c then one else 0)) / one * one).

Lemma bumped_one : 0 <= j <= 51 -> mag a mod one <> 0 -> rounds_to f x (clear (52 - j) (if c then x + 2 ^ (52 - j) else x)).
Proof. intros Hj E. apply bumped_value; [done|done|lia|]. rewrite point_pow by done. auto. Qed.

Lemma high_part :
  0 <= j < 20 ->
  exists r,
    (if Z.lor (Z.land (u32 (s32 (HIGH_WORD x))) (Z.shiftr 0x000fffff j)) (u32 (s32 (LOW_WORD x))) =? 0 then ret x
     else
       bind (if c then int_ (s32 (HIGH_WORD x) + Z.shiftr 0x00100000 j) else ret (s32 (HIGH_WORD x)))
            (fun i0 => ret (INSERT_WORDS (s32 (Z.land (u32 i0) (u32 (Z.lnot (Z.shiftr 0x000fffff j))))) 0))) e = Some (r, e) /\
    rounds_to f x r.
Proof.
  intros Hj. rewrite low_same, test_high by done. fold a. destruct (Z.eqb_spec (mag a mod one) 0) as [E|E].
  { eexists. split; [reflexivity|]. apply integral_rounds; auto. }
  change 0x00100000 with (2 ^ 20). rewrite (Z.shiftr_div_pow2 (2 ^ 20)) by lia. rewrite <- Z.pow_sub_r by lia.
  rewrite bump_high; [|done|lia|by left|].
  - rewrite <- Z.pow_add_r by lia. replace (20 - j + 32) with (52 - j) by lia. eexists. split; [reflexivity|]. apply bumped_one; [lia|done].
  - rewrite <- Z.pow_add_r by lia. replace (20 - j + 32) with (52 - j) by lia. subst j. apply fraction_room; [done..|lia|lia].
Qed.

Lemma low_part :
  20 <= j <= 51 ->
  exists r,
    (if Z.land (u32 (s32 (LOW_WORD x))) (low_mask j) =? 0 then ret x
     else
       bind (if c then
               if j =? 20 then bind (int_ (s32 (HIGH_WORD x) + 1)) (fun i0 => ret (i0, s32 (LOW_WORD x)))
               else
                 let j' := s32 (u32 (u32 (s32 (LOW_WORD x)) + Z.shiftl 1 (52 - j))) in
                 bind (if u32 j' <? u32 (s32 (LOW_WORD x)) then int_ (s32 (HIGH_WORD x) + 1) else ret (s32 (HIGH_WORD x))) (fun i0 => ret (i0, j'))
             else ret (s32 (HIGH_WORD x), s32 (LOW_WORD x)))
            (fun '(i0, i1) => ret (INSERT_WORDS i0 (s32 (Z.land (u32 i1) (u32 (Z.lnot (low_mask j)))))))) e = Some (r, e) /\
    rounds_to f x r.
Proof.
  intros Hj. rewrite low_same, (test_low j) by done. fold a. destruct (Z.eqb_spec (mag a mod one) 0) as [E|E].
  - eexists. split; [reflexivity|]. apply integral_rounds; auto.
  - rewrite (bump_low_one c j) by done. eexists. split; [reflexivity|]. apply bumped_one; [lia|done].
Qed.
End parts.

Lemma floor_value :
  (mag a mod one = 0 -> int_floor (fval x) = fval x) /\
  (mag a mod one <> 0 -> int_floor (fval x) = signed x ((mag a + (if fsign x then one else 0)) / one * one)).
Proof.
  rewrite fval_signed. unfold signed. fold a. split; intros E.
  - destruct (int_floor_exact (mag a) E). by destruct (fsign x).
  - destruct (fsign x); [by apply int_floor_neg|by rewrite Z.add_0_r].
Qed.

Lemma ceil_value :
  (mag a mod one = 0 -> int_ceil (fval x) = fval x) /\
  (mag a mod one <> 0 -> int_ceil (fval x) = signed x ((mag a + (if negb (fsign x) then one else 0)) / one * one)).
Proof.
  rewrite fval_signed, int_ceil_opp. unfold signed. fold a. split; intros E.
  - destruct (int_floor_exact (mag a) E). destruct (fsign x); rewrite ?Z.opp_involutive; lia.
  - destruct (fsign x); cbn [negb]; [by rewrite Z.opp_involutive, Z.add_0_r|]. rewrite int_floor_neg by done. lia.
Qed.

(** A number between zero and one that moves away from zero. *)
Lemma up_to_one : a <> 0 -> 0 <= mag a < one -> mag a mod one <> 0 /\ (mag a + one) / one * one = one.
Proof.
  intros Ha Hm. assert (0 < mag a) by (destruct (Z.eq_dec (mag a) 0) as [E|]; [apply mag_zero in E; [done|apply fabs_range]|lia]).
  split; [rewrite Z.mod_small; lia|]. replace ((mag a + one) / one) with 1; [lia|]. apply Z.div_unique with (r := mag a); lia.
Qed.

Lemma floor64_spec (e : Z) : exists r, floor64 mode x e = Some (r, e) /\ rounds_to int_floor x r.
Proof.
  destruct floor_value as [Hint Hval].
  unfold floor64. rewrite high_exponent by done. change 0x3ff with 1023. set (j := fexp x - 1023).
  destruct (Z.ltb_spec j 20) as [H20|H20]; [destruct (Z.ltb_spec j 0) as [H0|H0]|].
  - pose proof (below_one H0) as Hlt. rewrite Z.leb_antisym, high_sign by done. destruct (fsign x) eqn:Es; cbn [negb].
    + rewrite zero_words by done. fold a. destruct (Z.eqb_spec a 0) as [E0|E0]; cbn [negb]; (eexists; split; [reflexivity|]).
      * rewrite insert_same by done. apply integral_rounds; [done..|]. apply Hint. rewrite E0. by rewrite mag_0.
      * destruct (up_to_one E0 Hlt) as [En E1]. apply (rounds_constant _ true 0x3ff0000000000000); [done|by vm_compute|].
        rewrite (Hval En). unfold signed. rewrite Es, E1. by vm_compute.
    + eexists. split; [reflexivity|]. apply (rounds_constant _ false 0); [done|by vm_compute|].
      rewrite fval_signed. unfold signed, int_floor. fold a. rewrite Es, Z.div_small by lia. by rewrite mag_0.
  - rewrite high_sign by done. apply high_part; [done..|lia].
  - destruct (Z.ltb_spec 51 j) as [H51|H51].
    + pose proof finite_exp as Hf. fold j in Hf. rewrite (proj2 (Z.eqb_neq j 0x400)) by lia. eexists. split; [reflexivity|].
      apply integral_rounds; [done..|]. by apply Hint, above_point.
    + rewrite high_sign by done. apply low_part; [done..|lia].
Qed.

Lemma ceil64_spec (e : Z) : exists r, ceil64 mode x e = Some (r, e) /\ rounds_to int_ceil x r.
Proof.
  destruct ceil_value as [Hint Hval].
  unfold ceil64. rewrite high_exponent by done. change 0x3ff with 1023. set (j := fexp x - 1023).
  assert (0 <= j -> (0 <? s32 (HIGH_WORD x)) = negb (fsign x)) as Hpos.
  { intros Hj. rewrite <- high_sign by done. rewrite Z.ltb_antisym. f_equal. destruct (Z.ltb_spec (s32 (HIGH_WORD x)) 0); [apply Z.leb_le; lia|].
    apply Z.leb_gt. destruct (Z.eq_dec (s32 (HIGH_WORD x)) 0) as [E|]; [|lia]. pose proof (high_exponent x x_float) as Ee. rewrite E in Ee.
    change (Z.land (Z.shiftr 0 20) 2047) with 0 in Ee. subst j. lia. }
  destruct (Z.ltb_spec j 20) as [H20|H20]; [destruct (Z.ltb_spec j 0) as [H0|H0]|].
  - pose proof (below_one H0) as Hlt. rewrite high_sign by done. destruct (fsign x) eqn:Es.
    + eexists. split; [reflexivity|]. apply (rounds_constant _ true 0); [done|by vm_compute|].
      rewrite fval_signed, int_ceil_opp. unfold signed, int_floor. fold a. rewrite Es, Z.opp_involutive, Z.div_small by lia. by rewrite mag_0.
    + assert (Z.lor (s32 (HIGH_WORD x)) (s32 (LOW_WORD x)) = Z.lor (Z.land (s32 (HIGH_WORD x)) 0x7fffffff) (s32 (LOW_WORD x))) as ->.
      { f_equal. rewrite land_abs_high by done. rewrite high_signed, Es, Z.sub_0_r by done. destruct (HIGH_WORD_eq x x_float) as [-> Hr].
        rewrite Z.mod_small; [done|]. pose proof (fsign_val x x_float) as Ef. rewrite Es in Ef. symmetry in Ef. apply Z.leb_gt in Ef. change (2 ^ sbit) with (2 ^ 63) in Ef.
        split; [lia|]. apply Z.div_lt_upper_bound; lia. }
      rewrite zero_words by done. fold a. destruct (Z.eqb_spec a 0) as [E0|E0]; cbn [negb]; (eexists; split; [reflexivity|]).
      * rewrite insert_same by done. apply integral_rounds; [done..|]. apply Hint. rewrite E0. by rewrite mag_0.
      * destruct (up_to_one E0 Hlt) as [En E1]. apply (rounds_constant _ false 0x3ff0000000000000); [done|by vm_compute|].
        rewrite (Hval En). unfold signed. rewrite Es. cbn [negb]. rewrite E1. by vm_compute.
  - rewrite Hpos by done. apply high_part; [done..|lia].
  - destruct (Z.ltb_spec 51 j) as [H51|H51].
    + pose proof finite_exp as Hf. fold j in Hf. rewrite (proj2 (Z.eqb_neq j 0x400)) by lia. eexists. split; [reflexivity|].
      apply integral_rounds; [done..|]. by apply Hint, above_point.
    + rewrite Hpos by lia. apply low_part; [done..|lia].
Qed.
(** *** round *)

Lemma high_exponent_mask : Z.shiftr (Z.land (s32 (HIGH_WORD x)) 0x7ff00000) 20 = fexp x.
Proof. rewrite <- high_exponent by done. rewrite Z.shiftr_land. done. Qed.

Lemma high_bit h : 0 <= h < 2 ^ 32 -> Z.land h 0x80000000 = if 2 ^ 31 <=? h then 2 ^ 31 else 0.
Proof.
  intros Hh. change 0x80000000 with (2 ^ 31). assert (Z.testbit h 31 = (2 ^ 31 <=? h)) as <-.
  { rewrite Z.testbit_eqb by lia. destruct (Z.leb_spec (2 ^ 31) h).
    - assert (h / 2 ^ 31 = 1) as ->; [|done]. symmetry. apply Z.div_unique with (r := h - 2 ^ 31); lia.
    - by rewrite Z.div_small by lia. }
  apply Z.bits_inj'. intros n Hn. rewrite Z.land_spec, Z.pow2_bits_eqb by lia. destruct (Z.eqb_spec 31 n) as [<-|].
  - rewrite andb_true_r. destruct (Z.testbit h 31); [by rewrite Z.pow2_bits_true|by rewrite Z.bits_0].
  - rewrite andb_false_r. destruct (Z.testbit h 31); [by rewrite Z.pow2_bits_false|by rewrite Z.bits_0].
Qed.

Lemma sign_word : Z.land (u32 (s32 (HIGH_WORD x))) 0x80000000 = if fsign x then 2 ^ 31 else 0.
Proof.
  rewrite high_bit by apply u32_range. rewrite u32_s32. destruct (HIGH_WORD_eq x x_float) as [-> Hr]. rewrite u32_small by done.
  rewrite fsign_val by done. change (2 ^ sbit) with (2 ^ 63). pose proof (words_eq x). pose proof (u32_range x) as Hl. fold (LOW_WORD x) in Hl.
  destruct (Z.leb_spec (2 ^ 31) (x / 2 ^ 32)), (Z.leb_spec (2 ^ 63) x); lia.
Qed.

Lemma round_value : int_round (fval x) = signed x ((mag a + 2 ^ (one_log - 1)) / one * one).
Proof. rewrite fval_signed. unfold signed. fold a. apply int_round_signed, mag_nonneg. Qed.

Lemma round_integral : mag a mod one = 0 -> int_round (fval x) = fval x.
Proof.
  intros E. rewrite round_value, fval_signed. unfold signed. fold a. pose proof one_pos as Hp. pose proof (div_exact _ E) as Ed.
  assert ((mag a + 2 ^ (one_log - 1)) / one * one = mag a) as ->; [|done]. rewrite <- Ed at 1. rewrite Z.add_comm, Z.div_add by lia.
  rewrite (Z.div_small (2 ^ (one_log - 1))) by by vm_compute. lia.
Qed.

(** Half of the weight of one. *)
Lemma half_point j : j = fexp x - 1023 -> 0 <= j <= 51 -> 2 ^ (51 - j) * 2 ^ fscale a = 2 ^ (one_log - 1).
Proof.
  intros Ej Hj. pose proof (point_pow j Ej Hj) as E. assert (2 ^ (52 - j) = 2 * 2 ^ (51 - j)) as E2 by (rewrite <- Z.pow_succ_r by lia; f_equal; lia).
  assert (one = 2 * 2 ^ (one_log - 1)) as E1 by by vm_compute. lia.
Qed.

Lemma half_rounds j : j = fexp x - 1023 -> 0 <= j <= 51 -> rounds_to int_round x (clear (52 - j) (x + 2 ^ (51 - j))).
Proof.
  intros Ej Hj. apply (bumped_value int_round true j); [done|done| |by rewrite half_point, round_value].
  split; [apply Z.pow_nonneg; lia|apply Z.pow_le_mono_r; lia].
Qed.

Lemma half_room j : j = fexp x - 1023 -> 0 <= j <= 51 -> room_for x (2 ^ (51 - j)).
Proof.
  intros -> Hj. apply fraction_room; [done..|]. split; [apply Z.pow_nonneg; lia|apply Z.pow_le_mono_r; lia].
Qed.

(** Below one the result is one from a half on. *)
Lemma round_below : fexp x - 1023 < 0 -> int_round (fval x) = signed x (if fexp x - 1023 =? -1 then one else 0).
Proof.
  intros Hj. rewrite round_value. f_equal. pose proof (below_one Hj) as Hm. assert (one = 2 * 2 ^ (one_log - 1)) as E1 by by vm_compute.
  destruct (Z.eqb_spec (fexp x - 1023) (-1)) as [E|E].
  - assert (2 ^ (one_log - 1) <= mag a).
    { etrans; [|apply mag_above]; subst a; rewrite fexp_abs; [|lia]. replace (fexp x) with 1022 by lia. by vm_compute. }
    replace ((mag a + 2 ^ (one_log - 1)) / one) with 1; [lia|]. apply Z.div_unique with (r := mag a - 2 ^ (one_log - 1)); lia.
  - assert (mag a < 2 ^ (one_log - 1)).
    { eapply Z.lt_le_trans; [apply (mag_below _ 1021); [subst a; rewrite fexp_abs|]; lia|]. by vm_compute. }
    rewrite Z.div_small by lia. lia.
Qed.

Lemma round64_spec (e : Z) : exists r, round64 mode x e = Some (r, e) /\ rounds_to int_round x r.
Proof.
  unfold round64. rewrite high_exponent_mask. set (j := fexp x - 1023).
  destruct (Z.ltb_spec j 20) as [H20|H20]; [destruct (Z.ltb_spec j 0) as [H0|H0]|].
  - rewrite sign_word. eexists. split; [reflexivity|]. pose proof (round_below H0) as Hr. fold j in Hr. unfold signed in Hr.
    destruct (j =? -1), (fsign x) eqn:Es.
    + apply (rounds_constant _ true 0x3ff0000000000000); [done|by vm_compute|]. rewrite Hr. by vm_compute.
    + apply (rounds_constant _ false 0x3ff0000000000000); [done|by vm_compute|]. rewrite Hr. by vm_compute.
    + apply (rounds_constant _ true 0); [done|by vm_compute|]. rewrite Hr. by vm_compute.
    + apply (rounds_constant _ false 0); [done|by vm_compute|]. rewrite Hr. by vm_compute.
  - assert (((Z.land (u32 (s32 (HIGH_WORD x))) (Z.shiftr 0x000fffff j) =? 0) && (LOW_WORD x =? 0)) = (mag a mod one =? 0)) as ->.
    { rewrite <- (test_high j) by (done || lia). destruct (Z.eqb_spec (Z.lor (Z.land (u32 (s32 (HIGH_WORD x))) (Z.shiftr 0x000fffff j)) (LOW_WORD x)) 0) as [E|E].
      - apply Z.lor_eq_0_iff in E as [-> ->]. done.
      - rewrite Z.lor_eq_0_iff in E. apply andb_false_iff. rewrite !Z.eqb_neq. lia. }
    destruct (Z.eqb_spec (mag a mod one) 0) as [E|E]; [eexists; split; [reflexivity|]; by apply integral_rounds, round_integral|].
    change 0x00080000 with (2 ^ 19). rewrite (Z.shiftr_div_pow2 (2 ^ 19)) by lia. rewrite <- Z.pow_sub_r by lia.
    assert (2 ^ (19 - j) * 2 ^ 32 = 2 ^ (51 - j)) as Ep by (rewrite <- Z.pow_add_r by lia; f_equal; lia).
    pose proof (bump_high x x_float true j e (2 ^ (19 - j))) as Hb. cbn [negb] in Hb. rewrite Ep in Hb. rewrite Hb; [|lia|by right|by apply half_room; [|lia]].
    eexists. split; [reflexivity|]. apply half_rounds; [done|lia].
  - destruct (Z.ltb_spec 51 j) as [H51|H51].
    + pose proof finite_exp as Hf. fold j in Hf. rewrite (proj2 (Z.eqb_neq j 1024)) by lia. eexists. split; [reflexivity|].
      by apply integral_rounds, round_integral, above_point.
    + cbv zeta. rewrite (test_low j) by (done || lia). fold a. destruct (Z.eqb_spec (mag a mod one) 0) as [E|E].
      { eexists. split; [reflexivity|]. by apply integral_rounds, round_integral. }
      rewrite Z.shiftl_mul_pow2, Z.mul_1_l by lia. rewrite bump_low; [|done|lia|split; [apply Z.pow_nonneg; lia|apply Z.pow_lt_mono_r; lia]|by apply half_room; [|lia]].
      eexists. split; [reflexivity|]. apply half_rounds; [done|lia].
Qed.
(** *** trunc and modf *)

Lemma swrap_64 : swrap 64 x = x - (if fsign x then 2 ^ 64 else 0).
Proof.
  pose proof (x_range x x_float). rewrite fsign_val by done. change (2 ^ sbit) with (2 ^ 63). rewrite swrap_uwrap by lia. rewrite uwrap_small by done.
  change (64 - 1) with 63. destruct (Z.ltb_spec x (2 ^ 63)), (Z.leb_spec (2 ^ 63) x); lia.
Qed.

Lemma land_lnot_64 k : 0 <= k <= 63 -> uwrap 64 (Z.land (swrap 64 x) (Z.lnot (2 ^ k - 1))) = clear k x.
Proof.
  intros Hk. pose proof (x_range x x_float) as Hx. replace (2 ^ k - 1) with (Z.ones k) by (rewrite Z.ones_equiv; lia).
  rewrite <- Z.ldiff_land, Z.ldiff_ones_r by lia. rewrite Z.shiftl_mul_pow2, Z.shiftr_div_pow2 by lia. rewrite swrap_64. fold (clear k x).
  assert (0 < 2 ^ k) by (apply Z.pow_pos_nonneg; lia). assert (2 ^ 64 = 2 ^ (64 - k) * 2 ^ k) as E by (rewrite <- Z.pow_add_r by lia; f_equal; lia).
  assert (0 <= clear k x < 2 ^ 64) as Hc.
  { unfold clear. pose proof (Z.mul_div_le x (2 ^ k) ltac:(lia)). assert (0 <= x / 2 ^ k) by (apply Z.div_pos; lia). nia. }
  destruct (fsign x).
  - replace (x - 2 ^ 64) with (x + (- 2 ^ (64 - k)) * 2 ^ k) by lia. rewrite Z.div_add by lia. rewrite Z.mul_add_distr_r. fold (clear k x).
    unfold uwrap. replace (- 2 ^ (64 - k) * 2 ^ k) with (-1 * 2 ^ 64) by lia. rewrite Z.mod_add by lia. by apply Z.mod_small.
  - rewrite Z.sub_0_r. fold (clear k x). by apply uwrap_small.
Qed.

Lemma trunc_value : int_trunc (fval x) = signed x (mag a / one * one).
Proof. rewrite fval_signed. unfold signed. fold a. apply int_trunc_signed, mag_nonneg. Qed.

Lemma trunc_integral : mag a mod one = 0 -> int_trunc (fval x) = fval x.
Proof. intros E. rewrite trunc_value, fval_signed. f_equal. fold a. by apply div_exact. Qed.

Lemma long_exponent : Z.land (Z.shiftr (swrap 64 x) 52) 0x7ff = fexp x.
Proof.
  rewrite (land_ones_eq _ _ 11) by done. rewrite Z.shiftr_div_pow2, swrap_64 by lia. unfold fexp. change mbits with 52. change ebits with 11.
  destruct (fsign x); [|by rewrite Z.sub_0_r]. replace (x - 2 ^ 64) with (x + (-2) * 2 ^ 11 * 2 ^ 52) by lia. rewrite Z.div_add by lia. by rewrite Z.mod_add by lia.
Qed.

Lemma trunc_below : fexp x - 1023 < 0 -> rounds_to int_trunc x (with_sign (fsign x) 0).
Proof.
  intros Hj. apply rounds_constant; [done|by vm_compute|]. rewrite trunc_value. pose proof (below_one Hj). rewrite Z.div_small by done. unfold signed. by rewrite mag_0.
Qed.

Lemma trunc_rounds : 0 <= fexp x - 1023 <= 51 -> rounds_to int_trunc x (clear (52 - (fexp x - 1023)) x).
Proof. intros Hj. apply (bumped_value int_trunc false _ 0); [done|done|lia|]. rewrite Z.add_0_r. apply trunc_value. Qed.

Lemma trunc64_spec : rounds_to int_trunc x (trunc64 mode x).
Proof.
  unfold trunc64. rewrite long_exponent.
  pose proof finite_exp as Hf. set (j := fexp x - 1023) in *. rewrite (proj2 (Z.eqb_neq j 1024)) by lia. destruct (Z.ltb_spec j 0) as [H0|H0].
  - change (- 2 ^ 63) with (Z.lnot (2 ^ 63 - 1)). rewrite land_lnot_64 by lia. assert (clear 63 x = with_sign (fsign x) 0) as ->; [|by apply trunc_below].
    rewrite (float_split x x_float) at 1. unfold clear, with_sign. pose proof (fabs_range x) as Ha. change (2 ^ sbit) with (2 ^ 63) in *.
    destruct (fsign x); [|by rewrite Z.div_small by lia]. replace ((fabs_bits x + 2 ^ 63) / 2 ^ 63) with 1; [lia|]. apply Z.div_unique with (r := fabs_bits x); lia.
  - set (s := if 64 <=? j then 63 else j). assert (Z.shiftr 0x000fffffffffffff s = 2 ^ Z.max 0 (52 - j) - 1) as ->.
    { change 0x000fffffffffffff with (2 ^ 52 - 1). destruct (Z.le_gt_cases j 52) as [Hj|Hj].
      - subst s. rewrite (proj2 (Z.leb_gt 64 j)) by lia. rewrite shiftr_mask by lia. by rewrite Z.max_r by lia.
      - assert (52 < s) by (subst s; destruct (64 <=? j); lia). rewrite Z.max_l by lia. rewrite Z.shiftr_div_pow2 by lia. apply Z.div_small.
        split; [done|]. eapply Z.lt_le_trans; [|apply (Z.pow_le_mono_r 2 52); lia]. lia. }
    rewrite land_lnot_64 by lia. destruct (Z.le_gt_cases j 51) as [Hj|Hj].
    + rewrite Z.max_r by lia. apply trunc_rounds. fold j. lia.
    + rewrite Z.max_l by lia. unfold clear. rewrite Z.div_1_r, Z.mul_1_r. apply integral_rounds; [done..|]. apply trunc_integral, above_point. fold j. lia.
Qed.
(** The fraction is exact. *)
Lemma fraction_float i :
  0 <= fexp x - 1023 <= 51 -> mag a mod one <> 0 -> rounds_to int_trunc x i ->
  is_float (fsub mode x i) /\ fsign (fsub mode x i) = fsign x /\ fval (fsub mode x i) = fval x - int_trunc (fval x).
Proof.
  intros Hj Hne [Fi Ni Si Vi]. pose proof one_pos as Hone. pose proof (mag_nonneg a) as Hm. pose proof inf_range as Hinf. pose proof (a_range x x_finite) as Ha. fold a in Ha.
  assert (fval x - int_trunc (fval x) = signed x (mag a mod one)) as Es.
  { rewrite trunc_value, (fval_signed x). fold a. unfold signed. pose proof (Z.div_mod (mag a) one). destruct (fsign x); lia. }
  pose proof (Z.mod_pos_bound (mag a) one Hone) as Hmod. pose proof (Z.mod_le (mag a) one Hm Hone) as Hle.
  destruct (k_scale x ltac:(exact Hj)) as [Ek _]. fold a in Ek.
  assert (mag a mod one = (fsig a mod 2 ^ (52 - (fexp x - 1023))) * 2 ^ fscale a) as Er.
  { rewrite <- Ek. pose proof (fscale_nonneg a). unfold mag. rewrite Z.pow_add_r by lia. by rewrite Zmult_mod_distr_r. }
  destruct (representable (fscale a) (fscale_nonneg a) (fsig a mod 2 ^ (52 - (fexp x - 1023)))) as (b & Hb & Eb).
  { pose proof (fsig_range a). assert (0 < 2 ^ (52 - (fexp x - 1023))) by (apply Z.pow_pos_nonneg; lia).
    set (p := 2 ^ (52 - (fexp x - 1023))) in *. assert (0 <= fsig a mod p < p) by (apply Z.mod_pos_bound; lia).
    assert (fsig a mod p <= fsig a) by (apply Z.mod_le; lia). lia. }
  { assert (fscale a <= 1073) by (unfold fscale; subst a; rewrite fexp_abs; lia). change (2 ^ mbits) with (2 ^ 52). change (2 ^ sbit) with (2 ^ 63). lia. }
  rewrite <- Er in Eb. assert (b < inf_bits) as Hbi.
  { assert (~ a < b); [|lia]. rewrite <- (mag_lt a b) by lia. lia. }
  assert (fsub mode x i = with_sign (fsign x) b) as ->.
  { rewrite (fsub_exact mode x i b); [|done|done|done|lia|rewrite Vi, Es; unfold signed; destruct (fsign x); lia|rewrite Vi, Es; unfold signed; destruct (fsign x); lia].
    f_equal. rewrite Vi, Es. unfold signed. destruct (fsign x); [apply Z.ltb_lt|apply Z.ltb_ge]; lia. }
  destruct (with_sign_parts (fsign x) b Hb) as [-> _]. split_and!; [by apply with_sign_float|done|]. rewrite fval_with_sign, Es by done. unfold signed. by rewrite Eb.
Qed.

Lemma zero_fraction : INSERT_WORDS (Z.land (u32 (s32 (HIGH_WORD x))) 0x80000000) 0 = with_sign (fsign x) 0.
Proof. rewrite sign_word. by destruct (fsign x). Qed.

Lemma zero_parts (v : Z) : v = 0 -> is_float (with_sign (fsign x) 0) /\ fsign (with_sign (fsign x) 0) = fsign x /\ fval (with_sign (fsign x) 0) = v.
Proof.
  intros ->. assert (0 <= 0 < 2 ^ sbit) as H0 by by vm_compute. destruct (with_sign_parts (fsign x) 0 H0) as [-> _].
  split_and!; [by apply with_sign_float|done|]. rewrite fval_with_sign, mag_0 by done. by destruct (fsign x).
Qed.

Lemma classify_finite : __fpclassify64 x <> FP_NAN.
Proof.
  unfold __fpclassify64. pose proof (land_abs_high) as E. rewrite (land_ones_eq _ _ 31) by done.
  unfold is_finite in x_finite. apply Z.ltb_lt in x_finite. rewrite abs_words in x_finite by done. pose proof (u32_range x) as Hl. fold (LOW_WORD x) in Hl.
  change inf_bits with (0x7ff00000 * 2 ^ 32) in x_finite. set (h := HIGH_WORD x mod 2 ^ 31) in *.
  destruct ((h =? 0) && (LOW_WORD x =? 0)); [done|]. destruct (h <=? 0x000fffff); [done|]. rewrite (proj2 (Z.leb_le h 0x7fefffff)) by lia. done.
Qed.

Lemma modf64_spec :
  let '(f, i) := modf64 mode x in
  rounds_to int_trunc x i /\ is_float f /\ fsign f = fsign x /\ fval f = fval x - int_trunc (fval x).
Proof.
  assert (mag a mod one = 0 -> rounds_to int_trunc x x /\ is_float (with_sign (fsign x) 0) /\ fsign (with_sign (fsign x) 0) = fsign x /\
    fval (with_sign (fsign x) 0) = fval x - int_trunc (fval x)) as Hint.
  { intros E. split; [by apply integral_rounds, trunc_integral|]. apply zero_parts. rewrite trunc_integral by done. lia. }
  unfold modf64. rewrite high_exponent, zero_fraction by done. change 0x3ff with 1023. set (j := fexp x - 1023) in *.
  destruct (Z.ltb_spec j 20) as [H20|H20]; [destruct (Z.ltb_spec j 0) as [H0|H0]|].
  - split; [by apply trunc_below|]. split_and!; [done|done|]. rewrite trunc_value. pose proof (below_one H0). rewrite Z.div_small by done. unfold signed. destruct (fsign x); lia.
  - rewrite low_same, test_high by (done || lia). fold a. destruct (Z.eqb_spec (mag a mod one) 0) as [E|E]; [by apply Hint|].
    assert (INSERT_WORDS (Z.land (u32 (s32 (HIGH_WORD x))) (u32 (Z.lnot (Z.shiftr 0x000fffff j)))) 0 = clear (52 - j) x) as ->.
    { change 0x000fffff with (2 ^ 20 - 1). rewrite shiftr_mask by lia. replace (20 - j) with (52 - j - 32) by lia.
      rewrite <- (insert_high (s32 (HIGH_WORD x)) x (52 - j)); [by rewrite INSERT_s32| |by apply x_range|lia].
      destruct (HIGH_WORD_eq x x_float) as [-> ?]. rewrite u32_s32. by rewrite u32_small. }
    assert (rounds_to int_trunc x (clear (52 - j) x)) as Hr by (apply trunc_rounds; fold j; lia). split; [done|]. apply fraction_float; [fold j; lia|done|done].
  - destruct (Z.ltb_spec 51 j) as [H51|H51].
    + pose proof classify_finite as Hc. assert (mag a mod one = 0) as E by by apply above_point. destruct (__fpclassify64 x); try done; by apply Hint.
    + cbv zeta. rewrite low_same, (test_low j) by (done || lia). fold a. destruct (Z.eqb_spec (mag a mod one) 0) as [E|E]; [by apply Hint|].
      assert (INSERT_WORDS (s32 (HIGH_WORD x)) (Z.land (LOW_WORD x) (u32 (Z.lnot (low_mask j)))) = clear (52 - j) x) as ->.
      { unfold low_mask. change 0xffffffff with (2 ^ 32 - 1). rewrite shiftr_mask by lia. replace (32 - (j - 20)) with (52 - j) by lia.
        rewrite <- low_same. apply insert_low; [|apply low_same|lia]. destruct (HIGH_WORD_eq x x_float) as [-> ?]. rewrite u32_s32. by rewrite u32_small. }
      assert (rounds_to int_trunc x (clear (52 - j) x)) as Hr by (apply trunc_rounds; fold j; lia). split; [done|]. apply fraction_float; [fold j; lia|done|done].
Qed.
End functions.
