(* ===== verification/LibmFmod.v ===== *)
(** * The remainder

    fmod shifts and subtracts on the two words of the significands; here it is
    shown to compute the remainder of the numbers. *)

From stdpp Require Import base list.
From Stdlib Require Import ZArith Lia.
From S2P Require Import Prelude CMem Float Libm LibmRound.

Local Open Scope Z_scope.

(** ** Classification *)

Section classes.
Variable x : Z.
Hypothesis x_float : is_float x.

(** [lx | -lx] has its highest bit set when [lx] is not zero. *)
Lemma nonzero_bit l : 0 <= l < 2 ^ 32 -> Z.shiftr (Z.lor l (u32 (- l))) 31 = if l =? 0 then 0 else 1.
Proof.
  intros Hl. destruct (Z.eqb_spec l 0) as [->|Hn]; [done|].
  assert (u32 (- l) = 2 ^ 32 - l) as ->.
  { unfold u32, uwrap. rewrite <- (Z.mod_add _ 1) by lia. rewrite Z.mod_small; lia. }
  assert (Z.testbit (Z.lor l (2 ^ 32 - l)) 31 = true) as Hb.
  { rewrite Z.lor_spec, !Z.testbit_eqb by lia. destruct (Z.le_gt_cases (2 ^ 31) l).
    - assert (l / 2 ^ 31 = 1) as -> by (symmetry; apply Z.div_unique with (r := l - 2 ^ 31); lia). done.
    - assert ((2 ^ 32 - l) / 2 ^ 31 = 1) as -> by (symmetry; apply Z.div_unique with (r := 2 ^ 31 - l); lia). by rewrite orb_true_r. }
  assert (0 <= Z.lor l (2 ^ 32 - l) < 2 ^ 32) as Hr.
  { split; [apply Z.lor_nonneg; lia|]. apply Z.log2_lt_cancel. rewrite Z.log2_lor by lia. rewrite Z.log2_pow2 by lia.
    apply Z.max_lub_lt; (destruct (Z.eq_dec l 0); [lia|]); apply Z.log2_lt_pow2; lia. }
  rewrite Z.shiftr_div_pow2 by lia. rewrite Z.testbit_eqb in Hb by lia. apply Z.eqb_eq in Hb.
  set (v := Z.lor l (2 ^ 32 - l)) in *. assert (0 <= v / 2 ^ 31 < 2) by (split; [apply Z.div_pos; lia|apply Z.div_lt_upper_bound; lia]).
  rewrite Z.mod_small in Hb by lia. done.
Qed.

Lemma class_word :
  let h := Z.lor (Z.land (HIGH_WORD x) 0x7fffffff) (Z.shiftr (Z.lor (LOW_WORD x) (u32 (- LOW_WORD x))) 31) in
  (h ?= 0x7ff00000) = (fabs_bits x ?= inf_bits) /\ 0 <= h < 2 ^ 31.
Proof.
  pose proof (u32_range x) as Hl. fold (LOW_WORD x) in Hl. cbv zeta. rewrite nonzero_bit by done. rewrite (land_ones_eq _ _ 31) by done.
  pose proof (abs_words x x_float) as E. change inf_bits with (0x7ff00000 * 2 ^ 32). set (h := HIGH_WORD x mod 2 ^ 31) in *.
  assert (0 <= h < 2 ^ 31) as Hh by (apply Z.mod_pos_bound; lia). destruct (Z.eqb_spec (LOW_WORD x) 0) as [E0|E0].
  - rewrite Z.lor_0_r. split; [|done]. rewrite E, E0, Z.add_0_l, (Z.mul_comm (2 ^ 32)).
    destruct (Z.compare_spec h 0x7ff00000); symmetry; [apply Z.compare_eq_iff|apply Z.compare_lt_iff|apply Z.compare_gt_iff]; lia.
  - assert (Z.lor h 1 = 2 * (h / 2) + 1) as ->.
    { rewrite (Z.div_mod h 2) at 1 by lia. pose proof (Z.mod_pos_bound h 2 ltac:(lia)). rewrite <- (lor_low 1 (2 * (h / 2)) 1); [|lia|lia|change (2 ^ 1) with 2; rewrite Z.mul_comm; by apply Z.mod_mul].
      rewrite <- (lor_low 1 (2 * (h / 2)) (h mod 2)); [|lia|change (2 ^ 1) with 2; lia|change (2 ^ 1) with 2; rewrite Z.mul_comm; by apply Z.mod_mul].
      rewrite <- Z.lor_assoc. f_equal. assert (h mod 2 = 0 \/ h mod 2 = 1) as [-> | ->] by lia; done. }
    pose proof (Z.div_mod h 2 ltac:(lia)) as Ed. pose proof (Z.mod_pos_bound h 2 ltac:(lia)). split; [|lia]. rewrite E.
    destruct (Z.lt_ge_cases h 0x7ff00000).
    + rewrite (proj2 (Z.compare_lt_iff (LOW_WORD x + _) _)) by lia. apply Z.compare_lt_iff. lia.
    + rewrite (proj2 (Z.compare_gt_iff (LOW_WORD x + _) _)) by lia. apply Z.compare_gt_iff. lia.
Qed.

Lemma isnan64_spec : (isnan64 x =? 0) = negb (is_nan x).
Proof.
  unfold isnan64, is_nan. destruct class_word as [Hc Hr]. cbv zeta in *. set (h := Z.lor _ _) in *. clearbody h. rewrite Z.shiftr_div_pow2 by lia.
  unfold Z.ltb. rewrite Z.compare_antisym, <- Hc. destruct (Z.compare_spec h 0x7ff00000) as [He|Hlt|Hgt]; [by rewrite He| |].
  - unfold u32, uwrap. rewrite Z.mod_small by lia. rewrite Z.div_small by lia. done.
  - unfold u32, uwrap. rewrite <- (Z.mod_add _ 1) by lia. rewrite Z.mod_small by lia.
    assert ((2146435072 - h + 1 * 2 ^ 32) / 2 ^ 31 = 1) as -> by (symmetry; apply Z.div_unique with (r := 2 ^ 31 + 2146435072 - h); lia). done.
Qed.

Lemma isinf64_spec : (isinf64 x =? 0) = negb (is_inf x).
Proof.
  unfold isinf64, is_inf. destruct class_word as [Hc Hr]. cbv zeta in *. set (h := Z.lor _ _) in *. clearbody h. rewrite nonzero_bit by apply u32_range.
  rewrite (Z.eqb_compare (fabs_bits x) inf_bits), <- Hc. destruct (Z.compare_spec h 0x7ff00000) as [He|Hlt|Hgt]; [by rewrite He| |].
  - unfold u32, uwrap. rewrite Z.mod_small by lia. destruct (Z.eqb_spec (2146435072 - h) 0); [lia|done].
  - unfold u32, uwrap. rewrite <- (Z.mod_add _ 1) by lia. rewrite Z.mod_small by lia. destruct (Z.eqb_spec (2146435072 - h + 1 * 2 ^ 32) 0); [lia|done].
Qed.

Lemma finite_exponent : is_finite x = (fexp x <? 2047).
Proof.
  unfold is_finite. rewrite <- fexp_abs. pose proof (fabs_range x) as Ha. change (2 ^ sbit) with (2 ^ 63) in Ha. change inf_bits with (2047 * 2 ^ 52).
  unfold fexp. change mbits with 52. change ebits with 11. set (a := fabs_bits x) in *. pose proof (Z.div_mod a (2 ^ 52) ltac:(lia)). pose proof (Z.mod_pos_bound a (2 ^ 52) ltac:(lia)).
  rewrite (Z.mod_small (a / 2 ^ 52)) by lia. destruct (Z.ltb_spec a (2047 * 2 ^ 52)), (Z.ltb_spec (a / 2 ^ 52) 2047); lia.
Qed.

Lemma special_exponent : is_finite x = false -> fexp x = 2047.
Proof. rewrite finite_exponent, Z.ltb_ge. pose proof (fexp_range x) as Hr. change (2 ^ ebits) with 2048 in Hr. lia. Qed.

(** A NaN or an infinity added to itself. *)
Lemma fadd_special `{NanRules} mode : is_finite x = false -> fadd mode x x = if is_nan x then nan_of x x else x.
Proof.
  intros Hx. unfold fadd. rewrite orb_diag. destruct (is_nan x) eqn:En; [done|].
  assert (is_inf x = true) as -> by (unfold is_finite, is_nan, is_inf in *; apply Z.eqb_eq; apply Z.ltb_ge in Hx, En; lia).
  by destruct (fsign x).
Qed.
End classes.

(** ** Two-word arithmetic *)

(** The words of a number. *)
Definition wh (w : Z) : Z := w / 2 ^ 32.
Definition wl (w : Z) : Z := w mod 2 ^ 32.

Lemma words_of w : w = wh w * 2 ^ 32 + wl w /\ 0 <= wl w < 2 ^ 32.
Proof. unfold wh, wl. pose proof (Z.div_mod w (2 ^ 32)). pose proof (Z.mod_pos_bound w (2 ^ 32) ltac:(lia)). lia. Qed.

Lemma words_unique w h l : w = h * 2 ^ 32 + l -> 0 <= l < 2 ^ 32 -> wh w = h /\ wl w = l.
Proof.
  intros E Hl. unfold wh, wl. split; symmetry; [apply Z.div_unique with (r := l)|apply Z.mod_unique with (q := h)]; lia.
Qed.

Lemma fits_range z : - 2 ^ 31 <= z < 2 ^ 31 -> fits_int z = true.
Proof. intros Hz. unfold fits_int, INT_MIN, INT_MAX. rewrite andb_true_iff, !Z.leb_le. lia. Qed.

Lemma s32_small z : - 2 ^ 31 <= z < 2 ^ 31 -> s32 z = z.
Proof. intros Hz. apply swrap_small; [lia|]. done. Qed.

Lemma sub_words_spec a b (e : Z) :
  0 <= a < 2 ^ 62 -> 0 <= b < 2 ^ 62 -> sub_words (wh a) (wl a) (wh b) (wl b) e = Some ((wh (a - b), wl (a - b)), e).
Proof.
  intros Ha Hb. destruct (words_of a) as [Ea Hla], (words_of b) as [Eb Hlb]. unfold sub_words, bind, int_.
  rewrite fits_range by lia. unfold ret. destruct (Z.ltb_spec (wl a) (wl b)).
  - rewrite fits_range by lia. destruct (words_unique (a - b) (wh a - wh b - 1) (wl a - wl b + 2 ^ 32)) as [-> ->]; [lia|lia|].
    do 3 f_equal. unfold u32, uwrap. rewrite <- (Z.mod_add _ 1) by lia. rewrite Z.mod_small; lia.
  - destruct (words_unique (a - b) (wh a - wh b) (wl a - wl b)) as [-> ->]; [lia|lia|]. do 3 f_equal. apply u32_small. lia.
Qed.

Lemma double_words_spec a (e : Z) : 0 <= a < 2 ^ 61 -> double_words (wh a) (wl a) e = Some ((wh (2 * a), wl (2 * a)), e).
Proof.
  intros Ha. destruct (words_of a) as [Ea Hla]. unfold double_words, bind, int_. rewrite fits_range by lia. unfold ret.
  rewrite Z.shiftr_div_pow2 by lia. set (c := wl a / 2 ^ 31). pose proof (Z.div_mod (wl a) (2 ^ 31)) as Ec. fold c in Ec.
  pose proof (Z.mod_pos_bound (wl a) (2 ^ 31) ltac:(lia)). assert (0 <= c < 2) by (split; [apply Z.div_pos; lia|apply Z.div_lt_upper_bound; lia]).
  destruct (words_unique (2 * a) (wh a + wh a + c) (2 * wl a - c * 2 ^ 32)) as [-> ->]; [lia|lia|]. do 3 f_equal.
  - rewrite (u32_small (wh a + wh a)) by lia. rewrite (u32_small (_ + c)) by lia. by apply s32_small; lia.
  - unfold u32, uwrap. rewrite <- (Z.mod_add _ (- c)) by lia. rewrite Z.mod_small; lia.
Qed.

(** A shift of both words to the left. *)
Lemma words_shl w i : 0 <= i <= 31 -> 0 <= w -> w * 2 ^ i < 2 ^ 62 ->
  wh (w * 2 ^ i) = Z.lor (wh w * 2 ^ i) (Z.shiftr (wl w) (32 - i)) /\ wl (w * 2 ^ i) = u32 (Z.shiftl (wl w) i).
Proof.
  intros Hi Hw Hlt. destruct (words_of w) as [E Hl]. rewrite Z.shiftl_mul_pow2, Z.shiftr_div_pow2 by lia. assert (0 < 2 ^ i) by (apply Z.pow_pos_nonneg; lia).
  assert (2 ^ 32 = 2 ^ (32 - i) * 2 ^ i) as Ep by (rewrite <- Z.pow_add_r by lia; f_equal; lia). assert (0 < 2 ^ (32 - i)) by (apply Z.pow_pos_nonneg; lia).
  set (c := wl w / 2 ^ (32 - i)). assert (wl w = 2 ^ (32 - i) * c + wl w mod 2 ^ (32 - i)) as Ec by (apply Z.div_mod; lia).
  assert (0 <= wl w mod 2 ^ (32 - i) < 2 ^ (32 - i)) as Hr by (apply Z.mod_pos_bound; lia). set (r := wl w mod 2 ^ (32 - i)) in *.
  assert (0 <= c < 2 ^ i) as Hc by (split; [apply Z.div_pos; lia|apply Z.div_lt_upper_bound; lia]).
  destruct (words_unique (w * 2 ^ i) (wh w * 2 ^ i + c) (r * 2 ^ i)) as [-> ->]; [rewrite E at 1; nia|nia|]. split.
  - rewrite (lor_low i) by (lia || by apply Z.mod_mul; lia). done.
  - unfold u32, uwrap. replace (wl w * 2 ^ i) with (r * 2 ^ i + c * 2 ^ 32) by (rewrite Ep; nia). rewrite Z.mod_add by lia. symmetry. apply Z.mod_small. nia.
Qed.

(** ** The loops *)

Section loops.
Variable fuel : nat.

(** The remainder modulo [y] is kept while the dividend is doubled. *)
Lemma fmod_loop y (e : Z) : 2 ^ 52 <= y < 2 ^ 53 -> forall (n f : nat) a,
  0 <= a < 2 * y -> (n < f)%nat ->
  exists r, loop (fmod_step (wh y) (wl y)) f (Z.of_nat n, wh a, wl a) e = Some (r, e) /\
    match r with
    | None => (a * 2 ^ Z.of_nat n) mod y = 0
    | Some (h, l) => exists b, (h, l) = (wh b, wl b) /\ 0 <= b < 2 * y /\ b mod y = (a * 2 ^ Z.of_nat n) mod y
    end.
Proof.
  intros Hy n. induction n as [|n IH]; intros f a Ha Hf; (destruct f as [|f]; [lia|]); rewrite loop_S; cbn [fmod_step]; unfold bind.
  - change (Z.of_nat 0) with 0. cbn [Z.eqb]. unfold ret. eexists. split; [reflexivity|]. exists a. rewrite Z.mul_1_r. done.
  - rewrite (proj2 (Z.eqb_neq (Z.of_nat (S n)) 0)) by lia. replace (Z.of_nat (S n) - 1) with (Z.of_nat n) by lia.
    rewrite sub_words_spec by lia. destruct (words_of (a - y)) as [Ed Hd].
    rewrite Nat2Z.inj_succ, Z.pow_succ_r by lia. destruct (Z.ltb_spec (wh (a - y)) 0) as [Hneg|Hpos].
    + unfold bind. rewrite double_words_spec by lia. unfold ret. destruct (IH f (2 * a)) as (r & -> & Hr); [lia|lia|].
      exists r. split; [done|]. replace (a * (2 * 2 ^ Z.of_nat n)) with (2 * a * 2 ^ Z.of_nat n) by lia. done.
    + assert ((a * (2 * 2 ^ Z.of_nat n)) mod y = (2 * (a - y) * 2 ^ Z.of_nat n) mod y) as ->.
      { replace (a * (2 * 2 ^ Z.of_nat n)) with (2 * (a - y) * 2 ^ Z.of_nat n + 2 * 2 ^ Z.of_nat n * y) by lia. apply Z.mod_add. lia. }
      destruct (Z.eqb_spec (Z.lor (u32 (wh (a - y))) (wl (a - y))) 0) as [E|E].
      * unfold ret. eexists. split; [reflexivity|]. apply Z.lor_eq_0_iff in E as [E1 E2]. rewrite u32_small in E1 by lia.
        replace (a - y) with 0 by lia. by apply Z.mod_0_l; lia.
      * unfold bind. rewrite double_words_spec by lia. unfold ret. apply IH; lia.
Qed.

Lemma normalize_loop (e : Z) : forall (n f : nat) a iy,
  0 < a < 2 ^ 53 -> Z.log2 a + Z.of_nat n = 52 -> (n < f)%nat ->
  loop normalize_step f (wh a, wl a, iy) e = Some ((wh (a * 2 ^ Z.of_nat n), wl (a * 2 ^ Z.of_nat n), iy - Z.of_nat n), e).
Proof.
  intros n. induction n as [|n IH]; intros f a iy Ha Hn Hf; (destruct f as [|f]; [lia|]); rewrite loop_S; cbn [normalize_step]; unfold bind.
  - destruct (words_of a) as [Ea Hl]. assert (2 ^ 52 <= a) by (apply Z.log2_le_pow2; lia). rewrite (proj2 (Z.ltb_ge _ _)) by lia.
    unfold ret. change (Z.of_nat 0) with 0. by rewrite Z.mul_1_r, Z.sub_0_r.
  - assert (a < 2 ^ 52) by (apply Z.log2_lt_pow2; lia). destruct (words_of a) as [Ea Hl]. rewrite (proj2 (Z.ltb_lt (wh a) _)) by lia.
    unfold bind. rewrite double_words_spec by lia. unfold ret. rewrite IH; [|lia|rewrite Z.log2_double by lia; lia|lia].
    rewrite Nat2Z.inj_succ, Z.pow_succ_r by lia. replace (2 * a * 2 ^ Z.of_nat n) with (a * (2 * 2 ^ Z.of_nat n)) by lia.
    do 3 f_equal. lia.
Qed.

Lemma count_down_loop (e : Z) : forall (n f : nat) start v,
  0 < v < 2 ^ 32 -> Z.log2 v + Z.of_nat n = 31 -> (n < f)%nat -> count_down f start (s32 v) e = Some (start - Z.of_nat n, e).
Proof.
  unfold count_down. intros n. induction n as [|n IH]; intros f start v Hv Hn Hf; (destruct f as [|f]; [lia|]); rewrite loop_S; unfold bind.
  - assert (2 ^ 31 <= v) by (apply Z.log2_le_pow2; lia). unfold s32. rewrite swrap_uwrap, uwrap_small by lia. change (32 - 1) with 31.
    rewrite (proj2 (Z.ltb_ge v _)), (proj2 (Z.ltb_ge 0 _)) by lia. unfold ret. do 2 f_equal. lia.
  - assert (v < 2 ^ 31) by (apply Z.log2_lt_pow2; lia). rewrite s32_small by lia. rewrite (proj2 (Z.ltb_lt 0 v)) by lia. unfold ret, lsl.
    rewrite Z.shiftl_mul_pow2 by lia. rewrite (Z.mul_comm v). change (2 ^ 1) with 2. rewrite IH; [|lia|rewrite Z.log2_double by lia; lia|lia].
    do 2 f_equal. lia.
Qed.
End loops.

(** ** Logarithm and significand *)

Section significand.
Variable a : Z.
Hypothesis a_range : 0 < a < inf_bits.

Lemma a_bound : a < 2047 * 2 ^ 52.
Proof. apply a_range. Qed.

Lemma wh_range : 0 <= wh a < 2 ^ 31 /\ wh a / 2 ^ 20 = fexp a.
Proof.
  pose proof a_bound. destruct (words_of a) as [E Hl]. split; [lia|]. unfold wh. rewrite Z.div_div by lia. change (2 ^ 32 * 2 ^ 20) with (2 ^ 52).
  unfold fexp. change mbits with 52. change ebits with 11. symmetry. apply Z.mod_small. split; [apply Z.div_pos; lia|]. apply Z.div_lt_upper_bound; lia.
Qed.

Lemma normal_split : 2 ^ 52 <= a -> a = (fexp a - 1) * 2 ^ 52 + fsig a /\ 1 <= fexp a /\ 2 ^ 52 <= fsig a < 2 ^ 53 /\ mag a = fsig a * 2 ^ (fexp a - 1).
Proof.
  intros Hn. pose proof a_bound. assert (1 <= fexp a).
  { destruct wh_range as [_ <-]. unfold wh. rewrite Z.div_div by lia. apply Z.div_le_lower_bound; [lia|]. change (2 ^ 32 * 2 ^ 20) with (2 ^ 52). lia. }
  assert (0 <= a < 2 ^ sbit) as Hs by (change (2 ^ sbit) with (2 ^ 63); lia). pose proof (pattern_split a Hs) as E. pose proof (fsig_range a) as Hq.
  change (2 ^ mbits) with (2 ^ 52) in *. assert (fscale a = fexp a - 1) as Ee by (unfold fscale; lia). rewrite Ee in E.
  destruct (scale_or_normal a) as [E0|Hnorm]; [|split_and!; try done; try lia; unfold mag; by rewrite Ee].
  rewrite Ee in E0. split_and!; try lia. unfold mag. rewrite Ee. done.
Qed.

Lemma subnormal_mag : a < 2 ^ 52 -> mag a = a.
Proof.
  intros Hn. rewrite <- (Z.mul_1_r a) at 2. change 1 with (2 ^ 0). rewrite <- (mag_encode 0 a); [by rewrite Z.mul_0_l, Z.add_0_l|lia| |by left|].
  - change (2 ^ mbits) with (2 ^ 52). lia.
  - change (2 ^ sbit) with (2 ^ 63). change (2 ^ mbits) with (2 ^ 52). lia.
Qed.

Lemma normal_log : 2 ^ 52 <= a -> Z.log2 (mag a) = 51 + fexp a.
Proof.
  intros Hn. destruct (normal_split Hn) as (_ & He & Hs & ->). rewrite Z.log2_mul_pow2 by lia.
  assert (Z.log2 (fsig a) = 52) as -> by (apply Z.log2_unique; lia). lia.
Qed.

Lemma word_log_spec fuel (e : Z) : (32 < fuel)%nat -> word_log fuel (wh a) (wl a) e = Some (Z.log2 (mag a) - 1074, e).
Proof.
  intros Hf. pose proof a_bound. destruct (words_of a) as [E Hl]. destruct wh_range as [Hw Hx]. unfold word_log.
  destruct (Z.lt_ge_cases a (2 ^ 52)) as [Hs|Hs].
  - rewrite (proj2 (Z.ltb_lt _ _)) by lia. rewrite subnormal_mag by done. destruct (Z.eqb_spec (wh a) 0) as [E0|E0].
    + assert (wl a = a) as -> by lia. pose proof (Z.log2_nonneg a). assert (Z.log2 a < 32) by (apply Z.log2_lt_pow2; lia).
      rewrite (count_down_loop _ (Z.to_nat (31 - Z.log2 a))) by lia. do 2 f_equal. lia.
    + unfold lsl. rewrite Z.shiftl_mul_pow2 by lia.
      assert (Z.log2 a = Z.log2 (wh a) + 32) as Ea.
      { apply Z.log2_unique'  with (c := a - 2 ^ (Z.log2 (wh a) + 32)); [pose proof (Z.log2_nonneg (wh a)); lia| |lia].
        pose proof (Z.log2_spec (wh a) ltac:(lia)) as [H1 H2]. rewrite Z.pow_succ_r in H2 by apply Z.log2_nonneg. rewrite Z.pow_add_r by (try apply Z.log2_nonneg; lia). lia. }
      pose proof (Z.log2_nonneg (wh a)). assert (Z.log2 (wh a) < 20) by (apply Z.log2_lt_pow2; lia).
      rewrite (count_down_loop _ (Z.to_nat (20 - Z.log2 (wh a)))); [do 2 f_equal; lia|lia|rewrite Z.log2_mul_pow2 by lia; lia|lia].
  - rewrite (proj2 (Z.ltb_ge _ _)) by lia. unfold ret. rewrite Z.shiftr_div_pow2, Hx, normal_log by (done || lia). do 2 f_equal. lia.
Qed.

Lemma log_mag_range : 0 <= Z.log2 (mag a) < 2098.
Proof.
  split; [apply Z.log2_nonneg|]. pose proof inf_range. assert (mag 0 + (a - 0) <= mag a) by (apply mag_mono; lia). rewrite mag_0 in *.
  apply Z.log2_lt_pow2; [lia|]. eapply Z.lt_le_trans; [apply (mag_below a 2046); [|lia]|by vm_compute].
  assert (fexp a < 2047); [|lia]. destruct wh_range as [_ <-]. unfold wh. rewrite Z.div_div by lia. apply Z.div_lt_upper_bound; [lia|].
  pose proof a_bound. change (2 ^ 32 * 2 ^ 20) with (2 ^ 52). lia.
Qed.

(** The significand with its leading bit at bit 52. *)
Definition norm_sig : Z := if a <? 2 ^ 52 then a * 2 ^ (52 - Z.log2 a) else fsig a.

Lemma norm_sig_spec : 2 ^ 52 <= norm_sig < 2 ^ 53 /\ norm_sig * 2 ^ Z.log2 (mag a) = mag a * 2 ^ 52.
Proof.
  unfold norm_sig. destruct (Z.ltb_spec a (2 ^ 52)) as [Hs|Hs].
  - rewrite subnormal_mag by done. pose proof (Z.log2_nonneg a) as Hn. assert (Z.log2 a < 52) by (apply Z.log2_lt_pow2; lia).
    pose proof (Z.log2_spec a ltac:(lia)) as [H1 H2]. rewrite Z.pow_succ_r in H2 by done.
    assert (2 ^ (52 - Z.log2 a) * 2 ^ Z.log2 a = 2 ^ 52) as Ep by (rewrite <- Z.pow_add_r by lia; f_equal; lia).
    assert (0 < 2 ^ (52 - Z.log2 a)) by (apply Z.pow_pos_nonneg; lia). split; [|rewrite <- Z.mul_assoc, Ep; done].
    change (2 ^ 53) with (2 * 2 ^ 52). rewrite <- Ep. split; nia.
  - destruct (normal_split Hs) as (_ & He & Hq & Em). split; [done|]. rewrite normal_log by done. rewrite Em.
    replace (51 + fexp a) with (fexp a - 1 + 52) by lia. rewrite Z.pow_add_r by lia. lia.
Qed.

Lemma align_spec : align_words (Z.log2 (mag a) - 1074) (wh a) (wl a) = (wh norm_sig, wl norm_sig).
Proof.
  pose proof a_bound. destruct (words_of a) as [E Hl]. destruct wh_range as [Hw Hx]. destruct norm_sig_spec as [Hn _]. unfold align_words, norm_sig in *.
  destruct (Z.ltb_spec a (2 ^ 52)) as [Hs|Hs].
  - rewrite subnormal_mag by done. pose proof (Z.log2_nonneg a). assert (Z.log2 a < 52) by (apply Z.log2_lt_pow2; lia).
    rewrite (proj2 (Z.leb_gt _ _)) by lia. replace (-1022 - (Z.log2 a - 1074)) with (52 - Z.log2 a) by lia. set (n := 52 - Z.log2 a) in *.
    destruct (Z.leb_spec n 31) as [H31|H31].
    + destruct (words_shl a n) as [-> ->]; [lia|lia|lia|]. assert (0 < 2 ^ n) by (apply Z.pow_pos_nonneg; lia). rewrite Z.shiftl_mul_pow2 by lia.
      rewrite u32_small by nia. rewrite s32_small; [done|]. destruct (words_shl a n) as [<- _]; [lia|lia|lia|]. destruct (words_of (a * 2 ^ n)). lia.
    + assert (a < 2 ^ 21) by (apply Z.log2_lt_pow2; lia). assert (wl a = a) as -> by lia. rewrite Z.shiftl_mul_pow2 by lia.
      assert (2 ^ n = 2 ^ (n - 32) * 2 ^ 32) as Ep by (rewrite <- Z.pow_add_r by lia; f_equal; lia). assert (0 < 2 ^ (n - 32)) by (apply Z.pow_pos_nonneg; lia).
      destruct (words_unique (a * 2 ^ n) (a * 2 ^ (n - 32)) 0) as [-> ->]; [lia|lia|]. rewrite u32_small by nia. by rewrite s32_small by nia.
  - rewrite normal_log by done. destruct (normal_split Hs) as (Ea & He & Hq & _). rewrite (proj2 (Z.leb_le _ _)) by lia.
    rewrite Z.land_comm, (land_ones_eq _ _ 20), Z.lor_comm by done. rewrite (Z.lor_comm _ 1048576).
    rewrite (lor_low 20) by (lia || done || by apply Z.mod_pos_bound).
    assert (wh a = fexp a * 2 ^ 20 + wh a mod 2 ^ 20) as Ew by (rewrite <- Hx; pose proof (Z.div_mod (wh a) (2 ^ 20)); lia).
    pose proof (Z.mod_pos_bound (wh a) (2 ^ 20) ltac:(lia)). destruct (words_unique (fsig a) (1048576 + wh a mod 2 ^ 20) (wl a)) as [-> ->]; [lia|done|done].
Qed.
End significand.

(** ** The result *)

Section result.
Context `{NanRules}.
Variable mode : rmode.

(** The word of the sign. *)
Definition sign_of (neg : bool) : Z := if neg then - 2 ^ 31 else 0.

Lemma insert_signed neg h l : 0 <= h < 2 ^ 31 -> 0 <= l < 2 ^ 32 -> INSERT_WORDS (Z.lor h (sign_of neg)) l = with_sign neg (h * 2 ^ 32 + l).
Proof.
  intros Hh Hl. rewrite INSERT_WORDS_eq, (u32_small l) by done. unfold sign_of, with_sign. change (2 ^ sbit) with (2 ^ 63). destruct neg.
  - rewrite Z.lor_comm, (lor_low 31) by (done || lia). unfold u32, uwrap. rewrite <- (Z.mod_add _ 1) by lia. rewrite Z.mod_small by lia. lia.
  - by rewrite Z.lor_0_r, u32_small by lia.
Qed.

Lemma fmul_one neg b : 0 <= b < inf_bits -> fmul mode (with_sign neg b) 0x3ff0000000000000 = with_sign neg b.
Proof.
  intros Hb. pose proof inf_range. assert (0 <= b < 2 ^ sbit) as Hb' by lia. destruct (with_sign_parts neg b Hb') as [Hs Ha]. unfold fmul.
  assert (is_finite (with_sign neg b) = true) as Hf by (unfold is_finite; rewrite Ha; apply Z.ltb_lt; lia). destruct (finite_other _ Hf) as [-> ->].
  change (is_nan 0x3ff0000000000000) with false. change (is_inf 0x3ff0000000000000) with false. cbn [orb]. rewrite Hs.
  change (fsign 0x3ff0000000000000) with false. rewrite xorb_false_r. change (mag 0x3ff0000000000000) with (2 ^ one_log).
  rewrite <- (mag_abs (with_sign neg b)), Ha. apply fround_exact; [done|]. by vm_compute.
Qed.

(** An exact shift of the words to the right. *)
Lemma shift_right_words m n :
  0 <= m < 2 ^ 52 -> 0 < n -> m * 2 ^ n < 2 ^ 53 -> let h := wh (m * 2 ^ n) in let l := wl (m * 2 ^ n) in
  (n <= 20 -> Z.shiftr h n = wh m /\ Z.lor (Z.shiftr l n) (u32 (Z.shiftl (u32 h) (32 - n))) = wl m) /\
  (20 < n <= 31 -> wh m = 0 /\ Z.lor (u32 (Z.shiftl h (32 - n))) (Z.shiftr l n) = wl m) /\
  (31 < n -> wh m = 0 /\ Z.shiftr h (n - 32) = wl m).
Proof.
  intros Hm Hn Hlt h l. destruct (words_of (m * 2 ^ n)) as [E Hl]. fold h l in E, Hl. assert (0 < 2 ^ n) by (apply Z.pow_pos_nonneg; lia).
  assert (0 <= h < 2 ^ 21) as Hh by lia. destruct (words_of m) as [Em Hml].
  destruct (Z.le_gt_cases n 31) as [H31|H31].
  - assert (2 ^ 32 = 2 ^ (32 - n) * 2 ^ n) as Ep by (rewrite <- Z.pow_add_r by lia; f_equal; lia). assert (0 < 2 ^ (32 - n)) by (apply Z.pow_pos_nonneg; lia).
    assert (l = (m - h * 2 ^ (32 - n)) * 2 ^ n) as El by nia. set (l1 := m - h * 2 ^ (32 - n)) in *. assert (0 <= l1 < 2 ^ (32 - n)) as Hl1 by nia.
    assert (Z.shiftr l n = l1) as -> by (rewrite Z.shiftr_div_pow2, El by lia; apply Z.div_mul; lia).
    rewrite !Z.shiftl_mul_pow2, (u32_small h) by lia.
    split_and!; [intros H20|intros H20|lia].
    + rewrite Z.shiftr_div_pow2 by lia. set (h1 := h / 2 ^ n). assert (h = 2 ^ n * h1 + h mod 2 ^ n) as Eh by (apply Z.div_mod; lia).
      assert (0 <= h mod 2 ^ n < 2 ^ n) as Hr by (apply Z.mod_pos_bound; lia). set (r := h mod 2 ^ n) in *.
      assert (u32 (h * 2 ^ (32 - n)) = r * 2 ^ (32 - n)) as ->.
      { unfold u32, uwrap. replace (h * 2 ^ (32 - n)) with (r * 2 ^ (32 - n) + h1 * 2 ^ 32) by (rewrite Ep; nia). rewrite Z.mod_add by lia. apply Z.mod_small. nia. }
      rewrite Z.lor_comm, (lor_low (32 - n)) by (lia || by apply Z.mod_mul; lia).
      destruct (words_unique m h1 (r * 2 ^ (32 - n) + l1)) as [-> ->]; [nia|nia|done].
    + assert (2 ^ (32 - n) <= 2 ^ 11) by (apply Z.pow_le_mono_r; lia). assert (m < 2 ^ 32) by nia. rewrite u32_small by nia.
      rewrite (lor_low (32 - n)) by (lia || by apply Z.mod_mul; lia). destruct (words_unique m 0 m) as [-> ->]; [lia|lia|]. lia.
  - split_and!; [lia|lia|]. intros _. assert (2 ^ n = 2 ^ (n - 32) * 2 ^ 32) as Ep by (rewrite <- Z.pow_add_r by lia; f_equal; lia).
    assert (0 < 2 ^ (n - 32)) by (apply Z.pow_pos_nonneg; lia). destruct (words_unique (m * 2 ^ n) (m * 2 ^ (n - 32)) 0) as [E1 _]; [lia|lia|].
    subst h. rewrite E1, Z.shiftr_div_pow2, Z.div_mul by lia. assert (m < 2 ^ 32) by nia. destruct (words_unique m 0 m) as [-> ->]; [lia|lia|]. done.
Qed.

Lemma fmod_result_spec neg s iy m (e : Z) :
  2 ^ 52 <= s < 2 ^ 53 -> 0 < m -> s * 2 ^ (iy + 1074) = m * 2 ^ 52 -> -1074 <= iy <= 1023 ->
  exists b, fmod_result mode (sign_of neg) (wh s) (wl s) iy e = Some (with_sign neg b, e) /\ 0 < b < inf_bits /\ mag b = m.
Proof.
  intros Hs Hm Em Hiy. destruct (words_of s) as [Es Hl]. unfold fmod_result. destruct (Z.leb_spec (-1022) iy) as [Hn|Hn].
  - exists ((iy + 1022) * 2 ^ 52 + s). split; [|split].
    + unfold ret. do 2 f_equal. rewrite Z.shiftl_mul_pow2 by lia. rewrite (Z.lor_comm (wh s - 1048576)), (lor_low 20 ((iy + 1023) * 2 ^ 20)) by (lia || by apply Z.mod_mul; lia).
      rewrite insert_signed by lia. f_equal. lia.
    + change inf_bits with (2047 * 2 ^ 52). lia.
    + change (2 ^ 52) with (2 ^ mbits). rewrite (mag_encode (iy + 1022) s); change (2 ^ mbits) with (2 ^ 52); [|lia|lia|lia|change (2 ^ sbit) with (2 ^ 63); lia].
      replace (iy + 1074) with (iy + 1022 + 52) in Em by lia. rewrite Z.pow_add_r in Em by lia. lia.
  - set (n := -1022 - iy). assert (s = m * 2 ^ n) as En.
    { assert (2 ^ (iy + 1074) * 2 ^ n = 2 ^ 52) as Ep by (rewrite <- Z.pow_add_r by lia; f_equal; lia). assert (0 < 2 ^ (iy + 1074)) by (apply Z.pow_pos_nonneg; lia). nia. }
    assert (0 < 2 ^ n) by (apply Z.pow_pos_nonneg; lia). assert (m < 2 ^ 52).
    { assert (2 ^ 1 <= 2 ^ n) by (apply Z.pow_le_mono_r; lia). change (2 ^ 1) with 2 in *. nia. }
    destruct (words_of m) as [Ew Hwl]. destruct (shift_right_words m n ltac:(lia) ltac:(lia) ltac:(lia)) as (Hs1 & Hs2 & Hs3). cbv zeta in *. rewrite <- En in Hs1, Hs2, Hs3.
    assert (sign_of neg = Z.lor 0 (sign_of neg)) as E0 by by rewrite Z.lor_0_l.
    assert (Z.lor (sign_of neg) (sign_of neg) = Z.lor 0 (sign_of neg)) as E1 by (rewrite Z.lor_diag; apply E0).
    assert (0 < m < inf_bits) as Hmi by (change inf_bits with (2047 * 2 ^ 52); lia). exists m. split; [|split; [done|by apply subnormal_mag]].
    destruct (Z.leb_spec n 20) as [H20|H20]; [|destruct (Z.leb_spec n 31) as [H31|H31]].
    + destruct (Hs1 H20) as [-> ->]. rewrite insert_signed by lia. rewrite <- Ew, fmul_one by lia. done.
    + destruct (Hs2 ltac:(lia)) as [Eh ->]. rewrite E1, insert_signed by lia. rewrite <- Eh, <- Ew, fmul_one by lia. done.
    + destruct (Hs3 H31) as [Eh ->]. rewrite E1, insert_signed by lia. rewrite <- Eh, <- Ew, fmul_one by lia. done.
Qed.
End result.

(** ** fmod *)

Section fmod.
Context `{NanRules}.
Variables (want_errno : bool) (mode : rmode) (fuel : nat).

Section arguments.
Variable x : Z.
Hypothesis x_float : is_float x.

Lemma abs_pair : HIGH_WORD x mod 2 ^ 31 = wh (fabs_bits x) /\ LOW_WORD x = wl (fabs_bits x).
Proof.
  pose proof (u32_range x) as Hl. fold (LOW_WORD x) in Hl. destruct (words_unique (fabs_bits x) (HIGH_WORD x mod 2 ^ 31) (LOW_WORD x)) as [-> ->]; try done.
  rewrite (abs_words x x_float). lia.
Qed.

Lemma abs_wh_range : 0 <= wh (fabs_bits x) < 2 ^ 31.
Proof. destruct abs_pair as [<- _]. apply Z.mod_pos_bound. lia. Qed.

Lemma sign_word_of : s32 (Z.land (u32 (s32 (HIGH_WORD x))) 0x80000000) = sign_of (fsign x).
Proof. rewrite sign_word by done. by destruct (fsign x). Qed.

Lemma high_xor : Z.lxor (s32 (HIGH_WORD x)) (sign_of (fsign x)) = wh (fabs_bits x).
Proof.
  pose proof abs_wh_range as Hr. destruct abs_pair as [<- _]. rewrite high_signed by done. rewrite fsign_val by done. destruct (HIGH_WORD_eq x x_float) as [-> Hh].
  change (2 ^ sbit) with (2 ^ 63). pose proof (words_eq x). pose proof (u32_range x) as Hl. fold (LOW_WORD x) in Hl. set (h := x / 2 ^ 32) in *.
  unfold sign_of. destruct (Z.leb_spec (2 ^ 63) x).
  - assert (h mod 2 ^ 31 = h - 2 ^ 31) as -> by (symmetry; apply Z.mod_unique with (q := 1); lia).
    replace (h - 2 ^ 32) with (- 2 ^ 31 + (h - 2 ^ 31)) by lia. set (d := h - 2 ^ 31).
    assert (Z.land (- 2 ^ 31) d = 0) as Hd by (pose proof (Z.add_lor_land (- 2 ^ 31) d); rewrite (lor_low 31) in * by (done || lia); lia).
    rewrite Z.add_nocarry_lxor by done. by rewrite (Z.lxor_comm _ d), Z.lxor_assoc, Z.lxor_nilpotent, Z.lxor_0_r.
  - rewrite Z.lxor_0_r, Z.sub_0_r. rewrite Z.mod_small; lia.
Qed.
End arguments.

(** Comparison of the words. *)
Lemma words_lt a b : (wh a <=? wh b) && ((wh a <? wh b) || (wl a <? wl b)) = (a <? b).
Proof.
  destruct (words_of a) as [Ea Ha], (words_of b) as [Eb Hb].
  destruct (Z.leb_spec (wh a) (wh b)), (Z.ltb_spec (wh a) (wh b)), (Z.ltb_spec (wl a) (wl b)), (Z.ltb_spec a b); try done; lia.
Qed.

Lemma words_le_eq a b : b <= a -> (wh a <=? wh b) && (wl a =? wl b) = (a =? b).
Proof.
  intros Hba. destruct (words_of a) as [Ea Ha], (words_of b) as [Eb Hb].
  destruct (Z.leb_spec (wh a) (wh b)), (Z.eqb_spec (wl a) (wl b)), (Z.eqb_spec a b); try done; lia.
Qed.

(** The two significands and the remainder. *)
Lemma fmod_core a b neg (e : Z) :
  0 < b <= a -> a < inf_bits -> (2100 < fuel)%nat ->
  exists r,
    (do ix <- word_log fuel (wh a) (wl a);
     do iy <- word_log fuel (wh b) (wl b);
     let '(hx, lx) := align_words ix (wh a) (wl a) in
     let '(hy, ly) := align_words iy (wh b) (wl b) in
     do r <- loop (fmod_step hy ly) fuel (ix - iy, hx, lx);
     match r with
     | None => ret (with_sign neg 0)
     | Some (hx, lx) =>
         do '(hz, lz) <- sub_words hx lx hy ly;
         let '(hx, lx) := if 0 <=? hz then (hz, lz) else (hx, lx) in
         if Z.lor (u32 hx) lx =? 0 then ret (with_sign neg 0)
         else
           do '(hx, lx, iy) <- loop normalize_step fuel (hx, lx, iy);
           fmod_result mode (sign_of neg) hx lx iy
     end)%C e = Some (with_sign neg r, e) /\ 0 <= r < inf_bits /\ mag r = mag a mod mag b.
Proof.
  intros Hb Ha Hf. pose proof inf_range as Hinf. assert (0 < a < inf_bits) as Ha' by lia. assert (0 < b < inf_bits) as Hb' by lia.
  unfold bind. rewrite !word_log_spec by (done || lia). rewrite !align_spec by done.
  destruct (norm_sig_spec a Ha') as [Hsa Ea], (norm_sig_spec b Hb') as [Hsb Eb]. set (sa := norm_sig a) in *. set (sb := norm_sig b) in *.
  set (la := Z.log2 (mag a)) in *. set (lb := Z.log2 (mag b)) in *.
  assert (0 < mag b) as Hmb by (assert (mag 0 + (b - 0) <= mag b) by (apply mag_mono; lia); rewrite mag_0 in *; lia).
  assert (mag b <= mag a) as Hmab by (assert (mag b + (a - b) <= mag a) by (apply mag_mono; lia); lia).
  assert (0 <= lb <= la) as Hll by (split; [apply Z.log2_nonneg|by apply Z.log2_le_mono]).
  assert (la < 2098) as Hla by (by apply log_mag_range).
  replace (la - 1074 - (lb - 1074)) with (Z.of_nat (Z.to_nat (la - lb))) by lia.
  assert (mag a mod mag b * 2 ^ 52 = (sa * 2 ^ (la - lb)) mod sb * 2 ^ lb) as Emod.
  { rewrite <- !Zmult_mod_distr_r, <- Ea, <- Eb, <- Z.mul_assoc, <- Z.pow_add_r by lia. do 2 f_equal. f_equal. lia. }
  destruct (fmod_loop sb e ltac:(lia) (Z.to_nat (la - lb)) fuel sa ltac:(lia) ltac:(lia)) as (r & -> & Hr). rewrite Z2Nat.id in Hr by lia.
  destruct r as [[h l]|].
  2: { exists 0. rewrite Hr, Z.mul_0_l in Emod. split; [done|]. split; [lia|]. rewrite mag_0. lia. }
  destruct Hr as (c & [= -> ->] & Hc & Ec). rewrite sub_words_spec by lia. destruct (words_of (c - sb)) as [Ew Hw].
  assert ((if 0 <=? wh (c - sb) then (wh (c - sb), wl (c - sb)) else (wh c, wl c)) = (wh (c mod sb), wl (c mod sb))) as ->.
  { destruct (Z.leb_spec 0 (wh (c - sb))); [rewrite <- (Z.mod_add c (-1)) by lia; rewrite Z.mod_small by lia; by replace (c + -1 * sb) with (c - sb) by lia|].
    by rewrite Z.mod_small by lia. }
  rewrite <- Ec in Emod. set (d := c mod sb) in *. assert (0 <= d < sb) as Hd by (apply Z.mod_pos_bound; lia). destruct (words_of d) as [Ed Hdl].
  destruct (Z.eqb_spec (Z.lor (u32 (wh d)) (wl d)) 0) as [E0|E0].
  { exists 0. split; [done|]. split; [lia|]. apply Z.lor_eq_0_iff in E0 as [E1 E2]. rewrite u32_small in E1 by lia. rewrite mag_0. replace d with 0 in Emod by lia. lia. }
  assert (0 < d) as Hd0 by (destruct (Z.eq_dec d 0) as [Hz|]; [exfalso; apply E0; rewrite Hz; done|lia]).
  pose proof (Z.log2_nonneg d) as Hld. assert (Z.log2 d < 53) as Hld' by (apply Z.log2_lt_pow2; lia).
  rewrite (normalize_loop e (Z.to_nat (52 - Z.log2 d))) by lia. rewrite Z2Nat.id by lia. set (n := 52 - Z.log2 d) in *.
  pose proof (Z.log2_spec d Hd0) as [Hd1 Hd2]. assert (2 ^ 52 = 2 ^ n * 2 ^ Z.log2 d) as Ep by (rewrite <- Z.pow_add_r by lia; f_equal; lia).
  assert (0 < 2 ^ n) as Hpn by (apply Z.pow_pos_nonneg; lia). rewrite Z.pow_succ_r in Hd2 by done.
  assert (0 < mag a mod mag b) as Hrem.
  { destruct (Z.eq_dec (mag a mod mag b) 0) as [Hz|]; [|pose proof (Z.mod_pos_bound (mag a) (mag b) Hmb); lia]. rewrite Hz in Emod.
    assert (0 < 2 ^ lb) by (apply Z.pow_pos_nonneg; lia). nia. }
  assert (n <= lb) as Hnl.
  { assert (2 ^ n < 2 ^ (lb + 1)) as Hlt; [|apply Z.pow_lt_mono_r_iff in Hlt; lia]. rewrite Z.pow_add_r by lia. change (2 ^ 1) with 2. nia. }
  destruct (fmod_result_spec mode neg (d * 2 ^ n) (lb - 1074 - n) (mag a mod mag b) e) as (r & -> & Hr & Hmr); [split; nia|done| |lia|].
  - rewrite Emod. replace (lb - 1074 - n + 1074) with (lb - n) by lia. rewrite <- Z.mul_assoc, <- Z.pow_add_r by lia. do 2 f_equal. lia.
  - exists r. split; [done|]. split; [lia|done].
Qed.

Section call.
Variables x y : Z.
Hypothesis x_float : is_float x.
Hypothesis y_float : is_float y.

(** The call with the words of the absolute values. *)
Lemma fmod64_words (e : Z) :
  fmod64 want_errno mode fuel x y e =
  (let a := fabs_bits x in
   let b := fabs_bits y in
   if is_nan x || is_nan y then ret (nan_of x y)
   else if is_inf x then __math_with_errno want_errno nan_invalid EDOM
   else if b =? 0 then __math_with_errno want_errno nan_invalid EDOM
   else if a <? b then ret x
   else if a =? b then ret (with_sign (fsign x) 0)
   else
     do ix <- word_log fuel (wh a) (wl a);
     do iy <- word_log fuel (wh b) (wl b);
     let '(hx, lx) := align_words ix (wh a) (wl a) in
     let '(hy, ly) := align_words iy (wh b) (wl b) in
     do r <- loop (fmod_step hy ly) fuel (ix - iy, hx, lx);
     match r with
     | None => ret (with_sign (fsign x) 0)
     | Some (hx, lx) =>
         do '(hz, lz) <- sub_words hx lx hy ly;
         let '(hx, lx) := if 0 <=? hz then (hz, lz) else (hx, lx) in
         if Z.lor (u32 hx) lx =? 0 then ret (with_sign (fsign x) 0)
         else
           do '(hx, lx, iy) <- loop normalize_step fuel (hx, lx, iy);
           fmod_result mode (sign_of (fsign x)) hx lx iy
     end)%C e.
Proof.
  unfold fmod64. cbv zeta. rewrite (sign_word_of x x_float), (high_xor x x_float), (land_abs_high y y_float), !isnan64_spec, isinf64_spec, !negb_involutive by done.
  destruct (abs_pair x x_float) as [_ ->], (abs_pair y y_float) as [-> ->].
  assert ((if sign_of (fsign x) =? 0 then 0 else 2 ^ 63) = with_sign (fsign x) 0) as -> by by destruct (fsign x).
  destruct (is_nan x || is_nan y) eqn:En; [unfold fadd; by rewrite En|]. apply orb_false_iff in En as [Enx Eny].
  destruct (is_inf x) eqn:Ei; [unfold __math_invalid; by rewrite isnan64_spec, Enx by done|].
  assert ((Z.lor (u32 (wh (fabs_bits y))) (wl (fabs_bits y)) =? 0) = (fabs_bits y =? 0)) as ->.
  { pose proof (abs_wh_range y y_float). destruct (words_of (fabs_bits y)) as [E Hl]. rewrite u32_small by lia.
    destruct (Z.eqb_spec (fabs_bits y) 0) as [E0|E0]; [by rewrite E0|]. apply Z.eqb_neq. rewrite Z.lor_eq_0_iff. lia. }
  destruct (fabs_bits y =? 0); [unfold __math_invalid; by rewrite isnan64_spec, Eny by done|].
  rewrite words_lt. destruct (Z.ltb_spec (fabs_bits x) (fabs_bits y)); [done|]. rewrite words_le_eq by done. done.
Qed.

Lemma fmod64_spec (e : Z) :
  is_finite x = true -> is_nan y = false -> fval y <> 0 -> (2100 < fuel)%nat ->
  exists r, fmod64 want_errno mode fuel x y e = Some (r, e) /\ rounds_to (fun v => Z.rem v (fval y)) x r.
Proof.
  intros Hx Hny Hy Hf. pose proof inf_range as Hinf. pose proof (fabs_range x) as Hax. pose proof (fabs_range y) as Hay.
  destruct (finite_other x Hx) as [Hnx Hix]. rewrite fmod64_words. cbv zeta. rewrite Hnx, Hny, Hix. cbn [orb].
  assert (mag y <> 0) as Hmy by (unfold fval in Hy; destruct (fsign y); lia). rewrite <- mag_abs in Hmy.
  assert (fabs_bits y <> 0) as Hy0 by (intros E; rewrite E, mag_0 in Hmy; done). rewrite (proj2 (Z.eqb_neq _ 0)) by done.
  set (a := fabs_bits x) in *. set (b := fabs_bits y) in *.
  assert (Z.rem (fval x) (fval y) = signed x (mag a mod mag b)) as Erem.
  { rewrite (fval_abs x), (fval_abs y). fold a b. unfold signed. pose proof (mag_nonneg a). pose proof (mag_nonneg b).
    destruct (fsign x), (fsign y); rewrite ?Z.rem_opp_l', ?Z.rem_opp_r', Z.rem_mod_nonneg by lia; done. }
  assert (0 <= a < inf_bits) as Ha by (unfold is_finite in Hx; apply Z.ltb_lt in Hx; subst a; lia).
  destruct (Z.ltb_spec a b) as [Hlt|Hge]; [|destruct (Z.eqb_spec a b) as [Eab|Nab]].
  - eexists. split; [reflexivity|]. apply integral_rounds; [done..|]. rewrite Erem, Z.mod_small; [by rewrite fval_signed|].
    split; [apply mag_nonneg|]. apply mag_lt; lia.
  - eexists. split; [reflexivity|]. apply rounds_constant; [done|lia|]. rewrite Erem, Eab, Z.mod_same by done. unfold signed. by rewrite mag_0.
  - destruct (fmod_core a b (fsign x) e) as (r & -> & Hr & Hmr); [lia|lia|done|]. eexists. split; [reflexivity|].
    apply rounds_constant; [done|done|]. rewrite Erem, Hmr. done.
Qed.

(** A NaN operand gives a NaN; an infinite dividend or a zero divisor is a domain
    error. *)
Lemma fmod64_errors (e : Z) :
  (is_nan x = true \/ is_nan y = true -> fmod64 want_errno mode fuel x y e = Some (nan_of x y, e)) /\
  (is_nan x = false -> is_nan y = false -> is_inf x = true \/ fval y = 0 ->
    fmod64 want_errno mode fuel x y e = Some (nan_invalid, if want_errno then EDOM else e)).
Proof.
  rewrite fmod64_words. cbv zeta. split.
  - intros Hn. assert (is_nan x || is_nan y = true) as -> by (apply orb_true_iff; done). done.
  - intros -> -> Hd. cbn [orb]. destruct (is_inf x); [done|]. destruct Hd as [|Hd]; [done|].
    assert (fabs_bits y = 0) as ->; [|done]. apply mag_zero; [apply fabs_range|]. rewrite mag_abs. unfold fval in Hd. destruct (fsign y); lia.
Qed.
End call.
End fmod.
