(* ===== verification/LibmSqrt.v ===== *)
(** * The square root

    sqrt finds the bits of the root one by one on two words; here it is shown to be
    correctly rounded in the four rounding modes. *)

From stdpp Require Import base list.
From Stdlib Require Import ZArith Lia.
From S2P Require Import Prelude CMem Float Libm LibmRound LibmFmod.

Local Open Scope Z_scope.

(** ** Words *)

Lemma land_top h k : 0 <= k -> 0 <= h < 2 ^ (k + 1) -> Z.land h (2 ^ k) = if 2 ^ k <=? h then 2 ^ k else 0.
Proof.
  intros Hk Hh. rewrite Z.pow_add_r in Hh by lia. change (2 ^ 1) with 2 in Hh. assert (0 < 2 ^ k) by (apply Z.pow_pos_nonneg; lia).
  assert (Z.testbit h k = (2 ^ k <=? h)) as <-.
  { rewrite Z.testbit_eqb by lia. destruct (Z.leb_spec (2 ^ k) h).
    - assert (h / 2 ^ k = 1) as ->; [|done]. symmetry. apply Z.div_unique with (r := h - 2 ^ k); lia.
    - by rewrite Z.div_small by lia. }
  apply Z.bits_inj'. intros n Hn. rewrite Z.land_spec, Z.pow2_bits_eqb by lia. destruct (Z.eqb_spec k n) as [<-|].
  - rewrite andb_true_r. destruct (Z.testbit h k); [by rewrite Z.pow2_bits_true|by rewrite Z.bits_0].
  - rewrite andb_false_r. destruct (Z.testbit h k); [by rewrite Z.pow2_bits_false|by rewrite Z.bits_0].
Qed.

Lemma shift_up_spec w : 0 <= w < 2 ^ 62 -> shift_up (wh w) (wl w) = (wh (2 * w), wl (2 * w)).
Proof.
  intros Hw. destruct (words_of w) as [E Hl]. unfold shift_up. change 0x80000000 with (2 ^ 31). rewrite land_top by (change (31 + 1) with 32; lia).
  set (c := if 2 ^ 31 <=? wl w then 1 else 0). assert (Z.shiftr (if 2 ^ 31 <=? wl w then 2 ^ 31 else 0) 31 = c) as -> by (subst c; by destruct (_ <=? _)).
  assert (0 <= c <= 1 /\ 0 <= 2 * wl w - c * 2 ^ 32 < 2 ^ 32) as [Hc Hr] by (subst c; destruct (Z.leb_spec (2 ^ 31) (wl w)); lia).
  destruct (words_unique (2 * w) (2 * wh w + c) (2 * wl w - c * 2 ^ 32)) as [-> ->]; [lia|done|]. f_equal.
  - rewrite (u32_small (wh w)) by lia. rewrite (u32_small (wh w + c)) by lia. rewrite u32_small by lia. rewrite s32_small; lia.
  - unfold u32, uwrap. rewrite <- (Z.mod_add _ (- c)) by lia. rewrite Z.mod_small; lia.
Qed.

Lemma int_ok (z e : Z) : - 2 ^ 31 <= z < 2 ^ 31 -> int_ z e = Some (z, e).
Proof. intros Hz. unfold int_. by rewrite fits_range. Qed.

(** ** The bits of the root *)

Section root.
Variable n : Z.
Hypothesis n_range : 2 ^ 106 <= n < 2 ^ 108.

(** [q] is the root down to the bit [r] (exclusive), and [x] what is left of [n],
    divided by [r]. *)
Record partial (q x r : Z) : Prop := {
  pr_pos : 0 < r;
  pr_q : 0 <= q;
  pr_low : (2 * r | q);
  pr_x : x * r = n - q * q;
  pr_le : q * q <= n;
  pr_lt : n < (q + 2 * r) * (q + 2 * r) }.

Lemma partial_bounds q x r : partial q x r -> r <= 2 ^ 53 -> 0 <= x < 2 ^ 57 /\ q < 2 ^ 54.
Proof.
  intros [Hr Hq _ Hx Hle Hlt] Hr'. assert (q < 2 ^ 54) by nia. split; [|done].
  assert (x * r < (4 * q + 4 * r) * r) by lia. split; nia.
Qed.

(** One bit: it is set when the square of the root with it is not above [n]. *)
Definition next_q (q x r : Z) : Z := if 2 * q + r <=? x then q + r else q.
Definition next_x (q x r : Z) : Z := if 2 * q + r <=? x then x - (2 * q + r) else x.

Lemma next_exact q x r : partial q x r -> next_x q x r * r = n - next_q q x r * next_q q x r /\
  0 <= next_q q x r /\ (r | next_q q x r) /\ next_q q x r * next_q q x r <= n < (next_q q x r + r) * (next_q q x r + r).
Proof.
  intros [Hr Hq [k Hk] Hx Hle Hlt]. unfold next_q, next_x. destruct (Z.leb_spec (2 * q + r) x).
  - split_and!; [nia|lia|exists (2 * k + 1); lia|nia|nia].
  - split_and!; [lia|lia|exists (2 * k); lia|lia|nia].
Qed.

Lemma partial_step q x r : partial q x (2 * r) -> 0 < r -> partial (next_q q x (2 * r)) (2 * next_x q x (2 * r)) r.
Proof. intros Hp Hr. destruct (next_exact q x (2 * r) Hp) as (E & Hq & Hd & Hl & Hu). split; try done; lia. Qed.

Lemma words_multiple q : (2 ^ 32 | q) -> q = wh q * 2 ^ 32 /\ wl q = 0.
Proof. intros [k ->]. destruct (words_unique (k * 2 ^ 32) k 0) as [-> ->]; lia. Qed.

(** A step on the high words; [r1] is the bit in them. *)
Lemma sqrt_high_step_spec (e : Z) q x r1 :
  1 <= r1 <= 2 ^ 21 -> partial q x (r1 * 2 ^ 32) ->
  let q' := next_q q x (r1 * 2 ^ 32) in
  let x' := next_x q x (r1 * 2 ^ 32) in
  sqrt_high_step (2 * wh q, wh x, wl x, wh q, r1) e = Some (inl (2 * wh q', wh (2 * x'), wl (2 * x'), wh q', Z.shiftr r1 1), e).
Proof.
  intros Hr1 Hp q' x'. set (r := r1 * 2 ^ 32) in *. destruct (partial_bounds q x r Hp ltac:(lia)) as [Hx Hq]. pose proof (pr_q _ _ _ Hp) as Hq0.
  destruct (words_multiple q) as [Eq Elq]; [destruct (pr_low _ _ _ Hp) as [k ->]; exists (k * (2 * r1)); lia|].
  destruct (words_of x) as [Ex Hxl]. assert (0 <= wh q < 2 ^ 22) as Hwq by lia.
  assert ((2 * wh q + r1 <=? wh x) = (2 * q + r <=? x)) as Et by (destruct (Z.leb_spec (2 * wh q + r1) (wh x)), (Z.leb_spec (2 * q + r) x); lia).
  unfold sqrt_high_step. rewrite (proj2 (Z.eqb_neq r1 0)) by lia. cbn [negb].
  rewrite (u32_small (2 * wh q)) by lia. rewrite (u32_small (2 * wh q + r1)) by lia. rewrite (s32_small (2 * wh q + r1)) by lia. rewrite Et.
  subst q' x'. unfold next_q, next_x. destruct (Z.leb_spec (2 * q + r) x) as [Hle|Hgt]; unfold bind.
  - unfold int_. rewrite fits_range by lia. unfold ret. rewrite (u32_small (2 * wh q + r1)), (u32_small (wh q)) by lia.
    rewrite (u32_small (2 * wh q + r1 + r1)), (s32_small (2 * wh q + r1 + r1)), (u32_small (wh q + r1)), (s32_small (wh q + r1)) by lia.
    destruct (words_unique (x - (2 * q + r)) (wh x - (2 * wh q + r1)) (wl x)) as [Eh El]; [lia|done|].
    rewrite <- Eh, <- El, shift_up_spec by lia. destruct (words_unique (q + r) (wh q + r1) 0) as [-> _]; [lia|lia|]. do 3 f_equal. do 4 f_equal. lia.
  - unfold ret. rewrite shift_up_spec by lia. done.
Qed.

(** The high word; [i] is the place of the bit. *)
Lemma sqrt_high_loop (e : Z) : forall (i f : nat) q x,
  (i <= 21)%nat -> partial q x (2 ^ Z.of_nat i * 2 ^ 32) -> (i + 1 < f)%nat ->
  exists q' x', loop sqrt_high_step f (2 * wh q, wh x, wl x, wh q, 2 ^ Z.of_nat i) e = Some ((2 * wh q', wh x', wl x', wh q'), e) /\
    partial q' x' (2 ^ 31).
Proof.
  intros i. induction i as [|i IH]; intros f q x Hi Hp Hf; (destruct f as [|f]; [lia|]).
  - rewrite loop_S. unfold bind. rewrite sqrt_high_step_spec by (done || lia). destruct f as [|f]; [lia|]. rewrite loop_S. cbn.
    eexists _, _. split; [reflexivity|]. apply (partial_step q x (2 ^ 31)); [done|lia].
  - assert (1 <= 2 ^ Z.of_nat (S i) <= 2 ^ 21) as Hr by (split; [apply (Z.pow_le_mono_r 2 0)|apply Z.pow_le_mono_r]; lia).
    assert (2 ^ Z.of_nat (S i) = 2 * 2 ^ Z.of_nat i) as E by (rewrite Nat2Z.inj_succ, Z.pow_succ_r by lia; done).
    rewrite loop_S. unfold bind. rewrite sqrt_high_step_spec by done. rewrite Z.shiftr_div_pow2 by lia. rewrite E in *.
    assert (2 * 2 ^ Z.of_nat i / 2 ^ 1 = 2 ^ Z.of_nat i) as -> by (rewrite (Z.mul_comm 2); by apply Z.div_mul).
    apply IH; [lia| |lia]. rewrite <- Z.mul_assoc in *. apply partial_step; [done|lia].
Qed.

(** A number below [2 ^ 32] that is a multiple of a power of two. *)
Lemma low_room v i : 0 <= i <= 31 -> 0 <= v < 2 ^ 32 -> (2 ^ i | v) -> v + 2 ^ i <= 2 ^ 32.
Proof.
  intros Hi Hv [k ->]. assert (2 ^ 32 = 2 ^ (32 - i) * 2 ^ i) as E by (rewrite <- Z.pow_add_r by lia; f_equal; lia).
  assert (0 < 2 ^ i) by (apply Z.pow_pos_nonneg; lia). assert (k < 2 ^ (32 - i)) by nia. nia.
Qed.

Lemma wl_multiple v i : 0 <= i <= 32 -> (2 ^ i | v) -> (2 ^ i | wl v).
Proof.
  intros Hi Hv. unfold wl. rewrite Z.mod_eq by lia. apply Z.divide_sub_r; [done|]. apply Z.divide_mul_l. exists (2 ^ (32 - i)).
  rewrite <- Z.pow_add_r by lia. f_equal. lia.
Qed.

(** The comparison and the subtraction on two words. *)
Lemma words_sub_le a b :
  0 <= a < 2 ^ 62 -> 0 <= b < 2 ^ 62 ->
  ((wh a <? wh b) || ((wh a =? wh b) && (wl a <=? wl b))) = (a <=? b) /\
  (a <= b -> wh (b - a) = wh b - wh a - (if wl b <? wl a then 1 else 0) /\ wl (b - a) = u32 (wl b - wl a)).
Proof.
  intros Ha Hb. destruct (words_of a) as [Ea Hla], (words_of b) as [Eb Hlb]. split.
  - destruct (Z.ltb_spec (wh a) (wh b)), (Z.eqb_spec (wh a) (wh b)), (Z.leb_spec (wl a) (wl b)), (Z.leb_spec a b); cbn [orb andb]; lia.
  - intros Hle. destruct (Z.ltb_spec (wl b) (wl a)).
    + destruct (words_unique (b - a) (wh b - wh a - 1) (wl b - wl a + 2 ^ 32)) as [-> ->]; [lia|lia|]. split; [done|].
      unfold u32, uwrap. rewrite <- (Z.mod_add (_ - _) 1) by lia. rewrite Z.mod_small; lia.
    + destruct (words_unique (b - a) (wh b - wh a) (wl b - wl a)) as [-> ->]; [lia|lia|]. split; [lia|]. symmetry. apply u32_small. lia.
Qed.

(** The carry out of [t + r], seen from the sign bits. *)
Lemma carry_test t r :
  0 <= t < 2 ^ 32 -> 1 <= r /\ r <= 2 ^ 31 /\ t + r <= 2 ^ 32 ->
  ((Z.land t 0x80000000 =? 0x80000000) && (Z.land (u32 (t + r)) 0x80000000 =? 0)) = (t + r =? 2 ^ 32) /\
  u32 (t + r) = if t + r =? 2 ^ 32 then 0 else t + r.
Proof.
  intros Ht (Hr1 & Hr2 & Hr). change 0x80000000 with (2 ^ 31). rewrite !land_top by (try apply u32_range; lia). destruct (Z.eqb_spec (t + r) (2 ^ 32)) as [E|E].
  - rewrite E. change (u32 (2 ^ 32)) with 0. by rewrite (proj2 (Z.leb_le (2 ^ 31) t)) by lia.
  - rewrite u32_small by lia. split; [|done]. destruct (Z.leb_spec (2 ^ 31) t), (Z.leb_spec (2 ^ 31) (t + r)); try done; lia.
Qed.

Lemma sqrt_low_step_spec (e : Z) q x i :
  0 <= i <= 31 -> partial q x (2 ^ i) ->
  let q' := next_q q x (2 ^ i) in
  let x' := next_x q x (2 ^ i) in
  sqrt_low_step (wh (2 * q), wl (2 * q), wh x, wl x, wl q, 2 ^ i) e =
    Some (inl (wh (2 * q'), wl (2 * q'), wh (2 * x'), wl (2 * x'), wl q', Z.shiftr (2 ^ i) 1), e) /\ wh q' = wh q.
Proof.
  intros Hi Hp q' x'. assert (1 <= 2 ^ i <= 2 ^ 31) as Hr by (split; [apply (Z.pow_le_mono_r 2 0)|apply Z.pow_le_mono_r]; lia).
  destruct (partial_bounds q x (2 ^ i) Hp ltac:(lia)) as [Hx Hq]. pose proof (pr_q _ _ _ Hp) as Hq0.
  assert (2 * 2 ^ i = 2 ^ (i + 1)) as E2 by (rewrite Z.pow_add_r by lia; change (2 ^ 1) with 2; lia).
  assert (2 ^ (i + 1) | q) as Hdq by (rewrite <- E2; apply (pr_low _ _ _ Hp)). assert (2 ^ i | q) as Hdq1 by (etrans; [|exact Hdq]; exists 2; lia).
  destruct (words_of (2 * q)) as [Es Hsl]. destruct (words_of q) as [Eq Hql]. set (r := 2 ^ i) in *.
  assert (wl (2 * q) + 2 * r <= 2 ^ 32 /\ wl q + r <= 2 ^ 32 - 1) as [Hroom Hroomq].
  { assert (2 ^ (i + 1) | wl (2 * q)) as D1 by (apply wl_multiple; [lia|]; by apply Z.divide_mul_r).
    assert (2 ^ (i + 1) | wl q) as D2 by (apply wl_multiple; [lia|done]). destruct (Z.eq_dec i 31) as [->|].
    - destruct D1 as [k1 D1], D2 as [k2 D2]. change (31 + 1) with 32 in *. subst r. lia.
    - pose proof (low_room _ (i + 1) ltac:(lia) Hsl D1). pose proof (low_room _ (i + 1) ltac:(lia) Hql D2). lia. }
  destruct (words_unique (2 * q + r) (wh (2 * q)) (wl (2 * q) + r)) as [Eth Etl]; [lia|lia|].
  destruct (words_unique (q + r) (wh q) (wl q + r)) as [Eqh Eql]; [lia|lia|].
  unfold sqrt_low_step. rewrite (proj2 (Z.eqb_neq r 0)) by lia. cbn [negb]. rewrite (u32_small (wl (2 * q) + r)) by lia. rewrite <- Eth, <- Etl.
  destruct (words_sub_le (2 * q + r) x ltac:(lia) ltac:(lia)) as [-> Hsub]. subst q' x'. unfold next_q, next_x.
  destruct (Z.leb_spec (2 * q + r) x) as [Hle|Hgt]; [|unfold bind, ret; rewrite shift_up_spec by lia; rewrite ?Eth; done].
  destruct (Hsub Hle) as [Exh Exl]. destruct (words_of (2 * q + r)) as [Et Htl]. destruct (words_of x) as [Ex Hxl]. split; [|done].
  destruct (carry_test (wl (2 * q + r)) r ltac:(lia) ltac:(lia)) as [-> Eu].
  set (s0' := wh (2 * q + r) + (if wl (2 * q + r) + r =? 2 ^ 32 then 1 else 0)).
  destruct (words_unique (2 * (q + r)) s0' (u32 (wl (2 * q + r) + r))) as [Eh El]; [subst s0'; rewrite Eu; destruct (Z.eqb_spec (wl (2 * q + r) + r) (2 ^ 32)); lia|apply u32_range|].
  assert (0 <= s0' < 2 ^ 30) by (subst s0'; destruct (_ =? _); lia).
  assert (wh (2 * q + r) <= wh x) by lia. unfold bind.
  assert ((if wl (2 * q + r) + r =? 2 ^ 32 then int_ (wh (2 * q + r) + 1) else ret (wh (2 * q + r))) e = Some (s0', e)) as ->.
  { subst s0'. destruct (_ =? _); [by apply int_ok; lia|by rewrite Z.add_0_r]. }
  rewrite (int_ok (wh x - wh (2 * q + r))) by lia.
  assert ((if wl x <? wl (2 * q + r) then int_ (wh x - wh (2 * q + r) - 1) else ret (wh x - wh (2 * q + r))) e = Some (wh (x - (2 * q + r)), e)) as ->.
  { rewrite Exh. destruct (_ <? _); [apply int_ok; lia|]. unfold ret. do 2 f_equal. lia. }
  unfold ret. rewrite <- Exl, shift_up_spec by lia. rewrite (u32_small (wl q + r)) by lia. by rewrite <- Eh, <- El, Eql.
Qed.

(** The low word: the root of [n] and twice what is left. *)
Lemma sqrt_low_loop (e : Z) : forall (i f : nat) q x,
  (i <= 31)%nat -> partial q x (2 ^ Z.of_nat i) -> (i + 1 < f)%nat ->
  exists q', loop sqrt_low_step f (wh (2 * q), wl (2 * q), wh x, wl x, wl q, 2 ^ Z.of_nat i) e =
      Some ((wh (2 * (n - q' * q')), wl (2 * (n - q' * q')), wl q'), e) /\
    wh q' = wh q /\ 0 <= q' /\ q' * q' <= n < (q' + 1) * (q' + 1).
Proof.
  intros i. induction i as [|i IH]; intros f q x Hi Hp Hf; (destruct f as [|f]; [lia|]);
    rewrite loop_S; unfold bind; 
    (match type of Hp with partial _ _ (2 ^ ?k) => destruct (sqrt_low_step_spec e q x k ltac:(lia) Hp) as [Es Eh] end);
    cbv zeta in Es, Eh; rewrite Es.
  - destruct f as [|f]; [lia|]. rewrite loop_S. cbn. exists (next_q q x 1).
    destruct (next_exact q x 1 Hp) as (E & Hq & _ & Hl & Hu). rewrite Z.mul_1_r in E. rewrite <- E. done.
  - assert (2 ^ Z.of_nat (S i) = 2 * 2 ^ Z.of_nat i) as E by (rewrite Nat2Z.inj_succ, Z.pow_succ_r by lia; done).
    rewrite Z.shiftr_div_pow2 by lia. rewrite E in *.
    assert (2 * 2 ^ Z.of_nat i / 2 ^ 1 = 2 ^ Z.of_nat i) as -> by (rewrite (Z.mul_comm 2); by apply Z.div_mul).
    rewrite <- Eh. apply IH; [lia| |lia]. apply partial_step; [done|]. apply Z.pow_pos_nonneg; lia.
Qed.

(** Both loops, from the words of [n] divided by the first bit. *)
Lemma sqrt_loops (e : Z) (f : nat) x :
  n = x * 2 ^ 53 -> (33 < f)%nat -> exists s0 ix0 ix1 q,
    loop sqrt_high_step f (0, wh x, wl x, 0, 0x00200000) e = Some ((s0, ix0, ix1, wh q), e) /\
    loop sqrt_low_step f (s0, 0, ix0, ix1, 0, 0x80000000) e = Some ((wh (2 * (n - q * q)), wl (2 * (n - q * q)), wl q), e) /\
    0 <= q /\ q * q <= n < (q + 1) * (q + 1).
Proof.
  intros En Hf. assert (partial 0 x (2 ^ Z.of_nat 21 * 2 ^ 32)) as Hp.
  { change (2 ^ Z.of_nat 21 * 2 ^ 32) with (2 ^ 53). split; try lia. by apply Z.divide_0_r. }
  destruct (sqrt_high_loop e 21 f 0 x ltac:(lia) Hp ltac:(lia)) as (q1 & x1 & Eh & Hp1).
  destruct (words_multiple q1) as [Eq El]; [destruct (pr_low _ _ _ Hp1) as [k ->]; exists k; lia|].
  destruct (words_unique (2 * q1) (2 * wh q1) 0) as [E1 E2]; [lia|lia|].
  destruct (sqrt_low_loop e 31 f q1 x1 ltac:(lia) Hp1 ltac:(lia)) as (q & Elow & Ewh & Hq).
  eexists _, _, _, q. split; [by rewrite Ewh|]. split; [|done]. rewrite E1, E2, El in Elow. done.
Qed.
End root.

(** ** A subnormal argument *)

Section normalize.
Variable fuel : nat.
Hypothesis fuel_enough : (32 < fuel)%nat.

(** The lowest bit of the high word is moved up to bit 20. *)
Lemma lift_loop (e : Z) : forall (n f : nat) i h,
  0 < h < 2 ^ 21 -> Z.log2 h + Z.of_nat n = 20 -> (n < f)%nat ->
  loop (fun '(i, ix0) =>
    if Z.land ix0 0x00100000 =? 0 then
      do ix0 <- int_ (Z.shiftl ix0 1);
      ret (inl (i + 1, ix0))
    else ret (inr (i, ix0)))%C f (i, h) e = Some ((i + Z.of_nat n, h * 2 ^ Z.of_nat n), e).
Proof.
  intros n. induction n as [|n IH]; intros f i h Hh Hn Hf; (destruct f as [|f]; [lia|]); rewrite loop_S; unfold bind;
    change 0x00100000 with (2 ^ 20) in *; rewrite land_top by (change (20 + 1) with 21; lia).
  - assert (2 ^ 20 <= h) by (apply Z.log2_le_pow2; lia). rewrite (proj2 (Z.leb_le _ _)) by done. cbn. do 3 f_equal; lia.
  - assert (h < 2 ^ 20) by (apply Z.log2_lt_pow2; lia). rewrite (proj2 (Z.leb_gt _ _)) by done. rewrite Z.eqb_refl.
    rewrite Z.shiftl_mul_pow2 by lia. change (2 ^ 1) with 2. rewrite int_ok by lia. unfold ret. rewrite (Z.mul_comm h 2), IH; [|lia|rewrite Z.log2_double by lia; lia|lia].
    rewrite Nat2Z.inj_succ, Z.pow_succ_r by lia. do 3 f_equal; lia.
Qed.

Lemma words_loop (e : Z) a : 0 < a < 2 ^ 52 -> exists k,
  loop (fun '(m, ix0, ix1) =>
    if ix0 =? 0 then ret (inl (m - 21, s32 (Z.lor (u32 ix0) (Z.shiftr ix1 11)), u32 (Z.shiftl ix1 21)))
    else ret (inr (m, ix0, ix1)))%C fuel (0, wh a, wl a) e = Some ((- k, wh (a * 2 ^ k), wl (a * 2 ^ k)), e) /\
  0 <= k /\ 2 ^ 32 <= a * 2 ^ k < 2 ^ 53.
Proof.
  intros Ha. assert (forall w, 0 < w < 2 ^ 32 -> wh w = 0 /\ s32 (Z.lor (u32 0) (Z.shiftr (wl w) 11)) = wh (w * 2 ^ 21) /\ u32 (Z.shiftl (wl w) 21) = wl (w * 2 ^ 21)) as Hup.
  { intros w Hw. destruct (words_unique w 0 w) as [E0 E1]; [lia|lia|]. destruct (words_shl w 21) as [-> ->]; [lia|lia|lia|]. split_and!; [done| |done].
    rewrite E0, E1, Z.mul_0_l. change (u32 0) with 0. change (32 - 21) with 11. rewrite !Z.lor_0_l, !Z.shiftr_div_pow2 by lia. apply s32_small.
    assert (0 <= w / 2 ^ 11 < 2 ^ 21) by (split; [apply Z.div_pos; lia|apply Z.div_lt_upper_bound; lia]). lia. }
  assert (forall w, 2 ^ 32 <= w -> (wh w =? 0) = false) as Hstop by (intros w Hw; destruct (words_of w); apply Z.eqb_neq; lia).
  destruct fuel as [|[|[|f]]]; [lia..|]. rewrite loop_S. unfold bind. destruct (Z.lt_ge_cases a (2 ^ 32)) as [H1|H1].
  - destruct (Hup a ltac:(lia)) as (-> & -> & ->). cbn [Z.eqb]. unfold ret at 1. rewrite loop_S. unfold bind. destruct (Z.lt_ge_cases (a * 2 ^ 21) (2 ^ 32)) as [H2|H2].
    + destruct (Hup (a * 2 ^ 21) ltac:(lia)) as (-> & -> & ->). cbn [Z.eqb]. unfold ret at 1. rewrite loop_S. unfold bind. rewrite Hstop by lia.
      exists 42. rewrite <- Z.mul_assoc. change (2 ^ 21 * 2 ^ 21) with (2 ^ 42). split; [done|]. lia.
    + rewrite Hstop by lia. exists 21. split; [done|]. lia.
  - rewrite Hstop by lia. exists 0. rewrite Z.mul_1_r. split; [done|]. lia.
Qed.

Lemma sqrt_normalize_spec (e : Z) a : 0 < a < 2 ^ 52 ->
  sqrt_normalize fuel (wh a) (wl a) e = Some ((Z.log2 a - 51, wh (a * 2 ^ (52 - Z.log2 a)), wl (a * 2 ^ (52 - Z.log2 a))), e).
Proof.
  intros Ha. unfold sqrt_normalize. destruct (words_loop e a Ha) as (k & E & Hk & Hw). unfold bind at 1. rewrite E. clear E. set (w := a * 2 ^ k) in *.
  destruct (words_of w) as [Ew Hl]. assert (0 < wh w < 2 ^ 21) as Hh by lia. pose proof (Z.log2_nonneg (wh w)). assert (Z.log2 (wh w) < 21) by (apply Z.log2_lt_pow2; lia).
  unfold bind at 1. rewrite (lift_loop e (Z.to_nat (20 - Z.log2 (wh w)))) by lia. rewrite Z2Nat.id, Z.add_0_l by lia. set (i := 20 - Z.log2 (wh w)).
  assert (Z.log2 w = Z.log2 (wh w) + 32) as El.
  { apply Z.log2_unique' with (c := w - 2 ^ (Z.log2 (wh w) + 32)); [lia| |lia].
    pose proof (Z.log2_spec (wh w) ltac:(lia)) as [H1 H2]. rewrite Z.pow_succ_r in H2 by lia. rewrite Z.pow_add_r by lia. lia. }
  assert (Z.log2 w = Z.log2 a + k) as Ea by (subst w; rewrite Z.log2_mul_pow2 by lia; lia).
  replace (52 - Z.log2 a) with (k + i) by lia. rewrite Z.pow_add_r, Z.mul_assoc by lia. fold w.
  assert (0 < 2 ^ i) by (apply Z.pow_pos_nonneg; lia). assert (w * 2 ^ i < 2 ^ 53) as Hlt.
  { apply Z.log2_lt_cancel. rewrite Z.log2_mul_pow2, Z.log2_pow2 by lia. lia. }
  destruct (words_shl w i) as [E1 E2]; [lia|lia|lia|]. assert (0 <= wh (w * 2 ^ i) < 2 ^ 21) by (destruct (words_of (w * 2 ^ i)); lia).
  unfold ret. rewrite <- E2. do 2 f_equal. f_equal. f_equal; [lia|]. destruct (Z.eqb_spec i 0) as [Ei|Ei]; cbn [negb].
  - rewrite Ei, !Z.mul_1_r. done.
  - rewrite u32_small by nia. rewrite <- E1. apply s32_small. lia.
Qed.
End normalize.

(** ** Rounding *)

(** [z] is the root of [v], a number in squared units, rounded: in the nearest mode
    the root is between the midpoints to the neighbours of [z]. *)
Definition rounded_root (mode : rmode) (v z : Z) : Prop :=
  match mode with
  | ToNearest => (mag (z - 1) + mag z) ^ 2 < 4 * v < (mag z + mag (z + 1)) ^ 2
  | Upward => mag (z - 1) ^ 2 < v <= mag z ^ 2
  | Downward | TowardZero => mag z ^ 2 <= v < mag (z + 1) ^ 2
  end.

(** The significand for the root [q], which has one bit more, of a number that is
    not a square. *)
Definition root_half (mode : rmode) (q : Z) : Z :=
  match mode with ToNearest => (q + 1) / 2 | Upward => q / 2 + 1 | Downward | TowardZero => q / 2 end.

Section rounding.
Variable mode : rmode.

Lemma sqrt_round_spec (e : Z) q : 2 ^ 53 <= q < 2 ^ 54 -> exists q',
  sqrt_round mode (wh q) (wl q) e = Some ((wh q', wl q'), e) /\ q' / 2 = root_half mode q /\ 2 ^ 53 <= q' <= 2 ^ 54 + 1.
Proof.
  intros Hq. destruct (words_of q) as [E Hl]. unfold sqrt_round, root_half. pose proof (Z.div_mod q 2 ltac:(lia)) as Ed. pose proof (Z.mod_pos_bound q 2 ltac:(lia)) as Hm.
  assert (wl q mod 2 = q mod 2) as Em by (unfold wl; apply Z.mod_mod_divide; by exists (2 ^ 31)).
  assert (forall c, 0 <= c <= 2 -> wl q + c < 2 ^ 32 -> u32 (wl q + c) = wl (q + c) /\ wh (q + c) = wh q) as Hadd.
  { intros c Hc Hlt. destruct (words_unique (q + c) (wh q) (wl q + c)) as [-> ->]; [lia|lia|]. split; [apply u32_small; lia|done]. }
  assert (forall c, wl q + c = 2 ^ 32 -> wl (q + c) = 0 /\ wh (q + c) = wh q + 1) as Hcarry.
  { intros c Hc. destruct (words_unique (q + c) (wh q + 1) 0) as [-> ->]; lia. }
  destruct mode; cbn [bool_decide orb decide decide_rel rmode_eq_dec]; unfold bind; cbv [bool_decide decide decide_rel rmode_eq_dec rmode_rec rmode_rect]; cbn [orb].
  - destruct (Z.eqb_spec (wl q) 0xffffffff) as [Ef|Ef].
    + rewrite int_ok by lia. destruct (Hcarry 1 ltac:(lia)) as [E1 E2]. exists (q + 1). rewrite E1, E2. split; [done|]. split; [done|lia].
    + assert (Z.land (wl q) 1 = q mod 2) as -> by (rewrite (land_ones_eq _ _ 1) by lia; exact Em).
      destruct (Hadd (q mod 2)) as [E1 E2]; [lia|lia|]. exists (q + q mod 2). rewrite E1, E2. split; [done|]. split; [|lia].
      clear -Hq. Z.to_euclidean_division_equations. lia.
  - destruct (Z.eqb_spec (wl q) 0xffffffff) as [Ef|Ef].
    + rewrite int_ok by lia. destruct (Hcarry 1 ltac:(lia)) as [E1 E2]. exists (q + 1). rewrite E1, E2. split; [done|]. split; [|lia].
      rewrite Ef in Em. change (0xffffffff mod 2) with 1 in Em. clear -Em. Z.to_euclidean_division_equations. lia.
    + exists (q + 2). split; [|split; [change 2 with (1 * 2) at 1; rewrite Z.div_add by lia; lia|lia]].
      destruct (Z.eqb_spec (wl q) 0xfffffffe) as [Eg|Eg].
      * rewrite int_ok by lia. destruct (Hcarry 2 ltac:(lia)) as [-> ->]. rewrite Eg. done.
      * destruct (Hadd 2) as [-> ->]; [lia|lia|done].
  - exists q. split; [done|]. split; [done|lia].
  - exists q. split; [done|]. split; [done|lia].
Qed.

(** The number with the significand [p], and its neighbours. *)
Lemma root_pattern k p : 1 <= k <= 2000 -> 2 ^ 52 <= p <= 2 ^ 53 ->
  let z := k * 2 ^ 52 + p in
  mag z = p * 2 ^ k /\ 0 <= mag (z - 1) < mag z /\ (2 ^ 52 < p -> mag (z - 1) = (p - 1) * 2 ^ k) /\ (p + 1) * 2 ^ k <= mag (z + 1) /\ 0 < z < inf_bits.
Proof.
  intros Hk Hp z. assert (forall p, 2 ^ 52 <= p <= 2 ^ 53 -> mag (k * 2 ^ 52 + p) = p * 2 ^ k) as Hmag.
  { intros p' Hp'. change (2 ^ 52) with (2 ^ mbits). apply mag_encode; [lia| |right|]; change (2 ^ sbit) with (2 ^ 63); change (2 ^ mbits) with (2 ^ 52); lia. }
  assert (z < inf_bits /\ z + 1 < 2 ^ sbit) as [Hz1 Hz2] by (change inf_bits with (2047 * 2 ^ 52); change (2 ^ sbit) with (2 ^ 63); lia).
  assert (0 < z) as Hz by lia. split_and!; try lia.
  - by apply Hmag.
  - apply mag_nonneg.
  - apply mag_lt; lia.
  - intros Hp'. subst z. rewrite <- Z.add_sub_assoc. apply Hmag. lia.
  - rewrite mag_succ by lia. subst z. rewrite (Hmag p Hp). set (w := k * 2 ^ 52 + p) in *.
    assert (2 ^ k <= 2 ^ fscale w); [|lia]. apply Z.pow_le_mono_r; [lia|]. unfold fscale.
    assert (k + 1 <= fexp w); [|lia]. unfold fexp. change mbits with 52. change ebits with 11.
    rewrite Z.mod_small; [apply Z.div_le_lower_bound; lia|]. split; [apply Z.div_pos; lia|]. apply Z.div_lt_upper_bound; lia.
Qed.

Lemma root_half_spec k n q v : 1 <= k <= 2000 -> 2 ^ 53 <= q < 2 ^ 54 -> q * q <= n < (q + 1) * (q + 1) -> (2 | n) -> 4 * v = n * 2 ^ k * 2 ^ k ->
  rounded_root mode v (k * 2 ^ 52 + (if n =? q * q then q / 2 else root_half mode q)).
Proof.
  intros Hk Hq Hn [n' Hn'] Hv. pose proof (Z.div_mod q 2 ltac:(lia)) as Ed. pose proof (Z.mod_pos_bound q 2 ltac:(lia)) as Hm.
  set (w := q / 2) in *. assert (0 < 2 ^ k) as Hu by (apply Z.pow_pos_nonneg; lia). set (u := 2 ^ k) in *.
  assert (forall b x, 0 <= x <= b * u -> (b * b < n -> x ^ 2 < 4 * v) /\ (b * b <= n -> x ^ 2 <= 4 * v)) as Hbelow.
  { intros b x Hx. assert (x ^ 2 <= (b * u) ^ 2) by (apply Z.pow_le_mono_l; lia). assert ((b * u) ^ 2 = b * b * u * u) by lia. split; intros; nia. }
  assert (forall b x, 0 <= b -> b * u <= x -> n < b * b -> 4 * v < x ^ 2) as Habove.
  { intros b x Hb Hx Hlt. assert ((b * u) ^ 2 <= x ^ 2) by (apply Z.pow_le_mono_l; nia). assert ((b * u) ^ 2 = b * b * u * u) by lia. nia. }
  assert ((q + 1) * (q + 1) <= (2 * w + 2) * (2 * w + 2) /\ 2 * w * (2 * w) <= q * q) as [Hup Hdn] by (split; apply Z.mul_le_mono_nonneg; lia).
  destruct (Z.eqb_spec n (q * q)) as [Esq|Nsq].
  - assert (q mod 2 = 0) as E0 by (destruct (Z.eq_dec (q mod 2) 0); [done|]; assert (q = 2 * w + 1) by lia; nia).
    destruct (root_pattern k w) as (Ez & Hlo & _ & Hhi & Hz); [lia|lia|]. fold u in Ez, Hhi. assert (v = mag (k * 2 ^ 52 + w) ^ 2) as Ev by (rewrite Ez; nia).
    set (z := k * 2 ^ 52 + w) in *. assert (mag z < mag (z + 1)) by nia. rewrite Ev. destruct mode; cbn [rounded_root]; nia.
  - assert (rounded_root Downward v (k * 2 ^ 52 + w)) as Hdown.
    { destruct (root_pattern k w) as (Ez & Hlo & _ & Hhi & _); [lia|lia|]. fold u in Ez, Hhi. cbn [rounded_root].
      destruct (Hbelow (2 * w) (2 * mag (k * 2 ^ 52 + w))) as [_ H1]; [lia|]. assert (4 * v < (2 * mag (k * 2 ^ 52 + w + 1)) ^ 2) by (apply (Habove (2 * w + 2)); lia).
      specialize (H1 ltac:(lia)). lia. }
    destruct mode; cbn [root_half]; fold w; [| |exact Hdown..].
    + cbn [rounded_root]. destruct (Z.eq_dec (q mod 2) 0) as [E0|E0].
      * assert ((q + 1) / 2 = w) as -> by (symmetry; apply Z.div_unique with (r := 1); lia).
        destruct (root_pattern k w) as (Ez & Hlo & _ & Hhi & _); [lia|lia|]. fold u in Ez, Hhi. split.
        -- apply (Hbelow (2 * w)); nia.
        -- apply (Habove (2 * w + 1)); [lia|lia|nia].
      * assert ((q + 1) / 2 = w + 1) as -> by (symmetry; apply Z.div_unique with (r := 0); lia).
        destruct (root_pattern k (w + 1)) as (Ez & Hlo & Hprev & Hhi & _); [lia|lia|]. fold u in Ez, Hhi, Hprev. rewrite Hprev in * by lia. split.
        -- apply (Hbelow (2 * w + 1)); [lia|nia].
        -- apply (Habove (2 * w + 2)); [lia|lia|nia].
    + cbn [rounded_root]. destruct (root_pattern k (w + 1)) as (Ez & Hlo & Hprev & Hhi & _); [lia|lia|]. fold u in Ez, Hhi, Hprev. rewrite Hprev in * by lia.
      destruct (Hbelow (2 * w) (2 * ((w + 1 - 1) * u))) as [H1 _]; [lia|]. specialize (H1 ltac:(lia)).
      assert (4 * v < (2 * mag (k * 2 ^ 52 + (w + 1))) ^ 2) by (apply (Habove (2 * w + 2)); lia). lia.
Qed.
End rounding.

(** ** sqrt *)

(** The words of the result. *)
Lemma root_words (e : Z) h q : -537 <= h <= 511 -> 2 ^ 53 <= q <= 2 ^ 54 + 1 ->
  (do ix0 <- int_ (Z.shiftr (wh q) 1 + 0x3fe00000 + lsl h 20);
   ret (INSERT_WORDS ix0 (if Z.land (wh q) 1 =? 1 then Z.lor (Z.shiftr (wl q) 1) 0x80000000 else Z.shiftr (wl q) 1)))%C e =
  Some ((h + 1022) * 2 ^ 52 + q / 2, e).
Proof.
  intros Hh Hq. destruct (words_of q) as [E Hl]. unfold lsl, bind. rewrite Z.shiftl_mul_pow2 by lia. rewrite (s32_small (h * 2 ^ 20)) by lia.
  rewrite !Z.shiftr_div_pow2 by lia. change (2 ^ 1) with 2. rewrite (land_ones_eq (wh q) 1 1) by done. change (2 ^ 1) with 2.
  pose proof (Z.div_mod (wh q) 2 ltac:(lia)) as Ed. pose proof (Z.mod_pos_bound (wh q) 2 ltac:(lia)) as Hm.
  pose proof (Z.div_mod (wl q) 2 ltac:(lia)) as Edl. pose proof (Z.mod_pos_bound (wl q) 2 ltac:(lia)) as Hml.
  set (H := wh q / 2) in *. set (L := wl q / 2) in *. rewrite int_ok by lia. unfold ret. do 2 f_equal. rewrite INSERT_WORDS_eq, (u32_small (H + _ + _)) by lia.
  assert ((if wh q mod 2 =? 1 then Z.lor L 0x80000000 else L) = L + wh q mod 2 * 2 ^ 31) as ->.
  { destruct (Z.eqb_spec (wh q mod 2) 1) as [->|]; [|lia]. rewrite Z.lor_comm, (lor_low 31) by (done || lia). lia. }
  rewrite u32_small by lia. assert (q / 2 = H * 2 ^ 32 + L + wh q mod 2 * 2 ^ 31) as ->; [|lia].
  symmetry. apply Z.div_unique with (r := wl q mod 2); lia.
Qed.

Section sqrt.
Context `{NanRules}.
Variables (want_errno : bool) (mode : rmode) (fuel : nat).

Section positive.
Variable a : Z.
Hypothesis a_range : 0 < a < inf_bits.
Hypothesis fuel_enough : (40 < fuel)%nat.

(** The exponent and the significand. *)
Lemma sqrt_start (e : Z) : exists h,
  (if Z.shiftr (wh a) 20 =? 0 then sqrt_normalize fuel (wh a) (wl a) else ret (Z.shiftr (wh a) 20, wh a, wl a)) e =
    Some ((Z.log2 (mag a) - 51, h, wl (norm_sig a)), e) /\
  Z.lor (Z.land h 0x000fffff) 0x00100000 = wh (norm_sig a).
Proof.
  pose proof (norm_sig_spec a a_range) as [Hs _]. pose proof (align_spec a a_range) as Ha. pose proof (wh_range a a_range) as [Hw Hx].
  destruct (words_of (norm_sig a)) as [Es Hsl]. rewrite Z.shiftr_div_pow2, Hx by lia. unfold norm_sig in *. destruct (Z.ltb_spec a (2 ^ 52)) as [Hn|Hn].
  - assert (fexp a = 0) as ->.
    { rewrite <- Hx. apply Z.div_small. split; [apply Hw|]. unfold wh. apply Z.div_lt_upper_bound; lia. }
    rewrite Z.eqb_refl, sqrt_normalize_spec, subnormal_mag by (done || lia). eexists. split; [reflexivity|]. set (s := a * 2 ^ _) in *.
    rewrite (land_ones_eq _ _ 20), Z.lor_comm, (lor_low 20) by (done || lia || by apply Z.mod_pos_bound).
    assert (wh s mod 2 ^ 20 = wh s - 2 ^ 20) as ->; [|lia]. symmetry. apply Z.mod_unique with (q := 1); lia.
  - destruct (normal_split a a_range Hn) as (_ & He & _ & _). rewrite (proj2 (Z.eqb_neq _ 0)) by lia. rewrite normal_log in * by done.
    unfold align_words in Ha. rewrite (proj2 (Z.leb_le _ _)) in Ha by lia. injection Ha as E1 E2. exists (wh a). rewrite <- E1, <- E2.
    split; [|by rewrite (Z.land_comm (wh a)), Z.lor_comm]. unfold ret. do 3 f_equal. f_equal. lia.
Qed.

(** The root of a positive number. *)
Lemma sqrt_positive (e : Z) : exists z,
  (do '(m, ix0, ix1) <- (if Z.shiftr (wh a) 20 =? 0 then sqrt_normalize fuel (wh a) (wl a) else ret (Z.shiftr (wh a) 20, wh a, wl a));
   let m := m - 1023 in
   let ix0 := Z.lor (Z.land ix0 0x000fffff) 0x00100000 in
   let '(ix0, ix1) := if negb (Z.land m 1 =? 0) then shift_up ix0 ix1 else (ix0, ix1) in
   let m := Z.shiftr m 1 in
   let '(ix0, ix1) := shift_up ix0 ix1 in
   do '(s0, ix0, ix1, q) <- loop sqrt_high_step fuel (0, ix0, ix1, 0, 0x00200000);
   do '(ix0, ix1, q1) <- loop sqrt_low_step fuel (s0, 0, ix0, ix1, 0, 0x80000000);
   do '(q, q1) <- (if negb (Z.lor (u32 ix0) ix1 =? 0) then sqrt_round mode q q1 else ret (q, q1));
   let ix0 := Z.shiftr q 1 + 0x3fe00000 in
   let ix1 := Z.shiftr q1 1 in
   let ix1 := if Z.land q 1 =? 1 then Z.lor ix1 0x80000000 else ix1 in
   do ix0 <- int_ (ix0 + lsl m 20);
   ret (INSERT_WORDS ix0 ix1))%C e = Some (z, e) /\ 0 < z < inf_bits /\ rounded_root mode (mag a * 2 ^ one_log) z.
Proof.
  destruct (sqrt_start e) as (h0 & E0 & Eh). unfold bind at 1. rewrite E0. clear E0. cbv zeta. rewrite Eh. clear Eh h0.
  destruct (norm_sig_spec a a_range) as [Hs Es]. set (s := norm_sig a) in *. set (l := Z.log2 (mag a)) in *.
  assert (0 <= l < 2098) as Hl by (by apply log_mag_range).
  set (m := l - 51 - 1023). rewrite (land_ones_eq m 1 1) by done. change (2 ^ 1) with 2. rewrite Z.shiftr_div_pow2 by lia. change (2 ^ 1) with 2.
  pose proof (Z.div_mod m 2 ltac:(lia)) as Em. pose proof (Z.mod_pos_bound m 2 ltac:(lia)) as Hm. set (h := m / 2) in *. set (b := m mod 2) in *.
  set (w := if b =? 0 then s else 2 * s). assert (2 ^ 52 <= w < 2 ^ 54) as Hw by (subst w; destruct (b =? 0); lia).
  assert ((if negb (b =? 0) then shift_up (wh s) (wl s) else (wh s, wl s)) = (wh w, wl w)) as ->.
  { subst w. destruct (b =? 0); cbn [negb]; [done|]. apply shift_up_spec. lia. }
  rewrite shift_up_spec by lia. set (n := w * 2 ^ 54).
  assert (4 * (mag a * 2 ^ one_log) = n * 2 ^ (h + 1022) * 2 ^ (h + 1022)) as Ev.
  { change one_log with (52 + 1022). assert (w = s * 2 ^ b) as Ew.
    { subst w. destruct (Z.eqb_spec b 0) as [->|]; [lia|]. replace b with 1 by lia. lia. }
    rewrite (Z.pow_add_r 2 52), (Z.mul_assoc (mag a)), <- Es by lia. subst n. rewrite Ew. change 4 with (2 ^ 2).
    rewrite <- !Z.mul_assoc, <- !Z.pow_add_r by lia. rewrite (Z.mul_comm (2 ^ 2)), <- Z.mul_assoc, <- Z.pow_add_r by lia. do 2 f_equal. lia. }
  destruct (sqrt_loops n ltac:(lia) e fuel (2 * w) ltac:(lia) ltac:(lia)) as (s0 & ix0 & ix1 & q & E1 & E2 & Hq0 & Hq).
  unfold bind at 1. rewrite E1. unfold bind at 1. rewrite E2. clear E1 E2 s0 ix0 ix1. assert (2 ^ 53 <= q < 2 ^ 54) as Hqr by nia.
  set (d := 2 * (n - q * q)). assert (0 <= d < 2 ^ 60) as Hd by nia. destruct (words_of d) as [Ed Hdl].
  assert ((Z.lor (u32 (wh d)) (wl d) =? 0) = (n =? q * q)) as ->.
  { rewrite u32_small by lia. destruct (Z.eqb_spec n (q * q)) as [E|E]; [by replace d with 0 by lia|]. apply Z.eqb_neq. rewrite Z.lor_eq_0_iff. lia. }
  assert (exists q', (if negb (n =? q * q) then sqrt_round mode (wh q) (wl q) else ret (wh q, wl q)) e = Some ((wh q', wl q'), e) /\
    q' / 2 = (if n =? q * q then q / 2 else root_half mode q) /\ 2 ^ 53 <= q' <= 2 ^ 54 + 1) as (q' & E & Eq & Hq').
  { destruct (n =? q * q); cbn [negb]; [exists q; split; [done|split; [done|lia]]|]. by apply sqrt_round_spec. }
  unfold bind at 1. rewrite E. rewrite root_words by lia. eexists. split; [reflexivity|]. rewrite Eq. split; [|apply (root_half_spec mode (h + 1022) n q); try done; [lia|]].
  - rewrite <- Eq. change inf_bits with (2047 * 2 ^ 52). assert (2 ^ 52 <= q' / 2 < 2 ^ 53 + 1) by (split; [apply Z.div_le_lower_bound|apply Z.div_lt_upper_bound]; lia). lia.
  - exists (w * 2 ^ 53). lia.
Qed.
End positive.

Section call.
Variable x : Z.
Hypothesis x_float : is_float x.

Lemma exponent_field : Z.land (s32 (HIGH_WORD x)) 0x7ff00000 = fexp x * 2 ^ 20.
Proof.
  rewrite <- high_exponent_mask by done. rewrite Z.shiftr_div_pow2 by lia. set (h := s32 (HIGH_WORD x)).
  change 0x7ff00000 with (Z.shiftl 0x7ff 20). assert (Z.land h (Z.shiftl 0x7ff 20) mod 2 ^ 20 = 0) as Em.
  { rewrite <- Z.land_ones by lia. rewrite <- Z.land_assoc. change (Z.land (Z.shiftl 0x7ff 20) (Z.ones 20)) with 0. apply Z.land_0_r. }
  pose proof (Z.div_mod (Z.land h (Z.shiftl 0x7ff 20)) (2 ^ 20) ltac:(lia)). lia.
Qed.

Lemma words_positive : fsign x = false -> s32 (HIGH_WORD x) = wh x /\ LOW_WORD x = wl x.
Proof. intros Hs. rewrite high_signed, Hs, Z.sub_0_r by done. done. Qed.

Lemma sqrt64_spec (e : Z) :
  is_finite x = true -> 0 < fval x -> (40 < fuel)%nat ->
  exists z, sqrt64 want_errno mode fuel x e = Some (z, e) /\ 0 < z < inf_bits /\ rounded_root mode (fval x * 2 ^ one_log) z.
Proof.
  intros Hx Hv Hf. assert (fsign x = false) as Hs by (unfold fval in Hv; pose proof (mag_nonneg x); destruct (fsign x); [lia|done]).
  destruct (words_positive Hs) as [Eh El]. assert (x = fabs_bits x) as Ea by (rewrite (float_split x x_float) at 1; by rewrite Hs).
  assert (0 < x < inf_bits) as Hr.
  { unfold is_finite in Hx. apply Z.ltb_lt in Hx. rewrite <- Ea in Hx. split; [|done]. destruct x_float as [Hx0 _].
    destruct (Z.eq_dec x 0) as [E0|]; [|lia]. assert (mag x = 0) by (rewrite E0; apply mag_0). unfold fval in Hv. destruct (fsign x); lia. }
  destruct (words_of x) as [Ew Hl]. destruct (wh_range x Hr) as [Hw _]. unfold sqrt64. rewrite exponent_field.
  rewrite finite_exponent in Hx by done. apply Z.ltb_lt in Hx. rewrite (proj2 (Z.eqb_neq (fexp x * 2 ^ 20) _)) by lia. rewrite Eh, El.
  assert ((wh x <=? 0) && (Z.lor (Z.land (u32 (wh x)) (u32 (Z.lnot 0x80000000))) (wl x) =? 0) = false) as ->.
  { destruct (Z.leb_spec (wh x) 0); [|done]. replace (wh x) with 0 by lia. cbn [andb]. change (Z.land (u32 0) _) with 0. rewrite Z.lor_0_l. apply Z.eqb_neq. lia. }
  rewrite (proj2 (Z.ltb_ge (wh x) 0)), andb_false_r by lia. unfold fval. rewrite Hs. apply sqrt_positive; done.
Qed.

(** Zeros, infinity and NaNs; a negative number is a domain error. *)
Lemma sqrt64_special (e : Z) :
  (is_nan x = true -> sqrt64 want_errno mode fuel x e = Some (nan_of x x, e)) /\
  (fval x = 0 \/ (is_inf x = true /\ fsign x = false) -> sqrt64 want_errno mode fuel x e = Some (x, e)) /\
  (is_nan x = false -> fval x < 0 -> sqrt64 want_errno mode fuel x e = Some (nan_invalid, if want_errno then EDOM else e)).
Proof.
  unfold sqrt64. rewrite exponent_field, high_sign by done.
  assert ((fexp x * 2 ^ 20 =? 0x7ff00000) = negb (is_finite x)) as ->.
  { rewrite finite_exponent by done. pose proof (fexp_range x) as Hr. change (2 ^ ebits) with 2048 in Hr. destruct (Z.ltb_spec (fexp x) 2047); [apply Z.eqb_neq|apply Z.eqb_eq]; lia. }
  unfold __math_invalid. rewrite isnan64_spec by done. split_and!.
  - intros Hn. rewrite Hn. assert (is_finite x = false) as Hx by (destruct (is_finite x) eqn:E; [by destruct (finite_other x E); congruence|done]).
    rewrite Hx. cbn [negb]. rewrite andb_false_r, fadd_special, Hn by done. done.
  - intros [H0|[Hi Hs]].
    + rewrite fval_abs in H0. assert (fabs_bits x = 0) as Ea by (apply mag_zero; [apply fabs_range|destruct (fsign x); lia]).
      rewrite (float_split x x_float), Ea. destruct (fsign x); reflexivity.
    + assert (is_finite x = false) as Hx by (destruct (is_finite x) eqn:E; [by destruct (finite_other x E); congruence|done]).
      rewrite Hx, Hs. cbn [negb andb]. rewrite fadd_special by done. assert (is_nan x = false) as ->; [|done].
      unfold is_nan, is_inf in *. apply Z.eqb_eq in Hi. apply Z.ltb_ge. lia.
  - intros Hn Hv. rewrite Hn. assert (fsign x = true) as Hs by (unfold fval in Hv; pose proof (mag_nonneg x); destruct (fsign x); [done|lia]).
    rewrite Hs. destruct (is_finite x); cbn [negb andb]; [|done].
    assert ((Z.lor (Z.land (u32 (s32 (HIGH_WORD x))) (u32 (Z.lnot 0x80000000))) (LOW_WORD x) =? 0) = false) as ->.
    { change (u32 (Z.lnot 0x80000000)) with 0x7fffffff. rewrite (land_ones_eq _ _ 31) by done. rewrite u32_s32. unfold HIGH_WORD at 1. rewrite u32_u32. fold (HIGH_WORD x).
      apply Z.eqb_neq. rewrite Z.lor_eq_0_iff. intros [E1 E2]. assert (fabs_bits x = 0) as E0 by (rewrite abs_words, E1, E2 by done; done).
      rewrite fval_abs, E0, mag_0 in Hv. destruct (fsign x); lia. }
    pose proof (high_sign x x_float) as Hh. rewrite Hs in Hh. apply Z.ltb_lt in Hh. rewrite (proj2 (Z.leb_le _ _)) by lia. done.
Qed.
End call.
End sqrt.
