(* ===== verification/LibmScale.v ===== *)
(** * Exponents: scalbn, frexp, ilogb

    scalbn multiplies by a power of two with one rounding; frexp and ilogb take the
    exponent apart. *)

From stdpp Require Import base list.
From Stdlib Require Import ZArith Lia.
From S2P Require Import Prelude CMem Float Libm LibmRound LibmFmod LibmSqrt.

Local Open Scope Z_scope.

(** The float for [s * 2 ^ m] units, [s] having 53 bits. *)
Definition scale_round (mode : rmode) (neg : bool) (s m : Z) : Z := fround mode neg (s * 2 ^ Z.max 0 m) (Z.max 0 (- m)).

Section scaling.
Context `{NanRules}.
Variables (want_errno : bool) (mode : rmode).

Lemma oflow_value neg : fmul mode (if neg : bool then fneg _FLOAT64_MAX else _FLOAT64_MAX) _FLOAT64_MAX = with_sign neg (overflow_bits mode neg).
Proof. by destruct mode, neg; vm_compute. Qed.

Lemma uflow_value neg : fmul mode (if neg : bool then fneg _FLOAT64_MIN else _FLOAT64_MIN) _FLOAT64_MIN =
  with_sign neg (match mode, neg with Upward, false | Downward, true => 1 | _, _ => 0 end).
Proof. by destruct mode, neg; vm_compute. Qed.

Section significand.
Variables (neg : bool) (s : Z).
Hypothesis s_range : 2 ^ 52 <= s < 2 ^ 53.

Lemma s_log : Z.log2 s = 52.
Proof. apply Z.log2_unique; [lia|]. change (Z.succ 52) with 53. lia. Qed.

Lemma scale_exact m : 0 <= m <= 2045 -> scale_round mode neg s m = with_sign neg (m * 2 ^ 52 + s) /\ 0 < m * 2 ^ 52 + s < inf_bits.
Proof.
  intros Hm. assert (0 < m * 2 ^ 52 + s < inf_bits) as Hr by (change inf_bits with (2047 * 2 ^ 52); lia). split; [|done].
  unfold scale_round. rewrite Z.max_r, Z.max_l by lia. assert (s * 2 ^ m = mag (m * 2 ^ 52 + s)) as ->.
  { change (2 ^ 52) with (2 ^ mbits). symmetry. apply mag_encode; [lia| |right|]; change (2 ^ sbit) with (2 ^ 63); change (2 ^ mbits) with (2 ^ 52); lia. }
  rewrite <- (Z.mul_1_r (mag _)). change 1 with (2 ^ 0). apply fround_exact; lia.
Qed.

Lemma scale_over m : 2045 < m -> scale_round mode neg s m = with_sign neg (overflow_bits mode neg).
Proof.
  intros Hm. unfold scale_round. rewrite Z.max_r, Z.max_l by lia. unfold fround. rewrite Z.log2_mul_pow2, s_log by lia.
  change mbits with 52. rewrite Z.max_r by lia. replace (0 + (m + 52 - 0 - 52)) with m by lia. assert (0 < 2 ^ m) by (apply Z.pow_pos_nonneg; lia).
  rewrite Z.div_mul by lia. replace (m + 52 - 0 - 52) with m by lia. rewrite (proj2 (Z.leb_le _ _)); [done|]. change inf_bits with (2047 * 2 ^ 52). destruct (round_away _ _ _ _ _); lia.
Qed.

Lemma scale_under m : m <= -55 ->
  scale_round mode neg s m = with_sign neg (match mode, neg with Upward, false | Downward, true => 1 | _, _ => 0 end).
Proof.
  intros Hm. unfold scale_round. rewrite Z.max_l, Z.max_r, Z.mul_1_r by lia. unfold fround. rewrite s_log. change mbits with 52. rewrite Z.max_l, Z.add_0_r, Z.mul_0_l by lia.
  assert (2 ^ 55 <= 2 ^ (- m)) by (apply Z.pow_le_mono_r; lia). rewrite Z.div_small, Z.mod_small by lia.
  assert (forall b, 0 <= b <= 1 -> (inf_bits <=? b) = false) as Hi by (intros b Hb; apply Z.leb_gt; change inf_bits with (2047 * 2 ^ 52); lia).
  assert (round_away mode neg 0 s (- m) = match mode, neg with Upward, false | Downward, true => true | _, _ => false end) as ->.
  { unfold round_away. rewrite (proj2 (Z.ltb_lt 0 s)) by lia. rewrite (proj2 (Z.ltb_ge _ _)), (proj2 (Z.eqb_neq _ _)) by lia. by destruct mode, neg. }
  destruct mode, neg; rewrite Hi by lia; done.
Qed.

(** A subnormal result has no large pattern. *)
Lemma scale_sub m : -54 <= m < 0 ->
  exists b, scale_round mode neg s m = with_sign neg b /\ 0 <= b <= 2 ^ 52 /\
    fmul mode (with_sign neg ((m + 54) * 2 ^ 52 + s)) twom54 = with_sign neg b.
Proof.
  intros Hm. unfold scale_round. rewrite Z.max_l, Z.max_r, Z.mul_1_r by lia.
  destruct (scale_exact (m + 54) ltac:(lia)) as [_ Hr]. set (b := (m + 54) * 2 ^ 52 + s) in *. pose proof inf_range.
  assert (0 <= b < 2 ^ sbit) as Hb by lia. destruct (with_sign_parts neg b Hb) as [Es Ea].
  assert (fmul mode (with_sign neg b) twom54 = fround mode neg s (- m)) as ->.
  { unfold fmul. assert (is_finite (with_sign neg b) = true) as Hf by (unfold is_finite; rewrite Ea; apply Z.ltb_lt; lia). destruct (finite_other _ Hf) as [-> ->].
    change (is_nan twom54) with false. change (is_inf twom54) with false. cbn [orb]. rewrite Es. change (fsign twom54) with false. rewrite xorb_false_r.
    rewrite <- mag_abs, Ea. subst b. change (mag twom54) with (2 ^ 1020). change (2 ^ 52) with (2 ^ mbits).
    rewrite mag_encode; [|lia| |right|]; change (2 ^ sbit) with (2 ^ 63) in *; change (2 ^ mbits) with (2 ^ 52) in *; [|lia..].
    rewrite <- Z.mul_assoc, <- Z.pow_add_r by lia. change one_log with 1074. replace 1074 with (- m + (m + 54 + 1020)) by lia. apply fround_shift; lia. }
  unfold fround. rewrite s_log. change mbits with 52. rewrite Z.max_l, Z.add_0_r, Z.mul_0_l, Z.add_0_l by lia.
  assert (2 ^ 1 <= 2 ^ (- m)) by (apply Z.pow_le_mono_r; lia). assert (0 <= s / 2 ^ (- m) < 2 ^ 52) as Hq.
  { split; [apply Z.div_pos; lia|]. apply Z.div_lt_upper_bound; [lia|]. change (2 ^ 1) with 2 in *. nia. }
  set (r := if round_away _ _ _ _ _ then _ else _). assert (0 <= r <= 2 ^ 52) as Hr' by (subst r; destruct (round_away _ _ _ _ _); lia).
  rewrite (proj2 (Z.leb_gt _ _)) by (change inf_bits with (2047 * 2 ^ 52); lia). exists r. done.
Qed.
End significand.

(** ** The fields *)

(** The number with another exponent field. *)
Lemma set_exponent x k : is_float x -> 0 <= k < 2048 ->
  SET_HIGH_WORD x (Z.lor (Z.land (u32 (s32 (HIGH_WORD x))) 0x800fffff) (Z.shiftl k 20)) = with_sign (fsign x) (k * 2 ^ 52 + fman x).
Proof.
  intros Hx Hk. change 0x800fffff with (Z.lor 0x80000000 (2 ^ 20 - 1)). rewrite Z.land_lor_distr_r, sign_word, (land_ones_eq _ _ 20) by done.
  rewrite u32_s32. destruct (HIGH_WORD_eq x Hx) as [Eh Hh]. rewrite Eh, u32_small by done. rewrite Z.shiftl_mul_pow2 by lia. set (h := x / 2 ^ 32) in *.
  pose proof (Z.mod_pos_bound h (2 ^ 20) ltac:(lia)) as Hm. pose proof (u32_range x) as Hl. fold (LOW_WORD x) in Hl.
  assert (fman x = h mod 2 ^ 20 * 2 ^ 32 + LOW_WORD x) as ->.
  { unfold fman, LOW_WORD, u32, uwrap. change mbits with (32 + 20). rewrite Z.pow_add_r, Z.rem_mul_r by lia. subst h. lia. }
  set (f := h mod 2 ^ 20) in *. unfold SET_HIGH_WORD. rewrite INSERT_WORDS_eq. unfold LOW_WORD at 1. rewrite u32_u32. fold (LOW_WORD x). unfold with_sign. change (2 ^ sbit) with (2 ^ 63).
  assert (Z.lor f (k * 2 ^ 20) = k * 2 ^ 20 + f) as E by (rewrite Z.lor_comm, (lor_low 20) by (lia || by apply Z.mod_mul; lia); done).
  rewrite <- Z.lor_assoc, E. destruct (fsign x).
  - rewrite (lor_low 31) by (done || lia). rewrite u32_small by lia. lia.
  - rewrite Z.lor_0_l, u32_small by lia. lia.
Qed.

(** The fields of a normal pattern. *)
Lemma normal_fields neg m s : 0 <= m <= 2045 -> 2 ^ 52 <= s < 2 ^ 53 ->
  let x := with_sign neg (m * 2 ^ 52 + s) in
  is_float x /\ is_finite x = true /\ fsign x = neg /\ fexp x = m + 1 /\ fman x = s - 2 ^ 52.
Proof.
  intros Hm Hs x. assert (0 <= m * 2 ^ 52 + s < 2 ^ sbit) as Hr by (change (2 ^ sbit) with (2 ^ 63); lia). destruct (with_sign_parts neg _ Hr) as [E1 E2].
  split_and!; [by apply with_sign_float| |done| |].
  - unfold is_finite. subst x. rewrite E2. apply Z.ltb_lt. change inf_bits with (2047 * 2 ^ 52). lia.
  - rewrite <- fexp_abs. subst x. rewrite E2. unfold fexp. change mbits with 52. change ebits with 11.
    assert ((m * 2 ^ 52 + s) / 2 ^ 52 = m + 1) as -> by (symmetry; apply Z.div_unique with (r := s - 2 ^ 52); lia). apply Z.mod_small. lia.
  - rewrite <- fman_abs. subst x. rewrite E2. unfold fman. change mbits with 52. symmetry. apply Z.mod_unique with (q := m + 1); lia.
Qed.

(** A number is its normalized significand and the logarithm. *)
Lemma normal_form x : is_float x -> is_finite x = true -> 2 ^ 52 <= fabs_bits x ->
  let a := fabs_bits x in fexp x = Z.log2 (mag x) - 51 /\ fman x + 2 ^ 52 = norm_sig a /\ 1 <= fexp x <= 2046.
Proof.
  intros Hx Hf Ha a. assert (0 < a < inf_bits) as Hr by (unfold is_finite in Hf; apply Z.ltb_lt in Hf; subst a; lia).
  rewrite <- (mag_abs x), <- (fexp_abs x), <- (fman_abs x). fold a. destruct (normal_split a Hr Ha) as (_ & He & Hs & _). rewrite normal_log by done.
  unfold norm_sig. rewrite (proj2 (Z.ltb_ge _ _)) by done. split_and!; [lia| |lia|].
  - unfold fsig. rewrite (proj2 (Z.eqb_neq _ 0)) by lia. change mbits with 52. lia.
  - subst a. rewrite fexp_abs. rewrite finite_exponent in Hf by done. apply Z.ltb_lt in Hf. lia.
Qed.

(** A subnormal number times 2 to the 54. *)
Lemma subnormal_up x : is_float x -> 0 < fabs_bits x < 2 ^ 52 -> let a := fabs_bits x in
  fmul mode x two54 = with_sign (fsign x) ((Z.log2 (mag x) + 2) * 2 ^ 52 + norm_sig a) /\ 0 <= Z.log2 (mag x) <= 51.
Proof.
  intros Hx Ha a. assert (0 < a < inf_bits) as Hr by (change inf_bits with (2047 * 2 ^ 52); subst a; lia).
  assert (is_finite x = true) as Hf by (unfold is_finite; apply Z.ltb_lt; apply Hr). destruct (finite_other x Hf) as [Hn Hi].
  destruct (norm_sig_spec a Hr) as [Hs Es]. rewrite <- (mag_abs x). fold a. set (l := Z.log2 (mag a)) in *. assert (0 <= l <= 51) as Hl.
  { split; [apply Z.log2_nonneg|]. subst l. rewrite subnormal_mag by lia. assert (Z.log2 a < 52); [|lia]. apply Z.log2_lt_pow2; lia. }
  split; [|done]. unfold fmul. rewrite Hn, Hi. change (is_nan two54) with false. change (is_inf two54) with false. cbn [orb]. change (fsign two54) with false.
  rewrite xorb_false_r, <- (mag_abs x). fold a. change (mag two54) with (2 ^ (54 + one_log)). rewrite Z.pow_add_r, Z.mul_assoc by (by vm_compute).
  assert (mag a * 2 ^ 54 = mag ((l + 2) * 2 ^ 52 + norm_sig a)) as ->.
  { change (2 ^ 52) with (2 ^ mbits). rewrite mag_encode; [|lia| |right|]; change (2 ^ sbit) with (2 ^ 63) in *; change (2 ^ mbits) with (2 ^ 52) in *; [|lia..].
    rewrite (Z.pow_add_r 2 l) by lia. change (2 ^ 54) with (2 ^ 52 * 2 ^ 2). lia. }
  apply fround_exact; [change inf_bits with (2047 * 2 ^ 52); lia|by vm_compute].
Qed.

(** ** scalbn *)

(** errno after the number [s * 2 ^ m] was rounded to [r]. *)
Definition range_errno (m r e : Z) : Z :=
  if want_errno && ((2045 <? m) || (m <=? -55) || (mag r =? 0)) then ERANGE else e.

Lemma feq_zero neg b : 0 <= b < inf_bits -> feq (with_sign neg b) 0 = (mag (with_sign neg b) =? 0).
Proof.
  intros Hb. pose proof inf_range. assert (0 <= b < 2 ^ sbit) as Hb' by lia. destruct (with_sign_parts neg b Hb') as [Es Ea]. unfold feq.
  assert (is_nan (with_sign neg b) = false) as -> by (unfold is_nan; rewrite Ea; apply Z.ltb_ge; lia). change (is_nan 0) with false. change (fval 0) with 0. cbn [orb negb andb].
  unfold fval. rewrite Es. destruct neg; [|done]. destruct (Z.eqb_spec (mag (with_sign true b)) 0); [apply Z.eqb_eq|apply Z.eqb_neq]; lia.
Qed.

Lemma scalbn_finish_spec x neg s k n (e : Z) :
  is_float x -> fsign x = neg -> fman x + 2 ^ 52 = s -> 2 ^ 52 <= s < 2 ^ 53 -> -60 <= k <= 2046 -> - 2 ^ 31 <= n < 2 ^ 31 -> (k <= 0 -> -50000 <= n) ->
  let r := scale_round mode neg s (k + n - 1) in
  scalbn_finish want_errno mode x (s32 (HIGH_WORD x)) k n e = Some (r, range_errno (k + n - 1) r e).
Proof.
  intros Hx Hneg Hman Hs Hk Hn Hsub r. set (m := k + n - 1) in *. unfold scalbn_finish. rewrite (proj2 (Z.eqb_neq k 0x7ff)) by lia. rewrite high_sign, Hneg by done.
  assert (forall q, m = q -> 2045 < q -> __math_oflow want_errno mode neg e = Some (r, range_errno m r e)) as Hover.
  { intros q -> Hq. unfold __math_oflow, __math_with_errno. rewrite oflow_value. subst r. rewrite scale_over by done. unfold range_errno.
    rewrite (proj2 (Z.ltb_lt _ _)) by done. cbn [orb]. by rewrite andb_true_r. }
  destruct (Z.ltb_spec 50000 n); [by apply (Hover m); lia|]. unfold bind. rewrite int_ok by lia. replace (k + n) with (m + 1) by lia.
  destruct (Z.ltb_spec 0x7fe (m + 1)); [by apply (Hover m); lia|]. assert (with_sign neg ((m + 1) * 2 ^ 52 + fman x) = with_sign neg (m * 2 ^ 52 + s)) as Ep by (f_equal; lia).
  unfold range_errno. rewrite (proj2 (Z.ltb_ge 2045 m)) by lia. cbn [orb]. destruct (Z.ltb_spec 0 (m + 1)); [|destruct (Z.leb_spec (m + 1) (-54))].
  - rewrite set_exponent, Hneg, Ep by (done || lia). subst r. destruct (scale_exact neg s Hs m ltac:(lia)) as [-> Hr]. rewrite (proj2 (Z.leb_gt m _)) by lia. pose proof inf_range.
    assert ((mag (with_sign neg (m * 2 ^ 52 + s)) =? 0) = false) as ->; [|by rewrite andb_false_r]. apply Z.eqb_neq. rewrite <- mag_abs. destruct (with_sign_parts neg (m * 2 ^ 52 + s)) as [_ ->]; [lia|].
    intros Ez. apply mag_zero in Ez; lia.
  - unfold __math_uflow, __math_with_errno. rewrite uflow_value. subst r. rewrite scale_under by lia. rewrite (proj2 (Z.leb_le m _)) by lia. cbn [orb]. by rewrite andb_true_r.
  - rewrite set_exponent, Hneg by (done || lia). replace ((m + 1 + 54) * 2 ^ 52 + fman x) with ((m + 54) * 2 ^ 52 + s) by lia. subst r.
    destruct (scale_sub neg s Hs m ltac:(lia)) as (b & -> & Hb & ->). rewrite (proj2 (Z.leb_gt m _)) by lia. cbn [orb]. unfold check_uflow, __math_check_uflow, __math_with_errno.
    rewrite feq_zero by (change inf_bits with (2047 * 2 ^ 52); lia). unfold ret. destruct want_errno; [|done]. cbn [andb]. by destruct (mag _ =? 0).
Qed.

(** The product, rounded once. *)
Definition scaled (x n : Z) : Z := fround mode (fsign x) (mag x * 2 ^ Z.max 0 n) (Z.max 0 (- n)).

Section call.
Variable x : Z.
Hypothesis x_float : is_float x.
Hypothesis x_finite : is_finite x = true.
Hypothesis x_nonzero : fval x <> 0.

Lemma x_abs_range : 0 < fabs_bits x < inf_bits.
Proof.
  pose proof x_finite as Hf. unfold is_finite in Hf. apply Z.ltb_lt in Hf. split; [|done]. pose proof (fabs_range x). destruct (Z.eq_dec (fabs_bits x) 0) as [E|]; [|lia].
  exfalso. apply x_nonzero. rewrite fval_abs, E, mag_0. by destruct (fsign x).
Qed.

Lemma scaled_eq n : scale_round mode (fsign x) (norm_sig (fabs_bits x)) (Z.log2 (mag x) + n - 52) = scaled x n.
Proof.
  destruct (norm_sig_spec _ x_abs_range) as [Hs Es]. rewrite mag_abs in Es. pose proof (Z.log2_nonneg (mag x)) as Hl. set (l := Z.log2 (mag x)) in *. set (s := norm_sig _) in *.
  assert (0 < mag x) as Hm by (assert (0 < 2 ^ l) by (apply Z.pow_pos_nonneg; lia); nia).
  unfold scale_round, scaled. set (m := l + n - 52). assert (0 < 2 ^ Z.max 0 m) by (apply Z.pow_pos_nonneg; lia). assert (0 < 2 ^ Z.max 0 n) by (apply Z.pow_pos_nonneg; lia).
  apply fround_ratio; [nia|nia|lia|lia|]. apply (Z.mul_cancel_r _ _ (2 ^ 52)); [lia|].
  replace (mag x * 2 ^ Z.max 0 n * 2 ^ Z.max 0 (- m) * 2 ^ 52) with (mag x * 2 ^ 52 * 2 ^ Z.max 0 n * 2 ^ Z.max 0 (- m)) by lia. rewrite <- Es.
  rewrite <- !Z.mul_assoc, <- !Z.pow_add_r by lia. do 2 f_equal. lia.
Qed.

Lemma scalbn64_spec n (e : Z) : - 2 ^ 31 <= n < 2 ^ 31 ->
  scalbn64 want_errno mode x n e = Some (scaled x n, range_errno (Z.log2 (mag x) + n - 52) (scaled x n) e).
Proof.
  intros Hn. rewrite <- scaled_eq. pose proof x_abs_range as Ha. destruct (norm_sig_spec _ Ha) as [Hs _]. unfold scalbn64. rewrite high_exponent_mask by done.
  destruct (Z.lt_ge_cases (fabs_bits x) (2 ^ 52)) as [Hsub|Hnorm].
  - assert (fexp x = 0) as -> by (rewrite <- fexp_abs; unfold fexp; change mbits with 52; rewrite Z.div_small by lia; done). cbn [Z.eqb].
    rewrite Z.lor_comm, zero_words, (proj2 (Z.eqb_neq _ 0)) by (done || lia). destruct (subnormal_up x x_float ltac:(lia)) as [-> Hl].
    destruct (normal_fields (fsign x) (Z.log2 (mag x) + 2) (norm_sig (fabs_bits x))) as (Hf & _ & Hsg & He & Hm); [lia|done|]. set (y := with_sign _ _) in *.
    rewrite high_sign, high_exponent_mask, He, Hsg by done. destruct (Z.ltb_spec n (-50000)).
    + unfold __math_uflow, __math_with_errno. rewrite uflow_value. rewrite scale_under by (done || lia). unfold range_errno. rewrite (proj2 (Z.leb_le _ (-55))) by lia.
      rewrite orb_true_r. cbn [orb]. by rewrite andb_true_r.
    + rewrite (scalbn_finish_spec y (fsign x) (norm_sig (fabs_bits x))) by (done || lia). replace (Z.log2 (mag x) + 2 + 1 - 54 + n - 1) with (Z.log2 (mag x) + n - 52) by lia. done.
  - destruct (normal_form x x_float x_finite Hnorm) as (He & Hm & Hr). rewrite (proj2 (Z.eqb_neq _ 0)) by lia.
    rewrite (scalbn_finish_spec x (fsign x) (norm_sig (fabs_bits x))) by (done || lia). rewrite He. replace (Z.log2 (mag x) - 51 + n - 1) with (Z.log2 (mag x) + n - 52) by lia. done.
Qed.

(** ** frexp and ilogb *)

Lemma abs_high y : is_float y -> Z.land (s32 (HIGH_WORD y)) 0x7fffffff = wh (fabs_bits y).
Proof. intros Hy. rewrite land_abs_high by done. apply (abs_pair y Hy). Qed.

Lemma frexp64_eq : frexp64 mode x = (with_sign (fsign x) (1021 * 2 ^ 52 + norm_sig (fabs_bits x)), Z.log2 (mag x) - 1073).
Proof.
  pose proof x_abs_range as Ha. destruct (norm_sig_spec _ Ha) as [Hs _]. unfold frexp64. rewrite (Z.land_comm 0x7fffffff).
  pose proof (zero_words x x_float) as Ez. rewrite Ez, (proj2 (Z.eqb_neq (fabs_bits x) 0)), orb_false_r by lia. rewrite abs_high by done.
  destruct (wh_range _ Ha) as [Hw He]. destruct (words_of (fabs_bits x)) as [Ew Hwl]. pose proof (a_bound _ Ha). rewrite (proj2 (Z.leb_gt _ _)) by lia.
  assert (forall y, is_float y -> SET_HIGH_WORD y (s32 (Z.lor (Z.land (u32 (s32 (HIGH_WORD y))) 0x800fffff) 0x3fe00000)) = with_sign (fsign y) (1022 * 2 ^ 52 + fman y)) as Hset.
  { intros y Hy. unfold SET_HIGH_WORD. rewrite INSERT_s32. change 0x3fe00000 with (Z.shiftl 1022 20). apply set_exponent; [done|lia]. }
  destruct (Z.ltb_spec (wh (fabs_bits x)) 0x00100000).
  - destruct (subnormal_up x x_float ltac:(lia)) as [-> Hl].
    destruct (normal_fields (fsign x) (Z.log2 (mag x) + 2) (norm_sig (fabs_bits x))) as (Hf & Hfin & Hsg & Hee & Hm); [lia|done|]. set (y := with_sign _ (_ * _ + _)) in *.
    rewrite Hset, Hsg, Hm, abs_high by done. f_equal; [f_equal; lia|]. rewrite Z.shiftr_div_pow2 by lia.
    assert (0 < fabs_bits y < inf_bits) as Hy.
    { split; [|unfold is_finite in Hfin; by apply Z.ltb_lt in Hfin]. pose proof (fabs_range y). destruct (Z.eq_dec (fabs_bits y) 0) as [E|]; [|lia].
      rewrite <- fexp_abs, E in Hee. change (fexp 0) with 0 in Hee. lia. }
    destruct (wh_range _ Hy) as [_ ->]. rewrite fexp_abs, Hee. lia.
  - destruct (normal_form x x_float x_finite ltac:(lia)) as (Hee & Hm & Hr). rewrite Hset by done. rewrite Z.shiftr_div_pow2, He, fexp_abs, Hee by lia.
    f_equal; [f_equal; lia|lia].
Qed.

(** The fraction is at least a half and below one. *)
Lemma frexp64_spec :
  let '(f, n) := frexp64 mode x in
  is_float f /\ is_finite f = true /\ fsign f = fsign x /\ 2 ^ (one_log - 1) <= mag f < 2 ^ one_log /\ n = Z.log2 (mag x) - 1073 /\
  mag f * 2 ^ Z.max 0 n = mag x * 2 ^ Z.max 0 (- n).
Proof.
  rewrite frexp64_eq. pose proof x_abs_range as Ha. destruct (norm_sig_spec _ Ha) as [Hs Es]. rewrite mag_abs in Es.
  destruct (normal_fields (fsign x) 1021 (norm_sig (fabs_bits x)) ltac:(lia) Hs) as (Hf & Hfin & Hsg & _ & _).
  assert (mag (with_sign (fsign x) (1021 * 2 ^ 52 + norm_sig (fabs_bits x))) = norm_sig (fabs_bits x) * 2 ^ 1021) as Em.
  { destruct (with_sign_parts (fsign x) (1021 * 2 ^ 52 + norm_sig (fabs_bits x))) as [_ Eb]; [change (2 ^ sbit) with (2 ^ 63); lia|]. rewrite <- mag_abs, Eb.
    change (2 ^ 52) with (2 ^ mbits). apply mag_encode; [lia| |right|]; change (2 ^ sbit) with (2 ^ 63); change (2 ^ mbits) with (2 ^ 52); lia. }
  split_and!; try done; rewrite Em.
  - change (one_log - 1) with (52 + 1021). rewrite Z.pow_add_r by lia. apply Z.mul_le_mono_nonneg_r; lia.
  - change one_log with (53 + 1021). rewrite Z.pow_add_r by lia. apply Z.mul_lt_mono_pos_r; lia.
  - pose proof (Z.log2_nonneg (mag x)). set (l := Z.log2 (mag x)) in *. set (s := norm_sig _) in *. apply (Z.mul_cancel_r _ _ (2 ^ 52)); [lia|].
    rewrite <- (Z.mul_assoc (mag x)), (Z.mul_comm (2 ^ Z.max 0 (- (l - 1073)))), (Z.mul_assoc (mag x)), <- Es. rewrite <- !Z.mul_assoc, <- !Z.pow_add_r by lia. do 2 f_equal. lia.
Qed.

Lemma ilogb64_spec fuel (e : Z) : (32 < fuel)%nat -> ilogb64 want_errno mode fuel x e = Some (Z.log2 (mag x) - 1074, e).
Proof.
  intros Hf. pose proof x_abs_range as Ha. rewrite <- (mag_abs x). rewrite <- (word_log_spec _ Ha fuel e Hf). unfold ilogb64, word_log.
  pose proof (zero_words x x_float) as Ez. rewrite Ez, (proj2 (Z.eqb_neq (fabs_bits x) 0)) by lia. rewrite abs_high by done. destruct (abs_pair x x_float) as [_ ->].
  destruct (wh_range _ Ha) as [Hw _]. destruct (words_of (fabs_bits x)) as [Ew Hwl]. pose proof (a_bound _ Ha). rewrite (proj2 (Z.ltb_lt (wh (fabs_bits x)) 0x7ff00000)) by lia.
  destruct (_ <? _); done.
Qed.
End call.

(** scalbn puts together what frexp took apart. *)
Lemma scalbn_frexp x (e : Z) : is_float x -> is_finite x = true -> fval x <> 0 ->
  let '(f, n) := frexp64 mode x in scalbn64 want_errno mode f n e = Some (x, e).
Proof.
  intros Hx Hf Hv. pose proof (frexp64_spec x Hx Hf Hv) as Hfr. destruct (frexp64 mode x) as [f n]. destruct Hfr as (Hff & Hffin & Hs & [Hlo Hhi] & En & Em).
  pose proof (log_mag_range _ (x_abs_range x Hf Hv)) as Hl. rewrite mag_abs in Hl. assert (0 < 2 ^ (one_log - 1)) by (by vm_compute). assert (Z.log2 (mag f) = 1073) as Elf.
  { change 1073 with (one_log - 1). apply Z.log2_unique; [by vm_compute|]. replace (Z.succ (one_log - 1)) with one_log by lia. done. }
  assert (scaled f n = x) as Es.
  { unfold scaled. rewrite Em, Hs, <- (mag_abs x), fround_exact; [by rewrite <- float_split| |lia]. pose proof (x_abs_range x Hf Hv). lia. }
  rewrite scalbn64_spec, Es, Elf by (done || lia || (unfold fval; destruct (fsign f); lia)). unfold range_errno.
  rewrite (proj2 (Z.ltb_ge 2045 _)), (proj2 (Z.leb_gt _ (-55))) by lia. rewrite (proj2 (Z.eqb_neq (mag x) 0)) by (unfold fval in Hv; destruct (fsign x); lia). by rewrite andb_false_r.
Qed.

(** Zeros, infinities and NaNs. *)
Lemma scale_special x n fuel (e : Z) : is_float x -> (is_finite x = true -> fval x = 0) ->
  let r := if is_nan x then nan_of x x else x in
  scalbn64 want_errno mode x n e = Some (r, e) /\ frexp64 mode x = (r, 0) /\
  ilogb64 want_errno mode fuel x e = Some (if is_finite x then FP_ILOGB0 else INT_MAX, if want_errno then EDOM else e).
Proof.
  intros Hx Hz r. destruct (is_finite x) eqn:Hf.
  - assert (fabs_bits x = 0) as Ea by (specialize (Hz eq_refl); rewrite fval_abs in Hz; apply mag_zero; [apply fabs_range|destruct (fsign x); lia]).
    subst r. rewrite (float_split x Hx), Ea. destruct (fsign x); done.
  - unfold scalbn64, frexp64, ilogb64, scalbn_finish. rewrite high_exponent_mask, (special_exponent x Hf) by done. rewrite (Z.land_comm 0x7fffffff), abs_high by done.
    assert (0x7ff00000 <= wh (fabs_bits x)) as Hw by (unfold is_finite in Hf; apply Z.ltb_ge in Hf; change inf_bits with (0x7ff00000 * 2 ^ 32) in Hf; unfold wh; apply Z.div_le_lower_bound; lia).
    rewrite (proj2 (Z.leb_le _ _)) by done. rewrite (proj2 (Z.ltb_ge _ 0x00100000)), (proj2 (Z.ltb_ge _ 0x7ff00000)) by lia. rewrite (fadd_special x mode Hf).
    split_and!; [done|done|]. unfold bind, __math_invalid. change (isnan64 0) with 0. done.
Qed.
End scaling.
