(* ===== verification/LibmNext.v ===== *)
(** * nextafter

    The next float in the direction of another one: the words are counted up or
    down as one number. *)

From stdpp Require Import base list.
From Stdlib Require Import ZArith Lia.
From S2P Require Import Prelude CMem Float Libm LibmRound LibmFmod LibmSqrt LibmScale.

Local Open Scope Z_scope.

(** [r] is the float next to [x] on the way to [y]. *)
Definition next_toward (x y r : Z) : Prop :=
  is_float r /\ is_nan r = false /\
  (fval x < fval y -> fval x < fval r <= fval y /\ forall z, is_float z -> is_nan z = false -> fval x < fval z -> fval r <= fval z) /\
  (fval y < fval x -> fval y <= fval r < fval x /\ forall z, is_float z -> is_nan z = false -> fval z < fval x -> fval z <= fval r).

(** ** The words as one signed number *)

Definition key (x : Z) : Z := if fsign x then fabs_bits x - 2 ^ 63 else fabs_bits x.

Lemma key_words x : is_float x -> s32 (HIGH_WORD x) = wh (key x) /\ LOW_WORD x = wl (key x).
Proof.
  intros Hx. pose proof (float_split x Hx) as E. pose proof (words_eq x) as Ew. pose proof (u32_range x) as Hl. fold (LOW_WORD x) in Hl. pose proof (high_signed x Hx) as Hh.
  destruct (words_unique (key x) (s32 (HIGH_WORD x)) (LOW_WORD x)) as [-> ->]; [|done|done].
  unfold key, with_sign in *. change (2 ^ sbit) with (2 ^ 63) in *. rewrite Hh. destruct (fsign x); lia.
Qed.

Lemma insert_key neg a : 0 <= a < 2 ^ 63 ->
  INSERT_WORDS (wh (if neg : bool then a - 2 ^ 63 else a)) (wl (if neg then a - 2 ^ 63 else a)) = with_sign neg a.
Proof.
  intros Ha. set (k := if neg then _ else _). destruct (words_of k) as [E Hl]. rewrite INSERT_WORDS_eq, (u32_small (wl k)) by done.
  unfold with_sign. change (2 ^ sbit) with (2 ^ 63). subst k. destruct neg; cbn in E |- *.
  - unfold u32, uwrap. rewrite <- (Z.mod_add _ 1) by lia. rewrite Z.mod_small by lia. lia.
  - rewrite u32_small by lia. lia.
Qed.

Lemma words_down_spec k (e : Z) : - 2 ^ 63 < k < 2 ^ 63 -> words_down (wh k) (wl k) e = Some ((wh (k - 1), wl (k - 1)), e).
Proof.
  intros Hk. destruct (words_of k) as [E Hl]. unfold words_down, bind. destruct (Z.eqb_spec (wl k) 0) as [E0|E0].
  - rewrite int_ok by lia. destruct (words_unique (k - 1) (wh k - 1) (2 ^ 32 - 1)) as [-> ->]; [lia|lia|]. rewrite E0. done.
  - destruct (words_unique (k - 1) (wh k) (wl k - 1)) as [-> ->]; [lia|lia|]. rewrite u32_small by lia. done.
Qed.

Lemma words_up_spec k (e : Z) : - 2 ^ 63 <= k < 2 ^ 63 - 1 -> words_up (wh k) (wl k) e = Some ((wh (k + 1), wl (k + 1)), e).
Proof.
  intros Hk. destruct (words_of k) as [E Hl]. unfold words_up, bind. destruct (Z.eq_dec (wl k) (2 ^ 32 - 1)) as [E0|E0].
  - rewrite E0. change (u32 (2 ^ 32 - 1 + 1)) with 0. cbn [Z.eqb]. rewrite int_ok by lia. destruct (words_unique (k + 1) (wh k + 1) 0) as [-> ->]; [lia|lia|]. done.
  - rewrite u32_small by lia. rewrite (proj2 (Z.eqb_neq _ 0)) by lia. destruct (words_unique (k + 1) (wh k) (wl k + 1)) as [-> ->]; [lia|lia|done].
Qed.

(** The comparison of the words. *)
Lemma key_gt j k : ((wh k <? wh j) || ((wh j =? wh k) && (wl k <? wl j))) = (k <? j).
Proof.
  destruct (words_of j) as [Ej Hj], (words_of k) as [Ek Hk].
  destruct (Z.ltb_spec (wh k) (wh j)), (Z.eqb_spec (wh j) (wh k)), (Z.ltb_spec (wl k) (wl j)), (Z.ltb_spec k j); cbn [orb andb]; lia.
Qed.

(** The numbers in the order of the patterns. *)
Lemma value_order x y : is_float x -> is_float y ->
  fval x < fval y <->
  match fsign x, fsign y with
  | false, false => fabs_bits x < fabs_bits y
  | true, true => fabs_bits y < fabs_bits x
  | true, false => 0 < fabs_bits x + fabs_bits y
  | false, true => False
  end.
Proof.
  intros Hx Hy. rewrite !fval_abs. pose proof (fabs_range x) as Ha. pose proof (fabs_range y) as Hb. set (a := fabs_bits x) in *. set (b := fabs_bits y) in *.
  pose proof (mag_nonneg a). pose proof (mag_nonneg b). pose proof (mag_lt a b Ha Hb). pose proof (mag_lt b a Hb Ha).
  assert (mag a = 0 -> a = 0) by (by apply mag_zero). assert (mag b = 0 -> b = 0) by (by apply mag_zero). assert (a = 0 -> mag a = 0) by (intros ->; apply mag_0). assert (b = 0 -> mag b = 0) by (intros ->; apply mag_0).
  destruct (fsign x), (fsign y); lia.
Qed.

Lemma not_nan_abs x : is_nan x = false -> fabs_bits x <= inf_bits.
Proof. unfold is_nan. apply Z.ltb_ge. Qed.

(** One pattern up or down. *)
Lemma next_pattern x y (out : bool) :
  is_float x -> is_float y -> is_nan x = false -> is_nan y = false -> 0 < fabs_bits x ->
  (if xorb out (fsign x) then fval x < fval y else fval y < fval x) ->
  let b := if out then fabs_bits x + 1 else fabs_bits x - 1 in
  b <= inf_bits -> next_toward x y (with_sign (fsign x) b).
Proof.
  intros Hx Hy Nx Ny Ha Hdir b Hb. apply not_nan_abs in Nx, Ny. pose proof inf_range as Hinf. assert (0 <= b < 2 ^ sbit) as Hb' by (subst b; destruct out; lia).
  set (r := with_sign (fsign x) b). assert (is_float r) as Hr by by apply with_sign_float. destruct (with_sign_parts (fsign x) b Hb') as [Es Ea]. fold r in Es, Ea.
  pose proof (value_order x y Hx Hy) as O1. pose proof (value_order y x Hy Hx) as O2. pose proof (value_order x r Hx Hr) as O3. pose proof (value_order r x Hr Hx) as O4.
  pose proof (value_order y r Hy Hr) as O5. pose proof (value_order r y Hr Hy) as O6. rewrite Es, Ea in O3, O4, O5, O6.
  assert (forall z, is_float z -> is_nan z = false -> (fval x < fval z -> xorb out (fsign x) = true -> fval r <= fval z) /\ (fval z < fval x -> xorb out (fsign x) = false -> fval z <= fval r)) as Hnext.
  { intros z Hz Nz. apply not_nan_abs in Nz. pose proof (fabs_range z). pose proof (value_order z r Hz Hr) as P1. pose proof (value_order r z Hr Hz) as P2. pose proof (value_order x z Hx Hz) as P3. pose proof (value_order z x Hz Hx) as P4.
    rewrite Es, Ea in P1, P2. subst b. destruct out, (fsign x), (fsign z); cbn [xorb] in *; split; intros; try done; lia. }
  pose proof (fabs_range y). split; [done|]. split; [unfold is_nan; rewrite Ea; apply Z.ltb_ge; lia|].
  subst b. split; intros Hlt; (split; [|intros z Hz Nz Hv; apply Hnext; try done]); destruct out, (fsign x), (fsign y); cbn [xorb] in *; try done; lia.
Qed.

(** ** nextafter *)

Section nextafter.
Context `{NanRules}.
Variables (want_errno : bool) (mode : rmode) (x y : Z).
Hypothesis x_float : is_float x.
Hypothesis y_float : is_float y.

Lemma nan_test z : is_float z ->
  (0x7ff00000 <=? wh (fabs_bits z)) && negb (Z.lor (wh (fabs_bits z) - 0x7ff00000) (wl (fabs_bits z)) =? 0) = is_nan z.
Proof.
  intros Hz. destruct (words_of (fabs_bits z)) as [E Hl]. unfold is_nan. change inf_bits with (0x7ff00000 * 2 ^ 32). destruct (Z.leb_spec 0x7ff00000 (wh (fabs_bits z))); cbn [andb].
  - destruct (Z.eqb_spec (Z.lor (wh (fabs_bits z) - 0x7ff00000) (wl (fabs_bits z))) 0) as [E0|E0]; cbn [negb]; rewrite Z.lor_eq_0_iff in E0; symmetry; [apply Z.ltb_ge|apply Z.ltb_lt]; lia.
  - symmetry. apply Z.ltb_ge. lia.
Qed.

(** The direction, and the step away from zero. *)
Definition outward : bool := if fsign x then fval y <? fval x else fval x <? fval y.
Definition step_bits : Z := if outward then fabs_bits x + 1 else fabs_bits x - 1.

Lemma step_words (e : Z) : is_nan x = false -> is_nan y = false -> fval x <> fval y -> 0 < fabs_bits x ->
  let k := if fsign x then step_bits - 2 ^ 63 else step_bits in
  (let hx := s32 (HIGH_WORD x) in
   let lx := LOW_WORD x in
   let hy := s32 (HIGH_WORD y) in
   let ly := LOW_WORD y in
   if 0 <=? hx then
     if (hy <? hx) || ((hx =? hy) && (ly <? lx)) then words_down hx lx else words_up hx lx
   else
     if (0 <=? hy) || (hy <? hx) || ((hx =? hy) && (ly <? lx)) then words_down hx lx else words_up hx lx) e = Some ((wh k, wl k), e).
Proof.
  intros Nx Ny Hne Ha k. apply not_nan_abs in Nx, Ny. pose proof (high_sign x x_float) as Sx. pose proof (high_sign y y_float) as Sy.
  destruct (key_words x x_float) as [Ehx Elx], (key_words y y_float) as [Ehy Ely]. change inf_bits with (2047 * 2 ^ 52) in *. pose proof (fabs_range y).
  pose proof (value_order x y x_float y_float) as O1. pose proof (value_order y x y_float x_float) as O2. cbv zeta.
  rewrite (Z.leb_antisym (s32 (HIGH_WORD x)) 0), (Z.leb_antisym (s32 (HIGH_WORD y)) 0), Sx, Sy, Ehx, Elx, Ehy, Ely. clear Ehx Elx Ehy Ely Sx Sy.
  rewrite <- orb_assoc, key_gt. subst k. unfold step_bits, outward, key. destruct (fsign x), (fsign y); cbn [negb orb].
  - destruct (Z.ltb_spec (fabs_bits y - 2 ^ 63) (fabs_bits x - 2 ^ 63)), (Z.ltb_spec (fval y) (fval x)); try lia; first [rewrite words_down_spec by lia|rewrite words_up_spec by lia]; do 3 f_equal; f_equal; lia.
  - destruct (Z.ltb_spec (fval y) (fval x)); [lia|]. rewrite words_down_spec by lia. do 3 f_equal; f_equal; lia.
  - destruct (Z.ltb_spec (fabs_bits y - 2 ^ 63) (fabs_bits x)), (Z.ltb_spec (fval x) (fval y)); try lia. rewrite words_down_spec by lia. done.
  - destruct (Z.ltb_spec (fabs_bits y) (fabs_bits x)), (Z.ltb_spec (fval x) (fval y)); try lia; first [rewrite words_down_spec by lia|rewrite words_up_spec by lia]; done.
Qed.

(** From the largest number outwards the result is that of an overflow, which
    depends on the rounding mode. *)
Definition oversteps : bool := outward && (fabs_bits x =? inf_bits - 1).

Lemma step_range : is_nan x = false -> is_nan y = false -> 0 < fabs_bits x ->
  0 <= step_bits <= inf_bits /\ (step_bits =? inf_bits) = oversteps.
Proof.
  intros Nx Ny Ha. apply not_nan_abs in Nx, Ny. assert (outward = true -> fabs_bits x < inf_bits) as Hout.
  { unfold outward. pose proof (value_order x y x_float y_float) as O1. pose proof (value_order y x y_float x_float) as O2.
    destruct (fsign x), (fsign y); rewrite Z.ltb_lt; lia. }
  unfold step_bits, oversteps. destruct outward; [specialize (Hout eq_refl)|]; cbn [andb]; (split; [lia|]).
  - destruct (Z.eqb_spec (fabs_bits x) (inf_bits - 1)); [apply Z.eqb_eq|apply Z.eqb_neq]; lia.
  - apply Z.eqb_neq. lia.
Qed.

(** From zero to the smallest number. *)
Lemma next_of_zero : is_nan y = false -> fval x <> fval y -> fabs_bits x = 0 -> next_toward x y (with_sign (fsign y) 1).
Proof.
  intros Ny Hne Ha. apply not_nan_abs in Ny. assert (0 <= 1 < 2 ^ sbit) as H1 by (change (2 ^ sbit) with (2 ^ 63); lia). set (r := with_sign (fsign y) 1).
  assert (is_float r) as Hr by by apply with_sign_float. destruct (with_sign_parts (fsign y) 1 H1) as [Es Ea]. fold r in Es, Ea.
  pose proof (value_order x y x_float y_float) as O1. pose proof (value_order y x y_float x_float) as O2. pose proof (value_order x r x_float Hr) as O3. pose proof (value_order r x Hr x_float) as O4.
  pose proof (value_order y r y_float Hr) as O5. pose proof (value_order r y Hr y_float) as O6. rewrite Es, Ea in O3, O4, O5, O6. pose proof (fabs_range y).
  split; [done|]. split; [unfold is_nan; rewrite Ea; done|].
  split; intros Hlt; (split; [|intros z Hz Nz Hv; pose proof (fabs_range z); pose proof (value_order z r Hz Hr) as P1; pose proof (value_order r z Hr Hz) as P2;
    pose proof (value_order x z x_float Hz) as P3; pose proof (value_order z x Hz x_float) as P4; rewrite Es, Ea in P1, P2]);
    destruct (fsign x), (fsign y); try destruct (fsign z); lia.
Qed.

Lemma nextafter64_nan (e : Z) : is_nan x || is_nan y = true -> nextafter64 want_errno mode x y e = Some (nan_of x y, e).
Proof.
  intros Hn. unfold nextafter64. cbv zeta. rewrite !abs_high by done. destruct (abs_pair x x_float) as [_ ->], (abs_pair y y_float) as [_ ->].
  rewrite !nan_test, Hn by done. unfold fadd, ret. by rewrite Hn.
Qed.

Lemma nextafter64_equal (e : Z) : is_nan x || is_nan y = false -> fval x = fval y -> nextafter64 want_errno mode x y e = Some (y, e).
Proof.
  intros Hn Hv. unfold nextafter64. cbv zeta. rewrite !abs_high by done. destruct (abs_pair x x_float) as [_ ->], (abs_pair y y_float) as [_ ->].
  rewrite !nan_test, Hn by done. unfold feq. by rewrite Hn, Hv, Z.eqb_refl.
Qed.

Lemma zero_value : (fval x =? 0) = (fabs_bits x =? 0).
Proof.
  rewrite fval_abs. pose proof (fabs_range x) as Hr. destruct (Z.eqb_spec (fabs_bits x) 0) as [->|Hn]; [rewrite mag_0; by destruct (fsign x)|].
  apply Z.eqb_neq. intros E0. apply Hn, mag_zero; [done|]. destruct (fsign x); lia.
Qed.

Lemma nextafter64_spec (e : Z) :
  is_nan x = false -> is_nan y = false -> fval x <> fval y ->
  exists r, nextafter64 want_errno mode x y e =
      Some (r, if want_errno && negb (fval x =? 0) && (oversteps || (fexp r =? 0)) then ERANGE else e) /\
    (oversteps = false -> next_toward x y r) /\
    (oversteps = true -> r = with_sign (fsign x) (overflow_bits mode (fsign x))).
Proof.
  intros Nx Ny Hne. unfold nextafter64. cbv zeta. pose proof inf_range as Hinf.
  rewrite !abs_high by done. destruct (abs_pair x x_float) as [_ Elx], (abs_pair y y_float) as [_ Ely].
  assert ((Z.lor (wh (fabs_bits x)) (LOW_WORD x) =? 0) = (fabs_bits x =? 0)) as ->.
  { rewrite Elx. destruct (words_of (fabs_bits x)) as [E Hl]. destruct (Z.eqb_spec (fabs_bits x) 0) as [->|]; [done|]. apply Z.eqb_neq. rewrite Z.lor_eq_0_iff. lia. }
  pose proof (nan_test x x_float) as Tx. pose proof (nan_test y y_float) as Ty. rewrite <- Elx, Nx in Tx. rewrite <- Ely, Ny in Ty. rewrite Tx, Ty. cbn [orb].
  unfold feq. rewrite Nx, Ny. cbn [orb negb andb]. rewrite (proj2 (Z.eqb_neq (fval x) (fval y))) by done. rewrite zero_value.
  destruct (Z.eqb_spec (fabs_bits x) 0) as [Ea|Ea].
  - exists (with_sign (fsign y) 1). assert (oversteps = false) as Ho.
    { unfold oversteps. rewrite Ea. change (0 =? inf_bits - 1) with false. apply andb_false_r. }
    rewrite Ho. split_and!; [|intros _; by apply next_of_zero|done].
    rewrite andb_false_r. cbn [andb]. unfold ret. do 2 f_equal. rewrite sign_word by done. by destruct (fsign y).
  - pose proof (fabs_range x) as Ha. assert (0 < fabs_bits x) as Ha0 by lia. pose proof (step_words e Nx Ny Hne Ha0) as Hst. cbv zeta in Hst. unfold bind at 1. rewrite Hst. clear Hst.
    destruct (step_range Nx Ny Ha0) as [Hb Hov]. assert (0 <= step_bits < 2 ^ sbit) as Hb' by lia. pose proof Hb' as Hb63. change (2 ^ sbit) with (2 ^ 63) in Hb63.
    rewrite insert_key by done. set (r := with_sign (fsign x) step_bits). assert (is_float r) as Hr by by apply with_sign_float.
    destruct (with_sign_parts (fsign x) step_bits Hb') as [Es Eb]. fold r in Es, Eb.
    assert (wh (if fsign x then step_bits - 2 ^ 63 else step_bits) = s32 (HIGH_WORD r)) as ->.
    { destruct (key_words r Hr) as [-> _]. unfold key. by rewrite Es, Eb. }
    rewrite exponent_field, high_sign, Es by done. pose proof (fexp_range r) as He. change (2 ^ ebits) with 2048 in He.
    assert ((0x7ff00000 <=? fexp r * 2 ^ 20) = oversteps) as ->.
    { rewrite <- Hov. pose proof (finite_exponent r) as Hf. unfold is_finite in Hf. rewrite Eb in Hf. destruct (Z.eqb_spec step_bits inf_bits) as [E|E].
      - rewrite E, Z.ltb_irrefl in Hf. symmetry in Hf. apply Z.ltb_ge in Hf. apply Z.leb_le. lia.
      - rewrite (proj2 (Z.ltb_lt _ _)) in Hf by lia. symmetry in Hf. apply Z.ltb_lt in Hf. apply Z.leb_gt. lia. }
    destruct oversteps eqn:Ho.
    + eexists. split; [|by split; [|intros _]]. unfold __math_oflow, __math_with_errno. rewrite oflow_value. cbn [orb negb]. by rewrite !andb_true_r.
    + exists r. split_and!; [|intros _|done].
      * unfold __math_denorm, __math_with_errno. destruct (Z.eqb_spec (fexp r) 0) as [E|E].
        -- rewrite E. cbn [orb negb Z.mul Z.ltb Z.compare]. by rewrite !andb_true_r.
        -- rewrite (proj2 (Z.ltb_ge _ 0x00100000)) by lia. cbn [orb]. by rewrite andb_false_r.
      * unfold r, step_bits. apply (next_pattern x y outward); try done; [|fold step_bits; lia]. unfold outward.
        destruct (fsign x); [destruct (Z.ltb_spec (fval y) (fval x))|destruct (Z.ltb_spec (fval x) (fval y))]; cbn [xorb]; lia.
Qed.
End nextafter.
