(* ===== verification/LibmProps.v ===== *)
(** * Properties of the math library *)

From stdpp Require Import base list.
From Stdlib Require Import ZArith Lia.
From S2P Require Import Prelude CMem Float Libm LibmRound LibmFmod LibmSqrt LibmScale LibmNext.

Local Open Scope Z_scope.

(** The NaNs of most machines: the quiet version of the operand, and the positive
    quiet NaN. *)
Definition common_nans : NanRules := {|
  nan_of x y := if is_nan x then Z.lor x (2 ^ 51) else Z.lor y (2 ^ 51);
  nan_invalid := 0x7ff8000000000000 |}.

Section special.
Context `{NanRules}.
Variables (mode : rmode) (x : Z).
Hypothesis x_float : is_float x.
Hypothesis x_special : is_finite x = false.

(** The functions that round return an infinity unchanged and a NaN for a NaN. *)
Lemma rounding_special (e : Z) :
  let r := if is_nan x then nan_of x x else x in
  floor64 mode x e = Some (r, e) /\ ceil64 mode x e = Some (r, e) /\ round64 mode x e = Some (r, e) /\ trunc64 mode x = r.
Proof.
  cbv zeta. pose proof (special_exponent x x_special) as Ee. pose proof (fadd_special x mode x_special) as Ea.
  unfold floor64, ceil64, round64, trunc64. rewrite high_exponent, high_exponent_mask, long_exponent, Ee, Ea by done. done.
Qed.
End special.

(** C24: floor, ceil, round and trunc of a finite number are the integer below, the
    integer above, the nearest integer (halves away from zero) and the integer
    towards zero, with the sign of the argument and in every rounding mode; they
    return an infinity unchanged and make a NaN of a NaN, and none sets errno. *)
Theorem rounding_correct `{NanRules} mode x e :
  is_float x ->
  if is_finite x then
    (exists r, floor64 mode x e = Some (r, e) /\ rounds_to int_floor x r) /\
    (exists r, ceil64 mode x e = Some (r, e) /\ rounds_to int_ceil x r) /\
    (exists r, round64 mode x e = Some (r, e) /\ rounds_to int_round x r) /\
    rounds_to int_trunc x (trunc64 mode x)
  else
    let r := if is_nan x then nan_of x x else x in
    floor64 mode x e = Some (r, e) /\ ceil64 mode x e = Some (r, e) /\ round64 mode x e = Some (r, e) /\ trunc64 mode x = r.
Proof.
  intros Hx. destruct (is_finite x) eqn:Hf; [|by apply rounding_special].
  split_and!; [by apply floor64_spec|by apply ceil64_spec|by apply round64_spec|by apply trunc64_spec].
Qed.

(** -2.5 and a NaN. *)
Lemma rounding_witness :
  (exists r, floor64 (H := common_nans) Upward 0xc004000000000000 0 = Some (r, 0) /\ rounds_to int_floor 0xc004000000000000 r) /\
  trunc64 (H := common_nans) Upward 0x7ff0000000000001 = 0x7ff8000000000001.
Proof.
  split.
  - destruct (rounding_correct (H := common_nans) Upward 0xc004000000000000 0) as (Hr & _); [by vm_compute|exact Hr].
  - destruct (rounding_correct (H := common_nans) Upward 0x7ff0000000000001 0) as (_ & _ & _ & Hr); [by vm_compute|exact Hr].
Defined.

(** Modf splits a finite number into the integer towards zero and an exact
    fraction, both with the sign of the argument. *)
Theorem modf_correct `{NanRules} mode x :
  is_float x -> is_finite x = true ->
  let '(f, i) := modf64 mode x in
  rounds_to int_trunc x i /\ is_float f /\ fsign f = fsign x /\ fval f + fval i = fval x.
Proof.
  intros Hx Hf. pose proof (modf64_spec mode x Hx Hf) as Hm. destruct (modf64 mode x) as [f i]. destruct Hm as (Hi & Hfl & Hs & Hv).
  split_and!; try done. rewrite Hv, (rt_value _ _ _ Hi). lia.
Qed.

(** -2.5 gives -0.5 and -2. *)
Lemma modf_witness :
  modf64 (H := common_nans) ToNearest 0xc004000000000000 = (0xbfe0000000000000, 0xc000000000000000) /\
  rounds_to int_trunc 0xc004000000000000 0xc000000000000000.
Proof.
  split; [reflexivity|]. destruct (modf_correct (H := common_nans) ToNearest 0xc004000000000000) as (Hi & _); [by vm_compute|by vm_compute|exact Hi].
Defined.

(** C22: fmod of a finite number and a nonzero one is the exact remainder of their
    quotient rounded towards zero, with the sign of the dividend, whatever the
    difference of the exponents; a NaN operand gives a NaN, and an infinite
    dividend or a zero divisor is a domain error. *)
Theorem fmod_correct `{NanRules} want_errno mode fuel x y e :
  is_float x -> is_float y -> (2100 < fuel)%nat ->
  (is_finite x = true -> is_nan y = false -> fval y <> 0 ->
    exists r, fmod64 want_errno mode fuel x y e = Some (r, e) /\ rounds_to (fun v => Z.rem v (fval y)) x r) /\
  (is_nan x = true \/ is_nan y = true -> fmod64 want_errno mode fuel x y e = Some (nan_of x y, e)) /\
  (is_nan x = false -> is_nan y = false -> is_inf x = true \/ fval y = 0 ->
    fmod64 want_errno mode fuel x y e = Some (nan_invalid, if want_errno then EDOM else e)).
Proof. intros Hx Hy Hf. split; [intros; by apply fmod64_spec|by apply fmod64_errors]. Qed.

(** The largest number and the smallest subnormal times 3; a zero divisor. *)
Lemma fmod_witness :
  (exists r, fmod64 (H := common_nans) true ToNearest (Z.to_nat 2200) 0x7fefffffffffffff 3 0 = Some (r, 0) /\
    rounds_to (fun v => Z.rem v 3) 0x7fefffffffffffff r) /\
  fmod64 (H := common_nans) true ToNearest (Z.to_nat 2200) 0x3ff0000000000000 0 0 = Some (0x7ff8000000000000, 33).
Proof.
  split.
  - destruct (fmod_correct (H := common_nans) true ToNearest (Z.to_nat 2200) 0x7fefffffffffffff 3 0) as (Hr & _); [by vm_compute|by vm_compute|lia|].
    apply Hr; [reflexivity|reflexivity|discriminate].
  - destruct (fmod_correct (H := common_nans) true ToNearest (Z.to_nat 2200) 0x3ff0000000000000 0 0) as (_ & _ & Hr); [by vm_compute|by vm_compute|lia|].
    apply Hr; [reflexivity|reflexivity|right; reflexivity].
Defined.

(** C23: sqrt of a positive number is correctly rounded in each of the four modes
    (in the nearest mode the exact root lies strictly between the midpoints to the
    neighbouring floats); zeros, positive infinity and NaNs are returned as they
    are, and a negative number is a domain error. *)
Theorem sqrt_correct `{NanRules} want_errno mode fuel x e :
  is_float x -> (40 < fuel)%nat ->
  (is_finite x = true -> 0 < fval x ->
    exists z, sqrt64 want_errno mode fuel x e = Some (z, e) /\ 0 < z < inf_bits /\ rounded_root mode (fval x * 2 ^ one_log) z) /\
  (is_nan x = true -> sqrt64 want_errno mode fuel x e = Some (nan_of x x, e)) /\
  (fval x = 0 \/ (is_inf x = true /\ fsign x = false) -> sqrt64 want_errno mode fuel x e = Some (x, e)) /\
  (is_nan x = false -> fval x < 0 -> sqrt64 want_errno mode fuel x e = Some (nan_invalid, if want_errno then EDOM else e)).
Proof. intros Hx Hf. split; [intros; by apply sqrt64_spec|by apply sqrt64_special]. Qed.

(** The root of two rounded up, and that of minus one. *)
Lemma sqrt_witness :
  (exists z, sqrt64 (H := common_nans) true Upward 50 0x4000000000000000 0 = Some (z, 0) /\ 0 < z < inf_bits /\
    rounded_root Upward (fval 0x4000000000000000 * 2 ^ one_log) z) /\
  sqrt64 (H := common_nans) true Upward 50 0xbff0000000000000 0 = Some (0x7ff8000000000000, 33).
Proof.
  split.
  - destruct (sqrt_correct (H := common_nans) true Upward 50 0x4000000000000000 0) as (Hr & _); [by vm_compute|lia|]. apply Hr; reflexivity.
  - destruct (sqrt_correct (H := common_nans) true Upward 50 0xbff0000000000000 0) as (_ & _ & _ & Hr); [by vm_compute|lia|]. apply Hr; reflexivity.
Defined.

(** C25: scalbn multiplies by a power of two with a single rounding, in each mode,
    whatever the exponent: overflow and gradual underflow included.  errno tells
    when the product is out of the range of the exponents or the result is zero. *)
Theorem scalbn_correct `{NanRules} want_errno mode x n e :
  is_float x -> - 2 ^ 31 <= n < 2 ^ 31 ->
  if is_finite x && negb (fval x =? 0) then
    let r := fround mode (fsign x) (mag x * 2 ^ Z.max 0 n) (Z.max 0 (- n)) in
    let m := Z.log2 (mag x) + n - 52 in
    scalbn64 want_errno mode x n e = Some (r, if want_errno && ((2045 <? m) || (m <=? -55) || (mag r =? 0)) then ERANGE else e)
  else scalbn64 want_errno mode x n e = Some (if is_nan x then nan_of x x else x, e).
Proof.
  intros Hx Hn. destruct (is_finite x) eqn:Hf; cbn [andb].
  - destruct (Z.eqb_spec (fval x) 0) as [E|E]; cbn [negb]; [|by apply scalbn64_spec]. by apply (scale_special want_errno mode x n 0).
  - apply (scale_special want_errno mode x n 0); [done|]. by rewrite Hf.
Qed.

(** 1.5 scaled down to the subnormals, and a number that overflows. *)
Lemma scalbn_witness :
  scalbn64 (H := common_nans) true ToNearest 0x3ff8000000000000 (-1074) 0 = Some (2, 0) /\
  scalbn64 (H := common_nans) true ToNearest 0x3ff8000000000000 1024 0 = Some (0x7ff0000000000000, 34).
Proof.
  split.
  - exact (scalbn_correct (H := common_nans) true ToNearest 0x3ff8000000000000 (-1074) 0 ltac:(by vm_compute) ltac:(lia)).
  - exact (scalbn_correct (H := common_nans) true ToNearest 0x3ff8000000000000 1024 0 ltac:(by vm_compute) ltac:(lia)).
Defined.

(** Frexp splits a nonzero finite number into a fraction from a half to one and
    a power of two, exactly; ilogb is the exponent of the leading bit, one less;
    and ldexp puts the parts together again. *)
Theorem frexp_correct `{NanRules} want_errno mode fuel x e :
  is_float x -> is_finite x = true -> fval x <> 0 -> (32 < fuel)%nat ->
  let '(f, n) := frexp64 mode x in
  is_float f /\ fsign f = fsign x /\ 2 ^ (one_log - 1) <= mag f < 2 ^ one_log /\
  mag f * 2 ^ Z.max 0 n = mag x * 2 ^ Z.max 0 (- n) /\
  ilogb64 want_errno mode fuel x e = Some (n - 1, e) /\ ldexp64 want_errno mode f n e = Some (x, e).
Proof.
  intros Hx Hf Hv Hfu. pose proof (frexp64_spec mode x Hx Hf Hv) as Hfr. pose proof (scalbn_frexp want_errno mode x e Hx Hf Hv) as Hs.
  destruct (frexp64 mode x) as [f n]. destruct Hfr as (H1 & _ & H2 & H3 & En & Em). split_and!; try done; [apply H3|apply H3|].
  rewrite ilogb64_spec by done. do 2 f_equal. lia.
Qed.

(** The smallest subnormal is a half times 2 to the -1073. *)
Lemma frexp_witness :
  frexp64 (H := common_nans) Downward 1 = (0x3fe0000000000000, -1073) /\ ldexp64 (H := common_nans) true Downward 0x3fe0000000000000 (-1073) 5 = Some (1, 5).
Proof.
  split; [reflexivity|]. destruct (frexp_correct (H := common_nans) true Downward 50 1 5) as (_ & _ & _ & _ & _ & Hs); [by vm_compute|reflexivity|discriminate|lia|exact Hs].
Defined.

(** Nextafter returns the float that follows the first argument on the way to
    the second: no float lies between them.  From the largest number outwards the
    result is that of an overflowing product, which is infinite only in some
    rounding modes.  Equal arguments give the second, and a NaN gives a NaN. *)
Theorem nextafter_correct `{NanRules} want_errno mode x y e :
  is_float x -> is_float y ->
  (is_nan x || is_nan y = true -> nextafter64 want_errno mode x y e = Some (nan_of x y, e)) /\
  (is_nan x || is_nan y = false -> fval x = fval y -> nextafter64 want_errno mode x y e = Some (y, e)) /\
  (is_nan x || is_nan y = false -> fval x <> fval y ->
    exists r e', nextafter64 want_errno mode x y e = Some (r, e') /\
      (oversteps x y = false -> next_toward x y r) /\
      (oversteps x y = true -> r = with_sign (fsign x) (overflow_bits mode (fsign x)))).
Proof.
  intros Hx Hy. split_and!.
  - intros Hn. by apply nextafter64_nan.
  - intros Hn Hv. by apply nextafter64_equal.
  - intros [Nx Ny]%orb_false_iff Hv. destruct (nextafter64_spec want_errno mode x y Hx Hy e Nx Ny Hv) as (r & E & H1 & H2). by eexists _, _.
Qed.

(** From -1 up, and from the largest number up when rounding towards zero. *)
Lemma nextafter_witness :
  next_toward 0xbff0000000000000 0 0xbfefffffffffffff /\
  exists e', nextafter64 (H := common_nans) true TowardZero 0x7fefffffffffffff 0x7ff0000000000000 0 = Some (0x7fefffffffffffff, e').
Proof.
  split.
  - destruct (nextafter_correct (H := common_nans) true ToNearest 0xbff0000000000000 0 0) as (_ & _ & Hr); [by vm_compute|by vm_compute|].
    destruct Hr as (r & e' & E & Hr & _); [by vm_compute|intros E; vm_compute in E; discriminate E|]. vm_compute in E. injection E as <- _. apply Hr. by vm_compute.
  - destruct (nextafter_correct (H := common_nans) true TowardZero 0x7fefffffffffffff 0x7ff0000000000000 0) as (_ & _ & Hr); [by vm_compute|by vm_compute|].
    destruct Hr as (r & e' & E & _ & Hr); [by vm_compute|intros E; vm_compute in E; discriminate E|]. exists e'. rewrite E, Hr by (by vm_compute). by vm_compute.
Defined.
