(* ===== verification/Xdr.v ===== *)
(** * External data representation (libc/xdr)

    The filters of xdr.c, xdr_array.c, xdr_reference.c and xdr_float.c translate an
    object in memory to or from a stream, as the operation of the stream says; the
    stream is given by its operations, the class [XdrOps].  xdr_mem.c implements
    them on a buffer and xdr_sizeof.c on a counter.

    A filter gets the address of the object.  A local variable whose address the
    code takes is a value here; the buffer [crud] of xdr_opaque, which a stream
    writes to, and the constant [xdr_zero] are in memory. *)

From stdpp Require Import base list gmap.
From Stdlib Require Import ZArith Lia.
From S2P Require Import Prelude CMem CInt StrLocal StrMem StrStr Malloc Alloc.

Local Open Scope Z_scope.

(** ** rpc/xdr.h *)

Inductive xdr_op := XDR_ENCODE | XDR_DECODE | XDR_FREE.

#[global] Instance xdr_op_eq_dec : EqDecision xdr_op.
Proof. solve_decision. Defined.

(** [struct xdr_ops]; an operation that gets a number returns it. *)
Class XdrOps (S : Type) := {
  x_op : S -> xdr_op;
  x_getlong : C S (option Z);
  x_putlong : Z -> C S bool;
  x_getbytes : Z -> Z -> C S bool;
  x_putbytes : Z -> Z -> C S bool;
  x_getpostn : C S Z;
  x_setpostn : Z -> C S bool;
  x_inline : Z -> C S Z;
  x_getint32 : C S (option Z);
  x_putint32 : Z -> C S bool }.

Definition BYTES_PER_XDR_UNIT : Z := 4.
Definition LASTUNSIGNED : Z := uwrap 32 (0 - 1).
Definition UINT_MAX : Z := 2 ^ 32 - 1.
Definition MAX_NETOBJ_SZ : Z := 1024.

(** xdr_private.h: [xdr_ntohl], which is also [xdr_htonl]. *)
Definition xdr_ntohl `{Arch} (x : Z) : Z :=
  if big_endian then x
  else
    match bytes_of_int 4 x with
    | [s0; s1; s2; s3] => Z.lor (Z.lor (Z.lor (Z.shiftl s0 24) (Z.shiftl s1 16)) (Z.shiftl s2 8)) s3
    | _ => 0
    end.

(** ** xdr.c *)

Section filters.
Context `{Arch} {S : Type} `{AllocOps S} `{XdrOps S}.
Variable fuel : nat.
Variables (xdr_zero crud : Z).

Abbreviation M A := (C S A).

(** A procedure for the objects at an address.  The routines that call one pass
    LASTUNSIGNED as a third argument: a filter with a maximal size is taken with
    that size. *)
Definition xdrproc_t : Type := Z -> M bool.

(** The result of a filter and the value it stores, if any. *)
Definition filtered : Type := bool * option Z.

(** The body of a filter that goes through XDR_PUTLONG and XDR_GETLONG; [rd] is the
    value as a long and [conv] the conversion back. *)
Definition long_filter (rd : M Z) (conv : Z -> Z) : M filtered :=
  do s <- get_st;
  match x_op s with
  | XDR_ENCODE => do l <- rd; do b <- x_putlong l; ret (b, None)
  | XDR_DECODE =>
      do l <- x_getlong;
      match l with
      | None => ret (false, None)
      | Some l => ret (true, Some (conv l))
      end
  | XDR_FREE => ret (true, None)
  end.

(** The same through XDR_PUTINT32 and XDR_GETINT32. *)
Definition int32_filter (rd : M Z) (conv : Z -> Z) : M filtered :=
  do s <- get_st;
  match x_op s with
  | XDR_ENCODE => do l <- rd; do b <- x_putint32 l; ret (b, None)
  | XDR_DECODE =>
      do l <- x_getint32;
      match l with
      | None => ret (false, None)
      | Some l => ret (true, Some (conv l))
      end
  | XDR_FREE => ret (true, None)
  end.

(** A filter on the object of [n] bytes at [p]. *)
Definition at_ptr (n : nat) (p : Z) (f : M Z -> M filtered) : M bool :=
  do '(b, v) <- f (peek (load_n n p));
  match v with
  | Some v => run on_mem (store_n n p v); ret b
  | None => ret b
  end.

(** A signed object of [n] bytes. *)
Definition signed_at (n : nat) (rd : M Z) : M Z := do v <- rd; ret (swrap (8 * Z.of_nat n) v).

Definition xdr_void : M bool := ret true.

(** [int] on a value, for [xdr_int] and [xdr_char]; [long_bits] is at least 32, and
    when it is 32 [xdr_long] does the same. *)
Definition int_filter (rd : M Z) : M filtered := long_filter rd (uwrap 32).
Definition xdr_int (ip : Z) : M bool := at_ptr 4 ip (fun rd => int_filter (signed_at 4 rd)).

Definition u_int_filter (rd : M Z) : M filtered := long_filter rd (uwrap 32).
Definition xdr_u_int (up : Z) : M bool := at_ptr 4 up u_int_filter.

Definition xdr_long (lp : Z) : M bool :=
  do s <- get_st;
  match x_op s with
  | XDR_ENCODE =>
      do v <- peek (load_n long_size lp);
      let l := swrap long_bits v in
      if negb long64 || (swrap 32 l =? l) then x_putlong l else ret false
  | XDR_DECODE =>
      do l <- x_getlong;
      match l with
      | None => ret false
      | Some l => run on_mem (store_n long_size lp l); ret true
      end
  | XDR_FREE => ret true
  end.

Definition xdr_u_long (ulp : Z) : M bool :=
  do s <- get_st;
  match x_op s with
  | XDR_ENCODE =>
      do v <- peek (load_n long_size ulp);
      if long64 && negb (uwrap 32 v =? v) then ret false else x_putlong v
  | XDR_DECODE =>
      do tmp <- x_getlong;
      match tmp with
      | None => ret false
      | Some tmp => run on_mem (store_n long_size ulp (uwrap 32 tmp)); ret true
      end
  | XDR_FREE => ret true
  end.

Definition xdr_int32_t (p : Z) : M bool := at_ptr 4 p (fun rd => int32_filter (signed_at 4 rd) (uwrap 32)).
Definition xdr_u_int32_t (p : Z) : M bool := at_ptr 4 p (fun rd => int32_filter (signed_at 4 rd) (uwrap 32)).
Definition xdr_uint32_t (p : Z) : M bool := at_ptr 4 p (fun rd => int32_filter (signed_at 4 rd) (uwrap 32)).

Definition xdr_short (sp : Z) : M bool := at_ptr 2 sp (fun rd => long_filter (signed_at 2 rd) (uwrap 16)).
Definition xdr_u_short (usp : Z) : M bool := at_ptr 2 usp (fun rd => long_filter rd (uwrap 16)).

Definition xdr_int16_t (p : Z) : M bool := at_ptr 2 p (fun rd => int32_filter (signed_at 2 rd) (uwrap 16)).
Definition xdr_u_int16_t (p : Z) : M bool := at_ptr 2 p (fun rd => int32_filter rd (uwrap 16)).
Definition xdr_uint16_t (p : Z) : M bool := at_ptr 2 p (fun rd => int32_filter rd (uwrap 16)).

Definition xdr_int8_t (p : Z) : M bool := at_ptr 1 p (fun rd => int32_filter (signed_at 1 rd) (uwrap 8)).
Definition xdr_u_int8_t (p : Z) : M bool := at_ptr 1 p (fun rd => int32_filter rd (uwrap 8)).
Definition xdr_uint8_t (p : Z) : M bool := at_ptr 1 p (fun rd => int32_filter rd (uwrap 8)).

(** The local [i] is a copy of the object, stored back when the filter succeeds;
    [char_signed] is the signedness of [char]. *)
Variable char_signed : bool.

Definition char_value (v : Z) : Z := if char_signed then swrap 8 v else v.

Definition xdr_char (cp : Z) : M bool :=
  do v <- peek (load_n 1 cp);
  let i := char_value v in
  do '(b, w) <- int_filter (ret i);
  if b : bool then run on_mem (store_n 1 cp (default i w)); ret true else ret false.

Definition xdr_u_char (ucp : Z) : M bool :=
  do u <- peek (load_n 1 ucp);
  do '(b, w) <- u_int_filter (ret u);
  if b : bool then run on_mem (store_n 1 ucp (default u w)); ret true else ret false.

Definition bool_filter (rd : M Z) : M filtered :=
  long_filter (do v <- rd; ret (if v =? 0 then 0 else 1)) (fun lb => if lb =? 0 then 0 else 1).
Definition xdr_bool (bp : Z) : M bool := at_ptr 4 bp bool_filter.

(** [enum_size] is the size of an enum of one small value, which the target's ABI
    chooses; an [enum_t] is an int32_t. *)
Variable enum_size : Z.

Definition xdr_enum (ep : Z) : M bool :=
  if enum_size =? 4 then at_ptr 4 ep (fun rd => long_filter (signed_at 4 rd) (uwrap 32))
  else if enum_size =? 2 then xdr_short ep
  else ret false.

(** The number of bytes that fill up the last unit. *)
Definition xdr_rndup (cnt : Z) : Z :=
  let rndup := cnt mod BYTES_PER_XDR_UNIT in
  if 0 <? rndup then BYTES_PER_XDR_UNIT - rndup else rndup.

Definition xdr_opaque (cp cnt : Z) : M bool :=
  if cnt =? 0 then ret true
  else
    let rndup := xdr_rndup cnt in
    do s <- get_st;
    match x_op s with
    | XDR_DECODE =>
        do b <- x_getbytes cp cnt;
        if negb b then ret false
        else if rndup =? 0 then ret true
        else x_getbytes crud rndup
    | XDR_ENCODE =>
        do b <- x_putbytes cp cnt;
        if negb b then ret false
        else if rndup =? 0 then ret true
        else x_putbytes xdr_zero rndup
    | XDR_FREE => ret true
    end.

Definition mem_alloc (bsize : Z) : M Z := op_calloc fuel 1 bsize.
Definition mem_free (ptr bsize : Z) : M unit := op_free fuel ptr.

(** [if (sp == NULL) *cpp = sp = mem_alloc(nodesize); if (sp == NULL) ...] *)
Definition xdr_storage (cpp sp nodesize : Z) : M (option Z) :=
  do sp <- (if sp =? NULL then do q <- mem_alloc nodesize; run store_ptr cpp q; ret q else ret sp);
  if sp =? NULL then run op_errno ENOMEM; ret None else ret (Some sp).

Definition xdr_bytes (cpp sizep maxsize : Z) : M bool :=
  do sp <- load_ptr cpp;
  do b <- xdr_u_int sizep;
  if negb b then ret false
  else
    do nodesize <- peek (load_n 4 sizep);
    do s <- get_st;
    if (maxsize <? nodesize) && negb (bool_decide (x_op s = XDR_FREE)) then ret false
    else
      match x_op s with
      | XDR_DECODE =>
          if nodesize =? 0 then ret true
          else
            do sp <- xdr_storage cpp sp nodesize;
            match sp with
            | None => ret false
            | Some sp => xdr_opaque sp nodesize
            end
      | XDR_ENCODE => xdr_opaque sp nodesize
      | XDR_FREE =>
          if negb (sp =? NULL) then
            run mem_free sp nodesize;
            run store_ptr cpp NULL;
            ret true
          else ret true
      end.

(** [struct netobj]: the length, and the pointer at the next aligned address. *)
Definition n_len (np : Z) : Z := np.
Definition n_bytes (np : Z) : Z := np + Z.of_nat long_size.
Definition xdr_netobj (np : Z) : M bool := xdr_bytes (n_bytes np) (n_len np) MAX_NETOBJ_SZ.

(** The choices are the pairs before the null procedure. *)
Fixpoint xdr_choose (dscm : Z) (choices : list (Z * xdrproc_t)) (dfault : option xdrproc_t) (unp : Z) : M bool :=
  match choices with
  | (value, proc) :: choices => if value =? dscm then proc unp else xdr_choose dscm choices dfault unp
  | [] => match dfault with Some proc => proc unp | None => ret false end
  end.

Definition xdr_union (dscmp unp : Z) (choices : list (Z * xdrproc_t)) (dfault : option xdrproc_t) : M bool :=
  do b <- xdr_enum dscmp;
  if negb b then ret false
  else
    do dscm <- peek (load_n 4 dscmp);
    xdr_choose (swrap 32 dscm) choices dfault unp.

Definition xdr_string (cpp maxsize : Z) : M bool :=
  do sp <- load_ptr cpp;
  do s <- get_st;
  (* the length of the string, or the result of the call *)
  do size <-
    match x_op s with
    | XDR_FREE | XDR_ENCODE =>
        if sp =? NULL then ret (inr (bool_decide (x_op s = XDR_FREE)))
        else do n <- peek (strlen fuel sp); ret (inl (uwrap 32 n))
    | XDR_DECODE => ret (inl 0)
    end;
  match size with
  | inr r => ret r
  | inl size =>
      do '(b, w) <- u_int_filter (ret size);
      let size := default size w in
      if negb b then ret false
      else if maxsize <? size then ret false
      else
        let nodesize := uwrap 32 (size + 1) in
        if nodesize =? 0 then ret false
        else
          match x_op s with
          | XDR_DECODE =>
              do sp <- xdr_storage cpp sp nodesize;
              match sp with
              | None => ret false
              | Some sp =>
                  run on_mem (store8 (sp + size) 0);
                  xdr_opaque sp size
              end
          | XDR_ENCODE => xdr_opaque sp size
          | XDR_FREE =>
              run mem_free sp nodesize;
              run store_ptr cpp NULL;
              ret true
          end
  end.

Definition xdr_wrapstring (cpp : Z) : M bool := xdr_string cpp LASTUNSIGNED.

(** The 64-bit integers: the high half first. *)
Definition xdr_int64_t (llp : Z) : M bool :=
  do s <- get_st;
  match x_op s with
  | XDR_ENCODE =>
      do v <- peek (load_n 8 llp);
      let ll := swrap 64 v in
      do b <- x_putint32 (swrap 32 (Z.shiftr ll 32));
      if b : bool then x_putint32 (swrap 32 ll) else ret false
  | XDR_DECODE =>
      do t1 <- x_getint32;
      match t1 with
      | None => ret false
      | Some t1 =>
          do t2 <- x_getint32;
          match t2 with
          | None => ret false
          | Some t2 =>
              run on_mem (store_n 8 llp (uwrap 64 (Z.shiftl t1 32)));
              do v <- peek (load_n 8 llp);
              run on_mem (store_n 8 llp (Z.lor v (uwrap 32 t2)));
              ret true
          end
      end
  | XDR_FREE => ret true
  end.

Definition xdr_u_int64_t (ullp : Z) : M bool :=
  do s <- get_st;
  match x_op s with
  | XDR_ENCODE =>
      do ull <- peek (load_n 8 ullp);
      do b <- x_putint32 (swrap 32 (Z.shiftr ull 32));
      if b : bool then x_putint32 (swrap 32 ull) else ret false
  | XDR_DECODE =>
      do t1 <- x_getint32;
      match t1 with
      | None => ret false
      | Some t1 =>
          do t2 <- x_getint32;
          match t2 with
          | None => ret false
          | Some t2 =>
              run on_mem (store_n 8 ullp (Z.shiftl (uwrap 32 t1) 32));
              do v <- peek (load_n 8 ullp);
              run on_mem (store_n 8 ullp (Z.lor v (uwrap 32 t2)));
              ret true
          end
      end
  | XDR_FREE => ret true
  end.

Definition xdr_uint64_t (ullp : Z) : M bool := xdr_u_int64_t ullp.
Definition xdr_hyper (llp : Z) : M bool := xdr_int64_t llp.
Definition xdr_u_hyper (ullp : Z) : M bool := xdr_uint64_t ullp.
Definition xdr_longlong_t (llp : Z) : M bool := xdr_int64_t llp.
Definition xdr_u_longlong_t (ullp : Z) : M bool := xdr_uint64_t ullp.

(** ** xdr_float.c *)

Definition xdr_float (fp : Z) : M bool := at_ptr 4 fp (fun rd => int32_filter (signed_at 4 rd) (uwrap 32)).

Definition xdr_double (dp : Z) : M bool :=
  let '(i0, i1) := if big_endian then (dp, dp + 4) else (dp + 4, dp) in
  do s <- get_st;
  match x_op s with
  | XDR_ENCODE =>
      do v <- peek (load_n 4 i0);
      do rv <- x_putint32 (swrap 32 v);
      if negb rv then ret false else do v <- peek (load_n 4 i1); x_putint32 (swrap 32 v)
  | XDR_DECODE =>
      do t <- x_getint32;
      match t with
      | None => ret false
      | Some t =>
          run on_mem (store_n 4 i0 t);
          do t <- x_getint32;
          match t with
          | None => ret false
          | Some t => run on_mem (store_n 4 i1 t); ret true
          end
      end
  | XDR_FREE => ret true
  end.

(** ** xdr_array.c *)

Fixpoint xdr_elements (n : nat) (target elsize : Z) (elproc : xdrproc_t) : M bool :=
  match n with
  | O => ret true
  | Datatypes.S n =>
      do stat <- elproc target;
      if stat : bool then xdr_elements n (target + elsize) elsize elproc else ret false
  end.

Definition xdr_array (addrp sizep maxsize elsize : Z) (elproc : xdrproc_t) : M bool :=
  do target <- load_ptr addrp;
  do b <- xdr_u_int sizep;
  if negb b then ret false
  else
    do c <- peek (load_n 4 sizep);
    do s <- get_st;
    (* the division is made unless the first comparison holds *)
    do big <- (if maxsize <? c then ret true else if elsize =? 0 then fault else ret (UINT_MAX / elsize <? c));
    if (big : bool) && negb (bool_decide (x_op s = XDR_FREE)) then ret false
    else
      let nodesize := uwrap 32 (c * elsize) in
      do target <-
        (if target =? NULL then
           match x_op s with
           | XDR_DECODE =>
               if c =? 0 then ret (inr true)
               else
                 do target <- mem_alloc nodesize;
                 run store_ptr addrp target;
                 if target =? NULL then run op_errno ENOMEM; ret (inr false)
                 else run on_mem (memset fuel target 0 nodesize); ret (inl target)
           | XDR_FREE => ret (inr true)
           | XDR_ENCODE => ret (inl target)
           end
         else ret (inl target));
      match target with
      | inr r => ret r
      | inl target =>
          do stat <- xdr_elements (Z.to_nat c) target elsize elproc;
          do s <- get_st;
          if bool_decide (x_op s = XDR_FREE) then
            do a <- load_ptr addrp;
            run mem_free a nodesize;
            run store_ptr addrp NULL;
            ret stat
          else ret stat
      end.

Definition xdr_vector (basep nelem elemsize : Z) (xdr_elem : xdrproc_t) : M bool :=
  xdr_elements (Z.to_nat nelem) basep elemsize xdr_elem.

(** ** xdr_reference.c *)

Definition xdr_reference (pp size : Z) (proc : xdrproc_t) : M bool :=
  do loc <- load_ptr pp;
  do s <- get_st;
  do loc <-
    (if loc =? NULL then
       match x_op s with
       | XDR_FREE => ret (inr true)
       | XDR_DECODE =>
           do loc <- mem_alloc size;
           run store_ptr pp loc;
           if loc =? NULL then run op_errno ENOMEM; ret (inr false)
           else run on_mem (memset fuel loc 0 size); ret (inl loc)
       | XDR_ENCODE => ret (inl loc)
       end
     else ret (inl loc));
  match loc with
  | inr r => ret r
  | inl loc =>
      do stat <- proc loc;
      do s <- get_st;
      if bool_decide (x_op s = XDR_FREE) then
        run mem_free loc size;
        run store_ptr pp NULL;
        ret stat
      else ret stat
  end.

Definition xdr_pointer (objpp obj_size : Z) (xdr_obj : xdrproc_t) : M bool :=
  do p <- load_ptr objpp;
  let more_data := if p =? NULL then 0 else 1 in
  do '(b, w) <- bool_filter (ret more_data);
  if negb b then ret false
  else if default more_data w =? 0 then run store_ptr objpp NULL; ret true
  else xdr_reference objpp obj_size xdr_obj.
End filters.

(** ** xdr_mem.c *)

(** The handle; [x_ops] is one of the two tables. *)
Record XDR := { xh_op : xdr_op; x_aligned : bool; x_private : Z; x_base : Z; x_handy : Z }.

(** The handle beside the rest of the state. *)
Record xstate (St : Type) := Xstate { xs_h : XDR; xs_st : St }.
Arguments Xstate {St}.
Arguments xs_h {St}.
Arguments xs_st {St}.

Section xstate_alloc.
Context {St : Type} `{AllocOps St}.

(** A computation on the rest of the state. *)
Definition in_st {A} (c : C St A) : C (xstate St) A :=
  fun s => match c (xs_st s) with Some (a, h) => Some (a, Xstate (xs_h s) h) | None => None end.

#[global] Instance xstate_alloc : AllocOps (xstate St) := {|
  st_mem := fun s => st_mem (xs_st s);
  st_set_mem := fun s m => Xstate (xs_h s) (st_set_mem (xs_st s) m);
  st_errno := fun s => st_errno (xs_st s);
  op_errno := fun e => in_st (op_errno e);
  op_malloc := fun f n => in_st (op_malloc f n);
  op_calloc := fun f n k => in_st (op_calloc f n k);
  op_realloc := fun f p n => in_st (op_realloc f p n);
  op_free := fun f p => in_st (op_free f p) |}.
End xstate_alloc.

Section xdrmem.
Context `{Arch} {St : Type} `{AllocOps St}.
Variable fuel : nat.

Abbreviation M A := (C (xstate St) A).

Definition xh (f : XDR -> XDR) : M unit := upd (fun s => Xstate (f (xs_h s)) (xs_st s)).
Definition set_handy (n : Z) : M unit :=
  xh (fun h => {| xh_op := xh_op h; x_aligned := x_aligned h; x_private := x_private h; x_base := x_base h; x_handy := n |}).
Definition set_private (p : Z) : M unit :=
  xh (fun h => {| xh_op := xh_op h; x_aligned := x_aligned h; x_private := p; x_base := x_base h; x_handy := x_handy h |}).

Definition handle : M XDR := do s <- get_st; ret (xs_h s).

Definition xdrmem_create (addr size : Z) (op : xdr_op) : XDR := {|
  xh_op := op; x_aligned := Z.land addr 3 =? 0; x_private := addr; x_base := addr; x_handy := size |}.

(** The frame of the operations: the test and the moves around [body], which gets
    the current position. *)
Definition xdrmem_take {A} (len : Z) (fail : A) (body : Z -> M A) : M A :=
  do h <- handle;
  if x_handy h <? len then ret fail
  else
    run set_handy (x_handy h - len);
    do r <- body (x_private h);
    run set_private (x_private h + len);
    ret r.

Definition xdrmem_getlong_aligned : M (option Z) :=
  xdrmem_take 4 None (fun p => do w <- peek (load_n 4 p); ret (Some (swrap 32 (xdr_ntohl w)))).
Definition xdrmem_putlong_aligned (l : Z) : M bool :=
  xdrmem_take 4 false (fun p => run on_mem (store_n 4 p (xdr_ntohl (uwrap 32 l))); ret true).

(** The local [l] is filled from the bytes, or copied to them. *)
Definition xdrmem_getlong_unaligned : M (option Z) :=
  xdrmem_take 4 None (fun p => do l <- peek (load_bytes p 4); ret (Some (xdr_ntohl (word_of_bytes l)))).
Definition xdrmem_putlong_unaligned (l : Z) : M bool :=
  xdrmem_take 4 false (fun p => run on_mem (store_bytes p (bytes_of_int 4 (xdr_ntohl (uwrap 32 l)))); ret true).

Definition xdrmem_getbytes (addr len : Z) : M bool :=
  xdrmem_take len false (fun p => do _ <- on_mem (memmove fuel addr p len); ret true).
Definition xdrmem_putbytes (addr len : Z) : M bool :=
  xdrmem_take len false (fun p => do _ <- on_mem (memmove fuel p addr len); ret true).

Definition xdrmem_getpos : M Z := do h <- handle; ret (uwrap 32 (x_private h - x_base h)).

Definition xdrmem_setpos (pos : Z) : M bool :=
  do h <- handle;
  let newaddr := uwrap long_bits (x_base h + pos) in
  let lastaddr := uwrap long_bits (x_private h + x_handy h) in
  let handy := uwrap long_bits (lastaddr - newaddr) in
  if (lastaddr <? newaddr) || (newaddr <? x_base h) || negb (handy =? uwrap 32 handy) then ret false
  else
    run set_private newaddr;
    run set_handy (uwrap 32 handy);
    ret true.

Definition xdrmem_inline_aligned (len : Z) : M Z :=
  do h <- handle;
  if len <=? x_handy h then
    run set_handy (x_handy h - len);
    run set_private (x_private h + len);
    ret (x_private h)
  else ret 0.
Definition xdrmem_inline_unaligned (len : Z) : M Z := ret 0.

Definition xdrmem_getint32_aligned : M (option Z) :=
  xdrmem_take 4 None (fun p => do w <- peek (load_n 4 p); ret (Some (swrap 32 (xdr_ntohl w)))).
Definition xdrmem_putint32_aligned (i : Z) : M bool :=
  xdrmem_take 4 false (fun p => run on_mem (store_n 4 p (xdr_ntohl (uwrap 32 i))); ret true).
Definition xdrmem_getint32_unaligned : M (option Z) :=
  xdrmem_take 4 None (fun p => do l <- peek (load_bytes p 4); ret (Some (swrap 32 (xdr_ntohl (word_of_bytes l))))).
Definition xdrmem_putint32_unaligned (i : Z) : M bool :=
  xdrmem_take 4 false (fun p => run on_mem (store_bytes p (bytes_of_int 4 (xdr_ntohl (uwrap 32 i)))); ret true).

(** The table of the handle. *)
Definition by_table {A} (aligned unaligned : M A) : M A := do h <- handle; if x_aligned h then aligned else unaligned.

Definition xdrmem_ops : XdrOps (xstate St) := {|
  x_op := fun s => xh_op (xs_h s);
  x_getlong := by_table xdrmem_getlong_aligned xdrmem_getlong_unaligned;
  x_putlong := fun l => by_table (xdrmem_putlong_aligned l) (xdrmem_putlong_unaligned l);
  x_getbytes := xdrmem_getbytes;
  x_putbytes := xdrmem_putbytes;
  x_getpostn := xdrmem_getpos;
  x_setpostn := xdrmem_setpos;
  x_inline := fun n => by_table (xdrmem_inline_aligned n) (xdrmem_inline_unaligned n);
  x_getint32 := by_table xdrmem_getint32_aligned xdrmem_getint32_unaligned;
  x_putint32 := fun i => by_table (xdrmem_putint32_aligned i) (xdrmem_putint32_unaligned i) |}.

(** ** xdr_sizeof.c *)

Definition x_putlong_count (_ : Z) : M bool :=
  do h <- handle; run set_handy (uwrap 32 (x_handy h + BYTES_PER_XDR_UNIT)); ret true.
Definition x_putbytes_count (_ len : Z) : M bool :=
  do h <- handle; run set_handy (uwrap 32 (x_handy h + len)); ret true.
Definition x_getpostn_count : M Z := do h <- handle; ret (x_handy h).
Definition x_setpostn_count (_ : Z) : M bool := ret false.

Definition set_base (b : Z) : M unit :=
  xh (fun h => {| xh_op := xh_op h; x_aligned := x_aligned h; x_private := x_private h; x_base := b; x_handy := x_handy h |}).

Definition x_inline_count (len : Z) : M Z :=
  do h <- handle;
  if len =? 0 then ret NULL
  else if negb (bool_decide (xh_op h = XDR_ENCODE)) then ret NULL
  else if len <? uwrap 32 (x_base h) then
    run set_handy (uwrap 32 (x_handy h + len));
    ret (x_private h)
  else
    run (if negb (x_private h =? NULL) then op_free fuel (x_private h) else ret tt);
    do p <- op_calloc fuel 1 len;
    run set_private p;
    if p =? NULL then run set_base 0; ret NULL
    else
      run set_base len;
      run set_handy (uwrap 32 (x_handy h + len));
      ret p.

Definition harmless {A} (zero : A) : M A := ret zero.

Definition sizeof_ops : XdrOps (xstate St) := {|
  x_op := fun s => xh_op (xs_h s);
  x_getlong := harmless None;
  x_putlong := x_putlong_count;
  x_getbytes := fun _ _ => harmless false;
  x_putbytes := x_putbytes_count;
  x_getpostn := x_getpostn_count;
  x_setpostn := x_setpostn_count;
  x_inline := x_inline_count;
  x_getint32 := harmless None;
  x_putint32 := x_putlong_count |}.

(** The state of the caller, without a handle. *)
Definition xdr_sizeof (func : Z -> M bool) (data : Z) : C St Z :=
  fun h =>
    match func data (Xstate {| xh_op := XDR_ENCODE; x_aligned := true; x_private := NULL; x_base := 0; x_handy := 0 |} h) with
    | None => None
    | Some (stat, s) =>
        (do _ <- (if negb (x_private (xs_h s) =? NULL) then op_free fuel (x_private (xs_h s)) else ret tt);
         ret (if stat : bool then x_handy (xs_h s) else 0)) (xs_st s)
    end.
End xdrmem.
