(* ===== verification/XdrSpec.v ===== *)
(** * XDR: encodings and contracts

    The encoding of the basic types (RFC 4506: units of four bytes, the most
    significant first), what the filters require of an encoding stream, and the
    contracts of the filters. *)

From stdpp Require Import base list gmap.
From Stdlib Require Import ZArith Lia.
From S2P Require Import Prelude CMem CInt StrLocal StrMem StrStr Malloc MallocList Alloc Xdr.

Local Open Scope Z_scope.

(** ** Units *)

(** A unit and its value. *)
Definition be32 (v : Z) : list Z := rev (le_split 4 v).
Definition be_val (l : list Z) : Z := le_combine (rev l).

Abbreviation zlen l := (Z.of_nat (length l)).

Lemma be32_length v : length (be32 v) = 4%nat.
Proof. unfold be32. by rewrite length_rev, length_le_split. Qed.

Lemma be32_bytes v : Forall is_byte (be32 v).
Proof. apply Forall_rev, le_split_bytes. Qed.

Lemma be_val_be32 v : be_val (be32 v) = uwrap 32 v.
Proof. unfold be_val, be32. rewrite rev_involutive, le_combine_split. done. Qed.

Lemma be32_uwrap v : be32 (uwrap 32 v) = be32 v.
Proof. unfold be32. by rewrite le_split_uwrap. Qed.

Lemma be32_be_val l : length l = 4%nat -> Forall is_byte l -> be32 (be_val l) = l.
Proof.
  intros Hl Hb. unfold be32, be_val. rewrite <- (rev_involutive l) at 2. f_equal. rewrite <- Hl, <- (length_rev l). apply le_split_combine. by apply Forall_rev.
Qed.

Lemma be_val_range l : length l = 4%nat -> Forall is_byte l -> 0 <= be_val l < 2 ^ 32.
Proof.
  intros Hl Hb. unfold be_val. pose proof (le_combine_range (rev l) (Forall_rev Hb)) as Hr. rewrite length_rev, Hl in Hr. done.
Qed.

Lemma lor_bytes b0 b1 b2 b3 :
  0 <= b0 < 256 -> 0 <= b1 < 256 -> 0 <= b2 < 256 -> 0 <= b3 < 256 ->
  Z.lor (Z.lor (Z.lor (Z.shiftl b0 24) (Z.shiftl b1 16)) (Z.shiftl b2 8)) b3 = b0 * 2 ^ 24 + b1 * 2 ^ 16 + b2 * 2 ^ 8 + b3.
Proof.
  intros. rewrite !Z.shiftl_mul_pow2 by lia. rewrite (lor_low 24 (b0 * 2 ^ 24) (b1 * 2 ^ 16)) by (lia || by apply Z.mod_mul).
  rewrite (lor_low 16 _ (b2 * 2 ^ 8)); [|lia|lia|replace (b0 * 2 ^ 24 + b1 * 2 ^ 16) with ((b0 * 2 ^ 8 + b1) * 2 ^ 16) by lia; by apply Z.mod_mul].
  apply (lor_low 8); [lia|lia|]. replace (b0 * 2 ^ 24 + b1 * 2 ^ 16 + b2 * 2 ^ 8) with ((b0 * 2 ^ 16 + b1 * 2 ^ 8 + b2) * 2 ^ 8) by lia. by apply Z.mod_mul.
Qed.

Section order.
Context `{Arch}.

(** The memory representation of the swapped number is the unit. *)
Lemma ntohl_bytes v : 0 <= v < 2 ^ 32 -> bytes_of_int 4 (xdr_ntohl v) = be32 v.
Proof.
  intros Hv. unfold xdr_ntohl, bytes_of_int, be32. destruct big_endian; [done|]. cbn [le_split rev app]. set (b0 := uwrap 8 v). set (b1 := uwrap 8 (v / 256)).
  set (b2 := uwrap 8 (v / 256 / 256)). set (b3 := uwrap 8 (v / 256 / 256 / 256)).
  assert (forall x, 0 <= uwrap 8 x < 256) as Hr by (intros x; unfold uwrap; apply Z.mod_pos_bound; lia).
  pose proof (Hr v) as R0. pose proof (Hr (v / 256)) as R1. pose proof (Hr (v / 256 / 256)) as R2. pose proof (Hr (v / 256 / 256 / 256)) as R3. fold b0 b1 b2 b3 in R0, R1, R2, R3.
  rewrite lor_bytes by done.
  set (w := b0 * 2 ^ 24 + b1 * 2 ^ 16 + b2 * 2 ^ 8 + b3).
  assert (forall a q, uwrap 8 (q * 256 + a) = uwrap 8 a) as Hm by (intros a q; unfold uwrap; rewrite Z.add_comm; by apply Z.mod_add).
  assert (w / 256 = b0 * 2 ^ 16 + b1 * 2 ^ 8 + b2) as -> by (symmetry; apply Z.div_unique with (r := b3); lia).
  assert ((b0 * 2 ^ 16 + b1 * 2 ^ 8 + b2) / 256 = b0 * 2 ^ 8 + b1) as -> by (symmetry; apply Z.div_unique with (r := b2); lia).
  assert ((b0 * 2 ^ 8 + b1) / 256 = b0) as -> by (symmetry; apply Z.div_unique with (r := b1); lia).
  assert (forall b, 0 <= b < 256 -> uwrap 8 b = b) as Hs by (intros b Hb; by apply uwrap_small).
  f_equal; [|f_equal; [|f_equal; [|f_equal]]].
  - subst w. replace (b0 * 2 ^ 24 + b1 * 2 ^ 16 + b2 * 2 ^ 8 + b3) with ((b0 * 2 ^ 16 + b1 * 2 ^ 8 + b2) * 256 + b3) by lia. rewrite Hm. by apply Hs.
  - replace (b0 * 2 ^ 16 + b1 * 2 ^ 8 + b2) with ((b0 * 2 ^ 8 + b1) * 256 + b2) by lia. rewrite Hm. by apply Hs.
  - replace (b0 * 2 ^ 8 + b1) with (b0 * 256 + b1) by lia. rewrite Hm. by apply Hs.
  - by apply Hs.
Qed.

Lemma ntohl_word l : length l = 4%nat -> Forall is_byte l -> xdr_ntohl (word_of_bytes l) = be_val l.
Proof.
  intros Hl Hb. unfold word_of_bytes, be_val. destruct l as [|b0 [|b1 [|b2 [|b3 [|]]]]]; try done.
  assert (xdr_ntohl (le_combine (if big_endian then rev [b0; b1; b2; b3] else [b0; b1; b2; b3])) = le_combine [b3; b2; b1; b0]) as ->; [|done].
  unfold xdr_ntohl, bytes_of_int. destruct big_endian; [done|]. pose proof (le_split_combine [b0; b1; b2; b3] Hb) as E. cbn [length] in E. rewrite E.
  do 4 (apply Forall_cons in Hb as [? Hb]). unfold is_byte in *. rewrite lor_bytes by done.
  cbn [le_combine]. lia.
Qed.
End order.

(** ** Encoding streams *)

(** Setting the memory of a state. *)
Class MemLens (S : Type) `{AllocOps S} := {
  lens_get_set : forall s m, st_mem (st_set_mem s m) = m;
  lens_set_get : forall s, st_set_mem s (st_mem s) = s;
  lens_set_set : forall s m m', st_set_mem (st_set_mem s m) m' = st_set_mem s m' }.

(** A stream takes bytes while they fit; it may write to the addresses [enc_buf].
    Its position is at a unit when [enc_unit] holds; a block is shorter than
    [enc_limit]. *)
Class EncStream (S : Type) `{Arch} `{AllocOps S} `{XdrOps S} := {
  enc_ok : S -> Prop;
  enc_unit : S -> Prop;
  fits : S -> Z -> bool;
  wrote : S -> list Z -> S;
  enc_buf : S -> Z -> Prop;
  enc_limit : Z;
  enc_op : forall s, enc_ok s -> x_op s = XDR_ENCODE;
  enc_mem_ok : forall s, enc_ok s -> mem_ok (st_mem s);
  fits_zero : forall s, enc_ok s -> fits s 0 = true;
  fits_less : forall s n k, 0 <= n <= k -> fits s k = true -> fits s n = true;
  wrote_nil : forall s, wrote s [] = s;
  wrote_app : forall s l1 l2, wrote (wrote s l1) l2 = wrote s (l1 ++ l2);
  wrote_ok : forall s l, enc_ok s -> Forall is_byte l -> fits s (Z.of_nat (length l)) = true -> enc_ok (wrote s l);
  wrote_unit : forall s l, enc_unit s -> (4 | Z.of_nat (length l)) -> enc_unit (wrote s l);
  wrote_fits : forall s l n, 0 <= n -> fits s (Z.of_nat (length l)) = true -> fits (wrote s l) n = fits s (Z.of_nat (length l) + n);
  wrote_mem : forall s l a, fits s (Z.of_nat (length l)) = true -> ~ enc_buf s a -> st_mem (wrote s l) !! a = st_mem s !! a;
  wrote_buf : forall s l a, fits s (Z.of_nat (length l)) = true -> enc_buf (wrote s l) a -> enc_buf s a;
  enc_putlong : forall s v, enc_ok s -> enc_unit s -> x_putlong v s = Some (fits s 4, if fits s 4 then wrote s (be32 v) else s);
  enc_putint32 : forall s v, enc_ok s -> enc_unit s -> x_putint32 v s = Some (fits s 4, if fits s 4 then wrote s (be32 v) else s);
  enc_putbytes : forall s p l, enc_ok s -> bytes_at (st_mem s) p l -> (forall a, p <= a < p + Z.of_nat (length l) -> ~ enc_buf s a) ->
    Z.of_nat (length l) < enc_limit ->
    x_putbytes p (Z.of_nat (length l)) s = Some (fits s (Z.of_nat (length l)), if fits s (Z.of_nat (length l)) then wrote s l else s) }.

Section encode.
Context `{Arch} {S : Type} `{AllocOps S} `{XdrOps S} {Lens : MemLens S} {Enc : EncStream S}.

(** The call puts the bytes [w] when they fit; otherwise it puts a part of them and
    fails. *)
Definition encodes (s : S) (c : C S bool) (w : list Z) : Prop :=
  if fits s (zlen w) then c s = Some (true, wrote s w)
  else exists w' w'', w = w' ++ w'' /\ fits s (zlen w') = true /\ c s = Some (false, wrote s w').

(** The object is outside of the stream. *)
Definition apart (s : S) (p n : Z) : Prop := forall a, p <= a < p + n -> ~ enc_buf s a.

Lemma wrote_bytes s l p o : fits s (zlen l) = true -> apart s p (zlen o) -> bytes_at (st_mem s) p o -> bytes_at (st_mem (wrote s l)) p o.
Proof. intros Hf Ha Hb i Hi. rewrite wrote_mem; [by apply Hb|done|]. apply Ha. lia. Qed.

Lemma wrote_apart s l p n : fits s (zlen l) = true -> apart s p n -> apart (wrote s l) p n.
Proof. intros Hf Ha a Hr Hb. by apply (Ha a Hr), (wrote_buf s l). Qed.

(** One call after the other. *)
Lemma encodes_seq s c1 c2 w1 w2 :
  encodes s c1 w1 -> (fits s (zlen w1) = true -> encodes (wrote s w1) c2 w2) ->
  encodes s (do b <- c1; if b : bool then c2 else ret false)%C (w1 ++ w2).
Proof.
  intros E1 E2. unfold encodes in *. rewrite length_app, Nat2Z.inj_add. destruct (fits s (zlen w1)) eqn:F1.
  - specialize (E2 eq_refl). rewrite wrote_fits in E2 by (done || lia). unfold bind. rewrite E1. destruct (fits s (zlen w1 + zlen w2)) eqn:F2.
    + by rewrite E2, wrote_app.
    + destruct E2 as (w' & w'' & -> & F & E2). rewrite wrote_fits in F by (done || lia). exists (w1 ++ w'), w''.
      rewrite length_app, Nat2Z.inj_add, app_assoc, E2, wrote_app. done.
  - assert (fits s (zlen w1 + zlen w2) = false) as -> by (destruct (fits s (zlen w1 + zlen w2)) eqn:F; [by rewrite (fits_less s (zlen w1) (zlen w1 + zlen w2)) in F1 by (done || lia)|done]).
    destruct E1 as (w' & w'' & -> & F & E1). exists w', (w'' ++ w2). unfold bind. rewrite E1, app_assoc. done.
Qed.

Lemma encodes_eq s (c c' : C S bool) w : c s = c' s -> encodes s c' w -> encodes s c w.
Proof. intros E. unfold encodes. by rewrite E. Qed.

Lemma bind_ext {A B} (c : C S A) (k k' : A -> C S B) s : (forall a t, k a t = k' a t) -> bind c k s = bind c k' s.
Proof. intros E. unfold bind. destruct (c s) as [[a t]|]; [apply E|done]. Qed.

Lemma encodes_then s c1 c2 w1 w2 :
  encodes s c1 w1 -> (fits s (zlen w1) = true -> encodes (wrote s w1) c2 w2) ->
  encodes s (do b <- c1; if negb b then ret false else c2)%C (w1 ++ w2).
Proof. intros E1 E2. eapply encodes_eq; [|by apply (encodes_seq s c1 c2)]. apply bind_ext. by intros []. Qed.

Lemma encodes_unit s (c : C S bool) v : enc_ok s -> c s = Some (fits s 4, if fits s 4 then wrote s (be32 v) else s) -> encodes s c (be32 v).
Proof.
  intros Hok E. unfold encodes. rewrite be32_length. change (Z.of_nat 4) with 4. rewrite E. destruct (fits s 4) eqn:F; [done|].
  exists [], (be32 v). rewrite wrote_nil. split_and!; try done. by apply fits_zero.
Qed.

(** The filter [f] puts [enc v] for an object with the bytes [obj v]. *)
Definition writes {A} (f : Z -> C S bool) (al : Z) (valid : A -> Prop) (obj enc : A -> list Z) : Prop :=
  forall s p v, valid v -> enc_ok s -> enc_unit s -> p mod al = 0 -> bytes_at (st_mem s) p (obj v) -> apart s p (zlen (obj v)) -> encodes s (f p) (enc v).

Lemma peek_at {A} (c : C mem A) s a : c (st_mem s) = Some (a, st_mem s) -> peek c s = Some (a, s).
Proof. intros E. unfold peek. by rewrite E. Qed.

Lemma load_obj s n p v : p mod Z.of_nat n = 0 -> bytes_at (st_mem s) p (bytes_of_int n v) -> 0 <= v < 2 ^ (8 * Z.of_nat n) -> peek (load_n n p) s = Some (v, s).
Proof. intros Ha Hb Hv. apply peek_at. rewrite (load_n_at _ _ _ v) by done. by rewrite uwrap_small. Qed.

Lemma load_low s n p v : p mod Z.of_nat n = 0 -> bytes_at (st_mem s) p (bytes_of_int n v) -> peek (load_n n p) s = Some (uwrap (8 * Z.of_nat n) v, s).
Proof. intros Ha Hb. apply peek_at. by apply load_n_at. Qed.

(** An integer object of [n] bytes. *)
Definition int_obj (n : nat) (v : Z) : Prop := 0 <= v < 2 ^ (8 * Z.of_nat n).

Definition fetch (g : Z -> Z) (rd : C S Z) : C S Z := do v <- rd; ret (g v).

Lemma long_filter_enc s rd conv l : enc_ok s -> enc_unit s -> rd s = Some (l, s) ->
  long_filter rd conv s = Some ((fits s 4, None), if fits s 4 then wrote s (be32 l) else s).
Proof.
  intros Hok Hu E. unfold long_filter, bind, get_st. rewrite enc_op by done. rewrite E, enc_putlong by done. done.
Qed.

Lemma int32_filter_enc s rd conv l : enc_ok s -> enc_unit s -> rd s = Some (l, s) ->
  int32_filter rd conv s = Some ((fits s 4, None), if fits s 4 then wrote s (be32 l) else s).
Proof.
  intros Hok Hu E. unfold int32_filter, bind, get_st. rewrite enc_op by done. rewrite E, enc_putint32 by done. done.
Qed.

Lemma at_ptr_writes n (f : C S Z -> C S filtered) (g : Z -> Z) :
  (forall s rd v, enc_ok s -> enc_unit s -> rd s = Some (v, s) -> f rd s = Some ((fits s 4, None), if fits s 4 then wrote s (be32 (g v)) else s)) ->
  writes (fun p => at_ptr n p f) (Z.of_nat n) (int_obj n) (bytes_of_int n) (fun v => be32 (g v)).
Proof.
  intros Hf s p v Hv Hok Hu Hal Hb Hap. apply encodes_unit; [done|]. unfold at_ptr, bind. rewrite (Hf s _ v) by (done || by apply load_obj). done.
Qed.

(** ** The basic filters *)

Lemma signed_at_eq n (rd : C S Z) s v : rd s = Some (v, s) -> signed_at n rd s = Some (swrap (8 * Z.of_nat n) v, s).
Proof. intros E. unfold signed_at, bind. by rewrite E. Qed.

Lemma be32_swrap v : be32 (swrap 32 v) = be32 v.
Proof. rewrite <- be32_uwrap, uwrap_swrap by lia. apply be32_uwrap. Qed.

Variable char_signed : bool.
Variable enum_size : Z.

(** The filters for integers of up to four bytes: the size of the object, and the
    number for the value of its bytes.  An enum is among them where it has the size
    of an int. *)
Definition basic_ints : list ((Z -> C S bool) * (nat * (Z -> Z))) := [
  (xdr_int, (4%nat, swrap 32)); (xdr_u_int, (4%nat, id));
  (xdr_int32_t, (4%nat, swrap 32)); (xdr_u_int32_t, (4%nat, swrap 32)); (xdr_uint32_t, (4%nat, swrap 32)); (xdr_float, (4%nat, swrap 32));
  (xdr_short, (2%nat, swrap 16)); (xdr_u_short, (2%nat, id)); (xdr_int16_t, (2%nat, swrap 16)); (xdr_u_int16_t, (2%nat, id)); (xdr_uint16_t, (2%nat, id));
  (xdr_int8_t, (1%nat, swrap 8)); (xdr_u_int8_t, (1%nat, id)); (xdr_uint8_t, (1%nat, id));
  (xdr_char char_signed, (1%nat, char_value char_signed)); (xdr_u_char, (1%nat, id))] ++
  (if enum_size =? 4 then [(xdr_enum enum_size, (4%nat, swrap 32))] else []).

(** xdr_char and xdr_u_char store the object back. *)
Lemma char_writes (conv : Z -> Z) (filter : C S Z -> C S filtered) :
  (forall s rd l, enc_ok s -> enc_unit s -> rd s = Some (l, s) -> filter rd s = Some ((fits s 4, None), if fits s 4 then wrote s (be32 l) else s)) ->
  (forall v, int_obj 1 v -> uwrap 8 (conv v) = v) ->
  writes (fun cp => do v <- peek (load_n 1 cp); let i := conv v in do '(b, w) <- filter (ret i);
    if b : bool then run on_mem (store_n 1 cp (default i w)); ret true else ret false)%C 1 (int_obj 1) (bytes_of_int 1) (fun v => be32 (conv v)).
Proof.
  intros Hf Hc s p v Hv Hok Hu Hal Hb Hap. apply encodes_unit; [done|]. unfold bind at 1. rewrite (load_obj s 1 p v) by done.
  unfold bind at 1. rewrite (Hf s _ (conv v)) by done. destruct (fits s 4) eqn:F; [|done]. cbn [default].
  assert (zlen (be32 (conv v)) = 4) as E4 by (by rewrite be32_length). unfold bind, on_mem.
  assert (bytes_at (st_mem (wrote s (be32 (conv v)))) p (bytes_of_int 1 v)) as Hb' by (apply wrote_bytes; [by rewrite E4|done|done]).
  rewrite store_n_at; [|done|by apply bytes_at_mapped in Hb'; rewrite bytes_of_int_length in Hb'].
  rewrite <- (bytes_of_int_uwrap 1 8 (conv v)), Hc by (done || lia). rewrite put_bytes_same by done. by rewrite lens_set_get.
Qed.

Lemma char_value_back v : int_obj 1 v -> uwrap 8 (char_value char_signed v) = v.
Proof. intros Hv. unfold char_value. destruct char_signed; [rewrite uwrap_swrap by lia|]; by apply uwrap_small. Qed.

Lemma basic_writes : Forall (fun '(f, (n, g)) => writes f (Z.of_nat n) (int_obj n) (bytes_of_int n) (fun v => be32 (g v))) basic_ints.
Proof.
  apply Forall_app. split; [repeat (apply Forall_cons; split); [..|apply Forall_nil; done]|destruct (Z.eqb_spec enum_size 4) as [->|_]; [apply Forall_singleton|apply Forall_nil; done]];
    try (apply at_ptr_writes; intros s rd v Hok Hu E; first [apply long_filter_enc|apply int32_filter_enc]; try done; by apply signed_at_eq).
  - apply (char_writes (char_value char_signed) int_filter); [intros; by apply long_filter_enc|apply char_value_back].
  - apply (char_writes id u_int_filter); [intros; by apply long_filter_enc|]. intros v Hv. by apply uwrap_small.
Qed.

(** ** The other scalar types *)

Lemma xdr_bool_writes : writes xdr_bool 4 (int_obj 4) (bytes_of_int 4) (fun v => be32 (if v =? 0 then 0 else 1)).
Proof.
  apply at_ptr_writes. intros s rd v Hok Hu E. unfold bool_filter. apply long_filter_enc; try done. unfold bind. by rewrite E.
Qed.

(** A long is encoded when it fits. *)
Definition long_obj (v : Z) : Prop := 0 <= v < 2 ^ long_bits /\ - 2 ^ 31 <= swrap long_bits v < 2 ^ 31.
Definition u_long_obj (v : Z) : Prop := 0 <= v < 2 ^ 32.

Lemma long_bits_size : long_bits = 8 * Z.of_nat long_size /\ 32 <= long_bits.
Proof. unfold long_bits, long_size. destruct long64; lia. Qed.

Lemma xdr_long_writes : writes xdr_long (Z.of_nat long_size) long_obj (bytes_of_int long_size) (fun v => be32 (swrap long_bits v)).
Proof.
  intros s p v [Hv Hf] Hok Hu Hal Hb Hap. apply encodes_unit; [done|]. destruct long_bits_size as [El Hl]. unfold xdr_long, bind at 1, get_st. rewrite enc_op by done.
  unfold bind at 1. rewrite (load_obj s long_size p v) by (done || rewrite <- El; done). rewrite (swrap_small 32 (swrap long_bits v)), Z.eqb_refl, orb_true_r by (lia || done). by apply enc_putlong.
Qed.

Lemma xdr_u_long_writes : writes xdr_u_long (Z.of_nat long_size) u_long_obj (bytes_of_int long_size) be32.
Proof.
  intros s p v Hv Hok Hu Hal Hb Hap. apply encodes_unit; [done|]. destruct long_bits_size as [El Hl]. unfold u_long_obj in Hv. unfold xdr_u_long, bind at 1, get_st. rewrite enc_op by done.
  assert (0 <= v < 2 ^ (8 * Z.of_nat long_size)) as Hv' by (rewrite <- El; assert (2 ^ 32 <= 2 ^ long_bits) by (apply Z.pow_le_mono_r; lia); lia).
  unfold bind at 1. rewrite (load_obj s long_size p v) by done. rewrite uwrap_small, Z.eqb_refl, andb_false_r by done. by apply enc_putlong.
Qed.

(** Numbers of 64 bits: the high unit first. *)
Definition be64 (v : Z) : list Z := be32 (v / 2 ^ 32) ++ be32 v.

Lemma be32_high v : be32 (Z.shiftr (swrap 64 v) 32) = be32 (v / 2 ^ 32).
Proof.
  assert (exists q, swrap 64 v = v + q * 2 ^ 32 * 2 ^ 32) as [q ->].
  { exists (- ((v + 2 ^ 63) / 2 ^ 64)). unfold swrap. change (64 - 1) with 63. pose proof (Z.div_mod (v + 2 ^ 63) (2 ^ 64) ltac:(lia)). lia. }
  rewrite Z.shiftr_div_pow2, Z.div_add by lia. rewrite <- be32_uwrap, <- (be32_uwrap (v / 2 ^ 32)). f_equal. unfold uwrap. by rewrite Z.mod_add by lia.
Qed.

Lemma encodes_int32 s v : enc_ok s -> enc_unit s -> encodes s (x_putint32 v) (be32 v).
Proof. intros Hok Hu. apply encodes_unit; [done|]. by apply enc_putint32. Qed.

Lemma wrote_unit_ok s v : enc_ok s -> enc_unit s -> fits s (zlen (be32 v)) = true -> enc_ok (wrote s (be32 v)) /\ enc_unit (wrote s (be32 v)).
Proof. intros Hok Hu F. split; [apply wrote_ok; [done|apply be32_bytes|done]|]. apply wrote_unit; [done|]. rewrite be32_length. by exists 1. Qed.

Lemma encodes_two s u v : enc_ok s -> enc_unit s -> encodes s (do b <- x_putint32 u; if b : bool then x_putint32 v else ret false)%C (be32 u ++ be32 v).
Proof.
  intros Hok Hu. apply encodes_seq; [by apply encodes_int32|]. intros F. destruct (wrote_unit_ok s u Hok Hu F). by apply encodes_int32.
Qed.

Lemma xdr_int64_writes : writes xdr_int64_t 8 (int_obj 8) (bytes_of_int 8) be64.
Proof.
  intros s p v Hv Hok Hu Hal Hb Hap. unfold be64. rewrite <- be32_high, <- (be32_swrap (Z.shiftr _ _)), <- (be32_swrap v), <- (swrap_swrap 32 64 v) by lia.
  eapply encodes_eq; [|by apply encodes_two]. unfold xdr_int64_t, bind at 1, get_st. rewrite enc_op by done. unfold bind at 1. by rewrite (load_obj s 8 p v).
Qed.

Lemma xdr_u_int64_writes : writes xdr_u_int64_t 8 (int_obj 8) (bytes_of_int 8) be64.
Proof.
  intros s p v Hv Hok Hu Hal Hb Hap. unfold be64. rewrite <- (be32_swrap (v / _)), <- (be32_swrap v).
  eapply encodes_eq; [|by apply encodes_two]. unfold xdr_u_int64_t, bind at 1, get_st. rewrite enc_op by done. unfold bind at 1. rewrite (load_obj s 8 p v) by done.
  by rewrite Z.shiftr_div_pow2 by lia.
Qed.

(** The halves of an object of eight bytes. *)
Lemma le_split_8 v : le_split 8 v = le_split 4 v ++ le_split 4 (v / 2 ^ 32).
Proof. cbn [le_split app]. rewrite !Z.div_div by lia. done. Qed.

Lemma double_halves v : bytes_of_int 8 v = if big_endian then bytes_of_int 4 (v / 2 ^ 32) ++ bytes_of_int 4 v else bytes_of_int 4 v ++ bytes_of_int 4 (v / 2 ^ 32).
Proof. unfold bytes_of_int. rewrite le_split_8, rev_app_distr. by destruct big_endian. Qed.

Lemma be32_low v : be32 (swrap 32 (uwrap 32 v)) = be32 v.
Proof. by rewrite be32_swrap, be32_uwrap. Qed.

Lemma xdr_double_writes : writes xdr_double 4 (int_obj 8) (bytes_of_int 8) be64.
Proof.
  intros s p v Hv Hok Hu Hal Hb Hap. unfold be64. rewrite <- (be32_low (v / _)), <- (be32_low v).
  set (i0 := if big_endian then p else p + 4). set (i1 := if big_endian then p + 4 else p).
  assert (xdr_double p s = (do v <- peek (load_n 4 i0); do rv <- x_putint32 (swrap 32 v); if negb rv then ret false else do v <- peek (load_n 4 i1); x_putint32 (swrap 32 v))%C s) as E.
  { unfold xdr_double, i0, i1. destruct big_endian; unfold bind at 1, get_st; by rewrite enc_op. }
  assert (i0 mod 4 = 0 /\ i1 mod 4 = 0) as [A0 A1].
  { assert ((p + 4) mod 4 = 0) by (replace (p + 4) with (p + 1 * 4) by lia; by rewrite Z.mod_add by lia). unfold i0, i1. by destruct big_endian. }
  assert (bytes_at (st_mem s) i0 (bytes_of_int 4 (v / 2 ^ 32)) /\ bytes_at (st_mem s) i1 (bytes_of_int 4 v)) as [B0 B1].
  { rewrite double_halves in Hb. unfold i0, i1. destruct big_endian; apply bytes_at_app in Hb as [? Hb2]; rewrite bytes_of_int_length in Hb2; done. }
  assert (apart s i1 4) as Ap1 by (rewrite bytes_of_int_length in Hap; intros a Ha; apply Hap; unfold i1 in Ha; destruct big_endian; lia).
  eapply encodes_eq; [rewrite E; unfold bind at 1; rewrite (load_low s 4 i0 (v / 2 ^ 32)) by done; reflexivity|].
  apply encodes_then; [by apply encodes_int32|]. intros F. destruct (wrote_unit_ok s _ Hok Hu F) as [Hok' Hu']. eapply encodes_eq; [|by apply encodes_int32].
  unfold bind. rewrite (load_low _ 4 i1 v); [done|done|]. apply wrote_bytes; [done| |done]. by rewrite bytes_of_int_length.
Qed.

(** ** Opaque data and vectors *)

(** Bytes filled up to whole units. *)
Definition opaque (l : list Z) : list Z := l ++ replicate (Z.to_nat (xdr_rndup (zlen l))) 0.

Lemma rndup_spec n : 0 <= n -> 0 <= xdr_rndup n < 4 /\ (4 | n + xdr_rndup n).
Proof.
  intros Hn. unfold xdr_rndup, BYTES_PER_XDR_UNIT. pose proof (Z.mod_pos_bound n 4 ltac:(lia)). pose proof (Z.div_mod n 4 ltac:(lia)).
  destruct (Z.ltb_spec 0 (n mod 4)); [split; [lia|exists (n / 4 + 1); lia]|split; [lia|exists (n / 4); lia]].
Qed.

Section opaque.
Variables (xdr_zero crud : Z).

(** The four zero bytes that fill up. *)
Definition zero_at (s : S) : Prop := bytes_at (st_mem s) xdr_zero [0; 0; 0; 0] /\ apart s xdr_zero 4.

Lemma zero_wrote s l : fits s (zlen l) = true -> zero_at s -> zero_at (wrote s l).
Proof. intros F [Hb Ha]. split; [by apply wrote_bytes|by apply wrote_apart]. Qed.

Lemma encodes_bytes s p l : enc_ok s -> bytes_at (st_mem s) p l -> apart s p (zlen l) -> zlen l < enc_limit -> encodes s (x_putbytes p (zlen l)) l.
Proof.
  intros Hok Hb Ha Hl. unfold encodes. rewrite enc_putbytes by done. destruct (fits s (zlen l)) eqn:F; [done|].
  exists [], l. rewrite wrote_nil. split_and!; try done. by apply fits_zero.
Qed.

Lemma xdr_opaque_encodes s p l :
  enc_ok s -> zero_at s -> Forall is_byte l -> bytes_at (st_mem s) p l -> apart s p (zlen l) -> zlen l < enc_limit -> 4 < enc_limit ->
  encodes s (xdr_opaque xdr_zero crud p (zlen l)) (opaque l).
Proof.
  intros Hok Hz Hlb Hb Ha Hl H4. unfold xdr_opaque. destruct (Z.eqb_spec (zlen l) 0) as [E0|E0].
  { destruct l; [|simpl in E0; lia]. unfold encodes. cbn. rewrite fits_zero by done. by rewrite wrote_nil. }
  destruct (rndup_spec (zlen l) ltac:(lia)) as [Hr _]. unfold opaque. set (r := xdr_rndup (zlen l)) in *.
  eapply encodes_eq; [unfold bind at 1, get_st; rewrite enc_op by done; reflexivity|].
  apply encodes_then; [by apply encodes_bytes|]. intros F. destruct (Z.eqb_spec r 0) as [->|Hr0].
  { unfold encodes. cbn. rewrite wrote_nil, fits_zero by by apply wrote_ok. done. }
  destruct (zero_wrote s l F Hz) as [Hzb Hza]. assert (zlen (replicate (Z.to_nat r) 0) = r) as Er by (rewrite length_replicate; lia).
  rewrite <- Er at 1. apply encodes_bytes; [by apply wrote_ok| | |lia].
  - intros i Hi. rewrite length_replicate in Hi. rewrite Hzb by (simpl; lia). rewrite lookup_replicate_2 by lia.
    destruct i as [|[|[|[|]]]]; try done. lia.
  - intros a Hr'. apply Hza. lia.
Qed.

Section vector.
Context {A : Type} (f : Z -> C S bool) (al sz : Z) (valid : A -> Prop) (obj enc : A -> list Z).
Hypothesis f_writes : writes f al valid obj enc.
Hypothesis obj_size : forall v, valid v -> zlen (obj v) = sz.
Hypothesis sz_aligned : (al | sz).
Hypothesis enc_good : forall v, valid v -> Forall is_byte (enc v) /\ (4 | zlen (enc v)).

Lemma xdr_elements_encodes vs : forall s p,
  Forall valid vs -> enc_ok s -> enc_unit s -> p mod al = 0 -> bytes_at (st_mem s) p (concat (map obj vs)) -> apart s p (zlen (concat (map obj vs))) ->
  encodes s (xdr_elements (length vs) p sz f) (concat (map enc vs)).
Proof.
  induction vs as [|v vs IH]; intros s p Hv Hok Hu Hal Hb Hap; cbn [length xdr_elements map concat] in *.
  - unfold encodes. cbn. rewrite fits_zero by done. by rewrite wrote_nil.
  - apply Forall_cons in Hv as [Hv Hvs]. apply bytes_at_app in Hb as [Hb1 Hb2]. rewrite obj_size in Hb2 by done. rewrite length_app, Nat2Z.inj_add, obj_size in Hap by done.
    pose proof (obj_size v Hv) as Hsz. destruct (enc_good v Hv) as [Hg1 Hg2]. apply encodes_seq.
    + apply f_writes; try done. intros a Ha. apply Hap. lia.
    + intros F. assert (apart s (p + sz) (zlen (concat (map obj vs)))) as Ha2 by (intros a Ha; apply Hap; lia).
      apply IH; [done|by apply wrote_ok|by apply wrote_unit| |by apply wrote_bytes|by apply wrote_apart].
      destruct sz_aligned as [k ->]. destruct (Z.eq_dec al 0) as [->|Hz]; [rewrite Z.mul_0_r, Z.add_0_r; done|by rewrite Z.mod_add].
Qed.
End vector.

(** ** Counted data *)

Lemma u_int_value s v : enc_ok s -> enc_unit s -> u_int_filter (ret v) s = Some ((fits s 4, None), if fits s 4 then wrote s (be32 v) else s).
Proof. intros Hok Hu. by apply long_filter_enc. Qed.

Lemma encodes_count s v (k : option Z -> C S bool) w :
  enc_ok s -> enc_unit s -> (fits s 4 = true -> encodes (wrote s (be32 v)) (k None) w) ->
  encodes s (do '(b, r) <- u_int_filter (ret v); if negb b then ret false else k r)%C (be32 v ++ w).
Proof.
  intros Hok Hu Hk. eapply encodes_eq; [|apply (encodes_then s (x_putlong v) (k None))].
  - unfold bind. rewrite u_int_value, enc_putlong by done. by destruct (fits s 4).
  - apply encodes_unit; [done|]. by apply enc_putlong.
  - intros F. apply Hk. by rewrite be32_length in F.
Qed.

(** The string at the pointer in [cpp]. *)
Lemma xdr_string_encodes fuel s cpp sp str maxsize :
  enc_ok s -> enc_unit s -> zero_at s -> word_at (st_mem s) cpp sp -> sp <> NULL -> cstr (st_mem s) sp str -> word_tail_mapped (st_mem s) (sp + zlen str) ->
  apart s sp (zlen str) -> (length str < fuel)%nat -> zlen str <= maxsize -> zlen str < 2 ^ 32 - 1 -> zlen str < enc_limit -> 4 < enc_limit ->
  encodes s (xdr_string fuel xdr_zero crud cpp maxsize) (be32 (zlen str) ++ opaque str).
Proof.
  intros Hok Hu Hz Hw Hsp Hc Ht Ha Hf Hmax Hbig Hl H4. unfold xdr_string.
  eapply encodes_eq.
  { unfold bind at 1. rewrite (load_ptr_eq s cpp sp) by done. unfold bind at 1, get_st. rewrite enc_op by done. rewrite (proj2 (Z.eqb_neq sp NULL)) by done.
    unfold bind at 1. unfold bind at 1. rewrite (peek_at _ s (zlen str)) by (apply strlen_spec; [done|by apply enc_mem_ok|done|done]). unfold ret at 1.
    rewrite (uwrap_small 32 (zlen str)) by lia. reflexivity. }
  cbv beta iota. apply (encodes_count s (zlen str)); [done|done|]. intros F. cbn [default]. rewrite (proj2 (Z.ltb_ge _ _)) by done.
  rewrite uwrap_small by lia. rewrite (proj2 (Z.eqb_neq _ 0)) by lia.
  destruct Hc as [Hcn Hcb]. apply bytes_at_app in Hcb as [Hcb _].
  assert (fits s (zlen (be32 (zlen str))) = true) as F' by by rewrite be32_length.
  apply xdr_opaque_encodes; [by apply wrote_unit_ok|by apply zero_wrote| |by apply wrote_bytes|by apply wrote_apart|done|done].
  eapply Forall_impl; [exact Hcn|]. intros b Hb. unfold nonzero_byte in Hb. unfold is_byte. lia.
Qed.
End opaque.
End encode.
