(* ===== verification/XdrMem.v ===== *)
(** * XDR: the memory stream and the counter

    xdr_mem.c and xdr_sizeof.c behind the interface of encoding streams, and
    decoding from a memory stream: what the filters make of arbitrary bytes. *)

From stdpp Require Import base list gmap.
From Stdlib Require Import ZArith Lia.
From S2P Require Import Prelude CMem CInt StrLocal StrMem StrStr Malloc MallocList Alloc Xdr XdrSpec.

Local Open Scope Z_scope.

(** ** Moving on *)

(** The handle after [n] bytes. *)
Definition advance (h : XDR) (n : Z) : XDR := {|
  xh_op := xh_op h; x_aligned := x_aligned h; x_private := x_private h + n; x_base := x_base h; x_handy := x_handy h - n |}.

Lemma advance_zero h : advance h 0 = h.
Proof. destruct h. unfold advance. cbn. by rewrite Z.add_0_r, Z.sub_0_r. Qed.

Lemma advance_advance h n k : advance (advance h n) k = advance h (n + k).
Proof. unfold advance. cbn. f_equal; lia. Qed.

Section memory.
Context `{Arch} {St : Type} `{AllocOps St} {Lens : MemLens St}.
Variable fuel : nat.

#[local] Hint Extern 0 (XdrOps (xstate St)) => exact (xdrmem_ops fuel) : typeclass_instances.

#[global] Instance xstate_lens : MemLens (xstate St).
Proof.
  split; [intros s m|intros s|intros s m m']; unfold st_mem, st_set_mem; cbn.
  - apply lens_get_set.
  - rewrite lens_set_get. by destruct s.
  - by rewrite lens_set_set.
Qed.

(** An operation that fits, around a body that leaves the handle alone. *)
Lemma take_fits {A} h (st st' : St) len (fail r : A) body :
  len <= x_handy h ->
  (forall h', body (x_private h) (Xstate h' st) = Some (r, Xstate h' st')) ->
  xdrmem_take len fail body (Xstate h st) = Some (r, Xstate (advance h len) st').
Proof.
  intros Hl Hb. unfold xdrmem_take, handle, set_handy, set_private, xh, CMem.upd, bind, get_st, ret. cbn [xs_h xs_st].
  rewrite (proj2 (Z.ltb_ge _ _)) by done. cbn [xs_h xs_st x_handy x_private]. rewrite Hb. done.
Qed.

Lemma take_short {A} h (st : St) len (fail : A) body :
  x_handy h < len -> xdrmem_take len fail body (Xstate h st) = Some (fail, Xstate h st).
Proof.
  intros Hl. unfold xdrmem_take, handle, bind, get_st, ret. cbn [xs_h xs_st]. by rewrite (proj2 (Z.ltb_lt _ _)).
Qed.

(** ** Encoding *)

Definition mem_wrote (s : xstate St) (l : list Z) : xstate St :=
  Xstate (advance (xs_h s) (zlen l)) (st_set_mem (xs_st s) (put_bytes (st_mem (xs_st s)) (x_private (xs_h s)) l)).

(** A buffer to write to. *)
Record mem_enc_ok (s : xstate St) : Prop := {
  me_op : xh_op (xs_h s) = XDR_ENCODE;
  me_ok : mem_ok (st_mem (xs_st s));
  me_handy : 0 <= x_handy (xs_h s) < 2 ^ 32;
  me_buf : mapped (st_mem (xs_st s)) (x_private (xs_h s)) (x_handy (xs_h s)) }.

(** The position is a multiple of four when the table is the aligned one. *)
Definition at_unit (h : XDR) : Prop := x_aligned h = true -> x_private h mod 4 = 0.

Lemma at_unit_advance h n : at_unit h -> (4 | n) -> at_unit (advance h n).
Proof. intros Hu [k ->] Ha. cbn in *. rewrite Z.mod_add by lia. by apply Hu. Qed.

Lemma put_unit s v : mem_enc_ok s -> at_unit (xs_h s) ->
  by_table (xdrmem_putlong_aligned v) (xdrmem_putlong_unaligned v) s =
    Some (4 <=? x_handy (xs_h s), if 4 <=? x_handy (xs_h s) then mem_wrote s (be32 v) else s).
Proof.
  intros Hok Hu. destruct s as [h st]. destruct Hok as [Hop Hm Hh Hb]. cbn [xs_h xs_st] in *.
  unfold by_table, handle, bind at 1 2, get_st, ret at 1. cbn [xs_h].
  assert (bytes_of_int 4 (xdr_ntohl (uwrap 32 v)) = be32 v) as Eb by (rewrite ntohl_bytes by (apply uwrap_range; lia); apply be32_uwrap).
  destruct (Z.leb_spec 4 (x_handy h)) as [Hl|Hl]; [|by destruct (x_aligned h); apply take_short].
  assert (mapped (st_mem st) (x_private h) 4) as Hm4 by (eapply mapped_weaken; [done|lia..]).
  unfold mem_wrote. rewrite be32_length. cbn [xs_h xs_st]. destruct (x_aligned h) eqn:Ea; apply take_fits; try done; intros h'; unfold bind, on_mem; cbn.
  - rewrite store_n_at; [|by apply Hu|done]. by rewrite Eb.
  - rewrite Eb, store_bytes_at; [done|by rewrite be32_length|apply be32_bytes].
Qed.

Definition mem_enc : EncStream (xstate St).
Proof.
  refine {| enc_ok := mem_enc_ok; enc_unit := fun s => at_unit (xs_h s); fits := fun s n => n <=? x_handy (xs_h s);
    wrote := mem_wrote; enc_buf := fun s a => x_private (xs_h s) <= a < x_private (xs_h s) + x_handy (xs_h s); enc_limit := Z.of_nat fuel |}.
  - by intros s [].
  - by intros s [].
  - intros s [_ _ Hh _]. apply Z.leb_le. lia.
  - intros s n k Hn F%Z.leb_le. apply Z.leb_le. lia.
  - intros [h st]. unfold mem_wrote. cbn. by rewrite advance_zero, lens_set_get.
  - intros [h st] l1 l2. unfold mem_wrote. cbn. rewrite advance_advance, length_app, Nat2Z.inj_add, lens_set_set, lens_get_set. by rewrite put_bytes_app.
  - intros [h st] l [Hop Hm Hh Hb] Hl F%Z.leb_le. cbn in *. split; cbn; rewrite ?lens_get_set; try done; try lia.
    + by apply put_bytes_ok.
    + apply put_bytes_mapped. eapply mapped_weaken; [done|lia..].
  - intros s l Hu Hl. by apply at_unit_advance.
  - intros s l n Hn F%Z.leb_le. cbn. apply eq_iff_eq_true. rewrite !Z.leb_le. lia.
  - intros [h st] l a F%Z.leb_le Ha. cbn in *. rewrite lens_get_set, lookup_put_bytes, decide_False by lia. done.
  - intros [h st] l a F%Z.leb_le Ha. cbn in *. lia.
  - exact put_unit.
  - exact put_unit.
  - intros [h st] p l [Hop Hm Hh Hb] Hl Ha Hf. cbn [xs_h xs_st] in *. destruct (Z.leb_spec (zlen l) (x_handy h)) as [Hle|Hle]; [|by apply take_short].
    apply take_fits; [done|]. intros h'. unfold bind, on_mem. cbn.
    assert (mapped (st_mem st) (x_private h) (zlen l)) as Hm' by (eapply mapped_weaken; [done|lia..]). rewrite (memmove_spec l) by (done || lia). done.
Defined.

(** ** The counter *)

Definition counted (h : XDR) (n : Z) : XDR := {|
  xh_op := xh_op h; x_aligned := x_aligned h; x_private := x_private h; x_base := x_base h; x_handy := uwrap 32 (x_handy h + n) |}.

Definition count_wrote (s : xstate St) (l : list Z) : xstate St :=
  match l with [] => s | _ => Xstate (counted (xs_h s) (zlen l)) (xs_st s) end.

Definition count_enc : @EncStream (xstate St) _ _ (sizeof_ops fuel).
Proof.
  refine {| enc_ok := fun s => xh_op (xs_h s) = XDR_ENCODE /\ mem_ok (st_mem (xs_st s)) /\ 0 <= x_handy (xs_h s) < 2 ^ 32; enc_unit := fun s => True;
    fits := fun s n => true; wrote := count_wrote; enc_buf := fun s a => False; enc_limit := 2 ^ 32 |}; try done.
  - by intros s (? & ? & ?).
  - by intros s (? & ? & ?).
  - intros s [|b l1] [|c l2]; try done; unfold count_wrote; [by rewrite app_nil_r|]. cbn [app]. f_equal. unfold counted. cbn [xs_h xh_op x_aligned x_private x_base x_handy].
    f_equal. cbn [length]. rewrite length_app. cbn [length]. unfold uwrap. rewrite Z.add_mod_idemp_l by lia. f_equal. lia.
  - intros s [|b l] (? & ? & ?) _ _; [done|]. cbn -[uwrap]. split_and!; try done; apply uwrap_range; lia.
  - by intros s [|b l] a _ _.
  - intros [h st] p [|b l] (? & ? & Hh) Hl Ha Hlt; [|done]. cbn [xs_h xs_st] in *. unfold x_putbytes, sizeof_ops, x_putbytes_count, handle, bind, get_st, ret, set_handy, xh, CMem.upd. cbn [xs_h xs_st x_handy length Z.of_nat].
    rewrite Z.add_0_r, uwrap_small by done. by destruct h.
Defined.
End memory.
