(* ===== verification/XdrDecode.v ===== *)
(** * XDR: decoding from memory

    What the filters make of a memory stream with arbitrary bytes: they return, they
    write to the object alone, and they consume the bytes of its encoding. *)

From stdpp Require Import base list gmap.
From Stdlib Require Import ZArith Lia.
From S2P Require Import Prelude CMem CInt StrLocal StrMem StrStr Malloc MallocList Alloc Xdr XdrSpec XdrMem.

Local Open Scope Z_scope.

(** The bytes from [p]. *)
Definition cells (p n : Z) (a : Z) : Prop := p <= a < p + n.

Lemma be_val_app l1 l2 : be_val (l1 ++ l2) = be_val l1 * 2 ^ (8 * zlen l2) + be_val l2.
Proof.
  unfold be_val. rewrite rev_app_distr. rewrite <- (length_rev l2). generalize (rev l2) as l, (rev l1) as k. clear. intros l k.
  induction l as [|b l IH]; cbn [app le_combine length]; [lia|]. rewrite IH.
  replace (8 * Z.of_nat (Datatypes.S (length l))) with (8 + 8 * zlen l) by lia. rewrite Z.pow_add_r by lia. lia.
Qed.

Section decode.
Context `{Arch} {St : Type} `{AllocOps St} {Lens : MemLens St}.
Variable fuel : nat.

#[local] Hint Extern 0 (XdrOps (xstate St)) => exact (xdrmem_ops fuel) : typeclass_instances.

Abbreviation M A := (C (xstate St) A).

(** The stream has the bytes [l] to read. *)
Record input (h : XDR) (m : mem) (l : list Z) : Prop := {
  in_op : xh_op h = XDR_DECODE;
  in_ok : mem_ok m;
  in_handy : x_handy h = zlen l;
  in_bytes : bytes_at m (x_private h) l;
  in_unit : at_unit h }.

(** No byte of the stream is in [R]. *)
Definition clear (h : XDR) (R : Z -> Prop) : Prop := forall a, cells (x_private h) (x_handy h) a -> ~ R a.

Lemma clear_advance h R k : 0 <= k -> clear h R -> clear (advance h k) R.
Proof. intros Hk Hc a Ha. apply Hc. unfold cells in *. cbn in Ha. lia. Qed.

Lemma input_chg h m m' l R : input h m l -> chg R m m' -> clear h R -> input h m' l.
Proof.
  intros [I1 I2 I3 I4 I5] Hc Hd. split; try done; [by apply (chg_ok _ _ _ Hc)|]. eapply chg_bytes; [done..|].
  intros a Ha. apply Hd. unfold cells. lia.
Qed.

Lemma input_bytes h m l : input h m l -> Forall is_byte l.
Proof. intros [I1 I2 I3 I4 I5]. by eapply bytes_at_bytes. Qed.

Lemma input_advance h m l (k : nat) : input h m l -> (k <= length l)%nat -> (4 | Z.of_nat k) -> input (advance h (Z.of_nat k)) m (drop k l).
Proof.
  intros [I1 I2 I3 I4 I5] Hk Hd. split; try done; cbn.
  - rewrite length_drop. lia.
  - rewrite <- (take_drop k l) in I4. apply bytes_at_app in I4 as [_ I4]. by rewrite length_take_le in I4.
  - by apply at_unit_advance.
Qed.

(** The value of the next unit. *)
Definition next_unit (l : list Z) : Z := be_val (take 4 l).

Lemma next_unit_range h m l : input h m l -> (4 <= length l)%nat -> 0 <= next_unit l < 2 ^ 32.
Proof. intros Hi Hl. apply be_val_range; [by rewrite length_take_le|]. apply Forall_take. by eapply input_bytes. Qed.

(** A unit as a long. *)
Definition unit_long (h : XDR) (v : Z) : Z := if x_aligned h then swrap 32 v else v.

Lemma load_unit h st l : input h (st_mem st) l -> (4 <= length l)%nat ->
  (x_aligned h = true -> load_n 4 (x_private h) (st_mem st) = Some (word_of_bytes (take 4 l), st_mem st)) /\
  load_bytes (x_private h) 4 (st_mem st) = Some (take 4 l, st_mem st) /\ xdr_ntohl (word_of_bytes (take 4 l)) = next_unit l.
Proof.
  intros Hi Hl. pose proof (input_bytes h _ l Hi) as Hby. destruct Hi as [I1 I2 I3 I4 I5]. rewrite <- (take_drop 4 l) in I4. apply bytes_at_app in I4 as [I4 _].
  pose proof (load_bytes_at _ _ _ I4) as E. rewrite length_take_le in E by done. split_and!; [|done|].
  - intros Ha. unfold load_n. change (Z.of_nat 4) with 4. rewrite I5 by done. cbn [Z.eqb]. unfold bind. by rewrite E.
  - apply ntohl_word; [by rewrite length_take_le|by apply Forall_take].
Qed.

Lemma get_unit {A} h (st : St) l (al un : Z -> A) :
  input h (st_mem st) l ->
  by_table (xdrmem_take 4 None (fun p => do w <- peek (load_n 4 p); ret (Some (al (xdr_ntohl w))))%C)
    (xdrmem_take 4 None (fun p => do w <- peek (load_bytes p 4); ret (Some (un (xdr_ntohl (word_of_bytes w)))))%C) (Xstate h st) =
  if decide (4 <= length l)%nat then Some (Some (if x_aligned h then al (next_unit l) else un (next_unit l)), Xstate (advance h 4) st)
  else Some (None, Xstate h st).
Proof.
  intros Hi. unfold by_table, handle, bind at 1 2, get_st, ret at 1. cbn [xs_h]. pose proof (in_handy _ _ _ Hi) as Hh.
  destruct (decide (4 <= length l)%nat) as [Hl|Hl]; [|by destruct (x_aligned h); apply take_short; lia].
  destruct (load_unit h st l Hi Hl) as (E1 & E2 & E3).
  destruct (x_aligned h) eqn:Ea; (apply take_fits; [lia|]); intros h'; unfold bind, peek; cbn [xs_st xs_h st_mem xstate_alloc].
  - rewrite E1 by done. unfold ret. by rewrite E3.
  - rewrite E2. unfold ret. by rewrite E3.
Qed.

Lemma get_long h st l : input h (st_mem st) l ->
  x_getlong (Xstate h st) = if decide (4 <= length l)%nat then Some (Some (unit_long h (next_unit l)), Xstate (advance h 4) st) else Some (None, Xstate h st).
Proof. intros Hi. exact (get_unit h st l (swrap 32) id Hi). Qed.

Lemma get_int32 h st l : input h (st_mem st) l ->
  x_getint32 (Xstate h st) = if decide (4 <= length l)%nat then Some (Some (swrap 32 (next_unit l)), Xstate (advance h 4) st) else Some (None, Xstate h st).
Proof.
  intros Hi. etransitivity; [exact (get_unit h st l (swrap 32) (swrap 32) Hi)|]. by destruct (x_aligned h).
Qed.

(** ** The contract of a filter *)

(** The call consumes [k] bytes and leaves a memory with [P], or it fails; it
    changes the bytes in [R] alone. *)
Definition decodes (h : XDR) (st : St) (l : list Z) (c : M bool) (R : Z -> Prop) (r : option nat) (P : mem -> Prop) : Prop :=
  match r with
  | Some k => (k <= length l)%nat /\ exists m', c (Xstate h st) = Some (true, Xstate (advance h (Z.of_nat k)) (st_set_mem st m')) /\ chg R (st_mem st) m' /\ P m'
  | None => exists k m', (k <= length l)%nat /\ c (Xstate h st) = Some (false, Xstate (advance h (Z.of_nat k)) (st_set_mem st m')) /\ chg R (st_mem st) m'
  end.

(** A filter for an object of [n] bytes; [dec] has the bytes of the object and the
    number of bytes consumed. *)
Definition reads (f : Z -> M bool) (al n : Z) (dec : list Z -> option (list Z * nat)) : Prop :=
  forall h st l p, input h (st_mem st) l -> p mod al = 0 -> mapped (st_mem st) p n -> clear h (cells p n) ->
    match dec l with
    | Some (o, k) => zlen o = n /\ decodes h st l (f p) (cells p n) (Some k) (fun m' => bytes_at m' p o)
    | None => decodes h st l (f p) (cells p n) None (fun _ => True)
    end.

Lemma chg_self R m : chg R m m.
Proof. by split. Qed.

Lemma fails_here h (st : St) l (c : M bool) R P : c (Xstate h st) = Some (false, Xstate h st) -> decodes h st l c R None P.
Proof.
  intros E. exists 0%nat, (st_mem st). rewrite E, lens_set_get. split_and!; [lia| |apply chg_self]. change (Z.of_nat 0) with 0. by rewrite advance_zero.
Qed.

(** An object of [n] bytes from one unit. *)
Definition dec_unit (n : nat) (g : Z -> Z) (l : list Z) : option (list Z * nat) :=
  if decide (4 <= length l)%nat then Some (bytes_of_int n (g (next_unit l)), 4%nat) else None.

Lemma chg_int m p n v : chg (cells p (Z.of_nat n)) m (put_bytes m p (bytes_of_int n v)).
Proof. pose proof (chg_put m p (bytes_of_int n v) (bytes_of_int_bytes n v)) as Hc. by rewrite bytes_of_int_length in Hc. Qed.

(** A call that gets a unit and stores it. *)
Lemma unit_reads n g (f : Z -> M bool) :
  (forall h st l p, input h (st_mem st) l -> p mod Z.of_nat n = 0 -> mapped (st_mem st) p (Z.of_nat n) ->
    f p (Xstate h st) = if decide (4 <= length l)%nat then Some (true, Xstate (advance h 4) (st_set_mem st (put_bytes (st_mem st) p (bytes_of_int n (g (next_unit l))))))
      else Some (false, Xstate h st)) ->
  reads f (Z.of_nat n) (Z.of_nat n) (dec_unit n g).
Proof.
  intros Hf h st l p Hi Ha Hm Hc. specialize (Hf h st l p Hi Ha Hm). unfold dec_unit. destruct (decide _) as [Hl|Hl].
  - split; [by rewrite bytes_of_int_length|]. split; [done|]. eexists. split; [exact Hf|]. split; [apply chg_int|apply put_bytes_at].
  - by apply fails_here.
Qed.

Lemma at_ptr_decode n g (f : M Z -> M filtered) :
  (forall h st l rd, input h (st_mem st) l -> exists w,
    f rd (Xstate h st) = (if decide (4 <= length l)%nat then Some ((true, Some w), Xstate (advance h 4) st) else Some ((false, None), Xstate h st)) /\
    ((4 <= length l)%nat -> bytes_of_int n w = bytes_of_int n (g (next_unit l)))) ->
  reads (fun p => at_ptr n p f) (Z.of_nat n) (Z.of_nat n) (dec_unit n g).
Proof.
  intros Hf. apply unit_reads. intros h st l p Hi Ha Hm. destruct (Hf h st l (peek (load_n n p)) Hi) as (w & E & Ew). unfold at_ptr, bind. rewrite E.
  destruct (decide (4 <= length l)%nat) as [Hl|Hl]; [|done]. unfold on_mem. cbn [st_mem xstate_alloc xs_st st_set_mem xs_h]. rewrite store_n_at by done. by rewrite Ew.
Qed.

Lemma long_filter_decode h st l rd conv : input h (st_mem st) l ->
  long_filter rd conv (Xstate h st) = if decide (4 <= length l)%nat then Some ((true, Some (conv (unit_long h (next_unit l)))), Xstate (advance h 4) st) else Some ((false, None), Xstate h st).
Proof.
  intros Hi. unfold long_filter, bind, get_st. cbn [x_op xdrmem_ops xs_h]. rewrite (in_op _ _ _ Hi), (get_long _ _ _ Hi). by destruct (decide _).
Qed.

Lemma int32_filter_decode h st l rd conv : input h (st_mem st) l ->
  int32_filter rd conv (Xstate h st) = if decide (4 <= length l)%nat then Some ((true, Some (conv (swrap 32 (next_unit l)))), Xstate (advance h 4) st) else Some ((false, None), Xstate h st).
Proof.
  intros Hi. unfold int32_filter, bind, get_st. cbn [x_op xdrmem_ops xs_h]. rewrite (in_op _ _ _ Hi), (get_int32 _ _ _ Hi). by destruct (decide _).
Qed.

(** ** The basic filters *)

Lemma unit_long_bytes n h v : (n <= 4)%nat -> bytes_of_int n (unit_long h v) = bytes_of_int n v.
Proof. intros Hn. unfold unit_long. destruct (x_aligned h); [|done]. apply bytes_of_int_swrap; lia. Qed.

Lemma long_filter_reads n k (rd' : M Z -> M Z) : (n <= 4)%nat -> 8 * Z.of_nat n <= k ->
  reads (fun p => at_ptr n p (fun rd => long_filter (rd' rd) (uwrap k))) (Z.of_nat n) (Z.of_nat n) (dec_unit n id).
Proof.
  intros Hn Hk. apply at_ptr_decode. intros h st l rd Hi. eexists. split; [by apply long_filter_decode|]. intros _.
  rewrite bytes_of_int_uwrap by lia. by apply unit_long_bytes.
Qed.

Lemma int32_filter_reads n k (rd' : M Z -> M Z) : (n <= 4)%nat -> 8 * Z.of_nat n <= k ->
  reads (fun p => at_ptr n p (fun rd => int32_filter (rd' rd) (uwrap k))) (Z.of_nat n) (Z.of_nat n) (dec_unit n id).
Proof.
  intros Hn Hk. apply at_ptr_decode. intros h st l rd Hi. eexists. split; [by apply int32_filter_decode|]. intros _.
  rewrite bytes_of_int_uwrap by lia. apply bytes_of_int_swrap; lia.
Qed.

Lemma load_any st n p : p mod Z.of_nat n = 0 -> mapped (st_mem st) p (Z.of_nat n) -> exists v, load_n n p (st_mem st) = Some (v, st_mem st).
Proof.
  intros Ha Hm. destruct (mapped_bytes _ _ _ Hm) as (l & Hl & Hb). exists (word_of_bytes l). unfold load_n. rewrite Ha. cbn [Z.eqb]. unfold bind.
  rewrite <- Hl, load_bytes_at by done. done.
Qed.

Lemma char_reads (conv : Z -> Z) :
  reads (fun cp => do v <- peek (load_n 1 cp); let i := conv v in do '(b, w) <- long_filter (ret i) (uwrap 32);
    if b : bool then run on_mem (store_n 1 cp (default i w)); ret true else ret false)%C 1 1 (dec_unit 1 id).
Proof.
  apply (unit_reads 1). intros h st l p Hi Ha Hm. destruct (load_any st 1 p Ha Hm) as (v & E). unfold bind at 1, peek at 1. cbn [st_mem xstate_alloc xs_st].
  rewrite E. unfold bind at 1. rewrite (long_filter_decode _ _ _ _ _ Hi). destruct (decide (4 <= length l)%nat) as [Hl|Hl]; [|done]. cbn [default from_option id].
  unfold bind, on_mem. cbn [st_mem xstate_alloc xs_st st_set_mem xs_h]. rewrite store_n_at by done. rewrite bytes_of_int_uwrap by lia. by rewrite unit_long_bytes by lia.
Qed.

Lemma basic_reads char_signed enum_size : Forall (fun '(f, (n, _)) => reads f (Z.of_nat n) (Z.of_nat n) (dec_unit n id)) (basic_ints char_signed enum_size).
Proof.
  apply Forall_app. split; cycle 1.
  { destruct (Z.eqb_spec enum_size 4) as [->|_]; [|apply Forall_nil; done]. apply Forall_singleton. exact (long_filter_reads 4 32 (signed_at 4) ltac:(lia) ltac:(lia)). }
  repeat (apply Forall_cons; split); [exact (long_filter_reads 4 32 (signed_at 4) ltac:(lia) ltac:(lia))|
    exact (long_filter_reads 4 32 id ltac:(lia) ltac:(lia))|
    exact (int32_filter_reads 4 32 (signed_at 4) ltac:(lia) ltac:(lia))|
    exact (int32_filter_reads 4 32 (signed_at 4) ltac:(lia) ltac:(lia))|
    exact (int32_filter_reads 4 32 (signed_at 4) ltac:(lia) ltac:(lia))|
    exact (int32_filter_reads 4 32 (signed_at 4) ltac:(lia) ltac:(lia))|
    exact (long_filter_reads 2 16 (signed_at 2) ltac:(lia) ltac:(lia))|
    exact (long_filter_reads 2 16 id ltac:(lia) ltac:(lia))|
    exact (int32_filter_reads 2 16 (signed_at 2) ltac:(lia) ltac:(lia))|
    exact (int32_filter_reads 2 16 id ltac:(lia) ltac:(lia))|
    exact (int32_filter_reads 2 16 id ltac:(lia) ltac:(lia))|
    exact (int32_filter_reads 1 8 (signed_at 1) ltac:(lia) ltac:(lia))|
    exact (int32_filter_reads 1 8 id ltac:(lia) ltac:(lia))|
    exact (int32_filter_reads 1 8 id ltac:(lia) ltac:(lia))|
    exact (char_reads (char_value char_signed))|
    exact (char_reads id)|
    apply Forall_nil; done].
Qed.

(** Any nonzero unit is the boolean TRUE. *)
Lemma xdr_bool_reads : reads xdr_bool 4 4 (dec_unit 4 (fun v => if v =? 0 then 0 else 1)).
Proof.
  apply (at_ptr_decode 4). intros h st l rd Hi. eexists. split; [by apply long_filter_decode|]. intros Hl. do 2 f_equal.
  pose proof (next_unit_range _ _ _ Hi Hl) as Hr. unfold unit_long. destruct (x_aligned h); [|done].
  destruct (Z.eqb_spec (next_unit l) 0) as [->|Hz]; [done|]. rewrite (proj2 (Z.eqb_neq _ 0)); [done|]. intros E. apply Hz. rewrite <- (uwrap_small 32 (next_unit l)), <- (uwrap_swrap 32 32) by lia. by rewrite E.
Qed.

(** A long from an aligned buffer is the number of the unit with its sign; from an
    unaligned one it is the unit as an unsigned number. *)
Lemma xdr_long_decode h st l p :
  input h (st_mem st) l -> p mod Z.of_nat long_size = 0 -> mapped (st_mem st) p (Z.of_nat long_size) ->
  xdr_long p (Xstate h st) = if decide (4 <= length l)%nat
    then Some (true, Xstate (advance h 4) (st_set_mem st (put_bytes (st_mem st) p (bytes_of_int long_size (unit_long h (next_unit l)))))) else Some (false, Xstate h st).
Proof.
  intros Hi Ha Hm. unfold xdr_long, bind, get_st. cbn [x_op xdrmem_ops xs_h]. rewrite (in_op _ _ _ Hi), (get_long _ _ _ Hi). destruct (decide _); [|done].
  unfold on_mem. cbn [st_mem xstate_alloc xs_st st_set_mem xs_h]. by rewrite store_n_at.
Qed.

Lemma xdr_u_long_reads : reads xdr_u_long (Z.of_nat long_size) (Z.of_nat long_size) (dec_unit long_size id).
Proof.
  apply unit_reads. intros h st l p Hi Ha Hm. unfold xdr_u_long, bind, get_st. cbn [x_op xdrmem_ops xs_h]. rewrite (in_op _ _ _ Hi), (get_long _ _ _ Hi).
  destruct (decide _) as [Hl|]; [|done]. unfold on_mem. cbn [st_mem xstate_alloc xs_st st_set_mem xs_h]. rewrite store_n_at by done.
  pose proof (next_unit_range _ _ _ Hi Hl) as Hr. assert (uwrap 32 (unit_long h (next_unit l)) = next_unit l) as ->; [|done].
  unfold unit_long. destruct (x_aligned h); [rewrite uwrap_swrap by lia|]; by apply uwrap_small.
Qed.

(** ** Numbers of two units *)

Definition dec_two (l : list Z) : option (list Z * nat) :=
  if decide (8 <= length l)%nat then Some (bytes_of_int 8 (be_val (take 8 l)), 8%nat) else None.

Lemma take_8 (l : list Z) : take 8 l = take 4 l ++ take 4 (drop 4 l).
Proof. by destruct l as [|? [|? [|? [|? l]]]]. Qed.

Lemma two_units l : (8 <= length l)%nat -> be_val (take 8 l) = next_unit l * 2 ^ 32 + next_unit (drop 4 l).
Proof. intros Hl. rewrite take_8, be_val_app. rewrite length_take_le by (rewrite length_drop; lia). done. Qed.

(** The two units, when there are two. *)
Lemma get_two {A} h st l (k : Z -> Z -> M A) (r : A) : input h (st_mem st) l ->
  (do t1 <- x_getint32; match t1 with None => ret r | Some t1 => do t2 <- x_getint32; match t2 with None => ret r | Some t2 => k t1 t2 end end)%C (Xstate h st) =
  if decide (8 <= length l)%nat then k (swrap 32 (next_unit l)) (swrap 32 (next_unit (drop 4 l))) (Xstate (advance h 8) st)
  else Some (r, Xstate (advance h (if decide (4 <= length l)%nat then 4 else 0)) st).
Proof.
  intros Hi. unfold bind at 1. rewrite (get_int32 _ _ _ Hi). destruct (decide (4 <= length l)%nat) as [Hl|Hl].
  - pose proof (input_advance _ _ _ 4 Hi Hl (Z.divide_refl _)) as Hi4. change (Z.of_nat 4) with 4 in Hi4. unfold bind. rewrite (get_int32 _ _ _ Hi4), length_drop, advance_advance.
    destruct (decide (4 <= length l - 4)%nat), (decide (8 <= length l)%nat); try done; lia.
  - rewrite decide_False by lia. by rewrite advance_zero.
Qed.

(** Storing the high half, then the whole. *)
Lemma store_halves h st p t1 t2 v : p mod 8 = 0 -> mapped (st_mem st) p 8 -> v mod 2 ^ 32 = 0 -> 0 <= v < 2 ^ 64 -> uwrap 32 t2 = t1 ->
  (run on_mem (store_n 8 p v); do w <- peek (load_n 8 p); run on_mem (store_n 8 p (Z.lor w (uwrap 32 t2))); ret true)%C (Xstate h st) =
  Some (true, Xstate h (st_set_mem st (put_bytes (st_mem st) p (bytes_of_int 8 (v + t1))))).
Proof.
  intros Ha Hm Hv Hr <-. assert (0 <= uwrap 32 t2 < 2 ^ 32) as Ht by (apply uwrap_range; lia). unfold bind at 1, on_mem at 1. cbn [st_mem xstate_alloc xs_st st_set_mem xs_h]. rewrite store_n_at by done.
  unfold bind at 1, peek. cbn [st_mem xstate_alloc xs_st st_set_mem xs_h]. rewrite lens_get_set, (load_n_at _ _ _ v) by (done || apply put_bytes_at).
  rewrite uwrap_small by done. unfold bind, on_mem. cbn [st_mem xstate_alloc xs_st st_set_mem xs_h]. rewrite lens_get_set, store_n_at by (done || by apply put_bytes_mapped).
  rewrite lens_set_set, put_bytes_overwrite by (by rewrite !bytes_of_int_length). by rewrite (lor_low 32) by (done || lia).
Qed.

Lemma two_reads (f : Z -> M bool) (hi : Z -> Z) :
  (forall h st p, xh_op h = XDR_DECODE -> f p (Xstate h st) =
    (do t1 <- x_getint32; match t1 with None => ret false | Some t1 => do t2 <- x_getint32; match t2 with None => ret false | Some t2 =>
       run on_mem (store_n 8 p (hi t1)); do v <- peek (load_n 8 p); run on_mem (store_n 8 p (Z.lor v (uwrap 32 t2))); ret true end end)%C (Xstate h st)) ->
  (forall v, 0 <= v < 2 ^ 32 -> hi (swrap 32 v) = v * 2 ^ 32) ->
  reads f 8 8 dec_two.
Proof.
  intros Hf Hhi h st l p Hi Ha Hm Hc. pose proof (Hf h st p (in_op _ _ _ Hi)) as E. rewrite (get_two h st l _ _ Hi) in E. unfold dec_two.
  destruct (decide (8 <= length l)%nat) as [Hl|Hl].
  - split; [by rewrite bytes_of_int_length|]. split; [done|]. eexists. split; [|split; [apply (chg_int _ _ 8)|apply put_bytes_at]]. rewrite E, two_units by done.
    pose proof (next_unit_range _ _ _ Hi ltac:(lia)) as R1. pose proof (input_advance _ _ _ 4 Hi ltac:(lia) (Z.divide_refl _)) as Hi4.
    assert (4 <= length (drop 4 l))%nat as Hl4 by (rewrite length_drop; lia). pose proof (next_unit_range _ _ _ Hi4 Hl4) as R2.
    rewrite Hhi by done. apply store_halves; [done..|by apply Z.mod_mul|lia|]. rewrite uwrap_swrap by lia. by apply uwrap_small.
  - exists (if decide (4 <= length l)%nat then 4%nat else 0%nat), (st_mem st). rewrite E, lens_set_get. split_and!; [by destruct (decide _); lia| |apply chg_self].
    by destruct (decide _).
Qed.

Lemma xdr_int64_reads : reads xdr_int64_t 8 8 dec_two.
Proof.
  apply (two_reads _ (fun t1 => uwrap 64 (Z.shiftl t1 32))).
  - intros h st p E. unfold xdr_int64_t, bind at 1, get_st. cbn [x_op xdrmem_ops xs_h]. by rewrite E.
  - intros v Hv. rewrite Z.shiftl_mul_pow2 by lia. rewrite (swrap_uwrap 32), (uwrap_small 32 v) by lia. destruct (_ <? _); [apply uwrap_small; lia|].
    unfold uwrap. replace ((v - 2 ^ 32) * 2 ^ 32) with (v * 2 ^ 32 + (-1) * 2 ^ 64) by lia. rewrite Z.mod_add by lia. apply Z.mod_small. lia.
Qed.

Lemma xdr_u_int64_reads : reads xdr_u_int64_t 8 8 dec_two.
Proof.
  apply (two_reads _ (fun t1 => Z.shiftl (uwrap 32 t1) 32)).
  - intros h st p E. unfold xdr_u_int64_t, bind at 1, get_st. cbn [x_op xdrmem_ops xs_h]. by rewrite E.
  - intros v Hv. rewrite Z.shiftl_mul_pow2, uwrap_swrap by lia. by rewrite uwrap_small.
Qed.

(** ** Calls in sequence *)

Lemma decodes_mono h (st : St) l (c : M bool) (R R' : Z -> Prop) r (P P' : mem -> Prop) :
  (forall a, R a -> R' a) -> (forall m, P m -> P' m) -> decodes h st l c R r P -> decodes h st l c R' r P'.
Proof.
  intros HR HP. destruct r as [k|]; cbn.
  - intros (Hk & m' & E & Hc & Hp). split; [done|]. exists m'. split_and!; [done|by eapply chg_mono|by apply HP].
  - intros (k & m' & Hk & E & Hc). exists k, m'. split_and!; try done. by eapply chg_mono.
Qed.

Lemma decodes_stop h (st : St) l (c1 c2 : M bool) R P : decodes h st l c1 R None P -> decodes h st l (do b <- c1; if b : bool then c2 else ret false)%C R None P.
Proof. intros (k & m' & Hk & E & Hc). exists k, m'. split_and!; try done. unfold bind. by rewrite E. Qed.

Lemma decodes_seq h (st : St) l (c1 c2 : M bool) (R1 R2 R : Z -> Prop) k1 P1 r2 P2 (P : mem -> Prop) :
  (forall a, R1 a -> R a) -> (forall a, R2 a -> R a) ->
  decodes h st l c1 R1 (Some k1) P1 ->
  (forall m1, chg R1 (st_mem st) m1 -> P1 m1 -> decodes (advance h (Z.of_nat k1)) (st_set_mem st m1) (drop k1 l) c2 R2 r2 P2) ->
  (forall m1 m2, P1 m1 -> chg R2 m1 m2 -> P2 m2 -> P m2) ->
  decodes h st l (do b <- c1; if b : bool then c2 else ret false)%C R (Nat.add k1 <$> r2) P.
Proof.
  intros HR1 HR2 (Hk1 & m1 & E1 & C1 & Q1) Hc2 HP. specialize (Hc2 m1 C1 Q1). destruct r2 as [k2|]; cbn [fmap option_fmap option_map].
  - destruct Hc2 as (Hk2 & m2 & E2 & C2 & Q2). rewrite length_drop in Hk2. rewrite advance_advance, lens_set_set in E2. rewrite lens_get_set in C2. split; [lia|]. exists m2. split_and!.
    + unfold bind. by rewrite E1, E2, Nat2Z.inj_add.
    + eapply chg_trans; by eapply chg_mono.
    + by eapply HP.
  - destruct Hc2 as (k2 & m2 & Hk2 & E2 & C2). rewrite length_drop in Hk2. rewrite advance_advance, lens_set_set in E2. rewrite lens_get_set in C2. exists (k1 + k2)%nat, m2. split_and!; [lia| |].
    + unfold bind. by rewrite E1, E2, Nat2Z.inj_add.
    + eapply chg_trans; by eapply chg_mono.
Qed.

Lemma decodes_eq h (st : St) l (c c' : M bool) R r P : c (Xstate h st) = c' (Xstate h st) -> decodes h st l c' R r P -> decodes h st l c R r P.
Proof. intros E. unfold decodes. by rewrite E. Qed.

Lemma clear_sub h (R R' : Z -> Prop) : (forall a, R a -> R' a) -> clear h R' -> clear h R.
Proof. intros HR Hc a Ha Hr. by apply (Hc a Ha), HR. Qed.

(** ** Vectors *)

Section vector.
Context (f : Z -> M bool) (al sz : Z) (dec : list Z -> option (list Z * nat)).
Hypothesis f_reads : reads f al sz dec.
Hypothesis dec_units : forall l o k, dec l = Some (o, k) -> (4 | Z.of_nat k).
Hypothesis sz_aligned : (al | sz).
Hypothesis sz_pos : 0 <= sz.

Fixpoint dec_elements (n : nat) (l : list Z) : option (list Z * nat) :=
  match n with
  | O => Some ([], 0%nat)
  | Datatypes.S n =>
      match dec l with
      | Some (o, k) => match dec_elements n (drop k l) with Some (os, ks) => Some (o ++ os, (k + ks)%nat) | None => None end
      | None => None
      end
  end.

Lemma element_aligned p : p mod al = 0 -> (p + sz) mod al = 0.
Proof. destruct sz_aligned as [k ->]. intros Ha. destruct (Z.eq_dec al 0) as [->|Hz]; [by rewrite Z.mul_0_r, Z.add_0_r|by rewrite Z.mod_add]. Qed.

Lemma xdr_elements_reads n : reads (fun p => xdr_elements n p sz f) al (Z.of_nat n * sz) (dec_elements n).
Proof.
  induction n as [|n IH]; intros h st l p Hi Ha Hm Hc.
  { split; [done|]. split; [lia|]. exists (st_mem st). rewrite lens_set_get, advance_zero. split_and!; [done|apply chg_self|apply bytes_at_nil]. }
  cbn [dec_elements xdr_elements]. assert (forall a, cells p sz a -> cells p (Z.of_nat (Datatypes.S n) * sz) a) as Hs1 by (unfold cells; intros a Hx; nia).
  assert (forall a, cells (p + sz) (Z.of_nat n * sz) a -> cells p (Z.of_nat (Datatypes.S n) * sz) a) as Hs2 by (unfold cells; intros a Hx; lia).
  assert (mapped (st_mem st) p sz) as Hm1 by (intros a Hx; apply Hm; by apply (Hs1 a)). assert (mapped (st_mem st) (p + sz) (Z.of_nat n * sz)) as Hm2 by (intros a Hx; apply Hm; by apply (Hs2 a)).
  pose proof (f_reads h st l p Hi Ha Hm1 (clear_sub h _ _ Hs1 Hc)) as H1. pose proof (dec_units l) as Hu. destruct (dec l) as [[o k]|]; cycle 1.
  { apply decodes_stop. by eapply (decodes_mono _ _ _ _ (cells p sz)). }
  destruct H1 as [Ho H1]. specialize (Hu o k eq_refl). pose proof (proj1 H1) as Hk.
  assert (forall m1, chg (cells p sz) (st_mem st) m1 -> bytes_at m1 p o -> match dec_elements n (drop k l) with
    | Some (os, ks) => zlen os = Z.of_nat n * sz /\ decodes (advance h (Z.of_nat k)) (st_set_mem st m1) (drop k l) (xdr_elements n (p + sz) sz f) (cells (p + sz) (Z.of_nat n * sz)) (Some ks) (fun m' => bytes_at m' (p + sz) os)
    | None => decodes (advance h (Z.of_nat k)) (st_set_mem st m1) (drop k l) (xdr_elements n (p + sz) sz f) (cells (p + sz) (Z.of_nat n * sz)) None (fun _ => True) end) as H2.
  { intros m1 Hc1 _. apply IH; rewrite ?lens_get_set; [|by apply element_aligned|by eapply chg_mapped|apply clear_advance; [lia|by apply (clear_sub h _ _ Hs2)]].
    apply input_advance; [|done|done]. eapply input_chg; [done..|]. by apply (clear_sub h _ _ Hs1). }
  destruct (dec_elements n (drop k l)) as [[os ks]|].
  - assert (zlen os = Z.of_nat n * sz) as Hos by (destruct H1 as (_ & m1 & _ & C1 & Q1); by apply (H2 m1)). split; [rewrite length_app, Nat2Z.inj_add, Ho, Hos; lia|].
    apply (decodes_seq h st l _ _ (cells p sz) (cells (p + sz) (Z.of_nat n * sz)) _ k (fun m' => bytes_at m' p o) (Some ks) (fun m' => bytes_at m' (p + sz) os)); try done.
    + intros m1 C1 Q1. by apply H2.
    + intros m1 m2 Q1 C2 Q2. apply bytes_at_app. split; [|by rewrite Ho]. eapply chg_bytes; [done..|]. unfold cells. lia.
  - apply (decodes_seq h st l _ _ (cells p sz) (cells (p + sz) (Z.of_nat n * sz)) _ k (fun m' => bytes_at m' p o) None (fun _ => True)); done.
Qed.
End vector.

(** ** Doubles *)

(** The part of a double that takes a unit. *)
Definition half (q : Z) : M bool := (do t <- x_getint32; match t with None => ret false | Some t => run on_mem (store_n 4 q t); ret true end)%C.

Lemma half_decodes h st l q : input h (st_mem st) l -> q mod 4 = 0 -> mapped (st_mem st) q 4 ->
  decodes h st l (half q) (cells q 4) (if decide (4 <= length l)%nat then Some 4%nat else None) (fun m' => bytes_at m' q (bytes_of_int 4 (next_unit l))).
Proof.
  intros Hi Ha Hm. pose proof (get_int32 _ _ _ Hi) as E. unfold half. destruct (decide (4 <= length l)%nat) as [Hl|Hl].
  - split; [done|]. eexists. split; [|split; [apply (chg_int _ _ 4)|apply put_bytes_at]]. unfold bind. rewrite E. unfold on_mem. cbn [st_mem xstate_alloc xs_st st_set_mem xs_h].
    rewrite store_n_at by done. by rewrite bytes_of_int_swrap by lia.
  - apply fails_here. unfold bind. by rewrite E.
Qed.

(** The addresses of the halves. *)
Definition high_at (p : Z) : Z := if big_endian then p else p + 4.
Definition low_at (p : Z) : Z := if big_endian then p + 4 else p.

Lemma xdr_double_eq h (st : St) p : xh_op h = XDR_DECODE ->
  xdr_double p (Xstate h st) = (do b <- half (high_at p); if b : bool then half (low_at p) else ret false)%C (Xstate h st).
Proof.
  intros Eo. unfold xdr_double, half, high_at, low_at. destruct big_endian; unfold bind at 1, get_st; cbn [x_op xdrmem_ops xs_h]; rewrite Eo; unfold bind;
    by (destruct (x_getint32 (Xstate h st)) as [[[t|] s1]|]; try done; destruct (on_mem _ s1) as [[[] s2]|]).
Qed.

Lemma halves_at p : p mod 4 = 0 -> high_at p mod 4 = 0 /\ low_at p mod 4 = 0 /\ (forall a, cells (high_at p) 4 a -> cells p 8 a /\ ~ cells (low_at p) 4 a) /\ (forall a, cells (low_at p) 4 a -> cells p 8 a).
Proof.
  intros Ha. assert ((p + 4) mod 4 = 0) by (replace (p + 4) with (p + 1 * 4) by lia; by rewrite Z.mod_add by lia). unfold high_at, low_at, cells.
  destruct big_endian; split_and!; try done; intros; lia.
Qed.

Lemma halves_join m l p : (8 <= length l)%nat -> Forall is_byte l ->
  bytes_at m (high_at p) (bytes_of_int 4 (next_unit l)) -> bytes_at m (low_at p) (bytes_of_int 4 (next_unit (drop 4 l))) -> bytes_at m p (bytes_of_int 8 (be_val (take 8 l))).
Proof.
  intros Hl Hby Q1 Q2. rewrite two_units by done. rewrite double_halves.
  assert (0 <= next_unit (drop 4 l) < 2 ^ 32) as R2.
  { apply be_val_range; [rewrite length_take_le; [done|rewrite length_drop; lia]|]. by apply Forall_take, Forall_drop. }
  rewrite Z.div_add_l, (Z.div_small (next_unit (drop 4 l))), Z.add_0_r by lia.
  assert (bytes_of_int 4 (next_unit l * 2 ^ 32 + next_unit (drop 4 l)) = bytes_of_int 4 (next_unit (drop 4 l))) as ->.
  { rewrite <- (bytes_of_int_uwrap 4 32) by lia. f_equal. unfold uwrap. rewrite Z.add_comm, Z.mod_add by lia. by apply Z.mod_small. }
  unfold high_at, low_at in *. destruct big_endian; apply bytes_at_app; rewrite bytes_of_int_length; done.
Qed.

Lemma xdr_double_reads : reads xdr_double 4 8 dec_two.
Proof.
  intros h st l p Hi Ha Hm Hc. destruct (halves_at p Ha) as (A0 & A1 & S0 & S1).
  assert (mapped (st_mem st) (high_at p) 4) as M0 by (intros a Hx; apply Hm; by apply (S0 a)). assert (mapped (st_mem st) (low_at p) 4) as M1 by (intros a Hx; apply Hm; by apply (S1 a)).
  pose proof (half_decodes h st l _ Hi A0 M0) as D0. pose proof (xdr_double_eq h st p (in_op _ _ _ Hi)) as E. unfold dec_two.
  destruct (decide (4 <= length l)%nat) as [Hl|Hl]; cycle 1.
  { rewrite decide_False by lia. eapply decodes_eq; [exact E|]. apply decodes_stop. eapply (decodes_mono _ _ _ _ (cells (high_at p) 4)); [apply S0|done|exact D0]. }
  assert (forall m1, chg (cells (high_at p) 4) (st_mem st) m1 -> decodes (advance h (Z.of_nat 4)) (st_set_mem st m1) (drop 4 l) (half (low_at p)) (cells (low_at p) 4)
    (if decide (8 <= length l)%nat then Some 4%nat else None) (fun m' => bytes_at m' (low_at p) (bytes_of_int 4 (next_unit (drop 4 l))))) as D1.
  { intros m1 C1. assert (input (advance h (Z.of_nat 4)) (st_mem (st_set_mem st m1)) (drop 4 l)) as I1.
    { rewrite lens_get_set. apply (input_advance h m1 l 4); [|done|by apply Z.divide_refl]. eapply input_chg; [done..|]. apply (clear_sub h _ (cells p 8)); [apply S0|done]. }
    assert (mapped (st_mem (st_set_mem st m1)) (low_at p) 4) as M1' by (rewrite lens_get_set; by eapply chg_mapped).
    pose proof (half_decodes _ _ _ _ I1 A1 M1') as D1. rewrite length_drop in D1.
    destruct (decide (8 <= length l)%nat); [rewrite decide_True in D1 by lia|rewrite decide_False in D1 by lia]; exact D1. }
  destruct (decide (8 <= length l)%nat) as [H8|H8].
  - split; [by rewrite bytes_of_int_length|]. eapply decodes_eq; [exact E|].
    eapply (decodes_seq h st l _ _ _ _ _ 4 _ (Some 4%nat)); [apply S0|apply S1|exact D0|intros m1 C1 _; by apply D1|].
    intros m1 m2 Q1 C2 Q2. apply halves_join; [done|by eapply input_bytes| |done]. eapply chg_bytes; [done..|]. rewrite bytes_of_int_length. intros a Hx. by apply (S0 a).
  - eapply decodes_eq; [exact E|]. eapply (decodes_seq h st l _ _ _ _ _ 4 _ None); [apply S0|apply S1|exact D0|intros m1 C1 _; by apply D1|done].
Qed.
End decode.
