(* ===== verification/XdrString.v ===== *)
(** * XDR: decoding opaque data and strings

    Data of a length the stream gives: into a buffer of the caller or into a block
    of the allocator. *)

From stdpp Require Import base list gmap.
From Stdlib Require Import ZArith Lia.
From S2P Require Import Prelude CMem CInt StrLocal StrMem StrStr Malloc MallocList MallocHeap MallocSys Alloc Xdr XdrSpec XdrMem XdrDecode.

Local Open Scope Z_scope.

Section strings.
Context `{Arch} {St : Type} `{AllocOps St} {Lens : MemLens St}.
Variable fuel : nat.

#[local] Hint Extern 0 (XdrOps (xstate St)) => exact (xdrmem_ops fuel) : typeclass_instances.

Abbreviation M A := (C (xstate St) A).
Variables (xdr_zero crud : Z).

(** ** Opaque data *)

Lemma get_bytes h (st : St) l p n :
  mem_ok (st_mem st) -> x_handy h = zlen l -> bytes_at (st_mem st) (x_private h) l -> (length l < fuel)%nat -> 0 <= n -> mapped (st_mem st) p n ->
  decodes h st l (x_getbytes p n) (cells p n) (if decide (n <= zlen l) then Some (Z.to_nat n) else None) (fun m' => bytes_at m' p (take (Z.to_nat n) l)).
Proof.
  intros Hok Hh Hb Hf Hn Hm. destruct (decide (n <= zlen l)) as [Hl|Hl]; [|apply fails_here, take_short; lia].
  rewrite <- (take_drop (Z.to_nat n) l) in Hb. apply bytes_at_app in Hb as [Hb _]. assert (length (take (Z.to_nat n) l) = Z.to_nat n) as El by (apply length_take_le; lia).
  pose proof (bytes_at_bytes _ _ _ Hok Hb) as Hby. split; [lia|]. exists (put_bytes (st_mem st) p (take (Z.to_nat n) l)). split_and!; [|pose proof (chg_put (st_mem st) p _ Hby) as Hc; rewrite El, Z2Nat.id in Hc by done; exact Hc|apply put_bytes_at].
  rewrite Z2Nat.id by done. apply take_fits; [lia|]. intros h'. unfold bind, on_mem. cbn [st_mem xstate_alloc xs_st st_set_mem xs_h].
  replace n with (zlen (take (Z.to_nat n) l)) at 1 by lia. rewrite (memmove_spec (take (Z.to_nat n) l)); [done|lia|done|done|]. by rewrite El, Z2Nat.id.
Qed.

(** The object and the buffer for the fill bytes. *)
Definition opaque_cells (p n : Z) (a : Z) : Prop := cells p n a \/ cells crud 4 a.

Definition opaque_size (n : Z) : Z := n + xdr_rndup n.

(** Where [crud] is. *)
Definition crud_ok (h : XDR) (m : mem) (p n : Z) : Prop :=
  mapped m crud 4 /\ clear h (cells crud 4) /\ disjoint_blk crud 4 p n.

Lemma xdr_opaque_decodes h (st : St) l p n :
  input h (st_mem st) l -> (length l < fuel)%nat -> 0 <= n -> mapped (st_mem st) p n -> clear h (cells p n) -> crud_ok h (st_mem st) p n ->
  decodes h st l (xdr_opaque xdr_zero crud p n) (opaque_cells p n) (if decide (opaque_size n <= zlen l) then Some (Z.to_nat (opaque_size n)) else None)
    (fun m' => bytes_at m' p (take (Z.to_nat n) l)).
Proof.
  intros [I1 I2 I3 I4 I5] Hf Hn Hm Hc (Hcm & Hcc & Hcd). unfold xdr_opaque, opaque_size. destruct (rndup_spec n Hn) as [Hr _].
  destruct (Z.eqb_spec n 0) as [->|Hn0].
  { change (0 + xdr_rndup 0) with 0. rewrite decide_True by lia. split; [lia|]. exists (st_mem st). rewrite lens_set_get, advance_zero. split_and!; [done|apply chg_self|apply bytes_at_nil]. }
  assert (forall a, cells p n a -> opaque_cells p n a) as S1 by (intros a Ha; by left). pose proof (get_bytes h st l p n I2 I3 I4 Hf Hn Hm) as D1. set (r := xdr_rndup n) in *.
  eapply decodes_eq; [unfold bind at 1, get_st; cbn [x_op xdrmem_ops xs_h]; rewrite I1; apply (bind_ext _ _ (fun b : bool => if b then if r =? 0 then ret true else x_getbytes crud r else ret false)); by intros []|].
  destruct (decide (n <= zlen l)) as [Hl|Hl]; cycle 1.
  { rewrite decide_False by lia. apply decodes_stop. eapply decodes_mono; [exact S1| |exact D1]. done. }
  assert (forall m1, chg (cells p n) (st_mem st) m1 -> decodes (advance h (Z.of_nat (Z.to_nat n))) (st_set_mem st m1) (drop (Z.to_nat n) l) (if r =? 0 then ret true else x_getbytes crud r) (cells crud 4)
    (if decide (n + r <= zlen l) then Some (Z.to_nat r) else None) (fun _ => True)) as D2.
  { intros m1 C1. destruct (Z.eqb_spec r 0) as [->|Hr0].
    - rewrite decide_True by lia. split; [lia|]. exists m1. rewrite lens_set_set, lens_get_set, advance_zero. split_and!; [done|apply chg_self|done].
    - assert (bytes_at m1 (x_private h) l) as B1 by (eapply chg_bytes; [done..|]; intros a Ha; apply Hc; unfold cells; lia).
      rewrite <- (take_drop (Z.to_nat n) l) in B1. apply bytes_at_app in B1 as [_ B1]. rewrite length_take_le in B1 by lia.
      assert (mapped m1 crud r) as M1 by (intros a Ha; apply (chg_dom _ _ _ C1), Hcm; lia).
      pose proof (get_bytes (advance h (Z.of_nat (Z.to_nat n))) (st_set_mem st m1) (drop (Z.to_nat n) l) crud r) as D. rewrite lens_get_set, length_drop in D.
      assert (decodes (advance h (Z.of_nat (Z.to_nat n))) (st_set_mem st m1) (drop (Z.to_nat n) l) (x_getbytes crud r) (cells crud r) (if decide (r <= Z.of_nat (length l - Z.to_nat n)) then Some (Z.to_nat r) else None)
        (fun m' => bytes_at m' crud (take (Z.to_nat r) (drop (Z.to_nat n) l)))) as D' by (apply D; cbn; try done; try lia; by apply (chg_ok _ _ _ C1)).
      eapply decodes_mono; [| |destruct (decide (n + r <= zlen l)); [rewrite decide_True in D' by lia; exact D'|rewrite decide_False in D' by lia; exact D']]; [unfold cells; lia|done]. }
  assert (forall a, cells crud 4 a -> opaque_cells p n a) as S2 by (intros a Ha; by right).
  pose proof (decodes_seq h st l _ _ _ _ _ _ _ _ _ (fun m' => bytes_at m' p (take (Z.to_nat n) l)) S1 S2 D1 (fun m1 C1 _ => D2 m1 C1)) as D.
  destruct (decide (n + r <= zlen l)); cbn [fmap option_fmap option_map] in D; rewrite ?Z2Nat.inj_add by lia; apply D; intros m1 m2 Q1 C2 _;
    (eapply chg_bytes; [done..|]); unfold cells, disjoint_blk in *; rewrite length_take_le by lia; lia.
Qed.

(** ** Strings *)

(** The contents, once the length is known. *)
Lemma string_body_decodes h (st : St) l sp n :
  input h (st_mem st) l -> (length l < fuel)%nat -> 0 <= n -> mapped (st_mem st) sp (n + 1) -> clear h (cells sp (n + 1)) -> crud_ok h (st_mem st) sp (n + 1) ->
  decodes h st l (run on_mem (store8 (sp + n) 0); xdr_opaque xdr_zero crud sp n)%C (opaque_cells sp (n + 1))
    (if decide (opaque_size n <= zlen l) then Some (Z.to_nat (opaque_size n)) else None) (fun m' => bytes_at m' sp (take (Z.to_nat n) l ++ [0])).
Proof.
  intros Hi Hf Hn Hm Hc (Hcm & Hcc & Hcd). set (m1 := <[sp + n := 0]> (st_mem st)). assert (store8 (sp + n) 0 (st_mem st) = Some (tt, m1)) as E.
  { destruct (Hm (sp + n) ltac:(lia)) as [b Hb]. unfold store8, m1. cbn. by rewrite Hb. }
  assert (chg (cells sp (n + 1)) (st_mem st) m1) as C1.
  { eapply chg_mono; [apply (chg_put (st_mem st) (sp + n) [0])|]; [by repeat constructor|unfold cells; cbn; lia]. }
  assert (forall a, cells sp n a -> cells sp (n + 1) a) as S1 by (unfold cells; lia).
  pose proof (xdr_opaque_decodes h (st_set_mem st m1) l sp n) as D. rewrite lens_get_set in D.
  assert (mapped m1 sp n) as Hm1 by (intros a Ha; apply (chg_dom _ _ _ C1), Hm; lia). assert (crud_ok h m1 sp n) as Hcr by (split_and!; [by eapply chg_mapped|done|unfold disjoint_blk in *; lia]).
  specialize (D (input_chg _ _ _ _ _ Hi C1 Hc) Hf Hn Hm1 (clear_sub h _ _ S1 Hc) Hcr).
  assert (m1 !! (sp + n) = Some 0) as Em by apply lookup_insert_eq.
  assert (~ opaque_cells sp n (sp + n)) as Hno by (unfold opaque_cells, cells, disjoint_blk in *; lia).
  assert (forall a, opaque_cells sp n a -> opaque_cells sp (n + 1) a) as S2 by (unfold opaque_cells, cells; intros a [?|?]; [left|right]; lia).
  assert (forall a, cells sp (n + 1) a -> opaque_cells sp (n + 1) a) as S3 by (intros a Ha; by left).
  assert (forall k b m', (xdr_opaque xdr_zero crud sp n) (Xstate h (st_set_mem st m1)) = Some (b, Xstate (advance h k) (st_set_mem (st_set_mem st m1) m')) ->
    (run on_mem (store8 (sp + n) 0); xdr_opaque xdr_zero crud sp n)%C (Xstate h st) = Some (b, Xstate (advance h k) (st_set_mem st m'))) as Hrun.
  { intros k b m' E'. unfold bind, on_mem. cbn [st_mem xstate_alloc xs_st st_set_mem xs_h]. rewrite E, E'. by rewrite lens_set_set. }
  destruct (decide (opaque_size n <= zlen l)) as [Hl|Hl].
  - destruct D as (Hk & m' & E' & C' & Q'). rewrite lens_get_set in C'. split; [done|]. exists m'. split_and!; [by apply Hrun|eapply chg_trans; by eapply chg_mono|].
    destruct (rndup_spec n Hn) as [Hr _]. unfold opaque_size in Hl. apply bytes_at_app. split; [done|]. rewrite length_take_le, Z2Nat.id by lia. apply bytes_at_cons. split; [|apply bytes_at_nil]. by rewrite (chg_out _ _ _ C').
  - destruct D as (k & m' & Hk & E' & C'). rewrite lens_get_set in C'. exists k, m'. split_and!; [done|by apply Hrun|eapply chg_trans; by eapply chg_mono].
Qed.

(** The string in the stream, and the number of bytes of its encoding. *)
Definition string_in (l : list Z) : list Z := take (Z.to_nat (next_unit l)) (drop 4 l).
Definition dec_string (maxsize : Z) (l : list Z) : option nat :=
  if decide (4 <= zlen l /\ next_unit l <= maxsize /\ 4 + opaque_size (next_unit l) <= zlen l)%Z then Some (Z.to_nat (4 + opaque_size (next_unit l))) else None.

(** The part of xdr_string before the storage. *)
Lemma xdr_string_head f h (st : St) l cpp sp maxsize :
  input h (st_mem st) l -> word_at (st_mem st) cpp sp ->
  xdr_string f xdr_zero crud cpp maxsize (Xstate h st) =
    if decide (4 <= zlen l /\ next_unit l <= maxsize /\ next_unit l < 2 ^ 32 - 1)%Z then
      (do sp <- xdr_storage f cpp sp (next_unit l + 1);
       match sp with None => ret false | Some sp => run on_mem (store8 (sp + next_unit l) 0); xdr_opaque xdr_zero crud sp (next_unit l) end)%C (Xstate (advance h 4) st)
    else Some (false, Xstate (if decide (4 <= length l)%nat then advance h 4 else h) st).
Proof.
  intros Hi Hw. unfold xdr_string. unfold bind at 1. rewrite (load_ptr_eq _ cpp sp) by done. unfold bind at 1, get_st. cbn [x_op xdrmem_ops xs_h]. rewrite (in_op _ _ _ Hi).
  unfold bind at 1, ret at 1. unfold bind at 1. unfold u_int_filter. rewrite (long_filter_decode fuel _ _ _ _ _ Hi). destruct (decide (4 <= length l)%nat) as [Hl|Hl]; [|by rewrite decide_False by lia].
  cbn [default from_option id negb]. pose proof (next_unit_range _ _ _ Hi Hl) as Hr.
  assert (uwrap 32 (unit_long h (next_unit l)) = next_unit l) as -> by (unfold unit_long; destruct (x_aligned h); [rewrite uwrap_swrap by lia|]; by apply uwrap_small).
  destruct (Z.ltb_spec maxsize (next_unit l)) as [Hlt|Hle]; [by rewrite decide_False by lia|]. destruct (decide (next_unit l = 2 ^ 32 - 1)) as [Hm|Hm]; [rewrite Hm; by rewrite decide_False by lia|].
  rewrite decide_True by lia. rewrite uwrap_small by lia. by rewrite (proj2 (Z.eqb_neq _ 0)) by lia.
Qed.

(** Into the caller's buffer of [maxsize + 1] bytes. *)
Lemma xdr_string_into f h (st : St) l cpp sp maxsize :
  input h (st_mem st) l -> (length l < fuel)%nat -> word_at (st_mem st) cpp sp -> sp <> NULL -> 0 <= maxsize < 2 ^ 32 - 1 ->
  mapped (st_mem st) sp (maxsize + 1) -> clear h (cells sp (maxsize + 1)) -> crud_ok h (st_mem st) sp (maxsize + 1) ->
  decodes h st l (xdr_string f xdr_zero crud cpp maxsize) (opaque_cells sp (maxsize + 1)) (dec_string maxsize l) (fun m' => bytes_at m' sp (string_in l ++ [0])).
Proof.
  intros Hi Hf Hw Hsp Hmax Hm Hc (Hcm & Hcc & Hcd). pose proof (xdr_string_head f h st l cpp sp maxsize Hi Hw) as E. unfold dec_string.
  destruct (decide (4 <= zlen l /\ next_unit l <= maxsize /\ next_unit l < 2 ^ 32 - 1)%Z) as [(H4 & Hn & _)|Hn]; cycle 1.
  { rewrite decide_False by lia. exists (if decide (4 <= length l)%nat then 4%nat else 0%nat), (st_mem st). rewrite lens_set_get, E.
    split_and!; [destruct (decide _); lia|repeat destruct (decide _); rewrite ?advance_zero; done || lia|apply chg_self]. }
  pose proof (next_unit_range _ _ _ Hi ltac:(lia)) as Hr. set (n := next_unit l) in *.
  assert (xdr_storage f cpp sp (n + 1) (Xstate (advance h 4) st) = Some (Some sp, Xstate (advance h 4) st)) as Es.
  { unfold xdr_storage, bind, ret. by rewrite !(proj2 (Z.eqb_neq sp NULL)). }
  unfold bind in E at 1. rewrite Es in E.
  assert (forall a, cells sp (n + 1) a -> cells sp (maxsize + 1) a) as S1 by (unfold cells; lia).
  pose proof (string_body_decodes (advance h 4) st (drop 4 l) sp n) as D. specialize (D (input_advance _ _ _ 4 Hi ltac:(lia) (Z.divide_refl _))).
  assert (mapped (st_mem st) sp (n + 1)) as Hm1 by (intros a Ha; apply Hm; lia). assert (crud_ok (advance h 4) (st_mem st) sp (n + 1)) as Hcr by (split_and!; [done|by apply clear_advance|unfold disjoint_blk in *; lia]).
  rewrite length_drop in D. specialize (D ltac:(lia) ltac:(lia) Hm1 (clear_advance h _ 4 ltac:(lia) (clear_sub h _ _ S1 Hc)) Hcr).
  assert (forall a, opaque_cells sp (n + 1) a -> opaque_cells sp (maxsize + 1) a) as S2 by (intros a [?|?]; [left; by apply S1|by right]).
  assert (0 <= opaque_size n) as Hos by (unfold opaque_size; pose proof (rndup_spec n ltac:(lia)); lia).
  destruct (decide (opaque_size n <= Z.of_nat (length l - 4))) as [Hl|Hl].
  - rewrite decide_True by lia. destruct D as (Hk & m' & E' & C' & Q'). split; [lia|]. exists m'. rewrite E, E'. split_and!; [|by eapply chg_mono|done].
    rewrite advance_advance. by replace (Z.of_nat (Z.to_nat (4 + opaque_size n))) with (4 + Z.of_nat (Z.to_nat (opaque_size n))) by lia.
  - rewrite decide_False by lia. destruct D as (k & m' & Hk & E' & C'). rewrite length_drop in Hk. exists (4 + k)%nat, m'. rewrite E, E'. split_and!; [lia| |by eapply chg_mono].
    by rewrite advance_advance, Nat2Z.inj_add.
Qed.
End strings.

(** ** A block for the string *)

(** A change of two regions is a change of the one and then of the other. *)
Lemma chg_split p n (B : Z -> Prop) m m' :
  mapped m p n -> mem_ok m -> chg (fun a => cells p n a \/ B a) m m' -> exists m1, chg (cells p n) m m1 /\ chg B m1 m'.
Proof.
  intros Hm Hok Hc. destruct (decide (0 <= n)) as [Hn|Hn]; cycle 1.
  { exists m. split; [by split|]. eapply chg_mono; [done|]. intros a [Ha|Ha]; [unfold cells in Ha; lia|done]. }
  pose proof (chg_mapped _ _ _ _ _ Hc Hm) as Hm'. rewrite <- (Z2Nat.id n) in Hm' by done. destruct (mapped_bytes _ _ _ Hm') as (l & Hl & Hb).
  pose proof (bytes_at_bytes _ _ _ (chg_ok _ _ _ Hc Hok) Hb) as Hby. assert (zlen l = n) as Hz by lia.
  exists (put_bytes m p l). split; [pose proof (chg_put m p l Hby) as C; by rewrite Hz in C|]. split.
  - intros a Ha. destruct (decide (p <= a < p + zlen l)) as [Hin|Hout].
    + replace a with (p + Z.of_nat (Z.to_nat (a - p))) by lia. rewrite (put_bytes_at m p l) by lia. by rewrite Hb by lia.
    + rewrite lookup_put_bytes, decide_False by done. apply (chg_out _ _ _ Hc). intros [Hx|Hx]; [unfold cells in Hx; lia|done].
  - intros a. rewrite lookup_put_bytes. destruct (decide _) as [Hin|Hout]; [|apply (chg_dom _ _ _ Hc)]. intros _. apply Hm'. lia.
  - intros _. by apply (chg_ok _ _ _ Hc).
Qed.

Section allocated.
Context `{Arch} {St : Type} `{AllocOps St} {Lens : MemLens St} {AOk : AllocOk St}.
Variable fuel : nat.

#[local] Hint Extern 0 (XdrOps (xstate St)) => exact (xdrmem_ops fuel) : typeclass_instances.

Variables (xdr_zero crud : Z).

(** The memory of the caller: the stream, the pointer and the buffer for the fill
    bytes. *)
Record client (h : XDR) (F : gset Z) (cpp : Z) : Prop := {
  cl_stream : forall a, cells (x_private h) (x_handy h) a -> a ∈ F;
  cl_crud : forall a, cells crud 4 a -> a ∈ F;
  cl_ptr : forall a, word_cells cpp a -> a ∈ F;
  cl_clear_crud : clear h (cells crud 4);
  cl_clear_ptr : clear h (word_cells cpp);
  cl_apart : forall a, word_cells cpp a -> ~ cells crud 4 a }.

Lemma foreign_mapped (st : St) live F p n : alloc_inv st live F -> (forall a, cells p n a -> a ∈ F) -> mapped (st_mem st) p n.
Proof. intros Hi HF a Ha. apply (alloc_foreign st live F a Hi). by apply HF. Qed.

Lemma foreign_block (st : St) live F r n p k : alloc_inv st live F -> live !! r = Some n -> (forall a, cells p k a -> a ∈ F) -> forall a, cells p k a -> ~ cells r n a.
Proof. intros Hi Hr HF a Ha. apply (alloc_foreign st live F a Hi); [by apply HF|done]. Qed.

(** The storage: a block, its address at [cpp]. *)
Lemma xdr_storage_alloc h st live F l cpp n :
  alloc_inv st live F -> client h F cpp -> word_at (st_mem st) cpp NULL -> input h (st_mem st) l -> 0 <= n < 2 ^ long_bits ->
  exists f0 r st', (forall f, (f0 <= f)%nat -> xdr_storage f cpp NULL n (Xstate h st) = Some (if r =? NULL then None else Some r, Xstate h st')) /\
    alloc_inv st' (gets r n live) F /\ word_at (st_mem st') cpp r /\ input h (st_mem st') l /\ (r <> NULL -> live !! r = None) /\ (r = NULL -> st_errno st' = ENOMEM) /\
    (forall a, owns live F a -> ~ word_cells cpp a -> st_mem st' !! a = st_mem st !! a).
Proof.
  intros Hinv Hcl Hw Hi Hn. destruct (alloc_calloc st live F n Hinv Hn) as (f0 & r & st1 & E1 & Hinv1 & Hnew & Hk).
  assert (0 <= r < 2 ^ long_bits) as Hr.
  { destruct (Z.eq_dec r NULL) as [->|Hr]; [unfold NULL; lia|]. pose proof (alloc_block st1 _ F r n Hinv1) as Hb. unfold gets in Hb. rewrite (proj2 (Z.eqb_neq r NULL)), lookup_insert_eq in Hb by done.
    destruct (Hb eq_refl) as (B1 & _ & _ & B2). lia. }
  destruct (store_ptr_eq st1 (gets r n live) F cpp r Hinv1 (proj2 (proj2 Hw)) Hr) as (st2 & E2 & Hinv2 & Hw2 & C2).
  { by apply (foreign_mapped st1 (gets r n live) F), (cl_ptr _ _ _ Hcl). }
  { right. apply (cl_ptr _ _ _ Hcl). }
  assert (forall a, owns live F a -> ~ word_cells cpp a -> st_mem st2 !! a = st_mem st !! a) as Hkeep by (intros a Ho Ha; rewrite (chg_out _ _ _ C2) by done; by apply Hk).
  assert (input h (st_mem st2) l) as Hi2.
  { destruct Hi as [I1 I2 I3 I4 I5]. split; try done; [by eapply alloc_ok|]. intros i Hil. rewrite Hkeep; [by apply I4|right; apply (cl_stream _ _ _ Hcl)|apply (cl_clear_ptr _ _ _ Hcl)]; unfold cells; lia. }
  assert (forall f, (f0 <= f)%nat -> (do q <- mem_alloc f n; run store_ptr cpp q; ret q)%C (Xstate h st) = Some (r, Xstate h st2)) as E3.
  { intros f Hf. unfold bind, mem_alloc. cbn [op_calloc xstate_alloc]. unfold in_st at 1. cbn [xs_st xs_h]. rewrite E1 by done.
    unfold store_ptr, on_mem in E2 |- *. cbn [st_mem xstate_alloc xs_st st_set_mem xs_h]. destruct (store_long cpp r (st_mem st1)) as [[[] m]|]; [|done]. by injection E2 as <-. }
  destruct (Z.eqb_spec r NULL) as [->|Hrn].
  - destruct (st_errno_mem ENOMEM st2) as (st3 & Ee & Em & Ee'). pose proof (alloc_errno _ _ _ _ _ Hinv2 Ee) as Hinv3. exists f0, NULL, st3. rewrite Em. split_and!; try done.
    intros f Hf. unfold xdr_storage. cbn [Z.eqb]. change (NULL =? NULL) with true. cbn iota. unfold bind at 1. rewrite E3 by done. change (NULL =? NULL) with true. cbn iota.
    unfold bind. cbn [op_errno xstate_alloc]. unfold in_st. cbn [xs_st xs_h]. by rewrite Ee.
  - exists f0, r, st2. split_and!; try done; [|by intros _; apply Hnew]. intros f Hf. unfold xdr_storage. change (NULL =? NULL) with true. cbn iota. unfold bind at 1. rewrite E3 by done.
    by rewrite (proj2 (Z.eqb_neq r NULL)).
Qed.

(** Writing to a block and to the buffer for the fill bytes. *)
Lemma opaque_inv st live F r n m' :
  alloc_inv st live F -> live !! r = Some n -> (forall a, cells crud 4 a -> a ∈ F) -> chg (opaque_cells crud r n) (st_mem st) m' -> alloc_inv (st_set_mem st m') live F.
Proof.
  intros Hinv Hr HF Hc. destruct (alloc_block st live F r n Hinv Hr) as (_ & _ & Hm & _).
  destruct (chg_split r n (cells crud 4) (st_mem st) m' Hm (alloc_ok _ _ _ Hinv) Hc) as (m1 & C1 & C2).
  rewrite <- (lens_set_set st m1 m'). eapply (alloc_write _ _ _ (cells crud 4)); [|by rewrite lens_get_set|by right].
  eapply (alloc_write _ _ _ (cells r n)); [done..|]. left. by exists r, n.
Qed.

(** The result of xdr_string on a null pointer, once the length is read. *)
Lemma xdr_string_alloc h st live F l cpp maxsize :
  alloc_inv st live F -> client h F cpp -> word_at (st_mem st) cpp NULL -> input h (st_mem st) l -> (length l < fuel)%nat ->
  4 <= zlen l -> next_unit l <= maxsize -> next_unit l < 2 ^ 32 - 1 ->
  exists f0 r k b st', (forall f, (f0 <= f)%nat -> xdr_string f xdr_zero crud cpp maxsize (Xstate h st) = Some (b, Xstate (advance h k) st')) /\
    alloc_inv st' (gets r (next_unit l + 1) live) F /\ word_at (st_mem st') cpp r /\
    (forall a, owns live F a -> ~ word_cells cpp a -> ~ cells crud 4 a -> st_mem st' !! a = st_mem st !! a) /\
    0 <= k <= zlen l /\ (r = NULL -> b = false /\ st_errno st' = ENOMEM) /\
    (r <> NULL -> live !! r = None /\ b = bool_decide (4 + opaque_size (next_unit l) <= zlen l) /\
      (b = true -> k = 4 + opaque_size (next_unit l) /\ bytes_at (st_mem st') r (string_in l ++ [0]))).
Proof.
  intros Hinv Hcl Hw Hi Hf H4 Hmax Hlast. set (n := next_unit l) in *. pose proof (next_unit_range _ _ _ Hi ltac:(lia)) as Hr32. fold n in Hr32.
  pose proof (input_advance _ _ _ 4 Hi ltac:(lia) (Z.divide_refl _)) as Hi4. change (Z.of_nat 4) with 4 in Hi4.
  assert (client (advance h 4) F cpp) as Hcl4.
  { destruct Hcl as [K1 K2 K3 K4 K5 K6]. split; try done; [|by apply clear_advance..]. intros a Ha. apply K1. unfold cells in *. cbn in Ha. lia. }
  assert (0 <= n + 1 < 2 ^ long_bits) as Hn.
  { destruct long_bits_size as [_ Hb]. assert (2 ^ 32 <= 2 ^ long_bits) by (apply Z.pow_le_mono_r; lia). lia. }
  destruct (xdr_storage_alloc (advance h 4) st live F (drop 4 l) cpp (n + 1) Hinv Hcl4 Hw Hi4 Hn) as (f0 & r & st1 & E1 & Hinv1 & Hw1 & Hi1 & Hnew & Herr & Hkeep).
  assert (forall f, (f0 <= f)%nat -> xdr_string f xdr_zero crud cpp maxsize (Xstate h st) =
    match (if r =? NULL then None else Some r) with None => Some (false, Xstate (advance h 4) st1)
    | Some sp => (run on_mem (store8 (sp + n) 0); xdr_opaque xdr_zero crud sp n)%C (Xstate (advance h 4) st1) end) as E.
  { intros f Hff. rewrite (xdr_string_head fuel xdr_zero crud f h st l cpp NULL maxsize Hi Hw). rewrite decide_True by lia. unfold bind at 1. fold n. rewrite (E1 f Hff). by destruct (r =? NULL). }
  destruct (Z.eqb_spec r NULL) as [->|Hrn].
  { exists f0, NULL, 4, false, st1. split_and!; try done; [intros; by apply Hkeep|intros _; split; [done|by apply Herr]]. }
  unfold gets in Hinv1 |- *. rewrite (proj2 (Z.eqb_neq r NULL)) in Hinv1 by done. assert (<[r:=n + 1]> live !! r = Some (n + 1)) as Hlr by apply lookup_insert_eq.
  destruct (alloc_block _ _ _ r (n + 1) Hinv1 Hlr) as (_ & _ & Hmr & _).
  pose proof (foreign_block st1 _ F r (n + 1) crud 4 Hinv1 Hlr (cl_crud _ _ _ Hcl)) as Dc.
  assert (crud_ok crud (advance h 4) (st_mem st1) r (n + 1)) as Hcr.
  { split_and!; [by apply (foreign_mapped st1 _ F _ _ Hinv1), (cl_crud _ _ _ Hcl)|apply (cl_clear_crud _ _ _ Hcl4)|].
    pose proof (Dc crud) as D1. pose proof (Dc r) as D2. unfold cells, disjoint_blk in *. lia. }
  assert (clear (advance h 4) (cells r (n + 1))) as Hclr by exact (foreign_block st1 _ F r (n + 1) _ _ Hinv1 Hlr (cl_stream _ _ _ Hcl4)).
  pose proof (string_body_decodes fuel xdr_zero crud (advance h 4) st1 (drop 4 l) r n Hi1) as D. rewrite length_drop in D. specialize (D ltac:(lia) ltac:(lia) Hmr Hclr Hcr).
  assert (forall m', chg (opaque_cells crud r (n + 1)) (st_mem st1) m' -> word_at m' cpp r /\ forall a, owns live F a -> ~ word_cells cpp a -> ~ cells crud 4 a -> m' !! a = st_mem st !! a) as Hout.
  { intros m' Hc. split.
    - eapply word_chg; [done..|]. intros a Ha [Hx|Hx]; [|by apply (cl_apart _ _ _ Hcl a)]. by apply (foreign_block st1 _ F r (n + 1) cpp (Z.of_nat long_size) Hinv1 Hlr (cl_ptr _ _ _ Hcl) a).
    - intros a Ho Ha1 Ha2. rewrite (chg_out _ _ _ Hc); [by apply Hkeep|]. intros [Hx|Hx]; [|done]. destruct Ho as [(p & k & Hp & Ha)|Ha]; [|by apply (proj2 (alloc_foreign st1 _ F a Hinv1 Ha) r (n + 1) Hlr)].
      assert (p <> r) as Hpr by (intros ->; by rewrite Hnew in Hp). assert (<[r:=n + 1]> live !! p = Some k) as Hp' by by rewrite lookup_insert_ne.
      pose proof (alloc_apart st1 _ F p k r (n + 1) Hinv1 Hp' Hlr Hpr). unfold disjoint_blk, cells in *. lia. }
  assert (0 <= opaque_size n) as Hos by (unfold opaque_size; pose proof (rndup_spec n ltac:(lia)); lia).
  destruct (decide (opaque_size n <= Z.of_nat (length l - 4))) as [Hle|Hle].
  - destruct D as (Hk & m' & Ed & Cd & Qd). destruct (Hout m' Cd) as [O1 O2]. exists f0, r, (4 + opaque_size n), true, (st_set_mem st1 m'). rewrite lens_get_set, (proj2 (Z.eqb_neq r NULL)) by done.
    rewrite bool_decide_eq_true_2 by lia. rewrite ?length_drop in Hk. split_and!; try done; try lia; [|by apply (opaque_inv _ _ _ _ _ _ Hinv1 Hlr (cl_crud _ _ _ Hcl))|by intros _; split_and!; [apply Hnew| |]].
    intros f Hff. by rewrite E, Ed, advance_advance, Z2Nat.id.
  - destruct D as (k & m' & Hk & Ed & Cd). destruct (Hout m' Cd) as [O1 O2]. exists f0, r, (4 + Z.of_nat k), false, (st_set_mem st1 m'). rewrite lens_get_set, (proj2 (Z.eqb_neq r NULL)) by done.
    rewrite bool_decide_eq_false_2 by lia. rewrite ?length_drop in Hk. split_and!; try done; try lia; [|by apply (opaque_inv _ _ _ _ _ _ Hinv1 Hlr (cl_crud _ _ _ Hcl))|by intros _; split_and!; [apply Hnew| |]].
    intros f Hff. by rewrite E, Ed, advance_advance.
Qed.
End allocated.
