(* ===== verification/XdrRound.v ===== *)
(** * XDR: the scalar filters and vectors of them

    The table of the scalar filters: the object, its encoding and the value of the
    units read.  The encoding contracts and the decoding contracts of the table
    agree, and so do those of vectors. *)

From stdpp Require Import base list gmap.
From Stdlib Require Import ZArith Lia.
From S2P Require Import Prelude CMem CInt StrLocal StrMem StrStr Malloc MallocList Alloc Xdr XdrSpec XdrMem XdrDecode XdrString.

Local Open Scope Z_scope.

(** ** The table *)

(** A filter with the alignment and the size of its object, the number of units of
    its encoding, the objects it encodes, their encoding, and the object for the
    number that the units read are. *)
Record scalar (S : Type) := Scalar {
  sc_filter : Z -> C S bool; sc_align : Z; sc_size : nat; sc_units : nat; sc_valid : Z -> Prop; sc_enc : Z -> list Z; sc_value : Z -> Z }.
Arguments Scalar {S}.
Arguments sc_filter {S}.
Arguments sc_align {S}.
Arguments sc_size {S}.
Arguments sc_units {S}.
Arguments sc_valid {S}.
Arguments sc_enc {S}.
Arguments sc_value {S}.

Definition bool_obj (v : Z) : Prop := v = 0 \/ v = 1.
Definition truth (v : Z) : Z := if v =? 0 then 0 else 1.

Section scalars.
Context `{Arch} {S : Type} `{AllocOps S} `{XdrOps S}.
Variable char_signed : bool.
Variable enum_size : Z.

Definition basic_scalar (e : (Z -> C S bool) * (nat * (Z -> Z))) : scalar S :=
  let '(f, (n, g)) := e in Scalar f (Z.of_nat n) n 1 (int_obj n) (fun v => be32 (g v)) id.

(** A filter for eight bytes. *)
Definition wide (f : Z -> C S bool) (al : Z) : scalar S := Scalar f al 8 2 (int_obj 8) be64 id.

Definition scalars : list (scalar S) :=
  map basic_scalar (basic_ints char_signed enum_size) ++ [
    Scalar xdr_bool 4 4 1 bool_obj (fun v => be32 (truth v)) truth;
    Scalar xdr_u_long (Z.of_nat long_size) long_size 1 u_long_obj be32 id;
    wide xdr_int64_t 8; wide xdr_u_int64_t 8; wide xdr_uint64_t 8; wide xdr_hyper 8; wide xdr_u_hyper 8;
    wide xdr_longlong_t 8; wide xdr_u_longlong_t 8; wide xdr_double 4].

(** The bytes of an object. *)
Definition sc_obj (c : scalar S) (v : Z) : list Z := bytes_of_int (sc_size c) v.

Definition dec_scalar (c : scalar S) (l : list Z) : option (list Z * nat) :=
  if decide (4 * sc_units c <= length l)%nat then Some (sc_obj c (sc_value c (be_val (take (4 * sc_units c) l))), (4 * sc_units c)%nat) else None.

(** The parts of an entry fit together. *)
Record sc_ok (c : scalar S) : Prop := {
  so_align : (sc_align c | Z.of_nat (sc_size c));
  so_enc : forall v, Forall is_byte (sc_enc c v) /\ length (sc_enc c v) = (4 * sc_units c)%nat;
  so_back : forall v, sc_valid c v -> sc_obj c (sc_value c (be_val (sc_enc c v))) = sc_obj c v }.

Lemma be32_ok v : Forall is_byte (be32 v) /\ length (be32 v) = 4%nat.
Proof. split; [apply be32_bytes|apply be32_length]. Qed.

Lemma be64_ok v : Forall is_byte (be64 v) /\ length (be64 v) = 8%nat.
Proof. unfold be64. split; [apply Forall_app; split; apply be32_bytes|]. by rewrite length_app, !be32_length. Qed.

Lemma be_val_be64 v : int_obj 8 v -> be_val (be64 v) = v.
Proof.
  intros Hv. unfold int_obj in Hv. unfold be64. rewrite be_val_app, !be_val_be32, be32_length. unfold uwrap. rewrite (Z.mod_small (v / 2 ^ 32)).
  - pose proof (Z.div_mod v (2 ^ 32) ltac:(lia)). change (8 * Z.of_nat 4) with 32. lia.
  - change (8 * Z.of_nat 8) with 64 in Hv. split; [apply Z.div_pos; lia|apply Z.div_lt_upper_bound; lia].
Qed.

Lemma basic_back n (g : Z -> Z) v : (n <= 4)%nat -> int_obj n v -> uwrap (8 * Z.of_nat n) (g v) = v -> bytes_of_int n (be_val (be32 (g v))) = bytes_of_int n v.
Proof. intros Hn Hv Hg. rewrite be_val_be32, bytes_of_int_uwrap by lia. by rewrite <- (bytes_of_int_uwrap n (8 * Z.of_nat n)), Hg. Qed.

Lemma basic_ok : Forall (fun e => sc_ok (basic_scalar e)) (basic_ints char_signed enum_size).
Proof.
  apply Forall_app. split; [repeat (apply Forall_cons; split); [..|apply Forall_nil; done]|destruct (enum_size =? 4); [apply Forall_singleton|apply Forall_nil; done]]; (split; [apply Z.divide_refl|intros v; apply be32_ok|]); intros v Hv; apply basic_back; try done; try (cbn; lia);
    try (apply uwrap_small; exact Hv); try (rewrite uwrap_swrap by (cbn; lia); apply uwrap_small; exact Hv).
  by apply char_value_back.
Qed.

Lemma wide_ok f al : (al | 8) -> sc_ok (wide f al).
Proof. intros Hal. split; [done|apply be64_ok|]. intros v Hv. unfold wide. cbn [sc_value sc_enc]. by rewrite be_val_be64. Qed.

Lemma scalars_ok : Forall sc_ok scalars.
Proof.
  apply Forall_app. split; [apply Forall_map, basic_ok|]. repeat (apply Forall_cons; split); [| |try (apply wide_ok; first [by exists 1|by exists 2])..|apply Forall_nil; done].
  - split; [by exists 1|intros v; apply be32_ok|]. by intros v [->| ->].
  - split; [apply Z.divide_refl|intros v; apply be32_ok|]. intros v Hv. cbn [sc_value sc_enc]. rewrite be_val_be32. by rewrite uwrap_small.
Qed.

Lemma scalars_write {Lens : MemLens S} {Enc : EncStream S} : Forall (fun c => writes (sc_filter c) (sc_align c) (sc_valid c) (sc_obj c) (sc_enc c)) scalars.
Proof.
  apply Forall_app. split; [apply Forall_map; eapply Forall_impl; [apply basic_writes|]; by intros [f [n g]]|]. repeat (apply Forall_cons; split); [..|apply Forall_nil; done];
    try apply xdr_int64_writes; try apply xdr_u_int64_writes.
  - intros s p v Hv. apply xdr_bool_writes. unfold int_obj. cbn. destruct Hv; lia.
  - apply xdr_u_long_writes.
  - apply xdr_double_writes.
Qed.
End scalars.

(** ** Decoding the table *)

Section read.
Context `{Arch} {St : Type} `{AllocOps St} {Lens : MemLens St}.
Variable fuel : nat.
Variable char_signed : bool.
Variable enum_size : Z.

#[local] Hint Extern 0 (XdrOps (xstate St)) => exact (xdrmem_ops fuel) : typeclass_instances.

Lemma scalars_read : Forall (fun c => reads (sc_filter c) (sc_align c) (Z.of_nat (sc_size c)) (dec_scalar c)) (scalars (S := xstate St) char_signed enum_size).
Proof.
  apply Forall_app. split; [apply Forall_map; eapply Forall_impl; [apply (basic_reads fuel)|]; by intros [f [n g]]|].
  repeat (apply Forall_cons; split); [exact (xdr_bool_reads fuel)|exact (xdr_u_long_reads fuel)|exact (xdr_int64_reads fuel)|exact (xdr_u_int64_reads fuel)|exact (xdr_u_int64_reads fuel)|
    exact (xdr_int64_reads fuel)|exact (xdr_u_int64_reads fuel)|exact (xdr_int64_reads fuel)|exact (xdr_u_int64_reads fuel)|exact (xdr_double_reads fuel)|apply Forall_nil; done].
Qed.
End read.

(** ** Vectors *)

Section vectors.
Context `{Arch} {S : Type} `{AllocOps S} `{XdrOps S}.
Variable c : scalar S.
Hypothesis c_ok : sc_ok c.

Definition vec_obj (vs : list Z) : list Z := concat (map (sc_obj c) vs).
Definition vec_enc (vs : list Z) : list Z := concat (map (sc_enc c) vs).

Lemma sc_obj_length v : zlen (sc_obj c v) = Z.of_nat (sc_size c).
Proof. unfold sc_obj. by rewrite bytes_of_int_length. Qed.

Lemma vec_obj_length vs : zlen (vec_obj vs) = zlen vs * Z.of_nat (sc_size c).
Proof. unfold vec_obj. induction vs as [|v vs IH]; [done|]. cbn [map concat length]. rewrite length_app, Nat2Z.inj_add, sc_obj_length. lia. Qed.

Lemma vec_enc_length vs : zlen (vec_enc vs) = 4 * Z.of_nat (sc_units c) * zlen vs.
Proof. unfold vec_enc. induction vs as [|v vs IH]; [cbn [map concat length]; lia|]. cbn [map concat length]. rewrite length_app, Nat2Z.inj_add, (proj2 (so_enc c c_ok v)). lia. Qed.

Lemma vec_enc_bytes vs : Forall is_byte (vec_enc vs).
Proof. unfold vec_enc. induction vs as [|v vs IH]; [constructor|]. cbn [map concat]. apply Forall_app. split; [apply (so_enc c c_ok)|done]. Qed.

Lemma vector_encodes {Lens : MemLens S} {Enc : EncStream S} s p vs :
  writes (sc_filter c) (sc_align c) (sc_valid c) (sc_obj c) (sc_enc c) -> Forall (sc_valid c) vs ->
  enc_ok s -> enc_unit s -> p mod sc_align c = 0 -> bytes_at (st_mem s) p (vec_obj vs) -> apart s p (zlen (vec_obj vs)) ->
  encodes s (xdr_vector p (zlen vs) (Z.of_nat (sc_size c)) (sc_filter c)) (vec_enc vs).
Proof.
  intros Hw Hv Hok Hu Ha Hb Hap. unfold xdr_vector. rewrite Nat2Z.id. eapply (xdr_elements_encodes _ _ _ (sc_valid c) (sc_obj c)); try done.
  - intros v _. apply sc_obj_length.
  - apply (so_align c c_ok).
  - intros v _. destruct (so_enc c c_ok v) as [Hby Hl]. split; [done|]. rewrite Hl. exists (Z.of_nat (sc_units c)). lia.
Qed.

Lemma dec_scalar_enc v tail : sc_valid c v -> dec_scalar c (sc_enc c v ++ tail) = Some (sc_obj c v, (4 * sc_units c)%nat).
Proof.
  intros Hv. destruct (so_enc c c_ok v) as [_ Hl]. unfold dec_scalar. rewrite decide_True by (rewrite length_app; lia).
  rewrite <- Hl, take_app_length. by rewrite (so_back c c_ok v Hv).
Qed.

Lemma dec_vector_enc vs tail : Forall (sc_valid c) vs -> dec_elements (dec_scalar c) (length vs) (vec_enc vs ++ tail) = Some (vec_obj vs, length (vec_enc vs)).
Proof.
  unfold vec_enc, vec_obj. induction vs as [|v vs IH]; intros Hv; [done|]. apply Forall_cons in Hv as [Hv Hvs]. cbn [length dec_elements map concat]. rewrite <- app_assoc, dec_scalar_enc by done.
  destruct (so_enc c c_ok v) as [_ Hl]. rewrite <- Hl, drop_app_length, IH by done. by rewrite length_app.
Qed.
End vectors.

Section memory_vectors.
Context `{Arch} {St : Type} `{AllocOps St} {Lens : MemLens St}.
Variable fuel : nat.

#[local] Hint Extern 0 (XdrOps (xstate St)) => exact (xdrmem_ops fuel) : typeclass_instances.

Variable c : scalar (xstate St).
Hypothesis c_ok : sc_ok c.
Hypothesis c_reads : reads (sc_filter c) (sc_align c) (Z.of_nat (sc_size c)) (dec_scalar c).

Lemma vector_reads n : reads (fun p => xdr_vector p (Z.of_nat n) (Z.of_nat (sc_size c)) (sc_filter c)) (sc_align c) (Z.of_nat n * Z.of_nat (sc_size c)) (dec_elements (dec_scalar c) n).
Proof.
  intros h st l p. unfold xdr_vector. rewrite Nat2Z.id. apply xdr_elements_reads; [done| |apply (so_align c c_ok)|lia].
  intros l' o k. unfold dec_scalar. destruct (decide _); [|done]. intros [= _ <-]. exists (Z.of_nat (sc_units c)). lia.
Qed.

Lemma create_unit addr size op : at_unit (xdrmem_create addr size op).
Proof. unfold at_unit, xdrmem_create. cbn [x_aligned x_private]. intros Ea%Z.eqb_eq. change 3 with (Z.ones 2) in Ea. rewrite Z.land_ones in Ea by lia. exact Ea. Qed.

(** The stream over a buffer that was written to. *)
Lemma create_input addr size m w : mem_ok m -> mapped m addr size -> bytes_at m addr w -> zlen w <= size ->
  exists tail, input (xdrmem_create addr size XDR_DECODE) m (w ++ tail).
Proof.
  intros Hok Hm Hb Hw. assert (mapped m (addr + zlen w) (Z.of_nat (Z.to_nat (size - zlen w)))) as Hm' by (intros a Ha; apply Hm; lia).
  destruct (mapped_bytes _ _ _ Hm') as (tail & Hl & Ht). exists tail. split; try done; [cbn; rewrite length_app; lia|by apply bytes_at_app|apply create_unit].
Qed.
End memory_vectors.

(** ** Arbitrary input *)

Section vector_value.
Context `{Arch} {S : Type}.
Variable c : scalar S.

(** The objects for the units in [l]. *)
Definition vec_value (n : nat) (l : list Z) : list Z :=
  concat (map (fun i => sc_obj c (sc_value c (be_val (take (4 * sc_units c) (drop (4 * sc_units c * i) l))))) (seq 0 n)).

Lemma dec_elements_value n : forall l,
  dec_elements (dec_scalar c) n l = if decide (4 * sc_units c * n <= length l)%nat then Some (vec_value n l, (4 * sc_units c * n)%nat) else None.
Proof.
  induction n as [|n IH]; intros l; cbn [dec_elements]; [by rewrite decide_True by lia; rewrite Nat.mul_0_r|]. unfold dec_scalar at 1. set (w := (4 * sc_units c)%nat) in *.
  destruct (decide (w <= length l)%nat) as [Hw|Hw]; [|by rewrite decide_False by lia]. rewrite IH, length_drop.
  destruct (decide (w * n <= length l - w)%nat) as [Hn|Hn]; [rewrite decide_True by lia|by rewrite decide_False by lia].
  f_equal. f_equal; [|lia]. unfold vec_value. fold w. cbn [seq map concat]. rewrite Nat.mul_0_r, drop_0. f_equal. rewrite <- seq_shift, map_map. f_equal. apply map_ext. intros i.
  rewrite drop_drop. do 5 f_equal. lia.
Qed.
End vector_value.
