(* ===== verification/XdrProps.v ===== *)
(** * XDR: what it guarantees

    The theorems on libc/xdr over memory streams, for any state behind the
    interface of the allocator. *)

From stdpp Require Import base list gmap.
From Stdlib Require Import ZArith Lia.
From S2P Require Import Prelude CMem CInt StrLocal StrMem StrStr Demo Malloc MallocList MallocHeap MallocSys MallocProps Alloc.
From S2P Require Import Xdr XdrSpec XdrMem XdrDecode XdrString XdrRound.

Local Open Scope Z_scope.

Section props.
Context `{Arch} {St : Type} `{AllocOps St} {Lens : MemLens St}.
Variable fuel : nat.

#[local] Hint Extern 0 (XdrOps (xstate St)) => exact (xdrmem_ops fuel) : typeclass_instances.

(** A new stream over [size] bytes at [addr]. *)
Abbreviation stream op addr size st := (Xstate (xdrmem_create addr size op) st).

Lemma create_enc_ok (st : St) addr size :
  mem_ok (st_mem st) -> 0 <= size < 2 ^ 32 -> mapped (st_mem st) addr size -> mem_enc_ok (stream XDR_ENCODE addr size st).
Proof. by split. Qed.

Lemma disjoint_apart p n q k : disjoint_blk p n q k -> forall a, q <= a < q + k -> ~ cells p n a.
Proof. unfold disjoint_blk, cells. lia. Qed.

(** Encoding into a new stream. *)
Lemma create_encodes (st : St) addr size (f : C (xstate St) bool) w :
  0 <= size -> Forall is_byte w -> encodes (Enc := mem_enc fuel) (stream XDR_ENCODE addr size st) f w ->
  exists b st1 k, f (stream XDR_ENCODE addr size st) = Some (b, Xstate (advance (xdrmem_create addr size XDR_ENCODE) k) st1) /\ b = (zlen w <=? size) /\
    (b = true -> k = zlen w /\ st1 = st_set_mem st (put_bytes (st_mem st) addr w)).
Proof.
  intros Hs Hb He. unfold encodes in He. change (fits _ ?n) with (n <=? size) in He. destruct (Z.leb_spec (zlen w) size) as [Hl|Hl].
  - exists true. eexists _, _. split; [exact He|]. done.
  - destruct He as (w' & w'' & -> & F & E). exists false. eexists _, _. split; [exact E|]. done.
Qed.
End props.

(** C33: a vector of valid objects that is encoded to a buffer with enough room and
    then decoded is the vector it was, for every filter of the table [scalars]: the
    signed and unsigned filters for char, short, int, for the integers of 8, 16, 32
    and 64 bits, hyper and long long, float and double, with every object valid;
    xdr_bool for the values 0 and 1; xdr_u_long for the values below 2^32; and
    xdr_enum where an enum has the size of an int.  xdr_long is not in the table.
    The buffer holds the encodings of the elements, most significant byte first.
    With too little room the encoding fails. *)
Theorem xdr_vector_roundtrip `{Arch} {St : Type} `{AllocOps St} {Lens : MemLens St} (fuel : nat) (char_signed : bool) (enum_size : Z) (st : St) c vs addr size p q :
  let _ := xdrmem_ops (St := St) fuel in
  let len := 4 * Z.of_nat (sc_units c) * zlen vs in
  let n := zlen vs * Z.of_nat (sc_size c) in
  c ∈ scalars (S := xstate St) char_signed enum_size -> Forall (sc_valid c) vs ->
  mem_ok (st_mem st) -> 0 <= size < 2 ^ 32 -> mapped (st_mem st) addr size ->
  p mod sc_align c = 0 -> bytes_at (st_mem st) p (vec_obj c vs) -> disjoint_blk p n addr size ->
  q mod sc_align c = 0 -> mapped (st_mem st) q n -> disjoint_blk q n addr size ->
  exists b k st1, xdr_vector p (zlen vs) (Z.of_nat (sc_size c)) (sc_filter c) (Xstate (xdrmem_create addr size XDR_ENCODE) st) =
      Some (b, Xstate (advance (xdrmem_create addr size XDR_ENCODE) k) st1) /\ b = (len <=? size) /\
    (b = true -> k = len /\ bytes_at (st_mem st1) addr (vec_enc c vs) /\ chg (cells addr len) (st_mem st) (st_mem st1) /\
      exists st2, xdr_vector q (zlen vs) (Z.of_nat (sc_size c)) (sc_filter c) (Xstate (xdrmem_create addr size XDR_DECODE) st1) =
          Some (true, Xstate (advance (xdrmem_create addr size XDR_DECODE) len) st2) /\
        bytes_at (st_mem st2) q (vec_obj c vs) /\ chg (cells q n) (st_mem st1) (st_mem st2)).
Proof.
  intros ops len n Hc Hv Hok Hs Hm Hp Hb Hd Hq Hqm Hqd. pose proof (proj1 (Forall_forall _ _) (scalars_ok char_signed enum_size) c Hc) as Cok.
  pose proof (proj1 (Forall_forall _ _) (scalars_write (Enc := mem_enc fuel) char_signed enum_size) c Hc) as Cw. pose proof (proj1 (Forall_forall _ _) (scalars_read fuel char_signed enum_size) c Hc) as Cr. subst ops.
  pose proof (vec_enc_length c Cok vs) as Hwl. pose proof (vec_obj_length c vs) as Hol. fold len in Hwl. fold n in Hol.
  pose proof (vector_encodes (Enc := mem_enc fuel) c Cok (Xstate (xdrmem_create addr size XDR_ENCODE) st) p vs Cw Hv) as He.
  specialize (He (create_enc_ok st addr size Hok Hs Hm) (create_unit addr size _) Hp Hb). rewrite Hol in He. specialize (He ltac:(intros a Ha; cbn; unfold disjoint_blk in Hd; lia)).
  destruct (create_encodes fuel st addr size _ (vec_enc c vs) ltac:(lia) (vec_enc_bytes c Cok vs) He) as (b & st1 & k & E & Eb & Hb1). rewrite Hwl in Eb, Hb1.
  exists b, k, st1. split_and!; [done|done|]. intros Hbt. destruct (Hb1 Hbt) as [-> ->]. rewrite lens_get_set. rewrite Hbt in Eb. symmetry in Eb. apply Z.leb_le in Eb.
  set (m1 := put_bytes (st_mem st) addr (vec_enc c vs)). assert (mem_ok m1) as Hok1 by (apply put_bytes_ok; [done|by apply vec_enc_bytes]).
  split_and!; [done|apply put_bytes_at|pose proof (chg_put (st_mem st) addr _ (vec_enc_bytes c Cok vs)) as C; by rewrite Hwl in C|].
  destruct (create_input addr size m1 (vec_enc c vs) Hok1 (put_bytes_mapped _ _ _ _ _ Hm) (put_bytes_at _ _ _)) as [tail Hi]; [lia|].
  pose proof (vector_reads c Cok Cr (length vs) (xdrmem_create addr size XDR_DECODE) (st_set_mem st m1) (vec_enc c vs ++ tail) q) as D. rewrite lens_get_set in D.
  specialize (D Hi Hq (put_bytes_mapped _ _ _ _ _ Hqm) (fun a Ha => disjoint_apart _ _ _ _ Hqd a Ha)). rewrite dec_vector_enc in D by done. destruct D as (_ & _ & m2 & E2 & C2 & Q2).
  rewrite lens_get_set, lens_set_set in *. exists (st_set_mem st m2). rewrite lens_get_set, <- Hwl. done.
Qed.

(** Decoding a vector from arbitrary bytes returns, changes no byte but those of
    the vector and consumes no more than there is; it succeeds exactly when there
    are enough bytes, and the elements are then the values of the units read. *)
Theorem xdr_vector_decode_safe `{Arch} {St : Type} `{AllocOps St} {Lens : MemLens St} (fuel : nat) (char_signed : bool) (enum_size : Z) (st : St) c (n : nat) addr l q :
  let _ := xdrmem_ops (St := St) fuel in
  let size := Z.of_nat n * Z.of_nat (sc_size c) in
  c ∈ scalars (S := xstate St) char_signed enum_size -> mem_ok (st_mem st) -> bytes_at (st_mem st) addr l ->
  q mod sc_align c = 0 -> mapped (st_mem st) q size -> disjoint_blk q size addr (zlen l) ->
  exists b k st', xdr_vector q (Z.of_nat n) (Z.of_nat (sc_size c)) (sc_filter c) (Xstate (xdrmem_create addr (zlen l) XDR_DECODE) st) =
      Some (b, Xstate (advance (xdrmem_create addr (zlen l) XDR_DECODE) k) st') /\
    b = (4 * Z.of_nat (sc_units c) * Z.of_nat n <=? zlen l) /\ 0 <= k <= zlen l /\ chg (cells q size) (st_mem st) (st_mem st') /\
    (b = true -> bytes_at (st_mem st') q (vec_value c n l)).
Proof.
  intros ops size Hc Hok Hb Hq Hqm Hd. pose proof (proj1 (Forall_forall _ _) (scalars_ok char_signed enum_size) c Hc) as Cok. pose proof (proj1 (Forall_forall _ _) (scalars_read fuel char_signed enum_size) c Hc) as Cr. subst ops.
  assert (input (xdrmem_create addr (zlen l) XDR_DECODE) (st_mem st) l) as Hi by (split; try done; apply create_unit).
  pose proof (vector_reads c Cok Cr n _ st l q Hi Hq Hqm (fun a Ha => disjoint_apart _ _ _ _ Hd a Ha)) as D. rewrite dec_elements_value in D. destruct (decide _) as [Hl|Hl].
  - destruct D as (_ & Hk & m' & E & C & Q). exists true. eexists _, _. rewrite E, lens_get_set. split_and!; done || lia.
  - destruct D as (k & m' & Hk & E & C). exists false. eexists _, _. rewrite E, lens_get_set. split_and!; done || lia.
Qed.

(** The long that is read back. *)
Lemma unit_long_back `{Arch} h v : long_obj v ->
  bytes_of_int long_size (unit_long h (be_val (be32 (swrap long_bits v)))) = bytes_of_int long_size v <->
  x_aligned h = true \/ long64 = false \/ 0 <= swrap long_bits v.
Proof.
  intros [Hv Hf]. destruct long_bits_size as [El Hlb]. rewrite be_val_be32, uwrap_swrap by lia. set (u := uwrap 32 v). unfold unit_long.
  assert (0 <= u < 2 ^ 32) as Hu by (apply uwrap_range; lia). destruct (x_aligned h).
  - split; [by left|]. intros _. assert (swrap 32 u = swrap long_bits v) as ->; [|by apply bytes_of_int_swrap; lia].
    rewrite <- (swrap_small 32 (swrap long_bits v)) by (lia || done). subst u. rewrite <- (uwrap_swrap 32 long_bits v) by lia. rewrite !(swrap_uwrap 32) by lia. unfold uwrap. by rewrite Z.mod_mod by lia.
  - assert (bytes_of_int long_size u = bytes_of_int long_size v <-> u = v) as ->.
    { split; [|by intros ->]. intros E. apply (f_equal word_of_bytes) in E. rewrite !word_of_bytes_of_int, <- El in E.
      assert (2 ^ 32 <= 2 ^ long_bits) by (apply Z.pow_le_mono_r; lia). rewrite !uwrap_small in E by lia. done. }
    subst u. unfold long_bits, long_size in *. destruct long64; cbn in Hv, Hf |- *.
    + rewrite (swrap_uwrap 64), (uwrap_small 64 v) in * by lia. destruct (Z.ltb_spec v (2 ^ (64 - 1))).
      * split; [intros _; right; right; lia|]. intros _. apply uwrap_small. lia.
      * split; [intros Hx; lia|]. intros [Hx|[Hx|Hx]]; [done|done|lia].
    + split; [by intros _; right; left|]. intros _. by apply uwrap_small.
Qed.

(** C37: a long that fits in a unit is encoded to a buffer and decoded; what is read
    back is the long exactly when the buffer is aligned, long has 32 bits or the
    number is not negative.  A negative number from an unaligned buffer of a 64-bit
    machine comes back without its sign. *)
Theorem xdr_long_roundtrip `{Arch} {St : Type} `{AllocOps St} {Lens : MemLens St} (fuel : nat) (st : St) v addr size p q :
  let _ := xdrmem_ops (St := St) fuel in
  let n := Z.of_nat long_size in
  long_obj v -> mem_ok (st_mem st) -> 4 <= size < 2 ^ 32 -> mapped (st_mem st) addr size ->
  p mod n = 0 -> bytes_at (st_mem st) p (bytes_of_int long_size v) -> disjoint_blk p n addr size ->
  q mod n = 0 -> mapped (st_mem st) q n ->
  exists s1 s2, xdr_long p (Xstate (xdrmem_create addr size XDR_ENCODE) st) = Some (true, s1) /\
    xdr_long q (Xstate (xdrmem_create addr size XDR_DECODE) (xs_st s1)) = Some (true, s2) /\
    (bytes_at (st_mem (xs_st s2)) q (bytes_of_int long_size v) <-> Z.land addr 3 = 0 \/ long64 = false \/ 0 <= swrap long_bits v).
Proof.
  intros ops n Hv Hok Hs Hm Hp Hb Hd Hq Hqm. subst ops.
  pose proof (xdr_long_writes (Enc := mem_enc fuel) (Xstate (xdrmem_create addr size XDR_ENCODE) st) p v Hv (create_enc_ok st addr size Hok ltac:(lia) Hm) (create_unit addr size _) Hp Hb) as He.
  rewrite bytes_of_int_length in He. specialize (He ltac:(intros a Ha; cbn; unfold disjoint_blk in Hd; lia)).
  destruct (create_encodes fuel st addr size _ (be32 (swrap long_bits v)) ltac:(lia) (be32_bytes _) He) as (b & st1 & k & E & Eb & Hb1). rewrite be32_length in Eb, Hb1. rewrite (proj2 (Z.leb_le _ _)) in Eb by lia. subst b.
  destruct (Hb1 eq_refl) as [-> ->]. set (m1 := put_bytes (st_mem st) addr (be32 (swrap long_bits v))).
  destruct (create_input addr size m1 (be32 (swrap long_bits v))) as [tail Hi]; [apply put_bytes_ok; [done|apply be32_bytes]|by apply put_bytes_mapped|apply put_bytes_at|rewrite be32_length; lia|].
  rewrite <- (lens_get_set st m1) in Hi. pose proof (xdr_long_decode fuel _ _ _ q Hi Hq) as D. rewrite !lens_get_set, decide_True in D by (rewrite length_app, be32_length; lia).
  eexists _, _. split; [exact E|]. cbn [xs_st]. split; [exact (D (put_bytes_mapped _ _ _ _ _ Hqm))|]. cbn [xs_st]. rewrite lens_get_set. unfold next_unit. rewrite <- (be32_length (swrap long_bits v)), take_app_length.
  rewrite <- Z.eqb_eq. change (Z.land addr 3 =? 0) with (x_aligned (xdrmem_create addr size XDR_DECODE)). rewrite <- unit_long_back by done. split.
  - intros Hx. eapply bytes_at_inj; [apply put_bytes_at|done|]. by rewrite !bytes_of_int_length.
  - intros <-. apply put_bytes_at.
Qed.

(** C35: decoding a string from arbitrary bytes when the pointer is null, for any
    maximal length of 32 bits, LASTUNSIGNED included: the call returns and consumes
    no more than there is.  When the stream has no length, or one above the maximum,
    or LASTUNSIGNED, to which no terminator can be added, the call fails and the
    state is as it was.  Otherwise it asks for one block, of the length read and a
    terminator, and leaves it at the pointer; without memory that is null and ENOMEM
    is reported.  It succeeds exactly when there is a block and the stream has the
    characters and the bytes that fill them up; the block then has the characters and
    the terminator.  Nothing else of the client changes but the pointer and the fill
    buffer. *)
Theorem xdr_string_decode_safe `{Arch} {St : Type} `{AllocOps St} {Lens : MemLens St} {AOk : AllocOk St} (fuel : nat) (xdr_zero crud : Z) (st : St) live F addr l cpp maxsize :
  let _ := xdrmem_ops (St := St) fuel in
  alloc_inv st live F -> client crud (xdrmem_create addr (zlen l) XDR_DECODE) F cpp -> word_at (st_mem st) cpp NULL -> bytes_at (st_mem st) addr l ->
  (length l < fuel)%nat -> 0 <= maxsize <= LASTUNSIGNED ->
  exists f0 r b k st', (forall f, (f0 <= f)%nat -> xdr_string f xdr_zero crud cpp maxsize (Xstate (xdrmem_create addr (zlen l) XDR_DECODE) st) =
      Some (b, Xstate (advance (xdrmem_create addr (zlen l) XDR_DECODE) k) st')) /\ 0 <= k <= zlen l /\
    alloc_inv st' (gets r (next_unit l + 1) live) F /\ word_at (st_mem st') cpp r /\
    (if decide (4 <= zlen l /\ next_unit l <= maxsize /\ next_unit l < LASTUNSIGNED)
     then (r = NULL -> st_errno st' = ENOMEM) /\ (r <> NULL -> live !! r = None) /\ b = bool_decide (r <> NULL /\ 4 + opaque_size (next_unit l) <= zlen l)
     else r = NULL /\ b = false /\ st' = st) /\
    (forall a, owns live F a -> ~ word_cells cpp a -> ~ cells crud 4 a -> st_mem st' !! a = st_mem st !! a) /\
    (b = true -> zlen (string_in l) = next_unit l /\ bytes_at (st_mem st') r (string_in l ++ [0])).
Proof.
  intros ops Hinv Hcl Hw Hb Hf Hmax. subst ops. change LASTUNSIGNED with (2 ^ 32 - 1) in *.
  assert (input (xdrmem_create addr (zlen l) XDR_DECODE) (st_mem st) l) as Hi by (split; try done; [by eapply alloc_ok|apply create_unit]).
  destruct (decide (4 <= zlen l /\ next_unit l <= maxsize /\ next_unit l < 2 ^ 32 - 1)) as [(H4 & Hn & Hlast)|Hn]; cycle 1.
  { exists 0%nat, NULL, false, (if decide (4 <= length l)%nat then 4 else 0), st. split_and!; try done; [|destruct (decide _); lia|destruct (decide _); lia].
    intros f _. rewrite (xdr_string_head fuel _ _ _ _ _ _ _ _ _ Hi Hw). rewrite decide_False by done. by destruct (decide _); rewrite ?advance_zero. }
  pose proof (next_unit_range _ _ _ Hi ltac:(lia)) as Hr. assert (0 <= xdr_rndup (next_unit l)) as Hp by (apply rndup_spec; lia).
  destruct (xdr_string_alloc fuel xdr_zero crud _ st live F l cpp maxsize Hinv Hcl Hw Hi Hf H4 Hn Hlast) as (f0 & r & k & b & st' & E & Hinv' & Hw' & Hkeep & Hk & Hnull & Hsome).
  exists f0, r, b, k, st'. split_and!; try done; try lia.
  - intros Hrn. by apply Hsome.
  - destruct (decide (r = NULL)) as [Hrn|Hrn]; [rewrite (proj1 (Hnull Hrn)); by rewrite bool_decide_eq_false_2 by tauto|]. rewrite (proj1 (proj2 (Hsome Hrn))). apply bool_decide_ext. tauto.
  - intros ->. assert (r <> NULL) as Hrn by (intros ->; by destruct (Hnull eq_refl)). destruct (Hsome Hrn) as (_ & Hb' & Hs). symmetry in Hb'. apply bool_decide_eq_true_1 in Hb'.
    unfold opaque_size in Hb'. split; [|by apply Hs]. unfold string_in. rewrite length_take_le by (rewrite length_drop; lia). lia.
Qed.

Lemma opaque_length l : zlen (opaque l) = opaque_size (zlen l).
Proof. unfold opaque, opaque_size. rewrite length_app, length_replicate. pose proof (rndup_spec (zlen l) ltac:(lia)). lia. Qed.

Lemma opaque_bytes l : Forall is_byte l -> Forall is_byte (opaque l).
Proof. intros Hl. apply Forall_app. split; [done|]. by apply Forall_replicate. Qed.

Lemma next_unit_be32 v w : 0 <= v < 2 ^ 32 -> next_unit (be32 v ++ w) = v.
Proof. intros Hv. unfold next_unit. rewrite <- (be32_length v), take_app_length, be_val_be32. by apply uwrap_small. Qed.

Lemma string_in_enc str tail : zlen str < 2 ^ 32 -> string_in (be32 (zlen str) ++ opaque str ++ tail) = str.
Proof.
  intros Hs. unfold string_in. rewrite next_unit_be32, Nat2Z.id by lia. change 4%nat with (length (be32 0)) at 1. rewrite be32_length, <- (be32_length (zlen str)), drop_app_length.
  unfold opaque. by rewrite <- app_assoc, take_app_length.
Qed.

Section string_encode.
Context `{Arch} {St : Type} `{AllocOps St} {Lens : MemLens St}.
Variable fuel : nat.

#[local] Hint Extern 0 (XdrOps (xstate St)) => exact (xdrmem_ops fuel) : typeclass_instances.

(** The conditions for encoding a string. *)
Record string_source (st : St) (xdr_zero cpp sp : Z) (str : list Z) (addr size : Z) : Prop := {
  ss_ptr : word_at (st_mem st) cpp sp;
  ss_some : sp <> NULL;
  ss_str : cstr (st_mem st) sp str;
  ss_tail : word_tail_mapped (st_mem st) (sp + zlen str);
  ss_apart : disjoint_blk sp (zlen str) addr size;
  ss_zero : bytes_at (st_mem st) xdr_zero [0; 0; 0; 0];
  ss_zero_apart : disjoint_blk xdr_zero 4 addr size }.

Lemma string_encode (f : nat) (xdr_zero crud : Z) (st : St) cpp sp str addr size maxsize :
  let w := be32 (zlen str) ++ opaque str in
  mem_ok (st_mem st) -> 0 <= size < 2 ^ 32 -> mapped (st_mem st) addr size -> string_source st xdr_zero cpp sp str addr size ->
  (length str < f)%nat -> zlen str < Z.of_nat fuel -> 4 < Z.of_nat fuel -> zlen str <= maxsize < 2 ^ 32 - 1 ->
  exists b k st1, xdr_string f xdr_zero crud cpp maxsize (Xstate (xdrmem_create addr size XDR_ENCODE) st) = Some (b, Xstate (advance (xdrmem_create addr size XDR_ENCODE) k) st1) /\
    b = (4 + opaque_size (zlen str) <=? size) /\ (b = true -> k = 4 + opaque_size (zlen str) /\ st1 = st_set_mem st (put_bytes (st_mem st) addr w)).
Proof.
  intros w Hok Hs Hm [S1 S2 S3 S4 S5 S6 S7] Hf Hfu H4 Hmax.
  assert (Forall is_byte str) as Hby by (eapply Forall_impl; [apply S3|]; unfold nonzero_byte, is_byte; intros; lia).
  assert (Forall is_byte w) as Hwb by (apply Forall_app; split; [apply be32_bytes|by apply opaque_bytes]).
  assert (zlen w = 4 + opaque_size (zlen str)) as Hwl by (unfold w; rewrite length_app, Nat2Z.inj_add, opaque_length, be32_length; done).
  assert (encodes (Enc := mem_enc fuel) (Xstate (xdrmem_create addr size XDR_ENCODE) st) (xdr_string f xdr_zero crud cpp maxsize) w) as He.
  { apply (xdr_string_encodes xdr_zero crud f _ cpp sp); try done; try lia; [by apply create_unit|split; [done|]|]; intros a Ha; cbn; unfold disjoint_blk in *; lia. }
  destruct (create_encodes fuel st addr size _ w ltac:(lia) Hwb He) as (b & st1 & k & E & Eb & Hx). rewrite Hwl in *. by exists b, k, st1.
Qed.
End string_encode.

(** C34: a string that is encoded to a buffer and decoded through a null pointer is
    the string in a new block of its length and a terminator, unless the allocator
    has no memory, which is reported. *)
Theorem xdr_string_roundtrip `{Arch} {St : Type} `{AllocOps St} {Lens : MemLens St} {AOk : AllocOk St} (fuel : nat) (xdr_zero crud : Z) (st : St) live F cpp sp str addr size cpp' maxsize :
  let _ := xdrmem_ops (St := St) fuel in
  let k := 4 + opaque_size (zlen str) in
  alloc_inv st live F -> client crud (xdrmem_create addr size XDR_DECODE) F cpp' -> word_at (st_mem st) cpp' NULL ->
  string_source st xdr_zero cpp sp str addr size -> k <= size < 2 ^ 32 -> size < Z.of_nat fuel -> zlen str <= maxsize < 2 ^ 32 - 1 ->
  exists f0 r k' st1 st2, (forall f, (f0 <= f)%nat ->
      xdr_string f xdr_zero crud cpp maxsize (Xstate (xdrmem_create addr size XDR_ENCODE) st) = Some (true, Xstate (advance (xdrmem_create addr size XDR_ENCODE) k) st1) /\
      xdr_string f xdr_zero crud cpp' maxsize (Xstate (xdrmem_create addr size XDR_DECODE) st1) =
        Some (negb (r =? NULL), Xstate (advance (xdrmem_create addr size XDR_DECODE) k') st2)) /\
    alloc_inv st2 (gets r (zlen str + 1) live) F /\ word_at (st_mem st2) cpp' r /\
    (r = NULL -> st_errno st2 = ENOMEM) /\ (r <> NULL -> k' = k /\ live !! r = None /\ cstr (st_mem st2) r str).
Proof.
  intros ops k Hinv Hcl Hw Hs Hk Hfu Hmax. subst ops. pose proof (rndup_spec (zlen str) ltac:(lia)) as Hrn. set (w := be32 (zlen str) ++ opaque str).
  assert (Forall is_byte str) as Hby by (eapply Forall_impl; [apply (ss_str _ _ _ _ _ _ _ Hs)|]; unfold nonzero_byte, is_byte; intros; lia).
  assert (Forall is_byte w) as Hwb by (apply Forall_app; split; [apply be32_bytes|by apply opaque_bytes]).
  assert (zlen w = k) as Hwl by (unfold w; rewrite length_app, Nat2Z.inj_add, opaque_length, be32_length; done). unfold k, opaque_size in Hk. fold k in Hk.
  assert (mapped (st_mem st) addr size) as Hm by (intros a Ha; apply (alloc_foreign _ _ _ a Hinv); by apply (cl_stream _ _ _ _ Hcl)).
  set (m1 := put_bytes (st_mem st) addr w). set (st1 := st_set_mem st m1). assert (st_mem st1 = m1) as Em by apply lens_get_set.
  assert (chg (cells addr k) (st_mem st) m1) as C1 by (pose proof (chg_put (st_mem st) addr w Hwb) as C; by rewrite Hwl in C).
  assert (forall a, cells addr k a -> cells addr size a) as Hsub by (unfold k, opaque_size, cells; lia).
  assert (alloc_inv st1 live F) as Hinv1 by (eapply alloc_write; [done..|]; right; intros a Ha; by apply (cl_stream _ _ _ _ Hcl), Hsub).
  assert (word_at m1 cpp' NULL) as Hw1 by (eapply word_chg; [done..|]; intros a Ha Hx; by apply (cl_clear_ptr _ _ _ _ Hcl a (Hsub a Hx))).
  destruct (create_input addr size m1 w) as [tail Hi]; [by apply (chg_ok _ _ _ C1), (alloc_ok _ _ _ Hinv)|by apply put_bytes_mapped|apply put_bytes_at|unfold k, opaque_size in Hwl; lia|].
  rewrite <- Em in Hi, Hw1. assert (next_unit (w ++ tail) = zlen str) as Hnu by (unfold w; rewrite <- app_assoc; apply next_unit_be32; lia).
  assert (zlen (w ++ tail) = size) as Hlen by by rewrite <- (in_handy _ _ _ Hi).
  destruct (xdr_string_alloc fuel xdr_zero crud _ st1 live F (w ++ tail) cpp' maxsize Hinv1 Hcl Hw1 Hi) as (f0 & r & k' & b & st2 & E & Hinv2 & Hw2 & _ & _ & Hnull & Hsome); [lia..|].
  rewrite Hnu in *. exists (Nat.max f0 (1 + length str))%nat, r, k', st1, st2. split_and!; try done; [|by intros ->; apply Hnull|].
  - intros f Hf. destruct (string_encode fuel f xdr_zero crud st cpp sp str addr size maxsize) as (b1 & k1 & st1' & E1 & Eb & Ex); try done; try lia; [by apply (alloc_ok _ _ _ Hinv)|].
    rewrite (proj2 (Z.leb_le _ _)) in Eb by (unfold opaque_size; lia). subst b1. destruct (Ex eq_refl) as [-> ->]. split; [exact E1|]. rewrite E by lia.
    destruct (Z.eqb_spec r NULL) as [Hr|Hr]; [by rewrite (proj1 (Hnull Hr))|]. destruct (Hsome Hr) as (_ & -> & _). by rewrite bool_decide_eq_true_2 by (rewrite Hlen; unfold opaque_size; lia).
  - intros Hr. destruct (Hsome Hr) as (Hl & -> & Hx). rewrite bool_decide_eq_true_2 in Hx by (rewrite Hlen; unfold opaque_size; lia). destruct (Hx eq_refl) as [-> Hb].
    split_and!; [done|done|]. split; [apply (ss_str _ _ _ _ _ _ _ Hs)|]. unfold w in Hb. rewrite <- app_assoc, string_in_enc in Hb by lia. done.
Qed.

(** ** Sizes *)

Section sizes.
Context `{Arch} {St : Type} `{AllocOps St} {Lens : MemLens St}.
Variable fuel : nat.

(** The counter of xdr_sizeof after the encoding [w]. *)
Lemma sizeof_encodes (func : Z -> C (xstate St) bool) p (st : St) w :
  zlen w < 2 ^ 32 ->
  encodes (Enc := count_enc fuel) (Xstate {| xh_op := XDR_ENCODE; x_aligned := true; x_private := NULL; x_base := 0; x_handy := 0 |} st) (func p) w ->
  xdr_sizeof fuel func p st = Some (zlen w, st).
Proof.
  intros Hw He. unfold encodes in He. cbn [fits count_enc wrote] in He. unfold xdr_sizeof. rewrite He. unfold count_wrote. destruct w as [|b w]; [done|].
  cbn [xs_h xs_st counted x_private x_handy]. change (NULL =? NULL) with true. cbn [negb]. unfold bind, ret. rewrite Z.add_0_l, uwrap_small by lia. done.
Qed.

(** The tables of two streams have the same objects and encodings. *)
Definition sc_same {S S'} (c : scalar S) (d : scalar S') : Prop :=
  sc_align c = sc_align d /\ sc_size c = sc_size d /\ sc_units c = sc_units d /\ sc_valid c = sc_valid d /\ sc_enc c = sc_enc d.

Lemma scalars_same (ops ops' : XdrOps (xstate St)) char_signed enum_size : Forall2 sc_same (scalars (H1 := ops) char_signed enum_size) (scalars (H1 := ops') char_signed enum_size).
Proof. unfold scalars, basic_ints. destruct (enum_size =? 4); cbn [map app basic_scalar]; repeat (constructor; [done|]); constructor. Qed.
End sizes.

(** C36: for a vector of valid objects of a filter of the table [scalars], with an
    encoding shorter than 2^32 bytes, the number xdr_sizeof returns is the size of
    the encoding: the encoding to a buffer succeeds exactly when the buffer has that
    many bytes.  The state is as it was. *)
Theorem xdr_sizeof_exact `{Arch} {St : Type} `{AllocOps St} {Lens : MemLens St} (fuel : nat) (char_signed : bool) (enum_size : Z) (st : St) i c d vs p addr size :
  let _ := xdrmem_ops (St := St) fuel in
  let n := 4 * Z.of_nat (sc_units c) * zlen vs in
  scalars (H1 := sizeof_ops (St := St) fuel) char_signed enum_size !! i = Some c -> scalars (H1 := xdrmem_ops (St := St) fuel) char_signed enum_size !! i = Some d ->
  Forall (sc_valid c) vs -> n < 2 ^ 32 -> mem_ok (st_mem st) -> p mod sc_align c = 0 -> bytes_at (st_mem st) p (vec_obj c vs) ->
  0 <= size < 2 ^ 32 -> mapped (st_mem st) addr size -> disjoint_blk p (zlen (vec_obj c vs)) addr size ->
  xdr_sizeof fuel (fun p => xdr_vector p (zlen vs) (Z.of_nat (sc_size c)) (sc_filter c)) p st = Some (n, st) /\
  exists s, xdr_vector p (zlen vs) (Z.of_nat (sc_size d)) (sc_filter d) (Xstate (xdrmem_create addr size XDR_ENCODE) st) = Some (n <=? size, s).
Proof.
  intros ops n Hc Hd Hv Hn Hok Hp Hb Hs Hm Hdis. subst ops. pose proof (Forall2_lookup_lr _ _ _ _ _ _ (scalars_same (sizeof_ops fuel) (xdrmem_ops fuel) char_signed enum_size) Hc Hd) as (E1 & E2 & E3 & E4 & E5).
  pose proof (Forall_lookup_1 _ _ _ _ (scalars_ok (H1 := sizeof_ops fuel) char_signed enum_size) Hc) as Cok. pose proof (Forall_lookup_1 _ _ _ _ (scalars_ok (H1 := xdrmem_ops fuel) char_signed enum_size) Hd) as Dok.
  pose proof (Forall_lookup_1 _ _ _ _ (scalars_write (Enc := count_enc fuel) char_signed enum_size) Hc) as Cw. pose proof (Forall_lookup_1 _ _ _ _ (scalars_write (Enc := mem_enc fuel) char_signed enum_size) Hd) as Dw.
  pose proof (vec_enc_length c Cok vs) as Hl. fold n in Hl. split.
  - rewrite <- Hl. apply sizeof_encodes; [lia|]. apply (vector_encodes (Enc := count_enc fuel) c Cok); try done; by intros a Ha [].
  - assert (vec_obj d vs = vec_obj c vs) as Eo by (unfold vec_obj, sc_obj; by rewrite E2). assert (vec_enc d vs = vec_enc c vs) as Ee by (unfold vec_enc; by rewrite E5).
    pose proof (vector_encodes (Enc := mem_enc fuel) d Dok (Xstate (xdrmem_create addr size XDR_ENCODE) st) p vs Dw) as He. rewrite <- E4, <- E1, Eo, Ee in He.
    specialize (He Hv (create_enc_ok st addr size Hok Hs Hm) (create_unit addr size _) Hp Hb ltac:(intros a Ha; cbn; unfold disjoint_blk in Hdis; lia)).
    destruct (create_encodes fuel st addr size _ _ ltac:(lia) (vec_enc_bytes c Cok vs) He) as (b & st1 & k & E & Eb & _). rewrite Hl in Eb. subst b. by eexists.
Qed.

(** The size of a string. *)
Lemma xdr_sizeof_string `{Arch} {St : Type} `{AllocOps St} {Lens : MemLens St} (fuel f : nat) (xdr_zero crud : Z) (st : St) cpp sp str addr maxsize :
  let _ := sizeof_ops (St := St) fuel in
  mem_ok (st_mem st) -> string_source st xdr_zero cpp sp str addr 0 -> (length str < f)%nat -> zlen str <= maxsize < 2 ^ 32 - 8 ->
  xdr_sizeof fuel (fun p => xdr_string f xdr_zero crud p maxsize) cpp st = Some (4 + opaque_size (zlen str), st).
Proof.
  intros ops Hok [S1 S2 S3 S4 S5 S6 S7] Hf Hmax. subst ops. pose proof (rndup_spec (zlen str) ltac:(lia)) as Hr.
  assert (zlen (be32 (zlen str) ++ opaque str) = 4 + opaque_size (zlen str)) as Hwl by (rewrite length_app, Nat2Z.inj_add, opaque_length, be32_length; done).
  rewrite <- Hwl. apply sizeof_encodes; [rewrite Hwl; unfold opaque_size; lia|]. apply (xdr_string_encodes (Enc := count_enc fuel) xdr_zero crud f _ cpp sp); try done; try (cbn; lia); [by split; [|intros a Ha []]|by intros a Ha []].
Qed.

(** ** A concrete state *)

#[global] Instance heap_lens {B} `{Arch} `{MallocTarget} `{Sbrk B} `{MemFns} : MemLens (heap B).
Proof. by split; [|intros []|]. Qed.

Section witnesses.
#[local] Existing Instance LP64.
#[local] Existing Instance demo_target.
#[local] Existing Instance demo_sbrk.
#[local] Existing Instance demo_sbrk_ok.

(** Two pointers at 64 and 72, the constant xdr_zero at 80 and the fill buffer at 84,
    a string at 96, a stream of 64 bytes at 128, two numbers at 200 and room at 240. *)
Definition xdr_bytes_mem : mem :=
  put_bytes (put_bytes (put_bytes (put_bytes ∅ 64 (replicate 256 0)) 64 (bytes_of_word 96)) 96 (hello ++ [0])) 200 (bytes_of_int 8 5 ++ bytes_of_int 8 (2 ^ 64 - 2)).
Definition xdr_heap : heap Z := with_mem heap0 (hmem heap0 ∪ xdr_bytes_mem).
Definition xdr_set : gset Z := dom xdr_bytes_mem.

Lemma xdr_heap_alloc : alloc_inv xdr_heap ∅ xdr_set.
Proof.
  exists (hmem heap0), xdr_bytes_mem. split_and!; [done| |done|eval_mem|].
  - apply (bool_decide_eq_true_1 _). vm_compute. reflexivity.
  - exists [], ∅. split; [|by split]. change (with_mem xdr_heap (hmem heap0)) with heap0. apply heap0_inv.
Qed.

Lemma xdr_heap_ok : mem_ok (st_mem xdr_heap).
Proof. apply (alloc_ok xdr_heap ∅ xdr_set), xdr_heap_alloc. Qed.

Lemma xdr_set_range a : 64 <= a < 320 -> a ∈ xdr_set.
Proof. intros Ha. apply elem_of_dom. assert (mapped xdr_bytes_mem 64 256) as Hm by eval_mem. apply Hm. lia. Qed.

Lemma xdr_client size : 0 <= size <= 64 -> client 84 (xdrmem_create 128 size XDR_DECODE) xdr_set 72.
Proof.
  intros Hs. split; unfold clear, cells, word_cells; change (Z.of_nat long_size) with 8; cbn [x_private x_handy xdrmem_create]; intros a Ha; try apply xdr_set_range; lia.
Qed.

Lemma xdr_source : string_source xdr_heap 80 64 96 hello 128 64.
Proof. split; [apply word_at_check; vm_compute; reflexivity|done|eval_mem..]. Qed.

Abbreviation demo_scalar := (wide (xdr_int64_t (H1 := xdrmem_ops (St := heap Z) 99)) 8).
Abbreviation demo_count := (wide (xdr_int64_t (H1 := sizeof_ops (St := heap Z) 99)) 8).
Abbreviation demo_vec := [5; 2 ^ 64 - 2].

Lemma demo_scalar_in : scalars (H1 := xdrmem_ops (St := heap Z) 99) true 4 !! 19%nat = Some demo_scalar.
Proof. reflexivity. Qed.

Lemma demo_vec_valid : Forall (int_obj 8) demo_vec.
Proof. unfold int_obj. cbn. repeat constructor; lia. Qed.

Lemma xdr_vector_witness :
  exists st1 st2, xdr_vector 200 2 8 (sc_filter demo_scalar) (Xstate (xdrmem_create 128 64 XDR_ENCODE) xdr_heap) = Some (true, Xstate (advance (xdrmem_create 128 64 XDR_ENCODE) 16) st1) /\
    xdr_vector 240 2 8 (sc_filter demo_scalar) (Xstate (xdrmem_create 128 64 XDR_DECODE) st1) = Some (true, Xstate (advance (xdrmem_create 128 64 XDR_DECODE) 16) st2) /\
    bytes_at (st_mem st2) 240 (vec_obj demo_scalar demo_vec).
Proof.
  destruct (xdr_vector_roundtrip 99 true 4 xdr_heap demo_scalar demo_vec 128 64 200 240) as (b & k & st1 & E & Eb & Hb).
  - apply (list_elem_of_lookup_2 _ 19), demo_scalar_in.
  - apply demo_vec_valid.
  - apply xdr_heap_ok.
  - lia.
  - eval_mem.
  - reflexivity.
  - eval_mem.
  - unfold disjoint_blk. cbn. lia.
  - reflexivity.
  - eval_mem.
  - unfold disjoint_blk. cbn. lia.
  - subst b. destruct (Hb eq_refl) as (-> & _ & _ & st2 & E2 & Hb2 & _). exists st1, st2. split; [exact E|]. split; [exact E2|exact Hb2].
Defined.

Lemma xdr_vector_decode_witness :
  exists b k st', xdr_vector 240 2 8 (sc_filter demo_scalar) (Xstate (xdrmem_create 200 16 XDR_DECODE) xdr_heap) = Some (b, Xstate (advance (xdrmem_create 200 16 XDR_DECODE) k) st') /\
    b = true /\ bytes_at (st_mem st') 240 (vec_value demo_scalar 2 (bytes_of_int 8 5 ++ bytes_of_int 8 (2 ^ 64 - 2))).
Proof.
  destruct (xdr_vector_decode_safe 99 true 4 xdr_heap demo_scalar 2 200 (bytes_of_int 8 5 ++ bytes_of_int 8 (2 ^ 64 - 2)) 240) as (b & k & st' & E & Eb & _ & _ & Hb).
  - apply (list_elem_of_lookup_2 _ 19), demo_scalar_in.
  - apply xdr_heap_ok.
  - eval_mem.
  - reflexivity.
  - eval_mem.
  - unfold disjoint_blk. cbn. lia.
  - exists b, k, st'. split; [exact E|]. assert (b = true) as Ht by (rewrite Eb; reflexivity). split; [exact Ht|]. apply Hb, Ht.
Defined.

Lemma xdr_long_witness :
  exists s1 s2, xdr_long (H1 := xdrmem_ops (St := heap Z) 99) 208 (Xstate (xdrmem_create 129 60 XDR_ENCODE) xdr_heap) = Some (true, s1) /\
    xdr_long (H1 := xdrmem_ops (St := heap Z) 99) 240 (Xstate (xdrmem_create 129 60 XDR_DECODE) (xs_st s1)) = Some (true, s2) /\
    ~ bytes_at (st_mem (xs_st s2)) 240 (bytes_of_int 8 (2 ^ 64 - 2)).
Proof.
  destruct (xdr_long_roundtrip 99 xdr_heap (2 ^ 64 - 2) 129 60 208 240) as (s1 & s2 & E1 & E2 & Hb).
  - split; vm_compute; split; congruence.
  - apply xdr_heap_ok.
  - lia.
  - eval_mem.
  - reflexivity.
  - eval_mem.
  - unfold disjoint_blk. cbn. lia.
  - reflexivity.
  - eval_mem.
  - exists s1, s2. split; [exact E1|]. split; [exact E2|]. intros Hx. apply Hb in Hx. destruct Hx as [Hx|[Hx|Hx]]; [vm_compute in Hx; discriminate Hx|discriminate Hx|vm_compute in Hx; exact (Hx eq_refl)].
Defined.

Lemma xdr_string_decode_witness :
  exists f0 r b k st', (forall f, (f0 <= f)%nat -> xdr_string (H1 := xdrmem_ops (St := heap Z) 99) f 80 84 72 LASTUNSIGNED (Xstate (xdrmem_create 128 64 XDR_DECODE) xdr_heap) =
      Some (b, Xstate (advance (xdrmem_create 128 64 XDR_DECODE) k) st')) /\ 0 <= k <= 64 /\ b = bool_decide (r <> NULL).
Proof.
  destruct (xdr_string_decode_safe 99 80 84 xdr_heap ∅ xdr_set 128 (replicate 64 0) 72 LASTUNSIGNED) as (f0 & r & b & k & st' & E & Hk & _ & _ & Hx & _).
  - apply xdr_heap_alloc.
  - apply (xdr_client 64). lia.
  - apply word_at_check. vm_compute. reflexivity.
  - eval_mem.
  - cbn. lia.
  - vm_compute. split; congruence.
  - exists f0, r, b, k, st'. split; [exact E|]. split; [exact Hk|]. rewrite decide_True in Hx by (vm_compute; split_and!; congruence).
    destruct Hx as (_ & _ & ->). apply bool_decide_ext. split; [by intros []|]. intros Hr. split; [exact Hr|vm_compute; congruence].
Defined.

(** A stream with the length LASTUNSIGNED is refused, whatever the maximum. *)
Definition last_heap : heap Z := st_set_mem xdr_heap (put_bytes (st_mem xdr_heap) 128 [255; 255; 255; 255]).

Example last_length :
  xdr_wrapstring (H1 := xdrmem_ops (St := heap Z) 99) 99 80 84 72 (Xstate (xdrmem_create 128 64 XDR_DECODE) last_heap) =
    Some (false, Xstate (advance (xdrmem_create 128 64 XDR_DECODE) 4) last_heap).
Proof. vm_compute. reflexivity. Qed.

(** With enums of one byte the filter fails on every object. *)
Example short_enum :
  xdr_enum (H1 := xdrmem_ops (St := heap Z) 99) 1 200 (Xstate (xdrmem_create 128 64 XDR_ENCODE) xdr_heap) = Some (false, Xstate (xdrmem_create 128 64 XDR_ENCODE) xdr_heap).
Proof. reflexivity. Qed.

Lemma xdr_string_witness :
  exists f0 r k' st1 st2, (forall f, (f0 <= f)%nat ->
      xdr_string (H1 := xdrmem_ops (St := heap Z) 99) f 80 84 64 1000 (Xstate (xdrmem_create 128 64 XDR_ENCODE) xdr_heap) = Some (true, Xstate (advance (xdrmem_create 128 64 XDR_ENCODE) 16) st1) /\
      xdr_string (H1 := xdrmem_ops (St := heap Z) 99) f 80 84 72 1000 (Xstate (xdrmem_create 128 64 XDR_DECODE) st1) =
        Some (negb (r =? NULL), Xstate (advance (xdrmem_create 128 64 XDR_DECODE) k') st2)) /\
    (r <> NULL -> cstr (st_mem st2) r hello).
Proof.
  destruct (xdr_string_roundtrip 99 80 84 xdr_heap ∅ xdr_set 64 96 hello 128 64 72 1000) as (f0 & r & k' & st1 & st2 & E & _ & _ & _ & Hr).
  - apply xdr_heap_alloc.
  - apply (xdr_client 64). lia.
  - apply word_at_check. vm_compute. reflexivity.
  - apply xdr_source.
  - vm_compute. split; congruence.
  - lia.
  - cbn. lia.
  - exists f0, r, k', st1, st2. split; [exact E|]. intros Hx. apply (Hr Hx).
Defined.

Lemma xdr_sizeof_witness :
  xdr_sizeof 99 (fun p => xdr_vector p 2 8 (sc_filter demo_count)) 200 xdr_heap = Some (16, xdr_heap) /\
  exists s, xdr_vector 200 2 8 (sc_filter demo_scalar) (Xstate (xdrmem_create 128 15 XDR_ENCODE) xdr_heap) = Some (false, s).
Proof.
  apply (xdr_sizeof_exact 99 true 4 xdr_heap 19 demo_count demo_scalar demo_vec 200 128 15).
  - reflexivity.
  - reflexivity.
  - apply demo_vec_valid.
  - cbn. lia.
  - apply xdr_heap_ok.
  - reflexivity.
  - eval_mem.
  - lia.
  - eval_mem.
  - unfold disjoint_blk. cbn. lia.
Defined.
End witnesses.
