(* ===== verification/Argz.v ===== *)
(** * Argument vectors (libc/argz)

    An argument vector is a block of strings, one after the other with their
    terminators; the functions get the addresses of the pointer to it and of its
    length.  An environment vector is an argument vector of entries NAME=VALUE or
    NAME. *)

From stdpp Require Import base list gmap.
From Stdlib Require Import ZArith Lia.
From S2P Require Import Prelude CMem CInt StrLocal StrMem StrStr Malloc Alloc.

Local Open Scope Z_scope.

Section argz.
Context `{Arch} {S : Type} `{AllocOps S}.
Variable fuel : nat.

Abbreviation M A := (C S A).

(** ** string/strdup.c *)

Definition strdup (str : Z) : M Z :=
  do n <- peek (strlen fuel str);
  let len := size_t (n + 1) in
  do copy <- op_malloc fuel len;
  if negb (copy =? NULL) then run on_mem (memcpy fuel copy str len); ret copy
  else ret copy.

(** ** The argument vector *)

(** The vector is made longer and [buf_len] bytes are copied to its end. *)
Definition argz_extend (argz argz_len last buf buf_len : Z) : M Z :=
  run store_ptr argz_len (size_t (last + buf_len));
  do a <- load_ptr argz;
  do l <- load_ptr argz_len;
  do a <- op_realloc fuel a l;
  run store_ptr argz a;
  if a =? NULL then ret ENOMEM
  else
    run on_mem (memcpy fuel (a + last) buf buf_len);
    ret 0.

Definition argz_add (argz argz_len str : Z) : M Z :=
  do last <- load_ptr argz_len;
  if str =? NULL then ret 0
  else
    do n <- peek (strlen fuel str);
    argz_extend argz argz_len last str (size_t (n + 1)).

Definition argz_append (argz argz_len buf buf_len : Z) : M Z :=
  if negb (buf_len =? 0) then
    do last <- load_ptr argz_len;
    argz_extend argz argz_len last buf buf_len
  else ret 0.

Definition argz_count_step (argz argz_len : Z) (st : Z * Z) : M ((Z * Z) + Z) :=
  let '(i, count) := st in
  if i <? argz_len then
    do c <- peek (load8 (argz + i));
    ret (inl (i + 1, if c =? 0 then count + 1 else count))
  else ret (inr count).
Definition argz_count (argz argz_len : Z) : M Z := loop (argz_count_step argz argz_len) fuel (0, 0).

(** [while ( *entry != '\0') entry++] *)
Definition skip_string (entry : Z) : M Z :=
  loop (fun entry => do c <- peek (load8 entry); ret (if c =? 0 then inr entry else inl (entry + 1))) fuel entry.

Definition argz_next (argz argz_len entry : Z) : M Z :=
  if negb (entry =? NULL) then
    do entry <- skip_string entry;
    let entry := entry + 1 in
    if argz + argz_len <=? entry then ret NULL else ret entry
  else if 0 <? argz_len then ret argz
  else ret NULL.

(** [while (before != *argz && before[-1]) before--] *)
Definition back_to_start (argz before : Z) : M Z :=
  loop (fun before =>
    if before =? argz then ret (inr before)
    else do c <- peek (load8 (before - 1)); ret (if c =? 0 then inr before else inl (before - 1))) fuel before.

Definition argz_insert (argz argz_len before entry : Z) : M Z :=
  if before =? NULL then argz_add argz argz_len entry
  else
    do a <- load_ptr argz;
    do l <- load_ptr argz_len;
    if (before <? a) || (a + l <=? before) then ret EINVAL
    else
      do before <- back_to_start a before;
      let delta := before - a in
      do n <- peek (strlen fuel entry);
      let len := swrap 32 (n + 1) in
      do a <- op_realloc fuel a (size_t (l + len));
      run store_ptr argz a;
      if a =? NULL then ret ENOMEM
      else
        do _ <- on_mem (memmove fuel (a + delta + len) (a + delta) (size_t (l - delta)));
        do _ <- on_mem (memcpy fuel (a + delta) entry (size_t len));
        run store_ptr argz_len (size_t (l + len));
        ret 0.

Definition argz_delete (argz argz_len entry : Z) : M Z :=
  if negb (entry =? NULL) then
    let moveto := entry in
    do n <- peek (strlen fuel entry);
    let len := swrap 32 (n + 1) in
    let entry := entry + len in
    do a <- load_ptr argz;
    do l <- load_ptr argz_len;
    do _ <- on_mem (memmove fuel moveto entry (size_t (a + l - entry)));
    run store_ptr argz_len (size_t (l - len));
    do l <- load_ptr argz_len;
    do a <- op_realloc fuel a l;
    run store_ptr argz a;
    if a =? NULL then ret ENOMEM
    else if l <=? 0 then
      run op_free fuel a;
      run store_ptr argz NULL;
      ret 0
    else ret 0
  else ret 0.

Definition argz_stringify_step (argz argz_len sep i : Z) : M (Z + unit) :=
  if i <? argz_len - 1 then
    do c <- peek (load8 (argz + i));
    run (if c =? 0 then on_mem (store8 (argz + i) (uwrap 8 sep)) else ret tt);
    ret (inl (i + 1))
  else ret (inr tt).
Definition argz_stringify (argz argz_len sep : Z) : M unit :=
  if 1 <? argz_len then loop (argz_stringify_step argz argz_len sep) fuel 0 else ret tt.

(** An element of an array of pointers. *)
Definition elem_at (argv i : Z) : Z := argv + i * Z.of_nat long_size.

Definition argz_extract_step (argz argv count : Z) (st : Z * Z) : M ((Z * Z) + unit) :=
  let '(i, j) := st in
  if 0 <? i then
    do c <- peek (load8 (argz + i));
    if c =? 0 then
      let j := j + 1 in
      run store_ptr (elem_at argv (count - j)) (argz + i + 1);
      ret (inl (i - 1, j))
    else ret (inl (i - 1, j))
  else ret (inr tt).
Definition argz_extract (argz argz_len argv : Z) : M unit :=
  do count <- argz_count argz argz_len;
  run (if 1 <? argz_len then loop (argz_extract_step argz argv count) fuel (argz_len - 2, 0) else ret tt);
  run store_ptr (elem_at argv 0) argz;
  store_ptr (elem_at argv count) NULL.

(** ** Making a vector *)

Definition argz_create_size_step (argv argz_len argc : Z) : M (Z + Z) :=
  do arg <- load_ptr (elem_at argv argc);
  if negb (arg =? NULL) then
    do l <- load_ptr argz_len;
    do n <- peek (strlen fuel arg);
    run store_ptr argz_len (size_t (l + size_t (n + 1)));
    do argc <- int_ (argc + 1);
    ret (inl argc)
  else ret (inr argc).

Definition argz_create_copy_step (argv argc : Z) (st : Z * Z) : M ((Z * Z) + unit) :=
  let '(i, iter) := st in
  if i <? argc then
    do arg <- load_ptr (elem_at argv i);
    do n <- peek (strlen fuel arg);
    let len := size_t (n + 1) in
    run on_mem (memcpy fuel iter arg len);
    ret (inl (i + 1, iter + len))
  else ret (inr tt).

Definition argz_create (argv argz argz_len : Z) : M Z :=
  run store_ptr argz_len 0;
  do arg <- load_ptr argv;
  if arg =? NULL then run store_ptr argz NULL; ret 0
  else
    do argc <- loop (argz_create_size_step argv argz_len) fuel 0;
    do l <- load_ptr argz_len;
    do a <- op_malloc fuel l;
    run store_ptr argz a;
    if a =? NULL then ret ENOMEM
    else
      run loop (argz_create_copy_step argv argc) fuel (0, a);
      ret 0.

(** The array [delim] of argz_create_sep. *)
Variable delim : Z.

Definition sep_size_step (argz_len : Z) (st : Z * Z) : M ((Z * Z) + Z) :=
  let '(running, num_strings) := st in
  do '(token, running) <- on_mem (strsep fuel running delim);
  if negb (token =? NULL) then
    do len <- peek (strlen fuel token);
    do l <- load_ptr argz_len;
    run store_ptr argz_len (size_t (l + size_t (len + 1)));
    do num_strings <- int_ (num_strings + 1);
    ret (inl (running, num_strings))
  else ret (inr num_strings).

Definition sep_copy_step (num_strings : Z) (st : Z * Z * Z) : M ((Z * Z * Z) + unit) :=
  let '(i, running, iter) := st in
  if i <? num_strings then
    do '(token, running) <- on_mem (strsep fuel running delim);
    do n <- peek (strlen fuel token);
    let len := size_t (n + 1) in
    run on_mem (memcpy fuel iter token len);
    ret (inl (i + 1, running, iter + len))
  else ret (inr tt).

Definition argz_create_sep (string sep argz argz_len : Z) : M Z :=
  run store_ptr argz_len 0;
  do empty <- (if string =? NULL then ret true else do c <- peek (load8 string); ret (c =? 0));
  if empty : bool then run store_ptr argz NULL; ret 0
  else
    run on_mem (store8 delim (uwrap 8 sep));
    run on_mem (store8 (delim + 1) 0);
    do running <- strdup string;
    do num_strings <- loop (sep_size_step argz_len) fuel (running, 0);
    run op_free fuel running;
    do l <- load_ptr argz_len;
    do a <- op_malloc fuel l;
    run store_ptr argz a;
    if a =? NULL then ret ENOMEM
    else
      do running <- strdup string;
      run loop (sep_copy_step num_strings) fuel (0, running, a);
      run op_free fuel running;
      ret 0.

(** The locals [str_argz] and [str_argz_len] of argz_add_sep are at these addresses. *)
Variables (str_argz str_argz_len : Z).

Definition argz_add_sep (argz argz_len str sep : Z) : M Z :=
  run store_ptr str_argz 0;
  run store_ptr str_argz_len 0;
  do last <- load_ptr argz_len;
  do _ <- argz_create_sep str sep str_argz str_argz_len;
  do sl <- load_ptr str_argz_len;
  if negb (sl =? 0) then
    do sa <- load_ptr str_argz;
    argz_extend argz argz_len last sa sl
  else ret 0.

(** ** buf_findstr.c

    [ *buf ] and [ *buf_len ] are passed in, and the new values returned beside
    the result. *)

(** [while (str[j - i] && (str[j - i] == ( *buf)[j])) j++] *)
Definition findstr_match (str buf i : Z) : M Z :=
  loop (fun j =>
    do c <- peek (load8 (str + (j - i)));
    if c =? 0 then ret (inr j)
    else do b <- peek (load8 (buf + j)); ret (if c =? b then inl (j + 1) else inr j)) fuel i.

Definition findstr_step (str buf buf_len i : Z) : M (Z + bool * Z * Z) :=
  if i <? buf_len then
    do c <- peek (load8 str);
    do b <- peek (load8 (buf + i));
    if c =? b then
      do j <- findstr_match str buf i;
      do c <- peek (load8 (str + (j - i)));
      if c =? 0 then ret (inr (true, buf + j, size_t (buf_len - j)))
      else ret (inl (i + 1))
    else ret (inl (i + 1))
  else ret (inr (false, buf + buf_len, 0)).

Definition _buf_findstr (str buf buf_len : Z) : M (bool * Z * Z) := loop (findstr_step str buf buf_len) fuel 0.

(** ** argz_replace.c *)

Definition replace_count_step (str len_diff replace_count : Z) (st : Z * Z * Z) : M ((Z * Z * Z) + Z) :=
  let '(buf_iter, buf_len, new_argz_len) := st in
  if negb (buf_len =? 0) then
    do '(found, buf_iter, buf_len) <- _buf_findstr str buf_iter buf_len;
    if found : bool then
      do n <- peek (load_n 4 replace_count);
      run on_mem (store_n 4 replace_count (uwrap 32 (n + 1)));
      ret (inl (buf_iter, buf_len, size_t (new_argz_len + len_diff)))
    else ret (inl (buf_iter, buf_len, new_argz_len))
  else ret (inr new_argz_len).

Definition replace_copy_step (str with_ str_len with_len : Z) (st : Z * Z * Z * Z) : M ((Z * Z * Z * Z) + (Z * Z)) :=
  let '(buf_iter, buf_len, last_iter, new_argz_iter) := st in
  if negb (buf_len =? 0) then
    do '(found, buf_iter, buf_len) <- _buf_findstr str buf_iter buf_len;
    if found : bool then
      let n := buf_iter - last_iter - str_len in
      run on_mem (memcpy fuel new_argz_iter last_iter (size_t n));
      let new_argz_iter := new_argz_iter + n in
      run on_mem (memcpy fuel new_argz_iter with_ with_len);
      let new_argz_iter := new_argz_iter + with_len in
      ret (inl (buf_iter, buf_len, buf_iter, new_argz_iter))
    else ret (inl (buf_iter, buf_len, last_iter, new_argz_iter))
  else ret (inr (last_iter, new_argz_iter)).

Definition argz_replace (argz argz_len str with_ replace_count : Z) : M Z :=
  do str_len <- peek (strlen fuel str);
  do with_len <- peek (strlen fuel with_);
  let len_diff := swrap long_bits (with_len - str_len) in
  do a <- load_ptr argz;
  do l <- load_ptr argz_len;
  run on_mem (store_n 4 replace_count 0);
  do new_argz_len <- loop (replace_count_step str len_diff replace_count) fuel (a, l, l);
  do n <- peek (load_n 4 replace_count);
  if negb (n =? 0) then
    do new_argz <- op_malloc fuel new_argz_len;
    if new_argz =? NULL then ret ENOMEM
    else
      do '(last_iter, new_argz_iter) <- loop (replace_copy_step str with_ str_len with_len) fuel (a, l, a, new_argz);
      run on_mem (memcpy fuel new_argz_iter last_iter (size_t (a + l - last_iter)));
      do argz_realloc <- op_realloc fuel a new_argz_len;
      if argz_realloc =? NULL then run op_free fuel new_argz; ret ENOMEM
      else
        run store_ptr argz argz_realloc;
        run on_mem (memcpy fuel argz_realloc new_argz new_argz_len);
        run store_ptr argz_len new_argz_len;
        run (if new_argz_len =? 0 then run op_free fuel argz_realloc; store_ptr argz NULL else ret tt);
        run op_free fuel new_argz;
        ret 0
  else ret 0.

(** ** The environment vector *)

Definition equals_sign : Z := 61.

(** [while ( *buf_ptr != '\0' && buf_ptr != envz) buf_ptr--] *)
Definition entry_start (envz buf_ptr : Z) : M Z :=
  loop (fun buf_ptr =>
    do c <- peek (load8 buf_ptr);
    ret (if (c =? 0) || (buf_ptr =? envz) then inr buf_ptr else inl (buf_ptr - 1))) fuel buf_ptr.

Definition envz_entry_step (envz name : Z) (st : Z * Z) : M ((Z * Z) + Z) :=
  let '(buf_ptr, buf_len) := st in
  if negb (buf_len =? 0) then
    do '(found, buf_ptr, buf_len) <- _buf_findstr name buf_ptr buf_len;
    if (found : bool) && negb (buf_ptr =? NULL) then
      do c <- peek (load8 buf_ptr);
      if (c =? equals_sign) || (c =? 0) then
        do buf_ptr <- entry_start envz (buf_ptr - 1);
        do c <- peek (load8 buf_ptr);
        ret (inr (if c =? 0 then buf_ptr + 1 else buf_ptr))
      else ret (inl (buf_ptr, buf_len))
    else ret (inl (buf_ptr, buf_len))
  else ret (inr NULL).
Definition envz_entry (envz envz_len name : Z) : M Z := loop (envz_entry_step envz name) fuel (envz, envz_len).

Definition envz_get_step (name : Z) (st : Z * Z) : M ((Z * Z) + Z) :=
  let '(buf_ptr, buf_len) := st in
  if negb (buf_len =? 0) then
    do '(found, buf_ptr, buf_len) <- _buf_findstr name buf_ptr buf_len;
    if found : bool then
      do c <- peek (load8 buf_ptr);
      if c =? equals_sign then ret (inr (buf_ptr + 1))
      else if c =? 0 then ret (inr NULL)
      else ret (inl (buf_ptr, buf_len))
    else ret (inl (buf_ptr, buf_len))
  else ret (inr NULL).
Definition envz_get (envz envz_len name : Z) : M Z := loop (envz_get_step name) fuel (envz, envz_len).

Definition envz_remove (envz envz_len name : Z) : M unit :=
  do e <- load_ptr envz;
  do l <- load_ptr envz_len;
  do entry <- envz_entry e l name;
  if negb (entry =? NULL) then
    do n <- peek (strlen fuel entry);
    let len := size_t (n + 1) in
    run (if negb (e + l =? entry + len - 1) then on_mem (memmove fuel entry (entry + len) (size_t (e + l - entry - len))) else ret 0);
    do e <- op_realloc fuel e (size_t (l - len));
    run store_ptr envz e;
    store_ptr envz_len (size_t (l - len))
  else ret tt.

Definition envz_add (envz envz_len name value : Z) : M Z :=
  run envz_remove envz envz_len name;
  if negb (value =? NULL) then
    do n <- peek (strlen fuel name);
    do v <- peek (strlen fuel value);
    let name_len := swrap 32 n in
    let val_len := swrap 32 v in
    do sum <- int_ (name_len + val_len);
    do sum <- int_ (sum + 2);
    do concat <- op_malloc fuel (size_t sum);
    if concat =? NULL then ret ENOMEM
    else
      run on_mem (memcpy fuel concat name (size_t name_len));
      run on_mem (store8 (concat + name_len) equals_sign);
      do val_size <- int_ (val_len + 1);
      run on_mem (memcpy fuel (concat + name_len + 1) value (size_t val_size));
      do retval <- argz_add envz envz_len concat;
      run op_free fuel concat;
      ret retval
  else argz_add envz envz_len name.

Definition envz_merge_step (envz envz_len envz2 envz2_len : Z) (override : bool) (st : Z * Z) : M ((Z * Z) + Z) :=
  let '(entry, retval) := st in
  do entry <- argz_next envz2 envz2_len entry;
  if negb (entry =? NULL) && (retval =? 0) then
    do name_str <- strdup entry;
    if name_str =? NULL then ret (inr ENOMEM)
    else
      do name_iter <- peek (strchr fuel name_str equals_sign);
      run (if negb (name_iter =? NULL) then on_mem (store8 name_iter 0) else ret tt);
      do retval <-
        (if negb override then
           do e <- load_ptr envz;
           do l <- load_ptr envz_len;
           do found <- envz_entry e l name_str;
           if found =? NULL then argz_add envz envz_len entry else ret retval
         else
           let val_str := if negb (name_iter =? NULL) then name_iter + 1 else NULL in
           envz_add envz envz_len name_str val_str);
      run op_free fuel name_str;
      ret (inl (entry, retval))
  else ret (inr retval).
Definition envz_merge (envz envz_len envz2 envz2_len : Z) (override : bool) : M Z :=
  loop (envz_merge_step envz envz_len envz2 envz2_len override) fuel (NULL, 0).

Definition envz_strip_step (envz envz_len : Z) (st : Z * bool) : M ((Z * bool) + bool) :=
  let '(entry, null_found) := st in
  do e <- load_ptr envz;
  do l <- load_ptr envz_len;
  do entry <- argz_next e l entry;
  if negb (entry =? NULL) then
    do c <- peek (strchr fuel entry equals_sign);
    if c =? NULL then
      do n <- peek (strlen fuel entry);
      let len := swrap 32 (n + 1) in
      run (if negb (e + l =? entry + len - 1) then on_mem (memmove fuel entry (entry + len) (size_t (e + l - entry - len))) else ret 0);
      run store_ptr envz_len (size_t (l - len));
      ret (inl (entry, true))
    else ret (inl (entry, null_found))
  else ret (inr null_found).
Definition envz_strip (envz envz_len : Z) : M unit :=
  do null_found <- loop (envz_strip_step envz envz_len) fuel (NULL, false);
  if null_found : bool then
    do e <- load_ptr envz;
    do l <- load_ptr envz_len;
    do e <- op_realloc fuel e l;
    store_ptr envz e
  else ret tt.
End argz.
