(* ===== verification/ArgzSpec.v ===== *)
(** * Argument vectors: the lists they stand for

    A vector of memory stands for a list of strings; the operations on it are those
    on the list. *)

From stdpp Require Import base list gmap.
From Stdlib Require Import ZArith Lia.
From S2P Require Import Prelude CMem CInt StrLocal StrMem StrStr Malloc MallocList MallocHeap MallocSys Alloc Argz.

Local Open Scope Z_scope.

Abbreviation zlen l := (Z.of_nat (length l)).

(** The strings with their terminators. *)
Definition flat (ss : list (list Z)) : list Z := concat (map (fun s => s ++ [0]) ss).

Lemma flat_app ss ts : flat (ss ++ ts) = flat ss ++ flat ts.
Proof. unfold flat. by rewrite map_app, concat_app. Qed.

Lemma flat_one s : flat [s] = s ++ [0].
Proof. apply app_nil_r. Qed.

Lemma flat_cons s ss : flat (s :: ss) = s ++ 0 :: flat ss.
Proof. unfold flat. cbn. by rewrite <- app_assoc. Qed.

Lemma flat_nil ss : flat ss = [] <-> ss = [].
Proof. split; [|by intros ->]. destruct ss as [|s ss]; [done|]. rewrite flat_cons. by destruct s. Qed.

Lemma flat_pos ss : ss <> [] -> 0 < zlen (flat ss).
Proof. intros Hs. destruct (flat ss) eqn:E; [by apply flat_nil in E|]. cbn [length]. lia. Qed.

Lemma flat_bytes ss : Forall (Forall nonzero_byte) ss -> Forall is_byte (flat ss).
Proof.
  induction ss as [|s ss IH]; intros Hs; [constructor|]. apply Forall_cons in Hs as [Hs Hss]. rewrite flat_cons. apply Forall_app. split; [by apply nonzero_is_byte|]. constructor; [done|by apply IH].
Qed.

(** The bytes of a region that are apart from each other point by point. *)
Lemma points_disjoint p n q k : (forall x, p <= x < p + n -> ~ q <= x < q + k) -> 0 < n -> 0 < k -> disjoint_blk p n q k.
Proof. intros Hx Hn Hk. unfold disjoint_blk. pose proof (Hx (Z.max p q)). lia. Qed.

Section argz.
Context `{Arch} {St : Type} `{AllocOps St} {AOk : AllocOk St}.
Implicit Types (st : St) (live : gmap Z Z) (F : gset Z).

(** The vector of [ss] is at [a], with its pointer and its length in the words at
    [argz] and [argz_len]. *)
Record argz_at st live F (argz argz_len a : Z) (ss : list (list Z)) : Prop := {
  az_inv : alloc_inv st live F;
  az_ptr_own : forall x, word_cells argz x -> x ∈ F;
  az_len_own : forall x, word_cells argz_len x -> x ∈ F;
  az_apart : forall x, word_cells argz x -> ~ word_cells argz_len x;
  az_ptr : word_at (st_mem st) argz a;
  az_len : word_at (st_mem st) argz_len (zlen (flat ss));
  az_strs : Forall (Forall nonzero_byte) ss;
  az_block : if decide (ss = []) then a = NULL else live !! a = Some (zlen (flat ss)) /\ bytes_at (st_mem st) a (flat ss) }.

(** The [l] bytes at [p] are the client's, and not of the vector. *)
Record source st live F (argz argz_len a p : Z) (l : list Z) : Prop := {
  src_bytes : bytes_at (st_mem st) p l;
  src_own : forall x, p <= x < p + zlen l -> owns (delete a live) F x;
  src_ptr : forall x, p <= x < p + zlen l -> ~ word_cells argz x;
  src_len : forall x, p <= x < p + zlen l -> ~ word_cells argz_len x }.

Lemma live_nonnull st live F p n : alloc_inv st live F -> live !! p = Some n -> p <> NULL.
Proof. intros Hi Hp ->. destruct (alloc_block st live F NULL n Hi Hp) as [Hx _]. unfold NULL in Hx. lia. Qed.

Lemma delete_null st live F : alloc_inv st live F -> delete NULL live = live.
Proof. intros Hi. apply delete_id. destruct (live !! NULL) as [n|] eqn:E; [|done]. by destruct (live_nonnull st live F NULL n Hi E). Qed.

Lemma owns_delete live F p x : owns (delete p live) F x -> owns live F x.
Proof. apply owns_sub, delete_subseteq. Qed.

(** The client's other bytes are apart from a block. *)
Lemma owns_apart st live F a r n x :
  alloc_inv st (<[r := n]> (delete a live)) F -> r = a \/ live !! r = None -> owns (delete a live) F x -> ~ r <= x < r + n.
Proof.
  intros Hi Hr [(p & k & [Hne Hp]%lookup_delete_Some & Hx)|Hx] Hin; [|by eapply (proj2 (alloc_foreign _ _ _ x Hi Hx)); [apply lookup_insert_eq|]].
  assert (p <> r) as Hpr by (intros ->; destruct Hr as [->|Hr]; congruence).
  pose proof (alloc_apart _ _ _ p k r n Hi) as Ha. rewrite lookup_insert_ne, lookup_delete_ne, lookup_insert_eq in Ha by done. specialize (Ha Hp eq_refl Hpr). unfold disjoint_blk in Ha. lia.
Qed.

Lemma block_range st live F r n : alloc_inv st live F -> live !! r = Some n -> 0 < n -> 0 <= r < 2 ^ long_bits.
Proof. intros Hi Hr Hn. destruct (alloc_block _ _ _ _ _ Hi Hr) as (R1 & _ & _ & R2). lia. Qed.

Lemma gets_range st live F r n : alloc_inv st (gets r n live) F -> 0 < n -> 0 <= r < 2 ^ long_bits.
Proof.
  intros Hi Hn. unfold gets in Hi. destruct (Z.eqb_spec r NULL) as [->|Hr]; [unfold NULL; pose proof (Z.pow_pos_nonneg 2 long_bits); destruct long_size_cases as [[_ ->]|[_ ->]]; lia|].
  eapply block_range; [done|apply lookup_insert_eq|done].
Qed.

(** Making the block of the vector larger, or getting the first one. *)
Lemma argz_grow st live F argz argz_len a ss n :
  argz_at st live F argz argz_len a ss -> zlen (flat ss) <= n < 2 ^ long_bits -> 0 < n ->
  forall st0, alloc_inv st0 live F -> (forall x, owns live F x -> ~ word_cells argz_len x -> st_mem st0 !! x = st_mem st !! x) ->
  exists f0 r st' live', (forall f, (f0 <= f)%nat -> op_realloc f a n st0 = Some (r, st')) /\ alloc_inv st' live' F /\ 0 <= r < 2 ^ long_bits /\
    if r =? NULL then live' = live /\ kept live F (st_mem st0) (st_mem st')
    else live' = <[r := n]> (delete a live) /\ (r = a \/ live !! r = None) /\ kept (delete a live) F (st_mem st0) (st_mem st') /\ bytes_at (st_mem st') r (flat ss).
Proof.
  intros Hz Hn Hn0 st0 Hi0 Hm0. pose proof (az_inv _ _ _ _ _ _ _ Hz) as Hi. pose proof (az_block _ _ _ _ _ _ _ Hz) as Hb. destruct (decide (ss = [])) as [->|Hss].
  - subst a. destruct (alloc_malloc st0 live F n Hi0 ltac:(lia)) as (f0 & r & st' & E & Hi' & Hnew & Hk). exists f0, r, st', (gets r n live). rewrite (delete_null st live F Hi).
    split; [intros f Hf; rewrite alloc_realloc_null; by apply E|]. split; [done|]. split; [by apply (gets_range st' live F r n)|].
    unfold gets. destruct (Z.eqb_spec r NULL) as [Hr|Hr]; [done|]. split_and!; [done|right; by apply Hnew|done|apply bytes_at_nil].
  - destruct Hb as [Hl Hb]. assert (a <> NULL) as Ha by by eapply live_nonnull. destruct (alloc_realloc st0 live F a (zlen (flat ss)) n Hi0 Hl ltac:(lia)) as (f0 & r & st' & live' & E & Hi' & Hr).
    exists f0, r, st', live'. unfold reallocated in Hr. destruct (Z.eqb_spec r NULL) as [->|Hrn]; [destruct Hr as [-> Hk]; split_and!; try done; unfold NULL; lia|]. destruct Hr as (-> & Hr & Hk & Hd).
    split_and!; try done; try (eapply block_range; [done|apply lookup_insert_eq|lia]). intros i Hil. rewrite Hd by lia. rewrite Hm0; [by apply Hb| |].
    + left. exists a, (zlen (flat ss)). split; [done|lia].
    + intros Hx. apply (az_len_own _ _ _ _ _ _ _ Hz) in Hx. apply (proj2 (alloc_foreign _ _ _ _ Hi Hx) a _ Hl). lia.
Qed.

(** Storing to a word of the client. *)
Lemma store_own st live F p v :
  alloc_inv st live F -> (forall x, word_cells p x -> x ∈ F) -> long_aligned p = true -> 0 <= v < 2 ^ long_bits ->
  exists st', store_ptr p v st = Some (tt, st') /\ alloc_inv st' live F /\ word_at (st_mem st') p v /\ chg (word_cells p) (st_mem st) (st_mem st').
Proof.
  intros Hi HF Ha Hv. apply (store_ptr_eq st live F p v Hi Ha Hv); [|by right]. intros x Hx. apply (alloc_foreign _ _ _ _ Hi). by apply HF.
Qed.

(** Copying to a block. *)
Lemma copy_to_block st live F r n d src l f :
  alloc_inv st live F -> live !! r = Some n -> 0 <= d -> d + zlen l <= n -> (length l < f)%nat -> bytes_at (st_mem st) src l ->
  (forall x, src <= x < src + zlen l -> ~ r <= x < r + n) ->
  let st' := st_set_mem st (put_bytes (st_mem st) (r + d) l) in
  on_mem (memcpy f (r + d) src (zlen l)) st = Some (r + d, st') /\ alloc_inv st' live F /\ st_mem st' = put_bytes (st_mem st) (r + d) l.
Proof.
  intros Hi Hr Hd Hn Hf Hb Hap st'. destruct (alloc_block _ _ _ _ _ Hi Hr) as (_ & _ & Hm & _). pose proof (alloc_ok _ _ _ Hi) as Hok.
  assert (disjoint_blk (r + d) (zlen l) src (zlen l)) as Hdis.
  { destruct l as [|b l]; [unfold disjoint_blk; cbn; lia|]. apply points_disjoint; [|cbn; lia..]. intros x Hx Hy. apply (Hap x Hy). lia. }
  assert (memcpy f (r + d) src (zlen l) (st_mem st) = Some (r + d, put_bytes (st_mem st) (r + d) l)) as E.
  { apply memcpy_spec; try done. eapply mapped_weaken; [done|lia..]. }
  split_and!; [unfold on_mem; by rewrite E| |apply st_mem_set].
  eapply (alloc_write _ _ _ (fun x => r + d <= x < r + d + zlen l)); [done|apply chg_put; by eapply bytes_at_bytes|]. left. exists r, n. split; [done|]. intros x Hx. lia.
Qed.

(** The result of a call that makes the vector longer. *)
Definition extended st live F argz argz_len a (w : list Z) (r : Z) st' live' : Prop :=
  alloc_inv st' live' F /\ word_at (st_mem st') argz r /\ word_at (st_mem st') argz_len (zlen w) /\
  (forall x, owns (delete a live) F x -> ~ word_cells argz x -> ~ word_cells argz_len x -> st_mem st' !! x = st_mem st !! x) /\
  if r =? NULL then live' = live else live' = <[r := zlen w]> (delete a live) /\ (r = a \/ live !! r = None) /\ bytes_at (st_mem st') r w.

Lemma argz_extend_spec st live F argz argz_len a ss src l :
  argz_at st live F argz argz_len a ss -> source st live F argz argz_len a src l -> l <> [] -> zlen (flat ss ++ l) < 2 ^ long_bits ->
  exists f0 r st' live', (forall f, (f0 <= f)%nat -> argz_extend f argz argz_len (zlen (flat ss)) src (zlen l) st = Some (if r =? NULL then ENOMEM else 0, st')) /\
    extended st live F argz argz_len a (flat ss ++ l) r st' live'.
Proof.
  intros Hz Hs Hl Hn. pose proof Hz as [Hi Hpo Hlo Hap Hp Hln Hst Hb]. destruct Hs as [S1 S2 S3 S4]. assert (0 < zlen l) as Hl0 by (destruct l; [done|cbn; lia]).
  set (n := zlen (flat ss ++ l)) in *. assert (zlen (flat ss) + zlen l = n) as En by (unfold n; rewrite length_app; lia).
  destruct (store_own st live F argz_len n Hi Hlo (proj2 (proj2 Hln)) ltac:(lia)) as (st0 & E0 & Hi0 & Hw0 & C0).
  assert (word_at (st_mem st0) argz a) as Hp0 by by eapply word_chg.
  destruct (argz_grow st live F argz argz_len a ss n Hz ltac:(lia) ltac:(lia) st0 Hi0) as (f0 & r & st1 & live1 & E1 & Hi1 & Hr & Hg); [intros x _ Hx; by apply (chg_out _ _ _ C0)|].
  destruct (store_own st1 live1 F argz r Hi1 Hpo (proj2 (proj2 Hp)) Hr) as (st2 & E2 & Hi2 & Hw2 & C2).
  assert (forall x, owns (delete a live) F x -> st_mem st1 !! x = st_mem st0 !! x) as K1.
  { intros x Hx. destruct (r =? NULL); [destruct Hg as [_ Hk]; apply Hk; by eapply owns_delete|]. by apply Hg. }
  assert (forall x, owns (delete a live) F x -> ~ word_cells argz x -> ~ word_cells argz_len x -> st_mem st2 !! x = st_mem st !! x) as K2.
  { intros x Hx Ha1 Ha2. rewrite (chg_out _ _ _ C2), K1, (chg_out _ _ _ C0) by done. done. }
  assert (word_at (st_mem st2) argz_len n) as Hl2.
  { eapply word_chg; [exact C2| |intros x Hx Hy; by apply (Hap x Hy)]. destruct Hw0 as (W1 & W2). split; [|done]. intros i Hil. rewrite K1; [by apply W1|]. right. apply Hlo.
    rewrite bytes_of_word_length in Hil. unfold word_cells. lia. }
  assert (forall f, (f0 <= f)%nat -> argz_extend f argz argz_len (zlen (flat ss)) src (zlen l) st =
    (if r =? NULL then ret ENOMEM else run on_mem (memcpy f (r + zlen (flat ss)) src (zlen l)); ret 0)%C st2) as E.
  { intros f Hf. unfold argz_extend. unfold size_t. rewrite En, uwrap_small by lia. unfold bind at 1. rewrite E0. unfold bind at 1. rewrite (load_ptr_eq st0 argz a Hp0). unfold bind at 1.
    rewrite (load_ptr_eq st0 argz_len n Hw0). unfold bind at 1. rewrite E1 by done. unfold bind at 1. by rewrite E2. }
  unfold extended. destruct (Z.eqb_spec r NULL) as [Hrn|Hrn].
  { destruct Hg as [-> _]. exists f0, r, st2, live. rewrite (proj2 (Z.eqb_eq r NULL)) by done. by split_and!. }
  destruct Hg as (-> & Hnew & Hk & Hbr).
  assert (forall x, owns (delete a live) F x -> ~ r <= x < r + n) as Hout by (intros x; by apply (owns_apart st1)).
  assert (bytes_at (st_mem st2) src l) as Hs2 by (intros i Hil; rewrite K2; [by apply S1|apply S2; lia|apply S3; lia|apply S4; lia]).
  destruct (copy_to_block st2 (<[r:=n]> (delete a live)) F r n (zlen (flat ss)) src l (Nat.max f0 (1 + length l)) Hi2 (lookup_insert_eq _ _ _)) as (_ & Hi3 & Em); try done; [lia|lia|lia|intros x Hx; by apply Hout, S2|].
  assert (forall x, (x < r \/ r + n <= x) -> put_bytes (st_mem st2) (r + zlen (flat ss)) l !! x = st_mem st2 !! x) as Hpo2 by (intros x Hx; rewrite lookup_put_bytes, decide_False by lia; done).
  assert (forall p v, word_at (st_mem st2) p v -> (forall x, word_cells p x -> x ∈ F) -> word_at (put_bytes (st_mem st2) (r + zlen (flat ss)) l) p v) as Hword.
  { intros p v (W1 & W2) HF. split; [|done]. intros i Hil. rewrite Hpo2; [by apply W1|]. rewrite bytes_of_word_length in Hil. assert (~ r <= p + Z.of_nat i < r + n); [|lia]. apply Hout. right. apply HF. unfold word_cells. lia. }
  exists (Nat.max f0 (1 + length l)), r, (st_set_mem st2 (put_bytes (st_mem st2) (r + zlen (flat ss)) l)), (<[r:=n]> (delete a live)). rewrite (proj2 (Z.eqb_neq r NULL)), Em by done. split_and!; try done.
  - intros f Hf. rewrite E by lia. unfold bind. destruct (copy_to_block st2 (<[r:=n]> (delete a live)) F r n (zlen (flat ss)) src l f Hi2 (lookup_insert_eq _ _ _)) as (-> & _ & _); try done; [lia|lia|lia|intros x Hx; by apply Hout, S2].
  - by apply Hword.
  - by apply Hword.
  - intros x Hx Ha1 Ha2. rewrite Hpo2; [by apply K2|]. pose proof (Hout x Hx). lia.
  - apply bytes_at_app. split; [|apply put_bytes_at]. intros i Hil. rewrite lookup_put_bytes, decide_False by lia. rewrite (chg_out _ _ _ C2); [by apply Hbr|].
    intros Hx. apply (Hout (r + Z.of_nat i)); [right; by apply Hpo|lia].
Qed.

Lemma extended_at st live F argz argz_len a ss ts r st' live' :
  argz_at st live F argz argz_len a ss -> extended st live F argz argz_len a (flat ts) r st' live' -> r <> NULL -> ts <> [] -> Forall (Forall nonzero_byte) ts ->
  argz_at st' live' F argz argz_len r ts.
Proof.
  intros [Hi Hpo Hlo Hap Hp Hln Hst Hb] (X1 & X2 & X3 & X4 & X5) Hr Hts Hv. rewrite (proj2 (Z.eqb_neq r NULL)) in X5 by done. destruct X5 as (-> & X5 & X6).
  split; try done. rewrite decide_False by done. split; [apply lookup_insert_eq|done].
Qed.

Lemma strlen_peek st f p s : (length s < f)%nat -> mem_ok (st_mem st) -> cstr (st_mem st) p s -> word_tail_mapped (st_mem st) (p + zlen s) -> peek (strlen f p) st = Some (zlen s, st).
Proof. intros Hf Hok Hs Ht. unfold peek. by rewrite (strlen_spec s). Qed.

(** argz_add puts the string at the end. *)
Lemma argz_add_spec st live F argz argz_len a ss str s :
  argz_at st live F argz argz_len a ss -> str <> NULL -> Forall nonzero_byte s -> source st live F argz argz_len a str (s ++ [0]) -> word_tail_mapped (st_mem st) (str + zlen s) ->
  zlen (flat (ss ++ [s])) < 2 ^ long_bits ->
  exists f0 r st' live', (forall f, (f0 <= f)%nat -> argz_add f argz argz_len str st = Some (if r =? NULL then ENOMEM else 0, st')) /\
    extended st live F argz argz_len a (flat (ss ++ [s])) r st' live' /\ (r <> NULL -> argz_at st' live' F argz argz_len r (ss ++ [s])).
Proof.
  intros Hz Hstr Hv Hs Ht Hn. rewrite flat_app, flat_one in Hn |- *. destruct (argz_extend_spec st live F argz argz_len a ss str (s ++ [0]) Hz Hs) as (f0 & r & st' & live' & E & X); [by destruct s|done|].
  exists (Nat.max f0 (1 + length s)), r, st', live'. split_and!; [|done|].
  - intros f Hf. unfold argz_add. unfold bind at 1. rewrite (load_ptr_eq st argz_len _ (az_len _ _ _ _ _ _ _ Hz)), (proj2 (Z.eqb_neq str NULL)) by done.
    unfold bind at 1. rewrite (strlen_peek st f str s); [|lia|apply (alloc_ok _ _ _ (az_inv _ _ _ _ _ _ _ Hz))|split; [done|apply (src_bytes _ _ _ _ _ _ _ _ Hs)]|done].
    rewrite !length_app in Hn. cbn [length] in Hn. unfold size_t. rewrite uwrap_small by lia. replace (zlen s + 1) with (zlen (s ++ [0])) by (rewrite length_app; cbn; lia). apply E. lia.
  - intros Hr. eapply (extended_at st live F argz argz_len a ss); try done; [by rewrite flat_app, flat_one|by destruct ss|]. apply Forall_app. split; [apply Hz|by constructor].
Qed.

(** argz_append puts a whole vector at the end. *)
Lemma argz_append_spec st live F argz argz_len a ss buf ts :
  argz_at st live F argz argz_len a ss -> ts <> [] -> Forall (Forall nonzero_byte) ts -> source st live F argz argz_len a buf (flat ts) -> zlen (flat (ss ++ ts)) < 2 ^ long_bits ->
  exists f0 r st' live', (forall f, (f0 <= f)%nat -> argz_append f argz argz_len buf (zlen (flat ts)) st = Some (if r =? NULL then ENOMEM else 0, st')) /\
    extended st live F argz argz_len a (flat (ss ++ ts)) r st' live' /\ (r <> NULL -> argz_at st' live' F argz argz_len r (ss ++ ts)).
Proof.
  intros Hz Hts Hv Hs Hn. rewrite flat_app in Hn |- *. pose proof (flat_pos ts Hts) as Hp.
  destruct (argz_extend_spec st live F argz argz_len a ss buf (flat ts) Hz Hs) as (f0 & r & st' & live' & E & X); [by rewrite flat_nil|done|].
  exists f0, r, st', live'. split_and!; [|done|].
  - intros f Hf. unfold argz_append. rewrite (proj2 (Z.eqb_neq _ 0)) by lia. cbn [negb]. unfold bind at 1. rewrite (load_ptr_eq st argz_len _ (az_len _ _ _ _ _ _ _ Hz)). by apply E.
  - intros Hr. eapply (extended_at st live F argz argz_len a ss); try done; [by rewrite flat_app|destruct ss; [done|by destruct ts]|]. apply Forall_app. split; [apply Hz|done].
Qed.

(** ** Reading a vector *)

Lemma load8_peek st p b : st_mem st !! p = Some b -> peek (load8 p) st = Some (b, st).
Proof. intros E. unfold peek. by rewrite (load8_at _ _ b). Qed.

(** The number of terminators. *)
Definition zeros (l : list Z) : Z := zlen (filter (fun b => b = 0) l).

Lemma zeros_cons b l : zeros (b :: l) = (if b =? 0 then 1 else 0) + zeros l.
Proof. unfold zeros. rewrite filter_cons. destruct (Z.eqb_spec b 0); [rewrite decide_True by done; cbn [length]; lia|by rewrite decide_False]. Qed.

Lemma zeros_app l1 l2 : zeros (l1 ++ l2) = zeros l1 + zeros l2.
Proof. unfold zeros. rewrite filter_app, length_app. lia. Qed.

Lemma zeros_string s : Forall nonzero_byte s -> zeros s = 0.
Proof. induction s as [|b s IH]; [done|]. intros [Hb Hs]%Forall_cons. rewrite zeros_cons, IH by done. unfold nonzero_byte in Hb. by rewrite (proj2 (Z.eqb_neq b 0)) by lia. Qed.

Lemma zeros_flat ss : Forall (Forall nonzero_byte) ss -> zeros (flat ss) = zlen ss.
Proof.
  induction ss as [|s ss IH]; [done|]. intros [Hs Hss]%Forall_cons. rewrite flat_cons, zeros_app, zeros_cons, zeros_string, IH by done. cbn [Z.eqb length]. lia.
Qed.

Lemma count_loop st a l : forall (k : list Z) f c, bytes_at (st_mem st) a (k ++ l) -> (length l < f)%nat ->
  loop (argz_count_step a (zlen (k ++ l))) f (zlen k, c) st = Some (c + zeros l, st).
Proof.
  induction l as [|b l IH]; intros k f c Hb Hf; (destruct f as [|f]; [cbn in Hf; lia|]); rewrite loop_S; unfold argz_count_step at 1.
  - rewrite app_nil_r, (proj2 (Z.ltb_ge _ _)) by lia. unfold ret. unfold zeros. cbn. by rewrite Z.add_0_r.
  - rewrite (proj2 (Z.ltb_lt _ _)) by (rewrite length_app; cbn; lia). apply bytes_at_app in Hb as Hb2. destruct Hb2 as [_ Hb2]. apply bytes_at_cons in Hb2 as [Hb2 _].
    unfold bind at 1. rewrite (load8_peek _ _ _ Hb2). unfold ret at 1. replace (k ++ b :: l) with ((k ++ [b]) ++ l) in * by by rewrite <- app_assoc.
    replace (zlen k + 1) with (zlen (k ++ [b])) by (rewrite length_app; cbn; lia). rewrite IH by (done || cbn in Hf; lia). rewrite zeros_cons. destruct (b =? 0); do 2 f_equal; lia.
Qed.

Lemma argz_count_spec st a ss f :
  Forall (Forall nonzero_byte) ss -> bytes_at (st_mem st) a (flat ss) -> (length (flat ss) < f)%nat -> argz_count f a (zlen (flat ss)) st = Some (zlen ss, st).
Proof. intros Hs Hb Hf. unfold argz_count. etransitivity; [exact (count_loop st a (flat ss) [] f 0 Hb Hf)|]. by rewrite zeros_flat. Qed.

(** The address of an entry. *)
Definition entry_at (a : Z) (ss : list (list Z)) (i : nat) : Z := a + zlen (flat (take i ss)).

Lemma flat_split ss i s : ss !! i = Some s -> flat ss = flat (take i ss) ++ (s ++ [0]) ++ flat (drop (S i) ss).
Proof. intros Hi. rewrite <- (take_drop_middle ss i s Hi) at 1. rewrite flat_app, flat_cons, <- app_assoc. done. Qed.

Lemma entry_next a ss i s : ss !! i = Some s -> entry_at a ss (S i) = entry_at a ss i + zlen s + 1.
Proof. intros Hi. unfold entry_at. rewrite (take_S_r ss i s Hi), flat_app, flat_one, !length_app. cbn [length]. lia. Qed.

Lemma entry_string st a ss i s : bytes_at (st_mem st) a (flat ss) -> Forall (Forall nonzero_byte) ss -> ss !! i = Some s -> cstr (st_mem st) (entry_at a ss i) s.
Proof.
  intros Hb Hv Hi. rewrite (flat_split ss i s Hi) in Hb. apply bytes_at_app in Hb as [_ Hb]. apply bytes_at_app in Hb as [Hb _]. split; [by eapply (Forall_lookup_1 _ _ _ _ Hv)|done].
Qed.

Lemma skip_string_spec st s : forall p f, cstr (st_mem st) p s -> (length s < f)%nat -> skip_string f p st = Some (p + zlen s, st).
Proof.
  unfold skip_string. induction s as [|b s IH]; intros p f Hc Hf; (destruct f as [|f]; [cbn in Hf; lia|]); rewrite loop_S; unfold bind at 1.
  - apply cstr_nil in Hc. rewrite (load8_peek _ _ _ Hc). unfold ret. cbn. by rewrite Z.add_0_r.
  - apply cstr_cons in Hc as (Hb & Hm & Hc). rewrite (load8_peek _ _ _ Hm). unfold ret at 1. unfold nonzero_byte in Hb. rewrite (proj2 (Z.eqb_neq b 0)) by lia.
    rewrite IH by (done || cbn in Hf; lia). cbn [length]. do 2 f_equal. lia.
Qed.

(** argz_next goes from entry to entry. *)
Lemma argz_next_spec st a ss f :
  0 < a -> bytes_at (st_mem st) a (flat ss) -> Forall (Forall nonzero_byte) ss -> (length (flat ss) < f)%nat ->
  argz_next f a (zlen (flat ss)) NULL st = Some (if decide (ss = []) then NULL else a, st) /\
  forall i s, ss !! i = Some s -> argz_next f a (zlen (flat ss)) (entry_at a ss i) st = Some (if decide (S i < length ss)%nat then entry_at a ss (S i) else NULL, st).
Proof.
  intros Ha Hb Hv Hf. split.
  - unfold argz_next. change (NULL =? NULL) with true. cbn [negb]. destruct (decide (ss = [])) as [->|Hs]; [done|]. pose proof (flat_pos ss Hs). by rewrite (proj2 (Z.ltb_lt _ _)).
  - intros i s Hi. unfold argz_next. rewrite (proj2 (Z.eqb_neq _ NULL)) by (unfold entry_at, NULL; lia). cbn [negb]. pose proof (flat_split ss i s Hi) as Ef.
    pose proof (f_equal length Ef) as El. rewrite !length_app in El. cbn [length] in El. unfold bind. rewrite (skip_string_spec st s); [|by eapply entry_string|lia].
    rewrite <- (entry_next a ss i s Hi). destruct (decide (S i < length ss)%nat) as [Hlt|Hge].
    + rewrite (proj2 (Z.leb_gt _ _)); [done|]. unfold entry_at. rewrite (take_S_r ss i s Hi), flat_app, flat_one, !length_app. cbn [length].
      assert (drop (S i) ss <> []) as Hd by (intros E; apply (f_equal length) in E; rewrite length_drop in E; cbn in E; lia). pose proof (flat_pos _ Hd). lia.
    + rewrite (proj2 (Z.leb_le _ _)); [done|]. unfold entry_at. rewrite take_ge by lia. lia.
Qed.

(** ** Removing an entry *)

(** Shrinking, or freeing, the block. *)
Definition remaining (ss : list (list Z)) (i : nat) : list (list Z) := take i ss ++ drop (S i) ss.

Definition deleted live F argz argz_len a (ts : list (list Z)) (r : Z) st' live' : Prop :=
  if decide (ts = []) then r = NULL /\ argz_at st' live' F argz argz_len NULL [] /\ live' = delete a live
  else if r =? NULL then alloc_inv st' live' F /\ word_at (st_mem st') argz NULL /\ word_at (st_mem st') argz_len (zlen (flat ts)) /\ live' = live
  else argz_at st' live' F argz argz_len r ts /\ live' = <[r := zlen (flat ts)]> (delete a live).

Lemma remaining_flat ss i : flat (remaining ss i) = flat (take i ss) ++ flat (drop (S i) ss).
Proof. unfold remaining. apply flat_app. Qed.

Lemma remaining_valid ss i : Forall (Forall nonzero_byte) ss -> Forall (Forall nonzero_byte) (remaining ss i).
Proof. intros Hs. apply Forall_app. split; [by apply Forall_take|by apply Forall_drop]. Qed.

(** A word of the client, in a memory that differs inside a block only. *)
Lemma word_outside st live F a n m' p v :
  alloc_inv st live F -> live !! a = Some n -> (forall x, word_cells p x -> x ∈ F) -> chg (fun x => a <= x < a + n) (st_mem st) m' -> word_at (st_mem st) p v -> word_at m' p v.
Proof. intros Hi Hl HF Hc Hw. eapply word_chg; [done..|]. intros x Hx. apply (proj2 (alloc_foreign _ _ _ _ Hi (HF x Hx)) a n Hl). Qed.

(** The entries behind are moved down and the length is stored. *)
Lemma argz_close_gap st live F argz argz_len a ss i s :
  argz_at st live F argz argz_len a ss -> ss !! i = Some s -> zlen s < 2 ^ 31 - 1 ->
  exists st1 f0, alloc_inv st1 live F /\ live !! a = Some (zlen (flat ss)) /\ zlen (flat (remaining ss i)) < zlen (flat ss) < 2 ^ long_bits /\ a <> NULL /\
    word_at (st_mem st1) argz a /\ word_at (st_mem st1) argz_len (zlen (flat (remaining ss i))) /\ bytes_at (st_mem st1) a (flat (remaining ss i)) /\
    forall f, (f0 <= f)%nat -> argz_delete f argz argz_len (entry_at a ss i) st =
      (do r <- op_realloc f a (zlen (flat (remaining ss i))); run store_ptr argz r;
       if r =? NULL then ret ENOMEM else if zlen (flat (remaining ss i)) <=? 0 then run op_free f r; run store_ptr argz NULL; ret 0 else ret 0)%C st1.
Proof.
  intros Hz Hs Hlen. pose proof Hz as [Hi Hpo Hlo Hap Hp Hln Hst Hb]. rewrite decide_False in Hb by (intros ->; done). destruct Hb as [Hl Hb]. rewrite remaining_flat.
  pose proof (flat_split ss i s Hs) as Ef. unfold entry_at. set (l1 := flat (take i ss)) in *. set (l2 := flat (drop (S i) ss)) in *. set (n := zlen (flat ss)) in *.
  assert (n = zlen l1 + zlen s + 1 + zlen l2) as En by (unfold n; rewrite Ef, !length_app; cbn [length]; lia).
  destruct (alloc_block _ _ _ _ _ Hi Hl) as (Ha0 & _ & Hm & Hend). pose proof (alloc_ok _ _ _ Hi) as Hok.
  set (m1 := put_bytes (st_mem st) (a + zlen l1) l2). set (st1 := st_set_mem st m1). assert (st_mem st1 = m1) as Em1 by apply st_mem_set.
  pose proof Hb as Hb'. rewrite Ef in Hb'. apply bytes_at_app in Hb' as [B1 B2]. apply bytes_at_app in B2 as [B2 B3]. rewrite length_app in B3. cbn [length] in B3.
  assert (chg (fun x => a <= x < a + n) (st_mem st) m1) as C1 by (eapply chg_mono; [apply chg_put; by eapply bytes_at_bytes|]; intros x Hx; cbv beta in Hx; lia).
  assert (alloc_inv st1 live F) as Hi1 by (eapply alloc_write; [done..|]; left; by exists a, n).
  assert (word_at m1 argz a) as Hp1 by by apply (word_outside st live F a n). assert (word_at m1 argz_len n) as Hln1 by by apply (word_outside st live F a n).
  assert (0 <= zlen (l1 ++ l2) < 2 ^ long_bits) as Hn' by (rewrite length_app; lia).
  rewrite <- Em1 in Hp1, Hln1. destruct (store_own st1 live F argz_len (zlen (l1 ++ l2)) Hi1 Hlo (proj2 (proj2 Hln)) Hn') as (st2 & E2 & Hi2 & Hw2 & C2).
  exists st2, (1 + length s + length l2)%nat. split_and!; try done.
  - rewrite length_app. lia.
  - lia.
  - unfold NULL. lia.
  - by eapply word_chg.
  - eapply chg_bytes; [exact C2| |].
    + rewrite Em1. apply bytes_at_app. split; [|apply put_bytes_at]. apply bytes_at_put_disjoint; [|done]. unfold disjoint_blk. lia.
    + intros x Hx Hw. apply Hlo in Hw. apply (proj2 (alloc_foreign _ _ _ _ Hi Hw) a n Hl). rewrite length_app in Hx. lia.
  - intros f Hf. unfold argz_delete. rewrite (proj2 (Z.eqb_neq _ NULL)) by (unfold NULL; lia). cbn [negb]. unfold bind at 1.
    rewrite (strlen_peek st f (a + zlen l1) s); [|lia|done|exact (entry_string st a ss i s Hb Hst Hs)|eapply (alloc_tail st live F a n); [done..|lia]].
    rewrite (swrap_small 32 (zlen s + 1)) by lia. unfold bind at 1. rewrite (load_ptr_eq st argz a Hp). unfold bind at 1. rewrite (load_ptr_eq st argz_len n Hln).
    assert (size_t (a + n - (a + zlen l1 + (zlen s + 1))) = zlen l2) as -> by (unfold size_t; rewrite uwrap_small; lia).
    assert (size_t (n - (zlen s + 1)) = zlen (l1 ++ l2)) as -> by (rewrite length_app; unfold size_t; rewrite uwrap_small; lia).
    unfold bind at 1. unfold on_mem at 1. replace (a + zlen l1 + (zlen s + 1)) with (a + zlen l1 + Z.of_nat (length s + 1)) by lia.
    assert (mapped (st_mem st) (a + zlen l1) (zlen l2)) as Hmv by (eapply mapped_weaken; [done|lia..]).
    rewrite (memmove_spec l2) by (done || lia). fold m1 st1. unfold bind at 1. rewrite E2. unfold bind at 1. rewrite (load_ptr_eq st2 argz_len _ Hw2). done.
Qed.

Lemma argz_delete_spec st live F argz argz_len a ss i s :
  argz_at st live F argz argz_len a ss -> ss !! i = Some s -> zlen s < 2 ^ 31 - 1 ->
  exists f0 r st' live', (forall f, (f0 <= f)%nat -> argz_delete f argz argz_len (entry_at a ss i) st = Some (if r =? NULL then ENOMEM else 0, st')) /\
    deleted live F argz argz_len a (remaining ss i) r st' live'.
Proof.
  intros Hz Hs Hlen. destruct (argz_close_gap st live F argz argz_len a ss i s Hz Hs Hlen) as (st1 & f1 & Hi1 & Hl & Hn & Ha & Hp1 & Hw1 & Hb1 & E).
  pose proof Hz as [Hi Hpo Hlo Hap Hp Hln Hst Hb]. set (ts := remaining ss i) in *. pose proof (remaining_valid ss i Hst) as Hts. fold ts in Hts. unfold deleted. destruct (decide (ts = [])) as [Et|Et].
  - rewrite Et in *. change (zlen (flat [])) with 0 in *. destruct (alloc_free st1 live F a Hi1 (ex_intro _ _ Hl)) as (f2 & st2 & E2 & Hi2 & K2).
    destruct (store_own st2 (delete a live) F argz NULL Hi2 Hpo (proj2 (proj2 Hp)) ltac:(unfold NULL; lia)) as (st3 & E3 & Hi3 & Hw3 & C3).
    exists (Nat.max f1 f2), NULL, st3, (delete a live). split_and!; try done.
    + intros f Hf. rewrite E by lia. unfold bind at 1. rewrite alloc_realloc_zero by done. unfold bind at 1. rewrite E2 by lia. unfold ret at 1. unfold bind at 1. by rewrite E3.
    + split; try done. eapply word_chg; [exact C3| |intros x Hx Hy; by apply (Hap x Hy)]. eapply word_kept; [exact K2| |done]. intros x Hx. right. by apply Hlo.
  - pose proof (flat_pos ts Et) as Htp. destruct (alloc_realloc st1 live F a _ (zlen (flat ts)) Hi1 Hl ltac:(lia)) as (f2 & r & st2 & live2 & E2 & Hi2 & Hr).
    assert (0 <= r < 2 ^ long_bits) as Hrr.
    { unfold reallocated in Hr. destruct (Z.eqb_spec r NULL) as [->|Hrn]; [unfold NULL; lia|]. destruct Hr as [-> _]. eapply block_range; [done|apply lookup_insert_eq|done]. }
    destruct (store_own st2 live2 F argz r Hi2 Hpo (proj2 (proj2 Hp)) Hrr) as (st3 & E3 & Hi3 & Hw3 & C3).
    assert (kept (delete a live) F (st_mem st1) (st_mem st2)) as K2.
    { intros x Hx. unfold reallocated in Hr. destruct (r =? NULL); [apply Hr; by eapply owns_delete|by apply Hr]. }
    assert (word_at (st_mem st3) argz_len (zlen (flat ts))) as Hl3.
    { eapply word_chg; [exact C3| |intros x Hx Hy; by apply (Hap x Hy)]. eapply word_kept; [exact K2| |done]. intros x Hx. right. by apply Hlo. }
    exists (Nat.max f1 f2), r, st3, live2. split.
    + intros f Hf. rewrite E by lia. unfold bind at 1. rewrite E2 by lia. unfold bind at 1. rewrite E3. destruct (r =? NULL); [done|]. by rewrite (proj2 (Z.leb_gt _ _)).
    + unfold reallocated in Hr. destruct (Z.eqb_spec r NULL) as [->|Hrn]; [destruct Hr as [-> _]; by split_and!|]. destruct Hr as (-> & Hnew & _ & Hd). split; [|done].
      split; try done. rewrite decide_False by done. split; [apply lookup_insert_eq|]. intros j Hj. rewrite (chg_out _ _ _ C3); [rewrite Hd by lia; by apply Hb1|].
      intros Hx. apply Hpo in Hx. apply (proj2 (alloc_foreign _ _ _ _ Hi2 Hx) r _ (lookup_insert_eq _ _ _)). lia.
Qed.

(** ** Inserting an entry *)

Lemma back_to_start_spec st a p k : a <= p -> (p = a \/ st_mem st !! (p - 1) = Some 0) -> bytes_at (st_mem st) p k -> Forall nonzero_byte k ->
  forall f, (length k < f)%nat -> back_to_start f a (p + zlen k) st = Some (p, st).
Proof.
  intros Hap Hs. unfold back_to_start. induction k as [|b k IH] using rev_ind; intros Hb Hk f Hf; (destruct f as [|f]; [lia|]); rewrite loop_S.
  - cbn [length]. rewrite Z.add_0_r. destruct (Z.eqb_spec p a) as [->|Hne]; [done|]. destruct Hs as [->|Hs]; [done|]. unfold bind. by rewrite (load8_peek _ _ _ Hs).
  - rewrite length_app in *. cbn [length] in *. apply bytes_at_app in Hb as [Hb1 Hb2]. apply bytes_at_cons in Hb2 as [Hb2 _]. apply Forall_app in Hk as [Hk1 Hk2]. apply Forall_cons in Hk2 as [Hk2 _].
    rewrite (proj2 (Z.eqb_neq _ a)) by lia. replace (p + Z.of_nat (length k + 1) - 1) with (p + zlen k) by lia. unfold bind. rewrite (load8_peek _ _ _ Hb2). unfold ret at 1. unfold nonzero_byte in Hk2.
    rewrite (proj2 (Z.eqb_neq b 0)) by lia. apply IH; [done|done|lia].
Qed.

Lemma entry_before st a ss i s : bytes_at (st_mem st) a (flat ss) -> ss !! i = Some s -> a <= entry_at a ss i /\ (entry_at a ss i = a \/ st_mem st !! (entry_at a ss i - 1) = Some 0).
Proof.
  intros Hb Hi. split; [unfold entry_at; lia|]. destruct i as [|i]; [left; apply Z.add_0_r|]. right. destruct (lookup_lt_is_Some_2 ss i) as [t Ht]; [pose proof (lookup_lt_Some _ _ _ Hi); lia|].
  rewrite (entry_next a ss i t Ht). replace (entry_at a ss i + zlen t + 1 - 1) with (entry_at a ss i + zlen t) by lia.
  rewrite (flat_split ss i t Ht) in Hb. apply bytes_at_app in Hb as [_ Hb]. apply bytes_at_app in Hb as [Hb _]. apply bytes_at_app in Hb as [_ Hb]. by apply bytes_at_cons in Hb as [Hb _].
Qed.

Definition inserted (live : gmap Z Z) (F : gset Z) (argz argz_len a : Z) (ss : list (list Z)) (i : nat) (e : list Z) (r : Z) (st' : St) (live' : gmap Z Z) : Prop :=
  if r =? NULL then alloc_inv st' live' F /\ live' = live /\ word_at (st_mem st') argz NULL /\ word_at (st_mem st') argz_len (zlen (flat ss))
  else argz_at st' live' F argz argz_len r (take i ss ++ e :: drop i ss) /\ live' = <[r := zlen (flat ss) + zlen e + 1]> (delete a live).

(** Making room in the block. *)
Lemma move_in_block st live F r n d d' l f :
  alloc_inv st live F -> live !! r = Some n -> 0 <= d -> 0 <= d' -> d + zlen l <= n -> d' + zlen l <= n -> (length l < f)%nat -> bytes_at (st_mem st) (r + d) l ->
  let st' := st_set_mem st (put_bytes (st_mem st) (r + d') l) in
  on_mem (memmove f (r + d') (r + d) (zlen l)) st = Some (r + d', st') /\ alloc_inv st' live F /\ st_mem st' = put_bytes (st_mem st) (r + d') l.
Proof.
  intros Hi Hr Hd Hd' Hn Hn' Hf Hb st'. destruct (alloc_block _ _ _ _ _ Hi Hr) as (_ & _ & Hm & _). pose proof (alloc_ok _ _ _ Hi) as Hok.
  assert (memmove f (r + d') (r + d) (zlen l) (st_mem st) = Some (r + d', put_bytes (st_mem st) (r + d') l)) as E.
  { apply memmove_spec; try done. eapply mapped_weaken; [done|lia..]. }
  split_and!; [unfold on_mem; by rewrite E| |apply st_mem_set].
  eapply (alloc_write _ _ _ (fun x => r + d' <= x < r + d' + zlen l)); [done|apply chg_put; by eapply bytes_at_bytes|]. left. exists r, n. split; [done|]. intros x Hx. lia.
Qed.

(** The two copies of argz_insert. *)
Lemma insert_copies st live F r n l1 l2 entry e :
  alloc_inv st live F -> live !! r = Some n -> bytes_at (st_mem st) r (l1 ++ l2) -> n = zlen (l1 ++ l2) + (zlen e + 1) ->
  bytes_at (st_mem st) entry (e ++ [0]) -> (forall x, entry <= x < entry + (zlen e + 1) -> ~ r <= x < r + n) ->
  exists st', (forall f, (length l2 < f)%nat -> (length e + 1 < f)%nat ->
      on_mem (memmove f (r + zlen l1 + (zlen e + 1)) (r + zlen l1) (zlen l2)) st = Some (r + zlen l1 + (zlen e + 1), st_set_mem st (put_bytes (st_mem st) (r + zlen l1 + (zlen e + 1)) l2)) /\
      on_mem (memcpy f (r + zlen l1) entry (zlen e + 1)) (st_set_mem st (put_bytes (st_mem st) (r + zlen l1 + (zlen e + 1)) l2)) = Some (r + zlen l1, st')) /\
    alloc_inv st' live F /\ bytes_at (st_mem st') r (l1 ++ (e ++ [0]) ++ l2) /\ forall x, ~ r <= x < r + n -> st_mem st' !! x = st_mem st !! x.
Proof.
  intros Hi Hr Hb Hn He Hap. rewrite length_app in Hn. apply bytes_at_app in Hb as [B1 B2]. replace (r + zlen l1 + (zlen e + 1)) with (r + (zlen l1 + (zlen e + 1))) by lia.
  assert (zlen (e ++ [0]) = zlen e + 1) as Hlen by (rewrite length_app; cbn; lia).
  assert (forall f, (length l2 < f)%nat -> let st' := st_set_mem st (put_bytes (st_mem st) (r + (zlen l1 + (zlen e + 1))) l2) in
    on_mem (memmove f (r + (zlen l1 + (zlen e + 1))) (r + zlen l1) (zlen l2)) st = Some (r + (zlen l1 + (zlen e + 1)), st') /\ alloc_inv st' live F /\ st_mem st' = put_bytes (st_mem st) (r + (zlen l1 + (zlen e + 1))) l2) as H1.
  { intros f Hf. apply (move_in_block st live F r n); try done; lia. }
  set (st1 := st_set_mem st (put_bytes (st_mem st) (r + (zlen l1 + (zlen e + 1))) l2)) in *. destruct (H1 (S (length l2)) ltac:(lia)) as (_ & Hi1 & Em1). fold st1 in Hi1, Em1.
  assert (bytes_at (st_mem st1) entry (e ++ [0])) as He1.
  { intros j Hj. rewrite Em1, lookup_put_bytes, decide_False; [by apply He|]. specialize (Hap (entry + Z.of_nat j)). lia. }
  assert (forall f, (length e + 1 < f)%nat -> let st' := st_set_mem st1 (put_bytes (st_mem st1) (r + zlen l1) (e ++ [0])) in
    on_mem (memcpy f (r + zlen l1) entry (zlen (e ++ [0]))) st1 = Some (r + zlen l1, st') /\ alloc_inv st' live F /\ st_mem st' = put_bytes (st_mem st1) (r + zlen l1) (e ++ [0])) as H2.
  { intros f Hf. apply (copy_to_block st1 live F r n); try done; rewrite ?Hlen; try done; try lia; rewrite length_app; cbn [length]; lia. }
  rewrite Hlen in H2. destruct (H2 (length e + 2)%nat ltac:(lia)) as (_ & Hi2 & Em2).
  exists (st_set_mem st1 (put_bytes (st_mem st1) (r + zlen l1) (e ++ [0]))). split_and!; [|done| |].
  - intros f Hf Hfe. split; [by apply H1|by apply H2].
  - rewrite Em2, Em1. apply bytes_at_app. rewrite bytes_at_app, Hlen. split_and!.
    + apply bytes_at_put_disjoint; [unfold disjoint_blk; lia|]. apply bytes_at_put_disjoint; [unfold disjoint_blk; lia|done].
    + apply put_bytes_at.
    + apply bytes_at_put_disjoint; [unfold disjoint_blk; lia|]. rewrite <- Z.add_assoc. apply put_bytes_at.
  - intros x Hx. rewrite Em2, Em1, !lookup_put_bytes, !decide_False by lia. done.
Qed.

(** The call up to the copies. *)
Lemma argz_insert_head st live F argz argz_len a ss i s j entry e f r st1 st2 :
  argz_at st live F argz argz_len a ss -> ss !! i = Some s -> (j <= length s)%nat -> cstr (st_mem st) entry e -> word_tail_mapped (st_mem st) (entry + zlen e) ->
  zlen e < 2 ^ 31 - 1 -> zlen (flat ss) + zlen e + 1 < 2 ^ long_bits -> (length s < f)%nat -> (length e < f)%nat ->
  op_realloc f a (zlen (flat ss) + zlen e + 1) st = Some (r, st1) -> store_ptr argz r st1 = Some (tt, st2) ->
  argz_insert f argz argz_len (entry_at a ss i + Z.of_nat j) entry st =
    (if r =? NULL then ret ENOMEM else
       do _ <- on_mem (memmove f (r + zlen (flat (take i ss)) + (zlen e + 1)) (r + zlen (flat (take i ss))) (zlen (flat (drop i ss))));
       do _ <- on_mem (memcpy f (r + zlen (flat (take i ss))) entry (zlen e + 1));
       run store_ptr argz_len (zlen (flat ss) + zlen e + 1); ret 0)%C st2.
Proof.
  intros Hz Hs Hj He Ht Hle Hn Hfs Hfe E1 E2. pose proof Hz as [Hi Hpo Hlo Hap Hp Hln Hst Hb]. rewrite decide_False in Hb by (intros ->; done). destruct Hb as [Hl Hb].
  destruct (alloc_block _ _ _ _ _ Hi Hl) as (Ha0 & _ & Hm & Hend). set (d := zlen (flat (take i ss))) in *. set (n0 := zlen (flat ss)) in *. assert (entry_at a ss i = a + d) as Ee by done.
  assert (n0 = d + zlen (flat (drop i ss))) as En by (unfold n0, d; rewrite <- (take_drop i ss) at 1; rewrite flat_app, length_app; lia).
  assert (n0 = d + zlen s + 1 + zlen (flat (drop (S i) ss))) as En2 by (unfold n0, d; rewrite (flat_split ss i s Hs) at 1; rewrite !length_app; cbn [length]; lia).
  unfold argz_insert. rewrite (proj2 (Z.eqb_neq _ NULL)) by (rewrite Ee; unfold NULL; lia). unfold bind at 1. rewrite (load_ptr_eq st argz a Hp). unfold bind at 1. rewrite (load_ptr_eq st argz_len n0 Hln).
  rewrite (proj2 (Z.ltb_ge _ _)), (proj2 (Z.leb_gt _ _)) by (rewrite Ee; lia). cbn [orb]. unfold bind at 1.
  destruct (entry_before st a ss i s Hb Hs) as [Q1 Q2]. destruct (entry_string st a ss i s Hb Hst Hs) as [Q3 Q4]. apply bytes_at_app in Q4 as [Q4 _]. rewrite <- (take_drop j s) in Q4. apply bytes_at_app in Q4 as [Q4 _].
  pose proof (back_to_start_spec st a (entry_at a ss i) (take j s) Q1 Q2 Q4 (Forall_take _ _ _ Q3) f) as Eb. rewrite length_take_le in Eb by done. rewrite Eb by lia.
  unfold bind at 1. rewrite (strlen_peek st f entry e); [|done|by apply (alloc_ok _ _ _ Hi)|done|done]. rewrite (swrap_small 32 (zlen e + 1)) by lia. unfold size_t. rewrite (uwrap_small _ (n0 + (zlen e + 1))) by lia.
  replace (n0 + (zlen e + 1)) with (n0 + zlen e + 1) by lia. unfold bind at 1. rewrite E1. unfold bind at 1. rewrite E2. destruct (r =? NULL); [done|].
  rewrite Ee. replace (a + d - a) with d by lia. rewrite (uwrap_small _ (n0 - d)), (uwrap_small _ (zlen e + 1)) by lia. by replace (n0 - d) with (zlen (flat (drop i ss))) by lia.
Qed.

Lemma argz_insert_spec st live F argz argz_len a ss i s j entry e :
  argz_at st live F argz argz_len a ss -> ss !! i = Some s -> (j <= length s)%nat -> Forall nonzero_byte e -> source st live F argz argz_len a entry (e ++ [0]) ->
  word_tail_mapped (st_mem st) (entry + zlen e) -> zlen e < 2 ^ 31 - 1 -> zlen (flat ss) + zlen e + 1 < 2 ^ long_bits ->
  exists f0 r st' live', (forall f, (f0 <= f)%nat -> argz_insert f argz argz_len (entry_at a ss i + Z.of_nat j) entry st = Some (if r =? NULL then ENOMEM else 0, st')) /\
    inserted live F argz argz_len a ss i e r st' live'.
Proof.
  intros Hz Hs Hj He Hsrc Ht Hle Hn. pose proof Hz as [Hi Hpo Hlo Hap Hp Hln Hst Hb]. pose proof Hsrc as [S1 S2 S3 S4]. rewrite length_app in S2, S3, S4. cbn [length] in S2, S3, S4. set (n0 := zlen (flat ss)) in *.
  assert (flat ss = flat (take i ss) ++ flat (drop i ss)) as Ef by (rewrite <- flat_app, take_drop; done).
  destruct (argz_grow st live F argz argz_len a ss (n0 + zlen e + 1) Hz ltac:(lia) ltac:(lia) st Hi ltac:(done)) as (f0 & r & st1 & live1 & E1 & Hi1 & Hr & Hg).
  destruct (store_own st1 live1 F argz r Hi1 Hpo (proj2 (proj2 Hp)) Hr) as (st2 & E2 & Hi2 & Hw2 & C2).
  assert (forall x, owns (delete a live) F x -> st_mem st1 !! x = st_mem st !! x) as K1.
  { intros x Hx. destruct (r =? NULL); [destruct Hg as [_ Hk]; apply Hk; by eapply owns_delete|]. by apply Hg. }
  assert (word_at (st_mem st2) argz_len n0) as Hl2.
  { eapply word_chg; [exact C2| |intros x Hx Hy; by apply (Hap x Hy)]. eapply word_kept; [exact K1| |done]. intros x Hx. right. by apply Hlo. }
  set (fm := (2 + f0 + length s + length e + length (flat ss))%nat).
  assert (forall f, (fm <= f)%nat -> argz_insert f argz argz_len (entry_at a ss i + Z.of_nat j) entry st = _) as E by (intros f Hf; apply (argz_insert_head st live F argz argz_len a ss i s j entry e f r st1 st2); try done; [lia|lia|apply E1; lia]).
  unfold inserted. destruct (Z.eqb_spec r NULL) as [->|Hrn].
  { destruct Hg as [-> _]. exists fm, NULL, st2, live. by split_and!. }
  destruct Hg as (-> & Hnew & _ & Hbr). set (live' := <[r:=n0 + zlen e + 1]> (delete a live)) in *. assert (live' !! r = Some (n0 + zlen e + 1)) as Hlr by apply lookup_insert_eq.
  assert (forall x, owns (delete a live) F x -> ~ r <= x < r + (n0 + zlen e + 1)) as Hout by (intros x; by apply (owns_apart st1)).
  assert (bytes_at (st_mem st2) r (flat (take i ss) ++ flat (drop i ss))) as Hb2.
  { rewrite <- Ef. eapply chg_bytes; [exact C2|done|]. fold n0. intros x Hx Hy. apply (Hout x); [right; by apply Hpo|lia]. }
  assert (bytes_at (st_mem st2) entry (e ++ [0])) as Hs2.
  { intros k Hk. pose proof Hk as Hk'. rewrite length_app in Hk. cbn [length] in Hk. rewrite (chg_out _ _ _ C2), K1; [by apply S1|apply S2; lia|apply S3; lia]. }
  destruct (insert_copies st2 live' F r (n0 + zlen e + 1) (flat (take i ss)) (flat (drop i ss)) entry e Hi2 Hlr Hb2) as (st3 & E3 & Hi3 & Hb3 & K3); [rewrite <- Ef; fold n0; lia|done|intros x Hx; apply Hout, S2; lia|].
  destruct (store_own st3 live' F argz_len (n0 + zlen e + 1) Hi3 Hlo (proj2 (proj2 Hln)) ltac:(lia)) as (st4 & E4 & Hi4 & Hw4 & C4).
  assert (flat (take i ss ++ e :: drop i ss) = flat (take i ss) ++ (e ++ [0]) ++ flat (drop i ss)) as Eflat by (rewrite flat_app, flat_cons, <- app_assoc; done).
  assert (zlen (flat (take i ss ++ e :: drop i ss)) = n0 + zlen e + 1) as Elen by (rewrite Eflat; unfold n0; rewrite Ef, !length_app; cbn [length]; lia).
  exists fm, r, st4, live'. rewrite (proj2 (Z.eqb_neq r NULL)) by done. split; [|split; [|done]].
  - intros f Hf. rewrite E by done. pose proof (f_equal length Ef) as El. rewrite length_app in El. destruct (E3 f) as [E31 E32]; [lia|lia|].
    unfold bind at 1. rewrite E31. unfold bind at 1. rewrite E32. unfold bind at 1. fold n0. by rewrite E4.
  - split; try done; [|by rewrite Elen| |].
    + eapply word_chg; [exact C4| |done]. destruct Hw2 as [W1 W2]. split; [|done]. intros k Hk. rewrite K3; [by apply W1|]. rewrite bytes_of_word_length in Hk. apply Hout. right. apply Hpo. unfold word_cells. lia.
    + apply Forall_app. split; [by apply Forall_take|]. constructor; [done|by apply Forall_drop].
    + rewrite decide_False by (by destruct (take i ss)). rewrite Elen, Eflat. split; [done|]. eapply chg_bytes; [exact C4|done|].
      intros x Hx Hy. apply (Hout x); [right; by apply Hlo|]. rewrite <- Eflat, Elen in Hx. lia.
Qed.

(** ** The vector as one string *)

Fixpoint join (c : Z) (ss : list (list Z)) : list Z :=
  match ss with
  | [] => []
  | s :: ss => s ++ match ss with [] => [] | _ => c :: join c ss end
  end.

Definition sep_byte (c b : Z) : Z := if b =? 0 then c else b.

Lemma sep_string c s : Forall nonzero_byte s -> map (sep_byte c) s = s.
Proof. induction s as [|b s IH]; [done|]. intros [Hb Hs]%Forall_cons. cbn. rewrite IH by done. unfold sep_byte, nonzero_byte in *. by rewrite (proj2 (Z.eqb_neq b 0)) by lia. Qed.

Lemma join_flat c ss : ss <> [] -> Forall (Forall nonzero_byte) ss -> exists l, flat ss = l ++ [0] /\ map (sep_byte c) l = join c ss.
Proof.
  induction ss as [|s ss IH]; intros Hn Hv; [done|]. apply Forall_cons in Hv as [Hs Hss]. destruct ss as [|t ss].
  - exists s. rewrite flat_one. cbn. rewrite app_nil_r. split; [done|by apply sep_string].
  - destruct IH as (l & El & Ej); [done|done|]. exists (s ++ 0 :: l). rewrite flat_cons, El. split; [by rewrite <- app_assoc|]. rewrite map_app, sep_string by done. cbn [map]. rewrite Ej. done.
Qed.

Lemma stringify_loop live F a n c l : 0 <= c < 256 -> live !! a = Some n -> forall (k : list Z) f st, alloc_inv st live F -> bytes_at (st_mem st) a (k ++ l ++ [0]) -> n = zlen (k ++ l ++ [0]) -> (length l < f)%nat ->
  exists st', loop (argz_stringify_step a n c) f (zlen k) st = Some (tt, st') /\ alloc_inv st' live F /\ bytes_at (st_mem st') a (k ++ map (sep_byte c) l ++ [0]) /\
    forall x, ~ a <= x < a + n -> st_mem st' !! x = st_mem st !! x.
Proof.
  intros Hc Hl. induction l as [|b l IH]; intros k f st Hi Hb Hn Hf; (destruct f as [|f]; [cbn in Hf; lia|]); rewrite loop_S; unfold argz_stringify_step at 1; rewrite !length_app in Hn; cbn [length app] in Hn.
  - rewrite (proj2 (Z.ltb_ge _ _)) by lia. by exists st.
  - rewrite (proj2 (Z.ltb_lt _ _)) by lia. apply bytes_at_app in Hb as Hb'. destruct Hb' as [B1 B2]. cbn [app] in B2. apply bytes_at_cons in B2 as [B2 B3].
    unfold bind at 1. rewrite (load8_peek _ _ _ B2). assert (exists st1, (if b =? 0 then on_mem (store8 (a + zlen k) (uwrap 8 c)) else ret tt) st = Some (tt, st1) /\ alloc_inv st1 live F /\
      bytes_at (st_mem st1) a ((k ++ [sep_byte c b]) ++ l ++ [0]) /\ forall x, ~ a <= x < a + n -> st_mem st1 !! x = st_mem st !! x) as (st1 & E1 & Hi1 & Hb1 & K1).
    { unfold sep_byte. destruct (Z.eqb_spec b 0) as [->|Hb0]; [|exists st; rewrite <- app_assoc; done]. exists (st_set_mem st (put_bytes (st_mem st) (a + zlen k) [c])). rewrite st_mem_set. split_and!.
      - unfold on_mem, store8. cbn -[uwrap]. rewrite B2. by rewrite !(uwrap_small 8 c) by lia.
      - eapply (alloc_write _ _ _ (fun x => a <= x < a + n)); [done| |left; by exists a, n]. eapply chg_mono; [apply (chg_put _ _ [c]); by apply Forall_singleton|]. cbn. lia.
      - rewrite <- app_assoc. apply bytes_at_app. split; [apply bytes_at_put_disjoint; [unfold disjoint_blk; cbn; lia|done]|]. cbn [app]. apply bytes_at_cons. split; [cbn; by rewrite lookup_insert_eq|].
        apply (bytes_at_put_disjoint _ (a + zlen k) [c]); [unfold disjoint_blk; cbn; lia|done].
      - intros x Hx. cbn. rewrite lookup_insert_ne; [done|]. lia. }
    unfold bind at 1. rewrite E1. unfold ret at 1. replace (zlen k + 1) with (zlen (k ++ [sep_byte c b])) by (rewrite length_app; cbn; lia).
    destruct (IH (k ++ [sep_byte c b]) f st1 Hi1 Hb1) as (st' & E' & Hi' & Hb' & K'); [rewrite !length_app; cbn [length]; lia|cbn in Hf; lia|].
    exists st'. split_and!; try done; [by rewrite <- app_assoc in Hb'|]. intros x Hx. rewrite K', K1 by done. done.
Qed.

Lemma argz_stringify_spec st live F argz argz_len a ss sep f :
  argz_at st live F argz argz_len a ss -> ss <> [] -> 0 <= sep < 256 -> (length (flat ss) < f)%nat ->
  exists st', argz_stringify f a (zlen (flat ss)) sep st = Some (tt, st') /\ alloc_inv st' live F /\ bytes_at (st_mem st') a (join sep ss ++ [0]) /\
    forall x, ~ a <= x < a + zlen (flat ss) -> st_mem st' !! x = st_mem st !! x.
Proof.
  intros Hz Hss Hsep Hf. pose proof Hz as [Hi _ _ _ _ _ Hst Hb]. rewrite decide_False in Hb by done. destruct Hb as [Hl Hb]. destruct (join_flat sep ss Hss Hst) as (l & El & Ej). rewrite El in *.
  unfold argz_stringify. destruct (Z.ltb_spec 1 (zlen (l ++ [0]))) as [Hn|Hn].
  - destruct (stringify_loop live F a (zlen (l ++ [0])) sep l Hsep Hl [] f st Hi Hb eq_refl) as (st' & E & Hi' & Hb' & K'); [rewrite length_app in Hf; lia|]. exists st'. rewrite <- Ej. done.
  - exists st. destruct l as [|b l]; [rewrite <- Ej; done|]. cbn in Hn. rewrite length_app in Hn. cbn in Hn. lia.
Qed.
End argz.
