(* ===== verification/ArgzArray.v ===== *)
(** * Argument vectors and arrays of pointers

    argz_create makes a vector of the strings of an array that ends with a null
    pointer, and argz_extract sets such an array to the entries of a vector. *)

From stdpp Require Import base list gmap.
From Stdlib Require Import ZArith Lia.
From S2P Require Import Prelude CMem CInt StrLocal StrMem StrStr Malloc MallocList MallocHeap MallocSys Alloc Argz ArgzSpec.

Local Open Scope Z_scope.

Section array.
Context `{Arch} {St : Type} `{AllocOps St} {AOk : AllocOk St}.
Implicit Types (st : St) (live : gmap Z Z) (F : gset Z) (m : mem) (R : Z -> Prop).

(** ** An array of pointers to strings *)

(** The string [s] at [p], with what a read of whole words touches, in the region [R]. *)
Definition str_in m R (p : Z) (s : list Z) : Prop :=
  p <> NULL /\ cstr m p s /\ word_tail_mapped m (p + zlen s) /\ (forall x, p <= x <= p + zlen s -> R x) /\
  forall x, p + zlen s < x -> x / Z.of_nat long_size = (p + zlen s) / Z.of_nat long_size -> R x.

(** The array [argv] of the pointers [ps] and a null pointer. *)
Definition array_in m R (argv : Z) (ps : list Z) : Prop :=
  forall i p, (ps ++ [NULL]) !! i = Some p -> word_at m (elem_at argv (Z.of_nat i)) p /\ forall x, word_cells (elem_at argv (Z.of_nat i)) x -> R x.

Definition argv_in m R (argv : Z) (ps : list Z) (ss : list (list Z)) : Prop := array_in m R argv ps /\ Forall2 (str_in m R) ps ss.

Lemma str_in_frame m m' R p s : (forall x, R x -> m' !! x = m !! x) -> str_in m R p s -> str_in m' R p s.
Proof.
  intros Hm (S1 & [S2 S3] & S4 & S5 & S6). split_and!; try done.
  - split; [done|]. intros i Hi. rewrite Hm; [by apply S3|]. rewrite length_app in Hi. cbn in Hi. apply S5. lia.
  - intros x Hx Hd. rewrite Hm; [by apply S4|by apply S6].
Qed.

Lemma word_frame m m' R p v : (forall x, R x -> m' !! x = m !! x) -> (forall x, word_cells p x -> R x) -> word_at m p v -> word_at m' p v.
Proof. intros Hm HR [W1 W2]. split; [|done]. intros i Hi. rewrite Hm; [by apply W1|]. rewrite bytes_of_word_length in Hi. apply HR. unfold word_cells. lia. Qed.

Lemma argv_in_frame m m' R argv ps ss : (forall x, R x -> m' !! x = m !! x) -> argv_in m R argv ps ss -> argv_in m' R argv ps ss.
Proof.
  intros Hm [Ha Hs]. split.
  - intros i p Hp. destruct (Ha i p Hp) as [Hw HR]. split; [by eapply word_frame|done].
  - eapply Forall2_impl; [done|]. intros p s. by apply str_in_frame.
Qed.

Lemma argv_entry m R argv ps ss i p s : argv_in m R argv ps ss -> ps !! i = Some p -> ss !! i = Some s -> word_at m (elem_at argv (Z.of_nat i)) p /\ str_in m R p s.
Proof. intros [Ha Hs] Hp Hi. split; [apply Ha; by apply lookup_app_l_Some|]. by eapply (Forall2_lookup_lr _ _ _ i). Qed.

Lemma argv_end m R argv ps ss : argv_in m R argv ps ss -> word_at m (elem_at argv (zlen ss)) NULL.
Proof. intros [Ha Hs]. rewrite <- (Forall2_length _ _ _ Hs). apply Ha. by apply list_lookup_middle. Qed.

(** The client's bytes but the two words of the vector. *)
Definition beside live F argz argz_len (x : Z) : Prop := owns live F x /\ ~ word_cells argz x /\ ~ word_cells argz_len x.

Lemma str_in_len st f R p s : str_in (st_mem st) R p s -> mem_ok (st_mem st) -> (length s < f)%nat -> peek (strlen f p) st = Some (zlen s, st).
Proof. intros (_ & S2 & S3 & _) Hok Hf. by apply strlen_peek. Qed.

Lemma flat_take_S ss k s : ss !! k = Some s -> zlen (flat (take (S k) ss)) = zlen (flat (take k ss)) + zlen s + 1.
Proof. intros Hs. rewrite (take_S_r ss k s Hs), flat_app, flat_one, !length_app. cbn [length]. lia. Qed.

Lemma flat_take_le ss k : zlen (flat (take k ss)) <= zlen (flat ss).
Proof. rewrite <- (take_drop k ss) at 2. rewrite flat_app, length_app. lia. Qed.

(** ** argz_create *)

(** The first pass: the length. *)
Lemma create_size_loop live F argz_len argv ps ss (R : Z -> Prop) n :
  (forall x, word_cells argz_len x -> x ∈ F) -> (forall x, R x -> ~ word_cells argz_len x) -> zlen ss < 2 ^ 31 -> zlen (flat ss) < 2 ^ long_bits -> length ss = n ->
  forall d k st, k = (n - d)%nat -> (d <= n)%nat -> alloc_inv st live F -> argv_in (st_mem st) R argv ps ss -> word_at (st_mem st) argz_len (zlen (flat (take k ss))) ->
  exists st', (forall f g, (length (flat ss) < f)%nat -> (d < g)%nat -> loop (argz_create_size_step f argv argz_len) g (Z.of_nat k) st = Some (Z.of_nat n, st')) /\
    alloc_inv st' live F /\ word_at (st_mem st') argz_len (zlen (flat ss)) /\ chg (word_cells argz_len) (st_mem st) (st_mem st').
Proof.
  intros HF HR Hn Hb En. induction d as [|d IH]; intros k st Hk Hd Hi Ha Hw.
  - assert (k = n) as -> by lia. pose proof (argv_end _ _ _ _ _ Ha) as He. rewrite En in He. rewrite take_ge in Hw by lia. exists st. split_and!; try done.
    intros f g Hf Hg. destruct g as [|g]; [lia|]. rewrite loop_S. unfold argz_create_size_step at 1, bind at 1. rewrite (load_ptr_eq _ _ _ He). done.
  - destruct (lookup_lt_is_Some_2 ss k ltac:(lia)) as [s Hs]. destruct (Forall2_lookup_r _ _ _ _ _ (proj2 Ha) Hs) as (p & Hp & _). destruct (argv_entry _ _ _ _ _ _ _ _ Ha Hp Hs) as [Hpw Hps].
    pose proof (flat_take_S ss k s Hs) as Ek. pose proof (flat_take_le ss (S k)) as Hle.
    destruct (store_own st live F argz_len (zlen (flat (take (S k) ss))) Hi HF (proj2 (proj2 Hw)) ltac:(lia)) as (st1 & E1 & Hi1 & Hw1 & C1).
    destruct (IH (S k) st1) as (st' & E & Hi' & Hw' & C'); try done; try lia; [eapply argv_in_frame; [|done]; intros x Hx; apply (chg_out _ _ _ C1); by apply HR|].
    exists st'. split_and!; try done; [|by eapply chg_trans]. intros f g Hf Hg. destruct g as [|g]; [lia|]. rewrite loop_S. unfold argz_create_size_step at 1, bind at 1.
    rewrite (load_ptr_eq _ _ _ Hpw), (proj2 (Z.eqb_neq p NULL)) by apply Hps. cbn [negb]. unfold bind at 1. rewrite (load_ptr_eq _ _ _ Hw). unfold bind at 1. rewrite (str_in_len st f R p s Hps (alloc_ok _ _ _ Hi)) by lia.
    assert (size_t (zlen (flat (take k ss)) + size_t (zlen s + 1)) = zlen (flat (take (S k) ss))) as -> by (unfold size_t; rewrite (uwrap_small _ (zlen s + 1)) by lia; rewrite uwrap_small; lia).
    unfold bind at 1. rewrite E1. unfold bind at 1. rewrite int_at by (unfold INT_MIN, INT_MAX; lia). unfold ret at 1. replace (Z.of_nat k + 1) with (Z.of_nat (S k)) by lia. apply E; lia.
Qed.

(** The second pass: the copies. *)
Lemma create_copy_loop live F argv ps ss (R : Z -> Prop) r n :
  live !! r = Some (zlen (flat ss)) -> (forall x, R x -> ~ r <= x < r + zlen (flat ss)) -> length ss = n ->
  forall d k st, k = (n - d)%nat -> (d <= n)%nat -> alloc_inv st live F -> argv_in (st_mem st) R argv ps ss -> bytes_at (st_mem st) r (flat (take k ss)) ->
  exists st', (forall f g, (length (flat ss) < f)%nat -> (d < g)%nat -> loop (argz_create_copy_step f argv (Z.of_nat n)) g (Z.of_nat k, r + zlen (flat (take k ss))) st = Some (tt, st')) /\
    alloc_inv st' live F /\ bytes_at (st_mem st') r (flat ss) /\ chg (fun x => r <= x < r + zlen (flat ss)) (st_mem st) (st_mem st').
Proof.
  intros Hl HR En. induction d as [|d IH]; intros k st Hk Hd Hi Ha Hb.
  - assert (k = n) as -> by lia. rewrite (take_ge ss n) in Hb |- * by lia. exists st. split_and!; try done.
    intros f g Hf Hg. destruct g as [|g]; [lia|]. rewrite loop_S. unfold argz_create_copy_step at 1. by rewrite Z.ltb_irrefl.
  - destruct (lookup_lt_is_Some_2 ss k ltac:(lia)) as [s Hs]. destruct (Forall2_lookup_r _ _ _ _ _ (proj2 Ha) Hs) as (p & Hp & _). destruct (argv_entry _ _ _ _ _ _ _ _ Ha Hp Hs) as [Hpw Hps].
    pose proof (flat_take_S ss k s Hs) as Ek. pose proof (flat_take_le ss (S k)) as Hle. destruct (alloc_block _ _ _ _ _ Hi Hl) as (B1 & _ & _ & B4).
    assert (zlen (s ++ [0]) = zlen s + 1) as Es by (rewrite length_app; cbn [length]; lia). pose proof Hps as (_ & [_ Hsb] & _ & HsR & _).
    set (st1 := st_set_mem st (put_bytes (st_mem st) (r + zlen (flat (take k ss))) (s ++ [0]))).
    assert (forall f, (S (length s) < f)%nat -> on_mem (memcpy f (r + zlen (flat (take k ss))) p (zlen (s ++ [0]))) st = Some (r + zlen (flat (take k ss)), st1) /\ alloc_inv st1 live F /\ st_mem st1 = put_bytes (st_mem st) (r + zlen (flat (take k ss))) (s ++ [0])) as Ec.
    { intros f Hf. apply (copy_to_block st live F r (zlen (flat ss))); try done; [lia|lia|lia|intros x Hx; apply HR, HsR; lia]. }
    destruct (Ec (S (S (length s))) ltac:(lia)) as (_ & Hi1 & Em).
    assert (chg (fun x => r <= x < r + zlen (flat ss)) (st_mem st) (st_mem st1)) as C1 by (rewrite Em; eapply chg_mono; [apply chg_put; by eapply bytes_at_bytes; [apply (alloc_ok _ _ _ Hi)|]|]; intros x Hx; cbv beta in Hx; lia).
    destruct (IH (S k) st1) as (st' & E & Hi' & Hb' & C'); try done; try lia.
    + eapply argv_in_frame; [|done]. intros x Hx. apply (chg_out _ _ _ C1). by apply HR.
    + rewrite (take_S_r ss k s Hs), flat_app, flat_one, Em. apply bytes_at_app. split; [|apply put_bytes_at]. apply bytes_at_put_disjoint; [|done]. unfold disjoint_blk. lia.
    + exists st'. split_and!; try done; [|by eapply chg_trans]. intros f g Hf Hg. destruct g as [|g]; [lia|]. rewrite loop_S. unfold argz_create_copy_step at 1. rewrite (proj2 (Z.ltb_lt _ _)) by lia.
      unfold bind at 1. rewrite (load_ptr_eq _ _ _ Hpw). unfold bind at 1. rewrite (str_in_len st f R p s Hps (alloc_ok _ _ _ Hi)) by lia.
      assert (size_t (zlen s + 1) = zlen (s ++ [0])) as -> by (unfold size_t; rewrite uwrap_small; lia). unfold bind at 1. rewrite (proj1 (Ec f ltac:(lia))). unfold ret at 1.
      replace (Z.of_nat k + 1) with (Z.of_nat (S k)) by lia. replace (r + zlen (flat (take k ss)) + zlen (s ++ [0])) with (r + zlen (flat (take (S k) ss))) by lia. apply E; lia.
Qed.

(** The two words of a vector that is to be made. *)
Record room st live F (argz argz_len : Z) : Prop := {
  rm_inv : alloc_inv st live F;
  rm_ptr_own : forall x, word_cells argz x -> x ∈ F;
  rm_len_own : forall x, word_cells argz_len x -> x ∈ F;
  rm_apart : forall x, word_cells argz x -> ~ word_cells argz_len x;
  rm_ptr : long_aligned argz = true;
  rm_len : long_aligned argz_len = true }.

(** The outcome: the vector of [ss], or no block. *)
Definition created st live F argz argz_len ss (r : Z) st' : Prop :=
  alloc_inv st' (gets r (zlen (flat ss)) live) F /\ word_at (st_mem st') argz r /\ (ss = [] -> r = NULL) /\ (r <> NULL -> live !! r = None) /\
  (forall x, beside live F argz argz_len x -> st_mem st' !! x = st_mem st !! x) /\
  (r <> NULL \/ ss = [] -> argz_at st' (gets r (zlen (flat ss)) live) F argz argz_len r ss).

Lemma argv_valid m R argv ps ss : argv_in m R argv ps ss -> Forall (Forall nonzero_byte) ss.
Proof. intros [_ Hs]. induction Hs as [|p s ps ss Hp Hs IH]; constructor; [apply Hp|done]. Qed.

Lemma elem_zero argv : elem_at argv 0 = argv.
Proof. unfold elem_at. lia. Qed.

Lemma zero_fits : 0 <= 0 < 2 ^ long_bits.
Proof. destruct long_size_cases as [[_ ->]|[_ ->]]; lia. Qed.

Lemma argz_create_empty st live F argz argz_len argv ps :
  room st live F argz argz_len -> argv_in (st_mem st) (beside live F argz argz_len) argv ps [] ->
  exists st', (forall f, argz_create f argv argz argz_len st = Some (0, st')) /\ created st live F argz argz_len [] NULL st'.
Proof.
  intros [Hi Hpo Hlo Hap Hp Hl] Ha. destruct (store_own st live F argz_len 0 Hi Hlo Hl zero_fits) as (st1 & E1 & Hi1 & Hw1 & C1).
  assert (argv_in (st_mem st1) (beside live F argz argz_len) argv ps []) as Ha1 by (eapply argv_in_frame; [|done]; intros x (_ & _ & Hx); by apply (chg_out _ _ _ C1)).
  destruct (store_own st1 live F argz NULL Hi1 Hpo Hp zero_fits) as (st2 & E2 & Hi2 & Hw2 & C2). exists st2. split.
  - intros f. unfold argz_create. unfold bind at 1. rewrite E1. unfold bind at 1. pose proof (argv_end _ _ _ _ _ Ha1) as He. cbn [length Z.of_nat] in He. rewrite elem_zero in He.
    rewrite (load_ptr_eq _ _ _ He). change (NULL =? NULL) with true. unfold bind at 1. by rewrite E2.
  - assert (word_at (st_mem st2) argz_len 0) as Hw by (eapply word_chg; [exact C2|exact Hw1|intros x Hx Hy; by apply (Hap x Hy)]).
    unfold created. change (gets NULL _ live) with live. split_and!; try done.
    intros x (_ & H1 & H2). by rewrite (chg_out _ _ _ C2), (chg_out _ _ _ C1).
Qed.

Lemma argz_create_spec st live F argz argz_len argv ps ss :
  room st live F argz argz_len -> argv_in (st_mem st) (beside live F argz argz_len) argv ps ss -> zlen ss < 2 ^ 31 -> zlen (flat ss) < 2 ^ long_bits ->
  exists f0 r st', (forall f, (f0 <= f)%nat -> argz_create f argv argz argz_len st = Some (if decide (ss <> [] /\ r = NULL) then ENOMEM else 0, st')) /\
    created st live F argz argz_len ss r st'.
Proof.
  intros Hr Ha Hn Hb. destruct ss as [|s0 ss0].
  { destruct (argz_create_empty st live F argz argz_len argv ps Hr Ha) as (st' & E & X). exists 0%nat, NULL, st'. split; [intros f _; rewrite decide_False by tauto; apply E|done]. }
  set (ss := s0 :: ss0) in *. assert (ss <> []) as Hss by done. pose proof (flat_pos ss Hss) as Hpos. pose proof (argv_valid _ _ _ _ _ Ha) as Hv. destruct Hr as [Hi Hpo Hlo Hap Hp Hl].
  destruct (store_own st live F argz_len 0 Hi Hlo Hl zero_fits) as (st1 & E1 & Hi1 & Hw1 & C1). set (R := beside live F argz argz_len) in *.
  assert (forall x, R x -> ~ word_cells argz_len x) as HR by (by intros x (_ & _ & Hx)).
  assert (argv_in (st_mem st1) R argv ps ss) as Ha1 by (eapply argv_in_frame; [|done]; intros x Hx; by apply (chg_out _ _ _ C1), HR).
  destruct (create_size_loop live F argz_len argv ps ss R (length ss) Hlo HR Hn Hb eq_refl (length ss) 0 st1) as (st2 & E2 & Hi2 & Hw2 & C2); try done; [lia|].
  change (Z.of_nat 0) with 0 in E2. destruct (alloc_malloc st2 live F (zlen (flat ss)) Hi2 ltac:(lia)) as (f1 & r & st3 & E3 & Hi3 & Hnew & K3). pose proof (gets_range _ _ _ _ _ Hi3 Hpos) as Hrr.
  destruct (store_own st3 _ F argz r Hi3 Hpo Hp Hrr) as (st4 & E4 & Hi4 & Hw4 & C4).
  assert (forall x, R x -> st_mem st4 !! x = st_mem st !! x) as K4 by (intros x (Ho & Hx & Hy); by rewrite (chg_out _ _ _ C4), K3, (chg_out _ _ _ C2), (chg_out _ _ _ C1)).
  assert (word_at (st_mem st4) argz_len (zlen (flat ss))) as Hl4.
  { eapply word_chg; [exact C4| |intros x Hx Hy; by apply (Hap x Hy)]. eapply word_kept; [exact K3|intros x Hx; right; by apply Hlo|done]. }
  assert (forall f, (f1 + length (flat ss) + length ss < f)%nat -> argz_create f argv argz argz_len st =
    (if r =? NULL then ret ENOMEM else run loop (argz_create_copy_step f argv (zlen ss)) f (0, r); ret 0)%C st4) as E.
  { intros f Hf. unfold argz_create. unfold bind at 1. rewrite E1. unfold bind at 1. pose proof (proj1 Ha1 0%nat) as Hw. destruct ps as [|p0 ps]; [by apply proj2, Forall2_length in Ha1|].
    specialize (Hw p0 eq_refl). rewrite elem_zero in Hw. rewrite (load_ptr_eq _ _ _ (proj1 Hw)), (proj2 (Z.eqb_neq p0 NULL)) by (apply proj2, Forall2_cons_1 in Ha1 as [(X & _) _]; done).
    unfold bind at 1. rewrite (E2 f f) by lia. unfold bind at 1. rewrite (load_ptr_eq _ _ _ Hw2). unfold bind at 1. rewrite E3 by lia. unfold bind at 1. by rewrite E4. }
  destruct (Z.eqb_spec r NULL) as [Hrn|Hrn].
  - exists (S (f1 + length (flat ss) + length ss)), r, st4. split; [intros f Hf; rewrite E by lia; by rewrite decide_True|]. unfold created. split_and!; try done. by intros [?|?].
  - assert (gets r (zlen (flat ss)) live = <[r := zlen (flat ss)]> live) as Eg by (unfold gets; by rewrite (proj2 (Z.eqb_neq r NULL))). rewrite Eg in *. specialize (Hnew Hrn).
    assert (forall x, R x -> ~ r <= x < r + zlen (flat ss)) as HRr.
    { intros x (Ho & _). apply (owns_apart st3 live F NULL); [by rewrite (delete_null st live F)|by right|by rewrite (delete_null st live F)]. }
    destruct (create_copy_loop (<[r := zlen (flat ss)]> live) F argv ps ss R r (length ss) (lookup_insert_eq _ _ _) HRr eq_refl (length ss) 0 st4) as (st5 & E5 & Hi5 & Hb5 & C5); try done; try lia.
    { by eapply argv_in_frame. }
    { apply bytes_at_nil. }
    assert (forall p v, (forall x, word_cells p x -> x ∈ F) -> word_at (st_mem st4) p v -> word_at (st_mem st5) p v) as Hw5.
    { intros p v HF Hw. eapply (word_outside st4 _ F r (zlen (flat ss))); try done. apply lookup_insert_eq. }
    exists (S (f1 + length (flat ss) + length ss)), r, st5. split.
    + intros f Hf. rewrite E, decide_False by (tauto || lia). unfold bind. change (Z.of_nat 0) with 0 in E5. change (zlen (flat (take 0 ss))) with 0 in E5. rewrite Z.add_0_r in E5. by rewrite E5 by lia.
    + unfold created. rewrite Eg. split_and!; try done; [by apply Hw5|intros x Hx; rewrite (chg_out _ _ _ C5) by (by apply HRr); by apply K4|].
      intros _. split; try done; [by apply Hw5|by apply Hw5|]. rewrite decide_False by done. split; [apply lookup_insert_eq|done].
Qed.

(** ** argz_extract *)

Lemma elem_aligned argv i : long_aligned argv = true -> long_aligned (elem_at argv i) = true.
Proof. intros Ha. unfold elem_at. rewrite Z.mul_comm. by apply long_aligned_add. Qed.

Lemma elem_apart argv i j x : word_cells (elem_at argv i) x -> word_cells (elem_at argv j) x -> i = j.
Proof. unfold word_cells, elem_at. pose proof long_size_pos. intros Hi Hj. nia. Qed.

(** The pointers that the loop of argz_extract stores: not the first one, and not
    the second one when the first string is empty. *)
Definition stored (ts : list (list Z)) (i : nat) : Prop := (1 <= i <= length ts)%nat /\ (i = 1%nat -> ts !! 0%nat <> Some []).
Definition stored_cells argv ts (x : Z) : Prop := exists i, stored ts i /\ word_cells (elem_at argv (Z.of_nat i)) x.

Lemma stored_snoc ts s i : stored ts i -> stored (ts ++ [s]) i.
Proof. intros [Hi H1]. split; [rewrite length_app; lia|]. intros E. specialize (H1 E). destruct ts; [cbn in Hi; lia|done]. Qed.

Section extract.
Variables (live : gmap Z Z) (F : gset Z) (a n argv count : Z).
Hypothesis Hblock : live !! a = Some n.
Hypothesis Hown : forall i x, 0 <= i <= count -> word_cells (elem_at argv i) x -> x ∈ F.
Hypothesis Halign : long_aligned argv = true.

(** Down over the bytes of a string. *)
Lemma extract_skip st l : forall t g j, Forall nonzero_byte t -> bytes_at (st_mem st) a (l ++ t) -> l <> [] ->
  loop (argz_extract_step a argv count) (length t + g) (zlen l + zlen t - 1, j) st = loop (argz_extract_step a argv count) g (zlen l - 1, j) st.
Proof.
  induction t as [|b t IH] using rev_ind; intros g j Ht Hb Hl; [cbn [length Nat.add]; by rewrite Z.add_0_r|].
  apply Forall_app in Ht as [Ht [Hbz _]%Forall_cons]. rewrite app_assoc in Hb. apply bytes_at_app in Hb as [Hb Hb1]. apply bytes_at_cons in Hb1 as [Hb1 _].
  rewrite !length_app in *. cbn [length]. replace (length t + 1 + g)%nat with (S (length t + g)) by lia. rewrite loop_S. unfold argz_extract_step at 1.
  assert (0 < zlen l) by (destruct l; [done|cbn; lia]). rewrite (proj2 (Z.ltb_lt _ _)) by lia. unfold bind at 1.
  rewrite (load8_peek st _ b) by (rewrite <- Hb1; f_equal; lia). unfold nonzero_byte in Hbz. rewrite (proj2 (Z.eqb_neq b 0)) by lia. unfold ret at 1.
  rewrite <- (IH g j Ht Hb Hl). do 2 f_equal. lia.
Qed.

Lemma extract_first st : forall t g j, Forall nonzero_byte t -> bytes_at (st_mem st) a t -> t <> [] -> (length t <= g)%nat ->
  loop (argz_extract_step a argv count) g (zlen t - 1, j) st = Some (tt, st).
Proof.
  intros [|b t] g j Ht Hb Hn Hg; [done|]. cbn [length] in Hg. replace g with (length t + S (g - length t - 1))%nat by lia. apply Forall_cons in Ht as [_ Ht].
  replace (zlen (b :: t) - 1) with (zlen [b] + zlen t - 1) by (cbn; lia). rewrite (extract_skip st [b]) by done. done.
Qed.

Lemma extract_loop : forall ts s st j, Forall nonzero_byte s -> Forall (Forall nonzero_byte) ts -> bytes_at (st_mem st) a (flat ts ++ s) -> zlen (flat ts ++ s) < n ->
  (ts = [] -> s <> []) -> 0 <= j -> count = zlen ts + 1 + j -> alloc_inv st live F ->
  exists st', (forall g, (length (flat ts ++ s) < g)%nat -> loop (argz_extract_step a argv count) g (zlen (flat ts) + zlen s - 1, j) st = Some (tt, st')) /\
    alloc_inv st' live F /\ chg (stored_cells argv ts) (st_mem st) (st_mem st') /\
    forall i, stored ts i -> word_at (st_mem st') (elem_at argv (Z.of_nat i)) (a + zlen (flat (take i ts))).
Proof.
  induction ts as [|s' ts IH] using rev_ind; intros s st j Hs Hts Hb Hn Hne Hj Hc Hi.
  - exists st. split; [|split_and!; [done..|intros i [Hx _]; cbn in Hx; lia]]. intros g Hg. apply extract_first; [done..|by apply Hne|cbn in Hg; lia].
  - apply Forall_app in Hts as [Hts [Hs' _]%Forall_cons]. rewrite !length_app in Hn. assert (flat (ts ++ [s']) <> []) as Hf0 by (rewrite flat_nil; by destruct ts).
    assert (zlen (flat (ts ++ [s'])) = zlen (flat ts) + zlen s' + 1) as Ef by (rewrite flat_app, flat_one, !length_app; cbn; lia). destruct (alloc_block _ _ _ _ _ Hi Hblock) as (B1 & _ & _ & B4).
    assert (forall g, (length (flat (ts ++ [s']) ++ s) < g)%nat -> loop (argz_extract_step a argv count) g (zlen (flat (ts ++ [s'])) + zlen s - 1, j) st =
      loop (argz_extract_step a argv count) (S (g - length s - 1)) (zlen (flat ts) + zlen s', j) st) as E0.
    { intros g Hg. rewrite !length_app in Hg. replace g with (length s + S (g - length s - 1))%nat at 1 by lia. rewrite (extract_skip st (flat (ts ++ [s']))) by done. do 2 f_equal. lia. }
    destruct (decide (ts = [] /\ s' = [])) as [[-> ->]|Hnn].
    { exists st. split; [intros g Hg; by rewrite E0|]. split_and!; [done..|]. intros i [Hx Hy]. cbn in Hx. assert (i = 1%nat) as -> by lia. by destruct Hy. }
    assert (0 < zlen (flat ts) + zlen s') as Hpos by (destruct s'; [destruct ts; [tauto|pose proof (flat_pos (l :: ts) ltac:(done)); cbn in *; lia]|cbn; lia]).
    assert (zlen (ts ++ [s']) = zlen ts + 1) as Et by (rewrite length_app; cbn; lia).
    destruct (store_own st live F (elem_at argv (zlen ts + 1)) (a + zlen (flat (ts ++ [s']))) Hi) as (st1 & E1 & Hi1 & Hw1 & C1); [intros x; apply Hown; lia|by apply elem_aligned|lia|].
    assert (bytes_at (st_mem st1) a (flat (ts ++ [s']) ++ s)) as Hb1.
    { eapply chg_bytes; [exact C1|done|]. intros x Hx Hw. apply Hown in Hw; [|lia]. rewrite length_app in Hx. apply (proj2 (alloc_foreign _ _ _ _ Hi Hw) a n Hblock). lia. }
    destruct (IH s' st1 (j + 1)) as (st' & E & Hi' & C' & Hw'); try done; [|rewrite length_app; lia|tauto|lia|lia|].
    { apply bytes_at_app in Hb1 as [Hb1 _]. rewrite flat_app, flat_one, app_assoc in Hb1. by apply bytes_at_app in Hb1 as [Hb1 _]. }
    exists st'. split_and!; try done.
    + intros g Hg. rewrite E0 by done. rewrite loop_S. unfold argz_extract_step at 1. rewrite (proj2 (Z.ltb_lt _ _)) by done. unfold bind at 1.
      apply bytes_at_app in Hb as [Hb _]. rewrite flat_app, flat_one, app_assoc in Hb. apply bytes_at_app in Hb as [_ Hb]. apply bytes_at_cons in Hb as [Hb _]. rewrite length_app in Hb.
      rewrite (load8_peek st _ 0) by (rewrite <- Hb; f_equal; lia). cbn [Z.eqb]. replace (count - (j + 1)) with (zlen ts + 1) by lia. unfold bind at 1.
      replace (a + (zlen (flat ts) + zlen s') + 1) with (a + zlen (flat (ts ++ [s']))) by lia. rewrite E1. unfold ret at 1. apply E. rewrite !length_app in *. lia.
    + eapply chg_trans; [eapply chg_mono; [exact C1|]|eapply chg_mono; [exact C'|]].
      * intros x Hx. exists (S (length ts)). replace (Z.of_nat (S (length ts))) with (zlen ts + 1) by lia. split; [|done]. split; [rewrite length_app; cbn; lia|]. intros [=El]. destruct ts; [|done]. cbn. intros [= ->]. by apply Hnn.
      * intros x (i & Hx & Hc'). exists i. split; [by apply stored_snoc|done].
    + intros i [Hi1' Hi2']. destruct (decide (i = S (length ts))) as [->|Hne'].
      * rewrite take_ge by (rewrite length_app; cbn; lia). replace (Z.of_nat (S (length ts))) with (zlen ts + 1) by lia. eapply word_chg; [exact C'|exact Hw1|]. intros x Hx (k & [Hk _] & Hy). pose proof (elem_apart _ _ _ _ Hx Hy). lia.
      * rewrite length_app in Hi1'. cbn in Hi1'. rewrite take_app_le by lia. apply Hw'. split; [lia|]. intros E1'. specialize (Hi2' E1'). destruct ts; [cbn in *; lia|done].
Qed.
End extract.

(** The array after the call: the addresses of the entries and a null pointer; the
    second pointer is not set when the first entry is empty. *)
Definition extracted st a argv (ss : list (list Z)) st' : Prop :=
  word_at (st_mem st') (elem_at argv (zlen ss)) NULL /\
  (forall i s, ss !! i = Some s -> (i = 1%nat -> ss !! 0%nat <> Some []) -> word_at (st_mem st') (elem_at argv (Z.of_nat i)) (entry_at a ss i)) /\
  (forall s ss' x, ss = [] :: s :: ss' -> word_cells (elem_at argv 1) x -> st_mem st' !! x = st_mem st !! x).

Definition array_cells argv (count x : Z) : Prop := exists i, 0 <= i <= count /\ word_cells (elem_at argv i) x.

(** What is behind the loop: the first and the last pointer. *)
Lemma extract_ends st st1 live F a n argv ts s :
  live !! a = Some n -> 0 < n -> (forall x, array_cells argv (zlen (ts ++ [s])) x -> x ∈ F) -> long_aligned argv = true -> alloc_inv st1 live F ->
  chg (stored_cells argv ts) (st_mem st) (st_mem st1) -> (forall i, stored ts i -> word_at (st_mem st1) (elem_at argv (Z.of_nat i)) (a + zlen (flat (take i ts)))) ->
  exists st', (run store_ptr (elem_at argv 0) a; store_ptr (elem_at argv (zlen (ts ++ [s]))) NULL)%C st1 = Some (tt, st') /\ alloc_inv st' live F /\
    chg (array_cells argv (zlen (ts ++ [s]))) (st_mem st) (st_mem st') /\ extracted st a argv (ts ++ [s]) st'.
Proof.
  intros Hl Hn Hown Hal Hi C1 Hw. set (count := zlen (ts ++ [s])) in *. assert (count = zlen ts + 1) as Ec by (unfold count; rewrite length_app; cbn; lia).
  pose proof (block_range _ _ _ _ _ Hi Hl Hn) as Hr.
  destruct (store_own st1 live F (elem_at argv 0) a Hi) as (st2 & E2 & Hi2 & Hw2 & C2); [intros x Hx; apply Hown; exists 0; split; [lia|done]|by apply elem_aligned|done|].
  destruct (store_own st2 live F (elem_at argv count) NULL Hi2) as (st3 & E3 & Hi3 & Hw3 & C3); [intros x Hx; apply Hown; exists count; split; [lia|done]|by apply elem_aligned|apply zero_fits|].
  assert (forall i v, 0 < i < count -> word_at (st_mem st1) (elem_at argv i) v -> word_at (st_mem st3) (elem_at argv i) v) as Hkeep.
  { intros i v Hx Hv. eapply word_chg; [exact C3|eapply word_chg; [exact C2|done|]|]; intros x X1 X2; pose proof (elem_apart _ _ _ _ X1 X2); lia. }
  exists st3. split; [unfold bind; by rewrite E2|]. split_and!; try done.
  - eapply chg_trans; [eapply chg_mono; [exact C1|]|eapply chg_trans; eapply chg_mono; [exact C2| |exact C3|]].
    + intros x (i & [Hx _] & Hy). exists (Z.of_nat i). split; [lia|done].
    + intros x Hx. exists 0. split; [lia|done].
    + intros x Hx. exists count. split; [lia|done].
  - split_and!; [done| |].
    + intros i t Ht Hx. apply lookup_lt_Some in Ht as Hlt. rewrite length_app in Hlt. cbn in Hlt. unfold entry_at. destruct (decide (i = 0%nat)) as [->|Hne].
      * cbn [take flat map concat length Z.of_nat]. rewrite Z.add_0_r. eapply word_chg; [exact C3|exact Hw2|]. intros x X1 X2. pose proof (elem_apart _ _ _ _ X1 X2). lia.
      * rewrite take_app_le by lia. apply Hkeep; [lia|]. apply Hw. split; [lia|]. intros Ei. specialize (Hx Ei). destruct ts; [cbn in *; lia|done].
    + intros t ss' x Ess Hx. assert (ts <> []) as Hts by (intros ->; by destruct ss'). rewrite (chg_out _ _ _ C3), (chg_out _ _ _ C2); [apply (chg_out _ _ _ C1)|..].
      * intros (i & [Hs1 Hs2] & Hy). pose proof (elem_apart _ _ _ _ Hx Hy). assert (i = 1%nat) as -> by lia. destruct ts; [done|]. injection Ess as -> _. by destruct Hs2.
      * intros Hy. pose proof (elem_apart _ _ _ _ Hx Hy). lia.
      * intros Hy. pose proof (elem_apart _ _ _ _ Hx Hy). destruct ts; [done|]. cbn [length] in Ec. lia.
Qed.

Lemma argz_extract_spec st live F argz argz_len a ss argv :
  argz_at st live F argz argz_len a ss -> ss <> [] -> (forall x, array_cells argv (zlen ss) x -> x ∈ F) -> long_aligned argv = true ->
  exists st', (forall f, (length (flat ss) < f)%nat -> argz_extract f a (zlen (flat ss)) argv st = Some (tt, st')) /\ alloc_inv st' live F /\
    chg (array_cells argv (zlen ss)) (st_mem st) (st_mem st') /\ extracted st a argv ss st'.
Proof.
  intros [Hi _ _ _ _ _ Hv Hb] Hss Hown Hal. rewrite decide_False in Hb by done. destruct Hb as [Hl Hb]. pose proof (flat_pos ss Hss) as Hpos.
  assert (forall f, (length (flat ss) < f)%nat -> argz_count f a (zlen (flat ss)) st = Some (zlen ss, st)) as Ec by (intros f Hf; by apply argz_count_spec).
  destruct (exists_last Hss) as (ts & s & ->). pose proof Hv as [Hvt [Hvs _]%Forall_cons]%Forall_app.
  assert (flat (ts ++ [s]) = (flat ts ++ s) ++ [0]) as Ef by by rewrite flat_app, flat_one, app_assoc. pose proof (f_equal length Ef) as El. rewrite !length_app in El. cbn [length] in El.
  assert (exists st1, (forall f, (length (flat (ts ++ [s])) < f)%nat ->
     (if 1 <? zlen (flat (ts ++ [s])) then loop (argz_extract_step a argv (zlen (ts ++ [s]))) f (zlen (flat (ts ++ [s])) - 2, 0) else ret tt)%C st = Some (tt, st1)) /\ alloc_inv st1 live F /\
     chg (stored_cells argv ts) (st_mem st) (st_mem st1) /\ forall i, stored ts i -> word_at (st_mem st1) (elem_at argv (Z.of_nat i)) (a + zlen (flat (take i ts)))) as (st1 & E1 & Hi1 & C1 & Hw1).
  { destruct (Z.ltb_spec 1 (zlen (flat (ts ++ [s])))) as [Hlt|Hge].
    - destruct (extract_loop live F a (zlen (flat (ts ++ [s]))) argv (zlen (ts ++ [s])) Hl) with (ts := ts) (s := s) (st := st) (j := 0) as (st1 & E & X); try done.
      + intros i x Hx Hy. apply Hown. by exists i.
      + rewrite Ef in Hb. by apply bytes_at_app in Hb as [Hb _].
      + rewrite length_app. lia.
      + intros -> ->. cbn in Hlt. lia.
      + rewrite length_app. cbn. lia.
      + exists st1. split; [|done]. intros f Hf. replace (zlen (flat (ts ++ [s])) - 2) with (zlen (flat ts) + zlen s - 1) by lia. apply E. rewrite length_app. lia.
    - assert (ts = []) as -> by (apply flat_nil; destruct (flat ts); [done|cbn in El; lia]). exists st. split; [done|]. split_and!; [done..|]. intros i [Hx _]. cbn in Hx. lia. }
  destruct (extract_ends st st1 live F a _ argv ts s Hl Hpos Hown Hal Hi1 C1 Hw1) as (st' & E' & X). exists st'. split; [|done].
  intros f Hf. unfold argz_extract. unfold bind at 1. rewrite Ec by done. unfold bind at 1. rewrite E1 by done. exact E'.
Qed.
End array.
