(* ===== verification/ArgzProps.v ===== *)
(** * Argument vectors: what they guarantee

    The theorems on libc/argz, for any allocator behind the interface of Alloc,
    evaluated with the allocator of libc/stdlib; and the inputs on which the
    functions do not do what they are for. *)

From stdpp Require Import base list gmap.
From Stdlib Require Import ZArith Lia.
From S2P Require Import Prelude CMem CInt StrLocal StrMem StrStr Demo Malloc MallocList MallocHeap MallocSys MallocProps Alloc Argz ArgzSpec ArgzArray.

Local Open Scope Z_scope.

Section guarantees.
Context `{Arch} {St : Type} `{AllocOps St} {AOk : AllocOk St}.
Implicit Types (st : St) (live : gmap Z Z) (F : gset Z).

(** The calls that change a vector: the pointers they are given and the strings
    that are there. *)
Inductive argz_op :=
| Add (str : Z) (s : list Z)
| Append (buf : Z) (ts : list (list Z))
| InsertBefore (i j : nat) (entry : Z) (e : list Z)
| Delete (i : nat).

Definition exec_argz (f : nat) (argz argz_len a : Z) (ss : list (list Z)) (op : argz_op) : C St Z :=
  match op with
  | Add str s => argz_add f argz argz_len str
  | Append buf ts => argz_append f argz argz_len buf (zlen (flat ts))
  | InsertBefore i j entry e => argz_insert f argz argz_len (entry_at a ss i + Z.of_nat j) entry
  | Delete i => argz_delete f argz argz_len (entry_at a ss i)
  end.

(** The list after the call. *)
Definition apply_argz (ss : list (list Z)) (op : argz_op) : list (list Z) :=
  match op with
  | Add _ s => ss ++ [s]
  | Append _ ts => ss ++ ts
  | InsertBefore i _ _ e => take i ss ++ e :: drop i ss
  | Delete i => take i ss ++ drop (S i) ss
  end.

(** A string of the client's memory outside of the vector. *)
Definition string_outside st live F argz argz_len a p s : Prop :=
  p <> NULL /\ Forall nonzero_byte s /\ source st live F argz argz_len a p (s ++ [0]) /\ word_tail_mapped (st_mem st) (p + zlen s) /\ zlen s < 2 ^ 31 - 1.

Definition legal_argz st live F argz argz_len a (ss : list (list Z)) (op : argz_op) : Prop :=
  zlen (flat (apply_argz ss op)) < 2 ^ long_bits /\
  match op with
  | Add str s => string_outside st live F argz argz_len a str s
  | Append buf ts => ts <> [] /\ Forall (Forall nonzero_byte) ts /\ source st live F argz argz_len a buf (flat ts)
  | InsertBefore i j entry e => (exists s, ss !! i = Some s /\ (j <= length s)%nat) /\ string_outside st live F argz argz_len a entry e
  | Delete i => exists s, ss !! i = Some s /\ zlen s < 2 ^ 31 - 1
  end.

(** C31: argz_add, argz_append, argz_insert and argz_delete return, and the result is
    0 exactly when the pointer that is left is not null; the vector is then the one
    of the list with the strings added, inserted or removed.  When nothing remains
    the vector is the empty one, and the result ENOMEM. *)
Theorem argz_edit_correct st live F argz argz_len a ss op :
  argz_at st live F argz argz_len a ss -> legal_argz st live F argz argz_len a ss op ->
  exists f0 r st' live', (forall f, (f0 <= f)%nat -> exec_argz f argz argz_len a ss op st = Some (if r =? NULL then ENOMEM else 0, st')) /\
    alloc_inv st' live' F /\ word_at (st_mem st') argz r /\
    (r <> NULL -> argz_at st' live' F argz argz_len r (apply_argz ss op)) /\
    (apply_argz ss op = [] -> r = NULL /\ argz_at st' live' F argz argz_len NULL []).
Proof.
  intros Hz [Hn Hl]. destruct op as [str s|buf ts|i j entry e|i]; cbn [exec_argz apply_argz] in *.
  - destruct Hl as (L1 & L2 & L3 & L4 & L5). destruct (argz_add_spec st live F argz argz_len a ss str s) as (f0 & r & st' & live' & E & (X1 & X2 & _) & Hr); try done.
    exists f0, r, st', live'. split_and!; try done. by intros []%app_eq_nil.
  - destruct Hl as (L1 & L2 & L3). destruct (argz_append_spec st live F argz argz_len a ss buf ts) as (f0 & r & st' & live' & E & (X1 & X2 & _) & Hr); try done.
    exists f0, r, st', live'. split_and!; try done. by intros []%app_eq_nil.
  - destruct Hl as [(s & Hs & Hj) (L1 & L2 & L3 & L4 & L5)].
    assert (zlen (flat (take i ss ++ e :: drop i ss)) = zlen (flat ss) + zlen e + 1) as El by (rewrite <- (take_drop i ss) at 3; rewrite !flat_app, flat_cons, !length_app; cbn [length]; lia).
    destruct (argz_insert_spec st live F argz argz_len a ss i s j entry e) as (f0 & r & st' & live' & E & X); try done; [lia|]. exists f0, r, st', live'. unfold inserted in X. split; [done|].
    destruct (Z.eqb_spec r NULL) as [->|Hr]; [destruct X as (X1 & X2 & X3 & X4); split_and!; try done; by destruct (take i ss)|]. destruct X as [X _]. split_and!; [apply X|apply X|done|by destruct (take i ss)].
  - destruct Hl as (s & Hs & L). destruct (argz_delete_spec st live F argz argz_len a ss i s) as (f0 & r & st' & live' & E & X); try done. exists f0, r, st', live'. split; [done|].
    unfold deleted in X. fold (remaining ss i). destruct (decide (remaining ss i = [])) as [Et|Et].
    + destruct X as (-> & X & _). split_and!; [apply X|apply X|done|done].
    + destruct (Z.eqb_spec r NULL) as [->|Hr]; [destruct X as (X1 & X2 & X3 & X4); by split_and!|]. destruct X as [X _]. split_and!; [apply X|apply X|done|done].
Qed.

(** Argz_count is the number of strings; argz_next, from NULL on, visits the
    entries in order and ends; argz_stringify leaves the strings joined by the
    separator as one string in the block and nothing else changed. *)
Theorem argz_read_correct st live F argz argz_len a ss sep f :
  argz_at st live F argz argz_len a ss -> ss <> [] -> 0 <= sep < 256 -> (length (flat ss) < f)%nat ->
  argz_count f a (zlen (flat ss)) st = Some (zlen ss, st) /\
  argz_next f a (zlen (flat ss)) NULL st = Some (entry_at a ss 0, st) /\
  (forall i s, ss !! i = Some s -> cstr (st_mem st) (entry_at a ss i) s /\
    argz_next f a (zlen (flat ss)) (entry_at a ss i) st = Some (if decide (S i < length ss)%nat then entry_at a ss (S i) else NULL, st)) /\
  exists st', argz_stringify f a (zlen (flat ss)) sep st = Some (tt, st') /\ alloc_inv st' live F /\ bytes_at (st_mem st') a (join sep ss ++ [0]) /\
    forall x, ~ a <= x < a + zlen (flat ss) -> st_mem st' !! x = st_mem st !! x.
Proof.
  intros Hz Hss Hsep Hf. pose proof Hz as [Hi _ _ _ _ _ Hst Hb]. rewrite decide_False in Hb by done. destruct Hb as [Hl Hb]. destruct (alloc_block _ _ _ _ _ Hi Hl) as (Ha & _).
  destruct (argz_next_spec st a ss f Ha Hb Hst Hf) as [N1 N2]. rewrite decide_False in N1 by done. split_and!; [by apply argz_count_spec| | |by eapply argz_stringify_spec].
  - rewrite N1. unfold entry_at. cbn. by rewrite Z.add_0_r.
  - intros i s Hs. split; [by eapply entry_string|by eapply N2].
Qed.

(** C32: argz_create returns for every array of strings that ends with a null pointer:
    with ENOMEM and a null pointer, or with the vector of the strings; it changes
    nothing else of the client.  argz_extract then sets another array to the entries
    of that vector, which hold the strings, and a null pointer; it leaves the second
    pointer as it was when the first string is empty. *)
Theorem argz_array_roundtrip st live F argz argz_len argv ps ss argv2 :
  room st live F argz argz_len -> argv_in (st_mem st) (beside live F argz argz_len) argv ps ss -> zlen ss < 2 ^ 31 -> zlen (flat ss) < 2 ^ long_bits ->
  (forall x, array_cells argv2 (zlen ss) x -> x ∈ F) -> long_aligned argv2 = true ->
  exists f0 r st', (forall f, (f0 <= f)%nat -> argz_create f argv argz argz_len st = Some (if decide (ss <> [] /\ r = NULL) then ENOMEM else 0, st')) /\
    created st live F argz argz_len ss r st' /\
    (r <> NULL -> exists st2, (forall f, (f0 <= f)%nat -> argz_extract f r (zlen (flat ss)) argv2 st' = Some (tt, st2)) /\
      chg (array_cells argv2 (zlen ss)) (st_mem st') (st_mem st2) /\ extracted st' r argv2 ss st2 /\
      forall i s, ss !! i = Some s -> cstr (st_mem st2) (entry_at r ss i) s).
Proof.
  intros Hr Ha Hn Hb Hown Hal. destruct (argz_create_spec st live F argz argz_len argv ps ss Hr Ha Hn Hb) as (f0 & r & st' & E & X).
  exists (Nat.max f0 (S (length (flat ss)))), r, st'. split_and!; [intros f Hf; apply E; lia|done|]. intros Hnz.
  destruct X as (_ & _ & Hnil & _ & _ & Hz). specialize (Hz (or_introl Hnz)). assert (ss <> []) as Hss by (intros ->; by apply Hnz, Hnil).
  destruct (argz_extract_spec st' _ F argz argz_len r ss argv2 Hz Hss Hown Hal) as (st2 & E2 & Hi2 & C2 & X2). exists st2. split_and!; [intros f Hf; apply E2; lia|done|done|].
  intros i s Hs. destruct Hz as [Hi _ _ _ _ _ Hv Hbl]. rewrite decide_False in Hbl by done. destruct Hbl as [Hl Hbl]. eapply entry_string; [|done..]. eapply chg_bytes; [done..|].
  intros x Hx Hc. by apply (proj2 (alloc_foreign _ _ _ _ Hi (Hown x Hc)) r _ Hl).
Qed.
End guarantees.

(** ** A concrete state *)

Section witnesses.
#[local] Existing Instance LP64.
#[local] Existing Instance demo_target.
#[local] Existing Instance demo_sbrk.
#[local] Existing Instance demo_sbrk_ok.

(** The pointer at 64 and the length at 72, both zero, a string at 96, and an array
    at 112 with its address. *)
Definition argz_bytes_mem : mem := put_bytes (put_bytes (put_bytes ∅ 64 (replicate 64 0)) 96 (hello ++ [0])) 112 (bytes_of_word 96).
Definition argz_set : gset Z := dom argz_bytes_mem.
Definition argz_heap0 : heap Z := with_mem heap0 (hmem heap0 ∪ argz_bytes_mem).

Lemma argz_heap0_alloc : alloc_inv argz_heap0 ∅ argz_set.
Proof.
  exists (hmem heap0), argz_bytes_mem. split_and!; [done| |done|eval_mem|].
  - apply (bool_decide_eq_true_1 _). vm_compute. reflexivity.
  - exists [], ∅. split; [|by split]. change (with_mem argz_heap0 (hmem heap0)) with heap0. apply heap0_inv.
Qed.

Lemma argz_set_range a : 64 <= a < 128 -> a ∈ argz_set.
Proof. intros Ha. apply elem_of_dom. assert (mapped argz_bytes_mem 64 64) as Hm by eval_mem. apply Hm. lia. Qed.

Lemma argz_heap0_at : argz_at argz_heap0 ∅ argz_set 64 72 NULL [].
Proof.
  split; [apply argz_heap0_alloc|intros x Hx; apply argz_set_range..|intros x Hx Hy| | |constructor|by rewrite decide_True].
  1,2,3: unfold word_cells in *; change (Z.of_nat long_size) with 8 in *; lia.
  all: apply word_at_check; vm_compute; reflexivity.
Qed.

Lemma argz_hello_outside : string_outside argz_heap0 ∅ argz_set 64 72 NULL 96 hello.
Proof.
  split_and!; [done|repeat constructor; done| |eval_mem|done]. split; [eval_mem|intros x Hx..]; change (zlen (hello ++ [0])) with 12 in Hx.
  - right. apply argz_set_range. lia.
  - unfold word_cells. change (Z.of_nat long_size) with 8. lia.
  - unfold word_cells. change (Z.of_nat long_size) with 8. lia.
Qed.

Lemma argz_hello_legal : legal_argz argz_heap0 ∅ argz_set 64 72 NULL [] (Add 96 hello).
Proof. split; [done|apply argz_hello_outside]. Qed.

(** The vector of that string. *)
Definition argz_heap1 : heap Z := match argz_add 99 64 72 96 argz_heap0 with Some (_, h) => h | None => argz_heap0 end.

Lemma argz_heap1_eq : argz_add 99 64 72 96 argz_heap0 = Some (0, argz_heap1).
Proof. vm_compute. reflexivity. Qed.

Lemma argz_heap1_ptr : word_at (st_mem argz_heap1) 64 4112.
Proof. apply word_at_check. vm_compute. reflexivity. Qed.

Lemma strlen_mono str : mono (fun f => strlen f str).
Proof. unfold strlen, nul_align, nul_words, nul_up. mono_solve. Qed.
Hint Resolve strlen_mono : fuel.

Lemma argz_add_heap_mono argz argz_len str : mono (fun f => argz_add (S := heap Z) f argz argz_len str).
Proof.
  pose proof (fun p n => realloc_mono (B := Z) p n) as Hr. pose proof (fun d s n => memcpy_mono d s n) as Hc. cbn in Hc.
  unfold argz_add, argz_extend. cbn [op_realloc heap_alloc]. mono_solve.
Qed.

Lemma word_at_fun m a v w : word_at m a v -> word_at m a w -> v = w.
Proof. intros Hv Hw. pose proof (load_word _ _ _ Hv) as E. rewrite (load_word _ _ _ Hw) in E. congruence. Qed.

Lemma argz_heap1_at : argz_at argz_heap1 {[4112 := 12]} argz_set 64 72 4112 [hello].
Proof.
  destruct argz_hello_outside as (L1 & L2 & L3 & L4 & L5).
  destruct (argz_add_spec _ _ _ _ _ _ _ 96 hello argz_heap0_at) as (f0 & r & st' & live' & E & X & Hr); try done.
  pose proof (mono_det _ _ _ _ _ _ (argz_add_heap_mono 64 72 96) argz_heap1_eq (E f0 (Nat.le_refl f0))) as Ep. apply pair_equal_spec in Ep as [Er Es]. rewrite <- Es in *. clear Es E.
  destruct (Z.eqb_spec r NULL) as [->|Hn]; [done|]. destruct X as (_ & X2 & _ & _ & X). rewrite (proj2 (Z.eqb_neq r NULL)) in X by done. destruct X as (-> & _).
  pose proof (word_at_fun _ _ _ _ X2 argz_heap1_ptr) as Er'. clear Er X2. subst r. apply Hr. discriminate.
Qed.

Lemma argz_edit_witness :
  exists f0 r st' live', (forall f, (f0 <= f)%nat -> argz_add f 64 72 96 argz_heap0 = Some (if r =? NULL then ENOMEM else 0, st')) /\
    (r <> NULL -> argz_at st' live' argz_set 64 72 r [hello]).
Proof.
  destruct (argz_edit_correct argz_heap0 ∅ argz_set 64 72 NULL [] (Add 96 hello)) as (f0 & r & st' & live' & E & _ & _ & Hr & _).
  - apply argz_heap0_at.
  - apply argz_hello_legal.
  - exists f0, r, st', live'. by split.
Defined.

Lemma argz_read_witness :
  argz_count 15 4112 (zlen (flat [hello])) argz_heap1 = Some (1, argz_heap1) /\
  argz_next 15 4112 (zlen (flat [hello])) NULL argz_heap1 = Some (entry_at 4112 [hello] 0, argz_heap1).
Proof.
  destruct (argz_read_correct argz_heap1 {[4112 := 12]} argz_set 64 72 4112 [hello] 58 15) as (Hc & Hn & _).
  - exact argz_heap1_at.
  - discriminate.
  - lia.
  - cbn. lia.
  - exact (conj Hc Hn).
Defined.

Lemma argz_heap0_room : room argz_heap0 ∅ argz_set 64 72.
Proof. pose proof argz_heap0_at as [X1 X2 X3 X4 X5 X6 _ _]. split; [exact X1|exact X2|exact X3|exact X4|reflexivity|reflexivity]. Qed.

Lemma argz_beside x : 80 <= x < 128 -> beside ∅ argz_set 64 72 x.
Proof. intros Hx. split; [right; apply argz_set_range; lia|]. unfold word_cells. change (Z.of_nat long_size) with 8. lia. Qed.

Lemma argz_heap0_array : argv_in (st_mem argz_heap0) (beside ∅ argz_set 64 72) 112 [96] [hello].
Proof.
  split.
  - intros i p Hp. destruct i as [|[|i]]; [injection Hp as <-|injection Hp as <-|done].
    1,2: split; [apply word_at_check; vm_compute; reflexivity|]; intros x Hx; apply argz_beside; revert Hx; unfold elem_at, word_cells; change (Z.of_nat long_size) with 8; lia.
  - constructor; [|constructor]. destruct argz_hello_outside as (L1 & L2 & L3 & L4 & _). split_and!; [done|split; [done|apply L3]|done|..].
    + intros x Hx. change (zlen hello) with 11 in Hx. apply argz_beside. lia.
    + change (zlen hello) with 11. change (Z.of_nat long_size) with 8. intros x Hx Hd. apply argz_beside. change ((96 + 11) / 8) with 13 in Hd. pose proof (Z.div_mod x 8). pose proof (Z.mod_pos_bound x 8). lia.
Qed.

Lemma argz_array_witness :
  exists f0 r st', (forall f, (f0 <= f)%nat -> argz_create f 112 64 72 argz_heap0 = Some (if decide ([hello] <> [] /\ r = NULL) then ENOMEM else 0, st')) /\
    created argz_heap0 ∅ argz_set 64 72 [hello] r st'.
Proof.
  destruct (argz_array_roundtrip argz_heap0 ∅ argz_set 64 72 112 [96] [hello] 80) as (f0 & r & st' & E & X & _).
  - exact argz_heap0_room.
  - exact argz_heap0_array.
  - reflexivity.
  - reflexivity.
  - intros x (i & Hi & Hx). revert Hi Hx. unfold word_cells, elem_at. change (zlen [hello]) with 1. change (Z.of_nat long_size) with 8. intros Hi Hx. apply argz_set_range. lia.
  - reflexivity.
  - exists f0, r, st'. exact (conj E X).
Defined.

(** *** Where the functions do not do what they are for *)

(** A block with the entries of an environment vector, its address at 64 and its
    length at 72, and a name at 80. *)
Definition envz_heap (ss : list (list Z)) (name : list Z) : heap Z :=
  match argz_append 99 64 72 96 (zlen (flat ss)) (with_mem heap0 (put_bytes (put_bytes (hmem heap0 ∪ put_bytes ∅ 64 (replicate 64 0)) 96 (flat ss)) 80 (name ++ [0]))) with
  | Some (_, h) => h
  | None => heap0
  end.

(** The name is found inside another one: with the entry XPATH=1, envz_get gives a
    value for PATH. *)
Example envz_get_inside :
  let h := envz_heap [[88; 80; 65; 84; 72; 61; 49]] [80; 65; 84; 72] in
  option_map fst (envz_get 99 4112 8 80 h) = Some 4118 /\ option_map fst (envz_entry 99 4112 8 80 h) = Some 4112.
Proof. vm_compute. done. Qed.

(** The entry behind a removed one is not looked at: of A, B and C=1 without values
    for A and B, envz_strip removes A only. *)
Example envz_strip_skips :
  match envz_strip 99 64 72 (envz_heap [[65]; [66]; [67; 61; 49]] []) with
  | Some (_, h) => bytes_atb (hmem h) 72 (bytes_of_word 6) && bytes_atb (hmem h) 4112 [66; 0; 67; 61; 49; 0]
  | None => false
  end = true.
Proof. vm_compute. done. Qed.
End witnesses.
