(* ===== verification/Exit.v ===== *)
(** * Exit handlers (libc/stdlib/exitprocs.c, quick-exit.c and the calls above them)

    Two tables of a fixed size hold the functions to be called when the program
    ends.  The functions are the program's: a function is what it does with the
    rest of the program's state and the handlers it registers itself. *)

From stdpp Require Import base list.
From Stdlib Require Import ZArith Lia.
From S2P Require Import Prelude CMem.

Local Open Scope Z_scope.

(** ** local-onexit.h *)

Inductive pico_onexit_kind :=
| PICO_ONEXIT_EMPTY
| PICO_ONEXIT_ONEXIT
| PICO_ONEXIT_ATEXIT
| PICO_ONEXIT_CXA_ATEXIT.

Inductive pico_quick_exit_kind :=
| PICO_QUICK_EXIT_EMPTY
| PICO_QUICK_EXIT_ATEXIT
| PICO_QUICK_EXIT_CXA_ATEXIT.

#[global] Instance pico_onexit_kind_eq : EqDecision pico_onexit_kind.
Proof. solve_decision. Defined.
#[global] Instance pico_quick_exit_kind_eq : EqDecision pico_quick_exit_kind.
Proof. solve_decision. Defined.

(** ** A table of handlers *)

(** An element of on_exits or of quick_exits. *)
Record on_exit_slot (K : Type) := Slot { sl_func : Z; sl_arg : Z; sl_kind : K }.
#[global] Arguments Slot {K}.
#[global] Arguments sl_func {K}.
#[global] Arguments sl_arg {K}.
#[global] Arguments sl_kind {K}.

Section table.
Context {K : Type} `{EqDecision K}.
Variable EMPTY : K.
Implicit Types (tab : list (on_exit_slot K)).

Definition vacant (s : on_exit_slot K) : bool := bool_decide (sl_kind s = EMPTY).

(** The slot after memset: the kind of an empty slot is the number zero. *)
Definition cleared : on_exit_slot K := Slot 0 0 EMPTY.

(** The loop that looks for an empty slot, from the slot [o] on. *)
Fixpoint free_slot tab (o : nat) : option nat :=
  match tab with
  | [] => None
  | s :: tab => if vacant s then Some o else free_slot tab (S o)
  end.

Definition put_handler (kind : K) (func arg : Z) tab : Z * list (on_exit_slot K) :=
  match free_slot tab 0 with
  | Some o => (0, <[o := Slot func arg kind]> tab)
  | None => (-1, tab)
  end.

(** The loop that looks for a handler, below the slot [i]. *)
Fixpoint last_slot tab (i : nat) : option (nat * on_exit_slot K) :=
  match i with
  | O => None
  | S i =>
      match tab !! i with
      | Some s => if vacant s then last_slot tab i else Some (i, s)
      | None => None
      end
  end.

(** The handler to be called, which is removed; [cleared] when there is none. *)
Definition take_handler tab : on_exit_slot K * list (on_exit_slot K) :=
  match last_slot tab (length tab) with
  | Some (i, s) => (s, <[i := cleared]> tab)
  | None => (cleared, tab)
  end.
End table.

Abbreviation on_slot := (on_exit_slot pico_onexit_kind).
Abbreviation quick_slot := (on_exit_slot pico_quick_exit_kind).

(** ** The calls *)

Section exit.
Context {W : Type}.

(** The two tables and the rest of the program's state. *)
Record estate := Estate { on_exits : list on_slot; quick_exits : list quick_slot; world : W }.

Definition _on_exit (kind : pico_onexit_kind) (func arg : Z) : C estate Z := fun s =>
  let '(r, tab) := put_handler PICO_ONEXIT_EMPTY kind func arg (on_exits s) in
  Some (r, Estate tab (quick_exits s) (world s)).

Definition atexit (func : Z) : C estate Z := _on_exit PICO_ONEXIT_ATEXIT func NULL.
Definition on_exit (func arg : Z) : C estate Z := _on_exit PICO_ONEXIT_ONEXIT func arg.
Definition __cxa_atexit (func arg d : Z) : C estate Z := _on_exit PICO_ONEXIT_CXA_ATEXIT func arg.

Definition _at_quick_exit (kind : pico_quick_exit_kind) (func arg : Z) : C estate Z := fun s =>
  let '(r, tab) := put_handler PICO_QUICK_EXIT_EMPTY kind func arg (quick_exits s) in
  Some (r, Estate (on_exits s) tab (world s)).

Definition at_quick_exit (func : Z) : C estate Z := _at_quick_exit PICO_QUICK_EXIT_ATEXIT func NULL.
Definition __cxa_at_quick_exit (func arg d : Z) : C estate Z := _at_quick_exit PICO_QUICK_EXIT_CXA_ATEXIT func arg.

(** *** The program's functions *)

(** A registration. *)
Inductive reg :=
| R_atexit (func : Z)
| R_on_exit (func arg : Z)
| R_cxa_atexit (func arg d : Z)
| R_at_quick_exit (func : Z)
| R_cxa_at_quick_exit (func arg d : Z).

Definition exec_reg (r : reg) : C estate Z :=
  match r with
  | R_atexit func => atexit func
  | R_on_exit func arg => on_exit func arg
  | R_cxa_atexit func arg d => __cxa_atexit func arg d
  | R_at_quick_exit func => at_quick_exit func
  | R_cxa_at_quick_exit func arg d => __cxa_at_quick_exit func arg d
  end.

(** What a function does: it looks at the program's state, changes it, and registers
    handlers, whose results it may look at. *)
Inductive prog :=
| Return
| Look (k : W -> prog)
| Put (w : W) (k : prog)
| Register_ (r : reg) (k : Z -> prog).

Fixpoint exec_prog (p : prog) : C estate unit :=
  match p with
  | Return => ret tt
  | Look k => fun s => exec_prog (k (world s)) s
  | Put w k => fun s => exec_prog k (Estate (on_exits s) (quick_exits s) w)
  | Register_ r k => fun s => match exec_reg r s with Some (z, s) => exec_prog (k z) s | None => None end
  end.

(** A call of a function at an address, with its arguments. *)
Inductive handler_call :=
| Call_on_exit (func code arg : Z)
| Call_atexit (func : Z)
| Call_cxa_atexit (func arg : Z)
| Call_destructor (func : Z).

(** The functions of the program. *)
Variable text : handler_call -> prog.

(** *** exitprocs.c *)

Definition take_on_exit : C estate on_slot := fun s =>
  let '(e, tab) := take_handler PICO_ONEXIT_EMPTY (on_exits s) in Some (e, Estate tab (quick_exits s) (world s)).

Definition call_exitprocs_step (code : Z) (_ : unit) : C estate (unit + unit) :=
  do e <- take_on_exit;
  match sl_kind e with
  | PICO_ONEXIT_EMPTY => ret (inr tt)
  | PICO_ONEXIT_ONEXIT => run exec_prog (text (Call_on_exit (sl_func e) code (sl_arg e))); ret (inl tt)
  | PICO_ONEXIT_ATEXIT => run exec_prog (text (Call_atexit (sl_func e))); ret (inl tt)
  | PICO_ONEXIT_CXA_ATEXIT => run exec_prog (text (Call_cxa_atexit (sl_func e) (sl_arg e))); ret (inl tt)
  end.

Definition __call_exitprocs (fuel : nat) (code : Z) : C estate unit := loop (call_exitprocs_step code) fuel tt.

(** *** quick-exit.c *)

Definition take_quick_exit : C estate quick_slot := fun s =>
  let '(e, tab) := take_handler PICO_QUICK_EXIT_EMPTY (quick_exits s) in Some (e, Estate (on_exits s) tab (world s)).

(** The result is the status that is given to _Exit. *)
Definition quick_exit_step (code : Z) (_ : unit) : C estate (unit + Z) :=
  do e <- take_quick_exit;
  match sl_kind e with
  | PICO_QUICK_EXIT_EMPTY => ret (inr code)
  | PICO_QUICK_EXIT_ATEXIT => run exec_prog (text (Call_atexit (sl_func e))); ret (inl tt)
  | PICO_QUICK_EXIT_CXA_ATEXIT => run exec_prog (text (Call_cxa_atexit (sl_func e) (sl_arg e))); ret (inl tt)
  end.

Definition quick_exit (fuel : nat) (code : Z) : C estate Z := loop (quick_exit_step code) fuel tt.

(** *** exit.c, misc/fini.c *)

(** An element of the array of destructors, where the linker puts __call_exitprocs. *)
Inductive fini_fn :=
| Exitprocs
| Destructor (func : Z).

(** In the builds with that array __call_exitprocs has no arguments, and code is zero. *)
Definition call_fini (fuel : nat) (fn : fini_fn) : C estate unit :=
  match fn with
  | Exitprocs => __call_exitprocs fuel 0
  | Destructor func => exec_prog (text (Call_destructor func))
  end.

Fixpoint fini_loop (fuel : nat) (fns : list fini_fn) : C estate unit :=
  match fns with
  | [] => ret tt
  | fn :: fns => run call_fini fuel fn; fini_loop fuel fns
  end.

(** From the end of the array to its start. *)
Definition __libc_fini_array (fuel : nat) (fini_array : list fini_fn) : C estate unit := fini_loop fuel (rev fini_array).

(** The array is there in the builds that have __INIT_FINI_ARRAY.  The result is the
    status that is given to _exit. *)
Definition exit (fuel : nat) (fini_array : option (list fini_fn)) (code : Z) : C estate Z :=
  run (match fini_array with
       | Some fns => __libc_fini_array fuel fns
       | None => __call_exitprocs fuel code
       end);
  ret code.
End exit.

(** ** exitprocs.c, quick-exit.c: the tables when the program starts *)

Definition ATEXIT_MAX : nat := 32.
Definition __ATEXIT_COUNT (stdio_exit_flush : bool) : nat := if stdio_exit_flush then ATEXIT_MAX + 1 else ATEXIT_MAX.

Definition exit_start {W} (stdio_exit_flush : bool) (w : W) : estate :=
  Estate (replicate (__ATEXIT_COUNT stdio_exit_flush) (cleared PICO_ONEXIT_EMPTY)) (replicate ATEXIT_MAX (cleared PICO_QUICK_EXIT_EMPTY)) w.
