(* ===== verification/ExitSpec.v ===== *)
(** * Exit handlers: the stacks they are

    A table is a stack with a bound: a registration goes on top of the handlers that
    are there, and the handler that is called is the one on top.  The calls on the
    tables are simulated by a machine on the stacks. *)

From stdpp Require Import base list.
From Stdlib Require Import ZArith Lia.
From S2P Require Import Prelude CMem Exit.

Local Open Scope Z_scope.

(** ** A table as a stack *)

Section stack.
Context {K : Type} `{EqDecision K} (EMPTY : K) (N : nat).
Implicit Types (st : list (on_exit_slot K)).

Definition busy (s : on_exit_slot K) : Prop := sl_kind s <> EMPTY.

(** The table of a stack of at most [N] handlers. *)
Definition table st : list (on_exit_slot K) := rev st ++ replicate (N - length st) (cleared EMPTY).

Definition stack_ok st : Prop := Forall busy st /\ (length st <= N)%nat.

Lemma vacant_busy s : busy s -> vacant EMPTY s = false.
Proof. intros Hs. by apply bool_decide_eq_false_2. Qed.

Lemma vacant_cleared : vacant EMPTY (cleared EMPTY) = true.
Proof. by apply bool_decide_eq_true_2. Qed.

Lemma free_slot_after l k : Forall busy l -> forall o, free_slot EMPTY (l ++ replicate k (cleared EMPTY)) o = if decide (k = 0%nat) then None else Some (o + length l)%nat.
Proof.
  induction l as [|s l IH]; intros Hl o.
  - destruct k; [done|]. cbn [app replicate free_slot length]. rewrite vacant_cleared, decide_False by done. f_equal. lia.
  - apply Forall_cons in Hl as [Hs Hl]. cbn [app free_slot]. rewrite vacant_busy, IH by done. cbn [length]. destruct (decide (k = 0%nat)); [done|]. f_equal. lia.
Qed.

Lemma last_slot_below l k : forall i, (i <= k)%nat -> last_slot EMPTY (l ++ replicate k (cleared EMPTY)) (length l + i) = last_slot EMPTY (l ++ replicate k (cleared EMPTY)) (length l).
Proof.
  induction i as [|i IH]; intros Hi; [by rewrite Nat.add_0_r|]. replace (length l + S i)%nat with (S (length l + i)) by lia. cbn [last_slot].
  rewrite lookup_app_r by lia. replace (length l + i - length l)%nat with i by lia. rewrite lookup_replicate_2 by lia. rewrite vacant_cleared. apply IH. lia.
Qed.

Lemma table_length st : (length st <= N)%nat -> length (table st) = N.
Proof. intros Hs. unfold table. rewrite length_app, length_rev, length_replicate. lia. Qed.

(** A registration pushes, when there is room. *)
Lemma put_handler_push kind func arg st : stack_ok st -> kind <> EMPTY ->
  put_handler EMPTY kind func arg (table st) = if decide (length st < N)%nat then (0, table (Slot func arg kind :: st)) else (-1, table st).
Proof.
  intros [Hs Hn] Hk. unfold put_handler, table at 1. rewrite free_slot_after by by apply Forall_rev. rewrite length_rev. destruct (decide (length st < N)%nat) as [Hlt|Hge].
  - rewrite decide_False by lia. f_equal. unfold table. cbn [Nat.add rev length]. rewrite <- app_assoc. destruct (N - length st)%nat as [|k] eqn:Ek; [lia|].
    replace (N - S (length st))%nat with k by lia. rewrite insert_app_r_alt by (rewrite length_rev; lia). by rewrite length_rev, Nat.sub_diag.
  - by rewrite decide_True by lia.
Qed.

(** The handler taken is the one pushed last. *)
Lemma take_handler_pop st : stack_ok st -> take_handler EMPTY (table st) = match st with [] => (cleared EMPTY, table []) | e :: st => (e, table st) end.
Proof.
  intros [Hs Hn]. unfold take_handler. rewrite table_length by done. unfold table at 1. replace N with (length (rev st) + (N - length st))%nat at 2 by (rewrite length_rev; lia).
  rewrite last_slot_below by done. destruct st as [|e st]; [done|]. apply Forall_cons in Hs as [He Hs]. cbn [rev length] in *. rewrite length_app, length_rev. cbn [length]. rewrite Nat.add_1_r. cbn [last_slot].
  rewrite <- app_assoc. cbn [app]. rewrite list_lookup_middle by (by rewrite length_rev). rewrite vacant_busy by done. f_equal. unfold table. cbn [rev length]. rewrite <- app_assoc.
  rewrite insert_app_r_alt by (rewrite length_rev; lia). rewrite length_rev, Nat.sub_diag. cbn. replace (N - length st)%nat with (S (N - S (length st))) by lia. done.
Qed.

Lemma stack_ok_pop e st : stack_ok (e :: st) -> busy e /\ stack_ok st.
Proof. intros [[He Hs]%Forall_cons Hn]. cbn in Hn. split; [done|]. split; [done|lia]. Qed.
End stack.

(** ** The machine on stacks *)

Section machine.
Context {W : Type}.
Variables (NO NQ : nat).
Implicit Types (p : @prog W) (r : reg).

Record astate := Astate { a_on : list on_slot; a_quick : list quick_slot; a_world : W }.
Implicit Types (a : astate).

Definition conc a : estate := Estate (table PICO_ONEXIT_EMPTY NO (a_on a)) (table PICO_QUICK_EXIT_EMPTY NQ (a_quick a)) (a_world a).
Definition a_ok a : Prop := stack_ok PICO_ONEXIT_EMPTY NO (a_on a) /\ stack_ok PICO_QUICK_EXIT_EMPTY NQ (a_quick a).

(** The handler of a registration: for exit, or for quick_exit. *)
Definition reg_slot r : on_slot + quick_slot :=
  match r with
  | R_atexit func => inl (Slot func NULL PICO_ONEXIT_ATEXIT)
  | R_on_exit func arg => inl (Slot func arg PICO_ONEXIT_ONEXIT)
  | R_cxa_atexit func arg _ => inl (Slot func arg PICO_ONEXIT_CXA_ATEXIT)
  | R_at_quick_exit func => inr (Slot func NULL PICO_QUICK_EXIT_ATEXIT)
  | R_cxa_at_quick_exit func arg _ => inr (Slot func arg PICO_QUICK_EXIT_CXA_ATEXIT)
  end.

Definition a_reg r a : Z * astate :=
  match reg_slot r with
  | inl s => if decide (length (a_on a) < NO)%nat then (0, Astate (s :: a_on a) (a_quick a) (a_world a)) else (-1, a)
  | inr s => if decide (length (a_quick a) < NQ)%nat then (0, Astate (a_on a) (s :: a_quick a) (a_world a)) else (-1, a)
  end.

Fixpoint aexec p a : astate :=
  match p with
  | Return => a
  | Look k => aexec (k (a_world a)) a
  | Put w k => aexec k (Astate (a_on a) (a_quick a) w)
  | Register_ r k => aexec (k (fst (a_reg r a))) (snd (a_reg r a))
  end.

Lemma stack_ok_push {K} `{EqDecision K} (EMPTY : K) N s st : stack_ok EMPTY N st -> busy EMPTY s -> (length st < N)%nat -> stack_ok EMPTY N (s :: st).
Proof. intros [Hs Hn] Hb Hl. split; [by constructor|cbn; lia]. Qed.

Lemma a_reg_ok r a : a_ok a -> a_ok (snd (a_reg r a)).
Proof.
  intros [Ho Hq]. destruct a as [st q w]. destruct r; unfold a_reg; cbn [reg_slot a_on a_quick a_world] in *; case_decide; cbn [snd]; split; cbn [a_on a_quick]; try done; by apply stack_ok_push.
Qed.

Lemma exec_reg_refines r a : a_ok a -> exec_reg r (conc a) = Some (fst (a_reg r a), conc (snd (a_reg r a))).
Proof.
  intros [Ho Hq]. destruct a as [st q w]. unfold a_reg.
  destruct r; cbn [exec_reg reg_slot]; unfold atexit, on_exit, __cxa_atexit, at_quick_exit, __cxa_at_quick_exit, _on_exit, _at_quick_exit, conc; cbn [on_exits quick_exits world a_on a_quick a_world] in *;
    rewrite put_handler_push by done; by case_decide.
Qed.

Lemma exec_refines p : forall a, a_ok a -> exec_prog p (conc a) = Some (tt, conc (aexec p a)) /\ a_ok (aexec p a).
Proof.
  induction p as [|k IH|w k IH|r k IH]; intros a Ha; cbn [exec_prog aexec].
  - done.
  - by apply IH.
  - by apply (IH (Astate (a_on a) (a_quick a) w)).
  - rewrite exec_reg_refines by done. apply IH. by apply a_reg_ok.
Qed.

Variable text : handler_call -> @prog W.

Definition on_call (code : Z) (s : on_slot) : handler_call :=
  match sl_kind s with
  | PICO_ONEXIT_ONEXIT => Call_on_exit (sl_func s) code (sl_arg s)
  | PICO_ONEXIT_CXA_ATEXIT => Call_cxa_atexit (sl_func s) (sl_arg s)
  | _ => Call_atexit (sl_func s)
  end.
Definition quick_call (s : quick_slot) : handler_call :=
  match sl_kind s with
  | PICO_QUICK_EXIT_CXA_ATEXIT => Call_cxa_atexit (sl_func s) (sl_arg s)
  | _ => Call_atexit (sl_func s)
  end.

(** The handlers are popped and called until there are none. *)
Fixpoint a_exitprocs (fuel : nat) (code : Z) a : option astate :=
  match fuel with
  | O => None
  | S f => match a_on a with [] => Some a | e :: st => a_exitprocs f code (aexec (text (on_call code e)) (Astate st (a_quick a) (a_world a))) end
  end.
Fixpoint a_quick_exit (fuel : nat) a : option astate :=
  match fuel with
  | O => None
  | S f => match a_quick a with [] => Some a | e :: st => a_quick_exit f (aexec (text (quick_call e)) (Astate (a_on a) st (a_world a))) end
  end.

Definition lift {A} (x : A) (o : option astate) : option (A * estate) := match o with Some a => Some (x, conc a) | None => None end.

Lemma call_exitprocs_refines code : forall fuel a, a_ok a -> __call_exitprocs text fuel code (conc a) = lift tt (a_exitprocs fuel code a).
Proof.
  induction fuel as [|f IH]; intros a [Ho Hq]; [done|]. unfold __call_exitprocs. rewrite loop_S. unfold call_exitprocs_step at 1, bind at 1, take_on_exit. cbn [conc on_exits quick_exits world].
  rewrite take_handler_pop by done. cbn [a_exitprocs]. destruct a as [[|e st] q w]; cbn [a_on a_quick a_world] in *; [done|]. apply stack_ok_pop in Ho as [He Ho].
  assert (a_ok (Astate st q w)) as Ha by done. destruct (exec_refines (text (on_call code e)) _ Ha) as [E Hx]. rewrite <- (IH _ Hx). unfold on_call, conc in E |- *. cbn [a_on a_quick a_world] in E.
  unfold busy in He. destruct (sl_kind e); [done|..]; unfold bind; rewrite E; done.
Qed.

Lemma quick_exit_refines code : forall fuel a, a_ok a -> quick_exit text fuel code (conc a) = lift code (a_quick_exit fuel a).
Proof.
  induction fuel as [|f IH]; intros a [Ho Hq]; [done|]. unfold quick_exit. rewrite loop_S. unfold quick_exit_step at 1, bind at 1, take_quick_exit. cbn [conc on_exits quick_exits world].
  rewrite take_handler_pop by done. cbn [a_quick_exit]. destruct a as [st [|e q] w]; cbn [a_on a_quick a_world] in *; [done|]. apply stack_ok_pop in Hq as [He Hq].
  assert (a_ok (Astate st q w)) as Ha by done. destruct (exec_refines (text (quick_call e)) _ Ha) as [E Hx]. rewrite <- (IH _ Hx). unfold quick_call, conc in E |- *. cbn [a_on a_quick a_world] in E.
  unfold busy in He. destruct (sl_kind e); [done|..]; unfold bind; rewrite E; done.
Qed.

Lemma a_exitprocs_ok code : forall fuel a a', a_ok a -> a_exitprocs fuel code a = Some a' -> a_ok a' /\ a_on a' = [].
Proof.
  induction fuel as [|f IH]; intros a a' [Ho Hq] E; [done|]. destruct a as [[|e st] q w]; cbn in E, Ho, Hq; [by injection E as <-|]. apply stack_ok_pop in Ho as [He Ho].
  apply IH in E; [done|]. by apply exec_refines.
Qed.

Lemma a_quick_exit_ok : forall fuel a a', a_ok a -> a_quick_exit fuel a = Some a' -> a_ok a' /\ a_quick a' = [].
Proof.
  induction fuel as [|f IH]; intros a a' [Ho Hq] E; [done|]. destruct a as [st [|e q] w]; cbn in E, Ho, Hq; [by injection E as <-|]. apply stack_ok_pop in Hq as [He Hq].
  apply IH in E; [done|]. by apply exec_refines.
Qed.

(** *** exit *)

Definition a_call_fini (fuel : nat) (fn : fini_fn) a : option astate :=
  match fn with
  | Exitprocs => a_exitprocs fuel 0 a
  | Destructor func => Some (aexec (text (Call_destructor func)) a)
  end.

Fixpoint a_fini (fuel : nat) (fns : list fini_fn) a : option astate :=
  match fns with
  | [] => Some a
  | fn :: fns => match a_call_fini fuel fn a with Some a => a_fini fuel fns a | None => None end
  end.

Definition a_exit (fuel : nat) (fini_array : option (list fini_fn)) (code : Z) a : option astate :=
  match fini_array with
  | Some fns => a_fini fuel (rev fns) a
  | None => a_exitprocs fuel code a
  end.

Lemma call_fini_refines fuel fn a : a_ok a -> call_fini text fuel fn (conc a) = lift tt (a_call_fini fuel fn a) /\ forall a', a_call_fini fuel fn a = Some a' -> a_ok a'.
Proof.
  intros Ha. destruct fn as [|func]; cbn [call_fini a_call_fini].
  - split; [by apply call_exitprocs_refines|]. intros a' E. by eapply a_exitprocs_ok.
  - destruct (exec_refines (text (Call_destructor func)) a Ha) as [E Hx]. split; [done|]. by intros a' [= <-].
Qed.

Lemma fini_refines fuel : forall fns a, a_ok a -> fini_loop text fuel fns (conc a) = lift tt (a_fini fuel fns a).
Proof.
  induction fns as [|fn fns IH]; intros a Ha; [done|]. cbn [fini_loop a_fini]. destruct (call_fini_refines fuel fn a Ha) as [E Hok]. unfold bind. rewrite E.
  destruct (a_call_fini fuel fn a) as [a'|]; [|done]. cbn [lift]. by apply IH, Hok.
Qed.

Lemma exit_refines fuel fini code a : a_ok a -> exit text fuel fini code (conc a) = lift code (a_exit fuel fini code a).
Proof.
  intros Ha. unfold exit, a_exit, bind. destruct fini as [fns|].
  - unfold __libc_fini_array. rewrite fini_refines by done. by destruct (a_fini fuel (rev fns) a).
  - rewrite call_exitprocs_refines by done. by destruct (a_exitprocs fuel code a).
Qed.

Lemma a_exitprocs_empty : forall fuel code a a', a_exitprocs fuel code a = Some a' -> a_on a' = [].
Proof. induction fuel as [|f IH]; intros code a a' E; [done|]. cbn [a_exitprocs] in E. destruct (a_on a) as [|e st] eqn:Ea; [by injection E as <-|by eapply IH]. Qed.

(** *** Termination

    A handler may register others, which register others, and so on, when there is a
    bound [b] on the number of registrations of one function and the functions it
    registers have a smaller rank. *)

Definition reg_func r : Z :=
  match r with R_atexit f | R_on_exit f _ | R_cxa_atexit f _ _ | R_at_quick_exit f | R_cxa_at_quick_exit f _ _ => f end.
Definition call_func (c : handler_call) : Z :=
  match c with Call_on_exit f _ _ | Call_atexit f | Call_cxa_atexit f _ | Call_destructor f => f end.

Section rank.
Variables (rank : Z -> nat) (b : nat).

Fixpoint modest (n k : nat) p : Prop :=
  match p with
  | Return => True
  | Look f => forall w, modest n k (f w)
  | Put _ p => modest n k p
  | Register_ r f => (rank (reg_func r) < n)%nat /\ match k with O => False | S k => forall z, modest n k (f z) end
  end.

Definition weight {K} (st : list (on_exit_slot K)) : nat := list_sum (map (fun s => S b ^ rank (sl_func s))%nat st).

Lemma slots_weight_cons {K} (s : on_exit_slot K) st : weight (s :: st) = (S b ^ rank (sl_func s) + weight st)%nat.
Proof. done. Qed.

(** What a function of rank [n] adds with one registration. *)
Definition share (n : nat) : nat := match n with O => 0 | S n => S b ^ n end.

Lemma share_bound m n : (m < n)%nat -> (S b ^ m <= share n)%nat.
Proof. intros Hm. destruct n as [|n]; [lia|]. cbn. apply Nat.pow_le_mono_r; lia. Qed.

Lemma share_less n : (b * share n < S b ^ n)%nat.
Proof. destruct n as [|n]; [cbn; lia|]. cbn [share]. rewrite Nat.pow_succ_r'. assert (S b ^ n <> 0)%nat by (apply Nat.pow_nonzero; lia). lia. Qed.

Lemma a_reg_weight r a n : (rank (reg_func r) < n)%nat -> (weight (a_on (snd (a_reg r a))) <= weight (a_on a) + share n)%nat /\ (weight (a_quick (snd (a_reg r a))) <= weight (a_quick a) + share n)%nat.
Proof.
  intros Hr. apply share_bound in Hr. destruct a as [st q w]. destruct r; unfold a_reg; cbn [reg_slot a_on a_quick a_world reg_func] in *; case_decide; cbn [snd a_on a_quick]; rewrite ?slots_weight_cons; cbn [sl_func]; lia.
Qed.

Lemma aexec_weight n p : forall k a, modest n k p -> (weight (a_on (aexec p a)) <= weight (a_on a) + k * share n)%nat /\ (weight (a_quick (aexec p a)) <= weight (a_quick a) + k * share n)%nat.
Proof.
  induction p as [|f IH|w p IH|r f IH]; intros k a Hm; cbn [aexec modest] in *.
  - lia.
  - by apply IH.
  - by apply (IH k (Astate (a_on a) (a_quick a) w)).
  - destruct Hm as [Hr Hm]. destruct k as [|k]; [done|]. pose proof (a_reg_weight r a n Hr). destruct (IH (fst (a_reg r a)) k (snd (a_reg r a)) (Hm _)). lia.
Qed.

Hypothesis Hmodest : forall c, modest (rank (call_func c)) b (text c).

Lemma on_call_func code s : call_func (on_call code s) = sl_func s.
Proof. unfold on_call. by destruct (sl_kind s). Qed.
Lemma quick_call_func s : call_func (quick_call s) = sl_func s.
Proof. unfold quick_call. by destruct (sl_kind s). Qed.

Lemma a_exitprocs_ends code : forall fuel a, (weight (a_on a) < fuel)%nat -> exists a', a_exitprocs fuel code a = Some a'.
Proof.
  induction fuel as [|f IH]; intros [st q w] Hf; [lia|]. cbn [a_exitprocs a_on a_quick a_world] in *. destruct st as [|e st]; [eauto|]. apply IH.
  destruct (aexec_weight _ _ b (Astate st q w) (Hmodest (on_call code e))) as [Hw _]. rewrite on_call_func in Hw. pose proof (share_less (rank (sl_func e))). rewrite slots_weight_cons in Hf. cbn [a_on a_quick] in Hw. lia.
Qed.

Lemma a_quick_exit_ends : forall fuel a, (weight (a_quick a) < fuel)%nat -> exists a', a_quick_exit fuel a = Some a'.
Proof.
  induction fuel as [|f IH]; intros [st q w] Hf; [lia|]. cbn [a_quick_exit a_on a_quick a_world] in *. destruct q as [|e q]; [eauto|]. apply IH.
  destruct (aexec_weight _ _ b (Astate st q w) (Hmodest (quick_call e))) as [_ Hw]. rewrite quick_call_func in Hw. pose proof (share_less (rank (sl_func e))). rewrite slots_weight_cons in Hf. cbn [a_on a_quick] in Hw. lia.
Qed.

(** Destructors, from the first one that runs; each adds less than its own share. *)
Definition fini_weight (fns : list fini_fn) : nat := list_sum (map (fun fn => match fn with Exitprocs => 0 | Destructor f => S b ^ rank f end)%nat fns).

Lemma fini_weight_rev fns : fini_weight (rev fns) = fini_weight fns.
Proof. unfold fini_weight. induction fns as [|fn fns IH]; [done|]. cbn [rev]. rewrite map_app, list_sum_app, IH. rewrite Nat.add_comm. cbn. by rewrite Nat.add_0_r. Qed.

Lemma a_fini_ends fuel : forall fns a, (weight (a_on a) + fini_weight fns < fuel)%nat -> exists a', a_fini fuel fns a = Some a'.
Proof.
  induction fns as [|fn fns IH]; intros a Hf; [by exists a|]. cbn [a_fini]. unfold fini_weight in Hf. cbn [map list_sum foldr] in Hf. fold (list_sum (map (fun fn => match fn with Exitprocs => 0 | Destructor f => S b ^ rank f end)%nat fns)) in Hf. fold (fini_weight fns) in Hf.
  destruct fn as [|f]; cbn [a_call_fini].
  - destruct (a_exitprocs_ends 0 fuel a ltac:(lia)) as [a1 E]. rewrite E. apply IH. rewrite (a_exitprocs_empty _ _ _ _ E). cbn. lia.
  - apply IH. destruct (aexec_weight _ _ b a (Hmodest (Call_destructor f))) as [Hw _]. cbn [call_func] in Hw. pose proof (share_less (rank f)). lia.
Qed.
End rank.

(** *** Order *)

Fixpoint quiet p : Prop :=
  match p with
  | Return => True
  | Look f => forall w, quiet (f w)
  | Put _ p => quiet p
  | Register_ _ _ => False
  end.

(** What a function does to the program's state when it registers nothing. *)
Fixpoint effect p (w : W) : W :=
  match p with
  | Return => w
  | Look f => effect (f w) w
  | Put w p => effect p w
  | Register_ _ _ => w
  end.

Lemma quiet_effect p : forall a, quiet p -> aexec p a = Astate (a_on a) (a_quick a) (effect p (a_world a)).
Proof.
  induction p as [|f IH|w p IH|r f IH]; intros a Hq; cbn [aexec quiet effect] in *.
  - by destruct a.
  - by apply IH.
  - by apply (IH (Astate (a_on a) (a_quick a) w)).
  - done.
Qed.

(** When no destructor registers a handler, none is left after the handlers ran. *)
Lemma a_fini_empty fuel : (forall f, quiet (text (Call_destructor f))) -> forall fns a a', a_fini fuel fns a = Some a' -> In Exitprocs fns \/ a_on a = [] -> a_on a' = [].
Proof.
  intros Hq. induction fns as [|fn fns IH]; intros a a' E Hin; cbn [a_fini] in E; [injection E as <-; by destruct Hin|]. destruct (a_call_fini fuel fn a) as [a1|] eqn:E1; [|done].
  apply (IH a1 a' E). destruct fn as [|f]; cbn [a_call_fini] in E1; [right; by eapply a_exitprocs_empty|]. injection E1 as <-. rewrite quiet_effect by done. destruct Hin as [[?|?]|?]; [done|by left|by right].
Qed.

Definition effects (cs : list handler_call) (w : W) : W := fold_left (fun w c => effect (text c) w) cs w.

Hypothesis Hquiet : forall c, quiet (text c).

Lemma a_exitprocs_order code : forall fuel a, (length (a_on a) < fuel)%nat -> a_exitprocs fuel code a = Some (Astate [] (a_quick a) (effects (map (on_call code) (a_on a)) (a_world a))).
Proof.
  induction fuel as [|f IH]; intros [st q w] Hf; [lia|]. cbn [a_exitprocs a_on a_quick a_world] in *. destruct st as [|e st]; [done|]. cbn [length] in Hf.
  rewrite quiet_effect, IH by (done || cbn; lia). done.
Qed.

Lemma a_quick_exit_order : forall fuel a, (length (a_quick a) < fuel)%nat -> a_quick_exit fuel a = Some (Astate (a_on a) [] (effects (map quick_call (a_quick a)) (a_world a))).
Proof.
  induction fuel as [|f IH]; intros [st q w] Hf; [lia|]. cbn [a_quick_exit a_on a_quick a_world] in *. destruct q as [|e q]; [done|]. cbn [length] in Hf.
  rewrite quiet_effect, IH by (done || cbn; lia). done.
Qed.
End machine.
