(* ===== verification/ExitProps.v ===== *)
(** * Exit handlers: what they guarantee *)

From stdpp Require Import base list.
From Stdlib Require Import ZArith Lia.
From S2P Require Import Prelude CMem Exit ExitSpec.

Local Open Scope Z_scope.

Section guarantees.
Context {W : Type}.
Implicit Types (text : handler_call -> @prog W) (a : @astate W).

(** C26: from the tables of two stacks of handlers, exit and quick_exit do what the
    machine on stacks does, for any functions of the program, also where a handler
    registers others or never ends; a registration pushes its handler and returns 0
    when there is room, and returns -1 and changes nothing when there is none. *)
Theorem exit_refines_stacks NO NQ text fuel fini code r a :
  a_ok NO NQ a ->
  exit text fuel fini code (conc NO NQ a) = lift NO NQ code (a_exit NO NQ text fuel fini code a) /\
  quick_exit text fuel code (conc NO NQ a) = lift NO NQ code (a_quick_exit NO NQ text fuel a) /\
  exec_reg r (conc NO NQ a) = Some (fst (a_reg NO NQ r a), conc NO NQ (snd (a_reg NO NQ r a))) /\ a_ok NO NQ (snd (a_reg NO NQ r a)).
Proof. intros Ha. split_and!; [by apply exit_refines|by apply quick_exit_refines|by apply exec_reg_refines|by apply a_reg_ok]. Qed.

(** C28: when no function registers more than [b] handlers, all of a smaller rank than
    its own, exit ends in both builds and quick_exit ends, whatever the handlers and
    destructors are.  quick_exit and, in the build without an array of destructors,
    exit leave their table empty: all handlers were called.  With an array exit does
    so when no destructor registers a handler; one that is registered by a destructor
    which runs after the handlers stays in the table. *)
Theorem exit_handlers_end NO NQ text rank b code fns a fuel :
  (forall c, modest rank (rank (call_func c)) b (text c)) -> a_ok NO NQ a -> (weight rank b (a_on a) + weight rank b (a_quick a) + fini_weight rank b fns < fuel)%nat ->
  (exists s, exit text fuel None code (conc NO NQ a) = Some (code, s) /\ on_exits s = replicate NO (cleared PICO_ONEXIT_EMPTY)) /\
  (exists s, exit text fuel (Some fns) code (conc NO NQ a) = Some (code, s) /\
     (In Exitprocs fns -> (forall f, quiet (text (Call_destructor f))) -> on_exits s = replicate NO (cleared PICO_ONEXIT_EMPTY))) /\
  (exists s, quick_exit text fuel code (conc NO NQ a) = Some (code, s) /\ quick_exits s = replicate NQ (cleared PICO_QUICK_EXIT_EMPTY)).
Proof.
  intros Hm Ha Hf. split_and!.
  - destruct (a_exitprocs_ends NO NQ text rank b Hm code fuel a ltac:(lia)) as [a' E]. exists (conc NO NQ a'). rewrite exit_refines by done. cbn [a_exit]. rewrite E. split; [done|].
    cbn [conc on_exits]. rewrite (a_exitprocs_empty _ _ _ _ _ _ _ E). unfold table. by rewrite Nat.sub_0_r.
  - destruct (a_fini_ends NO NQ text rank b Hm fuel (rev fns) a) as [a' E]; [rewrite fini_weight_rev; lia|].
    exists (conc NO NQ a'). rewrite exit_refines by done. cbn [a_exit]. rewrite E. split; [done|]. intros Hin Hq. cbn [conc on_exits].
    rewrite (a_fini_empty _ _ _ _ Hq _ _ _ E) by (left; by apply in_rev in Hin). unfold table. by rewrite Nat.sub_0_r.
  - destruct (a_quick_exit_ends NO NQ text rank b Hm fuel a ltac:(lia)) as [a' E]. exists (conc NO NQ a'). rewrite quick_exit_refines, E by done. split; [done|].
    destruct (a_quick_exit_ok NO NQ text fuel a a' Ha E) as [_ En]. cbn [conc quick_exits]. rewrite En. unfold table. by rewrite Nat.sub_0_r.
Qed.

(** The program registers the handlers [rs], one after the other. *)
Fixpoint register_all (rs : list reg) : @prog W :=
  match rs with [] => Return | r :: rs => Register_ r (fun _ => register_all rs) end.

Definition on_regs (rs : list reg) : list on_slot := omap (fun r => match reg_slot r with inl s => Some s | inr _ => None end) rs.
Definition quick_regs (rs : list reg) : list quick_slot := omap (fun r => match reg_slot r with inl _ => None | inr s => Some s end) rs.

Lemma omap_short {A B} (f : A -> option B) l : (length (omap f l) <= length l)%nat.
Proof. induction l as [|x l IH]; [done|]. cbn. destruct (f x); [by apply le_n_S|by apply le_S]. Qed.

Lemma register_all_spec NO NQ rs : forall a, (length (on_regs rs) + length (a_on a) <= NO)%nat -> (length (quick_regs rs) + length (a_quick a) <= NQ)%nat ->
  aexec NO NQ (register_all rs) a = Astate (rev (on_regs rs) ++ a_on a) (rev (quick_regs rs) ++ a_quick a) (a_world a).
Proof.
  induction rs as [|r rs IH]; intros [st q w] Ho Hq; [done|]. cbn [register_all aexec]. unfold a_reg. unfold on_regs, quick_regs in Ho, Hq |- *. cbn [omap list_omap a_on a_quick a_world] in *.
  destruct (reg_slot r) as [s|s]; cbn [length rev] in *; (rewrite decide_True by lia); cbn [fst snd]; rewrite IH by (unfold on_regs, quick_regs; cbn [a_on a_quick length]; lia); cbn [a_on a_quick a_world]; by rewrite <- app_assoc.
Qed.

Lemma exit_start_conc flush (w : W) : exit_start flush w = conc (__ATEXIT_COUNT flush) ATEXIT_MAX (Astate [] [] w).
Proof. unfold exit_start, conc, table. cbn [a_on a_quick a_world rev length app]. by rewrite !Nat.sub_0_r. Qed.

Lemma destructors_order NO NQ text fuel : (forall c, quiet (text c)) -> forall ds a,
  a_fini NO NQ text fuel (map Destructor ds) a = Some (Astate (a_on a) (a_quick a) (effects text (map Call_destructor ds) (a_world a))).
Proof.
  intros Hq. induction ds as [|d ds IH]; intros a; [by destruct a|]. cbn [map a_fini a_call_fini]. rewrite quiet_effect, IH by done. done.
Qed.

(** C27: as many handlers as a table has slots can be registered; exit then calls
    those registered for it, the last one first and each one once, and no handler of
    quick_exit, and quick_exit the other way round.  With an array of destructors
    exit calls the handlers before the destructors, which run from the last one on,
    and a handler of on_exit gets the status 0 instead of the status of exit. *)
Theorem exit_order text flush w rs ds code fuel :
  (forall c, quiet (text c)) -> (length (on_regs rs) <= __ATEXIT_COUNT flush)%nat -> (length (quick_regs rs) <= ATEXIT_MAX)%nat -> (length rs < fuel)%nat ->
  exists s, exec_prog (register_all rs) (exit_start flush w) = Some (tt, s) /\
    option_map (fun r => (fst r, world (snd r))) (exit text fuel None code s) = Some (code, effects text (rev (map (on_call code) (on_regs rs))) w) /\
    option_map (fun r => (fst r, world (snd r))) (exit text fuel (Some (map Destructor ds ++ [Exitprocs])) code s) =
      Some (code, effects text (rev (map (on_call 0) (on_regs rs)) ++ map Call_destructor (rev ds)) w) /\
    option_map (fun r => (fst r, world (snd r))) (quick_exit text fuel code s) = Some (code, effects text (rev (map quick_call (quick_regs rs))) w).
Proof.
  intros Hq Ho Hk Hf. set (NO := __ATEXIT_COUNT flush) in *. set (a := Astate (rev (on_regs rs)) (rev (quick_regs rs)) w).
  assert (a_ok NO ATEXIT_MAX (Astate [] [] w)) as H0 by (split; split; cbn; [constructor|lia|constructor|lia]).
  destruct (exec_refines NO ATEXIT_MAX (register_all rs) _ H0) as [E Ha]. rewrite register_all_spec in E, Ha by (cbn; lia). cbn [a_on a_quick a_world] in E, Ha. rewrite !app_nil_r in E, Ha. fold a in E, Ha.
  assert (length (on_regs rs) <= length rs)%nat as L1 by apply omap_short. assert (length (quick_regs rs) <= length rs)%nat as L2 by apply omap_short.
  exists (conc NO ATEXIT_MAX a). rewrite exit_start_conc. rewrite !exit_refines, quick_exit_refines by done. split; [done|]. unfold a_exit. rewrite rev_app_distr. cbn [rev app a_fini a_call_fini].
  rewrite !a_exitprocs_order, a_quick_exit_order by (done || cbn; rewrite length_rev; lia). rewrite <- (map_rev Destructor ds), destructors_order by done. subst a. cbn [option_map fst snd lift conc world a_on a_quick a_world]. rewrite !map_rev.
  unfold effects. by rewrite fold_left_app.
Qed.
End guarantees.

(** ** Concrete handlers *)

(** Every function puts its number on a list, and the function 2 registers the
    function 1. *)
Definition log_text (c : handler_call) : @prog (list Z) := Look (fun w => Put (w ++ [call_func c]) Return).
Definition spawn_text (c : handler_call) : @prog (list Z) :=
  Look (fun w => Put (w ++ [call_func c]) (if decide (call_func c = 2) then Register_ (R_atexit 1) (fun _ => Return) else Return)).

Definition spawn_state : @astate (list Z) := Astate [Slot 2 NULL PICO_ONEXIT_ATEXIT; Slot 5 NULL PICO_ONEXIT_ATEXIT] [] [].

Lemma spawn_state_ok : a_ok 32 32 spawn_state.
Proof. split; (split; [|cbn; lia]); repeat constructor; discriminate. Qed.

Example spawn_run : option_map (fun r => (fst r, world (snd r))) (exit spawn_text 99 None 3 (conc 32 32 spawn_state)) = Some (3, [2; 1; 5]).
Proof. reflexivity. Qed.

Lemma exit_refines_witness :
  exit spawn_text 99 None 3 (conc 32 32 spawn_state) = lift 32 32 3 (a_exit 32 32 spawn_text 99 None 3 spawn_state).
Proof. apply (exit_refines_stacks 32 32 spawn_text 99 None 3 (R_atexit 1) spawn_state). apply spawn_state_ok. Defined.

Lemma exit_handlers_end_witness :
  (exists s, exit spawn_text 99 None 3 (conc 32 32 spawn_state) = Some (3, s) /\ on_exits s = replicate 32 (cleared PICO_ONEXIT_EMPTY)) /\
  (exists s, exit spawn_text 99 (Some [Destructor 7; Exitprocs]) 3 (conc 32 32 spawn_state) = Some (3, s)).
Proof.
  destruct (exit_handlers_end 32 32 spawn_text (fun f => if decide (f = 2) then 1%nat else 0%nat) 1 3 [Destructor 7; Exitprocs] spawn_state 99) as (X & (s & Y & _) & _).
  - intros c w. cbv beta. destruct (decide (call_func c = 2)); [|exact I]. split; [apply Nat.lt_0_succ|intros z; exact I].
  - apply spawn_state_ok.
  - vm_compute. lia.
  - split; [exact X|exists s; exact Y].
Defined.

(** The destructor 2 runs after the handlers, and the handler 1 that it registers is
    not called. *)
Example late_handler : option_map (fun r => (world (snd r), hd_error (map sl_func (on_exits (snd r))))) (exit spawn_text 99 (Some [Destructor 2; Exitprocs]) 3 (conc 32 32 spawn_state)) = Some ([2; 1; 5; 2], Some 1).
Proof. reflexivity. Qed.

Lemma exit_order_witness :
  exists s, exec_prog (register_all [R_atexit 1; R_on_exit 2 9; R_at_quick_exit 3]) (exit_start true []) = Some (tt, s) /\
    option_map (fun r => (fst r, world (snd r))) (exit log_text 9 None 4 s) = Some (4, effects log_text [Call_on_exit 2 4 9; Call_atexit 1] []).
Proof.
  destruct (exit_order log_text true [] [R_atexit 1; R_on_exit 2 9; R_at_quick_exit 3] [] 4 9) as (s & E & X & _).
  - intros c w. exact I.
  - vm_compute. lia.
  - vm_compute. lia.
  - vm_compute. lia.
  - exists s. exact (conj E X).
Defined.
