(* ===== verification/Ctype.v ===== *)
(** * Character classes (libc/ctype, in the C locale)

    Each function is there twice: by ranges, for small builds (include/ctype.h), and
    by a table of bits that is indexed with the character, from -128 to 255. *)

From stdpp Require Import base list.
From Stdlib Require Import ZArith Lia.
From S2P Require Import Prelude CMem Strto.

Local Open Scope Z_scope.

(** ** By ranges *)

Definition char_between (lo hi c : Z) : bool := (lo <=? c) && (c <=? hi).

Definition isblank (c : Z) : bool := (c =? 32) || (c =? 9).
Definition iscntrl (c : Z) : bool := char_between 0 0x1f c || (c =? 0x7f).
Definition isdigit (c : Z) : bool := char_between 48 57 c.
Definition isgraph (c : Z) : bool := char_between 33 126 c.
Definition islower (c : Z) : bool := char_between 97 122 c.
Definition isprint (c : Z) : bool := char_between 32 126 c.
Definition ispunct (c : Z) : bool := char_between 33 47 c || char_between 58 64 c || char_between 91 96 c || char_between 123 126 c.
Definition isupper (c : Z) : bool := char_between 65 90 c.
Definition isxdigit (c : Z) : bool := isdigit c || char_between 65 70 c || char_between 97 102 c.
Definition isalpha (c : Z) : bool := isupper c || islower c.
Definition isalnum (c : Z) : bool := isalpha c || isdigit c.
Definition tolower (c : Z) : Z := if isupper c then c - 65 + 97 else c.
Definition toupper (c : Z) : Z := if islower c then c - 97 + 65 else c.
Definition isascii (c : Z) : bool := uwrap 32 c <=? 127.
Definition toascii (c : Z) : Z := Z.land c 127.

(** ** By the table *)

Definition __CTYPE_UPPER : Z := 0x01.
Definition __CTYPE_LOWER : Z := 0x02.
Definition __CTYPE_DIGIT : Z := 0x04.
Definition __CTYPE_SPACE : Z := 0x08.
Definition __CTYPE_PUNCT : Z := 0x10.
Definition __CTYPE_CNTRL : Z := 0x20.
Definition __CTYPE_HEX : Z := 0x40.
Definition __CTYPE_BLANK : Z := 0x80.

Definition _CTYPE_DATA_0_127 : list Z :=
  let _U := __CTYPE_UPPER in let _L := __CTYPE_LOWER in let _N := __CTYPE_DIGIT in let _S := __CTYPE_SPACE in
  let _P := __CTYPE_PUNCT in let _C := __CTYPE_CNTRL in let _X := __CTYPE_HEX in let _B := __CTYPE_BLANK in
  let CS := Z.lor _C _S in let SB := Z.lor _S _B in let UX := Z.lor _U _X in let LX := Z.lor _L _X in
  [_C; _C; _C; _C; _C; _C; _C; _C;
   _C; CS; CS; CS; CS; CS; _C; _C;
   _C; _C; _C; _C; _C; _C; _C; _C;
   _C; _C; _C; _C; _C; _C; _C; _C;
   SB; _P; _P; _P; _P; _P; _P; _P;
   _P; _P; _P; _P; _P; _P; _P; _P;
   _N; _N; _N; _N; _N; _N; _N; _N;
   _N; _N; _P; _P; _P; _P; _P; _P;
   _P; UX; UX; UX; UX; UX; UX; _U;
   _U; _U; _U; _U; _U; _U; _U; _U;
   _U; _U; _U; _U; _U; _U; _U; _U;
   _U; _U; _U; _P; _P; _P; _P; _P;
   _P; LX; LX; LX; LX; LX; LX; _L;
   _L; _L; _L; _L; _L; _L; _L; _L;
   _L; _L; _L; _L; _L; _L; _L; _L;
   _L; _L; _L; _P; _P; _P; _P; _C].

Definition _CTYPE_DATA_128_255 : list Z := replicate 128 0.
Definition _ctype_b : list Z := _CTYPE_DATA_128_255 ++ _CTYPE_DATA_0_127 ++ _CTYPE_DATA_128_255.
Definition _CTYPE_OFFSET : Z := 127.

(** [__CTYPE_PTR[c + 1]]; outside of the table the access is undefined. *)
Definition ctype_bits (c : Z) : option Z :=
  let i := _CTYPE_OFFSET + (c + 1) in if i <? 0 then None else _ctype_b !! Z.to_nat i.

Definition bits_of (mask c : Z) : option Z := b ← ctype_bits c; Some (Z.land b mask).

Definition isalnum_table : Z -> option Z := bits_of (Z.lor __CTYPE_UPPER (Z.lor __CTYPE_LOWER __CTYPE_DIGIT)).
Definition isalpha_table : Z -> option Z := bits_of (Z.lor __CTYPE_UPPER __CTYPE_LOWER).
Definition isblank_table (c : Z) : option Z := b ← bits_of __CTYPE_BLANK c; Some (Z.b2z (negb (b =? 0) || (c =? 9))).
Definition iscntrl_table : Z -> option Z := bits_of __CTYPE_CNTRL.
Definition isdigit_table : Z -> option Z := bits_of __CTYPE_DIGIT.
Definition isgraph_table : Z -> option Z := bits_of (Z.lor __CTYPE_PUNCT (Z.lor __CTYPE_UPPER (Z.lor __CTYPE_LOWER __CTYPE_DIGIT))).
Definition islower_table (c : Z) : option Z := b ← bits_of (Z.lor __CTYPE_UPPER __CTYPE_LOWER) c; Some (Z.b2z (b =? __CTYPE_LOWER)).
Definition isprint_table : Z -> option Z := bits_of (Z.lor __CTYPE_PUNCT (Z.lor __CTYPE_UPPER (Z.lor __CTYPE_LOWER (Z.lor __CTYPE_DIGIT __CTYPE_BLANK)))).
Definition ispunct_table : Z -> option Z := bits_of __CTYPE_PUNCT.
Definition isspace_table : Z -> option Z := bits_of __CTYPE_SPACE.
Definition isupper_table (c : Z) : option Z := b ← bits_of (Z.lor __CTYPE_UPPER __CTYPE_LOWER) c; Some (Z.b2z (b =? __CTYPE_UPPER)).
Definition isxdigit_table : Z -> option Z := bits_of (Z.lor __CTYPE_HEX __CTYPE_DIGIT).

(** ** The two agree *)

(** [f] is not zero where [g] holds, from -128 to 255. *)
Definition agrees (f : Z -> option Z) (g : Z -> bool) : Prop := forall c, -128 <= c <= 255 -> exists v, f c = Some v /\ (v <> 0 <-> g c = true).

Lemma agrees_check f g :
  forallb (fun i => match f (Z.of_nat i - 128) with Some v => eqb (negb (v =? 0)) (g (Z.of_nat i - 128)) | None => false end) (seq 0 384) = true -> agrees f g.
Proof.
  rewrite forallb_forall. intros Hc c Hr. specialize (Hc (Z.to_nat (c + 128))). rewrite in_seq in Hc. specialize (Hc ltac:(lia)).
  replace (Z.of_nat (Z.to_nat (c + 128)) - 128) with c in Hc by lia. destruct (f c) as [v|]; [|done]. exists v. split; [done|]. apply eqb_prop in Hc. rewrite <- Hc.
  destruct (Z.eqb_spec v 0); cbn; split; done.
Qed.

Definition ctype_pairs : list ((Z -> option Z) * (Z -> bool)) :=
  [(isalnum_table, isalnum); (isalpha_table, isalpha); (isblank_table, isblank); (iscntrl_table, iscntrl); (isdigit_table, isdigit); (isgraph_table, isgraph);
   (islower_table, islower); (isprint_table, isprint); (ispunct_table, ispunct); (isspace_table, isspace); (isupper_table, isupper); (isxdigit_table, isxdigit)].

Lemma ctype_pairs_agree : Forall (fun p => agrees p.1 p.2) ctype_pairs.
Proof. repeat (constructor; [apply agrees_check; vm_compute; reflexivity|]). constructor. Qed.

Lemma tolower_lower c : isupper c = false -> tolower c = c.
Proof. unfold tolower. by intros ->. Qed.

Lemma tolower_idem c : tolower (tolower c) = tolower c.
Proof. unfold tolower at 2 3, isupper, char_between. destruct (Z.leb_spec 65 c), (Z.leb_spec c 90); cbn [andb]; apply tolower_lower; unfold isupper, char_between; destruct (Z.leb_spec 65 (c - 65 + 97)), (Z.leb_spec (c - 65 + 97) 90), (Z.leb_spec 65 c), (Z.leb_spec c 90); cbn; lia || done. Qed.
