(* ===== verification/Fnmatch.v ===== *)
(** * Matching of file names (libc/posix/fnmatch.c)

    A string is the list of its characters; behind its end there is the terminator,
    which is the character zero.  The characters are unsigned, as on Arm. *)

From stdpp Require Import base list.
From Stdlib Require Import ZArith Lia.
From S2P Require Import Prelude CMem Strto Ctype.

Local Open Scope Z_scope.

Definition FNM_NOMATCH : Z := 1.
Definition FNM_NOESCAPE : Z := 0x01.
Definition FNM_PATHNAME : Z := 0x02.
Definition FNM_PERIOD : Z := 0x04.
Definition FNM_LEADING_DIR : Z := 0x08.
Definition FNM_CASEFOLD : Z := 0x10.

Definition EOS : Z := 0.

(** The character at the index [k]. *)
Definition at_ (l : list Z) (k : nat) : Z := nth k l EOS.

Definition slash : Z := 47.
Definition period : Z := 46.
Definition star : Z := 42.
Definition question : Z := 63.
Definition lbracket : Z := 91.
Definition rbracket : Z := 93.
Definition backslash : Z := 92.

(** ** Bracket expressions *)

Inductive range_result :=
| RANGE_MATCH (newp : list Z)
| RANGE_NOMATCH
| RANGE_ERROR.

Definition classes : list (list Z * (Z -> bool)) :=
  [([97; 108; 110; 117; 109], isalnum); ([97; 108; 112; 104; 97], isalpha); ([98; 108; 97; 110; 107], isblank); ([99; 110; 116; 114; 108], iscntrl);
   ([100; 105; 103; 105; 116], isdigit); ([103; 114; 97; 112; 104], isgraph); ([108; 111; 119; 101; 114], islower); ([112; 114; 105; 110; 116], isprint);
   ([112; 117; 110; 99; 116], ispunct); ([115; 112; 97; 99; 101], isspace); ([117; 112; 112; 101; 114], isupper); ([120; 100; 105; 103; 105; 116], isxdigit)].

(** The loop over the classes: the function of the class with that name. *)
Fixpoint find_class (cls : list (list Z * (Z -> bool))) (name : list Z) (test : Z) : bool :=
  match cls with
  | [] => false
  | (n, func) :: cls => if bool_decide (name = n) then func test else find_class cls name test
  end.

(** The loop that looks for the end of a collating symbol: [l] begins at the index
    [1 + col_len] of the pattern. *)
Fixpoint collating_end (l : list Z) (col_len : nat) : option nat :=
  match l with
  | [] => None
  | c :: l => if (c =? period) && (at_ l 0 =? rbracket) then Some col_len else collating_end l (S col_len)
  end.

(** [while (islower(pattern[1 + name_len])) name_len++] *)
Fixpoint lower_prefix (l : list Z) : nat :=
  match l with
  | c :: l => if islower c then S (lower_prefix l) else O
  | [] => O
  end.

(** The outcome of a pass of the loop over the expression: a result, or the rest of
    the pattern with the new value of ok. *)
Inductive range_step :=
| Range_done (r : range_result)
| Range_more (pattern : list Z) (ok : bool).

(** The end of a pass: a range or a single character. *)
Definition range_or_char (flags test c : Z) (pattern : list Z) (ok : bool) : range_step :=
  let c := if has flags FNM_CASEFOLD then tolower c else c in
  let c2 := at_ pattern 1 in
  if (at_ pattern 0 =? 45) && negb (c2 =? EOS) && negb (c2 =? rbracket) then
    let pattern := drop 2 pattern in
    let '(c2, pattern) := if (c2 =? backslash) && negb (has flags FNM_NOESCAPE) then (at_ pattern 0, drop 1 pattern) else (c2, pattern) in
    if c2 =? EOS then Range_done RANGE_ERROR
    else
      let c2 := if has flags FNM_CASEFOLD then tolower c2 else c2 in
      Range_more pattern (if (c <=? test) && (test <=? c2) then true else ok)
  else Range_more pattern (if c =? test then true else ok).

(** The middle: a character class. *)
Definition range_class (flags test c : Z) (pattern : list Z) (ok : bool) : range_step :=
  let name_len := lower_prefix (drop 1 pattern) in
  if (c =? lbracket) && (at_ pattern 0 =? 58) && (at_ pattern (1 + name_len) =? 58) && (at_ pattern (2 + name_len) =? rbracket) then
    Range_more (drop (3 + name_len) pattern) (if find_class classes (take name_len (drop 1 pattern)) test then true else ok)
  else range_or_char flags test c pattern ok.

Definition range_pass (flags test c : Z) (pattern : list Z) (ok : bool) : range_step :=
  let '(c, pattern) := if (c =? backslash) && negb (has flags FNM_NOESCAPE) then (at_ pattern 0, drop 1 pattern) else (c, pattern) in
  if c =? EOS then Range_done RANGE_ERROR
  else if (c =? slash) && has flags FNM_PATHNAME then Range_done RANGE_NOMATCH
  else
    let '(c, pattern) :=
      if (c =? lbracket) && (at_ pattern 0 =? 61) && negb (at_ pattern 1 =? EOS) && (at_ pattern 2 =? 61) && (at_ pattern 3 =? rbracket)
      then (at_ pattern 1, drop 4 pattern) else (c, pattern) in
    if (c =? lbracket) && (at_ pattern 0 =? period) && negb (at_ pattern 1 =? EOS) then
      match collating_end (drop 2 pattern) 1 with
      | Some col_len =>
          if (1 <? col_len)%nat then Range_done RANGE_ERROR
          else range_class flags test (at_ pattern 1) (drop 4 pattern) ok
      | None => range_class flags test c pattern ok
      end
    else range_class flags test c pattern ok.

Fixpoint range_loop (fuel : nat) (flags test : Z) (negate : bool) (c : Z) (pattern : list Z) (ok : bool) : option range_result :=
  match fuel with
  | O => None
  | S f =>
      match range_pass flags test c pattern ok with
      | Range_done r => Some r
      | Range_more pattern ok =>
          let c := at_ pattern 0 in
          let pattern := drop 1 pattern in
          if c =? rbracket then Some (if eqb ok negate then RANGE_NOMATCH else RANGE_MATCH pattern)
          else range_loop f flags test negate c pattern ok
      end
  end.

Definition rangematch (fuel : nat) (pattern : list Z) (test flags : Z) : option range_result :=
  let negate := (at_ pattern 0 =? 33) || (at_ pattern 0 =? 94) in
  let pattern := if negate then drop 1 pattern else pattern in
  let test := if has flags FNM_CASEFOLD then tolower test else test in
  range_loop fuel flags test negate (at_ pattern 0) (drop 1 pattern) false.

(** ** Patterns *)

(** The end of a pass over the pattern: a result, or what is left of the pattern and
    the index of string in the text from stringstart on. *)
Inductive match_step :=
| Match_done (r : Z)
| Match_more (pattern : list Z) (i : nat).

(** [string == stringstart || ((flags & FNM_PATHNAME) && string[-1] == '/')] *)
Definition at_start (flags : Z) (start : list Z) (i : nat) : bool :=
  match i with O => true | S j => has flags FNM_PATHNAME && (at_ start j =? slash) end.

Definition leading_period (flags : Z) (start : list Z) (i : nat) : bool :=
  (at_ start i =? period) && has flags FNM_PERIOD && at_start flags start i.

(** The label norm. *)
Definition match_char (flags c : Z) (pattern start : list Z) (i : nat) : match_step :=
  let s := at_ start i in
  if c =? s then Match_more pattern (S i)
  else if has flags FNM_CASEFOLD && (tolower c =? tolower s) then Match_more pattern (S i)
  else Match_done FNM_NOMATCH.

(** [strchr(string, c)] *)
Definition strchr_from (c : Z) (start : list Z) (i : nat) : option nat :=
  match list_find (fun x => x = c) (drop i start) with Some (k, _) => Some (i + k)%nat | None => None end.

(** [while ( *pattern == '*') pattern++] *)
Fixpoint skip_stars (pattern : list Z) : list Z :=
  match pattern with
  | c :: p => if c =? star then skip_stars p else pattern
  | [] => []
  end.

Section fnmatch.
(** The call of _fnmatch with a smaller level. *)
Variable rec : list Z -> list Z -> Z -> option Z.
Variable level_zero : bool.
Variable fuel : nat.

(** The loop of the general case, from string on. *)
Fixpoint star_loop (flags : Z) (pattern string : list Z) : option Z :=
  match string with
  | [] => Some FNM_NOMATCH
  | test :: rest =>
      r ← rec pattern string (Z.land flags (Z.lnot FNM_PERIOD));
      if r =? 0 then Some 0
      else if r =? - FNM_NOMATCH then Some (- FNM_NOMATCH)
      else if (test =? slash) && has flags FNM_PATHNAME then Some FNM_NOMATCH
      else star_loop flags pattern rest
  end.

Definition match_star (flags : Z) (pattern start : list Z) (i : nat) : option match_step :=
  let pattern := skip_stars pattern in
  let c := at_ pattern 0 in
  if leading_period flags start i then Some (Match_done FNM_NOMATCH)
  else if c =? EOS then
    if has flags FNM_PATHNAME then
      Some (Match_done (if has flags FNM_LEADING_DIR then 0 else match strchr_from slash start i with None => 0 | Some _ => FNM_NOMATCH end))
    else Some (Match_done 0)
  else if (c =? slash) && has flags FNM_PATHNAME then
    Some (match strchr_from slash start i with None => Match_done FNM_NOMATCH | Some k => Match_more pattern k end)
  else if level_zero then Some (Match_done (- FNM_NOMATCH))
  else r ← star_loop flags pattern (drop i start); Some (Match_done r).

Definition match_bracket (flags c : Z) (pattern start : list Z) (i : nat) : option match_step :=
  let s := at_ start i in
  if s =? EOS then Some (Match_done FNM_NOMATCH)
  else if (s =? slash) && has flags FNM_PATHNAME then Some (Match_done FNM_NOMATCH)
  else if leading_period flags start i then Some (Match_done FNM_NOMATCH)
  else
    r ← rangematch fuel pattern s flags;
    Some match r with
    | RANGE_ERROR => match_char flags c pattern start i
    | RANGE_MATCH newp => Match_more newp (S i)
    | RANGE_NOMATCH => Match_done FNM_NOMATCH
    end.

(** A pass of the loop of _fnmatch. *)
Definition match_pass (flags : Z) (pattern start : list Z) (i : nat) : option match_step :=
  let c := at_ pattern 0 in
  let pattern := drop 1 pattern in
  let s := at_ start i in
  if c =? EOS then
    Some (Match_done (if has flags FNM_LEADING_DIR && (s =? slash) then 0 else if s =? EOS then 0 else FNM_NOMATCH))
  else if c =? question then
    Some (if s =? EOS then Match_done FNM_NOMATCH
          else if (s =? slash) && has flags FNM_PATHNAME then Match_done FNM_NOMATCH
          else if leading_period flags start i then Match_done FNM_NOMATCH
          else Match_more pattern (S i))
  else if c =? star then match_star flags pattern start i
  else if c =? lbracket then match_bracket flags c pattern start i
  else if (c =? backslash) && negb (has flags FNM_NOESCAPE) then
    let '(c, pattern) := if at_ pattern 0 =? EOS then (backslash, pattern) else (at_ pattern 0, drop 1 pattern) in
    Some (match_char flags c pattern start i)
  else Some (match_char flags c pattern start i).

Fixpoint match_loop (n : nat) (flags : Z) (pattern start : list Z) (i : nat) : option Z :=
  match n with
  | O => None
  | S n =>
      x ← match_pass flags pattern start i;
      match x with
      | Match_done r => Some r
      | Match_more pattern i => match_loop n flags pattern start i
      end
  end.
End fnmatch.

Fixpoint _fnmatch (fuel level : nat) (pattern string : list Z) (flags : Z) : option Z :=
  match level with
  | O => match_loop (fun _ _ _ => None) true fuel fuel flags pattern string 0
  | S l => match_loop (_fnmatch fuel l) false fuel fuel flags pattern string 0
  end.

Definition fnmatch (fuel : nat) (pattern string : list Z) (flags : Z) : option Z := _fnmatch fuel 16 pattern string flags.
