(* ===== verification/FnmatchSpec.v ===== *)
(** * Matching of file names: the language of a pattern *)

From stdpp Require Import base list.
From Stdlib Require Import ZArith Lia.
From S2P Require Import Prelude CMem StrLocal Strto Ctype Fnmatch.

Local Open Scope Z_scope.

(** ** Bracket expressions end *)

Lemma drop_drop_ex {A} (l : list A) j k : exists n, drop j (drop k l) = drop n l.
Proof. exists (k + j)%nat. by rewrite drop_drop. Qed.

Lemma range_or_char_rest flags test c p ok p' ok' : range_or_char flags test c p ok = Range_more p' ok' -> exists k, p' = drop k p.
Proof.
  unfold range_or_char. intros E. repeat case_match; simplify_eq; first [apply drop_drop_ex|by exists 2%nat|by exists 0%nat].
Qed.

Lemma range_class_rest flags test c p ok p' ok' : range_class flags test c p ok = Range_more p' ok' -> exists k, p' = drop k p.
Proof. unfold range_class. destruct (_ && _ && _ && _); [intros [= <- _]; by eexists|]. apply range_or_char_rest. Qed.

Lemma rest_drop (p q : list Z) k : (exists j, q = drop j (drop k p)) -> exists n, q = drop n p.
Proof. intros [j ->]. apply drop_drop_ex. Qed.

Lemma range_pass_rest flags test c p ok p' ok' : range_pass flags test c p ok = Range_more p' ok' -> exists k, p' = drop k p.
Proof.
  unfold range_pass. intros E. repeat case_match; simplify_eq; apply range_class_rest in E as [k ->]; rewrite ?drop_drop; by eexists.
Qed.

Lemma at_nil k : at_ [] k = EOS.
Proof. by destruct k. Qed.

Lemma range_pass_eos flags test p ok : range_pass flags test EOS p ok = Range_done RANGE_ERROR.
Proof. done. Qed.

Lemma range_loop_total flags test negate : forall fuel c p ok, (length p + 1 < fuel)%nat ->
  exists r, (forall f, (length p + 1 < f)%nat -> range_loop f flags test negate c p ok = Some r) /\ forall q, r = RANGE_MATCH q -> exists k, q = drop (S k) p.
Proof.
  induction fuel as [|fuel IH]; intros c p ok Hf; [lia|]. destruct (range_pass flags test c p ok) as [r|p' ok'] eqn:E.
  - exists r. split; [intros [|f] Hf'; [lia|]; cbn [range_loop]; by rewrite E|]. intros q ->. exfalso. clear -E. revert E. unfold range_pass, range_class, range_or_char.
    repeat (case_match; try done).
  - pose proof (range_pass_rest _ _ _ _ _ _ _ E) as [k Hk]. destruct (at_ p' 0 =? rbracket) eqn:Eb.
    { eexists. split; [intros [|f] Hf'; [lia|]; cbn [range_loop]; by rewrite E, Eb|]. intros q Hq. destruct (eqb ok' negate); [done|]. injection Hq as <-. exists k. rewrite Hk, drop_drop. f_equal. lia. }
    destruct p' as [|x p'].
    { exists RANGE_ERROR. split; [|done]. intros [|[|f]] Hf'; [lia..|]. cbn [range_loop]. rewrite E, Eb, at_nil. cbn [drop]. by rewrite range_pass_eos. }
    assert (length (x :: p') <= length p)%nat as Hl by (rewrite Hk, length_drop; lia). cbn [length] in Hl. destruct (IH x p' ok') as (r & Hr & Hq); [lia|].
    exists r. split.
    + intros [|f] Hf'; [lia|]. cbn [range_loop]. rewrite E, Eb. cbn [at_ nth drop]. apply Hr. lia.
    + intros q Hqr. destruct (Hq q Hqr) as [j ->]. exists (k + S j)%nat. replace p' with (drop 1 (x :: p')) by done. rewrite Hk, !drop_drop. f_equal. lia.
Qed.

(** The result of rangematch with enough fuel. *)
Definition bracket (flags : Z) (p : list Z) (x : Z) : range_result := default RANGE_ERROR (rangematch (length p + 2) p x flags).

Lemma rangematch_total flags p x : (forall f, (length p + 1 < f)%nat -> rangematch f p x flags = Some (bracket flags p x)) /\ forall q, bracket flags p x = RANGE_MATCH q -> exists k, q = drop (S k) p.
Proof.
  unfold bracket, rangematch. set (n := _ || _). set (t := if has flags FNM_CASEFOLD then _ else _). set (p1 := if n then drop 1 p else p).
  assert (exists k, p1 = drop k p) as [k Hk] by (subst p1; destruct n; [by exists 1%nat|by exists 0%nat]). assert (length (drop 1 p1) <= length p)%nat as Hl by (rewrite length_drop, Hk, length_drop; lia).
  destruct (range_loop_total flags t n (length p + 2) (at_ p1 0) (drop 1 p1) false ltac:(lia)) as (r & Hr & Hq). rewrite Hr by lia. cbn [default]. split.
  - intros f Hf. apply Hr. lia.
  - intros q Hqr. destruct (Hq q Hqr) as [j ->]. exists (k + S j)%nat. rewrite Hk, !drop_drop. f_equal. lia.
Qed.

(** ** The language *)

Section glob.
Variable flags : Z.

Definition same (c x : Z) : bool := (c =? x) || (has flags FNM_CASEFOLD && (tolower c =? tolower x)).

(** A wildcard matches this character. *)
Definition wild (x : Z) : bool := negb ((x =? slash) && has flags FNM_PATHNAME).

Definition special (c : Z) : bool := (c =? question) || (c =? star) || (c =? lbracket) || ((c =? backslash) && negb (has flags FNM_NOESCAPE)).

Inductive glob : list Z -> list Z -> Prop :=
| glob_end : glob [] []
| glob_dir s : has flags FNM_LEADING_DIR = true -> glob [] (slash :: s)
| glob_any p x s : wild x = true -> glob p s -> glob (question :: p) (x :: s)
| glob_star_end p s : glob p s -> glob (star :: p) s
| glob_star_eat p x s : wild x = true -> glob (star :: p) s -> glob (star :: p) (x :: s)
| glob_set p q x s : wild x = true -> bracket flags p x = RANGE_MATCH q -> glob q s -> glob (lbracket :: p) (x :: s)
| glob_no_set p x s : wild x = true -> bracket flags p x = RANGE_ERROR -> same lbracket x = true -> glob p s -> glob (lbracket :: p) (x :: s)
| glob_escape p c x s : has flags FNM_NOESCAPE = false -> same c x = true -> glob p s -> glob (backslash :: c :: p) (x :: s)
| glob_escape_end x s : has flags FNM_NOESCAPE = false -> same backslash x = true -> glob [] s -> glob [backslash] (x :: s)
| glob_char c p x s : special c = false -> same c x = true -> glob p s -> glob (c :: p) (x :: s).

(** What a star takes. *)
Lemma glob_star_iff p s : glob (star :: p) s <-> exists a b, s = a ++ b /\ Forall (fun x => wild x = true) a /\ glob p b.
Proof.
  split.
  - intros Hg. remember (star :: p) as q eqn:Eq. revert p Eq. induction Hg as [| | |p' s Hg _|p' x s Hw Hg IH| | | | |c p' x s Hc]; intros p0 Eq; try done.
    + injection Eq as ->. by exists [], s.
    + destruct (IH p0 Eq) as (a & b & -> & Ha & Hb). exists (x :: a), b. split_and!; [done|by constructor|done].
    + injection Eq as -> ->. done.
  - intros (a & b & -> & Ha & Hb). induction Ha as [|x a Hx Ha IH]; [by apply glob_star_end|]. by apply glob_star_eat.
Qed.

Lemma glob_skip_stars p s : glob (star :: p) s <-> glob (star :: skip_stars p) s.
Proof.
  induction p as [|c p IH]; [done|]. cbn [skip_stars]. destruct (Z.eqb_spec c star) as [->|Hc]; [|done]. rewrite <- IH, !(glob_star_iff _ s). split.
  - intros (a & b & -> & Ha & Hb). apply glob_star_iff in Hb as (a' & b' & -> & Ha' & Hb). exists (a ++ a'), b'. split_and!; [by rewrite app_assoc|by apply Forall_app|done].
  - intros (a & b & -> & Ha & Hb). exists a, b. split_and!; [done..|by apply glob_star_end].
Qed.

Lemma skip_stars_rest p : exists k, skip_stars p = drop k p /\ at_ (skip_stars p) 0 <> star.
Proof.
  induction p as [|c p IH]; [by exists 0%nat|]. cbn [skip_stars]. destruct (Z.eqb_spec c star) as [->|Hc]; [|by exists 0%nat]. destruct IH as (k & -> & Hk). by exists (S k).
Qed.

(** A pattern that goes on with something else than a star does not match the empty
    string. *)
Lemma glob_nonempty c p : c <> star -> ~ glob (c :: p) [].
Proof. intros Hc Hg. by inversion Hg. Qed.
End glob.

(** ** The loop follows the language *)

Lemma at_drop l i : at_ l i = at_ (drop i l) 0.
Proof. unfold at_. revert i. induction l as [|x l IH]; intros [|i]; try done. cbn [nth drop]. apply IH. Qed.

Lemma drop_cons_S {A} (l : list A) i x t : drop i l = x :: t -> drop (S i) l = t /\ (i < length l)%nat.
Proof.
  intros E. split; [by replace (S i) with (i + 1)%nat by lia; rewrite <- drop_drop, E|]. apply (f_equal length) in E. rewrite length_drop in E. cbn in E. lia.
Qed.

Lemma tolower_zero c : tolower c = 0 -> c = 0.
Proof. unfold tolower, isupper, char_between. destruct (Z.leb_spec 65 c), (Z.leb_spec c 90); cbn; lia. Qed.

Lemma tolower_slash c : tolower c = slash -> c = slash.
Proof. unfold tolower, isupper, char_between, slash. destruct (Z.leb_spec 65 c), (Z.leb_spec c 90); cbn; lia. Qed.

Lemma same_slash flags x : same flags slash x = true -> x = slash.
Proof. unfold same. destruct (Z.eqb_spec slash x) as [->|_]; [done|]. cbn [orb]. intros [_ Ht]%andb_prop. apply Z.eqb_eq in Ht. symmetry in Ht. by apply tolower_slash. Qed.

Definition stars (p : list Z) : nat := length (filter (fun c => c = star) p).

Lemma stars_drop p : forall k, (stars (drop k p) <= stars p)%nat.
Proof.
  induction p as [|c p IH]; intros [|k]; try done. cbn [drop]. specialize (IH k). unfold stars in *. rewrite filter_cons. case_decide; cbn [length]; lia.
Qed.

Lemma stars_star p : stars (star :: p) = S (stars p).
Proof. unfold stars. by rewrite filter_cons, decide_True. Qed.

(** Up to the first slash. *)
Lemma slash_split (t : list Z) : Forall (fun x => x <> slash) t \/ exists a b, t = a ++ slash :: b /\ Forall (fun x => x <> slash) a.
Proof.
  induction t as [|x t IH]; [by left|]. destruct (decide (x = slash)) as [->|Hx]; [right; by exists [], t|].
  destruct IH as [IH|(a & b & -> & Ha)]; [left; by constructor|]. right. exists (x :: a), b. split; [done|by constructor].
Qed.

Lemma strchr_none t start i : drop i start = t -> Forall (fun x => x <> slash) t -> strchr_from slash start i = None.
Proof. intros E Ht. unfold strchr_from. rewrite E. destruct (list_find _ t) as [[k y]|] eqn:Ef; [|done]. apply list_find_Some in Ef as (Hy & -> & _). by destruct (Forall_lookup_1 _ _ _ _ Ht Hy). Qed.

Lemma strchr_some a b start i : drop i start = a ++ slash :: b -> Forall (fun x => x <> slash) a -> strchr_from slash start i = Some (i + length a)%nat.
Proof.
  intros E Ha. unfold strchr_from. rewrite E, list_find_app_r; [|by apply list_find_None]. cbn [list_find]. rewrite decide_True by done. done.
Qed.

Section loop.
Variable flags : Z.
Hypothesis Hperiod : has flags FNM_PERIOD = false.

Lemma wild_slash x : has flags FNM_PATHNAME = true -> (wild flags x = true <-> x <> slash).
Proof. intros Hp. unfold wild. rewrite Hp, andb_true_r. destruct (Z.eqb_spec x slash); cbn; split; done. Qed.

Lemma wild_all x : has flags FNM_PATHNAME = false -> wild flags x = true.
Proof. intros Hp. unfold wild. by rewrite Hp, andb_false_r. Qed.

Lemma no_leading_period start i : leading_period flags start i = false.
Proof. unfold leading_period. by rewrite Hperiod, andb_false_r. Qed.

Lemma match_char_spec c p start i : c <> 0 ->
  match_char flags c p start i = match drop i start with [] => Match_done FNM_NOMATCH | x :: _ => if same flags c x then Match_more p (S i) else Match_done FNM_NOMATCH end.
Proof.
  intros Hc. unfold match_char. rewrite (at_drop start i). destruct (drop i start) as [|x t].
  - rewrite at_nil. unfold EOS. rewrite (proj2 (Z.eqb_neq c 0)) by done. destruct (Z.eqb_spec (tolower c) (tolower 0)) as [E|_]; [by apply tolower_zero in E|by rewrite andb_false_r].
  - cbn [at_ nth]. unfold same. by destruct (c =? x), (has flags FNM_CASEFOLD && (tolower c =? tolower x)).
Qed.

(** What a pass has to leave. *)
Definition verdict (r : Z) (P : Prop) : Prop := (r = 0 \/ r = FNM_NOMATCH) /\ (r = 0 <-> P).
Definition pass_ok (p start : list Z) (i : nat) (x : match_step) : Prop :=
  match x with
  | Match_done r => verdict r (glob flags p (drop i start))
  | Match_more p' i' => (exists c q k, p = c :: q /\ p' = drop k q) /\ (i' <= length start)%nat /\ (glob flags p (drop i start) <-> glob flags p' (drop i' start))
  end.

Lemma verdict_no P : ~ P -> verdict FNM_NOMATCH P.
Proof. intros HP. split; [by right|]. by split. Qed.
Lemma verdict_yes (P : Prop) : P -> verdict 0 P.
Proof. intros HP. split; [by left|done]. Qed.

Variable rec : list Z -> list Z -> Z -> option Z.
Variables (level : nat) (level_zero : bool) (fuel : nat).

Hypothesis Hlevel : level_zero = true -> level = 0%nat.
Hypothesis Hrec : level_zero = false -> forall p s, Forall nonzero_byte p -> Forall nonzero_byte s -> (stars p < level)%nat -> (length p + 1 < fuel)%nat ->
  exists r, rec p s flags = Some r /\ verdict r (glob flags p s).

Lemma flags_same : Z.land flags (Z.lnot FNM_PERIOD) = flags.
Proof.
  apply Z.bits_inj'. intros n Hn. rewrite Z.land_spec, Z.lnot_spec by done. unfold has in Hperiod. apply negb_false_iff, Z.eqb_eq in Hperiod.
  pose proof (f_equal (fun z => Z.testbit z n) Hperiod) as Hb. cbn beta in Hb. rewrite Z.land_spec, Z.testbit_0_l in Hb.
  destruct (Z.testbit flags n), (Z.testbit FNM_PERIOD n); done.
Qed.

(** The general case: the rest of the pattern is tried at every place. *)
Lemma star_loop_spec c p : level_zero = false -> c <> star -> Forall nonzero_byte (c :: p) -> (stars (c :: p) < level)%nat -> (length (c :: p) + 1 < fuel)%nat -> forall s, Forall nonzero_byte s ->
  exists r, star_loop rec flags (c :: p) s = Some r /\ verdict r (glob flags (star :: c :: p) s).
Proof.
  intros Hz Hc Hp Hst Hfu. induction s as [|x s IH]; intros Hs.
  - exists FNM_NOMATCH. split; [done|]. apply verdict_no. intros Hg. apply glob_star_iff in Hg as (a & b & E & _ & Hg). symmetry in E. apply app_eq_nil in E as [-> ->]. by apply glob_nonempty in Hg.
  - cbn [star_loop]. rewrite flags_same. destruct (Hrec Hz (c :: p) (x :: s) Hp Hs Hst Hfu) as (r & -> & [Hr Hg]). cbn [mbind option_bind]. destruct Hr as [->| ->].
    { exists 0. split; [done|]. apply verdict_yes, glob_star_end. by apply Hg. }
    assert (~ glob flags (c :: p) (x :: s)) as Hn by (intros Hx; by apply Hg in Hx). change (FNM_NOMATCH =? 0) with false. change (FNM_NOMATCH =? - FNM_NOMATCH) with false. cbv iota.
    apply Forall_cons in Hs as [_ Hs]. destruct (IH Hs) as (r & Er & [Hr Hv]).
    assert (glob flags (star :: c :: p) (x :: s) <-> wild flags x = true /\ glob flags (star :: c :: p) s) as Hiff.
    { split; [|intros [? ?]; by apply glob_star_eat]. intros Hx. apply glob_star_iff in Hx as (a & b & E & Ha & Hb). destruct a as [|y a]; [cbn in E; by subst b|]. injection E as -> ->.
      apply Forall_cons in Ha as [Hw Ha]. split; [done|]. apply glob_star_iff. by exists a, b. }
    destruct ((x =? slash) && has flags FNM_PATHNAME) eqn:Ew.
    + exists FNM_NOMATCH. split; [done|]. apply verdict_no. rewrite Hiff. unfold wild. rewrite Ew. by intros [? _].
    + exists r. split; [done|]. split; [done|]. rewrite Hiff, Hv. unfold wild. rewrite Ew. cbn. tauto.
Qed.

Lemma match_star_spec p start i : Forall nonzero_byte p -> Forall nonzero_byte start -> (i <= length start)%nat -> (stars (star :: p) <= level)%nat -> (length p + 1 < fuel)%nat ->
  exists x, match_star rec level_zero flags p start i = Some x /\ pass_ok (star :: p) start i x.
Proof.
  intros Hp Hs Hi Hst Hfu. rewrite stars_star in Hst. unfold match_star. rewrite no_leading_period. destruct (skip_stars_rest p) as (k & Ek & Hne). set (t := drop i start).
  assert (Forall nonzero_byte (skip_stars p)) as Hp1 by (rewrite Ek; by apply Forall_drop). assert (Forall nonzero_byte t) as Ht by by apply Forall_drop.
  assert (stars (skip_stars p) <= stars p)%nat as Hst1 by (rewrite Ek; apply stars_drop). assert (length (skip_stars p) <= length p)%nat as Hl1 by (rewrite Ek, length_drop; lia).
  destruct (skip_stars p) as [|c p1] eqn:Eq; cbn [at_ nth] in *.
  - change (EOS =? EOS) with true. cbv iota. destruct (has flags FNM_PATHNAME) eqn:Epn; (eexists; split; [done|]).
    + destruct (slash_split t) as [Hns|(a & b & Et & Ha)].
      * rewrite (strchr_none t) by done. replace (if has flags FNM_LEADING_DIR then 0 else 0) with 0 by by destruct (has flags FNM_LEADING_DIR). apply verdict_yes; fold t; rewrite glob_skip_stars, Eq; apply glob_star_iff. exists t, []. split_and!; [by rewrite app_nil_r| |constructor].
        eapply Forall_impl; [exact Hns|]. intros x. by apply wild_slash.
      * rewrite (strchr_some a b) by done. assert (Forall (fun x => wild flags x = true) a) as Hwa by (eapply Forall_impl; [exact Ha|]; intros x; by apply wild_slash). destruct (has flags FNM_LEADING_DIR) eqn:Eld.
        -- apply verdict_yes; fold t; rewrite glob_skip_stars, Eq; apply glob_star_iff. exists a, (slash :: b). split_and!; [done..|by apply glob_dir].
        -- apply verdict_no. fold t. rewrite glob_skip_stars, Eq. intros Hg. apply glob_star_iff in Hg as (a' & b' & E & Hw & Hg). inversion Hg as [|? Hld| | | | | | | |]; subst; [|congruence].
           rewrite app_nil_r in E. rewrite Et in E. rewrite <- E in Hw. apply Forall_app in Hw as [_ [Hw _]%Forall_cons]. by apply (wild_slash slash Epn) in Hw.
    + apply verdict_yes; fold t; rewrite glob_skip_stars, Eq; apply glob_star_iff. exists t, []. split_and!; [by rewrite app_nil_r| |constructor]. apply Forall_forall. intros x _. by apply wild_all.
  - assert (c <> EOS) as Hc0 by (apply Forall_cons in Hp1 as [Hb _]; unfold nonzero_byte in Hb; unfold EOS; lia). rewrite (proj2 (Z.eqb_neq c EOS)) by done.
    destruct ((c =? slash) && has flags FNM_PATHNAME) eqn:Esl.
    + apply andb_prop in Esl as [->%Z.eqb_eq Epn]. eexists. split; [done|]. destruct (slash_split t) as [Hns|(a & b & Et & Ha)].
      * rewrite (strchr_none t) by done. apply verdict_no. fold t. rewrite glob_skip_stars, Eq. intros Hg. apply glob_star_iff in Hg as (a & b & E & _ & Hg).
        rewrite E in Hns. apply Forall_app in Hns as [_ Hns]. inversion Hg as [| | | | | | | | |? ? x ? _ Hx]; subst. apply same_slash in Hx as ->. by apply Forall_cons in Hns as [? _].
      * rewrite (strchr_some a b) by done. split_and!; [by eexists _, _, k|pose proof (f_equal length Et) as El; unfold t in El; rewrite length_drop, length_app in El; cbn in El; lia|].
        fold t. replace (drop (i + length a) start) with (slash :: b) by (rewrite <- drop_drop; fold t; rewrite Et, drop_app_length; done). rewrite glob_skip_stars, Eq, glob_star_iff. split.
        -- intros (a' & b' & E & Hw & Hg). inversion Hg as [| | | | | | | | |? ? x s' _ Hx]; subst. apply same_slash in Hx as ->.
           assert (a' = a) as ->; [|rewrite Et in E; apply app_inv_head in E; injection E as ->; done].
           assert (Forall (fun x => x <> slash) a') as Ha' by (eapply Forall_impl; [exact Hw|]; intros x; by apply wild_slash). clear -Et E Ha Ha'. rewrite Et in E. clear Et. revert a' E Ha'.
           induction a as [|x a IH]; intros [|y a'] E Ha'; [done|injection E as <- _; apply Forall_cons in Ha' as [X _]; by destruct X|injection E as -> _; apply Forall_cons in Ha as [X _]; by destruct X|].
           injection E as -> E. apply Forall_cons in Ha as [_ Ha]. apply Forall_cons in Ha' as [_ Ha']. f_equal. by apply IH.
        -- intros Hg. exists a, (slash :: b). split_and!; [done| |done]. eapply Forall_impl; [exact Ha|]. intros x. by apply wild_slash.
    + destruct (Bool.bool_dec level_zero true) as [Ez|Ez%not_true_is_false]; [pose proof (Hlevel Ez); lia|]. rewrite Ez. destruct (star_loop_spec c p1 Ez Hne Hp1 ltac:(lia) ltac:(lia) t Ht) as (r & -> & Hv). eexists. split; [done|].
      cbn [pass_ok]. fold t. destruct Hv as [Hr Hv]. split; [done|]. by rewrite glob_skip_stars, Eq.
Qed.

(** One character of the pattern against one of the string. *)
Lemma char_pass_ok c p p' start i : c <> 0 -> (exists c q k, p = c :: q /\ p' = drop k q) ->
  (forall x t, drop i start = x :: t -> (glob flags p (x :: t) <-> same flags c x = true /\ glob flags p' t)) -> (~ glob flags p [] \/ drop i start <> []) ->
  pass_ok p start i (match_char flags c p' start i).
Proof.
  intros Hc Hp' Hg Hn. rewrite match_char_spec by done. destruct (drop i start) as [|x t] eqn:Et.
  - destruct Hn as [Hn|Hn]; [|done]. cbn [pass_ok]. rewrite Et. by apply verdict_no.
  - destruct (drop_cons_S start i x t Et) as [Et' Hi]. specialize (Hg x t eq_refl). destruct (same flags c x); cbn [pass_ok]; rewrite Et.
    + split_and!; [done|lia|]. rewrite Et', Hg. tauto.
    + apply verdict_no. rewrite Hg. by intros [? _].
Qed.

Lemma match_bracket_spec p start i : Forall nonzero_byte start -> (i <= length start)%nat -> (length p + 1 < fuel)%nat ->
  exists x, match_bracket fuel flags lbracket p start i = Some x /\ pass_ok (lbracket :: p) start i x.
Proof.
  intros Hs Hi Hf. unfold match_bracket. rewrite no_leading_period, (at_drop start i). destruct (drop i start) as [|x t] eqn:Et.
  - rewrite at_nil. change (EOS =? EOS) with true. eexists. split; [done|]. cbn [pass_ok]. rewrite Et. apply verdict_no. by apply glob_nonempty.
  - cbn [at_ nth]. assert (nonzero_byte x) as Hx by (apply (Forall_drop _ i) in Hs; rewrite Et in Hs; by apply Forall_cons in Hs as [? _]). unfold nonzero_byte in Hx. rewrite (proj2 (Z.eqb_neq x EOS)) by (unfold EOS; lia).
    destruct ((x =? slash) && has flags FNM_PATHNAME) eqn:Ew.
    { eexists. split; [done|]. cbn [pass_ok]. rewrite Et. apply verdict_no. intros Hg. inversion Hg as [| | | | |? ? ? ? Hw|? ? ? Hw| | |]; subst; try done; by (unfold wild in Hw; rewrite Ew in Hw). }
    assert (wild flags x = true) as Hw by (unfold wild; by rewrite Ew). destruct (rangematch_total flags p x) as [Er Hq]. rewrite Er by done. cbn [mbind option_bind]. eexists. split; [done|].
    destruct (drop_cons_S start i x t Et) as [Et' Hi']. destruct (bracket flags p x) as [q| |] eqn:Eb.
    + destruct (Hq q eq_refl) as [k Hk]. cbn [pass_ok]. rewrite Et, Et'. split_and!; [by eexists _, _, (S k)|lia|]. split; [|by eapply glob_set]. intros Hg. inversion Hg; subst; try done; congruence.
    + cbn [pass_ok]. rewrite Et. apply verdict_no. intros Hg. inversion Hg; subst; try done; congruence.
    + apply (char_pass_ok lbracket); [done|by eexists _, _, 0%nat| |rewrite Et; by right]. intros x' t' Ex. rewrite Et in Ex. injection Ex as <- <-. split; [|intros [? ?]; by apply glob_no_set].
      intros Hg. inversion Hg; subst; try done; congruence.
Qed.

Lemma match_pass_spec p start i : Forall nonzero_byte p -> Forall nonzero_byte start -> (i <= length start)%nat -> (stars p <= level)%nat -> (length p < fuel)%nat ->
  exists x, match_pass rec level_zero fuel flags p start i = Some x /\ pass_ok p start i x.
Proof.
  intros Hp Hs Hi Hst Hf. unfold match_pass. destruct p as [|c p]; cbn [at_ nth drop].
  - change (EOS =? EOS) with true. cbv iota. eexists. split; [done|]. cbn [pass_ok]. fold (at_ start i). rewrite (at_drop start i). pose proof (Forall_drop _ i _ Hs) as Ht. destruct (drop i start) as [|x t].
    + rewrite at_nil. rewrite andb_false_r. change (EOS =? EOS) with true. apply verdict_yes. constructor.
    + cbn [at_ nth]. apply Forall_cons in Ht as [Hx _]. unfold nonzero_byte in Hx. rewrite (proj2 (Z.eqb_neq x EOS)) by (unfold EOS; lia). destruct (has flags FNM_LEADING_DIR && (x =? slash)) eqn:El.
      * apply andb_prop in El as [El ->%Z.eqb_eq]. by apply verdict_yes, glob_dir.
      * apply verdict_no. intros Hg. inversion Hg; subst. by rewrite H1 in El.
  - fold (at_ start i). apply Forall_cons in Hp as [Hc Hp]. unfold nonzero_byte in Hc. rewrite (proj2 (Z.eqb_neq c EOS)) by (unfold EOS; lia). cbn [length] in Hf. destruct (Z.eqb_spec c question) as [->|Hq].
    { eexists. split; [done|]. rewrite no_leading_period, (at_drop start i). pose proof (Forall_drop _ i _ Hs) as Ht. destruct (drop i start) as [|x t] eqn:Et.
      - rewrite at_nil. change (EOS =? EOS) with true. cbn [pass_ok]. rewrite Et. apply verdict_no. by apply glob_nonempty.
      - cbn [at_ nth]. apply Forall_cons in Ht as [Hx _]. unfold nonzero_byte in Hx. rewrite (proj2 (Z.eqb_neq x EOS)) by (unfold EOS; lia). destruct (drop_cons_S start i x t Et) as [Et' Hi'].
        destruct ((x =? slash) && has flags FNM_PATHNAME) eqn:Ew; cbn [pass_ok]; rewrite Et.
        + apply verdict_no. intros Hg. inversion Hg as [| |? ? ? Hw| | | | | | |]; subst; try done. unfold wild in Hw. by rewrite Ew in Hw.
        + rewrite Et'. split_and!; [by eexists _, _, 0%nat|lia|]. split; [intros Hg; by inversion Hg|]. intros Hg. apply glob_any; [|done]. unfold wild. by rewrite Ew. }
    destruct (Z.eqb_spec c star) as [->|Hstar]; [by apply match_star_spec; try lia|]. destruct (Z.eqb_spec c lbracket) as [->|Hb]; [by apply match_bracket_spec; try lia|].
    destruct ((c =? backslash) && negb (has flags FNM_NOESCAPE)) eqn:Ee.
    + apply andb_prop in Ee as [->%Z.eqb_eq Ee%negb_true_iff]. destruct p as [|c' p]; cbn [at_ nth drop].
      * change (EOS =? EOS) with true. eexists. split; [done|]. apply (char_pass_ok backslash); [done|by eexists _, _, 0%nat| |left; by apply glob_nonempty].
        intros x t _. split; [|intros [? ?]; by apply glob_escape_end]. intros Hg. inversion Hg as [| | | | | | | |? ? ? ? ?|? ? ? ? Hsp]; subst; [done|]. unfold special in Hsp. by rewrite Ee in Hsp.
      * apply Forall_cons in Hp as [Hc' Hp]. unfold nonzero_byte in Hc'. rewrite (proj2 (Z.eqb_neq c' EOS)) by (unfold EOS; lia). eexists. split; [done|]. apply (char_pass_ok c'); [lia|by eexists _, _, 1%nat| |left; by apply glob_nonempty].
        intros x t _. split; [|intros [? ?]; by apply glob_escape]. intros Hg. inversion Hg as [| | | | | | |? ? ? ? ? ? ?| |? ? ? ? Hsp]; subst; [done|]. unfold special in Hsp. by rewrite Ee in Hsp.
    + eexists. split; [done|]. assert (special flags c = false) as Hsp by (unfold special; rewrite !(proj2 (Z.eqb_neq c _)) by done; by rewrite Ee).
      apply (char_pass_ok c); [lia|by eexists _, _, 0%nat| |left; by apply glob_nonempty]. intros x t _. split; [|intros [? ?]; by apply glob_char]. intros Hg. inversion Hg; subst; try done; match goal with Hn : has flags FNM_NOESCAPE = false |- _ => by rewrite Hn in Ee end.
Qed.

Lemma match_loop_spec : forall n p start i, Forall nonzero_byte p -> Forall nonzero_byte start -> (i <= length start)%nat -> (stars p <= level)%nat -> (length p < fuel)%nat -> (length p < n)%nat ->
  exists r, match_loop rec level_zero fuel n flags p start i = Some r /\ verdict r (glob flags p (drop i start)).
Proof.
  induction n as [|n IH]; intros p start i Hp Hs Hi Hst Hf Hn; [lia|]. cbn [match_loop]. destruct (match_pass_spec p start i Hp Hs Hi Hst Hf) as (x & -> & Hx). cbn [mbind option_bind].
  destruct x as [r|p' i']; [by exists r|]. destruct Hx as ((c & q & k & -> & ->) & Hi' & Hiff). cbn [length] in Hf, Hn.
  destruct (IH (drop k q) start i') as (r & Er & [Hr Hv]); try done.
  - apply Forall_cons in Hp as [_ Hp]. by apply Forall_drop.
  - etransitivity; [|exact Hst]. etransitivity; [apply stars_drop|]. apply (stars_drop (c :: q) 1).
  - rewrite length_drop. lia.
  - rewrite length_drop. lia.
  - exists r. split; [done|]. split; [done|]. by rewrite Hiff.
Qed.
End loop.

Lemma fnmatch_level_spec flags fuel : has flags FNM_PERIOD = false -> forall level p s, Forall nonzero_byte p -> Forall nonzero_byte s -> (stars p <= level)%nat -> (length p < fuel)%nat ->
  exists r, _fnmatch fuel level p s flags = Some r /\ verdict r (glob flags p s).
Proof.
  intros Hpe. induction level as [|level IH]; intros p s Hp Hs Hst Hf; cbn [_fnmatch].
  - by apply (match_loop_spec flags Hpe (fun _ _ _ => None) 0 true fuel) with (i := 0%nat); try lia.
  - apply (match_loop_spec flags Hpe (_fnmatch fuel level) (S level) false fuel) with (i := 0%nat); try done; try lia.
    intros _ p' s' Hp' Hs' Hst' Hf'. apply IH; try done; lia.
Qed.

(** ** What a bracket expression stands for *)

(** The elements of an expression: a character, a range, or one of the classes. *)
Inductive item :=
| One (c : Z)
| Span (a b : Z)
| Class_ (n : nat).

Definition class_name (n : nat) : list Z := match classes !! n with Some (name, _) => name | None => [] end.
Definition class_has (n : nat) (x : Z) : bool := match classes !! n with Some (_, func) => func x | None => false end.

Definition print_item (it : item) : list Z :=
  match it with
  | One c => [c]
  | Span a b => [a; 45; b]
  | Class_ n => [lbracket; 58] ++ class_name n ++ [58; rbracket]
  end.

Definition fold_case (flags c : Z) : Z := if has flags FNM_CASEFOLD then tolower c else c.

Definition item_has (flags x : Z) (it : item) : bool :=
  match it with
  | One c => fold_case flags c =? x
  | Span a b => (fold_case flags a <=? x) && (x <=? fold_case flags b)
  | Class_ n => class_has n x
  end.

(** A character that stands for itself everywhere in an expression. *)
Definition plain (c : Z) : Prop := 0 < c < 256 /\ c <> backslash /\ c <> lbracket /\ c <> rbracket /\ c <> slash /\ c <> 45 /\ c <> 33 /\ c <> 94.
Definition item_ok (it : item) : Prop :=
  match it with
  | One c => plain c
  | Span a b => plain a /\ plain b
  | Class_ n => (n < length classes)%nat
  end.

Definition print_items (its : list item) : list Z := concat (map print_item its).

Lemma range_pass_plain flags x c p ok : plain c -> range_pass flags x c p ok = range_or_char flags x c p ok.
Proof.
  intros (H0 & H1 & H2 & H3 & H4 & _). unfold range_pass, range_class. rewrite (proj2 (Z.eqb_neq c backslash)) by done. cbn [andb]. cbv iota beta.
  rewrite (proj2 (Z.eqb_neq c EOS)), (proj2 (Z.eqb_neq c slash)), (proj2 (Z.eqb_neq c lbracket)) by (done || unfold EOS; lia). cbn [andb]. cbv iota beta. by rewrite (proj2 (Z.eqb_neq c lbracket)).
Qed.

Lemma range_pass_class flags x n p ok : (n < length classes)%nat ->
  range_pass flags x lbracket (58 :: class_name n ++ 58 :: rbracket :: p) ok = Range_more p (if class_has n x then true else ok).
Proof. intros Hn. do 12 (destruct n as [|n]; [reflexivity|]). cbn in Hn. lia. Qed.

Lemma plain_tests c : plain c -> (c =? EOS) = false /\ (c =? rbracket) = false /\ (c =? backslash) = false.
Proof. intros (H0 & H1 & H2 & H3 & _). rewrite !(proj2 (Z.eqb_neq c _)) by (done || unfold EOS; lia). done. Qed.

Lemma range_pass_item flags x it q ok : item_ok it -> at_ q 0 <> 45 -> exists c p, print_item it ++ q = c :: p /\ range_pass flags x c p ok = Range_more q (ok || item_has flags x it).
Proof.
  intros Hit Hq. destruct it as [c|a b|n]; cbn [print_item item_ok item_has] in *.
  - exists c, q. split; [done|]. rewrite range_pass_plain by done. unfold range_or_char. rewrite (proj2 (Z.eqb_neq (at_ q 0) 45)) by done. cbn [andb]. fold (fold_case flags c). by destruct (fold_case flags c =? x), ok.
  - destruct Hit as [Ha Hb]. exists a, (45 :: b :: q). split; [done|]. rewrite range_pass_plain by done. unfold range_or_char. cbn [at_ nth drop]. destruct (plain_tests b Hb) as (Eb & -> & ->). rewrite Eb. change (45 =? 45) with true. cbn [andb negb]. rewrite Eb, drop_0.
    fold (fold_case flags a) (fold_case flags b). by destruct ((fold_case flags a <=? x) && (x <=? fold_case flags b)), ok.
  - eexists lbracket, _. split; [by cbn; rewrite <- app_assoc|]. cbn [app]. rewrite range_pass_class by done. by destruct (class_has n x), ok.
Qed.

Lemma item_head it q : item_ok it -> at_ (print_item it ++ q) 0 <> 45 /\ at_ (print_item it ++ q) 0 <> rbracket.
Proof. destruct it as [c|a b|n]; cbn; [intros (? & ? & ? & ? & ? & ? & _); done|intros [(? & ? & ? & ? & ? & ? & _) _]; done|done]. Qed.

Lemma range_items flags x neg rest : forall its it ok f c p, item_ok it -> Forall item_ok its -> print_items (it :: its) ++ rbracket :: rest = c :: p -> (length its < f)%nat ->
  range_loop f flags x neg c p ok = Some (if eqb (ok || existsb (item_has flags x) (it :: its)) neg then RANGE_NOMATCH else RANGE_MATCH rest).
Proof.
  induction its as [|it' its IH]; intros it ok f c p Hit Hits Ep Hf; (destruct f as [|f]; [cbn in Hf; lia|]); cbn [range_loop].
  - cbn [print_items concat map] in Ep. unfold print_items in Ep. cbn [map concat] in Ep. rewrite app_nil_r in Ep. destruct (range_pass_item flags x it (rbracket :: rest) ok Hit) as (c' & p' & E & E'); [done|]. rewrite E in Ep. injection Ep as -> ->.
    rewrite E'. cbn [at_ nth drop existsb]. change (rbracket =? rbracket) with true. by rewrite orb_false_r.
  - apply Forall_cons in Hits as [Hit' Hits]. unfold print_items in Ep. cbn [map concat] in Ep. rewrite <- app_assoc in Ep. change (print_item it' ++ concat (map print_item its)) with (print_items (it' :: its)) in Ep.
    set (q := print_items (it' :: its) ++ rbracket :: rest) in *. assert (at_ q 0 <> 45 /\ at_ q 0 <> rbracket) as [Hq1 Hq2] by (unfold q, print_items; cbn [map concat]; rewrite <- app_assoc; by apply item_head).
    destruct (range_pass_item flags x it q ok Hit Hq1) as (c' & p' & E & E'). rewrite E in Ep. injection Ep as -> ->. rewrite E'. destruct q as [|c1 p1] eqn:Eq; [by apply app_eq_nil in Eq as [_ ?]|]. cbn [at_ nth drop] in *.
    rewrite (proj2 (Z.eqb_neq c1 rbracket)) by done. rewrite (IH it' _ f c1 p1 Hit' Hits Eq ltac:(cbn in Hf; lia)). cbn [existsb]. by rewrite <- orb_assoc.
Qed.

(** The whole expression, behind its opening bracket. *)
Lemma rangematch_items flags x (neg : bool) its rest fuel : its <> [] -> Forall item_ok its -> (length its < fuel)%nat ->
  rangematch fuel ((if neg then [33] else []) ++ print_items its ++ rbracket :: rest) x flags =
    Some (if eqb (existsb (item_has flags (fold_case flags x)) its) neg then RANGE_NOMATCH else RANGE_MATCH rest).
Proof.
  intros Hne Hits Hf. destruct its as [|it its]; [done|]. apply Forall_cons in Hits as [Hit Hits]. destruct (print_items (it :: its) ++ rbracket :: rest) as [|c p] eqn:Ep; [by destruct (print_items (it :: its))|].
  assert (c <> 33 /\ c <> 94) as [H1 H2].
  { unfold print_items in Ep. cbn [map concat] in Ep. rewrite <- app_assoc in Ep. destruct it as [d|d e|n]; cbn in Ep; injection Ep as <- _; [apply Hit..|done]. }
  unfold rangematch. fold (fold_case flags x). destruct neg; cbn [app at_ nth drop].
  - change (33 =? 33) with true. cbn [orb]. cbv iota. cbn [at_ nth drop]. change (eqb (existsb ?f ?l) true) with (eqb (false || existsb f l) true).
    by apply range_items; [..|cbn in Hf; lia].
  - rewrite (proj2 (Z.eqb_neq c 33)), (proj2 (Z.eqb_neq c 94)) by done. cbn [orb]. cbv iota. cbn [at_ nth drop].
    change (eqb (existsb ?f ?l) false) with (eqb (false || existsb f l) false). by apply range_items; [..|cbn in Hf; lia].
Qed.
