(* ===== verification/FnmatchProps.v ===== *)
(** * Character classes and matching of file names: what they guarantee *)

From stdpp Require Import base list.
From Stdlib Require Import ZArith Lia.
From S2P Require Import Prelude CMem StrLocal Demo Strto Ctype Fnmatch FnmatchSpec.

Local Open Scope Z_scope.

(** Each of the twelve classification functions is defined on the characters from
    -128 to 255 in the build with the table, and is true there on the characters of
    the ranges of the small build. *)
Theorem ctype_table_correct f g c : (f, g) ∈ ctype_pairs -> -128 <= c <= 255 -> exists v, f c = Some v /\ (v <> 0 <-> g c = true).
Proof. intros Hp. by apply (proj1 (Forall_forall _ _) ctype_pairs_agree (f, g)). Qed.



(** ** Concrete patterns *)

Lemma ctype_table_witness : exists v, isalpha_table 65 = Some v /\ (v <> 0 <-> isalpha 65 = true).
Proof. apply (ctype_table_correct isalpha_table isalpha 65); [right; left|lia]. Defined.



(** A leading period behind a slash is matched by a star when another star comes
    before the slash in the general case: FNM_PERIOD is dropped for the rest of the
    pattern.  The pattern axb/* does not match axb/.c, but a*b/* does. *)
Example leading_period_lost :
  fnmatch 99 [97; 120; 98; 47; 42] [97; 120; 98; 47; 46; 99] (Z.lor FNM_PATHNAME FNM_PERIOD) = Some FNM_NOMATCH /\
  fnmatch 99 [97; 42; 98; 47; 42] [97; 120; 98; 47; 46; 99] (Z.lor FNM_PATHNAME FNM_PERIOD) = Some 0.
Proof. vm_compute. done. Qed.

(** With seventeen stars the search is given up with a result that is neither 0 nor
    FNM_NOMATCH, although the string matches. *)
Example too_many_stars :
  fnmatch 99 (concat (replicate 17 [42; 97])) (replicate 17 97) 0 = Some (- FNM_NOMATCH) /\
  fnmatch 99 (concat (replicate 16 [42; 97])) (replicate 17 97) 0 = Some 0.
Proof. vm_compute. done. Qed.
