(* ===== verification/Uchar.v ===== *)
(** * Characters of 8, 16 and 32 bits (libc/uchar, libc/stdlib/wcrtomb.c, mbrtowc.c)

    The conversions between the multibyte encoding, UTF-8, and the units of char8_t,
    char16_t and char32_t, for a 32-bit wchar_t.  A character that has more units
    than one is converted by several calls, between which the conversion state holds
    what is known of it.  The state is the one the call is given, or the function's
    own when that is null. *)

From stdpp Require Import base list gmap.
From Stdlib Require Import ZArith Lia.
From S2P Require Import Prelude CMem StrLocal Malloc Utf8.

Local Open Scope Z_scope.

(** ** State *)

(** [mbstate_t]: its union holds the bytes that were seen or, in their place, the
    32-bit number __ucs, here as on a little-endian machine. *)
Record cstate := Cs { cs_mb : mbstate; wchb3 : Z }.

Definition cs_count (ps : cstate) : Z := __count (cs_mb ps).
Definition __ucs (ps : cstate) : Z := wchb0 (cs_mb ps) + 2 ^ 8 * wchb1 (cs_mb ps) + 2 ^ 16 * wchb2 (cs_mb ps) + 2 ^ 24 * wchb3 ps.

Definition set_cs_count (ps : cstate) (c : Z) : cstate := Cs (with_count (cs_mb ps) c) (wchb3 ps).
Definition set_ucs (ps : cstate) (v : Z) : cstate :=
  Cs (Mb (cs_count ps) (v mod 2 ^ 8) (v / 2 ^ 8 mod 2 ^ 8) (v / 2 ^ 16 mod 2 ^ 8)) (v / 2 ^ 24 mod 2 ^ 8).

(** Memory, errno and the conversion state that the call is given. *)
Record ustate := Us { u_mem : mem; u_errno : Z; u_ps : cstate }.

Definition EILSEQ : Z := 138.

Section uchar.
Context `{Arch}.

Abbreviation M A := (C ustate A).

Definition get_ps : M cstate := fun s => Some (u_ps s, s).
Definition put_ps (ps : cstate) : M unit := fun s => Some (tt, Us (u_mem s) (u_errno s) ps).
Definition set_uerrno (e : Z) : M unit := fun s => Some (tt, Us (u_mem s) e (u_ps s)).

(** ** stdlib/wcrtomb.c, stdlib/mbrtowc.c *)

Definition SIZE_ERR : Z := size_t (-1).

(** Without a string the character is a null, which goes to a local buffer. *)
Definition wctomb_call (s wc : Z) : M Z := fun st =>
  if s =? NULL then Some (1, st)
  else match __utf8_wctomb s wc (u_mem st) with Some (r, m) => Some (r, Us m (u_errno st) (u_ps st)) | None => None end.

Definition wcrtomb (s wc : Z) : M Z :=
  do retval <- wctomb_call s wc;
  if retval =? -1 then
    do ps <- get_ps;
    run put_ps (set_cs_count ps 0);
    run set_uerrno EILSEQ;
    ret SIZE_ERR
  else ret (size_t retval).

(** Without a string the input is the empty string, and nothing is stored. *)
Definition mbtowc_call (s n : Z) : M (Z * option Z) := fun st =>
  let '(m, t, k) := if s =? NULL then ({[1 := 0]} : mem, 1, 1) else (u_mem st, s, n) in
  match __utf8_mbtowc m t k (cs_mb (u_ps st)) with
  | Some (r, wc, mb) => Some ((r, if s =? NULL then None else wc), Us (u_mem st) (u_errno st) (Cs mb (wchb3 (u_ps st))))
  | None => None
  end.

(** The result, and the character that is stored. *)
Definition mbrtowc (s n : Z) : M (Z * option Z) :=
  do '(retval, wc) <- mbtowc_call s n;
  if retval =? -1 then
    do ps <- get_ps;
    run put_ps (set_cs_count ps 0);
    run set_uerrno EILSEQ;
    ret (SIZE_ERR, wc)
  else ret (size_t retval, wc).

(** ** uchar/uchar-local.h *)

Definition HIGH_SURROGATE_FIRST : Z := 0xd800.
Definition HIGH_SURROGATE_LAST : Z := 0xdbff.
Definition LOW_SURROGATE_FIRST : Z := 0xdc00.
Definition LOW_SURROGATE_LAST : Z := 0xdfff.

Definition char8_is_one_byte (c : Z) : bool := c <=? 0x7f.
Definition char8_is_first_byte (c : Z) : bool := 0xc0 <=? c.
Definition char16_is_high_surrogate (c : Z) : bool := (HIGH_SURROGATE_FIRST <=? c) && (c <=? HIGH_SURROGATE_LAST).
Definition char16_is_low_surrogate (c : Z) : bool := (LOW_SURROGATE_FIRST <=? c) && (c <=? LOW_SURROGATE_LAST).
Definition char32_is_one_byte (c : Z) : bool := c <=? 0x7f.
Definition char32_is_surrogate (c : Z) : bool := (HIGH_SURROGATE_FIRST <=? c) && (c <=? LOW_SURROGATE_LAST).
Definition char32_is_valid (c : Z) : bool := (c <=? 0x10ffff) && negb (char32_is_surrogate c).

(** ** uchar/c32rtomb.c, c16rtomb.c, c8rtomb.c *)

Definition illegal : M Z := run set_uerrno EILSEQ; ret SIZE_ERR.

Definition c32rtomb (s c32 : Z) : M Z :=
  if negb (char32_is_valid c32) then illegal else wcrtomb s (swrap 32 c32).

Definition c16rtomb (s c16 : Z) : M Z :=
  do ps <- get_ps;
  if cs_count ps =? -1 then
    run put_ps (set_cs_count ps 0);
    if char16_is_low_surrogate c16 then wcrtomb s (swrap 32 (Z.lor (__ucs ps) (Z.land c16 0x3ff)))
    else illegal
  else if char16_is_high_surrogate c16 then
    run put_ps (set_cs_count (set_ucs ps (uwrap 32 (Z.shiftl (Z.land c16 0x3ff) 10 + 0x10000))) (-1));
    ret 0
  else wcrtomb s (swrap 32 c16).

(** [while ((c8 & (1 << (6 - count))) != 0)], from count 1 to 5; None is EILSEQ. *)
Fixpoint c8_count (fuel : nat) (c8 count : Z) : option Z :=
  match fuel with
  | O => None
  | S f =>
      if negb (Z.land c8 (Z.shiftl 1 (6 - count)) =? 0) then
        if 4 <? count then None else c8_count f c8 (count + 1)
      else Some count
  end.

Definition c8rtomb (s c8 : Z) : M Z :=
  let c8 := if s =? NULL then 0 else c8 in
  do ps <- get_ps;
  if char8_is_one_byte c8 then
    if negb (cs_count ps =? 0) then illegal
    else wcrtomb s (swrap 32 c8)
  else if char8_is_first_byte c8 then
    if negb (cs_count ps =? 0) || (c8 <=? 0xc1) then illegal
    else
      match c8_count 6 c8 1 with
      | None => illegal
      | Some count =>
          let c32 := uwrap 32 (Z.shiftl (Z.land c8 (Z.shiftl 1 (6 - count) - 1)) (6 * count)) in
          if negb (char32_is_valid c32) then illegal
          else
            run put_ps (set_cs_count (set_ucs ps c32) (- count));
            ret 0
      end
  else
    let count := - cs_count ps in
    let c8 := Z.land c8 0x3f in
    if (count =? 0) || ((__ucs ps =? 0) && (c8 <? Z.shiftr 0x80 count)) then illegal
    else
      let count := count - 1 in
      let c32 := Z.lor (__ucs ps) (uwrap 32 (Z.shiftl c8 (6 * count))) in
      if negb (char32_is_valid c32) then illegal
      else
        let ps := set_cs_count ps (- count) in
        if negb (count =? 0) then
          run put_ps (set_ucs ps c32);
          ret 0
        else
          run put_ps ps;
          wcrtomb s (swrap 32 c32).

(** ** uchar/mbrtoc32.c, mbrtoc16.c, mbrtoc8.c

    The result is the value returned and the unit that is stored, for a pointer to
    it that is not null.  The local wc is not set when s is null, and its use then is
    a fault. *)

Definition wc_value (wc : option Z) : M Z := match wc with Some c => ret c | None => fault end.

(** What follows the decoding of a wide character. *)
Definition c32_result (s r wc : Z) : M (Z * option Z) :=
  let c32 := uwrap 32 wc in
  if negb (char32_is_valid c32) then do e <- illegal; ret (e, None)
  else ret (r, if negb (s =? NULL) then Some c32 else None).

Definition mbrtoc32 (s n : Z) : M (Z * option Z) :=
  do '(r, wc) <- mbrtowc s n;
  if (r =? size_t (-2)) || (r =? size_t (-1)) then ret (r, None)
  else
    do wc <- wc_value wc;
    c32_result s r wc.

Definition mbrtoc16 (s n : Z) : M (Z * option Z) :=
  do ps <- get_ps;
  if cs_count ps =? -1 then
    run put_ps (set_ucs (set_cs_count ps 0) 0);
    ret (size_t (-3), Some (uwrap 16 (Z.land (__ucs ps) 0x3ff + LOW_SURROGATE_FIRST)))
  else
    do '(r, wc) <- mbrtowc s n;
    if (r =? size_t (-2)) || (r =? size_t (-1)) then ret (r, None)
    else
      do wc <- wc_value wc;
      if 0x10000 <=? wc then
        do ps <- get_ps;
        run put_ps (set_cs_count (set_ucs ps (uwrap 32 wc)) (-1));
        ret (r, Some (uwrap 16 (Z.shiftr (uwrap 32 wc - 0x10000) 10 + HIGH_SURROGATE_FIRST)))
      else ret (r, Some (uwrap 16 wc)).

(** [while (c32 >= (char32_t)1 << (6 * count + (6 - count)))] *)
Fixpoint c8_lead (fuel : nat) (c32 c8 count : Z) : option (Z * Z) :=
  match fuel with
  | O => None
  | S f =>
      if Z.shiftl 1 (6 * count + (6 - count)) <=? c32 then c8_lead f c32 (Z.lor c8 (Z.shiftl 1 (6 - count))) (count + 1)
      else Some (c8, count)
  end.

Definition mbrtoc8 (s n : Z) : M (Z * option Z) :=
  do ps <- get_ps;
  if cs_count ps <? 0 then
    let count := - cs_count ps - 1 in
    run put_ps (set_cs_count ps (- count));
    ret (size_t (-3), Some (Z.lor 0x80 (Z.land (Z.shiftr (__ucs ps) (6 * count)) 0x3f)))
  else
    do '(r, c32) <- mbrtoc32 s n;
    if (r =? size_t (-2)) || (r =? size_t (-1)) then ret (r, None)
    else
      do c32 <- wc_value c32;
      if negb (char32_is_one_byte c32) then
        match c8_lead 6 c32 0xc0 1 with
        | None => fault
        | Some (c8, count) =>
            do ps <- get_ps;
            run put_ps (set_ucs (set_cs_count ps (- count)) c32);
            ret (r, Some (uwrap 8 (Z.lor c8 (Z.shiftr c32 (6 * count)))))
        end
      else ret (r, Some (uwrap 8 c32)).
End uchar.
