(* ===== verification/UcharSpec.v ===== *)
(** * Characters of 8, 16 and 32 bits: units and code points *)

From stdpp Require Import base list gmap.
From Stdlib Require Import ZArith Lia.
From S2P Require Import Prelude CMem StrLocal Malloc Utf8 Uchar.

Local Open Scope Z_scope.

Abbreviation zlen l := (Z.of_nat (length l)).

(** The units of a code point. *)
Definition units16 (c : Z) : list Z :=
  if c <? 0x10000 then [c] else [0xd800 + (c - 0x10000) / 1024; 0xdc00 + c mod 1024].

(** ** The conversion state *)

Lemma ucs_set ps v : 0 <= v < 2 ^ 32 -> __ucs (set_ucs ps v) = v.
Proof. intros Hv. unfold __ucs, set_ucs. cbn [cs_mb wchb0 wchb1 wchb2 wchb3]. change (2 ^ 24) with 16777216. change (2 ^ 16) with 65536. change (2 ^ 8) with 256. change (2 ^ 32) with 4294967296 in Hv. div_solve. Qed.

Lemma ucs_count ps c : __ucs (set_cs_count ps c) = __ucs ps.
Proof. done. Qed.

Lemma count_set ps c : cs_count (set_cs_count ps c) = c.
Proof. done. Qed.

Section spec.
Context `{Arch}.
Implicit Types (st : ustate).

Lemma utf8_length c : valid_cp c -> 1 <= zlen (utf8_encode c) <= 4.
Proof. intros _. unfold utf8_encode. repeat case_bool; cbn; lia. Qed.

Lemma size_small v : 0 <= v <= 4 -> size_t v = v.
Proof. intros Hv. pose proof size_max_big. apply uwrap_small. change (2 ^ 32) with 4294967296 in *. lia. Qed.

Lemma size_neg k : -3 <= k < 0 -> size_t k = 2 ^ long_bits + k.
Proof.
  intros Hk. pose proof size_max_big. change (2 ^ 32) with 4294967296 in *. unfold size_t, uwrap. symmetry. apply (Z.mod_unique _ _ (-1)); lia.
Qed.

Lemma no_error v : 0 <= v <= 4 -> (v =? size_t (-2)) || (v =? size_t (-1)) = false.
Proof. intros Hv. pose proof size_max_big. change (2 ^ 32) with 4294967296 in *. rewrite !size_neg by lia. apply orb_false_iff. rewrite !Z.eqb_neq. lia. Qed.

Lemma swrap_cp c : valid_cp c -> swrap 32 c = c.
Proof. intros [Hc _]. apply swrap_small; [lia|]. change (2 ^ (32 - 1)) with 2147483648. lia. Qed.

Lemma uwrap_cp c : valid_cp c -> uwrap 32 c = c.
Proof. intros [Hc _]. apply uwrap_small. change (2 ^ 32) with 4294967296. lia. Qed.

Lemma valid_c32 c : valid_cp c -> char32_is_valid c = true.
Proof. intros [H1 H2]. unfold char32_is_valid, char32_is_surrogate, HIGH_SURROGATE_FIRST, LOW_SURROGATE_LAST. unfold surrogate in H2. lia. Qed.

Lemma wcrtomb_valid st s c : s <> NULL -> valid_cp c -> mapped (u_mem st) s (zlen (utf8_encode c)) ->
  wcrtomb s c st = Some (zlen (utf8_encode c), Us (put_bytes (u_mem st) s (utf8_encode c)) (u_errno st) (u_ps st)).
Proof.
  intros Hs Hc Hm. pose proof (utf8_length c Hc) as Hl. unfold wcrtomb, bind at 1, wctomb_call. rewrite (proj2 (Z.eqb_neq s NULL)) by done. rewrite utf8_wctomb_spec by done.
  rewrite (proj2 (Z.eqb_neq _ (-1))) by lia. unfold ret. by rewrite size_small by lia.
Qed.

Lemma mbrtowc_valid st s n c : cs_count (u_ps st) = 0 -> valid_cp c -> s <> NULL -> bytes_at (u_mem st) s (utf8_encode c) -> zlen (utf8_encode c) <= n <= 2 ^ long_bits - 1 ->
  exists ps, mbrtowc s n st = Some ((if c =? 0 then 0 else zlen (utf8_encode c), Some c), Us (u_mem st) (u_errno st) ps) /\ cs_count ps = 0.
Proof.
  intros Hst Hc Hs Hb Hn. pose proof (utf8_length c Hc) as Hl.
  destruct (utf8_mbtowc_spec (u_mem st) s n (cs_mb (u_ps st)) [] (utf8_encode c) c Hc eq_refl) as (mb & E); [by intros E; rewrite E in Hl; cbn in Hl; lia|by split|lia|by rewrite take_ge by lia|done|].
  rewrite (proj2 (Z.leb_le _ n)) in E by lia. destruct E as [E Hmb]. exists (Cs mb (wchb3 (u_ps st))). split; [|apply Hmb].
  unfold mbrtowc, bind at 1, mbtowc_call. rewrite (proj2 (Z.eqb_neq s NULL)) by done. rewrite E. cbn beta iota. rewrite (proj2 (Z.eqb_neq _ (-1))) by (case_bool; lia). unfold ret. rewrite size_small by (case_bool; lia). done.
Qed.

(** ** A client that converts a list of units *)

Fixpoint put_units (f : Z -> Z -> C ustate Z) (us : list Z) (s : Z) : C ustate Z :=
  match us with
  | [] => ret s
  | u :: us => do r <- f s u; if r =? SIZE_ERR then fault else put_units f us (s + r)
  end.

(** A result of -3 takes no input, and a result of 0 a null character. *)
Definition taken (r : Z) : Z := if r =? size_t (-3) then 0 else if r =? 0 then 1 else r.

Fixpoint get_units (g : Z -> Z -> C ustate (Z * option Z)) (k : nat) (s n : Z) : C ustate (list Z * Z) :=
  match k with
  | O => ret ([], s)
  | S k =>
      do '(r, u) <- g s n;
      match u with
      | None => fault
      | Some u => do '(us, s') <- get_units g k (s + taken r) (n - taken r); ret (u :: us, s')
      end
  end.

(** The units [us] of the code point [c] are converted to its encoding, and back. *)
Definition puts_units (f : Z -> Z -> C ustate Z) (c : Z) (us : list Z) : Prop :=
  forall st s, s <> NULL -> cs_count (u_ps st) = 0 -> mapped (u_mem st) s (zlen (utf8_encode c)) ->
  exists ps, put_units f us s st = Some (s + zlen (utf8_encode c), Us (put_bytes (u_mem st) s (utf8_encode c)) (u_errno st) ps) /\ cs_count ps = 0.

Definition gets_units (g : Z -> Z -> C ustate (Z * option Z)) (c : Z) (us : list Z) : Prop :=
  forall st s n, s <> NULL -> cs_count (u_ps st) = 0 -> bytes_at (u_mem st) s (utf8_encode c) -> zlen (utf8_encode c) <= n <= 2 ^ long_bits - 1 ->
  exists ps, get_units g (length us) s n st = Some ((us, s + zlen (utf8_encode c)), Us (u_mem st) (u_errno st) ps) /\ cs_count ps = 0.

Lemma taken_first c : valid_cp c -> taken (if c =? 0 then 0 else zlen (utf8_encode c)) = zlen (utf8_encode c).
Proof.
  intros Hc. pose proof (utf8_length c Hc). pose proof size_max_big. change (2 ^ 32) with 4294967296 in *. unfold taken. rewrite size_neg by lia.
  destruct (Z.eqb_spec c 0) as [->|]; rewrite (proj2 (Z.eqb_neq _ (2 ^ long_bits + -3))) by lia; [done|]. by rewrite (proj2 (Z.eqb_neq _ 0)) by lia.
Qed.

Lemma taken_none : taken (size_t (-3)) = 0.
Proof. unfold taken. by rewrite Z.eqb_refl. Qed.

Lemma not_size_err r : 0 <= r <= 4 -> (r =? SIZE_ERR) = false.
Proof. intros Hr. pose proof size_max_big. change (2 ^ 32) with 4294967296 in *. unfold SIZE_ERR. rewrite size_neg by lia. rewrite Z.eqb_neq. lia. Qed.

(** *** UTF-16 *)

Lemma land_10 v : Z.land v 0x3ff = v mod 1024.
Proof. change 0x3ff with (Z.ones 10). by rewrite Z.land_ones by lia. Qed.

Lemma puts16 c : valid_cp c -> puts_units c16rtomb c (units16 c).
Proof.
  intros Hc st s Hs Hst Hm. pose proof (utf8_length c Hc) as Hl. unfold units16. destruct (Z.ltb_spec c 0x10000) as [Hlt|Hge]; cbn [put_units].
  - exists (u_ps st). split; [|done]. unfold bind, c16rtomb, get_ps, bind. rewrite Hst. change (0 =? -1) with false. cbv iota. rewrite (swrap_cp c Hc).
    assert (char16_is_high_surrogate c = false) as -> by (unfold char16_is_high_surrogate, HIGH_SURROGATE_FIRST, HIGH_SURROGATE_LAST; destruct Hc as [_ Hns]; unfold surrogate in Hns; lia).
    rewrite wcrtomb_valid by done. by rewrite not_size_err by lia.
  - destruct Hc as [Hcr Hns]. set (h := (c - 0x10000) / 1024). assert (0 <= h < 1024) as Hh by (unfold h; div_solve). assert (c = h * 1024 + 0x10000 + c mod 1024) as Ec by (unfold h; div_solve).
    exists (set_cs_count (set_cs_count (set_ucs (u_ps st) (h * 1024 + 0x10000)) (-1)) 0). split; [|done]. unfold bind at 1. unfold c16rtomb at 1, bind at 1, get_ps at 1. rewrite Hst. change (0 =? -1) with false. cbv iota.
    assert (char16_is_high_surrogate (0xd800 + h) = true) as -> by (unfold char16_is_high_surrogate, HIGH_SURROGATE_FIRST, HIGH_SURROGATE_LAST; lia).
    assert (uwrap 32 (Z.shiftl (Z.land (0xd800 + h) 0x3ff) 10 + 0x10000) = h * 1024 + 0x10000) as ->.
    { rewrite land_10, Z.shiftl_mul_pow2 by lia. change (2 ^ 10) with 1024. replace ((0xd800 + h) mod 1024) with h by div_solve. apply uwrap_small. change (2 ^ 32) with 4294967296. lia. }
    unfold bind at 1, put_ps at 1, ret at 1. change (0 =? SIZE_ERR) with (0 =? SIZE_ERR). rewrite not_size_err by lia. rewrite Z.add_0_r. unfold bind at 1. unfold c16rtomb, bind at 1, get_ps. cbn [u_ps].
    rewrite count_set. change (-1 =? -1) with true. cbv iota. unfold bind at 1, put_ps. assert (char16_is_low_surrogate (0xdc00 + c mod 1024) = true) as -> by (unfold char16_is_low_surrogate, LOW_SURROGATE_FIRST, LOW_SURROGATE_LAST; pose proof (Z.mod_pos_bound c 1024); lia).
    rewrite ucs_count, ucs_set by (change (2 ^ 32) with 4294967296; lia). rewrite land_10. replace ((0xdc00 + c mod 1024) mod 1024) with (c mod 1024) by div_solve.
    assert (Z.lor (h * 1024 + 0x10000) (c mod 1024) = c) as ->.
    { replace (h * 1024 + 0x10000) with (Z.shiftl (h + 64) 10) by (rewrite Z.shiftl_mul_pow2 by lia; change (2 ^ 10) with 1024; lia). rewrite cat_low by (change (2 ^ 10) with 1024; pose proof (Z.mod_pos_bound c 1024); lia). change (2 ^ 10) with 1024. lia. }
    rewrite swrap_cp by done. rewrite wcrtomb_valid by done. by rewrite not_size_err by lia.
Qed.

Lemma gets16 c : valid_cp c -> gets_units mbrtoc16 c (units16 c).
Proof.
  intros Hc st s n Hs Hst Hb Hn. pose proof (utf8_length c Hc) as Hl. destruct (mbrtowc_valid st s n c Hst Hc Hs Hb Hn) as (ps & E & Hps). unfold units16.
  assert (0 <= (if c =? 0 then 0 else zlen (utf8_encode c)) <= 4) as Hr by (case_bool; lia).
  destruct (Z.ltb_spec c 0x10000) as [Hlt|Hge]; cbn [length get_units].
  - exists ps. split; [|done]. unfold bind at 1. unfold mbrtoc16, bind at 1, get_ps. rewrite Hst. change (0 =? -1) with false. cbv iota. unfold bind at 1. rewrite E. rewrite no_error by done. cbn [wc_value]. rewrite bind_ret.
    rewrite (proj2 (Z.leb_gt 0x10000 c)) by done. unfold ret at 1. cbn beta iota. rewrite bind_ret. unfold ret. rewrite taken_first by done. rewrite uwrap_small by (change (2 ^ 16) with 65536; destruct Hc; lia). done.
  - exists (set_ucs (set_cs_count (set_cs_count (set_ucs ps c) (-1)) 0) 0). split; [|done]. unfold bind at 1. unfold mbrtoc16 at 1, bind at 1, get_ps at 1. rewrite Hst. change (0 =? -1) with false. cbv iota. unfold bind at 1. rewrite E. rewrite no_error by done.
    cbn [wc_value]. rewrite bind_ret. rewrite (proj2 (Z.leb_le 0x10000 c)) by done. rewrite (uwrap_cp c Hc). unfold bind at 1, get_ps at 1, bind at 1, put_ps at 1, ret at 1. cbn beta iota. cbn [u_ps u_mem u_errno].
    rewrite taken_first by done. unfold bind at 1. unfold bind at 1. unfold mbrtoc16, bind at 1, get_ps. cbn [u_ps]. rewrite count_set. change (-1 =? -1) with true. cbv iota. unfold bind at 1, put_ps, ret at 1. cbn beta iota. rewrite bind_ret. unfold ret. cbn [u_mem u_errno u_ps].
    rewrite taken_none, Z.add_0_r, ucs_count, ucs_set by (change (2 ^ 32) with 4294967296; destruct Hc; lia). rewrite land_10, Z.shiftr_div_pow2 by lia. change (2 ^ 10) with 1024. unfold HIGH_SURROGATE_FIRST, LOW_SURROGATE_FIRST.
    destruct Hc as [Hcr _]. rewrite !uwrap_small by (change (2 ^ 16) with 65536; div_solve). by rewrite (Z.add_comm _ 0xd800), (Z.add_comm _ 0xdc00).
Qed.

(** *** UTF-8 *)

Definition lead_count (b : Z) : Z := if b <? 0xe0 then 1 else if b <? 0xf0 then 2 else 3.

Lemma lead_check b : 0xc2 <= b <= 0xf4 -> c8_count 6 b 1 = Some (lead_count b) /\
  Z.land b (Z.shiftl 1 (6 - lead_count b) - 1) = b - (if b <? 0xe0 then 0xc0 else if b <? 0xf0 then 0xe0 else 0xf0).
Proof.
  intros Hb. assert (forallb (fun i => let b := 0xc2 + Z.of_nat i in bool_decide (c8_count 6 b 1 = Some (lead_count b)) &&
    (Z.land b (Z.shiftl 1 (6 - lead_count b) - 1) =? b - (if b <? 0xe0 then 0xc0 else if b <? 0xf0 then 0xe0 else 0xf0))) (seq 0 51) = true) as Hc by (vm_compute; reflexivity).
  rewrite forallb_forall in Hc. specialize (Hc (Z.to_nat (b - 0xc2))). rewrite in_seq in Hc. specialize (Hc ltac:(lia)). cbv zeta in Hc. replace (0xc2 + Z.of_nat (Z.to_nat (b - 0xc2))) with b in Hc by lia.
  apply andb_prop in Hc as [H1 H2]. split; [by apply bool_decide_eq_true_1 in H1|by apply Z.eqb_eq].
Qed.

Lemma land_6 v : Z.land v 0x3f = v mod 64.
Proof. change 0x3f with (Z.ones 6). by rewrite Z.land_ones by lia. Qed.

(** A first byte. *)
Lemma c8_first st s b v : s <> NULL -> cs_count (u_ps st) = 0 -> 0xc2 <= b <= 0xf4 -> v = (b - (if b <? 0xe0 then 0xc0 else if b <? 0xf0 then 0xe0 else 0xf0)) * 2 ^ (6 * lead_count b) -> valid_cp v ->
  c8rtomb s b st = Some (0, Us (u_mem st) (u_errno st) (set_cs_count (set_ucs (u_ps st) v) (- lead_count b))).
Proof.
  intros Hs Hst Hb Ev Hv. destruct (lead_check b Hb) as [E1 E2]. assert (1 <= lead_count b <= 3) as Hk by (unfold lead_count; repeat case_bool; lia).
  unfold c8rtomb. rewrite (proj2 (Z.eqb_neq s NULL)) by done. unfold bind at 1, get_ps. unfold char8_is_one_byte, char8_is_first_byte. rewrite (proj2 (Z.leb_gt b 0x7f)), (proj2 (Z.leb_le 0xc0 b)), Hst, (proj2 (Z.leb_gt b 0xc1)) by lia. cbn [negb Z.eqb orb].
  rewrite E1, E2, Z.shiftl_mul_pow2 by lia. rewrite <- Ev, uwrap_cp by done.
  rewrite valid_c32 by done. done.
Qed.

(** A later byte, of which [k] are to come: the value so far is a multiple of [2 ^ (6 * (k + 1))]. *)
Lemma c8_next st s u x k : s <> NULL -> 0 <= k <= 2 -> cs_count (u_ps st) = - (k + 1) -> 0 <= x < 64 -> 0 <= u -> __ucs (u_ps st) = u * 2 ^ (6 * (k + 1)) -> valid_cp (u * 2 ^ (6 * (k + 1)) + x * 2 ^ (6 * k)) ->
  (u = 0 -> Z.shiftr 0x80 (k + 1) <= x) ->
  c8rtomb s (0x80 + x) st =
    (if k =? 0 then wcrtomb s (u * 64 + x) (Us (u_mem st) (u_errno st) (set_cs_count (u_ps st) 0))
     else Some (0, Us (u_mem st) (u_errno st) (set_ucs (set_cs_count (u_ps st) (- k)) (u * 2 ^ (6 * (k + 1)) + x * 2 ^ (6 * k))))).
Proof.
  intros Hs Hk Hst Hx Hu Eu Hv Hover. set (v := u * 2 ^ (6 * (k + 1)) + x * 2 ^ (6 * k)) in *.
  unfold c8rtomb. rewrite (proj2 (Z.eqb_neq s NULL)) by done. unfold bind at 1, get_ps. unfold char8_is_one_byte, char8_is_first_byte. rewrite (proj2 (Z.leb_gt (0x80 + x) 0x7f)), (proj2 (Z.leb_gt 0xc0 (0x80 + x))) by lia.
  rewrite Hst, Eu, land_6. replace ((0x80 + x) mod 64) with x by div_solve. replace (- - (k + 1)) with (k + 1) by lia. rewrite (proj2 (Z.eqb_neq (k + 1) 0)) by lia. cbn [orb].
  assert ((u * 2 ^ (6 * (k + 1)) =? 0) && (x <? Z.shiftr 0x80 (k + 1)) = false) as ->.
  { destruct (Z.eqb_spec (u * 2 ^ (6 * (k + 1))) 0) as [E|_]; [|done]. assert (0 < 2 ^ (6 * (k + 1))) by (apply Z.pow_pos_nonneg; lia). assert (u = 0) as Hu0 by nia. specialize (Hover Hu0). rewrite (proj2 (Z.ltb_ge _ _)) by done. done. }
  replace (k + 1 - 1) with k by lia. assert (0 < 2 ^ (6 * k)) as Hp by (apply Z.pow_pos_nonneg; lia). assert (2 ^ (6 * (k + 1)) = 64 * 2 ^ (6 * k)) as Ep by (replace (6 * (k + 1)) with (6 + 6 * k) by lia; rewrite Z.pow_add_r by lia; done).
  assert (uwrap 32 (Z.shiftl x (6 * k)) = x * 2 ^ (6 * k)) as ->.
  { rewrite Z.shiftl_mul_pow2 by lia. apply uwrap_small. change (2 ^ 32) with 4294967296. destruct Hv as [Hv _]. unfold v in Hv. nia. }
  assert (Z.lor (u * 2 ^ (6 * (k + 1))) (x * 2 ^ (6 * k)) = v) as ->.
  { apply (lor_low (6 * (k + 1))); [lia|rewrite Ep; nia|]. apply Z.mod_mul. lia. }
  rewrite valid_c32 by done. cbn [negb].
  destruct (Z.eqb_spec k 0) as [->|Hk0]; cbn [negb]; [|done]. unfold bind at 1, put_ps. change (- 0) with 0. rewrite swrap_cp by done. unfold v. change (2 ^ (6 * (0 + 1))) with 64. change (2 ^ (6 * 0)) with 1. by rewrite Z.mul_1_r.
Qed.

Lemma put_zero f u us s st st1 : f s u st = Some (0, st1) -> put_units f (u :: us) s st = put_units f us s st1.
Proof. intros E. cbn [put_units]. unfold bind. rewrite E, not_size_err by lia. by rewrite Z.add_0_r. Qed.

Lemma put_last f u s st r st1 : f s u st = Some (r, st1) -> 0 <= r <= 4 -> put_units f [u] s st = Some (s + r, st1).
Proof. intros E Hr. cbn [put_units]. unfold bind. by rewrite E, not_size_err by lia. Qed.

(** The last [k] bytes of an encoding. *)
Fixpoint tail8 (k : nat) (c : Z) : list Z :=
  match k with
  | O => []
  | S k => 0x80 + c / 2 ^ (6 * Z.of_nat k) mod 64 :: tail8 k c
  end.

(** What is known of a code point when [k] bytes are to come. *)
Definition head8 (k : nat) (c : Z) : Z := c / 2 ^ (6 * Z.of_nat k) * 2 ^ (6 * Z.of_nat k).

Lemma head8_step k c : head8 k c = c / 2 ^ (6 * (Z.of_nat k + 1)) * 2 ^ (6 * (Z.of_nat k + 1)) + c / 2 ^ (6 * Z.of_nat k) mod 64 * 2 ^ (6 * Z.of_nat k).
Proof.
  unfold head8. set (p := 2 ^ (6 * Z.of_nat k)). assert (0 < p) as Hp by (apply Z.pow_pos_nonneg; lia).
  replace (2 ^ (6 * (Z.of_nat k + 1))) with (p * 64) by (unfold p; replace (6 * (Z.of_nat k + 1)) with (6 * Z.of_nat k + 6) by lia; rewrite Z.pow_add_r by lia; done).
  rewrite <- Z.div_div by lia. pose proof (Z.div_mod (c / p) 64). nia.
Qed.

Lemma head8_valid k c : (k <= 3)%nat -> valid_cp c -> valid_cp (head8 k c).
Proof.
  intros Hk [Hc Hns]. unfold valid_cp, surrogate, head8 in *. destruct k as [|[|[|[|k]]]]; [| | | |lia]; cbn [Z.of_nat Pos.of_succ_nat Z.mul Pos.mul]; cbn; div_solve.
Qed.

(** The form of an encoding of more than one byte. *)
Lemma encode_form c : valid_cp c -> 0x80 <= c ->
  exists b k, utf8_encode c = b :: tail8 k c /\ (1 <= k <= 3)%nat /\ 0xc2 <= b <= 0xf4 /\ lead_count b = Z.of_nat k /\
    b = (if b <? 0xe0 then 0xc0 else if b <? 0xf0 then 0xe0 else 0xf0) + c / 2 ^ (6 * Z.of_nat k) /\
    (c / 2 ^ (6 * Z.of_nat k) = 0 -> Z.shiftr 0x80 (Z.of_nat k) <= c / 2 ^ (6 * (Z.of_nat k - 1)) mod 64).
Proof.
  intros [Hc _] Hge. unfold utf8_encode. rewrite (proj2 (Z.ltb_ge c 0x80)) by done. destruct (Z.ltb_spec c 0x800) as [H2|H2]; [|destruct (Z.ltb_spec c 0x10000) as [H3|H3]].
  - exists (0xc0 + c / 64), 1%nat. cbn [tail8]. change (2 ^ (6 * Z.of_nat 0)) with 1. change (2 ^ (6 * Z.of_nat 1)) with 64. rewrite Z.div_1_r. assert (2 <= c / 64 < 32) by div_solve.
    unfold lead_count. rewrite (proj2 (Z.ltb_lt _ 0xe0)) by lia. split_and!; try done; lia.
  - exists (0xe0 + c / 4096), 2%nat. cbn [tail8]. change (2 ^ (6 * Z.of_nat 0)) with 1. change (2 ^ (6 * Z.of_nat 1)) with 64. change (2 ^ (6 * Z.of_nat 2)) with 4096. change (2 ^ (6 * (Z.of_nat 2 - 1))) with 64. rewrite Z.div_1_r. assert (0 <= c / 4096 < 16) by div_solve.
    unfold lead_count. rewrite (proj2 (Z.ltb_ge _ 0xe0)), (proj2 (Z.ltb_lt _ 0xf0)) by lia. change (Z.shiftr 0x80 (Z.of_nat 2)) with 32. split_and!; try done; div_solve.
  - exists (0xf0 + c / 262144), 3%nat. cbn [tail8]. change (2 ^ (6 * Z.of_nat 0)) with 1. change (2 ^ (6 * Z.of_nat 1)) with 64. change (2 ^ (6 * Z.of_nat 2)) with 4096. change (2 ^ (6 * Z.of_nat 3)) with 262144. change (2 ^ (6 * (Z.of_nat 3 - 1))) with 4096.
    rewrite Z.div_1_r. assert (0 <= c / 262144 < 5) by div_solve.
    unfold lead_count. rewrite (proj2 (Z.ltb_ge _ 0xe0)), (proj2 (Z.ltb_ge _ 0xf0)) by lia. change (Z.shiftr 0x80 (Z.of_nat 3)) with 16. split_and!; try done; div_solve.
Qed.

Lemma put_tail8 c s : valid_cp c -> s <> NULL -> forall k st, (k <= 2)%nat -> cs_count (u_ps st) = - Z.of_nat (S k) -> __ucs (u_ps st) = head8 (S k) c ->
  (c / 2 ^ (6 * Z.of_nat (S k)) = 0 -> Z.shiftr 0x80 (Z.of_nat (S k)) <= c / 2 ^ (6 * Z.of_nat k) mod 64) -> mapped (u_mem st) s (zlen (utf8_encode c)) ->
  exists ps, put_units c8rtomb (tail8 (S k) c) s st = Some (s + zlen (utf8_encode c), Us (put_bytes (u_mem st) s (utf8_encode c)) (u_errno st) ps) /\ cs_count ps = 0.
Proof.
  intros Hc Hs. pose proof (utf8_length c Hc) as Hl. induction k as [|k IH]; intros st Hk Hcnt Hu Hover Hm; cbn [tail8].
  - exists (set_cs_count (u_ps st) 0). split; [|done]. apply put_last; [|lia]. rewrite (c8_next st s (c / 64) _ 0); try done; try lia.
    + change (0 =? 0) with true. cbv iota. change (2 ^ (6 * Z.of_nat 0)) with 1. rewrite Z.div_1_r. replace (c / 64 * 64 + c mod 64) with c by div_solve. by rewrite wcrtomb_valid.
    + apply Z.mod_pos_bound. lia.
    + destruct Hc as [Hc _]. div_solve.
    + change (2 ^ (6 * (0 + 1))) with 64. change (2 ^ (6 * Z.of_nat 0)) with 1. change (2 ^ (6 * 0)) with 1. rewrite Z.div_1_r, Z.mul_1_r. by replace (c / 64 * 64 + c mod 64) with c by div_solve.
  - assert (0 < 2 ^ (6 * Z.of_nat (S k))) as Hp by (apply Z.pow_pos_nonneg; lia). set (x := c / 2 ^ (6 * Z.of_nat (S k)) mod 64) in *. assert (0 <= x < 64) as Hx by (apply Z.mod_pos_bound; lia).
    pose proof (head8_step (S k) c) as Eh. replace (Z.of_nat (S k) + 1) with (Z.of_nat (S (S k))) in Eh by lia. fold x in Eh. pose proof (head8_valid (S k) c ltac:(lia) Hc) as Hv.
    pose proof (c8_next st s (c / 2 ^ (6 * Z.of_nat (S (S k)))) x (Z.of_nat (S k)) Hs ltac:(lia)) as Ec. replace (Z.of_nat (S k) + 1) with (Z.of_nat (S (S k))) in Ec by lia.
    specialize (Ec Hcnt Hx). rewrite <- Eh in Ec. rewrite (proj2 (Z.eqb_neq (Z.of_nat (S k)) 0)) in Ec by lia. rewrite (put_zero _ _ _ _ _ _ (Ec ltac:(destruct Hc; apply Z.div_pos; [lia|apply Z.pow_pos_nonneg; lia]) Hu Hv Hover)). clear Ec.
    destruct Hv as [Hv _].
    apply (IH (Us (u_mem st) (u_errno st) (set_ucs (set_cs_count (u_ps st) (- Z.of_nat (S k))) (head8 (S k) c)))); try done; [lia|cbn [u_ps]; apply ucs_set; change (2 ^ 32) with 4294967296; lia|].
    intros E0. exfalso. unfold head8 in Eh. rewrite E0 in Eh. destruct (Z.eq_dec (c / 2 ^ (6 * Z.of_nat (S (S k)))) 0) as [E|E].
    + specialize (Hover E). unfold x in Hover. rewrite E0 in Hover. assert (k = 0 \/ k = 1)%nat as [-> | ->] by lia; by apply Hover.
    + assert (0 < c / 2 ^ (6 * Z.of_nat (S (S k)))) by (assert (0 <= c / 2 ^ (6 * Z.of_nat (S (S k)))); [|lia]; destruct Hc; apply Z.div_pos; [lia|apply Z.pow_pos_nonneg; lia]).
      assert (0 < 2 ^ (6 * Z.of_nat (S (S k)))) by (apply Z.pow_pos_nonneg; lia). nia.
Qed.

Lemma puts8 c : valid_cp c -> puts_units c8rtomb c (utf8_encode c).
Proof.
  intros Hc st s Hs Hst Hm. pose proof (utf8_length c Hc) as Hl. destruct (Z.leb_spec 0x80 c) as [Hge|Hlt].
  - destruct (encode_form c Hc Hge) as (b & k & E & Hk & Hb & Ek & Eb & Hov). set (us := utf8_encode c) at 1. assert (us = b :: tail8 k c) as -> by exact E. destruct k as [|k]; [lia|]. pose proof (head8_valid (S k) c ltac:(lia) Hc) as Hv.
    erewrite put_zero; [|apply (c8_first st s b (head8 (S k) c)); try done; rewrite Ek; unfold head8; f_equal; lia]. rewrite Ek.
    destruct (put_tail8 c s Hc Hs k (Us (u_mem st) (u_errno st) (set_cs_count (set_ucs (u_ps st) (head8 (S k) c)) (- Z.of_nat (S k))))) as (ps & Ep & Hps); try done; try lia.
    + cbn [u_ps]. rewrite ucs_count. apply ucs_set. destruct Hv as [Hv _]. change (2 ^ 32) with 4294967296. lia.
    + replace (Z.of_nat (S k) - 1) with (Z.of_nat k) in Hov by lia. exact Hov.
    + by exists ps.
  - exists (u_ps st). split; [|done]. assert (utf8_encode c = [c]) as E by (unfold utf8_encode; by rewrite (proj2 (Z.ltb_lt c 0x80))). set (us := utf8_encode c) at 1. assert (us = [c]) as -> by exact E. apply put_last; [|lia]. unfold c8rtomb. rewrite (proj2 (Z.eqb_neq s NULL)) by done.
    unfold bind, get_ps, char8_is_one_byte. rewrite (proj2 (Z.leb_le c 0x7f)) by lia. rewrite Hst. cbn [Z.eqb negb]. rewrite swrap_cp by done. by apply wcrtomb_valid.
Qed.

(** The first byte that mbrtoc8 gives. *)
Lemma c8_lead_form c : valid_cp c -> 0x80 <= c -> exists c8 b k, c8_lead 6 c 0xc0 1 = Some (c8, Z.of_nat k) /\ (1 <= k <= 3)%nat /\
  uwrap 8 (Z.lor c8 (Z.shiftr c (6 * Z.of_nat k))) = b /\ utf8_encode c = b :: tail8 k c.
Proof.
  intros [Hc _] Hge. unfold utf8_encode. rewrite (proj2 (Z.ltb_ge c 0x80)) by done. cbn [c8_lead].
  change (Z.shiftl 1 (6 * 1 + (6 - 1))) with 0x800. change (Z.shiftl 1 (6 * (1 + 1) + (6 - (1 + 1)))) with 0x10000. change (Z.shiftl 1 (6 * (1 + 1 + 1) + (6 - (1 + 1 + 1)))) with 0x200000.
  change (Z.lor 0xc0 (Z.shiftl 1 (6 - 1))) with 0xe0. change (Z.lor 0xe0 (Z.shiftl 1 (6 - (1 + 1)))) with 0xf0. destruct (Z.ltb_spec c 0x800) as [H2|H2]; [|destruct (Z.ltb_spec c 0x10000) as [H3|H3]].
  - rewrite (proj2 (Z.leb_gt 0x800 c)) by done. exists 0xc0, (0xc0 + c / 64), 1%nat. split_and!; try done; try lia; [|cbn [tail8]; change (2 ^ (6 * Z.of_nat 0)) with 1; by rewrite Z.div_1_r].
    rewrite Z.shiftr_div_pow2 by lia. change (2 ^ (6 * Z.of_nat 1)) with 64. rewrite (lor_low 5) by (try done; change (2 ^ 5) with 32; div_solve). apply uwrap_small. change (2 ^ 8) with 256. div_solve.
  - rewrite (proj2 (Z.leb_le 0x800 c)), (proj2 (Z.leb_gt 0x10000 c)) by done. exists 0xe0, (0xe0 + c / 4096), 2%nat. split_and!; try done; try lia; [|cbn [tail8]; change (2 ^ (6 * Z.of_nat 0)) with 1; by rewrite Z.div_1_r].
    rewrite Z.shiftr_div_pow2 by lia. change (2 ^ (6 * Z.of_nat 2)) with 4096. rewrite (lor_low 4) by (try done; change (2 ^ 4) with 16; div_solve). apply uwrap_small. change (2 ^ 8) with 256. div_solve.
  - rewrite (proj2 (Z.leb_le 0x800 c)), (proj2 (Z.leb_le 0x10000 c)), (proj2 (Z.leb_gt 0x200000 c)) by lia. exists 0xf0, (0xf0 + c / 262144), 3%nat. split_and!; try done; try lia; [|cbn [tail8]; change (2 ^ (6 * Z.of_nat 0)) with 1; by rewrite Z.div_1_r].
    rewrite Z.shiftr_div_pow2 by lia. change (2 ^ (6 * Z.of_nat 3)) with 262144. rewrite (lor_low 3) by (try done; change (2 ^ 3) with 8; div_solve). apply uwrap_small. change (2 ^ 8) with 256. div_solve.
Qed.

Lemma get_step g k s n st r u st1 us s' st2 : g s n st = Some ((r, Some u), st1) -> get_units g k (s + taken r) (n - taken r) st1 = Some ((us, s'), st2) ->
  get_units g (S k) s n st = Some ((u :: us, s'), st2).
Proof. intros E1 E2. cbn [get_units]. unfold bind at 1. rewrite E1. cbn beta iota. unfold bind. by rewrite E2. Qed.

Lemma get_tail8 c s : forall k st n, cs_count (u_ps st) = - Z.of_nat k -> __ucs (u_ps st) = c ->
  exists ps, get_units mbrtoc8 k s n st = Some ((tail8 k c, s), Us (u_mem st) (u_errno st) ps) /\ cs_count ps = 0.
Proof.
  induction k as [|k IH]; intros [m e ps] n Hcnt Hu; cbn [tail8 u_mem u_errno u_ps] in *; [exists ps; by split|].
  destruct (IH (Us m e (set_cs_count ps (- Z.of_nat k))) n eq_refl Hu) as (ps' & E & Hps). exists ps'. split; [|done].
  eapply (get_step _ _ _ _ _ (size_t (-3))); [|rewrite taken_none, Z.add_0_r, Z.sub_0_r; exact E].
  unfold mbrtoc8, bind at 1, get_ps. cbn [u_ps]. rewrite Hcnt, (proj2 (Z.ltb_lt (- Z.of_nat (S k)) 0)) by lia. replace (- - Z.of_nat (S k) - 1) with (Z.of_nat k) by lia. unfold bind at 1, put_ps, ret at 1. cbn [u_mem u_errno u_ps].
  rewrite Hu, land_6, Z.shiftr_div_pow2 by lia. rewrite (lor_low 6) by (try done; change (2 ^ 6) with 64; pose proof (Z.mod_pos_bound (c / 2 ^ (6 * Z.of_nat k)) 64); lia). done.
Qed.

Lemma mbrtoc32_valid st s n c : cs_count (u_ps st) = 0 -> valid_cp c -> s <> NULL -> bytes_at (u_mem st) s (utf8_encode c) -> zlen (utf8_encode c) <= n <= 2 ^ long_bits - 1 ->
  exists ps, mbrtoc32 s n st = Some ((if c =? 0 then 0 else zlen (utf8_encode c), Some c), Us (u_mem st) (u_errno st) ps) /\ cs_count ps = 0.
Proof.
  intros Hst Hc Hs Hb Hn. pose proof (utf8_length c Hc) as Hl. destruct (mbrtowc_valid st s n c Hst Hc Hs Hb Hn) as (ps & E & Hps). exists ps. split; [|done].
  unfold mbrtoc32, bind at 1. rewrite E, no_error by (case_bool; lia). cbn [wc_value]. rewrite bind_ret. unfold c32_result. rewrite uwrap_cp, valid_c32 by done. by rewrite (proj2 (Z.eqb_neq s NULL)).
Qed.

Lemma gets8 c : valid_cp c -> gets_units mbrtoc8 c (utf8_encode c).
Proof.
  intros Hc st s n Hs Hst Hb Hn. pose proof (utf8_length c Hc) as Hl. destruct (mbrtoc32_valid st s n c Hst Hc Hs Hb Hn) as (ps & E & Hps).
  assert (0 <= (if c =? 0 then 0 else zlen (utf8_encode c)) <= 4) as Hr by (case_bool; lia). pose proof (taken_first c Hc) as Ht. destruct (Z.leb_spec 0x80 c) as [Hge|Hlt].
  - destruct (c8_lead_form c Hc Hge) as (c8 & b & k & El & Hk & Eb & Ee).
    destruct (get_tail8 c (s + zlen (utf8_encode c)) k (Us (u_mem st) (u_errno st) (set_ucs (set_cs_count ps (- Z.of_nat k)) c)) (n - zlen (utf8_encode c)) eq_refl) as (ps' & Et & Hps'); [cbn [u_ps]; apply ucs_set; destruct Hc; change (2 ^ 32) with 4294967296; lia|].
    exists ps'. split; [|done]. assert (length (utf8_encode c) = S k) as Elen by (rewrite Ee; cbn [length]; f_equal; clear; induction k; cbn [tail8 length]; congruence). replace (get_units mbrtoc8 (length (utf8_encode c)) s n st) with (get_units mbrtoc8 (S k) s n st) by (by rewrite Elen). set (us := utf8_encode c) at 1. assert (us = b :: tail8 k c) as -> by exact Ee.
    eapply (get_step _ _ _ _ _ (if c =? 0 then 0 else zlen (utf8_encode c))); [|rewrite Ht; exact Et]. unfold mbrtoc8, bind at 1, get_ps at 1. rewrite Hst. cbn [Z.ltb Z.compare]. unfold bind at 1. rewrite E, no_error by done. cbn [wc_value]. rewrite bind_ret. unfold char32_is_one_byte. rewrite (proj2 (Z.leb_gt c 0x7f)) by lia. cbn [negb].
    rewrite El, Eb. done.
  - assert (utf8_encode c = [c]) as Ee by (unfold utf8_encode; by rewrite (proj2 (Z.ltb_lt c 0x80))). exists ps. split; [|done]. replace (get_units mbrtoc8 (length (utf8_encode c)) s n st) with (get_units mbrtoc8 1 s n st) by (by rewrite Ee). set (us := utf8_encode c) at 1. assert (us = [c]) as -> by exact Ee.
    eapply (get_step _ _ _ _ _ (if c =? 0 then 0 else zlen (utf8_encode c))); [|by rewrite Ht]. unfold mbrtoc8, bind at 1, get_ps at 1. rewrite Hst. cbn [Z.ltb Z.compare]. unfold bind at 1. rewrite E, no_error by done. cbn [wc_value]. rewrite bind_ret. unfold char32_is_one_byte. rewrite (proj2 (Z.leb_le c 0x7f)) by lia. cbn [negb].
    rewrite uwrap_small by (destruct Hc; change (2 ^ 8) with 256; lia). done.
Qed.

(** *** UTF-32 *)

Lemma puts32 c : valid_cp c -> puts_units c32rtomb c [c].
Proof.
  intros Hc st s Hs Hst Hm. pose proof (utf8_length c Hc) as Hl. exists (u_ps st). split; [|done]. apply put_last; [|lia]. unfold c32rtomb. rewrite valid_c32, swrap_cp by done. by apply wcrtomb_valid.
Qed.

Lemma gets32 c : valid_cp c -> gets_units mbrtoc32 c [c].
Proof.
  intros Hc st s n Hs Hst Hb Hn. destruct (mbrtoc32_valid st s n c Hst Hc Hs Hb Hn) as (ps & E & Hps). exists ps. split; [|done]. eapply get_step; [exact E|]. cbn [get_units]. by rewrite taken_first.
Qed.

(** ** Strings *)

Lemma put_app f us1 : forall us2 s st s1 st1, put_units f us1 s st = Some (s1, st1) -> put_units f (us1 ++ us2) s st = put_units f us2 s1 st1.
Proof.
  induction us1 as [|u us1 IH]; intros us2 s st s1 st1 E; cbn [app put_units] in *; [by injection E as <- <-|]. unfold bind in *. destruct (f s u st) as [[r st']|]; [|done]. destruct (r =? SIZE_ERR); [done|]. by apply IH.
Qed.

Lemma get_app g k1 : forall k2 s n st us1 us2 s1 s2 st1 st2, get_units g k1 s n st = Some ((us1, s1), st1) -> get_units g k2 s1 (n - (s1 - s)) st1 = Some ((us2, s2), st2) ->
  get_units g (k1 + k2) s n st = Some ((us1 ++ us2, s2), st2).
Proof.
  induction k1 as [|k1 IH]; intros k2 s n st us1 us2 s1 s2 st1 st2 E1 E2; cbn [Nat.add get_units] in *; [injection E1 as <- <- <-; by replace (n - (s - s)) with n in E2 by lia|].
  unfold bind at 1 in E1. unfold bind at 1. destruct (g s n st) as [[[r [u|]] st']|]; [|done|done]. unfold bind at 1 in E1. unfold bind at 1.
  destruct (get_units g k1 (s + taken r) (n - taken r) st') as [[[us s'] st'']|] eqn:E; [|done]. injection E1 as <- <- <-. erewrite IH; [reflexivity|exact E|]. by replace (n - taken r - (s' - (s + taken r))) with (n - (s' - s)) by lia.
Qed.

(** What the three pairs of functions promise: the units [U c] of a code point are
    written as its encoding, they are read from it, and no other units are taken. *)
Class UnitCodec (f : Z -> Z -> C ustate Z) (g : Z -> Z -> C ustate (Z * option Z)) (U : Z -> list Z) (bits : Z) : Prop := {
  uc_puts c : valid_cp c -> puts_units f c (U c);
  uc_gets c : valid_cp c -> gets_units g c (U c);
  uc_accepts us st s s' st' : 0 < s -> Forall (fun u => 0 <= u < 2 ^ bits) us -> cs_count (u_ps st) = 0 -> put_units f us s st = Some (s', st') -> cs_count (u_ps st') = 0 ->
    exists cs, Forall valid_cp cs /\ us = concat (map U cs)
}.

Definition utf8_text (cs : list Z) : list Z := concat (map utf8_encode cs).

Section client.
Context `{UnitCodec f g U bits}.

Lemma puts_text cs : forall st s, Forall valid_cp cs -> 0 < s -> cs_count (u_ps st) = 0 -> mapped (u_mem st) s (zlen (utf8_text cs)) ->
  exists ps, put_units f (concat (map U cs)) s st = Some (s + zlen (utf8_text cs), Us (put_bytes (u_mem st) s (utf8_text cs)) (u_errno st) ps) /\ cs_count ps = 0.
Proof.
  unfold utf8_text. induction cs as [|c cs IH]; intros st s Hcs Hs Hst Hm; cbn [map concat] in *; [destruct st as [m e ps]; exists ps; split; [by rewrite Z.add_0_r|done]|].
  apply Forall_cons in Hcs as [Hc Hcs]. rewrite length_app, Nat2Z.inj_add in *. destruct (uc_puts c Hc st s) as (ps1 & E1 & Hp1); [unfold NULL; lia|done|by apply (mapped_weaken _ _ _ _ _ Hm); lia|].
  destruct (IH (Us (put_bytes (u_mem st) s (utf8_encode c)) (u_errno st) ps1) (s + zlen (utf8_encode c)) Hcs) as (ps2 & E2 & Hp2); [lia|done|apply put_bytes_mapped; by apply (mapped_weaken _ _ _ _ _ Hm); lia|].
  exists ps2. split; [|done]. rewrite (put_app _ _ _ _ _ _ _ E1), E2. cbn [u_mem u_errno]. by rewrite put_bytes_app, Z.add_assoc.
Qed.

Lemma gets_text cs : forall st s n, Forall valid_cp cs -> 0 < s -> cs_count (u_ps st) = 0 -> bytes_at (u_mem st) s (utf8_text cs) -> zlen (utf8_text cs) <= n <= 2 ^ long_bits - 1 ->
  exists ps, get_units g (length (concat (map U cs))) s n st = Some ((concat (map U cs), s + zlen (utf8_text cs)), Us (u_mem st) (u_errno st) ps) /\ cs_count ps = 0.
Proof.
  unfold utf8_text. induction cs as [|c cs IH]; intros st s n Hcs Hs Hst Hb Hn; cbn [map concat] in *; [destruct st as [m e ps]; exists ps; split; [by rewrite Z.add_0_r|done]|].
  apply Forall_cons in Hcs as [Hc Hcs]. rewrite !length_app, ?Nat2Z.inj_add in *. apply bytes_at_app in Hb as [Hb1 Hb2]. destruct (uc_gets c Hc st s n) as (ps1 & E1 & Hp1); [unfold NULL; lia|done|done|lia|].
  destruct (IH (Us (u_mem st) (u_errno st) ps1) (s + zlen (utf8_encode c)) (n - zlen (utf8_encode c)) Hcs) as (ps2 & E2 & Hp2); [lia|done|done|lia|].
  exists ps2. split; [|done]. erewrite get_app; [|exact E1|]; [|replace (n - (s + zlen (utf8_encode c) - s)) with (n - zlen (utf8_encode c)) by lia; exact E2]. by rewrite Z.add_assoc.
Qed.
End client.
End spec.
