(* ===== verification/UcharAccept.v ===== *)
(** * Characters of 8, 16 and 32 bits: the units that are taken

    No list of units is converted but those of a list of code points: a surrogate
    without its other half, a byte out of place, an overlong form and a value that
    is not a code point are all refused. *)

From stdpp Require Import base list gmap.
From Stdlib Require Import ZArith Lia.
From S2P Require Import Prelude CMem StrLocal Malloc Utf8 Uchar UcharSpec.

Local Open Scope Z_scope.

Section accept.
Context `{Arch}.
Implicit Types (st : ustate).

(** ** Steps that succeed *)

Lemma c32_valid c : 0 <= c -> char32_is_valid c = true -> valid_cp c.
Proof. intros Hc. unfold char32_is_valid, char32_is_surrogate, HIGH_SURROGATE_FIRST, LOW_SURROGATE_LAST, valid_cp, surrogate. lia. Qed.

Lemma illegal_no st r st1 : illegal st = Some (r, st1) -> r = SIZE_ERR.
Proof. unfold illegal, bind, set_uerrno, ret. by intros [= <- _]. Qed.

Lemma put_cons f u us s st s' st' : put_units f (u :: us) s st = Some (s', st') -> exists r st1, f s u st = Some (r, st1) /\ r <> SIZE_ERR /\ put_units f us (s + r) st1 = Some (s', st').
Proof.
  cbn [put_units]. unfold bind. intros E. destruct (f s u st) as [[r st1]|]; [|done]. exists r, st1. destruct (Z.eqb_spec r SIZE_ERR); [done|]. by split_and!.
Qed.

Lemma wcrtomb_inv s c st r st1 : s <> NULL -> 0 <= c -> wcrtomb s c st = Some (r, st1) -> r <> SIZE_ERR -> valid_cp c /\ u_ps st1 = u_ps st /\ 0 <= r.
Proof.
  intros Hs Hc E Hr. unfold wcrtomb, bind at 1, wctomb_call in E. rewrite (proj2 (Z.eqb_neq s NULL)) in E by done.
  destruct (decide (surrogate c \/ 0x10ffff < c)) as [Hbad|Hok].
  - rewrite utf8_wctomb_bad in E by done. cbn in E. injection E as <- _. done.
  - destruct (__utf8_wctomb s c (u_mem st)) as [[v m]|]; [|done]. destruct (v =? -1); [injection E as <- _; done|]. injection E as <- <-. split; [unfold valid_cp, surrogate in *; lia|]. split; [done|]. unfold size_t, uwrap. apply Z.mod_pos_bound. pose proof size_max_big. change (2 ^ 32) with 4294967296 in *. lia.
Qed.

(** ** UTF-32 *)

Lemma accepts32 us : forall st s s' st', 0 < s -> Forall (fun u => 0 <= u < 2 ^ 32) us -> put_units c32rtomb us s st = Some (s', st') ->
  exists cs, Forall valid_cp cs /\ us = concat (map (fun c => [c]) cs).
Proof.
  induction us as [|u us IH]; intros st s s' st' Hs Hus E; [by exists []|]. apply Forall_cons in Hus as [Hu Hus]. cbv beta in Hu. apply put_cons in E as (r & st1 & E1 & Hr & E).
  unfold c32rtomb in E1. destruct (char32_is_valid u) eqn:Ev; cbn [negb] in E1; [|by apply illegal_no in E1]. apply c32_valid in Ev; [|lia]. rewrite swrap_cp in E1 by done.
  apply wcrtomb_inv in E1 as (_ & _ & Hr0); [|unfold NULL; lia|lia|done]. destruct (IH st1 (s + r) s' st' ltac:(lia) Hus E) as (cs & Hcs & ->). exists (u :: cs). by split; [constructor|].
Qed.

(** ** UTF-16 *)

Lemma c16_inv s u st r st1 : 0 < s -> 0 <= u < 2 ^ 16 -> cs_count (u_ps st) = 0 -> c16rtomb s u st = Some (r, st1) -> r <> SIZE_ERR ->
  (valid_cp u /\ cs_count (u_ps st1) = 0 /\ 0 <= r) \/
  (0xd800 <= u <= 0xdbff /\ cs_count (u_ps st1) = -1 /\ __ucs (u_ps st1) = (u - 0xd800) * 1024 + 0x10000 /\ r = 0).
Proof.
  intros Hs Hu Hst E Hr. change (2 ^ 16) with 65536 in Hu. unfold c16rtomb, bind at 1, get_ps in E. rewrite Hst in E. change (0 =? -1) with false in E. cbv iota in E.
  destruct (char16_is_high_surrogate u) eqn:Eh; unfold char16_is_high_surrogate, HIGH_SURROGATE_FIRST, HIGH_SURROGATE_LAST in Eh.
  - right. unfold bind, put_ps, ret in E. injection E as <- <-. cbn [u_ps]. rewrite count_set, ucs_count. assert (0xd800 <= u <= 0xdbff) as Hb by lia. split_and!; try done; try lia.
    rewrite land_10, Z.shiftl_mul_pow2 by lia. change (2 ^ 10) with 1024. replace (u mod 1024) with (u - 0xd800) by div_solve. rewrite uwrap_small by (change (2 ^ 32) with 4294967296; lia). apply ucs_set. change (2 ^ 32) with 4294967296. lia.
  - left. rewrite swrap_small in E by (change (2 ^ (32 - 1)) with 2147483648; lia). apply wcrtomb_inv in E as (Hv & Ep & Hr0); [|unfold NULL; lia|lia|done]. by rewrite Ep.
Qed.

Lemma c16_second s u v st r st1 : 0 < s -> 0 <= u < 2 ^ 16 -> 0 <= v < 1024 -> cs_count (u_ps st) = -1 -> __ucs (u_ps st) = v * 1024 + 0x10000 -> c16rtomb s u st = Some (r, st1) -> r <> SIZE_ERR ->
  exists c, valid_cp c /\ 0x10000 <= c /\ v = (c - 0x10000) / 1024 /\ u = 0xdc00 + c mod 1024 /\ cs_count (u_ps st1) = 0 /\ 0 <= r.
Proof.
  intros Hs Hu Hv Hst Eu E Hr. change (2 ^ 16) with 65536 in Hu. unfold c16rtomb, bind at 1, get_ps in E. rewrite Hst in E. change (-1 =? -1) with true in E. cbv iota in E. unfold bind at 1, put_ps in E.
  destruct (char16_is_low_surrogate u) eqn:El; [|by apply illegal_no in E]. unfold char16_is_low_surrogate, LOW_SURROGATE_FIRST, LOW_SURROGATE_LAST in El. assert (0xdc00 <= u <= 0xdfff) as Hb by lia.
  rewrite Eu, land_10 in E. replace (u mod 1024) with (u - 0xdc00) in E by div_solve. rewrite (lor_low 10) in E by (try done; change (2 ^ 10) with 1024; div_solve).
  rewrite swrap_small in E by (change (2 ^ (32 - 1)) with 2147483648; lia). apply wcrtomb_inv in E as (Hc & Ep & Hr0); [|unfold NULL; lia|lia|done].
  exists (v * 1024 + 0x10000 + (u - 0xdc00)). rewrite Ep. split_and!; try done; [lia|div_solve|div_solve].
Qed.

Lemma accepts16_aux (k : nat) : forall us st s s' st', (length us <= k)%nat -> 0 < s -> Forall (fun u => 0 <= u < 2 ^ 16) us -> cs_count (u_ps st) = 0 -> put_units c16rtomb us s st = Some (s', st') -> cs_count (u_ps st') = 0 ->
  exists cs, Forall valid_cp cs /\ us = concat (map units16 cs).
Proof.
  induction k as [|k IH]; intros us st s s' st' Hk Hs Hus Hst E Hend; (destruct us as [|u us]; [by exists []|]); [cbn in Hk; lia|]. cbn [length] in Hk. apply Forall_cons in Hus as [Hu Hus]. cbv beta in Hu.
  apply put_cons in E as (r & st1 & E1 & Hr & E). apply c16_inv in E1 as [(Hv & Hst1 & Hr0)|(Hb & Hst1 & Eu & ->)]; try done.
  - destruct (IH us st1 (s + r) s' st' ltac:(lia) ltac:(lia) Hus Hst1 E Hend) as (cs & Hcs & ->). exists (u :: cs). split; [by constructor|]. cbn [map concat]. unfold units16 at 2. change (2 ^ 16) with 65536 in Hu. by rewrite (proj2 (Z.ltb_lt u 0x10000)) by lia.
  - destruct us as [|u2 us]; [injection E as _ <-; lia|]. apply Forall_cons in Hus as [Hu2 Hus]. cbv beta in Hu2. cbn [length] in Hk. apply put_cons in E as (r2 & st2 & E2 & Hr2 & E). rewrite Z.add_0_r in *.
    destruct (c16_second s u2 (u - 0xd800) st1 r2 st2) as (c & Hc & Hge & Ev & -> & Hst2 & Hr0); try done; [lia|].
    destruct (IH us st2 (s + r2) s' st' ltac:(lia) ltac:(lia) Hus Hst2 E Hend) as (cs & Hcs & ->). exists (c :: cs). split; [by constructor|]. cbn [map concat]. unfold units16 at 2. rewrite (proj2 (Z.ltb_ge c 0x10000)) by lia. cbn [app]. rewrite <- Ev. f_equal. lia.
Qed.

(** ** UTF-8 *)

(** The first bytes that are taken; of 0xf8 and 0xfc nothing is known but that
    the value is 0. *)
Definition lead_ok (b : Z) : bool :=
  match c8_count 6 b 1 with
  | None => true
  | Some k =>
      let v := uwrap 32 (Z.shiftl (Z.land b (Z.shiftl 1 (6 - k) - 1)) (6 * k)) in
      if char32_is_valid v then
        ((b <=? 0xf4) && (k =? lead_count b) && (v =? (b - (if b <? 0xe0 then 0xc0 else if b <? 0xf0 then 0xe0 else 0xf0)) * 2 ^ (6 * k)))
        || ((4 <=? k) && (k <=? 5) && (v =? 0))
      else true
  end.

Lemma lead_all b : 0xc2 <= b < 256 -> lead_ok b = true.
Proof.
  intros Hb. assert (forallb (fun i => lead_ok (0xc2 + Z.of_nat i)) (seq 0 62) = true) as Hc by (vm_compute; reflexivity).
  rewrite forallb_forall in Hc. specialize (Hc (Z.to_nat (b - 0xc2))). rewrite in_seq in Hc. specialize (Hc ltac:(lia)). by replace (0xc2 + Z.of_nat (Z.to_nat (b - 0xc2))) with b in Hc by lia.
Qed.

Lemma c8_first_inv s b st r st1 : 0 < s -> 0 <= b < 256 -> cs_count (u_ps st) = 0 -> c8rtomb s b st = Some (r, st1) -> r <> SIZE_ERR ->
  (b < 0x80 /\ cs_count (u_ps st1) = 0 /\ 0 <= r) \/
  (0xc2 <= b <= 0xf4 /\ cs_count (u_ps st1) = - lead_count b /\ __ucs (u_ps st1) = (b - (if b <? 0xe0 then 0xc0 else if b <? 0xf0 then 0xe0 else 0xf0)) * 2 ^ (6 * lead_count b) /\ r = 0) \/
  (exists k, 4 <= k <= 5 /\ cs_count (u_ps st1) = - k /\ __ucs (u_ps st1) = 0 /\ r = 0).
Proof.
  intros Hs Hb Hst E Hr. unfold c8rtomb in E. rewrite (proj2 (Z.eqb_neq s NULL)) in E by (unfold NULL; lia). unfold bind at 1, get_ps in E. unfold char8_is_one_byte, char8_is_first_byte in E. rewrite Hst in E.
  change (negb (0 =? 0)) with false in E. change (- 0) with 0 in E. change (0 =? 0) with true in E. cbn [orb] in E.
  destruct (Z.leb_spec b 0x7f) as [H1|H1].
  { left. rewrite swrap_small in E by (change (2 ^ (32 - 1)) with 2147483648; lia). apply wcrtomb_inv in E as (_ & Ep & Hr0); [|unfold NULL; lia|lia|done]. rewrite Ep. split_and!; try done; lia. }
  right. destruct (Z.leb_spec 0xc0 b) as [H2|H2]; [|by apply illegal_no in E]. destruct (Z.leb_spec b 0xc1) as [H3|H3]; [by apply illegal_no in E|].
  pose proof (lead_all b ltac:(lia)) as Hl. unfold lead_ok in Hl. destruct (c8_count 6 b 1) as [k|] eqn:Ek; [|by apply illegal_no in E].
  set (v := uwrap 32 _) in *. destruct (char32_is_valid v) eqn:Ev; cbn [negb] in E; [|by apply illegal_no in E]. unfold bind, put_ps, ret in E. injection E as <- <-. cbn [u_ps]. rewrite count_set, ucs_count.
  assert (0 <= v < 2 ^ 32) as Hv by (unfold v, uwrap; apply Z.mod_pos_bound; lia). rewrite ucs_set by done. apply orb_prop in Hl as [Hl|Hl].
  - left. apply andb_prop in Hl as [Hl E3]. apply andb_prop in Hl as [Hl E2]. apply Z.eqb_eq in E2, E3. rewrite <- E2, E3. split_and!; try done; lia.
  - right. exists k. split_and!; try done; lia.
Qed.

(** A later byte, with [k] to come after it. *)
Lemma c8_next_inv s b st r st1 u k : 0 < s -> 0 <= b < 256 -> 0 <= k <= 4 -> cs_count (u_ps st) = - (k + 1) -> 0 <= u < 2 ^ 20 -> __ucs (u_ps st) = u * 2 ^ (6 * (k + 1)) -> c8rtomb s b st = Some (r, st1) -> r <> SIZE_ERR ->
  exists x, b = 0x80 + x /\ 0 <= x < 64 /\ valid_cp (u * 2 ^ (6 * (k + 1)) + x * 2 ^ (6 * k)) /\ (u = 0 -> Z.shiftr 0x80 (k + 1) <= x) /\ cs_count (u_ps st1) = - k /\ 0 <= r /\
    (0 < k -> r = 0 /\ __ucs (u_ps st1) = u * 2 ^ (6 * (k + 1)) + x * 2 ^ (6 * k)).
Proof.
  intros Hs Hb Hk Hst Hu Eu E Hr. unfold c8rtomb in E. rewrite (proj2 (Z.eqb_neq s NULL)) in E by (unfold NULL; lia). unfold bind at 1, get_ps in E. unfold char8_is_one_byte, char8_is_first_byte in E. rewrite Hst in E.
  rewrite (proj2 (Z.eqb_neq (- (k + 1)) 0)) in E by lia. cbn [negb orb] in E.
  destruct (Z.leb_spec b 0x7f) as [H1|H1]; [by apply illegal_no in E|]. destruct (Z.leb_spec 0xc0 b) as [H2|H2]; [by apply illegal_no in E|].
  rewrite land_6 in E. set (x := b mod 64) in *. assert (0 <= x < 64 /\ b = 0x80 + x) as [Hx Ex] by (unfold x; div_solve). exists x. replace (- - (k + 1)) with (k + 1) in E by lia. rewrite (proj2 (Z.eqb_neq (k + 1) 0)), Eu in E by lia. cbn [orb] in E.
  destruct ((u * 2 ^ (6 * (k + 1)) =? 0) && (x <? Z.shiftr 0x80 (k + 1))) eqn:Eo; [by apply illegal_no in E|]. replace (k + 1 - 1) with k in E by lia.
  assert (0 < 2 ^ (6 * k)) as Hp by (apply Z.pow_pos_nonneg; lia). assert (2 ^ (6 * (k + 1)) = 64 * 2 ^ (6 * k)) as Ep by (replace (6 * (k + 1)) with (6 + 6 * k) by lia; rewrite Z.pow_add_r by lia; done).
  assert (2 ^ (6 * k) <= 2 ^ 24) as Hp4 by (apply Z.pow_le_mono_r; lia). change (2 ^ 24) with 16777216 in Hp4.
  rewrite Z.shiftl_mul_pow2, uwrap_small in E by (try lia; change (2 ^ 32) with 4294967296; nia).
  rewrite (lor_low (6 * (k + 1))) in E; [|lia|rewrite Ep; nia|apply Z.mod_mul; rewrite Ep; lia]. set (v := u * 2 ^ (6 * (k + 1)) + x * 2 ^ (6 * k)) in *.
  destruct (char32_is_valid v) eqn:Ev; cbn [negb] in E; [|by apply illegal_no in E]. apply c32_valid in Ev; [|unfold v; nia].
  assert (u = 0 -> Z.shiftr 0x80 (k + 1) <= x) as Hov by (intros Hu0; rewrite Hu0 in Eo; cbn [Z.mul Z.eqb andb] in Eo; lia).
  destruct (Z.eqb_spec k 0) as [->|Hk0]; cbn [negb] in E; unfold bind at 1, put_ps in E.
  - rewrite swrap_cp in E by done. apply wcrtomb_inv in E as (_ & Eps & Hr0); [|unfold NULL; lia|destruct Ev; lia|done]. rewrite Eps. split_and!; try done; lia.
  - unfold ret in E. injection E as <- <-. cbn [u_ps]. split_and!; try done; try lia. intros _. split; [done|]. apply ucs_set. destruct Ev. change (2 ^ 32) with 4294967296. lia.
Qed.

Lemma tail8_inv : forall (k : nat) us st s s' st' u, (k <= 2)%nat -> 0 < s -> Forall is_byte us -> cs_count (u_ps st) = - Z.of_nat (S k) -> 0 <= u < 2 ^ 20 -> __ucs (u_ps st) = u * 2 ^ (6 * Z.of_nat (S k)) ->
  put_units c8rtomb us s st = Some (s', st') -> cs_count (u_ps st') = 0 ->
  exists c rest s1 st1, us = tail8 (S k) c ++ rest /\ valid_cp c /\ c / 2 ^ (6 * Z.of_nat (S k)) = u /\ (u = 0 -> Z.shiftr 0x80 (Z.of_nat (S k)) <= c / 2 ^ (6 * Z.of_nat k) mod 64) /\
    0 < s1 /\ Forall is_byte rest /\ cs_count (u_ps st1) = 0 /\ put_units c8rtomb rest s1 st1 = Some (s', st').
Proof.
  induction k as [|k IH]; intros us st s s' st' u Hk Hs Hus Hst Hu Eu E Hend; (destruct us as [|b us]; [injection E as _ <-; lia|]); apply Forall_cons in Hus as [Hb Hus]; apply put_cons in E as (r & st1 & E1 & Hr & E).
  - destruct (c8_next_inv s b st r st1 u 0) as (x & -> & Hx & Hv & Hov & Hst1 & Hr0 & _); try done; try lia. change (2 ^ (6 * (0 + 1))) with 64 in Hv. change (2 ^ (6 * 0)) with 1 in Hv. rewrite Z.mul_1_r in Hv.
    exists (u * 64 + x), us, (s + r), st1. cbn [tail8]. change (2 ^ (6 * Z.of_nat 0)) with 1. change (2 ^ (6 * Z.of_nat 1)) with 64. rewrite Z.div_1_r. replace ((u * 64 + x) mod 64) with x by div_solve. replace ((u * 64 + x) / 64) with u by div_solve. split_and!; try done; lia.
  - assert (0 < 2 ^ (6 * Z.of_nat (S k))) as Hp by (apply Z.pow_pos_nonneg; lia). assert (2 ^ (6 * Z.of_nat (S (S k))) = 2 ^ (6 * Z.of_nat (S k)) * 64) as Ep by (replace (6 * Z.of_nat (S (S k))) with (6 * Z.of_nat (S k) + 6) by lia; rewrite Z.pow_add_r by lia; done).
    destruct (c8_next_inv s b st r st1 u (Z.of_nat (S k))) as (x & -> & Hx & Hv & Hov & Hst1 & _ & Hmore); try done; try lia.
    replace (Z.of_nat (S k) + 1) with (Z.of_nat (S (S k))) in * by lia. destruct (Hmore ltac:(lia)) as [-> Eu1]. rewrite Z.add_0_r in E.
    replace (u * 2 ^ (6 * Z.of_nat (S (S k))) + x * 2 ^ (6 * Z.of_nat (S k))) with ((u * 64 + x) * 2 ^ (6 * Z.of_nat (S k))) in * by (rewrite Ep; lia).
    destruct (IH us st1 s s' st' (u * 64 + x)) as (c & rest & s1 & st2 & -> & Hc & Ec & _ & H1 & H2 & H3 & H4); try done; [lia|destruct Hv as [Hv _]; assert (2 ^ 6 <= 2 ^ (6 * Z.of_nat (S k))) as Hp6 by (apply Z.pow_le_mono_r; lia); change (2 ^ 6) with 64 in Hp6; change (2 ^ 20) with 1048576; nia|].
    exists c, rest, s1, st2. rewrite Ep, <- Z.div_div, Ec by lia. replace ((u * 64 + x) / 64) with u by div_solve. replace ((u * 64 + x) mod 64) with x by div_solve. split_and!; try done.
    remember (S k) as j. cbn [tail8 app]. rewrite Ec. by replace ((u * 64 + x) mod 64) with x by div_solve.
Qed.

(** A first byte and the bytes after it are the shortest form of their value. *)
Lemma encode_of_form c b k : 0 <= c -> 0xc2 <= b <= 0xf4 -> lead_count b = Z.of_nat (S k) -> c / 2 ^ (6 * Z.of_nat (S k)) = b - (if b <? 0xe0 then 0xc0 else if b <? 0xf0 then 0xe0 else 0xf0) ->
  (b - (if b <? 0xe0 then 0xc0 else if b <? 0xf0 then 0xe0 else 0xf0) = 0 -> Z.shiftr 0x80 (Z.of_nat (S k)) <= c / 2 ^ (6 * Z.of_nat k) mod 64) -> utf8_encode c = b :: tail8 (S k) c.
Proof.
  intros Hc Hb. unfold lead_count, utf8_encode. destruct (Z.ltb_spec b 0xe0) as [H1|H1]; [|destruct (Z.ltb_spec b 0xf0) as [H2|H2]]; intros Ek; (destruct k as [|[|[|k]]]; try lia); cbn [tail8]; clear Ek;
    change (2 ^ (6 * Z.of_nat 0)) with 1; change (2 ^ (6 * Z.of_nat 1)) with 64; change (2 ^ (6 * Z.of_nat 2)) with 4096; change (2 ^ (6 * Z.of_nat 3)) with 262144; rewrite Z.div_1_r; intros Eq Hov.
  - assert (0x80 <= c < 0x800) by div_solve. rewrite (proj2 (Z.ltb_ge c 0x80)), (proj2 (Z.ltb_lt c 0x800)) by lia. f_equal. lia.
  - change (Z.shiftr 0x80 (Z.of_nat 2)) with 32 in Hov. assert (0x800 <= c < 0x10000) by (destruct (Z.eq_dec b 0xe0); [specialize (Hov ltac:(lia))|]; div_solve). rewrite (proj2 (Z.ltb_ge c 0x80)), (proj2 (Z.ltb_ge c 0x800)), (proj2 (Z.ltb_lt c 0x10000)) by lia. f_equal. lia.
  - change (Z.shiftr 0x80 (Z.of_nat 3)) with 16 in Hov. assert (0x10000 <= c) by (destruct (Z.eq_dec b 0xf0); [specialize (Hov ltac:(lia))|]; div_solve). rewrite (proj2 (Z.ltb_ge c 0x80)), (proj2 (Z.ltb_ge c 0x800)), (proj2 (Z.ltb_ge c 0x10000)) by lia. f_equal. lia.
Qed.

(** After 0xf8 or 0xfc no byte is taken. *)
Lemma no_long_form us st s s' st' k : 0 < s -> Forall is_byte us -> 4 <= k <= 5 -> cs_count (u_ps st) = - k -> __ucs (u_ps st) = 0 -> put_units c8rtomb us s st = Some (s', st') -> cs_count (u_ps st') <> 0.
Proof.
  intros Hs Hus Hk Hst Eu E. destruct us as [|b us]; [injection E as _ <-; lia|]. apply Forall_cons in Hus as [Hb _]. apply put_cons in E as (r & st1 & E1 & Hr & _).
  destruct (c8_next_inv s b st r st1 0 (k - 1)) as (x & _ & Hx & [Hv _] & Hov & _); try done; try lia. specialize (Hov eq_refl). exfalso. assert (k = 4 \/ k = 5) as [-> | ->] by lia; [change (2 ^ (6 * (4 - 1))) with 262144 in Hv; change (Z.shiftr 0x80 (4 - 1 + 1)) with 8 in Hov|change (2 ^ (6 * (5 - 1))) with 16777216 in Hv; change (Z.shiftr 0x80 (5 - 1 + 1)) with 4 in Hov]; lia.
Qed.

Lemma accepts8_aux (j : nat) : forall us st s s' st', (length us <= j)%nat -> 0 < s -> Forall is_byte us -> cs_count (u_ps st) = 0 -> put_units c8rtomb us s st = Some (s', st') -> cs_count (u_ps st') = 0 ->
  exists cs, Forall valid_cp cs /\ us = concat (map utf8_encode cs).
Proof.
  induction j as [|j IH]; intros us st s s' st' Hj Hs Hus Hst E Hend; (destruct us as [|b us]; [by exists []|]); [cbn in Hj; lia|]. cbn [length] in Hj. apply Forall_cons in Hus as [Hb Hus].
  apply put_cons in E as (r & st1 & E1 & Hr & E). apply c8_first_inv in E1 as [(Hlt & Hst1 & Hr0)|[(Hl & Hst1 & Eu & ->)|(k & Hk & Hst1 & Eu & ->)]]; try done; try rewrite Z.add_0_r in E.
  - destruct (IH us st1 (s + r) s' st' ltac:(lia) ltac:(lia) Hus Hst1 E Hend) as (cs & Hcs & ->). exists (b :: cs). destruct Hb as [Hb0 _]. split; [constructor; [unfold valid_cp, surrogate; lia|done]|].
    cbn [map concat]. unfold utf8_encode at 2. by rewrite (proj2 (Z.ltb_lt b 0x80)).
  - set (u := b - _) in *. assert (exists k, lead_count b = Z.of_nat (S k) /\ (k <= 2)%nat) as (k & Ek & Hk) by (exists (Z.to_nat (lead_count b - 1)); unfold lead_count; repeat case_bool; lia). rewrite Ek in *.
    destruct (tail8_inv k us st1 s s' st' u) as (c & rest & s1 & st2 & -> & Hc & Ec & Hov & H1 & H2 & H3 & H4); try done; [unfold u; change (2 ^ 20) with 1048576; repeat case_bool; lia|].
    rewrite length_app in Hj. destruct (IH rest st2 s1 s' st' ltac:(lia) ltac:(lia) H2 H3 H4 Hend) as (cs & Hcs & ->). exists (c :: cs). split; [by constructor|]. cbn [map concat]. by rewrite (encode_of_form c b k ltac:(destruct Hc; lia) Hl Ek Ec Hov).
  - by apply (no_long_form us st1 s s' st' k) in E.
Qed.

(** ** The three pairs of functions *)

#[export] Instance codec32 : UnitCodec c32rtomb mbrtoc32 (fun c => [c]) 32.
Proof. constructor; [exact puts32|exact gets32|]. intros us st s s' st' Hs Hus _ E _. by apply (accepts32 us st s s' st'). Qed.

#[export] Instance codec16 : UnitCodec c16rtomb mbrtoc16 units16 16.
Proof. constructor; [exact puts16|exact gets16|]. intros us st s s' st' Hs Hus Hst E Hend. by apply (accepts16_aux (length us) us st s s' st'). Qed.

#[export] Instance codec8 : UnitCodec c8rtomb mbrtoc8 utf8_encode 8.
Proof. constructor; [exact puts8|exact gets8|]. intros us st s s' st' Hs Hus Hst E Hend. by apply (accepts8_aux (length us) us st s s' st'). Qed.
End accept.
