(* ===== verification/UcharProps.v ===== *)
(** * Characters of 8, 16 and 32 bits: properties *)

From stdpp Require Import base list gmap.
From Stdlib Require Import ZArith Lia.
From S2P Require Import Prelude CMem StrLocal Demo Malloc Utf8 Uchar UcharSpec UcharAccept.

Local Open Scope Z_scope.

(** char8_t, char16_t and char32_t. *)
Inductive uwidth := U8 | U16 | U32.

Definition unit_bits (w : uwidth) : Z := match w with U8 => 8 | U16 => 16 | U32 => 32 end.
Definition units (w : uwidth) : Z -> list Z := match w with U8 => utf8_encode | U16 => units16 | U32 => fun c => [c] end.
Definition text_units (w : uwidth) (cs : list Z) : list Z := concat (map (units w) cs).

Section props.
Context `{Arch}.
Implicit Types (st : ustate).

Definition crtomb (w : uwidth) : Z -> Z -> C ustate Z := match w with U8 => c8rtomb | U16 => c16rtomb | U32 => c32rtomb end.
Definition mbrtoc (w : uwidth) : Z -> Z -> C ustate (Z * option Z) := match w with U8 => mbrtoc8 | U16 => mbrtoc16 | U32 => mbrtoc32 end.

#[local] Instance codec w : UnitCodec (crtomb w) (mbrtoc w) (units w) (unit_bits w).
Proof. destruct w; cbn; apply _. Qed.

(** ** Sizes *)

Lemma units_nonempty w c : valid_cp c -> 1 <= zlen (units w c).
Proof. intros Hc. destruct w; cbn [units]; [apply (utf8_length c Hc)|unfold units16; case_bool; cbn; lia|cbn; lia]. Qed.

Lemma text_size w cs : Forall valid_cp cs -> zlen (utf8_text cs) <= 4 * zlen (text_units w cs).
Proof.
  unfold utf8_text, text_units. induction 1 as [|c cs Hc Hcs IH]; cbn [map concat]; [cbn; lia|]. rewrite !length_app. pose proof (utf8_length c Hc). pose proof (units_nonempty w c Hc). lia.
Qed.

(** ** Calls that are refused *)

Lemma utf8_wctomb_result s c m v m' : s <> NULL -> __utf8_wctomb s c m = Some (v, m') -> (v = -1 /\ m' = m) \/ 1 <= v <= 4.
Proof.
  intros Hs E. unfold __utf8_wctomb in E. rewrite (proj2 (Z.eqb_neq s NULL)) in E by done. unfold bind, ret in E.
  repeat match type of E with
  | context [if ?b then _ else _] => destruct b
  | context [match store8 ?p ?x ?m with _ => _ end] => destruct (store8 p x m) as [[??]|]
  end; simplify_eq; first [by left|right; lia].
Qed.

Lemma wcrtomb_refused s c st st1 : s <> NULL -> wcrtomb s c st = Some (SIZE_ERR, st1) -> u_mem st1 = u_mem st /\ u_errno st1 = EILSEQ.
Proof.
  intros Hs E. unfold wcrtomb, bind at 1, wctomb_call in E. rewrite (proj2 (Z.eqb_neq s NULL)) in E by done. destruct (__utf8_wctomb s c (u_mem st)) as [[v m]|] eqn:Ew; [|done].
  destruct (utf8_wctomb_result _ _ _ _ _ Hs Ew) as [[-> ->]|Hv]; [cbn in E; by injection E as <-|]. rewrite (proj2 (Z.eqb_neq v (-1))) in E by lia. unfold ret in E. rewrite size_small in E by lia. injection E as E _. pose proof (not_size_err v ltac:(lia)) as Hn. lia.
Qed.

Lemma illegal_refused st st1 r : illegal st = Some (r, st1) -> u_mem st1 = u_mem st /\ u_errno st1 = EILSEQ.
Proof. unfold illegal, bind, set_uerrno, ret. by intros [= _ <-]. Qed.

Lemma size_err_pos : SIZE_ERR <> 0.
Proof. pose proof (not_size_err 0 ltac:(lia)) as E. apply Z.eqb_neq in E. done. Qed.

Ltac refused E := first [by apply (illegal_refused _ _ _ E) | apply wcrtomb_refused in E; [by destruct E|done] | unfold bind, put_ps, ret in E; injection E as E _; by destruct size_err_pos].

Lemma crtomb_refused w s u st st1 : s <> NULL -> crtomb w s u st = Some (SIZE_ERR, st1) -> u_mem st1 = u_mem st /\ u_errno st1 = EILSEQ.
Proof.
  intros Hs E. destruct w; cbn [crtomb] in E.
  - unfold c8rtomb in E. rewrite (proj2 (Z.eqb_neq s NULL)) in E by done. unfold bind at 1, get_ps in E. cbn beta iota in E.
    repeat match type of E with (if ?b then _ else _) _ = _ => destruct b | (match ?o with Some _ => _ | None => _ end) _ = _ => destruct o end; try refused E; unfold bind at 1, put_ps in E; refused E.
  - unfold c16rtomb, bind at 1, get_ps in E. destruct (cs_count (u_ps st) =? -1); [unfold bind at 1, put_ps in E; destruct (char16_is_low_surrogate u); refused E|]. destruct (char16_is_high_surrogate u); refused E.
  - unfold c32rtomb in E. destruct (negb (char32_is_valid u)); refused E.
Qed.

(** ** Claims *)

(** C38: a text converted with c8rtomb, c16rtomb or c32rtomb, unit by unit, is
    written as its UTF-8 encoding, with nothing else of memory, errno or the
    initial shift state changed, and mbrtoc8, mbrtoc16 and mbrtoc32 give the same
    units back from these bytes and end just after them: the surrogate pairs of
    UTF-16 and the sequences of UTF-8 included, whose units pass through the
    conversion state. *)
Theorem uchar_roundtrip w cs st s : Forall valid_cp cs -> 0 < s -> cs_count (u_ps st) = 0 -> mapped (u_mem st) s (zlen (utf8_text cs)) -> zlen (utf8_text cs) <= 2 ^ long_bits - 1 ->
  let n := zlen (utf8_text cs) in let m := put_bytes (u_mem st) s (utf8_text cs) in let us := text_units w cs in
  exists ps1 ps2, put_units (crtomb w) us s st = Some (s + n, Us m (u_errno st) ps1) /\ cs_count ps1 = 0 /\
    get_units (mbrtoc w) (length us) s n (Us m (u_errno st) ps1) = Some ((us, s + n), Us m (u_errno st) ps2) /\ cs_count ps2 = 0.
Proof.
  intros Hcs Hs Hst Hm Hn n m us. destruct (puts_text (f := crtomb w) cs st s) as (ps1 & E1 & H1); try done.
  destruct (gets_text (g := mbrtoc w) cs (Us m (u_errno st) ps1) s n) as (ps2 & E2 & H2); try done; [apply put_bytes_at|]. by exists ps1, ps2.
Qed.

(** C39: the conversions take the units of texts and no others.  A list of units in
    range is converted without an error, with no character left open, just when it
    is the UTF-8, UTF-16 or UTF-32 form of a list of code points: lone surrogates,
    bytes out of place, overlong forms and values past 0x10ffff are refused.  A call
    that refuses its unit has the result (size_t) -1 and sets errno to EILSEQ, and
    has written nothing. *)
Theorem uchar_accepts w us st s : 0 < s -> Forall (fun u => 0 <= u < 2 ^ unit_bits w) us -> cs_count (u_ps st) = 0 -> mapped (u_mem st) s (4 * zlen us) ->
  ((exists s' st', put_units (crtomb w) us s st = Some (s', st') /\ cs_count (u_ps st') = 0) <-> (exists cs, Forall valid_cp cs /\ us = text_units w cs)) /\
  (forall p u st0 st1, p <> NULL -> crtomb w p u st0 = Some (SIZE_ERR, st1) -> u_mem st1 = u_mem st0 /\ u_errno st1 = EILSEQ).
Proof.
  intros Hs Hus Hst Hm. split; [split|intros; by eapply crtomb_refused].
  - intros (s' & st' & E & Hend). by apply (uc_accepts (g := mbrtoc w) us st s s' st').
  - intros (cs & Hcs & ->). pose proof (text_size w cs Hcs). destruct (puts_text (f := crtomb w) cs st s) as (ps & E & Hps); try done; [by apply (mapped_weaken _ _ _ _ _ Hm); lia|]. eauto.
Qed.
End props.

#[local] Existing Instance LP64.

Definition initial_cs : cstate := Cs (Mb 0 0 0 0) 0.
Definition smile : list Z := [0x41; 0x1f600].

Lemma uchar_roundtrip_witness :
  let m := put_bytes demo room [0x41; 0xf0; 0x9f; 0x98; 0x80] in
  exists ps1 ps2, put_units c16rtomb [0x41; 0xd83d; 0xde00] room (Us demo 0 initial_cs) = Some (room + 5, Us m 0 ps1) /\ cs_count ps1 = 0 /\
    get_units mbrtoc16 3 room 5 (Us m 0 ps1) = Some (([0x41; 0xd83d; 0xde00], room + 5), Us m 0 ps2) /\ cs_count ps2 = 0.
Proof.
  exact (uchar_roundtrip U16 smile (Us demo 0 initial_cs) room ltac:(repeat constructor; vm_compute; intuition congruence) eq_refl eq_refl ltac:(eval_mem) ltac:(vm_compute; congruence)).
Defined.

Lemma uchar_accepts_witness :
  ((exists s' st', put_units c8rtomb [0xe0; 0x80; 0x80] room (Us demo 0 initial_cs) = Some (s', st') /\ cs_count (u_ps st') = 0) <->
   (exists cs, Forall valid_cp cs /\ [0xe0; 0x80; 0x80] = text_units U8 cs)) /\
  (forall p u st0 st1, p <> NULL -> c8rtomb p u st0 = Some (SIZE_ERR, st1) -> u_mem st1 = u_mem st0 /\ u_errno st1 = EILSEQ).
Proof.
  exact (uchar_accepts U8 [0xe0; 0x80; 0x80] (Us demo 0 initial_cs) room eq_refl ltac:(repeat constructor; vm_compute; congruence) eq_refl ltac:(eval_mem)).
Defined.

(** The second byte of an overlong form is refused. *)
Example overlong_refused : (do a <- c8rtomb room 0xe0; do b <- c8rtomb room 0x80; ret (a, b)) (Us demo 0 initial_cs) =
  Some ((0, SIZE_ERR), Us demo EILSEQ (set_cs_count (set_ucs initial_cs 0) (-2))).
Proof. vm_compute. reflexivity. Qed.

(** Without a string the decoders use a character that nothing has set. *)
Example null_string : mbrtoc32 NULL 0 (Us demo 0 initial_cs) = None /\ mbrtoc16 NULL 0 (Us demo 0 initial_cs) = None.
Proof. vm_compute. done. Qed.
